(* ===== verification/_CoqProject ===== *)
-Q . S2P
Prelude.v
CStr.v
GLib.v
Config.v
Freenet.v
FreenetNode.v
Url.v
Csp.v
Cookies.v
Body.v
CspHeaders.v
Fetch.v
Throttle.v
ConfigFile.v
IpcHttp.v
RendererIpc.v
EventSource.v
SafeBrowsing.v
DateTime.v
Temporal.v
HttpCache.v
WebSocket.v
CssSyntax.v
Images.v
ExtMatch.v
Ext.v
Xml.v
XmlRound.v
DomStore.v
DomTree.v
Dom.v
DomSpec.v
DomCalls.v
DomLists.v
DomDoc.v
DomPage.v
Element.v
Selector.v
SelParse.v
NodeState.v
SelMatch.v
SelTree.v
SelMeaning.v
SelSpec.v
SelPage.v
CssProps.v
RuleIndex.v
Cascade.v
CascadeSpec.v
GSort.v
CascadeFor.v
CascadeWins.v
CssLayers.v
CascadePage.v
CssVars.v
CssVarsSpec.v
CssVarsText.v
CssVarsCopies.v
CssVarMaps.v
CssVarMapsSpec.v
CssVarWins.v
CssVarPage.v
