(* ===== verification/Prelude.v ===== *)
(** * Northstar: a verification development of the browser's own code

    Northstar is a web browser in C over GTK, libcurl, lexbor, QuickJS and Wuffs,
    with a gateway to the Freenet network. This library models the parts of
    [src/src] that are the browser's own logic and whose behaviour a text can
    state: protocols, parsers, caches, policies, and the tree of the document. It
    proves what they promise.

    ** How the parts work together

    A page is fetched by [ns_fetch_sync] ([net.c]), which follows redirects, asks
    the cache ([cache.c]), sends cookies and a [Referer], checks the policies of
    the page that asks ([csp.c]), the blocking rules of extensions ([ext.c]) and the
    list of dangerous hosts ([safebrowsing.c]), and shares the network between
    fetches through tables under a mutex. A [freenet:] address goes to the node's
    gateway ([freenet.c]). A renderer process answers the browser over a pipe
    ([ipc_http.c], [rproc_http.c], [renderer_serve.c]). Documents of an XML type are
    parsed by [xml.c] into the nodes of [dom.c], which scripts move with the methods
    of [js.c]. Style values go through [css_syntax.c]; [css.c] reads selectors, files
    the rules of a sheet under the names their subjects must have, gathers for each
    element and its pseudo-elements the declarations of the rules that match, orders
    them and computes each property. Images go through [image_ico.c] and
    [image_wuffs.c]. Scripts see time through [datetime.c] and [js_date.c] and
    the network through [eventsource.c] and [ws.c].

    ** Files

    Foundations:
    - [Prelude]: bytes, C strings, tactics, and the lemmas the parts share;
    - [CStr]: the functions of [string.h], [strings.h] and [stdlib.h];
    - [GLib]: the class of GLib's string functions, what the manual says of them
      ([GLibSpec]), and an instance that shows it can be met and in only one way.

    One file, or a few, for each component; a definition has the name of the
    function it models:
    - [Config], [ConfigFile]: [config.h], [config.c]; a field is read and written
      through its slot, as the table of the code does through an offset;
    - [Freenet], [FreenetNode]: [freenet.c];
    - [Url], [Cookies], [Body], [Fetch], [Throttle]: [net.c] (addresses, origins and
      referers; the jars of scripts; bodies and header lines; a fetch with its
      redirects; the tables threads share);
    - [Csp], [CspHeaders]: [csp.c], and its meeting with the header lines;
    - [HttpCache]: [cache.c]; the SQLite table is a finite map of rows, the directory
      of bodies a map of files;
    - [IpcHttp], [RendererIpc]: [ipc_http.c], [rproc_http.c], [renderer_serve.c];
    - [EventSource]: [eventsource.c]; [WebSocket]: [ws.c], its two threads as programs
      of atomic steps over the shared record;
    - [SafeBrowsing]: [safebrowsing.c];
    - [DateTime]: [datetime.c]; [Temporal]: [js_date.c];
    - [CssSyntax]: [css_syntax.c];
    - [Images]: [image_ico.c], [image_wuffs.c], [texture.c];
    - [ExtMatch], [Ext]: [ext.c], matching and loading;
    - [Xml], [XmlRound]: [xml.c]; what a document means, and reading it back;
    - [DomStore], [Dom]: the nodes of [dom.c] in a heap of linked records, and the
      methods of [js.c] that move them; [DomTree], [DomSpec], [DomCalls],
      [DomLists], [DomDoc], [DomPage]: the tree the links stand for and what the
      methods do to it;
    - [Element]: the attributes of an element in [dom.c], with the class tokens and the
      filter of attribute names kept beside them;
    - [Selector], [SelParse]: the selectors of [css.c] and their parser;
      [NodeState], [SelMatch]: the tests of a node and the matcher; [SelTree],
      [SelMeaning], [SelSpec], [SelPage]: what a selector means on a tree, and a page;
    - [CssProps]: the table of properties, their names and the logical ones;
      [RuleIndex]: rules, sheets and their index; [Cascade], [CascadeSpec]: scopes, and
      gathering through the index against testing every rule; [CssLayers]: layers;
      [GSort]: GLib's sorting as a class; [CascadeFor], [CascadeWins]: the order of
      declarations and what a property becomes; [CascadePage]: a small page, styled.
      [CssVars]: substitution of custom properties; [CssVarsSpec], [CssVarsText],
      [CssVarsCopies]: its bounds, its meaning and what escapes its budget; [CssVarMaps],
      [CssVarMapsSpec], [CssVarWins]: the maps of elements; [CssVarPage]: examples.

    ** How the code is modelled

    A C string is the list of its bytes, a pointer that may be [NULL] an [option],
    a pointer into a string the suffix it points at, a [struct] a record, a hash
    table a finite map or an association list where its order shows. Integers are
    [Z] with the wrap-around of their C type written out where the code can reach
    it; elsewhere a theorem gives the range. A function that writes through pointers
    gets and returns the state; a failure is [None] or a constructor of its own.
    Threads are step relations, an interleaving a list of steps. Code that is not in
    the repository is an argument: a class with its documented laws where proofs
    rely on it (GLib, QuickJS's values), and otherwise a function that may answer
    anything (libcurl's transfers, Wuffs, SQLite's statements, the file system,
    regular expressions, what scripts and custom elements do when they are called).

    ** What is shown

    - Safety: what a script may write into a cookie jar, its exact contents afterwards
      included ([cookie_store_guarded]), and read from it; what a renderer's answer can make the browser touch
      ([render_reply_bounds]); that no image makes a reader leave its buffer
      ([images_in_bounds]); that every policy line is in force
      ([csp_headers_enforced]); referers; which requests extensions block; the life
      of a socket's record in every interleaving ([ws_references]); that the class
      tokens kept beside an element point into live memory
      ([class_tests_read_live_memory]).
    - Refinement and equivalence: the buffered reader of the pipe against a plain
      stream of bytes ([reader_refines_stream]); insertion of nodes against the
      DOM's ([insertion_as_specified]); URL filters against a reference matcher; the
      matcher of selectors against their meaning ([selectors_match_as_meant]);
      gathering through the rule index against a scan ([gathers_what_matches], with
      [index_finds_every_match]); sorting and applying declarations against the rule
      that the strongest wins ([strongest_declaration_wins], [revert_rolls_back]).
    - Custom properties: substitution against a meaning on trees
      ([substitution_gives_meaning]); the winning declaration, whatever properties are
      registered, of texts whose references cannot turn into a keyword
      ([strongest_custom_property_wins]); the maps made with registered properties
      against those made without ([plain_registrations_change_nothing]); names
      ([var_map_names_sorted]); the cache of maps ([build_cached]).
    - Invariants: the tables of the network ([throttle_progress],
      [coalesce_exactly_once], [origin_slots_invariant]); what a socket posts, drops and
      delivers ([ws_events]); the document tree under any calls
      ([page_calls_keep_tree]) and the well-formedness of documents
      ([checked_calls_keep_documents]); the cache over any history, with every
      statement and file operation failing at will, removals included
      ([cache_serves_what_was_stored]).
    - Round trips: messages of the pipe, frames, [freenet:] addresses, the
      configuration file, civil dates, XML documents ([xml_round_trip]).
    - Termination and liveness: redirects, the XML and CSS parsers, the selector
      parser ([selector_list_parsed]), the worker of a socket. Each hop of a redirect
      is the one the answer before it asks for ([fetch_sync_redirects]). The theorem
      on style values says for which texts the parser ends (it does not for all), and
      that every result is a reading of the text by a grammar of tokens given without
      the code ([css_components_tile], [CssSyntax.Grammar]).
    - Behaviour: event streams through a mailbox of 256 places that drops what finds it
      full ([event_stream_delivered]), WebSocket messages and sends, eviction, filter
      lists, content scripts, date-time arithmetic, the verdict on dangerous hosts, the
      ranks of style layers ([layers_ranked]), logical properties
      ([logical_properties_resolve]), names of properties
      ([property_names_roundtrip]).
    - Bounds: what a renderer's frame and the cache may hold; the nine places of the
      accumulators, which ten destinations overrun ([ten_destinations_need_no_match]); what a
      substitution makes and calls ([substitution_bounded]) and what its budget does
      not count ([last_level_is_free]).

    Some theorems have conditions on what is outside the modelled code or is the
    page's: no callback or script of the page that runs inside a call moves a node
    ([QuietCallbacks], for [page_calls_keep_tree] and the second half of
    [insertion_as_specified]; the examples [callback_makes_cycle] and
    [template_in_own_content] show what happens otherwise); the arguments of [prepend]
    are distinct and not the first child ([prepends_apart]); the digest has no
    collision among the texts a run of the cache hashes ([digest_ok]); the durations
    added to a date-time are in a range of about 292 years of hours and less, beyond
    which the code overflows [int64_t] and the model answers [Overflow]; declarations
    have distinct ranks. Each is said at the theorem.

    An [Example] is a concrete run: either a test of a definition or a case in which
    the code does something else than it means to.

    ** Bounds and fuel

    A loop whose recursion is not structural gets fuel, and a theorem says that it is
    enough: reading a line takes at most one step per byte left and one more
    ([read_line_loop]); a head at most 64 header lines ([head_loop]); a node's reply
    at most 2000 polls ([read_reply]); a fetch its redirect limit, at most ten
    ([fetch_loop]); a send the stalls and the budget of the code. Parsers of text get
    the length of what is left and one more ([xml_parse_total],
    [css_parse_terminates], the loops over image chunks, which answer [Fault] when
    it runs out and never do). A walk over the nodes of a document gets the size of
    the heap and one more: in a tree no node is met twice. The selector parser gets
    the length of the text; the matcher gets the height of the selector
    ([sel_height]), and [selectors_match_as_meant] asks that width and depth stay
    below the 512 levels at which the code stops walking down for [:has]. Substitution of
    custom properties has the code's own seventeen levels; its loops and the scans get
    the length of the text ([subst_loop_more]).

    ** What is not modelled

    Layout, painting, SVG, canvas and fonts compute in floating point over cairo and
    pango. Most of [js.c] binds QuickJS to the browser, [wasm.c] binds WAMR; their
    behaviour is those libraries'. HTML is parsed by lexbor. Of [css.c] the parser of
    rules and values, media and container queries, animations and
    the computation of lengths and displays are left out: values are floating-point
    numbers and functions of many kinds; the cascade takes them as an abstract type
    with its keywords ([Css_values]), and the tests of form controls, languages and
    directions that selectors make as a class ([Elsewhere]). The memo of [:has], the
    cache of selector results, the sharing of styles between elements and restyling
    of changed parts are left out: each keeps results the model computes. The stores
    of bookmarks and history ([bookmarks.c], [history.c]) and of [idb.c] are
    SQLite statements and file reads with no rules of their own. The user interface, start-up, sandboxes, audio and video are input and
    output without a contract that could be stated here. Vendored code ([wamr],
    [subprojects], [quickjs]) and the Rust crate of the node's protocol are not the
    browser's. Within the modelled files, what is left out is named in the comment at
    the top of each file or beside the definitions. *)

From Stdlib Require Export Ascii String ZArith Lia List.
From stdpp Require Export base list strings gmap.
Export List.ListNotations.

(** ** Bytes and C strings

    A C string is the list of its bytes up to (and without) the terminating
    NUL; a pointer into a string is the suffix it points at; a pointer that may
    be [NULL] is an [option]. *)

Abbreviation bytes := (list ascii).

Declare Scope bytes_scope.
Delimit Scope bytes_scope with bytes.
Notation "$ s" := (list_ascii_of_string s%string)
  (at level 1, s constr at level 0, format "$ s") : bytes_scope.
Notation "c =c d" := (Ascii.eqb c d%char)
  (at level 70, no associativity) : bytes_scope.
Notation "s =b t" := (bool_decide (s = t))
  (at level 70, no associativity) : bytes_scope.
#[global] Arguments list_ascii_of_string : simpl never.
Open Scope list_scope.
Open Scope nat_scope.
Open Scope bytes_scope.

(** The value of a byte as an [unsigned char], and the byte a C conversion to
    [unsigned char] gives. *)
Definition code (c : ascii) : Z := Z.of_N (N_of_ascii c).
Definition byte_of (z : Z) : ascii := ascii_of_N (Z.to_N (z mod 256)).

Definition nl : ascii := byte_of 10.
Definition cr : ascii := byte_of 13.
Definition tab : ascii := byte_of 9.
Definition dquote : ascii := byte_of 34.
Definition nul : ascii := byte_of 0.

(** ** Machine integers *)

Definition wrap_u (w z : Z) : Z := z mod 2 ^ w.
Definition wrap_s (w z : Z) : Z := (z + 2 ^ (w - 1)) mod 2 ^ w - 2 ^ (w - 1).
Definition in_u (w z : Z) : Prop := (0 <= z < 2 ^ w)%Z.
Definition in_s (w z : Z) : Prop := (- 2 ^ (w - 1) <= z < 2 ^ (w - 1))%Z.

(** ** List scanning loops *)

Abbreviation allb := (List.forallb).

Section Scan.
Context {A : Type}.
Implicit Types (f : A -> bool) (l : list A).

(** [while (p(x)) i++]: what the loop passes over, and where it stops. *)
Fixpoint take_while f l : list A :=
  match l with
  | [] => []
  | x :: l' => if f x then x :: take_while f l' else []
  end.

Fixpoint drop_while f l : list A :=
  match l with
  | [] => []
  | x :: l' => if f x then drop_while f l' else l
  end.

(** [prefixb p l]: [l] starts with [p]. *)
Fixpoint prefixb `{EqDecision A} (p l : list A) : bool :=
  match p, l with
  | [], _ => true
  | x :: p', y :: l' => bool_decide (x = y) && prefixb p' l'
  | _ :: _, [] => false
  end.
End Scan.

(** The head of a list satisfies a test; false on the empty list (the byte read
    there is the terminating NUL). *)
Definition head_is (f : ascii -> bool) (s : bytes) : bool :=
  match s with c :: _ => f c | [] => false end.

(** ** Tactics *)

(** Split the innermost boolean test or match of the goal. *)
Ltac case_test :=
  match goal with
  | |- context [bool_decide ?P] => destruct (bool_decide_reflect P)
  | |- context [if ?b then _ else _] =>
      lazymatch b with
      | context [if _ then _ else _] => fail
      | context [match _ with _ => _ end] => fail
      | _ => destruct b eqn:?
      end
  | |- context [match ?x with _ => _ end] =>
      lazymatch x with
      | context [match _ with _ => _ end] => fail
      | _ => destruct x eqn:?
      end
  end.

Ltac case_test_in H :=
  match type of H with
  | context [bool_decide ?P] => destruct (bool_decide_reflect P)
  | context [if ?b then _ else _] =>
      lazymatch b with
      | context [if _ then _ else _] => fail
      | context [match _ with _ => _ end] => fail
      | _ => destruct b eqn:?
      end
  | context [match ?x with _ => _ end] =>
      lazymatch x with
      | context [match _ with _ => _ end] => fail
      | _ => destruct x eqn:?
      end
  end.

Ltac boolify :=
  repeat match goal with
  | H : (_ && _)%bool = true |- _ => apply andb_prop in H; destruct H
  | H : (_ || _)%bool = false |- _ => apply orb_false_elim in H; destruct H
  | H : negb _ = true |- _ => apply negb_true_iff in H
  | H : negb _ = false |- _ => apply negb_false_iff in H
  | H : Ascii.eqb _ _ = true |- _ => apply Ascii.eqb_eq in H
  | H : Ascii.eqb _ _ = false |- _ => apply Ascii.eqb_neq in H
  | H : bool_decide _ = true |- _ => apply bool_decide_eq_true in H
  | H : bool_decide _ = false |- _ => apply bool_decide_eq_false in H
  | H : (_ <=? _)%Z = true |- _ => apply Z.leb_le in H
  | H : (_ <=? _)%Z = false |- _ => apply Z.leb_gt in H
  | H : (_ <? _)%Z = true |- _ => apply Z.ltb_lt in H
  | H : (_ <? _)%Z = false |- _ => apply Z.ltb_ge in H
  | H : (_ =? _)%Z = true |- _ => apply Z.eqb_eq in H
  | H : (_ =? _)%Z = false |- _ => apply Z.eqb_neq in H
  | H : (_ <=? _)%nat = true |- _ => apply Nat.leb_le in H
  | H : (_ <=? _)%nat = false |- _ => apply Nat.leb_gt in H
  | H : (_ <? _)%nat = true |- _ => apply Nat.ltb_lt in H
  | H : (_ <? _)%nat = false |- _ => apply Nat.ltb_ge in H
  | H : (_ =? _)%nat = true |- _ => apply Nat.eqb_eq in H
  | H : (_ =? _)%nat = false |- _ => apply Nat.eqb_neq in H
  end.

(** ** Lemmas on scanning loops *)

Create HintDb ns discriminated.
#[export] Hint Constants Opaque : ns.
#[export] Hint Variables Transparent : ns.

Section ScanLemmas.
Context {A : Type}.
Implicit Types (f : A -> bool) (l k : list A).

Lemma take_drop_while f l : take_while f l ++ drop_while f l = l.
Proof. induction l as [|x l IH]; cbn; [done|]. destruct (f x); cbn; [by rewrite IH|done]. Qed.

Lemma take_while_forall f l : allb f (take_while f l) = true.
Proof. induction l as [|x l IH]; cbn; [done|]. destruct (f x) eqn:E; cbn; [by rewrite E|done]. Qed.

Lemma drop_while_head f l x k : drop_while f l = x :: k -> f x = false.
Proof.
  induction l as [|y l IH]; cbn; [done|]. destruct (f y) eqn:E; [done|].
  intros [= -> ->]. done.
Qed.

Lemma drop_while_length f l : (length (drop_while f l) <= length l)%nat.
Proof. induction l as [|x l IH]; cbn; [lia|]. destruct (f x); cbn; lia. Qed.

Lemma take_while_length f l : (length (take_while f l) <= length l)%nat.
Proof. induction l as [|x l IH]; cbn; [lia|]. destruct (f x); cbn; lia. Qed.

Lemma take_while_id f l : allb f l = true -> take_while f l = l.
Proof.
  induction l as [|x l IH]; cbn; [done|]. intros H. boolify.
  rewrite H. by rewrite IH.
Qed.

Lemma drop_while_nil f l : allb f l = true -> drop_while f l = [].
Proof.
  induction l as [|x l IH]; cbn; [done|]. intros H. boolify. rewrite H. by apply IH.
Qed.

(** A scan over [l ++ k] stops exactly at [k] when all of [l] passes and [k]
    is empty or starts with a byte that does not. *)
Definition stops f k : Prop := match k with [] => True | x :: _ => f x = false end.

Lemma take_while_app_stop f l k :
  allb f l = true -> stops f k -> take_while f (l ++ k) = l.
Proof.
  intros Hl Hk. induction l as [|x l IH]; cbn in *.
  - destruct k as [|y k]; cbn in *; [done|]. by rewrite Hk.
  - boolify. rewrite H. by rewrite IH.
Qed.

Lemma drop_while_app_stop f l k :
  allb f l = true -> stops f k -> drop_while f (l ++ k) = k.
Proof.
  intros Hl Hk. induction l as [|x l IH]; cbn in *.
  - destruct k as [|y k]; cbn in *; [done|]. by rewrite Hk.
  - boolify. rewrite H. by rewrite IH.
Qed.

Lemma drop_while_stops f l : stops f (drop_while f l).
Proof. destruct (drop_while f l) eqn:E; [done|]. cbn. by eapply drop_while_head. Qed.

Lemma allb_app f l k : allb f (l ++ k) = allb f l && allb f k.
Proof. apply forallb_app. Qed.

Lemma allb_forall f l : allb f l = true <-> Forall (fun x => f x = true) l.
Proof. rewrite forallb_forall, List.Forall_forall. done. Qed.

Lemma allb_impl f g l :
  (forall x, f x = true -> g x = true) -> allb f l = true -> allb g l = true.
Proof.
  intros Hfg. induction l as [|x l IH]; cbn; [done|]. intros H. boolify.
  rewrite (Hfg x) by done. by rewrite IH.
Qed.

Lemma allb_take f l n : allb f l = true -> allb f (take n l) = true.
Proof.
  revert n. induction l as [|x l IH]; intros [|n] H; cbn in *; try done.
  boolify. rewrite H. by rewrite IH.
Qed.

Context `{EqDecision A}.

Lemma prefixb_spec p l : prefixb p l = true <-> exists k, l = p ++ k.
Proof.
  revert l. induction p as [|x p IH]; intros l; cbn.
  - split; eauto.
  - destruct l as [|y l]; [split; [done|by intros [k Hk]]|].
    rewrite andb_true_iff, bool_decide_eq_true, IH. split.
    + intros [-> [k ->]]. eauto.
    + intros [k [= -> ->]]. eauto.
Qed.

Lemma prefixb_app p l : prefixb p (p ++ l) = true.
Proof. apply prefixb_spec. eauto. Qed.

Lemma prefixb_drop p l : prefixb p l = true -> l = p ++ drop (length p) l.
Proof. intros [k ->]%prefixb_spec. by rewrite drop_app_length. Qed.
End ScanLemmas.

#[export] Hint Resolve take_while_forall drop_while_stops prefixb_app
  drop_while_length take_while_length : ns.

(** ** Lemmas on bytes *)

(** The number of bytes, as the code counts them. *)
Definition zlen (s : bytes) : Z := Z.of_nat (length s).

Lemma zlen_nil s : zlen s = 0%Z <-> s = [].
Proof. unfold zlen. split; [|by intros ->]. destruct s; [done|cbn; lia]. Qed.
Lemma zlen_nonneg s : (0 <= zlen s)%Z. Proof. unfold zlen. lia. Qed.
Lemma zlen_app s t : zlen (s ++ t) = (zlen s + zlen t)%Z.
Proof. unfold zlen. rewrite length_app. lia. Qed.

Lemma code_range c : (0 <= code c < 256)%Z.
Proof.
  unfold code. pose proof (N_ascii_bounded c). lia.
Qed.

Lemma byte_of_code c : byte_of (code c) = c.
Proof.
  unfold byte_of. rewrite Z.mod_small by apply code_range.
  unfold code. rewrite N2Z.id. apply ascii_N_embedding.
Qed.

Lemma code_byte_of z : (0 <= z < 256)%Z -> code (byte_of z) = z.
Proof.
  intros Hz. unfold code, byte_of. rewrite Z.mod_small by done.
  rewrite N_ascii_embedding by lia. lia.
Qed.

Lemma code_inj c d : code c = code d -> c = d.
Proof. intros H. by rewrite <- (byte_of_code c), H, byte_of_code. Qed.

(** Decide a property of one byte by evaluating it on all 256. *)
Definition all_bytes : list ascii := map (fun n => ascii_of_nat n) (seq 0 256).

Lemma all_bytes_complete c : In c all_bytes.
Proof.
  unfold all_bytes. apply in_map_iff. exists (nat_of_ascii c).
  split; [apply ascii_nat_embedding|]. apply in_seq.
  pose proof (nat_ascii_bounded c). lia.
Qed.

Lemma byte_ind (P : ascii -> bool) :
  allb P all_bytes = true -> forall c, P c = true.
Proof.
  rewrite forallb_forall. intros H c. apply H, all_bytes_complete.
Qed.

Ltac by_bytes P := revert P; apply byte_ind; vm_compute; reflexivity.
