(* ===== verification/CStr.v ===== *)
(** * C library string functions

    The functions of [string.h], [strings.h] and [stdlib.h] the modelled code
    calls, on [bytes]. A function that returns a pointer into its argument
    returns the suffix at that pointer ([None] for [NULL]). *)

From S2P Require Import Prelude.

(** A C string held in a byte buffer ends at its first NUL. *)
Definition cstr_of (b : bytes) : bytes := take_while (fun c => negb (c =c nul)) b.

Definition memb (c : ascii) (set : bytes) : bool := existsb (Ascii.eqb c) set.

(** [strcspn(s, set)]: the bytes before the first one of [set], and the rest. *)
Definition cspan (set s : bytes) : bytes := take_while (fun c => negb (memb c set)) s.
Definition crest (set s : bytes) : bytes := drop_while (fun c => negb (memb c set)) s.
Definition strcspn (s set : bytes) : nat := length (cspan set s).

(** [strchr(s, c)] / [memchr]: the suffix at the first [c]. *)
Definition strchr (s : bytes) (c : ascii) : option bytes :=
  match drop_while (fun d => negb (d =c c)) s with
  | [] => None
  | r => Some r
  end.

(** The bytes before the first [c]: [strchr(s, c) - s] of them. *)
Definition before (s : bytes) (c : ascii) : bytes := take_while (fun d => negb (d =c c)) s.

(** [strncmp(a, b, n) == 0], [strcmp(a, b) == 0]. *)
Definition strncmp0 (a b : bytes) (n : nat) : bool := take n a =b take n b.
Definition strcmp0 (a b : bytes) : bool := a =b b.

(** [strstr(s, needle)]: the bytes before the first occurrence and the suffix at
    it. *)
Fixpoint strstr (s needle : bytes) : option (bytes * bytes) :=
  if prefixb needle s then Some ([], s)
  else match s with
       | [] => None
       | c :: s' => match strstr s' needle with
                    | Some (b, r) => Some (c :: b, r)
                    | None => None
                    end
       end.

Definition contains (s needle : bytes) : bool :=
  match strstr s needle with Some _ => true | None => false end.

(** Character classes of the C locale. *)
Definition in_range (lo hi : Z) (c : ascii) : bool := (lo <=? code c)%Z && (code c <=? hi)%Z.
Definition is_digit (c : ascii) : bool := in_range 48 57 c.
Definition is_upper (c : ascii) : bool := in_range 65 90 c.
Definition is_lower (c : ascii) : bool := in_range 97 122 c.
Definition is_alpha (c : ascii) : bool := is_upper c || is_lower c.
Definition is_alnum (c : ascii) : bool := is_alpha c || is_digit c.
Definition is_xdigit (c : ascii) : bool :=
  is_digit c || in_range 65 70 c || in_range 97 102 c.
Definition isspace (c : ascii) : bool := in_range 9 13 c || (c =c " ").
Definition lower (c : ascii) : ascii :=
  if is_upper c then byte_of (code c + 32) else c.

(** [strcasecmp(a, b) == 0] in the C locale. *)
Definition strcasecmp0 (a b : bytes) : bool := map lower a =b map lower b.

(** The value of a run of decimal digits. *)
Definition digit_val (c : ascii) : Z := (code c - 48)%Z.
Definition dec_val (s : bytes) : Z :=
  fold_left (fun v c => (v * 10 + digit_val c)%Z) s 0%Z.

Definition clamp_s (w z : Z) : Z :=
  Z.max (- 2 ^ (w - 1)) (Z.min (2 ^ (w - 1) - 1) z).

(** [strtol(s, NULL, 10)] on a 64-bit [long]: white space, an optional sign, the
    digits, saturated; [atol] is the same call. [atoi] converts the result to a
    32-bit [int]. *)
Definition strtol10 (s : bytes) : Z :=
  let s := drop_while isspace s in
  let '(neg, s) :=
    match s with
    | c :: r => if c =c "-" then (true, r) else if c =c "+" then (false, r) else (false, s)
    | [] => (false, [])
    end in
  let v := dec_val (take_while is_digit s) in
  clamp_s 64 (if neg then - v else v)%Z.
Definition atol (s : bytes) : Z := strtol10 s.
Definition atoi (s : bytes) : Z := wrap_s 32 (strtol10 s).

(** [printf] conversions: the digits of [z >= 0] in [base], at least one, padded
    on the left with zeros to [width]. *)
Definition digit_char (d : Z) : ascii :=
  if (d <? 10)%Z then byte_of (48 + d) else byte_of (87 + d).

Fixpoint digits_go (fuel : nat) (base z : Z) (acc : bytes) : bytes :=
  match fuel with
  | O => acc
  | S fuel' =>
      let acc' := digit_char (z mod base) :: acc in
      if (z / base =? 0)%Z then acc' else digits_go fuel' base (z / base) acc'
  end.
Definition digits (base z : Z) : bytes := digits_go (S (Z.to_nat (Z.log2 z))) base z [].
Definition pad0 (width : nat) (s : bytes) : bytes :=
  repeat "0"%char (width - length s) ++ s.

(** ["%d"], ["%zu"], ["%u"], and ["%0<w>d"] of a non-negative value. *)
Definition print_u (z : Z) : bytes := digits 10 z.
Definition print_d (z : Z) : bytes :=
  if (z <? 0)%Z then "-"%char :: digits 10 (- z) else digits 10 z.
Definition print_0d (width : nat) (z : Z) : bytes :=
  if (z <? 0)%Z then "-"%char :: pad0 (width - 1) (digits 10 (- z))
  else pad0 width (digits 10 z).

(** ** [sscanf] conversions

    Each takes the rest of the input and returns the value and what is left, or
    [None] where the conversion fails and [sscanf] stops. *)

Definition one_of (set : bytes) (p : bytes) : option (ascii * bytes) :=
  match p with c :: p' => if memb c set then Some (c, p') else None | [] => None end.

(** [%d]: white space, a sign, digits; the [long] read is stored in an [int]. *)
Definition scan_d (s : bytes) : option (Z * bytes) :=
  let s := drop_while isspace s in
  let '(neg, s) := match one_of ($"+-") s with Some (c, r) => (c =c "-", r) | None => (false, s) end in
  match take_while is_digit s with
  | [] => None
  | ds => Some (wrap_s 32 (clamp_s 64 (if neg then - dec_val ds else dec_val ds))%Z,
                drop_while is_digit s)
  end.

(** [%<n>s]: white space, then up to [n] bytes that are none. *)
Fixpoint take_upto (n : nat) (f : ascii -> bool) (s : bytes) : bytes * bytes :=
  match n, s with
  | S n', c :: s' => if f c then let '(a, b) := take_upto n' f s' in (c :: a, b) else ([], s)
  | _, _ => ([], s)
  end.
Definition scan_s (n : nat) (s : bytes) : option (bytes * bytes) :=
  let '(a, r) := take_upto n (fun c => negb (isspace c)) (drop_while isspace s) in
  match a with [] => None | _ => Some (a, r) end.

(** [%c], a literal byte, and white space in the format. *)
Definition scan_c (s : bytes) : option bytes := match s with [] => None | _ :: s' => Some s' end.
Definition scan_lit (c : ascii) (s : bytes) : option bytes :=
  match s with d :: s' => if d =c c then Some s' else None | [] => None end.
Definition scan_ws (s : bytes) : bytes := drop_while isspace s.

(** ** Lemmas *)

Lemma memb_In c set : memb c set = true <-> In c set.
Proof.
  unfold memb. rewrite existsb_exists. split.
  - intros (x & Hx & E). apply Ascii.eqb_eq in E. by subst.
  - intros H. exists c. split; [done|]. apply Ascii.eqb_refl.
Qed.

Lemma cspan_crest set s : cspan set s ++ crest set s = s.
Proof. apply take_drop_while. Qed.

Lemma cspan_free set s : allb (fun c => negb (memb c set)) (cspan set s) = true.
Proof. apply take_while_forall. Qed.

(** What a scan for the first byte of [set] gives on [l ++ k]. *)
Lemma cspan_app set l k :
  allb (fun c => negb (memb c set)) l = true ->
  head_is (fun c => negb (memb c set)) k = false ->
  cspan set (l ++ k) = l /\ crest set (l ++ k) = k.
Proof.
  intros Hl Hk. unfold cspan, crest.
  assert (stops (fun c => negb (memb c set)) k) by by destruct k.
  split; [by apply take_while_app_stop|by apply drop_while_app_stop].
Qed.

Lemma crest_head set s c r : crest set s = c :: r -> memb c set = true.
Proof. intros H%drop_while_head. by apply negb_false_iff in H. Qed.

Lemma crest_length set s : length (crest set s) <= length s.
Proof. apply drop_while_length. Qed.

Lemma strchr_Some s c r :
  strchr s c = Some r -> exists t, r = c :: t /\ s = before s c ++ r.
Proof.
  unfold strchr, before. intros H.
  pose proof (take_drop_while (fun d => negb (d =c c)) s) as E.
  destruct (drop_while _ s) as [|d t] eqn:D; [done|]. injection H as <-.
  apply drop_while_head in D as D'. boolify. subst d. exists t. by rewrite E.
Qed.

Lemma strchr_None s c : strchr s c = None -> before s c = s.
Proof.
  unfold strchr, before. intros H.
  pose proof (take_drop_while (fun d => negb (d =c c)) s) as E.
  destruct (drop_while _ s); [|done]. by rewrite app_nil_r in E.
Qed.

Lemma strchr_app l c r :
  allb (fun d => negb (d =c c)) l = true ->
  strchr (l ++ c :: r) c = Some (c :: r) /\ before (l ++ c :: r) c = l.
Proof.
  intros H. unfold strchr, before.
  rewrite drop_while_app_stop, take_while_app_stop; cbn;
    rewrite ?Ascii.eqb_refl; done.
Qed.

Lemma strchr_free l c : allb (fun d => negb (d =c c)) l = true -> strchr l c = None.
Proof. intros H. unfold strchr. by rewrite drop_while_nil. Qed.

Lemma strstr_Some s n b r :
  strstr s n = Some (b, r) -> s = b ++ r /\ prefixb n r = true.
Proof.
  revert b r. induction s as [|c s IH]; intros b r; cbn [strstr].
  - destruct (prefixb n []) eqn:E; [|done]. by intros [= <- <-].
  - destruct (prefixb n (c :: s)) eqn:E; [by intros [= <- <-]|].
    destruct (strstr s n) as [[b' r']|]; [|done]. intros [= <- <-].
    destruct (IH _ _ eq_refl) as [-> Hr]. done.
Qed.

(** The bytes before the first occurrence do not contain the needle. *)
Lemma strstr_before s n b r :
  n <> [] -> strstr s n = Some (b, r) -> strstr b n = None.
Proof.
  intros Hn. revert b r. induction s as [|c s IH]; intros b r; cbn [strstr].
  - destruct (prefixb n []); [|done]. intros [= <- <-]. by destruct n.
  - destruct (prefixb n (c :: s)) eqn:E; [intros [= <- <-]; by destruct n|].
    destruct (strstr s n) as [[b' r']|] eqn:S; [|done]. intros [= <- <-]. cbn [strstr].
    destruct (prefixb n (c :: b')) eqn:E'; [|by rewrite (IH _ _ eq_refl)].
    apply strstr_Some in S as [-> _]. apply prefixb_spec in E' as [k E'].
    rewrite app_comm_cons, E', <- app_assoc, prefixb_app in E. done.
Qed.

(** The first occurrence is the one after [b] when the needle's first byte is not
    in [b]. *)
Lemma strstr_first b c n x :
  allb (fun d => negb (d =c c)) b = true ->
  strstr (b ++ (c :: n) ++ x) (c :: n) = Some (b, (c :: n) ++ x).
Proof.
  induction b as [|d b IH]; intros H.
  - cbn [app strstr]. by rewrite (prefixb_app (c :: n) x).
  - cbn [forallb] in H. boolify. cbn [app strstr prefixb].
    rewrite (bool_decide_eq_false_2 (c = d)) by congruence. cbn [andb].
    change (c :: n ++ x) with ((c :: n) ++ x). by rewrite IH.
Qed.

Lemma contains_spec s n : contains s n = true <-> exists b k, s = b ++ n ++ k.
Proof.
  unfold contains. split.
  - destruct (strstr s n) as [[b r]|] eqn:E; [|done]. intros _.
    apply strstr_Some in E as [-> [k ->]%prefixb_spec]. eauto.
  - intros (b & k & ->). induction b as [|c b IH].
    + destruct (n ++ k) eqn:E; cbn; rewrite <- E, prefixb_app; done.
    + cbn [app strstr]. destruct (prefixb n _); [done|].
      destruct (strstr (b ++ n ++ k) n) as [[? ?]|]; done.
Qed.

Lemma strncmp0_prefix a b : strncmp0 b a (length a) = prefixb a b.
Proof.
  unfold strncmp0. rewrite take_ge with (l := a) by lia.
  apply eq_true_iff_eq. rewrite bool_decide_eq_true, prefixb_spec. split.
  - intros <-. exists (drop (length a) b). by rewrite take_drop.
  - intros [k ->]. by rewrite take_app_length.
Qed.

Lemma is_digit_spec c : is_digit c = true <-> (48 <= code c <= 57)%Z.
Proof. unfold is_digit, in_range. rewrite andb_true_iff, !Z.leb_le. lia. Qed.

Lemma lower_idemp c : lower (lower c) = lower c.
Proof.
  assert (H : (lower (lower c) =c lower c) = true).
  { by_bytes c. }
  by apply Ascii.eqb_eq in H.
Qed.

(** *** Decimal digits *)

Lemma digit_char_digit d : (0 <= d < 10)%Z -> is_digit (digit_char d) = true.
Proof.
  intros Hd. apply is_digit_spec. unfold digit_char.
  destruct (Z.ltb_spec d 10); [|lia]. rewrite code_byte_of; lia.
Qed.

Lemma digit_char_val d : (0 <= d < 10)%Z -> digit_val (digit_char d) = d.
Proof.
  intros Hd. unfold digit_val, digit_char.
  destruct (Z.ltb_spec d 10); [|lia]. rewrite code_byte_of; lia.
Qed.

Lemma dec_val_snoc s c : dec_val (s ++ [c]) = (dec_val s * 10 + digit_val c)%Z.
Proof. unfold dec_val. by rewrite fold_left_app. Qed.

Lemma fold_dec_app (s : bytes) v :
  fold_left (fun v c => (v * 10 + digit_val c)%Z) s v
  = (v * 10 ^ Z.of_nat (length s) + dec_val s)%Z.
Proof.
  revert v. induction s as [|c s IH] using rev_ind; intros v; [cbn; lia|].
  rewrite fold_left_app, dec_val_snoc. cbn [fold_left]. rewrite IH, length_app.
  cbn [length]. rewrite Nat2Z.inj_add, Z.pow_add_r by lia. change (10 ^ Z.of_nat 1)%Z with 10%Z. lia.
Qed.

Lemma dec_val_app s t : dec_val (s ++ t) = (dec_val s * 10 ^ Z.of_nat (length t) + dec_val t)%Z.
Proof. unfold dec_val at 1. rewrite fold_left_app. apply fold_dec_app. Qed.

Lemma dec_val_cons c s :
  dec_val (c :: s) = (digit_val c * 10 ^ Z.of_nat (length s) + dec_val s)%Z.
Proof.
  change (c :: s) with ([c] ++ s). rewrite dec_val_app. cbn. lia.
Qed.

Lemma dec_val_bound s :
  allb is_digit s = true -> (0 <= dec_val s < 10 ^ Z.of_nat (length s))%Z.
Proof.
  induction s as [|c s IH] using rev_ind; [cbn; lia|].
  rewrite forallb_app. cbn. intros H. boolify. apply is_digit_spec in H0.
  rewrite dec_val_snoc, length_app. cbn [length].
  rewrite Nat2Z.inj_add, Z.pow_add_r by lia. specialize (IH H).
  unfold digit_val. change (10 ^ Z.of_nat 1)%Z with 10%Z. lia.
Qed.

Lemma digits_go_spec fuel z acc :
  (0 <= z < 2 ^ Z.of_nat fuel)%Z -> (0 < fuel)%nat ->
  exists ds, digits_go fuel 10 z acc = ds ++ acc /\
    allb is_digit ds = true /\ dec_val ds = z /\ ds <> [] /\
    (length ds <= fuel)%nat.
Proof.
  revert z acc. induction fuel as [|fuel IH]; intros z acc Hz Hf; [lia|].
  cbn [digits_go].
  pose proof (Z.mod_pos_bound z 10 ltac:(lia)) as Hm.
  destruct (Z.eqb_spec (z / 10) 0) as [Hq|Hq].
  - exists [digit_char (z mod 10)]. cbn [app forallb].
    rewrite digit_char_digit by lia. split; [done|]. split; [done|]. split.
    + cbn. rewrite digit_char_val by lia. pose proof (Z.div_mod z 10 ltac:(lia)). lia.
    + split; [done|cbn; lia].
  - assert (Hq' : (0 <= z / 10 < 2 ^ Z.of_nat fuel)%Z).
    { split; [apply Z.div_pos; lia|]. apply Z.div_lt_upper_bound; [lia|].
      rewrite Nat2Z.inj_succ, Z.pow_succ_r in Hz by lia. lia. }
    destruct fuel as [|fuel]; [cbn in Hq'; lia|].
    destruct (IH (z / 10)%Z (digit_char (z mod 10) :: acc) Hq' ltac:(lia))
      as (ds & E & Hd & Hv & Hn & Hl).
    exists (ds ++ [digit_char (z mod 10)]). rewrite E, <- app_assoc.
    split; [done|]. rewrite forallb_app, Hd. cbn [forallb].
    rewrite digit_char_digit by lia. split; [done|]. split.
    + rewrite dec_val_snoc, Hv, digit_char_val by lia.
      pose proof (Z.div_mod z 10 ltac:(lia)). lia.
    + split; [by destruct ds|]. rewrite length_app. cbn [length]. lia.
Qed.

(** Printing then reading a decimal gives the number back. *)
Lemma digits_spec z :
  (0 <= z)%Z ->
  allb is_digit (digits 10 z) = true /\ dec_val (digits 10 z) = z /\ digits 10 z <> [].
Proof.
  intros Hz. unfold digits.
  destruct (digits_go_spec (S (Z.to_nat (Z.log2 z))) z []) as (ds & E & ? & ? & ? & ?).
  - rewrite Nat2Z.inj_succ, Z2Nat.id by apply Z.log2_nonneg.
    split; [done|]. destruct (Z.eq_dec z 0%Z) as [->|]; [cbn; lia|].
    apply Z.log2_spec. lia.
  - lia.
  - rewrite E, app_nil_r. done.
Qed.

Lemma dec_val_pad0 w s : dec_val (pad0 w s) = dec_val s.
Proof.
  unfold pad0. generalize (w - length s) as n. induction n as [|n IH]; [done|].
  cbn [repeat app]. rewrite dec_val_cons, IH. change (digit_val "0") with 0%Z. lia.
Qed.

Lemma pad0_digits w s : allb is_digit s = true -> allb is_digit (pad0 w s) = true.
Proof.
  intros H. unfold pad0. rewrite forallb_app, H, andb_true_r.
  generalize (w - length s) as n. by induction n.
Qed.

Lemma length_pad0 w s : length (pad0 w s) = Nat.max w (length s).
Proof. unfold pad0. rewrite length_app, List.repeat_length. lia. Qed.

Lemma digits_length z n :
  (0 <= z < 10 ^ Z.of_nat n)%Z -> (0 < n)%nat -> (length (digits 10 z) <= n)%nat.
Proof.
  intros Hz Hn. unfold digits. generalize (S (Z.to_nat (Z.log2 z))) as fuel.
  intros fuel. replace n with (n + length (@nil ascii)) by (cbn; lia).
  generalize (@nil ascii) as acc. revert z n Hz Hn.
  induction fuel as [|fuel IH]; intros z n Hz Hn acc; cbn [digits_go]; [lia|].
  destruct (Z.eqb_spec (z / 10) 0) as [Hq|Hq]; [cbn; lia|].
  destruct n as [|[|n]]; [lia| |].
  - cbn in Hz. assert (z / 10 = 0)%Z by (apply Z.div_small; lia). lia.
  - etransitivity; [apply (IH _ (S n))|cbn; lia]; [|lia].
    split; [apply Z.div_pos; lia|]. apply Z.div_lt_upper_bound; [lia|].
    rewrite Nat2Z.inj_succ, Z.pow_succ_r in Hz by lia. lia.
Qed.

(** Reading a printed number back, whatever non-digit follows it. *)
Lemma digit_not_space c : is_digit c = true -> isspace c = false /\ (c =c "-") = false /\ (c =c "+") = false.
Proof.
  intros H.
  assert (X : negb (is_digit c) || (negb (isspace c) && negb (c =c "-") && negb (c =c "+")) = true).
  { clear. by_bytes c. }
  rewrite H in X. apply andb_prop in X as [[X1 X2]%andb_prop X3].
  rewrite negb_true_iff in *. auto.
Qed.

Lemma strtol10_print z k :
  (0 <= z < 2 ^ 63)%Z -> head_is is_digit k = false -> strtol10 (print_u z ++ k) = z.
Proof.
  intros Hz Hk. unfold strtol10, print_u.
  destruct (digits_spec z ltac:(lia)) as (Hd & Hv & Hn).
  assert (T : take_while is_digit (digits 10 z ++ k) = digits 10 z).
  { apply take_while_app_stop; [done|by destruct k]. }
  destruct (digits 10 z) as [|c ds] eqn:E; [done|]. clear Hn.
  pose proof Hd as Hd'. cbn [forallb] in Hd'. apply andb_prop in Hd' as [Hc _].
  destruct (digit_not_space c Hc) as (S & M & P).
  cbn [app drop_while]. rewrite S, M, P. cbn [app] in T. rewrite T, Hv.
  unfold clamp_s. change (2 ^ (64 - 1))%Z with (2 ^ 63)%Z. lia.
Qed.

Lemma strtol10_print_d z k :
  in_s 64 z -> head_is is_digit k = false -> strtol10 (print_d z ++ k) = z.
Proof.
  unfold in_s. change (64 - 1)%Z with 63%Z. intros Hz Hk. unfold print_d.
  destruct (Z.ltb_spec z 0); [|apply strtol10_print; [lia|done]].
  unfold strtol10. cbn [app drop_while]. change (isspace "-") with false. cbv iota.
  change ("-" =c "-") with true. cbv beta iota zeta.
  destruct (digits_spec (- z) ltac:(lia)) as (Hd & Hv & _).
  rewrite take_while_app_stop; [|done|by destruct k]. rewrite Hv.
  unfold clamp_s. change (64 - 1)%Z with 63%Z. lia.
Qed.

Lemma atoi_print z k :
  (0 <= z < 2 ^ 31)%Z -> head_is is_digit k = false -> atoi (print_u z ++ k) = z.
Proof.
  intros Hz Hk. unfold atoi. rewrite strtol10_print by (lia || done).
  unfold wrap_s. change (32 - 1)%Z with 31%Z. rewrite Z.mod_small; lia.
Qed.
