(* ===== verification/GLib.v ===== *)
(** * The GLib string functions the program relies on

    GLib is not part of the repository: its string functions are the fields of
    the class [GLib], an argument of every definition that uses one of them, and
    [GLibSpec] states what the GLib reference manual documents of each.  The
    instance [glib_ref] is a concrete implementation that satisfies the
    specification, and [glib_determined] shows that the specification leaves no
    other choice, so that a proof under [GLibSpec] may compute. GLib's containers
    are their values: a [GString] and a [GByteArray] are [bytes], a [GPtrArray]
    is a [list], a [GHashTable] is a [gmap]. *)

From S2P Require Import Prelude CStr.
From Stdlib Require Import FunctionalExtensionality.

(** A comparison function is represented by its test against zero. *)
Class GLib := {
  g_ascii_isalpha : ascii -> bool;
  g_ascii_isdigit : ascii -> bool;
  g_ascii_isalnum : ascii -> bool;
  g_ascii_isxdigit : ascii -> bool;
  g_ascii_isspace : ascii -> bool;
  g_str_has_prefix : bytes -> bytes -> bool;
  g_ascii_strcasecmp0 : bytes -> bytes -> bool;
  g_ascii_strncasecmp0 : bytes -> bytes -> nat -> bool;
  g_ascii_strdown : bytes -> bytes;
  g_strstrip : bytes -> bytes;
  g_strsplit : bytes -> bytes -> list bytes;
  g_strsplit_set : bytes -> bytes -> list bytes;
  g_strjoinv : bytes -> list bytes -> bytes;
  g_utf8_validate : bytes -> bool;
  g_ascii_strtoll10 : bytes -> Z;
  g_ascii_strtoll10_end : bytes -> bytes;
  g_strchomp : bytes -> bytes;
  g_str_has_suffix : bytes -> bytes -> bool;
  g_strsplit_max : bytes -> bytes -> nat -> list bytes;
  g_ascii_xdigit_value : ascii -> Z;
  g_strstr_len : bytes -> bytes -> option bytes;
}.

(** ** What the manual says of each *)

Module Ref.
(** White space "in the C locale" as GLib's table has it: no vertical tab. *)
Definition isspace (c : ascii) : bool :=
  in_range 9 10 c || in_range 12 13 c || (c =c " ").

Definition strip_trailing (s : bytes) : bytes := rev (drop_while isspace (rev s)).
Definition strip (s : bytes) : bytes := strip_trailing (drop_while isspace s).

(** [g_strsplit(s, d, -1)]: the empty vector for the empty string. *)
Fixpoint split_go (fuel : nat) (s d : bytes) : list bytes :=
  match fuel with
  | O => [s]
  | S fuel' =>
      match strstr s d with
      | None => [s]
      | Some (b, r) => b :: split_go fuel' (drop (length d) r) d
      end
  end.
Definition split (s d : bytes) : list bytes :=
  match s with [] => [] | _ => split_go (S (length s)) s d end.

Fixpoint split_set_go (acc s set : bytes) : list bytes :=
  match s with
  | [] => [acc]
  | c :: s' => if memb c set then acc :: split_set_go [] s' set
               else split_set_go (acc ++ [c]) s' set
  end.
Definition split_set (s set : bytes) : list bytes :=
  match s with [] => [] | _ => split_set_go [] s set end.

Fixpoint join (sep : bytes) (l : list bytes) : bytes :=
  match l with
  | [] => []
  | [s] => s
  | s :: l' => s ++ sep ++ join sep l'
  end.

(** Well-formed UTF-8: the shortest form, no surrogates, at most U+10FFFF, no
    NUL byte. *)
Definition cont (c : ascii) : bool := in_range 128 191 c.
Fixpoint utf8 (fuel : nat) (s : bytes) : bool :=
  match fuel with
  | O => match s with [] => true | _ => false end
  | S f =>
      match s with
      | [] => true
      | a :: s1 =>
          if in_range 1 127 a then utf8 f s1
          else match s1 with
          | [] => false
          | b :: s2 =>
              if in_range 194 223 a then cont b && utf8 f s2
              else match s2 with
              | [] => false
              | c :: s3 =>
                  if in_range 224 239 a then
                    cont b && cont c &&
                    (if (code a =? 224)%Z then (160 <=? code b)%Z
                     else if (code a =? 237)%Z then (code b <=? 159)%Z else true) &&
                    utf8 f s3
                  else match s3 with
                  | [] => false
                  | d :: s4 =>
                      in_range 240 244 a && cont b && cont c && cont d &&
                      (if (code a =? 240)%Z then (144 <=? code b)%Z
                       else if (code a =? 244)%Z then (code b <=? 143)%Z else true) &&
                      utf8 f s4
                  end
              end
          end
      end
  end.

(** [g_ascii_strtoll(s, NULL, 10)]. *)
Definition strtoll10 (s : bytes) : Z :=
  let s := drop_while isspace s in
  let '(neg, s) :=
    match s with
    | c :: r => if c =c "-" then (true, r) else if c =c "+" then (false, r) else (false, s)
    | [] => (false, [])
    end in
  let v := dec_val (take_while is_digit s) in
  clamp_s 64 (if neg then - v else v)%Z.

(** The end pointer of that call: the argument itself when there is no digit. *)
Definition strtoll10_end (s : bytes) : bytes :=
  let t := drop_while isspace s in
  let t :=
    match t with
    | c :: r => if (c =c "-") || (c =c "+") then r else t
    | [] => []
    end in
  if head_is is_digit t then drop_while is_digit t else s.

(** [g_strsplit(s, d, n)] with [n >= 1]: the last piece holds the rest. *)
Fixpoint split_max_go (n : nat) (s d : bytes) : list bytes :=
  match n with
  | O | 1 => [s]
  | S n' =>
      match strstr s d with
      | None => [s]
      | Some (b, r) => b :: split_max_go n' (drop (length d) r) d
      end
  end.
Definition split_max (s d : bytes) (n : nat) : list bytes :=
  match s with [] => [] | _ => split_max_go n s d end.

Definition xdigit_value (c : ascii) : Z :=
  (if is_digit c then code c - 48
   else if in_range 65 70 c then code c - 55
   else if in_range 97 102 c then code c - 87
   else -1)%Z.
End Ref.

Class GLibSpec (G : GLib) : Prop := {
  isalpha_doc c : g_ascii_isalpha c = is_alpha c;
  isdigit_doc c : g_ascii_isdigit c = is_digit c;
  isalnum_doc c : g_ascii_isalnum c = is_alnum c;
  isxdigit_doc c : g_ascii_isxdigit c = is_xdigit c;
  isspace_doc c : g_ascii_isspace c = Ref.isspace c;
  has_prefix_doc s p : g_str_has_prefix s p = prefixb p s;
  strcasecmp_doc a b : g_ascii_strcasecmp0 a b = (map lower a =b map lower b);
  strncasecmp_doc a b n :
    g_ascii_strncasecmp0 a b n = (map lower (take n a) =b map lower (take n b));
  strdown_doc s : g_ascii_strdown s = map lower s;
  strstrip_doc s : g_strstrip s = Ref.strip s;
  strsplit_doc s d : g_strsplit s d = Ref.split s d;
  strsplit_set_doc s set : g_strsplit_set s set = Ref.split_set s set;
  strjoinv_doc sep l : g_strjoinv sep l = Ref.join sep l;
  utf8_validate_doc s : g_utf8_validate s = Ref.utf8 (length s) s;
  strtoll_doc s : g_ascii_strtoll10 s = Ref.strtoll10 s;
  strtoll_end_doc s : g_ascii_strtoll10_end s = Ref.strtoll10_end s;
  strchomp_doc s : g_strchomp s = Ref.strip_trailing s;
  has_suffix_doc s p : g_str_has_suffix s p = prefixb (rev p) (rev s);
  strsplit_max_doc s d n : g_strsplit_max s d n = Ref.split_max s d n;
  xdigit_value_doc c : g_ascii_xdigit_value c = Ref.xdigit_value c;
  strstr_len_doc s n : g_strstr_len s n = option_map snd (strstr (cstr_of s) n);
}.

#[export] Instance glib_ref : GLib := {
  g_ascii_isalpha := is_alpha;
  g_ascii_isdigit := is_digit;
  g_ascii_isalnum := is_alnum;
  g_ascii_isxdigit := is_xdigit;
  g_ascii_isspace := Ref.isspace;
  g_str_has_prefix s p := prefixb p s;
  g_ascii_strcasecmp0 a b := map lower a =b map lower b;
  g_ascii_strncasecmp0 a b n := map lower (take n a) =b map lower (take n b);
  g_ascii_strdown := map lower;
  g_strstrip := Ref.strip;
  g_strsplit := Ref.split;
  g_strsplit_set := Ref.split_set;
  g_strjoinv := Ref.join;
  g_utf8_validate s := Ref.utf8 (length s) s;
  g_ascii_strtoll10 := Ref.strtoll10;
  g_ascii_strtoll10_end := Ref.strtoll10_end;
  g_strchomp := Ref.strip_trailing;
  g_str_has_suffix s p := prefixb (rev p) (rev s);
  g_strsplit_max := Ref.split_max;
  g_ascii_xdigit_value := Ref.xdigit_value;
  g_strstr_len s n := option_map snd (strstr (cstr_of s) n);
}.

#[export] Instance glib_ref_spec : GLibSpec glib_ref.
Proof. split; reflexivity. Defined.

(** The documented behaviour determines the functions. *)
Lemma glib_determined (G : GLib) : GLibSpec G -> G = glib_ref.
Proof.
  destruct G. intros []; cbn in *.
  unfold glib_ref. f_equal; repeat (apply functional_extensionality; intros ?); auto.
Qed.

(** Replace GLib by the reference implementation in a proof. *)
Ltac glib :=
  match goal with
  | GS : GLibSpec ?G |- _ =>
      let E := fresh in
      pose proof (glib_determined G GS) as E; clear GS; subst G
  end.
Ltac glib_simpl :=
  cbn [g_ascii_isalpha g_ascii_isdigit g_ascii_isalnum g_ascii_isxdigit
       g_ascii_isspace g_str_has_prefix g_ascii_strcasecmp0
       g_ascii_strncasecmp0 g_ascii_strdown g_strstrip g_strsplit
       g_strsplit_set g_strjoinv g_utf8_validate g_ascii_strtoll10
       g_ascii_strtoll10_end g_strchomp g_str_has_suffix g_strsplit_max
       g_ascii_xdigit_value g_strstr_len glib_ref] in *.

(** ** Consequences used by several components *)

Lemma strncasecmp0_app (p s : bytes) :
  g_ascii_strncasecmp0 (GLib := glib_ref) (p ++ s) p (length p) = true.
Proof.
  cbn. apply bool_decide_eq_true. rewrite take_app_length. by rewrite (take_ge p).
Qed.

Lemma split_join_go fuel s d :
  (length s < fuel)%nat -> (0 < length d)%nat -> Ref.join d (Ref.split_go fuel s d) = s.
Proof.
  revert s. induction fuel as [|fuel IH]; intros s Hl Hd; [lia|]. cbn [Ref.split_go].
  destruct (strstr s d) as [[b r]|] eqn:E; [|done].
  apply strstr_Some in E as [-> Hr%prefixb_drop].
  rewrite length_app in Hl. apply (f_equal length) in Hr as Hr'.
  rewrite length_app in Hr'.
  specialize (IH (drop (length d) r) ltac:(lia) Hd).
  assert (Hne : Ref.split_go fuel (drop (length d) r) d <> []).
  { destruct fuel; cbn; [done|]. by destruct (strstr _ _) as [[? ?]|]. }
  cbn [Ref.join]. destruct (Ref.split_go fuel _ d) eqn:E'; [done|].
  rewrite IH. by rewrite <- Hr.
Qed.

Lemma split_go_pieces fuel s d :
  (length s < fuel)%nat -> d <> [] ->
  Forall (fun t => strstr t d = None) (Ref.split_go fuel s d).
Proof.
  revert s. induction fuel as [|fuel IH]; intros s Hl Hd; [lia|]. cbn [Ref.split_go].
  destruct (strstr s d) as [[b r]|] eqn:E; [|by constructor].
  constructor; [by eapply strstr_before|]. apply IH; [|done].
  apply strstr_Some in E as [-> Hr%prefixb_drop]. apply (f_equal length) in Hr.
  rewrite !length_app in *. destruct d; [done|]. cbn [length] in *. lia.
Qed.

Lemma split_set_go_pieces acc s set :
  allb (fun c => negb (memb c set)) acc = true ->
  Forall (fun t => allb (fun c => negb (memb c set)) t = true)
    (Ref.split_set_go acc s set).
Proof.
  revert acc. induction s as [|c s IH]; intros acc H; cbn [Ref.split_set_go].
  - by constructor.
  - destruct (memb c set) eqn:E; [constructor; [done|by apply IH]|].
    apply IH. rewrite forallb_app, H. cbn. by rewrite E.
Qed.

Lemma strtoll10_print z k :
  (0 <= z < 2 ^ 63)%Z -> head_is is_digit k = false -> Ref.strtoll10 (print_u z ++ k) = z.
Proof.
  intros Hz Hk. transitivity (strtol10 (print_u z ++ k)); [|by apply strtol10_print].
  unfold Ref.strtoll10, strtol10, print_u.
  destruct (digits_spec z ltac:(lia)) as (Hd & _ & Hn).
  destruct (digits 10 z) as [|c ds]; [done|]. cbn [forallb] in Hd. boolify.
  assert (X : negb (is_digit c) || (negb (isspace c) && negb (Ref.isspace c)) = true).
  { clear. by_bytes c. }
  rewrite H in X. cbn [negb orb] in X. boolify. cbn [app drop_while]. by rewrite H1, H2.
Qed.

(** Splitting what was joined with one delimiter byte. *)
Definition free_of (c : ascii) (s : bytes) : bool := allb (fun d => negb (d =c c)) s.

Lemma strstr_free c s : free_of c s = true -> strstr s [c] = None.
Proof.
  induction s as [|d s IH]; intros H; [done|]. cbn [free_of forallb] in H.
  apply andb_prop in H as [H1 H2]. cbn [strstr prefixb].
  rewrite (bool_decide_eq_false_2 (c = d)) by (boolify; congruence). cbn [andb].
  by rewrite IH.
Qed.

Lemma split_go_join fuel c l :
  Forall (fun s => free_of c s = true) l -> l <> [] -> (length l <= S fuel)%nat ->
  (0 < fuel)%nat -> Ref.split_go fuel (Ref.join [c] l) [c] = l.
Proof.
  revert fuel. induction l as [|s l IH]; intros fuel F Hn Hl Hf; [done|].
  inversion F as [|? ? Hs Fl]; subst. destruct fuel as [|fuel]; [lia|].
  destruct l as [|t l].
  - cbn [Ref.split_go Ref.join]. by rewrite strstr_free.
  - change (Ref.join [c] (s :: t :: l)) with (s ++ [c] ++ Ref.join [c] (t :: l)).
    cbn [Ref.split_go]. rewrite (strstr_first s c [] (Ref.join [c] (t :: l))) by done.
    cbn [length app drop]. f_equal. destruct fuel as [|fuel].
    + destruct l; [|cbn in Hl; lia]. done.
    + apply IH; [done|done|cbn in *; lia|lia].
Qed.

Lemma join_length c l : (length l <= S (length (Ref.join [c] l)))%nat.
Proof.
  induction l as [|s l IH]; [cbn; lia|]. destruct l as [|t l]; [cbn; lia|].
  change (Ref.join [c] (s :: t :: l)) with (s ++ [c] ++ Ref.join [c] (t :: l)).
  rewrite !length_app. cbn [length] in *. lia.
Qed.

Lemma split_join c l :
  Forall (fun s => free_of c s = true) l -> Ref.join [c] l <> [] ->
  Ref.split (Ref.join [c] l) [c] = l.
Proof.
  intros F Hn. unfold Ref.split. destruct (Ref.join [c] l) eqn:E; [done|]. rewrite <- E.
  apply split_go_join; [done| |pose proof (join_length c l); lia|lia].
  by intros ->.
Qed.
