(* ===== verification/Config.v ===== *)
(** * The runtime configuration record ([src/config.h])

    [ns_config] as the configuration table of [config.c] sees it: the fields of
    one C type are a function of the field's name, so that a field is read and
    written through its slot as the code does through its offset. Two
    configurations are equivalent when they agree on every field. *)

From S2P Require Import Prelude CStr.

Inductive str_field :=
| home_url | user_agent | compat_mode | accept_language | search_engine
| http_proxy | https_proxy | no_proxy | doh_url | freenet_gateway | gsk_renderer.

Inductive bool_field :=
| do_not_track | global_privacy_control | strip_tracking_params | https_first
| harden_allocator | speculative_preload | async_image_decode | images_enabled
| camera_enabled | microphone_enabled | local_storage_enabled | cache_enabled
| tls_allow_insecure_override | watchdog_enabled | private_mode.

Inductive int_field :=
| cache_cap_mb | js_eval_budget_ms | js_memory_cap_mb | max_redirects
| window_width_px | window_height_px | layout_viewport_px.

Inductive ns_referer_policy :=
| NS_REFERER_NO_REFERRER | NS_REFERER_SAME_ORIGIN
| NS_REFERER_STRICT_ORIGIN_WHEN_CROSS | NS_REFERER_UNSAFE_URL.

Inductive ns_cookie_policy := NS_COOKIE_ALWAYS | NS_COOKIE_FIRST_PARTY | NS_COOKIE_NEVER.

Inductive ns_color_scheme_pref :=
| NS_COLOR_SCHEME_PREF_AUTO | NS_COLOR_SCHEME_PREF_LIGHT | NS_COLOR_SCHEME_PREF_DARK.

Inductive ns_reduced_motion_pref :=
| NS_REDUCED_MOTION_PREF_AUTO | NS_REDUCED_MOTION_PREF_NO_PREFERENCE
| NS_REDUCED_MOTION_PREF_REDUCE.

#[export] Instance str_field_eq_dec : EqDecision str_field.
Proof. solve_decision. Defined.
#[export] Instance bool_field_eq_dec : EqDecision bool_field.
Proof. solve_decision. Defined.
#[export] Instance int_field_eq_dec : EqDecision int_field.
Proof. solve_decision. Defined.
#[export] Instance ns_referer_policy_eq_dec : EqDecision ns_referer_policy.
Proof. solve_decision. Defined.
#[export] Instance ns_cookie_policy_eq_dec : EqDecision ns_cookie_policy.
Proof. solve_decision. Defined.

(** A [char *] field may be [NULL]. *)
Record ns_config := {
  cfg_str : str_field -> option bytes;
  cfg_bool : bool_field -> bool;
  cfg_int : int_field -> Z;
  referer_policy : ns_referer_policy;
  cookie_policy : ns_cookie_policy;
  color_scheme : ns_color_scheme_pref;
  reduced_motion : ns_reduced_motion_pref;
}.

(** The zeroed static [g_cfg]. *)
Definition cfg_zero : ns_config :=
  {| cfg_str _ := None; cfg_bool _ := false; cfg_int _ := 0%Z;
     referer_policy := NS_REFERER_NO_REFERRER; cookie_policy := NS_COOKIE_ALWAYS;
     color_scheme := NS_COLOR_SCHEME_PREF_AUTO;
     reduced_motion := NS_REDUCED_MOTION_PREF_AUTO |}.

Definition fset {F V : Type} `{EqDecision F} (f : F -> V) (k : F) (v : V) : F -> V :=
  fun k' => if decide (k' = k) then v else f k'.

Definition set_str (k : str_field) (v : option bytes) (c : ns_config) : ns_config :=
  Build_ns_config (fset (cfg_str c) k v) (cfg_bool c) (cfg_int c) (referer_policy c)
    (cookie_policy c) (color_scheme c) (reduced_motion c).
Definition set_bool (k : bool_field) (v : bool) (c : ns_config) : ns_config :=
  Build_ns_config (cfg_str c) (fset (cfg_bool c) k v) (cfg_int c) (referer_policy c)
    (cookie_policy c) (color_scheme c) (reduced_motion c).
Definition set_int (k : int_field) (v : Z) (c : ns_config) : ns_config :=
  Build_ns_config (cfg_str c) (cfg_bool c) (fset (cfg_int c) k v) (referer_policy c)
    (cookie_policy c) (color_scheme c) (reduced_motion c).
Definition set_referer (v : ns_referer_policy) (c : ns_config) : ns_config :=
  Build_ns_config (cfg_str c) (cfg_bool c) (cfg_int c) v
    (cookie_policy c) (color_scheme c) (reduced_motion c).
Definition set_cookie (v : ns_cookie_policy) (c : ns_config) : ns_config :=
  Build_ns_config (cfg_str c) (cfg_bool c) (cfg_int c) (referer_policy c)
    v (color_scheme c) (reduced_motion c).
Definition set_color_scheme (v : ns_color_scheme_pref) (c : ns_config) : ns_config :=
  Build_ns_config (cfg_str c) (cfg_bool c) (cfg_int c) (referer_policy c)
    (cookie_policy c) v (reduced_motion c).
Definition set_reduced_motion (v : ns_reduced_motion_pref) (c : ns_config) : ns_config :=
  Build_ns_config (cfg_str c) (cfg_bool c) (cfg_int c) (referer_policy c)
    (cookie_policy c) (color_scheme c) v.

(** ** Equivalence *)

#[export] Instance ns_config_equiv : Equiv ns_config := fun c d =>
  (forall k, cfg_str c k = cfg_str d k) /\
  (forall k, cfg_bool c k = cfg_bool d k) /\
  (forall k, cfg_int c k = cfg_int d k) /\
  referer_policy c = referer_policy d /\
  cookie_policy c = cookie_policy d /\
  color_scheme c = color_scheme d /\
  reduced_motion c = reduced_motion d.

#[export] Instance ns_config_equivalence : Equivalence (≡@{ns_config}).
Proof.
  split.
  - repeat split.
  - intros c d (H1 & H2 & H3 & H4 & H5 & H6 & H7). repeat split; eauto.
  - intros c d e (H1 & H2 & H3 & H4 & H5 & H6 & H7) (K1 & K2 & K3 & K4 & K5 & K6 & K7).
    repeat split; intros; congruence.
Qed.

Lemma fset_eq {F V} `{EqDecision F} (f : F -> V) k v : fset f k v k = v.
Proof. unfold fset. by destruct (decide _). Qed.

Lemma fset_ne {F V} `{EqDecision F} (f : F -> V) k k' v : k' <> k -> fset f k v k' = f k'.
Proof. unfold fset. intros H. by destruct (decide _). Qed.

Ltac cfg_proper :=
  intros c d (H1 & H2 & H3 & H4 & H5 & H6 & H7);
  repeat split; cbn; intros; unfold fset; try case_decide; auto.

#[export] Instance set_str_proper k v : Proper ((≡) ==> (≡)) (set_str k v).
Proof. cfg_proper. Qed.
#[export] Instance set_bool_proper k v : Proper ((≡) ==> (≡)) (set_bool k v).
Proof. cfg_proper. Qed.
#[export] Instance set_int_proper k v : Proper ((≡) ==> (≡)) (set_int k v).
Proof. cfg_proper. Qed.
#[export] Instance set_referer_proper v : Proper ((≡) ==> (≡)) (set_referer v).
Proof. cfg_proper. Qed.
#[export] Instance set_cookie_proper v : Proper ((≡) ==> (≡)) (set_cookie v).
Proof. cfg_proper. Qed.
#[export] Instance set_color_scheme_proper v : Proper ((≡) ==> (≡)) (set_color_scheme v).
Proof. cfg_proper. Qed.
#[export] Instance set_reduced_motion_proper v : Proper ((≡) ==> (≡)) (set_reduced_motion v).
Proof. cfg_proper. Qed.
