(* ===== verification/Freenet.v ===== *)
(** * The freenet: URL scheme and the local node ([src/freenet.c])

    Parsing and canonical form of [freenet:] addresses, their mapping onto the
    node's HTTP gateway and back, the test that keeps ordinary pages away from
    the node, the decoding of contract keys out of a node reply, and the cached
    list of known contracts. *)

From S2P Require Import Prelude CStr GLib Config.

Section Freenet.
Context {G : GLib}.
Variable cfg : option ns_config.

Definition NS_FREENET_DEFAULT_GATEWAY : bytes := $"127.0.0.1:7509".
Definition NS_FREENET_SCHEME_LEN : nat := 8.
Definition NS_FREENET_WEB_PATH : bytes := $"v1/contract/web/".
Definition NS_FREENET_WEB_TAIL : bytes := $"contract/web/".

Definition ns_freenet_api_versions : list bytes := [$"v1/"; $"v2/"].
Definition ns_freenet_node_paths : list bytes :=
  [$"v1/"; $"v2/"; $"permission/"; $"freenet-notify-sw.js"].
Definition ns_freenet_base58 : bytes :=
  $"123456789ABCDEFGHJKLMNPQRSTUVWXYZabcdefghijkmnopqrstuvwxyz".

(** ** Addresses *)

Fixpoint after_web_prefix_go (versions : list bytes) (path : bytes) : option bytes :=
  match versions with
  | [] => None
  | v :: vs =>
      if negb (g_str_has_prefix path v) then after_web_prefix_go vs path
      else
        let rest := drop (length v) path in
        if g_str_has_prefix rest NS_FREENET_WEB_TAIL
        then Some (drop (length NS_FREENET_WEB_TAIL) rest)
        else after_web_prefix_go vs path
  end.
Definition ns_freenet_after_web_prefix (path : bytes) : option bytes :=
  after_web_prefix_go ns_freenet_api_versions path.

Definition ns_freenet_path_belongs_to_node (path : bytes) : bool :=
  existsb (fun p => g_str_has_prefix path p) ns_freenet_node_paths.

Definition ns_freenet_is_base58 (c : ascii) : bool :=
  negb (c =c nul) && memb c ns_freenet_base58.

Definition ns_freenet_is_url (url : option bytes) : bool :=
  match url with
  | None => false
  | Some u => g_ascii_strncasecmp0 u ($"freenet:") NS_FREENET_SCHEME_LEN
  end.

Definition ns_freenet_key_is_valid (key : option bytes) : bool :=
  match key with
  | None => false
  | Some k =>
      let len := length k in
      if (len <? 1) || (64 <? len) then false else allb ns_freenet_is_base58 k
  end.

Definition ns_freenet_key_is_full (key : option bytes) : bool :=
  ns_freenet_key_is_valid key &&
  match key with Some k => 32 <=? length k | None => false end.

Definition ns_freenet_gateway : bytes :=
  match cfg with
  | Some c =>
      match cfg_str c freenet_gateway with
      | Some ((_ :: _) as g) => g
      | _ => NS_FREENET_DEFAULT_GATEWAY
      end
  | None => NS_FREENET_DEFAULT_GATEWAY
  end.

(** [while (len && s[len - 1] == '/') len--]. *)
Definition trim_slashes (s : bytes) : bytes :=
  rev (drop_while (fun c => c =c "/") (rev s)).

Definition ns_freenet_gateway_base (websocket : bool) : option bytes :=
  let gateway := ns_freenet_gateway in
  let '(tls, authority) :=
    if g_ascii_strncasecmp0 gateway ($"https://") 8 then (true, drop 8 gateway)
    else if g_ascii_strncasecmp0 gateway ($"http://") 7 then (false, drop 7 gateway)
    else (false, gateway) in
  match trim_slashes authority with
  | [] => None
  | host =>
      let transport : bytes :=
        if websocket then (if tls then $"wss://" else $"ws://")
        else (if tls then $"https://" else $"http://") in
      Some (transport ++ host)
  end.

Definition ns_freenet_take_key (p : bytes) : option (bytes * bytes) :=
  let key := cspan ($"/?#") p in
  let end_ := crest ($"/?#") p in
  match key with
  | [] => None
  | _ =>
      if negb (ns_freenet_key_is_valid (Some key)) then None
      else Some (key, if head_is (fun c => c =c "/") end_ then drop 1 end_ else end_)
  end.

(** The loop of [ns_freenet_split] that unwraps gateway paths inside the
    address; every pass shortens [rest]. *)
Fixpoint unwrap_web (fuel : nat) (key rest : bytes) : bytes * bytes :=
  match fuel with
  | O => (key, rest)
  | S fuel' =>
      match ns_freenet_after_web_prefix rest with
      | None => (key, rest)
      | Some inner =>
          match ns_freenet_take_key inner with
          | None => (key, rest)
          | Some (inner_key, inner_rest) => unwrap_web fuel' inner_key inner_rest
          end
      end
  end.

Definition ns_freenet_split (url : option bytes) : option (bytes * bytes) :=
  match url with
  | None => None
  | Some u =>
      if negb (ns_freenet_is_url (Some u)) then None
      else
        let p := drop NS_FREENET_SCHEME_LEN u in
        let p := if prefixb ($"//") p then drop 2 p else p in
        let p := drop_while (fun c => c =c "/") p in
        match ns_freenet_take_key p with
        | None => None
        | Some (key, rest) => Some (unwrap_web (length rest) key rest)
        end
  end.

Definition ns_freenet_key_of (url : option bytes) : option bytes :=
  match ns_freenet_split url with
  | Some (key, _) => Some key
  | None => None
  end.

Definition ns_freenet_canonical_url (input : option bytes) : option bytes :=
  match ns_freenet_split input with
  | Some (key, rest) => Some ($"freenet://" ++ key ++ $"/" ++ rest)
  | None => None
  end.

Definition ns_freenet_with_key (url : option bytes) (key : bytes) : option bytes :=
  match ns_freenet_split url with
  | Some (_, rest) => Some ($"freenet://" ++ key ++ $"/" ++ rest)
  | None => None
  end.

(** ** To the gateway and back *)

(** The document a path names: a directory is its [index.html]. *)
Definition index_for (path : bytes) : bytes :=
  match last path with
  | None => $"index.html"
  | Some c => if c =c "/" then $"index.html" else []
  end.

Definition ns_freenet_map (url : option bytes) (websocket : bool) : option bytes :=
  match ns_freenet_split url with
  | None => None
  | Some (key, rest) =>
      match ns_freenet_gateway_base websocket with
      | None => None
      | Some base =>
          if ns_freenet_path_belongs_to_node rest then Some (base ++ $"/" ++ rest)
          else
            let path := cspan ($"?#") rest in
            Some (base ++ $"/" ++ NS_FREENET_WEB_PATH ++ key ++ $"/" ++
                  path ++ index_for path ++ crest ($"?#") rest)
      end
  end.

Definition ns_freenet_to_gateway (url : option bytes) : option bytes := ns_freenet_map url false.
Definition ns_freenet_to_gateway_ws (url : option bytes) : option bytes := ns_freenet_map url true.

Definition ns_freenet_host_is_loopback (host : bytes) : bool :=
  match last host with
  | None => false
  | Some c =>
      let host := if c =c "." then removelast host else host in
      let len := length host in
      if (len =? 9) && g_ascii_strncasecmp0 host ($"localhost") 9 then true
      else if (len =? 3) && strncmp0 host ($"::1") 3 then true
      else if (len =? 5) && strncmp0 host ($"[::1]") 5 then true
      else if (4 <? len) && strncmp0 host ($"127.") 4 then
        allb (fun c => g_ascii_isdigit c || (c =c ".")) (drop 4 host)
      else false
  end.

(** The host and the port of an authority; no port is the empty one, as the
    lengths the code compares have it. *)
Definition ns_freenet_split_authority (authority : bytes) : bytes * bytes :=
  let len := length authority in
  let colon :=
    if head_is (fun c => c =c "[") authority then
      match strchr authority "]" with
      | Some close =>
          let at_close := length (before authority "]") in
          if (at_close + 1 <? len) && head_is (fun c => c =c ":") (drop 1 close)
          then at_close + 1 else len
      | None => len
      end
    else length (before authority ":") in
  (take colon authority, if colon <? len then drop (colon + 1) authority else []).

Definition ns_freenet_authority_is_gateway (authority : bytes) : bool :=
  match ns_freenet_gateway_base false with
  | None => false
  | Some base =>
      let gateway := match strstr base ($"://") with
                     | Some (_, r) => drop 3 r
                     | None => base
                     end in
      let '(host, port) := ns_freenet_split_authority authority in
      let '(ghost, gport) := ns_freenet_split_authority gateway in
      if negb (length port =? length gport) ||
         (negb (length port =? 0) && negb (strncmp0 port gport (length port)))
      then false
      else if (length host =? length ghost) &&
              g_ascii_strncasecmp0 host ghost (length host)
      then true
      else ns_freenet_host_is_loopback host && ns_freenet_host_is_loopback ghost
  end.

(** The first of the schemes the URL starts with, whatever the case, and what
    follows it. *)
Fixpoint strip_scheme {X : Type} (schemes : list (bytes * X)) (url : bytes) : option (bytes * X) :=
  match schemes with
  | [] => None
  | (s, x) :: rest =>
      if g_ascii_strncasecmp0 url s (length s) then Some (drop (length s) url, x)
      else strip_scheme rest url
  end.

Definition node_endpoint_schemes : list (bytes * bool) :=
  [($"ws://", true); ($"wss://", true); ($"http://", false); ($"https://", false)].

Definition ns_freenet_is_node_endpoint (url : option bytes) : bool :=
  match url with
  | None => false
  | Some u =>
      match strip_scheme node_endpoint_schemes u with
      | None => false
      | Some (authority, _) =>
          ns_freenet_authority_is_gateway (cspan ($"/?#") authority)
      end
  end.

Definition ns_freenet_from_gateway (url : option bytes) : option bytes :=
  match url with
  | None => None
  | Some u =>
      match strstr u ($"://") with
      | None => None
      | Some (_, r) =>
          let authority := drop 3 r in
          let tail := crest ($"/?#") authority in
          if negb (ns_freenet_authority_is_gateway (cspan ($"/?#") authority)) then None
          else if negb (head_is (fun c => c =c "/") tail) then None
          else
            match ns_freenet_after_web_prefix (drop 1 tail) with
            | None => None
            | Some p =>
                let key := cspan ($"/?#") p in
                let end_ := crest ($"/?#") p in
                match key with
                | [] => None
                | _ =>
                    if negb (ns_freenet_key_is_valid (Some key)) then None
                    else Some ($"freenet://" ++ key ++ $"/" ++
                               (if head_is (fun c => c =c "/") end_ then drop 1 end_ else end_))
                end
            end
      end
  end.

(** ** Replies and policies of the node *)

Definition ns_freenet_node_error (status : Z) (body : option bytes) : option bytes :=
  match body with
  | None => None
  | Some b =>
      if (status <? 400)%Z || (length b =? 0) then None
      else if existsb (fun c => c =c "<") (take 512 b) then None
      else
        let text := g_strstrip (cstr_of (take 400 b)) in
        match text with
        | [] => None
        | _ => if g_utf8_validate text then Some text else None
        end
  end.

Definition ns_freenet_localize_csp (csp url : option bytes) : option bytes :=
  match csp with
  | None | Some [] => None
  | Some c =>
      match ns_freenet_gateway_base false with
      | None => None
      | Some base =>
          if negb (contains c base) then None
          else
            match ns_freenet_key_of url with
            | None => None
            | Some key =>
                Some (g_strjoinv (base ++ $" freenet://" ++ key) (g_strsplit c base))
            end
      end
  end.

(** ** Contract keys in a diagnostics reply

    [rs] is the Rust decoder over freenet-stdlib when the build has it
    ([NS_HAVE_FREENET_RS]): the ids of a reply it recognises, one per line. *)
Section Keys.
Variable rs_contract_ids : option (bytes -> option bytes).

Fixpoint collect_runs (fuel : nat) (data : bytes) : list bytes :=
  match fuel with
  | O => []
  | S fuel' =>
      match data with
      | [] => []
      | c :: rest =>
          if negb (ns_freenet_is_base58 c) then collect_runs fuel' rest
          else
            let run := take_while ns_freenet_is_base58 data in
            let after := drop_while ns_freenet_is_base58 data in
            if (length run <? 32) || (64 <? length run) then collect_runs fuel' after
            else run :: collect_runs fuel' after
      end
  end.

Definition ns_freenet_collect_keys (data : bytes) : list bytes :=
  match data with
  | [] => []
  | _ =>
      match rs_contract_ids with
      | Some ids =>
          match ids data with
          | Some decoded =>
              List.filter (fun id => ns_freenet_key_is_full (Some id)) (g_strsplit decoded [nl])
          | None => collect_runs (length data) data
          end
      | None => collect_runs (length data) data
      end
  end.

Fixpoint match_prefix_go (prefix : bytes) (ids : list bytes) (found : option bytes) : option bytes :=
  match ids with
  | [] => found
  | id :: rest =>
      if negb (strncmp0 id prefix (length prefix)) then match_prefix_go prefix rest found
      else if negb (ns_freenet_key_is_full (Some id)) then match_prefix_go prefix rest found
      else
        match found with
        | Some f => if strcmp0 f id then match_prefix_go prefix rest found else None
        | None => match_prefix_go prefix rest (Some id)
        end
  end.
Definition ns_freenet_match_prefix (ids : list bytes) (prefix : bytes) : option bytes :=
  match_prefix_go prefix ids None.

Definition ns_freenet_find_key_with_prefix (data prefix : bytes) : option bytes :=
  match data, prefix with
  | [], _ | _, [] => None
  | _, _ => ns_freenet_match_prefix (ns_freenet_collect_keys data) prefix
  end.

(** ** The known contracts, cached for thirty seconds *)

Record known_contracts := {
  g_known_contracts : option (list bytes);
  g_known_contracts_at : Z;
}.

Definition NS_FREENET_CONTRACT_CACHE_US : Z := 30 * 1000000.

(** What the world answers during one call: the clock before and after the
    query, and the node's reply. The lock is released for the query; both fields
    are assigned once it is held again, so what another thread stored meanwhile
    is overwritten. *)
Record lookup_env := {
  env_now : Z;
  env_diagnostics : option bytes;
  env_now_after : Z;
}.

Definition known_is_stale (now : Z) (st : known_contracts) : bool :=
  match g_known_contracts st with
  | None => true
  | Some _ => (NS_FREENET_CONTRACT_CACHE_US <? now - g_known_contracts_at st)%Z
  end.

Definition known_refresh (env : lookup_env) : known_contracts :=
  {| g_known_contracts :=
       Some (match env_diagnostics env with
             | Some d => ns_freenet_collect_keys d
             | None => []
             end);
     g_known_contracts_at := env_now_after env |}.

Definition known_find (st : known_contracts) (host : bytes) : option bytes :=
  match g_known_contracts st with
  | None => None
  | Some keys => List.find (fun candidate => g_ascii_strcasecmp0 candidate host) keys
  end.

Definition ns_freenet_known_contract_for_host (env : lookup_env) (host : option bytes)
    (st : known_contracts) : option bytes * known_contracts :=
  match host with
  | None => (None, st)
  | Some h =>
      if (length h <? 32) || (64 <? length h) then (None, st)
      else
        let st := if known_is_stale (env_now env) st then known_refresh env else st in
        (known_find st h, st)
  end.

Definition ns_freenet_localize_origin (env : lookup_env) (target doc_url : option bytes)
    (st : known_contracts) : option bytes * known_contracts :=
  match target with
  | None => (None, st)
  | Some t =>
      if negb (ns_freenet_is_url doc_url) then (None, st)
      else
        match strip_scheme node_endpoint_schemes t with
        | None => (None, st)
        | Some (authority, websocket) =>
            let host := cspan ($":/?#") authority in
            let own := match ns_freenet_key_of doc_url with
                       | Some key => g_ascii_strcasecmp0 host key
                       | None => false
                       end in
            let '(known, st) :=
              if own then (true, st)
              else
                let '(k, st) := ns_freenet_known_contract_for_host env (Some host) st in
                (match k with Some _ => true | None => false end, st) in
            if negb known then (None, st)
            else
              let rest := crest ($":/?#") authority in
              let rest := crest ($"/?#") rest in
              let rest := drop_while (fun c => c =c "/") rest in
              (match ns_freenet_gateway_base websocket with
               | Some base => Some (base ++ $"/" ++ rest)
               | None => None
               end, st)
        end
  end.
End Keys.
End Freenet.

(** ** Lemmas, at the reference GLib *)

Lemma base58_plain c :
  ns_freenet_is_base58 c = true ->
  negb (memb c ($"/?#:@[].")) = true.
Proof.
  intros H. assert (E : negb (ns_freenet_is_base58 c) || negb (memb c ($"/?#:@[].")) = true).
  { clear H. by_bytes c. }
  by rewrite H in E.
Qed.

Lemma key_valid_spec k :
  ns_freenet_key_is_valid (Some k) = true <->
  (1 <= length k <= 64)%nat /\ allb ns_freenet_is_base58 k = true.
Proof.
  unfold ns_freenet_key_is_valid. cbv zeta.
  destruct (Nat.ltb_spec (length k) 1), (Nat.ltb_spec 64 (length k)); cbn [orb];
    intuition (try done; lia).
Qed.

Lemma base58_ne c d :
  ns_freenet_is_base58 c = true -> memb d ($"/?#:@[].") = true -> (c =c d) = false.
Proof.
  intros Hc%base58_plain%negb_true_iff Hd. apply Ascii.eqb_neq. intros ->. congruence.
Qed.

Lemma key_valid_head c k :
  ns_freenet_key_is_valid (Some (c :: k)) = true -> ns_freenet_is_base58 c = true.
Proof. intros [_ H]%key_valid_spec. cbn [forallb] in H. by boolify. Qed.

(** No byte of a valid key is one of [set], for the delimiters the code scans
    for. *)
Lemma key_valid_free set k :
  incl set ($"/?#:@[].") ->
  ns_freenet_key_is_valid (Some k) = true ->
  allb (fun c => negb (memb c set)) k = true.
Proof.
  intros Hset [_ Hk]%key_valid_spec. revert Hk. apply allb_impl.
  intros c Hc%base58_plain. apply negb_true_iff in Hc. apply negb_true_iff.
  destruct (memb c set) eqn:E; [|done].
  apply memb_In, Hset, memb_In in E. congruence.
Qed.

Lemma key_valid_cons k :
  ns_freenet_key_is_valid (Some k) = true -> exists c k', k = c :: k'.
Proof. intros [? _]%key_valid_spec. destruct k; [cbn in *; lia|eauto]. Qed.

#[export] Hint Resolve key_valid_free : ns.

Ltac incl_dec :=
  let c := fresh in intros c; cbv [list_ascii_of_string In]; tauto.

Lemma take_key_valid p k r :
  ns_freenet_take_key p = Some (k, r) -> ns_freenet_key_is_valid (Some k) = true.
Proof.
  unfold ns_freenet_take_key. intros H. destruct (cspan _ _) as [|c s]; [done|].
  destruct (negb _) eqn:E; [done|]. boolify. congruence.
Qed.

Lemma take_key_shorter p k r :
  ns_freenet_take_key p = Some (k, r) -> (length r < length p)%nat.
Proof.
  unfold ns_freenet_take_key. intros H.
  pose proof (f_equal length (cspan_crest ($"/?#") p)) as L. rewrite length_app in L.
  destruct (cspan ($"/?#") p) as [|c s] eqn:E; [done|]. cbn [length app] in L.
  destruct (negb _); [done|]. injection H as <- <-.
  destruct (head_is _ _); rewrite ?length_drop; lia.
Qed.

(** Parsing [key "/" rest] and [key] alone. *)
Lemma take_key_slash k r :
  ns_freenet_key_is_valid (Some k) = true ->
  ns_freenet_take_key (k ++ $"/" ++ r) = Some (k, r).
Proof.
  intros Hk. unfold ns_freenet_take_key.
  destruct (cspan_app ($"/?#") k ($"/" ++ r)) as [-> ->]; [|done|].
  - apply key_valid_free; [incl_dec|done].
  - destruct (key_valid_cons k Hk) as (c & k' & ->). by rewrite Hk.
Qed.

Definition unwraps (rest : bytes) : bool :=
  match ns_freenet_after_web_prefix rest with
  | Some inner => match ns_freenet_take_key inner with Some _ => true | None => false end
  | None => false
  end.

Lemma after_web_prefix_go_shorter vs path p :
  after_web_prefix_go vs path = Some p -> (length p <= length path)%nat.
Proof.
  induction vs as [|v vs IH]; cbn -[length drop]; [done|].
  destruct (negb _); [done|]. case_test; [|done]. intros [= <-].
  rewrite !length_drop. lia.
Qed.

Lemma unwrap_web_stuck n k r : unwraps r = false -> unwrap_web n k r = (k, r).
Proof.
  unfold unwraps. destruct n; [done|]. cbn -[ns_freenet_after_web_prefix].
  destruct (ns_freenet_after_web_prefix r) as [i|]; [|done].
  by destruct (ns_freenet_take_key i).
Qed.

(** With fuel for every byte of [rest] the loop ends at an address that does not
    unwrap any further; a valid key stays one. *)
Lemma unwrap_web_done n k r k' r' :
  (length r <= n)%nat -> unwrap_web n k r = (k', r') ->
  unwraps r' = false /\
  (ns_freenet_key_is_valid (Some k) = true -> ns_freenet_key_is_valid (Some k') = true).
Proof.
  revert k r. induction n as [|n IH]; intros k r Hl H.
  - injection H as <- <-. destruct r; [done|cbn in Hl; lia].
  - cbn -[ns_freenet_after_web_prefix] in H.
    destruct (ns_freenet_after_web_prefix r) as [i|] eqn:E.
    2:{ injection H as <- <-. unfold unwraps. by rewrite E. }
    destruct (ns_freenet_take_key i) as [[k1 r1]|] eqn:T.
    2:{ injection H as <- <-. unfold unwraps. by rewrite E, T. }
    apply after_web_prefix_go_shorter in E.
    apply take_key_shorter in T as Ts. apply take_key_valid in T.
    destruct (IH k1 r1 ltac:(lia) H) as [? ?]. eauto.
Qed.

Lemma split_Some url k r :
  ns_freenet_split url = Some (k, r) ->
  ns_freenet_key_is_valid (Some k) = true /\ unwraps r = false.
Proof.
  unfold ns_freenet_split. intros H. destruct url as [u|]; [|done].
  destruct (negb _); [done|]. destruct (ns_freenet_take_key _) as [[k0 r0]|] eqn:T; [|done].
  injection H as H. apply unwrap_web_done in H as [? Hv]; [|lia].
  apply take_key_valid in T. auto.
Qed.

Lemma is_url_scheme r : ns_freenet_is_url (Some ($"freenet:" ++ r)) = true.
Proof. apply (strncasecmp0_app ($"freenet:")). Qed.

Lemma drop_scheme r : drop NS_FREENET_SCHEME_LEN ($"freenet:" ++ r) = r.
Proof. apply (drop_app_length ($"freenet:")). Qed.

(** Reading back an address in canonical form. *)
Lemma split_canonical k r :
  ns_freenet_key_is_valid (Some k) = true -> unwraps r = false ->
  ns_freenet_split (Some ($"freenet://" ++ k ++ $"/" ++ r)) = Some (k, r).
Proof.
  intros Hk Hr. destruct (key_valid_cons k Hk) as (c & k' & ->).
  assert (Hc : (c =c "/") = false) by
    (apply base58_ne; [exact (key_valid_head c k' Hk)|reflexivity]).
  change ($"freenet://" ++ (c :: k') ++ $"/" ++ r)
    with ($"freenet:" ++ "/"%char :: "/"%char :: (c :: k') ++ $"/" ++ r).
  unfold ns_freenet_split. rewrite is_url_scheme, drop_scheme.
  cbn [negb]. change (prefixb ($"//") _) with true. cbn [drop app drop_while].
  rewrite Hc. change (c :: k' ++ _) with ((c :: k') ++ $"/" ++ r).
  rewrite take_key_slash by done. by rewrite unwrap_web_stuck.
Qed.

(** *** The gateway's base URL *)

Definition transport (websocket tls : bool) : bytes :=
  if websocket then (if tls then $"wss://" else $"ws://")
  else (if tls then $"https://" else $"http://").

(** The configured gateway as scheme and authority. *)
Definition gateway_authority (cfg : option ns_config) : bool * bytes :=
  let g := ns_freenet_gateway cfg in
  if g_ascii_strncasecmp0 (GLib := glib_ref) g ($"https://") 8 then (true, trim_slashes (drop 8 g))
  else if g_ascii_strncasecmp0 (GLib := glib_ref) g ($"http://") 7 then (false, trim_slashes (drop 7 g))
  else (false, trim_slashes g).

Lemma gateway_base_eq cfg ws :
  ns_freenet_gateway_base cfg ws =
  match (gateway_authority cfg).2 with
  | [] => None
  | a => Some (transport ws (gateway_authority cfg).1 ++ a)
  end.
Proof.
  unfold ns_freenet_gateway_base, gateway_authority.
  destruct (g_ascii_strncasecmp0 _ _ 8); [|destruct (g_ascii_strncasecmp0 _ _ 7)];
    cbn [fst snd]; by destruct (trim_slashes _).
Qed.

(** An authority without the delimiters of a URL, as a host and port is. *)
Definition plain_gateway (cfg : option ns_config) : bool :=
  let a := (gateway_authority cfg).2 in
  negb (bool_decide (a = [])) && allb (fun c => negb (memb c ($"/?#"))) a.

Lemma strstr_transport tls a :
  strstr (transport false tls ++ a) ($"://") = Some (if tls then $"https" else $"http", $"://" ++ a).
Proof.
  destruct tls.
  - apply (strstr_first ($"https") ":" ($"//") a). reflexivity.
  - apply (strstr_first ($"http") ":" ($"//") a). reflexivity.
Qed.

Lemma split_authority_refl a :
  let '(h, p) := ns_freenet_split_authority a in
  negb (length p =? length p) || (negb (length p =? 0) && negb (strncmp0 p p (length p))) = false
  /\ (length h =? length h) && g_ascii_strncasecmp0 h h (length h) = true.
Proof.
  destruct (ns_freenet_split_authority a) as [h p].
  rewrite !Nat.eqb_refl. unfold strncmp0. cbn.
  rewrite !bool_decide_eq_true_2 by done. by destruct (length p =? 0).
Qed.

(** What the test compares: the ports byte for byte, the hosts without case or
    as two names of the loopback interface. *)
Lemma authority_is_gateway_eq cfg a :
  plain_gateway cfg = true ->
  ns_freenet_authority_is_gateway cfg a =
  (let '(host, port) := ns_freenet_split_authority a in
   let '(ghost, gport) := ns_freenet_split_authority (gateway_authority cfg).2 in
   bool_decide (port = gport) &&
   (bool_decide (map lower host = map lower ghost) ||
    (ns_freenet_host_is_loopback host && ns_freenet_host_is_loopback ghost))).
Proof.
  unfold plain_gateway. intros [Hne Hp]%andb_prop.
  unfold ns_freenet_authority_is_gateway. rewrite gateway_base_eq.
  destruct (gateway_authority cfg) as [tls g]. cbn [fst snd] in *.
  destruct g as [|c g']; [done|]. set (g := c :: g') in *.
  rewrite strstr_transport. change (drop 3 ($"://" ++ g)) with g.
  destruct (ns_freenet_split_authority a) as [h p], (ns_freenet_split_authority g) as [gh gp].
  unfold strncmp0. cbn.
  destruct (Nat.eqb_spec (length p) (length gp)) as [E|E]; cbn [negb orb].
  - rewrite (take_ge p), (take_ge gp) by lia.
    destruct (bool_decide_reflect (p = gp)) as [->|Hpg].
    + replace (negb (length gp =? 0) && negb true) with false by (by rewrite andb_false_r).
      destruct (Nat.eqb_spec (length h) (length gh)) as [L|L]; cbn [andb].
      * rewrite (take_ge h), (take_ge gh) by lia. by destruct (bool_decide _).
      * rewrite (bool_decide_eq_false_2 (map lower h = _)); [done|].
        intros M%(f_equal length). rewrite !length_map in M. lia.
    + replace (length p =? 0) with false; [done|]. symmetry. apply Nat.eqb_neq.
      intros Z. destruct p, gp; cbn in *; try lia. done.
  - rewrite (bool_decide_eq_false_2 (p = gp)); [done|]. congruence.
Qed.

Lemma authority_is_gateway_self cfg :
  plain_gateway cfg = true ->
  ns_freenet_authority_is_gateway cfg (gateway_authority cfg).2 = true.
Proof.
  intros H. rewrite authority_is_gateway_eq by done.
  destruct (ns_freenet_split_authority _) as [h p].
  by rewrite !bool_decide_eq_true_2 by done.
Qed.

(** *** Loopback names *)

Inductive loopback_name : bytes -> Prop :=
| lb_localhost h : map lower h = $"localhost" -> loopback_name h
| lb_v6 : loopback_name ($"::1")
| lb_v6_bracket : loopback_name ($"[::1]")
| lb_v4 t : t <> [] -> allb (fun c => is_digit c || (c =c ".")) t = true ->
    loopback_name ($"127." ++ t).

Definition loopback_test (host : bytes) : bool :=
  let len := length host in
  if (len =? 9) && g_ascii_strncasecmp0 host ($"localhost") 9 then true
  else if (len =? 3) && strncmp0 host ($"::1") 3 then true
  else if (len =? 5) && strncmp0 host ($"[::1]") 5 then true
  else if (4 <? len) && strncmp0 host ($"127.") 4 then
    allb (fun c => g_ascii_isdigit c || (c =c ".")) (drop 4 host)
  else false.

Lemma len_cmp (h p : bytes) n :
  length p = n -> (length h =? n) && strncmp0 h p n = bool_decide (h = p).
Proof.
  intros <-. apply eq_true_iff_eq. unfold strncmp0.
  rewrite andb_true_iff, Nat.eqb_eq, !bool_decide_eq_true, (take_ge p) by lia. split.
  - intros [E H]. by rewrite take_ge in H by lia.
  - intros ->. by rewrite take_ge by lia.
Qed.

Lemma loopback_test_spec h : loopback_test h = true <-> loopback_name h.
Proof.
  unfold loopback_test. cbv zeta.
  rewrite (len_cmp h ($"::1") 3 eq_refl), (len_cmp h ($"[::1]") 5 eq_refl).
  replace ((length h =? 9) && g_ascii_strncasecmp0 h $"localhost" 9)
    with (bool_decide (map lower h = $"localhost")).
  2:{ apply eq_true_iff_eq. rewrite andb_true_iff, Nat.eqb_eq. cbn.
      rewrite !bool_decide_eq_true. split.
      - intros E. assert (length h = 9) by (apply (f_equal length) in E; by rewrite length_map in E).
        rewrite take_ge by lia. done.
      - intros [L E]. by rewrite take_ge in E by lia. }
  split.
  - repeat case_bool_decide; intros H'; subst; try (by constructor).
    destruct (Nat.ltb_spec 4 (length h)); [|done]. cbn [andb] in H'.
    destruct (strncmp0 h ($"127.") 4) eqn:E; [|done].
    change 4 with (length ($"127.")) in E. rewrite strncmp0_prefix in E.
    apply prefixb_drop in E. rewrite E. apply lb_v4.
    + intros D. apply (f_equal length) in E. rewrite length_app, D in E.
      change (length ($"127.")) with 4 in E. cbn [length] in E. lia.
    + exact H'.
  - intros H. repeat case_bool_decide; try done.
    inversion H as [? | | |t Ht Ha]; subst; try done.
    replace (4 <? length ($"127." ++ t)) with true.
    2:{ symmetry. apply Nat.ltb_lt. destruct t; [done|]. rewrite length_app.
        change (length ($"127.")) with 4. cbn. lia. }
    change 4 with (length ($"127.")) at 1. rewrite strncmp0_prefix, prefixb_app. cbn [andb].
    change 4 with (length ($"127.")). by rewrite drop_app_length.
Qed.

Lemma host_is_loopback_eq h :
  ns_freenet_host_is_loopback h =
  match last h with
  | None => false
  | Some c => loopback_test (if c =c "." then removelast h else h)
  end.
Proof. reflexivity. Qed.

(** A loopback name, or one written with the root dot. *)
Lemma host_is_loopback_spec h :
  ns_freenet_host_is_loopback h = true <->
  exists n, loopback_name n /\ ((h = n /\ last n <> Some "."%char) \/ h = n ++ $".").
Proof.
  rewrite host_is_loopback_eq. destruct (last h) as [c|] eqn:L.
  - apply last_Some in L as [h' ->]. rewrite removelast_last.
    destruct (c =c ".") eqn:E; boolify; rewrite loopback_test_spec.
    + subst c. split; [by eauto|]. intros (n & Hn & [[<- Hl]|Hl]).
      * by rewrite last_snoc in Hl.
      * apply app_inj_tail in Hl as [-> _]. done.
    + split.
      * intros H. eexists. split; [exact H|]. left. rewrite last_snoc. split; congruence.
      * intros (n & Hn & [[<- _]|Hl]); [done|].
        apply app_inj_tail in Hl as [_ ?]. done.
  - apply last_None in L as ->. split; [done|].
    intros (n & Hn & [[<- _]|Hl]); [|by destruct n].
    inversion Hn as [? H| | |]; done.
Qed.

(** *** Runs of base58 in a reply *)

(** The maximal runs of bytes that satisfy [f], empty ones left out. *)
Fixpoint runs (f : ascii -> bool) (acc data : bytes) : list bytes :=
  match data with
  | [] => match acc with [] => [] | _ => [acc] end
  | c :: rest =>
      if f c then runs f (acc ++ [c]) rest
      else match acc with [] => runs f [] rest | _ => acc :: runs f [] rest end
  end.

Definition key_sized (run : bytes) : bool := (32 <=? length run) && (length run <=? 64).

Lemma key_sized_test run :
  (length run <? 32) || (64 <? length run) = negb (key_sized run).
Proof.
  unfold key_sized. rewrite negb_andb, <- !Nat.ltb_antisym. done.
Qed.

Lemma runs_span f acc data :
  acc <> [] \/ take_while f data <> [] ->
  runs f acc data = (acc ++ take_while f data) :: runs f [] (drop_while f data).
Proof.
  revert acc. induction data as [|c data IH]; intros acc H; cbn in *.
  - destruct acc; [by destruct H|]. by rewrite app_nil_r.
  - destruct (f c) eqn:E.
    + rewrite IH by (left; by destruct acc). by rewrite <- app_assoc.
    + destruct acc; [by destruct H|]. cbn. rewrite E. by rewrite app_nil_r.
Qed.

Lemma collect_runs_eq n data :
  (length data <= n)%nat ->
  collect_runs n data = List.filter key_sized (runs ns_freenet_is_base58 [] data).
Proof.
  revert data. induction n as [|n IH]; intros data Hl.
  - by destruct data; [|cbn in Hl; lia].
  - destruct data as [|c data]; [done|]. cbn [collect_runs].
    destruct (ns_freenet_is_base58 c) eqn:E; cbn [negb].
    + rewrite runs_span by (right; cbn; by rewrite E). cbn [app List.filter].
      assert (L : (length (drop_while ns_freenet_is_base58 (c :: data)) <= n)%nat).
      { cbn [drop_while]. rewrite E. pose proof (drop_while_length ns_freenet_is_base58 data).
        cbn [length] in Hl. lia. }
      rewrite IH by done.
      rewrite key_sized_test. by destruct (key_sized _).
    + cbn [runs]. rewrite E. apply IH. cbn in Hl. lia.
Qed.

Lemma runs_forall f acc data :
  allb f acc = true -> Forall (fun r => allb f r = true) (runs f acc data).
Proof.
  revert acc. induction data as [|c data IH]; intros acc H; cbn.
  - destruct acc; by repeat constructor.
  - destruct (f c) eqn:E.
    + apply IH. rewrite forallb_app, H. cbn. by rewrite E.
    + destruct acc; [by apply IH|]. constructor; [done|by apply IH].
Qed.

Lemma key_full_spec k :
  ns_freenet_key_is_full (Some k) = true <->
  key_sized k = true /\ allb ns_freenet_is_base58 k = true.
Proof.
  unfold ns_freenet_key_is_full, key_sized. rewrite !andb_true_iff, key_valid_spec, !Nat.leb_le.
  intuition lia.
Qed.

Lemma collect_keys_full rs data :
  Forall (fun k => ns_freenet_key_is_full (Some k) = true) (ns_freenet_collect_keys rs data).
Proof.
  assert (R : Forall (fun k => ns_freenet_key_is_full (Some k) = true)
                (collect_runs (length data) data)).
  { rewrite collect_runs_eq by done. rewrite List.Forall_forall. intros k [Hk Hs]%List.filter_In.
    apply key_full_spec. split; [done|].
    pose proof (runs_forall ns_freenet_is_base58 [] data eq_refl) as F.
    rewrite List.Forall_forall in F. by apply F. }
  unfold ns_freenet_collect_keys. destruct data as [|c data]; [constructor|].
  destruct rs as [ids|]; [|done]. destruct (ids _) as [d|]; [|done].
  rewrite List.Forall_forall. by intros k [_ ?]%List.filter_In.
Qed.

(** The key a prefix selects, as the loop computes it. *)
Definition prefix_matches (prefix id : bytes) : bool :=
  strncmp0 id prefix (length prefix) && ns_freenet_key_is_full (Some id).

Lemma match_prefix_go_cons prefix id ids found :
  match_prefix_go prefix (id :: ids) found =
  if prefix_matches prefix id then
    match found with
    | Some f => if strcmp0 f id then match_prefix_go prefix ids found else None
    | None => match_prefix_go prefix ids (Some id)
    end
  else match_prefix_go prefix ids found.
Proof.
  cbn [match_prefix_go]. unfold prefix_matches.
  destruct (strncmp0 id _ _); [|done]. by destruct (ns_freenet_key_is_full _).
Qed.

Lemma match_prefix_go_spec prefix ids found k :
  match_prefix_go prefix ids found = Some k <->
  match found with
  | Some f => k = f /\ (forall id, In id ids -> prefix_matches prefix id = true -> id = f)
  | None => In k ids /\ prefix_matches prefix k = true /\
            (forall id, In id ids -> prefix_matches prefix id = true -> id = k)
  end.
Proof.
  revert found. induction ids as [|id ids IH]; intros found.
  - destruct found; cbn; [|by intuition]. split; [intros [= ->]; by intuition|by intros [-> _]].
  - rewrite match_prefix_go_cons. cbn [In].
    destruct (prefix_matches prefix id) eqn:P.
    + destruct found as [f|]; [unfold strcmp0; case_bool_decide as D|].
      * subst f. rewrite IH. intuition (subst; eauto).
      * split; [done|]. intros [_ H]. exfalso. apply D. symmetry. by apply H; [left|].
      * rewrite IH. split.
        -- intros [-> H]. intuition (subst; eauto).
        -- intros (Hk & Pk & H). rewrite (H id) by (try left; done). split; [done|eauto].
    + rewrite IH. destruct found; intuition (subst; try congruence; eauto).
Qed.

(** *** Schemes in any case *)

Ltac eval_dec :=
  match goal with
  | |- context [bool_decide ?P] =>
      let b := eval vm_compute in (bool_decide P) in change (bool_decide P) with b
  end; cbn iota.

Lemma strncasecmp0_lower (s l x p : bytes) n :
  map lower s = l -> (n <= length l)%nat ->
  g_ascii_strncasecmp0 (GLib := glib_ref) (s ++ x) p n = bool_decide (take n l = map lower (take n p)).
Proof.
  intros <- Hn. rewrite length_map in Hn. cbn.
  rewrite take_app_le by done. by rewrite firstn_map.
Qed.

Lemma strip_scheme_lower scheme x :
  In (map lower scheme) [$"ws://"; $"wss://"; $"http://"; $"https://"] ->
  exists b, strip_scheme node_endpoint_schemes (scheme ++ x) = Some (x, b).
Proof.
  intros Hs. unfold node_endpoint_schemes. cbn [strip_scheme].
  assert (L : forall l : bytes, map lower scheme = l -> length l = length scheme)
    by (intros l <-; by rewrite length_map).
  destruct Hs as [E|[E|[E|[E|[]]]]]; symmetry in E; specialize (L _ E);
    repeat (rewrite (strncasecmp0_lower _ _ _ _ _ E) by (vm_compute; lia); eval_dec);
    eexists; rewrite drop_app_length'; done.
Qed.

(** * Properties *)

(** Canonicalisation is idempotent: what [ns_freenet_canonical_url] returns
    is its own canonical form, whatever nesting of gateway paths, slashes and
    case the input had. *)
Theorem canonical_url_idempotent (G : GLib) (GS : GLibSpec G) (input : option bytes) (u : bytes) :
  ns_freenet_canonical_url input = Some u ->
  ns_freenet_canonical_url (Some u) = Some u.
Proof.
  glib. unfold ns_freenet_canonical_url.
  destruct (ns_freenet_split input) as [[k r]|] eqn:S; [|done]. intros <-%(inj Some).
  destruct (split_Some _ _ _ S) as [Hk Hr]. by rewrite split_canonical.
Qed.

Lemma canonical_url_idempotent_witness :
  ns_freenet_canonical_url (G := glib_ref)
    (Some ($"FREENET:///abc/v2/contract/web/Kxy/v1/contract/web/Q?z")) = Some ($"freenet://Q/?z") /\
  ns_freenet_canonical_url (G := glib_ref) (Some ($"freenet://Q/?z")) = Some ($"freenet://Q/?z").
Proof.
  split; [by vm_compute|].
  apply (canonical_url_idempotent glib_ref glib_ref_spec
           (Some ($"FREENET:///abc/v2/contract/web/Kxy/v1/contract/web/Q?z"))).
  by vm_compute.
Defined.

(** Replacing the key of an address by a valid key gives an address of that
    key: [ns_freenet_key_of] of [ns_freenet_with_key]'s result is the new key,
    and the result is canonical. *)
Theorem with_key_key_of (G : GLib) (GS : GLibSpec G) (url : option bytes) (key u : bytes) :
  ns_freenet_key_is_valid (Some key) = true ->
  ns_freenet_with_key url key = Some u ->
  ns_freenet_key_of (Some u) = Some key /\ ns_freenet_canonical_url (Some u) = Some u.
Proof.
  glib. unfold ns_freenet_with_key, ns_freenet_key_of, ns_freenet_canonical_url.
  intros Hk. destruct (ns_freenet_split url) as [[k r]|] eqn:S; [|done]. intros <-%(inj Some).
  destruct (split_Some _ _ _ S) as [_ Hr]. by rewrite split_canonical.
Qed.

Lemma with_key_key_of_witness :
  ns_freenet_key_of (G := glib_ref) (Some ($"freenet://Longer/a#b")) = Some ($"Longer").
Proof.
  apply (with_key_key_of glib_ref glib_ref_spec (Some ($"freenet:Short/a#b")) ($"Longer"));
    by vm_compute.
Defined.

(** A path that names a directory: nothing, or something that ends in a slash. *)
Definition names_directory (path : bytes) : Prop := path = [] \/ exists p, path = p ++ $"/".

Lemma index_for_spec path :
  (names_directory path -> index_for path = $"index.html") /\
  (~ names_directory path -> index_for path = []).
Proof.
  unfold index_for, names_directory. destruct path as [|d p _] using rev_ind; [by split; [|tauto]|].
  rewrite last_snoc. destruct (Ascii.eqb_spec d "/") as [->|Hd]; split; try done.
  - intros []. right. by exists p.
  - intros [E|[q E]]; [by destruct p|]. by apply app_inj_2 in E as [_ [= ->]].
Qed.

(** C35. The gateway mapping is faithful: for an address that is not one of the
    node's own endpoints, behind a gateway that is a plain host and port, mapping
    it to the gateway succeeds and mapping the gateway URL back gives the same
    contract, the same query and fragment and the same path, with [index.html]
    filled in exactly when the path names a directory. *)
Theorem gateway_round_trip (G : GLib) (GS : GLibSpec G) (cfg : option ns_config)
    (url : option bytes) (key rest : bytes) :
  plain_gateway cfg = true ->
  ns_freenet_split url = Some (key, rest) ->
  ns_freenet_path_belongs_to_node rest = false ->
  let path := cspan ($"?#") rest in
  exists g file, ns_freenet_to_gateway cfg url = Some g /\
    ns_freenet_from_gateway cfg (Some g) =
      Some ($"freenet://" ++ key ++ $"/" ++ path ++ file ++ crest ($"?#") rest) /\
    (names_directory path -> file = $"index.html") /\ (~ names_directory path -> file = []).
Proof.
  glib. intros Hg S Hn path. destruct (split_Some _ _ _ S) as [Hk _].
  pose proof Hg as Hg'. unfold plain_gateway in Hg. apply andb_prop in Hg as [Hne Ha].
  unfold ns_freenet_to_gateway, ns_freenet_map. rewrite S, gateway_base_eq, Hn.
  pose proof (authority_is_gateway_self cfg Hg') as Hself.
  destruct (gateway_authority cfg) as [tls a]. cbn [fst snd] in *.
  destruct a as [|c a']; [done|]. set (a := c :: a') in *.
  change (cspan ($"?#") rest) with path. set (tail := crest ($"?#") rest).
  eexists _, (index_for path). split; [reflexivity|]. split; [|apply index_for_spec].
  unfold ns_freenet_from_gateway. rewrite <- !app_assoc, strstr_transport.
  set (after := key ++ $"/" ++ path ++ index_for path ++ tail).
  change (drop 3 ($"://" ++ ?x)) with x.
  destruct (cspan_app ($"/?#") a ($"/" ++ NS_FREENET_WEB_PATH ++ after)) as [-> ->];
    [done|done|].
  rewrite Hself. cbn [negb]. change (head_is _ ($"/" ++ _)) with true. cbn [negb].
  change (drop 1 ($"/" ++ ?x)) with x.
  replace (ns_freenet_after_web_prefix _) with (Some after) by done.
  unfold after.
  destruct (cspan_app ($"/?#") key ($"/" ++ path ++ index_for path ++ tail)) as [-> ->];
    [by apply key_valid_free; [incl_dec|]|done|].
  destruct (key_valid_cons key Hk) as (d & k' & E). rewrite E at 1. by rewrite Hk.
Qed.

Lemma gateway_round_trip_witness :
  exists g file,
    ns_freenet_to_gateway (G := glib_ref) None (Some ($"freenet:Kxy/docs/?q#f")) = Some g /\
    ns_freenet_from_gateway (G := glib_ref) None (Some g) =
      Some ($"freenet://Kxy/docs/" ++ file ++ $"?q#f") /\
    (names_directory ($"docs/") -> file = $"index.html") /\ (~ names_directory ($"docs/") -> file = []).
Proof.
  apply (gateway_round_trip glib_ref glib_ref_spec None _ ($"Kxy") ($"docs/?q#f"));
    by vm_compute.
Defined.

(** The node's own address is recognised under every spelling of the
    loopback interface: with a gateway on a loopback host, a [ws:], [wss:],
    [http:] or [https:] URL in any case, whose host is a loopback name and whose
    port is the gateway's, is a node endpoint, whatever follows the authority. *)
Theorem node_endpoint_all_loopback (G : GLib) (GS : GLibSpec G) (cfg : option ns_config)
    (scheme authority tail ghost gport host : bytes) :
  plain_gateway cfg = true ->
  ns_freenet_split_authority (gateway_authority cfg).2 = (ghost, gport) ->
  ns_freenet_host_is_loopback ghost = true ->
  In (map lower scheme) [$"ws://"; $"wss://"; $"http://"; $"https://"] ->
  ns_freenet_split_authority authority = (host, gport) ->
  loopback_name host -> last host <> Some "."%char ->
  allb (fun c => negb (memb c ($"/?#"))) authority = true ->
  head_is (fun c => negb (memb c ($"/?#"))) tail = false ->
  ns_freenet_is_node_endpoint cfg (Some (scheme ++ authority ++ tail)) = true.
Proof.
  glib. intros Hg Hsp Hgl Hs Ha Hh Hd Hfree Ht.
  destruct (strip_scheme_lower _ (authority ++ tail) Hs) as [b Hb].
unfold ns_freenet_is_node_endpoint. rewrite Hb.
  destruct (cspan_app ($"/?#") authority tail Hfree Ht) as [-> _].
  rewrite authority_is_gateway_eq, Ha, Hsp by done.
  rewrite bool_decide_eq_true_2 by done. cbn [andb]. apply orb_true_iff. right.
  rewrite Hgl, andb_true_r. apply host_is_loopback_spec. exists host. auto.
Qed.

Lemma node_endpoint_all_loopback_witness :
  ns_freenet_is_node_endpoint (G := glib_ref) None
    (Some ($"WSS://" ++ $"127.3.2.1:7509" ++ $"/v1/contract/command")) = true.
Proof.
  apply (node_endpoint_all_loopback glib_ref glib_ref_spec None ($"WSS://")
           ($"127.3.2.1:7509") ($"/v1/contract/command") ($"127.0.0.1") ($"7509")
           ($"127.3.2.1")); try by vm_compute.
  - right; left. by vm_compute.
  - apply (lb_v4 ($"3.2.1")); by vm_compute.
Defined.

(** The test looks at the authority as written: user information in front of the
    host is taken for part of the host name, and a port the gateway leaves to its
    scheme's default is not the same port written out. Such URLs, which a
    transport connects to the node, are not recognised as node endpoints. *)
Example node_endpoint_userinfo_missed (G : GLib) (GS : GLibSpec G) :
  ns_freenet_is_node_endpoint None (Some ($"ws://127.0.0.1:7509/v1/contract/command")) = true /\
  ns_freenet_is_node_endpoint None (Some ($"ws://x@127.0.0.1:7509/v1/contract/command")) = false /\
  ns_freenet_is_node_endpoint (Some (set_str freenet_gateway (Some ($"https://gw.example")) cfg_zero))
    (Some ($"wss://gw.example:443/v1/contract/command")) = false.
Proof. glib. by vm_compute. Qed.

(** The fallback decoder finds exactly the keys a reply spells: without the
    Rust decoder, or when that one does not recognise the reply, the result is
    the list, in order, of the maximal runs of base58 bytes of length 32 to 64. *)
Theorem collect_keys_runs (G : GLib) (rs : option (bytes -> option bytes)) (data : bytes) :
  match rs with Some ids => ids data = None | None => True end ->
  ns_freenet_collect_keys rs data =
  List.filter key_sized (runs ns_freenet_is_base58 [] data).
Proof.
  intros H. unfold ns_freenet_collect_keys. destruct data as [|c data]; [done|].
  destruct rs as [ids|]; [rewrite H|]; by rewrite collect_runs_eq.
Qed.

Lemma collect_keys_runs_witness :
  ns_freenet_collect_keys (G := glib_ref) None
    ($"x 3VgtmdXDHDEW3atupXiEThTneSheFtNfV2UiZxSJr7dh;short")
  = [$"3VgtmdXDHDEW3atupXiEThTneSheFtNfV2UiZxSJr7dh"].
Proof.
  rewrite (collect_keys_runs glib_ref None) by exact I. by vm_compute.
Defined.

(** A short key is expanded only when it is unambiguous: the search returns
    a key exactly when that key is among the keys of the reply, starts with the
    prefix, and no other key of the reply does. *)
Theorem find_key_unique (G : GLib) (GS : GLibSpec G) (rs : option (bytes -> option bytes))
    (data prefix key : bytes) :
  prefix <> [] ->
  ns_freenet_find_key_with_prefix rs data prefix = Some key <->
  (In key (ns_freenet_collect_keys rs data) /\ prefixb prefix key = true /\
   forall other, In other (ns_freenet_collect_keys rs data) ->
     prefixb prefix other = true -> other = key).
Proof.
  glib. intros Hp. unfold ns_freenet_find_key_with_prefix, ns_freenet_match_prefix.
  destruct prefix as [|p prefix]; [done|]. set (pre := p :: prefix) in *.
  assert (M : forall id, In id (ns_freenet_collect_keys rs data) ->
            prefix_matches pre id = prefixb pre id).
  { intros id Hid. unfold prefix_matches. rewrite strncmp0_prefix.
    pose proof (collect_keys_full rs data) as F. rewrite List.Forall_forall in F.
    by rewrite (F id Hid), andb_true_r. }
  destruct data as [|c data].
  - split; [done|]. cbn. by intros [[] _].
  - rewrite match_prefix_go_spec. split.
    + intros (Hi & Hk & Hu). rewrite M in Hk by done. split; [done|]. split; [done|].
      intros o Ho Hpo. apply Hu; [done|]. by rewrite M.
    + intros (Hi & Hk & Hu). split; [done|]. split; [by rewrite M|].
      intros o Ho Hpo. rewrite M in Hpo by done. auto.
Qed.

Lemma find_key_unique_witness :
  ns_freenet_find_key_with_prefix (G := glib_ref) None
    ($"3VgtmdXDHDEW3atupXiEThTneSheFtNfV2UiZxSJr7dh") ($"3Vg")
  = Some ($"3VgtmdXDHDEW3atupXiEThTneSheFtNfV2UiZxSJr7dh").
Proof.
  apply (find_key_unique glib_ref glib_ref_spec None); [done|].
  split; [by left|]. split; [by vm_compute|].
  intros other H _. revert H. vm_compute. intros [H|[]]. by rewrite <- H.
Defined.

(** The contract cache: a lookup returns only full keys equal to the host
    without case; it keeps every cached key full; and within thirty seconds of
    the last query the node is not asked again, the state and the answer being
    those of the cached list whatever the node would reply. *)
Theorem known_contract_cache (G : GLib) (GS : GLibSpec G) (rs : option (bytes -> option bytes))
    (env : lookup_env) (host : bytes) (st st' : known_contracts) (r : option bytes) :
  Forall (fun k => ns_freenet_key_is_full (Some k) = true) (default [] (g_known_contracts st)) ->
  ns_freenet_known_contract_for_host rs env (Some host) st = (r, st') ->
  Forall (fun k => ns_freenet_key_is_full (Some k) = true) (default [] (g_known_contracts st')) /\
  (forall key, r = Some key ->
     ns_freenet_key_is_full (Some key) = true /\ map lower key = map lower host) /\
  (known_is_stale (env_now env) st = false -> st' = st /\
     forall env', env_now env' = env_now env ->
       ns_freenet_known_contract_for_host rs env' (Some host) st = (r, st)).
Proof.
  glib. intros F. unfold ns_freenet_known_contract_for_host.
  destruct ((length host <? 32) || (64 <? length host)).
  { intros [= <- <-]. split; [done|]. split; [done|]. intros S. split; [done|].
    by intros env' _. }
  set (st1 := if known_is_stale (env_now env) st then known_refresh rs env else st).
  assert (F1 : Forall (fun k => ns_freenet_key_is_full (Some k) = true)
                 (default [] (g_known_contracts st1))).
  { unfold st1. destruct (known_is_stale _ _); [|done]. cbn.
    destruct (env_diagnostics env); [apply collect_keys_full|constructor]. }
  intros H. apply pair_equal_spec in H as [<- <-]. split; [done|]. split.
  - unfold known_find. intros key. destruct (g_known_contracts st1) as [keys|]; [|done].
    intros [Hin Hc]%List.find_some. cbn in Hc. apply bool_decide_eq_true in Hc.
    rewrite List.Forall_forall in F1. cbn in F1. auto.
  - intros S. unfold st1. rewrite S. split; [done|]. intros env' ->. by rewrite S.
Qed.

Lemma known_contract_cache_witness :
  let k := $"3VgtmdXDHDEW3atupXiEThTneSheFtNfV2UiZxSJr7dh" in
  let st := {| g_known_contracts := Some [k]; g_known_contracts_at := 100 |} in
  let env := {| env_now := 29000000; env_diagnostics := None; env_now_after := 0 |} in
  ns_freenet_key_is_full (Some k) = true /\ map lower k = map lower (map lower k).
Proof.
  intros k st env.
  assert (H : ns_freenet_known_contract_for_host (G := glib_ref) None env (Some (map lower k)) st
              = (Some k, st)) by by vm_compute.
  apply (known_contract_cache glib_ref glib_ref_spec None env (map lower k) st st (Some k)) in H
    as (_ & H & _); [by apply H|].
  repeat constructor.
Defined.

(** Localising a policy changes nothing but the gateway's own occurrences:
    the result is the header with each of them, and only them, followed by the
    contract's [freenet:] origin. *)
Theorem localize_csp_widens (G : GLib) (GS : GLibSpec G) (cfg : option ns_config)
    (csp url : option bytes) (out : bytes) :
  ns_freenet_localize_csp cfg csp url = Some out ->
  exists header base key parts,
    csp = Some header /\ ns_freenet_gateway_base cfg false = Some base /\
    ns_freenet_key_of url = Some key /\
    header = Ref.join base parts /\
    Forall (fun p => contains p base = false) parts /\
    out = Ref.join (base ++ $" freenet://" ++ key) parts.
Proof.
  glib. unfold ns_freenet_localize_csp. destruct csp as [[|c h]|]; [done| |done].
  set (header := c :: h). destruct (ns_freenet_gateway_base cfg false) as [base|] eqn:B; [|done].
  destruct (contains header base); [|done]. cbn [negb].
  destruct (ns_freenet_key_of url) as [key|] eqn:K; [|done]. intros <-%(inj Some).
  assert (Hb : base <> []).
  { rewrite gateway_base_eq in B. destruct (gateway_authority cfg) as [tls a]; cbn in B.
    destruct a; [done|]. apply (inj Some) in B. rewrite <- B. by destruct tls. }
  exists header, base, key, (Ref.split header base).
  assert (L : length header < S (length header)) by lia.
  do 3 (split; [done|]). split.
  - symmetry. apply split_join_go; [done|]. destruct base; [done|cbn; lia].
  - split; [|done]. eapply List.Forall_impl; [|apply (split_go_pieces _ _ _ L Hb)].
    intros p Hp. unfold contains. by rewrite Hp.
Qed.

Lemma localize_csp_widens_witness :
  exists header base key parts,
    Some ($"connect-src http://127.0.0.1:7509 'self'") = Some header /\
    ns_freenet_gateway_base (G := glib_ref) None false = Some base /\
    ns_freenet_key_of (Some ($"freenet:abc/")) = Some key /\
    header = Ref.join base parts /\
    Forall (fun p => contains p base = false) parts /\
    $"connect-src http://127.0.0.1:7509 freenet://abc 'self'"
    = Ref.join (base ++ $" freenet://" ++ key) parts.
Proof. apply (localize_csp_widens glib_ref glib_ref_spec). by vm_compute. Defined.
