(* ===== verification/FreenetNode.v ===== *)
(** * Talking to the Freenet node ([src/freenet.c])

    The diagnostics query over the node's WebSocket, the loop that reads its
    reply, and the status record the toolbar shows. libcurl and the Rust codec
    are parameters: a query sees the outcomes of their calls. *)

From S2P Require Import Prelude CStr GLib Config Freenet.

Section FreenetNode.
Context {G : GLib}.
Variable cfg : option ns_config.

Inductive ns_freenet_query := NS_FREENET_QUERY_CONTRACTS | NS_FREENET_QUERY_STATUS.

Definition ns_freenet_put_u32 (out : bytes) (v : Z) : bytes :=
  out ++ [byte_of (Z.land v 255); byte_of (Z.land (Z.shiftr v 8) 255);
          byte_of (Z.land (Z.shiftr v 16) 255); byte_of (Z.land (Z.shiftr v 24) 255)].

(** [rs]: what the Rust encoder returns, when the build has it. *)
Definition ns_freenet_diagnostics_request (rs : ns_freenet_query -> option bytes)
    (which : ns_freenet_query) : bytes :=
  match rs which with
  | Some encoded => encoded
  | None =>
      let no := byte_of 0 in
      let yes := byte_of 1 in
      let want_node := match which with
                       | NS_FREENET_QUERY_STATUS => yes
                       | NS_FREENET_QUERY_CONTRACTS => no
                       end in
      let req := ns_freenet_put_u32 [] 4 in
      let req := ns_freenet_put_u32 req 2 in
      req ++ [want_node; want_node; yes] ++ repeat no 8 ++ [no; no; no]
  end.

(** One call of [curl_ws_recv]. *)
Inductive recv_result :=
| RECV_AGAIN
| RECV_ERROR
| RECV_OK (got : bytes).

(** The reading loop; [recv spins] is the call made on that turn. The fuel is
    the loop's own bound on [spins]. *)
Fixpoint read_reply (fuel : nat) (recv : nat -> recv_result) (spins : nat)
    (reply : bytes) (idle : nat) : bytes :=
  match fuel with
  | O => reply
  | S fuel' =>
      if negb (Z.of_nat (length reply) <? 2 ^ 20)%Z then reply
      else
        match recv spins with
        | RECV_AGAIN =>
            if negb (length reply =? 0)
            then if 40 <? S idle then reply
                 else read_reply fuel' recv (S spins) reply (S idle)
            else read_reply fuel' recv (S spins) reply idle
        | RECV_ERROR => reply
        | RECV_OK got => read_reply fuel' recv (S spins) (reply ++ got) 0
        end
  end.

(** The outcomes of the calls of one query. *)
Record query_env := {
  q_ws_available : bool;
  q_curl_init : bool;
  q_connect : bytes -> bool;
  q_send : bytes -> bool;
  q_recv : nat -> recv_result;
  q_rs_request : ns_freenet_query -> option bytes;
}.

Definition NS_FREENET_MAX_SPINS : nat := 2000.

Definition ns_freenet_node_query (env : query_env) (which : ns_freenet_query) : option bytes :=
  if negb (q_ws_available env) then None
  else
    match ns_freenet_gateway_base cfg true with
    | None => None
    | Some base =>
        let url := base ++ $"/v1/contract/command?encodingProtocol=native" in
        if negb (q_curl_init env) then None
        else if negb (q_connect env url) then None
        else if negb (q_send env (ns_freenet_diagnostics_request (q_rs_request env) which)) then None
        else
          match read_reply NS_FREENET_MAX_SPINS (q_recv env) 0 [] 0 with
          | [] => None
          | reply => Some reply
          end
    end.

Definition ns_freenet_node_diagnostics (env : query_env) : option bytes :=
  ns_freenet_node_query env NS_FREENET_QUERY_CONTRACTS.

(** ** Status *)

Record ns_freenet_status := {
  reachable : bool;
  http_status : Z;
  detailed : bool;
  peers : Z;
  connections : Z;
  contracts : Z;
  uptime_seconds : Z;
  is_gateway : bool;
  peer_id : option bytes;
  error : option bytes;
}.

Definition status0 : ns_freenet_status :=
  {| reachable := false; http_status := 0; detailed := false; peers := 0;
     connections := 0; contracts := 0; uptime_seconds := 0; is_gateway := false;
     peer_id := None; error := None |}.

(** The outcome of the probing request: no handle, an HTTP status, or curl's
    error text. *)
Inductive probe_result := PROBE_NO_CURL | PROBE_OK (code : Z) | PROBE_FAILED (msg : bytes).

Definition ns_freenet_status_probe_gateway (probe : bytes -> probe_result) (st : ns_freenet_status)
    : ns_freenet_status :=
  let '(Build_ns_freenet_status r h d p c k u g i e) := st in
  match ns_freenet_gateway_base cfg false with
  | None => Build_ns_freenet_status r h d p c k u g i
              (Some ($"The configured gateway is not a host and port."))
  | Some base =>
      match probe (base ++ $"/") with
      | PROBE_NO_CURL => st
      | PROBE_OK code => Build_ns_freenet_status (0 <? code)%Z code d p c k u g i e
      | PROBE_FAILED msg => Build_ns_freenet_status r h d p c k u g i (Some msg)
      end
  end.

(** One line [key=value] of the decoded reply. *)
Definition status_line (st : ns_freenet_status) (line : bytes) : ns_freenet_status :=
  match strchr line "=" with
  | None => st
  | Some eq =>
      let key := before line "=" in
      let value := drop 1 eq in
      let '(Build_ns_freenet_status r h d p c k u g i e) := st in
      if strcmp0 key ($"peers") then Build_ns_freenet_status r h d (atoi value) c k u g i e
      else if strcmp0 key ($"connections") then Build_ns_freenet_status r h d p (atoi value) k u g i e
      else if strcmp0 key ($"contracts") then Build_ns_freenet_status r h d p c (atoi value) u g i e
      else if strcmp0 key ($"uptime") then
        Build_ns_freenet_status r h d p c k (g_ascii_strtoll10 value) g i e
      else if strcmp0 key ($"gateway") then
        Build_ns_freenet_status r h d p c k u (head_is (fun c => c =c "1") value) i e
      else if strcmp0 key ($"peer_id") then Build_ns_freenet_status r h d p c k u g (Some value) e
      else st
  end.

(** [rs_status_text]: the Rust decoder of a status reply; [None] in a build
    without it. *)
Definition ns_freenet_status_read_details (rs_status_text : option (bytes -> option bytes))
    (env : query_env) (st : ns_freenet_status) : ns_freenet_status :=
  match rs_status_text with
  | None => st
  | Some status_text =>
      match ns_freenet_node_query env NS_FREENET_QUERY_STATUS with
      | None => st
      | Some reply =>
          match status_text reply with
          | None => st
          | Some text =>
              let '(Build_ns_freenet_status r h _ p c k u g i e) :=
                fold_left status_line (g_strsplit text [nl]) st in
              Build_ns_freenet_status r h true p c k u g i e
          end
      end
  end.

Definition ns_freenet_status_query (probe : bytes -> probe_result)
    (rs_status_text : option (bytes -> option bytes)) (env : query_env) : ns_freenet_status :=
  let st := ns_freenet_status_probe_gateway probe status0 in
  if reachable st then ns_freenet_status_read_details rs_status_text env st else st.

(** ** The text the Rust side writes ([rust/ns-freenet/src/lib.rs]) *)

Record diagnostics := {
  d_network : option (Z * Z);      (* connected peers, active connections *)
  d_contracts : Z;
  d_node : option (Z * bool * bytes);  (* uptime, is_gateway, peer id *)
}.

Definition space_newlines (s : bytes) : bytes :=
  map (fun c => if c =c nl then " "%char else c) s.

Definition rs_status_lines (d : diagnostics) : list bytes :=
  match d_network d with
  | Some (ps, conns) => [$"peers=" ++ print_u ps; $"connections=" ++ print_u conns]
  | None => []
  end ++
  [$"contracts=" ++ print_u (d_contracts d)] ++
  match d_node d with
  | Some (up, gw, id) =>
      [$"uptime=" ++ print_u up; $"gateway=" ++ print_u (if gw then 1 else 0)] ++
      match id with [] => [] | _ => [$"peer_id=" ++ space_newlines id] end
  | None => []
  end.

End FreenetNode.

(** ** Lemmas *)

(** What the loop has read: the chunks of a run of successful calls, in order. *)
Fixpoint chunks (recv : nat -> recv_result) (from n : nat) : bytes :=
  match n with
  | O => []
  | S n' =>
      match recv from with
      | RECV_OK got => got ++ chunks recv (S from) n'
      | _ => chunks recv (S from) n'
      end
  end.

Lemma read_reply_chunks fuel recv spins reply idle :
  exists n, (n <= fuel)%nat /\
    read_reply fuel recv spins reply idle = reply ++ chunks recv spins n.
Proof.
  revert spins reply idle. induction fuel as [|fuel IH]; intros spins reply idle; cbn [read_reply].
  - exists 0. by rewrite app_nil_r.
  - assert (stop : exists n, (n <= S fuel)%nat /\ reply = reply ++ chunks recv spins n)
      by (exists 0; split; [lia|by rewrite app_nil_r]).
    destruct (negb _); [done|]. destruct (recv spins) as [| |got] eqn:E; [|done|].
    + destruct (negb _); [destruct (40 <? S idle); [done|]|];
        [destruct (IH (S spins) reply (S idle)) as (n & L & ->)
        |destruct (IH (S spins) reply idle) as (n & L & ->)];
        exists (S n); (split; [lia|cbn; by rewrite E]).
    + destruct (IH (S spins) (reply ++ got) 0) as (n & L & ->).
      exists (S n). split; [lia|]. cbn. by rewrite E, app_assoc.
Qed.

Lemma read_reply_bound fuel recv spins reply idle M :
  (forall i got, recv i = RECV_OK got -> (Z.of_nat (length got) <= M)%Z) -> (0 <= M)%Z ->
  (Z.of_nat (length reply) < 2 ^ 20 + M)%Z ->
  (Z.of_nat (length (read_reply fuel recv spins reply idle)) < 2 ^ 20 + M)%Z.
Proof.
  intros HM HM0. revert spins reply idle.
  induction fuel as [|fuel IH]; intros spins reply idle Hr; cbn [read_reply]; [done|].
  destruct (Z.ltb_spec (Z.of_nat (length reply)) (2 ^ 20)); cbn [negb]; [|done].
  destruct (recv spins) as [| |got] eqn:E; [|done|].
  - destruct (negb _); [destruct (40 <? S idle); [done|]|]; by apply IH.
  - apply IH. rewrite length_app. apply HM in E. lia.
Qed.

(** The reply of a node query is bounded and whole: it is the concatenation,
    in order, of the chunks of the first calls of the socket, at most 2000 of
    them; with a read buffer of 8192 bytes it is shorter than 2^20 + 8192. *)
Theorem node_query_bounded (G : GLib) (cfg : option ns_config) (env : query_env)
    (which : ns_freenet_query) (reply : bytes) :
  (forall i got, q_recv env i = RECV_OK got -> (Z.of_nat (length got) <= 8192)%Z) ->
  ns_freenet_node_query cfg env which = Some reply ->
  (Z.of_nat (length reply) < 2 ^ 20 + 8192)%Z /\
  exists n, (n <= NS_FREENET_MAX_SPINS)%nat /\ reply = chunks (q_recv env) 0 n.
Proof.
  intros Hb. unfold ns_freenet_node_query.
  destruct (negb (q_ws_available env)); [done|].
  destruct (ns_freenet_gateway_base cfg true) as [base|]; [|done].
  destruct (negb (q_curl_init env)); [done|]. destruct (negb (q_connect env _)); [done|].
  destruct (negb (q_send env _)); [done|]. intros H.
  assert (E : reply = read_reply NS_FREENET_MAX_SPINS (q_recv env) 0 [] 0).
  { destruct (read_reply _ _ _ _ _); [done|]. congruence. }
  subst reply. split.
  - apply read_reply_bound; [done|lia|cbn; lia].
  - destruct (read_reply_chunks NS_FREENET_MAX_SPINS (q_recv env) 0 [] 0) as (n & L & E).
    eauto.
Qed.

Lemma node_query_bounded_witness :
  exists n, (n <= NS_FREENET_MAX_SPINS)%nat /\
    $"reply!" = chunks (fun i => match i with 0 => RECV_OK ($"reply") | 1 => RECV_AGAIN
                                         | 2 => RECV_OK ($"!") | _ => RECV_ERROR end) 0 n.
Proof.
  apply (node_query_bounded glib_ref None
    {| q_ws_available := true; q_curl_init := true; q_connect := fun _ => true;
       q_send := fun _ => true;
       q_recv := fun i => match i with 0 => RECV_OK ($"reply") | 1 => RECV_AGAIN
                                       | 2 => RECV_OK ($"!") | _ => RECV_ERROR end;
       q_rs_request := fun _ => None |} NS_FREENET_QUERY_STATUS ($"reply!")).
  - intros [|[|[|i]]] got [= <-]; vm_compute; done.
  - by vm_compute.
Defined.

(** *** The status text, written and read *)

Definition status_of (d : diagnostics) (st : ns_freenet_status) : ns_freenet_status :=
  {| reachable := reachable st; http_status := http_status st; detailed := detailed st;
     peers := match d_network d with Some (p, _) => p | None => peers st end;
     connections := match d_network d with Some (_, c) => c | None => connections st end;
     contracts := d_contracts d;
     uptime_seconds := match d_node d with Some (u, _, _) => u | None => uptime_seconds st end;
     is_gateway := match d_node d with Some (_, g, _) => g | None => is_gateway st end;
     peer_id := match d_node d with
                | Some (_, _, ((_ :: _) as id)) => Some (space_newlines id)
                | _ => peer_id st
                end;
     error := error st |}.

Definition int_range (z : Z) : Prop := (0 <= z < 2 ^ 31)%Z.
Definition diagnostics_ok (d : diagnostics) : Prop :=
  int_range (d_contracts d) /\
  match d_network d with Some (p, c) => int_range p /\ int_range c | None => True end /\
  match d_node d with Some (u, _, _) => (0 <= u < 2 ^ 63)%Z | None => True end.

Lemma atoi_print_all z : int_range z -> atoi (print_u z) = z.
Proof. intros H. rewrite <- (app_nil_r (print_u z)). by apply atoi_print. Qed.

Lemma strtoll_print_all z : (0 <= z < 2 ^ 63)%Z -> Ref.strtoll10 (print_u z) = z.
Proof. intros H. rewrite <- (app_nil_r (print_u z)). by apply strtoll10_print. Qed.

Lemma digits_no_newline z : (0 <= z)%Z -> free_of nl (print_u z) = true.
Proof.
  intros Hz. destruct (digits_spec z Hz) as [H _]. revert H. apply allb_impl.
  intros c Hc. assert (X : negb (is_digit c) || negb (c =c nl) = true).
  { clear. by_bytes c. }
  by rewrite Hc in X.
Qed.

Lemma space_newlines_free id : free_of nl (space_newlines id) = true.
Proof.
  unfold free_of, space_newlines. induction id as [|c id IH]; [done|].
  cbn [map forallb]. rewrite IH, andb_true_r. by_bytes c.
Qed.

Lemma rs_status_lines_free d :
  diagnostics_ok d -> Forall (fun s => free_of nl s = true) (rs_status_lines d).
Proof.
  intros (Hk & Hn & Hd).
  assert (P : forall p z, free_of nl p = true -> (0 <= z)%Z -> free_of nl (p ++ print_u z) = true).
  { intros p z Hp Hz. unfold free_of. rewrite forallb_app. fold (free_of nl p).
    rewrite Hp. by apply digits_no_newline. }
  unfold rs_status_lines, int_range in *.
  rewrite !Forall_app. split; [|split].
  - destruct (d_network d) as [[p c]|]; [|done].
    repeat constructor; apply P; try done; lia.
  - repeat constructor. apply P; [done|lia].
  - destruct (d_node d) as [[[u g] id]|]; [|done]. rewrite Forall_app. split.
    + repeat constructor; apply P; try done; try lia. by destruct g.
    + destruct id as [|c id]; [done|]. repeat constructor. unfold free_of.
      rewrite forallb_app. apply space_newlines_free.
Qed.

(** What each line of the text does to a status. *)
Section Lines.
Context (r d g : bool) (h p c k u : Z) (i e : option bytes) (v : bytes).
Let st := Build_ns_freenet_status r h d p c k u g i e.

Lemma line_peers :
  status_line st ($"peers=" ++ v) = Build_ns_freenet_status r h d (atoi v) c k u g i e.
Proof. reflexivity. Qed.
Lemma line_connections :
  status_line st ($"connections=" ++ v) = Build_ns_freenet_status r h d p (atoi v) k u g i e.
Proof. reflexivity. Qed.
Lemma line_contracts :
  status_line st ($"contracts=" ++ v) = Build_ns_freenet_status r h d p c (atoi v) u g i e.
Proof. reflexivity. Qed.
Lemma line_uptime :
  status_line st ($"uptime=" ++ v) = Build_ns_freenet_status r h d p c k (Ref.strtoll10 v) g i e.
Proof. reflexivity. Qed.
Lemma line_gateway :
  status_line st ($"gateway=" ++ v)
  = Build_ns_freenet_status r h d p c k u (head_is (fun c => c =c "1") v) i e.
Proof. reflexivity. Qed.
Lemma line_peer_id :
  status_line st ($"peer_id=" ++ v) = Build_ns_freenet_status r h d p c k u g (Some v) e.
Proof. reflexivity. Qed.
End Lines.

(** The two sides of the status text agree: reading the lines the Rust side
    writes for a diagnostics reply sets exactly the fields it reports, to the
    values it reports, and leaves the others alone. *)
Theorem status_text_round_trip (G : GLib) (GS : GLibSpec G) (d : diagnostics) (st : ns_freenet_status) :
  diagnostics_ok d ->
  fold_left status_line (g_strsplit (Ref.join [nl] (rs_status_lines d)) [nl]) st = status_of d st.
Proof.
  glib. intros Hok. cbn [g_strsplit glib_ref].
  rewrite split_join; [|by apply rs_status_lines_free|].
  2:{ unfold rs_status_lines. destruct (d_network d) as [[p c]|]; [done|].
      by destruct (d_node d) as [[[u g] id]|]. }
  destruct Hok as (Hk & Hn & Hd). destruct d as [net k node], st. unfold status_of, rs_status_lines.
  cbn [d_network d_contracts d_node] in *.
  destruct net as [[p c]|]; [destruct Hn as [Hp Hc]|];
    (destruct node as [[[u g] [|x id]]|]; [destruct g|destruct g|]);
    cbn [app fold_left];
    rewrite ?line_peers, ?line_connections, line_contracts, ?line_uptime, ?line_gateway,
      ?line_peer_id, ?atoi_print_all, ?strtoll_print_all by done; reflexivity.
Qed.

Lemma status_text_round_trip_witness :
  let d := {| d_network := Some (3, 7)%Z; d_contracts := 12%Z;
              d_node := Some (86400%Z, true, $"9XfG") |} in
  let st := Build_ns_freenet_status true 200 true 0 0 0 0 false None None in
  fold_left status_line (g_strsplit (GLib := glib_ref) (Ref.join [nl] (rs_status_lines d)) [nl]) st
  = Build_ns_freenet_status true 200 true 3 7 12 86400 true (Some ($"9XfG")) None.
Proof.
  intros d st. apply (status_text_round_trip glib_ref glib_ref_spec d st).
  by vm_compute.
Defined.
