(* ===== verification/Url.v ===== *)
(** * URL helpers of the network layer ([src/net.c])

    Resolution, components, origins and sites of URLs, the [Referer] header, the
    removal of tracking parameters, the [Refresh] header, the HSTS cache and the
    upgrades to HTTPS. The URL parser itself is lexbor's and the public suffix
    list is libpsl's: parameters of the model. *)

From S2P Require Import Prelude CStr GLib Config Freenet.

(** ** lexbor and libpsl *)

(** The host of a parsed URL with its serialisation ([None]: it fails). *)
Inductive lxb_host :=
| LXB_URL_HOST_TYPE__UNDEF
| LXB_URL_HOST_TYPE_EMPTY
| LXB_URL_HOST (text : option bytes).

(** What the program reads of an [lxb_url_t]: its fields and what the
    serialisers make of them ([None]: they fail). *)
Record lxb_url := {
  u_href : option bytes;
  u_scheme : bytes;
  u_host : lxb_host;
  u_port : option Z;
  u_path : option bytes;
  u_query : bytes;
  u_fragment : bytes;
  u_username : bytes;
  u_password : bytes;
}.

Class Lexbor := {
  lxb_url_parser_open : bool;
  lxb_url_parse : option lxb_url -> bytes -> option lxb_url;
  lxb_url_api_set : bytes -> lxb_url -> bytes -> lxb_url;
}.

Class Psl := {
  psl_builtin : bool;
  psl_registrable_domain : bytes -> option bytes;
  psl_is_public_suffix : bytes -> bool;
}.

Section Url.
Context {G : GLib} {L : Lexbor} {P : Psl}.
Variable cfg : option ns_config.

Definition ns_url_is_http_or_https (url : option bytes) : bool :=
  match url with
  | None => false
  | Some u => g_str_has_prefix u ($"http://") || g_str_has_prefix u ($"https://")
  end.

(** ** Tracking parameters *)

Definition tracking_exact : list bytes := [
  $"gclid"; $"dclid"; $"gbraid"; $"wbraid";
  $"fbclid"; $"msclkid"; $"yclid"; $"twclid"; $"igshid";
  $"mc_cid"; $"mc_eid";
  $"_hsenc"; $"_hsmi"; $"__hssc"; $"__hstc"; $"__hsfp"; $"hsctatracking";
  $"vero_id"; $"vero_conv";
  $"oly_anon_id"; $"oly_enc_id";
  $"_openstat"; $"wickedid"; $"rb_clickid"; $"s_cid";
  $"ml_subscriber"; $"ml_subscriber_hash";
  $"mtm_source"; $"mtm_medium"; $"mtm_campaign"; $"mtm_keyword";
  $"mtm_cid"; $"mtm_content"; $"mtm_group"; $"mtm_placement";
  $"pk_source"; $"pk_medium"; $"pk_campaign"; $"pk_keyword";
  $"pk_cid"; $"pk_content"].

Definition ns_query_param_is_tracking (key : bytes) : bool :=
  if length key =? 0 then false
  else if (4 <=? length key) && g_ascii_strncasecmp0 key ($"utm_") 4 then true
  else existsb (fun e => (length e =? length key) &&
                         g_ascii_strncasecmp0 key e (length key)) tracking_exact.

(** The loop over the parameters of the query [p]; each pass passes one [&]. *)
Fixpoint strip_loop (fuel : nat) (p kept : bytes) (removed : bool) : bytes * bool :=
  match fuel with
  | O => (kept, removed)
  | S fuel' =>
      let tok := before p "&" in
      let '(kept, removed) :=
        if ns_query_param_is_tracking (before tok "=") then (kept, true)
        else (kept ++ (if length kept =? 0 then [] else $"&") ++ tok, removed) in
      match strchr p "&" with
      | None => (kept, removed)
      | Some amp => strip_loop fuel' (drop 1 amp) kept removed
      end
  end.

Definition ns_url_strip_tracking_params (url : option bytes) : option bytes :=
  match url with
  | None => None
  | Some u =>
      if negb (ns_url_is_http_or_https url) then None
      else
        match cfg with
        | None => None
        | Some c =>
            if negb (cfg_bool c strip_tracking_params) then None
            else
              let frag := strchr u "#" in
              let query_end := length (before u "#") in
              let query_at := length (before u "?") in
              if negb (query_at <? query_end) then None
              else
                let query := drop (query_at + 1) (take query_end u) in
                let '(kept, removed) := strip_loop (S (length query)) query [] false in
                if negb removed then None
                else
                  Some (take query_at u ++
                        (if length kept =? 0 then [] else $"?" ++ kept) ++
                        match frag with Some f => f | None => [] end)
        end
  end.

Definition ns_url_is_ftp (url : option bytes) : bool :=
  match url with None => false | Some u => g_str_has_prefix u ($"ftp://") end.

(** ** The Refresh header *)

Definition refresh_is_space (c : ascii) : bool :=
  (c =c " ") || (c =c "009") || (c =c "010") || (c =c "012") || (c =c "013").

(** The value of the digits as the loop on doubles computes it: every value it
    holds is an integer below 2^53, where doubles are exact. *)
Fixpoint refresh_seconds (digits : bytes) (seconds : Z) : Z :=
  match digits with
  | [] => seconds
  | d :: ds =>
      let seconds := (seconds * 10 + (code d - 48))%Z in
      if (2147483647 <? seconds)%Z then 2147483647 else refresh_seconds ds seconds
  end.

Definition is_quote (c : ascii) : bool := (c =c "'") || (c =c dquote).

(** Passes ["url" space* "=" space*] at [p], whatever the case, if it is there. *)
Definition refresh_skip_url (p : bytes) : bytes :=
  match p with
  | u :: r :: l :: q =>
      if ((u =c "u") || (u =c "U")) && ((r =c "r") || (r =c "R")) &&
         ((l =c "l") || (l =c "L")) then
        match drop_while refresh_is_space q with
        | e :: q' => if e =c "=" then drop_while refresh_is_space q' else p
        | [] => p
        end
      else p
  | _ => p
  end.

(** The result: the delay and the URL. *)
Definition ns_net_parse_refresh (input : option bytes) : option (Z * option bytes) :=
  match input with
  | None => None
  | Some s =>
      let p := drop_while refresh_is_space s in
      let digits := take_while g_ascii_isdigit p in
      let p := drop_while g_ascii_isdigit p in
      if (length digits =? 0) && negb (head_is (fun c => c =c ".") p) then None
      else
        let seconds := refresh_seconds digits 0 in
        let p := drop_while (fun c => (c =c ".") || g_ascii_isdigit c) p in
        let sep := fun c => (c =c ";") || (c =c ",") in
        if negb (length p =? 0) && negb (head_is (fun c => sep c || refresh_is_space c) p) then None
        else
          let p := if length p =? 0 then p
                   else let p := drop_while refresh_is_space p in
                        let p := if head_is sep p then drop 1 p else p in
                        drop_while refresh_is_space p in
          let p := refresh_skip_url p in
          let url :=
            match p with
            | [] => None
            | c :: r => if is_quote c then Some (before r c) else Some (g_strchomp p)
            end in
          Some (seconds, match url with Some [] => None | _ => url end)
  end.

(** ** Resolution *)

Definition ns_url_resolve_len (base : option bytes) (href : option bytes) : option bytes :=
  match href with
  | None => None
  | Some h =>
      let have_base := match base with Some (_ :: _) => true | _ => false end in
      if (length h =? 0) && negb have_base then None
      else if negb lxb_url_parser_open then None
      else
        let parsed :=
          match base with
          | Some ((_ :: _) as b) =>
              match lxb_url_parse None b with
              | None => None
              | Some bu => Some (Some bu)
              end
          | _ => Some None
          end in
        match parsed with
        | None => None
        | Some base_url =>
            let out :=
              match lxb_url_parse base_url h with
              | None => None
              | Some r => match u_href r with Some ((_ :: _) as s) => Some s | _ => None end
              end in
            if ns_freenet_is_url out then
              match ns_freenet_canonical_url out with Some c => Some c | None => out end
            else out
        end
  end.

Definition ns_url_resolve (base href : option bytes) : option bytes := ns_url_resolve_len base href.

Definition url_components : list bytes :=
  [$"protocol"; $"username"; $"password"; $"host"; $"hostname"; $"port"; $"pathname";
   $"search"; $"hash"].

Definition ns_url_set_component_len (href component value : option bytes) : option bytes :=
  match href, component, value with
  | Some h, Some c, Some v =>
      if negb lxb_url_parser_open then None
      else
        match lxb_url_parse None h with
        | None => None
        | Some u =>
            let u := if existsb (fun n => strcmp0 c n) url_components
                     then lxb_url_api_set c u v else u in
            match u_href u with Some ((_ :: _) as s) => Some s | _ => None end
        end
  | _, _, _ => None
  end.

Definition ns_url_to_ascii (url : option bytes) : option bytes :=
  match url with
  | None | Some [] => None
  | Some u =>
      if g_str_has_prefix u ($"data:") || g_str_has_prefix u ($"about:") ||
         g_str_has_prefix u ($"file:") || ns_freenet_is_url url
      then Some u
      else ns_url_resolve None url
  end.

(** ** Origins *)

Definition ns_url_parse_with_host (url : bytes) : option lxb_url :=
  match lxb_url_parse None url with
  | None => None
  | Some u =>
      match u_host u with
      | LXB_URL_HOST_TYPE__UNDEF | LXB_URL_HOST_TYPE_EMPTY => None
      | LXB_URL_HOST _ => Some u
      end
  end.

Definition host_text (u : lxb_url) : option bytes :=
  match u_host u with LXB_URL_HOST t => t | _ => None end.

Definition ns_url_origin_from (url : option bytes) : option bytes :=
  match url with
  | None | Some [] => None
  | Some s =>
      if negb (ns_url_is_http_or_https url) && negb (ns_freenet_is_url url) then None
      else if negb lxb_url_parser_open then None
      else
        match ns_url_parse_with_host s with
        | None => None
        | Some u =>
            match host_text u with
            | None => None
            | Some h =>
                Some (u_scheme u ++ $"://" ++ h ++
                      match u_port u with Some p => $":" ++ print_u p | None => [] end)
            end
        end
  end.

Definition ns_url_same_origin (a b : option bytes) : bool :=
  match ns_url_origin_from a, ns_url_origin_from b with
  | Some ((_ :: _) as oa), Some ((_ :: _) as ob) => g_ascii_strcasecmp0 oa ob
  | _, _ => false
  end.

Definition ns_url_host_from (url : option bytes) : option bytes :=
  match url with
  | None => None
  | Some s =>
      if negb lxb_url_parser_open then None
      else
        match ns_url_parse_with_host s with
        | None => None
        | Some u => match host_text u with Some ((_ :: _) as h) => Some h | _ => None end
        end
  end.

(** Every field is set, to the empty string when the URL lacks it. *)
Record ns_url_parts := {
  href : bytes;
  protocol : bytes;
  origin : bytes;
  host : bytes;
  hostname : bytes;
  port : bytes;
  pathname : bytes;
  search : bytes;
  hash : bytes;
  username : bytes;
  password : bytes;
}.

Definition ns_url_take_serialized (s : option bytes) : bytes :=
  match s with None => [] | Some t => t end.

Definition tuple_schemes : list bytes :=
  [$"http:"; $"https:"; $"ws:"; $"wss:"; $"ftp:"; $"freenet:"].

(** The record but for the origin a [blob:] URL takes from inside. *)
Definition url_parts_of (url : bytes) (u : lxb_url) : ns_url_parts :=
  let h := ns_url_take_serialized (u_href u) in
  let protocol := match u_scheme u with [] => [] | s => s ++ $":" end in
  let hostname := match u_host u with
                  | LXB_URL_HOST t => ns_url_take_serialized t
                  | _ => []
                  end in
  let port := match u_port u with Some p => print_u p | None => [] end in
  let host := if negb (length hostname =? 0) && negb (length port =? 0)
              then hostname ++ $":" ++ port else hostname in
  let tuple_origin := negb (length hostname =? 0) &&
                      existsb (fun s => strcmp0 protocol s) tuple_schemes in
  {| href := if length h =? 0 then url else h;
     protocol := protocol;
     origin := if tuple_origin then protocol ++ $"//" ++ host else $"null";
     host := host;
     hostname := hostname;
     port := port;
     pathname := ns_url_take_serialized (u_path u);
     search := match u_query u with [] => [] | q => $"?" ++ q end;
     hash := match u_fragment u with [] => [] | f => $"#" ++ f end;
     username := u_username u;
     password := u_password u |}.

Definition with_origin (o : bytes) (p : ns_url_parts) : ns_url_parts :=
  Build_ns_url_parts (href p) (protocol p) o (host p) (hostname p) (port p)
    (pathname p) (search p) (hash p) (username p) (password p).

(** [depth]: a [blob:] URL at depth 0 is looked into once. *)
Fixpoint ns_url_parts_new_depth (fuel : nat) (url : option bytes) : option ns_url_parts :=
  match url with
  | None => None
  | Some s =>
      if negb lxb_url_parser_open then None
      else
        match lxb_url_parse None s with
        | None => None
        | Some u =>
            let p := url_parts_of s u in
            match fuel with
            | O => Some p
            | S depth =>
                if strcmp0 (protocol p) ($"blob:") && negb (length (pathname p) =? 0) then
                  match ns_url_parts_new_depth depth (Some (pathname p)) with
                  | None => Some p
                  | Some inner =>
                      if strcmp0 (protocol inner) ($"http:") || strcmp0 (protocol inner) ($"https:")
                      then Some (with_origin (origin inner) p) else Some p
                  end
                else Some p
            end
        end
  end.

(** Recursion level 0 of the code is fuel 1, level 1 is fuel 0. *)
Definition ns_url_parts_new (url : option bytes) : option ns_url_parts :=
  ns_url_parts_new_depth 1 url.

Definition ns_url_is_valid_absolute (url : option bytes) : bool :=
  match url with
  | None | Some [] => false
  | Some u =>
      if existsb (fun c => (c =c " ") || (c =c "009") || (c =c "010") || (c =c "013") || (c =c "012")) u
      then false
      else match ns_url_parts_new url with
           | None => false
           | Some p => negb (length (protocol p) =? 0)
           end
  end.

Definition ns_net_referer_for (url top_url : option bytes) (policy : ns_referer_policy)
    : option bytes :=
  match top_url with
  | None | Some [] => None
  | Some top =>
      if negb (ns_url_is_http_or_https url) || negb (ns_url_is_http_or_https top_url) ||
         bool_decide (policy = NS_REFERER_NO_REFERRER)
      then None
      else if g_str_has_prefix top ($"https://") &&
              match url with Some u => g_str_has_prefix u ($"http://") | None => false end
      then None
      else
        let same_origin := ns_url_same_origin top_url url in
        if bool_decide (policy = NS_REFERER_SAME_ORIGIN) && negb same_origin then None
        else if bool_decide (policy = NS_REFERER_UNSAFE_URL) || same_origin then
          match ns_url_parts_new top_url with
          | None => None
          | Some p => if length (origin p) =? 0 then None
                      else Some (origin p ++ pathname p ++ search p)
          end
        else
          match ns_url_origin_from top_url with
          | None => None
          | Some o => Some (o ++ $"/")
          end
  end.

Definition ns_url_site_from (url : option bytes) : option bytes :=
  match url with
  | None | Some [] => None
  | Some _ =>
      match ns_url_parts_new url with
      | None => None
      | Some p =>
          let lower := g_ascii_strdown (hostname p) in
          let reg := if psl_builtin then psl_registrable_domain lower else None in
          let site_host := match reg with Some ((_ :: _) as r) => r | _ => hostname p end in
          if negb (length (port p) =? 0)
          then Some (protocol p ++ $"://" ++ site_host ++ $":" ++ port p)
          else Some (protocol p ++ $"://" ++ site_host)
      end
  end.

(** [long] is [short] with a label or more in front. *)
Definition dotted_suffix (long short : bytes) : bool :=
  (length short + 1 <? length long) &&
  match nth_error long (length long - length short - 1) with
  | Some c => c =c "."
  | None => false
  end &&
  g_ascii_strncasecmp0 (drop (length long - length short) long) short (length short).

Definition ns_url_is_same_site (a b : option bytes) : bool :=
  match a, b with
  | Some _, Some _ =>
      match ns_url_site_from a, ns_url_site_from b with
      | Some sa, Some sb => g_ascii_strcasecmp0 sa sb
      | _, _ =>
          match ns_url_host_from a, ns_url_host_from b with
          | Some ha, Some hb =>
              if g_ascii_strcasecmp0 ha hb then true
              else if dotted_suffix ha hb then true
              else dotted_suffix hb ha
          | _, _ => false
          end
      end
  | _, _ => false
  end.

(** ** HSTS and HTTPS upgrades *)

(** The cache: [true] for an entry that covers subdomains (2 in the code). *)
Definition hsts_line (cache : gmap bytes bool) (raw : bytes) : gmap bytes bool :=
  let line := g_strstrip raw in
  match line with
  | [] => cache
  | c :: rest =>
      if c =c "#" then cache
      else
        match strchr line " " with
        | None => cache
        | Some _ =>
            let line := before line " " in
            let subs := head_is (fun c => c =c ".") line in
            let host := if subs then drop 1 line else line in
            match host with
            | [] => cache
            | _ => <[g_ascii_strdown host := subs]> cache
            end
        end
  end.

(** [content]: the file, when it can be read. *)
Definition ns_hsts_cache_reload_locked (content : option bytes) : gmap bytes bool :=
  match content with
  | None => ∅
  | Some c => fold_left hsts_line (g_strsplit (cstr_of c) [nl]) ∅
  end.

Fixpoint hsts_parents (fuel : nat) (cache : gmap bytes bool) (dot : bytes) : bool :=
  match fuel with
  | O => false
  | S fuel' =>
      match strchr dot "." with
      | None => false
      | Some d =>
          let parent := drop 1 d in
          if bool_decide (cache !! parent = Some true) then true
          else hsts_parents fuel' cache parent
      end
  end.

Definition ns_hsts_lookup_locked (cache : gmap bytes bool) (lower_host : bytes) : bool :=
  match cache !! lower_host with
  | Some _ => true
  | None => hsts_parents (S (length lower_host)) cache lower_host
  end.

(** The cache and the modification time it was read at. *)
Record hsts_state := { g_hsts_cache : option (gmap bytes bool); g_hsts_cache_mtime_us : Z }.

Definition trim_dots (s : bytes) : bytes := rev (drop_while (fun c => c =c ".") (rev s)).

Definition ns_net_hsts_should_upgrade (st : hsts_state) (path_ok : bool) (mtime : Z)
    (content : option bytes) (host : option bytes) : bool * hsts_state :=
  match host with
  | None | Some [] => (false, st)
  | Some h =>
      if negb path_ok then (false, st)
      else
        let '(cache, st) :=
          match g_hsts_cache st with
          | Some c =>
              if (mtime =? g_hsts_cache_mtime_us st)%Z then (c, st)
              else let c := ns_hsts_cache_reload_locked content in
                   (c, {| g_hsts_cache := Some c; g_hsts_cache_mtime_us := mtime |})
          | None =>
              let c := ns_hsts_cache_reload_locked content in
              (c, {| g_hsts_cache := Some c; g_hsts_cache_mtime_us := mtime |})
          end in
        (ns_hsts_lookup_locked cache (trim_dots (g_ascii_strdown h)), st)
  end.

Definition ns_net_hsts_upgrade (should_upgrade : bytes -> bool) (url : option bytes) : option bytes :=
  match url with
  | None => None
  | Some u =>
      if negb (g_str_has_prefix u ($"http://")) then None
      else match ns_url_host_from url with
           | None => None
           | Some h => if should_upgrade h then Some ($"https://" ++ drop 7 u) else None
           end
  end.

Definition ns_user_agent_has_client_hints (user_agent : option bytes) : bool :=
  match user_agent with
  | None => false
  | Some ua => contains ua ($"Chrome/") && negb (contains ua ($"Ladybird/"))
  end.

Definition ns_host_is_loopback (host : bytes) : bool :=
  g_ascii_strcasecmp0 host ($"localhost") || g_str_has_suffix host ($".localhost") ||
  strcmp0 host ($"127.0.0.1") || strcmp0 host ($"::1") || strcmp0 host ($"[::1]").

Definition ns_net_https_first_upgrade (url : option bytes) : option bytes :=
  match cfg with
  | None => None
  | Some c =>
      if negb (cfg_bool c https_first) then None
      else match url with
           | None => None
           | Some u =>
               if negb (g_str_has_prefix u ($"http://")) then None
               else match ns_url_host_from url with
                    | None => None
                    | Some h => if ns_host_is_loopback h then None
                                else Some ($"https://" ++ drop 7 u)
                    end
           end
  end.

Fixpoint nosniff_loop (fuel : nat) (p : bytes) : bool :=
  match fuel with
  | O => false
  | S fuel' =>
      match p with
      | [] => false
      | _ =>
          let p := drop_while (fun c => (c =c " ") || (c =c "009") || (c =c ",")) p in
          let stop := fun c => negb ((c =c ",") || (c =c " ") || (c =c "009")) in
          let word := take_while stop p in
          if (length word =? 7) && g_ascii_strncasecmp0 word ($"nosniff") 7 then true
          else nosniff_loop fuel' (drop_while stop p)
      end
  end.
Definition ns_net_header_is_nosniff (value : option bytes) : bool :=
  match value with
  | None | Some [] => false
  | Some v => nosniff_loop (S (length v)) v
  end.

End Url.

(** ** Lemmas *)

(** *** Tracking parameters *)

#[local] Notation amp := (["&"%char]).
Definition url_params (q : bytes) : list bytes := Ref.split_go (S (length q)) q amp.
Definition is_tracking (tok : bytes) : bool :=
  ns_query_param_is_tracking (G := glib_ref) (before tok "=").
Definition kept_params (q : bytes) : list bytes :=
  drop_while (fun t => length t =? 0) (List.filter (fun t => negb (is_tracking t)) (url_params q)).

Definition keep_step (k tok : bytes) : bytes :=
  if is_tracking tok then k else k ++ (if length k =? 0 then [] else amp) ++ tok.

Lemma strstr_char s c :
  strstr s [c] = match strchr s c with Some r => Some (before s c, r) | None => None end.
Proof.
  destruct (strchr s c) as [r|] eqn:E.
  - apply strchr_Some in E as (t & -> & E). rewrite E at 1.
    apply (strstr_first (before s c) c [] t). apply take_while_forall.
  - apply strchr_None in E. apply strstr_free. rewrite <- E. apply take_while_forall.
Qed.

Lemma strip_loop_eq fuel p kept removed :
  length p < fuel ->
  strip_loop fuel p kept removed =
  (fold_left keep_step (Ref.split_go fuel p amp) kept,
   removed || existsb is_tracking (Ref.split_go fuel p amp)).
Proof.
  revert p kept removed. induction fuel as [|fuel IH]; intros p kept removed Hl; [lia|].
  cbn [strip_loop Ref.split_go]. rewrite strstr_char.
  change (ns_query_param_is_tracking (before (before p "&") "=")) with (is_tracking (before p "&")).
  destruct (strchr p "&") as [r|] eqn:E.
  - apply strchr_Some in E as (t & -> & E).
    assert (Hlt : length t < fuel).
    { rewrite E, length_app in Hl. cbn [length] in Hl. lia. }
    cbn [fold_left existsb length drop].
    unfold keep_step at 2.
    destruct (is_tracking (before p "&")); rewrite IH by done; cbn [orb];
      [by rewrite orb_true_r|reflexivity].
  - apply strchr_None in E. rewrite E. cbn [fold_left existsb]. unfold keep_step.
    destruct (is_tracking p); cbn [orb]; [by rewrite orb_true_r|by rewrite orb_false_r].
Qed.

Lemma keep_fold_nonempty l k :
  k <> [] ->
  fold_left keep_step l k =
  Ref.join amp (k :: List.filter (fun t => negb (is_tracking t)) l).
Proof.
  revert k. induction l as [|t l IH]; intros k Hk; [done|]. cbn [fold_left List.filter].
  unfold keep_step at 2. destruct (is_tracking t) eqn:E; cbn [negb]; [by apply IH|].
  destruct k as [|c k]; [done|]. cbn [length Nat.eqb].
  rewrite IH by done.
  destruct (List.filter _ l) as [|u f]; [done|].
  change (Ref.join amp ((c :: k) :: t :: u :: f))
    with ((c :: k) ++ amp ++ t ++ amp ++ Ref.join amp (u :: f)).
  change (Ref.join amp (?x :: u :: f)) with (x ++ amp ++ Ref.join amp (u :: f)).
  by rewrite <- !app_assoc.
Qed.

Lemma keep_fold_empty l :
  fold_left keep_step l [] =
  Ref.join amp (drop_while (fun t => length t =? 0)
                     (List.filter (fun t => negb (is_tracking t)) l)).
Proof.
  induction l as [|t l IH]; [done|]. cbn [fold_left List.filter].
  unfold keep_step at 2. destruct (is_tracking t) eqn:E; cbn [negb]; [done|].
  cbn [drop_while]. destruct t as [|c t]; [done|].
  cbn [length Nat.eqb app]. by apply keep_fold_nonempty.
Qed.

Lemma strip_loop_spec q :
  strip_loop (G := glib_ref) (S (length q)) q [] false =
  (Ref.join amp (kept_params q), existsb is_tracking (url_params q)).
Proof. rewrite strip_loop_eq by lia. by rewrite keep_fold_empty. Qed.

(** A piece of a split is free of the delimiter. *)
Lemma strstr_none_free c s : strstr s [c] = None -> free_of c s = true.
Proof.
  rewrite strstr_char. destruct (strchr s c) eqn:E; [done|]. intros _.
  apply strchr_None in E. rewrite <- E. apply take_while_forall.
Qed.

Lemma strstr_at b c s : free_of c b = true -> strstr (b ++ c :: s) [c] = Some (b, c :: s).
Proof. intros H. apply (strstr_first b c [] s H). Qed.

Lemma split_go_fuel f1 f2 s c :
  length s < f1 -> length s < f2 -> Ref.split_go f1 s [c] = Ref.split_go f2 s [c].
Proof.
  revert f2 s. induction f1 as [|f1 IH]; intros f2 s H1 H2; [lia|]. destruct f2 as [|f2]; [lia|].
  cbn [Ref.split_go]. destruct (strstr s [c]) as [[b r]|] eqn:E; [|done].
  apply strstr_Some in E as [-> Hr]. apply prefixb_spec in Hr as [k ->].
  rewrite length_app in *. cbn [length app drop] in *. f_equal. apply IH; rewrite drop_0; lia.
Qed.

Lemma split_go_app fuel a s c :
  length (a ++ c :: s) < fuel ->
  Ref.split_go fuel (a ++ c :: s) [c] = Ref.split_go fuel a [c] ++ Ref.split_go fuel s [c].
Proof.
  revert a. induction fuel as [|fuel IH]; intros a Hl; [lia|].
  rewrite length_app in Hl. cbn [length] in Hl.
  rewrite (split_go_fuel (S fuel) fuel s c) by lia.
  cbn [Ref.split_go]. destruct (strstr a [c]) as [[b r]|] eqn:E.
  - rewrite strstr_char in E. destruct (strchr a c) as [r'|] eqn:Ec; [|done].
    apply strchr_Some in Ec as (t & -> & Ea). injection E as <- <-.
    set (b := before a c) in *. assert (Hb : free_of c b = true) by apply take_while_forall. clearbody b.
    subst a. rewrite <- !app_assoc. rewrite length_app in Hl. cbn [length] in Hl.
    rewrite <- app_comm_cons, strstr_at by done.
    cbn [length app drop]. f_equal. rewrite !drop_0. apply IH. rewrite length_app. cbn [length]. lia.
  - apply strstr_none_free in E. rewrite strstr_at by done.
    cbn [length app drop]. by rewrite drop_0.
Qed.

Lemma url_params_free q : Forall (fun t => free_of "&" t = true) (url_params q).
Proof.
  eapply Forall_impl; [apply (split_go_pieces (S (length q)) q amp); [lia|done]|].
  intros t. apply strstr_none_free.
Qed.

Lemma Forall_drop_while {A} (P : A -> Prop) f l : Forall P l -> Forall P (drop_while f l).
Proof. induction 1; cbn; [done|]. by case_test; [|constructor]. Qed.

Lemma Forall_List_filter {A} (P : A -> Prop) f l : Forall P l -> Forall P (List.filter f l).
Proof. induction 1; cbn; [done|]. by case_test; [constructor|]. Qed.

Lemma kept_params_free q : Forall (fun t => free_of "&" t = true) (kept_params q).
Proof. apply Forall_drop_while, Forall_List_filter, url_params_free. Qed.

Lemma kept_params_clean q : Forall (fun t => is_tracking t = false) (kept_params q).
Proof.
  apply Forall_drop_while, List.Forall_forall. intros t H.
  apply filter_In in H as [_ H]. by apply negb_true_iff in H.
Qed.

Lemma url_params_join q :
  kept_params q <> [] -> url_params (Ref.join amp (kept_params q)) = kept_params q.
Proof.
  intros H. apply split_go_join; [apply kept_params_free|done| |lia].
  pose proof (join_length "&" (kept_params q)). lia.
Qed.

(** A URL with a query as its parts: what is before the [?], the query, and the
    fragment with its [#]. *)
Definition query_split (u head q frag : bytes) : Prop :=
  u = head ++ $"?" ++ q ++ frag /\ free_of "?" head = true /\ free_of "#" head = true /\
  free_of "#" q = true /\ (frag = [] \/ exists f, frag = "#"%char :: f).

Lemma before_stop l k c :
  free_of c l = true -> k = [] \/ (exists t, k = c :: t) -> before (l ++ k) c = l.
Proof.
  intros H Hk. apply take_while_app_stop; [done|].
  destruct Hk as [->|[t ->]]; [done|]. cbn. by rewrite Ascii.eqb_refl.
Qed.

Lemma before_ge l k c : free_of c l = true -> length l <= length (before (l ++ k) c).
Proof.
  induction l as [|x l IH]; cbn; intros H; [lia|]. boolify.
  destruct (x =c c) eqn:E; boolify; [done|]. cbn. apply le_n_S, IH. done.
Qed.

Lemma strchr_stop l k c :
  free_of c l = true -> k = [] \/ (exists t, k = c :: t) ->
  match strchr (l ++ k) c with Some f => f | None => [] end = k.
Proof.
  intros H [->|[t ->]].
  - by rewrite app_nil_r, strchr_free.
  - by destruct (strchr_app l c t H) as [-> _].
Qed.

Lemma free_of_app c a b : free_of c (a ++ b) = free_of c a && free_of c b.
Proof. apply forallb_app. Qed.

Lemma split_go_free c fuel s d :
  free_of c s = true -> Forall (fun t => free_of c t = true) (Ref.split_go fuel s d).
Proof.
  revert s. induction fuel as [|fuel IH]; intros s H; cbn [Ref.split_go]; [by constructor|].
  destruct (strstr s d) as [[b r]|] eqn:E; [|by constructor].
  apply strstr_Some in E as [-> _]. rewrite free_of_app in H. boolify.
  constructor; [done|]. apply IH. rewrite <- (take_drop (length d) r), free_of_app in H0.
  by boolify.
Qed.

Lemma join_free c sep l :
  free_of c sep = true -> Forall (fun t => free_of c t = true) l -> free_of c (Ref.join sep l) = true.
Proof.
  intros Hs. induction 1 as [|s l H F IH]; [done|]. destruct l as [|t l]; [done|].
  change (Ref.join sep (s :: t :: l)) with (s ++ sep ++ Ref.join sep (t :: l)).
  by rewrite !free_of_app, H, Hs, IH.
Qed.

Lemma kept_join_free q : free_of "#" q = true -> free_of "#" (Ref.join amp (kept_params q)) = true.
Proof.
  intros H. apply join_free; [done|]. by apply Forall_drop_while, Forall_List_filter, split_go_free.
Qed.

Lemma query_split_exists u :
  length (before u "?") < length (before u "#") ->
  exists head q frag, query_split u head q frag /\ head = before u "?".
Proof.
  intros H. exists (before u "?").
  destruct (strchr u "?") as [r|] eqn:E.
  2:{ apply strchr_None in E. rewrite E in H.
      pose proof (take_while_length (fun d => negb (d =c "#")) u) as X.
      unfold before in H. lia. }
  apply strchr_Some in E as (t & -> & E).
  exists (before t "#"), (match strchr t "#" with Some f => f | None => [] end).
  assert (Hh : free_of "#" (before u "?") = true).
  { pose proof (take_drop_while (fun d => negb (d =c "#")) u) as X.
    fold (before u "#") in X.
    assert (P : exists k, before u "#" = before u "?" ++ k).
    { exists (drop (length (before u "?")) (before u "#")).
      rewrite <- (take_drop (length (before u "?")) (before u "#")) at 1. f_equal.
      rewrite <- (take_app_le _ (drop_while (fun d => negb (d =c "#")) u)) by lia.
      rewrite X. transitivity (take (length (before u "?")) (before u "?" ++ "?"%char :: t));
        [by rewrite <- E|apply take_app_length]. }
    destruct P as [k P]. assert (F : free_of "#" (before u "#") = true) by apply take_while_forall.
    rewrite P, free_of_app in F. by apply andb_prop in F as [? _]. }
  repeat split; [|apply take_while_forall|done|apply take_while_forall|].
  - rewrite E at 1. f_equal. cbn. f_equal. destruct (strchr t "#") as [f|] eqn:F.
    + apply strchr_Some in F as (x & -> & F). done.
    + apply strchr_None in F. by rewrite F, app_nil_r.
  - destruct (strchr t "#") as [f|] eqn:F; [|by left].
    apply strchr_Some in F as (x & -> & F). right. eauto.
Qed.

Lemma strip_eq c u head q frag :
  cfg_bool c strip_tracking_params = true ->
  ns_url_is_http_or_https (G := glib_ref) (Some u) = true ->
  query_split u head q frag ->
  ns_url_strip_tracking_params (G := glib_ref) (Some c) (Some u) =
  if existsb is_tracking (url_params q)
  then Some (head ++ (match kept_params q with
                      | [] => [] | k => $"?" ++ Ref.join amp k end) ++ frag)
  else None.
Proof.
  intros Hc Hu (E & H1 & H2 & H3 & Hf). unfold ns_url_strip_tracking_params.
  rewrite Hu, Hc. cbn [negb].
  assert (B1 : before u "?" = head).
  { rewrite E. apply before_stop; [done|right; eexists; reflexivity]. }
  assert (B2 : before u "#" = head ++ $"?" ++ q).
  { rewrite E. rewrite !app_assoc, <- (app_assoc head).
    apply before_stop; [|done]. by rewrite !free_of_app, H2, H3. }
  assert (B3 : match strchr u "#" with Some f => f | None => [] end = frag).
  { rewrite E. rewrite !app_assoc, <- (app_assoc head).
    apply strchr_stop; [|done]. by rewrite !free_of_app, H2, H3. }
  rewrite B1, B2, B3.
  assert (L : length head <? length (head ++ $"?" ++ q) = true).
  { apply Nat.ltb_lt. rewrite !length_app. change (length ($"?")) with 1. lia. }
  rewrite L. cbn [negb]. rewrite <- B2.
  assert (T : take (length (before u "#")) u = head ++ $"?" ++ q).
  { rewrite B2, E, !app_assoc, <- (app_assoc head). apply take_app_length. }
  rewrite T.
  assert (D : drop (length head + 1) (head ++ $"?" ++ q) = q).
  { rewrite <- drop_drop, drop_app_length. done. }
  rewrite D, strip_loop_spec. destruct (existsb _ _); cbn [negb]; [|done].
  f_equal. rewrite E at 1. rewrite take_app_length. f_equal. f_equal.
  destruct (kept_params q) as [|k ks] eqn:K; [done|].
  assert (Hk : k <> []).
  { intros ->. unfold kept_params in K. by apply drop_while_head in K. }
  destruct (Ref.join amp (k :: ks)) eqn:J; [|done].
  exfalso. apply Hk. destruct ks; [done|]. by apply app_eq_nil in J as [? _].
Qed.

(** Removing tracking parameters: when the result differs from the URL, the
    URL splits at its query and its fragment, the result has the same parts
    before and after, and its query is the parameters that are not tracking ones,
    in order (the empty ones in front dropped, no [?] when none is left); and the
    result has nothing more to remove. *)
Theorem strip_tracking_exact (G : GLib) (GS : GLibSpec G) (cfg : option ns_config) (u v : bytes) :
  ns_url_strip_tracking_params cfg (Some u) = Some v ->
  (exists head q frag, query_split u head q frag /\
     v = head ++ match kept_params q with [] => [] | k => $"?" ++ Ref.join ($"&") k end ++ frag) /\
  ns_url_strip_tracking_params cfg (Some v) = None.
Proof.
  glib. intros H.
  assert (X : exists c, cfg = Some c /\ cfg_bool c strip_tracking_params = true /\
                ns_url_is_http_or_https (G := glib_ref) (Some u) = true /\
                length (before u "?") < length (before u "#")).
  { unfold ns_url_strip_tracking_params in H.
    destruct (ns_url_is_http_or_https (Some u)) eqn:Hu; [|done]. destruct cfg as [c|]; [|done].
    cbn [negb] in H. destruct (cfg_bool c strip_tracking_params) eqn:Hc; [|done]. cbn [negb] in H.
    destruct (Nat.ltb_spec (length (before u "?")) (length (before u "#"))); [|done]. eauto 10. }
  destruct X as (c & -> & Hc & Hu & Hl).
  destruct (query_split_exists u Hl) as (head & q & frag & Hq & _).
  rewrite (strip_eq c u head q frag) in H by done.
  destruct (existsb _ _) eqn:Ht; [|done]. apply (inj Some) in H.
  split; [eauto|].
  destruct (ns_url_is_http_or_https (Some v)) eqn:Hv.
  2:{ unfold ns_url_strip_tracking_params. by rewrite Hv. }
  destruct Hq as (E & H1 & H2 & H3 & Hf).
  destruct (kept_params q) as [|k ks] eqn:K.
  - cbn [app] in H. unfold ns_url_strip_tracking_params. rewrite Hv, Hc. cbn [negb].
    assert (B : length (before v "#") <= length (before v "?")).
    { rewrite <- H, before_stop by done. by apply before_ge. }
    destruct (Nat.ltb_spec (length (before v "?")) (length (before v "#"))); [lia|done].
  - rewrite (strip_eq c v head (Ref.join amp (k :: ks)) frag); [|done|done|].
    + rewrite <- K, url_params_join by by rewrite K.
      destruct (existsb is_tracking (kept_params q)) eqn:X; [|done]. exfalso.
      apply existsb_exists in X as (t & Hin & Ht').
      pose proof (kept_params_clean q) as F. rewrite List.Forall_forall in F.
      rewrite F in Ht' by done. done.
    + repeat split; try done. rewrite <- K. by apply kept_join_free.
Qed.

Lemma strip_tracking_exact_witness :
  let c := Some (set_bool strip_tracking_params true cfg_zero) in
  let u := $"https://a.example/p?utm_source=x&id=7&&fbclid=1#top" in
  let v := $"https://a.example/p?id=7&#top" in
  (exists head q frag, query_split u head q frag /\
     v = head ++ match kept_params q with [] => [] | k => $"?" ++ Ref.join ($"&") k end ++ frag) /\
  ns_url_strip_tracking_params (G := glib_ref) c (Some v) = None.
Proof. intros c u v. apply (strip_tracking_exact glib_ref glib_ref_spec c u v). by vm_compute. Defined.

(** *** Origins and the Referer header *)

Lemma same_origin_sym (L : Lexbor) a b :
  ns_url_same_origin (G := glib_ref) a b = ns_url_same_origin (G := glib_ref) b a.
Proof.
  unfold ns_url_same_origin. destruct (ns_url_origin_from a) as [[|x o]|], (ns_url_origin_from b) as [[|y p]|];
    try done. cbn. apply bool_decide_ext. split; congruence.
Qed.

(** C38. What a [Referer] header may tell: nothing at all when the policy is never to
    send one or when it would go from HTTPS to HTTP; nothing across origins under
    the same-origin policy; and across origins, unless the policy asks for full
    URLs, no more than the origin. In particular the header of a request to
    another origin has neither path nor query of the page. *)
Theorem referer_no_leak (G : GLib) (GS : GLibSpec G) (L : Lexbor) (url top : bytes)
    (policy : ns_referer_policy) (r : bytes) :
  ns_net_referer_for (Some url) (Some top) policy = Some r ->
  policy <> NS_REFERER_NO_REFERRER /\
  (prefixb ($"https://") top = true -> prefixb ($"https://") url = true) /\
  (ns_url_same_origin (Some top) (Some url) = false ->
     policy <> NS_REFERER_SAME_ORIGIN /\
     (policy <> NS_REFERER_UNSAFE_URL ->
        exists o, ns_url_origin_from (Some top) = Some o /\ r = o ++ $"/")) /\
  (ns_url_same_origin (Some top) (Some url) = true ->
     exists p, ns_url_parts_new (Some top) = Some p /\ r = origin p ++ pathname p ++ search p).
Proof.
  glib. unfold ns_net_referer_for. destruct top as [|t top]; [done|]. set (tp := t :: top).
  destruct (ns_url_is_http_or_https (Some url)) eqn:Hu; [|done].
  destruct (ns_url_is_http_or_https (Some tp)) eqn:Ht; [|done]. cbn [negb orb].
  case_bool_decide as Hn; [done|]. glib_simpl.
  destruct (prefixb ($"https://") tp && prefixb ($"http://") url) eqn:Hd; [done|].
  assert (Hds : prefixb ($"https://") tp = true -> prefixb ($"https://") url = true).
  { intros E. rewrite E in Hd. cbn [andb] in Hd. cbn [ns_url_is_http_or_https] in Hu.
    glib_simpl. by rewrite Hd in Hu. }
  destruct (ns_url_same_origin (Some tp) (Some url)) eqn:Hs.
  - rewrite andb_false_r, orb_true_r.
    destruct (ns_url_parts_new (Some tp)) as [p|]; [|done].
    destruct (length (origin p) =? 0); [done|]. intros <-%(inj Some). repeat split; eauto; done.
  - rewrite andb_true_r, orb_false_r.
    case_bool_decide as Hso; [done|]. case_bool_decide as Hun.
    + intros _. repeat split; done.
    + destruct (ns_url_origin_from (Some tp)) as [o|]; [|done]. intros <-%(inj Some).
      repeat split; eauto; done.
Qed.

(** A parser that understands the URLs of the examples. *)
Definition demo_lexbor : Lexbor := {|
  lxb_url_parser_open := true;
  lxb_url_parse _ s :=
    let mk h p q := Some {| u_href := Some s; u_scheme := $"https"; u_host := LXB_URL_HOST (Some h);
                            u_port := None; u_path := Some p; u_query := q; u_fragment := [];
                            u_username := []; u_password := [] |} in
    if s =b $"https://a.example/secret?token=1" then mk ($"a.example") ($"/secret") ($"token=1")
    else if s =b $"https://b.example/" then mk ($"b.example") ($"/") []
    else if s =b $"https://a.example/app/page" then mk ($"a.example") ($"/app/page") []
    else None;
  lxb_url_api_set _ u _ := u |}.

Lemma referer_no_leak_witness :
  exists o, ns_url_origin_from (G := glib_ref) (L := demo_lexbor) (Some ($"https://a.example/secret?token=1")) = Some o
            /\ $"https://a.example/" = o ++ $"/".
Proof.
  apply (referer_no_leak glib_ref glib_ref_spec demo_lexbor ($"https://b.example/")
           ($"https://a.example/secret?token=1") NS_REFERER_STRICT_ORIGIN_WHEN_CROSS ($"https://a.example/"));
    [by vm_compute|by vm_compute|done].
Defined.

(** *** HSTS *)

(** A dot inside a host is the first one or one after it. *)
Lemma dot_cases a t pre parent :
  free_of "." a = true -> a ++ "."%char :: t = pre ++ "."%char :: parent ->
  (pre = a /\ parent = t) \/ (exists pre', t = pre' ++ "."%char :: parent).
Proof.
  intros Hf E. apply app_eq_app in E as [k [[Ha Hp]|[Hp Ht]]].
  - destruct k as [|c k]; [left; rewrite app_nil_r in Ha; subst; by injection Hp as ->|].
    injection Hp as <- _. subst a. rewrite free_of_app in Hf. cbn in Hf. by boolify.
  - destruct k as [|c k]; [left; rewrite app_nil_r in Hp; subst; by injection Ht as ->|].
    injection Ht as _ ->. right. eauto.
Qed.

Lemma hsts_parents_spec fuel cache dot :
  length dot < fuel ->
  hsts_parents fuel cache dot = true <->
  exists pre parent, dot = pre ++ "."%char :: parent /\ cache !! parent = Some true.
Proof.
  revert dot. induction fuel as [|fuel IH]; intros dot Hl; [lia|]. cbn [hsts_parents].
  destruct (strchr dot ".") as [d|] eqn:E.
  - apply strchr_Some in E as (t & -> & E). cbn [drop].
    assert (Hf : free_of "." (before dot ".") = true) by apply take_while_forall.
    rewrite E, length_app in Hl. cbn [length] in Hl. set (a := before dot ".") in *. clearbody a. subst dot.
    rewrite drop_0.
    case_bool_decide as Hc; [split; [eauto|done]|]. rewrite IH by lia. split.
    + intros (pre & parent & -> & Hp). exists (a ++ "."%char :: pre), parent.
      by rewrite <- app_assoc.
    + intros (pre & parent & Ea & Hp). apply dot_cases in Ea as [[_ ->]|[pre' ->]]; [done| |done].
      eauto.
  - split; [done|]. intros (pre & parent & -> & _). apply strchr_None in E.
    assert (F : free_of "." (pre ++ "."%char :: parent) = true) by (rewrite <- E; apply take_while_forall).
    rewrite free_of_app in F. cbn in F. boolify. done.
Qed.

(** The walk over the dots of a host implements the host match of HSTS: a host
    is known exactly when it has an entry itself or some parent domain, at any
    depth, has one that covers subdomains. *)
Theorem hsts_lookup_spec (cache : gmap bytes bool) (host : bytes) :
  ns_hsts_lookup_locked cache host = true <->
  is_Some (cache !! host) \/
  exists pre parent, host = pre ++ $"." ++ parent /\ cache !! parent = Some true.
Proof.
  unfold ns_hsts_lookup_locked. destruct (cache !! host) eqn:E.
  - split; [left; by eexists|done].
  - rewrite hsts_parents_spec by lia. split; [by right|]. intros [[? ?]|H]; done.
Qed.

(** *** The Refresh header *)

Lemma refresh_seconds_spec ds acc :
  allb is_digit ds = true -> (0 <= acc <= 2147483647)%Z ->
  refresh_seconds ds acc = Z.min 2147483647 (acc * 10 ^ Z.of_nat (length ds) + dec_val ds).
Proof.
  revert acc. induction ds as [|d ds IH]; intros acc Hd Ha; [cbn; lia|].
  pose proof (dec_val_bound (d :: ds) Hd) as B. rewrite dec_val_cons in *.
  cbn [forallb] in Hd. boolify. pose proof (dec_val_bound ds H0) as B'. apply is_digit_spec in H as Hr.
  cbn [refresh_seconds length]. fold (digit_val d). rewrite Nat2Z.inj_succ, Z.pow_succ_r by lia.
  unfold digit_val in *. set (t := (10 ^ Z.of_nat (length ds))%Z) in *. assert (1 <= t)%Z by lia.
  destruct (Z.ltb_spec 2147483647 (acc * 10 + (code d - 48))).
  - nia.
  - rewrite IH by (done || lia). fold t. f_equal. nia.
Qed.

Definition refresh_url_ok (u : bytes) : Prop :=
  u <> [] /\ head_is (fun c => refresh_is_space c || is_quote c) u = false /\
  Ref.strip_trailing u = u.

Lemma refresh_skip_url_eq c u :
  refresh_is_space c = false -> refresh_skip_url ($"url=" ++ c :: u) = c :: u.
Proof.
  intros H.
  transitivity (drop_while refresh_is_space (c :: u)); [reflexivity|].
  cbn [drop_while]. by rewrite H.
Qed.

(** A refresh written the usual way is read back: the delay, capped at the
    largest 32-bit integer however many digits it has, and the URL. *)
Theorem parse_refresh_round_trip (G : GLib) (GS : GLibSpec G) (n : Z) (u : bytes) :
  (0 <= n)%Z -> refresh_url_ok u ->
  ns_net_parse_refresh (Some (print_u n ++ $"; url=" ++ u)) = Some (Z.min 2147483647 n, Some u).
Proof.
  glib. intros Hn (Hu & Hh & Ht). unfold ns_net_parse_refresh, print_u. glib_simpl.
  destruct (digits_spec n Hn) as (Hd & Hv & Hne). set (ds := digits 10 n) in *. clearbody ds.
  assert (D0 : forall k, drop_while refresh_is_space (ds ++ k) = ds ++ k).
  { intros k. destruct ds as [|c ds]; [done|]. cbn [forallb] in Hd. boolify.
    cbn. assert (X : negb (is_digit c) || negb (refresh_is_space c) = true) by (clear; by_bytes c).
    rewrite H in X. cbn in X. boolify. by rewrite X. }
  rewrite D0, take_while_app_stop, drop_while_app_stop by (done || reflexivity).
  rewrite refresh_seconds_spec, Hv by (done || lia).
  destruct ds as [|d ds]; [done|]. cbn [length Nat.eqb andb].
  replace (0 * _ + n)%Z with n by lia.
  destruct u as [|c u]; [done|]. cbn in Hh. boolify.
  set (tl := $"; url=" ++ c :: u).
  change (drop_while (fun c => (c =c ".") || is_digit c) tl) with tl.
  change (drop_while refresh_is_space tl) with tl.
  change (length tl =? 0) with false.
  change (head_is (fun c => (c =c ";") || (c =c ",") || refresh_is_space c) tl) with true.
  change (head_is (fun c => (c =c ";") || (c =c ",")) tl) with true.
  cbn [negb andb]. change (drop_while refresh_is_space (drop 1 tl)) with ($"url=" ++ c :: u).
  by rewrite refresh_skip_url_eq, H0, Ht.
Qed.

Lemma parse_refresh_round_trip_witness :
  refresh_url_ok ($"/next?a=1") /\
  ns_net_parse_refresh (G := glib_ref) (Some ($"99999999999; url=/next?a=1")) = Some (2147483647%Z, Some ($"/next?a=1")).
Proof.
  assert (H : refresh_url_ok ($"/next?a=1")) by (split; [done|split; by vm_compute]).
  split; [done|].
  pose proof (parse_refresh_round_trip glib_ref glib_ref_spec 99999999999 ($"/next?a=1") ltac:(lia) H) as E.
  vm_compute in E. vm_compute. exact E.
Defined.
