(* ===== verification/Csp.v ===== *)
(** * Content-Security-Policy ([src/csp.c])

    The parser of the header, the merge of several headers, the match of a
    source expression against a URL, and the decisions on fetches, inline
    scripts, event handlers and frame ancestors. *)

From S2P Require Import Prelude CStr GLib Config Freenet Url.

Inductive ns_csp_kind :=
| NS_CSP_DEFAULT | NS_CSP_SCRIPT | NS_CSP_STYLE | NS_CSP_IMG | NS_CSP_MEDIA
| NS_CSP_CONNECT | NS_CSP_FONT | NS_CSP_FRAME | NS_CSP_CHILD | NS_CSP_WORKER
| NS_CSP_FRAME_ANCESTORS | NS_CSP_OBJECT | NS_CSP_BASE_URI | NS_CSP_FORM_ACTION
| NS_CSP_KIND_COUNT.

#[export] Instance ns_csp_kind_eq_dec : EqDecision ns_csp_kind.
Proof. solve_decision. Defined.

(** The two arrays of a policy, indexed by kind. *)
Record ns_csp_policy := {
  sources : ns_csp_kind -> option (list bytes);
  is_set : ns_csp_kind -> bool;
}.

(** [struct ns_csp]: its [policies]. *)
Definition ns_csp : Type := list ns_csp_policy.

Inductive GChecksumType := G_CHECKSUM_SHA256 | G_CHECKSUM_SHA384 | G_CHECKSUM_SHA512.

Section Csp.
Context {G : GLib} {L : Lexbor}.
(** GLib's digests and base64. *)
Variable g_checksum : GChecksumType -> bytes -> bytes.
Variable g_base64_encode : bytes -> bytes.

Definition directive_map : list (bytes * ns_csp_kind) := [
  ($"default-src",     NS_CSP_DEFAULT);
  ($"script-src",      NS_CSP_SCRIPT);
  ($"style-src",       NS_CSP_STYLE);
  ($"img-src",         NS_CSP_IMG);
  ($"media-src",       NS_CSP_MEDIA);
  ($"connect-src",     NS_CSP_CONNECT);
  ($"font-src",        NS_CSP_FONT);
  ($"frame-src",       NS_CSP_FRAME);
  ($"child-src",       NS_CSP_CHILD);
  ($"worker-src",      NS_CSP_WORKER);
  ($"frame-ancestors", NS_CSP_FRAME_ANCESTORS);
  ($"object-src",      NS_CSP_OBJECT);
  ($"base-uri",        NS_CSP_BASE_URI);
  ($"form-action",     NS_CSP_FORM_ACTION)].

Definition directive_kind (name : bytes) : ns_csp_kind :=
  match List.find (fun e => g_ascii_strcasecmp0 name (fst e)) directive_map with
  | Some (_, k) => k
  | None => NS_CSP_KIND_COUNT
  end.

(** ** Parsing *)

(** The sources of a directive: its tokens but the name and the empty ones. *)
Definition directive_sources (toks : list bytes) : list bytes :=
  List.filter (fun t => negb (length t =? 0)) (map g_strstrip toks).

(** One turn of the loop over the clauses of a policy. *)
Definition policy_clause (p : ns_csp_policy) (raw : bytes) : ns_csp_policy :=
  match g_strstrip raw with
  | [] => p
  | clause =>
      match g_strsplit_set clause [" "%char; "009"%char] with
      | [] => p
      | name :: toks =>
          let k := directive_kind name in
          if bool_decide (k = NS_CSP_KIND_COUNT) || is_set p k then p
          else {| is_set := fset (is_set p) k true;
                  sources :=
                    let old := match sources p k with Some l => l | None => [] end in
                    fset (sources p) k (Some (old ++ directive_sources toks)) |}
      end
  end.

Definition policy_new : ns_csp_policy :=
  {| sources _ := None; is_set _ := false |}.

Definition policy_parse (policy_text : bytes) : ns_csp_policy :=
  fold_left policy_clause (g_strsplit policy_text ($";")) policy_new.

Definition ns_csp_parse (header_value : option bytes) : option ns_csp :=
  match header_value with
  | None | Some [] => None
  | Some h =>
      let policies :=
        map policy_parse
          (List.filter (fun t => negb (length t =? 0)) (map g_strstrip (g_strsplit h ($",")))) in
      match policies with [] => None | _ => Some policies end
  end.

(** The two objects afterwards: [src] gives its policies away. *)
Definition ns_csp_merge (dst src : option ns_csp) : option ns_csp * option ns_csp :=
  match dst, src with
  | Some d, Some s => (Some (d ++ s), Some [])
  | _, _ => (dst, src)
  end.

(** ** Matching a source expression *)

Definition url_scheme_matches (url scheme_with_colon : bytes) : bool :=
  match last scheme_with_colon with
  | None => false
  | Some c =>
      let n := length scheme_with_colon in
      let cmp_len := if c =c ":" then n - 1 else n in
      if negb (g_ascii_strncasecmp0 url scheme_with_colon cmp_len) then false
      else head_is (fun c => c =c ":") (drop cmp_len url)
  end.

Definition scheme_part_matches (scheme : bytes) (url : bytes) : bool :=
  let n := length scheme in
  if g_ascii_strncasecmp0 url scheme n && head_is (fun c => c =c ":") (drop n url) then true
  else if (n =? 4) && g_ascii_strncasecmp0 scheme ($"http") 4 then
    g_ascii_strncasecmp0 url ($"https:") 6
  else if (n =? 2) && g_ascii_strncasecmp0 scheme ($"ws") 2 then
    g_ascii_strncasecmp0 url ($"wss:") 4
  else false.

Definition network_schemes : list bytes :=
  [$"http:"; $"https:"; $"ws:"; $"wss:"; $"ftp:"].
Definition is_network_scheme_url (url : bytes) : bool :=
  existsb (fun s => url_scheme_matches url s) network_schemes.

Definition default_port_for_scheme (scheme : bytes) : bytes :=
  let n := match last scheme with
           | Some c => if c =c ":" then length scheme - 1 else length scheme
           | None => 0
           end in
  if ((n =? 5) && g_ascii_strncasecmp0 scheme ($"https") 5) ||
     ((n =? 3) && g_ascii_strncasecmp0 scheme ($"wss") 3) then $"443"
  else if ((n =? 4) && g_ascii_strncasecmp0 scheme ($"http") 4) ||
          ((n =? 2) && g_ascii_strncasecmp0 scheme ($"ws") 2) then $"80"
  else if (n =? 3) && g_ascii_strncasecmp0 scheme ($"ftp") 3 then $"21"
  else [].

Definition csp_port_matches (src_port : option bytes) (res_port res_scheme : bytes) : bool :=
  match src_port with
  | None | Some [] =>
      match res_port with
      | [] => true
      | _ => let d := default_port_for_scheme res_scheme in
             negb (length d =? 0) && strcmp0 res_port d
      end
  | Some sp =>
      if strcmp0 sp ($"*") then true
      else
        let rp := match res_port with
                  | [] => default_port_for_scheme res_scheme
                  | _ => res_port
                  end in
        negb (length rp =? 0) && strcmp0 sp rp
  end.

Definition csp_path_matches (src_path : option bytes) (res_path : bytes) : bool :=
  match src_path with
  | None | Some [] => true
  | Some sp =>
      if strcmp0 sp ($"/") then true
      else
        let rp := match res_path with [] => $"/" | _ => res_path end in
        if match last sp with Some c => c =c "/" | None => false end
        then strncmp0 rp sp (length sp)
        else strcmp0 rp sp
  end.

Definition scheme_sources : list bytes :=
  [$"https:"; $"http:"; $"wss:"; $"ws:"; $"data:"; $"blob:"].

(** Without a scheme of its own the expression takes the document's. *)
Definition scheme_follows_document (res_scheme resource_url : bytes) (doc_url : option bytes) : bool :=
  let docp := match doc_url with Some _ => ns_url_parts_new doc_url | None => None end in
  match docp with
  | Some d =>
      if negb (length (protocol d) =? 0) then
        g_ascii_strcasecmp0 res_scheme (protocol d) ||
        (g_ascii_strcasecmp0 (protocol d) ($"http:") && g_ascii_strcasecmp0 res_scheme ($"https:")) ||
        (g_ascii_strcasecmp0 (protocol d) ($"ws:") && g_ascii_strcasecmp0 res_scheme ($"wss:"))
      else is_network_scheme_url resource_url
  | None => is_network_scheme_url resource_url
  end.

(** [src]: the host part of the expression and what follows; [host_len] bytes of
    it are the host. *)
Definition csp_host_matches (res_hostname src : bytes) (host_len : nat) : bool :=
  if (2 <=? host_len) && strncmp0 src ($"*.") 2 then
    let sfx_len := host_len - 1 in
    let rh_len := length res_hostname in
    (sfx_len <? rh_len) &&
    g_ascii_strncasecmp0 (drop (rh_len - sfx_len) res_hostname) (drop 1 src) sfx_len
  else
    (length res_hostname =? host_len) && g_ascii_strncasecmp0 res_hostname src host_len.

(** The host, port and path part [h] of a source expression against a URL. *)
Definition host_source_matches (h : bytes) (res : ns_url_parts) (res_scheme : bytes) : bool :=
  let port_p := strchr h ":" in
  let path_p := strchr h "/" in
  let port_at := length (before h ":") in
  let path_at := length (before h "/") in
  let has_port := match port_p, path_p with
                  | Some _, None => true
                  | Some _, Some _ => port_at <? path_at
                  | None, _ => false
                  end in
  let host_len := if has_port then port_at else path_at in
  if negb (csp_host_matches (hostname res) h host_len) then false
  else
    let src_port := if has_port then Some (drop (port_at + 1) (take path_at h)) else None in
    if negb (csp_port_matches src_port (port res) res_scheme) then false
    else csp_path_matches path_p (pathname res).

Definition source_matches (src resource_url : bytes) (doc_url : option bytes) : bool :=
  match src with
  | [] => false
  | _ =>
      if strcmp0 src ($"'none'") then false
      else if strcmp0 src ($"*") then is_network_scheme_url resource_url
      else if strcmp0 src ($"'self'") then ns_url_same_origin (Some resource_url) doc_url
      else if strcmp0 src ($"'unsafe-inline'") || strcmp0 src ($"'unsafe-eval'") ||
              strcmp0 src ($"'strict-dynamic'") then false
      else if existsb (fun s => g_ascii_strcasecmp0 src s) scheme_sources then
        url_scheme_matches resource_url src
      else
        let '(scheme, h) := match strstr src ($"://") with
                            | Some (b, r) => (Some b, drop 3 r)
                            | None => (None, src)
                            end in
        if match scheme with Some s => negb (scheme_part_matches s resource_url) | None => false end
        then false
        else
          match ns_url_parts_new (Some resource_url) with
          | None => false
          | Some res =>
              if match scheme with
                 | None => negb (scheme_follows_document (protocol res) resource_url doc_url)
                 | Some _ => false
                 end
              then false
              else host_source_matches h res (protocol res)
          end
  end.

(** ** Decisions *)

Definition list_has_token (l : option (list bytes)) (tok : bytes) : bool :=
  match l with None => false | Some l => existsb (fun s => strcmp0 s tok) l end.

Definition policy_frame_ancestors_allows (p : ns_csp_policy) (parent_url : option bytes)
    (document_url : option bytes) : bool :=
  if negb (is_set p NS_CSP_FRAME_ANCESTORS) then true
  else
    match sources p NS_CSP_FRAME_ANCESTORS with
    | None | Some [] => false
    | Some l =>
        match parent_url with
        | None => true
        | Some u => existsb (fun s => source_matches s u document_url) l
        end
    end.

(** The directive that governs a fetch; [None]: nothing does. *)
Definition effective_directive (p : ns_csp_policy) (kind : ns_csp_kind) : option ns_csp_kind :=
  if is_set p kind then Some kind
  else if bool_decide (kind = NS_CSP_BASE_URI) || bool_decide (kind = NS_CSP_FORM_ACTION) then None
  else if bool_decide (kind = NS_CSP_WORKER) && is_set p NS_CSP_CHILD then Some NS_CSP_CHILD
  else if bool_decide (kind = NS_CSP_WORKER) && is_set p NS_CSP_SCRIPT then Some NS_CSP_SCRIPT
  else if bool_decide (kind = NS_CSP_FRAME) && is_set p NS_CSP_CHILD then Some NS_CSP_CHILD
  else if is_set p NS_CSP_DEFAULT then Some NS_CSP_DEFAULT
  else None.

(** What a ['nonce-...'] source makes of a nonce. *)
Definition nonce_source_matches (s nonce : bytes) : bool :=
  let slen := length s in
  (8 <? slen) && match last s with Some c => c =c "'" | None => false end &&
  (length nonce =? slen - 8) && strncmp0 (drop 7 s) nonce (slen - 8).

Fixpoint sources_allow (l : list bytes) (strict_dynamic : bool) (resource_url : bytes)
    (document_url nonce : option bytes) : bool :=
  match l with
  | [] => false
  | s :: l' =>
      let go := sources_allow l' strict_dynamic resource_url document_url nonce in
      if strcmp0 s ($"'strict-dynamic'") then go
      else
        match nonce with
        | Some n =>
            if g_str_has_prefix s ($"'nonce-") then
              if nonce_source_matches s n then true else go
            else if strict_dynamic then go
            else if source_matches s resource_url document_url then true else go
        | None =>
            if strict_dynamic then go
            else if source_matches s resource_url document_url then true else go
        end
  end.

Definition policy_allows_with_nonce (p : ns_csp_policy) (kind : ns_csp_kind) (resource_url : bytes)
    (document_url nonce : option bytes) (parser_inserted : bool) : bool :=
  if bool_decide (kind = NS_CSP_FRAME_ANCESTORS)
  then policy_frame_ancestors_allows p (Some resource_url) document_url
  else
    match effective_directive p kind with
    | None => true
    | Some eff =>
        match sources p eff with
        | None | Some [] => false
        | Some l =>
            let script_like :=
              bool_decide (kind = NS_CSP_SCRIPT) ||
              (bool_decide (kind = NS_CSP_DEFAULT) && bool_decide (eff = NS_CSP_DEFAULT)) in
            let strict_dynamic := script_like && list_has_token (Some l) ($"'strict-dynamic'") in
            if sources_allow l strict_dynamic resource_url document_url nonce then true
            else strict_dynamic && negb parser_inserted
        end
    end.

Definition ns_csp_allows_with_nonce (csp : option ns_csp) (kind : ns_csp_kind)
    (resource_url document_url nonce : option bytes) (parser_inserted : bool) : bool :=
  match csp, resource_url with
  | Some ps, Some u =>
      if bool_decide (kind = NS_CSP_KIND_COUNT) then true
      else allb (fun p => policy_allows_with_nonce p kind u document_url nonce parser_inserted) ps
  | _, _ => true
  end.

Definition ns_csp_allows (csp : option ns_csp) (kind : ns_csp_kind)
    (resource_url document_url : option bytes) : bool :=
  ns_csp_allows_with_nonce csp kind resource_url document_url None true.

Definition inline_script_kind (p : ns_csp_policy) : ns_csp_kind :=
  if is_set p NS_CSP_SCRIPT then NS_CSP_SCRIPT
  else if is_set p NS_CSP_DEFAULT then NS_CSP_DEFAULT
  else NS_CSP_KIND_COUNT.

Definition list_has_nonce_or_hash (l : option (list bytes)) : bool :=
  match l with
  | None => false
  | Some l =>
      existsb (fun s => g_str_has_prefix s ($"'nonce-") || g_str_has_prefix s ($"'sha256-") ||
                        g_str_has_prefix s ($"'sha384-") || g_str_has_prefix s ($"'sha512-")) l
  end.

(** The URL-safe spelling of a base64 text. *)
Definition base64_url_alphabet (s : bytes) : bytes :=
  map (fun c => if c =c "+" then "-"%char else if c =c "/" then "_"%char else c) s.

Definition hash_token_matches (src body : bytes) : bool :=
  let type :=
    if g_str_has_prefix src ($"'sha256-") then Some G_CHECKSUM_SHA256
    else if g_str_has_prefix src ($"'sha384-") then Some G_CHECKSUM_SHA384
    else if g_str_has_prefix src ($"'sha512-") then Some G_CHECKSUM_SHA512
    else None in
  match type with
  | None => false
  | Some t =>
      let b64 := drop 8 src in
      let b64_len := length b64 in
      if (b64_len <? 2) || negb match last b64 with Some c => c =c "'" | None => false end then false
      else
        let want := take (b64_len - 1) b64 in
        let got := g_base64_encode (g_checksum t body) in
        strcmp0 want got || strcmp0 want (base64_url_alphabet got)
  end.

Definition policy_inline_script_allowed (p : ns_csp_policy) (body nonce : option bytes) : bool :=
  let k := inline_script_kind p in
  if bool_decide (k = NS_CSP_KIND_COUNT) then true
  else
    match sources p k with
    | None => false
    | Some l =>
        if match nonce with
           | Some ((_ :: _) as n) => list_has_token (Some l) ($"'nonce-" ++ n ++ $"'")
           | _ => false
           end then true
        else if match body with
                | Some ((_ :: _) as b) => existsb (fun s => hash_token_matches s b) l
                | _ => false
                end then true
        else if list_has_token (Some l) ($"'strict-dynamic'") then false
        else if list_has_nonce_or_hash (Some l) then false
        else list_has_token (Some l) ($"'unsafe-inline'")
    end.

Definition ns_csp_inline_script_allowed (csp : option ns_csp) (body nonce : option bytes) : bool :=
  match csp with
  | None => true
  | Some ps => allb (fun p => policy_inline_script_allowed p body nonce) ps
  end.

Definition policy_inline_event_handler_allowed (p : ns_csp_policy) : bool :=
  let k := inline_script_kind p in
  if bool_decide (k = NS_CSP_KIND_COUNT) then true
  else
    match sources p k with
    | None => false
    | Some l =>
        if list_has_token (Some l) ($"'strict-dynamic'") then false
        else if list_has_nonce_or_hash (Some l) then false
        else list_has_token (Some l) ($"'unsafe-inline'")
    end.

Definition ns_csp_inline_event_handler_allowed (csp : option ns_csp) : bool :=
  match csp with
  | None => true
  | Some ps => allb policy_inline_event_handler_allowed ps
  end.

End Csp.

(** ** Lemmas *)

(** *** Parsing *)

(** The kind and the sources of one clause, when it has any text. *)
Definition clause_of {G : GLib} (raw : bytes) : option (ns_csp_kind * list bytes) :=
  match g_strstrip raw with
  | [] => None
  | clause =>
      match g_strsplit_set clause [" "%char; "009"%char] with
      | [] => None
      | name :: toks => Some (directive_kind name, directive_sources toks)
      end
  end.

(** The first clause of a policy for a directive. *)
Definition first_clause {G : GLib} (k : ns_csp_kind) (clauses : list bytes) : option (list bytes) :=
  match List.find (fun e => bool_decide (fst e = k)) (omap clause_of clauses) with
  | Some (_, l) => Some l
  | None => None
  end.

Lemma first_clause_cons {G : GLib} k raw clauses :
  first_clause k (raw :: clauses) =
  match clause_of raw with
  | Some (k', l) => if bool_decide (k' = k) then Some l else first_clause k clauses
  | None => first_clause k clauses
  end.
Proof.
  unfold first_clause. cbn [omap list_omap]. destruct (clause_of raw) as [[k' l]|]; [|done].
  cbn [List.find fst]. by case_bool_decide.
Qed.

(** Every directive that is set has its list, and only those. *)
Definition policy_ok (p : ns_csp_policy) : Prop :=
  forall k, is_set p k = match sources p k with Some _ => true | None => false end.

Lemma policy_clause_spec {G : GLib} p raw k :
  policy_ok p -> k <> NS_CSP_KIND_COUNT ->
  policy_ok (policy_clause p raw) /\
  sources (policy_clause p raw) k =
  match sources p k with
  | Some l => Some l
  | None => first_clause k [raw]
  end.
Proof.
  intros Hp Hk. rewrite first_clause_cons. unfold policy_clause, clause_of.
  destruct (g_strstrip raw) as [|c s]; [split; [done|by destruct (sources p k)]|].
  destruct (g_strsplit_set _ _) as [|name toks]; [split; [done|by destruct (sources p k)]|].
  set (k' := directive_kind name). pose proof (Hp k') as Hk'.
  case_bool_decide as Hc; cbn [orb].
  - split; [done|]. rewrite bool_decide_eq_false_2 by congruence. by destruct (sources p k).
  - destruct (is_set p k') eqn:Hs.
    + split; [done|]. case_bool_decide as E; [subst k; by destruct (sources p k')|by destruct (sources p k)].
    + destruct (sources p k') eqn:Hl; [done|]. split.
      * intros j. cbn. unfold fset. case_decide; [done|apply Hp].
      * cbn. destruct (decide (k = k')) as [E|E].
        -- subst k. by rewrite fset_eq, Hl, bool_decide_eq_true_2.
        -- rewrite fset_ne, bool_decide_eq_false_2 by congruence. by destruct (sources p k).
Qed.

Lemma policy_clauses_spec {G : GLib} clauses p k :
  policy_ok p -> k <> NS_CSP_KIND_COUNT ->
  policy_ok (fold_left policy_clause clauses p) /\
  sources (fold_left policy_clause clauses p) k =
  match sources p k with
  | Some l => Some l
  | None => first_clause k clauses
  end.
Proof.
  intros Hp Hk. revert p Hp. induction clauses as [|raw clauses IH]; intros p Hp; cbn [fold_left].
  - split; [done|]. by destruct (sources p k).
  - destruct (policy_clause_spec p raw k Hp Hk) as [Hp' E].
    destruct (IH _ Hp') as [H1 ->]. split; [done|]. rewrite E, !first_clause_cons.
    destruct (sources p k); [done|]. destruct (clause_of raw) as [[k' l]|]; [|done].
    by case_bool_decide.
Qed.

(** A repeated directive is ignored: in a parsed policy a directive is set
    exactly when some clause names it, and its sources are those of the first
    clause that does. *)
Theorem policy_parse_first_wins (G : GLib) (text : bytes) (k : ns_csp_kind) :
  k <> NS_CSP_KIND_COUNT ->
  sources (policy_parse text) k = first_clause k (g_strsplit text ($";")) /\
  is_set (policy_parse text) k =
    match first_clause k (g_strsplit text ($";")) with Some _ => true | None => false end.
Proof.
  intros Hk. destruct (policy_clauses_spec (g_strsplit text ($";")) policy_new k) as [H1 H2]; [done..|].
  cbn [policy_new sources] in H2. split; [done|]. by rewrite H1, H2.
Qed.

Lemma policy_parse_first_wins_witness :
  sources (policy_parse (G := glib_ref) ($"img-src a.example; script-src 'self'  https://b.example ;img-src *"))
    NS_CSP_IMG = first_clause (G := glib_ref) NS_CSP_IMG
      [$"img-src a.example"; $" script-src 'self'  https://b.example "; $"img-src *"]
  /\ is_set (policy_parse (G := glib_ref) ($"img-src a.example; script-src 'self'  https://b.example ;img-src *"))
    NS_CSP_IMG = true.
Proof.
  apply (policy_parse_first_wins glib_ref
    ($"img-src a.example; script-src 'self'  https://b.example ;img-src *") NS_CSP_IMG). done.
Defined.

(** *** Several policies *)

(** The policies of a header value; none for an absent or empty one. *)
Definition policies {G : GLib} (h : bytes) : list ns_csp_policy :=
  match ns_csp_parse (Some h) with Some ps => ps | None => [] end.

Lemma policies_eq h :
  policies (G := glib_ref) h =
  map (policy_parse (G := glib_ref))
    (List.filter (fun t => negb (length t =? 0)) (map Ref.strip (Ref.split h [","%char]))).
Proof.
  unfold policies, ns_csp_parse. destruct h as [|c h]; [done|].
  change (g_strsplit (c :: h) ($",")) with (Ref.split (c :: h) [","%char]).
  change (g_strstrip (GLib := glib_ref)) with Ref.strip.
  by destruct (map policy_parse _).
Qed.

Lemma policies_comma a b :
  policies (G := glib_ref) (a ++ $"," ++ b) = policies (G := glib_ref) a ++ policies (G := glib_ref) b.
Proof.
  rewrite !policies_eq, <- map_app.
  change ($"," ++ b) with (","%char :: b). f_equal.
  assert (F : forall s, List.filter (fun t => negb (length t =? 0)) (map Ref.strip (Ref.split s [","%char])) =
                        List.filter (fun t => negb (length t =? 0)) (map Ref.strip (Ref.split_go (S (length s)) s [","%char]))).
  { intros [|x s]; [done|done]. }
  rewrite !F. set (n := S (length (a ++ ","%char :: b))).
  rewrite (split_go_app n) by (unfold n; lia). rewrite map_app, List.filter_app.
  f_equal; (do 2 f_equal; apply split_go_fuel; unfold n; rewrite ?length_app; cbn [length]; lia).
Qed.

(** Policies add up: the policies of a header that joins two values with a
    comma are those of the two, and a fetch, an inline script or an event handler
    is allowed under them exactly when each of the two values allows it; merging
    two parsed objects does the same. So a further header can only forbid. *)
Theorem csp_join_conjunction (G : GLib) (GS : GLibSpec G) (L : Lexbor)
    (cs : GChecksumType -> bytes -> bytes) (b64 : bytes -> bytes) (a b : bytes) :
  (forall kind url doc nonce pi,
     ns_csp_allows_with_nonce (ns_csp_parse (Some (a ++ $"," ++ b))) kind url doc nonce pi =
     ns_csp_allows_with_nonce (ns_csp_parse (Some a)) kind url doc nonce pi &&
     ns_csp_allows_with_nonce (ns_csp_parse (Some b)) kind url doc nonce pi) /\
  (forall body nonce,
     ns_csp_inline_script_allowed cs b64 (ns_csp_parse (Some (a ++ $"," ++ b))) body nonce =
     ns_csp_inline_script_allowed cs b64 (ns_csp_parse (Some a)) body nonce &&
     ns_csp_inline_script_allowed cs b64 (ns_csp_parse (Some b)) body nonce) /\
  (forall d s kind url doc nonce pi,
     ns_csp_allows_with_nonce (ns_csp_merge (Some d) (Some s)).1 kind url doc nonce pi =
     ns_csp_allows_with_nonce (Some d) kind url doc nonce pi &&
     ns_csp_allows_with_nonce (Some s) kind url doc nonce pi).
Proof.
  glib.
  assert (A : forall h kind url doc nonce pi,
    ns_csp_allows_with_nonce (G := glib_ref) (ns_csp_parse (Some h)) kind url doc nonce pi =
    ns_csp_allows_with_nonce (Some (policies (G := glib_ref) h)) kind url doc nonce pi).
  { intros h kind url doc nonce pi. unfold policies, ns_csp_allows_with_nonce.
    destruct (ns_csp_parse (Some h)); [done|]. destruct url; [|done]. by case_bool_decide. }
  assert (B : forall h body nonce,
    ns_csp_inline_script_allowed (G := glib_ref) cs b64 (ns_csp_parse (Some h)) body nonce =
    ns_csp_inline_script_allowed cs b64 (Some (policies (G := glib_ref) h)) body nonce).
  { intros h body nonce. unfold policies. by destruct (ns_csp_parse (Some h)). }
  assert (C : forall d s kind url doc nonce pi,
    ns_csp_allows_with_nonce (G := glib_ref) (Some (d ++ s)) kind url doc nonce pi =
    ns_csp_allows_with_nonce (Some d) kind url doc nonce pi &&
    ns_csp_allows_with_nonce (Some s) kind url doc nonce pi).
  { intros. unfold ns_csp_allows_with_nonce. destruct url; [|done].
    case_bool_decide; [done|]. apply allb_app. }
  split; [|split].
  - intros. by rewrite !A, policies_comma.
  - intros. rewrite !B, policies_comma. apply allb_app.
  - intros. apply C.
Qed.

Lemma csp_join_conjunction_witness :
  ns_csp_allows_with_nonce (G := glib_ref) (L := demo_lexbor)
    (ns_csp_parse (G := glib_ref) (Some ($"img-src 'none'" ++ $"," ++ $"script-src *")))
    NS_CSP_SCRIPT (Some ($"https://b.example/")) None None true =
  ns_csp_allows_with_nonce (G := glib_ref) (L := demo_lexbor)
    (ns_csp_parse (G := glib_ref) (Some ($"img-src 'none'"))) NS_CSP_SCRIPT (Some ($"https://b.example/")) None None true &&
  ns_csp_allows_with_nonce (G := glib_ref) (L := demo_lexbor)
    (ns_csp_parse (G := glib_ref) (Some ($"script-src *"))) NS_CSP_SCRIPT (Some ($"https://b.example/")) None None true.
Proof.
  apply (csp_join_conjunction glib_ref glib_ref_spec demo_lexbor (fun _ b => b) (fun b => b)
           ($"img-src 'none'") ($"script-src *")).
Defined.

(** *** Sources *)

(** How long the host part of a host source is. *)
Lemma host_source_len d rest :
  allb (fun c => negb (c =c ":") && negb (c =c "/")) d = true ->
  rest = [] \/ head_is (fun c => (c =c ":") || (c =c "/")) rest = true ->
  let h := d ++ rest in
  (if match strchr h ":", strchr h "/" with
      | Some _, None => true
      | Some _, Some _ => length (before h ":") <? length (before h "/")
      | None, _ => false
      end then length (before h ":") else length (before h "/")) = length d.
Proof.
  intros Hd Hr h.
  assert (F1 : free_of ":" d = true).
  { revert Hd. apply allb_impl. by intros c [? _]%andb_prop. }
  assert (F2 : free_of "/" d = true).
  { revert Hd. apply allb_impl. by intros c [_ ?]%andb_prop. }
  destruct Hr as [->|Hr].
  { subst h. rewrite app_nil_r, strchr_free by done.
    replace d with (d ++ []) at 1 by apply app_nil_r. by rewrite before_stop by auto. }
  destruct rest as [|c rest]; [done|]. cbn in Hr. apply orb_prop in Hr as [E|E]; boolify; subst c.
  - subst h. destruct (strchr_app d ":" rest F1) as [-> ->].
    assert (L : length (d ++ [":"%char]) <= length (before (d ++ ":"%char :: rest) "/")).
    { change (":"%char :: rest) with ([":"%char] ++ rest). rewrite app_assoc.
      apply before_ge. by rewrite free_of_app, F2. }
    rewrite length_app in L. cbn in L. destruct (strchr _ "/"); [|done].
    by rewrite (proj2 (Nat.ltb_lt _ _)) by lia.
  - subst h. destruct (strchr_app d "/" rest F2) as [-> ->].
    assert (L : length (d ++ ["/"%char]) <= length (before (d ++ "/"%char :: rest) ":")).
    { change ("/"%char :: rest) with (["/"%char] ++ rest). rewrite app_assoc.
      apply before_ge. by rewrite free_of_app, F1. }
    rewrite length_app in L. cbn in L. destruct (strchr _ ":"); [|done].
    by rewrite (proj2 (Nat.ltb_ge _ _)) by lia.
Qed.

(** A host source with a wildcard matches proper subdomains only: when an
    expression [*.d], alone or with a port or a path, matches a URL, the URL's
    host is at least one byte, then a dot, then [d] whatever the case. *)
Theorem wildcard_proper_subdomain (G : GLib) (GS : GLibSpec G) (d rest res_scheme : bytes)
    (res : ns_url_parts) :
  allb (fun c => negb (c =c ":") && negb (c =c "/")) d = true ->
  rest = [] \/ head_is (fun c => (c =c ":") || (c =c "/")) rest = true ->
  host_source_matches ($"*." ++ d ++ rest) res res_scheme = true ->
  exists sub dom, hostname res = sub ++ $"." ++ dom /\ sub <> [] /\ map lower dom = map lower d.
Proof.
  glib. intros Hd Hr. unfold host_source_matches.
  rewrite app_assoc, (host_source_len ($"*." ++ d) rest) by done.
  unfold csp_host_matches. rewrite length_app. change (length ($"*.")) with 2.
  rewrite <- app_assoc. change ($"*." ++ d ++ rest) with ("*"%char :: "."%char :: d ++ rest).
  change (strncmp0 ("*"%char :: "."%char :: d ++ rest) ($"*.") 2) with true.
  cbn [Nat.leb andb]. glib_simpl. cbn [drop Nat.sub Nat.add].
  destruct (Nat.ltb_spec (S (length d)) (length (hostname res))) as [Hl|]; [|done].
  cbn [andb]. case_bool_decide as E; [|done]. intros _.
  set (hn := hostname res) in *. set (k := length hn - S (length d)) in *.
  rewrite (take_ge (drop k hn)) in E by (rewrite length_drop; lia).
  change ("."%char :: d ++ rest) with (("."%char :: d) ++ rest) in E.
  rewrite (take_app_length' ("."%char :: d)) in E by done.
  exists (take k hn). destruct (drop k hn) as [|c dom] eqn:D; [done|]. exists dom.
  cbn [map] in E. injection E as Ec Ed.
  assert (c = "."%char) as ->.
  { assert (X : negb (lower c =c lower ".") || (c =c ".") = true) by (clear; by_bytes c).
    rewrite Ec, Ascii.eqb_refl in X. by apply Ascii.eqb_eq in X. }
  split; [|split; [|done]].
  - change ($"." ++ dom) with ("."%char :: dom). by rewrite <- D, take_drop.
  - intros X. apply (f_equal length) in X. rewrite length_take in X. cbn in X. lia.
Qed.

Lemma wildcard_proper_subdomain_witness :
  let res := Build_ns_url_parts [] ($"https:") [] [] ($"www.A.example") [] ($"/x") [] [] [] [] in
  exists sub dom, hostname res = sub ++ $"." ++ dom /\ sub <> [] /\
    map lower dom = map lower ($"a.EXAMPLE").
Proof.
  intros res. apply (wildcard_proper_subdomain glib_ref glib_ref_spec ($"a.EXAMPLE") ($":443/") ($"https:") res);
    [by vm_compute|by right|by vm_compute].
Defined.

(** Under ['strict-dynamic'] the URLs of a script directive count for nothing:
    whether a script may load depends on its nonce and on whether the parser
    inserted it, not on where it comes from. *)
Theorem strict_dynamic_ignores_urls (G : GLib) (L : Lexbor) (p : ns_csp_policy) (eff : ns_csp_kind)
    (l : list bytes) (url1 url2 : bytes) (doc1 doc2 nonce : option bytes) (pi : bool) :
  effective_directive p NS_CSP_SCRIPT = Some eff -> sources p eff = Some l ->
  In ($"'strict-dynamic'") l ->
  policy_allows_with_nonce p NS_CSP_SCRIPT url1 doc1 nonce pi =
    policy_allows_with_nonce p NS_CSP_SCRIPT url2 doc2 nonce pi /\
  policy_allows_with_nonce p NS_CSP_SCRIPT url1 doc1 None true = false /\
  policy_allows_with_nonce p NS_CSP_SCRIPT url1 doc1 nonce false = true.
Proof.
  intros He Hl Hin. unfold policy_allows_with_nonce.
  rewrite bool_decide_eq_false_2 by done. rewrite He, Hl.
  destruct l as [|s0 l0]; [done|]. set (l := s0 :: l0) in *.
  assert (T : list_has_token (Some l) ($"'strict-dynamic'") = true).
  { apply existsb_exists. exists ($"'strict-dynamic'"). split; [done|by apply bool_decide_eq_true]. }
  rewrite T. rewrite bool_decide_eq_true_2 by done. cbn [orb andb].
  assert (I : forall u1 u2 d1 d2 k, sources_allow k true u1 d1 nonce = sources_allow k true u2 d2 nonce).
  { intros u1 u2 d1 d2 k. induction k as [|s k IH]; [done|]. cbn [sources_allow].
    rewrite IH. by destruct nonce. }
  assert (N : forall u d k, sources_allow k true u d None = false).
  { intros u d k. induction k as [|s k IH]; [done|]. cbn [sources_allow]. rewrite IH.
    by destruct (strcmp0 s _). }
  split; [by rewrite (I url1 url2 doc1 doc2)|]. split; [by rewrite N|].
  by destruct (sources_allow _ _ _ _ _).
Qed.

Lemma strict_dynamic_ignores_urls_witness :
  let p := policy_parse (G := glib_ref) ($"script-src 'nonce-abc' 'strict-dynamic' https://cdn.example") in
  let L := demo_lexbor in
  policy_allows_with_nonce (G := glib_ref) p NS_CSP_SCRIPT ($"https://a.example/") None (Some ($"abc")) true =
    policy_allows_with_nonce (G := glib_ref) p NS_CSP_SCRIPT ($"https://b.example/") None (Some ($"abc")) true /\
  policy_allows_with_nonce (G := glib_ref) p NS_CSP_SCRIPT ($"https://a.example/") None None true = false /\
  policy_allows_with_nonce (G := glib_ref) p NS_CSP_SCRIPT ($"https://a.example/") None (Some ($"abc")) false = true.
Proof.
  intros p L.
  apply (strict_dynamic_ignores_urls glib_ref L p NS_CSP_SCRIPT
    [$"'nonce-abc'"; $"'strict-dynamic'"; $"https://cdn.example"] ($"https://a.example/")
    ($"https://b.example/") None None (Some ($"abc")) true);
    [by vm_compute|by vm_compute|right; left; reflexivity].
Defined.

(** Inline event handlers need at least what inline scripts need: a header that
    lets event handlers run lets every inline script run, whatever its text and
    nonce; a nonce or a hash in the list, or ['strict-dynamic'], forbids the
    handlers even next to ['unsafe-inline']. *)
Theorem event_handler_implies_inline (G : GLib) (cs : GChecksumType -> bytes -> bytes)
    (b64 : bytes -> bytes) (csp : option ns_csp) (body nonce : option bytes) :
  ns_csp_inline_event_handler_allowed csp = true ->
  ns_csp_inline_script_allowed cs b64 csp body nonce = true /\
  forall ps p l, csp = Some ps -> In p ps -> inline_script_kind p <> NS_CSP_KIND_COUNT ->
    sources p (inline_script_kind p) = Some l ->
    In ($"'unsafe-inline'") l /\ ~ In ($"'strict-dynamic'") l /\ list_has_nonce_or_hash (Some l) = false.
Proof.
  destruct csp as [ps|]; [|done].
  unfold ns_csp_inline_event_handler_allowed, ns_csp_inline_script_allowed. rewrite forallb_forall.
  intros H.
  assert (X : forall l t, list_has_token (Some l) t = true <-> In t l).
  { intros l t. unfold list_has_token. rewrite existsb_exists. unfold strcmp0. split.
    - intros (x & Hx & E). by apply bool_decide_eq_true in E as <-.
    - intros Hx. exists t. split; [done|by apply bool_decide_eq_true]. }
  split.
  - apply forallb_forall. intros p Hp. specialize (H p Hp).
    unfold policy_inline_event_handler_allowed, policy_inline_script_allowed in *.
    case_bool_decide; [done|]. destruct (sources p _) as [l|]; [|done].
    destruct (list_has_token (Some l) ($"'strict-dynamic'")); [done|].
    destruct (list_has_nonce_or_hash (Some l)); [done|]. rewrite H. by repeat case_match.
  - intros ps' p l [= <-] Hp Hk Hl. specialize (H p Hp).
    unfold policy_inline_event_handler_allowed in H. rewrite bool_decide_eq_false_2, Hl in H by done.
    destruct (list_has_token (Some l) ($"'strict-dynamic'")) eqn:E1; [done|].
    destruct (list_has_nonce_or_hash (Some l)) eqn:E2; [done|].
    repeat split; [by apply X|]. intros I%X. congruence.
Qed.

Lemma event_handler_implies_inline_witness :
  let csp := ns_csp_parse (G := glib_ref) (Some ($"script-src 'unsafe-inline' https:, img-src 'none'")) in
  ns_csp_inline_script_allowed (G := glib_ref) (fun _ b => b) (fun b => b) csp (Some ($"alert(1)")) None = true.
Proof.
  intros csp.
  apply (event_handler_implies_inline glib_ref (fun _ b => b) (fun b => b) csp (Some ($"alert(1)")) None).
  by vm_compute.
Defined.
