(* ===== verification/Cookies.v ===== *)
(** * Cookies for scripts ([src/net.c])

    [document.cookie]: the Netscape-format jars of a site's partition, what a
    page reads from them and what an assignment writes. The file system is a
    finite map from file names to contents; SHA-256 and [curl_getdate] are
    parameters. *)

From S2P Require Import Prelude CStr GLib Config Freenet Url.

Definition is_blank (c : ascii) : bool := (c =c " ") || (c =c "009").
Definition trim_blanks_right (s : bytes) : bytes := rev (drop_while is_blank (rev s)).
Definition trim_blanks (s : bytes) : bytes := trim_blanks_right (drop_while is_blank s).

(** Contents by file name. *)
Abbreviation files := (gmap bytes bytes).

Abbreviation tab_str := (["009"%char]).
Abbreviation nl_str := (["010"%char]).

Section Cookies.
Context {G : GLib} {L : Lexbor} {P : Psl}.
(** [g_compute_checksum_for_string(G_CHECKSUM_SHA256, s, -1)] and
    [curl_getdate(s, NULL)] ([-1]: not a date). *)
Variable sha256_hex : bytes -> bytes.
Variable curl_getdate : bytes -> Z.

Definition partition_name (top_origin : option bytes) : bytes :=
  let key := match top_origin with Some ((_ :: _) as o) => o | _ => $"default" end in
  take 32 (sha256_hex key).
Definition ns_net_cookie_path_for_partition (top_origin : option bytes) : bytes :=
  partition_name top_origin ++ $".txt".
Definition ns_net_cookie_js_path_for_partition (top_origin : option bytes) : bytes :=
  partition_name top_origin ++ $".js.txt".

(** ** Reading *)

Record cookie_line := {
  c_domain : bytes; c_tail : bytes; c_path : bytes; c_secure : bytes;
  c_expiry : bytes; c_name : bytes; c_value : bytes;
}.

(** The seven fields of a line; [None] when there are fewer. *)
Definition cookie_fields (line : bytes) : option cookie_line :=
  match g_strsplit_max line tab_str 7 with
  | d :: t :: p :: s :: e :: n :: v :: _ =>
      Some {| c_domain := d; c_tail := t; c_path := p; c_secure := s;
              c_expiry := e; c_name := n; c_value := v |}
  | _ => None
  end.

Definition domain_matches (host cdomain : bytes) : bool :=
  if head_is (fun c => c =c ".") cdomain then
    let hl := length host in
    let dl := length cdomain in
    ((dl <=? hl) && g_ascii_strcasecmp0 (drop (hl - dl) host) cdomain) ||
    g_ascii_strcasecmp0 host (drop 1 cdomain)
  else g_ascii_strcasecmp0 host cdomain.

Definition path_matches (path cpath : bytes) : bool :=
  match last cpath with
  | None => true
  | Some c =>
      if negb (g_str_has_prefix path cpath) then false
      else match drop (length cpath) path with
           | [] => true
           | d :: _ => (d =c "/") || (c =c "/")
           end
  end.

Definition cookie_visible (host path : bytes) (is_https : bool) (now : Z) (f : cookie_line) : bool :=
  let csecure := g_ascii_strcasecmp0 (c_secure f) ($"TRUE") in
  let cexpiry := g_ascii_strtoll10 (c_expiry f) in
  domain_matches host (c_domain f) && path_matches path (c_path f) &&
  negb (csecure && negb is_https) &&
  negb (negb (cexpiry =? 0)%Z && (cexpiry <? now)%Z).

(** The names in the order they were first seen, and their last values. *)
Record seen := { s_order : list bytes; s_vals : gmap bytes bytes }.

Definition cookie_see (host path : bytes) (is_https : bool) (now : Z) (st : seen) (raw : bytes) : seen :=
  let line := g_strchomp raw in
  match line with
  | [] => st
  | c :: _ =>
      if c =c "#" then st
      else
        match cookie_fields line with
        | None => st
        | Some f =>
            if cookie_visible host path is_https now f && negb (length (c_name f) =? 0) then
              {| s_order := match s_vals st !! c_name f with
                            | Some _ => s_order st
                            | None => s_order st ++ [c_name f]
                            end;
                 s_vals := <[c_name f := c_value f]> (s_vals st) |}
            else st
        end
  end.

Definition jar_lines (fs : files) (fp : bytes) : list bytes :=
  match fs !! fp with
  | None => []
  | Some contents => g_strsplit (cstr_of contents) nl_str
  end.

Definition cookie_text (st : seen) : bytes :=
  fold_left (fun out nm =>
    out ++ (if length out =? 0 then [] else $"; ") ++ nm ++ $"=" ++
    match s_vals st !! nm with Some v => v | None => [] end) (s_order st) [].

Definition url_is_https (p : ns_url_parts) : bool := g_ascii_strcasecmp0 (protocol p) ($"https:").

Definition ns_net_cookies_for_js (fs : files) (now : Z) (url : option bytes) : option bytes :=
  match url with
  | None | Some [] => None
  | Some _ =>
      match ns_url_parts_new url with
      | None => None
      | Some parts =>
          if length (hostname parts) =? 0 then None
          else
            let path := match pathname parts with [] => $"/" | p => p end in
            match ns_url_site_from url with
            | None | Some [] => None
            | Some site =>
                let lines := jar_lines fs (ns_net_cookie_path_for_partition (Some site)) ++
                             jar_lines fs (ns_net_cookie_js_path_for_partition (Some site)) in
                let st := fold_left (cookie_see (hostname parts) path (url_is_https parts) now) lines
                            {| s_order := []; s_vals := ∅ |} in
                match cookie_text st with [] => None | out => Some out end
            end
      end
  end.

(** ** Writing *)

Record cookie_attrs := {
  domain_attr : option bytes; path_attr : option bytes; secure : bool;
  has_expiry : bool; expired : bool; expiry : Z;
}.
Definition no_attrs : cookie_attrs :=
  {| domain_attr := None; path_attr := None; secure := false;
     has_expiry := false; expired := false; expiry := 0 |}.

(** One attribute [tok] of the cookie, trailing blanks removed. *)
Definition cookie_attr (now : Z) (a : cookie_attrs) (tok : bytes) : cookie_attrs :=
  let '(Build_cookie_attrs dom pth sec he ex xp) := a in
  let key := before tok "=" in
  let av := match strchr tok "=" with
            | Some eq => Some (drop_while is_blank (drop 1 eq))
            | None => None
            end in
  let is_key := fun name => (length key =? length name) && g_ascii_strncasecmp0 tok name (length name) in
  if is_key ($"secure") then Build_cookie_attrs dom pth true he ex xp
  else
    match av with
    | None => a
    | Some v =>
        if is_key ($"max-age") then
          let ma := g_ascii_strtoll10 v in
          if negb (bool_decide (g_ascii_strtoll10_end v = v)) then
            Build_cookie_attrs dom pth sec true (ma <=? 0)%Z
              (if (0 <? ma)%Z then wrap_s 64 (now + ma) else xp)
          else a
        else if is_key ($"expires") && negb he then
          let t := curl_getdate v in
          if (t =? -1)%Z then a
          else Build_cookie_attrs dom pth sec true (if (t <=? now)%Z then true else ex) t
        else if is_key ($"domain") then Build_cookie_attrs (Some v) pth sec he ex xp
        else if is_key ($"path") then Build_cookie_attrs dom (Some v) sec he ex xp
        else a
    end.

Fixpoint cookie_attr_loop (fuel : nat) (now : Z) (a : cookie_attrs) (p : bytes) : cookie_attrs :=
  match fuel with
  | O => a
  | S fuel' =>
      match drop_while (fun c => (c =c ";") || is_blank c) p with
      | [] => a
      | p =>
          let a := cookie_attr now a (trim_blanks_right (before p ";")) in
          match strchr p ";" with
          | None => a
          | Some e => cookie_attr_loop fuel' now a (drop 1 e)
          end
      end
  end.

(** The cookie prefixes; [true] when they forbid the cookie. *)
Definition cookie_prefix_refused (name : bytes) (is_https : bool) (a : cookie_attrs) : bool :=
  if (9 <=? length name) && g_ascii_strncasecmp0 name ($"__Secure-") 9 &&
     negb (secure a && is_https) then true
  else
    (7 <=? length name) && g_ascii_strncasecmp0 name ($"__Host-") 7 &&
    (negb (secure a) || negb is_https ||
     match domain_attr a with Some (_ :: _) => true | _ => false end ||
     match path_attr a with Some ((_ :: _) as p) => negb (strcmp0 p ($"/")) | _ => false end).

(** The domain and tail fields of the line; [None]: the [Domain] is refused. *)
Definition cookie_file_domain (host : bytes) (a : cookie_attrs) : option (bytes * bytes) :=
  match domain_attr a with
  | Some ((_ :: _) as attr) =>
      let d := if head_is (fun c => c =c ".") attr then drop 1 attr else attr in
      let dl := length d in
      let hl := length host in
      let ok := g_ascii_strcasecmp0 host d ||
                ((dl <? hl) &&
                 match nth_error host (hl - dl - 1) with Some c => c =c "." | None => false end &&
                 g_ascii_strcasecmp0 (drop (hl - dl) host) d) in
      if negb ok || (dl =? 0) then None
      else if psl_builtin && psl_is_public_suffix (g_ascii_strdown d) then None
      else Some ($"." ++ d, $"TRUE")
  | _ => Some (host, $"FALSE")
  end.

(** [strrchr(s, '/') - s]: the bytes before the last slash. *)
Definition before_last_slash (s : bytes) : option bytes :=
  match strchr (rev s) "/" with
  | Some r => Some (rev (drop 1 r))
  | None => None
  end.

Definition cookie_file_path (request_path : bytes) (a : cookie_attrs) : bytes :=
  match path_attr a with
  | Some ((c :: _) as p) =>
      if c =c "/" then p
      else match before_last_slash request_path with None | Some [] => $"/" | Some d => d end
  | _ => match before_last_slash request_path with None | Some [] => $"/" | Some d => d end
  end.

(** What the rewriting of the file keeps of a line, and whether it is an
    [HttpOnly] cookie of the same name. *)
Definition same_cookie (f : cookie_line) (file_domain path name : bytes) : bool :=
  g_ascii_strcasecmp0 (c_domain f) file_domain && strcmp0 (c_path f) path && strcmp0 (c_name f) name.

Definition keep_line (now : Z) (file_domain path name : bytes) (acc : bytes * bool) (line : bytes)
    : bytes * bool :=
  let '(out, blocked) := acc in
  match line with
  | [] => acc
  | c :: _ =>
      if c =c "#" then
        let blocked' :=
          g_str_has_prefix line ($"#HttpOnly_") &&
          match cookie_fields (drop 10 line) with
          | Some f => same_cookie f file_domain path name
          | None => false
          end in
        (out ++ line ++ nl_str, blocked || blocked')
      else
        match cookie_fields line with
        | None => acc
        | Some f =>
            let cexp := g_ascii_strtoll10 (c_expiry f) in
            let dead := negb (cexp =? 0)%Z && (cexp <? now)%Z in
            if negb (same_cookie f file_domain path name) && negb dead
            then (out ++ line ++ nl_str, blocked) else acc
        end
  end.

Definition cookie_file_line (file_domain tail path : bytes) (sec : bool) (expiry : Z)
    (name value : bytes) : bytes :=
  file_domain ++ tab_str ++ tail ++ tab_str ++ path ++ tab_str ++
  (if sec then $"TRUE" else $"FALSE") ++ tab_str ++ print_d expiry ++ tab_str ++
  name ++ tab_str ++ value.

(** The name, the value and the rest of a cookie string; [None]: there is no
    name. *)
Definition cookie_pair (cookie : bytes) : option (bytes * bytes * option bytes) :=
  let semi := strchr cookie ";" in
  let pair := before cookie ";" in
  match strchr pair "=" with
  | None => None
  | Some eq =>
      if length (before pair "=") =? 0 then None
      else
        match trim_blanks (before pair "=") with
        | [] => None
        | name => Some (name, trim_blanks (drop 1 eq), semi)
        end
  end.

(** What an assignment writes: the line's fields, or nothing. *)
Record cookie_write := {
  w_file : bytes; w_domain : bytes; w_tail : bytes; w_path : bytes;
  w_attrs : cookie_attrs; w_name : bytes; w_value : bytes;
}.

Definition cookie_accept (now : Z) (url cookie : option bytes) : option cookie_write :=
  match url, cookie with
  | Some ((_ :: _) as u), Some c =>
      if negb (ns_url_is_http_or_https url) then None
      else if existsb (fun c => (code c <? 32)%Z) c then None
      else
        match ns_url_parts_new url with
        | None => None
        | Some parts =>
            if length (hostname parts) =? 0 then None
            else
              match cookie_pair c with
              | None => None
              | Some (name, value, semi) =>
                  let a := match semi with
                           | Some s => cookie_attr_loop (S (length s)) now no_attrs s
                           | None => no_attrs
                           end in
                  let is_https := url_is_https parts in
                  if secure a && negb is_https then None
                  else if cookie_prefix_refused name is_https a then None
                  else
                    match cookie_file_domain (hostname parts) a with
                    | None => None
                    | Some (file_domain, tail) =>
                        match ns_url_site_from url with
                        | None | Some [] => None
                        | Some site =>
                            Some {| w_file := ns_net_cookie_js_path_for_partition (Some site);
                                    w_domain := file_domain; w_tail := tail;
                                    w_path := cookie_file_path (pathname parts) a;
                                    w_attrs := a; w_name := name; w_value := value |}
                        end
                    end
              end
        end
  | _, _ => None
  end.

Definition cookie_rewrite (now : Z) (contents : list bytes) (w : cookie_write) : bytes :=
  let '(out, blocked_httponly) :=
    fold_left (keep_line now (w_domain w) (w_path w) (w_name w)) contents ([], false) in
  if negb (expired (w_attrs w)) && negb blocked_httponly
  then out ++ cookie_file_line (w_domain w) (w_tail w) (w_path w) (secure (w_attrs w))
                (expiry (w_attrs w)) (w_name w) (w_value w) ++ nl_str
  else out.

(** [write_ok]: whether [g_file_set_contents] succeeds. *)
Definition ns_net_cookie_store_from_js (fs : files) (now : Z) (write_ok : bool)
    (url cookie : option bytes) : files :=
  match cookie_accept now url cookie with
  | None => fs
  | Some w =>
      let out := cookie_rewrite now (jar_lines fs (w_file w)) w in
      if write_ok then <[w_file w := out]> fs else fs
  end.

End Cookies.

(** ** Lemmas *)

(** No byte below the space: what the writer lets through. *)
Definition no_control (s : bytes) : bool := allb (fun c => negb (code c <? 32)%Z) s.

Lemma no_control_free c s : (code c < 32)%Z -> no_control s = true -> free_of c s = true.
Proof.
  intros Hc. apply allb_impl. intros d H. boolify. apply negb_true_iff, Ascii.eqb_neq.
  intros ->. lia.
Qed.

Lemma no_control_app a b : no_control (a ++ b) = no_control a && no_control b.
Proof. apply forallb_app. Qed.

Lemma no_control_sub a b k : no_control (a ++ b ++ k) = true -> no_control b = true.
Proof. rewrite !no_control_app. intros H. by boolify. Qed.

Lemma allb_drop_while {A} (f g : A -> bool) l : allb f l = true -> allb f (drop_while g l) = true.
Proof. induction l as [|x l IH]; cbn; [done|]. intros H. boolify. destruct (g x); cbn; [auto|by rewrite H]. Qed.

Lemma allb_rev {A} (f : A -> bool) l : allb f l = true -> allb f (rev l) = true.
Proof.
  rewrite !forallb_forall. intros H x Hx. apply H. by apply in_rev.
Qed.

Lemma allb_take_while {A} (f g : A -> bool) l : allb f l = true -> allb f (take_while g l) = true.
Proof. induction l as [|x l IH]; cbn; [done|]. intros H. boolify. destruct (g x); cbn; [|done]. by rewrite H, IH. Qed.

(** *** What a page sees *)

Section Seen.
Context (host path : bytes) (https : bool) (now : Z) (lines : list bytes).

(** The name and value come from a line of the jars the page may see. *)
Definition from_line (name value : bytes) : Prop :=
  exists raw f, In raw lines /\ head_is (fun c => c =c "#") (Ref.strip_trailing raw) = false /\
    cookie_fields (G := glib_ref) (Ref.strip_trailing raw) = Some f /\
    c_name f = name /\ c_value f = value /\ cookie_visible (G := glib_ref) host path https now f = true.

Definition seen_ok (st : seen) : Prop :=
  NoDup (s_order st) /\
  (forall nm, nm ∈ s_order st <-> is_Some (s_vals st !! nm)) /\
  (forall nm v, s_vals st !! nm = Some v -> nm <> [] /\ from_line nm v).

Lemma cookie_see_ok st raw :
  In raw lines -> seen_ok st -> seen_ok (cookie_see (G := glib_ref) host path https now st raw).
Proof.
  intros Hin (Hn & Hd & Hv). unfold cookie_see.
  change (g_strchomp raw) with (Ref.strip_trailing raw).
  destruct (Ref.strip_trailing raw) as [|c l] eqn:E; [done|].
  destruct (c =c "#") eqn:Ec; [done|].
  destruct (cookie_fields (c :: l)) as [f|] eqn:Ef; [|done].
  destruct (cookie_visible host path https now f) eqn:Hvis; [|done].
  destruct (c_name f) as [|x nm] eqn:En; [done|]. cbn [length Nat.eqb negb andb].
  set (name := x :: nm) in *. split; [|split]; cbn [s_order s_vals].
  - destruct (s_vals st !! name) eqn:El; [done|]. apply NoDup_app. split; [done|]. split.
    + intros y Hy. rewrite list_elem_of_singleton. intros ->. apply Hd in Hy as [? ?]. congruence.
    + apply NoDup_singleton.
  - intros k. rewrite lookup_insert_is_Some. destruct (s_vals st !! name) as [w|] eqn:El.
    + rewrite Hd. split; [destruct (decide (name = k)); auto|]. intros [<-|[_ ?]]; [by eexists|done].
    + rewrite elem_of_app, list_elem_of_singleton, Hd. split.
      * intros [H| ->]; [|by left]. destruct (decide (name = k)); auto.
      * intros [<-|[? ?]]; auto.
  - intros k v. rewrite lookup_insert_Some. intros [[<- <-]|[_ H]]; [|by apply Hv].
    split; [done|]. exists raw, f. rewrite E. cbn [head_is]. done.
Qed.

Lemma cookies_see_ok ls st :
  incl ls lines -> seen_ok st -> seen_ok (fold_left (cookie_see (G := glib_ref) host path https now) ls st).
Proof.
  revert st. induction ls as [|raw ls IH]; intros st Hi H; [done|]. cbn [fold_left].
  apply IH; [intros x Hx; apply Hi; by right|]. apply cookie_see_ok; [apply Hi; by left|done].
Qed.

Lemma seen_ok_nil : seen_ok {| s_order := []; s_vals := ∅ |}.
Proof.
  split; [apply NoDup_nil_2|]. split; cbn [s_order s_vals].
  - intros nm. rewrite lookup_empty. split; [intros E; inversion E|by intros [? ?]].
  - intros nm v E. by rewrite lookup_empty in E.
Qed.
End Seen.

Definition cookie_pairs (st : seen) : list (bytes * bytes) :=
  map (fun nm => (nm, match s_vals st !! nm with Some v => v | None => [] end)) (s_order st).
Definition pair_text (p : bytes * bytes) : bytes := fst p ++ $"=" ++ snd p.

Lemma cookie_text_eq st :
  cookie_text st = Ref.join ($"; ") (map pair_text (cookie_pairs st)).
Proof.
  unfold cookie_text, cookie_pairs. rewrite map_map.
  set (txt := fun nm => nm ++ $"=" ++ match s_vals st !! nm with Some v => v | None => [] end).
  change (map _ (s_order st)) with (map txt (s_order st)).
  set (step := fun out nm => _).
  assert (Hne : forall nm, txt nm <> []) by (intros nm; unfold txt; by destruct nm).
  assert (Hstep : forall out nm, step out nm = out ++ (if length out =? 0 then [] else $"; ") ++ txt nm) by done.
  assert (X : forall l out, out <> [] -> fold_left step l out = Ref.join ($"; ") (out :: map txt l)).
  { induction l as [|nm l IH]; intros out Ho; [done|]. cbn [fold_left map]. rewrite IH, Hstep.
    - destruct out as [|c out]; [done|]. cbn [length Nat.eqb].
      destruct (map txt l) as [|t ts]; [done|].
      change (Ref.join ($"; ") (?a :: t :: ts)) with (a ++ $"; " ++ Ref.join ($"; ") (t :: ts)).
      change (Ref.join ($"; ") (?a :: ?b :: t :: ts)) with (a ++ $"; " ++ b ++ $"; " ++ Ref.join ($"; ") (t :: ts)).
      by rewrite <- !app_assoc.
    - rewrite Hstep. by destruct out. }
  destruct (s_order st) as [|nm l]; [done|]. cbn [fold_left map].
  change (step [] nm) with (txt nm). by apply X.
Qed.

(** What [document.cookie] shows: the result lists distinct names, each with the
    value of a line of the site's two jars that the page may see - the domain and
    the path match, a secure cookie only over HTTPS, none that has expired - and
    no line marked [#HttpOnly_]. *)
Theorem cookies_for_js_sound (G : GLib) (GS : GLibSpec G) (L : Lexbor) (P : Psl)
    (sha : bytes -> bytes) (fs : files) (now : Z) (url out : bytes) :
  ns_net_cookies_for_js sha fs now (Some url) = Some out ->
  exists parts site l,
    ns_url_parts_new (Some url) = Some parts /\ ns_url_site_from (Some url) = Some site /\
    out = Ref.join ($"; ") (map pair_text l) /\ NoDup (map fst l) /\
    Forall (fun nv => from_line (hostname parts) (match pathname parts with [] => $"/" | p => p end)
       (url_is_https parts) now
       (jar_lines fs (ns_net_cookie_path_for_partition sha (Some site)) ++
        jar_lines fs (ns_net_cookie_js_path_for_partition sha (Some site)))
       (fst nv) (snd nv)) l.
Proof.
  glib. unfold ns_net_cookies_for_js. destruct url as [|u url]; [done|].
  destruct (ns_url_parts_new _) as [parts|]; [|done]. destruct (length (hostname parts) =? 0); [done|].
  destruct (ns_url_site_from _) as [[|x site]|]; [done| |done].
  set (lines := jar_lines fs (ns_net_cookie_path_for_partition sha (Some (x :: site))) ++ _).
  set (st := fold_left _ _ _). intros H.
  assert (Hok : seen_ok (hostname parts) (match pathname parts with [] => $"/" | p => p end)
                  (url_is_https parts) now lines st).
  { apply cookies_see_ok; [apply incl_refl|apply seen_ok_nil]. }
  destruct Hok as (Hn & Hd & Hv).
  exists parts, (x :: site), (cookie_pairs st). split; [done|]. split; [done|]. split; [|split].
  - rewrite <- cookie_text_eq. destruct (cookie_text st); [done|]. by apply (inj Some) in H.
  - unfold cookie_pairs. rewrite map_map. cbn [fst]. by rewrite map_id.
  - unfold cookie_pairs. apply List.Forall_forall. intros nv Hin.
    apply in_map_iff in Hin as (nm & <- & Hin). cbn [fst snd].
    apply list_elem_of_In, Hd in Hin as [v Hnm]. rewrite Hnm. by apply Hv.
Qed.

Definition demo_psl : Psl :=
  {| psl_builtin := true; psl_registrable_domain _ := None;
     psl_is_public_suffix s := s =b $"example" |}.

(** A jar of the site of the examples with a shared, a secure and an [HttpOnly]
    cookie. *)
Definition demo_jar : files :=
  {[ $"https:://a.example.txt" :=
     $"a.example" ++ tab_str ++ $"FALSE" ++ tab_str ++ $"/" ++ tab_str ++ $"FALSE" ++ tab_str ++ $"0" ++
     tab_str ++ $"id" ++ tab_str ++ $"7" ++ nl_str ++
     $"#HttpOnly_a.example" ++ tab_str ++ $"FALSE" ++ tab_str ++ $"/" ++ tab_str ++ $"TRUE" ++ tab_str ++
     $"0" ++ tab_str ++ $"sid" ++ tab_str ++ $"secret" ++ nl_str ]}.

Lemma cookies_for_js_sound_witness :
  exists parts site l,
    ns_url_parts_new (L := demo_lexbor) (Some ($"https://a.example/app/page")) = Some parts /\
    ns_url_site_from (G := glib_ref) (L := demo_lexbor) (P := demo_psl)
      (Some ($"https://a.example/app/page")) = Some site /\
    $"id=7" = Ref.join ($"; ") (map pair_text l) /\ NoDup (map fst l).
Proof.
  destruct (cookies_for_js_sound glib_ref glib_ref_spec demo_lexbor demo_psl (fun s => s)
    demo_jar 1000 ($"https://a.example/app/page") ($"id=7")) as (parts & site & l & H1 & H2 & H3 & H4 & _).
  - vm_compute. reflexivity.
  - exists parts, site, l. auto.
Defined.

(** *** What a page may write *)

(** A [Domain] attribute that the host belongs to and that is no public suffix. *)
Definition domain_allowed (P : Psl) (host d : bytes) : Prop :=
  d <> [] /\ (psl_builtin = true -> psl_is_public_suffix (map lower d) = false) /\
  (map lower host = map lower d \/
   exists pre dom, host = pre ++ $"." ++ dom /\ map lower dom = map lower d).

(** The domain of the line, and whether subdomains share the cookie. *)
Definition domain_of (P : Psl) (a : cookie_attrs) (host dom tail : bytes) : Prop :=
  ((domain_attr a = None \/ domain_attr a = Some []) /\ dom = host /\ tail = $"FALSE") \/
  (exists d, (domain_attr a = Some ($"." ++ d) \/
              (domain_attr a = Some d /\ head_is (fun c => c =c ".") d = false)) /\
     dom = $"." ++ d /\ tail = $"TRUE" /\ domain_allowed P host d).

Lemma same_or_below (host d : bytes) :
  (g_ascii_strcasecmp0 (GLib := glib_ref) host d ||
   ((length d <? length host) &&
    match nth_error host (length host - length d - 1) with Some c => c =c "." | None => false end &&
    g_ascii_strcasecmp0 (GLib := glib_ref) (drop (length host - length d) host) d)) = true ->
  map lower host = map lower d \/ exists pre dom, host = pre ++ $"." ++ dom /\ map lower dom = map lower d.
Proof.
  intros [H|H]%orb_prop; [left; cbn in H; by boolify|].
  apply andb_prop in H as [H H3]. apply andb_prop in H as [H1 H2]. boolify.
  right. exists (take (length host - length d - 1) host), (drop (length host - length d) host).
  cbn [g_ascii_strcasecmp0 glib_ref] in H3. boolify. split; [|done].
  destruct (nth_error host _) as [z|] eqn:Ez; [|done]. boolify. subst z.
  apply nth_error_split in Ez as (l1 & l2 & E & El). rewrite <- El.
  assert (L : length d = length l2).
  { apply (f_equal length) in E. rewrite length_app in E. cbn [length] in *. lia. }
  rewrite E. rewrite take_app_length. f_equal.
  replace (length (l1 ++ "."%char :: l2) - length d) with (length (l1 ++ ["."%char])).
  2:{ rewrite !length_app. cbn [length] in *. lia. }
  change ("."%char :: l2) with (["."%char] ++ l2). by rewrite app_assoc, drop_app_length.
Qed.

Lemma cookie_file_domain_spec (P : Psl) host a dom tail :
  cookie_file_domain (G := glib_ref) host a = Some (dom, tail) -> domain_of P a host dom tail.
Proof.
  unfold cookie_file_domain. destruct (domain_attr a) as [[|c attr]|] eqn:Ea;
    [intros [= <- <-]; left; auto| |intros [= <- <-]; left; auto].
  set (d := if head_is _ _ then _ else _). cbv zeta.
  match goal with |- context [negb ?b || _] => destruct b eqn:Hok; [|done] end.
  cbn [negb orb]. destruct (length d =? 0) eqn:Hl; [done|]. destruct (psl_builtin && _) eqn:Hp; [done|].
  intros E. apply (inj Some) in E. injection E as <- <-. right. exists d. split.
  - subst d. cbn [head_is]. destruct (Ascii.eqb_spec c ".") as [-> |N].
    + left. rewrite Ea. cbn [drop]. by rewrite drop_0.
    + right. split; [done|]. cbn [head_is]. by apply Ascii.eqb_neq.
  - split; [done|]. split; [done|]. split; [by destruct d|]. split; [|by apply same_or_below].
    intros Hb. rewrite Hb in Hp. exact Hp.
Qed.

Definition host_prefix (name : bytes) : bool := g_ascii_strncasecmp0 (GLib := glib_ref) name ($"__Host-") 7.
Definition secure_prefix (name : bytes) : bool := g_ascii_strncasecmp0 (GLib := glib_ref) name ($"__Secure-") 9.

Lemma prefix_length (name p : bytes) :
  g_ascii_strncasecmp0 (GLib := glib_ref) name p (length p) = true -> length p <= length name.
Proof.
  cbn. case_bool_decide as E; [|done]. intros _. apply (f_equal length) in E.
  rewrite !length_map, !length_take in E. lia.
Qed.

(** The directory of a page's path: what is before its last slash, the root when
    that is nothing or there is no slash. *)
Definition directory_of (page d : bytes) : Prop :=
  (d <> [] /\ exists r, page = d ++ $"/" ++ r /\ free_of "/" r = true) \/
  (d = $"/" /\ forall a r, page = a ++ $"/" ++ r -> free_of "/" r = true -> a = []).

Lemma slash_not_free a r : free_of "/" (a ++ $"/" ++ r) = false.
Proof. rewrite free_of_app. change (free_of "/" ($"/" ++ r)) with false. by rewrite andb_false_r. Qed.

Lemma before_last_slash_spec (page : bytes) :
  directory_of page (match before_last_slash page with None | Some [] => $"/" | Some d => d end).
Proof.
  unfold before_last_slash. destruct (strchr (rev page) "/") as [r|] eqn:E.
  - apply strchr_Some in E as (t & -> & E). cbn [drop]. rewrite drop_0.
    apply (f_equal (@rev ascii)) in E. rewrite rev_involutive, rev_app_distr in E. cbn [rev] in E. rewrite <- app_assoc in E.
    assert (F : free_of "/" (rev (before (rev page) "/")) = true) by (apply allb_rev; apply take_while_forall).
    destruct (rev t) as [|x d] eqn:Et; [|left; split; [done|]; eexists; by split].
    right. split; [done|]. intros [|y a] k H Hk; [done|]. rewrite E in H.
    injection H as <- H. rewrite H, free_of_app in F. cbn in F. by rewrite andb_false_r in F.
  - right. split; [done|]. intros a k -> _. apply strchr_None in E. exfalso.
    assert (X : free_of "/" (rev (a ++ $"/" ++ k)) = true) by (rewrite <- E; apply take_while_forall).
    apply allb_rev in X. rewrite rev_involutive in X. change (free_of "/" (a ++ $"/" ++ k) = true) in X. by rewrite slash_not_free in X.
Qed.

(** The path of the line: the [Path] attribute when it begins with a slash, and the
    page's directory otherwise. *)
Definition path_of (a : cookie_attrs) (page p : bytes) : Prop :=
  (path_attr a = Some p /\ exists r, p = $"/" ++ r) \/
  ((forall r, path_attr a <> Some ($"/" ++ r)) /\ directory_of page p).

Lemma cookie_file_path_spec a page : path_of a page (cookie_file_path page a).
Proof.
  unfold cookie_file_path. pose proof (before_last_slash_spec page) as D. unfold path_of.
  destruct (path_attr a) as [[|c p]|]; [right; by split| |right; by split].
  destruct (Ascii.eqb_spec c "/") as [-> |N]; [left; split; [done|]; by exists p|].
  right. split; [|done]. intros r [= -> _]. done.
Qed.

(** What the two prefixes of a name promise about the cookie. *)
Definition prefix_rules (name : bytes) (a : cookie_attrs) (https : bool) : Prop :=
  (secure_prefix name = true -> secure a = true /\ https = true) /\
  (host_prefix name = true ->
     secure a = true /\ https = true /\
     (domain_attr a = None \/ domain_attr a = Some []) /\
     (path_attr a = None \/ path_attr a = Some [] \/ path_attr a = Some ($"/"))).

Lemma cookie_prefix_refused_spec name https a :
  cookie_prefix_refused (G := glib_ref) name https a = false -> prefix_rules name a https.
Proof.
  unfold cookie_prefix_refused. set (c1 := (9 <=? length name) && g_ascii_strncasecmp0 name ($"__Secure-") 9 && _).
  destruct c1 eqn:Hc1; [done|]. unfold c1 in Hc1. clear c1. intros Hp. split; intros H.
  - pose proof (prefix_length name ($"__Secure-") H) as Hl. unfold secure_prefix in H.
    rewrite H, (proj2 (Nat.leb_le _ _)) in Hc1 by exact Hl. cbn [andb] in Hc1. by destruct (secure a), https.
  - pose proof (prefix_length name ($"__Host-") H) as Hl. unfold host_prefix in H.
    rewrite H, (proj2 (Nat.leb_le _ _)) in Hp by exact Hl. cbn [andb] in Hp.
    apply orb_false_elim in Hp as [Hp Hpath]. apply orb_false_elim in Hp as [Hp Hdom]. apply orb_false_elim in Hp as [Hs Hh].
    split; [by destruct (secure a)|]. split; [by destruct https|].
    split; [destruct (domain_attr a) as [[|? ?]|]; auto; done|].
    destruct (path_attr a) as [[|c p]|]; auto. right. right. f_equal. apply negb_false_iff in Hpath.
    unfold strcmp0 in Hpath. by boolify.
Qed.

(** Where the name and the value stand in the assigned text: around the first equals
    sign, before the first semicolon, without the blanks around them. *)
Definition assigned (cookie name value : bytes) : Prop :=
  exists b1 b2 b3 b4 rest,
    cookie = (b1 ++ name ++ b2) ++ $"=" ++ (b3 ++ value ++ b4) ++ rest /\
    allb is_blank (b1 ++ b2 ++ b3 ++ b4) = true /\
    free_of "=" (b1 ++ name ++ b2) = true /\ free_of ";" (b1 ++ name ++ b2) = true /\
    free_of ";" (b3 ++ value ++ b4) = true /\ stops (fun c => negb (c =c ";")) rest /\
    stops is_blank name /\ stops is_blank (rev name) /\ stops is_blank value /\ stops is_blank (rev value) /\
    name <> [].

Lemma trim_blanks_spec s :
  exists b1 b2, s = b1 ++ trim_blanks s ++ b2 /\ allb is_blank b1 = true /\ allb is_blank b2 = true /\
    stops is_blank (trim_blanks s) /\ stops is_blank (rev (trim_blanks s)).
Proof.
  unfold trim_blanks, trim_blanks_right. set (t := drop_while is_blank s).
  pose proof (drop_while_stops is_blank s) as St. fold t in St.
  pose proof (take_drop_while is_blank (rev t)) as E. pose proof (drop_while_stops is_blank (rev t)) as Sr.
  set (u := drop_while is_blank (rev t)) in *. apply (f_equal (@rev ascii)) in E.
  rewrite rev_app_distr, rev_involutive in E.
  exists (take_while is_blank s), (rev (take_while is_blank (rev t))). rewrite rev_involutive.
  split; [rewrite E; symmetry; apply take_drop_while|].
  split; [apply take_while_forall|]. split; [apply allb_rev, take_while_forall|]. split; [|done].
  destruct (rev u) as [|x k]; [done|]. rewrite <- E in St. exact St.
Qed.

Lemma cookie_pair_spec cookie name value semi :
  cookie_pair cookie = Some (name, value, semi) -> assigned cookie name value /\ semi = strchr cookie ";".
Proof.
  unfold cookie_pair. set (pair := before cookie ";"). destruct (strchr pair "=") as [eq|] eqn:Eq; [|done].
  destruct (_ =? 0); [done|]. apply strchr_Some in Eq as (t & -> & Ep). cbn [drop].
  destruct (trim_blanks_spec (before pair "=")) as (b1 & b2 & E1 & B1 & B2 & S1 & S2).
  destruct (trim_blanks_spec t) as (b3 & b4 & E2 & B3 & B4 & S3 & S4). rewrite drop_0.
  destruct (trim_blanks (before pair "=")) as [|n0 nm] eqn:En; [done|]. set (n := n0 :: nm) in *.
  intros [= <- <- <-]. split; [|done]. exists b1, b2, b3, b4, (drop_while (fun d => negb (d =c ";")) cookie).
  rewrite <- E1, <- E2.
  assert (F : free_of ";" pair = true) by apply take_while_forall. rewrite Ep in F. rewrite free_of_app in F.
  apply andb_prop in F as [F1 F2]. cbn in F2.
  assert (Ec : cookie = pair ++ drop_while (fun d => negb (d =c ";")) cookie) by (symmetry; apply take_drop_while).
  split; [rewrite Ec at 1; rewrite Ep at 1; by rewrite <- app_assoc|].
  split; [by rewrite !forallb_app, B1, B2, B3, B4|]. split; [apply take_while_forall|].
  split; [done|]. split; [done|]. split; [apply drop_while_stops|]. done.
Qed.

(** The guards an accepted assignment has passed. *)
Lemma cookie_accept_spec (L : Lexbor) (P : Psl) sha getdate now (url cookie : bytes) w :
  cookie_accept (G := glib_ref) sha getdate now (Some url) (Some cookie) = Some w ->
  exists parts site,
    ns_url_parts_new (Some url) = Some parts /\ ns_url_site_from (Some url) = Some site /\ site <> [] /\
    w_file w = ns_net_cookie_js_path_for_partition sha (Some site) /\
    ns_url_is_http_or_https (Some url) = true /\ no_control cookie = true /\
    assigned cookie (w_name w) (w_value w) /\
    w_attrs w = match strchr cookie ";" with
                | Some k => cookie_attr_loop getdate (S (length k)) now no_attrs k
                | None => no_attrs
                end /\
    (secure (w_attrs w) = true -> url_is_https parts = true) /\
    prefix_rules (w_name w) (w_attrs w) (url_is_https parts) /\
    domain_of P (w_attrs w) (hostname parts) (w_domain w) (w_tail w) /\
    path_of (w_attrs w) (pathname parts) (w_path w).
Proof.
  unfold cookie_accept. destruct url as [|u0 url]; [done|]. set (ur := u0 :: url) in *. intros E.
  destruct (ns_url_is_http_or_https (Some ur)) eqn:Hh; [|done]. cbn [negb] in E.
  destruct (existsb _ cookie) eqn:Hc; [done|]. destruct (ns_url_parts_new (Some ur)) as [parts|]; [|done].
  destruct (length (hostname parts) =? 0); [done|].
  destruct (cookie_pair cookie) as [[[name value] semi]|] eqn:Ec; [|done].
  apply cookie_pair_spec in Ec as [As ->].
  set (a := match strchr cookie ";" with Some s => _ | None => _ end) in E.
  destruct (secure a && negb (url_is_https parts)) eqn:Hs; [done|].
  destruct (cookie_prefix_refused name (url_is_https parts) a) eqn:Hp; [done|].
  destruct (cookie_file_domain (hostname parts) a) as [[dom tail]|] eqn:Hd; [|done].
  destruct (ns_url_site_from (Some ur)) as [[|s0 site]|]; [done| |done].
  apply (inj Some) in E. subst w. exists parts, (s0 :: site). cbn [w_file w_attrs w_name w_value w_domain w_tail w_path].
  do 5 (split; [done|]). split.
  { unfold no_control. apply forallb_forall. intros c Hin. apply negb_true_iff.
    destruct (code c <? 32)%Z eqn:X; [|done]. rewrite <- not_true_iff_false in Hc. exfalso. apply Hc, existsb_exists. eauto. }
  split; [done|]. split; [done|]. split; [intros X; rewrite X in Hs; by destruct (url_is_https parts)|].
  split; [by apply cookie_prefix_refused_spec|]. split; [by apply cookie_file_domain_spec|apply cookie_file_path_spec].
Qed.

(** *** The file that is written *)

Definition lines_text (ls : list bytes) : bytes := concat (map (fun l => l ++ nl_str) ls).

(** A line that the writing leaves alone: a comment or [HttpOnly] line, or a line of
    seven fields that is another cookie's and has not expired. *)
Definition stays (now : Z) (w : cookie_write) (l : bytes) : Prop :=
  (exists r, l = $"#" ++ r) \/
  (l <> [] /\ exists f, cookie_fields (G := glib_ref) l = Some f /\
     same_cookie (G := glib_ref) f (w_domain w) (w_path w) (w_name w) = false /\
     (g_ascii_strtoll10 (GLib := glib_ref) (c_expiry f) = 0 \/ now <= g_ascii_strtoll10 (GLib := glib_ref) (c_expiry f))%Z).

(** The [HttpOnly] cookie of the same name, domain and path, which a script may not
    replace. *)
Definition guards (w : cookie_write) (l : bytes) : Prop :=
  exists r f, l = $"#HttpOnly_" ++ r /\ cookie_fields (G := glib_ref) r = Some f /\
    same_cookie (G := glib_ref) f (w_domain w) (w_path w) (w_name w) = true.

(** [ls] without the lines that do not stay. *)
Inductive kept (keep : bytes -> Prop) : list bytes -> list bytes -> Prop :=
| kept_nil : kept keep [] []
| kept_stays l ls k : keep l -> kept keep ls k -> kept keep (l :: ls) (l :: k)
| kept_goes l ls k : ~ keep l -> kept keep ls k -> kept keep (l :: ls) k.

Lemma keep_line_spec now w out blocked l :
  let '(out', blocked') := keep_line (G := glib_ref) now (w_domain w) (w_path w) (w_name w) (out, blocked) l in
  ((stays now w l /\ out' = out ++ l ++ nl_str) \/ (~ stays now w l /\ out' = out)) /\
  (blocked' = true <-> blocked = true \/ guards w l).
Proof.
  unfold keep_line. destruct l as [|c l].
  { split; [right; split; [|done]; intros [[r Hr]|[Hl _]]; done|]. split; [by left|intros [?|(r & f & Hr & _)]; done]. }
  destruct (Ascii.eqb_spec c "#") as [-> |N].
  - split; [left; split; [left; by exists l|done]|]. rewrite orb_true_iff.
    enough (X : (g_str_has_prefix ("#"%char :: l) ($"#HttpOnly_") &&
      match cookie_fields (drop 10 ("#"%char :: l)) with Some f => same_cookie f (w_domain w) (w_path w) (w_name w) | None => false end) = true
      <-> guards w ("#"%char :: l)) by (rewrite X; tauto).
    change (g_str_has_prefix ("#"%char :: l) ($"#HttpOnly_")) with (prefixb ($"#HttpOnly_") ("#"%char :: l)). split.
    + intros [H1 H2]%andb_prop. apply prefixb_spec in H1 as [r Hr]. rewrite Hr in H2.
      change (drop 10 ($"#HttpOnly_" ++ r)) with (drop 0 r) in H2. rewrite drop_0 in H2.
      destruct (cookie_fields r) as [f|] eqn:Ef; [|done]. by exists r, f.
    + intros (r & f & -> & Ef & Es). change (drop 10 ($"#HttpOnly_" ++ r)) with (drop 0 r). rewrite drop_0, Ef, Es.
      by rewrite prefixb_app.
  - assert (G0 : ~ guards w (c :: l)) by (intros (r & f & [= -> _] & _); done).
    assert (S0 : (exists r, c :: l = $"#" ++ r) -> False) by (intros [r [= -> _]]; done).
    destruct (cookie_fields (c :: l)) as [f|] eqn:Ef.
    2:{ split; [right; split; [|done]; intros [?|(_ & f & X & _)]; [done|congruence]|tauto]. }
    set (x := g_ascii_strtoll10 (c_expiry f)).
    destruct (negb _ && negb _) eqn:Ek; (split; [|tauto]); [left|right]; (split; [|done]).
    + right. split; [done|]. exists f. split; [done|]. boolify. split; [done|]. fold x.
      destruct (Z.eqb_spec x 0) as [?|?]; [by left|right]. cbn [negb andb] in *. by apply Z.ltb_ge.
    + intros [?|(_ & f' & Ef' & Es & Hx)]; [done|]. rewrite Ef in Ef'. injection Ef' as <-. rewrite Es in Ek.
      fold x in Hx. cbn [negb andb] in Ek. apply negb_false_iff, andb_prop in Ek as [E1 E2]. boolify. lia.
Qed.

Lemma keep_lines_spec now w ls out blocked :
  let '(out', blocked') := fold_left (keep_line (G := glib_ref) now (w_domain w) (w_path w) (w_name w)) ls (out, blocked) in
  exists k, kept (stays now w) ls k /\ out' = out ++ lines_text k /\
    (blocked' = true <-> blocked = true \/ Exists (guards w) ls).
Proof.
  revert out blocked. induction ls as [|l ls IH]; intros out blocked; cbn [fold_left].
  { exists []. split; [constructor|]. split; [by rewrite app_nil_r|]. rewrite Exists_nil. tauto. }
  pose proof (keep_line_spec now w out blocked l) as H. destruct (keep_line _ _ _ _ _ l) as [out1 b1].
  destruct H as [H Hb]. specialize (IH out1 b1). destruct (fold_left _ ls _) as [out2 b2].
  destruct IH as (k & Hk & -> & Hb2). destruct H as [[Hs ->]|[Hs ->]].
  - exists (l :: k). split; [by constructor|]. split; [cbn [lines_text map concat]; by rewrite <- !app_assoc|].
    rewrite Exists_cons. tauto.
  - exists k. split; [by constructor|]. split; [done|]. rewrite Exists_cons. tauto.
Qed.

(** The contents after the writing. *)
Definition written (now : Z) (w : cookie_write) (before after : list bytes) : Prop :=
  exists k, kept (stays now w) before k /\
    ((expired (w_attrs w) = true \/ Exists (guards w) before) /\ after = k \/
     expired (w_attrs w) = false /\ ~ Exists (guards w) before /\
     after = k ++ [cookie_file_line (w_domain w) (w_tail w) (w_path w) (secure (w_attrs w))
                     (expiry (w_attrs w)) (w_name w) (w_value w)]).

Lemma cookie_rewrite_spec now w ls :
  exists ls', written now w ls ls' /\ cookie_rewrite (G := glib_ref) now ls w = lines_text ls'.
Proof.
  unfold cookie_rewrite. pose proof (keep_lines_spec now w ls [] false) as H.
  destruct (fold_left _ ls _) as [out b]. destruct H as (k & Hk & -> & Hb).
  destruct (expired (w_attrs w)) eqn:Ex; [|destruct b]; cbn [negb andb].
  - exists k. split; [|done]. exists k. split; [done|]. left. split; [by left|done].
  - exists k. split; [|done]. exists k. split; [done|]. left. split; [|done]. right. by destruct (proj1 Hb eq_refl).
  - eexists. split; [exists k; split; [done|]; right; split; [done|]; split; [|reflexivity]|].
    + intros X. discriminate (proj2 Hb (or_intror X)).
    + unfold lines_text. rewrite map_app, concat_app. cbn [map concat app]. by rewrite app_nil_r.
Qed.

(** C1. What an assignment to [document.cookie] may do. It changes nothing but the
    script jar of the URL's site, and only from an HTTP or HTTPS page with a text
    without control characters. The name and the value are those of the text; a
    [Secure] cookie, a [__Secure-] or a [__Host-] name needs HTTPS and the [Secure]
    attribute; a [__Host-] cookie has no [Domain] and no [Path] but [/], so it
    belongs to the exact host (its path is the page's directory when [Path] is
    absent); a shared domain is one the host belongs to and not a public suffix. The
    new jar has the old jar's lines, in their order, less those of the same cookie,
    the expired and the unreadable, and one more line with exactly these fields,
    unless the cookie has expired or an [HttpOnly] line is the same cookie's; and
    every comment and [HttpOnly] line is still there. *)
Theorem cookie_store_guarded (G : GLib) (GS : GLibSpec G) (L : Lexbor) (P : Psl)
    (sha : bytes -> bytes) (getdate : bytes -> Z) (fs : files) (now : Z) (ok : bool)
    (url cookie : bytes) (file : bytes) :
  let fs' := ns_net_cookie_store_from_js sha getdate fs now ok (Some url) (Some cookie) in
  fs' !! file <> fs !! file ->
  exists w parts site after,
    cookie_accept sha getdate now (Some url) (Some cookie) = Some w /\
    ns_url_parts_new (Some url) = Some parts /\ ns_url_site_from (Some url) = Some site /\
    file = ns_net_cookie_js_path_for_partition sha (Some site) /\
    ns_url_is_http_or_https (Some url) = true /\ no_control cookie = true /\
    assigned cookie (w_name w) (w_value w) /\
    w_attrs w = match strchr cookie ";" with
                | Some k => cookie_attr_loop getdate (S (length k)) now no_attrs k
                | None => no_attrs
                end /\
    (secure (w_attrs w) = true -> url_is_https parts = true) /\
    prefix_rules (w_name w) (w_attrs w) (url_is_https parts) /\
    domain_of P (w_attrs w) (hostname parts) (w_domain w) (w_tail w) /\
    path_of (w_attrs w) (pathname parts) (w_path w) /\
    (host_prefix (w_name w) = true ->
       w_domain w = hostname parts /\ w_tail w = $"FALSE" /\
       (w_path w = $"/" \/ directory_of (pathname parts) (w_path w))) /\
    fs' !! file = Some (lines_text after) /\ written now w (jar_lines fs file) after.
Proof.
  glib. unfold ns_net_cookie_store_from_js.
  destruct (cookie_accept sha getdate now (Some url) (Some cookie)) as [w|] eqn:E; [|done].
  destruct ok; [|done]. intros Hf.
  assert (file = w_file w) as ->.
  { destruct (decide (file = w_file w)); [done|]. by rewrite lookup_insert_ne in Hf. }
  apply cookie_accept_spec in E as (parts & site & H1 & H2 & _ & H3 & H4 & H5 & H6 & H7 & H8 & H9 & H10 & H11).
  destruct (cookie_rewrite_spec now w (jar_lines fs (w_file w))) as (after & Hw & Er).
  exists w, parts, site, after. do 12 (split; [done|]). split.
  - intros Hh. destruct H9 as [_ H9]. destruct (H9 Hh) as (_ & _ & Hd & Hp).
    destruct H10 as [(_ & -> & ->)|(d & [Hx|[Hx Hd2]] & _ & _ & Ha)].
    + split; [done|]. split; [done|]. destruct H11 as [[Hx (r & Hr)]|[_ D]]; [left|by right].
      destruct Hp as [Hp|[Hp|Hp]]; rewrite Hx in Hp; [done| |by injection Hp].
      injection Hp as Hp. by rewrite Hr in Hp.
    + by destruct Hd as [Hd|Hd]; rewrite Hx in Hd.
    + destruct Ha as [Ha _]. destruct Hd as [Hd|Hd]; congruence.
  - split; [|done]. by rewrite lookup_insert, Er, decide_True.
Qed.

(** A page over HTTPS sets a [__Host-] cookie beside a jar with an [HttpOnly] line and
    an older value. *)
Lemma cookie_store_guarded_witness :
  let ln secure id v := $"a.example" ++ tab_str ++ $"FALSE" ++ tab_str ++ $"/" ++ tab_str ++ secure ++ tab_str ++
                        $"0" ++ tab_str ++ id ++ tab_str ++ v in
  let old := ln ($"TRUE") ($"__Host-id") ($"7") in
  let only := $"#HttpOnly_" ++ ln ($"TRUE") ($"sid") ($"1") in
  exists w after,
    (w_name w, w_value w, w_path w, secure (w_attrs w)) = ($"__Host-id", $"8", $"/", true) /\
    w_domain w = $"a.example" /\ w_tail w = $"FALSE" /\
    lines_text [only; ln ($"TRUE") ($"__Host-id") ($"8")] = lines_text after /\
    written 1000 w [old; only; []] after.
Proof.
  cbv zeta. set (ln := fun secure id v : bytes => _).
  set (jar := lines_text [ln ($"TRUE") ($"__Host-id") ($"7"); $"#HttpOnly_" ++ ln ($"TRUE") ($"sid") ($"1")]).
  destruct (cookie_store_guarded glib_ref glib_ref_spec demo_lexbor demo_psl (fun s => s) (fun _ => 0%Z)
    {[ $"https:://a.example.js.txt" := jar ]} 1000 true ($"https://a.example/app/page")
    ($"__Host-id = 8; Secure; path=/") ($"https:://a.example.js.txt"))
    as (w & parts & site & after & H0 & H1 & _ & _ & _ & _ & _ & _ & _ & _ & _ & _ & H12 & H13 & H14).
  - vm_compute. discriminate.
  - exists w, after. vm_compute in H0. vm_compute in H1. injection H1 as <-. injection H0 as <-.
    destruct (H12 eq_refl) as (D & T & _). split; [reflexivity|]. split; [exact D|]. split; [exact T|].
    split; [|exact H14]. apply (inj Some). rewrite <- H13. vm_compute. reflexivity.
Defined.

(** *** Writing and reading back *)

Lemma no_control_trim_right s : no_control s = true -> no_control (trim_blanks_right s) = true.
Proof. intros H. by apply allb_rev, allb_drop_while, allb_rev. Qed.

Lemma no_control_trim s : no_control s = true -> no_control (trim_blanks s) = true.
Proof. intros H. by apply no_control_trim_right, allb_drop_while. Qed.

Lemma no_control_before s c : no_control s = true -> no_control (before s c) = true.
Proof. apply allb_take_while. Qed.

Lemma no_control_strchr s c r n : no_control s = true -> strchr s c = Some r -> no_control (drop n r) = true.
Proof.
  intros H (t & -> & E)%strchr_Some. rewrite E, no_control_app in H. boolify.
  rewrite <- (take_drop n (c :: t)), no_control_app in H0. by boolify.
Qed.

Lemma last_rev {A} (l : list A) : last (rev l) = head l.
Proof. destruct l as [|x l]; [done|]. apply last_snoc. Qed.

Lemma trim_blanks_last s c : last (trim_blanks s) = Some c -> is_blank c = false.
Proof.
  unfold trim_blanks, trim_blanks_right. rewrite last_rev.
  destruct (drop_while is_blank (rev _)) eqn:E; [done|]. intros [= ->]. by apply drop_while_head in E.
Qed.

Definition attrs_plain (a : cookie_attrs) : Prop :=
  match domain_attr a with Some d => no_control d = true | None => True end /\
  match path_attr a with Some p => no_control p = true | None => True end.

Lemma cookie_attr_plain getdate now a tok :
  no_control tok = true -> attrs_plain a -> attrs_plain (cookie_attr (G := glib_ref) getdate now a tok).
Proof.
  intros Ht [Hd Hp]. unfold cookie_attr. destruct a as [dom pth sec he ex xp]. cbn in Hd, Hp.
  match goal with |- attrs_plain (if ?b then _ else _) => destruct b; [done|] end.
  destruct (strchr tok "=") as [eq|] eqn:E; [|done].
  assert (Hv : no_control (drop_while is_blank (drop 1 eq)) = true).
  { apply allb_drop_while. by eapply no_control_strchr. }
  repeat match goal with |- attrs_plain (if ?b then _ else _) => destruct b end; done.
Qed.

Lemma cookie_attr_loop_plain getdate fuel now a p :
  no_control p = true -> attrs_plain a -> attrs_plain (cookie_attr_loop (G := glib_ref) getdate fuel now a p).
Proof.
  revert a p. induction fuel as [|fuel IH]; intros a p Hp Ha; cbn [cookie_attr_loop]; [done|].
  destruct (drop_while _ p) as [|c q] eqn:E; [done|].
  assert (Hq : no_control (c :: q) = true) by (rewrite <- E; by apply allb_drop_while).
  assert (Ha' : attrs_plain (cookie_attr (G := glib_ref) getdate now a (trim_blanks_right (before (c :: q) ";")))).
  { apply cookie_attr_plain; [|done]. by apply no_control_trim_right, no_control_before. }
  destruct (strchr (c :: q) ";") as [e|] eqn:Es; [|done]. apply IH; [|done]. by eapply no_control_strchr.
Qed.

Lemma split_max_go_cons n b s c :
  free_of c b = true ->
  Ref.split_max_go (S (S n)) (b ++ c :: s) [c] = b :: Ref.split_max_go (S n) s [c].
Proof.
  intros H. cbn [Ref.split_max_go]. rewrite (strstr_at b c s H). cbn [length app drop].
  by rewrite drop_0.
Qed.

Lemma split_max_nonempty s d n : s <> [] -> Ref.split_max s d n = Ref.split_max_go n s d.
Proof. by destruct s. Qed.

(** A line of seven fields parses to them. *)
Lemma cookie_fields_line dom tail path (sec : bool) exp name value :
  no_control dom = true -> no_control tail = true -> no_control path = true ->
  (0 <= exp)%Z -> no_control name = true ->
  cookie_fields (G := glib_ref) (cookie_file_line dom tail path sec exp name value) =
  Some {| c_domain := dom; c_tail := tail; c_path := path;
          c_secure := if sec then $"TRUE" else $"FALSE"; c_expiry := print_d exp;
          c_name := name; c_value := value |}.
Proof.
  intros Hd Ht Hp He Hn. unfold cookie_fields, cookie_file_line.
  assert (T : forall s, no_control s = true -> free_of "009" s = true).
  { intros s. apply no_control_free. vm_compute. done. }
  change (g_strsplit_max (GLib := glib_ref)) with Ref.split_max.
  rewrite split_max_nonempty by by destruct dom.
  cbn [app].
  rewrite !split_max_go_cons; [done|by apply T| |by destruct sec|by apply T..].
  unfold print_d. destruct (Z.ltb_spec exp 0); [lia|]. destruct (digits_spec exp He) as [H1 _].
  revert H1. apply allb_impl. intros c Hc.
  assert (X : negb (is_digit c) || negb (c =c "009") = true) by (clear; by_bytes c).
  by rewrite Hc in X.
Qed.

Lemma strip_trailing_id s c : last s = Some c -> Ref.isspace c = false -> Ref.strip_trailing s = s.
Proof.
  intros [l ->]%last_Some Hc. unfold Ref.strip_trailing. rewrite rev_app_distr. cbn.
  rewrite Hc. cbn. by rewrite rev_involutive.
Qed.

Lemma plain_last_not_space s c :
  no_control s = true -> last s = Some c -> is_blank c = false -> Ref.isspace c = false.
Proof.
  intros Hs Hl Hb. assert (Hc : (code c <? 32)%Z = false).
  { apply last_Some in Hl as [l ->]. rewrite no_control_app in Hs. cbn in Hs. boolify.
    by apply Z.ltb_ge. }
  assert (X : (code c <? 32)%Z || is_blank c || negb (Ref.isspace c) = true).
  { clear. by_bytes c. }
  rewrite Hc, Hb in X. cbn in X. by boolify.
Qed.

(** The file ends with the line just written. *)
Definition line_ended (out : bytes) : Prop := out = [] \/ exists o, out = o ++ nl_str.

Lemma keep_line_inv now dom path name acc line :
  line_ended acc.1 -> free_of nul acc.1 = true -> free_of nul line = true ->
  prefixb ($"#HttpOnly_") line = false -> acc.2 = false ->
  let acc' := keep_line (G := glib_ref) now dom path name acc line in
  line_ended acc'.1 /\ free_of nul acc'.1 = true /\ acc'.2 = false.
Proof.
  intros He Hf Hl Hh Hb. destruct acc as [out blocked]. cbn [fst snd] in *. subst blocked. unfold keep_line.
  destruct line as [|c line]; [done|]. set (ln := c :: line) in *.
  assert (E : line_ended (out ++ ln ++ nl_str) /\ free_of nul (out ++ ln ++ nl_str) = true).
  { split; [right; exists (out ++ ln); by rewrite app_assoc|]. by rewrite !free_of_app, Hf, Hl. }
  destruct E as [E1 E2].
  destruct (c =c "#").
  - change (g_str_has_prefix ln ($"#HttpOnly_")) with (prefixb ($"#HttpOnly_") ln). rewrite Hh. done.
  - destruct (cookie_fields ln); [|done]. by case_match.
Qed.

Lemma keep_lines_inv now dom path name lines acc :
  line_ended acc.1 -> free_of nul acc.1 = true -> acc.2 = false ->
  Forall (fun l => free_of nul l = true /\ prefixb ($"#HttpOnly_") l = false) lines ->
  let acc' := fold_left (keep_line (G := glib_ref) now dom path name) lines acc in
  line_ended acc'.1 /\ free_of nul acc'.1 = true /\ acc'.2 = false.
Proof.
  intros He Hf Hb HF. revert acc He Hf Hb. induction HF as [|l ls [Hl Hh] HF IH]; intros acc He Hf Hb; [done|].
  cbn [fold_left]. destruct (keep_line_inv now dom path name acc l He Hf Hl Hh Hb) as (? & ? & ?). by apply IH.
Qed.

Lemma split_last_line out line :
  line_ended out -> free_of "010" line = true -> 
  exists pre, Ref.split (out ++ line ++ nl_str) nl_str = pre ++ [line; []].
Proof.
  intros Ho Hl.
  assert (B : forall fuel, S (length line) < fuel -> Ref.split_go fuel (line ++ nl_str) nl_str = [line; []]).
  { intros fuel Hf. destruct fuel as [|[|fuel]]; [lia|lia|]. cbn [Ref.split_go].
    rewrite strstr_at by done. done. }
  unfold Ref.split. destruct (out ++ line ++ nl_str) as [|c s] eqn:E.
  { apply (f_equal length) in E. rewrite !length_app in E. cbn in E. lia. }
  rewrite <- E. destruct Ho as [->|[o ->]].
  - exists []. apply B. cbn [app]. rewrite length_app. cbn. lia.
  - exists (Ref.split_go (S (length ((o ++ nl_str) ++ line ++ nl_str))) o nl_str).
    rewrite <- app_assoc. cbn [app]. rewrite split_go_app by (cbn; lia). f_equal.
    apply B. rewrite !length_app. cbn [length]. rewrite !length_app. cbn. lia.
Qed.

Lemma jar_lines_free fs fp : Forall (fun l => free_of nul l = true) (jar_lines (G := glib_ref) fs fp).
Proof.
  unfold jar_lines. destruct (fs !! fp) as [c|]; [|by constructor].
  change (g_strsplit (GLib := glib_ref)) with Ref.split. unfold Ref.split.
  destruct (cstr_of c) as [|x s] eqn:E; [by constructor|]. rewrite <- E.
  apply split_go_free. unfold cstr_of. apply take_while_forall.
Qed.

Lemma cstr_of_id s : free_of nul s = true -> cstr_of s = s.
Proof. apply take_while_id. Qed.

(** What [cookie_accept] lets through is fit for a line of the file. *)
Lemma cookie_accept_plain (L : Lexbor) (P : Psl) sha getdate now url cookie w parts :
  cookie_accept (G := glib_ref) sha getdate now (Some url) (Some cookie) = Some w ->
  ns_url_parts_new (Some url) = Some parts ->
  no_control (hostname parts) = true -> no_control (pathname parts) = true ->
  no_control (w_domain w) = true /\ no_control (w_path w) = true /\ no_control (w_name w) = true /\
  no_control (w_value w) = true /\ no_control (w_tail w) = true /\ w_name w <> [] /\
  (forall c, last (w_value w) = Some c -> is_blank c = false) /\
  hostname parts <> [] /\ (secure (w_attrs w) = true -> url_is_https (G := glib_ref) parts = true) /\
  (w_domain w = hostname parts \/ exists d, w_domain w = $"." ++ d /\ domain_allowed P (hostname parts) d) /\
  exists s site, ns_url_site_from (G := glib_ref) (Some url) = Some (s :: site) /\
    w_file w = ns_net_cookie_js_path_for_partition sha (Some (s :: site)).
Proof.
  intros E Hparts Hh Hp. unfold cookie_accept in E. destruct url as [|u0 url]; [done|].
  destruct (ns_url_is_http_or_https _); [|done]. cbn [negb] in E.
  destruct (existsb _ cookie) eqn:Hc; [done|]. rewrite Hparts in E.
  destruct (length (hostname parts) =? 0) eqn:Hlen; [done|].
  assert (Hck : no_control cookie = true).
  { unfold no_control. apply forallb_forall. intros c Hin. apply negb_true_iff.
    destruct (code c <? 32)%Z eqn:X; [|done].
    rewrite <- not_true_iff_false in Hc. exfalso. apply Hc, existsb_exists. eauto. }
  destruct (cookie_pair cookie) as [[[name value] semi]|] eqn:Hpair; [|done].
  set (a := match semi with Some s => _ | None => _ end) in E.
  unfold cookie_pair in Hpair. set (pair := before cookie ";") in *.
  assert (Hpr : no_control pair = true) by by apply no_control_before.
  destruct (strchr pair "=") as [eq|] eqn:Heq; [|done].
  destruct (length (before pair "=") =? 0); [done|].
  destruct (trim_blanks (before pair "=")) as [|n0 nm] eqn:Hnm; [done|].
  apply (inj Some) in Hpair. injection Hpair as <- <- <-.
  assert (Ha : attrs_plain a).
  { unfold a. destruct (strchr cookie ";") as [s|] eqn:Es; [|done].
    apply cookie_attr_loop_plain; [|done]. by apply (no_control_strchr cookie ";" s 0) in Es. }
  destruct (secure a && negb (url_is_https parts)) eqn:Hsec; [done|].
  destruct (cookie_prefix_refused _ _ a); [done|].
  destruct (cookie_file_domain (hostname parts) a) as [[dom tail]|] eqn:Hd; [|done].
  destruct (ns_url_site_from _) as [[|s0 site]|]; [done| |done].
  apply (inj Some) in E. subst w. cbn [w_file w_domain w_tail w_path w_attrs w_name w_value].
  pose proof (cookie_file_domain_spec P _ _ _ _ Hd) as Hds.
  split; [|split; [|split; [|split; [|split; [|split; [|split; [|split; [|split; [|split]]]]]]]]].
  - unfold cookie_file_domain in Hd. destruct Ha as [Ha _].
    destruct (domain_attr a) as [[|c attr]|]; [by injection Hd as <- _| |by injection Hd as <- _].
    set (d := if head_is _ _ then _ else _) in Hd.
    cbv zeta in Hd. destruct (negb _ || _); [done|]. destruct (psl_builtin && _); [done|].
    apply (inj Some) in Hd. injection Hd as <- <-. change (no_control d = true).
    unfold d. destruct (head_is _ _); [|done]. cbn [drop]. rewrite drop_0.
    change (c :: attr) with ([c] ++ attr) in Ha. rewrite no_control_app in Ha. by boolify.
  - unfold cookie_file_path. destruct Ha as [_ Ha].
    assert (D : no_control (match before_last_slash (pathname parts) with None | Some [] => $"/" | Some d => d end) = true).
    { unfold before_last_slash. destruct (strchr (rev (pathname parts)) "/") as [r|] eqn:Er; [|done].
      assert (no_control (rev (drop 1 r)) = true).
      { apply allb_rev. eapply no_control_strchr; [|exact Er]. by apply allb_rev. }
      by destruct (rev (drop 1 r)). }
    destruct (path_attr a) as [[|c p]|]; [done| |done]. by destruct (c =c "/").
  - rewrite <- Hnm. by apply no_control_trim, no_control_before.
  - apply no_control_trim. by eapply no_control_strchr.
  - unfold cookie_file_domain in Hd.
    destruct (domain_attr a) as [[|c attr]|]; [by injection Hd as _ <-| |by injection Hd as _ <-].
    cbv zeta in Hd. destruct (negb _ || _); [done|]. destruct (psl_builtin && _); [done|].
    apply (inj Some) in Hd. by injection Hd as _ <-.
  - done.
  - intros c Hl. by eapply trim_blanks_last.
  - intros X. by rewrite X in Hlen.
  - intros X. rewrite X in Hsec. by destruct (url_is_https parts).
  - destruct Hds as [(_ & -> & _)|(d & _ & -> & _ & Hda)]; [by left|right; eauto].
  - eauto.
Qed.

Lemma domain_matches_written (P : Psl) host dom :
  dom = host \/ (exists d, dom = $"." ++ d /\ domain_allowed P host d) ->
  domain_matches (G := glib_ref) host dom = true.
Proof.
  unfold domain_matches. cbn [g_ascii_strcasecmp0 glib_ref]. intros [->|(d & -> & Hne & _ & Hd)].
  - destruct (head_is _ host); [|by apply bool_decide_eq_true].
    rewrite (proj2 (Nat.leb_le _ _)) by lia. rewrite Nat.sub_diag, drop_0, bool_decide_eq_true_2 by done. done.
  - change (head_is (fun c => c =c ".") ($"." ++ d)) with true. cbv iota.
    change (drop 1 ($"." ++ d)) with (drop 0 d). rewrite drop_0.
    destruct Hd as [E|(pre & dm & -> & E)].
    + rewrite (bool_decide_eq_true_2 _ E). by rewrite orb_true_r.
    + assert (El : length d = length dm) by (apply (f_equal length) in E; rewrite !length_map in E; lia).
      rewrite !length_app. change (length ($".")) with 1.
      rewrite (proj2 (Nat.leb_le _ _)) by lia.
      replace (length pre + (1 + length dm) - (1 + length d)) with (length pre) by lia.
      rewrite drop_app_length, bool_decide_eq_true_2; [done|].
      change (map lower ($"." ++ dm)) with ("."%char :: map lower dm).
      change (map lower ($"." ++ d)) with ("."%char :: map lower d). by rewrite E.
Qed.

Lemma print_d_plain z : (0 <= z)%Z -> no_control (print_d z) = true.
Proof.
  intros Hz. unfold print_d. destruct (Z.ltb_spec z 0); [lia|]. destruct (digits_spec z Hz) as [H1 _].
  revert H1. apply allb_impl. intros c Hc.
  assert (X : negb (is_digit c) || negb (code c <? 32)%Z = true) by (clear; by_bytes c).
  by rewrite Hc in X.
Qed.

Lemma cookie_file_line_free c dom tail path (sec : bool) exp name value :
  (code c < 32)%Z -> c <> "009"%char -> (0 <= exp)%Z ->
  no_control dom = true -> no_control tail = true -> no_control path = true ->
  no_control name = true -> no_control value = true ->
  free_of c (cookie_file_line dom tail path sec exp name value) = true.
Proof.
  intros Hc Ht He. intros. unfold cookie_file_line.
  assert (T : free_of c tab_str = true).
  { change (negb ("009"%char =c c) && true = true). rewrite (proj2 (Ascii.eqb_neq _ _)) by congruence. done. }
  rewrite !free_of_app, T. rewrite !(no_control_free c); try done.
  - by apply print_d_plain.
  - by destruct sec.
Qed.

(** What a page writes it can read: after an accepted assignment of a non-empty
    value that has not expired, with no [HttpOnly] cookie in the way, on a URL
    whose path the cookie's path covers, [document.cookie] on the same URL lists
    the name with the new value. *)
Theorem cookie_store_read (G : GLib) (GS : GLibSpec G) (L : Lexbor) (P : Psl)
    (sha : bytes -> bytes) (getdate : bytes -> Z) (fs : files) (now : Z)
    (url cookie : bytes) (w : cookie_write) (parts : ns_url_parts) :
  cookie_accept sha getdate now (Some url) (Some cookie) = Some w ->
  ns_url_parts_new (Some url) = Some parts ->
  no_control (hostname parts) = true -> head_is (fun c => c =c "#") (hostname parts) = false ->
  no_control (pathname parts) = true ->
  path_matches (match pathname parts with [] => $"/" | p => p end) (w_path w) = true ->
  w_value w <> [] -> expired (w_attrs w) = false -> (0 <= now)%Z ->
  (expiry (w_attrs w) = 0 \/ now <= expiry (w_attrs w) < 2 ^ 63)%Z ->
  (forall line, In line (jar_lines fs (w_file w)) -> prefixb ($"#HttpOnly_") line = false) ->
  exists l,
    ns_net_cookies_for_js sha (ns_net_cookie_store_from_js sha getdate fs now true (Some url) (Some cookie))
      now (Some url) = Some (Ref.join ($"; ") (map pair_text l)) /\
    In (w_name w, w_value w) l.
Proof.
  glib. intros Hacc Hparts Hh Hhash Hp Hpath Hval Hexp Hnow Hexpiry Hho.
  destruct (cookie_accept_plain L P sha getdate now url cookie w parts Hacc Hparts Hh Hp)
    as (Pd & Pp & Pn & Pv & Pt & Hname & Hlast & Hhost & Hsec & Hdom & s0 & site & Hsite & Hfile).
  unfold ns_net_cookie_store_from_js. rewrite Hacc. unfold cookie_rewrite.
  destruct (keep_lines_inv now (w_domain w) (w_path w) (w_name w) (jar_lines fs (w_file w)) ([], false))
    as (He & Hf & Hb); [by left|done|done| |].
  { apply List.Forall_forall. intros l Hl. split; [|by apply Hho].
    pose proof (jar_lines_free fs (w_file w)) as F. rewrite List.Forall_forall in F. by apply F. }
  destruct (fold_left _ _ ([], false)) as [out blocked]. cbn [fst snd] in *. subst blocked.
  rewrite Hexp. cbn [negb andb].
  set (exp := expiry (w_attrs w)) in *. set (sec := secure (w_attrs w)) in *.
  set (line := cookie_file_line (w_domain w) (w_tail w) (w_path w) sec exp (w_name w) (w_value w)).
  assert (Hexp0 : (0 <= exp < 2 ^ 63)%Z) by lia.
  assert (Hlf : forall c, (code c < 32)%Z -> c <> "009"%char -> free_of c line = true).
  { intros c Hc1 Hc2. apply cookie_file_line_free; try done. lia. }
  assert (Hnl : free_of "010" line = true) by (apply Hlf; done).
  unfold ns_net_cookies_for_js. destruct url as [|u0 url]; [done|].
  rewrite Hparts. destruct (hostname parts) as [|h0 host'] eqn:Ehost; [done|].
  cbn [length Nat.eqb]. rewrite <- Ehost in *. rewrite Hsite.
  set (fs' := <[w_file w := _]> fs).
  assert (Hlines : exists pre, jar_lines (G := glib_ref) fs' (ns_net_cookie_js_path_for_partition sha (Some (s0 :: site)))
                               = pre ++ [line; []]).
  { rewrite <- Hfile. unfold jar_lines, fs'. rewrite lookup_insert_eq.
    rewrite cstr_of_id; [|by rewrite !free_of_app, Hf, Hlf].
    change (g_strsplit (GLib := glib_ref)) with Ref.split. by apply split_last_line. }
  destruct Hlines as [pre ->]. rewrite app_assoc, fold_left_app.
  set (st0 := fold_left _ (_ ++ pre) _). cbn [fold_left].
  set (see := cookie_see _ _ _ _).
  assert (Hfields := cookie_fields_line (w_domain w) (w_tail w) (w_path w) sec exp (w_name w) (w_value w)
                       Pd Pt Pp ltac:(lia) Pn). fold line in Hfields.
  assert (Hchomp : Ref.strip_trailing line = line).
  { destruct (last (w_value w)) as [c|] eqn:El; [|by apply last_None in El].
    apply (strip_trailing_id line c); [|by apply (plain_last_not_space (w_value w) c Pv El), Hlast].
    unfold line, cookie_file_line. by rewrite !app_assoc, last_app, El. }
  assert (Hsee : see st0 line =
    {| s_order := match s_vals st0 !! w_name w with
                  | Some _ => s_order st0 | None => s_order st0 ++ [w_name w] end;
       s_vals := <[w_name w := w_value w]> (s_vals st0) |}).
  { unfold see, cookie_see. change (g_strchomp line) with (Ref.strip_trailing line). rewrite Hchomp.
    assert (Hd0 : head_is (fun c => c =c "#") (w_domain w) = false /\ w_domain w <> []).
    { destruct Hdom as [->|(d & -> & _)]; [split; [exact Hhash|by rewrite Ehost]|done]. }
    assert (Hl0 : exists c l, line = c :: l /\ (c =c "#") = false).
    { unfold line, cookie_file_line. destruct (w_domain w) as [|c d]; [by destruct Hd0|].
      cbn [app]. eexists c, _. split; [reflexivity|exact (proj1 Hd0)]. }
    destruct Hl0 as (c & l & El & Hc). rewrite El, Hc, <- El, Hfields.
    assert (Hvis : cookie_visible (G := glib_ref) (hostname parts)
              (match pathname parts with [] => $"/" | p => p end) (url_is_https (G := glib_ref) parts) now
              {| c_domain := w_domain w; c_tail := w_tail w; c_path := w_path w;
                 c_secure := if sec then $"TRUE" else $"FALSE"; c_expiry := print_d exp;
                 c_name := w_name w; c_value := w_value w |} = true).
    { unfold cookie_visible. cbn [c_domain c_path c_secure c_expiry].
      rewrite (domain_matches_written P), Hpath by done. cbn [andb].
      assert (Ee : g_ascii_strtoll10 (GLib := glib_ref) (print_d exp) = exp).
      { unfold print_d. destruct (Z.ltb_spec exp 0); [lia|].
        rewrite <- (app_nil_r (digits 10 exp)). by apply strtoll10_print. }
      rewrite Ee. apply andb_true_iff. split.
      - destruct sec; [|done]. by rewrite Hsec.
      - destruct (Z.eqb_spec exp 0); [done|]. cbn [negb andb].
        destruct (Z.ltb_spec exp now); [lia|done]. }
    rewrite Hvis. cbn [c_name c_value andb]. destruct (w_name w); done. }
  rewrite Hsee. set (st1 := Build_seen _ _).
  assert (Hend : see st1 [] = st1) by done. rewrite Hend.
  exists (cookie_pairs st1). rewrite cookie_text_eq.
  assert (Hin : In (w_name w, w_value w) (cookie_pairs st1)).
  { unfold cookie_pairs. apply in_map_iff. exists (w_name w). unfold st1. cbn [s_order s_vals].
    rewrite lookup_insert_eq. split; [done|].
    assert (Hok : seen_ok (hostname parts) (match pathname parts with [] => $"/" | p => p end)
              (url_is_https (G := glib_ref) parts) now
              (jar_lines (G := glib_ref) fs' (ns_net_cookie_path_for_partition sha (Some (s0 :: site))) ++ pre) st0).
    { apply cookies_see_ok; [apply incl_refl|apply seen_ok_nil]. }
    destruct Hok as (_ & Hd & _). destruct (s_vals st0 !! w_name w) eqn:Ev.
    - apply list_elem_of_In, Hd. by eexists.
    - apply in_app_iff. right. by left. }
  split; [|done]. destruct (Ref.join _ _) eqn:Ej; [|done]. exfalso.
  destruct (cookie_pairs st1) as [|q qs]; [done|].
  assert (Hq : pair_text q <> []) by (unfold pair_text; by destruct (fst q)).
  cbn [map] in Ej. destruct (map pair_text qs); [done|].
  by apply app_eq_nil in Ej as [? _].
Qed.

Lemma cookie_store_read_witness :
  exists l,
    ns_net_cookies_for_js (G := glib_ref) (L := demo_lexbor) (P := demo_psl) (fun s => s)
      (ns_net_cookie_store_from_js (G := glib_ref) (L := demo_lexbor) (P := demo_psl)
        (fun s => s) (fun _ => 0%Z) demo_jar 1000 true
        (Some ($"https://a.example/app/page")) (Some ($"id = 8 ;Secure; Max-Age=60")))
      1000 (Some ($"https://a.example/app/page")) = Some (Ref.join ($"; ") (map pair_text l)) /\
    In ($"id", $"8") l.
Proof.
  set (url := $"https://a.example/app/page"). set (ck := $"id = 8 ;Secure; Max-Age=60").
  destruct (cookie_accept (G := glib_ref) (L := demo_lexbor) (P := demo_psl) (fun s => s) (fun _ => 0%Z) 1000
              (Some url) (Some ck)) as [w|] eqn:Ew; [|vm_compute in Ew; discriminate].
  destruct (ns_url_parts_new (L := demo_lexbor) (Some url)) as [parts|] eqn:Ep; [|vm_compute in Ep; discriminate].
  assert (Hw : w_name w = $"id" /\ w_value w = $"8").
  { vm_compute in Ew. injection Ew as <-. by split. }
  destruct Hw as [H1 H2]. rewrite <- H1, <- H2.
  apply (cookie_store_read glib_ref glib_ref_spec demo_lexbor demo_psl (fun s => s) (fun _ => 0%Z)
    demo_jar 1000 url ck w parts Ew Ep);
    vm_compute in Ew; injection Ew as <-; vm_compute in Ep; injection Ep as <-;
    try (vm_compute; reflexivity); try discriminate; try (vm_compute; intuition discriminate).
Defined.

(** A cookie with an empty value is written but never read back: the reader chops
    the trailing tab off the line and then finds six fields. *)
Example cookie_empty_value_lost (G : GLib) (GS : GLibSpec G) :
  let store := ns_net_cookie_store_from_js (L := demo_lexbor) (P := demo_psl) (fun s => s) (fun _ => 0%Z)
    ∅ 1000 true (Some ($"https://a.example/app/page")) in
  let read fs := ns_net_cookies_for_js (L := demo_lexbor) (P := demo_psl) (fun s => s) fs 1000
    (Some ($"https://a.example/app/page")) in
  read (store (Some ($"theme=dark"))) = Some ($"theme=dark") /\
  is_Some (store (Some ($"theme=")) !! ($"https:://a.example.js.txt")) /\ read (store (Some ($"theme="))) = None.
Proof. glib. split; [by vm_compute|]. split; [by vm_compute; eexists|by vm_compute]. Qed.

(** A [__Host-] cookie without a [Path] takes the directory of the page, not [/]. *)
Example cookie_host_prefix_path (G : GLib) (GS : GLibSpec G) :
  match cookie_accept (L := demo_lexbor) (P := demo_psl) (fun s => s) (fun _ => 0%Z) 1000
    (Some ($"https://a.example/app/page")) (Some ($"__Host-id=1; Secure")) with
  | Some w => w_path w = $"/app"
  | None => False
  end.
Proof. glib. by vm_compute. Qed.

(** The sum of the time and a huge [Max-Age] leaves the range of [gint64]. *)
Example cookie_max_age_overflow (G : GLib) (GS : GLibSpec G) :
  match cookie_accept (L := demo_lexbor) (P := demo_psl) (fun s => s) (fun _ => 0%Z) 1700000000
    (Some ($"https://a.example/app/page")) (Some ($"id=1; Max-Age=9223372036854775807")) with
  | Some w => (expiry (w_attrs w) < 0)%Z
  | None => False
  end.
Proof. glib. by vm_compute. Qed.
