(* ===== verification/Body.v ===== *)
(** * Response bodies and headers ([src/net.c])

    The byte budget of a response, the decoding of [data:] URLs, and libcurl's
    two callbacks: the one that collects the body and the one that reads the
    header lines. The memory the system has left is a parameter. *)

From S2P Require Import Prelude CStr GLib.

Definition G_MAXUINT : Z := 2 ^ 32 - 1.
Definition G_MAXSIZE : Z := 2 ^ 64 - 1.
Definition NS_NET_RESPONSE_MIN_BUDGET : Z := 64 * 1024 * 1024.
Definition NS_NET_RESPONSE_RECHECK_BYTES : Z := 16 * 1024 * 1024.
Definition NS_NET_MAX_RAW_HEADER_BYTES : Z := 1024 * 1024.

Definition zlen (s : bytes) : Z := Z.of_nat (length s).

Section Body.
Context {G : GLib}.

(** [avail]: [ns_net_available_memory_bytes()]. *)
Definition ns_net_response_budget (avail : Z) : Z :=
  if (avail =? 0)%Z then NS_NET_RESPONSE_MIN_BUDGET
  else let half := (avail / 2)%Z in
       if (half <? NS_NET_RESPONSE_MIN_BUDGET)%Z then NS_NET_RESPONSE_MIN_BUDGET else half.

(** ** The budget *)

(** The body and the total afterwards; [None]: refused. *)
Definition append_response_budgeted (body data : bytes) (total budget : Z) : option (bytes * Z) :=
  let len := zlen data in
  if (len =? 0)%Z then Some (body, total)
  else if (G_MAXUINT <? len)%Z then None
  else if (budget <? total)%Z then None
  else if (budget - total <? len)%Z then None
  else if (G_MAXUINT <? total + len)%Z then None
  else Some (body ++ data, total + len)%Z.

(** ** Data URLs *)

Inductive decode_result :=
| DECODED (body : bytes)
| MALFORMED (body : bytes)
| TOO_LARGE (body : bytes).

Definition base64_value (c : ascii) : Z :=
  (if in_range 65 90 c then code c - 65
   else if in_range 97 122 c then code c - 97 + 26
   else if is_digit c then code c - 48 + 52
   else if Ascii.eqb c "+" then 62
   else if Ascii.eqb c "/" then 63
   else -1)%Z.

(** The byte a [%XX] stands for, and what is after it. *)
Definition percent_byte (r : bytes) : option (ascii * bytes) :=
  match r with
  | h1 :: h2 :: r' =>
      if g_ascii_isxdigit h1 && g_ascii_isxdigit h2
      then Some (byte_of (Z.lor (Z.shiftl (g_ascii_xdigit_value h1) 4) (g_ascii_xdigit_value h2)), r')
      else None
  | _ => None
  end.

(** The bytes of a complete group [q] of four, and whether it ends the data;
    [None]: malformed. [-2] stands for [=]. *)
Definition base64_group (q0 q1 q2 q3 : Z) : option (bytes * bool) :=
  if (q0 <? 0)%Z || (q1 <? 0)%Z then None
  else
    let out0 := byte_of (Z.lor (Z.shiftl q0 2) (Z.shiftr q1 4)) in
    if (q2 =? -2)%Z then (if (q3 =? -2)%Z then Some ([out0], true) else None)
    else
      let out1 := byte_of (Z.lor (Z.shiftl (Z.land q1 15) 4) (Z.shiftr q2 2)) in
      if (q3 =? -2)%Z then Some ([out0; out1], true)
      else if (q3 <? 0)%Z then None
      else Some ([out0; out1; byte_of (Z.lor (Z.shiftl (Z.land q2 3) 6) q3)], false).

(** What is left when the data ends. *)
Definition base64_rest (q : list Z) : option bytes :=
  match q with
  | [] => Some []
  | q0 :: q1 :: r =>
      if (q0 <? 0)%Z || (q1 <? 0)%Z then None
      else
        let out0 := byte_of (Z.lor (Z.shiftl q0 2) (Z.shiftr q1 4)) in
        match r with
        | [q2] => if (q2 <? 0)%Z then None
                  else Some [out0; byte_of (Z.lor (Z.shiftl (Z.land q1 15) 4) (Z.shiftr q2 2))]
        | _ => Some [out0]
        end
  | _ => None
  end.

Fixpoint base64_loop (fuel : nat) (p : bytes) (q : list Z) (ended : bool)
    (body : bytes) (total budget : Z) : decode_result :=
  match fuel, p with
  | S fuel', c :: r =>
      let '(c, r) :=
        if c =c "%" then match percent_byte r with Some (d, r') => (d, r') | None => (c, r) end
        else (c, r) in
      if g_ascii_isspace c then base64_loop fuel' r q ended body total budget
      else if ended then MALFORMED body
      else
        let v := if c =c "=" then (-2)%Z else base64_value c in
        if (v =? -1)%Z then MALFORMED body
        else
          match q ++ [v] with
          | [q0; q1; q2; q3] =>
              match base64_group q0 q1 q2 q3 with
              | None => MALFORMED body
              | Some (out, fin) =>
                  match append_response_budgeted body out total budget with
                  | None => TOO_LARGE body
                  | Some (body, total) => base64_loop fuel' r [] fin body total budget
                  end
              end
          | q => base64_loop fuel' r q ended body total budget
          end
  | _, _ =>
      match base64_rest q with
      | None => MALFORMED body
      | Some out =>
          match append_response_budgeted body out total budget with
          | None => TOO_LARGE body
          | Some (body, _) => DECODED body
          end
      end
  end.

Definition decode_data_base64_budgeted (data body : bytes) (budget : Z) : decode_result :=
  base64_loop (length data) data [] false body 0 budget.

(** [buf] is the 8192-byte buffer, flushed when full. *)
Fixpoint uri_loop (fuel : nat) (p buf body : bytes) (total budget : Z) : decode_result :=
  match fuel, p with
  | S fuel', c :: r =>
      let step b r :=
        let buf := buf ++ [b] in
        if length buf =? 8192 then
          match append_response_budgeted body buf total budget with
          | None => TOO_LARGE body
          | Some (body, total) => uri_loop fuel' r [] body total budget
          end
        else uri_loop fuel' r buf body total budget in
      if c =c "%" then
        match percent_byte r with
        | None => MALFORMED body
        | Some (b, r') => step b r'
        end
      else step c r
  | _, _ =>
      match append_response_budgeted body buf total budget with
      | None => TOO_LARGE body
      | Some (body, _) => DECODED body
      end
  end.

Definition decode_data_uri_budgeted (data body : bytes) (budget : Z) : decode_result :=
  uri_loop (length data) data [] body 0 budget.

(** The content type is set even when the data does not decode. *)
Definition ns_data_url_decode (url : option bytes) (out : bytes) (budget : Z)
    : option (bytes * decode_result) :=
  match url with
  | None => None
  | Some u =>
      if negb (g_str_has_prefix u ($"data:")) then None
      else
        let p := drop 5 u in
        match strchr p "," with
        | None => None
        | Some comma =>
            let meta := g_strchomp (before p ",") in
            let meta_len := length meta in
            let base64 := (7 <=? meta_len) &&
                          g_ascii_strcasecmp0 (drop (meta_len - 7) meta) ($";base64") in
            let meta := if base64 then take (meta_len - 7) meta else meta in
            let type := match meta with [] => $"text/plain;charset=UTF-8" | _ => meta end in
            let data := drop 1 comma in
            Some (type, if base64 then decode_data_base64_budgeted data out budget
                        else decode_data_uri_budgeted data out budget)
        end
  end.

(** ** The body callback *)

Record ns_write_ctx := {
  w_body : bytes; w_total : Z; w_budget : Z; w_next_recheck : Z; w_exceeded : bool;
}.

(** [data] has [size * nmemb] bytes; [avail]: the memory left at this call. The
    result is what the callback returns: anything but the size stops the
    transfer. *)
Definition ns_write_cb (avail : Z) (data : bytes) (size nmemb : Z) (ctx : ns_write_ctx) : Z * ns_write_ctx :=
  if negb (size =? 0)%Z && (G_MAXSIZE / size <? nmemb)%Z then (0%Z, ctx)
  else
    let n := (size * nmemb)%Z in
    if (n =? 0)%Z then (0%Z, ctx)
    else if (G_MAXUINT <? n)%Z then (0%Z, ctx)
    else
      let '(budget, recheck) :=
        if (w_next_recheck ctx <=? w_total ctx)%Z
        then (ns_net_response_budget avail, (w_total ctx + NS_NET_RESPONSE_RECHECK_BYTES)%Z)
        else (w_budget ctx, w_next_recheck ctx) in
      let refused := {| w_body := w_body ctx; w_total := w_total ctx; w_budget := budget;
                        w_next_recheck := recheck; w_exceeded := true |} in
      if (budget <? w_total ctx + n)%Z then (0%Z, refused)
      else if (G_MAXUINT <? w_total ctx + n)%Z then (0%Z, refused)
      else (n, {| w_body := w_body ctx ++ data; w_total := (w_total ctx + n)%Z; w_budget := budget;
                  w_next_recheck := recheck; w_exceeded := w_exceeded ctx |}).

(** ** The header callback *)

Record ns_header_ctx := {
  h_content_type : option bytes;
  h_content_disposition : option bytes;
  h_csp : option bytes;
  h_xframe_options : option bytes;
  h_x_content_type_options : option bytes;
  h_cors_allow_origin : option bytes;
  h_refresh : option bytes;
  h_content_language : option bytes;
  h_etag : option bytes;
  h_last_modified : option bytes;
  h_cache_control : option bytes;
  h_vary : option bytes;
  h_expires : option bytes;
  h_location : option bytes;
  h_raw : option bytes;
  h_set_cookie_seen : bool;
}.

Definition hv_lead (c : ascii) : bool := (c =c " ") || (c =c "009").
Definition hv_trail (c : ascii) : bool := (c =c "013") || (c =c "010") || (c =c " ") || (c =c "009").

Definition header_value_dup (line : bytes) (prefix_len : nat) : bytes :=
  let v := drop_while hv_lead (drop prefix_len line) in
  cstr_of (rev (drop_while hv_trail (rev v))).

Definition header_is (buffer name : bytes) : bool :=
  (length name <=? length buffer) && g_ascii_strncasecmp0 buffer name (length name).

(** The slots a header line sets, in the order the code tries them. *)
Inductive header_slot :=
| CONTENT_TYPE | ETAG | LAST_MODIFIED | CACHE_CONTROL | VARY | EXPIRES | CSP
| XFRAME_OPTIONS | X_CONTENT_TYPE_OPTIONS | CORS_ALLOW_ORIGIN | CONTENT_DISPOSITION
| CONTENT_LANGUAGE | REFRESH | LOCATION | SET_COOKIE.

Definition header_names : list (bytes * header_slot) := [
  ($"Content-Type:", CONTENT_TYPE); ($"ETag:", ETAG); ($"Last-Modified:", LAST_MODIFIED);
  ($"Cache-Control:", CACHE_CONTROL); ($"Vary:", VARY); ($"Expires:", EXPIRES);
  ($"Content-Security-Policy:", CSP); ($"X-Frame-Options:", XFRAME_OPTIONS);
  ($"X-Content-Type-Options:", X_CONTENT_TYPE_OPTIONS);
  ($"Access-Control-Allow-Origin:", CORS_ALLOW_ORIGIN);
  ($"Content-Disposition:", CONTENT_DISPOSITION); ($"Content-Language:", CONTENT_LANGUAGE);
  ($"Refresh:", REFRESH); ($"Location:", LOCATION); ($"Set-Cookie:", SET_COOKIE)].

(** [header_append]: a repeated policy is joined with a comma. *)
Definition header_join (slot : option bytes) (val : bytes) : option bytes :=
  match slot, val with
  | Some ((_ :: _) as old), _ :: _ => Some (old ++ $", " ++ val)
  | _, _ :: _ => Some val
  | _, [] => slot
  end.

Definition header_set (hc : ns_header_ctx) (s : header_slot) (v : bytes) : ns_header_ctx :=
  let '(Build_ns_header_ctx ct cd csp xf xc co rf cl et lm cc va ex lo raw sc) := hc in
  match s with
  | CONTENT_TYPE => Build_ns_header_ctx (Some v) cd csp xf xc co rf cl et lm cc va ex lo raw sc
  | ETAG => Build_ns_header_ctx ct cd csp xf xc co rf cl (Some v) lm cc va ex lo raw sc
  | LAST_MODIFIED => Build_ns_header_ctx ct cd csp xf xc co rf cl et (Some v) cc va ex lo raw sc
  | CACHE_CONTROL => Build_ns_header_ctx ct cd csp xf xc co rf cl et lm (Some v) va ex lo raw sc
  | VARY => Build_ns_header_ctx ct cd csp xf xc co rf cl et lm cc (Some v) ex lo raw sc
  | EXPIRES => Build_ns_header_ctx ct cd csp xf xc co rf cl et lm cc va (Some v) lo raw sc
  | CSP => Build_ns_header_ctx ct cd (header_join csp v) xf xc co rf cl et lm cc va ex lo raw sc
  | XFRAME_OPTIONS => Build_ns_header_ctx ct cd csp (Some v) xc co rf cl et lm cc va ex lo raw sc
  | X_CONTENT_TYPE_OPTIONS => Build_ns_header_ctx ct cd csp xf (Some v) co rf cl et lm cc va ex lo raw sc
  | CORS_ALLOW_ORIGIN => Build_ns_header_ctx ct cd csp xf xc (Some v) rf cl et lm cc va ex lo raw sc
  | CONTENT_DISPOSITION => Build_ns_header_ctx ct (Some v) csp xf xc co rf cl et lm cc va ex lo raw sc
  | CONTENT_LANGUAGE => Build_ns_header_ctx ct cd csp xf xc co rf (Some v) et lm cc va ex lo raw sc
  | REFRESH => Build_ns_header_ctx ct cd csp xf xc co (Some v) cl et lm cc va ex lo raw sc
  | LOCATION => Build_ns_header_ctx ct cd csp xf xc co rf cl et lm cc va ex (Some v) raw sc
  | SET_COOKIE => Build_ns_header_ctx ct cd csp xf xc co rf cl et lm cc va ex lo raw true
  end.

Definition set_raw (hc : ns_header_ctx) (r : option bytes) : ns_header_ctx :=
  let '(Build_ns_header_ctx ct cd csp xf xc co rf cl et lm cc va ex lo _ sc) := hc in
  Build_ns_header_ctx ct cd csp xf xc co rf cl et lm cc va ex lo r sc.

Definition is_set_cookie (buffer : bytes) : bool :=
  header_is buffer ($"Set-Cookie:") || header_is buffer ($"Set-Cookie2:").

(** The header block as it is kept: a status line starts it anew. *)
Definition raw_line (raw : option bytes) (buffer : bytes) : option bytes :=
  if header_is buffer ($"HTTP/") then match raw with Some _ => Some [] | None => None end
  else if 2 <? length buffer then
    if is_set_cookie buffer then raw
    else
      let r := match raw with Some r => r | None => [] end in
      Some (if (zlen r + zlen buffer <=? NS_NET_MAX_RAW_HEADER_BYTES)%Z then r ++ buffer else r)
  else raw.

Definition header_dispatch (hc : ns_header_ctx) (buffer : bytes) : ns_header_ctx :=
  match List.find (fun e => header_is buffer (fst e)) header_names with
  | Some (name, s) => header_set hc s (header_value_dup buffer (length name))
  | None => hc
  end.

Definition ns_header_cb (buffer : bytes) (size nitems : Z) (hc : ns_header_ctx) : Z * ns_header_ctx :=
  if negb (size =? 0)%Z && (G_MAXSIZE / size <? nitems)%Z then (0%Z, hc)
  else ((size * nitems)%Z,
        header_dispatch (set_raw hc (raw_line (h_raw hc) buffer)) buffer).

End Body.

(** ** Lemmas *)

(** *** Base64 *)

(** The encoding of RFC 4648, with padding. *)
Definition base64_alphabet : bytes :=
  $"ABCDEFGHIJKLMNOPQRSTUVWXYZabcdefghijklmnopqrstuvwxyz0123456789+/".
Definition base64_char (v : Z) : ascii := nth (Z.to_nat v) base64_alphabet "="%char.

Definition sextet0 (a : ascii) : Z := Z.shiftr (code a) 2.
Definition sextet1 (a b : ascii) : Z := Z.lor (Z.shiftl (Z.land (code a) 3) 4) (Z.shiftr (code b) 4).
Definition sextet2 (b c : ascii) : Z := Z.lor (Z.shiftl (Z.land (code b) 15) 2) (Z.shiftr (code c) 6).
Definition sextet3 (c : ascii) : Z := Z.land (code c) 63.

Fixpoint base64_encode (s : bytes) : bytes :=
  match s with
  | a :: b :: c :: r =>
      map base64_char [sextet0 a; sextet1 a b; sextet2 b c; sextet3 c] ++ base64_encode r
  | [a; b] => map base64_char [sextet0 a; sextet1 a b; sextet2 b nul] ++ $"="
  | [a] => map base64_char [sextet0 a; sextet1 a nul] ++ $"=="
  | [] => []
  end.

(** A character of the alphabet goes through the loop's tests. *)
Definition base64_plain (v : Z) : bool :=
  let c := base64_char v in
  negb (c =c "%") && negb (Ref.isspace c) && negb (c =c "=") && (base64_value c =? v)%Z &&
  (0 <=? v)%Z.

Lemma byte_ind2 (P : ascii -> ascii -> bool) :
  allb (fun a => allb (P a) all_bytes) all_bytes = true -> forall a b, P a b = true.
Proof. intros H a. apply byte_ind. revert a. by apply (byte_ind (fun a => allb (P a) all_bytes)). Qed.

Lemma sextet0_plain a : base64_plain (sextet0 a) = true.
Proof. by_bytes a. Qed.
Lemma sextet3_plain c : base64_plain (sextet3 c) = true.
Proof. by_bytes c. Qed.
Lemma sextet1_plain a b : base64_plain (sextet1 a b) = true.
Proof. revert a b. apply byte_ind2. by vm_compute. Qed.
Lemma sextet2_plain b c : base64_plain (sextet2 b c) = true.
Proof. revert b c. apply byte_ind2. by vm_compute. Qed.

Lemma group_out0 a b : byte_of (Z.lor (Z.shiftl (sextet0 a) 2) (Z.shiftr (sextet1 a b) 4)) = a.
Proof.
  apply Ascii.eqb_eq. revert a b.
  apply (byte_ind2 (fun a b => byte_of (Z.lor (Z.shiftl (sextet0 a) 2) (Z.shiftr (sextet1 a b) 4)) =c a)).
  by vm_compute.
Qed.

Lemma group_out1_pre a b : Z.land (sextet1 a b) 15 = Z.shiftr (code b) 4.
Proof.
  apply Z.eqb_eq. revert a b.
  apply (byte_ind2 (fun a b => Z.land (sextet1 a b) 15 =? Z.shiftr (code b) 4)%Z). by vm_compute.
Qed.

Lemma group_out1 a b c :
  byte_of (Z.lor (Z.shiftl (Z.land (sextet1 a b) 15) 4) (Z.shiftr (sextet2 b c) 2)) = b.
Proof.
  rewrite group_out1_pre. apply Ascii.eqb_eq. revert b c.
  apply (byte_ind2 (fun b c =>
    byte_of (Z.lor (Z.shiftl (Z.shiftr (code b) 4) 4) (Z.shiftr (sextet2 b c) 2)) =c b)).
  by vm_compute.
Qed.

Lemma group_out2 b c :
  byte_of (Z.lor (Z.shiftl (Z.land (sextet2 b c) 3) 6) (sextet3 c)) = c.
Proof.
  apply Ascii.eqb_eq. revert b c.
  apply (byte_ind2 (fun b c =>
    byte_of (Z.lor (Z.shiftl (Z.land (sextet2 b c) 3) 6) (sextet3 c)) =c c)).
  by vm_compute.
Qed.

Lemma base64_plain_nonneg v : base64_plain v = true -> (0 <= v)%Z.
Proof. unfold base64_plain. intros H. cbv zeta in H. apply andb_prop in H as [_ H]. by apply Z.leb_le. Qed.

(** One turn of the loop on the value [v] of a character. *)
Lemma base64_loop_next f c v r q body total budget :
  (c =c "%") = false -> Ref.isspace c = false ->
  (if c =c "=" then -2 else base64_value c)%Z = v -> v <> (-1)%Z ->
  base64_loop (G := glib_ref) (S f) (c :: r) q false body total budget =
  match q ++ [v] with
  | [q0; q1; q2; q3] =>
      match base64_group q0 q1 q2 q3 with
      | None => MALFORMED body
      | Some (out, fin) =>
          match append_response_budgeted body out total budget with
          | None => TOO_LARGE body
          | Some (body, total) => base64_loop f r [] fin body total budget
          end
      end
  | q => base64_loop f r q false body total budget
  end.
Proof.
  intros H1 H2 H3 H4. cbn [base64_loop]. rewrite H1.
  change (g_ascii_isspace c) with (Ref.isspace c). rewrite H2, H3.
  by rewrite (proj2 (Z.eqb_neq _ _)).
Qed.

Lemma base64_loop_char f v r q body total budget :
  base64_plain v = true -> length q < 3 ->
  base64_loop (G := glib_ref) (S f) (base64_char v :: r) q false body total budget =
  base64_loop f r (q ++ [v]) false body total budget.
Proof.
  intros Hv Hq. pose proof (base64_plain_nonneg v Hv). unfold base64_plain in Hv. cbv zeta in Hv.
  set (c := base64_char v) in *. clearbody c. repeat apply andb_prop in Hv as [Hv ?].
  rewrite !negb_true_iff in *.
  rewrite (base64_loop_next f c v); [|done|done|by rewrite H2; apply Z.eqb_eq|lia].
  destruct q as [|? [|? [|? [|? ?]]]]; cbn in *; try done; lia.
Qed.

Lemma base64_loop_group f v r q0 q1 q2 body total budget :
  base64_plain v = true ->
  base64_loop (G := glib_ref) (S f) (base64_char v :: r) [q0; q1; q2] false body total budget =
  match base64_group q0 q1 q2 v with
  | None => MALFORMED body
  | Some (out, fin) =>
      match append_response_budgeted body out total budget with
      | None => TOO_LARGE body
      | Some (body, total) => base64_loop f r [] fin body total budget
      end
  end.
Proof.
  intros Hv. pose proof (base64_plain_nonneg v Hv). unfold base64_plain in Hv. cbv zeta in Hv.
  set (c := base64_char v) in *. clearbody c. repeat apply andb_prop in Hv as [Hv ?].
  rewrite !negb_true_iff in *.
  by rewrite (base64_loop_next f c v); [|done|done|by rewrite H2; apply Z.eqb_eq|lia].
Qed.

Lemma append_ok body data total budget :
  (total + zlen data <= budget)%Z -> (total + zlen data <= G_MAXUINT)%Z -> (0 <= total)%Z ->
  append_response_budgeted body data total budget = Some (body ++ data, total + zlen data)%Z.
Proof.
  intros H1 H2 H3. unfold append_response_budgeted.
  assert (0 <= zlen data)%Z by (unfold zlen; lia).
  destruct (Z.eqb_spec (zlen data) 0) as [E|E].
  { destruct data as [|c d]; [|unfold zlen in E; cbn in E; lia]. by rewrite app_nil_r, E, Z.add_0_r. }
  destruct (Z.ltb_spec G_MAXUINT (zlen data)); [lia|]. destruct (Z.ltb_spec budget total); [lia|].
  destruct (Z.ltb_spec (budget - total) (zlen data)); [lia|].
  by destruct (Z.ltb_spec G_MAXUINT (total + zlen data)); [lia|].
Qed.

Lemma group_full a b c :
  base64_group (sextet0 a) (sextet1 a b) (sextet2 b c) (sextet3 c) = Some ([a; b; c], false).
Proof.
  unfold base64_group.
  pose proof (base64_plain_nonneg _ (sextet0_plain a)). pose proof (base64_plain_nonneg _ (sextet1_plain a b)).
  pose proof (base64_plain_nonneg _ (sextet2_plain b c)). pose proof (base64_plain_nonneg _ (sextet3_plain c)).
  rewrite !(proj2 (Z.ltb_ge _ _)), !(proj2 (Z.eqb_neq _ _)) by lia.
  cbn [orb]. by rewrite group_out0, group_out1, group_out2.
Qed.

Lemma base64_decode_encode s f body total budget :
  length (base64_encode s) <= f -> (0 <= total)%Z ->
  (total + zlen s <= budget)%Z -> (total + zlen s <= G_MAXUINT)%Z ->
  base64_loop (G := glib_ref) f (base64_encode s) [] false body total budget = DECODED (body ++ s).
Proof.
  revert f body total. induction s as [s IH] using (well_founded_induction (Wf_nat.well_founded_ltof _ (@length ascii))).
  unfold Wf_nat.ltof in IH. intros f body total Hf H0 Hb Hm.
  assert (N0 : forall v, base64_plain v = true -> (v <? 0)%Z = false).
  { intros v Hv. apply Z.ltb_ge. by apply base64_plain_nonneg. }
  assert (N2 : forall v, base64_plain v = true -> (v =? -2)%Z = false).
  { intros v Hv. apply Z.eqb_neq. pose proof (base64_plain_nonneg v Hv). lia. }
  destruct s as [|a [|b [|c r]]].
  - destruct f; cbn; by rewrite app_nil_r.
  - cbn [base64_encode map app length] in *.
    do 4 (destruct f as [|f]; [change (length ($"==")) with 2 in Hf; lia|]).
    rewrite !base64_loop_char by (apply sextet0_plain || apply sextet1_plain || (cbn; lia)).
    change ($"==") with ["="%char; "="%char]. rewrite (base64_loop_next _ "=" (-2)) by done.
    cbn [app]. rewrite (base64_loop_next _ "=" (-2)) by done. cbn [app]. unfold base64_group.
    rewrite !N0 by (apply sextet0_plain || apply sextet1_plain). cbn [orb].
    change (-2 =? -2)%Z with true. cbv iota.
    rewrite group_out0, append_ok by (unfold zlen in *; cbn [length] in *; lia).
    destruct f; cbn; by rewrite ?app_nil_r.
  - cbn [base64_encode map app length] in *.
    do 4 (destruct f as [|f]; [change (length ($"=")) with 1 in Hf; lia|]).
    rewrite !base64_loop_char by (apply sextet0_plain || apply sextet1_plain || apply sextet2_plain || (cbn; lia)).
    change ($"=") with ["="%char]. rewrite (base64_loop_next _ "=" (-2)) by done.
    cbn [app]. unfold base64_group.
    rewrite !N0 by (apply sextet0_plain || apply sextet1_plain). cbn [orb].
    rewrite N2 by apply sextet2_plain. change (-2 =? -2)%Z with true. cbv iota.
    rewrite group_out0, group_out1, append_ok by (unfold zlen in *; cbn [length] in *; lia).
    destruct f; cbn; by rewrite ?app_nil_r.
  - cbn [base64_encode map app length] in *.
    do 4 (destruct f as [|f]; [lia|]).
    rewrite !base64_loop_char by (apply sextet0_plain || apply sextet1_plain || apply sextet2_plain || (cbn; lia)).
    cbn [app]. rewrite base64_loop_group by apply sextet3_plain.
    rewrite group_full. 
    assert (Hz : zlen (a :: b :: c :: r) = (3 + zlen r)%Z) by (unfold zlen; cbn [length]; lia).
    rewrite append_ok by (unfold zlen in *; cbn [length] in *; lia).
    rewrite IH; [by rewrite <- app_assoc|cbn; lia|cbn in Hf; lia|unfold zlen; cbn; lia| |];
      unfold zlen in *; cbn [length] in *; lia.
Qed.

(** A [data:] URL in base64 gives back the bytes it was made from, with its
    type, whenever they fit the budget. *)
Theorem data_url_base64_round_trip (G : GLib) (GS : GLibSpec G) (type data : bytes) (budget : Z) :
  free_of "," type = true -> Ref.strip_trailing (type ++ $";base64") = type ++ $";base64" ->
  type <> [] -> (zlen data <= budget)%Z -> (zlen data <= G_MAXUINT)%Z ->
  ns_data_url_decode (Some ($"data:" ++ type ++ $";base64," ++ base64_encode data)) [] budget =
  Some (type, DECODED data).
Proof.
  glib. intros Ht Hs Hn Hb Hm. unfold ns_data_url_decode.
  change (g_str_has_prefix (GLib := glib_ref)) with (fun s p : bytes => prefixb p s). cbv beta.
  rewrite prefixb_app. cbn [negb].
  change (drop 5 ($"data:" ++ ?x)) with (drop 0 x). rewrite drop_0.
  replace (type ++ $";base64," ++ base64_encode data)
    with ((type ++ $";base64") ++ ","%char :: base64_encode data) by (by rewrite <- app_assoc).
  assert (F : free_of "," (type ++ $";base64") = true) by (unfold free_of in *; by rewrite forallb_app, Ht).
  destruct (strchr_app (type ++ $";base64") "," (base64_encode data) F) as [-> ->].
  change (g_strchomp (type ++ $";base64")) with (Ref.strip_trailing (type ++ $";base64")). rewrite Hs.
  rewrite length_app. change (length ($";base64")) with 7.
  rewrite (proj2 (Nat.leb_le _ _)) by lia. replace (length type + 7 - 7) with (length type) by lia.
  rewrite drop_app_length, take_app_length.
  change (g_ascii_strcasecmp0 ($";base64") ($";base64")) with true. cbn [andb].
  cbn [drop]. rewrite drop_0. unfold decode_data_base64_budgeted.
  rewrite base64_decode_encode by (done || lia). destruct type; done.
Qed.

Lemma data_url_base64_round_trip_witness :
  ns_data_url_decode (G := glib_ref) (Some ($"data:image/png;base64,iVBORw==")) [] 1000 =
  Some ($"image/png", DECODED [byte_of 137; "P"%char; "N"%char; "G"%char]).
Proof.
  apply (data_url_base64_round_trip glib_ref glib_ref_spec ($"image/png") [byte_of 137; "P"%char; "N"%char; "G"%char] 1000);
    [by vm_compute|by vm_compute|done|by vm_compute|by vm_compute].
Defined.

(** *** The callbacks *)

(** libcurl delivers the chunks in turn ([size] is always 1) and stops at the first
    call that does not return the chunk's length. *)
Fixpoint deliver (ctx : ns_write_ctx) (chunks : list (Z * bytes)) : ns_write_ctx * list (Z * bytes) :=
  match chunks with
  | [] => (ctx, [])
  | (avail, d) :: rest =>
      let '(n, ctx') := ns_write_cb avail d 1 (zlen d) ctx in
      if (n =? zlen d)%Z then deliver ctx' rest else (ctx', chunks)
  end.

Lemma write_cb_spec avail d ctx :
  d <> [] ->
  let '(n, ctx') := ns_write_cb avail d 1 (zlen d) ctx in
  (n = zlen d /\ w_body ctx' = w_body ctx ++ d /\ w_total ctx' = (w_total ctx + zlen d)%Z /\
   (w_total ctx' <= w_budget ctx')%Z /\ (w_total ctx' <= G_MAXUINT)%Z /\ w_exceeded ctx' = w_exceeded ctx) \/
  (n = 0%Z /\ w_body ctx' = w_body ctx /\ w_total ctx' = w_total ctx /\
   (w_exceeded ctx' = true \/ (G_MAXUINT < zlen d)%Z)).
Proof.
  intros Hd. assert (Hp : (0 < zlen d)%Z) by (destruct d; [done|unfold zlen; cbn; lia]).
  unfold ns_write_cb. rewrite Z.mul_1_l. change (1 =? 0)%Z with false. cbn [negb andb].
  rewrite Z.div_1_r.
  destruct (Z.ltb_spec G_MAXSIZE (zlen d)).
  { right. repeat split; try done. right. unfold G_MAXSIZE, G_MAXUINT in *. lia. }
  destruct (Z.eqb_spec (zlen d) 0); [lia|].
  destruct (Z.ltb_spec G_MAXUINT (zlen d)); [right; auto|].
  destruct (w_next_recheck ctx <=? w_total ctx)%Z;
    (match goal with |- context [(?b <? ?x)%Z] => destruct (Z.ltb_spec b x) end; [right; cbn; auto|];
     match goal with |- context [(G_MAXUINT <? ?x)%Z] => destruct (Z.ltb_spec G_MAXUINT x) end; [right; cbn; auto|];
     left; cbn; auto 10).
Qed.

(** The body a transfer collects is a prefix of the chunks that were sent, each
    whole and in order, never more than a [guint] can count; when it stops early
    the context says so (or a single chunk was too big to count), and the last
    chunk taken fitted the budget of that moment. *)
Theorem write_cb_prefix (avail_data : list (Z * bytes)) (budget recheck : Z) :
  Forall (fun c => snd c <> []) avail_data ->
  let ctx0 := {| w_body := []; w_total := 0; w_budget := budget; w_next_recheck := recheck;
                 w_exceeded := false |} in
  let '(ctx, rest) := deliver ctx0 avail_data in
  exists taken, avail_data = taken ++ rest /\
    w_body ctx = concat (map snd taken) /\ w_total ctx = zlen (w_body ctx) /\
    (w_total ctx <= G_MAXUINT)%Z /\
    (rest <> [] -> w_exceeded ctx = true \/ exists d, In d rest /\ (G_MAXUINT < zlen (snd d))%Z) /\
    (rest = [] -> w_exceeded ctx = false /\ (taken <> [] -> (w_total ctx <= w_budget ctx)%Z)).
Proof.
  intros F ctx0.
  assert (X : forall chunks ctx, Forall (fun c => snd c <> []) chunks ->
    w_total ctx = zlen (w_body ctx) -> (w_total ctx <= G_MAXUINT)%Z -> w_exceeded ctx = false ->
    let '(ctx', rest) := deliver ctx chunks in
    exists taken, chunks = taken ++ rest /\ w_body ctx' = w_body ctx ++ concat (map snd taken) /\
      w_total ctx' = zlen (w_body ctx') /\ (w_total ctx' <= G_MAXUINT)%Z /\
      (rest <> [] -> w_exceeded ctx' = true \/ exists d, In d rest /\ (G_MAXUINT < zlen (snd d))%Z) /\
      (rest = [] -> w_exceeded ctx' = false /\ (taken <> [] -> (w_total ctx' <= w_budget ctx')%Z))).
  { clear. induction chunks as [|[avail d] chunks IH]; intros ctx F Ht Hm He; cbn [deliver].
    - exists []. cbn [map concat app]. rewrite app_nil_r. do 4 (split; [done|]). split; [by intros []|]. intros _. split; [done|by intros []].
    - inversion F as [|? ? Hd F']; subst. cbn [snd] in Hd.
      pose proof (write_cb_spec avail d ctx Hd) as S.
      destruct (ns_write_cb avail d 1 (zlen d) ctx) as [n ctx'].
      destruct S as [(-> & Hb & Ht' & Hbud & Hm' & He')|(-> & Hb & Ht' & Hx)].
      + rewrite Z.eqb_refl.
        assert (Hz : w_total ctx' = zlen (w_body ctx')).
        { rewrite Hb, Ht', Ht. unfold zlen. rewrite length_app. lia. }
        specialize (IH ctx' F' Hz Hm' ltac:(congruence)).
        destruct (deliver ctx' chunks) as [c2 rest] eqn:D. destruct IH as (taken & -> & Hb2 & Ht2 & Hm2 & Hr & Hn).
        exists ((avail, d) :: taken). split; [done|].
        split; [cbn [map snd concat]; by rewrite Hb2, Hb, <- app_assoc|].
        do 3 (split; [done|]). intros Hrest. destruct (Hn Hrest) as [He2 Hb3]. split; [done|].
        intros _. destruct taken as [|t ts]; [|by apply Hb3].
        subst rest. cbn in D. by injection D as <-.
      + assert (Hp : (0 < zlen d)%Z) by (destruct d; [done|unfold zlen; cbn; lia]).
        destruct (Z.eqb_spec 0 (zlen d)); [lia|]. exists []. cbn [map concat app]. rewrite app_nil_r, Hb, Ht'.
        do 4 (split; [done|]). split; [|done]. intros _. destruct Hx as [?|Hx]; [by left|right].
        exists (avail, d). split; [by left|done]. }
  specialize (X avail_data ctx0 F eq_refl ltac:(done) eq_refl).
  destruct (deliver ctx0 avail_data) as [ctx rest]. done.
Qed.

Lemma write_cb_prefix_witness :
  exists taken, [(0%Z, $"abc"); (0%Z, $"de"); (0%Z, $"f")] = taken ++ [(0%Z, $"de"); (0%Z, $"f")] /\
    $"abc" = concat (map snd taken).
Proof.
  destruct (write_cb_prefix [(0%Z, $"abc"); (0%Z, $"de"); (0%Z, $"f")] 4 100) as (taken & H1 & H2 & _).
  - repeat constructor; done.
  - exists taken. split; [exact H1|exact H2].
Defined.

(** The header block that is kept for scripts and the network log never holds a
    cookie: whatever lines arrive, it is made of whole lines that arrived, none a
    [Set-Cookie] or [Set-Cookie2], and it stays within 1 MiB. *)
Theorem header_block_without_cookies (G : GLib) (hc : ns_header_ctx) (lines : list bytes) :
  h_raw hc = None ->
  match h_raw (fold_left (fun hc l => (ns_header_cb l 1 (zlen l) hc).2) lines hc) with
  | None => True
  | Some raw => exists kept, raw = concat kept /\
      Forall (fun l => In l lines /\ is_set_cookie l = false) kept /\
      (zlen raw <= NS_NET_MAX_RAW_HEADER_BYTES)%Z
  end.
Proof.
  intros H0.
  assert (Hd : forall hc l, h_raw (header_dispatch hc l) = h_raw hc).
  { intros h l. unfold header_dispatch. destruct (List.find _ _) as [[n s]|]; [|done]. by destruct h, s. }
  assert (Hr : forall hc r, h_raw (set_raw hc r) = r) by (by intros []).
  assert (X : forall ls hc, incl ls lines ->
    match h_raw hc with
    | None => True
    | Some raw => exists kept, raw = concat kept /\
        Forall (fun l => In l lines /\ is_set_cookie l = false) kept /\ (zlen raw <= NS_NET_MAX_RAW_HEADER_BYTES)%Z
    end ->
    match h_raw (fold_left (fun hc l => (ns_header_cb l 1 (zlen l) hc).2) ls hc) with
    | None => True
    | Some raw => exists kept, raw = concat kept /\
        Forall (fun l => In l lines /\ is_set_cookie l = false) kept /\ (zlen raw <= NS_NET_MAX_RAW_HEADER_BYTES)%Z
    end).
  { clear H0 hc. induction ls as [|l ls IH]; intros hc Hi H; [done|]. cbn [fold_left].
    apply IH; [intros x Hx; apply Hi; by right|]. unfold ns_header_cb.
    destruct (negb (1 =? 0)%Z && _); [exact H|]. cbn [snd]. rewrite Hd, Hr. unfold raw_line.
    destruct (header_is l ($"HTTP/")).
    { destruct (h_raw hc); [|done]. exists []. by split; [|split; [constructor|]]. }
    destruct (2 <? length l); [|done]. destruct (is_set_cookie l) eqn:Hs; [done|].
    destruct (h_raw hc) as [raw|].
    - destruct H as (kept & -> & F & Hl). destruct (Z.leb_spec (zlen (concat kept) + zlen l) NS_NET_MAX_RAW_HEADER_BYTES).
      + exists (kept ++ [l]). rewrite concat_app. cbn [concat]. rewrite app_nil_r. split; [done|]. split.
        * apply Forall_app. split; [done|]. constructor; [|done]. split; [|done]. apply Hi. by left.
        * unfold zlen in *. rewrite length_app. lia.
      + by exists kept.
    - destruct (Z.leb_spec (zlen [] + zlen l) NS_NET_MAX_RAW_HEADER_BYTES).
      + exists [l]. cbn [concat app]. rewrite app_nil_r. split; [done|]. split; [|done].
        constructor; [|done]. split; [|done]. apply Hi. by left.
      + exists []. by split; [|split; [constructor|]]. }
  apply X; [apply incl_refl|by rewrite H0].
Qed.

Definition no_headers : ns_header_ctx :=
  Build_ns_header_ctx None None None None None None None None None None None None None None None false.

Lemma header_block_without_cookies_witness :
  exists kept, $"X-A: 1" = concat kept /\
    Forall (fun l => In l [$"HTTP/1.1 200"; $"X-A: 1"; $"set-cookie: a=b"] /\
                     is_set_cookie (G := glib_ref) l = false) kept.
Proof.
  pose proof (header_block_without_cookies glib_ref no_headers
    [$"HTTP/1.1 200"; $"X-A: 1"; $"set-cookie: a=b"] eq_refl) as H.
  change (h_raw (fold_left _ _ no_headers)) with (Some ($"X-A: 1")) in H.
  destruct H as (kept & H1 & H2 & _). exists kept. split; [exact H1|exact H2].
Defined.
