(* ===== verification/CspHeaders.v ===== *)
(** * The policies of a response ([src/net.c] with [src/csp.c])

    Where the header callback and the policy parser meet: every
    Content-Security-Policy line of a response is in force. *)

From S2P Require Import Prelude CStr GLib Config Url Csp Body.

(** The bytes of a header block, a line per call. *)
Definition read_headers {G : GLib} (hc : ns_header_ctx) (lines : list bytes) : ns_header_ctx :=
  fold_left (fun hc l => snd (ns_header_cb l 1 (zlen l) hc)) lines hc.

Definition csp_name : bytes := $"Content-Security-Policy:".
Definition csp_values {G : GLib} (lines : list bytes) : list bytes :=
  map (fun l => header_value_dup l (length csp_name)) (List.filter (fun l => header_is l csp_name) lines).

Lemma header_is_spec l name :
  header_is (G := glib_ref) l name = true <-> map lower (take (length name) l) = map lower name.
Proof.
  unfold header_is. change (g_ascii_strncasecmp0 (GLib := glib_ref)) with
    (fun a b n => map lower (take n a) =b map lower (take n b)). cbn beta.
  rewrite andb_true_iff, bool_decide_eq_true, (take_ge name) by lia.
  split; [by intros [_ ?]|]. intros E. split; [|done]. apply Nat.leb_le.
  apply (f_equal length) in E. rewrite !length_map, length_take in E. lia.
Qed.

(** Two of the names never match one line. *)
Lemma header_is_exclusive l n1 n2 :
  length n1 <= length n2 -> (map lower (take (length n1) n2) =b map lower n1) = false ->
  header_is (G := glib_ref) l n2 = true -> header_is (G := glib_ref) l n1 = false.
Proof.
  intros Hl Hd H2. apply not_true_is_false. intros H1%header_is_spec.
  apply header_is_spec in H2. apply bool_decide_eq_false in Hd. apply Hd.
  rewrite <- H1. rewrite <- !firstn_map, <- H2, !firstn_map, take_take.
  by rewrite Nat.min_l by done.
Qed.

Lemma set_csp hc slot v :
  h_csp (header_set hc slot v) = match slot with CSP => header_join (h_csp hc) v | _ => h_csp hc end.
Proof. by destruct hc, slot. Qed.

Lemma dispatch_csp hc l :
  h_csp (header_dispatch (G := glib_ref) hc l)
  = if header_is (G := glib_ref) l csp_name
    then header_join (h_csp hc) (header_value_dup l (length csp_name)) else h_csp hc.
Proof.
  unfold header_dispatch, header_names.
  destruct (header_is l csp_name) eqn:E.
  - assert (X : forall n, length n <= length csp_name ->
      (map lower (take (length n) csp_name) =b map lower n) = false -> header_is (G := glib_ref) l n = false).
    { intros n Hl Hd. exact (header_is_exclusive l n csp_name Hl Hd E). }
    do 6 (cbn [List.find fst]; rewrite X by (apply leb_complete || idtac; vm_compute; reflexivity)).
    cbn [List.find fst]. fold csp_name. rewrite E. by rewrite set_csp.
  - cbn [List.find fst]. fold csp_name. rewrite E.
    repeat match goal with
    | |- context [header_is l ?n] => destruct (header_is l n); [by rewrite set_csp|]
    end. done.
Qed.

Lemma header_line_csp hc l :
  (zlen l <= G_MAXSIZE)%Z ->
  h_csp (snd (ns_header_cb (G := glib_ref) l 1 (zlen l) hc))
  = if header_is (G := glib_ref) l csp_name
    then header_join (h_csp hc) (header_value_dup l (length csp_name)) else h_csp hc.
Proof.
  intros Hz. unfold ns_header_cb. change (G_MAXSIZE / 1)%Z with G_MAXSIZE.
  destruct (Z.ltb_spec G_MAXSIZE (zlen l)); [lia|]. rewrite andb_false_r. cbn [snd].
  rewrite dispatch_csp. by destruct hc.
Qed.

(** A leading space of a value changes none of its policies. *)
Lemma strip_space p : Ref.strip (" "%char :: p) = Ref.strip p.
Proof. done. Qed.

Lemma split_space n1 n2 w :
  length w <= n1 -> length w <= n2 ->
  map Ref.strip (Ref.split_go (S n1) (" "%char :: w) [","%char])
  = map Ref.strip (Ref.split_go (S n2) w [","%char]).
Proof.
  intros H1 H2. cbn [Ref.split_go strstr prefixb].
  change (bool_decide (","%char = " "%char)) with false. cbn [andb].
  destruct (strstr w [","%char]) as [[b r]|] eqn:E; cbn [map]; rewrite strip_space; [|done].
  do 2 f_equal. apply strstr_Some in E as [E Hr]. apply (f_equal length) in E.
  rewrite length_app in E. destruct r as [|d r]; [done|]. cbn [length] in E.
  cbn [length drop]. rewrite drop_0. apply split_go_fuel; lia.
Qed.

Lemma policies_space v : policies (G := glib_ref) (" "%char :: v) = policies (G := glib_ref) v.
Proof.
  rewrite !policies_eq. destruct v as [|c v]; [done|]. do 2 f_equal.
  unfold Ref.split. apply split_space; cbn [length]; lia.
Qed.

(** The policies collected so far. *)
Definition collected (slot : option bytes) : list ns_csp_policy :=
  match slot with Some h => policies (G := glib_ref) h | None => [] end.

Lemma collected_join slot v :
  collected (header_join slot v) = collected slot ++ policies (G := glib_ref) v.
Proof.
  destruct v as [|c v]; [destruct slot as [[|]|]; cbn [header_join collected]; by rewrite app_nil_r|].
  destruct slot as [[|d old]|]; cbn [header_join collected]; [done| |done].
  change ($", " ++ c :: v) with ($"," ++ " "%char :: c :: v).
  by rewrite policies_comma, policies_space.
Qed.

Lemma read_headers_csp hc lines :
  Forall (fun l => zlen l <= G_MAXSIZE)%Z lines ->
  collected (h_csp (read_headers (G := glib_ref) hc lines))
  = collected (h_csp hc) ++ concat (map (policies (G := glib_ref)) (csp_values (G := glib_ref) lines)).
Proof.
  unfold read_headers, csp_values. intros Hz. revert hc.
  induction Hz as [|l lines Hl _ IH]; intros hc; [by rewrite app_nil_r|].
  cbn [fold_left List.filter]. rewrite IH, header_line_csp by done.
  destruct (header_is l csp_name); [|done]. cbn [map concat].
  by rewrite collected_join, <- app_assoc.
Qed.

Lemma allows_policies (L : Lexbor) h kind url doc nonce pi :
  ns_csp_allows_with_nonce (G := glib_ref) (ns_csp_parse (G := glib_ref) h) kind url doc nonce pi =
  ns_csp_allows_with_nonce (G := glib_ref) (Some (collected h)) kind url doc nonce pi.
Proof.
  destruct h as [h|]; cbn [collected].
  - unfold policies, ns_csp_allows_with_nonce.
    destruct (ns_csp_parse (Some h)); [done|]. destruct url; [|done]. by case_bool_decide.
  - unfold ns_csp_allows_with_nonce. cbn. destruct url; [|done]. by case_bool_decide.
Qed.

Lemma allows_concat (L : Lexbor) ps kind url doc nonce pi :
  ns_csp_allows_with_nonce (G := glib_ref) (Some (concat ps)) kind url doc nonce pi =
  allb (fun p => ns_csp_allows_with_nonce (G := glib_ref) (Some p) kind url doc nonce pi) ps.
Proof.
  unfold ns_csp_allows_with_nonce. destruct url as [u|]; [|by induction ps].
  case_bool_decide; [by induction ps|]. induction ps as [|p ps IH]; [done|].
  cbn [concat forallb]. by rewrite allb_app, IH.
Qed.

(** C3. No policy of a response is lost between the network and its enforcement:
    whatever header lines a response has, in whatever order and however the name
    is cased, a fetch is allowed under the policy text the response carries on
    exactly when the value of each Content-Security-Policy line, taken alone,
    allows it; other lines change nothing. *)
Theorem csp_headers_enforced (G : GLib) (GS : GLibSpec G) (L : Lexbor) (hc : ns_header_ctx) lines
    kind url doc nonce pi :
  h_csp hc = None -> Forall (fun l => zlen l <= G_MAXSIZE)%Z lines ->
  ns_csp_allows_with_nonce (ns_csp_parse (h_csp (read_headers hc lines))) kind url doc nonce pi =
  allb (fun v => ns_csp_allows_with_nonce (ns_csp_parse (Some v)) kind url doc nonce pi)
    (csp_values lines).
Proof.
  intros H0 Hz. glib. rewrite allows_policies, read_headers_csp, H0 by done.
  cbn [collected app]. rewrite allows_concat. induction (csp_values lines) as [|v vs IH]; [done|].
  cbn [map forallb]. by rewrite IH, allows_policies.
Qed.

Lemma csp_headers_enforced_witness :
  let lines := [$"HTTP/1.1 200 OK" ++ [cr; nl];
                $"content-security-policy: img-src *" ++ [cr; nl];
                $"ETag: x" ++ [cr; nl];
                $"Content-Security-Policy: script-src 'none'" ++ [cr; nl]] in
  ns_csp_allows_with_nonce (G := glib_ref) (L := demo_lexbor)
    (ns_csp_parse (G := glib_ref) (h_csp (read_headers (G := glib_ref) no_headers lines)))
    NS_CSP_SCRIPT (Some ($"https://b.example/")) None None true = false.
Proof.
  intros lines.
  rewrite (csp_headers_enforced glib_ref glib_ref_spec demo_lexbor no_headers lines);
    [vm_compute; reflexivity|reflexivity|].
  repeat (apply Forall_cons_2; [apply Z.leb_le; vm_compute; reflexivity|]). apply Forall_nil_2.
Defined.
