(* ===== verification/Fetch.v ===== *)
(** * One fetch, through its redirects ([src/net.c])

    [ns_fetch_sync] and the small functions around it: the kind of a request, its
    origin, its keys. One hop - the request that goes out, [ns_fetch_sync_hop] with
    libcurl, the cache and the cookie jars behind it - is a parameter that may answer
    anything; so are the extension hooks and the error page. *)

From S2P Require Import Prelude CStr GLib Config Freenet FreenetNode Url Csp Body.

Definition NS_MAX_REDIRECTS : Z := 10.

Inductive ns_security :=
| NS_SEC_NONE | NS_SEC_SECURE | NS_SEC_INVALID | NS_SEC_PLAIN | NS_SEC_FREENET.
#[export] Instance ns_security_eq_dec : EqDecision ns_security.
Proof. solve_decision. Defined.

(** The fields of [ns_response] this file reads or writes. *)
Record ns_response := {
  status : Z;
  final_url : option bytes;
  content_type : option bytes;
  csp_header : option bytes;
  cors_allow_origin : option bytes;
  body : option bytes;
  r_error : option bytes;
  security : ns_security;
  redirect_count : Z;
}.
Definition response0 : ns_response :=
  {| status := 0; final_url := None; content_type := None; csp_header := None;
     cors_allow_origin := None; body := None; r_error := None; security := NS_SEC_NONE;
     redirect_count := 0 |}.

Definition with_error (e : bytes) (r : ns_response) : ns_response :=
  Build_ns_response (status r) (final_url r) (content_type r) (csp_header r)
    (cors_allow_origin r) (body r) (Some e) (security r) (redirect_count r).
Definition with_redirects (n : Z) (r : ns_response) : ns_response :=
  Build_ns_response (status r) (final_url r) (content_type r) (csp_header r)
    (cors_allow_origin r) (body r) (r_error r) (security r) n.

(** What one hop is asked for. *)
Record request := {
  q_url : bytes;
  q_top_url : option bytes;
  q_method : bytes;
  q_body : option bytes;
  q_content_type : option bytes;
}.

(** What [ns_ext_resource_load] finds: the bytes or an error. *)
Inductive ext_resource := EXT_BYTES (data : bytes) (type : option bytes) | EXT_ERROR (e : option bytes).

(** The calls the fetch makes; [e_hop n] is the answer of the n-th hop: a response
    with its [Location], or nothing. *)
Record fetch_env := {
  e_ext_resource : bytes -> option ext_resource;
  e_ext_should_block : bytes -> option bytes -> bool;
  e_diagnostics : option bytes;
  e_hop : nat -> request -> option (ns_response * option bytes);
  e_cancelled : nat -> bool;
  e_error_page : option bytes -> Z -> bytes -> option bytes;
}.

Section Fetch.
Context {G : GLib} {L : Lexbor} {P : Psl}.
Variable cfg : option ns_config.
Variable rs_contract_ids : option (bytes -> option bytes).
Variable env : fetch_env.

Definition is_simple_get (method : option bytes) : bool :=
  match method with
  | None | Some [] => true
  | Some m => g_ascii_strcasecmp0 m ($"GET")
  end.

Definition ns_fetch_is_navigation (top_url : option bytes) (extra_headers : option (list bytes)) : bool :=
  match top_url with
  | None => true
  | Some _ =>
      match extra_headers with
      | None => false
      | Some hs => existsb (fun h => g_ascii_strncasecmp0 h ($"X-ND-Navigate:") 14) hs
      end
  end.

Definition ns_freenet_expand_prefix (prefix : bytes) : option bytes :=
  match e_diagnostics env with
  | None => None
  | Some d => ns_freenet_find_key_with_prefix rs_contract_ids d prefix
  end.

Definition is_redirect_status (s : Z) : bool :=
  ((s =? 301) || (s =? 302) || (s =? 303) || (s =? 307) || (s =? 308))%Z.

(** The request after a redirect with this status to [next]. *)
Definition redirect_request (q : request) (s : Z) (next : bytes) : request :=
  if (s =? 303)%Z || (((s =? 301) || (s =? 302))%Z && negb (g_ascii_strcasecmp0 (q_method q) ($"GET")))
  then {| q_url := next; q_top_url := None; q_method := $"GET"; q_body := None; q_content_type := None |}
  else {| q_url := next; q_top_url := None; q_method := q_method q; q_body := q_body q;
          q_content_type := q_content_type q |}.

(** The redirect loop; [left] is how many redirects are still allowed ([max_redirs -
    hops]). The result is the response and the requests that went out, in order. *)
Fixpoint fetch_loop (left : nat) (started_https : bool) (hops : nat) (q : request)
    : option ns_response * list request :=
  let done_ r := (Some (with_redirects (Z.of_nat hops) r), [q]) in
  match e_hop env hops q with
  | None => (None, [q])
  | Some (resp, location) =>
      match location with
      | Some ((_ :: _) as loc) =>
          if negb (is_redirect_status (status resp)) ||
             match r_error resp with Some _ => true | None => false end
          then done_ resp
          else
            match left with
            | O => done_ (with_error ($"too many redirects") resp)
            | S left' =>
                let base := match final_url resp with Some b => b | None => q_url q end in
                match ns_url_resolve (Some base) (Some loc) with
                | None => done_ resp
                | Some next =>
                    if negb (ns_url_is_http_or_https (Some next)) ||
                       (started_https && negb (g_str_has_prefix next ($"https://")))
                    then done_ (with_error ($"redirect to a disallowed URL blocked") resp)
                    else if e_cancelled env hops then (None, [q])
                    else
                      let '(r, qs) := fetch_loop left' started_https (S hops)
                                        (redirect_request q (status resp) next) in
                      (r, q :: qs)
                end
            end
      | _ => done_ resp
      end
  end.

Definition max_redirs : Z :=
  let m := match cfg with Some c => cfg_int c max_redirects | None => NS_MAX_REDIRECTS end in
  let m := if (m <? 0)%Z then 0%Z else m in
  if (NS_MAX_REDIRECTS <? m)%Z then NS_MAX_REDIRECTS else m.

(** What a response that came through the gateway becomes. *)
Definition localize_response (freenet_url : bytes) (r : ns_response) : ns_response :=
  let final := match ns_freenet_from_gateway cfg (final_url r) with Some l => l | None => freenet_url end in
  let sec := if bool_decide (security r = NS_SEC_PLAIN) then NS_SEC_FREENET else security r in
  let csp := match ns_freenet_localize_csp cfg (csp_header r) (Some final) with
             | Some c => Some c | None => csp_header r end in
  let page :=
    match ns_freenet_node_error (status r) (body r) with
    | None => None
    | Some e => e_error_page env (Some final) (status r) e
    end in
  Build_ns_response (status r) (Some final)
    (match page with Some _ => Some ($"text/html; charset=utf-8") | None => content_type r end)
    csp (cors_allow_origin r)
    (match page with Some html => Some html | None => body r end)
    (r_error r) sec (redirect_count r).

(** The URL to ask for: [inr] for a freenet address that is none, [inl] with the
    freenet URL it came from. *)
Definition fetch_target (url : bytes) : (bytes * option bytes) + bytes :=
  if ns_freenet_is_url (Some url) then
    let url :=
      match ns_freenet_key_of (Some url) with
      | Some short_key =>
          if ns_freenet_key_is_full (Some short_key) then url
          else match ns_freenet_expand_prefix short_key with
               | None => url
               | Some full_key =>
                   match ns_freenet_with_key (Some url) full_key with
                   | Some e => e
                   | None => url
                   end
               end
      | None => url
      end in
    match ns_freenet_to_gateway cfg (Some url) with
    | None => inr url
    | Some g => inl (g, Some url)
    end
  else inl (url, None).

Definition ns_fetch_sync (url : bytes) (top_url method reqbody content_type : option bytes)
    (extra_headers : option (list bytes)) (navigation : bool) : option ns_response * list request :=
  match e_ext_resource env url with
  | Some (EXT_BYTES data type) =>
      (Some (Build_ns_response 200 (Some url) type None (Some ($"*")) (Some data) None NS_SEC_NONE 0), [])
  | Some (EXT_ERROR e) =>
      (Some (Build_ns_response 0 (Some url) None None None (Some []) e NS_SEC_NONE 0), [])
  | None =>
      if negb (ns_fetch_is_navigation top_url extra_headers) && negb navigation &&
         e_ext_should_block env url top_url
      then (Some (Build_ns_response 0 (Some url) None None None (Some [])
                    (Some ($"blocked by extension")) NS_SEC_NONE 0), [])
      else
        match fetch_target url with
        | inr bad =>
            (Some (Build_ns_response 0 (Some bad) None None None (Some [])
                     (Some ($"not a valid Freenet contract address")) NS_SEC_NONE 0), [])
        | inl (url, freenet_url) =>
            let m := match method with Some ((_ :: _) as m) => m | _ => $"GET" end in
            let started_https := g_str_has_prefix url ($"https://") in
            let '(r, qs) :=
              fetch_loop (Z.to_nat max_redirs) started_https 0
                {| q_url := url; q_top_url := top_url; q_method := m; q_body := reqbody;
                   q_content_type := content_type |} in
            (match r, freenet_url with
             | Some r, Some f => Some (localize_response f r)
             | _, _ => r
             end, qs)
        end
  end.

(** ** Keys of a request *)

(** [effective_user_agent] and [accept_language]: the two strings the request goes
    out with. *)
Definition ns_net_partition_key (ua accept_language : bytes) (url : bytes) (top_url : option bytes) : bytes :=
  let effective_top_url := match top_url with Some t => t | None => url end in
  let top_origin := ns_url_origin_from (Some effective_top_url) in
  let top_site := ns_url_site_from (Some effective_top_url) in
  let partition := match top_site with
                   | Some ((_ :: _) as s) => s
                   | _ => match top_origin with Some o => o | None => [] end
                   end in
  $"top=" ++ partition ++ ["031"%char] ++ $"ua=" ++ ua ++ ["031"%char] ++ $"al=" ++ accept_language.

Definition ns_net_request_origin (url : bytes) (top_url top_origin method : option bytes) : bytes :=
  match top_origin with
  | None | Some [] => []
  | Some o =>
      if existsb (fun c => (c =c "013") || (c =c "010")) o || (4096 <=? zlen o)%Z then []
      else if match top_url with
              | Some _ => negb (ns_url_same_origin top_url (Some url))
              | None => false
              end then o
      else
        match method with
        | Some ((_ :: _) as m) =>
            if negb (g_ascii_strcasecmp0 m ($"GET")) && negb (g_ascii_strcasecmp0 m ($"HEAD"))
            then o else []
        | _ => []
        end
  end.

Definition ns_net_request_key (ua accept_language : bytes) (url top_url method : option bytes)
    (extra_headers : option (list bytes)) : option bytes :=
  match url with
  | None => None
  | Some u =>
      if negb (ns_url_is_http_or_https url) then None
      else if match method with
              | Some ((_ :: _) as m) => negb (g_ascii_strcasecmp0 m ($"GET"))
              | _ => false
              end then None
      else Some ($"GET" ++ ["031"%char] ++ u ++ ["031"%char] ++
                 ns_net_partition_key ua accept_language u top_url ++
                 concat (map (fun h => "031"%char :: h) (match extra_headers with Some hs => hs | None => [] end)))
  end.

(** The destination a request names in its internal header. *)
Definition ns_net_fetch_destination (extra_headers : option (list bytes)) : bytes :=
  let value h :=
    if g_ascii_strncasecmp0 h ($"X-ND-Fetch-Dest:") 16 then
      let v := drop_while hv_lead (drop 16 h) in
      List.find (fun d => g_ascii_strcasecmp0 v d) [$"script"; $"style"; $"image"; $"font"]
    else None in
  match omap value (match extra_headers with Some hs => hs | None => [] end) with
  | d :: _ => d
  | [] => $"empty"
  end.

(** The request headers the log shows: not the internal ones. *)
Definition ns_net_slist_serialize (headers : option (list bytes)) : option bytes :=
  match headers with
  | None | Some [] => None
  | Some hs =>
      Some (concat (map (fun h => h ++ [nl])
              (List.filter (fun h => negb (g_str_has_prefix h ($"X-ND-"))) hs)))
  end.

End Fetch.

(** ** What a redirect calls for *)

Section Redirects.
Context {G : GLib} {L : Lexbor} (env : fetch_env).

(** The [n]-th hop, of [q], is answered with a redirect that names a place. *)
Definition answered_redirect (n : nat) (q : request) (resp : ns_response) (loc : bytes) : Prop :=
  e_hop env n q = Some (resp, Some loc) /\ loc <> [] /\ r_error resp = None /\
  In (status resp) [301; 302; 303; 307; 308]%Z.

Definition names_target (q : request) (resp : ns_response) (loc : bytes) : option bytes :=
  ns_url_resolve (Some (default (q_url q) (final_url resp))) (Some loc).

(** HTTP or HTTPS, and HTTPS only for a fetch that began there. *)
Definition permitted (https : bool) (u : bytes) : Prop :=
  ns_url_is_http_or_https (Some u) = true /\ (https = true -> g_str_has_prefix u ($"https://") = true).

(** What the request after a redirect with status [s] carries: 303 asks for a
    [GET] without a body, and so do 301 and 302 unless the method was [GET]; 307,
    308 and the others repeat method, body and type. *)
Definition called_for (s : Z) (q q' : request) : Prop :=
  let is_get := g_ascii_strcasecmp0 (q_method q) ($"GET") = true in
  q_top_url q' = None /\
  (s = 303%Z \/ (s = 301%Z \/ s = 302%Z) /\ ~ is_get ->
     q_method q' = $"GET" /\ q_body q' = None /\ q_content_type q' = None) /\
  (s = 307%Z \/ s = 308%Z \/ (s = 301%Z \/ s = 302%Z) /\ is_get ->
     q_method q' = q_method q /\ q_body q' = q_body q /\ q_content_type q' = q_content_type q).

(** Two requests in a row, as the answer to the first leads to the second. *)
Definition follows (https : bool) (n : nat) (q q' : request) : Prop :=
  exists resp loc, answered_redirect n q resp loc /\ names_target q resp loc = Some (q_url q') /\
    permitted https (q_url q') /\ e_cancelled env n = false /\ called_for (status resp) q q'.

Fixpoint chain (https : bool) (n : nat) (qs : list request) : Prop :=
  match qs with
  | q :: ((q' :: _) as rest) => follows https n q q' /\ chain https (S n) rest
  | _ => True
  end.

(** How the fetch ends with the [n]-th hop, of [q], when [limit] redirects are
    allowed: the answer is the result, marked when it is a redirect beyond the
    limit or to a place that is not permitted; there is no result when there was no
    answer or the fetch was cancelled. *)
Definition ends (https : bool) (limit n : nat) (q : request) (r : option ns_response) : Prop :=
  match e_hop env n q with
  | None => r = None
  | Some (resp, place) =>
      let marked e := Some (with_redirects (Z.of_nat n) (with_error e resp)) in
      (r = Some (with_redirects (Z.of_nat n) resp) /\
         forall loc, place = Some loc -> answered_redirect n q resp loc ->
           n < limit /\ names_target q resp loc = None) \/
      exists loc, place = Some loc /\ answered_redirect n q resp loc /\
        ((n = limit /\ r = marked ($"too many redirects")) \/
         (n < limit /\ exists next, names_target q resp loc = Some next /\
            ((~ permitted https next /\ r = marked ($"redirect to a disallowed URL blocked")) \/
             (permitted https next /\ e_cancelled env n = true /\ r = None))))
  end.
End Redirects.

(** ** Lemmas *)

Section Loop.
Context {L : Lexbor} (env : fetch_env).
#[local] Existing Instance glib_ref.

Lemma redirect_status_in s : is_redirect_status s = true <-> In s [301; 302; 303; 307; 308]%Z.
Proof.
  unfold is_redirect_status. cbn [In]. rewrite !orb_true_iff, !Z.eqb_eq. intuition lia.
Qed.

Lemma redirect_request_called_for q s next : called_for s q (redirect_request q s next).
Proof.
  unfold called_for, redirect_request.
  destruct (Z.eqb_spec s 303), (Z.eqb_spec s 301), (Z.eqb_spec s 302); try lia; cbn [orb andb];
    destruct (g_ascii_strcasecmp0 (q_method q) ($"GET")); cbn [negb q_top_url q_method q_body q_content_type];
    intuition (done || lia || congruence).
Qed.

Lemma redirect_request_url q s next : q_url (redirect_request q s next) = next.
Proof. unfold redirect_request. by destruct (_ || _). Qed.

Lemma permitted_spec https u :
  negb (ns_url_is_http_or_https (Some u)) || (https && negb (g_str_has_prefix u ($"https://"))) = false
  <-> permitted https u.
Proof.
  unfold permitted. destruct (ns_url_is_http_or_https (Some u)), https, (g_str_has_prefix u ($"https://"));
    cbn; intuition congruence.
Qed.

(** One turn of the loop: it ends with this hop, or follows its redirect. *)
Lemma fetch_loop_turn limit https hops q left :
  limit = hops + left ->
  (exists r, fetch_loop env left https hops q = (r, [q]) /\ ends env https limit hops q r) \/
  (exists left' q', left = S left' /\ follows env https hops q q' /\
     fetch_loop env left https hops q =
       let '(r, qs) := fetch_loop env left' https (S hops) q' in (r, q :: qs)).
Proof.
  intros Hl. destruct (e_hop env hops q) as [[resp loc]|] eqn:Eh.
  2:{ left. exists None. unfold ends. destruct left; cbn [fetch_loop]; by rewrite Eh. }
  assert (NR : (forall l, loc = Some l -> ~ answered_redirect env hops q resp l) ->
    ends env https limit hops q (Some (with_redirects (Z.of_nat hops) resp))).
  { intros N. unfold ends. rewrite Eh. left. split; [done|]. intros l E A. by destruct (N l E). }
  destruct loc as [[|c loc]|].
  1, 3: left; eexists; split; [destruct left; cbn [fetch_loop]; rewrite Eh; reflexivity|];
    apply NR; intros l E (_ & N & _); congruence.
  destruct (negb (is_redirect_status (status resp)) || match r_error resp with Some _ => true | None => false end) eqn:Es.
  { left. eexists. split; [destruct left; cbn [fetch_loop]; rewrite Eh; cbv iota; rewrite Es; reflexivity|].
    apply NR. intros l' _ (_ & _ & Er & A%redirect_status_in). by rewrite Er, A in Es. }
  apply orb_false_elim in Es as Es'. destruct Es' as [Es1 Es2]. apply negb_false_iff, redirect_status_in in Es1.
  assert (A : answered_redirect env hops q resp (c :: loc)).
  { split; [done|]. split; [done|]. split; [by destruct (r_error resp)|done]. }
  destruct left as [|left].
  { left. eexists. split; [cbn [fetch_loop]; rewrite Eh; cbv iota; rewrite Es; reflexivity|].
    unfold ends. rewrite Eh. right. exists (c :: loc). split; [done|]. split; [done|]. left. split; [lia|done]. }
  cbn [fetch_loop]. rewrite Eh. cbv iota. rewrite Es.
  assert (T : ns_url_resolve (Some (match final_url resp with Some b => b | None => q_url q end)) (Some (c :: loc))
              = names_target q resp (c :: loc)) by (unfold names_target; by destruct (final_url resp)).
  rewrite T. destruct (names_target q resp (c :: loc)) as [next|] eqn:En.
  2:{ left. eexists. split; [done|]. unfold ends. rewrite Eh. left. split; [done|]. intros l' [= <-] _. split; [lia|done]. }
  destruct (negb (ns_url_is_http_or_https (Some next)) || _) eqn:Ep.
  { left. eexists. split; [done|]. unfold ends. rewrite Eh. right. exists (c :: loc). split; [done|]. split; [done|]. right.
    split; [lia|]. exists next. split; [done|]. left. split; [|done]. intros P%permitted_spec. congruence. }
  apply permitted_spec in Ep. destruct (e_cancelled env hops) eqn:Ec.
  { left. eexists. split; [done|]. unfold ends. rewrite Eh. right. exists (c :: loc). split; [done|]. split; [done|]. right.
    split; [lia|]. exists next. eauto 6. }
  right. exists left, (redirect_request q (status resp) next). split; [done|]. split; [|done].
  exists resp, (c :: loc). rewrite redirect_request_url. repeat (split; [done|]). apply redirect_request_called_for.
Qed.

Lemma fetch_loop_spec limit left https hops q :
  limit = hops + left ->
  let '(r, qs) := fetch_loop env left https hops q in
  exists rest, qs = q :: rest /\ length rest <= left /\ chain env https hops qs /\
    ends env https limit (hops + length rest) (List.last rest q) r.
Proof.
  revert hops q. induction left as [|left IH]; intros hops q Hl;
    destruct (fetch_loop_turn limit https hops q _ Hl) as [(r & -> & E)|(left' & q' & El & F & ->)]; try done.
  1, 2: exists []; cbn [length]; rewrite Nat.add_0_r; repeat split; done || lia.
  injection El as <-. specialize (IH (S hops) q' ltac:(lia)).
  destruct (fetch_loop env left https (S hops) q') as [r qs]. destruct IH as (rest & -> & Hle & Hc & He).
  exists (q' :: rest). split; [done|]. cbn [length]. split; [lia|]. split; [done|].
  replace (hops + S (length rest)) with (S hops + length rest) by lia.
  replace (List.last (q' :: rest) q) with (List.last rest q'); [done|].
  clear. revert q'. induction rest as [|x rest IH]; intros q'; [done|]. cbn [List.last] in *. by destruct rest.
Qed.
End Loop.

Lemma max_redirs_range cfg : (0 <= max_redirs cfg <= 10)%Z.
Proof.
  unfold max_redirs, NS_MAX_REDIRECTS. cbv zeta.
  generalize (match cfg with Some c => cfg_int c max_redirects | None => 10%Z end). intros m.
  destruct (Z.ltb_spec m 0).
  - destruct (Z.ltb_spec 10 0); lia.
  - destruct (Z.ltb_spec 10 m); lia.
Qed.

(** A result as the caller sees it: a response of the node is put into the terms
    of its freenet address, which changes neither its status nor what the redirects
    put there. *)
Definition seen_as (r r0 : option ns_response) : Prop :=
  match r, r0 with
  | Some a, Some b => status a = status b /\ r_error a = r_error b /\ redirect_count a = redirect_count b
  | None, None => True
  | _, _ => False
  end.

Lemma fetch_sync_spec (L : Lexbor) (cfg : option ns_config)
    (rs : option (bytes -> option bytes)) (env : fetch_env) (url : bytes)
    (top_url method reqbody ctype : option bytes) (extra : option (list bytes)) (nav : bool) :
  let '(r, qs) := ns_fetch_sync (G := glib_ref) cfg rs env url top_url method reqbody ctype extra nav in
  match qs with
  | [] => exists resp, r = Some resp /\ redirect_count resp = 0%Z
  | q :: rest =>
      let https := prefixb ($"https://") (q_url q) in
      length rest <= Z.to_nat (max_redirs cfg) /\ chain (G := glib_ref) env https 0 qs /\
      (q_top_url q = top_url /\ q_body q = reqbody /\ q_content_type q = ctype /\
       q_method q = match method with Some ((_ :: _) as m) => m | _ => $"GET" end) /\
      exists r0, ends (G := glib_ref) env https (Z.to_nat (max_redirs cfg)) (length rest) (List.last rest q) r0 /\
        seen_as r r0
  end.
Proof.
  unfold ns_fetch_sync.
  destruct (e_ext_resource env url) as [[data type|e]|]; [eauto|eauto|].
  destruct (negb _ && _ && _); [eauto|].
  destruct (fetch_target cfg rs env url) as [[u f]|bad]; [|eauto].
  set (q := Build_request _ _ _ _ _). glib_simpl.
  pose proof (fetch_loop_spec env (Z.to_nat (max_redirs cfg)) (Z.to_nat (max_redirs cfg))
    (prefixb ($"https://") u) 0 q eq_refl) as S.
  destruct (fetch_loop env _ _ 0 q) as [r qs]. destruct S as (rest & -> & Hl & Hc & Hr).
  cbv zeta. split; [done|]. split; [exact Hc|]. split; [done|]. exists r. split; [exact Hr|].
  by destruct r, f.
Qed.

(** C20. The redirect loop, whatever the servers answer: it ends within the
    configured number of redirects, never more than ten. Each request after the
    first goes where the answer of the hop before it - a 301, 302, 303, 307 or 308
    with a place and no error - names, to an HTTP or HTTPS URL, to HTTPS when the
    fetch began there; it is a [GET] without a body after a 303, and after a 301 or
    302 of another method than [GET], and repeats method, body and type otherwise.
    The result is the answer of the last hop with the number of redirects followed:
    not a redirect, or one whose place does not resolve, or marked as an error
    because it is one beyond the limit or to a place that is not permitted. *)
Theorem fetch_sync_redirects (G : GLib) (GS : GLibSpec G) (L : Lexbor) (cfg : option ns_config)
    (rs : option (bytes -> option bytes)) (env : fetch_env) (url : bytes)
    (top_url method reqbody ctype : option bytes) (extra : option (list bytes)) (nav : bool) :
  let '(r, qs) := ns_fetch_sync cfg rs env url top_url method reqbody ctype extra nav in
  match qs with
  | [] => exists resp, r = Some resp /\ redirect_count resp = 0%Z
  | q :: rest =>
      let https := prefixb ($"https://") (q_url q) in
      (Z.of_nat (length rest) <= max_redirs cfg <= 10)%Z /\
      chain env https 0 qs /\
      (q_top_url q = top_url /\ q_body q = reqbody /\ q_content_type q = ctype /\
       q_method q = match method with Some ((_ :: _) as m) => m | _ => $"GET" end) /\
      exists r0, ends env https (Z.to_nat (max_redirs cfg)) (length rest) (List.last rest q) r0 /\ seen_as r r0
  end.
Proof.
  glib. pose proof (fetch_sync_spec L cfg rs env url top_url method reqbody ctype extra nav) as S.
  destruct (ns_fetch_sync _ _ _ _ _ _ _ _ _ _) as [r [|q rest]]; [exact S|].
  pose proof (max_redirs_range cfg). destruct S as (Hl & S). split; [lia|exact S].
Qed.

Lemma fetch_sync_redirects_witness :
  let hop n q := match n with
                 | 0 => Some (Build_ns_response 303 None None None None (Some []) None NS_SEC_SECURE 0,
                              Some ($"https://b.example/"))
                 | _ => Some (response0, None)
                 end in
  let L := demo_lexbor in
  let env := Build_fetch_env (fun _ => None) (fun _ _ => false) None hop (fun _ => false) (fun _ _ _ => None) in
  let q1 := {| q_url := $"https://a.example/app/page"; q_top_url := None; q_method := $"POST";
               q_body := Some ($"secret"); q_content_type := None |} in
  let q2 := {| q_url := $"https://b.example/"; q_top_url := None; q_method := $"GET"; q_body := None;
               q_content_type := None |} in
  chain (G := glib_ref) env true 0 [q1; q2].
Proof.
  intros hop L env q1 q2.
  pose proof (fetch_sync_redirects glib_ref glib_ref_spec L None None env ($"https://a.example/app/page")
    None (Some ($"POST")) (Some ($"secret")) None None false) as H.
  assert (E : (ns_fetch_sync (G := glib_ref) None None env ($"https://a.example/app/page") None
    (Some ($"POST")) (Some ($"secret")) None None false).2 = [q1; q2]) by by vm_compute.
  destruct (ns_fetch_sync _ _ _ _ _ _ _ _ _ _) as [r qs]. cbn [snd] in E. subst qs.
  destruct H as (_ & H & _). exact H.
Defined.

(** A [HEAD] redirected with 302 becomes a [GET], and so does a [PUT]; the Fetch
    standard changes only a [POST] there. *)
Example head_becomes_get :
  q_method (redirect_request (G := glib_ref)
    {| q_url := $"https://a.example/"; q_top_url := None; q_method := $"HEAD"; q_body := None;
       q_content_type := None |} 302 ($"https://b.example/")) = $"GET".
Proof. vm_compute. reflexivity. Qed.

(** What a request keeps of the first of its chain. *)
Definition same_or_get (q q' : request) : Prop :=
  q_top_url q' = None /\
  (q_method q' = q_method q /\ q_body q' = q_body q /\ q_content_type q' = q_content_type q \/
   q_method q' = $"GET" /\ q_body q' = None /\ q_content_type q' = None).

Lemma called_for_same_or_get s q q' :
  In s [301; 302; 303; 307; 308]%Z -> called_for (G := glib_ref) s q q' -> same_or_get q q'.
Proof.
  intros Hs (Ht & Hget & Hsame). split; [done|]. cbn [In] in Hs.
  destruct (@g_ascii_strcasecmp0 glib_ref (q_method q) ($"GET")) eqn:E.
  - destruct (decide (s = 303%Z)) as [->|]; [right; by apply Hget; left|left; apply Hsame; intuition lia].
  - destruct (decide (s = 307%Z \/ s = 308%Z)); [left; apply Hsame; tauto|right; apply Hget].
    destruct (decide (s = 303%Z)); [by left|right; split; [intuition lia|done]].
Qed.

Lemma chain_same_or_get env {L : Lexbor} https n q rest :
  chain (G := glib_ref) env https n (q :: rest) -> Forall (same_or_get q) rest.
Proof.
  revert n q. induction rest as [|q' rest IH]; intros n q; [by constructor|].
  intros [(resp & loc & (_ & _ & _ & Hs) & _ & _ & _ & E) Hc]. specialize (IH (S n) q' Hc).
  apply called_for_same_or_get in E as H; [|done].
  constructor; [done|]. eapply Forall_impl; [exact IH|]. intros q2 [Ht H2]. split; [done|].
  destruct H as [_ [(H3 & H4 & H5)|(H3 & H4 & H5)]], H2 as [(H6 & H7 & H8)|(H6 & H7 & H8)];
    rewrite ?H6, ?H7, ?H8, ?H3, ?H4, ?H5; auto.
Qed.

Lemma chain_suffix env {L : Lexbor} https n first pre q post :
  chain (G := glib_ref) env https n (first :: pre ++ q :: post) ->
  exists m, chain (G := glib_ref) env https m (q :: post).
Proof.
  revert n first. induction pre as [|p pre IH]; intros n first [_ H]; [eauto|]. by apply (IH (S n) p).
Qed.

(** What later requests of a fetch carry: each either repeats the method, the body
    and the type of the first, or is a [GET] with neither; so a body once dropped
    is never sent again. None of them names the page that started the fetch. *)
Theorem redirect_body_and_top (G : GLib) (GS : GLibSpec G) (L : Lexbor) (cfg : option ns_config)
    (rs : option (bytes -> option bytes)) (env : fetch_env) (url : bytes)
    (top_url method reqbody ctype : option bytes) (extra : option (list bytes)) (nav : bool)
    (first : request) (rest : list request) :
  (ns_fetch_sync cfg rs env url top_url method reqbody ctype extra nav).2 = first :: rest ->
  q_body first = reqbody /\ Forall (same_or_get first) rest /\
  forall pre q post, rest = pre ++ q :: post -> q_body q = None ->
    Forall (fun q' => q_body q' = None) post.
Proof.
  glib. intros H.
  pose proof (fetch_sync_spec L cfg rs env url top_url method reqbody ctype extra nav) as S.
  destruct (ns_fetch_sync cfg rs env url top_url method reqbody ctype extra nav) as [r qs].
  cbn [snd] in H. subst qs. destruct S as (_ & Hc & (_ & Hb & _) & _).
  split; [done|]. split; [by eapply chain_same_or_get|].
  intros pre q post -> Hq. apply chain_suffix in Hc as [m Hc]. apply chain_same_or_get in Hc.
  eapply Forall_impl; [exact Hc|]. intros q' [_ [(_ & E & _)|(_ & E & _)]]; congruence.
Qed.

Lemma redirect_body_and_top_witness :
  let hop n q := match n with
                 | 0 => Some (Build_ns_response 307 None None None None (Some []) None NS_SEC_SECURE 0,
                              Some ($"https://b.example/"))
                 | _ => Some (response0, None)
                 end in
  let L := demo_lexbor in
  let env := Build_fetch_env (fun _ => None) (fun _ _ => false) None hop (fun _ => false) (fun _ _ _ => None) in
  let q u := {| q_url := u; q_top_url := None; q_method := $"POST"; q_body := Some ($"b");
                q_content_type := None |} in
  Forall (same_or_get (q ($"https://a.example/app/page"))) [q ($"https://b.example/")].
Proof.
  intros hop L env q.
  apply (redirect_body_and_top glib_ref glib_ref_spec L None None env ($"https://a.example/app/page")
    None (Some ($"POST")) (Some ($"b")) None None false). by vm_compute.
Defined.
