(* ===== verification/Throttle.v ===== *)
(** * Sharing the network between fetches ([src/net.c])

    The three tables that threads share under a mutex: the per-origin slots, the
    queue of asynchronous fetches with its limits, and the coalescing of equal
    requests with the store of preloaded responses. For the slots and the
    coalescing a critical section is one step, and steps of different threads
    interleave in any order. For the queue an event is a whole submission or a
    whole end of a fetch: its own critical section and those of the dispatch loop
    it calls, run without another thread in between. *)

From S2P Require Import Prelude CStr GLib.

(** ** Slots per origin *)

Module Slots.
Section Slots.
Context {G : GLib}.

Definition NS_NET_MAX_PER_ORIGIN : nat := 6.

(** [g_origin_slots]: the slots in use by key. *)
Abbreviation table := (gmap bytes nat).

Definition origin_slot_key (origin : option bytes) : option bytes :=
  match origin with
  | Some ((_ :: _) as o) => Some (g_ascii_strdown o)
  | _ => None
  end.

Definition in_use (t : table) (key : bytes) : nat := default 0 (t !! key).

Inductive turn := ACQUIRED | WAITING | REFUSED.

(** One turn of the waiting loop of [ns_net_acquire_origin_slot], with the lock
    held. *)
Definition ns_net_acquire_origin_slot (t : table) (origin : option bytes) (cancelled : bool)
    : turn * table :=
  match origin_slot_key origin with
  | None => (REFUSED, t)
  | Some key =>
      let t := match t !! key with Some _ => t | None => <[key := 0]> t end in
      if NS_NET_MAX_PER_ORIGIN <=? in_use t key
      then (if cancelled then REFUSED else WAITING, t)
      else (ACQUIRED, <[key := S (in_use t key)]> t)
  end.

Definition ns_net_release_origin_slot (t : table) (origin : option bytes) : table :=
  match origin_slot_key origin with
  | None => t
  | Some key =>
      match t !! key with
      | Some (S n) => <[key := n]> t
      | _ => t
      end
  end.

(** The threads inside [ns_fetch_sync_hop] that hold a slot, with the origin they
    acquired it for. *)
Record state := { slots : table; holders : gmap nat bytes }.

Inductive step : state -> state -> Prop :=
| step_acquire s th origin cancelled t' :
    holders s !! th = None ->
    ns_net_acquire_origin_slot (slots s) (Some origin) cancelled = (ACQUIRED, t') ->
    step s {| slots := t'; holders := <[th := origin]> (holders s) |}
| step_turned_away s origin cancelled r t' :
    ns_net_acquire_origin_slot (slots s) origin cancelled = (r, t') -> r <> ACQUIRED ->
    step s {| slots := t'; holders := holders s |}
| step_release s th origin :
    holders s !! th = Some origin ->
    step s {| slots := ns_net_release_origin_slot (slots s) (Some origin);
              holders := delete th (holders s) |}.

Definition init : state := {| slots := ∅; holders := ∅ |}.
End Slots.
End Slots.

(** ** The queue of fetches *)

Module Queue.

Definition NS_MAX_CONCURRENT_FETCHES : nat := 32.
Definition NS_MAX_FETCHES_PER_HOST : Z := 6.

(** A task and the host of its URL ([ns_fetch_task_host]). *)
Record task := { task_id : nat; task_host : option bytes }.

Record state := {
  g_fetch_queue : list task;
  g_fetch_active : Z;
  g_fetch_host_active : gmap bytes Z;
  running : list task;   (* the tasks handed to a thread and not finished *)
}.

Definition ns_fetch_host_count_locked (h : gmap bytes Z) (host : option bytes) : Z :=
  match host with
  | None => 0
  | Some k => default 0%Z (h !! k)
  end.

Definition ns_fetch_host_adjust_locked (h : gmap bytes Z) (host : option bytes) (delta : Z) : gmap bytes Z :=
  match host with
  | None => h
  | Some k =>
      let n := (ns_fetch_host_count_locked h host + delta)%Z in
      if (n <=? 0)%Z then delete k h else <[k := n]> h
  end.

Definition may_run (h : gmap bytes Z) (t : task) : bool :=
  match task_host t with
  | None => true
  | Some _ => (ns_fetch_host_count_locked h (task_host t) <? NS_MAX_FETCHES_PER_HOST)%Z
  end.

(** The first task of the queue whose host has room, and the queue without it. *)
Fixpoint choose (h : gmap bytes Z) (q : list task) : option (task * list task) :=
  match q with
  | [] => None
  | t :: q' =>
      if may_run h t then Some (t, q')
      else match choose h q' with
           | Some (c, rest) => Some (c, t :: rest)
           | None => None
           end
  end.

Fixpoint dispatch_loop (fuel : nat) (s : state) : state :=
  match fuel with
  | O => s
  | S fuel' =>
      if (Z.of_nat NS_MAX_CONCURRENT_FETCHES <=? g_fetch_active s)%Z || (length (g_fetch_queue s) =? 0)
      then s
      else
        match choose (g_fetch_host_active s) (g_fetch_queue s) with
        | None => s
        | Some (c, rest) =>
            dispatch_loop fuel'
              {| g_fetch_queue := rest;
                 g_fetch_active := (g_fetch_active s + 1)%Z;
                 g_fetch_host_active := ns_fetch_host_adjust_locked (g_fetch_host_active s) (task_host c) 1;
                 running := c :: running s |}
        end
  end.

(** Each turn takes a task off the queue. *)
Definition ns_fetch_throttle_dispatch (s : state) : state :=
  dispatch_loop (S (length (g_fetch_queue s))) s.

Definition ns_fetch_throttle_submit (t : task) (s : state) : state :=
  ns_fetch_throttle_dispatch
    {| g_fetch_queue := g_fetch_queue s ++ [t]; g_fetch_active := g_fetch_active s;
       g_fetch_host_active := g_fetch_host_active s; running := running s |}.

(** The end of [ns_fetch_thread] for the [n]-th running task. *)
Definition fetch_thread_finish (n : nat) (s : state) : state :=
  match running s !! n with
  | None => s
  | Some t =>
      ns_fetch_throttle_dispatch
        {| g_fetch_queue := g_fetch_queue s;
           g_fetch_active := if (0 <? g_fetch_active s)%Z then (g_fetch_active s - 1)%Z else g_fetch_active s;
           g_fetch_host_active := ns_fetch_host_adjust_locked (g_fetch_host_active s) (task_host t) (-1);
           running := take n (running s) ++ drop (S n) (running s) |}
  end.

Inductive event := SUBMIT (t : task) | FINISH (n : nat).
Definition apply_event (s : state) (e : event) : state :=
  match e with
  | SUBMIT t => ns_fetch_throttle_submit t s
  | FINISH n => fetch_thread_finish n s
  end.
Definition init : state :=
  {| g_fetch_queue := []; g_fetch_active := 0; g_fetch_host_active := ∅; running := [] |}.
End Queue.

(** ** Coalesced and preloaded requests *)

Module Shared.
Section Shared.
Context {G : GLib}.

Definition NS_PRELOAD_MAX_ENTRIES : nat := 64.
Definition NS_PRELOAD_MAX_BYTES : Z := 16 * 1024 * 1024.

(** What these tables look at of a response. *)
Record ns_response := {
  status : Z;
  has_error : bool;
  body : option bytes;
  raw_headers : option bytes;
}.

Definition body_len (r : ns_response) : Z :=
  match body r with Some b => Z.of_nat (length b) | None => 0 end.

(** A group: the tasks and the blocked threads that wait for one request. *)
Record ns_coalesce_group := { tasks : list nat; syncs : list nat }.

(** [completed]: what a waiter was given, at most once each ([None]: an error). *)
Record state := {
  g_fetch_coalesce : gmap bytes ns_coalesce_group;
  g_preload_expected : gset bytes;
  g_preload_store : gmap bytes ns_response;
  g_preload_bytes : Z;
  completed : list (nat * option ns_response);
}.

Definition ns_response_forbids_reuse (r : ns_response) : bool :=
  match raw_headers r with
  | None => false
  | Some h => contains (g_ascii_strdown h) ($"no-store")
  end.

Definition set_preload (s : state) (e : gset bytes) (st : gmap bytes ns_response) (n : Z) : state :=
  {| g_fetch_coalesce := g_fetch_coalesce s; g_preload_expected := e; g_preload_store := st;
     g_preload_bytes := n; completed := completed s |}.

Definition ns_net_preload_expect (key : option bytes) (s : state) : state :=
  match key with
  | None => s
  | Some k =>
      if size (g_preload_expected s) <? NS_PRELOAD_MAX_ENTRIES
      then set_preload s ({[ k ]} ∪ g_preload_expected s) (g_preload_store s) (g_preload_bytes s)
      else s
  end.

Definition ns_net_preload_clear (s : state) : state := set_preload s ∅ ∅ 0.

(** [g_preload_bytes] less the length of an entry that leaves the store. *)
Definition minus_len (n len : Z) : Z := if (len <? n)%Z then (n - len)%Z else 0%Z.

Definition ns_preload_take_locked (key : bytes) (s : state) : option ns_response * state :=
  match g_preload_store s !! key with
  | None => (None, s)
  | Some r =>
      (Some r, set_preload s (g_preload_expected s) (delete key (g_preload_store s))
                 (minus_len (g_preload_bytes s) (body_len r)))
  end.

Definition ns_preload_store_locked (key : bytes) (r : ns_response) (s : state) : state :=
  if negb (bool_decide (key ∈ g_preload_expected s)) then s
  else
    let s := set_preload s (g_preload_expected s ∖ {[ key ]}) (g_preload_store s) (g_preload_bytes s) in
    match body r with
    | None => s
    | Some _ =>
        if negb (status r =? 200)%Z || has_error r then s
        else if (NS_PRELOAD_MAX_BYTES <? body_len r)%Z then s
        else if (NS_PRELOAD_MAX_BYTES <? wrap_u 32 (g_preload_bytes s + body_len r))%Z then s
        else if ns_response_forbids_reuse r then s
        else
          match g_preload_store s !! key with
          | Some _ => s
          | None =>
              set_preload s (g_preload_expected s) (<[key := r]> (g_preload_store s))
                (wrap_u 32 (g_preload_bytes s + body_len r))
          end
    end.

Inductive ns_fetch_claim := NS_FETCH_LEAD | NS_FETCH_JOINED | NS_FETCH_PRELOADED (r : ns_response).

Definition set_group (s : state) (m : gmap bytes ns_coalesce_group) : state :=
  {| g_fetch_coalesce := m; g_preload_expected := g_preload_expected s;
     g_preload_store := g_preload_store s; g_preload_bytes := g_preload_bytes s;
     completed := completed s |}.

Definition ns_fetch_claim_locked (key : bytes) (s : state) : ns_fetch_claim * state :=
  match ns_preload_take_locked key s with
  | (Some hit, s) => (NS_FETCH_PRELOADED hit, s)
  | (None, s) =>
      match g_fetch_coalesce s !! key with
      | Some _ => (NS_FETCH_JOINED, s)
      | None => (NS_FETCH_LEAD, set_group s (<[key := {| tasks := []; syncs := [] |}]> (g_fetch_coalesce s)))
      end
  end.

(** [ns_fetch_join_async] and the first half of [ns_fetch_join_sync]: the claim,
    and the place in the group when there is one; [waiter] is the new task or
    thread. *)
Definition join (sync : bool) (key : bytes) (waiter : nat) (s : state) : ns_fetch_claim * state :=
  match ns_fetch_claim_locked key s with
  | (NS_FETCH_JOINED, s) =>
      (NS_FETCH_JOINED,
       match g_fetch_coalesce s !! key with
       | None => s
       | Some g =>
           set_group s (<[key := if sync then {| tasks := tasks g; syncs := syncs g ++ [waiter] |}
                                 else {| tasks := tasks g ++ [waiter]; syncs := syncs g |}]>
                          (g_fetch_coalesce s))
       end)
  | r => r
  end.

(** A blocked thread that gives up (the deadline, or the network going down). *)
Definition join_sync_abandon (key : bytes) (waiter : nat) (s : state) : state :=
  match g_fetch_coalesce s !! key with
  | None => s
  | Some g =>
      set_group s (<[key := {| tasks := tasks g; syncs := filter (fun w => w <> waiter) (syncs g) |}]>
                     (g_fetch_coalesce s))
  end.

(** [None]: the fetch failed. *)
Definition ns_fetch_coalesce_deliver (key : bytes) (resp : option ns_response) (s : state) : state :=
  let s := match resp with
           | Some r => ns_preload_store_locked key r s
           | None => set_preload s (g_preload_expected s ∖ {[ key ]}) (g_preload_store s) (g_preload_bytes s)
           end in
  match g_fetch_coalesce s !! key with
  | None => s
  | Some g =>
      {| g_fetch_coalesce := delete key (g_fetch_coalesce s);
         g_preload_expected := g_preload_expected s; g_preload_store := g_preload_store s;
         g_preload_bytes := g_preload_bytes s;
         completed := completed s ++ map (fun w => (w, resp)) (syncs g ++ tasks g) |}
  end.

Definition init : state :=
  {| g_fetch_coalesce := ∅; g_preload_expected := ∅; g_preload_store := ∅;
     g_preload_bytes := 0; completed := [] |}.

(** The critical sections; a waiter's number is used once. *)
Inductive step : state -> state -> Prop :=
| step_expect s key : step s (ns_net_preload_expect key s)
| step_clear s : step s (ns_net_preload_clear s)
| step_join s sync key waiter c s' :
    join sync key waiter s = (c, s') ->
    waiter ∉ map fst (completed s) ->
    (forall k g, g_fetch_coalesce s !! k = Some g -> waiter ∉ tasks g ++ syncs g) ->
    step s s'
| step_abandon s key waiter : step s (join_sync_abandon key waiter s)
| step_deliver s key resp : step s (ns_fetch_coalesce_deliver key resp s).
End Shared.
End Shared.

(** ** Hosts that do not answer *)

Module DeadHosts.
Definition NS_DEAD_HOST_TTL_US : Z := 120 * 1000000.
Abbreviation table := (gmap bytes Z).

Definition ns_net_host_recently_dead (now : Z) (host : bytes) (t : table) : bool * table :=
  match t !! host with
  | None => (false, t)
  | Some expiry => if (now <? expiry)%Z then (true, t) else (false, delete host t)
  end.
Definition ns_net_host_mark_dead (now : Z) (host : bytes) (t : table) : table :=
  <[host := (now + NS_DEAD_HOST_TTL_US)%Z]> t.
Definition ns_net_host_mark_alive (host : bytes) (t : table) : table := delete host t.
End DeadHosts.

(** ** Lemmas *)

Module SlotsProofs.
Import Slots.

(** How many threads hold a slot of [key]. *)
Definition holding (h : gmap nat bytes) (key : bytes) : nat :=
  size (filter (fun p => origin_slot_key (G := glib_ref) (Some p.2) = Some key) h).

Lemma holding_insert h th o key :
  h !! th = None ->
  holding (<[th := o]> h) key =
  (if decide (origin_slot_key (G := glib_ref) (Some o) = Some key) then S (holding h key) else holding h key).
Proof.
  intros Hn. unfold holding. case_decide as E.
  - rewrite map_filter_insert_True by done. rewrite map_size_insert_None; [done|].
    rewrite map_lookup_filter, Hn. done.
  - rewrite map_filter_insert_False by done. by rewrite delete_id.
Qed.

Lemma holding_delete h th o key :
  h !! th = Some o ->
  holding h key =
  (if decide (origin_slot_key (G := glib_ref) (Some o) = Some key) then S (holding (delete th h) key)
   else holding (delete th h) key).
Proof.
  intros Hs. rewrite <- (insert_delete_id h th o Hs) at 1. apply holding_insert. apply lookup_delete_eq.
Qed.

Lemma in_use_insert t k n key : in_use (<[k := n]> t) key = if decide (key = k) then n else in_use t key.
Proof.
  unfold in_use. case_decide as E; [subst; by rewrite lookup_insert_eq|by rewrite lookup_insert_ne].
Qed.

Lemma in_use_touch t k key :
  in_use (match t !! k with Some _ => t | None => <[k := 0]> t end) key = in_use t key.
Proof.
  destruct (t !! k) eqn:E; [done|]. rewrite in_use_insert. case_decide; [|done].
  subst. unfold in_use. by rewrite E.
Qed.

Definition slots_ok (s : state) : Prop :=
  forall key, in_use (slots s) key = holding (holders s) key /\ (in_use (slots s) key <= NS_NET_MAX_PER_ORIGIN).

Lemma acquire_spec t origin c r t' :
  ns_net_acquire_origin_slot (G := glib_ref) t origin c = (r, t') ->
  match r with
  | ACQUIRED => exists key, origin_slot_key (G := glib_ref) origin = Some key /\
      in_use t key < NS_NET_MAX_PER_ORIGIN /\
      forall k, in_use t' k = if decide (k = key) then S (in_use t key) else in_use t k
  | WAITING => (exists key, origin_slot_key (G := glib_ref) origin = Some key /\
      NS_NET_MAX_PER_ORIGIN <= in_use t key) /\ forall k, in_use t' k = in_use t k
  | REFUSED => (origin_slot_key (G := glib_ref) origin = None \/ c = true) /\ forall k, in_use t' k = in_use t k
  end.
Proof.
  unfold ns_net_acquire_origin_slot. destruct (origin_slot_key origin) as [key|] eqn:Ek; [|intros [= <- <-]; auto].
  set (t0 := match t !! key with Some _ => t | None => _ end).
  assert (T : forall k, in_use t0 k = in_use t k) by (intros k; apply in_use_touch).
  rewrite (T key). destruct (Nat.leb_spec NS_NET_MAX_PER_ORIGIN (in_use t key)) as [H|H].
  - destruct c; intros [= <- <-]; [auto|eauto].
  - intros [= <- <-]. exists key. split; [done|]. split; [done|]. intros k. rewrite in_use_insert.
    case_decide; [done|apply T].
Qed.

Lemma release_spec t origin key :
  origin_slot_key (G := glib_ref) origin = Some key ->
  forall k, in_use (ns_net_release_origin_slot (G := glib_ref) t origin) k
          = if decide (k = key) then pred (in_use t key) else in_use t k.
Proof.
  intros E k. unfold ns_net_release_origin_slot. rewrite E. unfold in_use at 2.
  destruct (t !! key) as [[|n]|] eqn:El; cbn.
  - case_decide; [subst; unfold in_use; by rewrite El|done].
  - rewrite in_use_insert. done.
  - case_decide; [subst; unfold in_use; by rewrite El|done].
Qed.

Lemma step_ok s s' : step (G := glib_ref) s s' -> slots_ok s -> slots_ok s'.
Proof.
  intros H Hok. destruct H as [s th origin c t' Hn E|s origin c r t' E Hr|s th origin Hs];
    intros k; cbn [slots holders]; destruct (Hok k) as [H1 H2].
  - apply acquire_spec in E as (key & Ek & Hlt & E). rewrite E, holding_insert by done. rewrite Ek.
    destruct (decide (k = key)) as [->|Hne].
    + rewrite decide_True by done. rewrite <- H1. lia.
    + rewrite decide_False by congruence. done.
  - apply acquire_spec in E. destruct r; [done| |]; destruct E as [_ E]; by rewrite E.
  - destruct (origin_slot_key (Some origin)) as [key|] eqn:Ek.
    + rewrite (release_spec _ _ key Ek). pose proof (holding_delete (holders s) th origin k Hs) as D.
      rewrite Ek in D. destruct (decide (k = key)) as [->|Hne].
      * rewrite decide_True in D by done. rewrite H1, D. cbn. lia.
      * rewrite decide_False in D by congruence. rewrite H1, <- D. lia.
    + unfold ns_net_release_origin_slot. rewrite Ek.
      pose proof (holding_delete (holders s) th origin k Hs) as D. rewrite Ek in D.
      rewrite decide_False in D by done. rewrite <- D. done.
Qed.

(** However the threads interleave, the table counts exactly the threads that hold
    a slot of each origin, never more than six; a thread that is told to wait, or
    gives up because it was cancelled, finds six holders, any of which can release:
    waiting never lasts on an origin nobody holds. *)
Theorem origin_slots_invariant (G : GLib) (GS : GLibSpec G) (s : state) :
  rtc step init s ->
  (forall key, in_use (slots s) key =
     size (filter (fun p => origin_slot_key (Some p.2) = Some key) (holders s)) /\
     in_use (slots s) key <= NS_NET_MAX_PER_ORIGIN) /\
  (forall origin c t', ns_net_acquire_origin_slot (slots s) origin c = (WAITING, t') ->
     exists key, origin_slot_key origin = Some key /\
       size (filter (fun p => origin_slot_key (Some p.2) = Some key) (holders s)) = NS_NET_MAX_PER_ORIGIN).
Proof.
  glib. intros H.
  assert (Hok : slots_ok s).
  { assert (Hi : slots_ok init).
    { intros key. unfold holding, in_use. cbn [slots holders init].
      rewrite lookup_empty, map_filter_empty, map_size_empty. unfold NS_NET_MAX_PER_ORIGIN. cbn. lia. }
    clear -H Hi. induction H as [|x y z Hxy _ IH]; [done|]. apply IH. by eapply step_ok. }
  split; [exact Hok|]. intros origin c t' E. apply acquire_spec in E as [(key & Ek & Hle) _].
  exists key. split; [done|]. destruct (Hok key) as [H1 H2]. unfold holding in H1. lia.
Qed.

Lemma origin_slots_invariant_witness :
  let s1 := {| slots := {[ $"https://a" := 1 ]}; holders := {[ 7 := $"HTTPS://a" ]} |} in
  in_use (slots s1) ($"https://a") =
     size (filter (fun p => origin_slot_key (G := glib_ref) (Some p.2) = Some ($"https://a")) (holders s1)).
Proof.
  intros s1. apply (origin_slots_invariant glib_ref glib_ref_spec s1). apply rtc_once.
  apply (step_acquire (G := glib_ref) init 7 ($"HTTPS://a") false); by vm_compute.
Defined.
End SlotsProofs.

Module QueueProofs.
Import Queue.

Definition on_host (k : bytes) (t : task) : bool := bool_decide (task_host t = Some k).
Definition running_on (k : bytes) (l : list task) : Z := Z.of_nat (length (List.filter (on_host k) l)).

Definition queue_ok (s : state) : Prop :=
  g_fetch_active s = Z.of_nat (length (running s)) /\
  (g_fetch_active s <= Z.of_nat NS_MAX_CONCURRENT_FETCHES)%Z /\
  (forall k, ns_fetch_host_count_locked (g_fetch_host_active s) (Some k) = running_on k (running s)) /\
  (forall k, (running_on k (running s) <= NS_MAX_FETCHES_PER_HOST)%Z).

(** Nothing more can be started. *)
Definition settled (s : state) : Prop :=
  (g_fetch_active s = Z.of_nat NS_MAX_CONCURRENT_FETCHES) \/
  Forall (fun t => may_run (g_fetch_host_active s) t = false) (g_fetch_queue s).

Lemma adjust_count h host d k :
  (0 <= ns_fetch_host_count_locked h (Some k))%Z ->
  (forall j, host = Some j -> (0 <= ns_fetch_host_count_locked h (Some j) + d)%Z) ->
  ns_fetch_host_count_locked (ns_fetch_host_adjust_locked h host d) (Some k) =
  (ns_fetch_host_count_locked h (Some k) + if bool_decide (host = Some k) then d else 0)%Z.
Proof.
  intros H0 Hj. unfold ns_fetch_host_adjust_locked. destruct host as [j|].
  2:{ rewrite bool_decide_eq_false_2 by done. lia. }
  specialize (Hj j eq_refl). unfold ns_fetch_host_count_locked in *.
  destruct (Z.leb_spec (default 0%Z (h !! j) + d) 0).
  - case_bool_decide as E.
    + injection E as ->. rewrite lookup_delete_eq. cbn. lia.
    + rewrite lookup_delete_ne by congruence. lia.
  - case_bool_decide as E.
    + injection E as ->. by rewrite lookup_insert_eq.
    + rewrite lookup_insert_ne by congruence. lia.
Qed.

Lemma choose_spec h q c rest :
  choose h q = Some (c, rest) ->
  may_run h c = true /\ exists pre post, q = pre ++ c :: post /\ rest = pre ++ post /\
    Forall (fun t => may_run h t = false) pre.
Proof.
  revert c rest. induction q as [|t q IH]; intros c rest; cbn [choose]; [done|].
  destruct (may_run h t) eqn:E.
  - intros [= <- <-]. split; [done|]. exists [], q. auto.
  - destruct (choose h q) as [[c' rest']|]; [|done]. intros [= <- <-].
    destruct (IH _ _ eq_refl) as (Hc & pre & post & -> & -> & F). split; [done|].
    exists (t :: pre), post. repeat split; by auto.
Qed.

Lemma choose_none h q : choose h q = None -> Forall (fun t => may_run h t = false) q.
Proof.
  induction q as [|t q IH]; cbn [choose]; [by constructor|]. destruct (may_run h t) eqn:E; [done|].
  destruct (choose h q) as [[c rest]|]; [done|]. constructor; auto.
Qed.

Lemma running_on_cons k t l :
  running_on k (t :: l) = (running_on k l + if bool_decide (task_host t = Some k) then 1 else 0)%Z.
Proof. unfold running_on, on_host. cbn [List.filter]. case_bool_decide; cbn [length]; lia. Qed.

Lemma running_on_nonneg k l : (0 <= running_on k l)%Z.
Proof. unfold running_on. lia. Qed.

Lemma start_ok s c rest :
  queue_ok s -> (g_fetch_active s < Z.of_nat NS_MAX_CONCURRENT_FETCHES)%Z ->
  may_run (g_fetch_host_active s) c = true ->
  queue_ok {| g_fetch_queue := rest; g_fetch_active := (g_fetch_active s + 1)%Z;
              g_fetch_host_active := ns_fetch_host_adjust_locked (g_fetch_host_active s) (task_host c) 1;
              running := c :: running s |}.
Proof.
  intros (Ha & Hm & Hc & Hh) Hlt Hr. unfold queue_ok. cbn [g_fetch_queue g_fetch_active g_fetch_host_active running length]. split; [lia|]. split; [lia|].
  assert (N : forall k, (0 <= ns_fetch_host_count_locked (g_fetch_host_active s) (Some k))%Z).
  { intros k. rewrite Hc. apply running_on_nonneg. }
  split; intros k.
  - rewrite running_on_cons, adjust_count, Hc; [done|apply N|]. intros j _. specialize (N j). lia.
  - rewrite running_on_cons. specialize (Hh k). case_bool_decide as E; [|lia].
    unfold may_run in Hr. rewrite E, Hc in Hr. apply Z.ltb_lt in Hr. lia.
Qed.

Lemma dispatch_ok fuel s :
  length (g_fetch_queue s) < fuel -> queue_ok s ->
  queue_ok (dispatch_loop fuel s) /\ settled (dispatch_loop fuel s).
Proof.
  revert s. induction fuel as [|fuel IH]; intros s Hf Hok; [lia|]. cbn [dispatch_loop].
  destruct (Z.leb_spec (Z.of_nat NS_MAX_CONCURRENT_FETCHES) (g_fetch_active s)) as [Hle|Hlt]; cbn [orb].
  { split; [done|]. left. destruct Hok as (_ & ? & _). lia. }
  destruct (g_fetch_queue s) as [|t q] eqn:Eq; cbn [length Nat.eqb].
  { split; [done|]. right. by rewrite Eq. }
  rewrite <- Eq in *. destruct (choose _ _) as [[c rest]|] eqn:Ec.
  - apply choose_spec in Ec as (Hc & pre & post & E & -> & _). apply IH; [|by apply start_ok].
    cbn. rewrite E, !length_app in *. cbn [length] in Hf. lia.
  - split; [done|]. right. by apply choose_none.
Qed.

Lemma finish_ok s n t :
  running s !! n = Some t -> queue_ok s ->
  queue_ok {| g_fetch_queue := g_fetch_queue s;
     g_fetch_active := if (0 <? g_fetch_active s)%Z then (g_fetch_active s - 1)%Z else g_fetch_active s;
     g_fetch_host_active := ns_fetch_host_adjust_locked (g_fetch_host_active s) (task_host t) (-1);
     running := take n (running s) ++ drop (S n) (running s) |}.
Proof.
  intros Hn (Ha & Hm & Hc & Hh). pose proof (take_drop_middle _ _ _ Hn) as E.
  set (l := take n (running s)) in *. set (r := drop (S n) (running s)) in *.
  assert (L : length (running s) = S (length (l ++ r))).
  { rewrite <- E, !length_app. cbn [length]. lia. }
  assert (C : forall k, running_on k (running s) =
    (running_on k (l ++ r) + if bool_decide (task_host t = Some k) then 1 else 0)%Z).
  { intros k. rewrite <- E. unfold running_on. rewrite !List.filter_app, !length_app. cbn [List.filter].
    unfold on_host at 2. case_bool_decide; cbn [length]; lia. }
  unfold queue_ok. cbn [g_fetch_queue g_fetch_active g_fetch_host_active running length]. destruct (Z.ltb_spec 0 (g_fetch_active s)); [|lia].
  split; [lia|]. split; [lia|].
  assert (N : forall k, (0 <= running_on k (l ++ r))%Z) by (intros; apply running_on_nonneg).
  split; intros k.
  - rewrite adjust_count, Hc, C.
    + case_bool_decide; lia.
    + rewrite Hc. apply running_on_nonneg.
    + intros j Hj. rewrite Hc, C, bool_decide_eq_true_2 by done. specialize (N j). lia.
  - specialize (Hh k). rewrite C in Hh. case_bool_decide; lia.
Qed.

Lemma apply_event_ok s e :
  queue_ok s /\ settled s -> queue_ok (apply_event s e) /\ settled (apply_event s e).
Proof.
  intros [Hok Hs]. destruct e as [t|n]; cbn [apply_event].
  - apply dispatch_ok; [cbn; lia|]. done.
  - unfold fetch_thread_finish. destruct (running s !! n) as [t|] eqn:E; [|done].
    apply dispatch_ok; [cbn; lia|]. by apply finish_ok.
Qed.

(** C21. Limits and progress of the fetch queue: after any sequence of submissions and
    completions at most 32 fetches run and at most six per host; the counters say
    exactly what runs; and nothing waits that could run - a task is queued only
    while 32 fetches run or six to its host do. So a non-empty queue always has
    a fetch running whose end will serve it. *)
Theorem throttle_progress (events : list event) :
  let s := fold_left apply_event events init in
  g_fetch_active s = Z.of_nat (length (running s)) /\
  (g_fetch_active s <= 32)%Z /\
  (forall k, running_on k (running s) = ns_fetch_host_count_locked (g_fetch_host_active s) (Some k) /\
             (running_on k (running s) <= 6)%Z) /\
  (forall t, In t (g_fetch_queue s) ->
     length (running s) = 32 \/ exists k, task_host t = Some k /\ running_on k (running s) = 6%Z) /\
  (g_fetch_queue s <> [] -> running s <> []).
Proof.
  intros s. assert (H : queue_ok s /\ settled s).
  { unfold s. clear s. assert (Hi : queue_ok init /\ settled init).
    { split; [|right; constructor]. repeat split; try done. }
    revert Hi. generalize init as s. induction events as [|e es IH]; intros s Hi; [done|].
    cbn [fold_left]. by apply IH, apply_event_ok. }
  destruct H as [(Ha & Hm & Hc & Hh) Hs]. split; [done|]. split; [exact Hm|].
  split; [intros k; split; [by rewrite Hc|apply Hh]|].
  assert (Q : forall t, In t (g_fetch_queue s) ->
     length (running s) = 32 \/ exists k, task_host t = Some k /\ running_on k (running s) = 6%Z).
  { intros t Ht. destruct Hs as [Hs|Hs].
    - left. unfold NS_MAX_CONCURRENT_FETCHES in Hs. lia.
    - right. rewrite List.Forall_forall in Hs. specialize (Hs t Ht). unfold may_run in Hs.
      destruct (task_host t) as [k|]; [|done]. exists k. split; [done|]. rewrite Hc in Hs.
      apply Z.ltb_ge in Hs. specialize (Hh k). unfold NS_MAX_FETCHES_PER_HOST in *. lia. }
  split; [exact Q|]. intros Hq Hr. destruct (g_fetch_queue s) as [|t q]; [done|].
  destruct (Q t) as [H|(k & _ & H)]; [by left|by rewrite Hr in H|by rewrite Hr in H].
Qed.
End QueueProofs.

Module SharedProofs.
Import Shared.

(** The bytes of the preloaded bodies. *)
Definition store_bytes (m : gmap bytes ns_response) : Z :=
  map_fold (fun _ r acc => (body_len r + acc)%Z) 0%Z m.

Lemma store_bytes_insert m k r :
  m !! k = None -> store_bytes (<[k := r]> m) = (body_len r + store_bytes m)%Z.
Proof. intros H. unfold store_bytes. rewrite map_fold_insert_L; [done| |done]. intros. lia. Qed.

Lemma store_bytes_delete m k r :
  m !! k = Some r -> store_bytes m = (body_len r + store_bytes (delete k m))%Z.
Proof. intros H. unfold store_bytes. rewrite (map_fold_delete_L _ _ k r m); [done| |done]. intros. lia. Qed.

Lemma store_bytes_nonneg m : (0 <= store_bytes m)%Z.
Proof.
  unfold store_bytes. apply (map_fold_weak_ind (fun acc _ => (0 <= acc)%Z)); [done|].
  intros k r m' acc _ H. unfold body_len. destruct (body r); lia.
Qed.

Definition reusable (r : ns_response) : Prop :=
  status r = 200%Z /\ has_error r = false /\ ns_response_forbids_reuse (G := glib_ref) r = false.

Definition preload_ok (s : state) : Prop :=
  g_preload_bytes s = store_bytes (g_preload_store s) /\
  (g_preload_bytes s <= NS_PRELOAD_MAX_BYTES)%Z /\
  size (g_preload_expected s) <= NS_PRELOAD_MAX_ENTRIES /\
  map_Forall (fun _ r => reusable r) (g_preload_store s).

Lemma take_ok key s r s' :
  ns_preload_take_locked key s = (r, s') -> preload_ok s -> preload_ok s'.
Proof.
  unfold ns_preload_take_locked. intros E (Hb & Hm & He & Hr).
  destruct (g_preload_store s !! key) as [r0|] eqn:El; injection E as <- <-; [|done].
  pose proof (store_bytes_delete _ _ _ El) as D. pose proof (store_bytes_nonneg (delete key (g_preload_store s))).
  split; [|split; [|split]]; cbn [g_preload_bytes g_preload_store g_preload_expected set_preload].
  - unfold minus_len. destruct (Z.ltb_spec (body_len r0) (g_preload_bytes s)); lia.
  - unfold minus_len, NS_PRELOAD_MAX_BYTES, body_len in *.
    destruct (Z.ltb_spec (match body r0 with Some b => Z.of_nat (length b) | None => 0 end) (g_preload_bytes s));
      [destruct (body r0); lia|lia].
  - done.
  - by apply map_Forall_delete.
Qed.

Lemma store_ok key r s : preload_ok s -> preload_ok (ns_preload_store_locked (G := glib_ref) key r s).
Proof.
  unfold ns_preload_store_locked. intros (Hb & Hm & He & Hr).
  destruct (bool_decide _); cbn [negb]; [|done]. cbv zeta.
  set (s1 := set_preload s _ _ _).
  assert (H1 : preload_ok s1).
  { split; [done|]. split; [done|]. split; [|done]. cbn.
    etransitivity; [|exact He]. apply subseteq_size. set_solver. }
  destruct (body r) as [b|] eqn:Eb; [|done].
  destruct (Z.eqb_spec (status r) 200) as [Hs|]; [|done]. destruct (has_error r) eqn:Eh; [done|]. cbn [negb orb].
  destruct (Z.ltb_spec NS_PRELOAD_MAX_BYTES (body_len r)) as [|Hl]; [done|].
  assert (Hn : (0 <= body_len r)%Z) by (unfold body_len; rewrite Eb; lia).
  assert (Hz : (0 <= g_preload_bytes s)%Z) by (rewrite Hb; apply store_bytes_nonneg).
  cbn [g_preload_bytes set_preload s1].
  assert (W : wrap_u 32 (g_preload_bytes s + body_len r) = (g_preload_bytes s + body_len r)%Z).
  { unfold wrap_u. apply Z.mod_small. unfold NS_PRELOAD_MAX_BYTES in *. lia. }
  rewrite W. destruct (Z.ltb_spec NS_PRELOAD_MAX_BYTES (g_preload_bytes s + body_len r)); [done|].
  destruct (ns_response_forbids_reuse r) eqn:Ef; [done|].
  cbn [g_preload_store set_preload s1]. destruct (g_preload_store s !! key) eqn:El; [done|].
  split; [|split; [|split]]; cbn [g_preload_bytes g_preload_store g_preload_expected set_preload].
  - rewrite store_bytes_insert by done. lia.
  - lia.
  - apply H1.
  - apply map_Forall_insert; [done|]. split; [|done]. by repeat split.
Qed.

Lemma claim_ok key s c s' :
  ns_fetch_claim_locked key s = (c, s') -> preload_ok s -> preload_ok s'.
Proof.
  unfold ns_fetch_claim_locked. intros E Hok.
  destruct (ns_preload_take_locked key s) as [[hit|] s1] eqn:Et; apply take_ok in Et; try done.
  - by injection E as <- <-.
  - destruct (g_fetch_coalesce s1 !! key); by injection E as <- <-.
Qed.

(** Every waiter is in one group at most, and not answered yet. *)
Definition members (g : ns_coalesce_group) : list nat := tasks g ++ syncs g.
Definition waiters_ok (s : state) : Prop :=
  NoDup (map fst (completed s)) /\
  (forall k g, g_fetch_coalesce s !! k = Some g -> NoDup (members g)) /\
  (forall k g w, g_fetch_coalesce s !! k = Some g -> w ∈ members g -> w ∉ map fst (completed s)) /\
  (forall k1 k2 g1 g2 w, g_fetch_coalesce s !! k1 = Some g1 -> g_fetch_coalesce s !! k2 = Some g2 ->
     w ∈ members g1 -> w ∈ members g2 -> k1 = k2).

(** Replacing one group keeps the invariant when the new members are fresh or were
    in it. *)
Lemma waiters_ok_group s k g g' :
  waiters_ok s -> g_fetch_coalesce s !! k = Some g -> NoDup (members g') ->
  (forall w, w ∈ members g' -> w ∈ members g \/
     (w ∉ map fst (completed s) /\ forall j h, g_fetch_coalesce s !! j = Some h -> w ∉ members h)) ->
  waiters_ok (set_group s (<[k := g']> (g_fetch_coalesce s))).
Proof.
  intros (H1 & H2 & H3 & H4) Hk Hn Hw. split; [done|]. cbn [g_fetch_coalesce completed set_group].
  split; [|split].
  - intros j h. rewrite lookup_insert_Some. intros [[<- <-]|[_ E]]; eauto.
  - intros j h w. rewrite lookup_insert_Some. intros [[<- <-]|[_ E]] Hin; [|eauto].
    destruct (Hw w Hin) as [?|[? _]]; eauto.
  - intros j1 j2 h1 h2 w. rewrite !lookup_insert_Some.
    intros [[<- <-]|[N1 E1]] [[<- <-]|[N2 E2]] I1 I2; [done| | |eauto].
    + destruct (Hw w I1) as [I|[_ F]]; [eauto|by destruct (F j2 h2)].
    + destruct (Hw w I2) as [I|[_ F]]; [eauto|by destruct (F j1 h1)].
Qed.

Lemma waiters_ok_preload s e st n : waiters_ok s -> waiters_ok (set_preload s e st n).
Proof. done. Qed.

Lemma store_keeps key r s :
  g_fetch_coalesce (ns_preload_store_locked (G := glib_ref) key r s) = g_fetch_coalesce s /\
  completed (ns_preload_store_locked (G := glib_ref) key r s) = completed s.
Proof.
  unfold ns_preload_store_locked. cbv zeta. destruct (negb _); [done|]. destruct (body r); [|done].
  destruct (_ || _); [done|]. destruct (_ <? _)%Z; [done|]. destruct (_ <? _)%Z; [done|].
  destruct (ns_response_forbids_reuse r); [done|]. by destruct (_ !! key).
Qed.

Lemma claim_waiters key s c s' :
  ns_fetch_claim_locked key s = (c, s') -> waiters_ok s ->
  waiters_ok s' /\ completed s' = completed s /\
  match c with
  | NS_FETCH_JOINED => exists g, g_fetch_coalesce s !! key = Some g /\ g_fetch_coalesce s' = g_fetch_coalesce s
  | NS_FETCH_LEAD => g_fetch_coalesce s !! key = None /\ is_Some (g_fetch_coalesce s' !! key)
  | NS_FETCH_PRELOADED _ => g_fetch_coalesce s' = g_fetch_coalesce s
  end.
Proof.
  unfold ns_fetch_claim_locked, ns_preload_take_locked. intros E Hok.
  destruct (g_preload_store s !! key); [by injection E as <- <-|].
  destruct (g_fetch_coalesce s !! key) as [g|] eqn:Eg; injection E as <- <-; [eauto|].
  destruct Hok as (H1 & H2 & H3 & H4).
  assert (D : forall j h, <[key := {| tasks := []; syncs := [] |}]> (g_fetch_coalesce s) !! j = Some h ->
              members h = [] \/ g_fetch_coalesce s !! j = Some h).
  { intros j h. rewrite lookup_insert_Some. intros [[<- <-]|[_ ?]]; auto. }
  split; [|split; [done|split; [done|cbn; rewrite lookup_insert_eq; eauto]]].
  split; [done|]. cbn [g_fetch_coalesce completed set_group]. split; [|split].
  - intros j h [->|E]%D; [constructor|eauto].
  - intros j h w E Hw. apply D in E as [E|E]; [rewrite E in Hw; inversion Hw|eauto].
  - intros j1 j2 h1 h2 w E1 E2 I1 I2. apply D in E1 as [E1|E1]; [rewrite E1 in I1; inversion I1|].
    apply D in E2 as [E2|E2]; [rewrite E2 in I2; inversion I2|]. eauto.
Qed.

Lemma step_waiters s s' : step (G := glib_ref) s s' -> waiters_ok s -> waiters_ok s'.
Proof.
  intros H Hok. destruct H as [s key|s|s sync key w c s' E Hc Hf|s key w|s key resp].
  - unfold ns_net_preload_expect. destruct key; [|done]. by case_match.
  - done.
  - unfold join in E. destruct (ns_fetch_claim_locked key s) as [c1 s1] eqn:Ec.
    destruct (claim_waiters key s c1 s1 Ec Hok) as (Hok1 & Hcomp & Hx).
    destruct c1; injection E as <- <-; try done. destruct Hx as (g & Eg & Esame).
    rewrite Esame, Eg. rewrite <- Esame.
    assert (Hw : w ∉ members g) by by eapply Hf.
    assert (Hnd : NoDup (members g)) by (destruct Hok as (_ & H2 & _); eauto).
    assert (Perm : members (if sync then {| tasks := tasks g; syncs := syncs g ++ [w] |}
                            else {| tasks := tasks g ++ [w]; syncs := syncs g |}) ≡ₚ w :: members g).
    { unfold members. destruct sync; cbn [tasks syncs]; solve_Permutation. }
    apply (waiters_ok_group s1 key g); [done|by rewrite Esame| |].
    + rewrite Perm. by constructor.
    + intros x. rewrite Perm, elem_of_cons. intros [->|?]; [right|by left].
      split; [by rewrite Hcomp|]. intros j h. rewrite Esame. intros Eh. by eapply Hf.
  - unfold join_sync_abandon. destruct (g_fetch_coalesce s !! key) as [g|] eqn:Eg; [|done].
    apply (waiters_ok_group s key g); [done|done| |].
    + destruct Hok as (_ & H2 & _). specialize (H2 _ _ Eg). unfold members in *. cbn [tasks syncs].
      apply NoDup_app in H2 as (N1 & N2 & N3). apply NoDup_app. split; [done|]. split.
      * intros x Hx Hin. apply list_elem_of_filter in Hin as [_ Hin]. by apply (N2 x).
      * by apply NoDup_filter.
    + intros x. unfold members. cbn [tasks syncs]. rewrite !elem_of_app, list_elem_of_filter.
      intros [?|[_ ?]]; left; by auto.
  - unfold ns_fetch_coalesce_deliver.
    set (s1 := match resp with Some r => _ | None => _ end).
    assert (E1 : g_fetch_coalesce s1 = g_fetch_coalesce s /\ completed s1 = completed s).
    { unfold s1. destruct resp; [apply store_keeps|done]. }
    destruct E1 as [E1 E2]. rewrite E1. destruct (g_fetch_coalesce s !! key) as [g|] eqn:Eg.
    2:{ destruct Hok as (H1 & H2 & H3 & H4). split; rewrite ?E1, ?E2; done. }
    destruct Hok as (H1 & H2 & H3 & H4). rewrite E2.
    assert (F : map fst (map (fun w => (w, resp)) (syncs g ++ tasks g)) = syncs g ++ tasks g).
    { rewrite map_map. by rewrite map_id. }
    assert (P : syncs g ++ tasks g ≡ₚ members g) by (unfold members; solve_Permutation).
    split; cbn [g_fetch_coalesce completed].
    + rewrite map_app, F, P. apply NoDup_app. split; [done|]. split; [|eauto].
      intros x Hx Hin. by apply (H3 _ _ _ Eg Hin).
    + split; [|split].
      * intros j h. rewrite lookup_delete_Some. intros [_ ?]. eauto.
      * intros j h w. rewrite lookup_delete_Some. intros [Hne Eh] Hw.
        rewrite map_app, F, P, elem_of_app. intros [?|Hin]; [by eapply H3|].
        apply Hne. by eapply H4.
      * intros j1 j2 h1 h2 w. rewrite !lookup_delete_Some. intros [_ ?] [_ ?]. eauto.
Qed.

Lemma reachable_waiters s : rtc (step (G := glib_ref)) init s -> waiters_ok s.
Proof.
  intros H. assert (Hi : waiters_ok init) by (split; [constructor|]; by split; [|split]).
  clear -H Hi. induction H as [|x y z Hxy _ IH]; [done|]. apply IH. by eapply step_waiters.
Qed.

(** What a join answers, and where the waiter is then. *)
Lemma join_spec sync key w s c s' :
  join sync key w s = (c, s') ->
  match c with
  | NS_FETCH_PRELOADED r => g_preload_store s !! key = Some r
  | NS_FETCH_LEAD => g_preload_store s !! key = None /\ g_fetch_coalesce s !! key = None /\
      is_Some (g_fetch_coalesce s' !! key)
  | NS_FETCH_JOINED => g_preload_store s !! key = None /\
      exists g g', g_fetch_coalesce s !! key = Some g /\ g_fetch_coalesce s' !! key = Some g' /\
        if sync then tasks g' = tasks g /\ syncs g' = syncs g ++ [w]
        else tasks g' = tasks g ++ [w] /\ syncs g' = syncs g
  end.
Proof.
  unfold join, ns_fetch_claim_locked, ns_preload_take_locked.
  destruct (g_preload_store s !! key) as [r|]; [by intros [= <- <-]|].
  destruct (g_fetch_coalesce s !! key) as [g|] eqn:Eg; intros [= <- <-].
  - split; [done|]. rewrite Eg. exists g. eexists. cbn [g_fetch_coalesce set_group].
    rewrite lookup_insert_eq. split; [done|]. split; [done|]. by destruct sync.
  - split; [done|]. split; [done|]. cbn [g_fetch_coalesce set_group]. rewrite lookup_insert_eq. eauto.
Qed.

(** A delivery removes its own group, answers its members and nobody else. *)
Lemma deliver_spec key resp s :
  let s' := ns_fetch_coalesce_deliver (G := glib_ref) key resp s in
  g_fetch_coalesce s' = delete key (g_fetch_coalesce s) /\
  exists l, completed s' = completed s ++ map (fun w => (w, resp)) l /\
    forall w, w ∈ l <-> exists g, g_fetch_coalesce s !! key = Some g /\ w ∈ tasks g ++ syncs g.
Proof.
  cbv zeta. unfold ns_fetch_coalesce_deliver. set (s1 := match resp with Some r => _ | None => _ end).
  assert (E1 : g_fetch_coalesce s1 = g_fetch_coalesce s /\ completed s1 = completed s).
  { unfold s1. destruct resp; [apply store_keeps|done]. }
  destruct E1 as [E1 E2]. rewrite E1. destruct (g_fetch_coalesce s !! key) as [g|] eqn:Eg.
  - cbn [g_fetch_coalesce completed]. split; [done|]. exists (syncs g ++ tasks g). rewrite E2. split; [done|].
    intros w. rewrite !elem_of_app. split.
    + intros Hw. exists g. rewrite elem_of_app. tauto.
    + intros (g' & [= <-] & Hw). rewrite elem_of_app in Hw. tauto.
  - rewrite E1, E2. split; [by rewrite delete_id|]. exists []. split; [by rewrite app_nil_r|].
    intros w. split; [intros Hw; inversion Hw|by intros (g & [=] & _)].
Qed.

(** A waiter leaves its group in two ways only: the delivery of its key, which
    answers it, or giving up. *)
Lemma step_keeps_waiter s s' k g w :
  step (G := glib_ref) s s' -> g_fetch_coalesce s !! k = Some g -> w ∈ tasks g ++ syncs g ->
  (exists g', g_fetch_coalesce s' !! k = Some g' /\ w ∈ tasks g' ++ syncs g') \/
  (exists resp, s' = ns_fetch_coalesce_deliver (G := glib_ref) k resp s /\ In (w, resp) (completed s')) \/
  (s' = join_sync_abandon k w s /\ w ∈ syncs g).
Proof.
  intros H Hg Hw. destruct H as [s key|s|s sync key x c s' E _ _|s key x|s key resp]; try (left; by eauto).
  - left. exists g. unfold ns_net_preload_expect. destruct key; [|done]. by case_match.
  - left. unfold join, ns_fetch_claim_locked, ns_preload_take_locked in E.
    destruct (g_preload_store s !! key); [injection E as <- <-; eauto|].
    destruct (g_fetch_coalesce s !! key) as [g0|] eqn:Eg; injection E as <- <-; rewrite ?Eg;
      cbn [g_fetch_coalesce set_group]; destruct (decide (k = key)) as [->|Hne];
      rewrite ?lookup_insert_eq, ?lookup_insert_ne by done; [|by eauto|congruence|by eauto].
    rewrite Hg in Eg. injection Eg as <-. eexists. split; [done|].
    destruct sync; cbn [tasks syncs]; rewrite !elem_of_app in *; tauto.
  - unfold join_sync_abandon. destruct (g_fetch_coalesce s !! key) as [g0|] eqn:Eg; [|left; by eauto].
    destruct (decide (k = key)) as [->|Hne].
    2:{ left. exists g. cbn [g_fetch_coalesce set_group]. by rewrite lookup_insert_ne. }
    rewrite Hg in Eg. injection Eg as <-. cbn [g_fetch_coalesce set_group]. rewrite lookup_insert_eq.
    destruct (decide (w = x)) as [->|Hx].
    + destruct (decide (x ∈ syncs g)); [right; right; by rewrite Hg|]. left. eexists. split; [done|].
      cbn [tasks syncs]. rewrite elem_of_app in *. tauto.
    + left. eexists. split; [done|]. cbn [tasks syncs]. rewrite !elem_of_app, list_elem_of_filter in *. tauto.
  - pose proof (deliver_spec key resp s) as (Ed & l & El & Hl). destruct (decide (k = key)) as [->|Hne].
    + right. left. exists resp. split; [done|]. rewrite El. apply in_app_iff. right. apply in_map_iff.
      exists w. split; [done|]. apply list_elem_of_In, Hl. eauto.
    + left. exists g. rewrite Ed. by rewrite lookup_delete_ne.
Qed.

(** C36. Coalescing, over any interleaving of the critical sections. A request
    leads only when there is no response preloaded for its key and nobody leads
    it; while it leads, every equal request joins, and a request that is told it
    joined is in the group. It stays there until the delivery of its key, which
    answers it with the response delivered, or until it gives up waiting itself;
    a delivery answers the members of its group and nobody else, ends the group,
    and nobody is answered twice or while still waiting. *)
Theorem coalesce_exactly_once (G : GLib) (GS : GLibSpec G) (s : state) :
  rtc step init s ->
  NoDup (map fst (completed s)) /\
  (forall k g w, g_fetch_coalesce s !! k = Some g -> w ∈ tasks g ++ syncs g -> w ∉ map fst (completed s)) /\
  (forall sync key w c s', join sync key w s = (c, s') ->
     match c with
     | NS_FETCH_PRELOADED r => g_preload_store s !! key = Some r
     | NS_FETCH_LEAD => g_preload_store s !! key = None /\ g_fetch_coalesce s !! key = None /\
         is_Some (g_fetch_coalesce s' !! key)
     | NS_FETCH_JOINED => is_Some (g_fetch_coalesce s !! key) /\
         exists g, g_fetch_coalesce s' !! key = Some g /\ w ∈ (if sync then syncs g else tasks g)
     end) /\
  (forall s' k g w, step s s' -> g_fetch_coalesce s !! k = Some g -> w ∈ tasks g ++ syncs g ->
     (exists g', g_fetch_coalesce s' !! k = Some g' /\ w ∈ tasks g' ++ syncs g') \/
     (exists resp, s' = ns_fetch_coalesce_deliver k resp s /\ In (w, resp) (completed s')) \/
     (s' = join_sync_abandon k w s /\ w ∈ syncs g)) /\
  (forall key resp, let s' := ns_fetch_coalesce_deliver key resp s in
     g_fetch_coalesce s' = delete key (g_fetch_coalesce s) /\
     exists l, completed s' = completed s ++ map (fun w => (w, resp)) l /\
       forall w, w ∈ l <-> exists g, g_fetch_coalesce s !! key = Some g /\ w ∈ tasks g ++ syncs g).
Proof.
  glib. intros H. pose proof (reachable_waiters s H) as Hok.
  split; [apply Hok|]. split; [intros; by eapply Hok|]. split; [|split].
  - intros sync key w c s' E. apply join_spec in E. destruct c; [exact E| |exact E].
    destruct E as (_ & g & g' & Eg & Eg' & E). split; [eauto|]. exists g'. split; [done|].
    destruct sync; destruct E as [Et Es]; rewrite ?Et, ?Es, elem_of_app, list_elem_of_singleton; auto.
  - intros. by apply step_keeps_waiter with (g := g).
  - intros key resp. apply deliver_spec.
Qed.

Lemma coalesce_exactly_once_witness :
  let s1 := (ns_fetch_claim_locked ($"k") init).2 in
  let s2 := (join true ($"k") 5 s1).2 in
  let s3 := ns_fetch_coalesce_deliver (G := glib_ref) ($"k") None s2 in
  g_fetch_coalesce s3 = delete ($"k") (g_fetch_coalesce s2) /\
  exists l, completed s3 = completed s2 ++ map (fun w => (w, None)) l /\ 5 ∈ l.
Proof.
  intros s1 s2 s3.
  assert (H : rtc (step (G := glib_ref)) init s2).
  { eapply rtc_l; [apply (step_join (G := glib_ref) init true ($"k") 4 NS_FETCH_LEAD s1)|].
    - by vm_compute.
    - cbn. set_solver.
    - intros k g E. cbn in E. by rewrite lookup_empty in E.
    - apply rtc_once. apply (step_join (G := glib_ref) s1 true ($"k") 5 NS_FETCH_JOINED s2).
      + by vm_compute.
      + cbn. set_solver.
      + intros k g E.
        change (<[ $"k" := {| tasks := []; syncs := [] |} ]> (∅ : gmap bytes ns_coalesce_group) !! k = Some g) in E.
        apply lookup_insert_Some in E as [[_ <-]|[_ E]].
        * cbn. set_solver.
        * by rewrite lookup_empty in E. }
  destruct (coalesce_exactly_once glib_ref glib_ref_spec s2 H) as (_ & _ & _ & _ & D).
  destruct (D ($"k") None) as [Ed (l & El & Hl)]. split; [exact Ed|]. exists l. split; [exact El|].
  apply Hl. exists {| tasks := []; syncs := [5] |}. split; [by vm_compute|]. set_solver.
Defined.

(** The store of preloaded responses keeps its books: whatever the order of the
    operations, the byte count is the sum of the stored bodies and never more than
    16 MiB (so its 32-bit sum never wraps), at most 64 keys are expected, and only
    complete successes that allow reuse are kept. *)
Theorem preload_store_invariant (G : GLib) (GS : GLibSpec G) (s : state) :
  rtc step init s ->
  g_preload_bytes s = store_bytes (g_preload_store s) /\
  (0 <= g_preload_bytes s <= NS_PRELOAD_MAX_BYTES)%Z /\
  size (g_preload_expected s) <= NS_PRELOAD_MAX_ENTRIES /\
  map_Forall (fun _ r => status r = 200%Z /\ has_error r = false /\ ns_response_forbids_reuse r = false)
    (g_preload_store s).
Proof.
  glib. intros H.
  assert (Hok : preload_ok s).
  { assert (Hi : preload_ok init).
    { unfold preload_ok, store_bytes. cbn [g_preload_bytes g_preload_store g_preload_expected init].
      rewrite map_fold_empty, size_empty. repeat split; try done; unfold NS_PRELOAD_MAX_ENTRIES; try lia. }
    clear -H Hi. induction H as [|x y z Hxy _ IH]; [done|]. apply IH. clear IH.
    destruct Hxy as [s key|s|s sync key w c s' E _ _|s key w|s key resp].
    - unfold ns_net_preload_expect. destruct key as [k|]; [|done].
      destruct (Nat.ltb_spec (size (g_preload_expected s)) NS_PRELOAD_MAX_ENTRIES); [|done].
      destruct Hi as (H1 & H2 & H3 & H4). do 2 (split; [done|]). split; [|done].
      cbn [g_preload_expected set_preload]. rewrite size_union_alt, size_singleton.
      assert (size (g_preload_expected s ∖ {[k]}) <= size (g_preload_expected s)) by (apply subseteq_size; set_solver).
      lia.
    - destruct Hi as (H1 & H2 & H3 & H4). unfold preload_ok, store_bytes. cbn.
      rewrite map_fold_empty, size_empty. repeat split; try done. unfold NS_PRELOAD_MAX_ENTRIES. lia.
    - unfold join in E. destruct (ns_fetch_claim_locked key s) as [c1 s1] eqn:Ec.
      pose proof (claim_ok key s c1 s1 Ec Hi) as H1.
      destruct c1; injection E as <- <-; try done. by destruct (g_fetch_coalesce s1 !! key).
    - unfold join_sync_abandon. by destruct (g_fetch_coalesce s !! key).
    - unfold ns_fetch_coalesce_deliver. set (s1 := match resp with Some r => _ | None => _ end).
      assert (H1 : preload_ok s1).
      { unfold s1. destruct resp; [by apply store_ok|]. destruct Hi as (H1 & H2 & H3 & H4).
        do 2 (split; [done|]). split; [|done]. cbn. etransitivity; [|exact H3]. apply subseteq_size. set_solver. }
      by destruct (g_fetch_coalesce s1 !! key). }
  destruct Hok as (H1 & H2 & H3 & H4). split; [done|]. split; [|done].
  split; [rewrite H1; apply store_bytes_nonneg|done].
Qed.

Lemma preload_store_invariant_witness :
  let r := {| status := 200; has_error := false; body := Some ($"body"); raw_headers := None |} in
  let s := ns_fetch_coalesce_deliver (G := glib_ref) ($"k") (Some r) (ns_net_preload_expect (Some ($"k")) init) in
  g_preload_bytes s = store_bytes (g_preload_store s) /\ g_preload_bytes s = 4%Z.
Proof.
  intros r s. split; [|by vm_compute].
  apply (preload_store_invariant glib_ref glib_ref_spec s).
  eapply rtc_l; [apply (step_expect (G := glib_ref) init (Some ($"k")))|].
  apply rtc_once. apply (step_deliver (G := glib_ref) _ ($"k") (Some r)).
Defined.
End SharedProofs.
