(* ===== verification/ConfigFile.v ===== *)
(** * The configuration file ([src/config.c])

    The table of fields, the defaults, the parser of the file, the environment
    and the writer. *)

From S2P Require Import Prelude CStr GLib Config Freenet Url.

Definition G_MININT : Z := - 2 ^ 31.
Definition G_MAXINT : Z := 2 ^ 31 - 1.

Section ConfigFile.
Context {G : GLib}.

(** ** Values *)

Definition parse_enum {A : Type} (v : bytes) (choices : list (bytes * A)) (dflt : A) : A :=
  match v with
  | [] => dflt
  | _ => match List.find (fun e => g_ascii_strcasecmp0 v (fst e)) choices with
         | Some (_, x) => x
         | None => dflt
         end
  end.

Definition bool_choices : list (bytes * bool) :=
  [($"true", true); ($"yes", true); ($"on", true); ($"1", true);
   ($"false", false); ($"no", false); ($"off", false); ($"0", false)].
Definition parse_bool (v : bytes) (dflt : bool) : bool := parse_enum v bool_choices dflt.

Definition parse_int (v : bytes) (dflt : Z) : Z :=
  match v with
  | [] => dflt
  | _ =>
      let n := g_ascii_strtoll10 v in
      if bool_decide (g_ascii_strtoll10_end v = v) then dflt
      else if (n <? G_MININT)%Z then G_MININT
      else if (G_MAXINT <? n)%Z then G_MAXINT
      else n
  end.

Definition referer_choices : list (bytes * ns_referer_policy) :=
  [($"none", NS_REFERER_NO_REFERRER); ($"no-referrer", NS_REFERER_NO_REFERRER);
   ($"same-origin", NS_REFERER_SAME_ORIGIN);
   ($"strict-origin-when-cross-origin", NS_REFERER_STRICT_ORIGIN_WHEN_CROSS);
   ($"default", NS_REFERER_STRICT_ORIGIN_WHEN_CROSS);
   ($"unsafe-url", NS_REFERER_UNSAFE_URL); ($"full", NS_REFERER_UNSAFE_URL)].
Definition parse_referer_policy (v : bytes) (dflt : ns_referer_policy) : ns_referer_policy :=
  parse_enum v referer_choices dflt.

Definition cookie_choices : list (bytes * ns_cookie_policy) :=
  [($"always", NS_COOKIE_ALWAYS); ($"first-party", NS_COOKIE_FIRST_PARTY);
   ($"first-party-only", NS_COOKIE_FIRST_PARTY); ($"never", NS_COOKIE_NEVER);
   ($"off", NS_COOKIE_NEVER)].
Definition parse_cookie_policy (v : bytes) (dflt : ns_cookie_policy) : ns_cookie_policy :=
  parse_enum v cookie_choices dflt.

Definition color_scheme_choices : list (bytes * ns_color_scheme_pref) :=
  [($"auto", NS_COLOR_SCHEME_PREF_AUTO); ($"system", NS_COLOR_SCHEME_PREF_AUTO);
   ($"light", NS_COLOR_SCHEME_PREF_LIGHT); ($"dark", NS_COLOR_SCHEME_PREF_DARK)].
Definition parse_color_scheme (v : bytes) (dflt : ns_color_scheme_pref) : ns_color_scheme_pref :=
  parse_enum v color_scheme_choices dflt.

Definition reduced_motion_choices : list (bytes * ns_reduced_motion_pref) :=
  [($"auto", NS_REDUCED_MOTION_PREF_AUTO); ($"system", NS_REDUCED_MOTION_PREF_AUTO);
   ($"no-preference", NS_REDUCED_MOTION_PREF_NO_PREFERENCE);
   ($"off", NS_REDUCED_MOTION_PREF_NO_PREFERENCE);
   ($"reduce", NS_REDUCED_MOTION_PREF_REDUCE); ($"on", NS_REDUCED_MOTION_PREF_REDUCE)].
Definition parse_reduced_motion (v : bytes) (dflt : ns_reduced_motion_pref) : ns_reduced_motion_pref :=
  parse_enum v reduced_motion_choices dflt.

(** ** The table *)

(** The slot a row writes ([kind] and [offset]) with its default. *)
Inductive cfg_slot :=
| CFG_STRING (f : str_field) (def : bytes)
| CFG_BOOL (f : bool_field) (def : bool)
| CFG_INT (f : int_field) (def : Z)
| CFG_REFERER (def : ns_referer_policy)
| CFG_COOKIE (def : ns_cookie_policy)
| CFG_COLOR_SCHEME (def : ns_color_scheme_pref)
| CFG_REDUCED_MOTION (def : ns_reduced_motion_pref).

Definition cfg_field : Type := bytes * cfg_slot.

Definition cfg_fields : list cfg_field := [
  ($"home_url", CFG_STRING home_url ($"about:start"));
  ($"user_agent", CFG_STRING user_agent []);
  ($"compat_mode", CFG_STRING compat_mode ($"chrome"));
  ($"accept_language", CFG_STRING accept_language []);
  ($"search_engine", CFG_STRING search_engine ($"https://lite.duckduckgo.com/lite/?q=%s"));
  ($"http_proxy", CFG_STRING http_proxy []);
  ($"https_proxy", CFG_STRING https_proxy []);
  ($"no_proxy", CFG_STRING no_proxy []);
  ($"doh_url", CFG_STRING doh_url []);
  ($"freenet_gateway", CFG_STRING freenet_gateway NS_FREENET_DEFAULT_GATEWAY);
  ($"gsk_renderer", CFG_STRING gsk_renderer ($"auto"));
  ($"referer_policy", CFG_REFERER NS_REFERER_STRICT_ORIGIN_WHEN_CROSS);
  ($"cookie_policy", CFG_COOKIE NS_COOKIE_FIRST_PARTY);
  ($"color_scheme", CFG_COLOR_SCHEME NS_COLOR_SCHEME_PREF_AUTO);
  ($"reduced_motion", CFG_REDUCED_MOTION NS_REDUCED_MOTION_PREF_AUTO);
  ($"do_not_track", CFG_BOOL do_not_track false);
  ($"global_privacy_control", CFG_BOOL global_privacy_control false);
  ($"strip_tracking_params", CFG_BOOL strip_tracking_params true);
  ($"https_first", CFG_BOOL https_first true);
  ($"harden_allocator", CFG_BOOL harden_allocator true);
  ($"speculative_preload", CFG_BOOL speculative_preload true);
  ($"async_image_decode", CFG_BOOL async_image_decode true);
  ($"images_enabled", CFG_BOOL images_enabled true);
  ($"camera_enabled", CFG_BOOL camera_enabled false);
  ($"microphone_enabled", CFG_BOOL microphone_enabled false);
  ($"local_storage_enabled", CFG_BOOL local_storage_enabled true);
  ($"cache_enabled", CFG_BOOL cache_enabled true);
  ($"tls_allow_insecure_override", CFG_BOOL tls_allow_insecure_override false);
  ($"watchdog_enabled", CFG_BOOL watchdog_enabled true);
  ($"cache_cap_mb", CFG_INT cache_cap_mb 256);
  ($"js_eval_budget_ms", CFG_INT js_eval_budget_ms 60000);
  ($"js_memory_cap_mb", CFG_INT js_memory_cap_mb 2048);
  ($"max_redirects", CFG_INT max_redirects 10);
  ($"window_width_px", CFG_INT window_width_px 1280);
  ($"window_height_px", CFG_INT window_height_px 800);
  ($"layout_viewport_px", CFG_INT layout_viewport_px 1000)].

Definition default_field (c : ns_config) (f : cfg_field) : ns_config :=
  match snd f with
  | CFG_STRING k v => set_str k (Some v) c
  | CFG_BOOL k v => set_bool k v c
  | CFG_INT k v => set_int k v c
  | CFG_REFERER v => set_referer v c
  | CFG_COOKIE v => set_cookie v c
  | CFG_COLOR_SCHEME v => set_color_scheme v c
  | CFG_REDUCED_MOTION v => set_reduced_motion v c
  end.
Definition apply_default (c : ns_config) : ns_config := fold_left default_field cfg_fields c.

Definition apply_slot (c : ns_config) (s : cfg_slot) (value : bytes) : ns_config :=
  match s with
  | CFG_STRING k _ => set_str k (Some value) c
  | CFG_BOOL k _ => set_bool k (parse_bool value (cfg_bool c k)) c
  | CFG_INT k _ => set_int k (parse_int value (cfg_int c k)) c
  | CFG_REFERER _ => set_referer (parse_referer_policy value (referer_policy c)) c
  | CFG_COOKIE _ => set_cookie (parse_cookie_policy value (cookie_policy c)) c
  | CFG_COLOR_SCHEME _ => set_color_scheme (parse_color_scheme value (color_scheme c)) c
  | CFG_REDUCED_MOTION _ => set_reduced_motion (parse_reduced_motion value (reduced_motion c)) c
  end.

Definition apply_pair (c : ns_config) (key value : bytes) : ns_config :=
  match List.find (fun f => strcmp0 key (fst f)) cfg_fields with
  | Some f => apply_slot c (snd f) value
  | None => c
  end.

(** ** Reading *)

Definition load_line (c : ns_config) (raw : bytes) : ns_config :=
  let line := g_strstrip raw in
  match line with
  | [] => c
  | x :: _ =>
      if x =c "#" then c
      else
        match strchr line "=" with
        | None => c
        | Some eq =>
            match g_strstrip (before line "=") with
            | [] => c
            | key => apply_pair c key (g_strstrip (drop 1 eq))
            end
        end
  end.

(** [contents]: the file, when it can be read. *)
Definition load_file (c : ns_config) (contents : option bytes) : ns_config :=
  match contents with
  | None => c
  | Some text => fold_left load_line (g_strsplit (cstr_of text) [nl]) c
  end.

Definition env_disable : list (bytes * bytes) := [
  ($"NS_NO_CACHE", $"cache_enabled"); ($"NS_NO_LOCAL_STORAGE", $"local_storage_enabled");
  ($"NS_NO_IMAGES", $"images_enabled"); ($"NS_NO_WATCHDOG", $"watchdog_enabled");
  ($"NS_NO_HTTPS_FIRST", $"https_first"); ($"NS_NO_HARDEN_ALLOC", $"harden_allocator");
  ($"NS_NO_PRELOAD_SCAN", $"speculative_preload");
  ($"NS_NO_ASYNC_IMG_DECODE", $"async_image_decode")].

Definition env_value : list (bytes * bytes) := [
  ($"NS_HOME_URL", $"home_url"); ($"NS_USER_AGENT", $"user_agent");
  ($"NS_COMPAT_MODE", $"compat_mode"); ($"NS_HTTP_PROXY", $"http_proxy");
  ($"NS_HTTPS_PROXY", $"https_proxy"); ($"NS_NO_PROXY", $"no_proxy");
  ($"NS_DOH_URL", $"doh_url"); ($"NS_FREENET_GATEWAY", $"freenet_gateway");
  ($"NS_GSK_RENDERER", $"gsk_renderer")].

Definition apply_env (g_getenv : bytes -> option bytes) (c : ns_config) : ns_config :=
  let c := fold_left (fun c e => match g_getenv (fst e) with
                                 | Some _ => apply_pair c (snd e) ($"false")
                                 | None => c
                                 end) env_disable c in
  let c := fold_left (fun c e => match g_getenv (fst e) with
                                 | Some ((_ :: _) as v) => apply_pair c (snd e) v
                                 | _ => c
                                 end) env_value c in
  match g_getenv ($"NS_PRIVATE") with
  | Some _ => set_bool private_mode true c
  | None => c
  end.

Definition ns_config_init (g_getenv : bytes -> option bytes) (contents : option bytes) (c : ns_config)
    : ns_config :=
  apply_env g_getenv (load_file (apply_default c) contents).

(** ** Writing *)

Definition referer_policy_name (p : ns_referer_policy) : bytes :=
  match p with
  | NS_REFERER_NO_REFERRER => $"none"
  | NS_REFERER_SAME_ORIGIN => $"same-origin"
  | NS_REFERER_STRICT_ORIGIN_WHEN_CROSS => $"strict-origin-when-cross-origin"
  | NS_REFERER_UNSAFE_URL => $"unsafe-url"
  end.
Definition cookie_policy_name (p : ns_cookie_policy) : bytes :=
  match p with
  | NS_COOKIE_ALWAYS => $"always"
  | NS_COOKIE_FIRST_PARTY => $"first-party"
  | NS_COOKIE_NEVER => $"never"
  end.
Definition color_scheme_name (p : ns_color_scheme_pref) : bytes :=
  match p with
  | NS_COLOR_SCHEME_PREF_AUTO => $"auto"
  | NS_COLOR_SCHEME_PREF_LIGHT => $"light"
  | NS_COLOR_SCHEME_PREF_DARK => $"dark"
  end.
Definition reduced_motion_name (p : ns_reduced_motion_pref) : bytes :=
  match p with
  | NS_REDUCED_MOTION_PREF_AUTO => $"auto"
  | NS_REDUCED_MOTION_PREF_NO_PREFERENCE => $"no-preference"
  | NS_REDUCED_MOTION_PREF_REDUCE => $"reduce"
  end.

Definition slot_text (c : ns_config) (s : cfg_slot) : bytes :=
  match s with
  | CFG_STRING k _ => match cfg_str c k with Some v => v | None => [] end
  | CFG_BOOL k _ => if cfg_bool c k then $"true" else $"false"
  | CFG_INT k _ => print_d (cfg_int c k)
  | CFG_REFERER _ => referer_policy_name (referer_policy c)
  | CFG_COOKIE _ => cookie_policy_name (cookie_policy c)
  | CFG_COLOR_SCHEME _ => color_scheme_name (color_scheme c)
  | CFG_REDUCED_MOTION _ => reduced_motion_name (reduced_motion c)
  end.

(** The text [ns_config_save] writes to the file. *)
Definition ns_config_save (c : ns_config) : bytes :=
  $"# northstar configuration" ++ [nl] ++
  concat (map (fun f => fst f ++ $" = " ++ slot_text c (snd f) ++ [nl]) cfg_fields).

End ConfigFile.

(** ** Lemmas *)

(** A string a line of the file can hold: no line end, no white space around. *)
Definition storable (s : bytes) : Prop :=
  head_is Ref.isspace s = false /\ head_is Ref.isspace (rev s) = false /\
  free_of nl s = true /\ free_of nul s = true.

Definition storable_config (c : ns_config) : Prop :=
  (forall k, match cfg_str c k with Some s => storable s | None => False end) /\
  (forall k, in_s 32 (cfg_int c k)).

(** *** Integers *)

Lemma strtoll10_print_d z : in_s 64 z -> Ref.strtoll10 (print_d z) = z.
Proof.
  unfold in_s. change (64 - 1)%Z with 63%Z. intros Hz. unfold print_d.
  destruct (Z.ltb_spec z 0).
  - destruct (digits_spec (- z) ltac:(lia)) as (Hd & Hv & _).
    unfold Ref.strtoll10. change (drop_while Ref.isspace ("-"%char :: digits 10 (- z))) with ("-"%char :: digits 10 (- z)).
    cbv iota beta. change ("-" =c "-") with true. cbv iota.
    rewrite take_while_id by done. rewrite Hv. unfold clamp_s. change (64 - 1)%Z with 63%Z. lia.
  - rewrite <- (app_nil_r (digits 10 z)). apply strtoll10_print; [lia|done].
Qed.

Lemma strtoll10_end_print_d z : bool_decide (Ref.strtoll10_end (print_d z) = print_d z) = false.
Proof.
  apply bool_decide_eq_false. unfold print_d. destruct (Z.ltb_spec z 0).
  - destruct (digits_spec (- z) ltac:(lia)) as (Hd & _ & Hn). unfold Ref.strtoll10_end.
    change (drop_while Ref.isspace ("-"%char :: digits 10 (- z))) with ("-"%char :: digits 10 (- z)).
    cbv iota beta. change (("-" =c "-") || ("-" =c "+")) with true. cbv iota.
    destruct (digits 10 (- z)) as [|c ds]; [done|]. cbn [head_is]. cbn [forallb] in Hd.
    apply andb_prop in Hd as [Hc Hd]. rewrite Hc, drop_while_nil; [done|]. cbn. by rewrite Hc.
  - destruct (digits_spec z ltac:(lia)) as (Hd & _ & Hn). unfold Ref.strtoll10_end.
    destruct (digits 10 z) as [|c ds]; [done|]. pose proof Hd as Hd'. cbn [forallb] in Hd'.
    apply andb_prop in Hd' as [Hc _].
    assert (X : negb (is_digit c) || (negb (Ref.isspace c) && negb (c =c "-") && negb (c =c "+")) = true).
    { clear. by_bytes c. }
    rewrite Hc in X. cbn [negb orb] in X. boolify. cbn [drop_while]. rewrite H0.
    rewrite (proj2 (Ascii.eqb_neq c "-")), (proj2 (Ascii.eqb_neq c "+")) by done. cbn [orb head_is].
    rewrite Hc, drop_while_nil; done.
Qed.

Lemma parse_int_print z d : in_s 32 z -> parse_int (G := glib_ref) (print_d z) d = z.
Proof.
  unfold in_s. change (32 - 1)%Z with 31%Z. intros Hz. unfold parse_int. glib_simpl.
  destruct (print_d z) as [|c s] eqn:E.
  { unfold print_d in E. destruct (Z.ltb_spec z 0); [done|]. by destruct (digits_spec z ltac:(lia)) as (_ & _ & ?). }
  rewrite <- E. rewrite strtoll10_end_print_d, strtoll10_print_d.
  - unfold G_MININT, G_MAXINT. destruct (Z.ltb_spec z (- 2 ^ 31)); [lia|].
    destruct (Z.ltb_spec (2 ^ 31 - 1) z); [lia|done].
  - unfold in_s. change (64 - 1)%Z with 63%Z. lia.
Qed.

(** *** One line *)

Definition bare (s : bytes) : Prop :=
  head_is Ref.isspace s = false /\ head_is Ref.isspace (rev s) = false.

Lemma drop_while_bare s : head_is Ref.isspace s = false -> drop_while Ref.isspace s = s.
Proof. destruct s as [|c s]; [done|]. cbn [head_is drop_while]. by intros ->. Qed.

Lemma strip_bare s : bare s -> Ref.strip s = s.
Proof.
  intros [H1 H2]. unfold Ref.strip, Ref.strip_trailing. rewrite (drop_while_bare s) by done.
  rewrite drop_while_bare by done. apply rev_involutive.
Qed.

Lemma strip_lead s : Ref.strip (" "%char :: s) = Ref.strip s.
Proof. done. Qed.

Lemma strip_trail s : s <> [] -> bare s -> Ref.strip (s ++ [" "%char]) = s.
Proof.
  intros Hn [H1 H2]. unfold Ref.strip, Ref.strip_trailing.
  rewrite (drop_while_bare (s ++ [" "%char])) by by destruct s. rewrite rev_app_distr. cbn [rev app drop_while].
  change (Ref.isspace " ") with true. cbv iota. rewrite drop_while_bare by done. apply rev_involutive.
Qed.

Definition key_ok (k : bytes) : bool :=
  negb (length k =? 0) && negb (head_is Ref.isspace k) && negb (head_is Ref.isspace (rev k)) &&
  negb (head_is (fun c => c =c "#") k) && free_of "=" k && free_of nl k && free_of nul k.

Lemma load_line_pair c k v :
  key_ok k = true -> bare v ->
  load_line (G := glib_ref) c (k ++ $" = " ++ v) = apply_pair (G := glib_ref) c k v.
Proof.
  unfold key_ok. intros Hk Hv.
  apply andb_prop in Hk as [Hk _]. apply andb_prop in Hk as [Hk _].
  apply andb_prop in Hk as [Hk K5]. apply andb_prop in Hk as [Hk K4]. apply andb_prop in Hk as [Hk K3].
  apply andb_prop in Hk as [K1 K2]. rewrite !negb_true_iff in *.
  assert (Hne : k <> []) by by destruct k.
  assert (S : Ref.strip (k ++ $" = " ++ v) = k ++ $" =" ++ match v with [] => [] | _ => $" " ++ v end).
  { destruct v as [|x v].
    - rewrite !app_nil_r. change (k ++ $" = ") with (k ++ $" =" ++ [" "%char]). rewrite app_assoc.
      apply strip_trail; [by destruct k|]. split; [by destruct k|]. rewrite rev_app_distr. done.
    - change ($" =" ++ $" " ++ x :: v) with ($" = " ++ x :: v). apply strip_bare.
      split; [by destruct k|]. rewrite !rev_app_distr. destruct Hv as [_ Hv].
      destruct (rev (x :: v)) as [|y l] eqn:Er; [|exact Hv].
      apply (f_equal length) in Er. by rewrite length_rev in Er. }
  unfold load_line. change (g_strstrip (GLib := glib_ref)) with Ref.strip. rewrite S.
  set (tl := match v with [] => [] | _ => _ end).
  assert (Ht : Ref.strip tl = v).
  { unfold tl. destruct v as [|x v]; [done|]. change ($" " ++ x :: v) with (" "%char :: x :: v).
    rewrite strip_lead. by apply strip_bare. }
  assert (F : free_of "=" (k ++ $" ") = true) by by rewrite free_of_app, K5.
  replace (k ++ $" =" ++ tl) with ((k ++ $" ") ++ "="%char :: tl) by (by rewrite <- app_assoc).
  destruct ((k ++ $" ") ++ "="%char :: tl) as [|x l] eqn:E; [by destruct k|].
  assert (Hx : (x =c "#") = false).
  { destruct k as [|y k]; [done|]. injection E as -> _. exact K4. }
  rewrite Hx, <- E.
  destruct (strchr_app (k ++ $" ") "=" tl F) as [-> ->].
  change ($" ") with [" "%char]. rewrite strip_trail by (done || by split).
  cbn [drop]. rewrite drop_0, Ht. by destruct k.
Qed.

(** *** The whole file *)

(** Setting one slot of [d] to its value in [c]. *)
Definition copy_slot (c d : ns_config) (f : cfg_field) : ns_config :=
  match snd f with
  | CFG_STRING k _ => set_str k (cfg_str c k) d
  | CFG_BOOL k _ => set_bool k (cfg_bool c k) d
  | CFG_INT k _ => set_int k (cfg_int c k) d
  | CFG_REFERER _ => set_referer (referer_policy c) d
  | CFG_COOKIE _ => set_cookie (cookie_policy c) d
  | CFG_COLOR_SCHEME _ => set_color_scheme (color_scheme c) d
  | CFG_REDUCED_MOTION _ => set_reduced_motion (reduced_motion c) d
  end.

Lemma apply_slot_text c d s :
  storable_config c -> apply_slot (G := glib_ref) d s (slot_text c s) = copy_slot c d ([], s).
Proof.
  intros [Hs Hi]. destruct s as [k ?|k ?|k ?|?|?|?|?]; cbn [apply_slot slot_text copy_slot snd].
  - specialize (Hs k). by destruct (cfg_str c k).
  - by destruct (cfg_bool c k).
  - by rewrite parse_int_print.
  - by destruct (referer_policy c).
  - by destruct (cookie_policy c).
  - by destruct (color_scheme c).
  - by destruct (reduced_motion c).
Qed.

Lemma cfg_fields_keys :
  Forall (fun f => key_ok (fst f) = true /\
            List.find (fun g => strcmp0 (fst f) (fst g)) cfg_fields = Some f) cfg_fields.
Proof. repeat (constructor; [split; by vm_compute|]). constructor. Qed.

Lemma print_d_chars z : allb (fun c => is_digit c || (c =c "-")) (print_d z) = true.
Proof.
  assert (D : forall n, (0 <= n)%Z -> allb (fun c => is_digit c || (c =c "-")) (digits 10 n) = true).
  { intros n Hn. destruct (digits_spec n Hn) as [H _]. revert H. apply allb_impl. by intros c ->. }
  unfold print_d. destruct (Z.ltb_spec z 0); [|by apply D].
  cbn [forallb]. rewrite D by lia. reflexivity.
Qed.

Lemma chars_bare (P : ascii -> bool) s :
  (forall c, P c = true -> Ref.isspace c = false) -> allb P s = true -> bare s.
Proof.
  intros HP Hs. assert (H : forall l, allb P l = true -> head_is Ref.isspace l = false).
  { intros [|c l]; [done|]. cbn. intros H. boolify. by apply HP. }
  split; apply H; [done|]. rewrite forallb_forall in *. intros x Hx. apply Hs. by apply in_rev.
Qed.

Lemma slot_text_ok c s :
  storable_config c -> bare (slot_text c s) /\ free_of nl (slot_text c s) = true /\
    free_of nul (slot_text c s) = true.
Proof.
  intros [Hs Hi]. destruct s as [k ?|k ?|k ?|?|?|?|?]; cbn [slot_text].
  - specialize (Hs k). destruct (cfg_str c k) as [v|]; [|done]. destruct Hs as (H1 & H2 & H3 & H4).
    by repeat split.
  - by destruct (cfg_bool c k).
  - pose proof (print_d_chars (cfg_int c k)) as H.
    assert (X : forall x, is_digit x || (x =c "-") = true ->
      Ref.isspace x = false /\ (x =c nl) = false /\ (x =c nul) = false).
    { intros x Hx. assert (Y : negb (is_digit x || (x =c "-")) ||
        (negb (Ref.isspace x) && negb (x =c nl) && negb (x =c nul)) = true) by (clear; by_bytes x).
      rewrite Hx in Y. cbn [negb orb] in Y. apply andb_prop in Y as [Y Y3]. apply andb_prop in Y as [Y1 Y2].
      by rewrite !negb_true_iff in *. }
    split; [eapply chars_bare; [|exact H]; intros x Hx; by apply X|].
    split; (revert H; apply allb_impl; intros x Hx; apply negb_true_iff; by apply X).
  - by destruct (referer_policy c).
  - by destruct (cookie_policy c).
  - by destruct (color_scheme c).
  - by destruct (reduced_motion c).
Qed.

Definition field_line (c : ns_config) (f : cfg_field) : bytes := fst f ++ $" = " ++ slot_text c (snd f).

Lemma concat_lines (ls : list bytes) :
  concat (map (fun l => l ++ [nl]) ls) = Ref.join [nl] (ls ++ [[]]).
Proof.
  induction ls as [|l ls IH]; [done|]. cbn [map concat app]. rewrite IH.
  destruct (ls ++ [[]]) eqn:E; [by destruct ls|]. by rewrite <- app_assoc.
Qed.

Lemma config_save_lines c :
  ns_config_save c = Ref.join [nl] (($"# northstar configuration" :: map (field_line c) cfg_fields) ++ [[]]).
Proof.
  rewrite <- concat_lines. unfold ns_config_save. cbn [map concat]. rewrite <- app_assoc. do 2 f_equal.
Qed.

Lemma load_fields c d fs :
  storable_config c -> Forall (fun f => key_ok (fst f) = true /\
     List.find (fun g => strcmp0 (fst f) (fst g)) cfg_fields = Some f) fs ->
  fold_left (load_line (G := glib_ref)) (map (field_line c) fs) d = fold_left (copy_slot c) fs d.
Proof.
  intros Hc. revert d. induction fs as [|f fs IH]; intros d F; [done|]. inversion F as [|? ? [Hk Hf] F']; subst.
  cbn [map fold_left]. unfold field_line at 2. rewrite load_line_pair by (done || by apply slot_text_ok).
  unfold apply_pair. rewrite Hf, apply_slot_text by done. by apply IH.
Qed.

(** Copying every slot of the table gives the configuration back, but for the one
    field the table does not have. *)
Lemma copy_all c d :
  fold_left (copy_slot c) cfg_fields d ≡ set_bool private_mode (cfg_bool d private_mode) c.
Proof. split_and!; [intros []|intros []|intros []| | | |]; reflexivity. Qed.

Lemma load_line_header d : load_line (G := glib_ref) d ($"# northstar configuration") = d.
Proof. done. Qed.
Lemma load_line_empty d : load_line (G := glib_ref) d [] = d.
Proof. done. Qed.

Lemma load_saved_lines c d :
  storable_config c ->
  fold_left (load_line (G := glib_ref))
    (($"# northstar configuration" :: map (field_line c) cfg_fields) ++ [[]]) d
  ≡ set_bool private_mode (cfg_bool d private_mode) c.
Proof.
  intros Hc. rewrite fold_left_app, <- (copy_all c d), <- (load_fields c d cfg_fields Hc cfg_fields_keys).
  generalize (map (field_line c) cfg_fields). intros l. cbn [fold_left].
  by rewrite load_line_header, load_line_empty.
Qed.

(** C40. Saving and loading the configuration: the text written for a configuration
    whose strings fit on a line is read back to an equivalent configuration,
    whatever the one it is loaded over; only the private mode, which the file does
    not hold, stays as it was. *)
Theorem config_save_load (G : GLib) (GS : GLibSpec G) (c d : ns_config) :
  storable_config c ->
  load_file d (Some (ns_config_save c)) ≡ set_bool private_mode (cfg_bool d private_mode) c.
Proof.
  glib. intros Hc. unfold load_file. rewrite config_save_lines.
  set (ls := ($"# northstar configuration" :: map (field_line c) cfg_fields) ++ [[]]).
  assert (F : Forall (fun l => free_of nl l = true /\ free_of nul l = true) ls).
  { apply Forall_app. split; [|by repeat constructor]. constructor; [by split|].
    apply List.Forall_forall. intros l Hl. apply in_map_iff in Hl as (f & <- & Hf).
    pose proof cfg_fields_keys as K. rewrite List.Forall_forall in K. destruct (K f Hf) as [Hk _].
    unfold key_ok in Hk. apply andb_prop in Hk as [Hk K7]. apply andb_prop in Hk as [_ K6].
    destruct (slot_text_ok c (snd f) Hc) as (_ & H2 & H3). unfold field_line.
    by rewrite !free_of_app, K6, K7, H2, H3. }
  assert (Hn : free_of nul (Ref.join [nl] ls) = true).
  { apply join_free; [done|]. eapply Forall_impl; [exact F|]. by intros l [_ ?]. }
  unfold cstr_of. rewrite take_while_id by exact Hn.
  change (g_strsplit (GLib := glib_ref)) with Ref.split. rewrite split_join.
  - apply load_saved_lines, Hc.
  - eapply Forall_impl; [exact F|]. by intros l [? _].
  - done.
Qed.

Definition demo_config : ns_config :=
  set_str home_url (Some ($"https://a.example/?q=a = b"))
    (set_int cache_cap_mb (-5) (set_referer NS_REFERER_SAME_ORIGIN (apply_default cfg_zero))).

Lemma config_save_load_witness :
  storable_config demo_config /\
  load_file (G := glib_ref) cfg_zero (Some (ns_config_save demo_config))
    ≡ set_bool private_mode false demo_config.
Proof.
  assert (H : storable_config demo_config).
  { split; [intros []; split_and!; by vm_compute|intros []; by vm_compute]. }
  split; [exact H|]. exact (config_save_load glib_ref glib_ref_spec demo_config cfg_zero H).
Defined.
