(* ===== verification/IpcHttp.v ===== *)
(** * The HTTP framing of the renderer's pipe ([src/ipc_http.c])

    The browser and its renderer process exchange HTTP/1.1 messages over a pair
    of file descriptors. A descriptor is the list of outcomes its next [read] or
    [write] calls have; a connection's buffer is the part of [buf] that has not
    been consumed, [buf\[start .. start+len)]. *)

From S2P Require Import Prelude CStr.

Definition NS_HTTP_MAX_BODY : Z := 64 * 1024 * 1024.
Definition NS_HTTP_MAX_HEADERS : nat := 64.
Definition HTTP_BUF : nat := Z.to_nat 16384.
Definition HTTP_LINE : nat := Z.to_nat 20480.

(** ** Reading *)

Inductive read_result :=
| READ_OK (chunk : bytes)   (* what is waiting; none: the end of the stream *)
| READ_EINTR
| READ_ERROR.

Record http_conn := { c_buf : bytes; c_sock : list read_result }.

Definition http_conn_init (sock : list read_result) : http_conn :=
  {| c_buf := []; c_sock := sock |}.

(** [read(c->fd, c->buf, sizeof c->buf)] until it is not interrupted. A result
    [None] stands for the C functions' [-1]. *)
Fixpoint read_sock (sock : list read_result) : option http_conn :=
  match sock with
  | READ_EINTR :: sock' => read_sock sock'
  | READ_OK ((_ :: _) as chunk) :: sock' =>
      let r := take HTTP_BUF chunk in
      let left := drop HTTP_BUF chunk in
      Some {| c_buf := r;
              c_sock := match left with [] => sock' | _ => READ_OK left :: sock' end |}
  | READ_OK [] :: _ | READ_ERROR :: _ | [] => None
  end.

Definition conn_fill (c : http_conn) : option http_conn :=
  match c_buf c with
  | _ :: _ => Some c
  | [] => read_sock (c_sock c)
  end.

(** What the descriptor can still deliver: the measure of the reading loops. *)
Fixpoint sock_size (sock : list read_result) : nat :=
  match sock with
  | [] => 0
  | READ_OK chunk :: sock' => length chunk + sock_size sock'
  | _ :: sock' => sock_size sock'
  end.
Definition conn_size (c : http_conn) : nat := length (c_buf c) + sock_size (c_sock c).

(** The loop [while (n > 0 && out\[n - 1\] == '\r') n--]. *)
Fixpoint trim_cr (line : bytes) : bytes :=
  match line with
  | [] => []
  | ch :: r => match trim_cr r with
               | [] => if ch =c cr then [] else [ch]
               | t => ch :: t
               end
  end.

Fixpoint read_line_loop (fuel : nat) (c : http_conn) (out : bytes) (cap : nat)
    : option (bytes * http_conn) :=
  match fuel with
  | O => None
  | S fuel' =>
      match conn_fill c with
      | None => None
      | Some c =>
          match c_buf c with
          | [] => None
          | ch :: rest =>
              let c := {| c_buf := rest; c_sock := c_sock c |} in
              if ch =c nl then Some (trim_cr out, c)
              else read_line_loop fuel' c
                     (if length out + 1 <? cap then out ++ [ch] else out) cap
          end
      end
  end.

(** Every turn of the loop consumes a byte. *)
Definition conn_read_line (c : http_conn) (cap : nat) : option (bytes * http_conn) :=
  read_line_loop (S (conn_size c)) c [] cap.

(** The loop of [http_read_body]; that of [http_skip_body] drops the bytes. *)
Fixpoint read_body_loop (fuel : nat) (c : http_conn) (n : nat) (got : bytes)
    : option (bytes * http_conn) :=
  if n <=? length got then Some (got, c)
  else
    match fuel with
    | O => None
    | S fuel' =>
        match conn_fill c with
        | None => None
        | Some c =>
            let k := Nat.min (length (c_buf c)) (n - length got) in
            read_body_loop fuel' {| c_buf := drop k (c_buf c); c_sock := c_sock c |} n
              (got ++ take k (c_buf c))
        end
    end.

(** [dst]: there is a buffer to read into. *)
Definition http_read_body (c : http_conn) (n : Z) (dst : bool) : option (bytes * http_conn) :=
  if (n <? 0)%Z then None
  else if (0 <? n)%Z && negb dst then None
  else read_body_loop (conn_size c) c (Z.to_nat n) [].

Fixpoint skip_body_loop (fuel : nat) (c : http_conn) (n got : nat) : option http_conn :=
  if n <=? got then Some c
  else
    match fuel with
    | O => None
    | S fuel' =>
        match conn_fill c with
        | None => None
        | Some c =>
            let k := Nat.min (length (c_buf c)) (n - got) in
            skip_body_loop fuel' {| c_buf := drop k (c_buf c); c_sock := c_sock c |} n (got + k)
        end
    end.

Definition http_skip_body (c : http_conn) (n : Z) : option http_conn :=
  if (n <? 0)%Z then None else skip_body_loop (conn_size c) c (Z.to_nat n) 0.

(** ** Heads *)

Inductive head_long :=
  X_W | X_H | X_STRIDE | X_ANIM | X_PAGE_W | X_PAGE_H | X_SCROLL_Y | X_UNCHANGED | X_RENDER_RC.
Inductive head_str := X_NAV | X_CAMERA | X_DOWNLOAD | X_AUDIO.

#[export] Instance head_long_eq_dec : EqDecision head_long.
Proof. solve_decision. Defined.
#[export] Instance head_str_eq_dec : EqDecision head_str.
Proof. solve_decision. Defined.

Record http_head := {
  h_method : bytes;
  h_path : bytes;
  h_status : Z;
  h_content_length : Z;
  h_long : head_long -> Z;
  h_str : head_str -> bytes;
}.

Definition head0 : http_head :=
  {| h_method := []; h_path := []; h_status := 0; h_content_length := 0;
     h_long f := match f with X_UNCHANGED | X_RENDER_RC => 0%Z | _ => (-1)%Z end;
     h_str _ := [] |}.

(** The room of [x_nav], [x_camera], [x_download] and [x_audio]. *)
Definition head_str_cap (f : head_str) : nat :=
  match f with
  | X_NAV | X_CAMERA => 2048
  | X_DOWNLOAD => 3072
  | X_AUDIO => Z.to_nat 16384
  end.

Inductive head_slot := CONTENT_LENGTH | LONG (f : head_long) | STR (f : head_str).

(** The chain of [strcasecmp] tests, in its order. *)
Definition head_names : list (bytes * head_slot) :=
  [($"Content-Length", CONTENT_LENGTH); ($"X-W", LONG X_W); ($"X-H", LONG X_H);
   ($"X-Stride", LONG X_STRIDE); ($"X-Anim", LONG X_ANIM); ($"X-PageW", LONG X_PAGE_W);
   ($"X-PageH", LONG X_PAGE_H); ($"X-ScrollY", LONG X_SCROLL_Y);
   ($"X-Unchanged", LONG X_UNCHANGED); ($"X-Render-RC", LONG X_RENDER_RC);
   ($"X-Nav", STR X_NAV); ($"X-Camera", STR X_CAMERA);
   ($"X-Download", STR X_DOWNLOAD); ($"X-Audio", STR X_AUDIO)].

Definition head_set (h : http_head) (slot : head_slot) (val : bytes) : http_head :=
  match slot with
  | CONTENT_LENGTH =>
      Build_http_head (h_method h) (h_path h) (h_status h) (atol val) (h_long h) (h_str h)
  | LONG f =>
      Build_http_head (h_method h) (h_path h) (h_status h) (h_content_length h)
        (fun g => if decide (f = g) then atol val else h_long h g) (h_str h)
  | STR f =>
      Build_http_head (h_method h) (h_path h) (h_status h) (h_content_length h) (h_long h)
        (fun g => if decide (f = g) then take (head_str_cap f - 1) val else h_str h g)
  end.

(** One header line. *)
Definition head_line (h : http_head) (line : bytes) : http_head :=
  let line := cstr_of line in
  match strchr line ":" with
  | None => h
  | Some r =>
      let val := drop_while (fun c => c =c " ") (drop 1 r) in
      match find (fun e => strcasecmp0 (before line ":") (fst e)) head_names with
      | Some (_, slot) => head_set h slot val
      | None => h
      end
  end.

Definition METHOD_CAP : nat := 8.
Definition PATH_CAP : nat := 128.

(** The start line; [None]: malformed. *)
Definition head_start (line : bytes) : option http_head :=
  let line := cstr_of line in
  if strncmp0 line ($"HTTP/") 5 then
    let status := match strchr line " " with Some sp => atoi (drop 1 sp) | None => 0%Z end in
    Some (Build_http_head [] [] status 0 (h_long head0) (h_str head0))
  else
    match strchr line " " with
    | None => None
    | Some sp =>
        let path := before (drop 1 sp) " " in
        Some (Build_http_head (take (METHOD_CAP - 1) (before line " "))
                (take (PATH_CAP - 1) path) 0 0 (h_long head0) (h_str head0))
    end.

(** [http_read_head] over whatever delivers the lines: the code's source is
    [conn_read_line]. *)
Section Head.
Context {S : Type} (read_line : S -> option (bytes * S)).

(** [fuel]: the header lines still allowed; the call that finds the limit
    passed reads the line first. *)
Fixpoint head_loop (fuel : nat) (c : S) (h : http_head) : option (http_head * S) :=
  match read_line c with
  | None => None
  | Some ([], c) => Some (h, c)
  | Some (line, c) =>
      match fuel with
      | O => None
      | Datatypes.S fuel' => head_loop fuel' c (head_line h line)
      end
  end.

Definition read_head (c : S) : option (http_head * S) :=
  match read_line c with
  | None | Some ([], _) => None
  | Some (line, c) =>
      match head_start line with
      | None => None
      | Some h =>
          match head_loop NS_HTTP_MAX_HEADERS c h with
          | None => None
          | Some (h, c) =>
              if (h_content_length h <? 0)%Z || (NS_HTTP_MAX_BODY <? h_content_length h)%Z
              then None else Some (h, c)
          end
      end
  end.
End Head.

Definition http_read_head (c : http_conn) : option (http_head * http_conn) :=
  read_head (fun c => conn_read_line c HTTP_LINE) c.

(** ** Writing *)

Inductive write_result :=
| WRITE_OK (w : nat)    (* how many bytes the descriptor takes, at most *)
| WRITE_EINTR
| WRITE_ERROR.

(** What was written, whether all of it was, and the outcomes left. *)
Fixpoint write_all (fd : list write_result) (buf : bytes) : bytes * bool * list write_result :=
  match buf with
  | [] => ([], true, fd)
  | _ =>
      match fd with
      | WRITE_OK (S w) :: fd' =>
          let '(out, ok, fd'') := write_all fd' (drop (S w) buf) in
          (take (S w) buf ++ out, ok, fd'')
      | WRITE_EINTR :: fd' => write_all fd' buf
      | WRITE_OK 0 :: fd' | WRITE_ERROR :: fd' => ([], false, fd')
      | [] => ([], false, [])
      end
  end.

Definition crlf : bytes := [cr; nl].

Definition request_head (method path : bytes) (content_type : option bytes) (n : Z) : bytes :=
  method ++ $" " ++ path ++ $" HTTP/1.1" ++ crlf ++
  $"Content-Type: " ++ default ($"text/plain") content_type ++ crlf ++
  $"Content-Length: " ++ print_u n ++ crlf ++ crlf.

(** [write_all] of the head, then of the body. *)
Definition write_message (fd : list write_result) (head body : bytes)
    : bytes * bool * list write_result :=
  let '(out, ok, fd) := write_all fd head in
  if negb ok then (out, false, fd)
  else
    let '(out', ok, fd) := write_all fd body in
    (out ++ out', ok, fd).

Definition http_write_request (fd : list write_result) (method path : bytes)
    (content_type : option bytes) (body : bytes) : bytes * bool * list write_result :=
  let head := request_head method path content_type (Z.of_nat (length body)) in
  if 512 <=? length head then ([], false, fd)
  else write_message fd head body.

Definition response_head (status : Z) (content_type extra_headers : option bytes) (n : Z) : bytes :=
  $"HTTP/1.1 " ++ print_d status ++ $" OK" ++ crlf ++
  $"Content-Type: " ++ default ($"text/plain") content_type ++ crlf ++
  default [] extra_headers ++
  $"Content-Length: " ++ print_u n ++ crlf ++ crlf.

(** [None]: [malloc] failed ([alloc] is its outcome). *)
Definition http_write_response (alloc : bool) (fd : list write_result) (status : Z)
    (content_type extra_headers : option bytes) (body : bytes)
    : bytes * bool * list write_result :=
  let head := response_head status content_type extra_headers (Z.of_nat (length body)) in
  if negb alloc then ([], false, fd)
  else write_message fd head body.

(** ** The stream a connection delivers

    All the bytes the descriptor will deliver before it ends or fails. The
    reading functions, over any splitting of the stream into reads and any
    interruption, are the functions below on the plain list of bytes. *)

Fixpoint sock_bytes (sock : list read_result) : bytes :=
  match sock with
  | READ_EINTR :: sock' => sock_bytes sock'
  | READ_OK ((_ :: _) as chunk) :: sock' => chunk ++ sock_bytes sock'
  | READ_OK [] :: _ | READ_ERROR :: _ | [] => []
  end.
Definition stream (c : http_conn) : bytes := c_buf c ++ sock_bytes (c_sock c).

Fixpoint scan_line (cap : nat) (s out : bytes) : option (bytes * bytes) :=
  match s with
  | [] => None
  | ch :: r => if ch =c nl then Some (trim_cr out, r)
               else scan_line cap r (if length out + 1 <? cap then out ++ [ch] else out)
  end.
Definition stream_line (cap : nat) (s : bytes) : option (bytes * bytes) := scan_line cap s [].
Definition stream_head : bytes -> option (http_head * bytes) := read_head (stream_line HTTP_LINE).
Definition stream_body (s : bytes) (n : Z) : option (bytes * bytes) :=
  if (n <? 0)%Z || (Z.of_nat (length s) <? n)%Z then None
  else Some (take (Z.to_nat n) s, drop (Z.to_nat n) s).

Definition on_stream {A} (r : option (A * http_conn)) : option (A * bytes) :=
  match r with Some (a, c) => Some (a, stream c) | None => None end.

Lemma read_sock_spec sock :
  match read_sock sock with
  | Some c => stream c = sock_bytes sock /\ c_buf c <> [] /\ conn_size c <= sock_size sock
  | None => sock_bytes sock = []
  end.
Proof.
  induction sock as [|[chunk| |] sock IH]; cbn [read_sock sock_bytes sock_size]; try done.
  - destruct chunk as [|b chunk]; [done|].
    assert (T : take HTTP_BUF (b :: chunk) <> []) by done.
    remember (b :: chunk) as s eqn:Hs. clear Hs b chunk IH.
    pose proof (take_drop HTTP_BUF s) as E. pose proof (f_equal length E) as L.
    rewrite length_app in L. unfold stream, conn_size; cbn [c_buf c_sock].
    destruct (drop HTTP_BUF s) as [|d left] eqn:D; cbn [sock_bytes sock_size].
    + rewrite app_nil_r in E. rewrite E. split; [done|]. split; [by rewrite <- E|lia].
    + rewrite app_assoc, E. split; [done|]. split; [done|]. cbn [length] in *. lia.
Qed.

Lemma conn_fill_spec c :
  match conn_fill c with
  | Some c' => stream c' = stream c /\ c_buf c' <> [] /\ conn_size c' <= conn_size c
  | None => stream c = []
  end.
Proof.
  unfold conn_fill. destruct (c_buf c) as [|b buf] eqn:B.
  - pose proof (read_sock_spec (c_sock c)) as H. assert (E : stream c = sock_bytes (c_sock c)) by (unfold stream; by rewrite B).
    assert (Z : conn_size c = sock_size (c_sock c)) by (unfold conn_size; by rewrite B).
    rewrite E, Z. exact H.
  - split; [done|]. split; [by rewrite B|done].
Qed.

Lemma read_line_loop_stream fuel c out cap :
  conn_size c < fuel ->
  on_stream (read_line_loop fuel c out cap) = scan_line cap (stream c) out /\
  (forall l c', read_line_loop fuel c out cap = Some (l, c') -> conn_size c' <= conn_size c).
Proof.
  revert c out. induction fuel as [|fuel IH]; intros c out Hf; [lia|].
  cbn [read_line_loop]. pose proof (conn_fill_spec c) as F.
  destruct (conn_fill c) as [c1|]; [|by rewrite F].
  destruct F as (Hs & Hb & Hz). rewrite <- Hs.
  destruct (c_buf c1) as [|ch rest] eqn:B; [done|]. clear Hb.
  set (c2 := {| c_buf := rest; c_sock := c_sock c1 |}).
  assert (E : stream c1 = ch :: stream c2) by (unfold stream; by rewrite B).
  assert (L : conn_size c1 = S (conn_size c2)) by (unfold conn_size; by rewrite B).
  rewrite E. cbn [scan_line]. destruct (ch =c nl).
  - split; [done|]. intros l c' [= _ <-]. lia.
  - destruct (IH c2 (if length out + 1 <? cap then out ++ [ch] else out) ltac:(lia)) as [I1 I2].
    split; [done|]. intros l c' H. specialize (I2 _ _ H). lia.
Qed.

Lemma conn_read_line_stream c cap :
  on_stream (conn_read_line c cap) = stream_line cap (stream c).
Proof. unfold conn_read_line. apply read_line_loop_stream. lia. Qed.

(** The head reader follows its source of lines. *)
Lemma read_head_sim {S T} (f : S -> T) rl rl' :
  (forall c, match rl c with Some (l, c') => Some (l, f c') | None => None end = rl' (f c)) ->
  forall c, match read_head rl c with Some (h, c') => Some (h, f c') | None => None end
            = read_head rl' (f c).
Proof.
  intros Hrl.
  assert (L : forall fuel c h,
    match head_loop rl fuel c h with Some (h', c') => Some (h', f c') | None => None end
    = head_loop rl' fuel (f c) h).
  { induction fuel as [|fuel IH]; intros c h; cbn [head_loop]; rewrite <- (Hrl c);
      destruct (rl c) as [[[|b l] c']|]; done. }
  intros c. unfold read_head. rewrite <- (Hrl c).
  destruct (rl c) as [[[|b l] c']|]; try done.
  destruct (head_start (b :: l)) as [h|]; [|done]. rewrite <- L.
  destruct (head_loop rl NS_HTTP_MAX_HEADERS c' h) as [[h' c'']|]; [|done].
  by destruct (_ || _).
Qed.

Lemma read_body_loop_stream fuel c n got :
  conn_size c <= fuel -> length got <= n ->
  on_stream (read_body_loop fuel c n got)
  = if n - length got <=? length (stream c)
    then Some (got ++ take (n - length got) (stream c), drop (n - length got) (stream c))
    else None.
Proof.
  revert c got. induction fuel as [|fuel IH]; intros c got Hf Hg; cbn [read_body_loop];
    destruct (Nat.leb_spec n (length got)) as [Hn|Hn].
  1,3: replace (n - length got) with 0 by lia; cbn [Nat.leb take drop];
    rewrite app_nil_r; done.
  - assert (stream c = []) as ->.
    { unfold conn_size in Hf. unfold stream. destruct (c_buf c); cbn [length] in Hf; [|lia]. cbn [app].
      assert (Z : sock_size (c_sock c) = 0) by lia. clear -Z.
      induction (c_sock c) as [|[[|b chunk]| |] s IHs]; cbn in *; try done. by apply IHs. }
    destruct (Nat.leb_spec (n - length got) (length (@nil ascii))); cbn [length] in *; [lia|done].
  - pose proof (conn_fill_spec c) as F. destruct (conn_fill c) as [c1|].
    + destruct F as (Hs & Hb & Hz). rewrite <- Hs.
      set (k := Nat.min (length (c_buf c1)) (n - length got)).
      assert (K : 0 < k) by (unfold k; destruct (c_buf c1); [done|cbn [length]; lia]).
      set (c2 := {| c_buf := drop k (c_buf c1); c_sock := c_sock c1 |}).
      assert (E : stream c1 = take k (c_buf c1) ++ stream c2).
      { unfold stream, c2; cbn [c_buf c_sock]. by rewrite app_assoc, take_drop. }
      assert (Lk : length (take k (c_buf c1)) = k) by (rewrite length_take; lia).
      assert (Lz : conn_size c2 + k = conn_size c1).
      { unfold conn_size, c2; cbn [c_buf c_sock]. rewrite length_drop. lia. }
      rewrite (IH c2) by (rewrite ?length_app, ?Lk; lia).
      rewrite E, !length_app, Lk.
      replace (n - (length got + k)) with (n - length got - k) by lia.
      destruct (Nat.leb_spec (n - length got - k) (length (stream c2))),
        (Nat.leb_spec (n - length got) (k + length (stream c2))); try lia; [|done].
      rewrite <- app_assoc. f_equal. f_equal.
      * rewrite take_app_ge by (rewrite Lk; lia). by rewrite Lk.
      * rewrite drop_app_ge by (rewrite Lk; lia). by rewrite Lk.
    + rewrite F. destruct (Nat.leb_spec (n - length got) (length (@nil ascii))); cbn [length] in *; [lia|done].
Qed.

Lemma skip_body_loop_read fuel c n got :
  skip_body_loop fuel c n (length got)
  = match read_body_loop fuel c n got with Some (_, c') => Some c' | None => None end.
Proof.
  revert c got. induction fuel as [|fuel IH]; intros c got; cbn [read_body_loop skip_body_loop];
    destruct (n <=? length got); try done.
  destruct (conn_fill c) as [c1|]; [|done]. rewrite <- IH. f_equal.
  rewrite length_app, length_take. lia.
Qed.

Lemma http_read_body_stream c n : on_stream (http_read_body c n true) = stream_body (stream c) n.
Proof.
  unfold http_read_body, stream_body. destruct (Z.ltb_spec n 0); [done|]. cbn [orb negb]. rewrite andb_false_r.
  rewrite read_body_loop_stream by (cbn; lia). cbn [length app]. rewrite Nat.sub_0_r.
  destruct (Nat.leb_spec (Z.to_nat n) (length (stream c))),
    (Z.ltb_spec (Z.of_nat (length (stream c))) n); (lia || done).
Qed.

(** C6. The buffered reader is transparent: whatever way the bytes of the pipe
    are split into [read] calls, and however often those are interrupted, reading
    a head, reading a body and skipping a body give what they give on the plain
    stream of bytes, and leave the connection at the same place of the stream;
    they fail exactly when the stream is too short or the head malformed. Every
    loop ends. *)
Theorem reader_refines_stream (c : http_conn) (n : Z) :
  on_stream (http_read_head c) = stream_head (stream c) /\
  on_stream (http_read_body c n true) = stream_body (stream c) n /\
  match http_skip_body c n with Some c' => Some (stream c') | None => None end
  = match stream_body (stream c) n with Some (_, s) => Some s | None => None end.
Proof.
  split; [|split].
  - apply read_head_sim. intros c'. apply conn_read_line_stream.
  - apply http_read_body_stream.
  - rewrite <- http_read_body_stream. unfold http_skip_body, http_read_body.
    destruct (n <? 0)%Z; [done|]. cbn [negb]. rewrite andb_false_r. change 0 with (length (@nil ascii)).
    rewrite skip_body_loop_read. by destruct (read_body_loop _ _ _ _) as [[? ?]|].
Qed.

(** ** Messages written and read back *)

(** Text that can stand in a header line. *)
Definition text_char (c : ascii) : bool := negb (c =c nl) && negb (c =c cr) && negb (c =c nul).
Definition header_text (s : bytes) : bool := allb text_char s.
Definition wire_lines (lines : list bytes) : bytes := concat (map (fun l => l ++ crlf) lines).
Definition line_ok (l : bytes) : Prop :=
  header_text l = true /\ l <> [] /\ length l + 1 < HTTP_LINE.

Lemma header_text_app a b : header_text (a ++ b) = header_text a && header_text b.
Proof. apply allb_app. Qed.

Lemma digits_text z : (0 <= z)%Z -> header_text (print_u z) = true.
Proof.
  intros Hz. destruct (digits_spec z Hz) as (Hd & _).
  eapply allb_impl; [|exact Hd]. intros c Hc.
  assert (X : negb (is_digit c) || text_char c = true) by (clear; by_bytes c).
  by rewrite Hc in X.
Qed.

Lemma cstr_of_text s : header_text s = true -> cstr_of s = s.
Proof.
  intros H. apply take_while_id. eapply allb_impl; [|exact H].
  intros c Hc. unfold text_char in Hc. boolify. by apply negb_true_iff, Ascii.eqb_neq.
Qed.

Lemma trim_cr_text s : header_text s = true -> trim_cr (s ++ [cr]) = s.
Proof.
  induction s as [|c s IH]; [done|]. cbn [header_text forallb app trim_cr]. intros H.
  apply andb_prop in H as [Hc Hs]. rewrite IH by done. destruct s; [|done].
  unfold text_char in Hc. boolify. destruct (Ascii.eqb_spec c cr); [congruence|done].
Qed.

Lemma scan_line_app cap l k out :
  allb (fun c => negb (c =c nl)) l = true -> length out + length l < cap ->
  scan_line cap (l ++ nl :: k) out = Some (trim_cr (out ++ l), k).
Proof.
  revert out. induction l as [|c l IH]; intros out Hl Hc; cbn [app scan_line].
  - by rewrite Ascii.eqb_refl, app_nil_r.
  - cbn [forallb length] in *. apply andb_prop in Hl as [H1 H2].
    apply negb_true_iff in H1. rewrite H1.
    destruct (Nat.ltb_spec (length out + 1) cap); [|lia].
    rewrite IH by (done || (rewrite length_app; cbn [length]; lia)).
    by rewrite <- app_assoc.
Qed.

Lemma stream_line_text l k :
  header_text l = true -> length l + 1 < HTTP_LINE ->
  stream_line HTTP_LINE (l ++ crlf ++ k) = Some (l, k).
Proof.
  intros Ht Hl. unfold stream_line, crlf.
  change ([cr; nl] ++ k) with ([cr] ++ nl :: k). rewrite app_assoc.
  rewrite scan_line_app.
  - cbn [app]. by rewrite trim_cr_text.
  - rewrite allb_app. cbn [forallb]. change (negb (cr =c nl)) with true. rewrite !andb_true_r.
    eapply allb_impl; [|exact Ht]. intros c Hc. unfold text_char in Hc. boolify.
    by apply negb_true_iff, Ascii.eqb_neq.
  - rewrite length_app. cbn [length]. lia.
Qed.

Lemma head_loop_lines fuel lines k h :
  length lines <= fuel -> Forall line_ok lines ->
  head_loop (stream_line HTTP_LINE) fuel (wire_lines lines ++ crlf ++ k) h
  = Some (fold_left head_line lines h, k).
Proof.
  revert fuel h. induction lines as [|l lines IH]; intros fuel h Hf Hl.
  - cbn [wire_lines map concat app fold_left].
    assert (E : stream_line HTTP_LINE (crlf ++ k) = Some ([], k)).
    { apply (stream_line_text []); [done|]. cbn [length]. unfold HTTP_LINE. lia. }
    destruct fuel; cbn [head_loop]; by rewrite E.
  - destruct fuel as [|fuel]; [cbn [length] in Hf; lia|].
    apply Forall_cons in Hl as [(H1 & H2 & H3) Hl].
    unfold wire_lines; cbn [map concat]. fold (wire_lines lines).
    rewrite <- !app_assoc. cbn [head_loop]. rewrite stream_line_text by done.
    destruct l as [|b l]; [done|]. cbn [fold_left]. apply IH; [cbn [length] in Hf; lia|done].
Qed.

Lemma stream_head_lines start lines k h :
  line_ok start -> Forall line_ok lines -> length lines <= NS_HTTP_MAX_HEADERS ->
  head_start start = Some h ->
  (0 <= h_content_length (fold_left head_line lines h) <= NS_HTTP_MAX_BODY)%Z ->
  stream_head (start ++ crlf ++ wire_lines lines ++ crlf ++ k)
  = Some (fold_left head_line lines h, k).
Proof.
  intros (H1 & H2 & H3) Hl Hn Hs Hc. unfold stream_head, read_head.
  rewrite stream_line_text by done. destruct start as [|b s]; [done|]. rewrite Hs.
  rewrite head_loop_lines by done.
  destruct (Z.ltb_spec (h_content_length (fold_left head_line lines h)) 0); [lia|].
  destruct (Z.ltb_spec NS_HTTP_MAX_BODY (h_content_length (fold_left head_line lines h))); [lia|done].
Qed.

(** A header line ["Name: value"]. *)
Lemma head_line_named h name val :
  header_text (name ++ $": " ++ val) = true ->
  allb (fun c => negb (c =c ":")) name = true ->
  head_line h (name ++ $": " ++ val)
  = match find (fun e => strcasecmp0 name (fst e)) head_names with
    | Some (_, slot) => head_set h slot (drop_while (fun c => c =c " ") val)
    | None => h
    end.
Proof.
  intros Ht Hn. unfold head_line. rewrite cstr_of_text by done.
  change ($": " ++ val) with (":"%char :: " "%char :: val).
  destruct (strchr_app name ":" (" "%char :: val) Hn) as [-> ->]. done.
Qed.

Lemma head_line_length h n :
  (0 <= n < 2 ^ 63)%Z ->
  head_line h ($"Content-Length: " ++ print_u n)
  = Build_http_head (h_method h) (h_path h) (h_status h) n (h_long h) (h_str h).
Proof.
  intros Hn. change ($"Content-Length: " ++ print_u n)
    with ($"Content-Length" ++ $": " ++ print_u n).
  rewrite head_line_named; [|by rewrite !header_text_app, digits_text by lia|done].
  change (find _ head_names) with (Some ($"Content-Length", CONTENT_LENGTH)).
  cbn [head_set]. f_equal.
  assert (drop_while (fun c => c =c " ") (print_u n) = print_u n) as ->.
  { destruct (digits_spec n ltac:(lia)) as (Hd & _ & _). unfold print_u.
    destruct (digits 10 n) as [|c ds]; [done|]. cbn [forallb] in Hd.
    apply andb_prop in Hd as [Hc _]. cbn [drop_while].
    destruct (Ascii.eqb_spec c " "); [by subst|done]. }
  unfold atol. rewrite <- (app_nil_r (print_u n)). by apply strtol10_print.
Qed.

(** What [write_all] writes is a prefix, and all of it when it succeeds. *)
Lemma write_all_prefix fd buf out ok fd' :
  write_all fd buf = (out, ok, fd') ->
  exists rest, buf = out ++ rest /\ (ok = true -> rest = []).
Proof.
  revert buf out ok. induction fd as [|[[|w]| |] fd IH]; intros buf out ok H;
    (destruct buf as [|b buf]; [injection H as <- <- <-; by exists []|]);
    cbn [write_all] in H.
  1,2,5: injection H as <- <- <-; by eexists.
  - destruct (write_all fd (drop (S w) (b :: buf))) as [[out' ok'] fd''] eqn:E.
    injection H as <- <- <-. destruct (IH _ _ _ E) as (rest & E' & Hr).
    exists rest. split; [|done].
    transitivity (take (S w) (b :: buf) ++ drop (S w) (b :: buf)); [by rewrite take_drop|].
    rewrite E'. by rewrite app_assoc.
  - by apply IH in H.
Qed.

Lemma write_message_ok fd head body out fd' :
  write_message fd head body = (out, true, fd') -> out = head ++ body.
Proof.
  unfold write_message. destruct (write_all fd head) as [[o1 ok1] fd1] eqn:E1.
  destruct ok1; [|done]. cbn [negb].
  destruct (write_all fd1 body) as [[o2 ok2] fd2] eqn:E2. intros [= <- -> _].
  apply write_all_prefix in E1 as (r1 & -> & H1), E2 as (r2 & -> & H2).
  by rewrite H1, H2, !app_nil_r by done.
Qed.

Lemma head_start_request method path :
  allb is_upper method = true -> length method < METHOD_CAP ->
  header_text path = true -> allb (fun c => negb (c =c " ")) path = true ->
  length path < PATH_CAP ->
  head_start (method ++ $" " ++ path ++ $" HTTP/1.1")
  = Some (Build_http_head method path 0 0 (h_long head0) (h_str head0)).
Proof.
  intros Hm Hml Hp Hps Hpl.
  assert (Hmt : allb (fun c => text_char c && negb (c =c " ")) method = true).
  { eapply allb_impl; [|exact Hm]. intros c Hc.
    assert (X : negb (is_upper c) || (text_char c && negb (c =c " ")) = true) by (clear; by_bytes c).
    by rewrite Hc in X. }
  assert (Ht : header_text method = true).
  { eapply allb_impl; [|exact Hmt]. by intros c [? ?]%andb_prop. }
  assert (Hs : allb (fun c => negb (c =c " ")) method = true).
  { eapply allb_impl; [|exact Hmt]. by intros c [? ?]%andb_prop. }
  unfold head_start. rewrite cstr_of_text by (by rewrite !header_text_app, Ht, Hp).
  change ($" " ++ path ++ $" HTTP/1.1") with (" "%char :: path ++ $" HTTP/1.1").
  destruct (strchr_app method " " (path ++ $" HTTP/1.1") Hs) as [E1 E2].
  destruct (strncmp0 _ _ 5) eqn:P.
  - change 5 with (length ($"HTTP/")) in P. rewrite strncmp0_prefix in P.
    apply prefixb_spec in P as [k P]. rewrite P in E2. cbn in E2. rewrite <- E2 in Hm.
    cbn in Hm. done.
  - rewrite E1, E2. cbn [drop]. rewrite drop_0.
    change ($" HTTP/1.1") with (" "%char :: $"HTTP/1.1").
    destruct (strchr_app path " " ($"HTTP/1.1") Hps) as [_ ->].
    rewrite !take_ge by (unfold METHOD_CAP, PATH_CAP in *; lia). done.
Qed.

Lemma head_start_response status :
  (0 <= status < 2 ^ 31)%Z ->
  head_start ($"HTTP/1.1 " ++ print_d status ++ $" OK")
  = Some (Build_http_head [] [] status 0 (h_long head0) (h_str head0)).
Proof.
  intros Hs. unfold print_d. destruct (Z.ltb_spec status 0); [lia|].
  fold (print_u status). unfold head_start.
  rewrite cstr_of_text by (by rewrite !header_text_app, digits_text by lia).
  change (strncmp0 _ _ 5) with true. cbn [negb].
  change ($"HTTP/1.1 ") with ($"HTTP/1.1" ++ $" ").
  rewrite <- app_assoc. change ($" " ++ print_u status ++ $" OK") with (" "%char :: print_u status ++ $" OK").
  destruct (strchr_app ($"HTTP/1.1") " " (print_u status ++ $" OK") eq_refl) as [-> _].
  cbn [drop]. rewrite drop_0. by rewrite atoi_print.
Qed.

(** The fields a header line sets do not depend on the start line. *)
Lemma head_lines_fields lines h h' :
  h_long h = h_long h' -> h_str h = h_str h' ->
  let r := fold_left head_line lines h in
  let r' := fold_left head_line lines h' in
  h_long r = h_long r' /\ h_str r = h_str r' /\
  h_method r = h_method h /\ h_path r = h_path h /\ h_status r = h_status h.
Proof.
  revert h h'. induction lines as [|l lines IH]; intros h h' H1 H2; [done|].
  cbn [fold_left].
  assert (X : forall g, h_method (head_line g l) = h_method g /\
    h_path (head_line g l) = h_path g /\ h_status (head_line g l) = h_status g).
  { intros g. unfold head_line. destruct (strchr (cstr_of l) ":"); [|done].
    destruct (find _ _) as [[? []]|]; done. }
  destruct (X h) as (<- & <- & <-). apply IH; unfold head_line;
    (destruct (strchr (cstr_of l) ":"); [|done]);
    (destruct (find _ _) as [[? []]|]; cbn [head_set h_long h_str]; rewrite ?H1, ?H2; done).
Qed.

Lemma line_ok_named name val :
  header_text (name ++ val) = true -> name <> [] -> length name + length val + 1 < HTTP_LINE ->
  line_ok (name ++ val).
Proof.
  intros H1 H2 H3. split; [done|]. split; [by destruct name|]. by rewrite length_app.
Qed.

Lemma length_line_ok n : (0 <= n <= NS_HTTP_MAX_BODY)%Z -> line_ok ($"Content-Length: " ++ print_u n).
Proof.
  intros Hn. apply line_ok_named; [by rewrite header_text_app, digits_text by lia|done|].
  assert (L : length (print_u n) <= 10).
  { apply digits_length; [|lia]. unfold NS_HTTP_MAX_BODY in Hn. lia. }
  change (length ($"Content-Length: ")) with 16. unfold HTTP_LINE. lia.
Qed.

(** Reading one message off a stream that starts with it. *)
Lemma message_read c k start lines body h :
  stream c = (start ++ crlf ++ wire_lines (lines ++ [$"Content-Length: " ++ print_u (Z.of_nat (length body))])
              ++ crlf) ++ body ++ k ->
  line_ok start -> Forall line_ok lines -> length lines < NS_HTTP_MAX_HEADERS ->
  (Z.of_nat (length body) <= NS_HTTP_MAX_BODY)%Z ->
  head_start start = Some h ->
  exists h' c1 c2,
    http_read_head c = Some (h', c1) /\
    h_content_length h' = Z.of_nat (length body) /\
    http_read_body c1 (h_content_length h') true = Some (body, c2) /\ stream c2 = k /\
    h_status h' = h_status h /\ h_method h' = h_method h /\ h_path h' = h_path h /\
    h_long h' = h_long (fold_left head_line lines h) /\
    h_str h' = h_str (fold_left head_line lines h).
Proof.
  intros Hc Hs Hl Hn Hb H0.
  set (n := Z.of_nat (length body)) in *.
  set (all := lines ++ [$"Content-Length: " ++ print_u n]) in *.
  assert (E : fold_left head_line all h
    = let g := fold_left head_line lines h in
      Build_http_head (h_method g) (h_path g) (h_status g) n (h_long g) (h_str g)).
  { unfold all. rewrite fold_left_app. cbn [fold_left]. apply head_line_length.
    unfold n, NS_HTTP_MAX_BODY in *. lia. }
  pose proof (stream_head_lines start all (body ++ k) h Hs) as R.
  rewrite <- !app_assoc in Hc. rewrite <- Hc in R.
  destruct (reader_refines_stream c 0) as (R1 & _ & _). rewrite R in R1; cycle 1.
  - apply Forall_app. split; [done|]. apply Forall_singleton, length_line_ok. lia.
  - unfold all. rewrite length_app. cbn [length]. lia.
  - done.
  - rewrite E. cbn. lia.
  - destruct (http_read_head c) as [[h' c1]|]; [|done]. injection R1 as Hh Hc1.
    destruct (reader_refines_stream c1 n) as (_ & R2 & _). rewrite Hc1 in R2.
    unfold stream_body in R2. destruct (Z.ltb_spec n 0); [lia|].
    rewrite length_app in R2. destruct (Z.ltb_spec (Z.of_nat (length body + length k)) n); [lia|].
    unfold n in R2 at 2 3. rewrite Nat2Z.id in R2. cbn [orb] in R2.
    rewrite take_app_length, drop_app_length in R2.
    destruct (http_read_body c1 n true) as [[b c2]|] eqn:B; [|done]. injection R2 as -> Hc2.
    destruct (head_lines_fields lines h h eq_refl eq_refl) as (_ & _ & F1 & F2 & F3).
    rewrite E in Hh. subst h'. exists (fold_left head_line all h), c1, c2.
    rewrite E. cbn. repeat split; done.
Qed.

(** A request that [http_write_request] reports as sent is the request the
    peer reads: whatever pieces the descriptors split the bytes into on either
    side, the reader finds the method, the path and the length that were sent,
    then exactly the body, and is left at the first byte after the message. *)
Theorem request_round_trip fd method path content_type body out fd' c k :
  http_write_request fd method path content_type body = (out, true, fd') ->
  stream c = out ++ k ->
  allb is_upper method = true -> length method < METHOD_CAP ->
  header_text path = true -> allb (fun c => negb (c =c " ")) path = true ->
  length path < PATH_CAP ->
  header_text (default ($"text/plain") content_type) = true ->
  (Z.of_nat (length body) <= NS_HTTP_MAX_BODY)%Z ->
  exists h c1 c2,
    http_read_head c = Some (h, c1) /\
    h_method h = method /\ h_path h = path /\
    h_content_length h = Z.of_nat (length body) /\
    http_read_body c1 (h_content_length h) true = Some (body, c2) /\ stream c2 = k.
Proof.
  unfold http_write_request. intros Hw Hc Hm Hml Hp Hps Hpl Ht Hb.
  set (ct := default ($"text/plain") content_type) in *.
  set (n := Z.of_nat (length body)) in *.
  destruct (Nat.leb_spec 512 (length (request_head method path content_type n))) as [|Hh]; [done|].
  apply write_message_ok in Hw. rewrite Hw in Hc. clear Hw out.
  assert (E : request_head method path content_type n
    = (method ++ $" " ++ path ++ $" HTTP/1.1") ++ crlf ++
      wire_lines [$"Content-Type: " ++ ct; $"Content-Length: " ++ print_u n] ++ crlf).
  { unfold request_head, wire_lines; cbn [map concat]. fold ct. by rewrite <- !app_assoc. }
  assert (L1 : length ($"Content-Type: ") + length ct + 1 < HTTP_LINE).
  { rewrite E in Hh. unfold wire_lines in Hh. cbn [map concat] in Hh.
    rewrite !length_app in Hh. unfold HTTP_LINE. lia. }
  rewrite E in Hc. rewrite <- app_assoc in Hc.
  pose proof (head_start_request method path Hm Hml Hp Hps Hpl) as S0.
  destruct (message_read c k _ [$"Content-Type: " ++ ct] body
    (Build_http_head method path 0 0 (h_long head0) (h_str head0)) Hc) as
    (h & c1 & c2 & H1 & H2 & H3 & H4 & _ & H5 & H6 & _); [..|exact S0|].
  - split; [|split].
    + rewrite !header_text_app, Hp. rewrite andb_true_r.
      eapply allb_impl; [|exact Hm]. intros x Hx.
      assert (X : negb (is_upper x) || text_char x = true) by (clear; by_bytes x).
      by rewrite Hx in X.
    + by destruct method.
    + rewrite !length_app. change (length ($" ")) with 1. change (length ($" HTTP/1.1")) with 9.
      unfold METHOD_CAP, PATH_CAP, HTTP_LINE in *. lia.
  - apply Forall_singleton, line_ok_named; [by rewrite header_text_app, Ht|done|lia].
  - cbn [length]. unfold NS_HTTP_MAX_HEADERS. lia.
  - done.
  - exists h, c1, c2. by rewrite H5, H6.
Qed.

(** The descriptor takes five bytes at a time, and is read seven at a time. *)
Definition demo_body : bytes := $"{`x`:1,`y`:2}".
Lemma request_round_trip_witness :
  let out := request_head ($"POST") ($"/click") (Some ($"application/json")) 13 ++ demo_body in
  exists fd', http_write_request (repeat (WRITE_OK 5) 50) ($"POST") ($"/click")
    (Some ($"application/json")) demo_body = (out, true, fd') /\
  exists h c1 c2,
    http_read_head (http_conn_init (READ_EINTR :: READ_OK (take 7 out) :: READ_EINTR
      :: [READ_OK (drop 7 out ++ $"GET")])) = Some (h, c1) /\
    h_method h = $"POST" /\ h_path h = $"/click" /\ h_content_length h = 13%Z /\
    http_read_body c1 (h_content_length h) true = Some (demo_body, c2) /\ stream c2 = $"GET".
Proof.
  intros out. eexists. split; [vm_compute; reflexivity|].
  eapply (request_round_trip (repeat (WRITE_OK 5) 50) ($"POST") ($"/click")
    (Some ($"application/json")) demo_body); try reflexivity;
    first [vm_compute; reflexivity | apply leb_complete; vm_compute; reflexivity | idtac].
  vm_compute. discriminate.
Defined.
