(* ===== verification/RendererIpc.v ===== *)
(** * What the browser and its renderer process say to each other
      ([src/ipc_http.c], [src/rproc_http.c], [src/renderer_serve.c])

    The JSON of the control messages, the exchange that opens a page, and the
    exchange that draws a frame: the header lines the renderer writes and what
    the browser takes from the head it reads, with the checks that keep a
    renderer's answer inside the browser's buffers. *)

From S2P Require Import Prelude CStr IpcHttp.

(** ** JSON *)

Definition backslash : ascii := byte_of 92.
Definition SIZE_MAX : Z := 2 ^ 64 - 1.

Definition json_escape_char (c : ascii) : bytes :=
  if (c =c dquote) || (c =c backslash) then [backslash; c]
  else if c =c nl then [backslash; "n"%char]
  else if c =c cr then [backslash; "r"%char]
  else if c =c tab then [backslash; "t"%char]
  else if (code c <? 32)%Z then [backslash; "u"%char] ++ pad0 4 (digits 16 (code c))
  else [c].

Section Json.
(** Whether [malloc] gives a block of that size. *)
Variable malloc : Z -> bool.

Definition json_escape (s : option bytes) : option bytes :=
  let s := default [] s in
  let len := Z.of_nat (length s) in
  if ((SIZE_MAX - 1) / 6 <? len)%Z then None
  else if negb (malloc (len * 6 + 1)) then None
  else Some (concat (map json_escape_char s)).

Fixpoint json_find_go (s key : bytes) : option bytes :=
  match s with
  | [] => None
  | c :: r =>
      if (c =c dquote) && strncmp0 r key (length key) && head_is (Ascii.eqb dquote) (drop (length key) r)
      then Some (drop_while (fun d => (d =c " ") || (d =c ":")) (drop (length key + 1) r))
      else json_find_go r key
  end.
Definition json_find_value (body : option bytes) (key : bytes) : option bytes :=
  match body with None => None | Some s => json_find_go s key end.

Definition json_get_long (body : option bytes) (key : bytes) : option Z :=
  match json_find_value body key with None => None | Some v => Some (atol v) end.

Definition hex_val (c : ascii) : Z :=
  (if is_digit c then code c - 48
   else if in_range 97 102 c then code c - (97 - 10)
   else if in_range 65 70 c then code c - (65 - 10)
   else -1)%Z.

Fixpoint json_hex_go (n : nat) (s : bytes) (v : Z) : Z :=
  match n with
  | O => v
  | S n' =>
      match s with
      | [] => -1
      | c :: s' => if (hex_val c <? 0)%Z then -1
                   else json_hex_go n' s' (Z.lor (Z.shiftl v 4) (hex_val c))
      end
  end.
Definition json_hex4 (s : bytes) : Z := json_hex_go 4 s 0.

Definition json_utf8_encode (cp : Z) : bytes :=
  if (cp <? 128)%Z then [byte_of cp]
  else if (cp <? 2048)%Z then
    [byte_of (Z.lor 192 (Z.shiftr cp 6)); byte_of (Z.lor 128 (Z.land cp 63))]
  else if (cp <? 65536)%Z then
    [byte_of (Z.lor 224 (Z.shiftr cp 12)); byte_of (Z.lor 128 (Z.land (Z.shiftr cp 6) 63));
     byte_of (Z.lor 128 (Z.land cp 63))]
  else
    [byte_of (Z.lor 240 (Z.shiftr cp 18)); byte_of (Z.lor 128 (Z.land (Z.shiftr cp 12) 63));
     byte_of (Z.lor 128 (Z.land (Z.shiftr cp 6) 63)); byte_of (Z.lor 128 (Z.land cp 63))].

(** [case 'u']: what is written and where [v] is afterwards, from the byte after
    the [u]. *)
Definition json_unicode (v : bytes) : bytes * bytes :=
  let hi := json_hex4 v in
  if (hi <? 0)%Z then ([], v)
  else
    let v4 := drop 4 v in
    match v4 with
    | b :: u :: w =>
        let lo := json_hex4 w in
        if (55296 <=? hi)%Z && (hi <=? 56319)%Z && (b =c backslash) && (u =c "u") &&
           (56320 <=? lo)%Z && (lo <=? 57343)%Z
        then (json_utf8_encode (65536 + Z.shiftl (hi - 55296) 10 + (lo - 56320)), drop 4 w)
        else (json_utf8_encode hi, v4)
    | _ => (json_utf8_encode hi, v4)
    end.

(** The copying loop of [json_get_str]; a turn consumes at least a byte. *)
Fixpoint json_unescape (fuel : nat) (v : bytes) : bytes :=
  match fuel with
  | O => []
  | S fuel' =>
      match v with
      | [] => []
      | c :: r =>
          if c =c dquote then []
          else if c =c backslash then
            match r with
            | [] => c :: json_unescape fuel' r
            | e :: r' =>
                if e =c "n" then nl :: json_unescape fuel' r'
                else if e =c "r" then cr :: json_unescape fuel' r'
                else if e =c "t" then tab :: json_unescape fuel' r'
                else if e =c "u" then
                  let '(out, v') := json_unicode r' in
                  out ++ json_unescape fuel' v'
                else e :: json_unescape fuel' r'
            end
          else c :: json_unescape fuel' r
      end
  end.

Definition json_get_str (body : option bytes) (key : bytes) : option bytes :=
  match json_find_value body key with
  | Some (c :: v) =>
      if negb (c =c dquote) then None
      else if negb (malloc (Z.of_nat (length v) + 1)) then None
      else Some (cstr_of (json_unescape (length v) v))
  | _ => None
  end.

(** The messages are [asprintf] formats of this shape. *)
Inductive json_value := JSTR (escaped : option bytes) | JINT (z : Z).
Definition json_field (f : bytes * json_value) : bytes :=
  [dquote] ++ fst f ++ [dquote; ":"%char] ++
  match snd f with
  | JSTR e => [dquote] ++ default [] e ++ [dquote]
  | JINT z => print_d z
  end.
Fixpoint json_fields (fs : list (bytes * json_value)) : bytes :=
  match fs with
  | [] => []
  | [f] => json_field f
  | f :: fs' => json_field f ++ $"," ++ json_fields fs'
  end.
Definition json_object (fs : list (bytes * json_value)) : bytes :=
  $"{" ++ json_fields fs ++ $"}".

(** *** Opening a page *)

Definition bool_int (b : bool) : Z := if b then 1 else 0.

(** The body [ns_rproc_http_open_ex] sends; [None]: out of memory. *)
Definition open_request (url : bytes) (w h settle_ms : Z) (history user_activated : bool)
    : option bytes :=
  match json_escape (Some url) with
  | None => None
  | Some ue =>
      Some (json_object
        [($"url", JSTR (Some ue)); ($"width", JINT w); ($"height", JINT h);
         ($"settle_ms", JINT settle_ms); ($"history", JINT (bool_int history));
         ($"user_activated", JINT (bool_int user_activated))])
  end.

(** The renderer's side. *)
Record open_args := {
  oa_url : option bytes;
  oa_w : Z; oa_h : Z; oa_settle : Z; oa_history : Z; oa_user_activated : Z;
}.
Definition get_long0 (body : bytes) (key : bytes) : Z := default 0%Z (json_get_long (Some body) key).
Definition open_args_of (body : bytes) : open_args :=
  {| oa_url := json_get_str (Some body) ($"url");
     oa_w := get_long0 body ($"width");
     oa_h := get_long0 body ($"height");
     oa_settle := get_long0 body ($"settle_ms");
     oa_history := get_long0 body ($"history");
     oa_user_activated := get_long0 body ($"user_activated") |}.

(** The reply of the renderer, from what the opened page is. *)
Record open_result := {
  or_ok : bool;
  or_page_w : Z; or_page_h : Z;
  or_title : option bytes; or_final_url : option bytes; or_nav : option bytes;
  or_security : Z; or_ip : option bytes;
}.
Definition or_url (r : open_result) (url : option bytes) : bytes :=
  match or_final_url r with Some u => u | None => default [] url end.
Definition open_reply (r : open_result) (url : option bytes) : bytes :=
  json_object
    [($"ok", JINT (bool_int (or_ok r))); ($"page_width", JINT (or_page_w r));
     ($"page_height", JINT (or_page_h r));
     ($"title", JSTR (json_escape (Some (default [] (or_title r)))));
     ($"url", JSTR (json_escape (Some (or_url r url))));
     ($"nav", JSTR (json_escape (Some (default [] (or_nav r)))));
     ($"security", JINT (or_security r));
     ($"ip", JSTR (json_escape (Some (default [] (or_ip r)))))].

Record ns_rproc_http_page := {
  pg_ok : bool;
  pg_width : Z; pg_height : Z;
  pg_title : option bytes; pg_url : option bytes; pg_nav : option bytes;
  pg_security : Z; pg_remote_ip : option bytes;
}.
Definition nonempty (s : option bytes) : option bytes :=
  match s with Some [] => None | _ => s end.
Definition page_of_reply (body : bytes) : ns_rproc_http_page :=
  {| pg_ok := negb (get_long0 body ($"ok") =? 0)%Z;
     pg_width := wrap_s 32 (get_long0 body ($"page_width"));
     pg_height := wrap_s 32 (get_long0 body ($"page_height"));
     pg_title := json_get_str (Some body) ($"title");
     pg_url := json_get_str (Some body) ($"url");
     pg_nav := nonempty (json_get_str (Some body) ($"nav"));
     pg_security := wrap_s 32 (get_long0 body ($"security"));
     pg_remote_ip := nonempty (json_get_str (Some body) ($"ip")) |}.

Definition NS_HTTP_MAX_REPLY : Z := 16 * 1024 * 1024.

(** [ns_rproc_http_open_ex] from the reply on; [None]: [-1]. *)
Definition open_read_reply (c : http_conn) : option (ns_rproc_http_page * http_conn) :=
  match http_read_head c with
  | None => None
  | Some (h, c) =>
      let n := h_content_length h in
      if (n <? 0)%Z || (NS_HTTP_MAX_REPLY <? n)%Z then None
      else if negb (malloc (n + 1)) then None
      else
        match (if (n =? 0)%Z then Some ([], c) else http_read_body c n true) with
        | None => None
        | Some (body, c) => Some (page_of_reply (cstr_of body), c)
        end
  end.
End Json.

(** ** Drawing a frame *)

(** [serve_append_hdr]: the line is left out when it would not fit. *)
Definition serve_append_hdr (buf : bytes) (cap : nat) (name : bytes) (value : option bytes)
    (maxval : nat) : bytes :=
  match value with
  | None | Some [] => buf
  | Some v =>
      if cap <=? length buf then buf
      else
        let line := name ++ $": " ++ take maxval v ++ crlf in
        if cap <=? length buf + length line then buf else buf ++ line
  end.

Record frame_state := {
  fs_w : Z; fs_h : Z; fs_stride : Z; fs_anim : Z;
  fs_page_w : Z; fs_page_h : Z; fs_scroll_y : Z; fs_render_rc : Z;
  fs_unchanged : bool;
  fs_nav : option bytes; fs_camera : option bytes;
  fs_download : option bytes; fs_audio : option bytes;
}.

Definition header_int (name : bytes) (z : Z) : bytes := name ++ $": " ++ print_d z ++ crlf.
Definition blank_newlines (v : bytes) : bytes :=
  map (fun c => if (c =c cr) || (c =c nl) then " "%char else c) v.
Definition audio_newlines (v : bytes) : bytes :=
  map (fun c => if c =c cr then " "%char else if c =c nl then "031"%char else c) v.

Definition HDRS : nat := Z.to_nat 32768.

(** The header lines of a [/render] reply. *)
Definition render_headers (f : frame_state) : bytes :=
  let hdrs :=
    header_int ($"X-W") (fs_w f) ++ header_int ($"X-H") (fs_h f) ++
    header_int ($"X-Stride") (fs_stride f) ++ header_int ($"X-Anim") (fs_anim f) ++
    header_int ($"X-PageW") (fs_page_w f) ++ header_int ($"X-PageH") (fs_page_h f) ++
    header_int ($"X-ScrollY") (fs_scroll_y f) ++ header_int ($"X-Render-RC") (fs_render_rc f) ++
    (if fs_unchanged f then header_int ($"X-Unchanged") 1 else []) in
  let hdrs := serve_append_hdr hdrs HDRS ($"X-Nav") (option_map blank_newlines (fs_nav f)) 2000 in
  let hdrs := serve_append_hdr hdrs HDRS ($"X-Camera") (option_map blank_newlines (fs_camera f)) 2000 in
  let hdrs := serve_append_hdr hdrs HDRS ($"X-Download") (option_map blank_newlines (fs_download f)) 3000 in
  serve_append_hdr hdrs HDRS ($"X-Audio") (option_map audio_newlines (fs_audio f)) (Z.to_nat 16000).

(** The browser's end of a renderer process. *)
Record ns_rproc_http := {
  r_rxcap : Z;       (* the size of [rxbuf] *)
  r_rxbuf : bool;    (* there is one: not with shared memory *)
  r_shm : bool;
  r_map_size : Z;
  r_max_w : Z;
  r_max_h : Z;
}.

(** [spawn_common] after the process has started; [None]: refused sizes. *)
Definition spawn_common (max_width max_height : Z) (shm : bool) : option ns_rproc_http :=
  if (max_width <=? 0)%Z || (max_height <=? 0)%Z || (32768 <? max_width)%Z || (32768 <? max_height)%Z
  then None
  else
    let size := (max_width * max_height * 4)%Z in
    Some {| r_rxcap := size; r_rxbuf := negb shm; r_shm := shm; r_map_size := size;
            r_max_w := max_width; r_max_h := max_height |}.

Definition spawn_inproc (max_width max_height : Z) : option ns_rproc_http :=
  if (max_width <=? 0)%Z || (max_height <=? 0)%Z || (32768 <? max_width)%Z || (32768 <? max_height)%Z
  then None
  else
    let size := (max_width * max_height * 4)%Z in
    Some {| r_rxcap := 0; r_rxbuf := false; r_shm := true; r_map_size := size;
            r_max_w := max_width; r_max_h := max_height |}.

Inductive frame_pixels := NO_PIXELS | FROM_MAP | FROM_RXBUF (received : bytes).

Record ns_rproc_http_frame := {
  fr_unchanged : bool;
  fr_width : Z; fr_height : Z; fr_stride : Z;
  fr_animating : bool; fr_caret_blinking : bool;
  fr_page_w : Z; fr_page_h : Z; fr_scroll_y : Z; fr_render_rc : Z;
  fr_pixels : frame_pixels;
  fr_nav : option bytes; fr_camera : option bytes;
  fr_download : option bytes; fr_audio : option bytes;
}.

Definition frame_of_head (h : http_head) (unchanged : bool) (w hh stride : Z) (px : frame_pixels)
    : ns_rproc_http_frame :=
  let str f := nonempty (Some (cstr_of (h_str h f))) in
  {| fr_unchanged := unchanged; fr_width := w; fr_height := hh; fr_stride := stride;
     fr_animating := Z.testbit (h_long h X_ANIM) 0;
     fr_caret_blinking := Z.testbit (h_long h X_ANIM) 1;
     fr_page_w := wrap_s 32 (h_long h X_PAGE_W); fr_page_h := wrap_s 32 (h_long h X_PAGE_H);
     fr_scroll_y := wrap_s 32 (h_long h X_SCROLL_Y);
     fr_render_rc := wrap_s 32 (h_long h X_RENDER_RC);
     fr_pixels := px;
     fr_nav := str X_NAV; fr_camera := str X_CAMERA;
     fr_download := str X_DOWNLOAD; fr_audio := str X_AUDIO |}.

(** [ns_rproc_http_render] from the reply on: the frame, or [None] for [-1], and
    the connection. *)
Definition render_reply (r : ns_rproc_http) (c : http_conn)
    : option ns_rproc_http_frame * option http_conn :=
  match http_read_head c with
  | None => (None, None)
  | Some (h, c) =>
      let n := h_content_length h in
      if (n <? 0)%Z || (r_rxcap r <? n)%Z
      then (None, if (0 <? n)%Z then http_skip_body c n else Some c)
      else
        match (if (n =? 0)%Z then Some ([], c) else http_read_body c n (r_rxbuf r)) with
        | None => (None, None)
        | Some (body, c) =>
            if (0 <? h_long h X_UNCHANGED)%Z
            then (Some (frame_of_head h true 0 0 0 NO_PIXELS), Some c)
            else
              let w := h_long h X_W in
              let hh := h_long h X_H in
              let stride := h_long h X_STRIDE in
              if (w <? 1)%Z || (r_max_w r <? w)%Z || (hh <? 1)%Z || (r_max_h r <? hh)%Z ||
                 (stride <? w * 4)%Z || (r_max_w r * 4 <? stride)%Z
              then (None, Some c)
              else if negb (r_shm r) && (n <? stride * hh)%Z then (None, Some c)
              else (Some (frame_of_head h false (wrap_s 32 w) (wrap_s 32 hh) (wrap_s 32 stride)
                            (if r_shm r then FROM_MAP else FROM_RXBUF body)), Some c)
        end
  end.

(** ** Lemmas on the JSON text *)

Definition escaped (s : bytes) : bytes := concat (map json_escape_char s).
Definition key_char (c : ascii) : bool := is_lower c || (c =c "_").
Definition key_ok (k : bytes) : bool := negb (length k =? 0) && allb key_char k.

(** A value the search for [key] takes for the key: the key itself, or one that
    ends with the key after a quote. *)
Definition mistaken (key s : bytes) : bool :=
  (s =b key) || prefixb (rev (dquote :: key)) (rev s).

Lemma escape_char_head c :
  exists d r, json_escape_char c = d :: r /\ d <> dquote /\
    (d <> backslash -> json_escape_char c = [c]).
Proof.
  assert (X : match json_escape_char c with
              | d :: r => negb (d =c dquote) &&
                          ((d =c backslash) || bool_decide (json_escape_char c = [c]))
              | [] => false
              end = true) by by_bytes c.
  destruct (json_escape_char c) as [|d r]; [done|]. apply andb_prop in X as [X1 X2].
  exists d, r. split; [done|]. boolify. split; [done|]. intros Hd. apply orb_prop in X2 as [X2|X2]; boolify; done.
Qed.

Lemma escape_char_quoteless c :
  c <> dquote -> allb (fun d => negb (d =c dquote)) (json_escape_char c) = true.
Proof.
  intros Hc.
  assert (X : (c =c dquote) || allb (fun d => negb (d =c dquote)) (json_escape_char c) = true)
    by (clear; by_bytes c).
  apply orb_prop in X as [X|X]; [by boolify|done].
Qed.

Lemma escaped_cons c s : escaped (c :: s) = json_escape_char c ++ escaped s.
Proof. done. Qed.

Lemma key_char_plain c : key_char c = true -> c <> dquote /\ c <> backslash /\ json_escape_char c = [c].
Proof.
  intros H.
  assert (X : negb (key_char c) || (negb (c =c dquote) && negb (c =c backslash) &&
    bool_decide (json_escape_char c = [c])) = true) by (clear; by_bytes c).
  rewrite H in X. apply andb_prop in X as [[X1 X2]%andb_prop X3].
  apply negb_true_iff, Ascii.eqb_neq in X1, X2. boolify. done.
Qed.

Lemma escaped_key k : allb key_char k = true -> escaped k = k.
Proof.
  induction k as [|c k IH]; [done|]. cbn [forallb]. intros [Hc Hk]%andb_prop.
  destruct (key_char_plain c Hc) as (_ & _ & E). by rewrite escaped_cons, E, IH.
Qed.

Lemma find_skip l r key :
  allb (fun d => negb (d =c dquote)) l = true -> json_find_go (l ++ r) key = json_find_go r key.
Proof.
  induction l as [|c l IH]; [done|]. cbn [forallb app json_find_go]. intros [Hc Hl]%andb_prop.
  apply negb_true_iff in Hc. rewrite Hc. cbn [andb]. by apply IH.
Qed.

(** The key found inside escaped text up to its closing quote is all of it. *)
Lemma match_escaped key v rest :
  allb key_char key = true ->
  strncmp0 (escaped v ++ dquote :: rest) key (length key) = true ->
  head_is (Ascii.eqb dquote) (drop (length key) (escaped v ++ dquote :: rest)) = true ->
  v = key.
Proof.
  revert v. induction key as [|k key IH]; intros v Hk Hm Hh.
  - destruct v as [|c v]; [done|]. rewrite escaped_cons in Hh.
    destruct (escape_char_head c) as (d & r & E & Hd & _). rewrite E in Hh. cbn in Hh.
    destruct (Ascii.eqb_spec dquote d); congruence.
  - cbn [forallb] in Hk. apply andb_prop in Hk as [Hk1 Hk2].
    destruct (key_char_plain k Hk1) as (P1 & P2 & _).
    unfold strncmp0 in Hm. apply bool_decide_eq_true in Hm. cbn [length take] in Hm.
    destruct v as [|c v]; [cbn in Hm; congruence|].
    rewrite escaped_cons in Hm, Hh.
    destruct (escape_char_head c) as (d & r & E & Hd & He).
    rewrite E in Hm. cbn [app take] in Hm. injection Hm as -> Hm.
    specialize (He P2). rewrite E in He. injection He as -> ->.
    rewrite E in Hh. cbn [app length drop] in Hh. f_equal. apply IH; [done| |done].
    unfold strncmp0. by apply bool_decide_eq_true.
Qed.

Lemma find_escaped_tail key v rest :
  allb key_char key = true -> prefixb (rev (dquote :: key)) (rev v) = false ->
  json_find_go (escaped v ++ dquote :: rest) key = json_find_go (dquote :: rest) key.
Proof.
  intros Hk. induction v as [|c v IH]; intros Hv; [done|].
  rewrite escaped_cons, <- app_assoc.
  assert (Hv' : prefixb (rev (dquote :: key)) (rev v) = false).
  { apply not_true_is_false. intros [k E]%prefixb_spec.
    apply not_true_iff_false in Hv. apply Hv, prefixb_spec. exists (k ++ [c]).
    cbn [rev]. cbn [rev] in E. by rewrite E, <- app_assoc. }
  destruct (decide (c = dquote)) as [->|Hc].
  - change (json_escape_char dquote) with [backslash; dquote]. cbn [app json_find_go].
    change (backslash =c dquote) with false. cbn [andb].
    destruct (strncmp0 _ key _) eqn:M; [|by apply IH].
    destruct (head_is _ _) eqn:H; [|by apply IH].
    assert (v = key) as -> by by eapply match_escaped.
    exfalso. apply not_true_iff_false in Hv. apply Hv, prefixb_spec. exists [].
    by rewrite app_nil_r.
  - rewrite find_skip by by apply escape_char_quoteless. by apply IH.
Qed.

(** The search passes a whole quoted text that is not taken for the key. *)
Lemma find_quoted key v d rest :
  key_ok key = true -> mistaken key v = false -> key_char d = false -> d <> dquote ->
  json_find_go (dquote :: escaped v ++ dquote :: d :: rest) key = json_find_go rest key.
Proof.
  unfold key_ok, mistaken. intros [Hn Hk]%andb_prop [Hv1 Hv2]%orb_false_elim Hd Hd'.
  assert (E : json_find_go (dquote :: d :: rest) key = json_find_go rest key).
  { cbn [json_find_go]. destruct (Ascii.eqb_spec d dquote); [done|]. cbn [andb].
    destruct key as [|k key]; [done|].
    assert (strncmp0 (d :: rest) (k :: key) (length (k :: key)) = false) as ->; [|done].
    unfold strncmp0. apply bool_decide_eq_false. cbn [length take].
    cbn [forallb] in Hk. apply andb_prop in Hk as [Hk _]. congruence. }
  transitivity (json_find_go (escaped v ++ dquote :: d :: rest) key).
  - cbn [json_find_go]. change (dquote =c dquote) with true. cbn [andb].
    destruct (strncmp0 _ key _) eqn:M; [|done].
    destruct (head_is _ _) eqn:H; [|done].
    apply match_escaped in M; [|done..]. subst. by rewrite bool_decide_eq_true_2 in Hv1.
  - by rewrite find_escaped_tail.
Qed.

Lemma key_not_mistaken key k :
  allb key_char k = true -> k <> key -> mistaken key k = false.
Proof.
  intros Hk Hne. unfold mistaken. rewrite bool_decide_eq_false_2 by done. cbn [orb].
  apply not_true_is_false. intros [r E]%prefixb_spec. cbn [rev] in E.
  assert (In dquote k) as Hin.
  { apply in_rev. rewrite E, !in_app_iff. left. right. by left. }
  rewrite forallb_forall in Hk. by specialize (Hk _ Hin).
Qed.

Lemma print_d_quoteless z : allb (fun d => negb (d =c dquote)) (print_d z) = true.
Proof.
  assert (X : forall w, (0 <= w)%Z -> allb (fun d => negb (d =c dquote)) (digits 10 w) = true).
  { intros w Hw. destruct (digits_spec w Hw) as (Hd & _).
    eapply allb_impl; [|exact Hd]. intros c Hc.
    assert (Y : negb (is_digit c) || negb (c =c dquote) = true) by (clear; by_bytes c).
    by rewrite Hc in Y. }
  unfold print_d. destruct (Z.ltb_spec z 0); [cbn [forallb]|]; apply X; lia.
Qed.

Section Fields.
Context (key : bytes) (Hkey : key_ok key = true).

Lemma find_key k rest :
  key_ok k = true -> k <> key ->
  json_find_go ([dquote] ++ k ++ [dquote; ":"%char] ++ rest) key = json_find_go rest key.
Proof.
  intros [_ Hk]%andb_prop Hne. rewrite <- (escaped_key k) at 1 by done.
  apply find_quoted; [done|by apply key_not_mistaken|done|done].
Qed.

Lemma find_int_field k z rest :
  key_ok k = true -> k <> key ->
  json_find_go (json_field (k, JINT z) ++ rest) key = json_find_go rest key.
Proof.
  intros Hk Hne. unfold json_field; cbn [fst snd]. rewrite <- !app_assoc, find_key by done.
  apply find_skip, print_d_quoteless.
Qed.

Lemma find_str_field k s d rest :
  key_ok k = true -> k <> key -> mistaken key s = false ->
  key_char d = false -> d <> dquote ->
  json_find_go (json_field (k, JSTR (Some (escaped s))) ++ d :: rest) key = json_find_go rest key.
Proof.
  intros Hk Hne Hs Hd Hd'. unfold json_field; cbn [fst snd default].
  rewrite <- !app_assoc, find_key by done. by apply find_quoted.
Qed.

(** The field of the key itself. *)
Lemma find_this_field v c text rest :
  json_field (key, v) = [dquote] ++ key ++ [dquote; ":"%char] ++ c :: text ->
  c <> " "%char -> c <> ":"%char ->
  json_find_go (json_field (key, v) ++ rest) key = Some (c :: text ++ rest).
Proof.
  intros E H1 H2. rewrite E, <- !app_assoc. cbn [app json_find_go].
  change (dquote =c dquote) with true. cbn [andb].
  assert (D : drop (length key) (key ++ dquote :: ":"%char :: c :: text ++ rest)
              = dquote :: ":"%char :: c :: text ++ rest) by by rewrite drop_app_length.
  assert (strncmp0 (key ++ dquote :: ":"%char :: c :: text ++ rest) key (length key) = true) as ->.
  { unfold strncmp0. apply bool_decide_eq_true. rewrite take_app_length, take_ge; [done|lia]. }
  rewrite D. change (head_is (Ascii.eqb dquote) (dquote :: ":"%char :: c :: text ++ rest)) with true.
  cbn [andb]. f_equal. rewrite drop_app_ge by lia.
  replace (length key + 1 - length key) with 1 by lia. cbn [drop drop_while].
  change ((":" =c " ") || (":" =c ":")) with true. cbv beta iota zeta. rewrite ?drop_0. cbn [drop_while].
  destruct (Ascii.eqb_spec c " "), (Ascii.eqb_spec c ":"); try done.
Qed.
End Fields.

(** ** Reading escaped text back *)

Lemma escaped_length s : length s <= length (escaped s) <= 6 * length s.
Proof.
  induction s as [|c s IH]; [cbn; lia|]. rewrite escaped_cons, length_app. cbn [length].
  assert (X : (1 <=? length (json_escape_char c)) && (length (json_escape_char c) <=? 6) = true)
    by (clear; by_bytes c).
  boolify. lia.
Qed.

Lemma unicode_control c tail :
  (code c <? 32)%Z = true -> c <> nul ->
  json_unicode (pad0 4 (digits 16 (code c)) ++ tail) = ([c], tail).
Proof.
  intros Hc _.
  assert (X : (32 <=? code c)%Z ||
    match pad0 4 (digits 16 (code c)) with
    | [a; b; d; e] => (json_hex4 [a; b; d; e] =? code c)%Z
    | _ => false
    end = true) by (clear; by_bytes c).
  boolify. destruct (Z.leb_spec 32 (code c)); [lia|]. cbn [orb] in X.
  destruct (pad0 4 (digits 16 (code c))) as [|a [|b [|d [|e [|]]]]]; try done. boolify.
  unfold json_unicode.
  change (json_hex4 ([a; b; d; e] ++ tail)) with (json_hex4 [a; b; d; e]). rewrite X.
  pose proof (code_range c). destruct (Z.ltb_spec (code c) 0); [lia|].
  cbn [app drop]. rewrite ?drop_0.
  assert (U : json_utf8_encode (code c) = [c]).
  { unfold json_utf8_encode. destruct (Z.ltb_spec (code c) 128); [|lia]. by rewrite byte_of_code. }
  destruct (Z.leb_spec 55296 (code c)); [lia|]. cbn [andb]. rewrite U.
  by destruct tail as [|? [|]].
Qed.

Lemma unescape_char fuel c tail :
  c <> nul ->
  json_unescape (S fuel) (json_escape_char c ++ tail) = c :: json_unescape fuel tail.
Proof.
  intros Hn. unfold json_escape_char.
  destruct (Ascii.eqb_spec c dquote) as [->|H1]; [done|].
  destruct (Ascii.eqb_spec c backslash) as [->|H2]; [done|]. cbn [orb].
  destruct (Ascii.eqb_spec c nl) as [->|H3]; [done|].
  destruct (Ascii.eqb_spec c cr) as [->|H4]; [done|].
  destruct (Ascii.eqb_spec c tab) as [->|H5]; [done|].
  destruct (code c <? 32)%Z eqn:Hc.
  - rewrite <- app_assoc. cbn [app json_unescape].
    change (backslash =c dquote) with false. change (backslash =c backslash) with true.
    change ("u" =c "n") with false. change ("u" =c "r") with false.
    change ("u" =c "t") with false. change ("u" =c "u") with true. cbv beta iota zeta.
    by rewrite unicode_control.
  - cbn [app json_unescape]. destruct (Ascii.eqb_spec c dquote); [done|].
    by destruct (Ascii.eqb_spec c backslash).
Qed.

Definition c_string (s : bytes) : bool := allb (fun c => negb (c =c nul)) s.

Lemma unescape_escaped fuel s rest :
  c_string s = true -> length s < fuel ->
  json_unescape fuel (escaped s ++ dquote :: rest) = s.
Proof.
  revert fuel. induction s as [|c s IH]; intros [|fuel] Hs Hf; cbn [length] in Hf; try lia; [done|].
  cbn [c_string forallb] in Hs. apply andb_prop in Hs as [Hc Hs].
  apply negb_true_iff, Ascii.eqb_neq in Hc.
  rewrite escaped_cons, <- app_assoc, unescape_char by done. f_equal. apply IH; [done|lia].
Qed.

(** *** Objects *)

Inductive raw := RSTR (s : bytes) | RINT (z : Z).
Definition field_of (f : bytes * raw) : bytes * json_value :=
  (fst f, match snd f with RSTR s => JSTR (Some (escaped s)) | RINT z => JINT z end).
Definition value_text (v : raw) : bytes :=
  match v with RSTR s => dquote :: escaped s ++ [dquote] | RINT z => print_d z end.

(** The fields before that of [key] are passed by the search. *)
Fixpoint clear (key : bytes) (fs : list (bytes * raw)) : bool :=
  match fs with
  | [] => true
  | (k, v) :: fs' =>
      key_ok k &&
      ((k =b key) || (match v with RSTR s => negb (mistaken key s) | RINT _ => true end && clear key fs'))
  end.

Lemma value_text_head v : exists c t, value_text v = c :: t /\ c <> " "%char /\ c <> ":"%char.
Proof.
  destruct v as [s|z]; cbn [value_text]; [by eexists _, _|].
  assert (X : forall w, (0 <= w)%Z -> exists c t, digits 10 w = c :: t /\ c <> " "%char /\ c <> ":"%char).
  { intros w Hw. destruct (digits_spec w Hw) as (Hd & _ & Hn).
    destruct (digits 10 w) as [|c t]; [done|]. exists c, t. split; [done|].
    cbn [forallb] in Hd. apply andb_prop in Hd as [Hc _]. split; intros ->; done. }
  unfold print_d. destruct (Z.ltb_spec z 0); [by eexists _, _|apply X; lia].
Qed.

Lemma find_this key v rest :
  key_ok key = true ->
  json_find_go (json_field (field_of (key, v)) ++ rest) key = Some (value_text v ++ rest).
Proof.
  intros Hk. destruct (value_text_head v) as (c & t & E & H1 & H2). rewrite E. cbn [app].
  apply find_this_field; [|done|done]. rewrite <- E. by destruct v.
Qed.

Lemma find_passed key k v d rest :
  key_ok key = true -> key_ok k = true -> k <> key ->
  match v with RSTR s => negb (mistaken key s) | RINT _ => true end = true ->
  d = ","%char \/ d = "}"%char ->
  json_find_go (json_field (field_of (k, v)) ++ d :: rest) key = json_find_go rest key.
Proof.
  intros Hkey Hk Hne Hv Hd.
  assert (Q : d <> dquote /\ key_char d = false) by by destruct Hd as [->| ->].
  destruct Q as [Q1 Q2]. destruct v as [s|z].
  - apply negb_true_iff in Hv. by apply find_str_field.
  - transitivity (json_find_go (d :: rest) key); [by apply find_int_field|].
    cbn [json_find_go]. by destruct (Ascii.eqb_spec d dquote).
Qed.

Lemma find_object key fs v :
  key_ok key = true -> clear key fs = true ->
  find (fun f => fst f =b key) fs = Some (key, v) ->
  exists d rest, (d = ","%char \/ d = "}"%char) /\
    json_find_value (Some (json_object (map field_of fs))) key = Some (value_text v ++ d :: rest).
Proof.
  intros Hkey. cbn [json_find_value]. unfold json_object.
  rewrite find_skip by done. induction fs as [|[k w] fs IH]; [done|].
  cbn [clear find fst map]. intros [Hk Hc]%andb_prop Hf.
  destruct (bool_decide_reflect (k = key)) as [->|Hne].
  - injection Hf as ->. clear IH. destruct fs as [|g fs]; cbn [map json_fields].
    + exists "}"%char, []. split; [by right|]. by apply find_this.
    + eexists ","%char, _. split; [by left|]. rewrite <- app_assoc. by apply find_this.
  - cbn [orb] in Hc. apply andb_prop in Hc as [Hw Hc].
    destruct fs as [|g fs]; [done|]. destruct (IH Hc Hf) as (d & rest & Hd & E).
    exists d, rest. split; [done|]. rewrite <- E.
    change (json_fields (field_of (k, w) :: map field_of (g :: fs)))
      with (json_field (field_of (k, w)) ++ $"," ++ json_fields (map field_of (g :: fs))).
    rewrite <- !app_assoc. apply find_passed; auto.
Qed.

Lemma object_get_long key fs z :
  key_ok key = true -> clear key fs = true ->
  find (fun f => fst f =b key) fs = Some (key, RINT z) -> in_s 64 z ->
  json_get_long (Some (json_object (map field_of fs))) key = Some z.
Proof.
  intros Hk Hc Hf Hz. destruct (find_object _ _ _ Hk Hc Hf) as (d & rest & Hd & E).
  unfold json_get_long. rewrite E. cbn [value_text]. f_equal. apply strtol10_print_d; [done|].
  by destruct Hd as [->| ->].
Qed.

Lemma cstr_of_c_string s : c_string s = true -> cstr_of s = s.
Proof. apply take_while_id. Qed.

Lemma object_get_str malloc key fs s :
  (forall n, malloc n = true) ->
  key_ok key = true -> clear key fs = true ->
  find (fun f => fst f =b key) fs = Some (key, RSTR s) -> c_string s = true ->
  json_get_str malloc (Some (json_object (map field_of fs))) key = Some s.
Proof.
  intros Hm Hk Hc Hf Hs. destruct (find_object _ _ _ Hk Hc Hf) as (d & rest & Hd & E).
  unfold json_get_str. rewrite E. cbn [value_text app]. change (dquote =c dquote) with true.
  rewrite Hm. cbn [negb]. rewrite <- app_assoc. cbn [app].
  rewrite unescape_escaped; [by rewrite cstr_of_c_string|done|].
  rewrite length_app. cbn [length]. pose proof (escaped_length s). lia.
Qed.

Definition json_room (s : bytes) : Prop := (Z.of_nat (length s) <= (SIZE_MAX - 1) / 6)%Z.

Lemma json_escape_ok malloc s :
  (forall n, malloc n = true) -> json_room s -> json_escape malloc (Some s) = Some (escaped s).
Proof.
  unfold json_room. intros Hm Hs. unfold json_escape.
  change (default [] (Some s)) with s. cbv zeta. rewrite Hm.
  destruct (Z.ltb_spec ((SIZE_MAX - 1) / 6) (Z.of_nat (length s))); [lia|done].
Qed.

(** *** The messages of opening a page *)

Definition open_request_fields (url : bytes) (w h settle_ms : Z) (history user_activated : bool) :=
  [($"url", RSTR url); ($"width", RINT w); ($"height", RINT h);
   ($"settle_ms", RINT settle_ms); ($"history", RINT (bool_int history));
   ($"user_activated", RINT (bool_int user_activated))].

Definition open_reply_fields (r : open_result) (url : option bytes) :=
  [($"ok", RINT (bool_int (or_ok r))); ($"page_width", RINT (or_page_w r));
   ($"page_height", RINT (or_page_h r)); ($"title", RSTR (default [] (or_title r)));
   ($"url", RSTR (or_url r url)); ($"nav", RSTR (default [] (or_nav r)));
   ($"security", RINT (or_security r)); ($"ip", RSTR (default [] (or_ip r)))].

(** No text of the message is taken for a key that is looked up after it. *)
Definition unmistaken (fs : list (bytes * raw)) : bool := allb (fun f => clear (fst f) fs) fs.

Definition text_ok (s : bytes) : Prop := c_string s = true /\ json_room s.

Lemma in_s_32_64 z : in_s 32 z -> in_s 64 z.
Proof. unfold in_s. change (32 - 1)%Z with 31%Z. change (64 - 1)%Z with 63%Z. lia. Qed.

Lemma wrap_s_id w z : (0 < w)%Z -> in_s w z -> wrap_s w z = z.
Proof.
  intros Hw [H1 H2]. unfold wrap_s. rewrite Z.mod_small; [lia|].
  assert (2 ^ w = 2 * 2 ^ (w - 1))%Z by (rewrite <- Z.pow_succ_r by lia; f_equal; lia). lia.
Qed.

Lemma bool_int_range b : in_s 64 (bool_int b).
Proof. destruct b; done. Qed.

Lemma get_long0_object key fs z :
  key_ok key = true -> clear key fs = true ->
  find (fun f => fst f =b key) fs = Some (key, RINT z) -> in_s 64 z ->
  get_long0 (json_object (map field_of fs)) key = z.
Proof. intros. unfold get_long0. by rewrite (object_get_long key fs z). Qed.

Lemma unmistaken_in fs key v :
  unmistaken fs = true -> In (key, v) fs -> clear key fs = true.
Proof. unfold unmistaken. rewrite forallb_forall. intros H Hi. by apply (H (key, v)). Qed.

(** Read the field of a message by its key. *)
Ltac field_key H :=
  lazymatch type of H with
  | unmistaken ?fs = true =>
      first [ eapply (get_long0_object _ fs) | eapply (object_get_str _ _ fs); [assumption|..] ];
        [ reflexivity
        | eapply (unmistaken_in fs _ _ H); unfold In; cbn; tauto
        | reflexivity
        | try done; try apply bool_int_range; try by apply in_s_32_64 ]
  end.

(** Opening a page over the pipe loses nothing: the renderer reads exactly the
    URL, the sizes and the flags of the browser's request, and the browser reads
    exactly what the renderer says of the opened page, whatever bytes the URL, the
    title, the pending navigation and the address hold (quotes, controls, line
    ends, any UTF-8). The proviso is that no text of a message is taken for one of
    the keys after it: equal to it, or ending with a quote and the key. *)
Theorem open_exchange malloc url w h settle_ms history user_activated r :
  (forall n, malloc n = true) ->
  unmistaken (open_request_fields url w h settle_ms history user_activated) = true ->
  unmistaken (open_reply_fields r (Some url)) = true ->
  text_ok url -> text_ok (default [] (or_title r)) -> text_ok (or_url r (Some url)) ->
  text_ok (default [] (or_nav r)) -> text_ok (default [] (or_ip r)) ->
  Forall (in_s 32) [w; h; settle_ms; or_page_w r; or_page_h r; or_security r] ->
  (exists req,
    open_request malloc url w h settle_ms history user_activated = Some req /\
    open_args_of malloc req =
      {| oa_url := Some url; oa_w := w; oa_h := h; oa_settle := settle_ms;
         oa_history := bool_int history; oa_user_activated := bool_int user_activated |}) /\
  page_of_reply malloc (open_reply malloc r (Some url)) =
    {| pg_ok := or_ok r; pg_width := or_page_w r; pg_height := or_page_h r;
       pg_title := Some (default [] (or_title r)); pg_url := Some (or_url r (Some url));
       pg_nav := nonempty (Some (default [] (or_nav r))); pg_security := or_security r;
       pg_remote_ip := nonempty (Some (default [] (or_ip r))) |}.
Proof.
  intros Hm H1 H2 [Hu1 Hu2] [Ht1 Ht2] [Hf1 Hf2] [Hn1 Hn2] [Hi1 Hi2] Hz.
  repeat (apply Forall_cons in Hz as [? Hz]). split.
  - unfold open_request. rewrite json_escape_ok by done. eexists. split; [reflexivity|].
    change (json_object _) with
      (json_object (map field_of (open_request_fields url w h settle_ms history user_activated))).
    unfold open_args_of. f_equal; field_key H1.
  - unfold open_reply. rewrite !json_escape_ok by done.
    change (json_object _) with (json_object (map field_of (open_reply_fields r (Some url)))).
    unfold page_of_reply. f_equal.
    + transitivity (negb (bool_int (or_ok r) =? 0)%Z); [|by destruct (or_ok r)].
      do 2 f_equal. field_key H2.
    + transitivity (wrap_s 32 (or_page_w r)); [f_equal; field_key H2|by apply wrap_s_id].
    + transitivity (wrap_s 32 (or_page_h r)); [f_equal; field_key H2|by apply wrap_s_id].
    + field_key H2.
    + field_key H2.
    + f_equal. field_key H2.
    + transitivity (wrap_s 32 (or_security r)); [f_equal; field_key H2|by apply wrap_s_id].
    + f_equal. field_key H2.
Qed.

Definition demo_page : open_result :=
  {| or_ok := true; or_page_w := 800; or_page_h := 2400;
     or_title := Some ($"The `url` of " ++ [dquote] ++ $"x\y" ++ [dquote; nl]);
     or_final_url := Some ($"https://a.example/");
     or_nav := None; or_security := 1; or_ip := Some ($"::1") |}.
Lemma open_exchange_witness :
  let malloc := fun _ : Z => true in
  (exists req,
    open_request malloc ($"https://a.example/") 800 600 (-1) false true = Some req /\
    open_args_of malloc req =
      {| oa_url := Some ($"https://a.example/"); oa_w := 800; oa_h := 600; oa_settle := -1;
         oa_history := 0; oa_user_activated := 1 |}) /\
  pg_title (page_of_reply malloc (open_reply malloc demo_page (Some ($"https://a.example/"))))
  = or_title demo_page.
Proof.
  intros malloc.
  destruct (open_exchange malloc ($"https://a.example/") 800 600 (-1) false true demo_page)
    as [H1 H2]; try reflexivity; try (split; [reflexivity|vm_compute; discriminate]).
  - repeat apply Forall_cons_2; [..|apply Forall_nil_2]; split; (discriminate || reflexivity).
  - split; [exact H1|]. rewrite H2. reflexivity.
Defined.

(** A page whose title is the name of a later key hides that key: the browser is
    left without the page's URL. *)
Example title_hides_url :
  let r := {| or_ok := true; or_page_w := 1; or_page_h := 1; or_title := Some ($"url");
              or_final_url := Some ($"https://a.example/"); or_nav := None;
              or_security := 1; or_ip := None |} in
  pg_url (page_of_reply (fun _ => true) (open_reply (fun _ => true) r None)) = None.
Proof. vm_compute. reflexivity. Qed.

(** ** Buffers *)

Lemma hex_val_bound c : (-1 <= hex_val c < 16)%Z.
Proof.
  assert (X : (-1 <=? hex_val c)%Z && (hex_val c <? 16)%Z = true) by by_bytes c.
  boolify. lia.
Qed.

Lemma json_hex_go_length n s v : (0 <= json_hex_go n s v)%Z -> (0 <= v)%Z -> n <= length s.
Proof.
  revert s v. induction n as [|n IH]; intros s v H Hv; [lia|].
  cbn [json_hex_go] in H. destruct s as [|c s]; [lia|].
  destruct (Z.ltb_spec (hex_val c) 0); [lia|].
  cbn [length]. apply le_n_S. eapply IH; [exact H|]. apply Z.lor_nonneg.
  split; [by apply Z.shiftl_nonneg|done].
Qed.

Lemma json_utf8_encode_length cp : length (json_utf8_encode cp) <= 4.
Proof. unfold json_utf8_encode. repeat destruct (Z.ltb _ _); cbn; lia. Qed.

Lemma json_unicode_length v out v' :
  json_unicode v = (out, v') -> length out + length v' <= length v /\ length v' <= length v.
Proof.
  unfold json_unicode. destruct (Z.ltb_spec (json_hex4 v) 0) as [|Hhi]; [intros [= <- <-]; cbn; lia|].
  pose proof (json_hex_go_length 4 v 0 Hhi ltac:(lia)) as Hl.
  assert (L : length v = 4 + length (drop 4 v)) by (rewrite length_drop; lia).
  assert (X : forall cp, (json_utf8_encode cp, drop 4 v) = (out, v') ->
    length out + length v' <= length v /\ length v' <= length v).
  { intros cp [= <- <-]. pose proof (json_utf8_encode_length cp). lia. }
  destruct (drop 4 v) as [|b [|u w]] eqn:D; [by apply X..|].
  destruct (_ && _); [|by apply X]. intros [= <- <-].
  pose proof (json_utf8_encode_length
    (65536 + Z.shiftl (json_hex4 v - 55296) 10 + (json_hex4 w - 56320))).
  rewrite length_drop. cbn [length] in L. lia.
Qed.

Lemma json_unescape_length fuel v : length (json_unescape fuel v) <= length v.
Proof.
  revert v. induction fuel as [|fuel IH]; intros v; cbn [json_unescape]; [cbn; lia|].
  destruct v as [|c r]; [done|]. cbn [length].
  assert (H : forall r', length (json_unescape fuel r') <= length r') by exact IH.
  repeat match goal with |- context [if ?b then _ else _] => destruct b end; cbn [length]; try lia.
  - destruct r as [|e r']; cbn [length]; [specialize (H []); cbn in H; lia|]. specialize (H r').
    repeat match goal with |- context [if ?b then _ else _] => destruct b end; cbn [length]; try lia.
    destruct (json_unicode r') as [out v'] eqn:U.
    destruct (json_unicode_length _ _ _ U) as [U1 U2].
    rewrite length_app. specialize (IH v'). lia.
  - specialize (H r). lia.
Qed.

(** ** Frames *)

Lemma read_body_length c n body c' :
  http_read_body c n true = Some (body, c') -> Z.of_nat (length body) = n.
Proof.
  intros H. destruct (reader_refines_stream c n) as (_ & R & _). rewrite H in R.
  unfold stream_body in R. cbn [on_stream] in R.
  destruct (Z.ltb_spec n 0); [done|]. destruct (Z.ltb_spec (Z.of_nat (length (stream c))) n); [done|].
  cbn [orb] in R. injection R as -> _. rewrite length_take. lia.
Qed.

(** C2. Whatever a renderer process answers, a frame the browser accepts lies inside
    the memory the browser has for it: at least one and at most [max_w] by [max_h]
    pixels, rows that hold the width and are no longer than the buffer's own, and
    all rows of it inside the shared mapping or inside the bytes received, which
    themselves fit the receive buffer. *)
Theorem render_reply_bounds max_w max_h shm r c f c' :
  spawn_common max_w max_h shm = Some r \/ spawn_inproc max_w max_h = Some r ->
  render_reply r c = (Some f, c') -> fr_unchanged f = false ->
  (1 <= fr_width f <= max_w)%Z /\ (1 <= fr_height f <= max_h)%Z /\
  (fr_width f * 4 <= fr_stride f <= max_w * 4)%Z /\
  match fr_pixels f with
  | NO_PIXELS => False
  | FROM_MAP => r_shm r = true /\ (fr_stride f * fr_height f <= r_map_size r)%Z
  | FROM_RXBUF b =>
      r_shm r = false /\ (fr_stride f * fr_height f <= Z.of_nat (length b) <= r_rxcap r)%Z
  end.
Proof.
  intros Hs Hr Hu.
  assert (R : r_max_w r = max_w /\ r_max_h r = max_h /\ r_map_size r = (max_w * max_h * 4)%Z /\
    (max_w <= 32768)%Z /\ (max_h <= 32768)%Z /\ (r_shm r = false -> r_rxbuf r = true)).
  { assert (B : (max_w <= 32768)%Z /\ (max_h <= 32768)%Z).
    { unfold spawn_common, spawn_inproc in Hs.
      destruct (Z.ltb_spec 32768 max_w); [by rewrite !orb_true_r in Hs; destruct Hs|].
      destruct (Z.ltb_spec 32768 max_h); [by rewrite !orb_true_r in Hs; destruct Hs|]. lia. }
    unfold spawn_common, spawn_inproc in Hs.
    destruct (_ || _); [by destruct Hs|]. destruct Hs as [Hs|Hs]; injection Hs as <-; cbn;
      repeat split; try apply B; try done. by destruct shm. }
  clear Hs. destruct R as (<- & <- & Rm & B1 & B2 & Rb).
  unfold render_reply in Hr. destruct (http_read_head c) as [[h c1]|]; [|done].
  destruct (Z.ltb_spec (h_content_length h) 0); [done|].
  destruct (Z.ltb_spec (r_rxcap r) (h_content_length h)); [done|]. cbn [orb] in Hr.
  set (n := h_content_length h) in *.
  destruct (if (n =? 0)%Z then _ else _) as [[b c2]|] eqn:Hb; [|done].
  destruct (0 <? h_long h X_UNCHANGED)%Z; [injection Hr as <- _; done|].
  destruct (_ || _) eqn:T in Hr; [done|]. boolify.
  set (w := h_long h X_W) in *. set (hh := h_long h X_H) in *. set (st := h_long h X_STRIDE) in *.
  assert (W : wrap_s 32 w = w /\ wrap_s 32 hh = hh /\ wrap_s 32 st = st).
  { repeat split; apply wrap_s_id; try lia; unfold in_s; change (2 ^ (32 - 1))%Z with 2147483648%Z; lia. }
  destruct W as (W1 & W2 & W3).
  destruct (negb (r_shm r) && _) eqn:N in Hr; [done|].
  injection Hr as <- _. cbn [frame_of_head fr_width fr_height fr_stride fr_pixels].
  rewrite W1, W2, W3. split; [lia|]. split; [lia|]. split; [lia|].
  destruct (r_shm r) eqn:Sh.
  - split; [done|]. rewrite Rm. nia.
  - split; [done|]. cbn [negb andb] in N. boolify. rewrite Rb in Hb by done.
    destruct (Z.eqb_spec n 0) as [E|E]; [nia|].
    apply read_body_length in Hb. lia.
Qed.

Definition demo_renderer : ns_rproc_http :=
  {| r_rxcap := 8; r_rxbuf := true; r_shm := false; r_map_size := 8; r_max_w := 2; r_max_h := 1 |}.
Definition demo_frame_bytes : bytes :=
  $"HTTP/1.1 200 OK" ++ crlf ++
  wire_lines [$"X-W: 1"; $"X-H: 1"; $"X-Stride: 4"; $"Content-Length: 8"] ++ crlf ++ $"abcdefgh".
Lemma render_reply_bounds_witness :
  spawn_common 2 1 false = Some demo_renderer /\
  exists f c', render_reply demo_renderer (http_conn_init [READ_OK demo_frame_bytes]) = (Some f, c') /\
  (1 <= fr_width f <= 2)%Z.
Proof.
  split; [reflexivity|].
  destruct (render_reply demo_renderer (http_conn_init [READ_OK demo_frame_bytes])) as [[f|] c'] eqn:E;
    [|vm_compute in E; discriminate].
  exists f, c'. split; [reflexivity|].
  refine (proj1 (render_reply_bounds 2 1 false demo_renderer _ f c' (or_introl eq_refl) E _)).
  vm_compute in E. injection E as <- _. reflexivity.
Defined.

(** *** The header lines of a frame *)

Definition int_line (name : bytes) (z : Z) : bytes := name ++ $": " ++ print_d z.
Definition opt_line (name : bytes) (v : option bytes) (maxval : nat) : list bytes :=
  match v with None | Some [] => [] | Some s => [name ++ $": " ++ take maxval s] end.
Definition frame_ints (f : frame_state) : list (bytes * Z) :=
  [($"X-W", fs_w f); ($"X-H", fs_h f); ($"X-Stride", fs_stride f); ($"X-Anim", fs_anim f);
   ($"X-PageW", fs_page_w f); ($"X-PageH", fs_page_h f); ($"X-ScrollY", fs_scroll_y f);
   ($"X-Render-RC", fs_render_rc f)] ++ (if fs_unchanged f then [($"X-Unchanged", 1%Z)] else []).
Definition frame_opts (f : frame_state) : list bytes :=
  opt_line ($"X-Nav") (option_map blank_newlines (fs_nav f)) 2000 ++
  opt_line ($"X-Camera") (option_map blank_newlines (fs_camera f)) 2000 ++
  opt_line ($"X-Download") (option_map blank_newlines (fs_download f)) 3000 ++
  opt_line ($"X-Audio") (option_map audio_newlines (fs_audio f)) (Z.to_nat 16000).
Definition int_lines (l : list (bytes * Z)) : list bytes := map (fun p => int_line (fst p) (snd p)) l.

Lemma wire_lines_app a b : wire_lines (a ++ b) = wire_lines a ++ wire_lines b.
Proof. unfold wire_lines. by rewrite map_app, concat_app. Qed.

Lemma print_d_length z : in_s 32 z -> length (print_d z) <= 11.
Proof.
  unfold in_s. change (2 ^ (32 - 1))%Z with 2147483648%Z. intros Hz. unfold print_d.
  destruct (Z.ltb_spec z 0); cbn [length].
  - pose proof (digits_length (- z) 10 ltac:(lia) ltac:(lia)). lia.
  - pose proof (digits_length z 10 ltac:(lia) ltac:(lia)). lia.
Qed.

Lemma print_d_text z : header_text (print_d z) = true.
Proof.
  unfold print_d. destruct (Z.ltb_spec z 0); [cbn [header_text forallb]; apply (digits_text (- z)); lia|].
  by apply digits_text.
Qed.

Lemma int_lines_length l :
  Forall (fun p => length (fst p) <= 12 /\ in_s 32 (snd p)) l ->
  length (wire_lines (int_lines l)) <= 27 * length l.
Proof.
  induction 1 as [|[n z] l [H1 H2] _ IH]; [done|]. cbn [int_lines map] in *.
  change (wire_lines (?a :: ?b)) with (wire_lines ([a] ++ b)).
  unfold wire_lines in *. cbn [map concat app fst snd] in *. fold (int_lines l) in *.
  unfold int_line. pose proof (print_d_length z H2).
  rewrite !length_app. change (length ($": ")) with 2. change (length crlf) with 2.
  cbn [length]. lia.
Qed.

Lemma serve_append_fits buf name v maxval :
  length buf + length name + maxval + 4 < HDRS ->
  serve_append_hdr buf HDRS name v maxval = buf ++ wire_lines (opt_line name v maxval) /\
  length (wire_lines (opt_line name v maxval)) <= length name + maxval + 4.
Proof.
  intros H. unfold serve_append_hdr, opt_line.
  destruct v as [[|c s]|]; [by rewrite app_nil_r; split; [|cbn; lia]| |by rewrite app_nil_r; split; [|cbn; lia]].
  destruct (Nat.leb_spec HDRS (length buf)); [lia|].
  assert (L : length (name ++ $": " ++ take maxval (c :: s) ++ crlf) <= length name + maxval + 4).
  { rewrite !length_app, length_take. change (length ($": ")) with 2. change (length crlf) with 2. lia. }
  destruct (Nat.leb_spec HDRS (length buf + length (name ++ $": " ++ take maxval (c :: s) ++ crlf))); [lia|].
  unfold wire_lines. cbn [map concat]. rewrite app_nil_r, <- !app_assoc. split; [done|exact L].
Qed.

Lemma render_headers_lines f :
  Forall (fun p => in_s 32 (snd p)) (frame_ints f) ->
  render_headers f = wire_lines (int_lines (frame_ints f) ++ frame_opts f).
Proof.
  intros Hz. rewrite wire_lines_app. unfold render_headers.
  set (hdrs := header_int _ _ ++ _).
  assert (E : hdrs = wire_lines (int_lines (frame_ints f))).
  { unfold hdrs, frame_ints, int_lines, wire_lines, header_int, int_line.
    destruct (fs_unchanged f); cbn [map concat app fst snd]; rewrite <- !app_assoc; done. }
  assert (L : length hdrs <= 243).
  { rewrite E. etransitivity; [apply int_lines_length|].
    - apply Forall_and. split; [|exact Hz]. unfold frame_ints.
      destruct (fs_unchanged f); cbn [app]; repeat (apply Forall_cons_2; [apply leb_complete; reflexivity|]); apply Forall_nil_2.
    - unfold frame_ints. rewrite length_app. destruct (fs_unchanged f); cbn [length]; lia. }
  rewrite E in *. clear E hdrs. set (hdrs := wire_lines _) in *. unfold frame_opts.
  rewrite !wire_lines_app, !app_assoc.
  assert (K : HDRS = Z.to_nat 32768) by done.
  repeat match goal with
  | |- context [serve_append_hdr ?b HDRS ?n ?v ?m] =>
      lazymatch b with context [serve_append_hdr] => fail | _ => idtac end;
      let H1 := fresh in let H2 := fresh in
      destruct (serve_append_fits b n v m) as [H1 H2];
      [rewrite ?length_app; change (length n) with ltac:(let k := eval cbv in (length n) in exact k); lia
      |rewrite H1; clear H1;
       change (length n) with ltac:(let k := eval cbv in (length n) in exact k) in H2]
  end.
  done.
Qed.

(** What arrives of a text: cut to its room, without leading spaces. *)
Definition carried (maxval : nat) (v : option bytes) : option bytes :=
  match v with
  | None => None
  | Some s => nonempty (Some (drop_while (fun c => c =c " ") (take maxval s)))
  end.

(** The field of [long] type a name stands for. *)
Definition long_named (name : bytes) : option head_long :=
  match find (fun e => strcasecmp0 name (fst e)) head_names with
  | Some (_, LONG slot) => Some slot
  | _ => None
  end.

Lemma head_line_int h name slot z :
  long_named name = Some slot ->
  header_text name = true -> allb (fun c => negb (c =c ":")) name = true -> in_s 64 z ->
  head_line h (int_line name z)
  = Build_http_head (h_method h) (h_path h) (h_status h) (h_content_length h)
      (fun g => if decide (slot = g) then z else h_long h g) (h_str h).
Proof.
  intros Hf Ht Hn Hz. unfold int_line, long_named in *.
  rewrite head_line_named; [|by rewrite !header_text_app, Ht, print_d_text|done].
  destruct (find _ head_names) as [[? []]|]; try done. injection Hf as ->.
  cbn [head_set]. f_equal.
  assert (drop_while (fun c => c =c " ") (print_d z) = print_d z) as ->.
  { destruct (value_text_head (RINT z)) as (c & t & E & H1 & _). cbn [value_text] in E.
    rewrite E. cbn [drop_while]. by destruct (Ascii.eqb_spec c " "). }
  unfold atol. rewrite <- (app_nil_r (print_d z)), strtol10_print_d by done. done.
Qed.

Lemma head_line_opt h name n' slot v maxval :
  find (fun e => strcasecmp0 name (fst e)) head_names = Some (n', STR slot) ->
  header_text name = true -> allb (fun c => negb (c =c ":")) name = true ->
  header_text (default [] v) = true -> maxval < head_str_cap slot -> h_str h slot = [] ->
  let h' := fold_left head_line (opt_line name v maxval) h in
  h_long h' = h_long h /\
  nonempty (Some (cstr_of (h_str h' slot))) = carried maxval v /\
  (forall g, g <> slot -> h_str h' g = h_str h g).
Proof.
  intros Hf Ht Hn Hv Hm H0. unfold opt_line, carried.
  destruct v as [[|c s]|]; cbn [fold_left]; [by rewrite H0, take_nil| |by rewrite H0].
  cbn [default] in Hv. set (v := c :: s) in *. clearbody v. clear c s.
  change (default [] (Some v)) with v in Hv.
  assert (Ht' : header_text (take maxval v) = true) by by apply allb_take.
  rewrite head_line_named, Hf by (rewrite ?header_text_app, ?Ht, ?Ht'; done).
  cbn [head_set h_long h_str]. split; [done|]. split.
  - rewrite decide_True by done. set (d := drop_while _ (take maxval v)).
    assert (Hd : header_text d = true).
    { pose proof (take_drop_while (fun c => c =c " ") (take maxval v)) as E.
      rewrite <- E, header_text_app in Ht'. by apply andb_prop in Ht' as [_ ?]. }
    assert (L : length d <= head_str_cap slot - 1).
    { pose proof (drop_while_length (fun c => c =c " ") (take maxval v)) as L.
      fold d in L. rewrite length_take in L. lia. }
    by rewrite take_ge, cstr_of_text by done.
  - intros g Hg. by rewrite decide_False by congruence.
Qed.

Lemma blank_text v : c_string v = true -> header_text (blank_newlines v) = true.
Proof.
  unfold blank_newlines, c_string. induction v as [|c v IH]; [done|].
  cbn [map forallb header_text]. intros [Hc Hv]%andb_prop. rewrite andb_true_intro; [done|].
  split; [|by apply IH].
  assert (X : (c =c nul) || text_char (if (c =c cr) || (c =c nl) then " "%char else c) = true)
    by (clear; by_bytes c).
  apply negb_true_iff in Hc. by rewrite Hc in X.
Qed.

Lemma audio_text v : c_string v = true -> header_text (audio_newlines v) = true.
Proof.
  unfold audio_newlines, c_string. induction v as [|c v IH]; [done|].
  cbn [map forallb header_text]. intros [Hc Hv]%andb_prop. rewrite andb_true_intro; [done|].
  split; [|by apply IH].
  assert (X : (c =c nul) || text_char (if c =c cr then " "%char
    else if c =c nl then "031"%char else c) = true) by (clear; by_bytes c).
  apply negb_true_iff in Hc. by rewrite Hc in X.
Qed.

Lemma int_lines_long l h :
  Forall (fun p => (exists s, long_named (fst p) = Some s) /\
    header_text (fst p) = true /\ allb (fun c => negb (c =c ":")) (fst p) = true /\ in_s 64 (snd p)) l ->
  h_str (fold_left head_line (int_lines l) h) = h_str h /\
  forall g, h_long (fold_left head_line (int_lines l) h) g
    = fold_left (fun v p => match long_named (fst p) with
        | Some s => if decide (s = g) then snd p else v
        | None => v
        end) l (h_long h g).
Proof.
  intros H. revert h. induction H as [|[n z] l ((s & Hf) & Ht & Hn & Hz) _ IH]; intros h; [done|].
  cbn [fst snd] in *. cbn [int_lines map fold_left fst snd].
  rewrite (head_line_int h n s z) by done.
  destruct (IH (Build_http_head (h_method h) (h_path h) (h_status h) (h_content_length h)
      (fun g => if decide (s = g) then z else h_long h g) (h_str h))) as [I1 I2].
  unfold int_lines in *. rewrite I1. split; [done|]. intros g. by rewrite I2, Hf.
Qed.

Definition frame_long (f : frame_state) (g : head_long) : Z :=
  match g with
  | X_W => fs_w f | X_H => fs_h f | X_STRIDE => fs_stride f | X_ANIM => fs_anim f
  | X_PAGE_W => fs_page_w f | X_PAGE_H => fs_page_h f | X_SCROLL_Y => fs_scroll_y f
  | X_RENDER_RC => fs_render_rc f
  | X_UNCHANGED => if fs_unchanged f then 1 else 0
  end.

Definition frame_ok (f : frame_state) : Prop :=
  Forall (fun p => in_s 32 (snd p)) (frame_ints f) /\
  Forall (fun v => c_string (default [] v) = true) [fs_nav f; fs_camera f; fs_download f; fs_audio f].

Lemma opt_text g v :
  (forall s, c_string s = true -> header_text (g s) = true) ->
  c_string (default [] v) = true -> header_text (default [] (option_map g v)) = true.
Proof. intros Hg Hv. destruct v; [by apply Hg|done]. Qed.

Lemma frame_fields f h :
  frame_ok f -> h_long h = h_long head0 -> h_str h = h_str head0 ->
  let r := fold_left head_line (int_lines (frame_ints f) ++ frame_opts f) h in
  (forall g, h_long r g = frame_long f g) /\
  nonempty (Some (cstr_of (h_str r X_NAV))) = carried 2000 (option_map blank_newlines (fs_nav f)) /\
  nonempty (Some (cstr_of (h_str r X_CAMERA))) = carried 2000 (option_map blank_newlines (fs_camera f)) /\
  nonempty (Some (cstr_of (h_str r X_DOWNLOAD))) = carried 3000 (option_map blank_newlines (fs_download f)) /\
  nonempty (Some (cstr_of (h_str r X_AUDIO)))
    = carried (Z.to_nat 16000) (option_map audio_newlines (fs_audio f)).
Proof.
  intros [Hz Hs] E1 E2. repeat (apply Forall_cons in Hs as [? Hs]).
  rewrite fold_left_app. unfold frame_opts. rewrite !fold_left_app.
  destruct (int_lines_long (frame_ints f) h) as [S0 L0].
  { assert (Hz64 : Forall (fun p => in_s 64 (snd p)) (frame_ints f))
      by (eapply Forall_impl; [exact Hz|]; intros; by apply in_s_32_64).
    unfold frame_ints in *. destruct (fs_unchanged f); cbn [app] in *;
      repeat (apply Forall_cons in Hz64 as [? Hz64]);
      repeat (apply Forall_cons_2; [split; [by eexists|done]|]); apply Forall_nil_2. }
  set (h0 := fold_left head_line (int_lines (frame_ints f)) h) in *. rewrite E2 in S0.
  destruct (head_line_opt h0 ($"X-Nav") ($"X-Nav") X_NAV (option_map blank_newlines (fs_nav f)) 2000)
    as (L1 & A1 & B1); [reflexivity..|by apply opt_text; [apply blank_text|]|apply Nat.ltb_lt; vm_compute; reflexivity|by rewrite S0|].
  set (h1 := fold_left head_line (opt_line ($"X-Nav") _ _) h0) in *.
  destruct (head_line_opt h1 ($"X-Camera") ($"X-Camera") X_CAMERA (option_map blank_newlines (fs_camera f)) 2000)
    as (L2 & A2 & B2); [reflexivity..|by apply opt_text; [apply blank_text|]|apply Nat.ltb_lt; vm_compute; reflexivity|by rewrite B1, S0|].
  set (h2 := fold_left head_line (opt_line ($"X-Camera") _ _) h1) in *.
  destruct (head_line_opt h2 ($"X-Download") ($"X-Download") X_DOWNLOAD (option_map blank_newlines (fs_download f)) 3000)
    as (L3 & A3 & B3); [reflexivity..|by apply opt_text; [apply blank_text|]|apply Nat.ltb_lt; vm_compute; reflexivity|by rewrite B2, B1, S0|].
  set (h3 := fold_left head_line (opt_line ($"X-Download") _ _) h2) in *.
  destruct (head_line_opt h3 ($"X-Audio") ($"X-Audio") X_AUDIO (option_map audio_newlines (fs_audio f)) (Z.to_nat 16000))
    as (L4 & A4 & B4); [reflexivity..|by apply opt_text; [apply audio_text|]|apply Nat.ltb_lt; vm_compute; reflexivity|by rewrite B3, B2, B1, S0|].
  rewrite L4, L3, L2, L1. split.
  - intros g. rewrite L0, E1. unfold frame_ints.
    destruct (fs_unchanged f) eqn:U; cbn [app fold_left fst snd];
      repeat match goal with
      | |- context [long_named ?n] =>
          let r := eval vm_compute in (long_named n) in change (long_named n) with r
      end; destruct g; cbn [frame_long]; rewrite ?U; reflexivity.
  - split; [rewrite B4, B3, B2 by discriminate; exact A1|].
    split; [rewrite B4, B3 by discriminate; exact A2|].
    split; [rewrite B4 by discriminate; exact A3|exact A4].
Qed.

Lemma wire_lines_cons a l : wire_lines (a :: l) = a ++ crlf ++ wire_lines l.
Proof. unfold wire_lines. cbn [map concat]. by rewrite <- app_assoc. Qed.

Lemma response_head_lines f n :
  Forall (fun p => in_s 32 (snd p)) (frame_ints f) ->
  response_head 200 (Some ($"application/octet-stream")) (Some (render_headers f)) n
  = ($"HTTP/1.1 " ++ print_d 200 ++ $" OK") ++ crlf ++
    wire_lines ((($"Content-Type: " ++ $"application/octet-stream") ::
      int_lines (frame_ints f) ++ frame_opts f) ++ [$"Content-Length: " ++ print_u n]) ++ crlf.
Proof.
  intros Hz. unfold response_head. change (default [] (Some (render_headers f))) with (render_headers f).
  rewrite render_headers_lines by done. rewrite <- app_comm_cons, wire_lines_cons, !wire_lines_app, wire_lines_cons. change (wire_lines []) with (@nil ascii).
  by rewrite app_nil_r, <- !app_assoc.
Qed.

Lemma opt_line_ok name v maxval :
  header_text name = true -> header_text (default [] v) = true -> name <> [] ->
  length name + maxval + 3 < HTTP_LINE -> Forall line_ok (opt_line name v maxval).
Proof.
  intros Hn Hv H0 Hl. unfold opt_line. destruct v as [[|c s]|]; try done.
  apply Forall_singleton. change (default [] (Some (c :: s))) with (c :: s) in Hv.
  rewrite app_assoc. apply line_ok_named.
  - rewrite !header_text_app, Hn. by apply allb_take.
  - by destruct name.
  - rewrite length_app, length_take. change (length ($": ")) with 2. lia.
Qed.

Lemma frame_lines_ok f :
  frame_ok f ->
  Forall line_ok (($"Content-Type: " ++ $"application/octet-stream") ::
    int_lines (frame_ints f) ++ frame_opts f).
Proof.
  intros [Hz Hs]. repeat (apply Forall_cons in Hs as [? Hs]).
  apply Forall_cons_2; [split; [done|split; [done|apply leb_complete; reflexivity]]|].
  apply Forall_app. split.
  - assert (Hn : Forall (fun p : bytes * Z => header_text (fst p) = true /\ fst p <> [] /\ length (fst p) <= 12)
      (frame_ints f)).
    { unfold frame_ints. destruct (fs_unchanged f); cbn [app];
        repeat (apply Forall_cons_2; [split; [done|split; [done|apply leb_complete; reflexivity]]|]);
        apply Forall_nil_2. }
    unfold int_lines. apply Forall_map.
    eapply Forall_impl; [apply Forall_and; split; [exact Hn|exact Hz]|].
    intros [n z] [(N1 & N2 & N3) Z1]. cbn [fst snd] in *. apply line_ok_named.
    + by rewrite !header_text_app, N1, print_d_text.
    + done.
    + rewrite length_app. change (length ($": ")) with 2. pose proof (print_d_length z Z1).
      unfold HTTP_LINE. lia.
  - unfold frame_opts. rewrite !Forall_app.
    repeat split; apply opt_line_ok; try done; try (by apply opt_text; [apply blank_text|]);
      try (by apply opt_text; [apply audio_text|]); apply Nat.ltb_lt; vm_compute; reflexivity.
Qed.

Lemma frame_lines_count f :
  length (($"Content-Type: " ++ $"application/octet-stream") ::
    int_lines (frame_ints f) ++ frame_opts f) < NS_HTTP_MAX_HEADERS.
Proof.
  assert (O : forall n v m, length (opt_line n v m) <= 1) by (intros n [[|? ?]|] m; cbn; lia).
  unfold frame_opts, int_lines, frame_ints. cbn [length]. rewrite !length_app, length_map.
  pose proof (O ($"X-Nav") (option_map blank_newlines (fs_nav f)) 2000).
  pose proof (O ($"X-Camera") (option_map blank_newlines (fs_camera f)) 2000).
  pose proof (O ($"X-Download") (option_map blank_newlines (fs_download f)) 3000).
  pose proof (O ($"X-Audio") (option_map audio_newlines (fs_audio f)) (Z.to_nat 16000)).
  rewrite length_app. destruct (fs_unchanged f); cbn [length]; unfold NS_HTTP_MAX_HEADERS; lia.
Qed.

Lemma read_nothing c : http_read_body c 0 true = Some ([], c).
Proof. unfold http_read_body. by destruct (conn_size c). Qed.

Definition frame_head0 : http_head := Build_http_head [] [] 200 0 (h_long head0) (h_str head0).

(** C22. A frame survives the pipe: the reply the renderer writes for a frame (its
    sizes, its page's state, the pending navigation, camera, download and audio
    texts, and the pixels unless they are shared or unchanged), sent whole, is the
    frame the browser gets from [ns_rproc_http_render]; a text arrives with its
    line ends replaced, cut to its room and without leading spaces, and the
    connection is left at the next message. *)
Theorem frame_exchange fd f body out fd' r c k :
  http_write_response true fd 200 (Some ($"application/octet-stream")) (Some (render_headers f)) body
    = (out, true, fd') ->
  stream c = out ++ k -> frame_ok f ->
  r_rxbuf r = negb (r_shm r) ->
  (Z.of_nat (length body) <= Z.min NS_HTTP_MAX_BODY (r_rxcap r))%Z ->
  (if fs_unchanged f || r_shm r then body = []
   else Z.of_nat (length body) = (fs_stride f * fs_h f)%Z) ->
  (fs_unchanged f = true \/
   (1 <= fs_w f <= r_max_w r /\ 1 <= fs_h f <= r_max_h r /\
    fs_w f * 4 <= fs_stride f <= r_max_w r * 4)%Z) ->
  exists c',
    render_reply r c =
      (Some {| fr_unchanged := fs_unchanged f;
               fr_width := if fs_unchanged f then 0 else fs_w f;
               fr_height := if fs_unchanged f then 0 else fs_h f;
               fr_stride := if fs_unchanged f then 0 else fs_stride f;
               fr_animating := Z.testbit (fs_anim f) 0;
               fr_caret_blinking := Z.testbit (fs_anim f) 1;
               fr_page_w := fs_page_w f; fr_page_h := fs_page_h f;
               fr_scroll_y := fs_scroll_y f; fr_render_rc := fs_render_rc f;
               fr_pixels := if fs_unchanged f then NO_PIXELS
                            else if r_shm r then FROM_MAP else FROM_RXBUF body;
               fr_nav := carried 2000 (option_map blank_newlines (fs_nav f));
               fr_camera := carried 2000 (option_map blank_newlines (fs_camera f));
               fr_download := carried 3000 (option_map blank_newlines (fs_download f));
               fr_audio := carried (Z.to_nat 16000) (option_map audio_newlines (fs_audio f)) |},
       Some c') /\ stream c' = k.
Proof.
  intros Hw Hc Hf Hrx Hb Hbody Hv. unfold http_write_response in Hw. cbn [negb] in Hw.
  apply write_message_ok in Hw. subst out. rewrite response_head_lines in Hc by apply Hf.
  rewrite <- app_assoc in Hc.
  destruct (message_read c k _ _ body frame_head0 Hc) as
    (h & c1 & c2 & H1 & H2 & H3 & H4 & _ & _ & _ & H5 & H6);
    [split; [done|split; [done|apply Nat.ltb_lt; vm_compute; reflexivity]]|by apply frame_lines_ok|apply frame_lines_count|lia|reflexivity|].
  cbn [fold_left] in H5, H6.
  destruct (frame_fields f frame_head0 Hf eq_refl eq_refl) as (F1 & F2 & F3 & F4 & F5).
  change (head_line frame_head0 ($"Content-Type: " ++ $"application/octet-stream")) with frame_head0 in H5, H6.
  rewrite <- H5 in F1. rewrite <- H6 in F2, F3, F4, F5. clear H5 H6 Hc.
  exists c2. split; [|done]. unfold render_reply. rewrite H1, H2.
  assert (N : (0 <= Z.of_nat (length body))%Z) by lia.
  set (n := Z.of_nat (length body)) in *.
  destruct (Z.ltb_spec n 0); [lia|]. destruct (Z.ltb_spec (r_rxcap r) n); [lia|]. cbn [orb].
  assert (R : (if (n =? 0)%Z then Some ([], c1) else http_read_body c1 n (r_rxbuf r)) = Some (body, c2)).
  { rewrite H2 in H3. destruct (Z.eqb_spec n 0) as [E|E].
    - destruct body; [|unfold n in E; cbn [length] in E; lia].
      rewrite <- H3. symmetry. apply read_nothing.
    - destruct (fs_unchanged f || r_shm r) eqn:U; [subst body; done|].
      apply orb_false_elim in U as [_ U]. rewrite Hrx, U. exact H3. }
  rewrite R. unfold frame_of_head. rewrite !F1, F2, F3, F4, F5. cbn [frame_long].
  destruct Hf as [Hz _]. unfold frame_ints in Hz. rewrite Forall_app in Hz. destruct Hz as [Hz _].
  repeat (apply Forall_cons in Hz as [? Hz]). cbn [snd] in *.
  rewrite !wrap_s_id by done.
  destruct (fs_unchanged f) eqn:U; [done|]. cbn [orb] in Hbody.
  destruct Hv as [Hv|(V1 & V2 & V3)]; [done|]. change (0 <? 0)%Z with false.
  rewrite (proj2 (Z.ltb_ge _ _) (proj1 V1)), (proj2 (Z.ltb_ge _ _) (proj2 V1)),
    (proj2 (Z.ltb_ge _ _) (proj1 V2)), (proj2 (Z.ltb_ge _ _) (proj2 V2)),
    (proj2 (Z.ltb_ge _ _) (proj1 V3)), (proj2 (Z.ltb_ge _ _) (proj2 V3)).
  cbn [orb]. destruct (r_shm r); [done|]. cbn [negb andb].
  destruct (Z.ltb_spec n (fs_stride f * fs_h f)); [lia|done].
Qed.

Definition demo_frame : frame_state :=
  {| fs_w := 1; fs_h := 2; fs_stride := 4; fs_anim := 3; fs_page_w := 1; fs_page_h := 900;
     fs_scroll_y := -1; fs_render_rc := 0; fs_unchanged := false;
     fs_nav := Some ($" https://a.example/" ++ [nl]); fs_camera := None; fs_download := Some [];
     fs_audio := Some ($"play" ++ [nl] ++ $"stop") |}.
Definition demo_pipe : ns_rproc_http :=
  {| r_rxcap := 64; r_rxbuf := true; r_shm := false; r_map_size := 64; r_max_w := 4; r_max_h := 4 |}.
Definition demo_out : bytes :=
  response_head 200 (Some ($"application/octet-stream")) (Some (render_headers demo_frame)) 8 ++ $"12345678".
Lemma frame_exchange_witness :
  http_write_response true [WRITE_OK 100; WRITE_EINTR; WRITE_OK 500; WRITE_OK 8] 200
    (Some ($"application/octet-stream")) (Some (render_headers demo_frame)) ($"12345678")
    = (demo_out, true, []) /\
  exists fr c', render_reply demo_pipe (http_conn_init [READ_OK (take 70 demo_out); READ_EINTR;
      READ_OK (drop 70 demo_out)]) = (Some fr, Some c') /\
    fr_nav fr = Some ($"https://a.example/ ") /\ stream c' = [].
Proof.
  assert (W : http_write_response true [WRITE_OK 100; WRITE_EINTR; WRITE_OK 500; WRITE_OK 8] 200
    (Some ($"application/octet-stream")) (Some (render_headers demo_frame)) ($"12345678")
    = (demo_out, true, [])) by (vm_compute; reflexivity).
  split; [exact W|].
  assert (C : stream (http_conn_init [READ_OK (take 70 demo_out); READ_EINTR; READ_OK (drop 70 demo_out)])
    = demo_out ++ []) by (vm_compute; reflexivity).
  edestruct (frame_exchange _ demo_frame ($"12345678") demo_out [] demo_pipe _ [] W C) as (c' & E & Hs).
  - split.
    + unfold frame_ints, demo_frame; cbn [fs_w fs_h fs_stride fs_anim fs_page_w fs_page_h
        fs_scroll_y fs_render_rc fs_unchanged app].
      repeat (apply Forall_cons_2; [split; [apply Z.leb_le|apply Z.ltb_lt]; reflexivity|]);
      apply Forall_nil_2.
    + repeat (apply Forall_cons_2; [vm_compute; reflexivity|]). apply Forall_nil_2.
  - reflexivity.
  - vm_compute. discriminate.
  - reflexivity.
  - right. repeat split; discriminate.
  - eexists _, c'. split; [exact E|]. split; [vm_compute; reflexivity|exact Hs].
Defined.
