(* ===== verification/EventSource.v ===== *)
(** * Server-sent events ([src/eventsource.c])

    The parser of an event stream, libcurl's callbacks that feed it, the bounded
    queue of notifications to the main loop, and the worker's loop of
    connections. The dispatches posted and not yet done with are the idle sources
    [es_queue], the timers [es_timers] of those a busy page put off, and the one
    whose callback is running; their number is the code's [pending] counter. *)

From S2P Require Import Prelude CStr GLib.

Section EventSource.
Context {G : GLib}.

Definition NS_ES_MAX_LINE : Z := Z.shiftl 1 20.
Definition NS_ES_MAX_EVENT : Z := Z.shiftl 8 20.
Definition NS_ES_MAX_PENDING : nat := 256.

Definition zlen (s : bytes) : Z := Z.of_nat (length s).

Inductive notice :=
| NOTE_OPEN
| NOTE_MESSAGE (event data last_id : bytes)
| NOTE_ERROR (fatal : bool).

Record ns_es := {
  es_last_event_id : bytes;
  es_reconnect_ms : Z;
  es_exit_requested : bool;
  es_detached : bool;
  es_queue : list notice;
  es_timers : list notice;
  es_running : bool;
}.

Definition es_new (last_event_id : option bytes) : ns_es :=
  {| es_last_event_id := default [] last_event_id; es_reconnect_ms := 3000;
     es_exit_requested := false; es_detached := false; es_queue := []; es_timers := []; es_running := false |}.

Definition es_set_sources (es : ns_es) (q t : list notice) (r : bool) : ns_es :=
  {| es_last_event_id := es_last_event_id es; es_reconnect_ms := es_reconnect_ms es;
     es_exit_requested := es_exit_requested es; es_detached := es_detached es;
     es_queue := q; es_timers := t; es_running := r |}.
Definition es_set_queue (es : ns_es) (q : list notice) : ns_es :=
  es_set_sources es q (es_timers es) (es_running es).
Definition es_set_id (es : ns_es) (id : bytes) : ns_es :=
  {| es_last_event_id := id; es_reconnect_ms := es_reconnect_ms es;
     es_exit_requested := es_exit_requested es; es_detached := es_detached es;
     es_queue := es_queue es; es_timers := es_timers es; es_running := es_running es |}.
Definition es_set_reconnect (es : ns_es) (ms : Z) : ns_es :=
  {| es_last_event_id := es_last_event_id es; es_reconnect_ms := ms;
     es_exit_requested := es_exit_requested es; es_detached := es_detached es;
     es_queue := es_queue es; es_timers := es_timers es; es_running := es_running es |}.

Definition es_pending (es : ns_es) : nat :=
  length (es_queue es) + length (es_timers es) + (if es_running es then 1 else 0).

(** A notice past the bound is dropped, and so is one for a detached source. *)
Definition ns_es_post (es : ns_es) (n : notice) : ns_es :=
  if es_detached es then es
  else if NS_ES_MAX_PENDING <=? es_pending es then es
  else es_set_queue es (es_queue es ++ [n]).

(** The main loop runs a dispatch: the first idle source, or the [i]-th timer. A
    busy page puts the notice off with a timer; otherwise its callback is made, if
    any. The count goes down when the callback has returned. *)
Definition ns_es_dispatch_run (es : ns_es) (timer : option nat) (busy : bool) : option notice * ns_es :=
  if es_running es then (None, es)
  else
    let run n q t :=
      if negb (es_detached es) && busy then (None, es_set_sources es q (t ++ [n]) false)
      else ((if es_detached es then None else Some n), es_set_sources es q t true) in
    match timer with
    | None => match es_queue es with n :: q => run n q (es_timers es) | [] => (None, es) end
    | Some i =>
        match es_timers es !! i with
        | Some n => run n (es_queue es) (delete i (es_timers es))
        | None => (None, es)
        end
    end.
Definition ns_es_dispatch_return (es : ns_es) : ns_es :=
  es_set_sources es (es_queue es) (es_timers es) false.

Definition ns_es_emit_error (es : ns_es) (fatal : bool) : ns_es := ns_es_post es (NOTE_ERROR fatal).

Definition ns_es_close (es : ns_es) : ns_es :=
  {| es_last_event_id := es_last_event_id es; es_reconnect_ms := es_reconnect_ms es;
     es_exit_requested := true; es_detached := es_detached es; es_queue := es_queue es;
     es_timers := es_timers es; es_running := es_running es |}.

(** ** The parser *)

Record ns_es_parse := {
  p_line : bytes;
  p_last_was_cr : bool;
  p_data : bytes;
  p_event_type : option bytes;
  p_status : Z;
  p_opened : bool;
  p_fatal : bool;
  p_is_event_stream : bool;
}.

Definition parse0 : ns_es_parse :=
  {| p_line := []; p_last_was_cr := false; p_data := []; p_event_type := None; p_status := 0;
     p_opened := false; p_fatal := false; p_is_event_stream := false |}.

Definition set_buffers (p : ns_es_parse) (data : bytes) (event_type : option bytes) : ns_es_parse :=
  Build_ns_es_parse (p_line p) (p_last_was_cr p) data event_type (p_status p) (p_opened p)
    (p_fatal p) (p_is_event_stream p).
Definition set_line (p : ns_es_parse) (line : bytes) (last_was_cr : bool) : ns_es_parse :=
  Build_ns_es_parse line last_was_cr (p_data p) (p_event_type p) (p_status p) (p_opened p)
    (p_fatal p) (p_is_event_stream p).
Definition set_fatal (p : ns_es_parse) : ns_es_parse :=
  Build_ns_es_parse (p_line p) (p_last_was_cr p) (p_data p) (p_event_type p) (p_status p)
    (p_opened p) true (p_is_event_stream p).

Definition chop_nl (s : bytes) : bytes :=
  match rev s with c :: r => if c =c nl then rev r else s | [] => [] end.

Definition ns_es_dispatch_event (es : ns_es) (p : ns_es_parse) : ns_es * ns_es_parse :=
  match p_data p with
  | [] => (es, set_buffers p [] None)
  | data =>
      let event := default ($"message") (p_event_type p) in
      (ns_es_post es (NOTE_MESSAGE event (chop_nl data) (es_last_event_id es)), set_buffers p [] None)
  end.

(** The field and the value of a line. *)
Definition line_field (line : bytes) : bytes * bytes :=
  match strchr line ":" with
  | Some v =>
      (before line ":",
       match drop 1 v with
       | c :: r => if c =c " " then r else c :: r
       | [] => []
       end)
  | None => (line, [])
  end.

Definition ns_es_process_line (es : ns_es) (p : ns_es_parse) (line : bytes) : ns_es * ns_es_parse :=
  match line with
  | [] => ns_es_dispatch_event es p
  | c :: _ =>
      if c =c ":" then (es, p)
      else
        let '(field, value) := line_field line in
        if strcmp0 field ($"data") then
          if (NS_ES_MAX_EVENT <? zlen (p_data p) + zlen value + 1)%Z then (es, set_fatal p)
          else (es, set_buffers p (p_data p ++ value ++ [nl]) (p_event_type p))
        else if strcmp0 field ($"event") then
          (es, set_buffers p (p_data p) (match value with [] => None | _ => Some value end))
        else if strcmp0 field ($"id") then (es_set_id es value, p)
        else if strcmp0 field ($"retry") then
          let digits := negb (length value =? 0) && allb is_digit value in
          let ms := g_ascii_strtoll10 value in
          if digits && (0 <? ms)%Z then (es_set_reconnect es (Z.min ms 86400000), p) else (es, p)
        else (es, p)
  end.

Fixpoint ns_es_feed (es : ns_es) (p : ns_es_parse) (buf : bytes) : ns_es * ns_es_parse :=
  match buf with
  | [] => (es, p)
  | c :: buf' =>
      if (c =c nl) && p_last_was_cr p then ns_es_feed es (set_line p (p_line p) false) buf'
      else if (c =c cr) || (c =c nl) then
        let p := set_line p (p_line p) (c =c cr) in
        let '(es, p) := ns_es_process_line es p (cstr_of (p_line p)) in
        ns_es_feed es (set_line p [] (p_last_was_cr p)) buf'
      else if (NS_ES_MAX_LINE <=? zlen (p_line p))%Z
      then (es, set_fatal (set_line p (p_line p) false))
      else ns_es_feed es (set_line p (p_line p ++ [c]) false) buf'
  end.

(** ** libcurl's callbacks *)

Definition G_MAXSIZE : Z := 2 ^ 64 - 1.

Definition status_of_line (buffer : bytes) : Z :=
  match strchr buffer " " with
  | None => 0
  | Some sp => strtol10 (take_while g_ascii_isdigit (take 7 (drop 1 sp)))
  end.

Definition set_status (p : ns_es_parse) (status : Z) (opened fatal stream : bool) : ns_es_parse :=
  Build_ns_es_parse (p_line p) (p_last_was_cr p) (p_data p) (p_event_type p) status opened fatal stream.

(** [buffer] has [size * nitems] bytes; the result is the callback's, zero to
    stop the transfer. *)
Definition ns_es_header_cb (es : ns_es) (p : ns_es_parse) (buffer : bytes) (size nitems : Z)
    : Z * ns_es * ns_es_parse :=
  if negb (size =? 0)%Z && (G_MAXSIZE / size <? nitems)%Z then (0%Z, es, p)
  else
    let total := (size * nitems)%Z in
    let '(es, p) :=
      if (5 <=? total)%Z && g_ascii_strncasecmp0 buffer ($"HTTP/") 5 then
        (es, set_status p (status_of_line buffer) (p_opened p) (p_fatal p) false)
      else if (13 <=? total)%Z && g_ascii_strncasecmp0 buffer ($"Content-Type:") 13 then
        match g_strstr_len buffer ($"text/event-stream") with
        | Some _ => (es, set_status p (p_status p) (p_opened p) (p_fatal p) true)
        | None => (es, p)
        end
      else if (total <=? 2)%Z && negb (p_opened p) then
        if (p_status p =? 200)%Z && p_is_event_stream p then
          (ns_es_post es NOTE_OPEN, set_status p (p_status p) true (p_fatal p) (p_is_event_stream p))
        else if (200 <=? p_status p)%Z && ((p_status p <? 300)%Z || (400 <=? p_status p)%Z) then
          (es, set_fatal p)
        else (es, p)
      else (es, p) in
    ((if es_exit_requested es then 0 else total)%Z, es, p).

Definition ns_es_write_cb (es : ns_es) (p : ns_es_parse) (ptr : bytes) (size nmemb : Z)
    : Z * ns_es * ns_es_parse :=
  if es_exit_requested es || p_fatal p then (0%Z, es, p)
  else if negb (size =? 0)%Z && (G_MAXSIZE / size <? nmemb)%Z then (0%Z, es, p)
  else
    let '(es, p) := ns_es_feed es p ptr in
    ((size * nmemb)%Z, es, p).

(** ** Connections *)

(** What libcurl calls during one transfer; [CURL_EXIT]: the page closes the
    source meanwhile. *)
Inductive curl_call := CURL_HEADER (b : bytes) | CURL_WRITE (b : bytes) | CURL_EXIT.

Fixpoint perform (es : ns_es) (p : ns_es_parse) (calls : list curl_call) : ns_es * ns_es_parse :=
  match calls with
  | [] => (es, p)
  | CURL_EXIT :: calls' => perform (ns_es_close es) p calls'
  | CURL_HEADER b :: calls' =>
      let '(n, es, p) := ns_es_header_cb es p b 1 (zlen b) in
      if (n =? zlen b)%Z then perform es p calls' else (es, p)
  | CURL_WRITE b :: calls' =>
      let '(n, es, p) := ns_es_write_cb es p b 1 (zlen b) in
      if (n =? zlen b)%Z then perform es p calls' else (es, p)
  end.

(** The source afterwards, and whether the worker may connect again. [None]: no
    transfer handle. *)
Definition ns_es_connect_once (es : ns_es) (transfer : option (list curl_call)) : bool * ns_es :=
  match transfer with
  | None => (false, es)
  | Some calls => let '(es, p) := perform es parse0 calls in (negb (p_fatal p), es)
  end.

(** The headers of the request that depend on the source. *)
Definition connect_headers (es : ns_es) (origin : option bytes) : list bytes :=
  [$"Accept: text/event-stream"; $"Cache-Control: no-cache"] ++
  match origin with Some ((_ :: _) as o) => [$"Origin: " ++ o] | _ => [] end ++
  match es_last_event_id es with [] => [] | id => [$"Last-Event-ID: " ++ id] end.

Definition wait_ms (es : ns_es) : Z :=
  if (es_reconnect_ms es <=? 0)%Z then 3000 else es_reconnect_ms es.

(** The worker over the transfers its connections have: the waits it makes. *)
Fixpoint ns_es_worker (es : ns_es) (transfers : list (option (list curl_call)))
    : list Z * ns_es :=
  match transfers with
  | [] => ([], es)
  | t :: transfers' =>
      if es_exit_requested es then ([], es)
      else
        let '(retriable, es) := ns_es_connect_once es t in
        if es_exit_requested es then ([], es)
        else if negb retriable then ([], ns_es_emit_error es true)
        else
          let es := ns_es_emit_error es false in
          let '(waits, es') := ns_es_worker es transfers' in
          (wait_ms es :: waits, es')
  end.
End EventSource.

(** ** Streams of events

    The text of a stream: for each event its type and id if it has them, its lines
    of data, and an empty line; every line ended by [eol]. *)

Record sse_event := { ev_type : option bytes; ev_id : option bytes; ev_data : list bytes }.

Definition opt_list {A} (f : A -> bytes) (o : option A) : list bytes :=
  match o with Some x => [f x] | None => [] end.
Definition event_lines (e : sse_event) : list bytes :=
  opt_list (fun t => $"event: " ++ t) (ev_type e) ++ opt_list (fun i => $"id: " ++ i) (ev_id e) ++
  map (fun d => $"data: " ++ d) (ev_data e) ++ [[]].
Definition lines_text (eol : bytes) (ls : list bytes) : bytes := concat (map (fun l => l ++ eol) ls).
Definition stream_text (eol : bytes) (evs : list sse_event) : bytes :=
  lines_text eol (concat (map event_lines evs)).

(** What the page is told: the messages, each with the id in force, and the last
    id. *)
Definition event_id (id : bytes) (e : sse_event) : bytes := default id (ev_id e).
Fixpoint messages (id : bytes) (evs : list sse_event) : list notice :=
  match evs with
  | [] => []
  | e :: evs' =>
      let id := event_id id e in
      NOTE_MESSAGE (default ($"message") (ev_type e)) (Ref.join [nl] (ev_data e)) id :: messages id evs'
  end.

Definition sse_char (c : ascii) : bool := negb (c =c cr) && negb (c =c nl) && negb (c =c nul).
Definition sse_text (s : bytes) : bool := allb sse_char s.
Definition text_lines (ds : list bytes) : bytes := concat (map (fun x => x ++ [nl]) ds).

Definition line_fits (l : bytes) : Prop := sse_text l = true /\ (zlen l <= NS_ES_MAX_LINE)%Z.
Definition event_ok (e : sse_event) : Prop :=
  ev_data e <> [] /\ Forall line_fits (event_lines e) /\
  match ev_type e with Some t => t <> [] | None => True end /\
  (zlen (text_lines (ev_data e)) <= NS_ES_MAX_EVENT)%Z.

Definition eol_ok (eol : bytes) : Prop := eol = [nl] \/ eol = [cr] \/ eol = [cr; nl].

Section Feeding.
Context {G : GLib} (st : Z) (op stream : bool).

(** The parser states of a run without a fatal error. *)
Definition mk (line : bytes) (lwc : bool) (d : bytes) (t : option bytes) : ns_es_parse :=
  Build_ns_es_parse line lwc d t st op false stream.

Lemma feed_chars es line lwc d t l r :
  sse_text l = true -> (zlen line + zlen l <= NS_ES_MAX_LINE)%Z ->
  ns_es_feed es (mk line lwc d t) (l ++ r)
  = ns_es_feed es (mk (line ++ l) (match l with [] => lwc | _ => false end) d t) r.
Proof.
  revert line lwc. induction l as [|c l IH]; intros line lwc Hl Hz; [by rewrite app_nil_r|].
  cbn [sse_text forallb] in Hl. apply andb_prop in Hl as [Hc Hl].
  unfold sse_char in Hc. apply andb_prop in Hc as [[H1 H2]%andb_prop _].
  apply negb_true_iff in H1, H2. unfold zlen in *. cbn [length] in Hz.
  cbn [app ns_es_feed mk p_line p_last_was_cr]. rewrite H1, H2. cbn [andb orb].
  destruct (Z.leb_spec NS_ES_MAX_LINE (zlen line)); [unfold zlen in *; lia|].
  change (set_line (mk line lwc d t) (line ++ [c]) false) with (mk (line ++ [c]) false d t).
  rewrite IH; [|done|rewrite length_app; cbn [length]; lia].
  rewrite <- app_assoc. by destruct l.
Qed.

Lemma sse_text_cstr l : sse_text l = true -> cstr_of l = l.
Proof.
  intros H. apply take_while_id. eapply allb_impl; [|exact H].
  intros c Hc. unfold sse_char in Hc. by apply andb_prop in Hc as [_ ?].
Qed.

(** One line and its end. *)
Lemma feed_line es es' lwc d t d' t' eol l r :
  eol_ok eol -> (lwc = true -> eol = [cr]) -> line_fits l ->
  (forall line b, ns_es_process_line es (mk line b d t) l = (es', mk line b d' t')) ->
  exists lwc', (lwc' = true -> eol = [cr]) /\
    ns_es_feed es (mk [] lwc d t) (l ++ eol ++ r) = ns_es_feed es' (mk [] lwc' d' t') r.
Proof.
  intros He Hw [Hl Hz] Hp. rewrite feed_chars by (done || (unfold zlen in *; cbn [length]; lia)).
  cbn [app]. set (w := match l with [] => lwc | _ => false end).
  assert (Hw' : w = true -> eol = [cr]) by by destruct l.
  assert (P : forall b, ns_es_process_line es (set_line (mk l w d t) l b) (cstr_of l) = (es', mk l b d' t')).
  { intros b. rewrite sse_text_cstr by done. apply Hp. }
  destruct He as [->|[->| ->]]; cbn [app ns_es_feed].
  - assert (w = false) as -> by (destruct w; [by specialize (Hw' eq_refl)|done]).
    cbn [mk p_last_was_cr p_line andb]. rewrite andb_false_r. change (nl =c nl) with true.
    rewrite orb_true_r. cbv iota. change (p_line (set_line _ l (nl =c cr))) with l.
    rewrite P. by exists false.
  - cbn [mk p_last_was_cr p_line]. change (cr =c nl) with false. cbn [andb orb].
    rewrite orb_false_r. change (cr =c cr) with true. cbv iota.
    change (p_line (set_line _ l true)) with l. rewrite P. by exists true.
  - cbn [mk p_last_was_cr p_line]. change (cr =c nl) with false. cbn [andb orb].
    rewrite orb_false_r. change (cr =c cr) with true. cbv iota.
    change (p_line (set_line _ l true)) with l. rewrite P. by exists false.
Qed.

Lemma process_data es line b d t x :
  (zlen d + zlen x + 1 <= NS_ES_MAX_EVENT)%Z ->
  ns_es_process_line es (mk line b d t) ($"data: " ++ x) = (es, mk line b (d ++ x ++ [nl]) t).
Proof.
  intros H. change ($"data: " ++ x) with ("d"%char :: $"ata: " ++ x). cbn [ns_es_process_line].
  change ("d" =c ":") with false.
  change (line_field ("d"%char :: $"ata: " ++ x)) with ($"data", x).
  change (strcmp0 ($"data") ($"data")) with true. cbv iota. cbn [mk p_data].
  by destruct (Z.ltb_spec NS_ES_MAX_EVENT (zlen d + zlen x + 1)); [lia|].
Qed.

Lemma process_event es line b d x :
  x <> [] ->
  ns_es_process_line es (mk line b d None) ($"event: " ++ x) = (es, mk line b d (Some x)).
Proof.
  intros H. change ($"event: " ++ x) with ("e"%char :: $"vent: " ++ x). cbn [ns_es_process_line].
  change (line_field ("e"%char :: $"vent: " ++ x)) with ($"event", x). by destruct x.
Qed.

Lemma process_id es line b d t x :
  ns_es_process_line es (mk line b d t) ($"id: " ++ x) = (es_set_id es x, mk line b d t).
Proof. done. Qed.

Lemma text_lines_length d ds : (zlen (text_lines (d :: ds)) = zlen d + 1 + zlen (text_lines ds))%Z.
Proof. unfold text_lines, zlen. cbn [map concat]. rewrite !length_app. cbn [length]. lia. Qed.

Lemma feed_data es eol lwc d t ds r :
  eol_ok eol -> (lwc = true -> eol = [cr]) ->
  Forall line_fits (map (fun x => $"data: " ++ x) ds) ->
  (zlen d + zlen (text_lines ds) <= NS_ES_MAX_EVENT)%Z ->
  exists lwc', (lwc' = true -> eol = [cr]) /\
    ns_es_feed es (mk [] lwc d t) (lines_text eol (map (fun x => $"data: " ++ x) ds) ++ r)
    = ns_es_feed es (mk [] lwc' (d ++ text_lines ds) t) r.
Proof.
  intros He. revert lwc d. induction ds as [|x ds IH]; intros lwc d Hw Hf Hz.
  - exists lwc. split; [done|]. by rewrite app_nil_r.
  - cbn [map] in Hf. apply Forall_cons in Hf as [Hx Hf].
    rewrite text_lines_length in Hz.
    assert (Hx' : (zlen d + zlen x + 1 <= NS_ES_MAX_EVENT)%Z) by (unfold zlen in *; lia).
    unfold lines_text; cbn [map concat]. rewrite <- !app_assoc. fold (lines_text eol).
    destruct (feed_line es es lwc d t (d ++ x ++ [nl]) t eol ($"data: " ++ x)
      (lines_text eol (map (fun x => $"data: " ++ x) ds) ++ r) He Hw Hx) as (w1 & Hw1 & E1).
    { intros. by apply process_data. }
    destruct (IH w1 (d ++ x ++ [nl]) Hw1 Hf) as (w2 & Hw2 & E2).
    { unfold zlen in *. rewrite !length_app. cbn [length]. lia. }
    exists w2. split; [done|]. rewrite <- !app_assoc in E1. unfold lines_text in *. rewrite E1, E2.
    unfold text_lines; cbn [map concat]. by rewrite <- !app_assoc.
Qed.
End Feeding.

Lemma chop_text_lines ds : ds <> [] -> chop_nl (text_lines ds) = Ref.join [nl] ds.
Proof.
  intros Hd.
  assert (E : text_lines ds = Ref.join [nl] ds ++ [nl]).
  { induction ds as [|x ds IH]; [done|]. destruct ds as [|y ds].
    - unfold text_lines; cbn. by rewrite app_nil_r.
    - change (text_lines (x :: y :: ds)) with ((x ++ [nl]) ++ text_lines (y :: ds)).
      rewrite IH by done. change (Ref.join [nl] (x :: y :: ds)) with (x ++ [nl] ++ Ref.join [nl] (y :: ds)).
      by rewrite <- !app_assoc. }
  unfold chop_nl. rewrite E, rev_app_distr. cbn [rev app].
  change (nl =c nl) with true. cbv iota. apply rev_involutive.
Qed.

Lemma lines_text_app eol a b : lines_text eol (a ++ b) = lines_text eol a ++ lines_text eol b.
Proof. unfold lines_text. by rewrite map_app, concat_app. Qed.

Lemma lines_text_one eol l : lines_text eol [l] = l ++ eol.
Proof. unfold lines_text. cbn. apply app_nil_r. Qed.

Section Events.
Context {G : GLib} (st : Z) (op stream : bool).
Abbreviation state := (mk st op stream).

Lemma feed_opt es es' eol lwc (mkl : bytes -> bytes) (o : option bytes) d t t' r :
  eol_ok eol -> (lwc = true -> eol = [cr]) -> Forall line_fits (opt_list mkl o) ->
  match o with
  | Some x => forall line b, ns_es_process_line es (state line b d t) (mkl x) = (es', state line b d t')
  | None => es' = es /\ t' = t
  end ->
  exists lwc', (lwc' = true -> eol = [cr]) /\
    ns_es_feed es (state [] lwc d t) (lines_text eol (opt_list mkl o) ++ r)
    = ns_es_feed es' (state [] lwc' d t') r.
Proof.
  intros He Hw Hf Hp. destruct o as [x|]; cbn [opt_list] in *.
  - rewrite Forall_singleton in Hf. rewrite lines_text_one, <- app_assoc.
    by apply feed_line.
  - destruct Hp as [-> ->]. by exists lwc.
Qed.

Lemma feed_event es eol lwc e r :
  eol_ok eol -> (lwc = true -> eol = [cr]) -> event_ok e ->
  let id := event_id (es_last_event_id es) e in
  exists lwc', (lwc' = true -> eol = [cr]) /\
    ns_es_feed es (state [] lwc [] None) (lines_text eol (event_lines e) ++ r)
    = ns_es_feed (ns_es_post (es_set_id es id)
        (NOTE_MESSAGE (default ($"message") (ev_type e)) (Ref.join [nl] (ev_data e)) id))
        (state [] lwc' [] None) r.
Proof.
  intros He Hw (Hd & Hf & Ht & Hz) id. unfold event_lines in *.
  rewrite !Forall_app in Hf. destruct Hf as (F1 & F2 & F3 & F4).
  rewrite !lines_text_app, <- !app_assoc.
  destruct (feed_opt es es eol lwc (fun t => $"event: " ++ t) (ev_type e) [] None (ev_type e)
    (lines_text eol (opt_list (fun i => $"id: " ++ i) (ev_id e)) ++
     lines_text eol (map (fun d => $"data: " ++ d) (ev_data e)) ++ lines_text eol [[]] ++ r))
    as (w1 & W1 & E1); [done|done|done| |].
  { destruct (ev_type e); [intros; by apply process_event|done]. }
  destruct (feed_opt es (es_set_id es id) eol w1 (fun i => $"id: " ++ i) (ev_id e) [] (ev_type e) (ev_type e)
    (lines_text eol (map (fun d => $"data: " ++ d) (ev_data e)) ++ lines_text eol [[]] ++ r))
    as (w2 & W2 & E2); [done|done|done| |].
  { unfold id, event_id. destruct (ev_id e); [intros; apply process_id|by destruct es]. }
  destruct (feed_data st op stream (es_set_id es id) eol w2 [] (ev_type e) (ev_data e)
    (lines_text eol [[]] ++ r)) as (w3 & W3 & E3); [done|done|done|done|].
  rewrite E1, E2, E3. cbn [app]. rewrite lines_text_one, <- app_assoc.
  apply feed_line; [done|done|by rewrite Forall_singleton in F4|].
  intros line b. cbn [ns_es_process_line]. unfold ns_es_dispatch_event. cbn [mk p_data p_event_type].
  destruct (text_lines (ev_data e)) eqn:E; [|by rewrite <- E, chop_text_lines].
  destruct (ev_data e) as [|x ds]; [done|]. unfold text_lines in E. cbn in E. by destruct x.
Qed.

End Events.

(** ** Chunks *)

Section Chunks.
Context {G : GLib}.

Lemma process_line_keeps es p l :
  let '(es', p') := ns_es_process_line es p l in
  es_exit_requested es' = es_exit_requested es /\ (p_fatal p = true -> p_fatal p' = true).
Proof.
  destruct l as [|c l]; cbn [ns_es_process_line].
  - unfold ns_es_dispatch_event, ns_es_post. destruct (p_data p); [done|].
    destruct (es_detached es); [done|]. by destruct (_ <=? _).
  - destruct (c =c ":"); [done|]. destruct (line_field (c :: l)) as [f v].
    repeat match goal with |- context [if ?b then _ else _] => destruct b end; done.
Qed.

Lemma feed_keeps es p b :
  let '(es', p') := ns_es_feed es p b in
  es_exit_requested es' = es_exit_requested es /\ (p_fatal p = true -> p_fatal p' = true).
Proof.
  revert es p. induction b as [|c b IH]; intros es p; cbn [ns_es_feed]; [done|].
  destruct (_ && _); [apply (IH es (set_line p (p_line p) false))|].
  destruct (_ || _).
  - pose proof (process_line_keeps es (set_line p (p_line p) (c =c cr))
      (cstr_of (p_line (set_line p (p_line p) (c =c cr))))) as K.
    destruct (ns_es_process_line _ _ _) as [es1 p1]. destruct K as [K1 K2].
    specialize (IH es1 (set_line p1 [] (p_last_was_cr p1))).
    destruct (ns_es_feed es1 _ b) as [es2 p2]. destruct IH as [I1 I2].
    split; [congruence|]. intros H. by apply I2, K2.
  - destruct (_ <=? _)%Z; [done|]. apply (IH es (set_line p (p_line p ++ [c]) false)).
Qed.

(** Feeding is done in pieces as well as at once, up to a fatal error. *)
Lemma feed_app es p a b :
  p_fatal (snd (ns_es_feed es p (a ++ b))) = false ->
  p_fatal (snd (ns_es_feed es p a)) = false /\
  ns_es_feed es p (a ++ b) = let '(es', p') := ns_es_feed es p a in ns_es_feed es' p' b.
Proof.
  revert es p. induction a as [|c a IH]; intros es p H.
  - cbn [app ns_es_feed] in *. split; [|done].
    pose proof (feed_keeps es p b) as K. destruct (ns_es_feed es p b). cbn [snd] in *.
    destruct K as [_ K]. destruct (p_fatal p); [by rewrite K in H|done].
  - cbn [app ns_es_feed] in *. destruct (_ && _); [by apply IH|]. destruct (_ || _).
    + destruct (ns_es_process_line _ _ _). by apply IH.
    + destruct (_ <=? _)%Z; [done|by apply IH].
Qed.

(** ** The messages handed over

    What feeding hands to [ns_es_post] does not depend on the queue. *)

Definition es_at (id : bytes) (ms : Z) : ns_es := es_set_reconnect (es_new (Some id)) ms.

(** Byte by byte: each hands over one notice at most. *)
Fixpoint handed (id : bytes) (ms : Z) (p : ns_es_parse) (b : bytes) : list notice :=
  match b with
  | [] => []
  | c :: b' =>
      let '(es', p') := ns_es_feed (es_at id ms) p [c] in
      es_queue es' ++ handed (es_last_event_id es') (es_reconnect_ms es') p' b'
  end.

Definition sources_of (es : ns_es) (id : bytes) (ms : Z) : ns_es := es_set_reconnect (es_set_id es id) ms.

Lemma post_keeps es n :
  es_last_event_id (ns_es_post es n) = es_last_event_id es /\
  es_reconnect_ms (ns_es_post es n) = es_reconnect_ms es /\
  es_exit_requested (ns_es_post es n) = es_exit_requested es /\
  es_detached (ns_es_post es n) = es_detached es /\
  es_timers (ns_es_post es n) = es_timers es /\ es_running (ns_es_post es n) = es_running es.
Proof. unfold ns_es_post. destruct (es_detached es) eqn:E; [done|]. by destruct (_ <=? _). Qed.

(** Posts go to the end of the queue while there is room. *)
Lemma posts_queue l es :
  es_detached es = false ->
  fold_left ns_es_post l es = es_set_queue es (es_queue es ++ take (NS_ES_MAX_PENDING - es_pending es) l).
Proof.
  revert es. induction l as [|n l IH]; intros es Hd; cbn [fold_left].
  - rewrite take_nil, app_nil_r. by destruct es.
  - unfold ns_es_post at 2. rewrite Hd. destruct (Nat.leb_spec NS_ES_MAX_PENDING (es_pending es)) as [H|H].
    + rewrite IH by done. by replace (NS_ES_MAX_PENDING - es_pending es) with 0 by lia.
    + rewrite IH by done. unfold es_pending in *. cbn [es_set_queue es_set_sources es_queue es_timers es_running].
      rewrite length_app. cbn [length].
      replace (NS_ES_MAX_PENDING - (length (es_queue es) + length (es_timers es) + (if es_running es then 1 else 0)))
        with (S (NS_ES_MAX_PENDING - (length (es_queue es) + 1 + length (es_timers es) + (if es_running es then 1 else 0)))) by lia.
      cbn [take]. by rewrite <- app_assoc.
Qed.

Lemma post_sources es n id ms : sources_of (ns_es_post es n) id ms = ns_es_post (sources_of es id ms) n.
Proof.
  unfold ns_es_post. change (es_detached (sources_of es id ms)) with (es_detached es).
  change (es_pending (sources_of es id ms)) with (es_pending es). destruct (es_detached es); [done|].
  by destruct (_ <=? _).
Qed.

Lemma posts_sources l es id ms id' ms' :
  sources_of (fold_left ns_es_post l (sources_of es id ms)) id' ms' = fold_left ns_es_post l (sources_of es id' ms').
Proof.
  revert es. induction l as [|n l IH]; intros es; cbn [fold_left]; [done|].
  by rewrite <- !post_sources, IH.
Qed.

Lemma process_line_posts es p l :
  exists (out : list notice) (id : bytes) (ms : Z) (p' : ns_es_parse), length out <= 1 /\ forall es0,
    es_last_event_id es0 = es_last_event_id es -> es_reconnect_ms es0 = es_reconnect_ms es ->
    ns_es_process_line es0 p l = (fold_left ns_es_post out (sources_of es0 id ms), p').
Proof.
  assert (N : forall p' : ns_es_parse, exists (out : list notice) (id : bytes) (ms : Z) (p'' : ns_es_parse), length out <= 1 /\ forall es0,
    es_last_event_id es0 = es_last_event_id es -> es_reconnect_ms es0 = es_reconnect_ms es ->
    (es0, p') = (fold_left ns_es_post out (sources_of es0 id ms), p'')).
  { intros p'. exists [], (es_last_event_id es), (es_reconnect_ms es), p'. split; [cbn; lia|].
    intros [] E1 E2. cbn in *. by subst. }
  destruct l as [|c l]; cbn [ns_es_process_line].
  - unfold ns_es_dispatch_event. destruct (p_data p); [apply N|].
    eexists [_], (es_last_event_id es), (es_reconnect_ms es), _. split; [done|].
    intros [] E1 E2. cbn in *. subst. reflexivity.
  - destruct (c =c ":"); [apply N|]. destruct (line_field (c :: l)) as [f v].
    destruct (strcmp0 f ($"data")); [destruct (_ <? _)%Z; apply N|].
    destruct (strcmp0 f ($"event")); [apply N|].
    destruct (strcmp0 f ($"id")).
    { exists [], v, (es_reconnect_ms es), p. split; [cbn; lia|]. intros [] E1 E2. cbn in *. by subst. }
    destruct (strcmp0 f ($"retry")); [|apply N]. destruct (_ && _); [|apply N].
    eexists [], (es_last_event_id es), _, p. split; [cbn; lia|]. intros [] E1 E2. cbn in *. subst. reflexivity.
Qed.

Lemma sources_same es id ms : es_last_event_id es = id -> es_reconnect_ms es = ms -> sources_of es id ms = es.
Proof. intros <- <-. by destruct es. Qed.

Lemma feed_one_posts c p es :
  exists (out : list notice) (id : bytes) (ms : Z) (p' : ns_es_parse), length out <= 1 /\ forall es0,
    es_last_event_id es0 = es_last_event_id es -> es_reconnect_ms es0 = es_reconnect_ms es ->
    ns_es_feed es0 p [c] = (fold_left ns_es_post out (sources_of es0 id ms), p').
Proof.
  cbn [ns_es_feed].
  destruct (_ && _); [|destruct (_ || _)].
  1: eexists [], (es_last_event_id es), (es_reconnect_ms es), _; split; [cbn; lia|];
    intros es0 E1 E2; by rewrite sources_same.
  - destruct (process_line_posts es (set_line p (p_line p) (c =c cr)) (cstr_of (p_line (set_line p (p_line p) (c =c cr)))))
      as (out & id & ms & p' & Hl & H).
    exists out, id, ms, (set_line p' [] (p_last_was_cr p')). split; [done|]. intros es0 E1 E2. by rewrite H.
  - destruct (_ <=? _)%Z; eexists [], (es_last_event_id es), (es_reconnect_ms es), _; (split; [cbn; lia|]);
    intros es0 E1 E2; by rewrite sources_same.
Qed.

Lemma feed_cons es p c b :
  p_fatal (snd (ns_es_feed es p [c])) = false ->
  ns_es_feed es p (c :: b) = let '(es', p') := ns_es_feed es p [c] in ns_es_feed es' p' b.
Proof.
  cbn [ns_es_feed]. destruct (_ && _); [done|]. destruct (_ || _); [by destruct (ns_es_process_line _ _ _)|].
  by destruct (_ <=? _)%Z.
Qed.

(** Feeding anything that does not end in a fatal error. *)
Lemma feed_posts b p es :
  p_fatal (snd (ns_es_feed es p b)) = false ->
  exists id ms p', forall es0,
    es_last_event_id es0 = es_last_event_id es -> es_reconnect_ms es0 = es_reconnect_ms es ->
    ns_es_feed es0 p b =
      (fold_left ns_es_post (handed (es_last_event_id es) (es_reconnect_ms es) p b) (sources_of es0 id ms), p').
Proof.
  revert p es. induction b as [|c b IH]; intros p es Hf.
  - exists (es_last_event_id es), (es_reconnect_ms es), p. intros es0 E1 E2. by rewrite sources_same.
  - destruct (feed_one_posts c p es) as (out & id & ms & p1 & Hl & H1).
    destruct (feed_app es p [c] b Hf) as [Hf1 E]. cbn [app] in E. rewrite E in Hf.
    rewrite (H1 es eq_refl eq_refl) in Hf, Hf1.
    assert (K : forall es0, es_last_event_id (fold_left ns_es_post out (sources_of es0 id ms)) = id /\
                  es_reconnect_ms (fold_left ns_es_post out (sources_of es0 id ms)) = ms).
    { intros es0. destruct out as [|n [|]]; cbn [length] in Hl; [done| |lia]. cbn [fold_left].
      destruct (post_keeps (sources_of es0 id ms) n) as (-> & -> & _). done. }
    destruct (IH p1 _ Hf) as (id' & ms' & p' & H). destruct (K es) as [K1 K2]. rewrite K1, K2 in H.
    exists id', ms', p'. intros es0 E1 E2. cbn [handed].
    rewrite (H1 (es_at (es_last_event_id es) (es_reconnect_ms es)) eq_refl eq_refl). destruct (K (es_at (es_last_event_id es) (es_reconnect_ms es))) as [-> ->].
    assert (Q : es_queue (fold_left ns_es_post out (sources_of (es_at (es_last_event_id es) (es_reconnect_ms es)) id ms)) = out).
    { rewrite posts_queue by done. cbn [es_queue es_set_queue es_set_sources sources_of es_set_reconnect es_set_id es_at es_new].
      cbn [app]. apply firstn_all2. cbn. lia. }
    pose proof (feed_cons es0 p c b) as C. rewrite (H1 es0 E1 E2) in C. rewrite Q, fold_left_app, C by done.
    destruct (K es0) as [K3 K4]. rewrite (H _ K3 K4). f_equal. f_equal.
    by rewrite posts_sources.
Qed.

(** The state after feeding, of a source with nothing pending. *)
Definition fed (id : bytes) (ms : Z) (p : ns_es_parse) (b : bytes) : bytes * Z * ns_es_parse :=
  let '(es, p') := ns_es_feed (es_at id ms) p b in (es_last_event_id es, es_reconnect_ms es, p').

Lemma posts_fields l es :
  es_last_event_id (fold_left ns_es_post l es) = es_last_event_id es /\
  es_reconnect_ms (fold_left ns_es_post l es) = es_reconnect_ms es /\
  es_exit_requested (fold_left ns_es_post l es) = es_exit_requested es.
Proof.
  revert es. induction l as [|n l IH]; intros es; [done|]. cbn [fold_left].
  destruct (IH (ns_es_post es n)) as (-> & -> & ->). by destruct (post_keeps es n) as (-> & -> & -> & _).
Qed.

Lemma feed_handed b p es :
  p_fatal (snd (ns_es_feed es p b)) = false ->
  let id := es_last_event_id es in let ms := es_reconnect_ms es in
  let '(id', ms', p') := fed id ms p b in
  ns_es_feed es p b = (fold_left ns_es_post (handed id ms p b) (sources_of es id' ms'), p').
Proof.
  intros Hf id ms. destruct (feed_posts b p es Hf) as (id' & ms' & p' & H). unfold fed.
  rewrite (H (es_at id ms) eq_refl eq_refl), (H es eq_refl eq_refl). cbv beta iota. fold id ms.
  by destruct (posts_fields (handed id ms p b) (sources_of (es_at id ms) id' ms')) as (-> & -> & _).
Qed.

(** Handing over is done in pieces as well as at once. *)
Lemma handed_app id ms p a b :
  p_fatal (snd (ns_es_feed (es_at id ms) p (a ++ b))) = false ->
  let '(id', ms', p') := fed id ms p a in
  handed id ms p (a ++ b) = handed id ms p a ++ handed id' ms' p' b /\
  fed id ms p (a ++ b) = fed id' ms' p' b /\
  p_fatal (snd (ns_es_feed (es_at id' ms') p' b)) = false.
Proof.
  revert id ms p. induction a as [|c a IH]; intros id ms p Hf; [done|].
  destruct (feed_app (es_at id ms) p [c] (a ++ b) Hf) as [Hf1 E]. cbn [app] in *.
  destruct (feed_one_posts c p (es_at id ms)) as (out & id1 & ms1 & p1 & Hl & H1).
  assert (F1 : fed id ms p [c] = (id1, ms1, p1)).
  { unfold fed. rewrite (H1 (es_at id ms) eq_refl eq_refl). cbv beta iota. by destruct (posts_fields out (sources_of (es_at id ms) id1 ms1)) as (-> & -> & _). }
  assert (C : forall x, p_fatal (snd (ns_es_feed (es_at id ms) p (c :: x))) = false ->
    fed id ms p (c :: x) = fed id1 ms1 p1 x /\ handed id ms p (c :: x) = es_queue (fst (ns_es_feed (es_at id ms) p [c])) ++ handed id1 ms1 p1 x
    /\ p_fatal (snd (ns_es_feed (es_at id1 ms1) p1 x)) = false).
  { intros x Hx. rewrite (feed_cons _ _ _ _ Hf1) in Hx. cbn [handed]. unfold fed at 1. rewrite (feed_cons _ _ _ _ Hf1).
    rewrite (H1 (es_at id ms) eq_refl eq_refl) in *. cbn [fst].
    destruct (posts_fields out (sources_of (es_at id ms) id1 ms1)) as (G1 & G2 & _).
    pose proof (feed_handed x p1 _ Hx) as X. destruct (feed_posts x p1 _ Hx) as (i & m & q & Y).
    rewrite G1, G2 in *. cbn in X, Y. split; [|split; [done|]].
    - unfold fed. rewrite (Y _ G1 G2), (Y (es_at id1 ms1) eq_refl eq_refl). cbv beta iota.
      destruct (posts_fields (handed id1 ms1 p1 x) (sources_of (es_at id1 ms1) i m)) as (-> & -> & _).
      by destruct (posts_fields (handed id1 ms1 p1 x)
        (sources_of (fold_left ns_es_post out (sources_of (es_at id ms) id1 ms1)) i m)) as (-> & -> & _).
    - rewrite (Y _ G1 G2) in Hx. rewrite (Y (es_at id1 ms1) eq_refl eq_refl). exact Hx. }
  destruct (C (a ++ b) Hf) as (Fab & Hab & Pab). specialize (IH id1 ms1 p1 Pab).
  assert (Pa : p_fatal (snd (ns_es_feed (es_at id ms) p (c :: a))) = false).
  { by destruct (feed_app (es_at id ms) p (c :: a) b Hf). }
  destruct (C a Pa) as (Fa & Ha & _). rewrite Fa, Hab, Ha, Fab.
  destruct (fed id1 ms1 p1 a) as [[id' ms'] p']. destruct IH as (-> & -> & ?). by rewrite app_assoc.
Qed.

(** What a stream hands over: its messages. *)
Lemma handed_event st op stream eol lwc e id ms :
  eol_ok eol -> (lwc = true -> eol = [cr]) -> event_ok e ->
  exists lwc', (lwc' = true -> eol = [cr]) /\
    let p := mk st op stream [] lwc [] None in let b := lines_text eol (event_lines e) in
    p_fatal (snd (ns_es_feed (es_at id ms) p b)) = false /\
    handed id ms p b = messages id [e] /\ fed id ms p b = (event_id id e, ms, mk st op stream [] lwc' [] None).
Proof.
  intros He Hw Hok.
  destruct (feed_event st op stream (es_at id ms) eol lwc e [] He Hw Hok) as (w & Hw' & E).
  rewrite app_nil_r in E. cbn [ns_es_feed] in E. exists w. split; [done|]. cbv zeta.
  set (p := mk st op stream [] lwc [] None) in *. set (b := lines_text eol (event_lines e)) in *.
  assert (Hf : p_fatal (snd (ns_es_feed (es_at id ms) p b)) = false) by by rewrite E.
  assert (F : fed id ms p b = (event_id id e, ms, mk st op stream [] w [] None)) by (unfold fed; by rewrite E).
  split; [done|]. split; [|done]. pose proof (feed_handed b p (es_at id ms) Hf) as X. cbv zeta in X.
  change (es_last_event_id (es_at id ms)) with id in X. change (es_reconnect_ms (es_at id ms)) with ms in X.
  rewrite F, E in X. injection X as X. apply (f_equal es_queue) in X. rewrite posts_queue in X by done.
  cbn [es_queue es_set_queue es_set_sources app sources_of es_set_reconnect es_set_id] in X.
  change (es_pending _) with 0 in X. cbn [messages].
  destruct (handed id ms p b) as [|n [|n' l]]; cbn in X; try discriminate; by injection X as ->.
Qed.

Lemma handed_events st op stream eol evs :
  eol_ok eol -> Forall event_ok evs -> forall lwc id ms, (lwc = true -> eol = [cr]) ->
  exists lwc', (lwc' = true -> eol = [cr]) /\
    let p := mk st op stream [] lwc [] None in let b := stream_text eol evs in
    p_fatal (snd (ns_es_feed (es_at id ms) p b)) = false /\
    handed id ms p b = messages id evs /\
    fed id ms p b = (fold_left event_id evs id, ms, mk st op stream [] lwc' [] None).
Proof.
  intros He Hok. induction Hok as [|e evs Hok _ IH]; intros lwc id ms Hw; [by exists lwc|].
  destruct (handed_event st op stream eol lwc e id ms He Hw Hok) as (w1 & W1 & F1 & H1 & D1). cbv zeta in F1, H1, D1.
  destruct (IH w1 (event_id id e) ms W1) as (w2 & W2 & F2 & H2 & D2). cbv zeta in F2, H2, D2.
  exists w2. split; [done|]. cbv zeta. unfold stream_text in *. cbn [map concat]. rewrite lines_text_app.
  set (p := mk st op stream [] lwc [] None) in *. set (a := lines_text eol (event_lines e)) in *.
  set (b := lines_text eol (concat (map event_lines evs))) in *.
  assert (Hf : p_fatal (snd (ns_es_feed (es_at id ms) p (a ++ b))) = false).
  { pose proof (feed_event st op stream (es_at id ms) eol lwc e b He Hw Hok) as (w & W & E).
    fold p a in E. rewrite E. destruct (IH w (event_id id e) ms W) as (w3 & _ & F & _). cbv zeta in F. fold b in F.
    destruct (feed_posts b _ _ F) as (i & m & q & Y). rewrite (Y (es_at (event_id id e) ms) eq_refl eq_refl) in F.
    rewrite Y; [exact F|..]; by destruct (post_keeps (es_set_id (es_at id ms) (event_id id e))
      (NOTE_MESSAGE (default ($"message") (ev_type e)) (Ref.join [nl] (ev_data e)) (event_id id e))) as (? & ? & _). }
  split; [done|]. pose proof (handed_app id ms p a b Hf) as A. rewrite D1 in A. destruct A as (-> & -> & _).
  rewrite H1, H2, D2. done.
Qed.
End Chunks.

(** ** The main loop beside the transfer *)

(** What happens while a transfer runs, in order: libcurl hands over bytes, the
    main loop starts a dispatch, its callback returns. *)
Inductive es_step := ES_WRITE (b : bytes) | ES_TURN (timer : option nat) (busy : bool) | ES_RETURN.

Section Play.
Context {G : GLib}.

(** The notices delivered, the source and the parser afterwards. *)
Fixpoint play (es : ns_es) (p : ns_es_parse) (script : list es_step) : list notice * ns_es * ns_es_parse :=
  match script with
  | [] => ([], es, p)
  | ES_WRITE b :: script =>
      let '(n, es, p) := ns_es_write_cb es p b 1 (zlen b) in
      if (n =? zlen b)%Z then play es p script else ([], es, p)
  | ES_TURN timer busy :: script =>
      let '(n, es) := ns_es_dispatch_run es timer busy in
      let '(l, es, p) := play es p script in (option_list n ++ l, es, p)
  | ES_RETURN :: script => play (ns_es_dispatch_return es) p script
  end.
End Play.

Definition bytes_of (s : es_step) : bytes := match s with ES_WRITE b => b | _ => [] end.
Definition written (script : list es_step) : bytes := concat (map bytes_of script).
Definition not_busy (s : es_step) : Prop := match s with ES_TURN _ busy => busy = false | _ => True end.

(** ** The specification: a mailbox of 256 places

    The notices waiting as idle sources and as timers, whether one is being
    delivered, those delivered and those dropped. *)
Record mailbox := { m_idle : list notice; m_timers : list notice; m_running : bool;
                    m_delivered : list notice; m_dropped : list notice }.

(** [out]: the messages whose text is complete with this step. *)
Definition mail (x : mailbox) (s : es_step) (out : list notice) : mailbox :=
  let '(Build_mailbox i t r de dr) := x in
  let start n i t busy :=
    if busy : bool then Build_mailbox i (t ++ [n]) false de dr else Build_mailbox i t true (de ++ [n]) dr in
  match s with
  | ES_WRITE _ =>
      let room := 256 - (length i + length t + if r then 1 else 0) in
      Build_mailbox (i ++ take room out) t r de (dr ++ drop room out)
  | ES_TURN timer busy =>
      if r then x
      else match timer with
           | None => match i with n :: i => start n i t busy | [] => x end
           | Some k => match t !! k with Some n => start n i (delete k t) busy | None => x end
           end
  | ES_RETURN => Build_mailbox i t false de dr
  end.
Fixpoint mail_all (x : mailbox) (script : list es_step) (outs : list (list notice)) : mailbox :=
  match script, outs with
  | s :: script, out :: outs => mail_all (mail x s out) script outs
  | _, _ => x
  end.

Definition box_of (es : ns_es) : mailbox :=
  Build_mailbox (es_queue es) (es_timers es) (es_running es) [] [].

Section Delivery.
Context {G : GLib}.

(** What was delivered and dropped before is kept. *)
Definition after_log (d k : list notice) (x : mailbox) : mailbox :=
  Build_mailbox (m_idle x) (m_timers x) (m_running x) (d ++ m_delivered x) (k ++ m_dropped x).

Lemma after_log_box es x :
  x = after_log (m_delivered x) (m_dropped x) (box_of (es_set_sources es (m_idle x) (m_timers x) (m_running x))).
Proof. destruct x. unfold after_log, box_of. cbn. by rewrite !app_nil_r. Qed.

Lemma mail_log x d k s out : mail (after_log d k x) s out = after_log d k (mail x s out).
Proof.
  destruct x as [i t r de dr], s as [b|[n|] busy|]; cbn; unfold after_log; cbn; rewrite ?app_assoc; try done; destruct r; cbn; try done.
  - destruct (t !! n); [|done]. destruct busy; cbn; by rewrite ?app_assoc.
  - destruct i; [done|]. destruct busy; cbn; by rewrite ?app_assoc.
Qed.

Lemma mail_all_log script outs x d k :
  mail_all (after_log d k x) script outs = after_log d k (mail_all x script outs).
Proof.
  revert outs x. induction script as [|s script IH]; intros [|out outs] x; cbn [mail_all]; try done.
  by rewrite mail_log, IH.
Qed.

(** The messages each step of a script completes. *)
Fixpoint outs_of (id : bytes) (ms : Z) (p : ns_es_parse) (script : list es_step) : list (list notice) :=
  match script with
  | [] => []
  | s :: script =>
      let '(id', ms', p') := fed id ms p (bytes_of s) in
      handed id ms p (bytes_of s) :: outs_of id' ms' p' script
  end.

Lemma fed_nil id ms p : fed id ms p [] = (id, ms, p).
Proof. done. Qed.

Lemma outs_written script id ms p :
  p_fatal (snd (ns_es_feed (es_at id ms) p (written script))) = false ->
  length (outs_of id ms p script) = length script /\
  forall k, concat (take k (outs_of id ms p script)) = handed id ms p (written (take k script)).
Proof.
  revert id ms p. induction script as [|s script IH]; intros id ms p Hf.
  { split; [done|]. intros k. by destruct k. }
  change (written (s :: script)) with (bytes_of s ++ written script) in Hf.
  pose proof (handed_app id ms p _ _ Hf) as A. cbn [outs_of length].
  destruct (fed id ms p (bytes_of s)) as [[id' ms'] p'] eqn:F. destruct A as (_ & _ & A).
  destruct (IH id' ms' p' A) as [L C]. split; [cbn; lia|]. intros [|k]; [done|]. cbn [take concat]. rewrite C.
  change (written (s :: take k script)) with (bytes_of s ++ written (take k script)).
  assert (Hk : p_fatal (snd (ns_es_feed (es_at id ms) p (bytes_of s ++ written (take k script)))) = false).
  { replace (written script) with (written (take k script) ++ written (drop k script)) in Hf
      by (unfold written; by rewrite <- concat_app, <- map_app, firstn_skipn).
    rewrite app_assoc in Hf. by destruct (feed_app _ _ _ _ Hf). }
  pose proof (handed_app id ms p _ _ Hk) as B. rewrite F in B. by destruct B as (-> & _).
Qed.

Lemma feed_handed_at b p es :
  let id := es_last_event_id es in let ms := es_reconnect_ms es in
  p_fatal (snd (ns_es_feed (es_at id ms) p b)) = false ->
  let '(id', ms', p') := fed id ms p b in
  ns_es_feed es p b = (fold_left ns_es_post (handed id ms p b) (sources_of es id' ms'), p').
Proof.
  intros id ms Hf. destruct (feed_posts b p _ Hf) as (i & m & q & Y). unfold fed.
  rewrite (Y (es_at id ms) eq_refl eq_refl), (Y es eq_refl eq_refl). cbv beta iota.
  change (es_last_event_id (es_at id ms)) with id. change (es_reconnect_ms (es_at id ms)) with ms.
  by destruct (posts_fields (handed id ms p b) (sources_of (es_at id ms) i m)) as (-> & -> & _).
Qed.

(** One step of a script. *)
Lemma play_step s script es p :
  es_exit_requested es = false -> es_detached es = false -> (zlen (bytes_of s) <= G_MAXSIZE)%Z ->
  let id := es_last_event_id es in let ms := es_reconnect_ms es in
  p_fatal (snd (ns_es_feed (es_at id ms) p (bytes_of s))) = false ->
  let x := mail (box_of es) s (handed id ms p (bytes_of s)) in
  let '(id', ms', p') := fed id ms p (bytes_of s) in
  let es1 := es_set_sources (sources_of es id' ms') (m_idle x) (m_timers x) (m_running x) in
  play es p (s :: script) = let '(l, es2, p2) := play es1 p' script in (m_delivered x ++ l, es2, p2).
Proof.
  intros Hx Hd Hz id ms Hf x. destruct s as [b|timer busy|]; cbn [bytes_of] in *.
  - pose proof (feed_handed_at b p es Hf) as E. cbv zeta in E. fold id ms in E.
    destruct (fed id ms p b) as [[id1 ms1] p1]. cbn [play]. unfold ns_es_write_cb. rewrite Hx. cbn [orb].
    assert (p_fatal p = false) as ->.
    { pose proof (feed_keeps (es_at id ms) p b) as K. destruct (ns_es_feed (es_at id ms) p b). cbn [snd] in Hf.
      destruct K as [_ K]. destruct (p_fatal p); [by rewrite K in Hf|done]. }
    change (negb (1 =? 0)%Z) with true. cbn [andb]. change (G_MAXSIZE / 1)%Z with G_MAXSIZE.
    destruct (Z.ltb_spec G_MAXSIZE (zlen b)); [lia|]. rewrite E, Z.mul_1_l, Z.eqb_refl.
    rewrite posts_queue by done. cbv zeta.
    match goal with |- play ?a _ _ = ?r =>
      change r with (let '(l, es2, p2) := play a p1 script in ([] ++ l, es2, p2)) end.
    by destruct (play _ p1 script) as [[l es2] p2].
  - rewrite fed_nil. cbv zeta. assert (E : sources_of es id ms = es) by by apply sources_same. rewrite E.
    cbn [play]. unfold ns_es_dispatch_run, x. cbn [mail box_of].
    destruct es as [lid rms ex det q t r]. cbn in Hd, Hx |- *. subst.
    destruct r; cbn; [by destruct (play _ p script) as [[l es2] p2]|].
    destruct timer as [k|]; [destruct (t !! k)|destruct q]; cbn; try destruct busy; cbn;
      by destruct (play _ p script) as [[l es2] p2].
  - rewrite fed_nil. cbv zeta. assert (E : sources_of es id ms = es) by by apply sources_same. rewrite E.
    cbn [play]. unfold x, ns_es_dispatch_return. cbn. by destruct (play _ p script) as [[l es2] p2].
Qed.

(** The source, while a script is played, is the mailbox it specifies. *)
Lemma play_mail script es p :
  es_exit_requested es = false -> es_detached es = false ->
  Forall (fun s => zlen (bytes_of s) <= G_MAXSIZE)%Z script ->
  let id := es_last_event_id es in let ms := es_reconnect_ms es in
  p_fatal (snd (ns_es_feed (es_at id ms) p (written script))) = false ->
  let x := mail_all (box_of es) script (outs_of id ms p script) in
  let '(id', ms', p') := fed id ms p (written script) in
  play es p script =
    (m_delivered x, es_set_sources (sources_of es id' ms') (m_idle x) (m_timers x) (m_running x), p').
Proof.
  revert es p. induction script as [|s script IH]; intros es p Hx Hd Hz id ms Hf x.
  { cbn. f_equal. f_equal. by destruct es. }
  apply Forall_cons in Hz as [Hb Hz]. change (written (s :: script)) with (bytes_of s ++ written script) in *.
  pose proof (handed_app id ms p _ _ Hf) as A. unfold x. cbn [outs_of].
  assert (Hf1 : p_fatal (snd (ns_es_feed (es_at id ms) p (bytes_of s))) = false) by by destruct (feed_app _ _ _ _ Hf).
  destruct (fed id ms p (bytes_of s)) as [[id1 ms1] p1] eqn:F. destruct A as (_ & -> & A).
  set (out := handed id ms p (bytes_of s)) in *. cbn [mail_all].
  set (es1 := es_set_sources (sources_of es id1 ms1) (m_idle (mail (box_of es) s out))
                (m_timers (mail (box_of es) s out)) (m_running (mail (box_of es) s out))).
  specialize (IH es1 p1 Hx Hd Hz A). cbv zeta in IH.
  change (es_last_event_id es1) with id1 in IH. change (es_reconnect_ms es1) with ms1 in IH.
  assert (M : mail (box_of es) s out =
    after_log (m_delivered (mail (box_of es) s out)) (m_dropped (mail (box_of es) s out)) (box_of es1)).
  { apply after_log_box. }
  rewrite M, mail_all_log. destruct (fed id1 ms1 p1 (written script)) as [[id' ms'] p'].
  assert (S : play es p (s :: script) =
    let '(l, es2, p2) := play es1 p1 script in (m_delivered (mail (box_of es) s out) ++ l, es2, p2)).
  { pose proof (play_step s script es p Hx Hd Hb Hf1) as S. cbv zeta in S. fold id ms in S. rewrite F in S. exact S. }
  rewrite S, IH. unfold after_log. cbn [m_delivered m_idle m_timers m_running]. f_equal.
Qed.

(** ** The mailbox keeps its books *)

Definition m_held (x : mailbox) : list notice := m_delivered x ++ m_timers x ++ m_idle x ++ m_dropped x.
Definition m_pending (x : mailbox) : nat :=
  length (m_idle x) + length (m_timers x) + if m_running x then 1 else 0.

Lemma mail_held x s out :
  match s with ES_WRITE _ => True | _ => out = [] end -> m_held (mail x s out) ≡ₚ m_held x ++ out.
Proof.
  destruct x as [i t r de dr], s as [b|[k|] busy|]; unfold m_held; cbn; intros Ho.
  - rewrite <- !app_assoc. do 2 apply Permutation_app_head.
    rewrite <- (firstn_skipn (256 - (length i + length t + (if r then 1 else 0))) out) at 3.
    solve_Permutation.
  - subst out. rewrite app_nil_r. destruct r; [done|]. destruct (t !! k) eqn:E; [|done].
    apply delete_Permutation in E. generalize dependent (delete k t). intros t' E. destruct busy; cbn; rewrite E; solve_Permutation.
  - subst out. rewrite app_nil_r. destruct r; [done|]. destruct i as [|n i]; [done|]. destruct busy; cbn; solve_Permutation.
  - subst out. by rewrite app_nil_r.
Qed.

Lemma outs_silent script id ms p :
  Forall2 (fun s out => match s with ES_WRITE _ => True | _ => out = [] end) script (outs_of id ms p script).
Proof.
  revert id ms p. induction script as [|s script IH]; intros id ms p; cbn [outs_of]; [constructor|].
  destruct (fed id ms p (bytes_of s)) as [[id' ms'] p']. constructor; [by destruct s|apply IH].
Qed.

Lemma mail_all_held script outs x :
  Forall2 (fun s out => match s with ES_WRITE _ => True | _ => out = [] end) script outs ->
  m_held (mail_all x script outs) ≡ₚ m_held x ++ concat outs.
Proof.
  intros H. revert x. induction H as [|s out script outs Ho _ IH]; intros x; cbn [mail_all concat]; [by rewrite app_nil_r|].
  by rewrite IH, mail_held, app_assoc.
Qed.

(** With an idle page nothing is put off. *)
Lemma mail_order x s out :
  not_busy s -> m_timers x = [] -> (match s with ES_WRITE _ => True | _ => out = [] end) ->
  let y := mail x s out in
  m_timers y = [] /\ (m_dropped y = [] -> m_dropped x = [] /\ m_delivered y ++ m_idle y = m_delivered x ++ m_idle x ++ out).
Proof.
  destruct x as [i t r de dr], s as [b|[k|] busy|]; cbn; intros Hb -> Ho; subst; cbn.
  - split; [done|]. intros [-> E]%app_nil. split; [done|]. f_equal. f_equal.
    rewrite <- (firstn_skipn (256 - (length i + 0 + (if r then 1 else 0))) out) at 2. by rewrite E, app_nil_r.
  - destruct r; cbn; (split; [done|]); by rewrite app_nil_r.
  - destruct r; cbn; [by rewrite app_nil_r|]. destruct i; cbn; rewrite ?app_nil_r, <- ?app_assoc; done.
  - by rewrite app_nil_r.
Qed.

Lemma mail_all_order script outs x :
  Forall not_busy script -> m_timers x = [] ->
  Forall2 (fun s out => match s with ES_WRITE _ => True | _ => out = [] end) script outs ->
  let y := mail_all x script outs in
  m_dropped y = [] -> m_dropped x = [] /\ m_delivered y ++ m_idle y = m_delivered x ++ m_idle x ++ concat outs.
Proof.
  intros Hb Ht H. revert x Hb Ht. induction H as [|s out script outs Ho _ IH]; intros x Hb Ht; cbn [mail_all concat].
  - intros Hd. by rewrite app_nil_r.
  - apply Forall_cons in Hb as [Hs Hb]. destruct (mail_order x s out Hs Ht Ho) as [Ht' Hm].
    intros Hd. destruct (IH _ Hb Ht' Hd) as [Hd' ->]. destruct (Hm Hd') as [Hd0 E]. split; [done|].
    by rewrite !app_assoc, E, !app_assoc.
Qed.

(** Nothing is dropped while there is room for all. *)
Lemma mail_all_room script outs x :
  Forall2 (fun s out => match s with ES_WRITE _ => True | _ => out = [] end) script outs ->
  m_pending x + length (concat outs) <= 256 -> m_dropped (mail_all x script outs) = m_dropped x.
Proof.
  intros H. revert x. induction H as [|s out script outs Ho _ IH]; intros x Hp; cbn [mail_all concat] in *; [done|].
  rewrite length_app in Hp. assert (D : m_dropped (mail x s out) = m_dropped x /\ m_pending (mail x s out) <= m_pending x + length out).
  { destruct x as [i t r de dr], s as [b|[k|] busy|]; unfold m_pending in *; cbn in *.
    - rewrite skipn_all2 by lia. rewrite app_nil_r, length_app, length_take. split; [done|lia].
    - destruct r; [split; [done|cbn; lia]|]. destruct (t !! k) eqn:E; [|split; [done|cbn; lia]].
      assert (L : length t = S (length (delete k t))).
      { apply lookup_lt_Some in E as L. rewrite length_delete by by eexists. lia. }
      destruct busy; (split; [done|]); cbn; rewrite ?length_app; cbn; lia.
    - destruct r; [split; [done|cbn; lia]|]. destruct i; [split; [done|cbn; lia]|]. destruct busy; (split; [done|]); cbn in *; rewrite ?length_app; cbn; lia.
    - split; [done|]. destruct r; lia. }
  destruct D as [<- D]. apply IH. lia.
Qed.
End Delivery.

Lemma handed_prefix {G : GLib} id ms p a b :
  p_fatal (snd (ns_es_feed (es_at id ms) p (a ++ b))) = false -> handed id ms p a `prefix_of` handed id ms p (a ++ b).
Proof.
  intros Hf. pose proof (handed_app id ms p a b Hf) as A. destruct (fed id ms p a) as [[i m] q].
  destruct A as (-> & _). by eexists.
Qed.

Lemma stream_text_take eol evs j : stream_text eol evs = stream_text eol (take j evs) ++ stream_text eol (drop j evs).
Proof. unfold stream_text. by rewrite <- lines_text_app, <- concat_app, <- map_app, firstn_skipn. Qed.

(** C37. An event stream reaches the main loop through a mailbox of 256 places.
    Whatever line ending the server uses, however the network cuts the text into
    writes (even between a carriage return and its line feed), and however the main
    loop's turns lie between them: each event makes one message, with its type, its
    lines of data joined and the id in force, in the order of the stream, as soon
    as its empty line has begun to arrive and not before; a message that finds 256
    notices pending is dropped, and every other one is delivered at most once or
    still waits. Nothing is dropped while all fit, and then, as long as no turn
    finds the page busy, the messages are delivered in order (a busy page reorders
    them: [busy_reorders_messages]). The source keeps the last id. *)
Theorem event_stream_delivered (G : GLib) es evs eol script st op stream :
  eol_ok eol -> Forall event_ok evs ->
  es_exit_requested es = false -> es_detached es = false ->
  written script = stream_text eol evs -> Forall (fun s => zlen (bytes_of s) <= G_MAXSIZE)%Z script ->
  let msgs := messages (es_last_event_id es) in
  exists outs lwc, length outs = length script /\ concat outs = msgs evs /\
    (forall k j, let w := written (take k script) in
       (stream_text eol (take j evs) `prefix_of` w -> msgs (take j evs) `prefix_of` concat (take k outs)) /\
       (w `prefix_of` stream_text eol (take j evs) -> concat (take k outs) `prefix_of` msgs (take j evs))) /\
    let x := mail_all (box_of es) script outs in
    play es (mk st op stream [] false [] None) script =
      (m_delivered x,
       es_set_sources (es_set_id es (fold_left event_id evs (es_last_event_id es))) (m_idle x) (m_timers x) (m_running x),
       mk st op stream [] lwc [] None) /\
    m_delivered x ++ m_timers x ++ m_idle x ++ m_dropped x ≡ₚ es_timers es ++ es_queue es ++ msgs evs /\
    (es_pending es + length evs <= 256 -> m_dropped x = []) /\
    (Forall not_busy script -> es_timers es = [] -> m_dropped x = [] ->
       m_delivered x ++ m_idle x = es_queue es ++ msgs evs).
Proof.
  intros He Hok Hx Hd Hw Hz msgs. set (id := es_last_event_id es) in *. set (ms := es_reconnect_ms es).
  set (p := mk st op stream [] false [] None).
  assert (E : forall l, Forall event_ok l -> exists lwc,
    p_fatal (snd (ns_es_feed (es_at id ms) p (stream_text eol l))) = false /\
    handed id ms p (stream_text eol l) = msgs l /\
    fed id ms p (stream_text eol l) = (fold_left event_id l id, ms, mk st op stream [] lwc [] None)).
  { intros l Hl. destruct (handed_events st op stream eol l He Hl false id ms) as (w & _ & H); [done|]. by exists w. }
  destruct (E evs Hok) as (lwc & F & H & D). rewrite <- Hw in F, H, D.
  destruct (outs_written script id ms p F) as [L C]. pose proof (outs_silent script id ms p) as Q.
  assert (Ca : concat (outs_of id ms p script) = msgs evs).
  { specialize (C (length script)). rewrite !firstn_all2 in C by lia. by rewrite C. }
  assert (Hk : forall k, exists r, written script = written (take k script) ++ r).
  { intros k. exists (written (drop k script)). unfold written. by rewrite <- concat_app, <- map_app, firstn_skipn. }
  exists (outs_of id ms p script), lwc. split; [done|]. split; [done|]. split; [|split; [|split; [|split]]].
  - intros k j w. destruct (E (take j evs)) as (_ & Fj & Hj & _); [by apply Forall_take|]. rewrite C, <- Hj. fold w. split.
    + intros [r Er]. destruct (Hk k) as [r' Er']. fold w in Er'. rewrite Er.
      apply handed_prefix. rewrite Er', Er in F. by destruct (feed_app _ _ _ _ F).
    + intros [r Er]. rewrite Er in *. by apply handed_prefix.
  - pose proof (play_mail script es p Hx Hd Hz F) as P. cbv zeta in P. fold id ms in P. rewrite D in P. exact P.
  - pose proof (mail_all_held script (outs_of id ms p script) (box_of es) Q) as P. rewrite Ca in P.
    unfold m_held in P. rewrite P. cbn [box_of m_delivered m_timers m_idle m_dropped app]. by rewrite app_nil_r, app_assoc.
  - intros Hp. rewrite (mail_all_room _ _ _ Q); [done|]. rewrite Ca.
    assert (length (msgs evs) = length evs) as ->; [|exact Hp].
    unfold msgs. clear. generalize id. induction evs as [|e evs IH]; intros i; [done|]. cbn [messages length]. by rewrite IH.
  - intros Hb Ht Hdr. destruct (mail_all_order script _ (box_of es) Hb Ht Q Hdr) as [_ ->]. by rewrite Ca.
Qed.

Definition demo_events : list sse_event :=
  [{| ev_type := None; ev_id := Some ($"7"); ev_data := [$"one"; []; $"two: three"] |};
   {| ev_type := Some ($"tick"); ev_id := None; ev_data := [$" 1"] |}].
Definition demo_notices : list notice :=
  [NOTE_MESSAGE ($"message") ($"one" ++ [nl; nl] ++ $"two: three") ($"7");
   NOTE_MESSAGE ($"tick") ($" 1") ($"7")].
Definition demo_script (busy : bool) : list es_step :=
  let text := stream_text [cr; nl] demo_events in
  [ES_WRITE (take 50 text); ES_TURN None busy; ES_RETURN; ES_WRITE (drop 50 text); ES_TURN None false; ES_RETURN;
   ES_TURN (Some 0) false].

Lemma event_stream_delivered_witness :
  exists x lwc,
    play (G := glib_ref) (es_new None) parse0 (demo_script false) =
      (m_delivered x, es_set_sources (es_set_id (es_new None) ($"7")) (m_idle x) (m_timers x) (m_running x),
       mk 0 false false [] lwc [] None) /\
    m_delivered x ++ m_idle x = demo_notices.
Proof.
  destruct (event_stream_delivered glib_ref (es_new None) demo_events [cr; nl] (demo_script false) 0 false false)
    as (outs & lwc & _ & _ & _ & P & _ & Hd & Ho).
  - right. by right.
  - repeat apply Forall_cons_2; try apply Forall_nil_2; (split; [discriminate|split; [|split]]);
      try (vm_compute; discriminate); try done;
      repeat apply Forall_cons_2; try apply Forall_nil_2; (split; [reflexivity|vm_compute; discriminate]).
  - done.
  - done.
  - vm_compute. reflexivity.
  - repeat apply Forall_cons_2; try apply Forall_nil_2; vm_compute; discriminate.
  - eexists _, lwc. split; [exact P|]. rewrite Ho; [reflexivity| |done|].
    + repeat apply Forall_cons_2; try apply Forall_nil_2; done.
    + apply Hd. apply Nat.leb_le. vm_compute. reflexivity.
Defined.

(** When a turn finds the page busy, its message goes to a timer and the next one
    overtakes it. *)
Example busy_reorders_messages :
  (play (G := glib_ref) (es_new None) parse0 (demo_script true)).1.1 = rev demo_notices.
Proof. vm_compute. reflexivity. Qed.
