(* ===== verification/SafeBrowsing.v ===== *)
(** * The list of dangerous hosts ([src/safebrowsing.c])

    The local list holds SHA-256 digests of host names; a host is blocked when it
    or a parent domain of it is listed and the user has not let it through. The
    digest, the files and the environment are parameters. *)

From S2P Require Import Prelude CStr GLib.

Section SafeBrowsing.
Context {G : GLib}.
(** [EVP_Digest] with SHA-256; [None]: the library failed. *)
Context (evp_sha256 : bytes -> option bytes).

Definition hex2 (c : ascii) : bytes := pad0 2 (digits 16 (code c)).

Definition host_sha256_hex (host : option bytes) : option bytes :=
  match host with
  | None | Some [] => None
  | Some h =>
      match evp_sha256 (g_ascii_strdown h) with
      | None => None
      | Some digest => Some (concat (map hex2 digest))
      end
  end.

Record sb_state := { g_loaded : bool; g_blocked : gset bytes; g_allow : gset bytes }.
Definition sb_init : sb_state := {| g_loaded := false; g_blocked := ∅; g_allow := ∅ |}.

Record sb_env := {
  e_contents : bytes -> option bytes;     (* g_file_get_contents *)
  e_exists : bytes -> bool;               (* g_file_test *)
  e_build : list bytes -> bytes;          (* g_build_filename *)
  e_override : option bytes;              (* NS_SAFEBROWSING_LIST *)
  e_config_dir : bytes;
  e_exec_dir : option bytes;
}.

Definition load_line (blocked : gset bytes) (raw : bytes) : gset bytes :=
  match g_strstrip raw with
  | [] => blocked
  | (c :: _) as line =>
      if c =c "#" then blocked
      else
        let word := take_while (fun d => negb (g_ascii_isspace d)) line in
        if 16 <=? length word then {[ g_ascii_strdown word ]} ∪ blocked else blocked
  end.

Definition load_file (env : sb_env) (blocked : gset bytes) (path : bytes) : gset bytes :=
  match e_contents env path with
  | None => blocked
  | Some contents => fold_left load_line (g_strsplit (cstr_of contents) [nl]) blocked
  end.

Definition bundled_paths : list bytes :=
  [$"../Resources/share/northstar/safebrowsing.list"; $"../share/northstar/safebrowsing.list";
   $"share/northstar/safebrowsing.list"; $"data/safebrowsing.list"; $"../data/safebrowsing.list";
   $"../../data/safebrowsing.list"; $"../../../data/safebrowsing.list"].

(** The first bundled list there is. *)
Definition load_bundled (env : sb_env) (blocked : gset bytes) : gset bytes :=
  let here := match e_exec_dir env with
              | Some dir => find (e_exists env) (map (fun r => e_build env [dir; r]) bundled_paths)
              | None => None
              end in
  match here with
  | Some path => load_file env blocked path
  | None =>
      if e_exists env ($"data/safebrowsing.list")
      then load_file env blocked ($"data/safebrowsing.list") else blocked
  end.

Definition ensure_loaded (env : sb_env) (s : sb_state) : sb_state :=
  if g_loaded s then s
  else
    let blocked :=
      match e_override env with
      | Some ((_ :: _) as path) => load_file env ∅ path
      | _ =>
          let user := e_build env [e_config_dir env; $"northstar"; $"safebrowsing.list"] in
          load_bundled env (load_file env ∅ user)
      end in
    {| g_loaded := true; g_blocked := blocked; g_allow := ∅ |}.

Definition ns_safebrowsing_allow_host (env : sb_env) (s : sb_state) (host : option bytes) : sb_state :=
  match host with
  | None | Some [] => s
  | Some h =>
      let s := ensure_loaded env s in
      {| g_loaded := g_loaded s; g_blocked := g_blocked s;
         g_allow := {[ g_ascii_strdown h ]} ∪ g_allow s |}
  end.

Definition trim_dots (s : bytes) : bytes := rev (drop_while (fun c => c =c ".") (rev s)).

(** The loop over the host and its parent domains. *)
Fixpoint blocked_scan (fuel : nat) (blocked : gset bytes) (h : bytes) : bool :=
  match fuel with
  | O => false
  | S fuel' =>
      match strchr h "." with
      | None => false
      | Some r =>
          match host_sha256_hex (Some h) with
          | Some hex => if bool_decide (hex ∈ blocked) then true
                        else blocked_scan fuel' blocked (drop 1 r)
          | None => blocked_scan fuel' blocked (drop 1 r)
          end
      end
  end.

Definition ns_safebrowsing_blocked (env : sb_env) (s : sb_state) (host : option bytes) : bool * sb_state :=
  match host with
  | None | Some [] => (false, s)
  | Some h =>
      let s := ensure_loaded env s in
      if bool_decide (g_blocked s = ∅) then (false, s)
      else
        let low := trim_dots (g_ascii_strdown h) in
        if bool_decide (low ∈ g_allow s) then (false, s)
        else (blocked_scan (S (length low)) (g_blocked s) low, s)
  end.

(** ** What the verdict means *)

(** [d] is [h] or a parent domain of it, and has more than one label. *)
Definition domain_of (d h : bytes) : Prop :=
  (d = h \/ exists a, h = a ++ "."%char :: d) /\ In "."%char d.

Definition listed (blocked : gset bytes) (d : bytes) : Prop :=
  exists digest, evp_sha256 (g_ascii_strdown d) = Some digest /\ concat (map hex2 digest) ∈ blocked.

End SafeBrowsing.

Lemma blocked_scan_spec evp fuel blocked h :
  length h < fuel ->
  blocked_scan (G := glib_ref) evp fuel blocked h = true <->
  exists d, domain_of d h /\ listed (G := glib_ref) evp blocked d.
Proof.
  revert h. induction fuel as [|fuel IH]; intros h Hf; [lia|]. cbn [blocked_scan].
  destruct (strchr h ".") as [r|] eqn:E.
  - apply strchr_Some in E as (t & -> & E). cbn [drop]. rewrite drop_0.
    assert (Hin : In "."%char h) by (rewrite E; apply in_app_iff; right; by left).
    assert (L : length t < fuel).
    { apply (f_equal length) in E. rewrite length_app in E. cbn [length] in E. lia. }
    assert (P : forall d, domain_of d h <-> (d = h \/ domain_of d t)).
    { intros d. unfold domain_of. split.
      - intros [[->|[a Ha]] Hd]; [by left|right]. split; [|done].
        pose proof (take_while_forall (fun c => negb (c =c ".")) h) as Hb.
        fold (before h ".") in Hb. rewrite E in Ha. revert Ha Hb. generalize (before h ".") as b.
        intros b. revert a. induction b as [|c b IHb]; intros [|x a] Ha Hb; cbn in Ha.
        + injection Ha as ->. by left.
        + injection Ha as _ ->. right. by exists a.
        + injection Ha as -> _. done.
        + injection Ha as -> Ha. cbn [forallb] in Hb. apply andb_prop in Hb as [_ Hb].
          by apply (IHb a).
      - intros [->|[[->|[a ->]] Hd]]; [by split; [left|]| |]; (split; [right|done]).
        + by exists (before h ".").
        + exists (before h "." ++ "."%char :: a). by rewrite <- app_assoc, <- app_comm_cons, <- E. }
    assert (R : blocked_scan (G := glib_ref) evp fuel blocked t = true <->
      exists d, domain_of d t /\ listed (G := glib_ref) evp blocked d) by by apply IH.
    assert (H : host_sha256_hex (G := glib_ref) evp (Some h)
      = option_map (fun g => concat (map hex2 g)) (evp (g_ascii_strdown (GLib := glib_ref) h))).
    { destruct h as [|c h]; [done|]. cbn [host_sha256_hex]. by destruct (evp _). }
    rewrite H. unfold listed in *.
    destruct (evp (g_ascii_strdown h)) as [g|] eqn:V; cbn [option_map].
    + case_bool_decide as B.
      * split; [intros _|done]. exists h. split; [by apply P; left|]. by exists g.
      * rewrite R. split; intros (d & Hd & Hl); exists d; (split; [|done]).
        -- apply P. by right.
        -- apply P in Hd as [->|Hd]; [|done]. destruct Hl as (g' & V' & Hl).
           rewrite V in V'. by injection V' as <-.
    + rewrite R. split; intros (d & Hd & Hl); exists d; (split; [|done]).
      -- apply P. by right.
      -- apply P in Hd as [->|Hd]; [|done]. destruct Hl as (g' & V' & Hl). by rewrite V in V'.
  - split; [done|]. intros (d & [Hd Hin] & _).
    apply strchr_None in E. pose proof (take_while_forall (fun c => negb (c =c ".")) h) as Hb.
    fold (before h ".") in Hb. rewrite E, forallb_forall in Hb.
    assert (Hh : In "."%char h).
    { destruct Hd as [->|[a ->]]; [done|]. apply in_app_iff. right. by left. }
    by specialize (Hb _ Hh).
Qed.

(** A host is blocked exactly when the user has not let it through and its own
    name or that of a parent domain with at least two labels is on the list (by
    digest, whatever the case of the name and without its trailing dots). Letting
    a host through unblocks that host, and changes the verdict on no other. *)
Theorem safebrowsing_verdict (G : GLib) (GS : GLibSpec G) evp env s host other :
  host <> [] -> other <> [] ->
  let low := trim_dots (g_ascii_strdown host) in
  let olow := trim_dots (g_ascii_strdown other) in
  let s' := ns_safebrowsing_allow_host env s (Some host) in
  (fst (ns_safebrowsing_blocked evp env s (Some host)) = true <->
   ~ low ∈ g_allow (ensure_loaded env s) /\
   exists d, domain_of d low /\ listed evp (g_blocked (ensure_loaded env s)) d) /\
  (low = g_ascii_strdown host -> fst (ns_safebrowsing_blocked evp env s' (Some host)) = false) /\
  (olow <> g_ascii_strdown host ->
   fst (ns_safebrowsing_blocked evp env s' (Some other)) = fst (ns_safebrowsing_blocked evp env s (Some other))).
Proof.
  intros Hh Ho low olow s'. glib.
  assert (E : ensure_loaded (G := glib_ref) env s' = s').
  { unfold s'. destruct host; [done|]. unfold ns_safebrowsing_allow_host, ensure_loaded.
    by destruct (g_loaded s) eqn:L; cbn; rewrite ?L. }
  assert (B : g_blocked s' = g_blocked (ensure_loaded (G := glib_ref) env s)) by by destruct host.
  assert (A : g_allow s' = {[ g_ascii_strdown host ]} ∪ g_allow (ensure_loaded (G := glib_ref) env s))
    by by destruct host.
  split; [|split].
  - unfold ns_safebrowsing_blocked. destruct host as [|c0 h0]; [done|]. cbv zeta. fold low.
    case_bool_decide as Z; cbn [fst].
    + split; [done|]. intros (_ & d & _ & (g & _ & Hg)). rewrite Z in Hg. set_solver.
    + case_bool_decide as W; cbn [fst]; [split; [done|by intros [? _]]|].
      rewrite blocked_scan_spec by lia. tauto.
  - intros Hl. unfold ns_safebrowsing_blocked. destruct host as [|c0 h0] eqn:Eh; [done|].
    rewrite E. cbv zeta. fold low. case_bool_decide; [done|].
    rewrite bool_decide_eq_true_2; [done|]. rewrite A, Hl. set_solver.
  - intros Hl. unfold ns_safebrowsing_blocked. destruct other as [|c0 h0] eqn:Eo; [done|].
    rewrite E, B. cbv zeta. fold olow. case_bool_decide; [done|].
    assert (W : olow ∈ g_allow s' <-> olow ∈ g_allow (ensure_loaded (G := glib_ref) env s)) by set_solver.
    rewrite (bool_decide_ext _ _ W). by destruct (bool_decide _).
Qed.

Definition demo_env : sb_env :=
  {| e_contents p := if p =b $"list" then Some ($"# hosts" ++ [nl] ++ $"6576696C2e6578616d706c65 evil" ++ [nl]) else None;
     e_exists _ := false; e_build _ := []; e_override := Some ($"list");
     e_config_dir := []; e_exec_dir := None |}.
Lemma safebrowsing_verdict_witness :
  fst (ns_safebrowsing_blocked (G := glib_ref) (fun b => Some b) demo_env sb_init
    (Some ($"www.Evil.example."))) = true.
Proof.
  apply (safebrowsing_verdict glib_ref glib_ref_spec (fun b => Some b) demo_env sb_init
    ($"www.Evil.example.") ($"b.example")); [discriminate|discriminate|].
  split.
  - apply (bool_decide_unpack (~ _)). vm_compute. exact I.
  - exists ($"evil.example"). split.
    + split; [right; by exists ($"www")|]. do 4 right. by left.
    + exists ($"evil.example"). split; [reflexivity|]. apply (bool_decide_unpack _). vm_compute. exact I.
Defined.

(** A host name written with a trailing dot is not let through: it is looked up
    without the dot. *)
Example allow_trailing_dot :
  let host := Some ($"evil.example.") in
  fst (ns_safebrowsing_blocked (G := glib_ref) (fun b => Some b) demo_env
    (ns_safebrowsing_allow_host (G := glib_ref) demo_env sb_init host) host) = true.
Proof. vm_compute. reflexivity. Qed.
