(* ===== verification/DateTime.v ===== *)
(** * Civil dates (src/src/datetime.c)

    The day arithmetic and the readers of date and time strings the forms and
    the [Temporal] objects share: the number of a civil day since 1970-01-01,
    its inverse, month and ISO-week lengths, and the fixed-width readers.

    [int] is 32 and [long] 64 bits; the conversions to [unsigned] are written
    out with their wrap-around ([wrap_u 32]). Signed arithmetic is that of [Z],
    and [civil_no_overflow] gives the range in which it cannot leave its
    type. *)

From S2P Require Import Prelude CStr.
Open Scope Z_scope.

(** ** Days *)

Definition NS_DT_MAX_YEAR : Z := 275760.

Definition ns_dt_floormod (a b : Z) : Z :=
  let r := Z.rem a b in
  if negb (r =? 0) && negb (Bool.eqb (r <? 0) (b <? 0)) then r + b else r.

Definition ns_dt_days_from_civil (y m d : Z) : Z :=
  let yy := y - (if m <=? 2 then 1 else 0) in
  let era := Z.quot (if 0 <=? yy then yy else yy - 399) 400 in
  let yoe := wrap_u 32 (yy - era * 400) in
  let doy := wrap_u 32 (Z.quot (153 * (m + (if 2 <? m then -3 else 9)) + 2) 5 + d - 1) in
  let doe := wrap_u 32 (yoe * 365 + yoe / 4 - yoe / 100 + doy) in
  era * 146097 + doe - 719468.

Definition ns_dt_civil_from_days (z : Z) : Z * Z * Z :=
  let z := z + 719468 in
  let era := Z.quot (if 0 <=? z then z else z - 146096) 146097 in
  let doe := wrap_u 32 (z - era * 146097) in
  let yoe := wrap_u 32 (doe - doe / 1460 + doe / 36524 - doe / 146096) / 365 in
  let yy := wrap_s 32 (yoe + wrap_s 32 (era * 400)) in
  let doy := wrap_u 32 (doe - (365 * yoe + yoe / 4 - yoe / 100)) in
  let mp := (5 * doy + 2) / 153 in
  let dd := wrap_u 32 (doy - (153 * mp + 2) / 5 + 1) in
  let mm := wrap_u 32 (mp + (if mp <? 10 then 3 else -9)) in
  (yy + (if mm <=? 2 then 1 else 0), mm, dd).

Definition is_leap (y : Z) : bool :=
  (Z.rem y 4 =? 0) && (negb (Z.rem y 100 =? 0) || (Z.rem y 400 =? 0)).

Definition dim : list Z := [31;28;31;30;31;30;31;31;30;31;30;31].

Definition ns_dt_days_in_month (y m : Z) : Z :=
  if (m <? 1) || (12 <? m) then 0
  else if m =? 2 then (if is_leap y then 29 else 28)
  else nth (Z.to_nat (m - 1)) dim 0.

Definition ns_dt_iso_weeks_in_year (y : Z) : Z :=
  let p := Z.rem (y + Z.quot y 4 - Z.quot y 100 + Z.quot y 400) 7 in
  let py := y - 1 in
  let p1 := Z.rem (py + Z.quot py 4 - Z.quot py 100 + Z.quot py 400) 7 in
  if (p =? 4) || (p1 =? 3) then 53 else 52.

Definition ns_dt_iso_week1_monday (y : Z) : Z :=
  let jan4 := ns_dt_days_from_civil y 1 4 in
  jan4 - ns_dt_floormod (jan4 + 3) 7.

(** ** Readers *)

(** [ns_dt_rd_digits]: [min] to [max] digits; the position after them. *)
Fixpoint rd_digits_loop (s : bytes) (max : nat) (val cnt : Z) : Z * Z * bytes :=
  match max, s with
  | S max', c :: s' =>
      if is_digit c then rd_digits_loop s' max' (val * 10 + digit_val c) (cnt + 1)
      else (val, cnt, s)
  | _, _ => (val, cnt, s)
  end.

Definition ns_dt_rd_digits (p : bytes) (min : Z) (max : nat) : option (Z * bytes) :=
  let '(val, cnt, p) := rd_digits_loop p max 0 0 in
  if cnt <? min then None else Some (val, p).

Definition expect (c : ascii) (p : bytes) : option bytes :=
  match p with d :: p' => if d =c c then Some p' else None | [] => None end.

Definition ns_dt_rd_date (p : bytes) : option (Z * Z * Z * bytes) :=
  '(y, p) ← ns_dt_rd_digits p 4 9;
  p ← expect "-" p;
  '(m, p) ← ns_dt_rd_digits p 2 2;
  p ← expect "-" p;
  '(d, p) ← ns_dt_rd_digits p 2 2;
  if (y <? 1) || (NS_DT_MAX_YEAR <? y) || (m <? 1) || (12 <? m) || (d <? 1) ||
     (ns_dt_days_in_month y m <? d)
  then None else Some (y, m, d, p).

(** The fraction: up to three digits count, scaled to milliseconds; the rest
    is skipped. *)
Definition rd_fraction (p : bytes) : option (Z * bytes) :=
  let '(v, c, p) := rd_digits_loop p 3 0 0 in
  if c =? 0 then None
  else Some (v * 10 ^ (3 - c), drop_while is_digit p).

Definition ns_dt_rd_time (p : bytes) : option (Z * bytes) :=
  '(h, p) ← ns_dt_rd_digits p 2 2;
  p ← expect ":" p;
  '(mi, p) ← ns_dt_rd_digits p 2 2;
  '(se, frac, p) ←
    match expect ":" p with
    | None => Some (0, 0, p)
    | Some p =>
        '(se, p) ← ns_dt_rd_digits p 2 2;
        match expect "." p with
        | None => Some (se, 0, p)
        | Some p => '(frac, p) ← rd_fraction p; Some (se, frac, p)
        end
    end;
  if (23 <? h) || (59 <? mi) || (59 <? se) then None
  else Some (((h * 60 + mi) * 60 + se) * 1000 + frac, p).

Example days_epoch : ns_dt_days_from_civil 1970 1 1 = 0. Proof. reflexivity. Qed.
Example days_2000 : ns_dt_days_from_civil 2000 2 29 = 11016. Proof. reflexivity. Qed.
Example civil_2000 : ns_dt_civil_from_days 11016 = (2000, 2, 29). Proof. reflexivity. Qed.
Example civil_neg : ns_dt_civil_from_days (-719529) = (-1, 12, 31). Proof. reflexivity. Qed.

(** ** Valid dates and their order *)

Definition valid_date (y m d : Z) : Prop :=
  1 <= m <= 12 /\ 1 <= d <= ns_dt_days_in_month y m.

Lemma floormod_mod a b : 0 < b -> ns_dt_floormod a b = a mod b.
Proof.
  intros Hb. unfold ns_dt_floormod. pose proof (Z.quot_rem' a b) as E.
  assert (B : 0 <= Z.rem a b < b \/ - b < Z.rem a b <= 0).
  { destruct (Z.le_gt_cases 0 a); [left; apply Z.rem_bound_pos; lia|].
    right. pose proof (Z.rem_bound_pos (- a) b). rewrite Z.rem_opp_l in * by lia. lia. }
  revert E B. generalize (Z.quot a b) (Z.rem a b). intros q r E B.
  destruct (Z.eqb_spec r 0); destruct (Z.ltb_spec r 0); destruct (Z.ltb_spec b 0);
    cbn [negb andb Bool.eqb]; try lia;
    first [apply (Z.mod_unique a b q); nia | apply (Z.mod_unique a b (q - 1)); nia].
Qed.

(** The day of the year counted from 1 March, the month in that order, and the
    days of an era before a year of it. *)
Definition doy_of (mp d : Z) : Z := (153 * mp + 2) / 5 + d - 1.
Definition march (m : Z) : Z := if 2 <? m then m - 3 else m + 9.
Definition yoe_days (yoe : Z) : Z := yoe * 365 + yoe / 4 - yoe / 100.

Ltac zdiv := Z.to_euclidean_division_equations; lia.

(** A year of an era ends with 29 February. *)
Definition leap_end (yoe : Z) : Prop :=
  (yoe + 1) mod 4 = 0 /\ ((yoe + 1) mod 100 <> 0 \/ yoe = 399).

Definition in_year (yoe doy : Z) : Prop :=
  0 <= yoe < 400 /\ 0 <= doy < 366 /\ (doy = 365 -> leap_end yoe).

(** Cutting a day of an era into the year and the day of the year. *)
Lemma yoe_cut yoe doy :
  in_year yoe doy ->
  let doe := yoe_days yoe + doy in
  0 <= doe < 146097 /\ (doe - doe / 1460 + doe / 36524 - doe / 146096) / 365 = yoe.
Proof. unfold in_year, leap_end, yoe_days. cbv zeta. intros. split; zdiv. Qed.

Lemma doe_cut doe :
  0 <= doe < 146097 ->
  let yoe := (doe - doe / 1460 + doe / 36524 - doe / 146096) / 365 in
  in_year yoe (doe - yoe_days yoe).
Proof.
  unfold in_year, leap_end, yoe_days. cbv zeta. intros Hd.
  set (yoe := _ / 365). assert (E : yoe = (doe - doe / 1460 + doe / 36524 - doe / 146096) / 365) by done.
  clearbody yoe. split; [zdiv|]. split; [zdiv|]. intros ?. split; [zdiv|].
  destruct (Z.eq_dec ((yoe + 1) mod 100) 0); [right; zdiv|by left].
Qed.

Lemma quot_floor a b : 0 < b -> Z.quot (if 0 <=? a then a else a - (b - 1)) b = a / b.
Proof.
  intros Hb. destruct (Z.leb_spec 0 a); [by apply Z.quot_div_nonneg|].
  rewrite <- (Z.opp_involutive (a - (b - 1))), Z.quot_opp_l, Z.quot_div_nonneg by lia.
  apply (Z.div_unique_pos _ _ _ (a mod b)); [apply Z.mod_pos_bound; lia|].
  pose proof (Z.div_mod a b). pose proof (Z.mod_pos_bound a b).
  assert ((- (a - (b - 1))) / b = - (a / b)) as ->; [|lia].
  symmetry. apply (Z.div_unique_pos _ _ _ (b - 1 - a mod b)); lia.
Qed.

Lemma wrap_u_small w z : 0 <= z < 2 ^ w -> wrap_u w z = z.
Proof. unfold wrap_u. apply Z.mod_small. Qed.

Lemma wrap_s_small w z : 0 < w -> - 2 ^ (w - 1) <= z < 2 ^ (w - 1) -> wrap_s w z = z.
Proof.
  intros Hw Hz. unfold wrap_s.
  assert (2 ^ w = 2 * 2 ^ (w - 1)) by (rewrite <- Z.pow_succ_r by lia; f_equal; lia).
  rewrite Z.mod_small; lia.
Qed.

(** The year that starts in March, and its place in the era. *)
Definition shifted (y m : Z) : Z := if m <=? 2 then y - 1 else y.

Lemma leap_spec y : is_leap y = true <-> y mod 4 = 0 /\ (y mod 100 <> 0 \/ y mod 400 = 0).
Proof.
  unfold is_leap. rewrite andb_true_iff, orb_true_iff, negb_true_iff, !Z.eqb_eq, Z.eqb_neq.
  rewrite !Z.rem_mod_eq_0 by lia. done.
Qed.

Lemma dim_spec y m : 1 <= m <= 12 ->
  ns_dt_days_in_month y m =
  if m =? 2 then (if is_leap y then 29 else 28) else (153 * (march m + 1) + 2) / 5 - (153 * march m + 2) / 5.
Proof.
  intros Hm. assert (m = 1 \/ m = 2 \/ m = 3 \/ m = 4 \/ m = 5 \/ m = 6 \/ m = 7 \/ m = 8 \/ m = 9 \/
    m = 10 \/ m = 11 \/ m = 12) as C by lia.
  by repeat (destruct C as [-> | C]; [reflexivity|]); subst.
Qed.

(** A valid date is a place in an era. *)
Lemma valid_in_year y m d :
  valid_date y m d -> in_year (shifted y m mod 400) (doy_of (march m) d).
Proof.
  intros [Hm Hd]. rewrite dim_spec in Hd by done. unfold in_year, leap_end, doy_of, shifted, march in *.
  pose proof (Z.mod_pos_bound y 400). pose proof (Z.mod_pos_bound (y - 1) 400).
  pose proof (leap_spec y) as L.
  split; [destruct (m <=? 2); lia|].
  destruct (Z.eqb_spec m 2) as [->|H2]; cbn [Z.ltb Z.leb Z.compare Pos.compare Pos.compare_cont] in *.
  - destruct (is_leap y); [|split; zdiv]. destruct L as [L _]. specialize (L eq_refl).
    split; [zdiv|]. intros _. split; [zdiv|].
    destruct L as [_ [L|L]]; [left; zdiv|right; zdiv].
  - clear L. destruct (Z.ltb_spec 2 m); destruct (Z.leb_spec m 2); try lia; split; zdiv.
Qed.

(** Both functions through eras, years and days of the March year. *)
Lemma days_formula y m d :
  valid_date y m d ->
  ns_dt_days_from_civil y m d =
  shifted y m / 400 * 146097 + (yoe_days (shifted y m mod 400) + doy_of (march m) d) - 719468.
Proof.
  intros V. pose proof (valid_in_year y m d V) as I. destruct V as [Hm Hd].
  unfold ns_dt_days_from_civil.
  replace (y - (if m <=? 2 then 1 else 0)) with (shifted y m) by (unfold shifted; case_test; lia).
  replace (m + (if 2 <? m then -3 else 9)) with (march m) by (unfold march; case_test; lia).
  change 399 with (400 - 1). rewrite quot_floor by lia.
  replace (shifted y m - shifted y m / 400 * 400) with (shifted y m mod 400) by zdiv.
  rewrite Z.quot_div_nonneg by (unfold march; try case_test; lia).
  fold (doy_of (march m) d). fold (yoe_days (shifted y m mod 400)).
  pose proof (yoe_cut _ _ I). destruct I as (Hy & Hdoy & _).
  rewrite !wrap_u_small; try done; try lia.
  all: try rewrite !wrap_u_small; unfold yoe_days in *; try lia.
Qed.

Lemma civil_formula z y m d :
  valid_date y m d -> ns_dt_days_from_civil y m d = z -> - 2 ^ 31 + 800 <= y <= 2 ^ 31 - 800 ->
  ns_dt_civil_from_days z = (y, m, d).
Proof.
  intros V E Hy. pose proof (valid_in_year y m d V) as I.
  rewrite days_formula in E by done. pose proof (yoe_cut _ _ I) as [Hdoe Hyoe].
  set (doe := yoe_days _ + _) in *. set (yoe := shifted y m mod 400) in *.
  assert (Hdiv : shifted y m = shifted y m / 400 * 400 + yoe) by (unfold yoe; zdiv).
  assert (Hdoy : doe - (365 * yoe + yoe / 4 - yoe / 100) = doy_of (march m) d)
    by (unfold doe, yoe_days; lia).
  assert (Hmp : (5 * doy_of (march m) d + 2) / 153 = march m /\
                doy_of (march m) d - (153 * march m + 2) / 5 + 1 = d /\ 1 <= d <= 31 /\ 0 <= march m <= 11).
  { destruct V as [Hm Hd]. rewrite dim_spec in Hd by done. unfold doy_of, march in *.
    destruct (is_leap y), (Z.eqb_spec m 2) as [->|]; cbn [Z.ltb Z.compare Pos.compare Pos.compare_cont] in *;
      try (destruct (Z.ltb_spec 2 m)); repeat apply conj; zdiv. }
  destruct I as (Hye & Hdy & _). destruct Hmp as (Hmp & Hdd & Hd' & Hm'). destruct V as [Hm Hd].
  set (era := shifted y m / 400) in *.
  unfold ns_dt_civil_from_days. cbv zeta.
  change (z + 719468 - 146096) with (z + 719468 - (146097 - 1)). rewrite quot_floor by lia.
  replace ((z + 719468) / 146097) with era by zdiv.
  replace (z + 719468 - era * 146097) with doe by lia.
  rewrite (wrap_u_small 32 doe) by lia.
  rewrite (wrap_u_small 32 (_ - doe / 146096)) by zdiv.
  rewrite Hyoe, Hdoy, (wrap_u_small 32 (doy_of _ _)), Hmp by lia.
  rewrite (wrap_u_small 32 (_ - _ + 1)) by (rewrite Hdd; lia).
  rewrite Hdd. assert (shifted y m = y \/ shifted y m = y - 1) by (unfold shifted; case_test; lia).
  rewrite (wrap_s_small 32 (era * 400)), wrap_s_small by lia.
  replace (march m + (if march m <? 10 then 3 else -9)) with m
    by (unfold march; repeat case_test; lia).
  rewrite wrap_u_small by lia. replace (yoe + era * 400) with (shifted y m) by lia.
  unfold shifted. repeat case_test; f_equal; f_equal; lia.
Qed.

Lemma days_onto z :
  exists y m d, valid_date y m d /\ ns_dt_days_from_civil y m d = z /\
    (z + 719468) / 146097 * 400 <= y <= (z + 719468) / 146097 * 400 + 400.
Proof.
  set (era := (z + 719468) / 146097). set (doe := (z + 719468) mod 146097).
  assert (Hd : 0 <= doe < 146097) by (apply Z.mod_pos_bound; lia).
  assert (Hz : z + 719468 = era * 146097 + doe) by (unfold era, doe; zdiv).
  pose proof (doe_cut doe Hd) as (Hyoe & Hdoy & Hleap).
  set (yoe := _ / 365) in *. clearbody yoe. set (doy := doe - yoe_days yoe) in *.
  assert (Hdoe : doe = yoe_days yoe + doy) by (unfold doy; lia). clearbody doe doy era.
  set (mp := (5 * doy + 2) / 153). assert (Hmp : 0 <= mp <= 11) by (unfold mp; zdiv).
  set (d := doy - (153 * mp + 2) / 5 + 1).
  set (m := if mp <? 10 then mp + 3 else mp - 9).
  set (y := yoe + 400 * era + (if m <=? 2 then 1 else 0)).
  assert (Hm : march m = mp /\ 1 <= m <= 12) by (unfold march, m; repeat case_test; lia).
  assert (Hs : shifted y m = yoe + 400 * era) by (unfold shifted, y; case_test; lia).
  assert (V : valid_date y m d).
  { split; [lia|]. rewrite dim_spec by lia. destruct Hm as [-> _]. split; [unfold d, mp; zdiv|].
    assert (Em : mp = 11 <-> m = 2) by (unfold m; case_test; lia).
    destruct (Z.eqb_spec m 2) as [E2|N2]; [|unfold d, mp; zdiv].
    apply Em in E2. destruct (is_leap y) eqn:L; [unfold d, mp in *; zdiv|].
    enough (doy <> 365) by (unfold d, mp in *; zdiv). intros E. destruct (Hleap E) as [L4 L100].
    assert (Ey : y = yoe + 400 * era + 1) by (unfold y; destruct (Z.leb_spec m 2); lia).
    apply not_true_iff_false in L. apply L, leap_spec. split; [zdiv|].
    destruct L100; [left; zdiv|right; zdiv]. }
  exists y, m, d. split; [done|]. split; [|unfold y; case_test; lia].
  rewrite days_formula by done. destruct Hm as [-> _]. rewrite Hs.
  replace ((yoe + 400 * era) / 400) with era by zdiv.
  replace ((yoe + 400 * era) mod 400) with yoe by zdiv.
  unfold doy_of, d. lia.
Qed.

(** The calendar: the day after a date. *)
Definition next_date (y m d : Z) : Z * Z * Z :=
  if d <? ns_dt_days_in_month y m then (y, m, d + 1)
  else if m <? 12 then (y, m + 1, 1) else (y + 1, 1, 1).

Lemma days_in_month_pos y m : 1 <= m <= 12 -> 28 <= ns_dt_days_in_month y m <= 31.
Proof.
  intros Hm. rewrite dim_spec by done. unfold march.
  destruct (is_leap y), (Z.eqb_spec m 2); try lia; case_test; zdiv.
Qed.

Lemma valid_date_day y m d : valid_date y m d -> 1 <= d <= 31.
Proof. intros [Hm Hd]. pose proof (days_in_month_pos y m Hm). lia. Qed.

Lemma next_date_valid y m d :
  valid_date y m d -> let '(y', m', d') := next_date y m d in valid_date y' m' d'.
Proof.
  intros [Hm Hd]. unfold next_date, valid_date.
  destruct (Z.ltb_spec d (ns_dt_days_in_month y m)); [lia|].
  destruct (Z.ltb_spec m 12); [pose proof (days_in_month_pos y (m + 1))|
    pose proof (days_in_month_pos (y + 1) 1)]; lia.
Qed.

(** Stepping a year within its era. *)
Lemma era_pred y :
  y mod 4 = (y mod 400) mod 4 /\ y mod 100 = (y mod 400) mod 100 /\ 0 <= y mod 400 < 400 /\
  if y mod 400 =? 0 then (y - 1) / 400 = y / 400 - 1 /\ (y - 1) mod 400 = 399
  else (y - 1) / 400 = y / 400 /\ (y - 1) mod 400 = y mod 400 - 1.
Proof. repeat apply conj; try zdiv. destruct (Z.eqb_spec (y mod 400) 0); zdiv. Qed.

Ltac zera y :=
  let P := fresh in
  pose proof (era_pred y) as P; destruct (Z.eqb_spec (y mod 400) 0);
  destruct P as (P1 & P2 & P3 & P4 & P5); rewrite ?P1, ?P2, ?P4, ?P5 in *; clear P1 P2 P4 P5;
  generalize dependent (y / 400); generalize dependent (y mod 400); intros; subst; try zdiv.

Lemma next_date_days y m d :
  valid_date y m d ->
  let '(y', m', d') := next_date y m d in
  ns_dt_days_from_civil y' m' d' = ns_dt_days_from_civil y m d + 1.
Proof.
  intros V. pose proof (next_date_valid y m d V) as V'.
  destruct (next_date y m d) as [[y' m'] d'] eqn:E. rewrite !days_formula by done.
  destruct V as [Hm Hd]. unfold next_date in E. pose proof (leap_spec y) as L.
  rewrite dim_spec in * by done.
  destruct (Z.ltb_spec d (if m =? 2 then if is_leap y then 29 else 28
    else (153 * (march m + 1) + 2) / 5 - (153 * march m + 2) / 5)) as [Hl|Hl]; [injection E as <- <- <-; unfold doy_of; lia|].
  unfold shifted, march, doy_of, yoe_days in *.
  revert Hd Hl L. destruct (Z.eqb_spec m 2) as [->|N2].
  - cbn [Z.ltb Z.leb Z.compare Pos.compare Pos.compare_cont] in E. injection E as <- <- <-.
    change (2 + 1) with 3. change (3 <=? 2) with false. change (2 <? 3) with true.
    change (2 <=? 2) with true. change (2 <? 2) with false. cbv iota.
    destruct (is_leap y); intros Hd Hl L; [destruct L as [L _]; specialize (L eq_refl) as [L4 [L1|L1]]|
      destruct L as [_ L]]; [zera y|zera y|].
    destruct (Z.eq_dec (y mod 4) 0) as [L4|L4]; [|zera y].
    destruct (Z.eq_dec (y mod 100) 0) as [L1|L1]; [|by specialize (L (conj L4 (or_introl L1)))].
    destruct (Z.eq_dec (y mod 400) 0) as [L2|L2]; [by specialize (L (conj L4 (or_intror L2)))|zera y].
  - intros Hd Hl _. destruct (Z.ltb_spec m 12); injection E as <- <- <-.
    + clear V'. repeat case_test; boolify; try lia; zdiv.
    + replace m with 12 in * by lia. clear V' Hm N2. cbn [Z.ltb Z.leb Z.compare Pos.compare Pos.compare_cont] in *. zdiv.
Qed.

(** The same count without eras: the days before a March year. *)
Definition year_days (y : Z) : Z := 365 * y + y / 4 - y / 100 + y / 400.

Lemma days_linear y m d :
  valid_date y m d ->
  ns_dt_days_from_civil y m d = year_days (shifted y m) + doy_of (march m) d - 719468 /\
  0 <= doy_of (march m) d < year_days (shifted y m + 1) - year_days (shifted y m).
Proof.
  intros V. pose proof (valid_in_year y m d V) as (Hy & Hd & Hl). rewrite days_formula by done.
  unfold yoe_days, year_days, leap_end in *. revert Hy Hd Hl.
  generalize (doy_of (march m) d) (shifted y m). intros t s Hy Ht Hl. split; [zdiv|]. split; [lia|].
  destruct (Z.eq_dec t 365) as [E|N]; [|zdiv]. destruct (Hl E) as [L4 [L1|L1]]; zdiv.
Qed.

Lemma year_days_mono a b : a < b -> year_days (a + 1) <= year_days b.
Proof. unfold year_days. intros. zdiv. Qed.

Definition date_lt (a b : Z * Z * Z) : Prop :=
  let '(y, m, d) := a in let '(y', m', d') := b in
  y < y' \/ y = y' /\ (m < m' \/ m = m' /\ d < d').

Lemma days_lt y m d y' m' d' :
  valid_date y m d -> valid_date y' m' d' -> date_lt (y, m, d) (y', m', d') ->
  ns_dt_days_from_civil y m d < ns_dt_days_from_civil y' m' d'.
Proof.
  intros V V' L. destruct (days_linear _ _ _ V) as [-> B], (days_linear _ _ _ V') as [-> B'].
  assert (C : shifted y m < shifted y' m' \/
    shifted y m = shifted y' m' /\ (march m < march m' \/ march m = march m' /\ d < d')).
  { destruct V as [Hm _], V' as [Hm' _]. unfold date_lt, shifted, march in *.
    repeat case_test; boolify; lia. }
  destruct C as [C|[C D]]; [pose proof (year_days_mono _ _ C); lia|]. rewrite C.
  enough (doy_of (march m) d < doy_of (march m') d') by lia.
  destruct D as [D|[-> D]]; [|unfold doy_of; lia]. destruct V as [Hm Hd], V' as [Hm' Hd''].
  rewrite dim_spec in Hd by done. unfold doy_of.
  destruct (Z.eqb_spec m 2) as [->|N]; [|zdiv]. unfold march in D. destruct (2 <? m') eqn:E in D;
    cbn in D; boolify; lia.
Qed.

Lemma days_compare y m d y' m' d' :
  valid_date y m d -> valid_date y' m' d' ->
  (ns_dt_days_from_civil y m d < ns_dt_days_from_civil y' m' d' <-> date_lt (y, m, d) (y', m', d')) /\
  (ns_dt_days_from_civil y m d = ns_dt_days_from_civil y' m' d' <-> (y, m, d) = (y', m', d')).
Proof.
  intros V V'. pose proof (days_lt _ _ _ _ _ _ V V') as A. pose proof (days_lt _ _ _ _ _ _ V' V) as B.
  assert (T : date_lt (y, m, d) (y', m', d') \/ date_lt (y', m', d') (y, m, d) \/ (y, m, d) = (y', m', d')).
  { unfold date_lt. destruct (Z.lt_trichotomy y y') as [|[->|]], (Z.lt_trichotomy m m') as [|[->|]],
      (Z.lt_trichotomy d d') as [|[->|]]; intuition lia. }
  destruct T as [T|[T|T]].
  - specialize (A T). repeat split; try lia; try done. intros [= -> -> ->]. lia.
  - specialize (B T). split; split; try lia; [|by intros [= -> -> ->]; lia].
    intros C. specialize (A C). lia.
  - injection T as -> -> ->. repeat split; try lia. unfold date_lt. lia.
Qed.

(** The proleptic Gregorian calendar in day numbers: day 0 is 1 January 1970 and
    a day's successor has the next number. *)
Lemma calendar_days :
  ns_dt_days_from_civil 1970 1 1 = 0 /\
  (forall y m d, valid_date y m d ->
     let '(y', m', d') := next_date y m d in
     valid_date y' m' d' /\ ns_dt_days_from_civil y' m' d' = ns_dt_days_from_civil y m d + 1).
Proof.
  split; [done|]. intros y m d V. pose proof (next_date_valid y m d V). pose proof (next_date_days y m d V).
  by destruct (next_date y m d) as [[y' m'] d'].
Qed.

Lemma civil_days z :
  Z.abs z <= 784000000000 ->
  let '(y, m, d) := ns_dt_civil_from_days z in
  valid_date y m d /\ ns_dt_days_from_civil y m d = z.
Proof.
  intros Hz. destruct (days_onto z) as (y & m & d & V & E & B).
  rewrite (civil_formula z y m d V E); [done|]. change (2 ^ 31) with 2147483648. zdiv.
Qed.

(** The day number of a date is the count of days of the Gregorian calendar,
    and the two conversions are inverse to each other: every valid date whose
    year is an [int] (a margin of 800 years apart) survives the round trip, and
    so does every day number up to 784 thousand million days from 1970. *)
Theorem civil_days_round_trip (y m d z : Z) :
  valid_date y m d -> - 2 ^ 31 + 800 <= y <= 2 ^ 31 - 800 -> Z.abs z <= 784000000000 ->
  ns_dt_civil_from_days (ns_dt_days_from_civil y m d) = (y, m, d) /\
  (let '(y', m', d') := ns_dt_civil_from_days z in
   valid_date y' m' d' /\ ns_dt_days_from_civil y' m' d' = z) /\
  ns_dt_days_from_civil 1970 1 1 = 0 /\
  (let '(y', m', d') := next_date y m d in
   valid_date y' m' d' /\ ns_dt_days_from_civil y' m' d' = ns_dt_days_from_civil y m d + 1).
Proof.
  intros V Hy Hz. split; [by apply civil_formula|]. split; [by apply civil_days|].
  split; [done|]. by apply calendar_days.
Qed.

Lemma civil_days_round_trip_witness :
  ns_dt_civil_from_days (ns_dt_days_from_civil 2000 2 29) = (2000, 2, 29) /\
  (let '(y', m', d') := ns_dt_civil_from_days (-1) in
   valid_date y' m' d' /\ ns_dt_days_from_civil y' m' d' = -1) /\
  ns_dt_days_from_civil 1970 1 1 = 0 /\
  (let '(y', m', d') := next_date 2000 2 29 in
   valid_date y' m' d' /\ ns_dt_days_from_civil y' m' d' = ns_dt_days_from_civil 2000 2 29 + 1).
Proof.
  apply (civil_days_round_trip 2000 2 29 (-1)); [|split; vm_compute; discriminate|vm_compute; discriminate].
  split; split; vm_compute; discriminate.
Defined.

(** ISO weeks: the Monday of week 1 is a Monday, 4 January lies in its week, and
    a year has as many weeks as fit before the next one's first Monday. *)
Theorem iso_weeks (y : Z) :
  1 <= y ->
  let w1 := ns_dt_iso_week1_monday y in
  (w1 + 3) mod 7 = 0 /\ w1 <= ns_dt_days_from_civil y 1 4 < w1 + 7 /\
  ns_dt_iso_week1_monday (y + 1) = w1 + 7 * ns_dt_iso_weeks_in_year y.
Proof.
  intros Hy. unfold ns_dt_iso_week1_monday, ns_dt_iso_weeks_in_year. rewrite !floormod_mod by lia.
  assert (V : forall y, valid_date y 1 4) by (intros; split; [lia|]; vm_compute; split; discriminate).
  destruct (days_linear _ _ _ (V y)) as [-> _], (days_linear _ _ _ (V (y + 1))) as [-> _].
  unfold shifted, march. change (1 <=? 2) with true. change (2 <? 1) with false. cbv iota.
  unfold year_days, doy_of. rewrite !Z.rem_mod_nonneg, !Z.quot_div_nonneg by zdiv.
  split; [zdiv|]. split; [zdiv|].
  destruct (Z.eqb_spec ((y + y / 4 - y / 100 + y / 400) mod 7) 4);
    destruct (Z.eqb_spec ((y - 1 + (y - 1) / 4 - (y - 1) / 100 + (y - 1) / 400) mod 7) 3); cbn [orb]; zdiv.
Qed.

(** ** The readers read what is printed *)

Lemma rd_digits_loop_spec s max val cnt :
  exists ds r, s = ds ++ r /\ allb is_digit ds = true /\ (length ds <= max)%nat /\
    rd_digits_loop s max val cnt =
      (fold_left (fun v c => v * 10 + digit_val c) ds val, cnt + Z.of_nat (length ds), r) /\
    (length ds = max \/ stops is_digit r).
Proof.
  revert max val cnt. induction s as [|c s IH]; intros max val cnt.
  - exists [], []. destruct max; cbn; repeat split; auto; try lia; by rewrite Z.add_0_r.
  - destruct max as [|max]; [exists [], (c :: s); cbn; repeat split; auto; by rewrite Z.add_0_r|].
    cbn [rd_digits_loop]. destruct (is_digit c) eqn:E.
    + destruct (IH max (val * 10 + digit_val c) (cnt + 1)) as (ds & r & -> & Hd & Hl & -> & Hs).
      exists (c :: ds), r. cbn [allb length fold_left app]. rewrite E, Hd.
      repeat split; try lia; [f_equal; f_equal; lia|]. destruct Hs; [left; lia|by right].
    + exists [], (c :: s). cbn. repeat split; auto; [lia|by rewrite Z.add_0_r].
Qed.

Lemma rd_digits_loop_app ds r max val cnt :
  allb is_digit ds = true -> (length ds <= max)%nat -> (length ds = max \/ stops is_digit r) ->
  rd_digits_loop (ds ++ r) max val cnt =
    (fold_left (fun v c => v * 10 + digit_val c) ds val, cnt + Z.of_nat (length ds), r).
Proof.
  revert max val cnt. induction ds as [|c ds IH]; intros max val cnt Hd Hl Hs; cbn [app].
  - cbn. rewrite Z.add_0_r. destruct max; [by destruct r|]. destruct Hs as [Hs|Hs]; [done|].
    destruct r as [|c r]; [done|]. cbn in *. by rewrite Hs.
  - cbn in Hd, Hl. boolify. destruct max as [|max]; [lia|]. cbn [rd_digits_loop]. rewrite H.
    rewrite IH; [cbn; f_equal; f_equal; lia|done|lia|]. cbn in Hs. destruct Hs; [left; lia|by right].
Qed.

(** A number printed at a minimum width [w] is read back by a reader of [w] to
    [max] digits. *)
Lemma rd_digits_print w zw max z k :
  zw = Z.of_nat w -> 0 <= z < 10 ^ Z.of_nat max -> (0 < w <= max)%nat -> (w = max \/ stops is_digit k) ->
  ns_dt_rd_digits (print_0d w z ++ k) zw max = Some (z, k).
Proof.
  intros -> Hz Hw Hk. unfold print_0d. destruct (Z.ltb_spec z 0); [lia|].
  destruct (digits_spec z ltac:(lia)) as (Hd & Hv & _).
  pose proof (digits_length z max ltac:(lia) ltac:(lia)).
  unfold ns_dt_rd_digits. rewrite rd_digits_loop_app.
  - fold (dec_val (pad0 w (digits 10 z))). rewrite dec_val_pad0, Hv, length_pad0.
    destruct (Z.ltb_spec (0 + Z.of_nat (w `max` length (digits 10 z))) (Z.of_nat w)); [lia|done].
  - by apply pad0_digits.
  - rewrite length_pad0. lia.
  - destruct Hk; [left; rewrite length_pad0; lia|by right].
Qed.

Lemma rd_digits_Some p min max v r :
  ns_dt_rd_digits p min max = Some (v, r) ->
  exists ds, p = ds ++ r /\ allb is_digit ds = true /\ dec_val ds = v /\
    min <= Z.of_nat (length ds) <= Z.of_nat max /\ 0 <= v < 10 ^ Z.of_nat max.
Proof.
  unfold ns_dt_rd_digits. destruct (rd_digits_loop_spec p max 0 0) as (ds & r' & -> & Hd & Hl & -> & _).
  fold (dec_val ds). destruct (Z.ltb_spec (0 + Z.of_nat (length ds)) min); [done|]. intros [= <- <-].
  exists ds. pose proof (dec_val_bound ds Hd).
  assert (10 ^ Z.of_nat (length ds) <= 10 ^ Z.of_nat max) by (apply Z.pow_le_mono_r; lia).
  repeat split; auto; lia.
Qed.

Definition print_date (y m d : Z) : bytes :=
  print_0d 4 y ++ $"-" ++ print_0d 2 m ++ $"-" ++ print_0d 2 d.

(** The readers of date strings accept exactly the valid dates: the reader
    returns only dates of the calendar with a year in range, and reads every
    such date printed with four digits for the year and two for the rest. *)
Theorem read_date_print (y m d : Z) (s r k : bytes) :
  valid_date y m d -> 1 <= y <= NS_DT_MAX_YEAR ->
  ns_dt_rd_date (print_date y m d ++ k) = Some (y, m, d, k) /\
  (forall y' m' d', ns_dt_rd_date s = Some (y', m', d', r) ->
     valid_date y' m' d' /\ 1 <= y' <= NS_DT_MAX_YEAR).
Proof.
  intros [Hm Hd] Hy. split.
  - pose proof (days_in_month_pos y m Hm). unfold ns_dt_rd_date, print_date, NS_DT_MAX_YEAR in *.
    rewrite <- !app_assoc.
    rewrite rd_digits_print by first [lia | right; done | done]. cbn [mbind option_bind].
    change (expect "-" ($"-" ++ ?x)) with (Some x). cbn [mbind option_bind].
    rewrite rd_digits_print by first [lia | left; done | done]. cbn [mbind option_bind].
    change (expect "-" ($"-" ++ ?x)) with (Some x). cbn [mbind option_bind].
    rewrite rd_digits_print by first [lia | left; done | done]. cbn [mbind option_bind].
    repeat case_test; boolify; lia || done.
  - intros y' m' d'. unfold ns_dt_rd_date, valid_date.
    repeat (match goal with |- context [ns_dt_rd_digits ?p ?a ?b] => destruct (ns_dt_rd_digits p a b) as [[??]|] end;
      cbn [mbind option_bind]; [|done]; try (destruct (expect _ _); cbn [mbind option_bind]; [|done])).
    case_test; [done|]. intros [= -> -> -> ->]. boolify. lia.
Qed.

Lemma read_date_print_witness :
  ns_dt_rd_date (print_date 2024 2 29 ++ $"T") = Some (2024, 2, 29, $"T") /\
  (forall y' m' d', ns_dt_rd_date ($"2023-02-29") = Some (y', m', d', []) ->
     valid_date y' m' d' /\ 1 <= y' <= NS_DT_MAX_YEAR).
Proof.
  apply (read_date_print 2024 2 29 ($"2023-02-29") [] ($"T")); split;
    try split; vm_compute; discriminate.
Defined.

Definition print_time (ms : Z) : bytes :=
  print_0d 2 (ms / 3600000) ++ $":" ++ print_0d 2 (ms / 60000 mod 60) ++ $":" ++
  print_0d 2 (ms / 1000 mod 60) ++ $"." ++ print_0d 3 (ms mod 1000).

Lemma rd_fraction_print f k :
  0 <= f < 1000 -> stops is_digit k -> rd_fraction (print_0d 3 f ++ k) = Some (f, k).
Proof.
  intros Hf Hk. unfold rd_fraction, print_0d. destruct (Z.ltb_spec f 0); [lia|].
  destruct (digits_spec f ltac:(lia)) as (Hd & Hv & _).
  pose proof (digits_length f 3 ltac:(lia) ltac:(lia)) as Hl.
  assert (L : length (pad0 3 (digits 10 f)) = 3%nat) by (rewrite length_pad0; lia).
  rewrite rd_digits_loop_app by (rewrite ?L; auto using pad0_digits).
  fold (dec_val (pad0 3 (digits 10 f))). rewrite dec_val_pad0, Hv, L. cbn [Z.of_nat Z.add Z.eqb].
  change (10 ^ (3 - 3)) with 1. rewrite Z.mul_1_r. repeat f_equal.
  change k with ([] ++ k) at 1. by rewrite drop_while_app_stop.
Qed.

Lemma rd_fraction_bound p v r : rd_fraction p = Some (v, r) -> 0 <= v < 1000.
Proof.
  unfold rd_fraction. destruct (rd_digits_loop_spec p 3 0 0) as (ds & r' & -> & Hd & Hl & -> & _).
  fold (dec_val ds). case_test; [done|]. intros [= <- <-]. boolify.
  pose proof (dec_val_bound ds Hd). rewrite Z.add_0_l in *.
  destruct ds as [|? [|? [|? [|]]]]; cbn [length] in *; try lia;
    cbn [Z.of_nat Z.sub Z.add Z.opp Z.pos_sub Z.pow] in *; lia.
Qed.

(** Times of the day: the reader returns a number of milliseconds of one day,
    and every such number printed as [HH:MM:SS.mmm] is read back. *)
Theorem read_time_print (ms v : Z) (s r k : bytes) :
  0 <= ms < 86400000 -> stops is_digit k ->
  ns_dt_rd_time (print_time ms ++ k) = Some (ms, k) /\
  (ns_dt_rd_time s = Some (v, r) -> 0 <= v < 86400000).
Proof.
  intros Hms Hk. split.
  - unfold ns_dt_rd_time, print_time. rewrite <- !app_assoc.
    rewrite rd_digits_print by first [zdiv | left; done | done]. cbn [mbind option_bind].
    change (expect ":" ($":" ++ ?x)) with (Some x). cbn [mbind option_bind].
    rewrite rd_digits_print by first [zdiv | left; done | done]. cbn [mbind option_bind].
    change (expect ":" ($":" ++ ?x)) with (Some x). cbn [mbind option_bind].
    rewrite rd_digits_print by first [zdiv | left; done | done]. cbn [mbind option_bind].
    change (expect "." ($"." ++ ?x)) with (Some x). cbv beta iota.
    rewrite rd_fraction_print by first [done | zdiv]. cbn [mbind option_bind].
    case_test; boolify; [exfalso|f_equal; f_equal]; zdiv.
  - unfold ns_dt_rd_time.
    destruct (ns_dt_rd_digits s 2 2) as [[h p1]|] eqn:E1; cbn [mbind option_bind]; [|done].
    apply rd_digits_Some in E1 as (? & _ & _ & _ & _ & B1).
    destruct (expect _ p1); cbn [mbind option_bind]; [|done].
    destruct (ns_dt_rd_digits _ 2 2) as [[mi p2]|] eqn:E2; cbn [mbind option_bind]; [|done].
    apply rd_digits_Some in E2 as (? & _ & _ & _ & _ & B2).
    destruct (match expect _ p2 with Some _ => _ | None => _ end) as [[[se f] p3]|] eqn:E3;
      cbn [mbind option_bind]; [|done].
    assert (B3 : 0 <= se /\ 0 <= f < 1000).
    { destruct (expect _ p2); [|by injection E3 as <- <- <-].
      destruct (ns_dt_rd_digits _ 2 2) as [[se' p4]|] eqn:E4; cbn [mbind option_bind] in E3; [|done].
      apply rd_digits_Some in E4 as (? & _ & _ & _ & _ & B4).
      destruct (expect _ p4); [|injection E3 as <- <- <-; lia].
      destruct (rd_fraction _) as [[f' p5]|] eqn:E5; cbn [mbind option_bind] in E3; [|done].
      apply rd_fraction_bound in E5. injection E3 as <- <- <-. lia. }
    case_test; [done|]. intros [= <- <-]. boolify. lia.
Qed.

Lemma read_time_print_witness :
  ns_dt_rd_time (print_time 86399999 ++ $"Z") = Some (86399999, $"Z") /\
  (ns_dt_rd_time ($"07:05") = Some (25500000, []) -> 0 <= 25500000 < 86400000).
Proof. apply (read_time_print 86399999 25500000 ($"07:05") [] ($"Z")); [split; [discriminate|done]|done]. Defined.
