(* ===== verification/Temporal.v ===== *)
(** * The Temporal objects (src/src/js_date.c)

    The values behind [Temporal.Instant], [PlainDate], [PlainTime],
    [PlainDateTime], [PlainYearMonth], [PlainMonthDay], [ZonedDateTime] and
    [Duration]: their fields, the string forms, and their arithmetic.

    The script engine is outside the repository: an argument of a method is a
    [js_value], which is undefined, a string, one of these objects, or another
    object given by the integer each property converts to. A method that throws
    returns an error. The numbers of a script reach the sums and products of the
    methods unchecked, and a signed overflow is undefined in C: each such
    operation is checked here ([int64], [int32], [dot64]), and a method that
    overflows returns [Overflow], the result with no meaning. The conversions to
    [int] are written out. *)

From S2P Require Import Prelude CStr DateTime.
Open Scope Z_scope.

(** ** Values *)

Inductive kind :=
  TK_INSTANT | TK_PLAINDATE | TK_PLAINTIME | TK_PLAINDATETIME |
  TK_PLAINYEARMONTH | TK_PLAINMONTHDAY | TK_ZONEDDATETIME | TK_DURATION.
#[export] Instance kind_eq_dec : EqDecision kind.
Proof. solve_decision. Defined.

Record ns_temporal := {
  t_kind : kind;
  epoch_sec : Z; nanos : Z;
  year : Z; month : Z; day : Z;
  hour : Z; minute : Z; second : Z; ms : Z; us : Z; ns : Z;
  dur : list Z;
  tz : option bytes;
}.

Definition dur0 : list Z := repeat 0 10.
Definition new_temporal (k : kind) : ns_temporal :=
  Build_ns_temporal k 0 0 0 0 0 0 0 0 0 0 0 dur0 None.

Definition with_epoch (s n : Z) (t : ns_temporal) : ns_temporal :=
  Build_ns_temporal (t_kind t) s n (year t) (month t) (day t)
    (hour t) (minute t) (second t) (ms t) (us t) (ns t) (dur t) (tz t).
Definition with_date (d : Z * Z * Z) (t : ns_temporal) : ns_temporal :=
  Build_ns_temporal (t_kind t) (epoch_sec t) (nanos t) d.1.1 d.1.2 d.2
    (hour t) (minute t) (second t) (ms t) (us t) (ns t) (dur t) (tz t).
Definition with_time (h mi s ms us ns : Z) (t : ns_temporal) : ns_temporal :=
  Build_ns_temporal (t_kind t) (epoch_sec t) (nanos t) (year t) (month t) (day t)
    h mi s ms us ns (dur t) (tz t).
Definition with_dur (d : list Z) (t : ns_temporal) : ns_temporal :=
  Build_ns_temporal (t_kind t) (epoch_sec t) (nanos t) (year t) (month t) (day t)
    (hour t) (minute t) (second t) (ms t) (us t) (ns t) d (tz t).
Definition with_tz (z : option bytes) (t : ns_temporal) : ns_temporal :=
  Build_ns_temporal (t_kind t) (epoch_sec t) (nanos t) (year t) (month t) (day t)
    (hour t) (minute t) (second t) (ms t) (us t) (ns t) (dur t) z.
(** [*nt = *t; nt->tz = NULL] *)
Definition copy (k : kind) (t : ns_temporal) : ns_temporal :=
  Build_ns_temporal k (epoch_sec t) (nanos t) (year t) (month t) (day t)
    (hour t) (minute t) (second t) (ms t) (us t) (ns t) (dur t) None.

(** [Overflow]: a signed operation left its type, which C does not define. *)
Inductive result (A : Type) := Ok (a : A) | TypeError (m : bytes) | RangeError (m : bytes) | Overflow.
Arguments Ok {A}. Arguments TypeError {A}. Arguments RangeError {A}. Arguments Overflow {A}.

Definition bind {A B} (r : result A) (f : A -> result B) : result B :=
  match r with
  | Ok a => f a | TypeError m => TypeError m | RangeError m => RangeError m | Overflow => Overflow
  end.
#[export] Instance result_bind : MBind result := fun A B f r => bind r f.

Lemma mbind_Ok {A B} (a : A) (f : A -> result B) : mbind f (Ok a) = f a.
Proof. reflexivity. Qed.
Ltac cbn_ok := rewrite ?mbind_Ok; cbn [bind].

(** ** Signed arithmetic at its width *)

Definition fits (w z : Z) : bool := (- 2 ^ (w - 1) <=? z) && (z <? 2 ^ (w - 1)).
Definition int64 (z : Z) : result Z := if fits 64 z then Ok z else Overflow.
Definition int32 (z : Z) : result Z := if fits 32 z then Ok z else Overflow.

(** [a * b + ...] on [int64_t], from the left: every product and every partial
    sum has to fit. *)
Fixpoint dot64_from (acc : Z) (l : list (Z * Z)) : result Z :=
  match l with
  | [] => Ok acc
  | (a, b) :: l => p ← int64 (a * b); acc ← int64 (acc + p); dot64_from acc l
  end.
Definition dot64 (l : list (Z * Z)) : result Z := dot64_from 0 l.

(** ** Calendar fields *)

Definition tmp_iso_dow (y m d : Z) : Z :=
  let days := ns_dt_days_from_civil y m d in
  let dow := ns_dt_floormod (days + 4) 7 in
  if dow =? 0 then 7 else dow.

Definition tmp_day_of_year (y m d : Z) : Z :=
  ns_dt_days_from_civil y m d - ns_dt_days_from_civil y 1 1 + 1.

Definition tmp_days_in_year (y : Z) : Z := if is_leap y then 366 else 365.

Definition tmp_week_of_year (y m d : Z) : Z :=
  let ord := ns_dt_days_from_civil y m d in
  let w1 := ns_dt_iso_week1_monday y in
  let '(y, w1) := if ord <? w1 then (y - 1, ns_dt_iso_week1_monday (y - 1)) else (y, w1) in
  let next := ns_dt_iso_week1_monday (y + 1) in
  if next <=? ord then 1 else Z.quot (ord - w1) 7 + 1.

Definition tmp_month_code (m : Z) : bytes := $"M" ++ print_0d 2 m.

(** What [tmp_def] puts on the object. *)
Inductive js_prop := PInt (z : Z) | PBigInt (z : Z) | PStr (s : bytes) | PBool (b : bool).

Definition tmp_fill_date (t : ns_temporal) : list (bytes * js_prop) :=
  let y := year t in let m := month t in let d := day t in
  [($"year", PInt y); ($"month", PInt m); ($"monthCode", PStr (tmp_month_code m)); ($"day", PInt d);
   ($"calendarId", PStr ($"iso8601")); ($"dayOfWeek", PInt (tmp_iso_dow y m d));
   ($"dayOfYear", PInt (tmp_day_of_year y m d)); ($"weekOfYear", PInt (tmp_week_of_year y m d));
   ($"daysInWeek", PInt 7); ($"daysInMonth", PInt (ns_dt_days_in_month y m));
   ($"daysInYear", PInt (tmp_days_in_year y)); ($"monthsInYear", PInt 12);
   ($"inLeapYear", PBool (tmp_days_in_year y =? 366))].

Definition tmp_fill_time (t : ns_temporal) : list (bytes * js_prop) :=
  [($"hour", PInt (hour t)); ($"minute", PInt (minute t)); ($"second", PInt (second t));
   ($"millisecond", PInt (ms t)); ($"microsecond", PInt (us t)); ($"nanosecond", PInt (ns t))].

Definition clamp_year (t : ns_temporal) : ns_temporal :=
  let y := if year t <? - NS_DT_MAX_YEAR then - NS_DT_MAX_YEAR else year t in
  let y := if NS_DT_MAX_YEAR <? y then NS_DT_MAX_YEAR else y in
  with_date (y, month t, day t) t.

Definition duration_names : list bytes :=
  [$"years"; $"months"; $"weeks"; $"days"; $"hours"; $"minutes";
   $"seconds"; $"milliseconds"; $"microseconds"; $"nanoseconds"].

(** The sign of a duration is that of its first field that is not zero. *)
Definition duration_sign (d : list Z) : Z :=
  match List.find (fun v => negb (v =? 0)) d with
  | None => 0
  | Some v => if 0 <? v then 1 else -1
  end.

Definition tmp_fill_props (t : ns_temporal) : list (bytes * js_prop) :=
  let epoch := [($"epochMilliseconds", PInt (epoch_sec t * 1000 + Z.quot (nanos t) 1000000));
                ($"epochNanoseconds", PBigInt (epoch_sec t * 1000000000 + nanos t))] in
  match t_kind t with
  | TK_PLAINDATE => tmp_fill_date t
  | TK_PLAINTIME => tmp_fill_time t
  | TK_PLAINDATETIME => tmp_fill_date t ++ tmp_fill_time t
  | TK_PLAINYEARMONTH =>
      [($"year", PInt (year t)); ($"month", PInt (month t));
       ($"monthCode", PStr (tmp_month_code (month t))); ($"calendarId", PStr ($"iso8601"));
       ($"daysInMonth", PInt (ns_dt_days_in_month (year t) (month t)));
       ($"daysInYear", PInt (tmp_days_in_year (year t))); ($"monthsInYear", PInt 12);
       ($"inLeapYear", PBool (tmp_days_in_year (year t) =? 366))]
  | TK_PLAINMONTHDAY =>
      [($"monthCode", PStr (tmp_month_code (month t))); ($"day", PInt (day t));
       ($"calendarId", PStr ($"iso8601"))]
  | TK_INSTANT => epoch
  | TK_ZONEDDATETIME =>
      [($"timeZoneId", PStr (default ($"UTC") (tz t))); ($"calendarId", PStr ($"iso8601"))] ++ epoch
  | TK_DURATION =>
      zip duration_names (map PInt (dur t)) ++
      [($"sign", PInt (duration_sign (dur t))); ($"blank", PBool (duration_sign (dur t) =? 0))]
  end.

(** [tmp_fill]: the object with the year clamped and its properties defined. *)
Definition tmp_fill (t : ns_temporal) : ns_temporal * list (bytes * js_prop) :=
  let t := clamp_year t in (t, tmp_fill_props t).

(** ** Values of the script *)

(** Reading a property: undefined, a value that does not convert, or its
    [JS_ToInt32]. *)
Inductive js_got := Undefined | NotInt | Int (z : Z).

Inductive js_value :=
  JUndef
| JString (s : bytes)
| JTemporal (t : ns_temporal)
| JObject (get : bytes -> js_got).

Definition js_is_object (v : js_value) : bool :=
  match v with JTemporal _ | JObject _ => true | _ => false end.

(** [JS_GetPropertyStr] and [JS_ToInt32]. *)
Definition js_get (v : js_value) (key : bytes) : js_got :=
  match v with
  | JObject get => get key
  | JTemporal t =>
      match List.find (fun p => p.1 =b key) (tmp_fill_props t) with
      | Some (_, PInt z) => Int (wrap_s 32 z)
      | Some _ => NotInt
      | None => Undefined
      end
  | _ => Undefined
  end.

Definition tmp_int_prop (o : js_value) (key : bytes) (dflt : Z) : Z :=
  match js_get o key with Int z => z | _ => dflt end.

Definition tmp_has_prop (o : js_value) (key : bytes) : bool :=
  js_is_object o && match js_get o key with Undefined => false | _ => true end.

Definition tmp_this (v : js_value) (k : kind) : result ns_temporal :=
  match v with
  | JTemporal t => if bool_decide (t_kind t = k) then Ok t
                   else TypeError ($"invalid Temporal receiver")
  | _ => TypeError ($"invalid Temporal receiver")
  end.

(** The object a method returns once [tmp_fill] has defined its properties: the
    epoch in milliseconds and nanoseconds is computed on [int64_t]. *)
Definition filled (t : ns_temporal) : result ns_temporal :=
  match t_kind t with
  | TK_INSTANT | TK_ZONEDDATETIME =>
      _ ← dot64 [(epoch_sec t, 1000); (Z.quot (nanos t) 1000000, 1)];
      _ ← dot64 [(epoch_sec t, 1000000000); (nanos t, 1)];
      Ok (tmp_fill t).1
  | _ => Ok (tmp_fill t).1
  end.

(** ** Seconds and civil time *)

Definition tmp_breakdown (epoch_sec : Z) : Z * Z * Z * (Z * Z * Z) :=
  let days := Z.quot (if 0 <=? epoch_sec then epoch_sec else epoch_sec - 86399) 86400 in
  let rem := epoch_sec - days * 86400 in
  (ns_dt_civil_from_days days, (Z.quot rem 3600, Z.quot (Z.rem rem 3600) 60, Z.rem rem 60)).

Definition tmp_epoch_of (y mo d h mi s : Z) : Z :=
  ns_dt_days_from_civil y mo d * 86400 + h * 3600 + mi * 60 + s.

(** Trailing zeros of a fraction are dropped. *)
Definition strip_zeros (s : bytes) : bytes := rev (drop_while (fun c => c =c "0") (rev s)).

Definition tmp_append_frac (ms us ns : Z) : bytes :=
  let frac := ms * 1000000 + us * 1000 + ns in
  if frac =? 0 then [] else $"." ++ strip_zeros (take 9 (print_0d 9 frac)).

(** ** Parsing *)

Record parsed := {
  p_date : Z * Z * Z; p_time : Z * Z * Z; p_frac : Z * Z * Z;
  p_off_min : Z; p_has_off : bool; p_has_time : bool;
}.

(** The offset at the end: [Z], or a sign, hours and optional minutes. *)
Definition parse_offset (p : bytes) : Z * bool :=
  match one_of ($"Zz") p with
  | Some _ => (0, true)
  | None =>
      match one_of ($"+-") p with
      | None => (0, false)
      | Some (c, p) =>
          let sgn := if c =c "-" then -1 else 1 in
          match ns_dt_rd_digits p 2 2 with
          | None => (0, false)
          | Some (oh, q) =>
              let q := default q (expect ":" q) in
              let om := match ns_dt_rd_digits q 2 2 with Some (om, _) => om | None => 0 end in
              (sgn * (oh * 60 + om), true)
          end
      end
  end.

(** The fraction of a second, in nanoseconds. *)
Definition parse_frac (p : bytes) : Z * bytes :=
  let '(v, c, p) := rd_digits_loop p 9 0 0 in
  (v * 10 ^ (9 - c), drop_while is_digit p).

Definition tmp_parse_datetime (s : bytes) : option parsed :=
  '(y, mo, d, p) ← ns_dt_rd_date s;
  let date := (y, mo, d) in
  let finish time frac has_time p :=
    let '(off, has_off) := parse_offset p in
    Some (Build_parsed date time frac off has_off has_time) in
  match one_of ($"Tt ") p with
  | None => finish (0, 0, 0) (0, 0, 0) false p
  | Some (_, p) =>
      match ('(hh, q) ← ns_dt_rd_digits p 2 2; q ← expect ":" q; Some (hh, q)) with
      | None => Some (Build_parsed date (0, 0, 0) (0, 0, 0) 0 false false)
      | Some (hh, q) =>
          '(mm, p) ← ns_dt_rd_digits q 2 2;
          match expect ":" p with
          | None => finish (hh, mm, 0) (0, 0, 0) true p
          | Some p =>
              '(ss, p) ← ns_dt_rd_digits p 2 2;
              match one_of ($".,") p with
              | None => finish (hh, mm, ss) (0, 0, 0) true p
              | Some (_, p) =>
                  let '(v, p) := parse_frac p in
                  finish (hh, mm, ss)
                    (Z.quot v 1000000, Z.rem (Z.quot v 1000) 1000, Z.rem v 1000) true p
              end
          end
      end
  end.

Definition parsed_epoch (p : parsed) : Z :=
  let '(y, mo, d) := p_date p in let '(h, mi, se) := p_time p in
  tmp_epoch_of y mo d h mi se - p_off_min p * 60.
Definition parsed_nanos (p : parsed) : Z :=
  let '(ms, us, ns) := p_frac p in ms * 1000000 + us * 1000 + ns.

(** ** Instant *)

(** [(ns >= 0 ? ns : ns - 999999999) / 1000000000] and the rest. *)
Definition set_epoch_ns (total : Z) (t : ns_temporal) : result ns_temporal :=
  cut ← (if 0 <=? total then Ok total else int64 (total - 999999999));
  let s := Z.quot cut 1000000000 in
  Ok (with_epoch s (wrap_s 32 (total - s * 1000000000)) t).

Definition tmp_instant_from (v : js_value) : result ns_temporal :=
  let t := new_temporal TK_INSTANT in
  match v with
  | JString s =>
      match tmp_parse_datetime s with
      | None => RangeError ($"invalid Instant string")
      | Some p => filled (with_epoch (parsed_epoch p) (parsed_nanos p) t)
      end
  | JTemporal src =>
      if bool_decide (t_kind src = TK_INSTANT) || bool_decide (t_kind src = TK_ZONEDDATETIME)
      then filled (with_epoch (epoch_sec src) (nanos src) t) else filled t
  | _ => filled t
  end.

Definition tmp_instant_fromEpochMilliseconds (ms : Z) : result ns_temporal :=
  cut ← (if 0 <=? ms then Ok ms else int64 (ms - 999));
  let s := Z.quot cut 1000 in
  filled (with_epoch s (wrap_s 32 ((ms - s * 1000) * 1000000)) (new_temporal TK_INSTANT)).

Definition tmp_instant_fromEpochNanoseconds (ns : Z) : result ns_temporal :=
  t ← set_epoch_ns ns (new_temporal TK_INSTANT); filled t.

Definition tmp_instant_ctor (ns : Z) : result ns_temporal :=
  t ← set_epoch_ns ns (new_temporal TK_INSTANT); filled t.

Definition print_civil (dt : Z * Z * Z * (Z * Z * Z)) : bytes :=
  let '(y, mo, d, (h, mi, s)) := dt in
  print_0d 4 y ++ $"-" ++ print_0d 2 mo ++ $"-" ++ print_0d 2 d ++ $"T" ++
  print_0d 2 h ++ $":" ++ print_0d 2 mi ++ $":" ++ print_0d 2 s.

Definition nanos_frac (n : Z) : bytes :=
  tmp_append_frac (Z.quot n 1000000) (Z.rem (Z.quot n 1000) 1000) (Z.rem n 1000).

Definition tmp_instant_toString (this : js_value) : result bytes :=
  bind (tmp_this this TK_INSTANT) (fun t =>
    Ok (print_civil (tmp_breakdown (epoch_sec t)) ++ nanos_frac (nanos t) ++ $"Z")).

(** ** Durations *)

Definition tmp_read_dur (v : js_value) : list Z :=
  match v with
  | JTemporal t => if bool_decide (t_kind t = TK_DURATION) then dur t
                   else map (fun n => tmp_int_prop v n 0) duration_names
  | JObject _ => map (fun n => tmp_int_prop v n 0) duration_names
  | _ => dur0
  end.

Definition nthz (l : list Z) (i : nat) : Z := nth i l 0.

(** The hours and below of a duration, each with its nanoseconds. *)
Definition time_units (d : list Z) : list (Z * Z) :=
  [(nthz d 4, 3600000000000); (nthz d 5, 60000000000); (nthz d 6, 1000000000);
   (nthz d 7, 1000000); (nthz d 8, 1000); (nthz d 9, 1)].

Definition tmp_dur_time_ns (d : list Z) : result Z :=
  dot64 ((nthz d 3, 86400000000000) :: time_units d).

Definition tmp_instant_add_impl (this durv : js_value) (sign : Z) : result ns_temporal :=
  t ← tmp_this this TK_INSTANT;
  add_ns ←
    match durv with
    | JTemporal dur' =>
        if bool_decide (t_kind dur' = TK_DURATION) then tmp_dur_time_ns (dur dur')
        else dot64 (time_units (tmp_read_dur durv))
    | JObject _ => dot64 (time_units (tmp_read_dur durv))
    | _ => Ok 0
    end;
  total ← dot64 [(epoch_sec t, 1000000000); (nanos t, 1); (sign, add_ns)];
  t ← set_epoch_ns total (new_temporal TK_INSTANT);
  filled t.

Definition tmp_instant_add (this durv : js_value) := tmp_instant_add_impl this durv 1.
Definition tmp_instant_subtract (this durv : js_value) := tmp_instant_add_impl this durv (-1).

(** ** PlainDate *)

Definition tmp_set_date_fields (y mo d : Z) (t : ns_temporal) : ns_temporal :=
  let mo := if mo <? 1 then 1 else mo in
  let mo := if 12 <? mo then 12 else mo in
  let dim := ns_dt_days_in_month y mo in
  let d := if d <? 1 then 1 else d in
  let d := if dim <? d then dim else d in
  with_date (y, mo, d) t.

Definition tmp_date_from (v : js_value) : result ns_temporal :=
  let t := new_temporal TK_PLAINDATE in
  match v with
  | JString s =>
      match ns_dt_rd_date s with
      | None => RangeError ($"invalid PlainDate string")
      | Some (y, mo, d, _) => filled (tmp_set_date_fields y mo d t)
      end
  | JTemporal src =>
      if bool_decide (t_kind src = TK_PLAINDATE) || bool_decide (t_kind src = TK_PLAINDATETIME)
      then filled (tmp_set_date_fields (year src) (month src) (day src) t)
      else filled (tmp_set_date_fields (tmp_int_prop v ($"year") 1970)
                     (tmp_int_prop v ($"month") 1) (tmp_int_prop v ($"day") 1) t)
  | JObject _ =>
      filled (tmp_set_date_fields (tmp_int_prop v ($"year") 1970)
                (tmp_int_prop v ($"month") 1) (tmp_int_prop v ($"day") 1) t)
  | JUndef => filled t
  end.

(** The arguments a constructor was given, each converted by [JS_ToInt32]. *)
Definition arg (args : list Z) (i : nat) (dflt : Z) : Z := nth i args dflt.

Definition tmp_date_ctor (args : list Z) : result ns_temporal :=
  filled (tmp_set_date_fields (arg args 0 1970) (arg args 1 1) (arg args 2 1)
            (new_temporal TK_PLAINDATE)).

Definition tmp_date_toString (this : js_value) : result bytes :=
  bind (tmp_this this TK_PLAINDATE) (fun t =>
    Ok (take 31 (print_0d 4 (year t) ++ $"-" ++ print_0d 2 (month t) ++ $"-" ++ print_0d 2 (day t)))).

(** Years and months first, the day cut to the month's length, then weeks and
    days. *)
Definition add_months (t : ns_temporal) (y mo sign : Z) : result (Z * Z * Z) :=
  sy ← int64 (sign * y);
  ny ← int32 (year t + wrap_s 32 sy);
  smo ← int64 (sign * mo);
  total_mo ← int64 (month t - 1 + smo);
  cut ← (if 0 <=? total_mo then Ok total_mo else int64 (total_mo - 11));
  ny ← int32 (ny + wrap_s 32 (Z.quot cut 12));
  let nmo := wrap_s 32 (ns_dt_floormod total_mo 12) + 1 in
  let dim := ns_dt_days_in_month ny nmo in
  Ok (ny, nmo, if dim <? day t then dim else day t).

(** [ns_dt_days_from_civil(ny, nmo, nd) + sign * (w * 7 + d)] *)
Definition add_weeks (date : Z * Z * Z) (w d sign : Z) : result Z :=
  let '(ny, nmo, nd) := date in
  wd ← dot64 [(w, 7); (d, 1)];
  dot64 [(ns_dt_days_from_civil ny nmo nd, 1); (sign, wd)].

(** [ns_dt_civil_from_days], which first adds [719468] to the day. *)
Definition civil_date (days : Z) : result (Z * Z * Z) :=
  _ ← int64 (days + 719468); Ok (ns_dt_civil_from_days days).

Definition tmp_add_date (y mo w d sign : Z) (t : ns_temporal) : result ns_temporal :=
  date ← add_months t y mo sign;
  days ← add_weeks date w d sign;
  date ← civil_date days;
  Ok (with_date date t).

Definition tmp_date_add_impl (this durv : js_value) (sign : Z) : result ns_temporal :=
  t ← tmp_this this TK_PLAINDATE;
  let d := tmp_read_dur durv in
  t ← tmp_add_date (nthz d 0) (nthz d 1) (nthz d 2) (nthz d 3) sign (copy TK_PLAINDATE t);
  filled t.

Definition tmp_date_add (this durv : js_value) := tmp_date_add_impl this durv 1.
Definition tmp_date_subtract (this durv : js_value) := tmp_date_add_impl this durv (-1).

Definition tmp_date_with (this f : js_value) : result ns_temporal :=
  bind (tmp_this this TK_PLAINDATE) (fun t =>
    let pick key cur := if tmp_has_prop f key then tmp_int_prop f key cur else cur in
    filled (tmp_set_date_fields (pick ($"year") (year t)) (pick ($"month") (month t))
              (pick ($"day") (day t)) (new_temporal TK_PLAINDATE))).

Definition date_days (t : ns_temporal) : Z := ns_dt_days_from_civil (year t) (month t) (day t).

Definition tmp_cmp_date (a b : ns_temporal) : Z :=
  let da := date_days a in let db := date_days b in
  if da <? db then -1 else if db <? da then 1 else 0.

Definition tmp_date_until_impl (this other : js_value) (sign : Z) : result ns_temporal :=
  bind (tmp_this this TK_PLAINDATE) (fun t =>
    match other with
    | JTemporal o =>
        if bool_decide (t_kind o = TK_PLAINDATE)
        then filled (with_dur [0; 0; 0; sign * (date_days o - date_days t); 0; 0; 0; 0; 0; 0]
                       (new_temporal TK_DURATION))
        else TypeError ($"expected a PlainDate")
    | _ => TypeError ($"expected a PlainDate")
    end).

Definition tmp_date_until (this other : js_value) := tmp_date_until_impl this other 1.
Definition tmp_date_since (this other : js_value) := tmp_date_until_impl this other (-1).

Definition tmp_date_equals (this other : js_value) : result bool :=
  bind (tmp_this this TK_PLAINDATE) (fun t =>
    match other with
    | JTemporal o => Ok (bool_decide (t_kind o = TK_PLAINDATE) && (tmp_cmp_date t o =? 0))
    | _ => Ok false
    end).

Definition tmp_date_compare (a b : js_value) : result Z :=
  match a, b with
  | JTemporal a, JTemporal b => Ok (tmp_cmp_date a b)
  | _, _ => TypeError ($"Temporal.PlainDate.compare needs two dates")
  end.

Definition set_time_of (src t : ns_temporal) : ns_temporal :=
  with_time (hour src) (minute src) (second src) (ms src) (us src) (ns src) t.
Definition set_date_of (src t : ns_temporal) : ns_temporal :=
  with_date (year src, month src, day src) t.

Definition tmp_date_toPlainDateTime (this tv : js_value) : result ns_temporal :=
  bind (tmp_this this TK_PLAINDATE) (fun t =>
    let nt := set_date_of t (new_temporal TK_PLAINDATETIME) in
    match tv with
    | JTemporal time => filled (if bool_decide (t_kind time = TK_PLAINTIME) then set_time_of time nt else nt)
    | _ => filled nt
    end).

(** ** PlainTime *)

Definition clock_units (t : ns_temporal) : list (Z * Z) :=
  [(hour t, 3600000000000); (minute t, 60000000000); (second t, 1000000000);
   (ms t, 1000000); (us t, 1000); (ns t, 1)].
Definition time_ns (t : ns_temporal) : result Z := dot64 (clock_units t).

(** The fields of a number of nanoseconds of one day. *)
Definition split_time (v : Z) (t : ns_temporal) : ns_temporal :=
  let h := Z.quot v 3600000000000 in let v := Z.rem v 3600000000000 in
  let mi := Z.quot v 60000000000 in let v := Z.rem v 60000000000 in
  let s := Z.quot v 1000000000 in let v := Z.rem v 1000000000 in
  let m := Z.quot v 1000000 in let v := Z.rem v 1000000 in
  with_time (wrap_s 32 h) (wrap_s 32 mi) (wrap_s 32 s) (wrap_s 32 m)
    (wrap_s 32 (Z.quot v 1000)) (wrap_s 32 (Z.rem v 1000)) t.

Definition NS_PER_DAY : Z := 86400000000000.

Definition tmp_norm_time (t : ns_temporal) : result ns_temporal :=
  v ← time_ns t;
  Ok (split_time (Z.rem (Z.rem v NS_PER_DAY + NS_PER_DAY) NS_PER_DAY) t).

Definition tmp_time_ctor (args : list Z) : result ns_temporal :=
  t ← tmp_norm_time (with_time (arg args 0 0) (arg args 1 0) (arg args 2 0)
        (arg args 3 0) (arg args 4 0) (arg args 5 0) (new_temporal TK_PLAINTIME));
  filled t.

(** The time properties of an argument object. *)
Definition time_props (v : js_value) (t : ns_temporal) : ns_temporal :=
  with_time (tmp_int_prop v ($"hour") 0) (tmp_int_prop v ($"minute") 0) (tmp_int_prop v ($"second") 0)
    (tmp_int_prop v ($"millisecond") 0) (tmp_int_prop v ($"microsecond") 0)
    (tmp_int_prop v ($"nanosecond") 0) t.

Definition tmp_time_from (v : js_value) : result ns_temporal :=
  let t := new_temporal TK_PLAINTIME in
  let done t := t ← tmp_norm_time t; filled t in
  match v with
  | JString s =>
      match ns_dt_rd_time s with
      | None => RangeError ($"invalid PlainTime string")
      | Some (m, _) =>
          done (with_time (Z.quot m 3600000) (Z.rem (Z.quot m 60000) 60)
                  (Z.rem (Z.quot m 1000) 60) (Z.rem m 1000) 0 0 t)
      end
  | JTemporal src =>
      if bool_decide (t_kind src = TK_PLAINTIME) || bool_decide (t_kind src = TK_PLAINDATETIME)
      then done (set_time_of src t) else done (time_props v t)
  | JObject _ => done (time_props v t)
  | JUndef => done t
  end.

Definition print_hms (t : ns_temporal) : bytes :=
  print_0d 2 (hour t) ++ $":" ++ print_0d 2 (minute t) ++ $":" ++ print_0d 2 (second t).

Definition tmp_time_toString (this : js_value) : result bytes :=
  bind (tmp_this this TK_PLAINTIME) (fun t =>
    Ok (print_hms t ++ tmp_append_frac (ms t) (us t) (ns t))).

Definition tmp_time_add_impl (this durv : js_value) (sign : Z) : result ns_temporal :=
  t ← tmp_this this TK_PLAINTIME;
  let d := tmp_read_dur durv in
  let add i v := p ← int64 (sign * nthz d i); int32 (v + wrap_s 32 p) in
  h ← add 4%nat (hour t); mi ← add 5%nat (minute t); s ← add 6%nat (second t);
  m ← add 7%nat (ms t); u ← add 8%nat (us t); n ← add 9%nat (ns t);
  t ← tmp_norm_time (with_time h mi s m u n (copy TK_PLAINTIME t));
  filled t.

Definition tmp_time_add (this durv : js_value) := tmp_time_add_impl this durv 1.
Definition tmp_time_subtract (this durv : js_value) := tmp_time_add_impl this durv (-1).

(** ** PlainDateTime *)

Definition tmp_datetime_from (v : js_value) : result ns_temporal :=
  let t := new_temporal TK_PLAINDATETIME in
  match v with
  | JString s =>
      match tmp_parse_datetime s with
      | None => RangeError ($"invalid PlainDateTime string")
      | Some p =>
          let '(y, mo, d) := p_date p in let '(h, mi, se) := p_time p in
          let '(m, u, n) := p_frac p in
          filled (with_time h mi se m u n (tmp_set_date_fields y mo d t))
      end
  | JTemporal _ | JObject _ =>
      filled (time_props v (tmp_set_date_fields (tmp_int_prop v ($"year") 1970)
                (tmp_int_prop v ($"month") 1) (tmp_int_prop v ($"day") 1) t))
  | JUndef => filled t
  end.

Definition tmp_datetime_ctor (args : list Z) : result ns_temporal :=
  t ← tmp_norm_time (with_time (arg args 3 0) (arg args 4 0) (arg args 5 0)
        (arg args 6 0) (arg args 7 0) (arg args 8 0)
        (tmp_set_date_fields (arg args 0 1970) (arg args 1 1) (arg args 2 1)
           (new_temporal TK_PLAINDATETIME)));
  filled t.

Definition tmp_datetime_toString (this : js_value) : result bytes :=
  bind (tmp_this this TK_PLAINDATETIME) (fun t =>
    Ok (print_0d 4 (year t) ++ $"-" ++ print_0d 2 (month t) ++ $"-" ++ print_0d 2 (day t) ++ $"T" ++
        print_hms t ++ tmp_append_frac (ms t) (us t) (ns t))).

Definition tmp_datetime_add_impl (this durv : js_value) (sign : Z) : result ns_temporal :=
  t ← tmp_this this TK_PLAINDATETIME;
  let d := tmp_read_dur durv in
  tns ← time_ns t;
  add ← dot64 (time_units d);
  tns ← dot64 [(tns, 1); (sign, add)];
  cut ← (if 0 <=? tns then Ok tns else int64 (tns - (NS_PER_DAY - 1)));
  let carry := Z.quot cut NS_PER_DAY in
  let nt := split_time (tns - carry * NS_PER_DAY) (copy TK_PLAINDATETIME t) in
  date ← add_months nt (nthz d 0) (nthz d 1) sign;
  days ← add_weeks date (nthz d 2) (nthz d 3) sign;
  days ← int64 (days + carry);
  date ← civil_date days;
  filled (with_date date nt).

Definition tmp_datetime_add (this durv : js_value) := tmp_datetime_add_impl this durv 1.
Definition tmp_datetime_subtract (this durv : js_value) := tmp_datetime_add_impl this durv (-1).

Definition tmp_datetime_toPlainDate (this : js_value) : result ns_temporal :=
  bind (tmp_this this TK_PLAINDATETIME) (fun t => filled (set_date_of t (new_temporal TK_PLAINDATE))).
Definition tmp_datetime_toPlainTime (this : js_value) : result ns_temporal :=
  bind (tmp_this this TK_PLAINDATETIME) (fun t => filled (set_time_of t (new_temporal TK_PLAINTIME))).

(** ** PlainYearMonth and PlainMonthDay *)

(** [sscanf(s, "%d-%d", &a, &b) >= 2] *)
Definition scan_d_d (s : bytes) : option (Z * Z) :=
  '(a, s) ← scan_d s; s ← expect "-" s; '(b, _) ← scan_d s; Some (a, b).

Definition clamp_month (m : Z) : Z := if m <? 1 then 1 else if 12 <? m then 12 else m.

Definition tmp_yearmonth_from (v : js_value) : result ns_temporal :=
  let t := new_temporal TK_PLAINYEARMONTH in
  let '(y, m) :=
    match v with
    | JString s => default (1970, 1) (scan_d_d s)
    | JUndef => (1970, 1)
    | _ => (tmp_int_prop v ($"year") 1970, tmp_int_prop v ($"month") 1)
    end in
  filled (with_date (y, clamp_month m, 1) t).

Definition tmp_yearmonth_ctor (args : list Z) : result ns_temporal :=
  filled (with_date (arg args 0 1970, clamp_month (arg args 1 1), 1) (new_temporal TK_PLAINYEARMONTH)).

Definition tmp_yearmonth_toString (this : js_value) : result bytes :=
  bind (tmp_this this TK_PLAINYEARMONTH) (fun t =>
    Ok (take 15 (print_0d 4 (year t) ++ $"-" ++ print_0d 2 (month t)))).

Definition tmp_monthday_from (v : js_value) : result ns_temporal :=
  let t := new_temporal TK_PLAINMONTHDAY in
  let '(m, d) :=
    match v with
    | JString s => default (1, 1) (scan_d_d (if prefixb ($"--") s then drop 2 s else s))
    | JUndef => (1, 1)
    | _ => (tmp_int_prop v ($"month") 1, tmp_int_prop v ($"day") 1)
    end in
  filled (with_date (1972, clamp_month m, d) t).

Definition tmp_monthday_ctor (args : list Z) : result ns_temporal :=
  filled (with_date (1972, clamp_month (arg args 0 1), arg args 1 1) (new_temporal TK_PLAINMONTHDAY)).

Definition tmp_monthday_toString (this : js_value) : result bytes :=
  bind (tmp_this this TK_PLAINMONTHDAY) (fun t =>
    Ok (take 15 (print_0d 2 (month t) ++ $"-" ++ print_0d 2 (day t)))).

(** ** ZonedDateTime *)

(** The text between brackets, when there is one and it is not empty. *)
Definition bracketed (s : bytes) : option bytes :=
  br ← strchr s "[";
  end_ ← strchr br "]";
  let name := before (drop 1 br) "]" in
  match name with [] => None | _ => Some name end.

Definition tmp_zoned_from (v : js_value) : result ns_temporal :=
  let t := with_tz (Some ($"UTC")) (new_temporal TK_ZONEDDATETIME) in
  match v with
  | JString s =>
      match tmp_parse_datetime s with
      | None => filled t
      | Some p =>
          let t := with_epoch (parsed_epoch p) (parsed_nanos p) t in
          filled (match bracketed s with Some z => with_tz (Some z) t | None => t end)
      end
  | _ => filled t
  end.

Definition tmp_zoned_ctor (ns : Z) (z : js_value) : result ns_temporal :=
  t ← set_epoch_ns ns (new_temporal TK_ZONEDDATETIME);
  filled (with_tz (Some (match z with JString s => s | _ => $"UTC" end)) t).

Definition tmp_zoned_toString (this : js_value) : result bytes :=
  bind (tmp_this this TK_ZONEDDATETIME) (fun t =>
    Ok (print_civil (tmp_breakdown (epoch_sec t)) ++ nanos_frac (nanos t) ++
        $"+00:00[" ++ default ($"UTC") (tz t) ++ $"]")).

Definition tmp_zoned_toInstant (this : js_value) : result ns_temporal :=
  bind (tmp_this this TK_ZONEDDATETIME) (fun t =>
    filled (with_epoch (epoch_sec t) (nanos t) (new_temporal TK_INSTANT))).

Definition tmp_zoned_toPlainDateTime (this : js_value) : result ns_temporal :=
  bind (tmp_this this TK_ZONEDDATETIME) (fun t =>
    let '(date, (h, mi, s)) := tmp_breakdown (epoch_sec t) in
    filled (with_time h mi s (Z.quot (nanos t) 1000000) (Z.rem (Z.quot (nanos t) 1000) 1000)
              (Z.rem (nanos t) 1000) (with_date date (new_temporal TK_PLAINDATETIME)))).

(** ** Duration *)

Definition tmp_duration_ctor (args : list Z) : result ns_temporal :=
  filled (with_dur (map (fun i => arg args i 0) (seq 0 10)) (new_temporal TK_DURATION)).

(** The object form of [Duration.from]. *)
Definition tmp_duration_from_object (v : js_value) : result ns_temporal :=
  filled (with_dur (map (fun n => tmp_int_prop v n 0) duration_names) (new_temporal TK_DURATION)).

Definition dur_part (v : Z) (unit : bytes) : bytes := if v =? 0 then [] else print_d v ++ unit.

(** [x < 0 ? -x : x] on [int64_t] *)
Definition abs64 (v : Z) : result Z := if v <? 0 then int64 (- v) else Ok v.

Fixpoint each {A B} (f : A -> result B) (l : list A) : result (list B) :=
  match l with
  | [] => Ok []
  | x :: l => y ← f x; l ← each f l; Ok (y :: l)
  end.

Definition duration_text (d : list Z) : result bytes :=
  let sign := duration_sign d in
  a ← each abs64 d;
  let head := (if sign <? 0 then $"-" else []) ++ $"P" in
  let date := dur_part (nthz a 0) ($"Y") ++ dur_part (nthz a 1) ($"M") ++
              dur_part (nthz a 2) ($"W") ++ dur_part (nthz a 3) ($"D") in
  frac_ns ← dot64 [(nthz a 7, 1000000); (nthz a 8, 1000); (nthz a 9, 1)];
  let time :=
    if (nthz a 4 =? 0) && (nthz a 5 =? 0) && (nthz a 6 =? 0) && (frac_ns =? 0) then []
    else
      $"T" ++ dur_part (nthz a 4) ($"H") ++ dur_part (nthz a 5) ($"M") ++
      (if (nthz a 6 =? 0) && (frac_ns =? 0) then []
       else print_d (nthz a 6) ++
            (if frac_ns =? 0 then []
             else $"." ++ strip_zeros (take 9 (print_0d 9 frac_ns))) ++ $"S") in
  let s := head ++ date ++ time in
  Ok (if (length s =? 1)%nat then s ++ $"T0S" else s).

Definition tmp_duration_toString (this : js_value) : result bytes :=
  bind (tmp_this this TK_DURATION) (fun t => duration_text (dur t)).

Definition tmp_duration_arith (this other : js_value) (sign : Z) : result ns_temporal :=
  t ← tmp_this this TK_DURATION;
  d ← each (fun p => dot64 [(p.1, 1); (sign, p.2)]) (zip (dur t) (tmp_read_dur other));
  filled (with_dur d (new_temporal TK_DURATION)).
Definition tmp_duration_add (this other : js_value) := tmp_duration_arith this other 1.
Definition tmp_duration_subtract (this other : js_value) := tmp_duration_arith this other (-1).

Definition tmp_duration_unary (this : js_value) (abs : bool) : result ns_temporal :=
  t ← tmp_this this TK_DURATION;
  d ← each (if abs then abs64 else fun v => int64 (- v)) (dur t);
  filled (with_dur d (new_temporal TK_DURATION)).
Definition tmp_duration_negated (this : js_value) := tmp_duration_unary this false.
Definition tmp_duration_abs (this : js_value) := tmp_duration_unary this true.

(** ** Concrete runs *)

Example instant_string :
  bind (tmp_instant_from (JString ($"2024-02-29T23:59:60.5+01:30"))) (fun t => tmp_instant_toString (JTemporal t))
  = Ok ($"2024-02-29T22:30:00.5Z").
Proof. vm_compute. reflexivity. Qed.

(** A month later than 31 January is the end of February. *)
Example month_end :
  bind (tmp_date_from (JString ($"2023-01-31"))) (fun t =>
  bind (tmp_date_add (JTemporal t) (JObject (fun k => if k =b $"months" then Int 1 else Undefined))) (fun t =>
  tmp_date_toString (JTemporal t))) = Ok ($"2023-02-28").
Proof. vm_compute. reflexivity. Qed.

(** The reader of date-times does not check the time: an hour of 99 is taken. *)
Example instant_hour_99 :
  bind (tmp_instant_from (JString ($"2024-01-01T99:99Z"))) (fun t => tmp_instant_toString (JTemporal t))
  = Ok ($"2024-01-05T04:39:00Z").
Proof. vm_compute. reflexivity. Qed.

(** 1500 milliseconds are printed as 0.15 seconds: of the ten digits of the
    fraction in nanoseconds the first nine are kept. *)
Example duration_1500ms :
  bind (tmp_duration_ctor [0; 0; 0; 0; 0; 0; 0; 1500]) (fun t => tmp_duration_toString (JTemporal t))
  = Ok ($"PT0.15S").
Proof. vm_compute. reflexivity. Qed.

(** A few million hours leave [int64_t]: the product with the nanoseconds of an
    hour does, before any clamp of the year is reached. *)
Example datetime_add_overflows :
  tmp_datetime_add (JTemporal (with_date (2024, 1, 1) (new_temporal TK_PLAINDATETIME)))
    (JObject (fun k => if k =b $"hours" then Int 3000000 else Undefined)) = Overflow.
Proof. vm_compute. reflexivity. Qed.

(** An instant after the year 2262 has no number of nanoseconds in [int64_t],
    which [tmp_fill] computes for every instant. *)
Example instant_from_overflows :
  tmp_instant_from (JString ($"2263-01-01T00:00:00Z")) = Overflow.
Proof. vm_compute. reflexivity. Qed.

(** ** Checked arithmetic in range *)

Definition sum (l : list (Z * Z)) : Z := fold_right (fun p acc => p.1 * p.2 + acc) 0 l.
Definition sum_abs (l : list (Z * Z)) : Z := fold_right (fun p acc => Z.abs (p.1 * p.2) + acc) 0 l.

Lemma int64_ok z : - 9223372036854775808 <= z < 9223372036854775808 -> int64 z = Ok z.
Proof. intros H. unfold int64, fits. change (2 ^ (64 - 1)) with 9223372036854775808. case_test; [done|lia]. Qed.
Lemma int32_ok z : - 2147483648 <= z < 2147483648 -> int32 z = Ok z.
Proof. intros H. unfold int32, fits. change (2 ^ (32 - 1)) with 2147483648. case_test; [done|lia]. Qed.

Lemma sum_abs_ge l : Z.abs (sum l) <= sum_abs l.
Proof. induction l as [|p l IH]; cbn [sum sum_abs fold_right]; [done|]. unfold sum, sum_abs in *. lia. Qed.

Lemma dot64_from_ok l acc :
  Z.abs acc + sum_abs l < 9223372036854775808 -> dot64_from acc l = Ok (acc + sum l).
Proof.
  revert acc. induction l as [|[a b] l IH]; intros acc H; cbn [dot64_from sum fold_right fst snd].
  - by rewrite Z.add_0_r.
  - cbn [sum_abs fold_right fst snd] in H. fold (sum_abs l) in H. pose proof (sum_abs_ge l).
    rewrite int64_ok by lia. cbn_ok. rewrite int64_ok by lia. cbn_ok.
    rewrite IH by lia. fold (sum l). by rewrite Z.add_assoc.
Qed.

Lemma dot64_ok l : sum_abs l < 9223372036854775808 -> dot64 l = Ok (sum l).
Proof. intros H. unfold dot64. rewrite dot64_from_ok by lia. done. Qed.

(** ** Dates stay valid *)

Definition date_ok (t : ns_temporal) : Prop :=
  valid_date (year t) (month t) (day t) /\ Z.abs (year t) <= NS_DT_MAX_YEAR.

Lemma dim_leap_max y m : 1 <= m <= 12 ->
  ns_dt_days_in_month y m <= ns_dt_days_in_month NS_DT_MAX_YEAR m /\
  ns_dt_days_in_month y m <= ns_dt_days_in_month (- NS_DT_MAX_YEAR) m.
Proof.
  intros Hm. rewrite !dim_spec by done.
  change (is_leap NS_DT_MAX_YEAR) with true. change (is_leap (- NS_DT_MAX_YEAR)) with true.
  destruct (is_leap y), (m =? 2); lia.
Qed.

(** The clamp of the year goes to leap years, so it keeps a date valid. *)
Lemma clamp_year_ok t :
  valid_date (year t) (month t) (day t) -> date_ok (clamp_year t).
Proof.
  intros [Hm Hd]. pose proof (dim_leap_max (year t) _ Hm) as L.
  unfold date_ok, clamp_year, valid_date. cbn [year month day with_date fst snd].
  unfold NS_DT_MAX_YEAR in *. repeat case_test; boolify; repeat split; lia.
Qed.

Lemma clamp_year_id t : Z.abs (year t) <= NS_DT_MAX_YEAR -> clamp_year t = t.
Proof.
  intros H. unfold clamp_year. unfold NS_DT_MAX_YEAR in *. change (Z.opp 275760) with (-275760).
  assert ((if 275760 <? (if year t <? -275760 then -275760 else year t) then 275760
           else if year t <? -275760 then -275760 else year t) = year t) as ->.
  { repeat case_test; boolify; lia. }
  by destruct t.
Qed.

Lemma set_date_fields_valid y mo d t :
  let t' := tmp_set_date_fields y mo d t in valid_date (year t') (month t') (day t').
Proof.
  unfold tmp_set_date_fields, valid_date. cbn [year month day with_date fst snd].
  set (mo1 := if 12 <? _ then 12 else _).
  assert (Hm : 1 <= mo1 <= 12) by (unfold mo1; repeat case_test; boolify; lia).
  pose proof (days_in_month_pos y mo1 Hm). clearbody mo1. split; [done|].
  repeat case_test; boolify; lia.
Qed.

(** A valid date keeps its fields. *)
Lemma set_date_fields_id y mo d t :
  valid_date y mo d -> tmp_set_date_fields y mo d t = with_date (y, mo, d) t.
Proof.
  intros [Hm Hd]. unfold tmp_set_date_fields.
  assert ((if 12 <? (if mo <? 1 then 1 else mo) then 12 else if mo <? 1 then 1 else mo) = mo) as ->
    by (repeat case_test; boolify; lia).
  f_equal. f_equal. repeat case_test; boolify; lia.
Qed.

Lemma days_bound y m d : valid_date y m d -> Z.abs (ns_dt_days_from_civil y m d) <= 366 * Z.abs y + 720000.
Proof.
  intros V. destruct (days_linear _ _ _ V) as [-> B]. unfold year_days in *.
  assert (shifted y m = y \/ shifted y m = y - 1) as [-> | ->] by (unfold shifted; case_test; lia); zdiv.
Qed.

(** [bind] keeps what holds of every result. *)
Lemma bind_Ok {A B} (r : result A) (f : A -> result B) b :
  bind r f = Ok b -> exists a, r = Ok a /\ f a = Ok b.
Proof. destruct r; try discriminate. eauto. Qed.

Lemma this_Ok v k t : tmp_this v k = Ok t -> v = JTemporal t /\ t_kind t = k.
Proof. destruct v as [| |t'|]; try discriminate. cbn. case_bool_decide; [|done]. by intros [= ->]. Qed.

(** Years and months on the line of months: what [add_months] computes on
    [int] and [long] when the numbers are in range. *)
Lemma add_months_spec t y mo sign :
  date_ok t -> Z.abs y <= 10 ^ 9 -> Z.abs mo <= 10 ^ 9 -> sign = 1 \/ sign = -1 ->
  let months := year t * 12 + (month t - 1) + sign * (y * 12 + mo) in
  let ny := months / 12 in
  let nmo := months mod 12 + 1 in
  let nd := Z.min (day t) (ns_dt_days_in_month ny nmo) in
  add_months t y mo sign = Ok (ny, nmo, nd) /\ valid_date ny nmo nd /\ Z.abs ny <= 1100000000.
Proof.
  change (10 ^ 9) with 1000000000. intros [[Hm Hd] Hy] By Bmo Hs months ny nmo nd.
  unfold NS_DT_MAX_YEAR in Hy.
  assert (Bs : Z.abs (sign * y) <= 1000000000 /\ Z.abs (sign * mo) <= 1000000000) by (destruct Hs as [-> | ->]; lia).
  assert (En : months = (year t + sign * y) * 12 + (month t - 1 + sign * mo)) by (unfold months; lia).
  assert (Hmo : 1 <= nmo <= 12) by (unfold nmo; zdiv).
  pose proof (days_in_month_pos ny nmo Hmo). split; [|split; [split; [done|unfold nd; lia]|unfold ny; zdiv]].
  unfold add_months. rewrite (int64_ok (sign * y)) by lia. cbn_ok.
  rewrite wrap_s_small by (try lia; change (2 ^ (32 - 1)) with 2147483648; lia).
  rewrite (int32_ok (year t + sign * y)) by lia. cbn_ok.
  rewrite (int64_ok (sign * mo)) by lia. cbn_ok. rewrite (int64_ok (month t - 1 + sign * mo)) by lia. cbn_ok.
  set (tm := month t - 1 + sign * mo) in *. assert (Btm : Z.abs tm <= 1000000011) by lia.
  assert (Q : Z.quot (if 0 <=? tm then tm else tm - 11) 12 = tm / 12) by (apply (quot_floor tm 12); lia).
  assert (Ec : (if 0 <=? tm then Ok tm else int64 (tm - 11)) = Ok (if 0 <=? tm then tm else tm - 11)).
  { destruct (0 <=? tm); [done|]. apply int64_ok. lia. }
  rewrite Ec. cbn_ok. rewrite Q.
  assert (Bq : Z.abs (tm / 12) <= 90000000) by (clear - Btm; zdiv).
  rewrite (wrap_s_small 32 (tm / 12)) by (try lia; change (2 ^ (32 - 1)) with 2147483648; lia).
  assert (EQ : year t + sign * y + tm / 12 = ny) by (unfold ny; rewrite En, Z.div_add_l; lia).
  rewrite int32_ok by lia. rewrite EQ. cbn_ok. rewrite floormod_mod by lia.
  replace (tm mod 12) with (months mod 12) by (rewrite En, Z.add_comm, Z.mod_add; lia).
  rewrite wrap_s_small by (try lia; change (2 ^ (32 - 1)) with 2147483648; unfold nmo in Hmo; lia).
  fold nmo. f_equal. f_equal. unfold nd. case_test; boolify; lia.
Qed.

Lemma add_weeks_ok y m d w k sign :
  valid_date y m d -> Z.abs y <= 1100000000 -> Z.abs w <= 10 ^ 17 -> Z.abs k <= 10 ^ 17 ->
  sign = 1 \/ sign = -1 ->
  let days := ns_dt_days_from_civil y m d + sign * (w * 7 + k) in
  add_weeks (y, m, d) w k sign = Ok days /\ Z.abs days <= 900000000000000000.
Proof.
  change (10 ^ 17) with 100000000000000000. intros V By Bw Bk Hs days. pose proof (days_bound _ _ _ V) as DB.
  assert (B : Z.abs days <= 900000000000000000) by (unfold days; destruct Hs as [-> | ->]; lia).
  split; [|done]. unfold add_weeks.
  rewrite dot64_ok by (cbn [sum_abs fold_right fst snd]; lia). cbn_ok. cbn [sum fold_right fst snd].
  rewrite dot64_ok; [cbn [sum fold_right fst snd]; unfold days; f_equal; lia|].
  cbn [sum_abs fold_right fst snd]. destruct Hs as [-> | ->]; lia.
Qed.

Lemma civil_date_spec k :
  Z.abs k <= 110000000000 ->
  exists y m d, civil_date k = Ok (y, m, d) /\ valid_date y m d /\ ns_dt_days_from_civil y m d = k.
Proof.
  intros Hk. unfold civil_date. rewrite int64_ok by lia. cbn_ok.
  pose proof (civil_days k ltac:(lia)) as C. destruct (ns_dt_civil_from_days k) as [[y m] d].
  exists y, m, d. by destruct C.
Qed.

Lemma add_date_valid y mo w d sign t :
  date_ok t -> Z.abs y <= 10 ^ 8 -> Z.abs mo <= 10 ^ 8 -> Z.abs w <= 10 ^ 8 -> Z.abs d <= 10 ^ 8 ->
  sign = 1 \/ sign = -1 ->
  exists p, tmp_add_date y mo w d sign t = Ok (with_date p t) /\ valid_date p.1.1 p.1.2 p.2.
Proof.
  change (10 ^ 8) with 100000000. intros Ht By Bmo Bw Bd Hs.
  assert (By' : Z.abs y <= 10 ^ 9) by (change (10 ^ 9) with 1000000000; lia).
  assert (Bmo' : Z.abs mo <= 10 ^ 9) by (change (10 ^ 9) with 1000000000; lia).
  destruct (add_months_spec t y mo sign Ht By' Bmo' Hs) as (E & VM & Bn). cbv zeta in E, VM, Bn.
  assert (Bn' : Z.abs ((year t * 12 + (month t - 1) + sign * (y * 12 + mo)) / 12) <= 120000000).
  { destruct Ht as [[Hm _] Hy]. unfold NS_DT_MAX_YEAR in Hy. clear E VM. destruct Hs as [-> | ->]; zdiv. }
  unfold tmp_add_date. rewrite E. cbn_ok.
  destruct (add_weeks_ok _ _ _ w d sign VM Bn) as [-> _]; [change (10 ^ 17) with 100000000000000000; lia..|done|].
  pose proof (days_bound _ _ _ VM) as DB. clear E. cbn_ok.
  set (dd := ns_dt_days_from_civil _ _ _) in *.
  destruct (civil_date_spec (dd + sign * (w * 7 + d))) as (y' & m' & d' & -> & V & _).
  { clear - DB Bn' Bw Bd Hs. clearbody dd. destruct Hs as [-> | ->]; lia. }
  by exists (y', m', d').
Qed.

(** The first ten fields of a duration are within [10^8]: what the arithmetic
    on [int] years and days is meant for. *)
Definition small_dur (d : list Z) : Prop := Forall (fun v => Z.abs v <= 10 ^ 8) d.

Lemma small_nth d i : small_dur d -> Z.abs (nthz d i) <= 10 ^ 8.
Proof.
  intros H. unfold nthz. destruct (nth_in_or_default i d 0) as [I| ->]; [|done].
  unfold small_dur in H. rewrite List.Forall_forall in H. by apply H.
Qed.

Lemma filled_date_ok t :
  t_kind t = TK_PLAINDATE -> valid_date (year t) (month t) (day t) ->
  exists t', filled t = Ok t' /\ date_ok t' /\ t_kind t' = TK_PLAINDATE.
Proof.
  intros K V. exists (clamp_year t). unfold filled. rewrite K. split; [done|]. by split; [apply clamp_year_ok|].
Qed.

Lemma date_op_ok r t :
  (exists t', r = Ok t' /\ date_ok t' /\ t_kind t' = TK_PLAINDATE) -> r = Ok t ->
  date_ok t /\ t_kind t = TK_PLAINDATE.
Proof. intros (t' & -> & H) [= ->]. done. Qed.

(** A [PlainDate] is a date of the calendar: whatever strings, objects,
    numbers or (in range) durations [from], the constructor, [with], [add] and
    [subtract] are given, a result they return is a valid date with a year in
    the supported range. *)
Theorem plain_dates_valid (v this f durv : js_value) (args : list Z) (t : ns_temporal) :
  (v <> JUndef -> tmp_date_from v = Ok t -> date_ok t /\ t_kind t = TK_PLAINDATE) /\
  (tmp_date_ctor args = Ok t -> date_ok t /\ t_kind t = TK_PLAINDATE) /\
  (tmp_date_with this f = Ok t -> date_ok t /\ t_kind t = TK_PLAINDATE) /\
  (forall t0 sign, this = JTemporal t0 -> date_ok t0 -> small_dur (tmp_read_dur durv) ->
     sign = 1 \/ sign = -1 ->
     tmp_date_add_impl this durv sign = Ok t -> date_ok t /\ t_kind t = TK_PLAINDATE).
Proof.
  split; [|split; [|split]].
  - intros Hv. unfold tmp_date_from.
    destruct v as [|s|src|get]; [done| | |].
    + intros E. destruct (ns_dt_rd_date s) as [[[[y mo] d] r]|]; [|done]. revert E. apply date_op_ok.
      apply filled_date_ok; [done|apply set_date_fields_valid].
    + apply date_op_ok. destruct (_ || _); (apply filled_date_ok; [done|apply set_date_fields_valid]).
    + apply date_op_ok. apply filled_date_ok; [done|apply set_date_fields_valid].
  - apply date_op_ok, filled_date_ok; [done|apply set_date_fields_valid].
  - intros (t0 & E & H)%bind_Ok. revert H. apply date_op_ok, filled_date_ok; [done|apply set_date_fields_valid].
  - intros t0 sign -> Hok Hd Hs (t1 & E & H)%bind_Ok. apply this_Ok in E as [[= <-] Hk].
    revert H. cbv beta zeta. apply date_op_ok.
    destruct (add_date_valid (nthz (tmp_read_dur durv) 0) (nthz (tmp_read_dur durv) 1)
      (nthz (tmp_read_dur durv) 2) (nthz (tmp_read_dur durv) 3) sign (copy TK_PLAINDATE t0)) as (p & -> & V);
      try done; try by apply small_nth.
    exact (filled_date_ok (with_date p (copy TK_PLAINDATE t0)) eq_refl V).
Qed.

Definition plain_date (y m d : Z) : ns_temporal :=
  with_date (y, m, d) (new_temporal TK_PLAINDATE).

Lemma plain_dates_valid_witness :
  date_ok (plain_date 2023 2 28) /\ t_kind (plain_date 2023 2 28) = TK_PLAINDATE.
Proof.
  apply (plain_dates_valid (JString ($"2023-01-31")) (JTemporal (plain_date 2023 1 31)) JUndef
    (JTemporal (with_dur [0; 1; 0; 0; 0; 0; 0; 0; 0; 0] (new_temporal TK_DURATION))) []
    (plain_date 2023 2 28)) with (t0 := plain_date 2023 1 31) (sign := 1).
  - reflexivity.
  - split; [split; split; vm_compute; discriminate|vm_compute; discriminate].
  - repeat constructor; vm_compute; discriminate.
  - by left.
  - vm_compute. reflexivity.
Defined.

Definition lexb (a b : Z * Z * Z) : bool :=
  let '(y, m, d) := a in let '(y', m', d') := b in
  (y <? y') || ((y =? y') && ((m <? m') || ((m =? m') && (d <? d')))).

Lemma lexb_spec a b : lexb a b = true <-> date_lt a b.
Proof.
  destruct a as [[y m] d], b as [[y' m'] d']. unfold lexb, date_lt.
  repeat rewrite ?orb_true_iff, ?andb_true_iff, ?Z.ltb_lt, ?Z.eqb_eq. lia.
Qed.

Lemma lexb_days y m d y' m' d' :
  valid_date y m d -> valid_date y' m' d' ->
  (ns_dt_days_from_civil y m d <? ns_dt_days_from_civil y' m' d') = lexb (y, m, d) (y', m', d').
Proof.
  intros V V'. apply eq_true_iff_eq. rewrite Z.ltb_lt, lexb_spec.
  by destruct (days_compare _ _ _ _ _ _ V V').
Qed.

(** Adding a number of days to a date. *)
Lemma add_days_only y m d y' m' d' sign k :
  date_ok (plain_date y m d) -> date_ok (plain_date y' m' d') -> sign = 1 \/ sign = -1 ->
  ns_dt_days_from_civil y m d + sign * k = ns_dt_days_from_civil y' m' d' ->
  tmp_date_add_impl (JTemporal (plain_date y m d))
    (JTemporal (with_dur [0; 0; 0; k; 0; 0; 0; 0; 0; 0] (new_temporal TK_DURATION))) sign
  = Ok (plain_date y' m' d').
Proof.
  intros [V Hy] [V' Hy'] Hs E. cbn [year month day plain_date with_date fst snd] in *.
  unfold tmp_date_add_impl. cbn [tmp_this bind t_kind plain_date with_date new_temporal].
  rewrite bool_decide_eq_true_2 by done. cbn_ok.
  destruct (add_months_spec (copy TK_PLAINDATE (plain_date y m d)) 0 0 sign) as (A & _); [by split|done..|].
  cbn [year month day copy plain_date with_date new_temporal fst snd] in A. rewrite Z.mul_0_r, Z.add_0_r in A.
  replace ((y * 12 + (m - 1)) / 12) with y in A by (destruct V; zdiv).
  replace ((y * 12 + (m - 1)) mod 12 + 1) with m in A by (destruct V; zdiv).
  rewrite Z.min_l in A by apply V.
  unfold tmp_read_dur. cbn [t_kind with_dur new_temporal]. rewrite bool_decide_eq_true_2 by done.
  cbn [dur with_dur nthz nth]. unfold nthz. cbn [nth]. unfold tmp_add_date. rewrite A. cbn_ok.
  unfold NS_DT_MAX_YEAR in *. pose proof (days_bound _ _ _ V). pose proof (days_bound _ _ _ V').
  destruct (add_weeks_ok y m d 0 k sign V) as [-> _];
    [lia|done|change (10 ^ 17) with 100000000000000000; destruct Hs as [-> | ->]; lia|done|]. cbn_ok.
  replace (ns_dt_days_from_civil y m d + sign * (0 * 7 + k)) with (ns_dt_days_from_civil y' m' d') by lia.
  unfold civil_date. rewrite int64_ok by lia. cbn_ok.
  rewrite (civil_formula _ y' m' d') by (done || lia).
  unfold filled, tmp_fill. cbn [fst t_kind with_date copy plain_date new_temporal]. f_equal.
  rewrite clamp_year_id; [done|]. exact Hy'.
Qed.

(** Dates are ordered by the calendar, and the difference of two dates is
    what has to be added: [compare] is the order on year, month and day, and
    adding [a.until(b)] to [a], or subtracting [a.since(b)], gives [b]. *)
Theorem date_until_add (y m d y' m' d' : Z) :
  date_ok (plain_date y m d) -> date_ok (plain_date y' m' d') ->
  let a := JTemporal (plain_date y m d) in let b := JTemporal (plain_date y' m' d') in
  tmp_date_compare a b =
    Ok (if lexb (y, m, d) (y', m', d') then -1 else if lexb (y', m', d') (y, m, d) then 1 else 0) /\
  bind (tmp_date_until a b) (fun u => tmp_date_add a (JTemporal u)) = Ok (plain_date y' m' d') /\
  bind (tmp_date_since a b) (fun u => tmp_date_subtract a (JTemporal u)) = Ok (plain_date y' m' d').
Proof.
  intros Ha Hb. cbv zeta. split.
  - destruct Ha as [V _], Hb as [V' _]. cbn [year month day plain_date with_date fst snd] in *.
    unfold tmp_date_compare, tmp_cmp_date, date_days. cbn [year month day plain_date with_date fst snd].
    by rewrite !lexb_days.
  - unfold tmp_date_until, tmp_date_since, tmp_date_until_impl. cbn [tmp_this bind t_kind plain_date with_date new_temporal].
    rewrite !bool_decide_eq_true_2 by done. cbn_ok. unfold filled, tmp_fill. cbn [fst bind].
    rewrite !clamp_year_id by (vm_compute; discriminate).
    unfold date_days. cbn [year month day fst snd new_temporal].
    split; apply add_days_only; try done; try (by left); try (by right); cbn [year month day plain_date with_date fst snd]; lia.
Qed.

Lemma date_until_add_witness :
  bind (tmp_date_until (JTemporal (plain_date 2024 1 31)) (JTemporal (plain_date 2023 3 1)))
    (fun u => tmp_date_add (JTemporal (plain_date 2024 1 31)) (JTemporal u)) = Ok (plain_date 2023 3 1).
Proof.
  apply (date_until_add 2024 1 31 2023 3 1);
    (split; [split; split; vm_compute; discriminate|vm_compute; discriminate]).
Defined.

(** ** Times *)

Definition time_ok (t : ns_temporal) : Prop :=
  0 <= hour t < 24 /\ 0 <= minute t < 60 /\ 0 <= second t < 60 /\
  0 <= ms t < 1000 /\ 0 <= us t < 1000 /\ 0 <= ns t < 1000.

Lemma quot_rem_cut v b : 0 <= v -> 0 < b -> v = b * Z.quot v b + Z.rem v b /\ 0 <= Z.rem v b < b /\ 0 <= Z.quot v b.
Proof.
  intros Hv Hb. split; [apply Z.quot_rem'|]. split; [apply Z.rem_bound_pos; lia|apply Z.quot_pos; lia].
Qed.

Lemma split_time_spec v t :
  0 <= v < NS_PER_DAY -> time_ok (split_time v t) /\ sum (clock_units (split_time v t)) = v.
Proof.
  unfold NS_PER_DAY, split_time, time_ok, clock_units. intros Hv. cbv zeta. cbn [sum fold_right fst snd].
  cbn [hour minute second ms us ns with_time].
  destruct (quot_rem_cut v 3600000000000) as (E1 & B1 & C1); try lia.
  generalize dependent (Z.quot v 3600000000000). generalize dependent (Z.rem v 3600000000000).
  intros v1 B1 h E1 C1. destruct (quot_rem_cut v1 60000000000) as (E2 & B2 & C2); try lia.
  generalize dependent (Z.quot v1 60000000000). generalize dependent (Z.rem v1 60000000000).
  intros v2 B2 mi E2 C2. destruct (quot_rem_cut v2 1000000000) as (E3 & B3 & C3); try lia.
  generalize dependent (Z.quot v2 1000000000). generalize dependent (Z.rem v2 1000000000).
  intros v3 B3 s E3 C3. destruct (quot_rem_cut v3 1000000) as (E4 & B4 & C4); try lia.
  generalize dependent (Z.quot v3 1000000). generalize dependent (Z.rem v3 1000000).
  intros v4 B4 m E4 C4. destruct (quot_rem_cut v4 1000) as (E5 & B5 & C5); try lia.
  generalize dependent (Z.quot v4 1000). generalize dependent (Z.rem v4 1000).
  intros n B5 u E5 C5.
  rewrite !wrap_s_small by (try lia; change (2 ^ (32 - 1)) with 2147483648; lia).
  split; [repeat apply conj|]; lia.
Qed.

Lemma rem_floor a : Z.rem (Z.rem a NS_PER_DAY + NS_PER_DAY) NS_PER_DAY = a mod NS_PER_DAY.
Proof. unfold NS_PER_DAY. zdiv. Qed.

Lemma sum_clock_with_date p t : sum (clock_units (with_date p t)) = sum (clock_units t).
Proof. reflexivity. Qed.

(** A duration whose years and months can be added to a supported date on
    [int], its weeks and days on [long], and whose time, together with the time
    of day, can be added up in nanoseconds on [int64_t]. *)
Definition in_range (t : ns_temporal) (d : list Z) : Prop :=
  Z.abs (nthz d 0) <= 10 ^ 9 /\ Z.abs (nthz d 1) <= 10 ^ 9 /\
  Z.abs (nthz d 2) <= 10 ^ 17 /\ Z.abs (nthz d 3) <= 10 ^ 17 /\
  sum_abs (clock_units t ++ time_units d) < 2 ^ 63 - NS_PER_DAY.

Lemma sum_abs_app l l' : sum_abs (l ++ l') = sum_abs l + sum_abs l'.
Proof. induction l as [|p l IH]; [done|]. cbn [app sum_abs fold_right]. unfold sum_abs in *. lia. Qed.

Lemma sum_abs_pos l : 0 <= sum_abs l.
Proof. pose proof (sum_abs_ge l). lia. Qed.

(** The time of the sum, cut into days and the time of a day. *)
Lemma add_clock_ok t d sign :
  sum_abs (clock_units t ++ time_units d) < 2 ^ 63 - NS_PER_DAY -> sign = 1 \/ sign = -1 ->
  let total := sum (clock_units t) + sign * sum (time_units d) in
  Z.abs total < 2 ^ 63 - NS_PER_DAY /\
  time_ns t = Ok (sum (clock_units t)) /\ dot64 (time_units d) = Ok (sum (time_units d)) /\
  dot64 [(sum (clock_units t), 1); (sign, sum (time_units d))] = Ok total /\
  exists cut, (if 0 <=? total then Ok total else int64 (total - (NS_PER_DAY - 1))) = Ok cut /\
    Z.quot cut NS_PER_DAY = total / NS_PER_DAY.
Proof.
  rewrite sum_abs_app. change (2 ^ 63 - NS_PER_DAY) with (9223372036854775808 - 86400000000000).
  pose proof (sum_abs_ge (clock_units t)) as A. pose proof (sum_abs_ge (time_units d)) as B.
  pose proof (sum_abs_pos (clock_units t)). pose proof (sum_abs_pos (time_units d)).
  intros Hb Hs total. unfold time_ns. rewrite !(dot64_ok (clock_units t)), !(dot64_ok (time_units d)) by lia.
  set (c := sum (clock_units t)) in *. set (u := sum (time_units d)) in *. clearbody c u.
  assert (Bt : Z.abs total < 9223372036854775808 - 86400000000000) by (unfold total; destruct Hs as [-> | ->]; lia).
  split; [done|]. split; [done|]. split; [done|]. split.
  { rewrite dot64_ok; cbn [sum sum_abs fold_right fst snd]; [unfold total; f_equal; lia|].
    destruct Hs as [-> | ->]; lia. }
  exists (if 0 <=? total then total else total - (NS_PER_DAY - 1)). split; [|by apply quot_floor].
  destruct (Z.leb_spec 0 total); [done|]. apply int64_ok. unfold NS_PER_DAY. lia.
Qed.

Lemma day_rest v : 0 <= v - v / NS_PER_DAY * NS_PER_DAY < NS_PER_DAY.
Proof. unfold NS_PER_DAY. zdiv. Qed.

(** A day within the supported years. *)
Lemma year_in_range y m d k :
  valid_date y m d -> ns_dt_days_from_civil y m d = k -> Z.abs k <= 99999000 -> Z.abs y <= NS_DT_MAX_YEAR.
Proof.
  intros V EV Hb. destruct (days_linear _ _ _ V) as [L B]. rewrite EV in L.
  unfold year_days, NS_DT_MAX_YEAR in *.
  assert (shifted y m = y \/ shifted y m = y - 1) as [S|S] by (unfold shifted; case_test; lia);
    rewrite S in *; zdiv.
Qed.

(** C39. Adding a duration to, or subtracting it from, a [PlainDateTime]: the
    years and months are added on the line of months and the day is cut to the
    length of the month reached; weeks, days and everything below are added on
    the line of nanoseconds. For every duration in the range of the arithmetic
    ([in_range]: about 292 years of hours and below), with a sum within the
    supported years, no operation on [int], [long] or [int64_t] overflows, the
    fields of the result are those of a time of day and of a valid date, and they
    are exactly the sum. Outside the range the code overflows
    ([datetime_add_overflows]). *)
Theorem datetime_add_exact (t : ns_temporal) (durv : js_value) (sign : Z) :
  t_kind t = TK_PLAINDATETIME -> date_ok t -> sign = 1 \/ sign = -1 ->
  let d := tmp_read_dur durv in
  in_range t d ->
  let months := year t * 12 + (month t - 1) + sign * (nthz d 0 * 12 + nthz d 1) in
  let ny := months / 12 in
  let nmo := months mod 12 + 1 in
  let nd := Z.min (day t) (ns_dt_days_in_month ny nmo) in
  let days := ns_dt_days_from_civil ny nmo nd + sign * (nthz d 2 * 7 + nthz d 3) in
  let total := sum (clock_units t) + sign * sum (time_units d) in
  Z.abs (days + total / NS_PER_DAY) <= 99999000 ->
  exists t', tmp_datetime_add_impl (JTemporal t) durv sign = Ok t' /\
    time_ok t' /\ date_ok t' /\ valid_date ny nmo nd /\
    date_days t' * NS_PER_DAY + sum (clock_units t') = days * NS_PER_DAY + total.
Proof.
  intros Hk Ht Hs d (H0 & H1 & H2 & H3 & Hc). cbv zeta.
  destruct (add_months_spec t (nthz d 0) (nthz d 1) sign Ht H0 H1 Hs) as (E & VM & Bn). cbv zeta in E, VM, Bn.
  destruct (add_weeks_ok _ _ _ (nthz d 2) (nthz d 3) sign VM Bn H2 H3 Hs) as [EW Bw].
  destruct (add_clock_ok t d sign Hc Hs) as (Bt & Ec & Ed & Ea & cut & Ecut & Eq).
  set (total := sum (clock_units t) + _) in *. set (days := ns_dt_days_from_civil _ _ _ + _) in *. intros Hb.
  unfold tmp_datetime_add_impl. cbn [tmp_this]. rewrite bool_decide_eq_true_2 by done. cbn_ok.
  fold d. rewrite Ec. cbn_ok. rewrite Ed. cbn_ok. rewrite Ea. cbn_ok. rewrite Ecut. cbn_ok. rewrite Eq.
  set (rest := total - total / NS_PER_DAY * NS_PER_DAY).
  assert (Hr : 0 <= rest < NS_PER_DAY) by apply day_rest.
  destruct (split_time_spec rest (copy TK_PLAINDATETIME t) Hr) as [Hto Hns].
  change (add_months (split_time rest (copy TK_PLAINDATETIME t)) (nthz d 0) (nthz d 1) sign)
    with (add_months t (nthz d 0) (nthz d 1) sign). rewrite E. cbn_ok. rewrite EW. cbn_ok.
  rewrite int64_ok by (clear - Hb; lia). cbn_ok.
  destruct (civil_date_spec (days + total / NS_PER_DAY)) as (y' & m' & d' & -> & V' & EV); [clear - Hb; lia|]. cbn_ok.
  pose proof (year_in_range _ _ _ _ V' EV Hb) as By.
  eexists. split; [unfold filled, tmp_fill; cbn [fst t_kind with_date split_time with_time copy];
    rewrite clamp_year_id; [reflexivity|exact By]|].
  split; [exact Hto|]. split; [by split|]. split; [done|].
  rewrite sum_clock_with_date, Hns. unfold date_days. cbn [year month day with_date fst snd]. rewrite EV. unfold rest. clear. lia.
Qed.

Lemma datetime_add_exact_witness :
  exists t', tmp_datetime_add_impl
    (JTemporal (with_time 23 30 0 0 0 0 (with_date (2024, 1, 31) (new_temporal TK_PLAINDATETIME))))
    (JTemporal (with_dur [0; 1; 0; 0; 1; 0; 0; 0; 0; 0] (new_temporal TK_DURATION))) 1 = Ok t' /\
    time_ok t' /\ date_ok t' /\ valid_date 2024 2 29 /\
    date_days t' * NS_PER_DAY + sum (clock_units t')
    = ns_dt_days_from_civil 2024 2 29 * NS_PER_DAY + (84600000000000 + 3600000000000).
Proof.
  apply (datetime_add_exact (with_time 23 30 0 0 0 0 (with_date (2024, 1, 31) (new_temporal TK_PLAINDATETIME)))
    (JTemporal (with_dur [0; 1; 0; 0; 1; 0; 0; 0; 0; 0] (new_temporal TK_DURATION))) 1);
    [reflexivity|split; [split; split; vm_compute; discriminate|vm_compute; discriminate]|by left
    |repeat split; vm_compute; (discriminate || reflexivity)|vm_compute; discriminate].
Defined.

(** ** The string of an instant *)

Lemma breakdown_spec e :
  Z.abs e <= 86400 * 784000000000 ->
  let '(y, mo, d, (h, mi, s)) := tmp_breakdown e in
  valid_date y mo d /\ ns_dt_days_from_civil y mo d = e / 86400 /\
  0 <= h < 24 /\ 0 <= mi < 60 /\ 0 <= s < 60 /\ tmp_epoch_of y mo d h mi s = e.
Proof.
  intros He. unfold tmp_breakdown. change 86399 with (86400 - 1). rewrite quot_floor by lia.
  pose proof (civil_days (e / 86400) ltac:(zdiv)) as C.
  destruct (ns_dt_civil_from_days _) as [[y mo] d]. destruct C as [V E].
  unfold tmp_epoch_of. rewrite E. repeat (split; [first [done|zdiv]|]). zdiv.
Qed.

Lemma strip_zeros_app s : exists n, s = strip_zeros s ++ repeat "0"%char n.
Proof.
  unfold strip_zeros. induction s as [|c s IH] using rev_ind; [by exists 0%nat|].
  rewrite rev_unit. cbn [drop_while]. destruct (Ascii.eqb_spec c "0") as [->|N].
  - destruct IH as [n IH]. exists (S n). rewrite IH at 1. rewrite <- app_assoc.
    by replace (repeat "0"%char n ++ [_]) with (repeat "0"%char (S n)) by apply repeat_cons.
  - exists 0%nat. cbn [rev repeat]. by rewrite rev_involutive, app_nil_r.
Qed.

Lemma dec_val_zeros n : dec_val (repeat "0"%char n) = 0.
Proof. induction n as [|n IH]; [done|]. cbn [repeat]. rewrite dec_val_cons, IH. done. Qed.

(** The fraction printed without its trailing zeros is read back. *)
Lemma parse_frac_print v k :
  0 < v < 1000000000 -> stops is_digit k ->
  parse_frac (strip_zeros (take 9 (print_0d 9 v)) ++ k) = (v, k).
Proof.
  intros Hv Hk. unfold print_0d. destruct (Z.ltb_spec v 0); [lia|].
  destruct (digits_spec v ltac:(lia)) as (Hd & Hval & _).
  pose proof (digits_length v 9 ltac:(lia) ltac:(lia)) as Hl.
  set (s := pad0 9 (digits 10 v)). assert (L : length s = 9%nat) by (unfold s; rewrite length_pad0; lia).
  rewrite firstn_all2 by lia. destruct (strip_zeros_app s) as [n E].
  assert (Hs : allb is_digit s = true) by by apply pad0_digits.
  assert (Hsv : dec_val s = v) by (unfold s; by rewrite dec_val_pad0).
  set (t := strip_zeros s) in *. clearbody t. rewrite E in Hs, L, Hsv. rewrite allb_app in Hs. boolify.
  rewrite length_app, List.repeat_length in L. rewrite dec_val_app, dec_val_zeros, List.repeat_length in Hsv.
  unfold parse_frac. rewrite rd_digits_loop_app by first [done | lia | by right].
  fold (dec_val t). change k with ([] ++ k) at 1. rewrite drop_while_app_stop by done.
  f_equal. replace (9 - (0 + Z.of_nat (length t))) with (Z.of_nat n) by lia. lia.
Qed.

Lemma nanos_parts n :
  0 <= n -> Z.quot n 1000000 * 1000000 + Z.rem (Z.quot n 1000) 1000 * 1000 + Z.rem n 1000 = n.
Proof. intros. zdiv. Qed.

Definition instant (e n : Z) : ns_temporal := with_epoch e n (new_temporal TK_INSTANT).

(** An instant whose nanoseconds are within [int64_t] is filled. *)
Lemma filled_instant e n :
  - 9223372036 < e < 9223372036 -> 0 <= n < 1000000000 -> filled (instant e n) = Ok (instant e n).
Proof.
  intros He Hn. unfold filled. cbn [t_kind instant with_epoch new_temporal epoch_sec nanos].
  assert (Q : 0 <= Z.quot n 1000000 <= n) by zdiv.
  rewrite !dot64_ok by (cbn [sum_abs fold_right fst snd]; lia). cbn_ok. reflexivity.
Qed.

(** Date and time are read back; the fraction and the offset follow. *)
Lemma parse_civil y mo d h mi s k :
  valid_date y mo d -> 1 <= y <= NS_DT_MAX_YEAR -> 0 <= h < 24 -> 0 <= mi < 60 -> 0 <= s < 60 ->
  tmp_parse_datetime (print_civil (y, mo, d, (h, mi, s)) ++ k) =
  let fin fr q := let '(off, has) := parse_offset q in
    Some (Build_parsed (y, mo, d) (h, mi, s) fr off has true) in
  match one_of ($".,") k with
  | None => fin (0, 0, 0) k
  | Some (_, q) =>
      let '(v, q) := parse_frac q in
      fin (Z.quot v 1000000, Z.rem (Z.quot v 1000) 1000, Z.rem v 1000) q
  end.
Proof.
  intros V Hy Hh Hmi Hs.
  assert (E : print_civil (y, mo, d, (h, mi, s)) ++ k =
    print_date y mo d ++ $"T" ++ print_0d 2 h ++ $":" ++ print_0d 2 mi ++ $":" ++ print_0d 2 s ++ k).
  { unfold print_civil, print_date. by rewrite <- !app_assoc. }
  rewrite E. unfold tmp_parse_datetime.
  destruct (read_date_print y mo d [] [] ($"T" ++ print_0d 2 h ++ $":" ++ print_0d 2 mi ++ $":" ++ print_0d 2 s ++ k) V Hy)
    as [-> _]. cbn [mbind option_bind].
  change (one_of ($"Tt ") ($"T" ++ ?x)) with (Some ("T"%char, x)). cbv beta iota.
  rewrite rd_digits_print by first [lia | left; done | done]. cbn [mbind option_bind].
  change (expect ":" ($":" ++ ?x)) with (Some x). cbn [mbind option_bind].
  rewrite rd_digits_print by first [lia | left; done | done]. cbn [mbind option_bind].
  change (expect ":" ($":" ++ ?x)) with (Some x). cbn [mbind option_bind].
  rewrite rd_digits_print by first [lia | left; done | done]. cbn [mbind option_bind].
  done.
Qed.

(** The string of an instant from year 1 on, up to the last one whose
    nanoseconds are within [int64_t], denotes that instant: what [toString]
    prints, [Instant.from] reads back to the nanosecond. *)
Theorem instant_round_trip (e n : Z) :
  - 9223372036 < e < 9223372036 -> 0 <= n < 1000000000 ->
  bind (tmp_instant_toString (JTemporal (instant e n))) (fun s => tmp_instant_from (JString s))
  = Ok (instant e n).
Proof.
  intros He Hn. pose proof (breakdown_spec e ltac:(lia)) as B.
  pose proof (filled_instant e n He Hn) as FI. unfold tmp_instant_toString. cbn [tmp_this t_kind instant with_epoch new_temporal].
  rewrite bool_decide_eq_true_2 by done. cbn_ok.
  change (epoch_sec (instant e n)) with e. change (nanos (instant e n)) with n.
  destruct (tmp_breakdown e) as [[[y mo] d] [[h mi] s]]. destruct B as (V & Ed & Hh & Hmi & Hs & Ee).
  assert (Hy : 1 <= y <= NS_DT_MAX_YEAR).
  { destruct (days_linear _ _ _ V) as [L B]. rewrite Ed in L. clear Ee Ed.
    assert (shifted y mo = y \/ shifted y mo = y - 1) as S by (unfold shifted; case_test; lia).
    assert (Q : -106753 <= e / 86400 < 99999000) by zdiv. revert Q L. generalize (e / 86400). intros q Q L.
    unfold year_days, NS_DT_MAX_YEAR in *. split; [|destruct S as [S|S]; rewrite S in *; zdiv].
    destruct (Z.le_gt_cases 1 y) as [|G]; [done|exfalso].
    assert (V1 : valid_date 1 1 1) by (split; split; vm_compute; discriminate).
    assert (LT : date_lt (y, mo, d) (1, 1, 1)) by (unfold date_lt; lia).
    apply days_lt in LT; [|done|done]. change (ns_dt_days_from_civil 1 1 1) with (-719162) in LT.
    destruct (days_linear _ _ _ V) as [L' _]. unfold year_days in L'. lia. }
  unfold tmp_instant_from. cbn_ok. rewrite parse_civil by done.
  assert (G : forall m u nn, m * 1000000 + u * 1000 + nn = n ->
    filled (with_epoch (parsed_epoch (Build_parsed (y, mo, d) (h, mi, s) (m, u, nn) 0 true true))
              (parsed_nanos (Build_parsed (y, mo, d) (h, mi, s) (m, u, nn) 0 true true)) (new_temporal TK_INSTANT))
    = Ok (instant e n)).
  { intros m u nn <-. unfold parsed_epoch, parsed_nanos. cbn [p_date p_time p_frac p_off_min].
    rewrite Ee, Z.sub_0_r. exact FI. }
  unfold nanos_frac, tmp_append_frac. rewrite nanos_parts by lia.
  destruct (Z.eqb_spec n 0) as [->|N].
  - cbn [app]. apply (G 0 0 0). done.
  - rewrite <- app_assoc. change (one_of ($".,") ($"." ++ ?x)) with (Some ("."%char, x)). cbv beta iota.
    rewrite parse_frac_print by first [lia | done]. apply G, nanos_parts. lia.
Qed.

Lemma instant_round_trip_witness :
  bind (tmp_instant_toString (JTemporal (instant (-1) 500000000))) (fun s => tmp_instant_from (JString s))
  = Ok (instant (-1) 500000000).
Proof. apply (instant_round_trip (-1) 500000000); split; vm_compute; (discriminate || reflexivity). Defined.
