(* ===== verification/HttpCache.v ===== *)
(** * The HTTP cache (src/src/cache.c)

    Responses on disk: one row of a SQLite table per variant of a URL within a
    partition, and one file per row for the body. The table is a map from keys
    to rows, the directory [bodies] a map from the path below it to contents;
    an SQL statement is its effect on that map, and may fail as a whole (the
    argument [ok]); so may the writing, the reading and the removal of a body file
    ([write_ok], [read_ok], [unlink_ok]). The order in which a [SELECT] without [ORDER BY] returns its
    rows is not specified by SQL: the function [scan] picks one. The SHA-256
    digest, GLib's date functions and the configuration are arguments. *)

From S2P Require Import Prelude CStr GLib Config Url DateTime.
Open Scope Z_scope.

(** GLib's [GDateTime]: parsing an ISO 8601 text, and the Unix time of a civil
    time in UTC, each [None] when GLib returns [NULL]. *)
Class GDateTime := {
  g_date_time_new_from_iso8601 : bytes -> option Z;
  g_date_time_new_utc : Z -> Z -> Z -> Z -> Z -> Z -> option Z;
}.

(** What the manual says: a valid date of the years 1 to 9999 and a time of the
    day give the seconds since the epoch. An ISO 8601 date starts with the year. *)
Class GDateTimeSpec (D : GDateTime) : Prop := {
  new_utc_ok : forall y mo d h mi s,
    valid_date y mo d -> 1 <= y <= 9999 -> 0 <= h < 24 -> 0 <= mi < 60 -> 0 <= s < 60 ->
    g_date_time_new_utc y mo d h mi s =
    Some (ns_dt_days_from_civil y mo d * 86400 + h * 3600 + mi * 60 + s);
  iso8601_digit : forall s, head_is is_digit s = false -> g_date_time_new_from_iso8601 s = None;
}.

Section Model.
Context {G : GLib} {D : GDateTime}.
Variable cfg : option ns_config.
Variable sha : bytes -> bytes.

(** ** Keys *)

Definition NS_CACHE_MAX_AGE_SECONDS : Z := 30 * 24 * 60 * 60.

Definition cache_cap_bytes : Z :=
  let mb := match cfg with Some c => cfg_int c cache_cap_mb | None => 256 end in
  let mb := if mb <=? 0 then 256 else mb in
  mb * 1024 * 1024.

Definition unit_sep : bytes := ["031"%char].

Definition base_key_for_url (url : bytes) (partition : option bytes) : bytes :=
  match partition with
  | Some ((_ :: _) as p) => sha (url ++ unit_sep ++ p)
  | _ => sha url
  end.

(** The file of a key below [bodies]: a directory of two characters. *)
Definition body_path_for_key (key : bytes) : bytes * bytes := (take 2 key, drop 2 key).

Definition is_blank (c : ascii) : bool := (c =c " ") || (c =c "009").

Fixpoint request_header_value (headers : list bytes) (name : bytes) : option bytes :=
  match headers with
  | [] => None
  | h :: hs =>
      if g_ascii_strncasecmp0 h name (length name) then
        match drop (length name) h with
        | c :: p => if c =c ":" then Some (drop_while is_blank p) else request_header_value hs name
        | [] => request_header_value hs name
        end
      else request_header_value hs name
  end.

Definition vary_known : list bytes := [$"accept"; $"accept-language"; $"user-agent"; $"origin"].

Fixpoint vary_loop (tokens : list bytes) (headers : list bytes) (selector : bytes) : option bytes :=
  match tokens with
  | [] => Some selector
  | tok :: rest =>
      let name := g_ascii_strdown (g_strstrip tok) in
      if (length name =? 0)%nat || strcmp0 name ($"accept-encoding") then vary_loop rest headers selector
      else if negb (existsb (strcmp0 name) vary_known) then None
      else
        match request_header_value headers name with
        | None => None
        | Some value => vary_loop rest headers (selector ++ name ++ $":" ++ value ++ [nl])
        end
  end.

(** [None]: the response must not be cached or does not match. *)
Definition vary_selector (vary : option bytes) (headers : list bytes) : option bytes :=
  match vary with
  | None | Some [] => Some []
  | Some v => vary_loop (g_strsplit v ($",")) headers []
  end.

Definition row_key_for (base_key selector : bytes) : bytes :=
  match selector with [] => base_key | _ => sha (base_key ++ unit_sep ++ selector) end.

(** ** Freshness *)

Definition months : list bytes :=
  [$"Jan"; $"Feb"; $"Mar"; $"Apr"; $"May"; $"Jun"; $"Jul"; $"Aug"; $"Sep"; $"Oct"; $"Nov"; $"Dec"].

Fixpoint month_go (m : bytes) (l : list bytes) (i : Z) : Z :=
  match l with
  | [] => 0
  | x :: l => if g_ascii_strncasecmp0 m x 3 then i + 1 else month_go m l (i + 1)
  end.
Definition month_from_name (m : bytes) : Z := month_go m months 0.

(** The three [sscanf] formats: day, month name, year, hour, minute, second. *)
Definition scan_hms (p : bytes) : option (Z * Z * Z * bytes) :=
  '(hh, p) ← scan_d p; p ← scan_lit ":" p; '(mm, p) ← scan_d p; p ← scan_lit ":" p;
  '(ss, p) ← scan_d p; Some (hh, mm, ss, p).

Definition scan_imf (p : bytes) : option (Z * bytes * Z * (Z * Z * Z)) :=
  '(day, p) ← scan_d p; '(mon, p) ← scan_s 3 p; '(year, p) ← scan_d p;
  '(hh, mm, ss, _) ← scan_hms p; Some (day, mon, year, (hh, mm, ss)).

Definition scan_rfc850 (p : bytes) : option (Z * bytes * Z * (Z * Z * Z)) :=
  '(day, p) ← scan_d p; p ← scan_c p; '(mon, p) ← scan_s 3 p; p ← scan_c p;
  '(year, p) ← scan_d p; '(hh, mm, ss, _) ← scan_hms p;
  Some (day, mon, (if year <? 100 then year + (if year <? 70 then 2000 else 1900) else year),
        (hh, mm, ss)).

Definition scan_asctime (p : bytes) : option (Z * bytes * Z * (Z * Z * Z)) :=
  '(mon, p) ← scan_s 3 p; '(day, p) ← scan_d p; '(hh, mm, ss, p) ← scan_hms p;
  '(year, _) ← scan_d p; Some (day, mon, year, (hh, mm, ss)).

Definition parse_http_date (s : bytes) : Z :=
  match s with
  | [] => 0
  | _ =>
      match g_date_time_new_from_iso8601 s with
      | Some r => r
      | None =>
          let p := match strchr s "," with Some comma => drop 1 comma | None => s end in
          let p := drop_while (fun c => c =c " ") p in
          match (match scan_imf p with
                 | Some r => Some r
                 | None => match scan_rfc850 p with Some r => Some r | None => scan_asctime p end
                 end) with
          | None => 0
          | Some (day, mon, year, (hh, mm, ss)) =>
              let month := month_from_name mon in
              if month =? 0 then 0
              else if (year <? 1970) || (9999 <? year) || (day <? 1) || (31 <? day) ||
                      (hh <? 0) || (23 <? hh) || (mm <? 0) || (59 <? mm) || (ss <? 0) || (60 <? ss)
              then 0
              else default 0 (g_date_time_new_utc year month day hh mm ss)
          end
      end
  end.

(** [max-age=<n>], held to ten years; [None] when there is none. *)
Definition max_age (cc : bytes) : option Z :=
  '(_, p) ← strstr cc ($"max-age");
  p ← strchr p "=";
  let ma := g_ascii_strtoll10 (drop 1 p) in
  let ma := if ma <? 0 then 0 else ma in
  Some (if 86400 * 3650 <? ma then 86400 * 3650 else ma).

Definition freshness_from_headers (now : Z) (cache_control expires_header : option bytes) : Z :=
  let expires :=
    match expires_header with
    | Some e => let t := parse_http_date e in if 0 <? t then t else 0
    | None => 0
    end in
  match cache_control with
  | None => expires
  | Some cc =>
      if contains cc ($"no-store") then -1
      else if contains cc ($"no-cache") then 0
      else
        match max_age cc with
        | Some ma => now + ma
        | None => if contains cc ($"immutable") then now + 86400 * 30 else expires
        end
  end.

Definition is_cacheable_status (s : Z) : bool :=
  (s =? 200) || (s =? 203) || (s =? 301) || (s =? 410).

Definition url_should_cache (url : bytes) : bool :=
  ns_url_is_http_or_https (Some url) &&
  negb (existsb (fun c => (code c <? 32) || (code c =? 127)) url).
End Model.

Example imf_date : scan_imf ($"06 Nov 1994 08:49:37 GMT") = Some (6, $"Nov", 1994, (8, 49, 37)).
Proof. reflexivity. Qed.
Example rfc850_date : scan_rfc850 ($"06-Nov-94 08:49:37 GMT") = Some (6, $"Nov", 1994, (8, 49, 37)).
Proof. reflexivity. Qed.
(** The asctime form of an HTTP date starts with the weekday, which the third
    format takes for the month. *)
Example asctime_unread :
  let s := $"Sun Nov  6 08:49:37 1994" in
  scan_imf s = None /\ scan_rfc850 s = None /\ scan_asctime s = None.
Proof. repeat split. Qed.

(** ** The store *)

Record row := {
  r_base_key : bytes; r_url : bytes; r_final_url : option bytes; r_status : Z;
  r_content_type : option bytes; r_cors : option bytes; r_etag : option bytes;
  r_last_modified : option bytes; r_vary : option bytes;
  r_expires_at : Z; r_fetched_at : Z; r_last_used : Z; r_body_size : Z;
}.

Definition row_times (e f u : Z) (r : row) : row :=
  Build_row (r_base_key r) (r_url r) (r_final_url r) (r_status r) (r_content_type r) (r_cors r)
    (r_etag r) (r_last_modified r) (r_vary r) e f u (r_body_size r).

(** [g_cache_disabled], the table when the database is open, and the files
    below [bodies]. *)
Record cache := {
  g_cache_disabled : bool;
  g_cache_db : option (gmap bytes row);
  bodies : gmap (bytes * bytes) bytes;
}.

Definition set_db (t : gmap bytes row) (s : cache) : cache :=
  Build_cache (g_cache_disabled s) (Some t) (bodies s).
Definition set_bodies (b : gmap (bytes * bytes) bytes) (s : cache) : cache :=
  Build_cache (g_cache_disabled s) (g_cache_db s) b.
Definition table (s : cache) : gmap bytes row := default ∅ (g_cache_db s).

(** The statements of the file, for the argument that says which succeed. *)
Inductive stmt := S_FIND | S_GET | S_DELETE | S_TOUCH | S_INSERT | S_OLD_EXPIRES | S_PROMOTE
                | S_AGED | S_CAP | S_CLEAR.

Record ns_cache_entry := {
  e_final_url : bytes; e_status : Z; e_content_type : option bytes; e_cors : option bytes;
  e_etag : option bytes; e_last_modified : option bytes; e_expires_at : Z; e_fetched_at : Z;
  e_body : bytes;
}.

(** The order SQLite's [BINARY] collation gives keys, and the order
    [last_used DESC, key DESC] of the eviction. *)
Fixpoint bytes_leb (a b : bytes) : bool :=
  match a, b with
  | [], _ => true
  | _ :: _, [] => false
  | x :: a', y :: b' => (code x <? code y) || (code x =? code y) && bytes_leb a' b'
  end.
Definition older (a b : bytes * row) : bool :=
  (r_last_used a.2 <? r_last_used b.2) ||
  (r_last_used a.2 =? r_last_used b.2) && bytes_leb a.1 b.1.

Definition sum_sizes (l : list (bytes * row)) : Z := foldr (fun p n => r_body_size p.2 + n) 0 l.

(** [SUM(body_size) OVER (ORDER BY last_used DESC, key DESC)]: the sizes of the
    row and of all that come before it in that order. *)
Definition running (t : gmap bytes row) (p : bytes * row) : Z :=
  sum_sizes (List.filter (older p) (map_to_list t)).

Section Ops.
Context {G : GLib} {D : GDateTime}.
Variable cfg : option ns_config.
Variable sha : bytes -> bytes.
(** The order of the rows of a [SELECT]. *)
Variable scan : list (bytes * row) -> list (bytes * row).
(** Which statements succeed, which files [g_unlink] can remove, and whether the body
    file can be written and read. *)
Variable ok : stmt -> bool.
Variable unlink_ok : bytes * bytes -> bool.
Variables write_ok read_ok : bool.
Variable now : Z.

Definition ns_cache_enabled (s : cache) : bool :=
  negb (g_cache_disabled s) && match g_cache_db s with Some _ => true | None => false end.

Definition delete_key (key : bytes) (s : cache) : cache :=
  let bp := body_path_for_key key in
  let s := if unlink_ok bp then set_bodies (delete bp (bodies s)) s else s in
  match g_cache_db s with
  | Some t => if ok S_DELETE then set_db (delete key t) s else s
  | None => s
  end.

Definition touch_key (key : bytes) (s : cache) : cache :=
  match g_cache_db s with
  | Some t =>
      if ok S_TOUCH
      then set_db (alter (fun r => row_times (r_expires_at r) (r_fetched_at r) now r) key t) s
      else s
  | None => s
  end.

Fixpoint find_row_loop (rows : list (bytes * row)) (base_key : bytes) (headers : list bytes)
    : option bytes :=
  match rows with
  | [] => None
  | (stored, r) :: rest =>
      match vary_selector (r_vary r) headers with
      | None => find_row_loop rest base_key headers
      | Some selector =>
          if strcmp0 stored (row_key_for sha base_key selector) then Some stored
          else find_row_loop rest base_key headers
      end
  end.

Definition find_row_key (base_key : bytes) (headers : list bytes) (s : cache) : option bytes :=
  if ok S_FIND
  then find_row_loop (scan (List.filter (fun p => strcmp0 (r_base_key p.2) base_key) (map_to_list (table s))))
         base_key headers
  else None.

Definition evict_by_select (st : stmt) (sel : bytes * row -> bool) (s : cache) : cache :=
  match g_cache_db s with
  | None => s
  | Some t =>
      if ok st
      then fold_left (fun s k => delete_key k s) (map fst (List.filter sel (map_to_list t))) s
      else s
  end.

Definition evict_aged_out (s : cache) : cache :=
  evict_by_select S_AGED (fun p => r_last_used p.2 <? now - NS_CACHE_MAX_AGE_SECONDS) s.

Definition evict_to_cap (s : cache) : cache :=
  match g_cache_db s with
  | None => s
  | Some _ =>
      let s := evict_aged_out s in
      evict_by_select S_CAP (fun p => cache_cap_bytes cfg <? running (table s) p) s
  end.

Definition ns_cache_get (url : option bytes) (partition : option bytes) (headers : list bytes)
    (s : cache) : option ns_cache_entry * cache :=
  match url with
  | None => (None, s)
  | Some url =>
      if negb (ns_cache_enabled s) then (None, s)
      else
        match find_row_key (base_key_for_url sha url partition) headers s with
        | None => (None, s)
        | Some key =>
            match (if ok S_GET then table s !! key else None) with
            | None => (None, s)
            | Some r =>
                if negb (is_cacheable_status (r_status r)) then (None, delete_key key s)
                else if (r_body_size r <? 0) || (cache_cap_bytes cfg <? r_body_size r) then (None, s)
                else
                  match (if read_ok then bodies s !! body_path_for_key key else None) with
                  | None => (None, delete_key key s)
                  | Some data =>
                      let dlen := Z.of_nat (length data) in
                      if (cache_cap_bytes cfg <? dlen) || (4294967295 <? dlen)
                      then (None, delete_key key s)
                      else
                        (Some {| e_final_url := default url (r_final_url r); e_status := r_status r;
                                 e_content_type := r_content_type r; e_cors := r_cors r;
                                 e_etag := r_etag r; e_last_modified := r_last_modified r;
                                 e_expires_at := r_expires_at r; e_fetched_at := r_fetched_at r;
                                 e_body := data |},
                         touch_key key s)
                  end
            end
        end
  end.

Definition ns_cache_is_fresh (e : option ns_cache_entry) : bool :=
  match e with None => false | Some e => now <? e_expires_at e end.

(** A response offered to the cache, with the request it answers. *)
Record response := {
  c_url : bytes; c_partition : option bytes; c_final_url : option bytes; c_status : Z;
  c_content_type : option bytes; c_cors : option bytes; c_etag : option bytes;
  c_last_modified : option bytes; c_cache_control : option bytes; c_expires : option bytes;
  c_vary : option bytes; c_request_headers : list bytes; c_body : bytes;
}.

Definition has_word (h : option bytes) (w : bytes) : bool :=
  match h with Some s => contains s w | None => false end.

(** The row bound to the [INSERT]. *)
Definition stored_row (p : response) : row :=
  {| r_base_key := base_key_for_url sha (c_url p) (c_partition p); r_url := c_url p;
     r_final_url := Some (default (c_url p) (c_final_url p)); r_status := c_status p;
     r_content_type := c_content_type p; r_cors := c_cors p; r_etag := c_etag p;
     r_last_modified := c_last_modified p; r_vary := c_vary p;
     r_expires_at := freshness_from_headers now (c_cache_control p) (c_expires p);
     r_fetched_at := now; r_last_used := now; r_body_size := Z.of_nat (length (c_body p)) |}.

(** The key and the row a response is stored under; [None] when it is not. *)
Definition cache_row (p : response) : option (bytes * row) :=
  if negb (url_should_cache (c_url p)) then None
  else if has_word (c_cache_control p) ($"no-store") || has_word (c_cache_control p) ($"private") then None
  else if negb (is_cacheable_status (c_status p)) then None
  else if (2147483647 <? Z.of_nat (length (c_body p))) ||
          (cache_cap_bytes cfg <? Z.of_nat (length (c_body p))) then None
  else if freshness_from_headers now (c_cache_control p) (c_expires p) <? 0 then None
  else
    match vary_selector (c_vary p) (c_request_headers p) with
    | None => None
    | Some selector =>
        Some (row_key_for sha (base_key_for_url sha (c_url p) (c_partition p)) selector, stored_row p)
    end.

(** [ON CONFLICT(key) DO UPDATE] sets every column but [base_key]. *)
Definition upsert (key : bytes) (r : row) (t : gmap bytes row) : gmap bytes row :=
  let r := match t !! key with
           | Some old => Build_row (r_base_key old) (r_url r) (r_final_url r) (r_status r)
               (r_content_type r) (r_cors r) (r_etag r) (r_last_modified r) (r_vary r)
               (r_expires_at r) (r_fetched_at r) (r_last_used r) (r_body_size r)
           | None => r
           end in
  <[key := r]> t.

Definition ns_cache_put (p : response) (s : cache) : cache :=
  if negb (ns_cache_enabled s) then s
  else
    match cache_row p with
    | None => s
    | Some (key, r) =>
        if negb (ok S_INSERT) then s
        else
          let s := set_db (upsert key r (table s)) s in
          if write_ok
          then evict_to_cap (set_bodies (<[body_path_for_key key := c_body p]> (bodies s)) s)
          else delete_key key s
    end.

Definition ns_cache_promote_304 (url : bytes) (partition : option bytes) (headers : list bytes)
    (cache_control expires_header : option bytes) (s : cache) : cache :=
  if negb (ns_cache_enabled s) || negb (url_should_cache url) then s
  else
    match find_row_key (base_key_for_url sha url partition) headers s with
    | None => s
    | Some key =>
        match (if ok S_OLD_EXPIRES then table s !! key else None) with
        | None => s
        | Some r =>
            let expires_at := freshness_from_headers now cache_control expires_header in
            let expires_at := if expires_at <? 0 then 0 else expires_at in
            if (expires_at <=? r_expires_at r) || negb (ok S_PROMOTE) then s
            else set_db (alter (row_times expires_at now now) key (table s)) s
        end
    end.

(** [cache_rmrf] of the directory: the files it cannot remove stay. *)
Definition cache_rmrf (b : gmap (bytes * bytes) bytes) : gmap (bytes * bytes) bytes :=
  filter (fun p => unlink_ok p.1 = false) b.

Definition ns_cache_clear (s : cache) : cache :=
  let s := if ok S_CLEAR then match g_cache_db s with Some _ => set_db ∅ s | None => s end else s in
  set_bodies (cache_rmrf (bodies s)) s.
End Ops.

(** ** Removing rows *)

Section Evict.
Variable ok : stmt -> bool.
Variable unlink_ok : bytes * bytes -> bool.
Hypothesis ok_delete : ok S_DELETE = true.

Lemma path_inj k k' : body_path_for_key k = body_path_for_key k' -> k = k'.
Proof. unfold body_path_for_key. intros [= H1 H2]. by rewrite <- (take_drop 2 k), H1, H2, take_drop. Qed.

(** What is left of a file that is unlinked. *)
Definition unlinked (s : cache) (k : bytes) : option bytes :=
  if unlink_ok (body_path_for_key k) then None else bodies s !! body_path_for_key k.

Lemma delete_key_eq k s t :
  g_cache_db s = Some t ->
  delete_key ok unlink_ok k s =
  Build_cache (g_cache_disabled s) (Some (delete k t))
    (if unlink_ok (body_path_for_key k) then delete (body_path_for_key k) (bodies s) else bodies s).
Proof. intros E. unfold delete_key, set_bodies, set_db. destruct (unlink_ok _); cbn; by rewrite E, ok_delete. Qed.

Lemma delete_keys_db ks s t :
  g_cache_db s = Some t ->
  let s' := fold_left (fun s k => delete_key ok unlink_ok k s) ks s in
  g_cache_disabled s' = g_cache_disabled s /\
  (exists t', g_cache_db s' = Some t' /\ forall k, t' !! k = if decide (k ∈ ks) then None else t !! k) /\
  (forall k, bodies s' !! body_path_for_key k =
     if decide (k ∈ ks) then unlinked s k else bodies s !! body_path_for_key k).
Proof.
  revert s t. induction ks as [|k0 ks IH]; intros s t E; cbv zeta; cbn [fold_left].
  - split; [done|]. split; [exists t; split; [done|]|]; intros k;
      (rewrite decide_False by apply not_elem_of_nil; done).
  - rewrite (delete_key_eq k0 s t E). set (s1 := Build_cache _ _ _).
    destruct (IH s1 (delete k0 t) eq_refl) as (D & (t' & Et & Ht) & Hb). cbn [g_cache_disabled s1] in D.
    split; [done|]. split; [exists t'; split; [done|]|]; intros k; rewrite ?Ht, ?Hb.
    + destruct (decide (k ∈ ks)) as [I|N]; [by rewrite decide_True by (right; done)|].
      destruct (decide (k = k0)) as [->|NE]; [by rewrite lookup_delete_eq, decide_True by left|].
      rewrite lookup_delete_ne by done. rewrite decide_False; [done|]. by intros [?|?]%elem_of_cons.
    + assert (B : bodies s1 !! body_path_for_key k = if decide (k = k0) then unlinked s k else bodies s !! body_path_for_key k).
      { cbn [bodies s1]. unfold unlinked. destruct (decide (k = k0)) as [->|NE].
        - destruct (unlink_ok _); [apply lookup_delete_eq|done].
        - destruct (unlink_ok (body_path_for_key k0)); [|done]. by rewrite lookup_delete_ne by (intros P%path_inj; done). }
      destruct (decide (k ∈ ks)) as [I|N].
      * rewrite decide_True by (right; done). unfold unlinked at 1. rewrite B. unfold unlinked.
        destruct (unlink_ok (body_path_for_key k)); [done|]. by destruct (decide (k = k0)).
      * rewrite B. destruct (decide (k = k0)) as [->|NE]; [by rewrite decide_True by left|].
        rewrite decide_False; [done|]. by intros [?|?]%elem_of_cons.
Qed.

(** [evict_by_select] removes exactly the selected rows, and of their files those
    that can be. *)
Lemma evict_by_select_spec st sel s t :
  ok st = true -> g_cache_db s = Some t ->
  let s' := evict_by_select ok unlink_ok st sel s in
  g_cache_disabled s' = g_cache_disabled s /\
  (exists t', g_cache_db s' = Some t' /\
     forall k, t' !! k = match t !! k with Some r => if sel (k, r) then None else Some r | None => None end) /\
  (forall k, bodies s' !! body_path_for_key k =
     match t !! k with Some r => if sel (k, r) then unlinked s k else bodies s !! body_path_for_key k
     | None => bodies s !! body_path_for_key k end).
Proof.
  intros Hst E. cbv zeta. unfold evict_by_select. rewrite E, Hst.
  destruct (delete_keys_db (map fst (List.filter sel (map_to_list t))) s t E) as (D & (t' & Et & Ht) & Hb).
  assert (I : forall k, k ∈ map fst (List.filter sel (map_to_list t)) <->
    exists r, t !! k = Some r /\ sel (k, r) = true).
  { intros k. rewrite list_elem_of_In, in_map_iff. split.
    - intros ([k' r] & <- & [H1 H2]%filter_In). exists r. split; [|done].
      apply elem_of_map_to_list, list_elem_of_In. done.
    - intros (r & H1 & H2). exists (k, r). split; [done|]. apply filter_In. split; [|done].
      apply list_elem_of_In, elem_of_map_to_list. done. }
  split; [done|]. split; [exists t'; split; [done|]|]; intros k; rewrite ?Ht, ?Hb;
    destruct (decide _) as [M|M]; rewrite I in M.
  - destruct M as (r & -> & ->). done.
  - destruct (t !! k) as [r|]; [|done]. destruct (sel (k, r)) eqn:S; [|done]. destruct M; eauto.
  - destruct M as (r & -> & ->). done.
  - destruct (t !! k) as [r|]; [|done]. destruct (sel (k, r)) eqn:S; [|done]. destruct M; eauto.
Qed.
End Evict.

(** ** The order of eviction *)

Lemma bytes_leb_refl a : bytes_leb a a = true.
Proof. induction a as [|c a IH]; cbn; [done|]. by rewrite Z.eqb_refl, IH, orb_true_r. Qed.

Lemma bytes_leb_total a b : bytes_leb a b = true \/ bytes_leb b a = true.
Proof.
  revert b. induction a as [|c a IH]; intros [|d b]; cbn; auto.
  destruct (Z.ltb_spec (code c) (code d)), (Z.ltb_spec (code d) (code c)),
    (Z.eqb_spec (code c) (code d)), (Z.eqb_spec (code d) (code c)); cbn; auto; try lia.
Qed.

Lemma bytes_leb_trans a b c : bytes_leb a b = true -> bytes_leb b c = true -> bytes_leb a c = true.
Proof.
  revert b c. induction a as [|x a IH]; intros [|y b] [|z c]; cbn; auto; try discriminate.
  intros H1 H2. specialize (IH b c).
  destruct (Z.ltb_spec (code x) (code y)), (Z.ltb_spec (code y) (code z)), (Z.ltb_spec (code x) (code z)),
    (Z.eqb_spec (code x) (code y)), (Z.eqb_spec (code y) (code z)), (Z.eqb_spec (code x) (code z));
    cbn in *; auto; try lia; try discriminate.
Qed.

Lemma bytes_leb_antisym a b : bytes_leb a b = true -> bytes_leb b a = true -> a = b.
Proof.
  revert b. induction a as [|x a IH]; intros [|y b]; cbn; auto; try discriminate.
  intros H1 H2. destruct (Z.ltb_spec (code x) (code y)), (Z.ltb_spec (code y) (code x)),
    (Z.eqb_spec (code x) (code y)), (Z.eqb_spec (code y) (code x)); cbn in *; try lia; try discriminate.
  f_equal; [by apply code_inj|auto].
Qed.

Lemma older_refl p : older p p = true.
Proof. unfold older. by rewrite Z.eqb_refl, bytes_leb_refl, orb_true_r. Qed.

Lemma older_total p q : older p q = true \/ older q p = true.
Proof.
  unfold older. destruct (bytes_leb_total p.1 q.1) as [-> | ->];
    destruct (Z.ltb_spec (r_last_used p.2) (r_last_used q.2)), (Z.ltb_spec (r_last_used q.2) (r_last_used p.2)),
    (Z.eqb_spec (r_last_used p.2) (r_last_used q.2)), (Z.eqb_spec (r_last_used q.2) (r_last_used p.2));
    cbn; auto; try lia.
Qed.

Lemma older_trans p q r : older p q = true -> older q r = true -> older p r = true.
Proof.
  unfold older. intros H1 H2. pose proof (bytes_leb_trans p.1 q.1 r.1).
  destruct (bytes_leb p.1 q.1), (bytes_leb q.1 r.1), (bytes_leb p.1 r.1);
    destruct (Z.ltb_spec (r_last_used p.2) (r_last_used q.2)), (Z.ltb_spec (r_last_used q.2) (r_last_used r.2)),
    (Z.ltb_spec (r_last_used p.2) (r_last_used r.2)), (Z.eqb_spec (r_last_used p.2) (r_last_used q.2)),
    (Z.eqb_spec (r_last_used q.2) (r_last_used r.2)), (Z.eqb_spec (r_last_used p.2) (r_last_used r.2));
    cbn in *; auto; try lia; try discriminate; by specialize (H eq_refl eq_refl).
Qed.

Lemma sum_sizes_cons p l : sum_sizes (p :: l) = r_body_size p.2 + sum_sizes l.
Proof. reflexivity. Qed.

Lemma sum_sizes_app l k : sum_sizes (l ++ k) = sum_sizes l + sum_sizes k.
Proof. induction l as [|p l IH]; [done|]. cbn [app]. rewrite !sum_sizes_cons, IH. lia. Qed.

#[export] Instance sum_sizes_proper : Proper ((≡ₚ) ==> (=)) sum_sizes.
Proof. intros l k H. induction H; rewrite ?sum_sizes_cons; lia. Qed.

Definition sizes_ok (t : gmap bytes row) : Prop := forall k r, t !! k = Some r -> 0 <= r_body_size r.

Lemma sum_sizes_subset l k :
  NoDup l -> l ⊆ k -> (forall p, p ∈ k -> 0 <= r_body_size p.2) -> sum_sizes l <= sum_sizes k.
Proof.
  intros Hn Hs Hp. apply NoDup_submseteq in Hs; [|done].
  apply submseteq_Permutation in Hs as [l' E]. rewrite E in *. rewrite sum_sizes_app.
  assert (0 <= sum_sizes l'); [|lia].
  assert (Hp' : forall p, p ∈ l' -> 0 <= r_body_size p.2).
  { intros p I. apply Hp. rewrite E. apply elem_of_app. by right. }
  clear -Hp'. induction l' as [|p l' IH]; [done|]. rewrite sum_sizes_cons.
  pose proof (Hp' p ltac:(left)). assert (0 <= sum_sizes l') by (apply IH; intros; apply Hp'; by right). lia.
Qed.

Lemma oldest (l : list (bytes * row)) : l <> [] -> exists m, m ∈ l /\ forall p, p ∈ l -> older m p = true.
Proof.
  induction l as [|x l IH]; [done|]. intros _. destruct l as [|y l].
  - exists x. split; [left|]. intros p [->|?%not_elem_of_nil]%elem_of_cons; [apply older_refl|done].
  - destruct IH as (m & I & H); [done|]. destruct (older_total x m) as [C|C].
    + exists x. split; [left|]. intros p [->|Hp]%elem_of_cons; [apply older_refl|].
      eapply older_trans; [exact C|by apply H].
    + exists m. split; [by right|]. intros p [->|Hp]%elem_of_cons; [done|by apply H].
Qed.

Lemma cap_pos cfg : 0 < cache_cap_bytes cfg.
Proof. unfold cache_cap_bytes. destruct (Z.leb_spec (match cfg with Some c => cfg_int c cache_cap_mb | None => 256 end) 0); lia. Qed.

(** What is left after removing the rows whose running total exceeds the cap
    fits in the cap. *)
Lemma kept_within_cap cap t t' :
  0 <= cap -> sizes_ok t ->
  (forall k, t' !! k = match t !! k with Some r => if cap <? running t (k, r) then None else Some r | None => None end) ->
  sum_sizes (map_to_list t') <= cap.
Proof.
  intros Hc Hs Ht. destruct (map_to_list t') as [|x l] eqn:E; [done|].
  destruct (oldest (map_to_list t')) as ([km rm] & Im & Hm); [by rewrite E|]. rewrite <- E.
  assert (Sub : forall p, p ∈ map_to_list t' -> p ∈ map_to_list t /\ running t p <= cap).
  { intros [k r]. rewrite !elem_of_map_to_list. rewrite Ht. destruct (t !! k) as [r'|]; [|done].
    case_test; [done|]. intros [= ->]. boolify. done. }
  destruct (Sub _ Im) as [_ B]. etransitivity; [|exact B]. unfold running. apply sum_sizes_subset.
  - apply NoDup_map_to_list.
  - intros p Ip. apply list_elem_of_In, filter_In. split; [apply list_elem_of_In; by apply Sub|by apply Hm].
  - intros [k r] I%list_elem_of_In. apply filter_In in I as [I _].
    apply list_elem_of_In, elem_of_map_to_list in I. by eapply Hs.
Qed.

Lemma running_mono t p q :
  sizes_ok t -> older p q = true -> running t q <= running t p.
Proof.
  intros Hs L. unfold running. apply sum_sizes_subset.
  - apply NoDup_ListNoDup, List.NoDup_filter, NoDup_ListNoDup, NoDup_map_to_list.
  - intros x I%list_elem_of_In. apply filter_In in I as [I O]. apply list_elem_of_In, filter_In.
    split; [done|]. by eapply older_trans.
  - intros [k r] I%list_elem_of_In. apply filter_In in I as [I _].
    apply list_elem_of_In, elem_of_map_to_list in I. by eapply Hs.
Qed.

(** The rows that survive the age limit. *)
Definition young (now : Z) (t : gmap bytes row) : gmap bytes row :=
  filter (fun p => now - NS_CACHE_MAX_AGE_SECONDS <= r_last_used p.2) t.

Lemma evict_facts (cfg : option ns_config) (ok : stmt -> bool) (unlink_ok : bytes * bytes -> bool) (now : Z)
    (s : cache) (t : gmap bytes row) :
  ok S_AGED = true -> ok S_CAP = true -> ok S_DELETE = true ->
  g_cache_db s = Some t -> sizes_ok t ->
  let s' := evict_to_cap cfg ok unlink_ok now s in
  sum_sizes (map_to_list (table s')) <= cache_cap_bytes cfg /\
  (forall k r, table s' !! k = Some r <->
     t !! k = Some r /\ now - NS_CACHE_MAX_AGE_SECONDS <= r_last_used r /\
     running (young now t) (k, r) <= cache_cap_bytes cfg) /\
  (forall k r k' r', table s' !! k = Some r -> t !! k' = Some r' -> older (k, r) (k', r') = true ->
     table s' !! k' = Some r') /\
  (forall k r, t !! k = Some r -> table s' !! k = None -> bodies s' !! body_path_for_key k = unlinked unlink_ok s k) /\
  (forall k, is_Some (table s' !! k) -> bodies s' !! body_path_for_key k = bodies s !! body_path_for_key k).
Proof.
  intros Ha Hc Hd E Hs. cbv zeta. unfold evict_to_cap. rewrite E.
  destruct (evict_by_select_spec ok unlink_ok Hd S_AGED (fun p => r_last_used p.2 <? now - NS_CACHE_MAX_AGE_SECONDS) s t Ha E)
    as (_ & (t1 & E1 & H1) & B1).
  fold (evict_aged_out ok unlink_ok now s) in E1, B1. set (s1 := evict_aged_out ok unlink_ok now s) in *.
  assert (Y : t1 = young now t).
  { apply map_eq. intros k. rewrite H1. unfold young. cbn. destruct (t !! k) as [r|] eqn:Ek.
    - destruct (Z.ltb_spec (r_last_used r) (now - NS_CACHE_MAX_AGE_SECONDS)).
      + symmetry. apply map_lookup_filter_None. right. intros r' E'. simplify_eq. cbn. lia.
      + symmetry. apply map_lookup_filter_Some. done.
    - symmetry. apply map_lookup_filter_None. by left. }
  destruct (evict_by_select_spec ok unlink_ok Hd S_CAP
    (fun p => cache_cap_bytes cfg <? running (table s1) p) s1 t1 Hc E1) as (_ & (t2 & E2 & H2) & B2).
  set (s2 := evict_by_select ok unlink_ok S_CAP _ s1) in *. replace (table s1) with t1 in * by (unfold table; by rewrite E1).
  replace (table s2) with t2 by (unfold table; by rewrite E2).
  assert (Hs1 : sizes_ok t1).
  { intros k r Hk. rewrite H1 in Hk. destruct (t !! k) as [r'|] eqn:Ek; [|done].
    revert Hk. case_test; [done|]. intros [= ->]. by eapply Hs. }
  pose proof (cap_pos cfg). split; [by apply (kept_within_cap _ t1); [lia| |]|].
  assert (K : forall k r, t2 !! k = Some r <-> t !! k = Some r /\
    now - NS_CACHE_MAX_AGE_SECONDS <= r_last_used r /\ running (young now t) (k, r) <= cache_cap_bytes cfg).
  { intros k r. rewrite H2, H1, <- Y. cbn. destruct (t !! k) as [r'|]; [|naive_solver].
    destruct (Z.ltb_spec (r_last_used r') (now - NS_CACHE_MAX_AGE_SECONDS)); [naive_solver lia|].
    destruct (Z.ltb_spec (cache_cap_bytes cfg) (running t1 (k, r'))); naive_solver lia. }
  split; [done|]. split; [|split].
  - intros k r k' r' (Hk & Hl & Hr)%K Hk' L. apply K. split; [done|]. split.
    + unfold older in L. cbn in L. destruct (Z.ltb_spec (r_last_used r) (r_last_used r')); [lia|].
      cbn in L. boolify. lia.
    + rewrite <- Y in *. etransitivity; [by apply running_mono|exact Hr].
  - intros k r Hk Hn. rewrite B2. specialize (H2 k). rewrite Hn in H2. rewrite H1, Hk in *. cbn in *.
    specialize (B1 k). rewrite Hk in B1. cbn in B1.
    destruct (r_last_used r <? now - NS_CACHE_MAX_AGE_SECONDS); [done|]. case_test; [|done].
    unfold unlinked. by rewrite B1.
  - intros k [r Hk]. rewrite B2. pose proof Hk as Hk2. rewrite H2 in Hk2.
    specialize (B1 k). rewrite H1 in *. destruct (t !! k) as [r'|]; [|done]. cbn in *.
    destruct (r_last_used r' <? now - NS_CACHE_MAX_AGE_SECONDS); [done|].
    destruct (cache_cap_bytes cfg <? running t1 (k, r')); done.
Qed.

(** ** Keys determine what they are keys of *)

(** What the code hashes for the key of a URL, and for the key of a variant. *)
Definition base_text (url : bytes) (partition : option bytes) : bytes :=
  match partition with Some ((_ :: _) as p) => url ++ unit_sep ++ p | _ => url end.
Definition row_text (base selector : bytes) : bytes := base ++ unit_sep ++ selector.

(** A digest in hexadecimal that has no collision among the texts given. *)
Definition digest_ok (sha : bytes -> bytes) (texts : list bytes) : Prop :=
  (forall a b, In a texts -> In b texts -> sha a = sha b -> a = b) /\ (forall a, allb is_xdigit (sha a) = true).

Definition some_partition (p : option bytes) : bytes := default [] p.

Lemma split_unique c a b x y :
  allb (fun d => negb (d =c c)) a = true -> allb (fun d => negb (d =c c)) b = true ->
  a ++ c :: x = b ++ c :: y -> a = b /\ x = y.
Proof.
  revert b. induction a as [|d a IH]; intros [|e b]; cbn; intros Ha Hb H; injection H; intros; subst; boolify;
    try done.
  destruct (IH b) as [-> ->]; auto.
Qed.

Lemma xdigit_free_sep s : allb is_xdigit s = true -> allb (fun d => negb (d =c "031")) s = true.
Proof.
  apply allb_impl. intros x Hx. assert (X : negb (is_xdigit x) || negb (x =c "031") = true) by (clear; by_bytes x).
  by rewrite Hx in X.
Qed.

Section Keys.
Context (G : GLib) (GS : GLibSpec G).
Variable sha : bytes -> bytes.
Variable texts : list bytes.
Hypothesis Hsha : digest_ok sha texts.

Lemma base_key_text u p : base_key_for_url sha u p = sha (base_text u p).
Proof. by destruct p as [[|]|]. Qed.

Lemma url_free_sep url : url_should_cache url = true -> allb (fun d => negb (d =c "031")) url = true.
Proof.
  unfold url_should_cache. intros [_ H]%andb_prop. apply negb_true_iff in H.
  apply allb_forall, List.Forall_forall. intros c I. apply negb_true_iff, Ascii.eqb_neq. intros ->.
  apply not_true_iff_false in H. apply H, existsb_exists. exists "031"%char. by split.
Qed.

Lemma url_head url : url_should_cache url = true -> exists r, url = "h"%char :: r.
Proof.
  unfold url_should_cache, ns_url_is_http_or_https. intros [H _]%andb_prop. rewrite !has_prefix_doc in H.
  apply orb_prop in H as [H|H]; apply prefixb_spec in H as [k ->]; by eexists.
Qed.

Lemma base_key_inj u p u' p' :
  In (base_text u p) texts -> In (base_text u' p') texts ->
  url_should_cache u = true -> url_should_cache u' = true ->
  base_key_for_url sha u p = base_key_for_url sha u' p' -> u = u' /\ some_partition p = some_partition p'.
Proof.
  intros I I' Hu Hu'. pose proof (url_free_sep u Hu) as F. pose proof (url_free_sep u' Hu') as F'.
  assert (S : forall x : bytes, x <> [] -> u = u' ++ unit_sep ++ x -> False).
  { intros x _ E. rewrite E in F. rewrite allb_app in F. apply andb_prop in F as [_ F]. done. }
  assert (S' : forall x : bytes, x <> [] -> u' = u ++ unit_sep ++ x -> False).
  { intros x _ E. rewrite E in F'. rewrite allb_app in F'. apply andb_prop in F' as [_ F']. done. }
  rewrite !base_key_text. intros E%Hsha; [|done|done]. revert E. clear I I'. unfold base_text, some_partition.
  destruct p as [[|c p]|], p' as [[|c' p']|]; cbn [default]; intros E; try done; try (by exfalso; eauto);
    try (exfalso; eapply S; [|exact E]; done); try (exfalso; eapply S'; [|symmetry; exact E]; done).
  by apply (split_unique "031") in E as [-> ->].
Qed.

Lemma base_key_hex u p : allb is_xdigit (base_key_for_url sha u p) = true.
Proof. rewrite base_key_text. apply Hsha. Qed.

Lemma base_not_row u p b s :
  In (base_text u p) texts -> In (row_text b s) texts ->
  url_should_cache u = true -> allb is_xdigit b = true ->
  base_key_for_url sha u p <> sha (row_text b s).
Proof.
  intros I I' Hu Hb. destruct (url_head u Hu) as [r Er]. rewrite base_key_text. intros E%Hsha; [|done|done].
  assert (N : forall x, "h"%char :: x <> row_text b s).
  { intros x. destruct b as [|c b]; [done|]. cbn in Hb. intros [= <- _]. done. }
  rewrite Er in E. revert E. unfold base_text. destruct p as [[|c p]|]; apply N.
Qed.

(** The text hashed for a selector, when one is. *)
Definition row_texts (base : bytes) (selector : option bytes) : list bytes :=
  match selector with Some ((_ :: _) as s) => [row_text base s] | _ => [] end.

Lemma row_key_inj u p s u' p' s' :
  In (base_text u p) texts -> In (base_text u' p') texts ->
  incl (row_texts (base_key_for_url sha u p) (Some s)) texts ->
  incl (row_texts (base_key_for_url sha u' p') (Some s')) texts ->
  url_should_cache u = true -> url_should_cache u' = true ->
  row_key_for sha (base_key_for_url sha u p) s = row_key_for sha (base_key_for_url sha u' p') s' ->
  base_key_for_url sha u p = base_key_for_url sha u' p' /\ s = s'.
Proof.
  intros I I' J J' Hu Hu'. pose proof (base_key_hex u p) as X. pose proof (base_key_hex u' p') as X'.
  unfold row_key_for. destruct s as [|c s], s' as [|c' s']; intros E.
  - done.
  - apply base_not_row in E; [done|done|apply J'; by left|done|done].
  - symmetry in E. apply base_not_row in E; [done|done|apply J; by left|done|done].
  - apply Hsha in E; [|apply J; by left|apply J'; by left].
    apply (split_unique "031") in E as [-> ->]; [done|by apply xdigit_free_sep|by apply xdigit_free_sep].
Qed.
End Keys.

(** ** What the selector fixes *)

Section Vary.
Context (G : GLib).

(** The request headers a [Vary] value selects on. *)
Definition vary_names (vary : option bytes) : list bytes :=
  match vary with
  | None | Some [] => []
  | Some v =>
      List.filter (fun n => negb ((length n =? 0)%nat || strcmp0 n ($"accept-encoding")))
        (map (fun tok => g_ascii_strdown (g_strstrip tok)) (g_strsplit v ($",")))
  end.

Definition line_free (headers : list bytes) : Prop :=
  Forall (fun h => allb (fun d => negb (d =c nl)) h = true) headers.

Lemma header_value_line headers n v :
  line_free headers -> request_header_value headers n = Some v -> allb (fun d => negb (d =c nl)) v = true.
Proof.
  induction 1 as [|h hs Hh _ IH]; cbn; [done|].
  destruct (g_ascii_strncasecmp0 h n (length n)); [|done].
  destruct (drop (length n) h) as [|c p] eqn:E; [done|]. destruct (c =c ":"); [|done].
  intros [= <-]. assert (Hp : allb (fun d => negb (d =c nl)) (c :: p) = true).
  { rewrite <- E. rewrite <- (take_drop (length n) h), allb_app in Hh. by apply andb_prop in Hh as [_ ?]. }
  cbn in Hp. apply andb_prop in Hp as [_ Hp]. rewrite <- (take_drop_while is_blank p), allb_app in Hp.
  by apply andb_prop in Hp as [_ ?].
Qed.

Lemma vary_loop_prefix toks h a s : vary_loop toks h a = Some s -> exists k, s = a ++ k.
Proof.
  revert a. induction toks as [|t ts IH]; intros a; cbn; [intros [= <-]; exists []; by rewrite app_nil_r|].
  destruct (_ || _); [apply IH|]. destruct (negb _); [done|].
  destruct (request_header_value _ _); [|done]. intros (k & ->)%IH. rewrite <- app_assoc. eauto.
Qed.

Lemma vary_loop_same toks h h' a s :
  line_free h -> line_free h' ->
  vary_loop toks h a = Some s -> vary_loop toks h' a = Some s ->
  Forall (fun n => request_header_value h n = request_header_value h' n)
    (List.filter (fun n => negb ((length n =? 0)%nat || strcmp0 n ($"accept-encoding")))
       (map (fun tok => g_ascii_strdown (g_strstrip tok)) toks)).
Proof.
  intros L L'. revert a. induction toks as [|t ts IH]; intros a; cbn; [constructor|].
  set (n := g_ascii_strdown (g_strstrip t)). destruct (_ || _) eqn:E; cbn [negb]; [apply IH|].
  destruct (negb _); [done|].
  destruct (request_header_value h n) as [v|] eqn:Ev; [|done].
  destruct (request_header_value h' n) as [v'|] eqn:Ev'; [|done]. intros H H'.
  assert (v = v') as ->.
  { destruct (vary_loop_prefix _ _ _ _ H) as [k Hk]. destruct (vary_loop_prefix _ _ _ _ H') as [k' Hk'].
    rewrite Hk in Hk'. rewrite <- !app_assoc in Hk'. apply app_inv_head in Hk'.
    apply app_inv_head in Hk'. cbn in Hk'. injection Hk' as Hk'.
    by destruct (split_unique nl v v' k k' (header_value_line h n v L Ev)
      (header_value_line h' n v' L' Ev') Hk'). }
  constructor; [congruence|]. by eapply IH.
Qed.

Lemma vary_selector_same vary h h' s :
  line_free h -> line_free h' ->
  vary_selector vary h = Some s -> vary_selector vary h' = Some s ->
  Forall (fun n => request_header_value h n = request_header_value h' n) (vary_names vary).
Proof.
  intros L L'. destruct vary as [[|c v]|]; cbn [vary_selector vary_names]; try by constructor.
  by apply vary_loop_same.
Qed.
End Vary.

(** ** Runs of the cache *)

(** What surrounds one call: the statements that succeed, the files, the clock
    and the order of the rows. *)
Record call_env := {
  v_ok : stmt -> bool; v_unlink : bytes * bytes -> bool; v_write : bool; v_read : bool; v_now : Z;
  v_scan : list (bytes * row) -> list (bytes * row);
}.

Inductive op :=
  O_PUT (p : response)
| O_GET (url partition : option bytes) (headers : list bytes)
| O_PROMOTE (url : bytes) (partition : option bytes) (headers : list bytes) (cc expires : option bytes)
| O_CLEAR.

(** A row that [find_row_key] chooses. *)
Lemma find_row_key_ok {G : GLib} sha scan ok base headers s k :
  (forall l x, In x (scan l) -> In x l) ->
  find_row_key sha scan ok base headers s = Some k ->
  exists r sel, table s !! k = Some r /\ r_base_key r = base /\
    vary_selector (r_vary r) headers = Some sel /\ k = row_key_for sha base sel.
Proof.
  intros Hscan. unfold find_row_key. destruct (ok S_FIND); [|done].
  set (l := List.filter _ _).
  assert (L : forall x, In x (scan l) -> table s !! x.1 = Some x.2 /\ r_base_key x.2 = base).
  { intros [k' r'] I. apply Hscan, filter_In in I as [I B].
    apply list_elem_of_In, elem_of_map_to_list in I. by apply bool_decide_eq_true in B. }
  induction (scan l) as [|[k0 r0] rows IH]; [done|]. cbn [find_row_loop].
  assert (H0 := L (k0, r0) (or_introl eq_refl)).
  assert (IH' : find_row_loop sha rows base headers = Some k -> _) by (apply IH; intros; apply L; by right).
  destruct (vary_selector (r_vary r0) headers) as [sel|] eqn:V; [|exact IH'].
  destruct (strcmp0 k0 _) eqn:E; [|exact IH']. intros [= <-]. apply bool_decide_eq_true in E.
  exists r0, sel. cbn in H0. by destruct H0.
Qed.

Section Runs.
Context {G : GLib} {D : GDateTime}.
Variable cfg : option ns_config.
Variable sha : bytes -> bytes.

Definition run_op (s : cache) (oe : op * call_env) : cache :=
  let '(o, e) := oe in
  match o with
  | O_PUT p => ns_cache_put cfg sha (v_ok e) (v_unlink e) (v_write e) (v_now e) p s
  | O_GET url part h =>
      (ns_cache_get cfg sha (v_scan e) (v_ok e) (v_unlink e) (v_read e) (v_now e) url part h s).2
  | O_PROMOTE url part h cc ex =>
      ns_cache_promote_304 sha (v_scan e) (v_ok e) (v_now e) url part h cc ex s
  | O_CLEAR => ns_cache_clear (v_ok e) (v_unlink e) s
  end.
Definition run (s : cache) (ops : list (op * call_env)) : cache := fold_left run_op ops s.

(** The responses the cache was offered, and the requests a 304 was reported for. *)
Definition puts (ops : list (op * call_env)) : list response :=
  omap (fun oe => match oe.1 with O_PUT p => Some p | _ => None end) ops.
Definition asked (ops : list (op * call_env)) : list (bytes * option bytes * list bytes) :=
  omap (fun oe => match oe.1 with O_PROMOTE u pt h _ _ => Some (u, pt, h) | _ => None end) ops.

(** What is hashed: for each response its URL and its variant, for each request its
    URL and the variants it may be of. *)
Definition hashed_put (p : response) : list bytes :=
  base_text (c_url p) (c_partition p) ::
  row_texts (base_key_for_url sha (c_url p) (c_partition p)) (vary_selector (c_vary p) (c_request_headers p)).
Definition hashed_request (ps : list response) (q : bytes * option bytes * list bytes) : list bytes :=
  let '(u, pt, h) := q in
  base_text u pt :: flat_map (fun p => row_texts (base_key_for_url sha u pt) (vary_selector (c_vary p) h)) ps.
Definition hashed (ps : list response) (qs : list (bytes * option bytes * list bytes)) : list bytes :=
  flat_map hashed_put ps ++ flat_map (hashed_request ps) qs.

(** A [SELECT] returns rows of the table, and a store that cannot write its file
    removes the row or the file. *)
Definition sound_call (oe : op * call_env) : Prop :=
  (forall l x, In x (v_scan oe.2 l) -> In x l) /\
  match oe.1 with
  | O_PUT p =>
      v_write oe.2 = true \/ v_ok oe.2 S_DELETE = true \/
      forall k r, cache_row cfg sha (v_now oe.2) p = Some (k, r) -> v_unlink oe.2 (body_path_for_key k) = true
  | _ => True
  end.

(** No response was stored under the key. *)
Definition not_stored (k : bytes) (ops : list (op * call_env)) : Prop :=
  Forall (fun oe => forall p r, oe.1 = O_PUT p -> cache_row cfg sha (v_now oe.2) p = Some (k, r) ->
            v_ok oe.2 S_INSERT = false) ops.

Definition same_row (r r0 : row) : Prop :=
  r = row_times (r_expires_at r) (r_fetched_at r) (r_last_used r) r0.

(** The times a row has: those of the store, or of a later 304 for the same variant. *)
Definition dated (p : response) (stored : Z) (after : list (op * call_env)) (k : bytes) (expires fetched : Z) : Prop :=
  (expires = freshness_from_headers stored (c_cache_control p) (c_expires p) /\ fetched = stored) \/
  exists u pt h cc ex e sel, In (O_PROMOTE u pt h cc ex, e) after /\ url_should_cache u = true /\
    vary_selector (c_vary p) h = Some sel /\ k = row_key_for sha (base_key_for_url sha u pt) sel /\
    expires = Z.max 0 (freshness_from_headers (v_now e) cc ex) /\ fetched = v_now e.

(** A row is the last response stored under its key, times apart, and its file, when
    it is there, holds that response's body. *)
Definition stored_from (ops : list (op * call_env)) (b : option bytes) (k : bytes) (r : row) : Prop :=
  exists earlier p e after,
    ops = earlier ++ (O_PUT p, e) :: after /\
    cache_row cfg sha (v_now e) p = Some (k, stored_row sha (v_now e) p) /\
    not_stored k after /\ same_row r (stored_row sha (v_now e) p) /\
    dated p (v_now e) after k (r_expires_at r) (r_fetched_at r) /\
    forall c, b = Some c -> c = c_body p.

Definition cache_inv (ops : list (op * call_env)) (s : cache) : Prop :=
  g_cache_disabled s = false /\ g_cache_db s <> None /\
  forall k r, table s !! k = Some r -> stored_from ops (bodies s !! body_path_for_key k) k r.

Lemma inv_enabled ops s : cache_inv ops s -> ns_cache_enabled s = true.
Proof. intros (Dis & E & _). unfold ns_cache_enabled. rewrite Dis. by destruct (g_cache_db s). Qed.

(** Losing rows and files. *)
Definition shrinks (s' s : cache) : Prop :=
  g_cache_disabled s' = g_cache_disabled s /\ (g_cache_db s <> None -> g_cache_db s' <> None) /\
  (forall k r, table s' !! k = Some r -> table s !! k = Some r) /\
  (forall k b, bodies s' !! body_path_for_key k = Some b -> bodies s !! body_path_for_key k = Some b).

#[local] Instance shrinks_preorder : PreOrder shrinks.
Proof. split; [by repeat split|]. intros a b c (H1 & H2 & H3 & H4) (H5 & H6 & H7 & H8). split; [congruence|]. split; [auto|]. split; eauto. Qed.

(** One more call that stores nothing under the key. *)
Lemma stored_from_after ops x b b' k r :
  not_stored k [x] -> (forall c, b' = Some c -> b = Some c) ->
  stored_from ops b k r -> stored_from (ops ++ [x]) b' k r.
Proof.
  intros Hx Hb (earlier & p & e & after & -> & H1 & H2 & H3 & H4 & H5).
  exists earlier, p, e, (after ++ [x]). split; [by rewrite <- app_assoc|]. split; [done|].
  split; [by apply Forall_app|]. split; [done|]. split; [|eauto].
  destruct H4 as [H4|(u & pt & h & cc & ex & e' & sel & Hin & H4)]; [by left|right].
  exists u, pt, h, cc, ex, e', sel. split; [apply in_or_app; by left|done].
Qed.

Lemma inv_shrinks ops s' s : shrinks s' s -> cache_inv ops s -> cache_inv ops s'.
Proof.
  intros (Hd & He & Ht & Hb) (Dis & E & I). split; [congruence|]. split; [by apply He|].
  intros k r Hk. destruct (I k r (Ht k r Hk)) as (earlier & p & e & after & H1 & H2 & H3 & H4 & H5 & H6).
  exists earlier, p, e, after. repeat (split; [done|]). eauto.
Qed.

Lemma inv_after ops x s :
  (forall k r, table s !! k = Some r -> not_stored k [x]) -> cache_inv ops s -> cache_inv (ops ++ [x]) s.
Proof.
  intros Hx (Dis & E & I). split; [done|]. split; [done|]. intros k r Hk.
  eapply stored_from_after; [by eapply Hx| |by apply I]. done.
Qed.

Lemma inv_quiet ops o e s : (forall p, o <> O_PUT p) -> cache_inv ops s -> cache_inv (ops ++ [(o, e)]) s.
Proof. intros H. apply inv_after. intros k r _. constructor; [|constructor]. intros p r' E. by apply H in E. Qed.

Lemma delete_key_shrinks ok unl k s : shrinks (delete_key ok unl k s) s.
Proof.
  unfold delete_key. set (s1 := if unl _ then _ else s).
  assert (S1 : shrinks s1 s /\ g_cache_db s1 = g_cache_db s).
  { unfold s1. destruct (unl _); [|by repeat split]. split; [|done]. split; [done|]. split; [done|]. split; [done|].
    intros k' b H. cbn in H. by apply lookup_delete_Some in H as [_ H]. }
  destruct S1 as [S1 E1]. cbv zeta. fold s1. rewrite E1. destruct (g_cache_db s) as [t|] eqn:Et; [|done].
  destruct (ok S_DELETE); [|done]. etransitivity; [|exact S1]. split; [done|]. split; [done|]. split; [|done].
  intros k' r. unfold table. cbn. rewrite E1. cbn. by intros [_ ?]%lookup_delete_Some.
Qed.

Lemma delete_keys_shrinks ok unl ks s : shrinks (fold_left (fun s k => delete_key ok unl k s) ks s) s.
Proof.
  revert s. induction ks as [|k ks IH]; intros s; cbn; [reflexivity|].
  etransitivity; [apply IH|apply delete_key_shrinks].
Qed.

Lemma evict_shrinks ok unl now s : shrinks (evict_to_cap cfg ok unl now s) s.
Proof.
  unfold evict_to_cap, evict_aged_out, evict_by_select. destruct (g_cache_db s) as [t|] eqn:E; [|reflexivity].
  set (s1 := if ok S_AGED then _ else _).
  assert (shrinks s1 s) by (unfold s1; destruct (ok S_AGED); [apply delete_keys_shrinks|reflexivity]).
  etransitivity; [|done]. destruct (g_cache_db s1); [|reflexivity]. destruct (ok S_CAP); [apply delete_keys_shrinks|reflexivity].
Qed.

(** New times for a row. *)
Lemma inv_times ops k f s t :
  g_cache_db s = Some t ->
  (forall r b, t !! k = Some r -> stored_from ops b k r -> stored_from ops b k (f r)) ->
  cache_inv ops s -> cache_inv ops (set_db (alter f k t) s).
Proof.
  intros E Hf (Dis & _ & I). split; [done|]. split; [done|]. intros k' r. unfold table. cbn.
  assert (T : table s = t) by (unfold table; by rewrite E).
  intros [(-> & r1 & Hr1 & ->)|[Hne Hk]]%lookup_alter_Some.
  - apply Hf; [done|]. apply I. by rewrite T.
  - apply I. by rewrite T.
Qed.

Lemma cache_row_ok now p k r :
  cache_row cfg sha now p = Some (k, r) ->
  r = stored_row sha now p /\
  url_should_cache (c_url p) = true /\ is_cacheable_status (c_status p) = true /\
  has_word (c_cache_control p) ($"no-store") = false /\ has_word (c_cache_control p) ($"private") = false /\
  Z.of_nat (length (c_body p)) <= cache_cap_bytes cfg /\ Z.of_nat (length (c_body p)) <= 2147483647 /\
  exists sel, vary_selector (c_vary p) (c_request_headers p) = Some sel /\
    k = row_key_for sha (base_key_for_url sha (c_url p) (c_partition p)) sel.
Proof.
  unfold cache_row. destruct (url_should_cache (c_url p)); [|done]. cbn [negb].
  destruct (has_word _ ($"no-store")); [done|]. destruct (has_word _ ($"private")); [done|]. cbn [orb].
  destruct (is_cacheable_status (c_status p)); [|done]. cbn [negb].
  destruct (_ || (cache_cap_bytes cfg <? _)) eqn:L; [done|]. boolify.
  destruct (freshness_from_headers _ _ _ <? 0); [done|].
  destruct (vary_selector _ _) as [sel|]; [|done]. intros [= <- <-].
  repeat (split; [done|]). by exists sel.
Qed.

Context (GS : GLibSpec G) (all : list response) (qs : list (bytes * option bytes * list bytes)).
Context (Hsha : digest_ok sha (hashed all qs)).

Lemma hashed_put_in p : In p all -> incl (hashed_put p) (hashed all qs).
Proof. intros Hp t Ht. apply in_or_app. left. apply in_flat_map. eauto. Qed.

Lemma hashed_request_in q : In q qs -> incl (hashed_request all q) (hashed all qs).
Proof. intros Hq t Ht. apply in_or_app. right. apply in_flat_map. eauto. Qed.

(** Two responses stored under one key are of one URL and partition. *)
Lemma puts_share_base p p' n n' k r r' :
  In p all -> In p' all -> cache_row cfg sha n p = Some (k, r) -> cache_row cfg sha n' p' = Some (k, r') ->
  base_key_for_url sha (c_url p) (c_partition p) = base_key_for_url sha (c_url p') (c_partition p').
Proof.
  intros Hp Hp' H H'. pose proof (hashed_put_in p Hp) as A. pose proof (hashed_put_in p' Hp') as A'.
  destruct (cache_row_ok _ _ _ _ H) as (-> & U & _ & _ & _ & _ & _ & sel & V & K).
  destruct (cache_row_ok _ _ _ _ H') as (-> & U' & _ & _ & _ & _ & _ & sel' & V' & K').
  unfold hashed_put in A, A'. rewrite V in A. rewrite V' in A'. rewrite K in K'.
  apply (row_key_inj G GS sha _ Hsha) in K' as [B _]; try done; try (apply A; by left); try (apply A'; by left).
  - intros t Ht. apply A. by right.
  - intros t Ht. apply A'. by right.
Qed.

Lemma put_row p e ops s k :
  In p all -> incl (puts ops) all -> cache_inv ops s ->
  cache_row cfg sha (v_now e) p = Some (k, stored_row sha (v_now e) p) ->
  upsert k (stored_row sha (v_now e) p) (table s) = <[k := stored_row sha (v_now e) p]> (table s).
Proof.
  intros Hp Ha (_ & _ & I) Hr. unfold upsert. destruct (table s !! k) as [old|] eqn:Eo; [|done].
  destruct (I k old Eo) as (earlier & q & eq & after & Eq & Hq & _ & Hs & _).
  assert (Hq' : In q all).
  { apply Ha. unfold puts. rewrite Eq, omap_app. apply in_or_app. right. by left. }
  assert (r_base_key old = base_key_for_url sha (c_url p) (c_partition p)) as ->; [|done].
  rewrite <- (puts_share_base q p _ _ _ _ _ Hq' Hp Hq Hr). unfold same_row in Hs. by rewrite Hs.
Qed.

Lemma put_inv p e ops s :
  In p all -> incl (puts ops) all -> sound_call (O_PUT p, e) ->
  cache_inv ops s -> cache_inv (ops ++ [(O_PUT p, e)]) (run_op s (O_PUT p, e)).
Proof.
  intros Hp Ha [_ Hc] I. cbn [fst snd run_op] in *. unfold ns_cache_put. rewrite (inv_enabled _ _ I). cbn [negb].
  destruct (cache_row cfg sha (v_now e) p) as [[k r]|] eqn:E.
  2:{ apply inv_after; [|done]. intros k r _. constructor; [|constructor]. cbn. intros p' r' [= <-]. by rewrite E. }
  destruct (v_ok e S_INSERT) eqn:Ei; cbn [negb].
  2:{ apply inv_after; [|done]. intros k' r' _. constructor; [|constructor]. done. }
  destruct (cache_row_ok _ _ _ _ E) as (-> & _). rewrite (put_row p e ops s k Hp Ha I E).
  set (s1 := set_db _ s). destruct I as (Dis & Db & I).
  assert (J : forall b, (forall c, b !! body_path_for_key k = Some c -> c = c_body p) ->
    (forall k', k' <> k -> b !! body_path_for_key k' = bodies s !! body_path_for_key k') ->
    cache_inv (ops ++ [(O_PUT p, e)]) (set_bodies b s1)).
  { intros b Hb Ho. split; [done|]. split; [done|]. intros k' r1. unfold table. cbn.
    intros [[<- <-]|[Hne Hk]]%lookup_insert_Some.
    - exists ops, p, e, []. split; [done|]. split; [done|]. split; [constructor|]. split; [done|]. split; [by left|done].
    - rewrite Ho by done. eapply stored_from_after; [| |by apply I]; [|done].
      constructor; [|constructor]. cbn. intros p' r' [= <-]. rewrite E. intros [= -> _]. done. }
  destruct (v_write e).
  - eapply inv_shrinks; [apply evict_shrinks|]. apply J; [intros c; rewrite lookup_insert_eq; by intros [= <-]|].
    intros k' Hne. by rewrite lookup_insert_ne by (intros ?%path_inj; done).
  - unfold delete_key. destruct (v_unlink e (body_path_for_key k)) eqn:Eu.
    + eapply inv_shrinks; [|apply (J (delete (body_path_for_key k) (bodies s)))].
      * cbn [g_cache_db set_bodies set_db s1]. destruct (v_ok e S_DELETE); [|reflexivity].
        split; [done|]. split; [done|]. split; [|done]. intros k' r1. unfold table. cbn. by intros [_ ?]%lookup_delete_Some.
      * intros c. by rewrite lookup_delete_eq.
      * intros k' Hne. by rewrite lookup_delete_ne by (intros ?%path_inj; done).
    + destruct Hc as [?|[Hc|Hc]]; [done| |by rewrite (Hc k _ eq_refl) in Eu]. cbn [g_cache_db set_db s1]. rewrite Hc.
      split; [done|]. split; [done|]. intros k' r1. unfold table. cbn. rewrite delete_insert_eq.
      intros [Hne Hk]%lookup_delete_Some. eapply stored_from_after; [| |by apply I]; [|done].
      constructor; [|constructor]. cbn. intros p' r' [= <-]. rewrite E. intros [= -> _]. done.
Qed.

Lemma get_shrinks e url part h s :
  let s' := run_op s (O_GET url part h, e) in
  shrinks s' s \/ exists k, s' = touch_key (v_ok e) (v_now e) k s.
Proof.
  cbn [run_op]. unfold ns_cache_get.
  destruct url as [u|]; [|by left]. destruct (ns_cache_enabled s); [|by left]. cbn [negb].
  destruct (find_row_key _ _ _ _ _ _) as [k|]; [|by left].
  destruct (if v_ok e S_GET then _ else _) as [r|]; [|by left].
  destruct (negb _); [left; apply delete_key_shrinks|]. destruct (_ || _); [by left|].
  destruct (if v_read e then _ else _); [|left; apply delete_key_shrinks].
  destruct (_ || _); [left; apply delete_key_shrinks|]. right. by exists k.
Qed.

Lemma promote_inv ops e u pt h cc ex s :
  sound_call (O_PROMOTE u pt h cc ex, e) -> cache_inv ops s ->
  cache_inv (ops ++ [(O_PROMOTE u pt h cc ex, e)]) (run_op s (O_PROMOTE u pt h cc ex, e)).
Proof.
  intros [Hscan _] I. apply (inv_quiet ops (O_PROMOTE u pt h cc ex) e) in I; [|done]. cbn [run_op fst snd] in *.
  unfold ns_cache_promote_304. destruct (negb _ || _) eqn:En; [done|]. apply orb_false_elim in En as [_ Eu].
  apply negb_false_iff in Eu. destruct (find_row_key _ _ _ _ _ _) as [k|] eqn:Ef; [|done].
  apply find_row_key_ok in Ef as (r & sel & Hr & _ & V & Ek); [|done].
  destruct (v_ok e S_OLD_EXPIRES); [|done]. rewrite Hr. destruct (_ || negb _); [done|].
  destruct (g_cache_db s) as [t|] eqn:Et; [|by destruct I as (_ & [] & _)].
  assert (T : table s = t) by (unfold table; by rewrite Et). rewrite T in *.
  eapply inv_times; [done| |done]. intros r' b Hr' (earlier & p & e0 & after & H1 & H2 & H3 & H4 & _ & H6).
  rewrite Hr in Hr'. injection Hr' as <-. exists earlier, p, e0, after. do 3 (split; [done|]).
  split; [unfold same_row in *; rewrite H4; by destruct (stored_row _ _ _)|]. split; [|done]. right.
  exists u, pt, h, cc, ex, e, sel. split.
  - destruct after as [|y after] using rev_ind; [apply app_inj_tail in H1 as [_ H1]; done|].
    rewrite app_comm_cons, app_assoc in H1. apply app_inj_tail in H1 as [_ <-]. apply in_or_app. right. by left.
  - split; [done|]. assert (Ev : r_vary r = c_vary p) by (unfold same_row in H4; by rewrite H4).
    split; [by rewrite <- Ev|]. split; [done|]. cbn [row_times r_expires_at r_fetched_at]. split; [|done].
    destruct (Z.ltb_spec (freshness_from_headers (v_now e) cc ex) 0); lia.
Qed.

Lemma step_inv oe ops s :
  sound_call oe -> incl (puts (ops ++ [oe])) all -> cache_inv ops s -> cache_inv (ops ++ [oe]) (run_op s oe).
Proof.
  intros Hs Ha I. destruct oe as [[p|url part h|u pt h cc ex|] e].
  - assert (Hp : In p all /\ incl (puts ops) all).
    { unfold puts in Ha. rewrite omap_app in Ha. split; [apply Ha, in_or_app; right; by left|].
      intros q Hq. apply Ha, in_or_app. by left. }
    destruct Hp as [Hp Hi]. by apply put_inv.
  - apply (inv_quiet ops (O_GET url part h) e) in I; [|done].
    destruct (get_shrinks e url part h s) as [H|[k ->]]; [by eapply inv_shrinks|].
    unfold touch_key. destruct (g_cache_db s) as [t|] eqn:Et; [|done]. destruct (v_ok e S_TOUCH); [|done].
    eapply inv_times; [done| |done].
    intros r b _ (earlier & p & e0 & after & H1 & H2 & H3 & H4 & H5 & H6). exists earlier, p, e0, after.
    do 3 (split; [done|]). split; [unfold same_row in *; rewrite H4; by destruct (stored_row _ _ _)|]. by split.
  - by apply promote_inv.
  - apply (inv_quiet ops O_CLEAR e) in I; [|done]. eapply inv_shrinks; [|exact I]. cbn [run_op]. unfold ns_cache_clear.
    split; [by destruct (v_ok e S_CLEAR), (g_cache_db s)|]. split; [by destruct (v_ok e S_CLEAR), (g_cache_db s) eqn:E; cbn; rewrite ?E|]. split.
    + intros k r. unfold table. destruct (v_ok e S_CLEAR); cbn; [|done].
      destruct (g_cache_db s) eqn:E; cbn; [by rewrite lookup_empty|by rewrite E].
    + intros k b. cbn. unfold cache_rmrf.
      destruct (v_ok e S_CLEAR), (g_cache_db s); cbn; by intros [? _]%map_lookup_filter_Some.
Qed.

Lemma run_inv ops :
  Forall sound_call ops -> incl (puts ops) all -> cache_inv ops (run (Build_cache false (Some ∅) ∅) ops).
Proof.
  induction ops as [|oe ops IH] using rev_ind; intros Hs Ha.
  - split; [done|]. split; [done|]. intros k r. unfold table. cbn. by rewrite lookup_empty.
  - apply Forall_app in Hs as [Hs Hx]. apply Forall_cons in Hx as [Hx _]. unfold run. rewrite fold_left_app. cbn [fold_left].
    apply step_inv; [done|done|]. apply IH; [done|]. intros q Hq. apply Ha. unfold puts. rewrite omap_app.
    apply in_or_app. by left.
Qed.

(** A request and a response with one key are of one URL, partition and variant. *)
Lemma request_is_of u pt h sel p n k r :
  In p all -> In (u, pt, h) qs -> url_should_cache u = true ->
  cache_row cfg sha n p = Some (k, r) -> vary_selector (c_vary p) h = Some sel ->
  k = row_key_for sha (base_key_for_url sha u pt) sel ->
  u = c_url p /\ some_partition pt = some_partition (c_partition p) /\
  vary_selector (c_vary p) (c_request_headers p) = Some sel.
Proof.
  intros Hp Hq Hu Hr V ->. pose proof (hashed_put_in p Hp) as A. pose proof (hashed_request_in _ Hq) as B.
  destruct (cache_row_ok _ _ _ _ Hr) as (_ & U & _ & _ & _ & _ & _ & selp & Vp & K).
  unfold hashed_put in A. rewrite Vp in A.
  assert (B1 : In (base_text u pt) (hashed all qs)) by (apply B; by left).
  assert (B2 : incl (row_texts (base_key_for_url sha u pt) (Some sel)) (hashed all qs)).
  { intros t Ht. apply B. right. apply in_flat_map. exists p. by rewrite V. }
  assert (A1 : In (base_text (c_url p) (c_partition p)) (hashed all qs)) by (apply A; by left).
  apply (row_key_inj G GS sha _ Hsha) in K as [K ->]; try done.
  - apply (base_key_inj G sha _ Hsha) in K as [-> K]; done.
  - intros t Ht. apply A. by right.
Qed.
End Runs.

(** The values the two requests give the headers the response's [Vary] names. *)
Definition same_variant (G : GLib) (p : response) (h : list bytes) : Prop :=
  Forall (fun n => request_header_value h n = request_header_value (c_request_headers p) n) (vary_names G (c_vary p)).

(** The response an entry shows, stored at [stored] with [after] following. *)
Definition shows (G : GLib) (D : GDateTime) (p : response) (stored : Z) (after : list (op * call_env)) (a : ns_cache_entry) : Prop :=
  e_body a = c_body p /\ e_status a = c_status p /\ e_content_type a = c_content_type p /\ e_cors a = c_cors p /\
  e_etag a = c_etag p /\ e_last_modified a = c_last_modified p /\ e_final_url a = default (c_url p) (c_final_url p) /\
  ((e_expires_at a = freshness_from_headers stored (c_cache_control p) (c_expires p) /\ e_fetched_at a = stored) \/
   exists pt h cc ex e, In (O_PROMOTE (c_url p) pt h cc ex, e) after /\
     some_partition pt = some_partition (c_partition p) /\ same_variant G p h /\
     e_expires_at a = Z.max 0 (freshness_from_headers (v_now e) cc ex) /\ e_fetched_at a = v_now e).

(** C4. The cache answers only with what it was given: whatever sequence of stores,
    look-ups, revalidations and clearings went before, whichever SQL statements and
    file operations failed in it and in whatever order SQLite returns rows, a response
    found for a request is one that was offered for the same URL in the same
    partition, cacheable and not marked [no-store] or [private], and no later one was
    stored under its key. Its body, its status and its metadata are those it was
    offered with; its expiry is the one its headers gave then, or the one a later 304
    for the same URL, partition and variant gave; and the two requests agree on every
    header its [Vary] selects. The one combination of failures left out
    ([sound_call]) is a store that can neither write its file nor remove the old one
    nor delete its row, which leaves the new row with the old body
    ([stale_body_served]). The digest has no collision among the texts the run
    hashes. *)
Theorem cache_serves_what_was_stored (G : GLib) (D : GDateTime) (GS : GLibSpec G)
    (cfg : option ns_config) (sha : bytes -> bytes) (ops : list (op * call_env)) (e : call_env)
    (url : bytes) (partition : option bytes) (headers : list bytes) (a : ns_cache_entry) :
  digest_ok sha (hashed sha (puts ops) ((url, partition, headers) :: asked ops)) ->
  Forall (fun p => line_free (c_request_headers p)) (puts ops) ->
  Forall (fun q => line_free q.2) ((url, partition, headers) :: asked ops) ->
  url_should_cache url = true -> Forall (sound_call cfg sha) ops -> (forall l x, In x (v_scan e l) -> In x l) ->
  let s := run cfg sha (Build_cache false (Some ∅) ∅) ops in
  (ns_cache_get cfg sha (v_scan e) (v_ok e) (v_unlink e) (v_read e) (v_now e) (Some url) partition headers s).1 = Some a ->
  exists before p e0 after k,
    ops = before ++ (O_PUT p, e0) :: after /\
    cache_row cfg sha (v_now e0) p = Some (k, stored_row sha (v_now e0) p) /\ not_stored cfg sha k after /\
    c_url p = url /\ some_partition (c_partition p) = some_partition partition /\
    is_cacheable_status (c_status p) = true /\
    has_word (c_cache_control p) ($"no-store") = false /\ has_word (c_cache_control p) ($"private") = false /\
    shows G D p (v_now e0) after a /\ same_variant G p headers.
Proof.
  intros Hsha Hl Hh Hu Hs Hscan s. set (qs := (url, partition, headers) :: asked ops) in *.
  pose proof (run_inv cfg sha GS (puts ops) qs Hsha ops Hs (incl_refl _)) as I.
  fold s in I. unfold ns_cache_get. destruct (ns_cache_enabled s); [|done]. cbn [negb].
  destruct (find_row_key _ _ _ _ _ _) as [k|] eqn:F; [|done].
  apply find_row_key_ok in F as (r & sel & Hk & _ & Hv & Ek); [|done].
  destruct (v_ok e S_GET); [|done]. rewrite Hk. destruct (negb _); [done|]. destruct (_ || _); [done|].
  destruct (v_read e); [|done]. destruct I as (_ & _ & I).
  destruct (I k r Hk) as (before & p & e0 & after & Eo & Hrow & Hnot & Hsame & Hdate & Hbody).
  destruct (bodies s !! body_path_for_key k) as [data|] eqn:Hd; [|done]. destruct (_ || _); [done|].
  intros [= <-]. specialize (Hbody data eq_refl).
  assert (Hp : In p (puts ops)).
  { unfold puts. rewrite Eo, omap_app. apply in_or_app. right. by left. }
  assert (Lp : line_free (c_request_headers p)) by (rewrite List.Forall_forall in Hl; by apply Hl).
  assert (V : forall u pt h sl, In (u, pt, h) qs -> url_should_cache u = true -> vary_selector (c_vary p) h = Some sl ->
    k = row_key_for sha (base_key_for_url sha u pt) sl ->
    c_url p = u /\ some_partition (c_partition p) = some_partition pt /\ same_variant G p h).
  { intros u pt h sl Hin Hc Hsl Hkk.
    destruct (request_is_of cfg sha GS (puts ops) qs Hsha u pt h sl p _ _ _ Hp Hin Hc Hrow Hsl Hkk) as (-> & -> & Hvp).
    split; [done|]. split; [done|]. apply (vary_selector_same G _ _ _ sl); try done.
    rewrite List.Forall_forall in Hh. apply (Hh _ Hin). }
  unfold same_row in Hsame. assert (Er : r_vary r = c_vary p) by by rewrite Hsame. rewrite Er in Hv.
  destruct (V url partition headers sel) as (Eu & Ep & Sv); [by left|done..|].
  destruct (cache_row_ok _ _ _ _ _ _ Hrow) as (_ & _ & Sp & N1 & N2 & _).
  exists before, p, e0, after, k. do 8 (split; [done|]). split; [|done].
  unfold shows. cbn. rewrite Hsame. cbn. do 7 (split; [done|]).
  destruct Hdate as [Hdate|(u & pt & h & cc & ex & e' & sl & Hin & Hc & Hsl & Hkk & Hdate)]; [by left|right].
  assert (Hq : In (u, pt, h) qs).
  { right. rewrite Eo. unfold asked. rewrite omap_app. apply in_or_app. right. cbn.
    apply list_elem_of_In, list_elem_of_omap. eexists. split; [by apply list_elem_of_In|done]. }
  destruct (V u pt h sl Hq Hc Hsl Hkk) as (<- & -> & Sh). exists pt, h, cc, ex, e'. by rewrite Hsame in Hdate.
Qed.

(** C5. Eviction: afterwards the stored bodies fit the configured size and none
    is older than thirty days; what is kept is what was used most recently (a
    row used later than a kept one is kept too), it is unchanged, and a row goes
    only for its age or because it and the rows used after it exceed the size.
    The file of a removed row is removed, or is as it was when it cannot be
    removed. *)
Theorem evict_to_cap_spec (cfg : option ns_config) (ok : stmt -> bool) (unlink_ok : bytes * bytes -> bool) (now : Z)
    (s : cache) (t : gmap bytes row) :
  ok S_AGED = true -> ok S_CAP = true -> ok S_DELETE = true ->
  g_cache_db s = Some t -> sizes_ok t ->
  let s' := evict_to_cap cfg ok unlink_ok now s in
  sum_sizes (map_to_list (table s')) <= cache_cap_bytes cfg /\
  (forall k r, table s' !! k = Some r <->
     t !! k = Some r /\ now - NS_CACHE_MAX_AGE_SECONDS <= r_last_used r /\
     running (young now t) (k, r) <= cache_cap_bytes cfg) /\
  (forall k r k' r', table s' !! k = Some r -> t !! k' = Some r' -> older (k, r) (k', r') = true ->
     table s' !! k' = Some r') /\
  (forall k r, t !! k = Some r -> table s' !! k = None -> bodies s' !! body_path_for_key k = unlinked unlink_ok s k) /\
  (forall k, is_Some (table s' !! k) -> bodies s' !! body_path_for_key k = bodies s !! body_path_for_key k).
Proof. apply evict_facts. Qed.

(** A digest to run the model with: the bytes in hexadecimal. *)
Definition hex_digest (s : bytes) : bytes :=
  flat_map (fun c => [digit_char (code c / 16); digit_char (code c mod 16)]) s.

Lemma hex_digest_inj a b : hex_digest a = hex_digest b -> a = b.
Proof.
  assert (V : forall c, code c = Ref.xdigit_value (digit_char (code c / 16)) * 16 +
    Ref.xdigit_value (digit_char (code c mod 16))).
  { intros c. apply Z.eqb_eq. by_bytes c. }
  revert b. induction a as [|c a IH]; intros [|d b]; cbn; try done. intros [= H1 H2 H3].
  rewrite (IH b H3). f_equal. apply code_inj. by rewrite (V c), (V d), H1, H2.
Qed.

Lemma hex_digest_ok texts : digest_ok hex_digest texts.
Proof.
  split; [intros a b _ _; apply hex_digest_inj|].
  induction a as [|c a IH]; [done|]. cbn [hex_digest flat_map app allb].
  assert (X : is_xdigit (digit_char (code c / 16)) && is_xdigit (digit_char (code c mod 16)) = true)
    by (clear; by_bytes c).
  apply andb_prop in X as [-> ->]. exact IH.
Qed.

#[local] Instance no_dates : GDateTime := {
  g_date_time_new_from_iso8601 _ := None; g_date_time_new_utc _ _ _ _ _ _ := None }.

Definition all_ok : call_env := {|
  v_ok _ := true; v_unlink _ := true; v_write := true; v_read := true; v_now := 1000; v_scan l := l |}.

Definition sample : response := {|
  c_url := $"https://a.example/x"; c_partition := Some ($"https://b.example"); c_final_url := None;
  c_status := 200; c_content_type := Some ($"text/plain"); c_cors := None; c_etag := None;
  c_last_modified := None; c_cache_control := Some ($"max-age=60"); c_expires := None;
  c_vary := Some ($"Origin"); c_request_headers := [$"Origin: https://b.example"];
  c_body := $"hello" |}.

Definition at_time (n : Z) : call_env := {|
  v_ok _ := true; v_unlink _ := true; v_write := true; v_read := true; v_now := n; v_scan l := l |}.
Definition revalidated : op :=
  O_PROMOTE ($"https://a.example/x") (Some ($"https://b.example")) [$"Origin: https://b.example"] (Some ($"max-age=120")) None.
Definition sample_entry : ns_cache_entry := {|
  e_final_url := $"https://a.example/x"; e_status := 200; e_content_type := Some ($"text/plain");
  e_cors := None; e_etag := None; e_last_modified := None; e_expires_at := 1150; e_fetched_at := 1030;
  e_body := $"hello" |}.

(** A response stored at 1000 and revalidated at 1030 is found with the later expiry. *)
Lemma cache_serves_what_was_stored_witness :
  exists before p e0 after k,
    [(O_PUT sample, all_ok); (revalidated, at_time 1030)] = before ++ (O_PUT p, e0) :: after /\
    cache_row (G := glib_ref) (D := no_dates) None hex_digest (v_now e0) p =
      Some (k, stored_row (G := glib_ref) (D := no_dates) hex_digest (v_now e0) p) /\
    shows glib_ref no_dates p (v_now e0) after sample_entry /\ same_variant glib_ref p [$"Origin: https://b.example"].
Proof.
  destruct (cache_serves_what_was_stored glib_ref no_dates glib_ref_spec None hex_digest
    [(O_PUT sample, all_ok); (revalidated, at_time 1030)] all_ok ($"https://a.example/x") (Some ($"https://b.example"))
    [$"Origin: https://b.example"] sample_entry) as (before & p & e0 & after & k & H1 & H2 & _ & _ & _ & _ & _ & _ & H3 & H4).
  - apply hex_digest_ok.
  - repeat constructor.
  - repeat constructor.
  - vm_compute. reflexivity.
  - repeat constructor; intros l x H; exact H.
  - intros l x H. exact H.
  - vm_compute. reflexivity.
  - by exists before, p, e0, after, k.
Defined.

(** What [sound_call] leaves out: a store that inserts its row and can then neither
    write its file, nor remove the old one, nor delete the row leaves the old body
    under the new response's metadata. *)
Definition broken : call_env := {|
  v_ok st := match st with S_DELETE => false | _ => true end;
  v_unlink _ := false; v_write := false; v_read := true; v_now := 2000; v_scan l := l |}.
Definition sample2 : response := {|
  c_url := c_url sample; c_partition := c_partition sample; c_final_url := None;
  c_status := 410; c_content_type := Some ($"text/html"); c_cors := None; c_etag := None;
  c_last_modified := None; c_cache_control := Some ($"max-age=60"); c_expires := None;
  c_vary := Some ($"Origin"); c_request_headers := c_request_headers sample; c_body := $"gone" |}.
Example stale_body_served :
  let s := run (G := glib_ref) None hex_digest (Build_cache false (Some ∅) ∅)
             [(O_PUT sample, all_ok); (O_PUT sample2, broken)] in
  let a := (ns_cache_get (G := glib_ref) None hex_digest (fun l => l) (fun _ => true) (fun _ => true) true 2001
             (Some (c_url sample)) (c_partition sample) (c_request_headers sample) s).1 in
  option_map (fun e => (e_status e, e_content_type e, e_body e)) a = Some (410, Some ($"text/html"), $"hello").
Proof. vm_compute. reflexivity. Qed.

Lemma evict_to_cap_spec_witness :
  let r := Build_row [] [] None 200 None None None None None 0 0 1000 300000000 in
  let s := Build_cache false (Some {[ $"ab0" := r ]}) {[ body_path_for_key ($"ab0") := $"x" ]} in
  bodies (evict_to_cap None (fun _ => true) (fun _ => true) 1000 s) !! body_path_for_key ($"ab0") = None.
Proof.
  intros r s.
  change None with (unlinked (fun _ => true) s ($"ab0")) at 2.
  apply (evict_to_cap_spec None (fun _ => true) (fun _ => true) 1000 s {[ $"ab0" := r ]}) with (r := r);
    try reflexivity.
  intros k r'. rewrite lookup_singleton_Some. intros [_ <-]. vm_compute. discriminate.
Defined.

(** ** Storing and finding again *)

Lemma young_only now t k r :
  t !! k = Some r -> r_last_used r = now -> 0 <= r_body_size r ->
  (forall k' r', t !! k' = Some r' -> k' <> k -> r_last_used r' < now) ->
  running (young now t) (k, r) = r_body_size r.
Proof.
  intros Hk Hn Hs Ho. unfold running.
  assert (E : List.filter (older (k, r)) (map_to_list (young now t)) ≡ₚ [(k, r)]).
  { apply NoDup_Permutation; [apply NoDup_ListNoDup, List.NoDup_filter, NoDup_ListNoDup, NoDup_map_to_list|
      apply NoDup_singleton|].
    intros [k' r']. rewrite list_elem_of_singleton, list_elem_of_In, filter_In, <- list_elem_of_In, elem_of_map_to_list.
    unfold young. rewrite map_lookup_filter_Some. cbn. split.
    - intros [[Hk' _] O]. destruct (decide (k' = k)) as [->|N]; [congruence|].
      specialize (Ho _ _ Hk' N). unfold older in O. cbn in O.
      destruct (Z.ltb_spec (r_last_used r) (r_last_used r')); [lia|].
      destruct (Z.eqb_spec (r_last_used r) (r_last_used r')); [lia|done].
    - intros [= -> ->]. split; [split; [done|unfold NS_CACHE_MAX_AGE_SECONDS; lia]|apply older_refl]. }
  rewrite E, sum_sizes_cons. cbn. lia.
Qed.

Lemma find_row_loop_all {G : GLib} sha rows base headers k r sel :
  rows <> [] -> (forall x, In x rows -> x = (k, r)) ->
  vary_selector (r_vary r) headers = Some sel -> k = row_key_for sha base sel ->
  find_row_loop sha rows base headers = Some k.
Proof.
  intros Hne Ha Hv Hk. destruct rows as [|x rows]; [done|]. rewrite (Ha x (or_introl eq_refl)). cbn.
  rewrite Hv. unfold strcmp0. by rewrite <- Hk, bool_decide_eq_true_2.
Qed.

(** Eviction leaves the cache in use. *)
Lemma evict_enabled cfg unl now s t :
  g_cache_db s = Some t -> ns_cache_enabled (evict_to_cap cfg (fun _ => true) unl now s) = negb (g_cache_disabled s).
Proof.
  intros Et. unfold evict_to_cap. rewrite Et.
  destruct (evict_by_select_spec (fun _ => true) unl eq_refl S_AGED
    (fun p => r_last_used p.2 <? now - NS_CACHE_MAX_AGE_SECONDS) s t eq_refl Et) as (D1 & (t1 & T1 & _) & _).
  fold (evict_aged_out (fun _ => true) unl now s) in D1, T1.
  destruct (evict_by_select_spec (fun _ => true) unl eq_refl S_CAP
    (fun p => cache_cap_bytes cfg <? running (table (evict_aged_out (fun _ => true) unl now s)) p) _ t1 eq_refl T1)
    as (D2 & (t2 & T2 & _) & _).
  unfold ns_cache_enabled. by rewrite D2, T2, D1, andb_true_r.
Qed.

Section PutGet.
Context {G : GLib} {D : GDateTime}.
Variable cfg : option ns_config.
Variable sha : bytes -> bytes.
Variable scan : list (bytes * row) -> list (bytes * row).
Hypothesis Hscan : forall l x, In x (scan l) <-> In x l.
Variables (now later : Z) (s : cache) (p : response) (k : bytes) (unl unl' : bytes * bytes -> bool).
Let r := stored_row sha now p.
Hypothesis En : ns_cache_enabled s = true.
Hypothesis Hs : sizes_ok (table s).
Hypothesis Hrow : cache_row cfg sha now p = Some (k, r).
(** No other variant of the URL, and nothing used later. *)
Hypothesis Hothers : forall k' r', table s !! k' = Some r' ->
  (k' = k <-> r_base_key r' = r_base_key r) /\ (k' <> k -> r_last_used r' < now).

Lemma put_kept :
  let s2 := ns_cache_put cfg sha (fun _ => true) unl true now p s in
  ns_cache_enabled s2 = true /\ table s2 !! k = Some r /\
  bodies s2 !! body_path_for_key k = Some (c_body p) /\
  (forall k' r', table s2 !! k' = Some r' -> k' = k \/ table s !! k' = Some r').
Proof.
  destruct (cache_row_ok cfg sha now p k r Hrow) as (_ & _ & _ & _ & _ & Lc & _).
  cbv zeta. unfold ns_cache_put. rewrite En, Hrow. cbn [negb].
  unfold ns_cache_enabled in En. apply andb_prop in En as [Edis Edb].
  destruct (g_cache_db s) as [t|] eqn:Et; [|done]. clear Edb.
  assert (Tt : table s = t) by (unfold table; by rewrite Et). rewrite Tt in *.
  assert (U : upsert k r t = <[k := r]> t).
  { unfold upsert. destruct (t !! k) as [old|] eqn:Ek; [|done]. destruct (Hothers k old Ek) as [[B _] _].
    by rewrite B. }
  rewrite U. set (s1 := set_bodies _ _).
  assert (Hs1 : sizes_ok (<[k := r]> t)).
  { intros k' r' [[<- <-]|[_ H]]%lookup_insert_Some; [cbn; lia|by eapply Hs]. }
  destruct (evict_facts cfg (fun _ => true) unl now s1 (<[k := r]> t) eq_refl eq_refl eq_refl eq_refl Hs1)
    as (_ & K & _ & _ & B).
  assert (Hk : table (evict_to_cap cfg (fun _ => true) unl now s1) !! k = Some r).
  { apply K. split; [apply lookup_insert_eq|]. rewrite young_only.
    - cbn. unfold NS_CACHE_MAX_AGE_SECONDS. lia.
    - apply lookup_insert_eq.
    - done.
    - cbn. lia.
    - intros k' r' [[<- <-]|[_ H]]%lookup_insert_Some N; [done|]. by apply (Hothers k' r'). }
  split; [rewrite (evict_enabled cfg unl now s1 (<[k := r]> t)); [exact Edis|done]|]. split; [done|]. split.
  - rewrite (B k) by (rewrite Hk; done). apply lookup_insert_eq.
  - intros k' r' H. apply K in H as (H & _). apply lookup_insert_Some in H as [[<- _]|[_ H]]; auto.
Qed.

Lemma put_found :
  find_row_key sha scan (fun _ => true) (base_key_for_url sha (c_url p) (c_partition p))
    (c_request_headers p) (ns_cache_put cfg sha (fun _ => true) unl true now p s) = Some k.
Proof.
  destruct put_kept as (_ & Hk & _ & K). set (s2 := ns_cache_put _ _ _ _ _ _ _ _) in *.
  destruct (cache_row_ok cfg sha now p k r Hrow) as (_ & _ & _ & _ & _ & _ & _ & sel & V & Ek).
  unfold find_row_key. set (l := List.filter _ _).
  assert (L : forall x, In x (scan l) <-> x = (k, r)).
  { intros [k' r']. rewrite Hscan. unfold l. rewrite filter_In, <- list_elem_of_In, elem_of_map_to_list. cbn.
    unfold strcmp0. rewrite bool_decide_eq_true. split; [|by intros [= -> ->]].
    intros [H1 H2]. destruct (K _ _ H1) as [->|H3]; [congruence|].
    destruct (Hothers k' r' H3) as [[_ C] _]. assert (k' = k) as -> by by apply C. congruence. }
  eapply find_row_loop_all; [|by intros; apply L|exact V|exact Ek].
  intros N. specialize (L (k, r)). rewrite N in L. by apply L.
Qed.
End PutGet.

(** A stored response is found again: a cacheable response put into a working
    cache, whose URL has no other variant there and whose rows are all older, is
    returned for the same request with its body, status and validators; it is
    fresh exactly until the time its headers gave. *)
Theorem cache_put_get (G : GLib) (D : GDateTime) (cfg : option ns_config) (sha : bytes -> bytes)
    (scan : list (bytes * row) -> list (bytes * row)) (unl unl' : bytes * bytes -> bool)
    (now later : Z) (s : cache) (p : response) (k : bytes) (r : row) :
  ns_cache_enabled s = true -> sizes_ok (table s) ->
  cache_row cfg sha now p = Some (k, r) ->
  (forall k' r', table s !! k' = Some r' -> (k' = k <-> r_base_key r' = r_base_key r) /\
     (k' <> k -> r_last_used r' < now)) ->
  (forall l x, In x (scan l) <-> In x l) ->
  let s' := ns_cache_put cfg sha (fun _ => true) unl true now p s in
  exists e s'', ns_cache_get cfg sha scan (fun _ => true) unl' true later (Some (c_url p)) (c_partition p)
      (c_request_headers p) s' = (Some e, s'') /\
    e_body e = c_body p /\ e_status e = c_status p /\ e_content_type e = c_content_type p /\
    e_cors e = c_cors p /\ e_etag e = c_etag p /\ e_last_modified e = c_last_modified p /\
    e_final_url e = default (c_url p) (c_final_url p) /\ e_fetched_at e = now /\
    ns_cache_is_fresh later (Some e) =
      (later <? freshness_from_headers now (c_cache_control p) (c_expires p)).
Proof.
  intros En Hs Hrow Ho Hscan s'.
  destruct (cache_row_ok cfg sha now p k r Hrow) as (-> & _ & St & _ & _ & Lc & Li & _).
  destruct (put_kept cfg sha now s p k unl En Hs Hrow Ho) as (E2 & Hk & Hb & _).
  pose proof (put_found cfg sha scan Hscan now s p k unl En Hs Hrow Ho) as Hf.
  fold s' in E2, Hk, Hb, Hf. unfold ns_cache_get. rewrite E2, Hf, Hk, Hb. cbn [negb stored_row r_status r_body_size].
  rewrite St. cbn [negb].
  destruct (Z.ltb_spec (Z.of_nat (length (c_body p))) 0); [lia|].
  destruct (Z.ltb_spec (cache_cap_bytes cfg) (Z.of_nat (length (c_body p)))); [lia|].
  destruct (Z.ltb_spec 4294967295 (Z.of_nat (length (c_body p)))); [lia|]. cbn [orb].
  eexists _, _. by split; [reflexivity|].
Qed.

Lemma cache_put_get_witness :
  exists e s'', ns_cache_get (G := glib_ref) None hex_digest (fun l => l) (fun _ => true) (fun _ => true) true 1059
      (Some (c_url sample)) (c_partition sample) (c_request_headers sample)
      (ns_cache_put (G := glib_ref) None hex_digest (fun _ => true) (fun _ => true) true 1000 sample
         (Build_cache false (Some ∅) ∅)) = (Some e, s'') /\
    e_body e = $"hello" /\ e_status e = 200 /\ e_content_type e = Some ($"text/plain") /\
    e_cors e = None /\ e_etag e = None /\ e_last_modified e = None /\
    e_final_url e = $"https://a.example/x" /\ e_fetched_at e = 1000 /\
    ns_cache_is_fresh 1059 (Some e) = true.
Proof.
  apply (cache_put_get glib_ref no_dates None hex_digest (fun l => l) (fun _ => true) (fun _ => true) 1000 1059 (Build_cache false (Some ∅) ∅)
    sample (row_key_for hex_digest (base_key_for_url hex_digest (c_url sample) (c_partition sample))
      ($"origin:https://b.example" ++ [nl])) (stored_row hex_digest 1000 sample)).
  - reflexivity.
  - intros k r H. unfold table in H. cbn in H. by rewrite lookup_empty in H.
  - vm_compute. reflexivity.
  - intros k r H. unfold table in H. cbn in H. by rewrite lookup_empty in H.
  - done.
Defined.

(** ** HTTP dates *)

Lemma scan_d_print w z k :
  0 <= z < 2 ^ 31 -> stops is_digit k -> scan_d (print_0d w z ++ k) = Some (z, k).
Proof.
  intros Hz Hk. unfold print_0d. destruct (Z.ltb_spec z 0); [lia|].
  destruct (digits_spec z ltac:(lia)) as (Hd & Hv & Hn). pose proof (pad0_digits w _ Hd) as Hp.
  pose proof (dec_val_pad0 w (digits 10 z)) as Hpv. rewrite Hv in Hpv.
  destruct (pad0 w (digits 10 z)) as [|c ds] eqn:E.
  { unfold pad0 in E. apply app_eq_nil in E as [_ E]. done. }
  assert (Hc : is_digit c = true) by (cbn in Hp; by apply andb_prop in Hp as [? _]).
  destruct (digit_not_space c Hc) as (S1 & S2 & S3).
  assert (M : memb c ($"+-") = false).
  { change ($"+-") with ["+"%char; "-"%char]. unfold memb. cbn [existsb]. by rewrite S2, S3. }
  unfold scan_d. cbn [app drop_while]. rewrite S1. unfold one_of. rewrite M. change (c :: ds ++ k) with ((c :: ds) ++ k).
  rewrite take_while_app_stop, drop_while_app_stop by done. rewrite Hpv.
  unfold clamp_s, wrap_s. change (64 - 1) with 63. change (32 - 1) with 31. change (2 ^ 63) with 9223372036854775808.
  change (2 ^ 31) with 2147483648 in *. change (2 ^ 32) with 4294967296.
  rewrite Z.min_r, Z.max_r by lia. rewrite Z.mod_small by lia. f_equal. f_equal. lia.
Qed.

(** The usual form of a date in HTTP. *)
Definition imf_fixdate (weekday : bytes) (y mo d h mi s : Z) : bytes :=
  weekday ++ $", " ++ print_0d 2 d ++ $" " ++ nth (Z.to_nat (mo - 1)) months [] ++ $" " ++ print_0d 4 y ++
  $" " ++ print_0d 2 h ++ $":" ++ print_0d 2 mi ++ $":" ++ print_0d 2 s ++ $" GMT".

Lemma scan_d_space s : scan_d ($" " ++ s) = scan_d s.
Proof. reflexivity. Qed.

Lemma month_scan mo s :
  1 <= mo <= 12 ->
  scan_s 3 ($" " ++ nth (Z.to_nat (mo - 1)) months [] ++ s) = Some (nth (Z.to_nat (mo - 1)) months [], s) /\
  month_from_name (G := glib_ref) (nth (Z.to_nat (mo - 1)) months []) = mo.
Proof.
  intros Hm. assert (mo = 1 \/ mo = 2 \/ mo = 3 \/ mo = 4 \/ mo = 5 \/ mo = 6 \/ mo = 7 \/ mo = 8 \/ mo = 9 \/
    mo = 10 \/ mo = 11 \/ mo = 12) as C by lia.
  by repeat (destruct C as [-> | C]; [split; reflexivity|]); subst.
Qed.

Lemma alpha_not c : is_alpha c = true -> is_digit c = false /\ (c =c ",") = false /\ (c =c " ") = false.
Proof.
  intros H. assert (X : negb (is_alpha c) || (negb (is_digit c) && negb (c =c ",") && negb (c =c " ")) = true)
    by (clear; by_bytes c).
  rewrite H in X. cbn [negb orb] in X. apply andb_prop in X as [[X1 X2]%andb_prop X3].
  by apply negb_true_iff in X1, X2, X3.
Qed.

Lemma scan_hms_print h mi s k :
  0 <= h < 24 -> 0 <= mi < 60 -> 0 <= s < 60 -> stops is_digit k ->
  scan_hms ($" " ++ print_0d 2 h ++ $":" ++ print_0d 2 mi ++ $":" ++ print_0d 2 s ++ k) = Some (h, mi, s, k).
Proof.
  intros Hh Hmi Hs Hk. unfold scan_hms. rewrite scan_d_space.
  rewrite scan_d_print by first [lia | done]. cbn [mbind option_bind].
  change (scan_lit ":" ($":" ++ ?x)) with (Some x). cbn [mbind option_bind].
  rewrite scan_d_print by first [lia | done]. cbn [mbind option_bind].
  change (scan_lit ":" ($":" ++ ?x)) with (Some x). cbn [mbind option_bind].
  rewrite scan_d_print by first [lia | done]. done.
Qed.

(** A date in the form HTTP prescribes, from 1970 to 9999, is understood as
    the second it names. *)
Theorem http_date_read (G : GLib) (GS : GLibSpec G) (D : GDateTime) (DS : GDateTimeSpec D)
    (weekday : bytes) (y mo d h mi s : Z) :
  weekday <> [] -> allb is_alpha weekday = true ->
  valid_date y mo d -> 1970 <= y <= 9999 -> 0 <= h < 24 -> 0 <= mi < 60 -> 0 <= s < 60 ->
  parse_http_date (imf_fixdate weekday y mo d h mi s) =
  ns_dt_days_from_civil y mo d * 86400 + h * 3600 + mi * 60 + s.
Proof.
  intros Hw Ha V Hy Hh Hmi Hs. pose proof (valid_date_day y mo d V) as Hd31.
  assert (Hm : 1 <= mo <= 12) by apply V. pose proof (month_scan mo) as MS.
  unfold parse_http_date, imf_fixdate. destruct weekday as [|c w]; [done|].
  assert (Hc : is_alpha c = true) by (cbn in Ha; by apply andb_prop in Ha as [? _]).
  destruct (alpha_not c Hc) as (Dc & _ & _). cbn [app].
  rewrite iso8601_digit by (cbn; exact Dc).
  change (c :: w ++ $", " ++ ?x) with ((c :: w) ++ ","%char :: $" " ++ x).
  destruct (strchr_app (c :: w) "," ($" " ++ print_0d 2 d ++ $" " ++ nth (Z.to_nat (mo - 1)) months [] ++ $" " ++
    print_0d 4 y ++ $" " ++ print_0d 2 h ++ $":" ++ print_0d 2 mi ++ $":" ++ print_0d 2 s ++ $" GMT")) as [E _].
  { eapply allb_impl; [|exact Ha]. intros x Hx. by destruct (alpha_not x Hx) as (_ & -> & _). }
  rewrite E. clear E. change (drop 1 (","%char :: ?x)) with x.
  assert (Sp : forall x, drop_while (fun c => c =c " ") ($" " ++ print_0d 2 d ++ x) = print_0d 2 d ++ x).
  { intros x. change ($" " ++ ?l) with (" "%char :: l). cbn [drop_while Ascii.eqb Bool.eqb].
    unfold print_0d. destruct (Z.ltb_spec d 0); [lia|].
    destruct (digits_spec d ltac:(lia)) as (Hdg & _ & Hn). pose proof (pad0_digits 2 _ Hdg) as Hp.
    destruct (pad0 2 (digits 10 d)) as [|e l] eqn:E; [by unfold pad0 in E; apply app_eq_nil in E as [_ E]|].
    cbn in Hp. apply andb_prop in Hp as [He _]. destruct (digit_not_space e He) as (S & _ & _).
    cbn [app drop_while]. destruct (Ascii.eqb_spec e " ") as [->|]; [done|done]. }
  rewrite Sp. clear Sp. unfold scan_imf at 1.
  rewrite scan_d_print by first [lia | done]. cbn [mbind option_bind].
  destruct (MS ($" " ++ print_0d 4 y ++ $" " ++ print_0d 2 h ++ $":" ++ print_0d 2 mi ++ $":" ++ print_0d 2 s ++ $" GMT") Hm)
    as [-> Mo]. cbn [mbind option_bind]. rewrite scan_d_space.
  rewrite scan_d_print by first [lia | done]. cbn [mbind option_bind].
  rewrite scan_hms_print by first [lia | done]. cbn [mbind option_bind].
  rewrite (glib_determined G GS), Mo. destruct (Z.eqb_spec mo 0); [lia|].
  match goal with |- context [if ?b then _ else _] => assert (b = false) as ->
    by (repeat (apply orb_false_iff; split); apply Z.ltb_ge; lia) end.
  rewrite new_utc_ok by (done || lia). done.
Qed.

#[local] Instance dates_ref : GDateTime := {
  g_date_time_new_from_iso8601 _ := None;
  g_date_time_new_utc y mo d h mi s :=
    Some (ns_dt_days_from_civil y mo d * 86400 + h * 3600 + mi * 60 + s) }.
#[local] Instance dates_ref_spec : GDateTimeSpec dates_ref.
Proof. by split. Qed.

Lemma http_date_read_witness :
  parse_http_date (G := glib_ref) (imf_fixdate ($"Sun") 1994 11 6 8 49 37) = 784111777.
Proof.
  apply (http_date_read glib_ref glib_ref_spec dates_ref dates_ref_spec ($"Sun") 1994 11 6 8 49 37);
    first [done | split; split; vm_compute; discriminate | split; vm_compute; (discriminate || reflexivity)].
Defined.

(** Directives are looked for by exact bytes, and HTTP's are case-insensitive: a
    response marked [No-Store] is stored. *)
Example no_store_case :
  cache_row (G := glib_ref) None hex_digest 1000
    (Build_response ($"https://a.example/x") None None 200 None None None None
       (Some ($"No-Store, Max-Age=60")) None None [] ($"secret")) <> None.
Proof. vm_compute. discriminate. Qed.
