(* ===== verification/WebSocket.v ===== *)
(** * WebSockets ([src/ws.c])

    The reassembly of messages, the two threads of a socket (the page's, which
    sends, closes, frees and runs callbacks, and the worker, which talks to
    libcurl) with their shared state, and what each step of either does. libcurl's
    answers are arguments of the worker's steps. *)

From S2P Require Import Prelude CStr GLib.

Local Open Scope Z_scope.

Definition NS_WS_MAX_MESSAGE : Z := 8 * 1024 * 1024.
Definition NS_WS_MAX_PENDING : nat := 256.


Inductive ns_ws_state := NS_WS_STATE_CONNECTING | NS_WS_STATE_OPEN | NS_WS_STATE_CLOSING | NS_WS_STATE_CLOSED.
#[export] Instance ns_ws_state_eq_dec : EqDecision ns_ws_state.
Proof. solve_decision. Defined.

Inductive ns_ws_out_kind := NS_WS_OUT_TEXT | NS_WS_OUT_BINARY | NS_WS_OUT_CLOSE.

(** [data] is [NULL] when it is empty. *)
Record ns_ws_out_msg := { o_kind : ns_ws_out_kind; o_data : bytes; o_close_code : Z }.

(** The callbacks [ns_ws_post] defers to the main loop. *)
Inductive notice :=
| NOTE_OPEN
| NOTE_MESSAGE (is_text : bool) (data : bytes)
| NOTE_CLOSE (close_code : Z) (reason : bytes) (clean : bool)
| NOTE_ERROR (msg : bytes).

(** What reaches libcurl: a queued message with the bytes it took and whether it
    took them all, a close frame with the queued close it answers, a pong. *)
Inductive wire :=
| WIRE_MESSAGE (m : ns_ws_out_msg) (taken : bytes) (all : bool)
| WIRE_CLOSE (m : option ns_ws_out_msg) (payload : bytes)
| WIRE_PONG (payload : bytes).

(** The accesses to shared state a step of the worker still has to make:
    [g_atomic_int_set(&ws->state)], the test of [ns_ws_post], its insertion, and a
    call of [curl_ws_send]. *)
Inductive act :=
| A_STATE (s : ns_ws_state)
| A_POST (n : notice) (droppable : bool)
| A_ADD (n : notice)
| A_WIRE (w : wire).

(** ** Receiving *)

(** [struct curl_ws_frame]: the flags the code tests, and where the piece of data
    lies in its frame. *)
Record frame := {
  f_text : bool; f_binary : bool; f_cont : bool; f_close : bool; f_ping : bool;
  f_offset : Z; f_bytesleft : Z;
}.

(** [recv_assembly], [recv_assembly_kind] and [recv_in_message]. *)
Record assembly := { asm : bytes; asm_text : bool; in_message : bool }.

Inductive outcome :=
| FRAME_OK
| PEER_CLOSED (peer_code : Z) (peer_reason : option bytes)
| BAD_UTF8
| TOO_BIG.

Definition peer_close (data : bytes) : outcome :=
  match data with
  | b0 :: b1 :: rest =>
      if zlen data <=? 125
      then PEER_CLOSED (Z.lor (Z.shiftl (code b0) 8) (code b1))
             (match rest with [] => None | _ => Some (cstr_of rest) end)
      else PEER_CLOSED 1005 None
  | [_] => PEER_CLOSED 1002 None
  | [] => PEER_CLOSED 1005 None
  end.

Definition ns_ws_dispatch_message (is_text : bool) (data : bytes) : list act :=
  [A_POST (NOTE_MESSAGE is_text data) true].
Definition ns_ws_dispatch_open : list act := [A_STATE NS_WS_STATE_OPEN; A_POST NOTE_OPEN false].
Definition ns_ws_dispatch_close (close_code : Z) (reason : bytes) (clean : bool) : list act :=
  [A_STATE NS_WS_STATE_CLOSED; A_POST (NOTE_CLOSE close_code (cstr_of reason) clean) false].
Definition ns_ws_dispatch_error (msg : bytes) : list act := [A_POST (NOTE_ERROR msg) false].

Definition ns_ws_handle_frame `{GLib} (r : assembly) (data : bytes) (fr : frame)
    : assembly * list act * outcome :=
  if f_close fr then (r, [], peer_close data)
  else if f_ping fr then (r, [A_WIRE (WIRE_PONG (take 125 data))], FRAME_OK)
  else if negb (f_text fr || f_binary fr || f_cont fr) then (r, [], FRAME_OK)
  else
    let starts := (f_offset fr =? 0) && negb (in_message r) && (f_text fr || f_binary fr) in
    if negb starts && negb (in_message r) then (r, [], FRAME_OK)
    else
      let buf := if starts then [] else asm r in
      let text := if starts then negb (f_binary fr) else asm_text r in
      if (0 <? zlen data) && (NS_WS_MAX_MESSAGE <? zlen buf + zlen data)
      then (Build_assembly [] text false, [], TOO_BIG)
      else
        let buf := buf ++ data in
        if (f_bytesleft fr =? 0) && negb (f_cont fr)
        then
          if text && negb (buf =b []) && negb (g_utf8_validate buf)
          then (Build_assembly [] text false, [], BAD_UTF8)
          else (Build_assembly [] text false, ns_ws_dispatch_message text buf, FRAME_OK)
        else (Build_assembly buf text true, [], FRAME_OK).

(** ** Sending *)

Inductive send_answer := SEND_AGAIN | SEND_ERR | SEND_OK (sent : nat).
Inductive send_next := SEND_RETURN (all : bool) | SEND_MORE (off : nat) (stalls : Z).

(** One turn of the loop of [ns_ws_send_curl]. *)
Definition send_turn (exit : bool) (len off : nat) (stalls : Z) (a : send_answer) : send_next :=
  if exit then SEND_RETURN false
  else match a with
       | SEND_AGAIN => if 5000 <? stalls + 1 then SEND_RETURN false else SEND_MORE off (stalls + 1)
       | SEND_ERR => SEND_RETURN false
       | SEND_OK sent =>
           let off := (off + sent)%nat in
           if (len <=? off)%nat then SEND_RETURN true
           else if (sent =? 0)%nat
           then if 5000 <? stalls + 1 then SEND_RETURN false else SEND_MORE off (stalls + 1)
           else SEND_MORE off 0
       end.

Definition ns_ws_echo_close_code (c : Z) : Z :=
  if (c =? 1000) || (c =? 1001) || (c =? 1002) || (c =? 1003) ||
     ((1007 <=? c) && (c <=? 1014)) || ((3000 <=? c) && (c <=? 4999))
  then c else 0.

(** The payload of [ns_ws_send_close_frame]. *)
Definition close_payload (c : Z) (reason : option bytes) : bytes :=
  if 0 <? c
  then [byte_of (Z.shiftr c 8); byte_of c] ++ take 123 (default [] reason)
  else [].

Definition ns_ws_send_close_frame (m : option ns_ws_out_msg) (c : Z) (reason : option bytes) : act :=
  A_WIRE (WIRE_CLOSE m (close_payload c reason)).

(** The request headers of the handshake. *)
Fixpoint protocol_list (l : list bytes) : bytes :=
  match l with [] => [] | [p] => p | p :: l' => p ++ $", " ++ protocol_list l' end.
Definition handshake_headers (origin : option bytes) (protocols : list bytes) : list bytes :=
  match origin with Some ((_ :: _) as o) => [$"Origin: " ++ o] | _ => [] end ++
  match protocols with [] => [] | l => [$"Sec-WebSocket-Protocol: " ++ protocol_list l] end.

Definition ns_ws_curl_native (protocols : option (list bytes)) : bool :=
  match protocols with
  | None => false
  | Some l => existsb (fun p => strcasecmp0 p ($"ws") || strcasecmp0 p ($"wss")) l
  end.

(** ** The shared state *)

Record ns_ws := {
  refcount : nat;
  state : ns_ws_state;
  exit_requested : bool;
  detached : bool;
  pending : nat;
  out_queue : list ns_ws_out_msg;
}.

Definition set_refcount (n : nat) (g : ns_ws) : ns_ws :=
  Build_ns_ws n (state g) (exit_requested g) (detached g) (pending g) (out_queue g).
Definition set_state (s : ns_ws_state) (g : ns_ws) : ns_ws :=
  Build_ns_ws (refcount g) s (exit_requested g) (detached g) (pending g) (out_queue g).
Definition set_exit (g : ns_ws) : ns_ws :=
  Build_ns_ws (refcount g) (state g) true (detached g) (pending g) (out_queue g).
Definition set_detached (g : ns_ws) : ns_ws :=
  Build_ns_ws (refcount g) (state g) (exit_requested g) true (pending g) (out_queue g).
Definition set_pending (n : nat) (g : ns_ws) : ns_ws :=
  Build_ns_ws (refcount g) (state g) (exit_requested g) (detached g) n (out_queue g).
Definition set_queue (q : list ns_ws_out_msg) (g : ns_ws) : ns_ws :=
  Build_ns_ws (refcount g) (state g) (exit_requested g) (detached g) (pending g) q.

Definition ns_ws_ref (g : ns_ws) : ns_ws := set_refcount (S (refcount g)) g.
Definition ns_ws_unref (g : ns_ws) : ns_ws := set_refcount (Nat.pred (refcount g)) g.

(** Where the worker is: at the start, in the handshake, at a turn of its loop, in
    [ns_ws_drain_outgoing] (between messages, or in a message's [ns_ws_send_curl]),
    at [curl_ws_recv], in [ns_ws_worker_wait], after the loop with what
    [ns_ws_dispatch_close] is given, before its last [ns_ws_unref], or returned. *)
Inductive worker_pc :=
| W_INIT
| W_PERFORM
| W_LOOP
| W_DRAIN
| W_SEND (m : ns_ws_out_msg) (off : nat) (stalls : Z)
| W_RECV
| W_WAIT
| W_END (close_code : Z) (close_reason : option bytes) (clean_close : bool)
| W_UNREF
| W_DONE.

Record worker := { w_pc : worker_pc; w_todo : list act; w_recv : assembly }.

(** Where the page's thread is: outside this file, between the tests of
    [ns_ws_enqueue] and its insertion, inside [ns_ws_close], inside [ns_ws_free], or
    past it. *)
Inductive page_pc :=
| P_IDLE
| P_PUSH (m : ns_ws_out_msg) (closing : bool)
| P_CLOSE (close_code : Z) (reason : bytes)
| P_CLOSING
| P_FREE
| P_JOIN
| P_GONE.

(** Everything, with the main loop's sources of this socket: idle sources in
    order, the timers of those put off, whether one is running, and three logs:
    what was queued for sending, what was posted, what the callbacks were given;
    [sent] is what reached libcurl. *)
Record config := {
  g : ns_ws;
  wk : worker;
  page : page_pc;
  idle : list notice;
  timers : list notice;
  running : bool;
  accepted : list ns_ws_out_msg;
  posted : list notice;
  delivered : list notice;
  sent : list wire;
}.

Definition set_g (x : ns_ws) (c : config) : config :=
  Build_config x (wk c) (page c) (idle c) (timers c) (running c) (accepted c) (posted c) (delivered c) (sent c).
Definition set_wk (x : worker) (c : config) : config :=
  Build_config (g c) x (page c) (idle c) (timers c) (running c) (accepted c) (posted c) (delivered c) (sent c).
Definition set_page (x : page_pc) (c : config) : config :=
  Build_config (g c) (wk c) x (idle c) (timers c) (running c) (accepted c) (posted c) (delivered c) (sent c).
Definition set_sources (i t : list notice) (r : bool) (c : config) : config :=
  Build_config (g c) (wk c) (page c) i t r (accepted c) (posted c) (delivered c) (sent c).
Definition log_accepted (m : ns_ws_out_msg) (c : config) : config :=
  Build_config (g c) (wk c) (page c) (idle c) (timers c) (running c) (accepted c ++ [m]) (posted c) (delivered c) (sent c).
Definition log_posted (n : notice) (c : config) : config :=
  Build_config (g c) (wk c) (page c) (idle c) (timers c) (running c) (accepted c) (posted c ++ [n]) (delivered c) (sent c).
Definition log_delivered (n : notice) (c : config) : config :=
  Build_config (g c) (wk c) (page c) (idle c) (timers c) (running c) (accepted c) (posted c) (delivered c ++ [n]) (sent c).
Definition log_sent (w : wire) (c : config) : config :=
  Build_config (g c) (wk c) (page c) (idle c) (timers c) (running c) (accepted c) (posted c) (delivered c) (sent c ++ [w]).

(** [ns_ws_new]: the owner's reference and the worker's. *)
Definition ns_ws_new : config :=
  {| g := {| refcount := 2; state := NS_WS_STATE_CONNECTING; exit_requested := false;
             detached := false; pending := 0; out_queue := [] |};
     wk := {| w_pc := W_INIT; w_todo := [];
              w_recv := {| asm := []; asm_text := false; in_message := false |} |};
     page := P_IDLE; idle := []; timers := []; running := false;
     accepted := []; posted := []; delivered := []; sent := [] |}.

(** ** The worker: [ns_ws_worker_curl] *)

Inductive recv_answer :=
| RECV_AGAIN
| RECV_ERR (msg : bytes)
| RECV_OK (data : bytes) (meta : option frame).

(** libcurl's answers: whether a handle is made, the error of the handshake if
    there is one and its HTTP status, and what a send or a receive returns. *)
Record answer := {
  a_init : bool;
  a_perform : option bytes;
  a_status : Z;
  a_send : send_answer;
  a_recv : recv_answer;
}.

(** [ns_ws_post]: dropped for a detached socket or, if droppable, past the bound. *)
Definition post_refused (x : ns_ws) (droppable : bool) : bool :=
  detached x || (droppable && (NS_WS_MAX_PENDING <=? pending x)%nat).

Definition set_pc (pc : worker_pc) (todo : list act) (c : config) : config :=
  set_wk {| w_pc := pc; w_todo := todo; w_recv := w_recv (wk c) |} c.

Definition do_act (a : act) (todo : list act) (c : config) : config :=
  let pc := w_pc (wk c) in
  match a with
  | A_STATE s => set_pc pc todo (set_g (set_state s (g c)) c)
  | A_POST n droppable =>
      if post_refused (g c) droppable then set_pc pc todo c else set_pc pc (A_ADD n :: todo) c
  | A_ADD n =>
      set_pc pc todo
        (log_posted n (set_sources (idle c ++ [n]) (timers c) (running c)
          (set_g (ns_ws_ref (set_pending (S (pending (g c))) (g c))) c)))
  | A_WIRE w => set_pc pc todo (log_sent w c)
  end.

Section Steps.
Context {G : GLib}.

(** After [ns_ws_handle_frame]: the three ways out of the loop. *)
Definition after_frame (r : assembly * list act * outcome) (c : config) : config :=
  let '(recv, acts, o) := r in
  let stop first wire_code wire_reason close_code reason clean :=
    set_wk {| w_pc := W_END close_code reason clean;
              w_todo := acts ++ first ++ [ns_ws_send_close_frame None wire_code wire_reason];
              w_recv := recv |} c in
  match o with
  | FRAME_OK => set_wk {| w_pc := W_LOOP; w_todo := acts; w_recv := recv |} c
  | TOO_BIG => stop [A_STATE NS_WS_STATE_CLOSING] 1009 (Some ($"message too big"))
                 1009 (Some ($"message too big")) false
  | BAD_UTF8 => stop [A_STATE NS_WS_STATE_CLOSING] 1007 (Some ($"invalid utf-8"))
                  1007 (Some ($"invalid utf-8")) false
  | PEER_CLOSED code reason => stop [A_STATE NS_WS_STATE_CLOSING] (ns_ws_echo_close_code code) None
                                 code reason true
  end.

(** [ns_ws_drain_outgoing] takes the next message; a close ends the loop. *)
Definition ns_ws_drain_outgoing (c : config) : config :=
  match out_queue (g c) with
  | [] => set_pc W_RECV [] c
  | m :: q =>
      let c := set_g (set_queue q (g c)) c in
      match o_kind m with
      | NS_WS_OUT_CLOSE =>
          let reason := match o_data m with [] => None | d => Some (cstr_of d) end in
          set_pc (W_END (o_close_code m) reason true)
            [A_STATE NS_WS_STATE_CLOSING; ns_ws_send_close_frame (Some m) (o_close_code m) reason] c
      | _ => set_pc (W_SEND m 0 0) [] c
      end
  end.

(** A turn of [ns_ws_send_curl] for the message being sent. *)
Definition ns_ws_send_curl (m : ns_ws_out_msg) (off : nat) (stalls : Z) (a : send_answer) (c : config) : config :=
  let off' := match a with SEND_OK n => if exit_requested (g c) then off else (off + n)%nat | _ => off end in
  match send_turn (exit_requested (g c)) (length (o_data m)) off stalls a with
  | SEND_RETURN all => set_pc W_DRAIN [] (log_sent (WIRE_MESSAGE m (take off' (o_data m)) all) c)
  | SEND_MORE off stalls => set_pc (W_SEND m off stalls) [] c
  end.

Definition ns_ws_worker_curl (a : answer) (c : config) : config :=
  let x := g c in
  match w_todo (wk c) with
  | act :: todo => do_act act todo c
  | [] =>
      match w_pc (wk c) with
      | W_INIT =>
          if a_init a then set_pc W_PERFORM [] c
          else set_pc W_UNREF (ns_ws_dispatch_error ($"curl init failed") ++
                               ns_ws_dispatch_close 1006 ($"init failed") false) c
      | W_PERFORM =>
          match a_perform a with
          | Some msg => set_pc W_UNREF (ns_ws_dispatch_error msg ++ ns_ws_dispatch_close 1006 msg false) c
          | None =>
              if exit_requested x then set_pc W_UNREF (ns_ws_dispatch_close 1006 ($"aborted") false) c
              else if negb (a_status a =? 0) && negb (a_status a =? 101)
              then let msg := $"WebSocket handshake failed (HTTP " ++ print_d (a_status a) ++ $")" in
                   set_pc W_UNREF (ns_ws_dispatch_error msg ++ ns_ws_dispatch_close 1006 msg false) c
              else set_pc W_LOOP ns_ws_dispatch_open c
          end
      | W_LOOP => set_pc (if exit_requested x then W_END 1006 None false else W_DRAIN) [] c
      | W_DRAIN => ns_ws_drain_outgoing c
      | W_SEND m off stalls => ns_ws_send_curl m off stalls (a_send a) c
      | W_RECV =>
          match a_recv a with
          | RECV_AGAIN => set_pc W_WAIT [] c
          | RECV_ERR msg => set_pc (W_END 1006 (Some msg) false) (ns_ws_dispatch_error msg) c
          | RECV_OK _ None => set_pc W_LOOP [] c
          | RECV_OK data (Some fr) => after_frame (ns_ws_handle_frame (w_recv (wk c)) data fr) c
          end
      | W_WAIT => set_pc W_LOOP [] c
      | W_END code reason clean => set_pc W_UNREF (ns_ws_dispatch_close code (default [] reason) clean) c
      | W_UNREF => set_pc W_DONE [] (set_g (ns_ws_unref x) c)
      | W_DONE => c
      end
  end.

(** ** The page's thread *)

Definition mk_out (k : ns_ws_out_kind) (data : bytes) (close_code : Z) : ns_ws_out_msg :=
  {| o_kind := k; o_data := data; o_close_code := close_code |}.

(** The tests of [ns_ws_enqueue]. *)
Definition enqueue_refused (k : ns_ws_out_kind) (len : Z) (s : ns_ws_state) : bool :=
  bool_decide (s = NS_WS_STATE_CLOSED) ||
  match k with
  | NS_WS_OUT_CLOSE => false
  | _ => bool_decide (s = NS_WS_STATE_CLOSING) || (NS_WS_MAX_MESSAGE <? len)
  end.

(** The calls the page's thread makes, and the turns of its main loop: [L_SEND],
    [L_CLOSE] and [L_FREE] enter [ns_ws_send_text] or [ns_ws_send_binary],
    [ns_ws_close] and [ns_ws_free], [L_NEXT] goes on in them; [L_IDLE] and [L_TIMER]
    run [ns_ws_dispatch_run], [L_RETURN] is the end of the callback it made. *)
Inductive label :=
| L_WORKER (a : answer)
| L_SEND (is_text : bool) (data : bytes)
| L_CLOSE (close_code : Z) (reason : bytes)
| L_FREE
| L_NEXT
| L_IDLE (busy : bool)
| L_TIMER (i : nat) (busy : bool)
| L_RETURN.

Definition page_next (c : config) : option config :=
  match page c with
  | P_PUSH m closing =>
      Some (set_page (if closing then P_CLOSING else P_IDLE)
              (log_accepted m (set_g (set_queue (out_queue (g c) ++ [m]) (g c)) c)))
  | P_CLOSE code reason =>
      Some (set_page (if enqueue_refused NS_WS_OUT_CLOSE (zlen reason) (state (g c)) then P_CLOSING
                      else P_PUSH (mk_out NS_WS_OUT_CLOSE reason code) true) c)
  | P_CLOSING => Some (set_page P_IDLE (set_g (set_state NS_WS_STATE_CLOSING (g c)) c))
  | P_FREE => Some (set_page P_JOIN (set_g (set_exit (g c)) c))
  | P_JOIN =>
      match w_pc (wk c), w_todo (wk c) with
      | W_DONE, [] => Some (set_page P_GONE (set_g (ns_ws_unref (g c)) c))
      | _, _ => None
      end
  | P_IDLE | P_GONE => None
  end.

(** The page's thread is in its main loop, between callbacks or, when [running], in
    one. *)
Definition in_main_loop (c : config) : bool :=
  match page c with P_IDLE | P_GONE => true | _ => false end.

(** [ns_ws_dispatch_run] of the notice [n], the other sources being [i] and [t]. *)
Definition ns_ws_dispatch_run (n : notice) (i t : list notice) (busy : bool) (c : config) : config :=
  if negb (detached (g c)) && busy then set_sources i (t ++ [n]) false c
  else
    let c := set_sources i t true c in
    if detached (g c) then c else log_delivered n c.

Definition step (l : label) (c : config) : option config :=
  match l with
  | L_WORKER a =>
      match w_pc (wk c), w_todo (wk c) with W_DONE, [] => None | _, _ => Some (ns_ws_worker_curl a c) end
  | L_SEND is_text data =>
      let k := if is_text then NS_WS_OUT_TEXT else NS_WS_OUT_BINARY in
      match page c with
      | P_IDLE => Some (if enqueue_refused k (zlen data) (state (g c)) then c
                        else set_page (P_PUSH (mk_out k data 0) false) c)
      | _ => None
      end
  | L_CLOSE code reason =>
      match page c with
      | P_IDLE =>
          Some (if bool_decide (state (g c) = NS_WS_STATE_CLOSING) || bool_decide (state (g c) = NS_WS_STATE_CLOSED)
                then c else set_page (P_CLOSE (if code <=? 0 then 1000 else code) reason) c)
      | _ => None
      end
  | L_FREE => match page c with P_IDLE => Some (set_page P_FREE (set_g (set_detached (g c)) c)) | _ => None end
  | L_NEXT => page_next c
  | L_IDLE busy =>
      if in_main_loop c && negb (running c)
      then match idle c with n :: q => Some (ns_ws_dispatch_run n q (timers c) busy c) | [] => None end
      else None
  | L_TIMER i busy =>
      if in_main_loop c && negb (running c)
      then match timers c !! i with
           | Some n => Some (ns_ws_dispatch_run n (idle c) (delete i (timers c)) busy c)
           | None => None
           end
      else None
  | L_RETURN =>
      if in_main_loop c && running c
      then Some (set_sources (idle c) (timers c) false
                   (set_g (ns_ws_unref (set_pending (Nat.pred (pending (g c))) (g c))) c))
      else None
  end.

Fixpoint run (ls : list label) (c : config) : option config :=
  match ls with
  | [] => Some c
  | l :: ls' => match step l c with Some c' => run ls' c' | None => None end
  end.

Definition reachable (c : config) : Prop := exists ls, run ls ns_ws_new = Some c.
End Steps.

(** ** What the peer sends *)

Definition posts_of (a : act) : list notice :=
  match a with A_POST n _ | A_ADD n => [n] | _ => [] end.
Definition wires_of (a : act) : list wire := match a with A_WIRE w => [w] | _ => [] end.

(** The pieces libcurl hands out of one frame. *)
Fixpoint pieces (text cont : bool) (off : Z) (chunks : list bytes) : list (bytes * frame) :=
  match chunks with
  | [] => []
  | d :: rest =>
      (d, {| f_text := text; f_binary := negb text; f_cont := cont; f_close := false; f_ping := false;
             f_offset := off; f_bytesleft := zlen (concat rest) |})
        :: pieces text cont (off + zlen d) rest
  end.

(** The frames of a message: all but the last say that more fragments follow. *)
Fixpoint fragments (text : bool) (frags : list (list bytes)) : list (bytes * frame) :=
  match frags with
  | [] => []
  | [chunks] => pieces text false 0 chunks
  | chunks :: rest => pieces text true 0 chunks ++ fragments text rest
  end.

Record message := { m_text : bool; m_frags : list (list bytes) }.
Definition m_frames (m : message) : list (bytes * frame) := fragments (m_text m) (m_frags m).
Definition m_payload (m : message) : bytes := concat (concat (m_frags m)).
(** An empty frame is one empty piece, and no other piece is empty. *)
Definition frame_cut (chunks : list bytes) : Prop :=
  chunks = [[]] \/ (chunks <> [] /\ Forall (fun d => d <> []) chunks).
Definition message_cut (m : message) : Prop := m_frags m <> [] /\ Forall frame_cut (m_frags m).

Section Feeding.
Context {G : GLib}.

(** Frames handled one after the other, up to the first that ends the loop. *)
Fixpoint handle_frames (r : assembly) (l : list (bytes * frame)) : assembly * list act * outcome :=
  match l with
  | [] => (r, [], FRAME_OK)
  | (data, fr) :: l' =>
      match ns_ws_handle_frame r data fr with
      | (r', acts, FRAME_OK) =>
          let '(r'', acts', o) := handle_frames r' l' in (r'', acts ++ acts', o)
      | res => res
      end
  end.

Definition is_control (p : bytes * frame) : bool :=
  f_ping p.2 || negb (f_text p.2 || f_binary p.2 || f_cont p.2).

(** What a message without control frames does to an idle reassembler. *)
Definition message_result (m : message) : list notice * outcome :=
  if NS_WS_MAX_MESSAGE <? zlen (m_payload m) then ([], TOO_BIG)
  else if m_text m && negb (m_payload m =b []) && negb (g_utf8_validate (m_payload m))
  then ([], BAD_UTF8)
  else ([NOTE_MESSAGE (m_text m) (m_payload m)], FRAME_OK).

Definition good (m : message) : Prop := message_cut m /\ (message_result m).2 = FRAME_OK.


Lemma handle_frames_app r k l :
  handle_frames r (k ++ l) =
    match handle_frames r k with
    | (r', acts, FRAME_OK) => let '(r'', acts', o) := handle_frames r' l in (r'', acts ++ acts', o)
    | res => res
    end.
Proof.
  revert r. induction k as [|[d fr] k IH]; intros r; cbn [handle_frames app].
  - by destruct (handle_frames r l) as [[? ?] ?].
  - destruct (ns_ws_handle_frame r d fr) as [[r' a] []]; try done. rewrite IH.
    destruct (handle_frames r' k) as [[r2 a2] []]; try done.
    destruct (handle_frames r2 l) as [[? ?] ?]. by rewrite app_assoc.
Qed.

(** Control frames only send pongs. *)
Lemma control_frame r d fr :
  is_control (d, fr) = true -> f_close fr = false ->
  ns_ws_handle_frame r d fr = (r, if f_ping fr then [A_WIRE (WIRE_PONG (take 125 d))] else [], FRAME_OK).
Proof.
  unfold is_control, ns_ws_handle_frame. cbn [fst snd]. intros H ->. destruct (f_ping fr); [done|]. cbn [orb] in H. by rewrite H.
Qed.

(** What the frames without the control frames do, control frames change only by
    pongs. *)
Lemma handle_frames_control r l :
  Forall (fun p => f_close p.2 = false) l ->
  let '(r1, a1, o1) := handle_frames r l in
  let '(r2, a2, o2) := handle_frames r (List.filter (fun p => negb (is_control p)) l) in
  r1 = r2 /\ o1 = o2 /\ flat_map posts_of a1 = flat_map posts_of a2.
Proof.
  intros H. revert r. induction H as [|[d fr] l Hc _ IH]; intros r; [done|].
  cbn [List.filter]. destruct (is_control (d, fr)) eqn:E; cbn [negb handle_frames].
  - rewrite control_frame by done. specialize (IH r).
    destruct (handle_frames r l) as [[r1 a1] o1].
    destruct (handle_frames r (List.filter _ l)) as [[r2 a2] o2].
    destruct IH as (-> & -> & E2). split; [done|]. split; [done|]. rewrite flat_map_app, E2. by destruct (f_ping fr).
  - destruct (ns_ws_handle_frame r d fr) as [[r' a] []]; try done. specialize (IH r').
    destruct (handle_frames r' l) as [[r1 a1] o1].
    destruct (handle_frames r' (List.filter _ l)) as [[r2 a2] o2].
    destruct IH as (-> & -> & E2). split; [done|]. split; [done|]. by rewrite !flat_map_app, E2.
Qed.

(** The state a piece finds: inside the message with what came so far. *)
Definition inside (text : bool) (buf : bytes) : assembly :=
  {| asm := buf; asm_text := text; in_message := true |}.
Definition outside (text : bool) : assembly := {| asm := []; asm_text := text; in_message := false |}.

(** The end of a message: what is in the buffer is checked and posted. *)
Definition finish_message (text : bool) (buf : bytes) : assembly * list act * outcome :=
  if text && negb (buf =b []) && negb (g_utf8_validate buf)
  then (outside text, [], BAD_UTF8)
  else (outside text, ns_ws_dispatch_message text buf, FRAME_OK).

Definition piece (text cont : bool) (off : Z) (left : Z) : frame :=
  {| f_text := text; f_binary := negb text; f_cont := cont; f_close := false; f_ping := false;
     f_offset := off; f_bytesleft := left |}.

Lemma data_frame text cont off left d (r : assembly) buf :
  (r = inside text buf \/ (in_message r = false /\ off = 0 /\ buf = [])) ->
  zlen buf <= NS_WS_MAX_MESSAGE ->
  ns_ws_handle_frame r d (piece text cont off left) =
    if NS_WS_MAX_MESSAGE <? zlen (buf ++ d) then (outside text, [], TOO_BIG)
    else if (left =? 0) && negb cont then finish_message text (buf ++ d)
    else (inside text (buf ++ d), [], FRAME_OK).
Proof.
  intros Hr Hb. unfold ns_ws_handle_frame, finish_message. cbn [f_close f_ping f_text f_binary f_cont f_offset f_bytesleft piece].
  rewrite orb_negb_r. cbn [orb negb].
  assert (S : exists st, (off =? 0) && negb (in_message r) && true = st /\
            (negb st && negb (in_message r) = false) /\ (if st then [] else asm r) = buf /\
            (if st then negb (negb text) else asm_text r) = text).
  { destruct Hr as [->|(E & -> & ->)].
    - exists false. cbn. by rewrite andb_false_r.
    - rewrite E. exists true. cbn. by rewrite negb_involutive. }
  destruct S as (st & -> & -> & -> & ->). rewrite zlen_app.
  destruct (Z.ltb_spec NS_WS_MAX_MESSAGE (zlen buf + zlen d)).
  - assert (0 <? zlen d = true) as -> by (apply Z.ltb_lt; lia). done.
  - rewrite andb_false_r. done.
Qed.

Lemma handle_pieces text cont chunks (r : assembly) buf off :
  (r = inside text buf \/ (in_message r = false /\ off = 0 /\ buf = [])) ->
  zlen buf <= NS_WS_MAX_MESSAGE -> chunks <> [] -> Forall (fun d => d <> []) (List.tl chunks) ->
  handle_frames r (pieces text cont off chunks) =
    if NS_WS_MAX_MESSAGE <? zlen (buf ++ concat chunks) then (outside text, [], TOO_BIG)
    else if cont then (inside text (buf ++ concat chunks), [], FRAME_OK)
    else finish_message text (buf ++ concat chunks).
Proof.
  revert r buf off. induction chunks as [|d rest IH]; intros r buf off Hr Hb Hne Hd; [done|].
  cbn [pieces handle_frames List.tl] in *.
  change (handle_frames r _) with (handle_frames r []). fold (piece text cont off (zlen (concat rest))).
  rewrite (data_frame _ _ _ _ _ _ buf) by done. cbn [concat].
  destruct rest as [|d2 rest].
  - cbn [concat pieces handle_frames]. rewrite app_nil_r. change (zlen [] =? 0) with true. cbn [andb].
    destruct (_ <? _); [done|]. destruct cont; cbn [negb]; [done|].
    unfold finish_message. by destruct (_ && _).
  - assert (zlen (concat (d2 :: rest)) =? 0 = false) as ->.
    { apply Z.eqb_neq. rewrite zlen_nil. apply Forall_cons in Hd as [Hd _].
      cbn [concat]. intros [? _]%app_eq_nil. done. }
    cbn [andb]. destruct (Z.ltb_spec NS_WS_MAX_MESSAGE (zlen (buf ++ d))).
    + rewrite app_assoc, zlen_app. pose proof (zlen_nonneg (concat (d2 :: rest))).
      by assert (NS_WS_MAX_MESSAGE <? zlen (buf ++ d) + zlen (concat (d2 :: rest)) = true) as -> by (apply Z.ltb_lt; lia).
    + rewrite (IH (inside text (buf ++ d)) (buf ++ d)); [|by left|done|done|by apply Forall_cons in Hd as [_ ?]].
      rewrite <- !app_assoc. destruct (_ <? _); [done|]. destruct cont; [done|].
      unfold finish_message. by destruct (_ && _).
Qed.

Lemma frame_cut_tl chunks : frame_cut chunks -> chunks <> [] /\ Forall (fun d => d <> []) (List.tl chunks).
Proof. intros [->|[H1 H2]]; [by split|]. split; [done|]. destruct H2; [done|]. done. Qed.

Lemma handle_fragments text frags (r : assembly) buf :
  (r = inside text buf \/ (in_message r = false /\ buf = [])) ->
  zlen buf <= NS_WS_MAX_MESSAGE -> frags <> [] -> Forall frame_cut frags ->
  handle_frames r (fragments text frags) =
    if NS_WS_MAX_MESSAGE <? zlen (buf ++ concat (concat frags)) then (outside text, [], TOO_BIG)
    else finish_message text (buf ++ concat (concat frags)).
Proof.
  revert r buf. induction frags as [|f rest IH]; intros r buf Hr Hb Hne Hc; [done|].
  apply Forall_cons in Hc as [[Hf1 Hf2]%frame_cut_tl Hc].
  assert (Hr' : r = inside text buf \/ (in_message r = false /\ 0 = 0 /\ buf = [])) by naive_solver.
  destruct rest as [|f2 rest].
  - cbn [fragments concat]. rewrite app_nil_r. by rewrite (handle_pieces _ _ _ _ buf).
  - change (fragments text (f :: f2 :: rest)) with (pieces text true 0 f ++ fragments text (f2 :: rest)).
    rewrite handle_frames_app, (handle_pieces _ _ _ _ buf) by done.
    change (concat (f :: f2 :: rest)) with (f ++ concat (f2 :: rest)). rewrite concat_app, app_assoc.
    destruct (Z.ltb_spec NS_WS_MAX_MESSAGE (zlen (buf ++ concat f))).
    + rewrite zlen_app. pose proof (zlen_nonneg (concat (concat (f2 :: rest)))).
      by assert (NS_WS_MAX_MESSAGE <? zlen (buf ++ concat f) + zlen (concat (concat (f2 :: rest))) = true) as ->
        by (apply Z.ltb_lt; lia).
    + rewrite (IH _ (buf ++ concat f)); [|by left|done|done|done].
      destruct (_ <? _); [done|]. unfold finish_message. by destruct (_ && _).
Qed.

Lemma handle_message m (r : assembly) :
  in_message r = false -> message_cut m ->
  exists a, handle_frames r (m_frames m) = (outside (m_text m), a, (message_result m).2) /\
    flat_map posts_of a = (message_result m).1.
Proof.
  intros Hr [Hne Hc]. unfold m_frames. rewrite (handle_fragments _ _ _ []); [|by right|done|done|done].
  cbn [app]. fold (m_payload m). unfold message_result, finish_message.
  destruct (_ <? _); [eexists; done|]. destruct (_ && _); eexists; done.
Qed.

Lemma handle_messages ms (r : assembly) :
  in_message r = false -> Forall good ms ->
  exists r' a, handle_frames r (concat (map m_frames ms)) = (r', a, FRAME_OK) /\ in_message r' = false /\
    flat_map posts_of a = map (fun m => NOTE_MESSAGE (m_text m) (m_payload m)) ms.
Proof.
  revert r. induction ms as [|m ms IH]; intros r Hr H.
  - exists r, []. done.
  - apply Forall_cons in H as [[Hc Hg] H]. destruct (handle_message m r Hr Hc) as (a & E & P).
    destruct (IH (outside (m_text m)) eq_refl H) as (r' & a' & E' & Hr' & P').
    cbn [map concat]. rewrite handle_frames_app, E, Hg, E'. exists r', (a ++ a'). split; [done|]. split; [done|].
    rewrite flat_map_app, P, P'. revert Hg. unfold message_result.
    destruct (_ <? _); [done|]. by destruct (_ && _).
Qed.
End Feeding.

(** C18. Messages are put together from frames: however the peer fragments its
    messages, libcurl cuts the frames and control frames lie between them, an idle
    socket posts exactly the peer's messages, whole and in order, and is idle
    again, as long as each is at most 8 MiB and a text one is UTF-8; the first
    message that is not ends the connection as too big (whatever its kind) or
    badly encoded after the messages before it, and nothing of it is posted. *)
Theorem ws_messages_assembled (G : GLib) (r : assembly) (ms : list message) (bad : list message)
    (frames : list (bytes * frame)) :
  in_message r = false -> Forall good ms -> Forall message_cut bad ->
  (forall m, List.hd_error bad = Some m -> (message_result m).2 <> FRAME_OK) ->
  Forall (fun p => f_close p.2 = false) frames ->
  List.filter (fun p => negb (is_control p)) frames = concat (map m_frames (ms ++ bad)) ->
  let '(r', acts, o) := handle_frames r frames in
  flat_map posts_of acts = map (fun m => NOTE_MESSAGE (m_text m) (m_payload m)) ms /\
  in_message r' = false /\
  o = match bad with [] => FRAME_OK | m :: _ => (message_result m).2 end.
Proof.
  intros Hr Hms Hcut Hbad Hcl Hf. pose proof (handle_frames_control r frames Hcl) as C. rewrite Hf in C.
  rewrite map_app, concat_app, handle_frames_app in C.
  destruct (handle_messages ms r Hr Hms) as (r1 & a1 & E1 & H1 & P1). rewrite E1 in C.
  destruct (handle_frames r frames) as [[r2 a2] o2].
  destruct bad as [|m bad]; cbn [map concat] in C.
  - cbn [handle_frames] in C. destruct C as (-> & -> & ->). by rewrite app_nil_r.
  - apply Forall_cons in Hcut as [Hm _]. specialize (Hbad m eq_refl).
    destruct (handle_message m r1 H1 Hm) as (a & E & P).
    rewrite handle_frames_app, E in C. destruct ((message_result m).2) eqn:Em; try done;
      destruct C as (-> & -> & ->); rewrite flat_map_app, P1, P; (split; [|done]);
      rewrite <- (app_nil_r (map _ ms)) at 2; f_equal; revert Em; unfold message_result;
      repeat (case_match; [done|]); done.
Qed.

Definition demo_messages : list message :=
  [{| m_text := true; m_frags := [[$"Hel"; $"lo"]; [[]]; [$" there"]] |};
   {| m_text := false; m_frags := [[[byte_of 255; byte_of 0]]] |}].
Definition demo_bad : list message := [{| m_text := true; m_frags := [[[byte_of 255]]] |}].
Definition demo_ping : bytes * frame :=
  ($"ping", {| f_text := false; f_binary := false; f_cont := false; f_close := false; f_ping := true;
               f_offset := 0; f_bytesleft := 0 |}).

Lemma ws_messages_assembled_witness :
  let l := concat (map m_frames (demo_messages ++ demo_bad)) in
  let '(r, acts, o) :=
    handle_frames (G := glib_ref) (outside false) (take 1 l ++ demo_ping :: drop 1 l) in
  flat_map posts_of acts = [NOTE_MESSAGE true ($"Hello there"); NOTE_MESSAGE false [byte_of 255; byte_of 0]] /\
  o = BAD_UTF8.
Proof.
  pose proof (ws_messages_assembled glib_ref (outside false) demo_messages demo_bad
    (take 1 (concat (map m_frames (demo_messages ++ demo_bad))) ++
     demo_ping :: drop 1 (concat (map m_frames (demo_messages ++ demo_bad)))) eq_refl) as H.
  assert (C1 : Forall (good (G := glib_ref)) demo_messages).
  { repeat apply Forall_cons_2; try apply Forall_nil_2; split; [|reflexivity| |reflexivity];
      (split; [done|]); repeat apply Forall_cons_2; try apply Forall_nil_2;
      first [by left|right; split; [done|repeat apply Forall_cons_2; try apply Forall_nil_2; done]]. }
  assert (C2 : Forall message_cut demo_bad).
  { apply Forall_cons_2; [|apply Forall_nil_2]. split; [done|]. apply Forall_cons_2; [|apply Forall_nil_2].
    right. split; [done|]. apply Forall_cons_2; [done|apply Forall_nil_2]. }
  assert (C3 : Forall (fun p => f_close p.2 = false)
    (take 1 (concat (map m_frames (demo_messages ++ demo_bad))) ++
     demo_ping :: drop 1 (concat (map m_frames (demo_messages ++ demo_bad)))))
    by (vm_compute; repeat (constructor; [reflexivity|]); constructor).
  specialize (H C1 C2). specialize (H ltac:(intros m [= <-]; vm_compute; discriminate) C3 eq_refl).
  cbv zeta. destruct (handle_frames _ _) as [[r acts] o]. destruct H as (H1 & _ & H2). by split.
Defined.

(** ** References: nobody touches a freed socket *)

Section Threads.
Context {G : GLib}.

(** The owner, the worker, each source of the main loop and the one it runs. *)
Definition holders (c : config) : nat :=
  (match page c with P_GONE => 0 | _ => 1 end) +
  (match w_pc (wk c) with W_DONE => 0 | _ => 1 end) +
  length (idle c) + length (timers c) + (if running c then 1 else 0).

Definition refs_ok (c : config) : Prop :=
  refcount (g c) = holders c /\
  pending (g c) = (length (idle c) + length (timers c) + (if running c then 1 else 0))%nat /\
  (w_pc (wk c) = W_DONE -> w_todo (wk c) = []) /\
  (page c = P_GONE -> w_pc (wk c) = W_DONE) /\
  (exit_requested (g c) = true -> page c = P_JOIN \/ page c = P_GONE).

(** Split a step of the worker into its cases. *)
Ltac worker_cases :=
  unfold ns_ws_worker_curl, ns_ws_drain_outgoing, ns_ws_send_curl, do_act, after_frame;
  repeat match goal with
  | |- context [match ns_ws_handle_frame ?r ?d ?f with _ => _ end] =>
      destruct (ns_ws_handle_frame r d f) as [[? ?] ?] eqn:?
  | |- context [match ?x with _ => _ end] =>
      lazymatch x with context [match _ with _ => _ end] => fail | _ => destruct x eqn:? end
  end; cbn.

(** Split a step into its cases, the worker's as one. *)
Ltac step_cases l H :=
  destruct l; cbn [step] in H; unfold page_next, ns_ws_dispatch_run in H;
  repeat match type of H with
  | context [match ?x with _ => _ end] =>
      lazymatch x with context [match _ with _ => _ end] => fail | _ => destruct x eqn:? end
  end; try discriminate H; injection H as <-.

(** What a turn of the worker leaves alone. *)
Definition same_page (c c' : config) : Prop :=
  page c' = page c /\ idle c' = idle c /\ timers c' = timers c /\ running c' = running c /\
  accepted c' = accepted c /\ posted c' = posted c /\ delivered c' = delivered c /\
  exit_requested (g c') = exit_requested (g c) /\ detached (g c') = detached (g c) /\
  pending (g c') = pending (g c).

Lemma worker_turn a c :
  w_todo (wk c) = [] -> w_pc (wk c) <> W_DONE ->
  let c' := ns_ws_worker_curl a c in
  same_page c c' /\ state (g c') = state (g c) /\
  ((w_pc (wk c) = W_UNREF /\ w_pc (wk c') = W_DONE /\ w_todo (wk c') = [] /\
      refcount (g c') = Nat.pred (refcount (g c))) \/
   (w_pc (wk c') <> W_DONE /\ refcount (g c') = refcount (g c))).
Proof.
  destruct c as [x [pc todo r] pg i t rn ac po de se]. cbn. intros -> Hd. unfold same_page.
  worker_cases; (split; [by repeat split|]); (split; [done|]);
    first [right; split; [discriminate|reflexivity] | left; by repeat split | done].
Qed.

Lemma act_effect a todo c :
  let c' := do_act a todo c in
  w_pc (wk c') = w_pc (wk c) /\ page c' = page c /\ timers c' = timers c /\ running c' = running c /\
  accepted c' = accepted c /\ delivered c' = delivered c /\
  exit_requested (g c') = exit_requested (g c) /\ detached (g c') = detached (g c) /\
  match a with
  | A_ADD n => w_todo (wk c') = todo /\ refcount (g c') = S (refcount (g c)) /\
      pending (g c') = S (pending (g c)) /\ idle c' = idle c ++ [n] /\ posted c' = posted c ++ [n]
  | _ => refcount (g c') = refcount (g c) /\ pending (g c') = pending (g c) /\ idle c' = idle c /\
      posted c' = posted c /\
      w_todo (wk c') =
        match a with
        | A_POST n d => if post_refused (g c) d then todo else A_ADD n :: todo
        | _ => todo
        end
  end.
Proof. destruct a; cbn; try destruct (post_refused _ _); by repeat split. Qed.

Lemma worker_refs a c :
  refs_ok c -> w_pc (wk c) <> W_DONE -> refs_ok (ns_ws_worker_curl a c).
Proof.
  intros (R & P & D & Gn & E) Hd. destruct (w_todo (wk c)) as [|act todo] eqn:Et.
  - destruct (worker_turn a c Et Hd) as ((Ep & Ei & Etm & Er & _ & _ & _ & Ee & _ & Epd) & _ & C).
    unfold refs_ok, holders in *. rewrite Ep, Ei, Etm, Er, Ee, Epd.
    destruct C as [(Eu & -> & -> & ->)|[C ->]].
    + rewrite R, Eu. repeat split; try done. destruct (page c); lia.
    + repeat split; try done.
      * rewrite R. destruct (w_pc (wk c)), (w_pc (wk (ns_ws_worker_curl a c))); done.
      * intros F. by apply Gn in F.
  - assert (ns_ws_worker_curl a c = do_act act todo c) as -> by (unfold ns_ws_worker_curl, ns_ws_drain_outgoing, ns_ws_send_curl; by rewrite Et).
    destruct (act_effect act todo c) as (Ew & Ep & Etm & Er & _ & _ & Ee & _ & C).
    unfold refs_ok, holders in *. rewrite Ew, Ep, Etm, Er, Ee.
    destruct act; try (destruct C as (-> & -> & -> & _ & _); by repeat split).
    destruct C as (_ & -> & -> & -> & _). rewrite length_app. cbn [length].
    repeat split; try done; lia.
Qed.

Lemma step_worker a c c' :
  refs_ok c -> step (L_WORKER a) c = Some c' -> w_pc (wk c) <> W_DONE /\ c' = ns_ws_worker_curl a c.
Proof.
  intros (_ & _ & D & _) H. cbn in H. destruct (w_pc (wk c)) eqn:Ep; try (injection H as <-; by split).
  by rewrite D in H.
Qed.

Lemma worker_busy c :
  refs_ok c -> w_pc (wk c) <> W_DONE ->
  forall a, step (L_WORKER a) c = Some (ns_ws_worker_curl a c).
Proof. intros _ Hd a. cbn. by destruct (w_pc (wk c)). Qed.

Lemma length_delete_nth {A} (l : list A) i x : l !! i = Some x -> length l = S (length (delete i l)).
Proof. intros H. rewrite (length_delete l i) by by eexists. apply lookup_lt_Some in H. lia. Qed.

Lemma step_refs l c c' : refs_ok c -> step l c = Some c' -> refs_ok c'.
Proof.
  intros H S. destruct l.
  1: { destruct (step_worker _ _ _ H S) as [Hd ->]. by apply worker_refs. }
  all: destruct c as [x w pg il t rn ac po de se], H as (R & P & D & Gn & E);
    unfold refs_ok, holders in *; cbn in *; unfold page_next, ns_ws_dispatch_run, in_main_loop in S; cbn in S.
  - destruct pg; try done. destruct (enqueue_refused _ _ _) in S; injection S as <-; cbn; repeat split; auto; naive_solver.
  - destruct pg; try done. destruct (_ || _) in S; injection S as <-; cbn; repeat split; auto; naive_solver.
  - destruct pg; try done. injection S as <-; cbn; repeat split; auto; naive_solver.
  - destruct pg; try done.
    + destruct closing; injection S as <-; cbn; repeat split; auto; naive_solver.
    + destruct (enqueue_refused _ _ _) in S; injection S as <-; cbn; repeat split; auto; naive_solver.
    + injection S as <-; cbn; repeat split; auto; naive_solver.
    + injection S as <-; cbn; repeat split; auto; done.
    + destruct (w_pc w) eqn:Ew; try done. destruct (w_todo w) eqn:Et; try done. injection S as <-. cbn. rewrite Ew.
      repeat split; auto; by rewrite R.
  - destruct (_ && _) eqn:B in S; [|done]. destruct il as [|n il]; [done|]. boolify. subst rn.
    destruct (negb _ && _) in S; injection S as <-; cbn; [|destruct (detached x); cbn];
      rewrite ?length_app in *; cbn in *; repeat split; auto; lia.
  - destruct (_ && _) eqn:B in S; [|done]. destruct (t !! i) eqn:Ei; [|done]. boolify. subst rn.
    apply length_delete_nth in Ei.
    destruct (negb _ && _) in S; injection S as <-; cbn; [|destruct (detached x); cbn];
      rewrite ?length_app in *; cbn in *; repeat split; auto; lia.
  - destruct (_ && _) eqn:B in S; [|done]. boolify. subst rn. injection S as <-. cbn. repeat split; auto; lia.
Qed.

Lemma init_refs : refs_ok ns_ws_new.
Proof. unfold refs_ok. cbn. by repeat split. Qed.

Lemma run_invariant (I : config -> Prop) ls c c' :
  (forall l c c', refs_ok c -> I c -> step l c = Some c' -> I c') ->
  refs_ok c -> I c -> run ls c = Some c' -> refs_ok c' /\ I c'.
Proof.
  intros HI. revert c. induction ls as [|l ls IH]; intros c Hr Hc; cbn; [by intros [= <-]|].
  destruct (step l c) as [c1|] eqn:E; [|done]. apply IH; [by eapply step_refs|by eapply HI].
Qed.

Lemma reachable_refs c : reachable c -> refs_ok c.
Proof.
  intros [ls H]. by eapply (run_invariant (fun _ => True)) in H as [? _]; [..|apply init_refs|done].
Qed.

Lemma step_holds l c c' : refs_ok c -> step l c = Some c' -> (0 < refcount (g c))%nat.
Proof.
  intros H S. destruct l.
  1: { destruct (step_worker _ _ _ H S) as [Hd _]. destruct H as [-> _]. unfold holders.
       destruct (w_pc (wk c)); try done; lia. }
  all: destruct H as [-> _]; unfold holders; cbn in S; unfold page_next in S.
  all: destruct (page c) eqn:Ep; try done; try lia.
  - unfold in_main_loop in S. rewrite Ep in S. destruct (_ && _) in S; [|done]. destruct (idle c); [done|cbn; lia].
  - unfold in_main_loop in S. rewrite Ep in S. destruct (_ && _) in S; [|done].
    destruct (timers c) ; [done|cbn; lia].
  - unfold in_main_loop in S. rewrite Ep in S. destruct (running c); [lia|done].
Qed.

(** A detached socket stays so and calls nobody. *)
Lemma step_detached l c c' :
  refs_ok c -> step l c = Some c' -> detached (g c) = true ->
  detached (g c') = true /\ delivered c' = delivered c.
Proof.
  intros H S Hd. destruct l.
  1: { destruct (step_worker _ _ _ H S) as [Hp ->]. destruct (w_todo (wk c)) as [|act todo] eqn:Et.
       - destruct (worker_turn a c Et Hp) as ((_ & _ & _ & _ & _ & _ & -> & _ & -> & _) & _). done.
       - assert (ns_ws_worker_curl a c = do_act act todo c) as -> by (unfold ns_ws_worker_curl, ns_ws_drain_outgoing, ns_ws_send_curl; by rewrite Et).
         by destruct (act_effect act todo c) as (_ & _ & _ & _ & _ & -> & _ & -> & _). }
  all: destruct c as [x w pg il t rn ac po de se];
    cbn in *; unfold page_next, ns_ws_dispatch_run in S; cbn in S; rewrite ?Hd in S; cbn in S;
    repeat case_match; simplify_eq; done.
Qed.

(** ** The events of a socket *)

Inductive phase := PH_CONNECTING | PH_OPEN | PH_FAILED | PH_CLOSED.

(** The order the WebSocket interface gives events: [open] first if at all, then
    messages, then perhaps an error, and [close] last. *)
Definition phase_next (p : phase) (n : notice) : option phase :=
  match p, n with
  | PH_CONNECTING, NOTE_OPEN => Some PH_OPEN
  | PH_OPEN, NOTE_MESSAGE _ _ => Some PH_OPEN
  | (PH_CONNECTING | PH_OPEN), NOTE_ERROR _ => Some PH_FAILED
  | (PH_CONNECTING | PH_OPEN | PH_FAILED), NOTE_CLOSE _ _ _ => Some PH_CLOSED
  | _, _ => None
  end.
Fixpoint phase_from (p : phase) (l : list notice) : option phase :=
  match l with
  | [] => Some p
  | n :: l' => match phase_next p n with Some p' => phase_from p' l' | None => None end
  end.
Definition phase_of (l : list notice) : option phase := phase_from PH_CONNECTING l.

Lemma phase_from_app p l k :
  phase_from p (l ++ k) = match phase_from p l with Some q => phase_from q k | None => None end.
Proof. revert p. induction l as [|n l IH]; intros p; cbn; [done|]. destruct (phase_next p n); [apply IH|done]. Qed.

Lemma phase_app l k p :
  phase_of (l ++ k) = Some p -> exists q, phase_of l = Some q /\ phase_from q k = Some p.
Proof. unfold phase_of. rewrite phase_from_app. destruct (phase_from _ l); [eauto|done]. Qed.

(** Messages can be left out of a log. *)
Lemma phase_drop l t d k p :
  phase_of (l ++ NOTE_MESSAGE t d :: k) = Some p -> phase_of (l ++ k) = Some p.
Proof.
  unfold phase_of. rewrite !phase_from_app. destruct (phase_from _ l) as [[]|]; done.
Qed.

(** What the log, with the posts still to make, has come to when the worker is at
    each point. *)
Definition stage (pc : worker_pc) (p : phase) : Prop :=
  match pc with
  | W_INIT | W_PERFORM => p = PH_CONNECTING
  | W_LOOP | W_DRAIN | W_SEND _ _ _ | W_RECV | W_WAIT => p = PH_OPEN
  | W_END _ _ _ => p <> PH_CLOSED
  | W_UNREF | W_DONE => p = PH_CLOSED
  end.

Definition plain_act (a : act) : Prop :=
  match a with
  | A_ADD _ => False
  | A_POST n true => match n with NOTE_MESSAGE _ _ => True | _ => False end
  | _ => True
  end.
Definition adds (todo : list act) : list notice :=
  match todo with A_ADD n :: _ => [n] | _ => [] end.

Definition after_add (todo : list act) : list act :=
  match todo with A_ADD _ :: t => t | _ => todo end.

Definition log_ok (c : config) : Prop :=
  Forall plain_act (after_add (w_todo (wk c))) /\
  if detached (g c)
  then exists p, phase_of (posted c ++ adds (w_todo (wk c))) = Some p
  else exists p, phase_of (posted c ++ flat_map posts_of (w_todo (wk c))) = Some p /\ stage (w_pc (wk c)) p.

Lemma handle_frame_acts r d f r' acts o :
  ns_ws_handle_frame r d f = (r', acts, o) ->
  Forall plain_act acts /\ (flat_map posts_of acts = [] \/ exists t m, flat_map posts_of acts = [NOTE_MESSAGE t m]) /\
  (o = FRAME_OK -> exists k, flat_map wires_of acts = map WIRE_PONG k /\ Forall (fun p => (length p <= 125)%nat) k) /\ (o <> FRAME_OK -> acts = []) /\
  Forall (fun a => match a with A_WIRE (WIRE_PONG _) | A_POST _ true => True | _ => False end) acts.
Proof.
  unfold ns_ws_handle_frame, ns_ws_dispatch_message. intros H.
  repeat case_match; simplify_eq; cbn; (split; [by repeat constructor|]); (split; [eauto|]);
    (split; [intros; first [by exists []|eexists [_]; split; [done|]; apply Forall_cons_2; [rewrite length_take; lia|done]]|]); (split; [done|]); by repeat constructor.
Qed.

Lemma phase_add l k p n q :
  phase_of (l ++ k) = Some p -> phase_next p n = Some q -> phase_of (l ++ k ++ [n]) = Some q.
Proof.
  intros H E. rewrite app_assoc. unfold phase_of in *. rewrite phase_from_app, H. cbn. by rewrite E.
Qed.

(** With nothing left to do, a turn adds posts the stage allows. *)
Lemma turn_log a c :
  w_todo (wk c) = [] -> w_pc (wk c) <> W_DONE ->
  (forall p, stage (w_pc (wk c)) p ->
     exists q, phase_from p (flat_map posts_of (w_todo (wk (ns_ws_worker_curl a c)))) = Some q /\
       stage (w_pc (wk (ns_ws_worker_curl a c))) q) /\
  Forall plain_act (w_todo (wk (ns_ws_worker_curl a c))).
Proof.
  destruct c as [x [pc todo r] pg i t rn ac po de se]. cbn. intros -> Hd.
  destruct (ns_ws_worker_curl a _) eqn:E.
  revert E. unfold ns_ws_worker_curl, ns_ws_drain_outgoing, ns_ws_send_curl, after_frame. cbn.
  repeat match goal with
  | |- context [match ns_ws_handle_frame ?r ?d ?f with _ => _ end] =>
      let F := fresh "F" in destruct (ns_ws_handle_frame r d f) as [[? ?] ?] eqn:F; apply handle_frame_acts in F
  | |- context [match ?x with _ => _ end] =>
      lazymatch x with context [match _ with _ => _ end] => fail | _ => destruct x eqn:? end
  end; cbn; intros [= <- <- <- <- <- <- <- <- <- <-]; cbn; try done;
  try (split; [intros p ->; eexists; split; [reflexivity|done]|by repeat constructor]).
  1: { destruct F as (F1 & [-> |(? & ? & ->)] & _); (split; [intros p ->; by eexists|done]). }
  1-3: destruct F as (_ & _ & _ & F & _); rewrite F by done; cbn;
    (split; [intros p ->; by eexists|by repeat constructor]).
  split; [|by repeat constructor]. intros p Hp. exists PH_CLOSED. split; [|done]. by destruct p.
Qed.

Definition is_worker (l : label) : bool := match l with L_WORKER _ => true | _ => false end.

Lemma page_step l c c' :
  step l c = Some c' -> is_worker l = false ->
  wk c' = wk c /\ posted c' = posted c /\ sent c' = sent c /\
  (detached (g c') = detached (g c) \/ detached (g c') = true).
Proof.
  intros S Hl. destruct c as [x w pg il t rn ac po de se].
  destruct l; try done; cbn in *; unfold page_next, ns_ws_dispatch_run in S; cbn in S;
    repeat case_match; simplify_eq; cbn; auto.
Qed.

Lemma adds_posts todo : exists k, flat_map posts_of todo = adds todo ++ k.
Proof. destruct todo as [|[] todo]; cbn; eauto. Qed.

Lemma plain_adds todo : Forall plain_act todo -> adds todo = [] /\
  Forall plain_act (after_add todo).
Proof. intros H. destruct H as [|[] ? Ha H]; cbn in *; try done; by repeat constructor. Qed.

Lemma log_do a todo c :
  w_todo (wk c) = a :: todo -> log_ok c -> log_ok (do_act a todo c).
Proof.
  intros Et [Hp Hl]. destruct (act_effect a todo c) as (Ew & _ & _ & _ & _ & _ & _ & Ed & C).
  unfold log_ok. rewrite Ew, Ed. rewrite Et in *. destruct a.
  - destruct C as (_ & _ & _ & -> & ->). apply Forall_cons in Hp as [_ Hp].
    destruct (plain_adds todo Hp) as [Ea Hp']. split; [exact Hp'|]. rewrite Ea. by destruct (detached (g c)).
  - destruct C as (_ & _ & _ & -> & ->). apply Forall_cons in Hp as [Hn Hp].
    destruct (plain_adds todo Hp) as [Ea Hp']. unfold post_refused.
    destruct (detached (g c)) eqn:Dt; cbn [orb].
    + split; [done|]. by rewrite Ea.
    + destruct droppable; cbn [andb].
      * destruct (_ <=? _)%nat; [|by split]. split; [done|]. destruct Hl as (p & Hp1 & Hp2). exists p. split; [|done].
        cbn in Hn. destruct n; try done. exact (phase_drop _ _ _ _ _ Hp1).
      * by split.
  - destruct C as (-> & _ & _ & _ & ->). destruct (plain_adds todo Hp) as [Ea Hp']. split; [done|].
    rewrite <- !app_assoc, Ea. by destruct (detached (g c)).
  - destruct C as (_ & _ & _ & -> & ->). apply Forall_cons in Hp as [_ Hp].
    destruct (plain_adds todo Hp) as [Ea Hp']. split; [exact Hp'|]. rewrite Ea. by destruct (detached (g c)).
Qed.

Lemma step_log l c c' : refs_ok c -> log_ok c -> step l c = Some c' -> log_ok c'.
Proof.
  intros Hr Hl S. destruct (is_worker l) eqn:El.
  - destruct l; try done. destruct (step_worker _ _ _ Hr S) as [Hd ->].
    destruct (w_todo (wk c)) as [|act todo] eqn:Et.
    + destruct (turn_log a c Et Hd) as [Ht Hp]. destruct (plain_adds _ Hp) as [Ea Hp'].
      destruct (worker_turn a c Et Hd) as ((_ & _ & _ & _ & _ & Epo & _ & _ & Ed & _) & _).
      destruct Hl as [_ Hl]. split; [done|]. rewrite Epo, Ed, Ea. rewrite Et in Hl. cbn in Hl. rewrite app_nil_r in *.
      destruct (detached (g c)); [done|]. destruct Hl as (p & Hp1 & Hp2). destruct (Ht p Hp2) as (q & Hq & Hs).
      exists q. split; [|done]. unfold phase_of in *. by rewrite phase_from_app, Hp1.
    + unfold ns_ws_worker_curl, ns_ws_drain_outgoing, ns_ws_send_curl. rewrite Et. by apply log_do.
  - destruct (page_step l c c' S El) as (Ew & Ep & _ & Ed). destruct Hl as [Hp Hl]. unfold log_ok. rewrite Ew, Ep.
    split; [done|]. destruct (detached (g c)) eqn:D, Ed as [-> | ->]; try done.
    destruct Hl as (p & H & _). destruct (adds_posts (w_todo (wk c))) as [k Ek]. rewrite Ek, app_assoc in H.
    apply phase_app in H as (q & H & _). by exists q.
Qed.

Lemma init_log : log_ok ns_ws_new.
Proof. split; [done|]. by exists PH_CONNECTING. Qed.

(** What was delivered, and in which order. *)
Definition quiet (l : label) : Prop := match l with L_IDLE b | L_TIMER _ b => b = false | _ => True end.

Definition none_lost (c : config) : Prop :=
  detached (g c) = false -> delivered c ++ timers c ++ idle c ≡ₚ posted c.
Definition in_order (c : config) : Prop :=
  timers c = [] /\ (detached (g c) = false -> delivered c ++ idle c = posted c).

Lemma worker_sources a c :
  w_pc (wk c) <> W_DONE ->
  let c' := ns_ws_worker_curl a c in
  timers c' = timers c /\ delivered c' = delivered c /\ detached (g c') = detached (g c) /\
  exists k, idle c' = idle c ++ k /\ posted c' = posted c ++ k.
Proof.
  intros Hd c'. subst c'. destruct (w_todo (wk c)) as [|act todo] eqn:Et.
  - destruct (worker_turn a c Et Hd) as ((_ & -> & -> & _ & _ & -> & -> & _ & -> & _) & _).
    repeat split. exists []. by rewrite !app_nil_r.
  - assert (ns_ws_worker_curl a c = do_act act todo c) as -> by (unfold ns_ws_worker_curl, ns_ws_drain_outgoing, ns_ws_send_curl; by rewrite Et).
    destruct (act_effect act todo c) as (_ & _ & -> & _ & _ & -> & _ & -> & C). repeat split.
    destruct act; [| |by exists [n]; destruct C as (_ & _ & _ & -> & ->)|];
      exists []; destruct C as (_ & _ & -> & -> & _); by rewrite !app_nil_r.
Qed.

Lemma step_none_lost l c c' : refs_ok c -> none_lost c -> step l c = Some c' -> none_lost c'.
Proof.
  unfold none_lost. intros Hr H S. destruct (is_worker l) eqn:El.
  - destruct l; try done. destruct (step_worker _ _ _ Hr S) as [Hd ->].
    destruct (worker_sources a c Hd) as (-> & -> & -> & k & -> & ->). intros D. rewrite <- (H D). by rewrite !app_assoc.
  - clear Hr. destruct c as [x w pg il t rn ac po de se].
    destruct l; try done; cbn in *; unfold page_next, ns_ws_dispatch_run in S; cbn in S;
      repeat case_match; simplify_eq; cbn in *; try done; intros D; try congruence; boolify; specialize (H ltac:(congruence)).
    1: by rewrite <- app_assoc.
    1: { rewrite <- app_assoc. cbn. by rewrite Permutation_middle. }
    1-2: rewrite (delete_Permutation t i n) in H by done; rewrite <- H, <- !app_assoc; cbn.
    1: { apply Permutation_app_head. by rewrite Permutation_middle. }
    done.
Qed.

Lemma step_in_order l c c' :
  refs_ok c -> in_order c -> quiet l -> step l c = Some c' -> in_order c'.
Proof.
  unfold in_order. intros Hr [Ht H] Hq S. destruct (is_worker l) eqn:El.
  - destruct l; try done. destruct (step_worker _ _ _ Hr S) as [Hd ->].
    destruct (worker_sources a c Hd) as (-> & -> & -> & k & -> & ->). split; [done|].
    intros D. rewrite <- (H D). by rewrite !app_assoc.
  - clear Hr. destruct c as [x w pg il t rn ac po de se]. cbn in *. subst t.
    destruct l; try done; cbn in *; unfold page_next, ns_ws_dispatch_run in S; cbn in S; subst;
      rewrite ?andb_false_r in S; repeat case_match; simplify_eq; cbn in *; (split; [done|]);
      try done; intros D; try congruence; specialize (H ltac:(congruence)).
    by rewrite <- app_assoc.
Qed.

(** ** What is sent *)

Definition wire_source (w : wire) : list ns_ws_out_msg :=
  match w with WIRE_MESSAGE m _ _ => [m] | WIRE_CLOSE (Some m) _ => [m] | _ => [] end.
Definition is_close (w : wire) : bool := match w with WIRE_CLOSE _ _ => true | _ => false end.
Definition in_hand (pc : worker_pc) : list ns_ws_out_msg :=
  match pc with W_SEND m _ _ => [m] | _ => [] end.
Definition ended (pc : worker_pc) : bool :=
  match pc with W_END _ _ _ | W_UNREF | W_DONE => true | _ => false end.

(** A message goes out from its start, whole if the send succeeded; a control
    frame's payload is at most 125 bytes. *)
Definition wire_ok (w : wire) : Prop :=
  match w with
  | WIRE_MESSAGE m taken all => taken `prefix_of` o_data m /\ (all = true -> taken = o_data m)
  | WIRE_CLOSE _ p | WIRE_PONG p => (length p <= 125)%nat
  end.

(** What has gone out, with what the worker is committed to. *)
Definition going (c : config) : list wire := sent c ++ flat_map wires_of (w_todo (wk c)).
Definition close_last (l : list wire) : Prop :=
  exists k e, l = k ++ e /\ Forall (fun w => is_close w = false) k /\ (length e <= 1)%nat.

Definition sends_ok (c : config) : Prop :=
  accepted c = flat_map wire_source (going c) ++ in_hand (w_pc (wk c)) ++ out_queue (g c) /\
  Forall wire_ok (going c) /\
  if ended (w_pc (wk c)) then close_last (going c) else Forall (fun w => is_close w = false) (going c).

Lemma close_payload_length n r : (length (close_payload n r) <= 125)%nat.
Proof. unfold close_payload. destruct (0 <? n); [|cbn; lia]. rewrite length_app, length_take. cbn [length]. lia. Qed.

Lemma close_last_snoc l w : Forall (fun w => is_close w = false) l -> close_last (l ++ [w]).
Proof. intros H. exists l, [w]. by split. Qed.
Lemma close_last_none l : Forall (fun w => is_close w = false) l -> close_last l.
Proof. intros H. exists l, []. rewrite app_nil_r. split; [done|]. split; [done|cbn; lia]. Qed.

Lemma send_turn_all e len off st a :
  send_turn e len off st a = SEND_RETURN true ->
  exists n, a = SEND_OK n /\ e = false /\ (len <= off + n)%nat.
Proof.
  unfold send_turn. destruct e; [done|]. destruct a as [| |n]; [by destruct (_ <? _)|done|].
  destruct (_ <=? _)%nat eqn:E; [intros _; exists n; by boolify|].
  destruct (n =? 0)%nat; [|done]. by destruct (_ <? _).
Qed.

Lemma push_wire l w ac q :
  ac = flat_map wire_source l ++ wire_source w ++ q -> Forall wire_ok l -> wire_ok w ->
  Forall (fun w => is_close w = false) l ->
  ac = flat_map wire_source (l ++ [w]) ++ q /\ Forall wire_ok (l ++ [w]) /\
  (if is_close w then close_last (l ++ [w]) else Forall (fun w => is_close w = false) (l ++ [w])).
Proof.
  intros -> H1 H2 H3. split; [|split].
  - rewrite flat_map_app, <- app_assoc. cbn. by rewrite app_nil_r.
  - apply Forall_app. split; [done|]. by apply Forall_cons_2.
  - destruct (is_close w) eqn:E; [by apply close_last_snoc|]. apply Forall_app. split; [done|]. by apply Forall_cons_2.
Qed.

Lemma push_close l m c r ac q :
  ac = flat_map wire_source l ++ wire_source (WIRE_CLOSE m (close_payload c r)) ++ q ->
  Forall wire_ok l -> Forall (fun w => is_close w = false) l ->
  ac = flat_map wire_source (l ++ [WIRE_CLOSE m (close_payload c r)]) ++ q /\
  Forall wire_ok (l ++ [WIRE_CLOSE m (close_payload c r)]) /\ close_last (l ++ [WIRE_CLOSE m (close_payload c r)]).
Proof. intros. by apply push_wire; [|done|apply close_payload_length|]. Qed.

Lemma push_message l m off all ac q :
  ac = flat_map wire_source l ++ [m] ++ q -> (all = true -> take off (o_data m) = o_data m) ->
  Forall wire_ok l -> Forall (fun w => is_close w = false) l ->
  let l' := l ++ [WIRE_MESSAGE m (take off (o_data m)) all] in
  ac = flat_map wire_source l' ++ q /\ Forall wire_ok l' /\ Forall (fun w => is_close w = false) l'.
Proof. intros. apply push_wire; [done|done| |done]. split; [|done]. eexists. symmetry. apply take_drop. Qed.

Lemma push_pongs l k ac q :
  ac = flat_map wire_source l ++ q -> Forall (fun p => (length p <= 125)%nat) k ->
  Forall wire_ok l -> Forall (fun w => is_close w = false) l ->
  let l' := l ++ map WIRE_PONG k in
  ac = flat_map wire_source l' ++ q /\ Forall wire_ok l' /\ Forall (fun w => is_close w = false) l'.
Proof.
  intros -> Hk H1 H2 l'. subst l'. split; [|split].
  - rewrite flat_map_app. assert (flat_map wire_source (map WIRE_PONG k) = []) as -> by (clear; by induction k).
    by rewrite app_nil_r.
  - apply Forall_app. split; [done|]. by apply Forall_map.
  - apply Forall_app. split; [done|]. apply Forall_map. clear. by induction k; constructor.
Qed.

Lemma close_last_app l k : close_last (l ++ k) -> k = [] \/ Forall (fun w => is_close w = false) l.
Proof.
  intros (a & e & E & Ha & He). destruct k as [|x k _] using rev_ind; [by left|right].
  destruct e as [|w [|? ?]]; [| |cbn in He; lia].
  - rewrite app_nil_r in E. rewrite <- E in Ha. by apply Forall_app in Ha as [? _].
  - rewrite app_assoc in E. apply app_inj_tail in E as [<- _]. by apply Forall_app in Ha as [? _].
Qed.

Lemma init_sends : sends_ok ns_ws_new.
Proof. split; [done|]. split; constructor. Qed.

Lemma do_sends a todo c : w_todo (wk c) = a :: todo -> sends_ok c -> sends_ok (do_act a todo c).
Proof.
  destruct c as [x [pc td r] pg i t rn ac po de se]. unfold sends_ok, going. cbn. intros -> H.
  destruct a; cbn; try done; [by destruct (post_refused _ _)|].
  rewrite <- app_assoc. exact H.
Qed.

#[local] Arguments send_turn : simpl never.
#[local] Arguments close_payload : simpl never.

Lemma turn_sends a c :
  w_todo (wk c) = [] -> w_pc (wk c) <> W_DONE -> sends_ok c -> sends_ok (ns_ws_worker_curl a c).
Proof.
  destruct c as [x [pc todo r] pg i t rn ac po de se]. unfold sends_ok, going. cbn. intros -> Hd (Ha & Hw & Hc).
  rewrite app_nil_r in *.
  destruct (ns_ws_worker_curl a _) eqn:E.
  revert E. unfold ns_ws_worker_curl, ns_ws_drain_outgoing, ns_ws_send_curl, after_frame. cbn.
  repeat match goal with
  | |- context [match ns_ws_handle_frame ?r ?d ?f with _ => _ end] =>
      let F := fresh "F" in destruct (ns_ws_handle_frame r d f) as [[? ?] ?] eqn:F; apply handle_frame_acts in F
  | |- context [match ?x with _ => _ end] =>
      lazymatch x with context [match _ with _ => _ end] => fail | _ => destruct x eqn:? end
  end; cbn; intros [= <- <- <- <- <- <- <- <- <- <-]; cbn in *; rewrite ?app_nil_r; try done;
  try (split; [done|]; split; [done|]; by apply close_last_none).
  1: { split; [|done]. by rewrite Heql. }
  1-3: by apply push_close.
  1-4: apply push_message; [done| |done|done]; intros ->;
    match goal with E : send_turn _ _ _ _ _ = _ |- _ => apply send_turn_all in E as (? & ? & ? & ?) end;
    simplify_eq; by apply take_ge.
  1: { destruct F as (_ & _ & F & _). destruct (F eq_refl) as (k & -> & Hk). by apply push_pongs. }
  all: destruct F as (_ & _ & _ & F & _); rewrite F by done; cbn; by apply push_close.
Qed.

Lemma step_sends l c c' : refs_ok c -> sends_ok c -> step l c = Some c' -> sends_ok c'.
Proof.
  intros Hr H S. destruct (is_worker l) eqn:El.
  - destruct l; try done. destruct (step_worker _ _ _ Hr S) as [Hd ->].
    destruct (w_todo (wk c)) as [|act todo] eqn:Et; [by apply turn_sends|].
    unfold ns_ws_worker_curl, ns_ws_drain_outgoing, ns_ws_send_curl. rewrite Et. by apply do_sends.
  - destruct (page_step l c c' S El) as (Ew & _ & Es & _).
    assert (Q : accepted c' = accepted c /\ out_queue (g c') = out_queue (g c) \/
      exists m, accepted c' = accepted c ++ [m] /\ out_queue (g c') = out_queue (g c) ++ [m]).
    { clear -S El. destruct c as [x w pg il t rn ac po de se].
      destruct l; try done; cbn in *; unfold page_next, ns_ws_dispatch_run in S; cbn in S;
        repeat case_match; simplify_eq; cbn; eauto. }
    unfold sends_ok, going in *. rewrite Ew, Es. destruct H as (Ha & H). split; [|done].
    destruct Q as [[-> ->]|(m & -> & ->)]; [done|]. rewrite Ha. by rewrite !app_assoc.
Qed.

(** ** Ending *)

(** Turns of a send loop that are still possible. *)
Definition turns_left (len off : nat) (stalls : Z) : Z :=
  Z.of_nat (len - off) * 5001 + (5001 - stalls).

(** What the queue still costs up to the first close in it. *)
Fixpoint queue_cost (q : list ns_ws_out_msg) : Z :=
  match q with
  | [] => 0
  | m :: q' =>
      match o_kind m with
      | NS_WS_OUT_CLOSE => 1
      | _ => 1 + turns_left (length (o_data m)) 0 0 + queue_cost q'
      end
  end.
Definition is_out_close (m : ns_ws_out_msg) : bool :=
  match o_kind m with NS_WS_OUT_CLOSE => true | _ => false end.

Definition act_cost (a : act) : Z := match a with A_POST _ _ => 2 | _ => 1 end.
Definition todo_cost (l : list act) : Z := foldr (fun a n => act_cost a + n) 0 l.

(** The steps the worker can still make once it has to end. *)
Definition budget (c : config) : Z :=
  let q := queue_cost (out_queue (g c)) in
  let e := exit_requested (g c) in
  todo_cost (w_todo (wk c)) +
  match w_pc (wk c) with
  | W_INIT => if e then 8 else q + 16
  | W_PERFORM => if e then 7 else q + 15
  | W_LOOP => if e then 6 else q + 11
  | W_DRAIN => q + 10
  | W_SEND m off stalls => turns_left (length (o_data m)) off stalls + q + 10
  | W_RECV => if e then 9 else q + 14
  | W_WAIT => if e then 7 else q + 12
  | W_END _ _ _ => 5
  | W_UNREF => 1
  | W_DONE => 0
  end.

(** The worker has to end: it was told to, a close waits to be sent, or it is past
    its loop. *)
Definition ending (c : config) : Prop :=
  exit_requested (g c) = true \/ existsb is_out_close (out_queue (g c)) = true \/ ended (w_pc (wk c)) = true.

Definition stalls_ok (c : config) : Prop :=
  match w_pc (wk c) with W_SEND _ _ s => 0 <= s <= 5000 | _ => True end.

Lemma turns_pos len off s : 0 <= s <= 5000 -> 1 <= turns_left len off s.
Proof. unfold turns_left. lia. Qed.

Lemma queue_cost_nonneg q : 0 <= queue_cost q.
Proof.
  induction q as [|m q IH]; cbn; [lia|]. pose proof (turns_pos (length (o_data m)) 0 0). destruct (o_kind m); lia.
Qed.

Lemma queue_cost_app q k : existsb is_out_close q = true -> queue_cost (q ++ k) = queue_cost q.
Proof.
  induction q as [|m q IH]; cbn; [done|]. unfold is_out_close at 1. by destruct (o_kind m); [intros ->%IH..|].
Qed.

Lemma send_turn_cost e len off st a off' st' :
  0 <= st <= 5000 -> send_turn e len off st a = SEND_MORE off' st' ->
  0 <= st' <= 5000 /\ turns_left len off' st' < turns_left len off st /\ e = false.
Proof.
  unfold send_turn, turns_left. intros Hs H. destruct e; [done|]. destruct a as [| |n]; [|done|].
  - destruct (_ <? _) eqn:E; [done|]. injection H as <- <-. boolify. lia.
  - destruct (_ <=? _)%nat eqn:E1; [done|]. destruct (n =? 0)%nat eqn:E2.
    + destruct (_ <? _) eqn:E3; [done|]. injection H as <- <-. boolify. subst. rewrite Nat.add_0_r. lia.
    + injection H as <- <-. boolify. lia.
Qed.

Lemma todo_cost_nonneg l : 0 <= todo_cost l.
Proof. unfold todo_cost. induction l as [|[] l IH]; cbn [foldr act_cost]; lia. Qed.

Lemma todo_cost_app l k : todo_cost (l ++ k) = todo_cost l + todo_cost k.
Proof. unfold todo_cost. rewrite foldr_app. induction l as [|a l IH]; cbn; [done|]. rewrite IH. lia. Qed.

Lemma handle_frame_cost r d f r' acts o :
  ns_ws_handle_frame r d f = (r', acts, o) -> todo_cost acts <= 2 /\ (o <> FRAME_OK -> acts = []).
Proof.
  unfold ns_ws_handle_frame, ns_ws_dispatch_message. intros H. repeat case_match; simplify_eq; cbn; by split; [lia|].
Qed.

Lemma do_budget a todo c :
  w_todo (wk c) = a :: todo -> budget (do_act a todo c) < budget c /\
  (ending c -> ending (do_act a todo c)) /\ (stalls_ok c -> stalls_ok (do_act a todo c)).
Proof.
  destruct c as [x [pc td r] pg i t rn ac po de se]. unfold budget, ending, stalls_ok. cbn. intros ->.
  destruct a; cbn; try (split; [lia|done]). destruct (post_refused _ _); cbn; (split; [lia|done]).
Qed.

#[local] Arguments turns_left : simpl never.

Lemma turn_budget a c :
  w_todo (wk c) = [] -> w_pc (wk c) <> W_DONE -> stalls_ok c -> ending c ->
  budget (ns_ws_worker_curl a c) < budget c /\ ending (ns_ws_worker_curl a c) /\
  stalls_ok (ns_ws_worker_curl a c).
Proof.
  destruct c as [[rc st e det pe q] [pc todo r] pg i t rn ac po de se]. unfold budget, ending, stalls_ok. cbn.
  intros -> Hd Hs He. pose proof (queue_cost_nonneg q) as Hq. unfold ns_ws_worker_curl, ns_ws_drain_outgoing, ns_ws_send_curl, after_frame. cbn.
  destruct pc; cbn in *; try done;
    try (destruct e; cbn; repeat (case_test; cbn); (split; [lia|auto])).
  - destruct q as [|m q]; cbn in *; [destruct e; [split; [lia|auto]|naive_solver]|].
    unfold is_out_close in He at 1. pose proof (queue_cost_nonneg q).
    destruct (o_kind m); cbn in *; (split; [lia|]); (split; [|lia || done]); auto.
  - destruct (send_turn e (length (o_data m)) off stalls (a_send a)) eqn:F; cbn.
    + pose proof (turns_pos (length (o_data m)) off stalls Hs). by split; [lia|].
    + apply send_turn_cost in F as (? & ? & ->); [|done]. by split; [lia|].
  - destruct (a_recv a) as [|msg|d [f|]]; cbn; try (destruct e; cbn; (split; [lia|auto])).
    destruct (ns_ws_handle_frame r d f) as [[r' acts] o] eqn:F. apply handle_frame_cost in F as [F1 F2].
    destruct o; [|rewrite F2 by done..]; cbn; try (destruct e; cbn; (split; [lia|auto])).
    unfold todo_cost in F1. destruct e; cbn; (split; [lia|auto]).
Qed.

(** What a step of the page's thread does to what the worker reads. *)
Lemma page_shared l c c' :
  step l c = Some c' -> is_worker l = false ->
  wk c' = wk c /\
  ((out_queue (g c') = out_queue (g c) /\
      (exit_requested (g c') = exit_requested (g c) \/ exit_requested (g c') = true)) \/
   (exists m b, page c = P_PUSH m b /\ exit_requested (g c') = exit_requested (g c) /\
      out_queue (g c') = out_queue (g c) ++ [m])).
Proof.
  intros S El. destruct c as [x w pg il t rn ac po de se].
  destruct l; try done; cbn in *; unfold page_next, ns_ws_dispatch_run in S; cbn in S;
    repeat case_match; simplify_eq; cbn; (split; [reflexivity|]);
    first [left; split; [reflexivity|first [left; reflexivity|right; reflexivity]]
          |right; eexists _, _; split; [reflexivity|split; reflexivity]].
Qed.

Lemma budget_after c c' :
  wk c' = wk c ->
  queue_cost (out_queue (g c')) = queue_cost (out_queue (g c)) \/ ended (w_pc (wk c)) = true ->
  exit_requested (g c') = exit_requested (g c) \/ exit_requested (g c') = true ->
  budget c' <= budget c.
Proof.
  unfold budget. intros -> Hq He. pose proof (queue_cost_nonneg (out_queue (g c))).
  destruct Hq as [->|Hq]; destruct (w_pc (wk c)); try discriminate Hq; try lia;
    destruct (exit_requested (g c)), (exit_requested (g c')); destruct He as [He|He]; try discriminate He; lia.
Qed.

Lemma page_budget l c c' :
  refs_ok c -> ending c -> stalls_ok c -> step l c = Some c' -> is_worker l = false ->
  budget c' <= budget c /\ ending c' /\ stalls_ok c'.
Proof.
  intros (_ & _ & _ & _ & Hx) He Hs S El. destruct (page_shared l c c' S El) as (Ew & Q).
  unfold stalls_ok. rewrite Ew. split; [|split; [|done]].
  - apply budget_after; [done| |].
    + destruct Q as [[-> _]|(m & b & Ep & _ & ->)]; [by left|].
      destruct He as [He|[He|He]]; [|by left; apply queue_cost_app|by right].
      destruct (Hx He) as [F|F]; congruence.
    + destruct Q as [[_ H]|(m & b & _ & H & _)]; [done|by left].
  - unfold ending in *. rewrite Ew. destruct Q as [[-> [-> | ->]]|(m & b & _ & -> & ->)]; [done|by left|].
    rewrite existsb_app. destruct He as [He|[He|He]]; [by left|right; left; by rewrite He|by right; right].
Qed.

Lemma stalls_step a c : w_pc (wk c) <> W_DONE -> stalls_ok c -> stalls_ok (ns_ws_worker_curl a c).
Proof.
  intros Hd Hs. destruct (w_todo (wk c)) as [|act todo] eqn:Et.
  - destruct c as [x [pc td r] pg i t rn ac po de se]. cbn in *. subst. unfold stalls_ok in *. cbn in *.
    destruct pc; unfold ns_ws_worker_curl, ns_ws_drain_outgoing, ns_ws_send_curl; cbn in *; try done.
    1-3: repeat (case_test; cbn); done.
    + destruct (out_queue x) as [|m q]; [done|]. by destruct (o_kind m); cbn.
    + destruct (send_turn _ _ _ _ _) eqn:F; cbn; [done|]. by apply send_turn_cost in F as (? & _).
    + destruct (a_recv a) as [|msg|d [f|]]; cbn; try done. unfold after_frame.
      by destruct (ns_ws_handle_frame r d f) as [[? ?] []].
  - unfold ns_ws_worker_curl, ns_ws_drain_outgoing, ns_ws_send_curl. rewrite Et. by apply do_budget.
Qed.

Lemma step_stalls l c c' : refs_ok c -> stalls_ok c -> step l c = Some c' -> stalls_ok c'.
Proof.
  intros Hr Hs S. destruct (is_worker l) eqn:El.
  - destruct l; try done. destruct (step_worker _ _ _ Hr S) as [Hd ->]. by apply stalls_step.
  - destruct (page_shared l c c' S El) as (Ew & _). unfold stalls_ok. by rewrite Ew.
Qed.

Definition worker_steps (ls : list label) : nat := length (List.filter is_worker ls).

Lemma run_budget ls c c' :
  refs_ok c -> stalls_ok c -> ending c -> run ls c = Some c' ->
  Z.of_nat (worker_steps ls) + budget c' <= budget c /\ ending c' /\ refs_ok c' /\ stalls_ok c'.
Proof.
  revert c. induction ls as [|l ls IH]; intros c Hr Hs He; cbn [run]; [intros [= <-]; cbn; split; [lia|done]|].
  destruct (step l c) as [c1|] eqn:S; [|done]. intros R. pose proof (step_refs _ _ _ Hr S) as Hr1.
  unfold worker_steps. cbn [List.filter]. destruct (is_worker l) eqn:El.
  - destruct l; try done. destruct (step_worker _ _ _ Hr S) as [Hd ->].
    assert (H : budget (ns_ws_worker_curl a c) < budget c /\ ending (ns_ws_worker_curl a c)).
    { destruct (w_todo (wk c)) as [|act todo] eqn:Et.
      - by destruct (turn_budget a c Et Hd Hs He) as (? & ? & _).
      - unfold ns_ws_worker_curl, ns_ws_drain_outgoing, ns_ws_send_curl. rewrite Et. destruct (do_budget act todo c Et) as (? & ? & _). auto. }
    destruct H as [Hb He1]. destruct (IH _ Hr1 (stalls_step a c Hd Hs) He1 R) as [? ?].
    unfold worker_steps in *. cbn [length]. split; [lia|done].
  - destruct (page_budget l c c1 Hr He Hs S El) as (Hb & He1 & Hs1).
    destruct (IH _ Hr1 Hs1 He1 R) as [? ?]. unfold worker_steps in *. split; [lia|done].
Qed.

Lemma budget_pos c : stalls_ok c -> 0 <= budget c /\ (w_pc (wk c) <> W_DONE -> 0 < budget c).
Proof.
  unfold stalls_ok, budget. intros Hs. pose proof (queue_cost_nonneg (out_queue (g c))).
  pose proof (todo_cost_nonneg (w_todo (wk c))).
  destruct (w_pc (wk c)); try pose proof (turns_pos (length (o_data m)) off stalls Hs);
    destruct (exit_requested (g c)); split; intros; try done; lia.
Qed.
(** ** What was received and what became of it *)

(** What [f] notes of each step of a run. *)
Fixpoint trace {A} (f : label -> config -> list A) (ls : list label) (c : config) : list A :=
  match ls with
  | [] => []
  | l :: ls' => f l c ++ match step l c with Some c' => trace f ls' c' | None => [] end
  end.

Lemma run_snoc ls l c c' :
  run (ls ++ [l]) c = Some c' -> exists c1, run ls c = Some c1 /\ step l c1 = Some c' /\
    forall A (f : label -> config -> list A), trace f (ls ++ [l]) c = trace f ls c ++ f l c1.
Proof.
  revert c. induction ls as [|l' ls IH]; intros c; cbn [run app trace].
  - destruct (step l c) as [c1|] eqn:E; [|done]. intros [= ->]. exists c. split; [done|]. split; [done|].
    intros A f. by rewrite !app_nil_r.
  - destruct (step l' c) as [c1|]; [|done]. intros (c2 & R & S & T)%IH. exists c2. split; [done|]. split; [done|].
    intros A f. by rewrite T, app_assoc.
Qed.

(** The frames [curl_ws_recv] answers with. *)
Definition received (l : label) (c : config) : list (bytes * frame) :=
  match l, w_todo (wk c), w_pc (wk c) with
  | L_WORKER a, [], W_RECV => match a_recv a with RECV_OK data (Some fr) => [(data, fr)] | _ => [] end
  | _, _, _ => []
  end.

Definition is_message (n : notice) : bool := match n with NOTE_MESSAGE _ _ => true | _ => false end.

(** The notices the main loop has not finished with. *)
Definition waiting (c : config) : nat :=
  (length (idle c) + length (timers c) + (if running c then 1 else 0))%nat.

(** The notices handed to [ns_ws_post], each with whether it is to be taken: all
    are while the owner has not let go of the socket, except a message that finds
    256 notices waiting. *)
Definition offered (l : label) (c : config) : list (notice * bool) :=
  match l, w_todo (wk c) with
  | L_WORKER _, A_POST n _ :: _ =>
      [(n, negb (detached (g c)) && negb (is_message n && (256 <=? waiting c)%nat))]
  | _, _ => []
  end.
Definition taken (l : list (notice * bool)) : list notice := map fst (List.filter snd l).
Definition messages_of (l : list notice) : list notice := List.filter is_message l.

(** What the worker has still to hand to [ns_ws_post]. *)
Definition to_post (a : act) : list notice := match a with A_POST n _ => [n] | _ => [] end.

(** Only messages are droppable. *)
Definition well_marked (a : act) : Prop := match a with A_POST n d => d = is_message n | _ => True end.

Lemma messages_app l k : messages_of (l ++ k) = messages_of l ++ messages_of k.
Proof. apply List.filter_app. Qed.

Lemma handle_frame_marked r d f r' acts o :
  ns_ws_handle_frame r d f = (r', acts, o) ->
  Forall well_marked acts /\ messages_of (flat_map to_post acts) = flat_map posts_of acts.
Proof.
  unfold ns_ws_handle_frame, ns_ws_dispatch_message. intros H.
  repeat case_match; simplify_eq; cbn; split; try done; by repeat constructor.
Qed.

(** A turn of the worker with nothing left to do: what it received is handled, and
    what comes of it is what it has to do next. *)
Lemma turn_received a c :
  w_todo (wk c) = [] -> w_pc (wk c) <> W_DONE ->
  let c' := ns_ws_worker_curl a c in
  Forall well_marked (w_todo (wk c')) /\ (ended (w_pc (wk c)) = true -> ended (w_pc (wk c')) = true) /\
  exists acts o, handle_frames (w_recv (wk c)) (received (L_WORKER a) c) = (w_recv (wk c'), acts, o) /\
    flat_map posts_of acts = messages_of (flat_map to_post (w_todo (wk c'))) /\
    (o = FRAME_OK \/ ended (w_pc (wk c')) = true) /\
    (received (L_WORKER a) c <> [] -> ended (w_pc (wk c)) = false).
Proof.
  destruct c as [x [pc todo r] pg i t rn ac po de se]. cbn. intros -> Hd.
  unfold ns_ws_worker_curl, ns_ws_drain_outgoing, ns_ws_send_curl, received, after_frame. cbn.
  destruct pc; cbn; try done.
  all: try (repeat match goal with
    | |- context [match ?x with _ => _ end] =>
        lazymatch x with
        | context [match _ with _ => _ end] => fail
        | context [ns_ws_handle_frame _ _ _] => fail
        | _ => destruct x eqn:?
        end
    end; cbn; (split; [by repeat constructor|]); (split; [done|]); eexists _, _; (split; [reflexivity|]);
    (split; [done|]); (split; [by left|done])).
  destruct (a_recv a) as [|msg|data [fr|]]; cbn.
  1, 2, 4: (split; [by repeat constructor|]); (split; [done|]); eexists _, _; (split; [reflexivity|]);
    (split; [done|]); (split; [by left|done]).
  destruct (ns_ws_handle_frame r data fr) as [[r' acts] o] eqn:F.
  pose proof (handle_frame_marked _ _ _ _ _ _ F) as [M P]. apply handle_frame_acts in F as (_ & _ & _ & F & _).
  destruct o; cbn; [|rewrite (F ltac:(done)) in *; cbn..].
  - split; [done|]. split; [done|]. exists (acts ++ []), FRAME_OK. rewrite app_nil_r.
    split; [done|]. split; [by symmetry|]. by auto.
  - split; [by repeat constructor|]. split; [done|]. eexists _, _. split; [reflexivity|]. split; [done|]. by auto.
  - split; [by repeat constructor|]. split; [done|]. eexists _, _. split; [reflexivity|]. split; [done|]. by auto.
  - split; [by repeat constructor|]. split; [done|]. eexists _, _. split; [reflexivity|]. split; [done|]. by auto.
Qed.

(** The log, the offers and the frames of a run agree. *)
Definition books (c : config) (off : list (notice * bool)) (rec : list (bytes * frame)) : Prop :=
  Forall well_marked (w_todo (wk c)) /\
  posted c ++ adds (w_todo (wk c)) = taken off /\
  exists acts o, handle_frames (w_recv (wk ns_ws_new)) rec = (w_recv (wk c), acts, o) /\
    flat_map posts_of acts = messages_of (map fst off ++ flat_map to_post (w_todo (wk c))) /\
    (o = FRAME_OK \/ ended (w_pc (wk c)) = true).

Lemma books_turn a c off rec :
  log_ok c -> w_todo (wk c) = [] -> w_pc (wk c) <> W_DONE -> books c off rec ->
  books (ns_ws_worker_curl a c) off (rec ++ received (L_WORKER a) c).
Proof.
  intros Hl Et Hd (_ & B & acts & o & E & P & O).
  destruct (turn_received a c Et Hd) as (M & En & acts' & o' & E' & P' & O' & N).
  destruct (turn_log a c Et Hd) as [_ Hp]. destruct (plain_adds _ Hp) as [Ea _].
  destruct (worker_turn a c Et Hd) as ((_ & _ & _ & _ & _ & Epo & _) & _).
  rewrite Et in B, P. cbn [adds flat_map] in B, P. rewrite !app_nil_r in B, P.
  split; [done|]. split; [by rewrite Epo, Ea, app_nil_r|].
  rewrite handle_frames_app, E. destruct o.
  - rewrite E'. exists (acts ++ acts'), o'. split; [done|]. rewrite flat_map_app, P, P', messages_app. split; [done|].
    destruct O' as [->|O']; [by left|by right].
  - destruct O as [|O]; [done|]. destruct (received (L_WORKER a) c) eqn:Er; [|exfalso; rewrite N in O; done].
    cbn [handle_frames] in E'. injection E' as Er' <- <-. rewrite Er'.
    exists acts, (PEER_CLOSED peer_code peer_reason). split; [done|].
    rewrite messages_app, <- P', P. cbn. rewrite app_nil_r. auto.
  - destruct O as [|O]; [done|]. destruct (received (L_WORKER a) c) eqn:Er; [|exfalso; rewrite N in O; done].
    cbn [handle_frames] in E'. injection E' as Er' <- <-. rewrite Er'.
    exists acts, BAD_UTF8. split; [done|]. rewrite messages_app, <- P', P. cbn. rewrite app_nil_r. auto.
  - destruct O as [|O]; [done|]. destruct (received (L_WORKER a) c) eqn:Er; [|exfalso; rewrite N in O; done].
    cbn [handle_frames] in E'. injection E' as Er' <- <-. rewrite Er'.
    exists acts, TOO_BIG. split; [done|]. rewrite messages_app, <- P', P. cbn. rewrite app_nil_r. auto.
Qed.

Lemma taken_app l k : taken (l ++ k) = taken l ++ taken k.
Proof. unfold taken. by rewrite List.filter_app, map_app. Qed.

Lemma books_act a act todo c off rec :
  refs_ok c -> log_ok c -> w_todo (wk c) = act :: todo -> books c off rec ->
  books (do_act act todo c) (off ++ offered (L_WORKER a) c) rec.
Proof.
  intros Hr [Hp _] Et (M & B & acts & o & E & P & O). rewrite Et in *. apply Forall_cons in M as [Ma M].
  assert (Er : w_recv (wk (do_act act todo c)) = w_recv (wk c))
    by (destruct act; cbn; try destruct (post_refused _ _); done).
  destruct (act_effect act todo c) as (Ew & _ & _ & _ & _ & _ & _ & _ & C).
  unfold books. rewrite Er, Ew. unfold offered. rewrite Et.
  assert (Ha : forall t, Forall plain_act t -> adds t = []) by (intros t Ht; by destruct (plain_adds t Ht)).
  destruct act; cbn [after_add] in Hp.
  - destruct C as (_ & _ & _ & -> & ->). apply Forall_cons in Hp as [_ Hp]. rewrite (Ha _ Hp). cbn [adds] in B.
    rewrite !app_nil_r in *. split; [done|]. split; [done|]. by exists acts, o.
  - destruct C as (_ & _ & _ & -> & ->). apply Forall_cons in Hp as [_ Hp]. cbn [adds] in B. rewrite app_nil_r in B.
    destruct Hr as (_ & Hpe & _). fold (waiting c) in Hpe. unfold post_refused. rewrite Hpe.
    cbn in Ma. subst droppable.
    change NS_WS_MAX_PENDING with 256%nat. rewrite taken_app, map_app, <- B, <- app_assoc. cbn [map fst].
    set (d := detached (g c)). set (m := is_message n && (256 <=? waiting c)%nat).
    replace (taken [(n, negb d && negb m)]) with (if d || m then [] else [n]) by (unfold taken; cbn; by destruct d, m).
    split; [destruct (d || m); [done|by constructor]|]. split; [f_equal; destruct (d || m); [by apply Ha|done]|].
    exists acts, o. split; [done|]. split; [|done]. rewrite P. f_equal. f_equal. by destruct (d || m).
  - destruct C as (-> & _ & _ & _ & ->). cbn [adds] in B. rewrite (Ha _ Hp), app_nil_r, app_nil_r.
    split; [done|]. split; [done|]. by exists acts, o.
  - destruct C as (_ & _ & _ & -> & ->). apply Forall_cons in Hp as [_ Hp]. rewrite (Ha _ Hp). cbn [adds] in B.
    rewrite !app_nil_r in *. split; [done|]. split; [done|]. by exists acts, o.
Qed.

Lemma run_books ls c :
  run ls ns_ws_new = Some c -> books c (trace offered ls ns_ws_new) (trace received ls ns_ws_new).
Proof.
  revert c. induction ls as [|l ls IH] using rev_ind; intros c R.
  { injection R as <-. split; [constructor|]. split; [done|]. exists [], FRAME_OK. by auto. }
  apply run_snoc in R as (c1 & R & S & T). rewrite !T. specialize (IH c1 R).
  destruct (run_invariant log_ok ls ns_ws_new c1) as [Hr Hl]; [by apply step_log|apply init_refs|apply init_log|done|].
  destruct (is_worker l) eqn:El.
  - destruct l; try done. destruct (step_worker _ _ _ Hr S) as [Hd ->].
    destruct (w_todo (wk c1)) as [|act todo] eqn:Et.
    + unfold offered at 2. rewrite Et, app_nil_r. by apply books_turn.
    + unfold received at 2. rewrite Et, app_nil_r. unfold ns_ws_worker_curl. rewrite Et. by apply books_act.
  - destruct (page_step l c1 c S El) as (Ew & Ep & _). unfold books. rewrite Ew, Ep.
    replace (offered l c1) with (@nil (notice * bool)) by by destruct l.
    replace (received l c1) with (@nil (bytes * frame)) by by destruct l. by rewrite !app_nil_r.
Qed.

End Threads.

(** ** Runs *)

Definition demo_answer : answer :=
  {| a_init := true; a_perform := None; a_status := 101; a_send := SEND_OK 100; a_recv := RECV_AGAIN |}.
Definition demo_frame : bytes * frame :=
  ($"yo", {| f_text := true; f_binary := false; f_cont := false; f_close := false; f_ping := false;
             f_offset := 0; f_bytesleft := 0 |}).
Definition with_recv (r : recv_answer) : answer :=
  {| a_init := true; a_perform := None; a_status := 101; a_send := SEND_OK 100; a_recv := r |}.
Definition turns (n : nat) : list label := replicate n (L_WORKER demo_answer).

(** The page sends and closes from its [open] callback. *)
Definition demo_talk : list label :=
  turns 5 ++ [L_IDLE false; L_SEND true ($"hi"); L_NEXT; L_CLOSE 0 ($"bye"); L_NEXT; L_NEXT; L_NEXT; L_RETURN].
(** The worker then ends, and the page frees the socket. *)
Definition demo_end : list label :=
  turns 11 ++ [L_IDLE false; L_RETURN; L_FREE; L_NEXT; L_NEXT].
Definition after (ls : list label) : config := default ns_ws_new (run (G := glib_ref) ls ns_ws_new).

Example demo_run :
  let c := after (demo_talk ++ demo_end) in
  delivered c = [NOTE_OPEN; NOTE_CLOSE 1000 ($"bye") true] /\ refcount (g c) = 0%nat /\
  map wire_source (sent c) = [[mk_out NS_WS_OUT_TEXT ($"hi") 0]; [mk_out NS_WS_OUT_CLOSE ($"bye") 1000]].
Proof. vm_compute. done. Qed.

(** [ns_ws_close] can set the state after the worker has closed the socket: it
    stays [CLOSING] for ever. *)
Example close_after_closed :
  let e := L_WORKER (with_recv (RECV_ERR ($"reset"))) in
  let c := after (turns 7 ++ [L_CLOSE 1000 []; e; e; e; e; e; e; e; e; L_NEXT; L_NEXT]) in
  w_pc (wk c) = W_DONE /\ state (g c) = NS_WS_STATE_CLOSING.
Proof. vm_compute. done. Qed.

(** A socket closed while it connects is opened all the same, and a message the
    page then sends is taken and never sent. *)
Example closed_while_connecting :
  let c := after ([L_CLOSE 1000 []; L_NEXT; L_NEXT; L_NEXT] ++ turns 3 ++ [L_SEND true ($"hi"); L_NEXT] ++ turns 11) in
  w_pc (wk c) = W_DONE /\ accepted c = [mk_out NS_WS_OUT_CLOSE [] 1000; mk_out NS_WS_OUT_TEXT ($"hi") 0] /\
  out_queue (g c) = [mk_out NS_WS_OUT_TEXT ($"hi") 0] /\ hd_error (posted c) = Some NOTE_OPEN.
Proof. vm_compute. done. Qed.

(** When the page is busy a message can come after the close. *)
Example busy_reorders :
  let f := L_WORKER (with_recv (RECV_OK demo_frame.1 (Some demo_frame.2))) in
  let e := L_WORKER (with_recv (RECV_ERR ($"reset"))) in
  let c := after (turns 7 ++ [L_IDLE false; L_RETURN; f; f; f; L_IDLE true] ++ turns 2 ++ [e; e; e; e; e; e; e; e] ++
                  [L_IDLE false; L_RETURN; L_IDLE false; L_RETURN; L_TIMER 0 false]) in
  delivered c = [NOTE_OPEN; NOTE_ERROR ($"reset"); NOTE_CLOSE 1006 ($"reset") false; NOTE_MESSAGE true ($"yo")].
Proof. vm_compute. done. Qed.

(** No step of either thread, in any interleaving, touches a socket that has
    been freed, and the socket is freed when the last holder lets go: the
    reference count is the number of holders (the owner until [ns_ws_free]
    returns, the worker, each pending notice), a thread that can take a step finds
    it positive, and once [ns_ws_free] has begun no callback is made any more. *)
Theorem ws_references (G : GLib) (ls ls' : list label) (c c' : config) :
  run ls ns_ws_new = Some c -> run ls' c = Some c' ->
  refcount (g c) = holders c /\ pending (g c) = (length (idle c) + length (timers c) + (if running c then 1 else 0))%nat /\
  (forall l c1, step l c = Some c1 -> (0 < refcount (g c))%nat) /\
  (refcount (g c) = 0%nat -> page c = P_GONE /\ w_pc (wk c) = W_DONE /\ idle c = [] /\ timers c = []) /\
  (detached (g c) = true -> detached (g c') = true /\ delivered c' = delivered c).
Proof.
  intros R R'. assert (H : refs_ok c) by (by apply reachable_refs; exists ls).
  destruct (H) as (Hr & Hp & _). split; [done|]. split; [done|]. split; [intros; by eapply step_holds|]. split.
  - rewrite Hr. unfold holders. intros E. destruct (page c), (w_pc (wk c)), (idle c), (timers c); cbn in E; try lia; done.
  - intros D. eapply (run_invariant (fun x => detached (g x) = true /\ delivered x = delivered c)) in R' as [_ ?]; try done.
    intros l c1 c2 H1 [D1 E1] S. destruct (step_detached l c1 c2 H1 S D1) as [? ->]. done.
Qed.

Lemma ws_references_witness :
  refcount (g (after (demo_talk ++ demo_end))) = 0%nat /\ page (after (demo_talk ++ demo_end)) = P_GONE.
Proof.
  pose proof (ws_references glib_ref (demo_talk ++ demo_end) [] (after (demo_talk ++ demo_end))
    (after (demo_talk ++ demo_end)) ltac:(vm_compute; reflexivity) eq_refl) as (H & _ & _ & Hz & _).
  assert (E : refcount (g (after (demo_talk ++ demo_end))) = 0%nat) by (rewrite H; vm_compute; reflexivity).
  split; [exact E|apply (Hz E)].
Defined.

(** C19. The events of a WebSocket, in every interleaving of the two threads. They
    come in the order the interface prescribes: [open] at most once and before any
    message, at most one error, and [close] last; when the worker has returned
    without [ns_ws_free] the close has been posted, exactly once. The messages
    handed to [ns_ws_post] are those the frames received so far make, in order (the
    ones still to be handed over apart). Of what is handed over everything is
    posted, in order, until [ns_ws_free]; only a message that finds 256 notices
    waiting in the main loop is dropped. Every notice posted is delivered at most
    once and none is lost (it is delivered or waits in the main loop); as long as
    the page is never busy they come in the order they were posted. *)
Theorem ws_events (G : GLib) (ls : list label) (c : config) :
  run ls ns_ws_new = Some c ->
  (exists p, phase_of (posted c) = Some p) /\
  (w_pc (wk c) = W_DONE -> detached (g c) = false -> phase_of (posted c) = Some PH_CLOSED) /\
  (let handed := trace offered ls ns_ws_new in
   posted c ++ adds (w_todo (wk c)) = taken handed /\
   exists acts o, handle_frames (w_recv (wk ns_ws_new)) (trace received ls ns_ws_new) = (w_recv (wk c), acts, o) /\
     flat_map posts_of acts = messages_of (map fst handed ++ flat_map to_post (w_todo (wk c)))) /\
  (detached (g c) = false -> delivered c ++ timers c ++ idle c ≡ₚ posted c) /\
  (Forall quiet ls -> detached (g c) = false -> delivered c ++ idle c = posted c).
Proof.
  intros R. assert (Hr : refs_ok c) by (by apply reachable_refs; exists ls).
  destruct (run_invariant log_ok ls ns_ws_new c) as [_ [_ Hl]]; [by apply step_log|apply init_refs|apply init_log|done|].
  split; [|split; [|split; [|split]]].
  - destruct (detached (g c)).
    + destruct Hl as (p & H). apply phase_app in H as (q & H & _). by exists q.
    + destruct Hl as (p & H & _). apply phase_app in H as (q & H & _). by exists q.
  - intros Hd D. rewrite D in Hl. destruct Hl as (p & H & Hs). rewrite Hd in Hs. cbn in Hs. subst p.
    destruct Hr as (_ & _ & Ht & _). rewrite (Ht Hd) in H. cbn in H. by rewrite app_nil_r in H.
  - destruct (run_books ls c R) as (_ & B & acts & o & E & P & _). split; [exact B|]. by exists acts, o.
  - destruct (run_invariant none_lost ls ns_ws_new c) as [_ H]; [apply step_none_lost|apply init_refs|by intros _|exact R|exact H].
  - intros Hq. assert (I : in_order c); [|apply I]. revert R Hq. generalize (conj init_refs (conj eq_refl (fun _ => eq_refl) : in_order ns_ws_new)).
    generalize ns_ws_new. induction ls as [|l ls IH]; intros c0 [H0 I0]; cbn; [by intros [= <-]|].
    destruct (step l c0) as [c1|] eqn:E; [|done]. intros R [Hq Hqs]%Forall_cons.
    apply (IH c1); [|done|done]. split; [by eapply step_refs|by eapply step_in_order].
Qed.

Lemma ws_events_witness :
  let f := L_WORKER (with_recv (RECV_OK demo_frame.1 (Some demo_frame.2))) in
  let ls := turns 7 ++ [f; f; f] ++ turns 2 in
  let c := after ls in
  posted c = taken (trace (G := glib_ref) offered ls ns_ws_new) /\ delivered c ++ idle c = posted c /\
  map fst (trace (G := glib_ref) offered ls ns_ws_new) = [NOTE_OPEN; NOTE_MESSAGE true ($"yo")].
Proof.
  intros f ls c. pose proof (ws_events glib_ref ls c ltac:(vm_compute; reflexivity)) as (_ & _ & (Hb & _) & _ & Hq).
  split; [rewrite <- Hb; vm_compute; reflexivity|]. split; [|vm_compute; reflexivity].
  apply Hq; [|vm_compute; reflexivity]. vm_compute. repeat constructor.
Defined.

(** What is sent: the messages the page's calls accepted go out in that order,
    each once and from its first byte, whole if [ns_ws_send_curl] succeeded; what
    has gone out, the message being sent and the queue make up what was accepted,
    nothing but a pong is sent besides, control frames have payloads of at most
    125 bytes, and after the close frame nothing is sent. *)
Theorem ws_sends (G : GLib) (ls : list label) (c : config) :
  run ls ns_ws_new = Some c ->
  accepted c = flat_map wire_source (going c) ++ in_hand (w_pc (wk c)) ++ out_queue (g c) /\
  Forall wire_ok (sent c) /\ close_last (sent c) /\
  (existsb is_close (sent c) = true -> going c = sent c).
Proof.
  intros R. destruct (run_invariant sends_ok ls ns_ws_new c) as [_ (Ha & Hw & Hc)];
    [by apply step_sends|apply init_refs|apply init_sends|done|].
  split; [done|]. unfold going in *. apply Forall_app in Hw as [Hw _]. split; [done|].
  assert (C : flat_map wires_of (w_todo (wk c)) = [] /\ close_last (sent c) \/
              Forall (fun w => is_close w = false) (sent c)).
  { destruct (ended _); [|right; by apply Forall_app in Hc as [? _]].
    destruct (close_last_app _ _ Hc) as [E|?]; [left|by right]. by rewrite E, app_nil_r in Hc. }
  destruct C as [[-> Hl]|C]; [by rewrite app_nil_r|]. split; [by apply close_last_none|].
  intros (w & Hi & Hw')%existsb_exists. rewrite List.Forall_forall in C. rewrite C in Hw' by done. done.
Qed.

Lemma ws_sends_witness :
  let c := after (demo_talk ++ turns 11) in
  accepted c = flat_map wire_source (sent c) /\ length (accepted c) = 2%nat.
Proof.
  pose proof (ws_sends glib_ref (demo_talk ++ turns 11) (after (demo_talk ++ turns 11))
    ltac:(vm_compute; reflexivity)) as (Ha & _ & _ & Hc).
  intros c. split; [|vm_compute; reflexivity]. subst c.
  rewrite Ha, Hc by (vm_compute; reflexivity).
  rewrite <- (app_nil_r (flat_map wire_source (sent _))) at 2. f_equal.
Defined.

(** C24. The worker ends: once [ns_ws_free] has asked it to, or the page's close is
    in the queue, the worker takes only [budget] many more steps in any
    interleaving and whatever libcurl answers (a send that makes no progress
    gives up after 5000 turns), it is never blocked before it returns, and then
    [ns_ws_free] returns. *)
Theorem ws_worker_ends (G : GLib) (ls ls' : list label) (c c' : config) :
  run ls ns_ws_new = Some c -> ending c -> run ls' c = Some c' ->
  Z.of_nat (worker_steps ls') <= budget c /\
  (w_pc (wk c') <> W_DONE -> forall a, is_Some (step (L_WORKER a) c')) /\
  (w_pc (wk c') = W_DONE -> page c' = P_JOIN -> exists c2, step L_NEXT c' = Some c2 /\ page c2 = P_GONE) /\
  (budget c <= Z.of_nat (worker_steps ls') -> w_pc (wk c') = W_DONE).
Proof.
  intros R He R'. destruct (run_invariant stalls_ok ls ns_ws_new c) as [Hr Hs];
    [by apply step_stalls|apply init_refs|done|done|].
  destruct (run_budget ls' c c' Hr Hs He R') as (Hb & _ & Hr' & Hs').
  destruct (budget_pos c' Hs') as [Hp Hq].
  split; [lia|]. split; [intros Hd a; by rewrite worker_busy|]. split.
  - intros Hd Hj. cbn. unfold page_next. rewrite Hj, Hd. destruct Hr' as (_ & _ & Ht & _). rewrite (Ht Hd). by eexists.
  - intros Hn. destruct (w_pc (wk c')); try (exfalso; assert (0 < budget c') by (by apply Hq); lia). done.
Qed.

Lemma ws_worker_ends_witness :
  budget (after demo_talk) = 15016 /\ (Z.of_nat (worker_steps (turns 11)) <= budget (after demo_talk)).
Proof.
  split; [vm_compute; reflexivity|].
  apply (ws_worker_ends glib_ref demo_talk (turns 11) (after demo_talk) (after (demo_talk ++ turns 11))).
  - vm_compute. reflexivity.
  - right. left. vm_compute. reflexivity.
  - vm_compute. reflexivity.
Defined.

