(* ===== verification/CssSyntax.v ===== *)
(** * CSS component values ([src/css_syntax.c])

    The tokenizer and parser of component values behind every CSS declaration, and
    the scan for the end of a declaration. Module [Grammar] says what the tokens are
    without the code, and [tiles] what a list of components over a text is. The parser's position is the suffix of
    the input it stands at, with its offset; the functions that return the end of a
    token return its length. A number is kept as the text [g_ascii_strtod] is
    given. *)

From S2P Require Import Prelude CStr.

(** ** Characters and names *)

Definition slash : ascii := byte_of 92.

Definition css_syntax_whitespace (c : ascii) : bool :=
  (c =c " ") || (c =c "009") || (c =c "010") || (c =c "013") || (c =c "012").
Definition css_syntax_newline (c : ascii) : bool := (c =c "010") || (c =c "013") || (c =c "012").
Definition css_syntax_name_start (c : ascii) : bool :=
  is_alpha c || (c =c "_") || (128 <=? code c)%Z.
Definition css_syntax_name (c : ascii) : bool :=
  css_syntax_name_start c || is_digit c || (c =c "-").

(** [css_syntax_escape_end]: the length of the escape at [s], 0 when the backslash
    is before a line end. *)
Definition css_syntax_escape_end (s : bytes) : nat :=
  match s with
  | c :: s' =>
      if negb (c =c slash) then 0
      else
        match s' with
        | [] => 1
        | d :: _ =>
            if is_xdigit d then
              let digits := fst (take_upto 6 is_xdigit s') in
              let rest := snd (take_upto 6 is_xdigit s') in
              1 + length digits + (if head_is css_syntax_whitespace rest then 1 else 0)
            else if css_syntax_newline d then 0
            else 2
        end
  | [] => 0
  end.

Fixpoint name_end (fuel : nat) (s : bytes) : nat :=
  match fuel, s with
  | S fuel', c :: s' =>
      if css_syntax_name c then S (name_end fuel' s')
      else if c =c slash then
        match css_syntax_escape_end s with
        | 0 => 0
        | n => n + name_end fuel' (drop n s)
        end
      else 0
  | _, _ => 0
  end.
Definition css_syntax_name_end (s : bytes) : nat := name_end (length s) s.

(** The byte [i] of a suffix, NUL past the end. *)
Definition at_ (s : bytes) (i : nat) : ascii := nth i s nul.

Definition css_syntax_starts_number (s : bytes) : bool :=
  match s with
  | [] => false
  | a :: _ =>
      let b := at_ s 1 in
      let c := at_ s 2 in
      if is_digit a then true
      else if a =c "." then is_digit b
      else if (a =c "+") || (a =c "-") then is_digit b || ((b =c ".") && is_digit c)
      else false
  end.

Definition digits_len (s : bytes) : nat := length (take_while is_digit s).

Definition fraction_len (s : bytes) : nat :=
  match s with
  | c :: ((d :: _) as s') => if (c =c ".") && is_digit d then 1 + digits_len s' else 0
  | _ => 0
  end.
Definition exponent_len (s : bytes) : nat :=
  match s with
  | c :: s' =>
      if (c =c "e") || (c =c "E") then
        let sign := if head_is (fun d => (d =c "+") || (d =c "-")) s' then 1 else 0 in
        let s'' := drop sign s' in
        if head_is is_digit s'' then 1 + sign + digits_len s'' else 0
      else 0
  | [] => 0
  end.
Definition css_syntax_number_end (s : bytes) : nat :=
  let sign := if head_is (fun d => (d =c "+") || (d =c "-")) s then 1 else 0 in
  let n := sign + digits_len (drop sign s) in
  let n := n + fraction_len (drop n s) in
  n + exponent_len (drop n s).

(** ** Components *)

Inductive ns_css_component_type :=
| NS_CSS_COMPONENT_WHITESPACE
| NS_CSS_COMPONENT_IDENT
| NS_CSS_COMPONENT_FUNCTION
| NS_CSS_COMPONENT_STRING
| NS_CSS_COMPONENT_NUMBER
| NS_CSS_COMPONENT_PERCENTAGE
| NS_CSS_COMPONENT_DIMENSION
| NS_CSS_COMPONENT_HASH
| NS_CSS_COMPONENT_AT_KEYWORD
| NS_CSS_COMPONENT_COLON
| NS_CSS_COMPONENT_SEMICOLON
| NS_CSS_COMPONENT_COMMA
| NS_CSS_COMPONENT_DELIM
| NS_CSS_COMPONENT_BLOCK.

#[export] Instance ns_css_component_type_eq_dec : EqDecision ns_css_component_type.
Proof. solve_decision. Defined.

Inductive ns_css_component := Component {
  c_type : ns_css_component_type;
  c_start : nat;
  c_end : nat;
  c_value : option bytes;
  c_number : bytes;
  c_children : option (list ns_css_component);
  c_delimiter : ascii;
}.

Record ns_css_syntax_parser := { input : bytes; offset : nat; valid : bool }.

Definition advance (n : nat) (p : ns_css_syntax_parser) : ns_css_syntax_parser :=
  Build_ns_css_syntax_parser (drop n (input p)) (offset p + n) (valid p).
Definition invalid (p : ns_css_syntax_parser) : ns_css_syntax_parser :=
  Build_ns_css_syntax_parser (input p) (offset p) false.

(** The length of what [css_syntax_skip_comment] passes after the opening two
    bytes. *)
Fixpoint comment_len (s : bytes) : nat :=
  match s with
  | c :: s' =>
      match s' with
      | d :: _ => if (c =c "*") && (d =c "/") then 2 else S (comment_len s')
      | [] => 1
      end
  | [] => 0
  end.
Definition css_syntax_skip_comment (p : ns_css_syntax_parser) : ns_css_syntax_parser :=
  advance (2 + comment_len (drop 2 (input p))) p.

(** The loop of [css_syntax_consume_string]: the bytes passed, the value, and
    whether the string is valid. *)
Fixpoint string_loop (fuel : nat) (s : bytes) (quote : ascii) : nat * bytes * bool :=
  match fuel, s with
  | S fuel', c :: s' =>
      if c =c quote then (1, [], true)
      else if css_syntax_newline c then (1, [], false)
      else if (c =c slash) && negb (s' =b []) then
        match css_syntax_escape_end s with
        | 0 => (1, [], false)
        | n => let '(k, v, ok) := string_loop fuel' (drop n s) quote in (n + k, take n s ++ v, ok)
        end
      else let '(k, v, ok) := string_loop fuel' s' quote in (1 + k, c :: v, ok)
  | _, _ => (0, [], true)
  end.

Definition css_syntax_consume_string (p : ns_css_syntax_parser) : ns_css_component * ns_css_syntax_parser :=
  let quote := at_ (input p) 0 in
  let s := drop 1 (input p) in
  let '(n, v, ok) := string_loop (length s) s quote in
  let p' := advance (1 + n) p in
  let p' := if ok then p' else invalid p' in
  (Component NS_CSS_COMPONENT_STRING (offset p) (offset p') (Some v) [] None quote, p').

Definition css_syntax_consume_numeric (p : ns_css_syntax_parser) : ns_css_component * ns_css_syntax_parser :=
  let n := css_syntax_number_end (input p) in
  let rest := drop n (input p) in
  let '(ty, u) :=
    if head_is (fun c => c =c "%") rest then (NS_CSS_COMPONENT_PERCENTAGE, 1)
    else if head_is (fun c => css_syntax_name_start c || (c =c "-") || (c =c slash)) rest
    then (NS_CSS_COMPONENT_DIMENSION, css_syntax_name_end rest)
    else (NS_CSS_COMPONENT_NUMBER, 0) in
  let p' := advance (n + u) p in
  (Component ty (offset p) (offset p') (Some (take u rest)) (take n (input p)) None nul, p').

Section Lists.
(** [css_syntax_parse_list], which the blocks and functions recurse into; [None]
    stands for a recursion that does not return. *)
Variable parse_list : ns_css_syntax_parser -> option ascii -> option (list ns_css_component * ns_css_syntax_parser).

Definition css_syntax_consume_ident (p : ns_css_syntax_parser) (at_sign hash : bool)
    : option (ns_css_component * ns_css_syntax_parser) :=
  let start := offset p in
  let p1 := if at_sign || hash then advance 1 p else p in
  let n := css_syntax_name_end (input p1) in
  let name := take n (input p1) in
  let p2 := advance n p1 in
  if negb at_sign && negb hash && head_is (fun c => c =c "(") (input p2) then
    match parse_list (advance 1 p2) (Some ")"%char) with
    | Some (children, p3) =>
        Some (Component NS_CSS_COMPONENT_FUNCTION start (offset p3) (Some name) [] (Some children) ")", p3)
    | None => None
    end
  else
    let ty := if at_sign then NS_CSS_COMPONENT_AT_KEYWORD
              else if hash then NS_CSS_COMPONENT_HASH else NS_CSS_COMPONENT_IDENT in
    Some (Component ty start (offset p2) (Some name) [] None nul, p2).

Definition closer_of (c : ascii) : option ascii :=
  if c =c "(" then Some ")"%char else if c =c "[" then Some "]"%char
  else if c =c "{" then Some "}"%char else None.

Definition css_syntax_consume (p : ns_css_syntax_parser) : option (ns_css_component * ns_css_syntax_parser) :=
  let s := input p in
  let c := at_ s 0 in
  let next f := head_is f (drop 1 s) in
  if css_syntax_whitespace c then
    let p' := advance (length (take_while css_syntax_whitespace s)) p in
    Some (Component NS_CSS_COMPONENT_WHITESPACE (offset p) (offset p') None [] None nul, p')
  else if (c =c dquote) || (c =c "'") then Some (css_syntax_consume_string p)
  else if css_syntax_starts_number s then Some (css_syntax_consume_numeric p)
  else if (c =c "@") && next (fun d => css_syntax_name_start d || (d =c "-") || (d =c slash))
  then css_syntax_consume_ident p true false
  else if (c =c "#") && next css_syntax_name then css_syntax_consume_ident p false true
  else if css_syntax_name_start c || (c =c "-") || (c =c slash) then css_syntax_consume_ident p false false
  else
    let p' := advance 1 p in
    match closer_of c with
    | Some d =>
        match parse_list p' (Some d) with
        | Some (children, p'') =>
            Some (Component NS_CSS_COMPONENT_BLOCK (offset p) (offset p'') None [] (Some children) d, p'')
        | None => None
        end
    | None =>
        let ty := if c =c ":" then NS_CSS_COMPONENT_COLON
                  else if c =c ";" then NS_CSS_COMPONENT_SEMICOLON
                  else if c =c "," then NS_CSS_COMPONENT_COMMA else NS_CSS_COMPONENT_DELIM in
        Some (Component ty (offset p) (offset p') None [] None c, p')
    end.
End Lists.

Definition is_closer (c : ascii) : bool := (c =c ")") || (c =c "]") || (c =c "}").

Fixpoint css_syntax_parse_list (fuel : nat) (p : ns_css_syntax_parser) (closing : option ascii)
    : option (list ns_css_component * ns_css_syntax_parser) :=
  match fuel with
  | 0 => None
  | S fuel' =>
      match input p with
      | [] => Some ([], p)
      | c :: s =>
          if (c =c "/") && head_is (fun d => d =c "*") s
          then css_syntax_parse_list fuel' (css_syntax_skip_comment p) closing
          else if match closing with Some d => c =c d | None => false end then Some ([], advance 1 p)
          else if is_closer c then
            let p' := advance 1 (invalid p) in
            match closing with
            | Some _ => Some ([], p')
            | None => css_syntax_parse_list fuel' p' closing
            end
          else
            match css_syntax_consume (css_syntax_parse_list fuel') p with
            | Some (component, p') =>
                match css_syntax_parse_list fuel' p' closing with
                | Some (l, p'') => Some (component :: l, p'')
                | None => None
                end
            | None => None
            end
      end
  end.

Definition ns_css_component_values_parse (fuel : nat) (s : option bytes) : option (list ns_css_component * bool) :=
  let p := {| input := default [] s; offset := 0; valid := true |} in
  match css_syntax_parse_list fuel p None with
  | Some (l, p') => Some (l, valid p')
  | None => None
  end.

Definition ns_css_component_value_valid (fuel : nat) (s : option bytes) : option bool :=
  match ns_css_component_values_parse fuel (Some (default [] s)) with
  | Some (_, v) => Some v
  | None => None
  end.

(** ** The scan for the end of a declaration *)

(** The bracket stack of [ns_css_syntax_scan] has room for 128. *)
Definition NS_CSS_SCAN_DEPTH : nat := 128.

(** The state of the scan: what it is inside of, and the open brackets, innermost
    first. The result is the length passed and the terminator found. *)
Fixpoint scan_loop (fuel : nat) (p terminators : bytes) (quote : option ascii) (stack : list ascii)
    : nat * option ascii :=
  match fuel, p with
  | S fuel', c :: p' =>
      let on n quote stack := let '(k, t) := scan_loop fuel' (drop n p) terminators quote stack in (n + k, t) in
      let escape := (c =c slash) && negb (p' =b []) in
      match quote with
      | Some q => if escape then on 2 quote stack else on 1 (if c =c q then None else quote) stack
      | None =>
          if (c =c "/") && head_is (fun d => d =c "*") p' then on (2 + comment_len (drop 2 p)) None stack
          else if escape then on 2 None stack
          else if (c =c dquote) || (c =c "'") then on 1 (Some c) stack
          else if (length stack =? 0) && (memb c terminators || (c =c nul)) then (0, Some c)
          else
            match closer_of c with
            | Some d => on 1 None (if length stack <? NS_CSS_SCAN_DEPTH then d :: stack else stack)
            | None =>
                match stack with
                | d :: rest => on 1 None (if c =c d then rest else stack)
                | [] => on 1 None []
                end
            end
      end
  | _, _ => (0, None)
  end.
Definition ns_css_syntax_scan (s terminators : bytes) : nat * option ascii :=
  scan_loop (length s) s terminators None [].

(** ** Lengths *)

Lemma take_upto_length n f s :
  length (fst (take_upto n f s)) + length (snd (take_upto n f s)) = length s.
Proof.
  revert s. induction n as [|n IH]; intros [|c s]; cbn; try done. destruct (f c); [|done].
  specialize (IH s). destruct (take_upto n f s); cbn in *. lia.
Qed.

Lemma escape_end_le s : css_syntax_escape_end s <= length s.
Proof.
  destruct s as [|c [|d s]]; cbn -[take_upto]; [lia|by destruct (negb _); cbn; lia|].
  destruct (negb _); [lia|]. destruct (is_xdigit d) eqn:E; [|destruct (css_syntax_newline d); lia].
  pose proof (take_upto_length 6 is_xdigit (d :: s)) as H. cbn [length] in H.
  destruct (head_is _ _) eqn:Eh; [|lia]. destruct (snd _); [done|]. cbn [length] in H. lia.
Qed.

(** Backslashes before line ends. *)
Fixpoint escapes_ok (s : bytes) : bool :=
  match s with
  | c :: s' => negb ((c =c slash) && head_is css_syntax_newline s') && escapes_ok s'
  | [] => true
  end.

Lemma escapes_drop n s : escapes_ok s = true -> escapes_ok (drop n s) = true.
Proof.
  revert s. induction n as [|n IH]; intros s H; [done|]. destruct s as [|c s]; [done|]. cbn in *.
  boolify. by apply IH.
Qed.

Lemma escape_end_pos s : escapes_ok s = true -> head_is (Ascii.eqb slash) s = true -> 0 < css_syntax_escape_end s.
Proof.
  destruct s as [|c s]; [done|]. cbn [head_is]. intros H E. apply Ascii.eqb_eq in E as <-.
  unfold css_syntax_escape_end. change (negb (slash =c slash)) with false. cbn [escapes_ok] in H. boolify.
  destruct s as [|d s]; [lia|]. change (slash =c slash) with true in H. cbn [andb head_is] in H.
  destruct (is_xdigit d); [lia|]. rewrite H. lia.
Qed.

Lemma name_end_le fuel s : name_end fuel s <= length s.
Proof.
  revert s. induction fuel as [|f IH]; intros s; [cbn; lia|]. destruct s as [|c s]; cbn -[css_syntax_escape_end drop]; [lia|].
  destruct (css_syntax_name c); [specialize (IH s); lia|]. destruct (c =c slash); [|lia].
  pose proof (escape_end_le (c :: s)) as E. destruct (css_syntax_escape_end (c :: s)) as [|n]; [lia|].
  specialize (IH (drop (S n) (c :: s))). rewrite length_drop in IH. cbn [length] in *. lia.
Qed.

Lemma css_name_end_le s : css_syntax_name_end s <= length s.
Proof. apply name_end_le. Qed.

Lemma css_name_end_pos s :
  escapes_ok s = true -> head_is (fun c => css_syntax_name c || (c =c slash)) s = true -> 0 < css_syntax_name_end s.
Proof.
  destruct s as [|c s]; [done|]. unfold css_syntax_name_end. cbn [length head_is name_end]. intros H E.
  destruct (css_syntax_name c); [lia|]. cbn [orb] in E. rewrite E.
  apply Ascii.eqb_eq in E as ->. pose proof (escape_end_pos (slash :: s) H eq_refl).
  destruct (css_syntax_escape_end _); lia.
Qed.

Lemma number_end_le s : css_syntax_number_end s <= length s.
Proof.
  unfold css_syntax_number_end.
  set (sign := if head_is _ s then 1 else 0).
  assert (H0 : sign <= length s) by (subst sign; destruct s; cbn; [lia|destruct (_ || _); lia]).
  set (n1 := sign + digits_len (drop sign s)).
  assert (H1 : n1 <= length s).
  { subst n1. unfold digits_len. pose proof (take_while_length is_digit (drop sign s)). rewrite length_drop in *. lia. }
  assert (F : forall k, fraction_len k <= length k).
  { intros [|a [|b k]]; cbn [fraction_len length]; try lia. destruct (_ && _); [|lia].
    unfold digits_len. pose proof (take_while_length is_digit (b :: k)). cbn [length] in *. lia. }
  assert (X : forall k, exponent_len k <= length k).
  { intros [|a k]; cbn [exponent_len length]; [lia|]. destruct (_ || _); [|lia].
    destruct (head_is is_digit _) eqn:E; [|lia]. revert E. set (sg := if head_is _ k then 1 else 0). intros E.
    unfold digits_len. pose proof (take_while_length is_digit (drop sg k)) as T. rewrite length_drop in T.
    assert (sg <= length k) by (subst sg; destruct k; cbn; [lia|destruct (_ || _); lia]). lia. }
  pose proof (F (drop n1 s)) as F1. rewrite length_drop in F1.
  set (n2 := n1 + fraction_len (drop n1 s)) in *. pose proof (X (drop n2 s)) as X1. rewrite length_drop in X1. lia.
Qed.

Lemma number_end_pos s : css_syntax_starts_number s = true -> 0 < css_syntax_number_end s.
Proof.
  destruct s as [|a s]; [done|]. unfold css_syntax_starts_number, css_syntax_number_end. cbn [head_is].
  destruct ((a =c "+") || (a =c "-")) eqn:Es; [lia|]. destruct (is_digit a) eqn:Ed.
  { intros _. cbn [drop]. unfold digits_len. cbn [take_while]. rewrite Ed. cbn [length]. lia. }
  destruct (a =c ".") eqn:Ep; [|done]. intros H. destruct s as [|b s]; [done|].
  assert (digits_len (a :: b :: s) = 0) as D by (unfold digits_len; cbn [take_while]; by rewrite Ed).
  cbn [drop Nat.add]. rewrite D. cbn [drop Nat.add].
  assert (0 < fraction_len (a :: b :: s)); [|lia]. unfold fraction_len. cbn in H. rewrite Ep, H. cbn. lia.
Qed.

Lemma comment_len_le s : comment_len s <= length s.
Proof.
  induction s as [|c s IH]; [done|]. cbn [comment_len]. destruct s as [|d s]; [cbn; lia|].
  destruct (_ && _); cbn [length] in *; lia.
Qed.

Lemma string_loop_le fuel s q : fst (fst (string_loop fuel s q)) <= length s.
Proof.
  revert s. induction fuel as [|f IH]; intros s; [cbn; lia|].
  destruct s as [|c s]; cbn -[css_syntax_escape_end take drop]; [lia|].
  destruct (c =c q); [cbn; lia|]. destruct (css_syntax_newline c); [cbn; lia|].
  destruct ((c =c slash) && _).
  - pose proof (escape_end_le (c :: s)). destruct (css_syntax_escape_end (c :: s)) as [|n]; [cbn; lia|].
    specialize (IH (drop (S n) (c :: s))). rewrite length_drop in IH. destruct (string_loop _ _ _) as [[k v] ok].
    cbn [fst length] in *. lia.
  - specialize (IH s). destruct (string_loop _ _ _) as [[k v] ok]. cbn [fst length] in *. lia.
Qed.

(** ** Termination *)

Definition left_of (p : ns_css_syntax_parser) : nat := length (input p).
Definition further (p p' : ns_css_syntax_parser) : Prop := exists n, input p' = drop n (input p).

#[export] Instance further_preorder : PreOrder further.
Proof.
  split; [by exists 0|]. intros p q r [n Hn] [m Hm]. exists (n + m). by rewrite Hm, Hn, drop_drop.
Qed.

Lemma further_advance n p : further p (advance n p).
Proof. by exists n. Qed.
Lemma further_invalid p : further p (invalid p).
Proof. by exists 0. Qed.
Lemma further_left p p' : further p p' -> left_of p' <= left_of p.
Proof. intros [n H]. unfold left_of. rewrite H, length_drop. lia. Qed.
Lemma further_escapes p p' : further p p' -> escapes_ok (input p) = true -> escapes_ok (input p') = true.
Proof. intros [n ->]. apply escapes_drop. Qed.
Lemma left_advance n p : left_of (advance n p) = left_of p - n.
Proof. unfold left_of. cbn. by rewrite length_drop. Qed.
#[local] Hint Resolve further_advance further_invalid : ns.

Section Totality.
Variable pl : ns_css_syntax_parser -> option ascii -> option (list ns_css_component * ns_css_syntax_parser).

(** The recursive calls return from any position further than [p]. *)
Definition returns_after (p : ns_css_syntax_parser) : Prop :=
  forall p1 d, further p p1 -> left_of p1 < left_of p ->
    exists l p2, pl p1 (Some d) = Some (l, p2) /\ further p1 p2.

Lemma consume_ident_total p (at_sign hash : bool) :
  escapes_ok (input p) = true -> returns_after p -> 0 < left_of p ->
  (at_sign || hash = true \/ 0 < css_syntax_name_end (input p)) ->
  exists c p', css_syntax_consume_ident pl p at_sign hash = Some (c, p') /\ further p p' /\ left_of p' < left_of p.
Proof.
  intros He Hr Hl Hn. unfold css_syntax_consume_ident.
  set (p1 := if at_sign || hash then advance 1 p else p).
  set (n := css_syntax_name_end (input p1)). set (p2 := advance n p1).
  assert (F : further p p2).
  { etransitivity; [|apply further_advance]. subst p1. destruct (at_sign || hash); [apply further_advance|done]. }
  assert (L : left_of p2 < left_of p).
  { subst p2. rewrite left_advance. subst p1. destruct Hn as [-> |Hn]; [rewrite left_advance; lia|].
    destruct (at_sign || hash); [rewrite left_advance; lia|]. subst n. lia. }
  destruct (_ && _); [|by eexists _, _].
  destruct (Hr (advance 1 p2) ")"%char) as (l & p3 & -> & F3).
  - etransitivity; [exact F|apply further_advance].
  - rewrite left_advance. lia.
  - eexists _, _. split; [done|]. pose proof (further_left _ _ F3) as L3. rewrite left_advance in L3. split; [|lia].
    etransitivity; [exact F|]. etransitivity; [apply further_advance|exact F3].
Qed.

Lemma consume_total p :
  escapes_ok (input p) = true -> returns_after p -> 0 < left_of p ->
  exists c p', css_syntax_consume pl p = Some (c, p') /\ further p p' /\ left_of p' < left_of p.
Proof.
  intros He Hr Hl. unfold css_syntax_consume. set (s := input p). set (c := at_ s 0).
  assert (Hc : exists r, s = c :: r).
  { subst c. unfold left_of in Hl. fold s in Hl. destruct s as [|x r]; cbn in *; [lia|by exists r]. }
  destruct Hc as [r Hs].
  assert (A : forall n, 0 < n -> left_of (advance n p) < left_of p) by (intros n Hn; rewrite left_advance; lia).
  destruct (css_syntax_whitespace c) eqn:Ew.
  { eexists _, _. split; [done|]. split; [apply further_advance|]. apply A. rewrite Hs. cbn. rewrite Ew. cbn. lia. }
  destruct ((c =c dquote) || _).
  { unfold css_syntax_consume_string. destruct (string_loop _ _ _) as [[n v] ok].
    eexists _, _. split; [done|]. destruct ok.
    - split; [apply further_advance|apply A; lia].
    - split; [etransitivity; [apply further_advance|apply further_invalid]|]. apply (A (1 + n)). lia. }
  destruct (css_syntax_starts_number s) eqn:En.
  { apply number_end_pos in En. unfold css_syntax_consume_numeric. fold s.
    destruct (if head_is _ _ then _ else _) as [ty u]. eexists _, _. split; [done|].
    split; [apply further_advance|apply A; lia]. }
  destruct (_ && _); [apply consume_ident_total; auto|].
  destruct (_ && _); [apply consume_ident_total; auto|].
  destruct (_ || _ || _) eqn:Ei.
  { apply consume_ident_total; auto. right. apply css_name_end_pos; [done|]. fold s. rewrite Hs. cbn.
    unfold css_syntax_name. destruct (css_syntax_name_start c); [done|]. destruct (is_digit c); [done|]. exact Ei. }
  destruct (closer_of c) as [d|].
  - destruct (Hr (advance 1 p) d) as (l & p2 & -> & F); [apply further_advance|apply A; lia|].
    eexists _, _. split; [done|]. split; [etransitivity; [apply further_advance|exact F]|].
    apply further_left in F. pose proof (A 1). lia.
  - eexists _, _. split; [done|]. split; [apply further_advance|apply A; lia].
Qed.
End Totality.

Lemma skip_comment_further p :
  further p (css_syntax_skip_comment p) /\ (0 < left_of p -> left_of (css_syntax_skip_comment p) < left_of p).
Proof. split; [apply further_advance|]. unfold css_syntax_skip_comment. rewrite left_advance. lia. Qed.

Lemma parse_list_total fuel p closing :
  escapes_ok (input p) = true -> left_of p < fuel ->
  exists l p', css_syntax_parse_list fuel p closing = Some (l, p') /\ further p p'.
Proof.
  revert p closing. induction fuel as [|f IH]; intros p closing He Hl; [lia|]. cbn [css_syntax_parse_list].
  destruct (input p) as [|c s] eqn:Es; [by eexists _, _|].
  assert (Hp : 0 < left_of p) by (unfold left_of; rewrite Es; cbn; lia).
  assert (N : forall q cl, further p q -> left_of q < left_of p ->
    exists l p', css_syntax_parse_list f q cl = Some (l, p') /\ further p p').
  { intros q cl F L. destruct (IH q cl) as (l & p' & E & F'); [|lia|].
    - eapply further_escapes; [exact F|by rewrite Es].
    - eexists _, _. split; [exact E|]. by etransitivity. }
  destruct (_ && _); [destruct (skip_comment_further p); by apply N; auto|].
  destruct (match closing with Some d => _ | None => _ end); [by eexists _, _; split; [done|apply further_advance]|].
  destruct (is_closer c).
  { assert (F : further p (advance 1 (invalid p))) by (etransitivity; [apply further_invalid|apply further_advance]).
    destruct closing; [by eexists _, _|]. apply N; [done|]. rewrite left_advance. change (left_of (invalid p)) with (left_of p). lia. }
  destruct (consume_total (css_syntax_parse_list f) p) as (x & p1 & -> & F1 & L1); [by rewrite Es| |done|].
  - intros p1 d F L. destruct (IH p1 (Some d)) as (l & p2 & E & F2); [|lia|by eexists _, _].
    eapply further_escapes; [exact F|by rewrite Es].
  - destruct (N p1 closing F1 L1) as (l & p2 & -> & F2). by eexists _, _.
Qed.

(** More fuel changes nothing. *)
Lemma consume_more pl pl' p r :
  (forall q d r, pl q d = Some r -> pl' q d = Some r) ->
  css_syntax_consume pl p = Some r -> css_syntax_consume pl' p = Some r.
Proof.
  intros H.
  assert (I : forall a h r, css_syntax_consume_ident pl p a h = Some r -> css_syntax_consume_ident pl' p a h = Some r).
  { intros a h r1. unfold css_syntax_consume_ident. destruct (_ && _); [|done].
    match goal with |- context [pl ?q ?d] => destruct (pl q d) eqn:E; [by rewrite (H _ _ _ E)|done] end. }
  unfold css_syntax_consume.
  destruct (css_syntax_whitespace _); [done|]. destruct (_ || _); [done|]. destruct (css_syntax_starts_number _); [done|].
  destruct (_ && _); [apply I|]. destruct (_ && _); [apply I|]. destruct (_ || _ || _); [apply I|].
  destruct (closer_of _) as [d|]; [|done].
  match goal with |- context [pl ?q ?d] => destruct (pl q d) eqn:E; [by rewrite (H _ _ _ E)|done] end.
Qed.

Lemma parse_list_more fuel fuel' p closing r :
  css_syntax_parse_list fuel p closing = Some r -> fuel <= fuel' -> css_syntax_parse_list fuel' p closing = Some r.
Proof.
  revert fuel' p closing r. induction fuel as [|f IH]; intros [|f'] p closing r H Hf; try done; [lia|].
  cbn [css_syntax_parse_list] in *. destruct (input p) as [|c s]; [done|].
  destruct (_ && _); [apply IH; [done|lia]|].
  destruct (match closing with Some d => _ | None => _ end); [done|].
  destruct (is_closer c); [destruct closing; [done|apply IH; [done|lia]]|].
  destruct (css_syntax_consume (css_syntax_parse_list f) p) as [[x p1]|] eqn:E; [|done].
  assert (css_syntax_consume (css_syntax_parse_list f') p = Some (x, p1)) as ->.
  { eapply consume_more; [|exact E]. intros q d r' Hq. apply (IH f' _ _ _ Hq). lia. }
  destruct (css_syntax_parse_list f p1 closing) as [[l p2]|] eqn:E2; [|done].
  by rewrite (IH f' _ _ _ E2) by lia.
Qed.

(** A backslash before a line end, outside strings and comments, is never passed. *)
Lemma parse_list_stuck fuel p closing c r :
  input p = slash :: c :: r -> css_syntax_newline c = true ->
  match closing with Some d => d <> slash | None => True end ->
  css_syntax_parse_list fuel p closing = None.
Proof.
  revert p. induction fuel as [|f IH]; intros p E Hc Hd; [done|]. cbn [css_syntax_parse_list]. rewrite E.
  change (slash =c "/") with false. cbn [andb].
  assert (match closing with Some d => slash =c d | None => false end = false) as ->.
  { destruct closing; [|done]. apply Ascii.eqb_neq. congruence. }
  change (is_closer slash) with false.
  assert (X : exists x, css_syntax_consume (css_syntax_parse_list f) p = Some (x, advance 0 p)).
  { unfold css_syntax_consume. rewrite E. cbn [at_ nth].
    change (css_syntax_whitespace slash) with false. change ((slash =c dquote) || (slash =c "'")) with false.
    assert (css_syntax_starts_number (slash :: c :: r) = false) as -> by done.
    change (slash =c "@") with false. change (slash =c "#") with false. cbn [andb].
    change (css_syntax_name_start slash || (slash =c "-") || (slash =c slash)) with true.
    unfold css_syntax_consume_ident. cbn [orb negb andb].
    assert (css_syntax_name_end (input p) = 0) as ->.
    { rewrite E. unfold css_syntax_name_end. cbn -[css_syntax_escape_end].
      assert (css_syntax_escape_end (slash :: c :: r) = 0) as ->; [|done].
      unfold css_syntax_escape_end. change (negb (slash =c slash)) with false. rewrite Hc.
      destruct (is_xdigit c) eqn:Ex; [|done]. exfalso. revert Hc Ex. clear.
      assert (css_syntax_newline c && is_xdigit c = false) as H by (apply negb_true_iff; by_bytes c).
      intros H1 H2. by rewrite H1, H2 in H. }
    cbn [advance input]. rewrite drop_0, E. change (head_is (fun c => c =c "(") (slash :: c :: r)) with false.
    by eexists. }
  destruct X as [x ->]. rewrite IH; [done| |done|done]. cbn. by rewrite drop_0.
Qed.

(** ** What a token is

    The tokens of the grammar, described without the code: a text [t] that is an
    escape, a name or a number when [r] is the rest of the input behind it. *)

Module Grammar.
Definition hex_escape (ds ws r : bytes) : Prop :=
  1 <= length ds <= 6 /\ allb is_xdigit ds = true /\
  ((exists w, ws = [w] /\ css_syntax_whitespace w = true) \/
   (ws = [] /\ stops css_syntax_whitespace r /\ (length ds = 6 \/ stops is_xdigit r))).

Inductive escape : bytes -> bytes -> Prop :=
| escape_hex ds ws r : hex_escape ds ws r -> escape (slash :: ds ++ ws) r
| escape_char c r : is_xdigit c = false -> css_syntax_newline c = false -> escape [slash; c] r
| escape_end : escape [slash] [].

(** Name characters and escapes. *)
Inductive name_text : bytes -> bytes -> Prop :=
| name_nil r : name_text [] r
| name_char c t r : css_syntax_name c = true -> name_text t r -> name_text (c :: t) r
| name_escape e t r : escape e (t ++ r) -> name_text t r -> name_text (e ++ t) r.

(** A name ends before anything that cannot go on with it. *)
Definition name_stop (r : bytes) : Prop :=
  match r with
  | [] => True
  | c :: r' => css_syntax_name c = false /\ (c = slash -> head_is css_syntax_newline r' = true)
  end.
Definition name (t r : bytes) : Prop := name_text t r /\ name_stop r.
Definition ident_first (c : ascii) : bool := css_syntax_name_start c || (c =c "-") || (c =c slash).

(** A number: a sign, digits, a fraction and an exponent, each as far as it goes. *)
Definition sign (t : bytes) : Prop := t = [] \/ t = $"+" \/ t = $"-".
Definition digits1 (t : bytes) : Prop := t <> [] /\ allb is_digit t = true.
Definition fraction (t r : bytes) : Prop :=
  (exists ds, t = $"." ++ ds /\ digits1 ds /\ stops is_digit r) \/
  (t = [] /\ match r with "."%char :: d :: _ => is_digit d = false | _ => True end).
Definition exponent (t r : bytes) : Prop :=
  (exists e sg ds, t = [e] ++ sg ++ ds /\ (e = "e"%char \/ e = "E"%char) /\ sign sg /\ digits1 ds /\ stops is_digit r) \/
  (t = [] /\ forall e sg ds r', r = [e] ++ sg ++ ds ++ r' -> (e = "e"%char \/ e = "E"%char) -> sign sg -> ~ digits1 ds).
Definition number (t r : bytes) : Prop :=
  exists sg ds fr ex, t = sg ++ ds ++ fr ++ ex /\ sign sg /\ allb is_digit ds = true /\
    stops is_digit (fr ++ ex ++ r) /\ fraction fr (ex ++ r) /\ exponent ex r /\ ds ++ fr <> [].

(** The body of a string quoted by [q]. *)
Inductive string_text (q : ascii) : bytes -> bytes -> Prop :=
| string_nil r : string_text q [] r
| string_char c t r :
    c <> q -> css_syntax_newline c = false -> (c = slash -> t ++ r = []) -> string_text q t r ->
    string_text q (c :: t) r
| string_escape e t r : escape e (t ++ r) -> length e <> 1 -> string_text q t r -> string_text q (e ++ t) r.

Lemma take_upto_spec n f s :
  let '(a, b) := take_upto n f s in
  s = a ++ b /\ allb f a = true /\ length a <= n /\ (length a = n \/ stops f b).
Proof.
  revert s. induction n as [|n IH]; intros s; cbn; [by auto|]. destruct s as [|c s]; [cbn; by auto with lia|].
  destruct (f c) eqn:E; [|cbn; rewrite E; repeat split; auto; lia].
  specialize (IH s). destruct (take_upto n f s) as [a b]. destruct IH as (-> & Ha & Hl & Hs).
  cbn. rewrite E, Ha. repeat split; auto; [lia|]. destruct Hs; auto.
Qed.

Lemma escape_end_spec s :
  head_is (Ascii.eqb slash) s = true ->
  match css_syntax_escape_end s with
  | 0 => exists d r, s = slash :: d :: r /\ css_syntax_newline d = true
  | n => escape (take n s) (drop n s) /\ (length (take n s) = 1 -> s = [slash])
  end.
Proof.
  destruct s as [|c s]; [done|]. cbn [head_is]. intros E. apply Ascii.eqb_eq in E as <-.
  unfold css_syntax_escape_end. change (negb (slash =c slash)) with false. cbv iota.
  destruct s as [|d s]; [split; [constructor|done]|].
  destruct (is_xdigit d) eqn:Ex; [|destruct (css_syntax_newline d) eqn:En; [eauto|]; split; [by constructor|done]].
  pose proof (take_upto_spec 6 is_xdigit (d :: s)) as T.
  assert (L : fst (take_upto 6 is_xdigit (d :: s)) <> []) by (change (take_upto 6 is_xdigit (d :: s)) with
      (if is_xdigit d then let '(a, b) := take_upto 5 is_xdigit s in (d :: a, b) else ([], d :: s));
      rewrite Ex; by destruct (take_upto 5 is_xdigit s)).
  destruct (take_upto 6 is_xdigit (d :: s)) as [a b]. cbn [fst snd] in *. destruct T as (-> & Ha & Hl & Hs).
  assert (L1 : 1 <= length a) by (destruct a; [done|cbn; lia]).
  cbn [Nat.add take drop]. destruct b as [|w b]; cbn [head_is].
  - rewrite Nat.add_0_r, app_nil_r, firstn_all, drop_all. cbn [length]. split; [|intros; lia].
    rewrite <- (app_nil_r a). constructor. split; [done|]. split; [done|]. right. split; [done|]. split; [done|]. by right.
  - destruct (css_syntax_whitespace w) eqn:Ew.
    + rewrite take_app_add, drop_app_add. cbn [take drop]. split; [|cbn; rewrite length_app; cbn; lia].
      constructor. split; [done|]. split; [done|]. left. by exists w.
    + rewrite Nat.add_0_r, take_app_length, drop_app_length. split; [|cbn; lia].
      rewrite <- (app_nil_r a). constructor. split; [done|]. split; [done|]. right. split; [done|]. split; [by cbn|]. exact Hs.
Qed.

Lemma name_end_spec fuel s :
  length s <= fuel -> name (take (name_end fuel s) s) (drop (name_end fuel s) s).
Proof.
  revert s. induction fuel as [|f IH]; intros s Hl.
  { destruct s; [|cbn in Hl; lia]. split; [constructor|done]. }
  destruct s as [|c s]; [split; [constructor|done]|]. cbn [name_end]. cbn [length] in Hl.
  destruct (css_syntax_name c) eqn:Ec.
  - destruct (IH s) as [I1 I2]; [lia|]. split; [by constructor|exact I2].
  - destruct (c =c slash) eqn:Es; [|split; [constructor|split; [done|by intros ->]]].
    apply Ascii.eqb_eq in Es as ->. pose proof (escape_end_spec (slash :: s) eq_refl) as E.
    destruct (css_syntax_escape_end (slash :: s)) as [|n] eqn:En.
    + destruct E as (d & r & E & Hd). split; [constructor|]. split; [done|]. intros _. injection E as ->. exact Hd.
    + destruct E as [E _]. destruct (IH (drop (S n) (slash :: s))) as [I1 I2]; [rewrite length_drop; cbn [length]; lia|].
      set (m := name_end f _) in *. rewrite <- take_take_drop, <- drop_drop. split; [|done].
      constructor; [|done]. by rewrite take_drop.
Qed.

Lemma css_name_end_spec s : name (take (css_syntax_name_end s) s) (drop (css_syntax_name_end s) s).
Proof. by apply name_end_spec. Qed.

Lemma digits_of c s : is_digit c = true -> digits1 (take (1 + digits_len s) (c :: s)) /\ stops is_digit (drop (1 + digits_len s) (c :: s)).
Proof.
  intros Hc. unfold digits_len. cbn [Nat.add take drop].
  pose proof (take_drop_while is_digit s) as E. pose proof (drop_while_stops is_digit s) as S.
  pose proof (take_while_forall is_digit s) as F.
  set (a := take_while is_digit s) in *. set (b := drop_while is_digit s) in *. rewrite <- E.
  rewrite take_app_length, drop_app_length. split; [|exact S]. split; [done|]. cbn. by rewrite Hc.
Qed.

Lemma fraction_spec k : fraction (take (fraction_len k) k) (drop (fraction_len k) k).
Proof.
  destruct k as [|c [|d k]]; [right; by split|right; split; [done|]; by destruct c as [[] [] [] [] [] [] [] []]|].
  cbn [fraction_len]. destruct ((c =c ".") && is_digit d) eqn:E.
  - apply andb_prop in E as [E1 E2]. apply Ascii.eqb_eq in E1 as ->. left.
    assert (D : digits_len (d :: k) = 1 + digits_len k) by (unfold digits_len; cbn [take_while]; by rewrite E2).
    rewrite D. destruct (digits_of d k E2) as [H1 H2]. exists (take (1 + digits_len k) (d :: k)). by split.
  - right. split; [done|]. cbn [drop]. destruct (Ascii.eqb_spec c "."); subst; [by cbn in E|].
    destruct c as [[] [] [] [] [] [] [] []]; done.
Qed.

Lemma digit_not_sign x : is_digit x = true -> (x =c "+") || (x =c "-") = false.
Proof.
  assert (H : implb (is_digit x) (negb ((x =c "+") || (x =c "-"))) = true) by by_bytes x.
  intros E. rewrite E in H. by apply negb_true_iff in H.
Qed.

Lemma exponent_spec k : exponent (take (exponent_len k) k) (drop (exponent_len k) k).
Proof.
  destruct k as [|c s]; [right; split; [done|]; intros; done|]. cbn [exponent_len].
  destruct ((c =c "e") || (c =c "E")) eqn:E.
  2:{ right. split; [done|]. intros e sg ds r' [= -> ->] [-> | ->]; done. }
  set (sgn := if head_is _ s then 1 else 0).
  assert (Sg : sign (take sgn s) /\ sgn <= length s).
  { unfold sgn. destruct s as [|x s]; cbn [head_is]; [split; [by left|done]|].
    destruct ((x =c "+") || (x =c "-")) eqn:Ex; [|split; [by left|cbn; lia]]. split; [|cbn; lia].
    apply orb_prop in Ex as [Ex|Ex]; apply Ascii.eqb_eq in Ex as ->; [right; by left|by right; right]. }
  destruct Sg as [Sg Lg]. destruct (drop sgn s) as [|d t] eqn:Ed; cbn [head_is]; [|destruct (is_digit d) eqn:Edd].
  1, 3: right; split; [done|]; cbn [drop]; intros e sg ds r' [= -> ->] _ Hs [Hn Hd];
    (destruct ds as [|x ds]; [done|]); cbn [allb forallb] in Hd; apply andb_prop in Hd as [Hx _];
    unfold sgn in Ed; destruct Hs as [-> |[-> | ->]]; cbn in Ed;
    try (injection Ed as <- _; congruence); try done;
    pose proof (digit_not_sign x Hx) as Nx; cbn [head_is app] in Ed; rewrite ?Nx in Ed; cbn in Ed; try done; injection Ed as -> _; congruence.
  left. assert (D : digits_len (d :: t) = 1 + digits_len t) by (unfold digits_len; cbn [take_while]; by rewrite Edd).
  rewrite D. destruct (digits_of d t Edd) as [H1 H2].
  exists c, (take sgn s), (take (1 + digits_len t) (d :: t)).
  assert (Es : s = take sgn s ++ d :: t) by (rewrite <- Ed; by rewrite firstn_skipn).
  split; [|split; [apply orb_prop in E as [E|E]; apply Ascii.eqb_eq in E; auto|split; [done|split; [done|]]]].
  - cbn [Nat.add take app]. f_equal. replace (sgn + (1 + digits_len t)) with (sgn + S (digits_len t)) by lia.
    rewrite <- take_take_drop, Ed. done.
  - change (1 + sgn + (1 + digits_len t)) with (S (sgn + (1 + digits_len t))). cbn [drop].
    rewrite <- drop_drop, Ed. exact H2.
Qed.

Lemma take_while_cut (f : ascii -> bool) (s : bytes) :
  take (length (take_while f s)) s = take_while f s /\ drop (length (take_while f s)) s = drop_while f s.
Proof.
  pose proof (take_drop_while f s) as E. set (a := take_while f s) in *. set (b := drop_while f s) in *.
  rewrite <- E. by rewrite take_app_length, drop_app_length.
Qed.

Lemma number_end_spec s :
  css_syntax_starts_number s = true ->
  number (take (css_syntax_number_end s) s) (drop (css_syntax_number_end s) s).
Proof.
  intros Hs. unfold css_syntax_number_end. set (g := if head_is _ s then 1 else 0). set (s1 := drop g s).
  set (s2 := drop (digits_len s1) s1). set (f := fraction_len s2).
  assert (E2 : drop (g + digits_len s1) s = s2) by (unfold s2, s1; by rewrite drop_drop).
  cbv zeta. rewrite E2. fold f. set (s3 := drop f s2).
  assert (E3 : drop (g + digits_len s1 + f) s = s3) by (unfold s3; rewrite <- E2; by rewrite drop_drop).
  rewrite E3. set (x := exponent_len s3).
  exists (take g s), (take (digits_len s1) s1), (take f s2), (take x s3).
  assert (T : take (digits_len s1) s1 = take_while is_digit s1 /\ s2 = drop_while is_digit s1).
  { apply take_while_cut. }
  destruct T as [T1 T2].
  assert (R : drop (g + digits_len s1 + f + x) s = drop x s3) by (rewrite <- E3; by rewrite drop_drop).
  rewrite R. split.
  { rewrite <- (take_take_drop s (g + digits_len s1 + f) x), E3, <- (take_take_drop s (g + digits_len s1) f), E2,
      <- (take_take_drop s g (digits_len s1)). fold s1. by rewrite <- !app_assoc. }
  split.
  { unfold g. destruct s as [|c s]; [by left|]. cbn [head_is]. destruct ((c =c "+") || (c =c "-")) eqn:E; [|by left].
    apply orb_prop in E as [E|E]; apply Ascii.eqb_eq in E as ->; [right; by left|by right; right]. }
  split; [rewrite T1; apply take_while_forall|]. rewrite !firstn_skipn. split; [rewrite T2; apply drop_while_stops|].
  split; [apply fraction_spec|]. split; [apply exponent_spec|]. rewrite T1. intros N. apply app_eq_nil in N as [N1 N2].
  assert (Z : forall d k, s1 = d :: k -> is_digit d = true -> False) by (intros d k Es Hd; rewrite Es in N1; cbn in N1; by rewrite Hd in N1).
  assert (F : forall d k, s1 = "."%char :: d :: k -> is_digit d = true -> False).
  { intros d k Es Hd. assert (S2 : s2 = s1) by (unfold s2, digits_len; by rewrite N1).
    unfold f in N2. rewrite S2, Es in N2. cbn [fraction_len] in N2. change ("." =c ".") with true in N2. by rewrite Hd in N2. }
  clear - Hs Z F. destruct s as [|a s]; [done|]. unfold s1, g in Z, F. cbn [head_is] in Z, F. unfold css_syntax_starts_number in Hs.
  destruct (is_digit a) eqn:Ea.
  { rewrite (digit_not_sign a Ea) in Z. by apply (Z a s). }
  destruct (a =c ".") eqn:Ed.
  { apply Ascii.eqb_eq in Ed as ->. destruct s as [|b s]; [done|]. by apply (F b s). }
  destruct ((a =c "+") || (a =c "-")); [|done]. cbn [drop] in Z, F. destruct s as [|b s]; [done|].
  unfold at_ in Hs. cbn [nth] in Hs. destruct (is_digit b) eqn:Eb; [by apply (Z b s)|]. cbn [orb] in Hs.
  apply andb_prop in Hs as [Hb Hc]. apply Ascii.eqb_eq in Hb as ->. destruct s as [|c s]; [done|]. by apply (F c s).
Qed.

(** What a number is a prefix of begins with one, for the code. *)
Lemma number_starts n r : number n r -> css_syntax_starts_number (n ++ r) = true.
Proof.
  intros (sg & ds & fr & ex & -> & Hsg & Hds & _ & Hfr & _ & Hne). rewrite <- !app_assoc.
  assert (K : exists a t, ds ++ fr ++ ex ++ r = a :: t /\
    (is_digit a = true \/ (a = "."%char /\ exists d t', t = d :: t' /\ is_digit d = true))).
  { destruct ds as [|a ds].
    - destruct Hfr as [(d & -> & (Hd & Hd') & _)|[-> _]]; [|done]. destruct d as [|d ds]; [done|].
      eexists _, _. split; [done|]. right. split; [done|]. exists d. eexists. split; [done|].
      cbn in Hd'. by apply andb_prop in Hd' as [? _].
    - cbn in Hds. apply andb_prop in Hds as [Ha _]. eexists _, _. split; [done|]. by left. }
  destruct K as (a & t & -> & Ha).
  assert (P : forall c t', c = "+"%char \/ c = "-"%char -> css_syntax_starts_number (c :: t') =
                is_digit (at_ t' 0) || ((at_ t' 0 =c ".") && is_digit (at_ t' 1))).
  { intros c t' [-> | ->]; reflexivity. }
  destruct Hsg as [-> |Hsg].
  - destruct Ha as [Hd|[-> (d & t' & -> & Hd)]]; cbn [app css_syntax_starts_number]; [by rewrite Hd|exact Hd].
  - destruct Hsg as [-> | ->];
      [change ($"+" ++ ?x) with ("+"%char :: x)|change ($"-" ++ ?x) with ("-"%char :: x)]; rewrite P by auto; destruct Ha as [Hd|[-> (d & t' & -> & Hd)]]; unfold at_; cbn [nth];
      rewrite Hd; done.
Qed.

Lemma string_loop_spec fuel t q n v ok :
  string_loop fuel t q = (n, v, ok) -> length t <= fuel ->
  exists e, take n t = v ++ e /\ string_text q v (e ++ drop n t) /\
    ((e = [q] /\ ok = true) \/ (e = [] /\ drop n t = [] /\ n = length t /\ ok = true) \/
     (ok = false /\ exists c, e = [c] /\ (css_syntax_newline c = true \/ (c = slash /\ head_is css_syntax_newline (drop n t) = true)))).
Proof.
  revert t n v ok. induction fuel as [|f IH]; intros t n v ok H Hl.
  { destruct t; [|cbn in Hl; lia]. cbn in H. injection H as <- <- <-. exists []. split; [done|]. split; [constructor|auto 10]. }
  destruct t as [|c t]; cbn -[css_syntax_escape_end take drop] in H.
  { injection H as <- <- <-; exists []. split; [done|]. split; [constructor|auto 10]. }
  cbn [length] in Hl.
  destruct (c =c q) eqn:Eq.
  { injection H as <- <- <-. apply Ascii.eqb_eq in Eq as ->. exists [q]. split; [done|]. split; [constructor|auto 10]. }
  destruct (css_syntax_newline c) eqn:En.
  { injection H as <- <- <-. exists [c]. split; [done|]. split; [constructor|]. right. right. eauto. }
  destruct ((c =c slash) && negb (t =b [])) eqn:Es.
  - apply andb_prop in Es as [Es Et]. apply Ascii.eqb_eq in Es as ->.
    pose proof (escape_end_spec (slash :: t) eq_refl) as X. pose proof (escape_end_le (slash :: t)) as Le.
    destruct (css_syntax_escape_end (slash :: t)) as [|m] eqn:Em.
    { destruct X as (d & r & X & Hd). injection X as ->. injection H as <- <- <-. exists [slash]. split; [done|].
      split; [constructor|]. right. right. split; [done|]. exists slash. split; [done|]. by right. }
    destruct X as [X X1]. assert (Ne : length (take (S m) (slash :: t)) <> 1).
    { intros E1. apply X1 in E1. injection E1 as ->. done. }
    destruct (string_loop f (drop (S m) (slash :: t)) q) as [[k v'] ok'] eqn:E. injection H as <- <- <-.
    destruct (IH _ _ _ _ E) as (e & Ht & Tx & C); [rewrite length_drop; cbn [length]; lia|].
    change (slash :: take m t) with (take (S m) (slash :: t)).
    assert (Dr : drop (S (m + k)) (slash :: t) = drop k (drop (S m) (slash :: t))) by (rewrite drop_drop; done).
    assert (Tk : take (S (m + k)) (slash :: t) = (take (S m) (slash :: t) ++ v') ++ e).
    { rewrite <- app_assoc, <- Ht. by rewrite take_take_drop. }
    rewrite Dr. exists e. split; [exact Tk|]. split.
    + apply (string_escape q (take (S m) (slash :: t)) v'); [|done|done].
      rewrite app_assoc, <- Ht, firstn_skipn. exact X.
    + destruct C as [C|[(-> & -> & -> & ->)|C]]; [by left| |by right; right].
      right. left. split; [done|]. split; [done|]. split; [rewrite length_drop; cbn [length] in *; lia|done].
  - destruct (string_loop f t q) as [[k v'] ok'] eqn:E. injection H as <- <- <-.
    destruct (IH _ _ _ _ E) as (e & Ht & Tx & C); [lia|]. exists e. cbn [take drop Nat.add].
    split; [by rewrite Ht|]. split.
    + constructor; [by apply Ascii.eqb_neq|done| |done]. intros ->. change (slash =c slash) with true in Es. cbn [andb] in Es.
      apply negb_false_iff in Es. destruct t; [|done]. rewrite app_assoc, <- Ht, firstn_skipn. done.
    + destruct C as [C|[(-> & D & -> & ->)|C]]; [by left| |by right; right]. right. left. auto.
Qed.
End Grammar.
Import Grammar.

(** ** What the components are

    [comp_ok], [enclosed] and [tiles] describe a component by the piece of the text
    [s] it spans and the rest of the text behind it: each token is one of its kind,
    as long as that kind allows, and its value is the piece without its marks; the
    components of a list follow one another with nothing but comments between them,
    and a block or function ends with its closer or with the text. With [strict],
    which a valid parse gives, no closer is stray or mismatched and every string is
    whole. *)
Section Text.
Variables (s : bytes) (strict : bool).

Definition sub (lo hi : nat) : bytes := take (hi - lo) (drop lo s).

Definition string_end (q : ascii) (e rest : bytes) : Prop :=
  e = [q] \/ (e = [] /\ rest = []) \/
  (strict = false /\ exists c, e = [c] /\
     (css_syntax_newline c = true \/ (c = slash /\ head_is css_syntax_newline rest = true))).

Definition no_number (t : bytes) : Prop := forall n r, t = n ++ r -> ~ number n r.

(** A byte that stands for itself: nothing longer begins with it. *)
Definition delim (d : ascii) (rest : bytes) : Prop :=
  css_syntax_whitespace d = false /\ d <> dquote /\ d <> "'"%char /\ ident_first d = false /\
  closer_of d = None /\ is_closer d = false /\ d <> ":"%char /\ d <> ";"%char /\ d <> ","%char /\
  (d = "@"%char -> stops ident_first rest) /\ (d = "#"%char -> stops css_syntax_name rest) /\
  (d = "/"%char -> stops (Ascii.eqb "*") rest) /\ no_number (d :: rest).

Definition leaf_ok (ty : ns_css_component_type) (text rest : bytes) (v : option bytes)
    (num : bytes) (d : ascii) : Prop :=
  match ty with
  | NS_CSS_COMPONENT_WHITESPACE =>
      v = None /\ text <> [] /\ allb css_syntax_whitespace text = true /\ stops css_syntax_whitespace rest
  | NS_CSS_COMPONENT_IDENT =>
      v = Some text /\ name text rest /\ head_is ident_first (text ++ rest) = true /\
      stops (Ascii.eqb "(") rest /\ no_number (text ++ rest)
  | NS_CSS_COMPONENT_AT_KEYWORD =>
      exists n, v = Some n /\ text = $"@" ++ n /\ name n rest /\ head_is ident_first (n ++ rest) = true
  | NS_CSS_COMPONENT_HASH =>
      exists n, v = Some n /\ text = $"#" ++ n /\ name n rest /\ head_is css_syntax_name (n ++ rest) = true
  | NS_CSS_COMPONENT_STRING =>
      exists body e, v = Some body /\ text = [d] ++ body ++ e /\ string_text d body (e ++ rest) /\
        string_end d e rest /\ (d = dquote \/ d = "'"%char)
  | NS_CSS_COMPONENT_NUMBER =>
      v = Some [] /\ text = num /\ number num rest /\ stops (fun c => (c =c "%") || ident_first c) rest
  | NS_CSS_COMPONENT_PERCENTAGE => v = Some ($"%") /\ text = num ++ $"%" /\ number num ($"%" ++ rest)
  | NS_CSS_COMPONENT_DIMENSION =>
      exists u, v = Some u /\ text = num ++ u /\ number num (u ++ rest) /\ name u rest /\
        head_is ident_first (u ++ rest) = true
  | NS_CSS_COMPONENT_COLON => v = None /\ text = $":" /\ d = ":"%char
  | NS_CSS_COMPONENT_SEMICOLON => v = None /\ text = $";" /\ d = ";"%char
  | NS_CSS_COMPONENT_COMMA => v = None /\ text = $"," /\ d = ","%char
  | NS_CSS_COMPONENT_DELIM => v = None /\ text = [d] /\ delim d rest
  | NS_CSS_COMPONENT_FUNCTION | NS_CSS_COMPONENT_BLOCK => False
  end.

(** The text of a comment: it ends with the first end mark, or with the text. *)
Definition comment_text (t rest : bytes) : Prop :=
  (exists body, t = $"/*" ++ body ++ $"*/" /\ forall a b, body ++ $"*/" = a ++ $"*/" ++ b -> b = []) \/
  (rest = [] /\ exists body, t = $"/*" ++ body /\ forall a b, body <> a ++ $"*/" ++ b).

Inductive comp_ok : ns_css_component -> Prop :=
| leaf_comp ty lo hi v num d :
    leaf_ok ty (sub lo hi) (drop hi s) v num d -> comp_ok (Component ty lo hi v num None d)
| function_comp lo m hi n l :
    sub lo m = n ++ $"(" -> lo <= m -> name n ($"(" ++ drop m s) ->
    head_is ident_first n = true -> no_number (n ++ $"(" ++ drop m s) -> enclosed m hi ")" l ->
    comp_ok (Component NS_CSS_COMPONENT_FUNCTION lo hi (Some n) [] (Some l) ")")
| block_comp lo hi c d l :
    sub lo (S lo) = [c] -> closer_of c = Some d -> enclosed (S lo) hi d l ->
    comp_ok (Component NS_CSS_COMPONENT_BLOCK lo hi None [] (Some l) d)
with enclosed : nat -> nat -> ascii -> list ns_css_component -> Prop :=
| enclosed_closed lo m d l : tiles lo m l -> sub m (S m) = [d] -> enclosed lo (S m) d l
| enclosed_other lo m c d l :
    strict = false -> tiles lo m l -> sub m (S m) = [c] -> is_closer c = true -> enclosed lo (S m) d l
| enclosed_open lo d l : tiles lo (length s) l -> enclosed lo (length s) d l
with tiles : nat -> nat -> list ns_css_component -> Prop :=
| tiles_nil lo : tiles lo lo []
| tiles_comment lo m hi l :
    lo <= m -> comment_text (sub lo m) (drop m s) -> tiles m hi l -> tiles lo hi l
| tiles_stray lo c hi l :
    strict = false -> sub lo (S lo) = [c] -> is_closer c = true -> tiles (S lo) hi l -> tiles lo hi l
| tiles_cons c hi l :
    c_start c <= c_end c -> comp_ok c -> tiles (c_end c) hi l -> tiles (c_start c) hi (c :: l).

(** The parser stands in the text where its offset says. *)
Definition stands (p : ns_css_syntax_parser) : Prop :=
  input p = drop (offset p) s /\ offset p <= length s.

Lemma stands_left p : stands p -> left_of p = length s - offset p.
Proof. intros [H _]. unfold left_of. by rewrite H, length_drop. Qed.

Lemma stands_advance n p : stands p -> n <= left_of p -> stands (advance n p).
Proof.
  intros H Hn. pose proof (stands_left p H). destruct H as [E L]. split; cbn; [by rewrite E, drop_drop|lia].
Qed.
Lemma stands_invalid p : stands p -> stands (invalid p).
Proof. done. Qed.

Lemma sub_take p n : stands p -> sub (offset p) (offset p + n) = take n (input p).
Proof. intros [E _]. unfold sub. rewrite E. f_equal. lia. Qed.

Lemma sub_head p c r : stands p -> input p = c :: r -> sub (offset p) (S (offset p)) = [c].
Proof. intros H E. replace (S (offset p)) with (offset p + 1) by lia. by rewrite sub_take, E. Qed.

Lemma stands_drop p n : stands p -> drop (offset p + n) s = drop n (input p).
Proof. intros [E _]. by rewrite E, drop_drop. Qed.

Lemma enclosed_prepend lo lo' hi d l l' :
  (forall k, tiles lo k l -> tiles lo' k l') -> enclosed lo hi d l -> enclosed lo' hi d l'.
Proof.
  intros F H. inversion H; subst; [eapply enclosed_closed|eapply enclosed_other|eapply enclosed_open]; eauto.
Qed.

Lemma comment_len_text r :
  (exists body, take (comment_len r) r = body ++ $"*/" /\ forall a b, body ++ $"*/" = a ++ $"*/" ++ b -> b = []) \/
  (comment_len r = length r /\ forall a b, r <> a ++ $"*/" ++ b).
Proof.
  induction r as [|c r IH]; [right; split; [done|]; intros [] ?; done|]. cbn [comment_len]. destruct r as [|d r].
  { right. split; [done|]. intros [|x [|y a]] b; done. }
  destruct ((c =c "*") && (d =c "/")) eqn:E.
  - boolify. subst. left. exists []. split; [done|]. intros [|x [|y [|z a]]] b; try done; by intros [= <-].
  - assert (N : forall a b, c :: d :: r = a ++ $"*/" ++ b -> exists a', a = c :: a' /\ d :: r = a' ++ $"*/" ++ b).
    { intros [|x a] b E1; [|injection E1 as <- E1; by exists a]. injection E1 as -> -> _. done. }
    destruct IH as [(body & Hb & Hm)|[Hb Hm]]; [left|right; split; [cbn [length] in *; lia|]].
    + exists (c :: body). cbn [take]. rewrite Hb. split; [done|]. intros a b E1. destruct a as [|x a].
      * cbn [app] in E1. injection E1 as -> E1. exfalso.
        assert (T : exists k, d :: r = (body ++ $"*/") ++ k) by (exists (drop (comment_len (d :: r)) (d :: r)); rewrite <- Hb; by rewrite firstn_skipn).
        destruct T as [k T]. rewrite E1 in T. injection T as -> _. done.
      * injection E1 as _ E1. by apply (Hm a b).
    + intros a b (a' & _ & E1)%N. by apply (Hm a' b).
Qed.

Lemma skip_comment_ok p c r :
  stands p -> input p = c :: r -> (c =c "/") && head_is (fun d => d =c "*") r = true ->
  let p' := css_syntax_skip_comment p in
  stands p' /\ valid p' = valid p /\ offset p <= offset p' /\
  comment_text (sub (offset p) (offset p')) (drop (offset p') s).
Proof.
  intros Hs E H p'. boolify. subst c. destruct r as [|d r]; [done|]. cbn [head_is] in H0. boolify. subst d.
  assert (P : p' = advance (2 + comment_len r) p) by (subst p'; unfold css_syntax_skip_comment; by rewrite E).
  pose proof (comment_len_le r). assert (L : left_of p = 2 + length r) by (unfold left_of; by rewrite E).
  rewrite P. split; [apply stands_advance; [done|lia]|]. split; [done|]. cbn [offset advance].
  split; [lia|]. rewrite sub_take, stands_drop, E by done. cbn [take drop Nat.add].
  destruct (comment_len_text r) as [(body & Hb & Hm)|[Hb Hm]].
  - left. exists body. by rewrite Hb.
  - right. rewrite Hb, drop_all. split; [done|]. exists r. by rewrite firstn_all.
Qed.

(** The position after a successful step: further on, in the text, and valid only if
    the position before was. *)
Definition goes (p p' : ns_css_syntax_parser) : Prop :=
  stands p' /\ offset p <= offset p' /\ (valid p' = true -> valid p = true).

Lemma goes_advance n p : stands p -> n <= left_of p -> goes p (advance n p).
Proof. intros H Hn. split; [by apply stands_advance|]. cbn. split; [lia|done]. Qed.

Lemma goes_trans p q r : goes p q -> goes q r -> goes p r.
Proof. intros (_ & L1 & V1) (S2 & L2 & V2). split; [done|]. split; [lia|auto]. Qed.

(** A position is valid only if the one before was. *)
Lemma consume_valid pl p c p' :
  (forall q d l q', pl q d = Some (l, q') -> valid q' = true -> valid q = true) ->
  css_syntax_consume pl p = Some (c, p') -> valid p' = true -> valid p = true.
Proof.
  intros Hpl.
  assert (I : forall a h, css_syntax_consume_ident pl p a h = Some (c, p') -> valid p' = true -> valid p = true).
  { intros a h. unfold css_syntax_consume_ident. destruct (_ && _).
    - match goal with |- context [pl ?q ?d] => destruct (pl q d) as [[l p3]|] eqn:El; [|done] end.
      intros [= <- <-] V. apply Hpl in El; [|done]. by destruct (a || h).
    - intros [= <- <-] V. by destruct (a || h). }
  unfold css_syntax_consume.
  destruct (css_syntax_whitespace _); [by intros [= <- <-]|].
  destruct (_ || _).
  { unfold css_syntax_consume_string. destruct (string_loop _ _ _) as [[n v] []]; by intros [= <- <-]. }
  destruct (css_syntax_starts_number _).
  { unfold css_syntax_consume_numeric. destruct (if head_is _ _ then _ else _). by intros [= <- <-]. }
  destruct (_ && _); [apply I|]. destruct (_ && _); [apply I|]. destruct (_ || _ || _); [apply I|].
  destruct (closer_of _) as [d|]; [|by intros [= <- <-]].
  destruct (pl (advance 1 p) (Some d)) as [[l p2]|] eqn:El; [|done]. intros [= <- <-] V. by apply Hpl in El.
Qed.

Lemma parse_list_valid fuel p closing l p' :
  css_syntax_parse_list fuel p closing = Some (l, p') -> valid p' = true -> valid p = true.
Proof.
  revert p closing l p'. induction fuel as [|f IH]; intros p closing l p'; [done|]. cbn [css_syntax_parse_list].
  destruct (input p) as [|c r]; [by intros [= <- <-]|].
  destruct (_ && _); [intros S V; by apply IH in S|].
  destruct (match closing with Some d => _ | None => _ end); [by intros [= <- <-]|].
  destruct (is_closer c).
  { destruct closing; [by intros [= <- <-]|]. intros S V. by apply IH in S. }
  destruct (css_syntax_consume _ p) as [[x p1]|] eqn:Ec; [|done].
  destruct (css_syntax_parse_list f p1 closing) as [[l1 p2]|] eqn:El; [|done]. intros [= <- <-] V.
  apply IH in El; [|done]. eapply consume_valid; [|exact Ec|done]. eauto.
Qed.

Section Consume.
Variable pl : ns_css_syntax_parser -> option ascii -> option (list ns_css_component * ns_css_syntax_parser).
Hypothesis pl_ok : forall q d l q',
  stands q -> pl q (Some d) = Some (l, q') -> (strict = true -> valid q' = true) ->
  goes q q' /\ enclosed (offset q) (offset q') d l.

Definition consumed (p : ns_css_syntax_parser) (c : ns_css_component) (p' : ns_css_syntax_parser) : Prop :=
  goes p p' /\ c_start c = offset p /\ c_end c = offset p' /\ comp_ok c.

Lemma consume_leaf p n ty v num d :
  stands p -> n <= left_of p ->
  leaf_ok ty (take n (input p)) (drop n (input p)) v num d ->
  consumed p (Component ty (offset p) (offset (advance n p)) v num None d) (advance n p).
Proof.
  intros H Hn Hl. split; [by apply goes_advance|]. split; [done|]. split; [done|].
  apply leaf_comp. cbn [offset advance]. by rewrite sub_take, stands_drop.
Qed.

Lemma consume_string_ok p c p' r q :
  stands p -> input p = q :: r -> (q = dquote \/ q = "'"%char) ->
  css_syntax_consume_string p = (c, p') -> (strict = true -> valid p' = true) -> consumed p c p'.
Proof.
  intros H E Hq. unfold css_syntax_consume_string. rewrite E. change (at_ (q :: r) 0) with q. change (drop 1 (q :: r)) with r.
  pose proof (string_loop_le (length r) r q) as Ln.
  destruct (string_loop (length r) r q) as [[n v] ok] eqn:El. cbn [fst] in Ln.
  destruct (string_loop_spec _ _ _ _ _ _ El) as (e & Ht & Tx & C); [done|].
  assert (L : left_of p = S (length r)) by (unfold left_of; by rewrite E). intros [= <- <-] Hv.
  assert (K : leaf_ok NS_CSS_COMPONENT_STRING (take (1 + n) (input p)) (drop (1 + n) (input p)) (Some v) [] q).
  { rewrite E. cbn [take drop Nat.add]. exists v, e. split; [done|]. split; [cbn [app]; by rewrite Ht|]. split; [done|]. split; [|done].
    destruct C as [[-> ->]|[(-> & D & _ & ->)|[-> (x & -> & Hx)]]]; [by left|right; by left|].
    right. right. split; [|eauto]. destruct strict; [|done]. cbn in Hv. by specialize (Hv eq_refl). }
  pose proof (consume_leaf p (1 + n) _ _ _ _ H ltac:(lia) K) as (G & A & B & D).
  destruct ok; [by split|]. split; [|by repeat split]. destruct G as (S1 & O1 & _). split; [done|]. split; [done|]. done.
Qed.

Lemma take_add_drop n u (t : bytes) : take (n + u) t = take n t ++ take u (drop n t).
Proof. symmetry. apply take_take_drop. Qed.

Lemma take_drop_split n u (t : bytes) : take u (drop n t) ++ drop (n + u) t = drop n t.
Proof. by rewrite <- drop_drop, firstn_skipn. Qed.

Lemma consume_numeric_ok p : stands p -> css_syntax_starts_number (input p) = true ->
  let '(c, p') := css_syntax_consume_numeric p in consumed p c p'.
Proof.
  intros H Hs. unfold css_syntax_consume_numeric. pose proof (number_end_spec _ Hs) as N.
  set (n := css_syntax_number_end (input p)) in *.
  pose proof (number_end_le (input p)) as Ln. fold n in Ln. fold (left_of p) in Ln.
  set (rest := drop n (input p)) in *. assert (Lr : length rest = left_of p - n) by (subst rest; by rewrite length_drop).
  case_test; [|case_test]; cbv iota beta; apply consume_leaf; try done; cbn [leaf_ok].
  - destruct rest; [done|cbn [length] in *; lia].
  - rewrite take_add_drop. fold rest. destruct rest as [|x rest'] eqn:Er; [done|]. cbn [head_is] in *. boolify. subst.
    cbn [take]. split; [done|]. split; [done|]. rewrite <- drop_drop. fold rest. by rewrite Er.
  - pose proof (css_name_end_le rest). lia.
  - pose proof (css_name_end_spec rest) as M. rewrite take_add_drop, <- drop_drop. fold rest. eexists.
    split; [done|]. split; [done|]. rewrite firstn_skipn. split; [done|]. by split.
  - lia.
  - rewrite Nat.add_0_r. split; [done|]. split; [done|]. split; [done|]. fold rest.
    unfold ident_first. destruct rest as [|y rest']; [done|]. cbn [stops head_is] in *. by rewrite Heqb, Heqb0.
Qed.

Lemma no_number_of t : css_syntax_starts_number t = false -> no_number t.
Proof. intros H n r -> N. apply number_starts in N. congruence. Qed.

Lemma advance_advance n k p : advance n (advance k p) = advance (k + n) p.
Proof. unfold advance. cbn. rewrite drop_drop. f_equal. lia. Qed.

(** A name, behind [@] or [#]. *)
Lemma consume_marked_ok p (at_sign hash : bool) c p' x r :
  stands p -> input p = x :: r ->
  (at_sign = true /\ hash = false /\ x = "@"%char /\ head_is ident_first r = true) \/
  (at_sign = false /\ hash = true /\ x = "#"%char /\ head_is css_syntax_name r = true) ->
  css_syntax_consume_ident pl p at_sign hash = Some (c, p') -> consumed p c p'.
Proof.
  intros H E Ha. unfold css_syntax_consume_ident.
  assert (L : left_of p = S (length r)) by (unfold left_of; by rewrite E).
  assert (I : input (advance 1 p) = r) by (cbn [advance input]; by rewrite E).
  pose proof (css_name_end_le r) as Ln. pose proof (css_name_end_spec r) as N.
  destruct Ha as [(-> & -> & -> & Hh)|(-> & -> & -> & Hh)]; cbn [orb negb andb]; cbv iota; rewrite I, advance_advance;
    intros [= <- <-]; (apply consume_leaf; [done|lia|]); cbn [leaf_ok]; rewrite E; cbn [take drop Nat.add];
    eexists; (split; [done|]); (split; [done|]); (split; [done|]); by rewrite firstn_skipn.
Qed.

(** A name that starts no number: an identifier, or a function with its arguments. *)
Lemma consume_ident_ok p c p' x r :
  stands p -> input p = x :: r -> ident_first x = true -> css_syntax_starts_number (x :: r) = false ->
  css_syntax_consume_ident pl p false false = Some (c, p') -> (strict = true -> valid p' = true) -> consumed p c p'.
Proof.
  intros H E Hx Hn. unfold css_syntax_consume_ident. assert (L : left_of p = S (length r)) by (unfold left_of; by rewrite E).
  cbn [orb negb andb]. cbv iota. pose proof (css_name_end_le (input p) : _ <= left_of p) as Ln.
  pose proof (css_name_end_spec (input p)) as N. set (n := css_syntax_name_end (input p)) in *. clearbody n.
  assert (Sp : take n (input p) ++ drop n (input p) = x :: r) by (rewrite firstn_skipn; done).
  destruct (head_is _ _) eqn:Eh.
  - match goal with |- context [pl ?q ?d] => destruct (pl q d) as [[l p3]|] eqn:El; [|done] end. intros [= <- <-] Hv.
    destruct (input (advance n p)) as [|y r2] eqn:E2; [done|]. cbn [head_is] in Eh. boolify. subst y. cbn in E2.
    assert (L2 : n < left_of p).
    { apply (f_equal length) in E2. rewrite length_drop in E2. cbn in E2. unfold left_of. lia. }
    rewrite advance_advance in El. apply pl_ok in El as [G En]; [|apply stands_advance; [done|lia]|done].
    assert (G1 : goes p (advance (n + 1) p)) by (apply goes_advance; [done|lia]).
    split; [by eapply goes_trans|]. split; [done|]. split; [done|].
    assert (D : drop (offset p + (n + 1)) s = r2) by (rewrite stands_drop, <- drop_drop, E2 by done; done).
    eapply (function_comp (offset p) (offset p + (n + 1))); [|lia| | | |exact En]; rewrite ?D.
    + rewrite sub_take, take_add_drop, E2 by done. done.
    + change ($"(" ++ r2) with ("("%char :: r2). by rewrite <- E2.
    + destruct n as [|n]; [|by rewrite E]. cbn in E2. rewrite E in E2. injection E2 as -> _. done.
    + change ($"(" ++ r2) with ("("%char :: r2). rewrite <- E2, Sp. by apply no_number_of.
  - intros [= <- <-] _. apply consume_leaf; [done|lia|]. cbn [leaf_ok]. rewrite Sp. cbn [head_is].
    split; [done|]. split; [done|]. split; [done|]. split; [|by apply no_number_of].
    cbn [advance input] in Eh. destruct (drop n (input p)) as [|y r2]; [done|]. cbn [head_is stops] in *.
    rewrite Ascii.eqb_sym. exact Eh.
Qed.

Lemma delim_of x r ty :
  css_syntax_whitespace x = false -> (x =c dquote) || (x =c "'") = false ->
  css_syntax_starts_number (x :: r) = false ->
  (x =c "@") && head_is (fun d => css_syntax_name_start d || (d =c "-") || (d =c slash)) r = false ->
  (x =c "#") && head_is css_syntax_name r = false -> ident_first x = false ->
  closer_of x = None -> is_closer x = false -> (x =c "/") && head_is (fun d => d =c "*") r = false ->
  ty = (if x =c ":" then NS_CSS_COMPONENT_COLON else if x =c ";" then NS_CSS_COMPONENT_SEMICOLON
        else if x =c "," then NS_CSS_COMPONENT_COMMA else NS_CSS_COMPONENT_DELIM) ->
  leaf_ok ty [x] r None [] x.
Proof.
  intros Hw Hq Hn Ha Hh Hi Hc Hcl Hco ->. apply orb_false_iff in Hq as [Hq1 Hq2].
  destruct (x =c ":") eqn:E1; [boolify; by subst|]. destruct (x =c ";") eqn:E2; [boolify; by subst|].
  destruct (x =c ",") eqn:E3; [boolify; by subst|]. split; [done|]. split; [done|].
  repeat match goal with |- delim _ _ => unfold delim | |- _ /\ _ => split end; try done;
    try (by apply Ascii.eqb_neq); try (intros ->).
  - destruct r as [|y r]; [done|]. exact Ha.
  - destruct r as [|y r]; [done|]. exact Hh.
  - destruct r as [|y r]; [done|]. cbn [stops]. rewrite Ascii.eqb_sym. exact Hco.
  - by apply no_number_of.
Qed.

Lemma consume_ok p c p' x r :
  stands p -> input p = x :: r -> is_closer x = false -> (x =c "/") && head_is (fun d => d =c "*") r = false ->
  css_syntax_consume pl p = Some (c, p') -> (strict = true -> valid p' = true) -> consumed p c p'.
Proof.
  intros H E Hcl Hco. assert (L : left_of p = S (length r)) by (unfold left_of; by rewrite E).
  unfold css_syntax_consume. rewrite E. change (at_ (x :: r) 0) with x. change (drop 1 (x :: r)) with r.
  destruct (css_syntax_whitespace x) eqn:Ew.
  { intros [= <- <-] _. apply consume_leaf; [done|rewrite L; apply (take_while_length _ (x :: r))|]. rewrite E.
    destruct (take_while_cut css_syntax_whitespace (x :: r)) as [T1 T2].
    cbn [take_while leaf_ok] in *. rewrite Ew in *. rewrite T1, T2. split; [done|]. split; [done|].
    split; [cbn; rewrite Ew; apply take_while_forall|apply drop_while_stops]. }
  destruct ((x =c dquote) || _) eqn:Eq.
  { intros [= S]. intros Hv. eapply consume_string_ok; try done. apply orb_prop in Eq as [Eq|Eq]; boolify; auto. }
  destruct (css_syntax_starts_number _) eqn:En.
  { intros [= S] _. rewrite <- E in En. pose proof (consume_numeric_ok p H En) as K. by rewrite S in K. }
  destruct ((x =c "@") && _) eqn:Ea.
  { intros S Hv. apply andb_prop in Ea as [Ea Eb]. boolify. apply (consume_marked_ok p true false c p' x r); auto 10. }
  destruct ((x =c "#") && _) eqn:Eh.
  { intros S Hv. apply andb_prop in Eh as [Eh Eb]. boolify. apply (consume_marked_ok p false true c p' x r); auto 10. }
  change (css_syntax_name_start x || (x =c "-") || (x =c slash)) with (ident_first x).
  destruct (ident_first x) eqn:Ei. { intros S Hv. by apply (consume_ident_ok p c p' x r). }
  destruct (closer_of x) as [d|] eqn:Ec.
  - destruct (pl (advance 1 p) (Some d)) as [[l p2]|] eqn:El; [|done]. intros [= <- <-] Hv.
    assert (G1 : goes p (advance 1 p)) by (apply goes_advance; [done|lia]).
    apply pl_ok in El as [G En2]; [|apply G1|done].
    split; [by eapply goes_trans|]. split; [done|]. split; [done|].
    eapply block_comp; [by eapply sub_head|done|]. cbn [offset advance] in En2.
    by replace (S (offset p)) with (offset p + 1) by lia.
  - intros [= <- <-] _. apply consume_leaf; [done|lia|]. rewrite E. by apply delim_of.
Qed.
End Consume.

Lemma parse_list_ok fuel p closing l p' :
  stands p -> css_syntax_parse_list fuel p closing = Some (l, p') -> (strict = true -> valid p' = true) ->
  goes p p' /\
  match closing with
  | Some d => enclosed (offset p) (offset p') d l
  | None => offset p' = length s /\ tiles (offset p) (length s) l
  end.
Proof.
  revert p closing l p'. induction fuel as [|f IH]; intros p closing l p' H; [done|]. cbn [css_syntax_parse_list].
  destruct (input p) as [|c r] eqn:E.
  { intros [= <- <-] _. assert (L : offset p = length s).
    { pose proof (stands_left p H) as L. destruct H as [_ H]. unfold left_of in L. rewrite E in L. cbn in L. lia. }
    split; [split; [done|]; split; [lia|done]|]. rewrite L. destruct closing; [apply enclosed_open|]; repeat split; apply tiles_nil. }
  assert (L : left_of p = S (length r)) by (unfold left_of; by rewrite E).
  assert (Hd : sub (offset p) (S (offset p)) = [c]) by (by eapply sub_head).
  assert (G1 : goes p (advance 1 p)) by (apply goes_advance; [done|lia]).
  destruct ((c =c "/") && _) eqn:Eco.
  { destruct (skip_comment_ok p c r H E Eco) as (S1 & V1 & O1 & T1). intros S Hv.
    apply IH in S as [G C]; [|done|done].
    split; [eapply goes_trans; [|exact G]; split; [done|]; split; [done|by rewrite V1]|].
    destruct closing; [|destruct C as [C1 C2]; split; [done|by eapply tiles_comment]].
    eapply enclosed_prepend; [|exact C]. intros. by eapply tiles_comment. }
  assert (K : forall x p1, is_closer c = false -> css_syntax_consume (css_syntax_parse_list f) p = Some (x, p1) ->
    (strict = true -> valid p1 = true) -> consumed p x p1).
  { intros x p1 Ecl Ec Hv. eapply consume_ok; [|exact H|exact E|exact Ecl|exact Eco|exact Ec|exact Hv].
    intros q d0 l0 q' Hq Hl Hv0. by apply IH in Hl. }
  destruct closing as [d|]; [destruct (c =c d) eqn:Ed|].
  { intros [= <- <-] _. boolify. subst d. split; [done|]. cbn [offset advance].
    replace (offset p + 1) with (S (offset p)) by lia. apply enclosed_closed; [apply tiles_nil|done]. }
  1-2: assert (G0 : stands (advance 1 (invalid p))) by (apply stands_advance; [done|change (1 <= left_of p); lia]).
  1-2: destruct (is_closer c) eqn:Ecl.
  - intros [= <- <-] Hv. split; [split; [done|]; split; [cbn; lia|done]|].
    cbn [offset advance invalid]. replace (offset p + 1) with (S (offset p)) by lia.
    eapply enclosed_other; [|apply tiles_nil|done|done]. destruct strict; [|done]. by specialize (Hv eq_refl).
  - destruct (css_syntax_consume _ p) as [[x p1]|] eqn:Ec; [|done].
    destruct (css_syntax_parse_list f p1 (Some d)) as [[l1 p2]|] eqn:El; [|done]. intros [= <- <-] Hv.
    destruct (K x p1 eq_refl eq_refl) as (G & Es & Ee & Ok). { intros S. eapply parse_list_valid; [exact El|auto]. }
    apply IH in El as [G3 En]; [|apply G|done].
    split; [by eapply goes_trans|]. eapply enclosed_prepend; [|exact En]. intros k Hk. rewrite <- Es.
    apply tiles_cons; [|done|by rewrite Ee]. rewrite Es, Ee. apply G.
  - intros S Hv. apply IH in S as [G [C1 C2]]; [|done..].
    split; [|split; [done|]].
    + eapply goes_trans; [|exact G]. split; [done|]. split; [cbn; lia|done].
    + destruct G as (_ & _ & V). eapply tiles_stray; [|exact Hd|done|].
      * destruct strict; [|done]. specialize (V (Hv eq_refl)). done.
      * cbn [offset advance invalid] in C2. by replace (S (offset p)) with (offset p + 1) by lia.
  - destruct (css_syntax_consume _ p) as [[x p1]|] eqn:Ec; [|done].
    destruct (css_syntax_parse_list f p1 None) as [[l1 p2]|] eqn:El; [|done]. intros [= <- <-] Hv.
    destruct (K x p1 eq_refl eq_refl) as (G & Es & Ee & Ok). { intros S. eapply parse_list_valid; [exact El|auto]. }
    apply IH in El as [G3 [C1 C2]]; [|apply G|done].
    split; [by eapply goes_trans|]. split; [done|]. rewrite <- Es.
    apply tiles_cons; [|done|by rewrite Ee]. rewrite Es, Ee. apply G.
Qed.
End Text.

(** The parser of component values ends, unless it meets an escaped line end:
    for every text without a backslash before a line end, as many turns as the text
    has bytes (and one) are enough and more change nothing; but where a token
    begins with a backslash before a line end no number of turns is enough. *)
Theorem css_parse_terminates (s : bytes) (fuel : nat) (c : ascii) (r : bytes) :
  escapes_ok s = true -> length s < fuel -> css_syntax_newline c = true ->
  (exists l v, ns_css_component_values_parse (S (length s)) (Some s) = Some (l, v) /\
     ns_css_component_values_parse fuel (Some s) = Some (l, v) /\
     ns_css_component_value_valid fuel (Some s) = Some v) /\
  (forall n, ns_css_component_values_parse n (Some (slash :: c :: r)) = None).
Proof.
  intros He Hf Hc. split.
  - destruct (parse_list_total (S (length s)) (Build_ns_css_syntax_parser s 0 true) None He) as (l & p' & E & _); [cbn; lia|].
    exists l, (valid p'). unfold ns_css_component_value_valid, ns_css_component_values_parse. cbn [from_option id].
    rewrite (parse_list_more _ fuel _ _ _ E) by lia. by rewrite E.
  - intros n. unfold ns_css_component_values_parse. cbn [from_option id].
    by rewrite (parse_list_stuck n (Build_ns_css_syntax_parser (slash :: c :: r) 0 true) None c r).
Qed.

(** The conditions hold for an ordinary declaration, and [\] before a line end
    hangs. *)
Lemma css_parse_terminates_witness :
  (exists l v, ns_css_component_values_parse 9 (Some ($"a(1px) b")) = Some (l, v)) /\
  (forall n, ns_css_component_values_parse n (Some (slash :: nl :: $"red")) = None).
Proof.
  destruct (css_parse_terminates ($"a(1px) b") 9 nl ($"red") eq_refl ltac:(apply Nat.ltb_lt; reflexivity) eq_refl)
    as ((l & v & E & _) & H).
  split; [by exists l, v|exact H].
Defined.


