(* ===== verification/Images.v ===== *)
(** * Image containers ([src/image_ico.c], [src/image_wuffs.c], [src/texture.c])

    The parsers of image containers read and write byte buffers at computed
    offsets. Here every such access is checked: an access outside its buffer is the
    value [Fault], which the theorems show never occurs. The decoders of Wuffs are
    an argument; buffers are freshly allocated byte lists, and an allocation may
    fail. A [NULL] buffer is the empty one. *)

From S2P Require Import Prelude CStr.

Local Open Scope Z_scope.

(** ** Checked memory *)

Inductive mem (A : Type) := Fault | Ret (a : A).
Arguments Fault {A}.
Arguments Ret {A} a.

#[export] Instance mem_ret : MRet mem := fun A a => Ret a.
#[export] Instance mem_bind : MBind mem := fun A B k m => match m with Fault => Fault | Ret a => k a end.

Definition in_buffer (d : bytes) (i n : Z) : bool := (0 <=? i) && (0 <=? n) && (i + n <=? zlen d).

(** [p[i]], [memcmp] and [memcpy] sources, [p[i] = v] and [memcpy] targets. *)
Definition rd (d : bytes) (i : Z) : mem Z :=
  if in_buffer d i 1 then Ret (code (nth (Z.to_nat i) d nul)) else Fault.
Definition rd_slice (d : bytes) (i n : Z) : mem bytes :=
  if in_buffer d i n then Ret (take (Z.to_nat n) (drop (Z.to_nat i) d)) else Fault.
Definition wr_slice (d : bytes) (i : Z) (s : bytes) : mem bytes :=
  if in_buffer d i (zlen s)
  then Ret (take (Z.to_nat i) d ++ s ++ drop (Z.to_nat i + length s) d) else Fault.
Definition wr (d : bytes) (i v : Z) : mem bytes := wr_slice d i [byte_of v].

(** [g_try_malloc]: [None] when there is no memory. What the code writes nowhere
    is left as zero bytes. *)
Definition alloc (ok : Z -> bool) (n : Z) : option bytes :=
  if ok n then Some (replicate (Z.to_nat n) nul) else None.

Definition G_MAXUINT32 : Z := 2 ^ 32 - 1.
Definition G_MAXSIZE : Z := 2 ^ 64 - 1.

Definition read_u16 (d : bytes) (p : Z) : mem Z :=
  a ← rd d p; b ← rd d (p + 1); mret (Z.lor a (Z.shiftl b 8)).
Definition read_u32 (d : bytes) (p : Z) : mem Z :=
  a ← rd d p; b ← rd d (p + 1); c ← rd d (p + 2); e ← rd d (p + 3);
  mret (Z.lor (Z.lor (Z.lor a (Z.shiftl b 8)) (Z.shiftl c 16)) (Z.shiftl e 24)).
Definition u32_bytes (v : Z) : bytes :=
  [byte_of v; byte_of (Z.shiftr v 8); byte_of (Z.shiftr v 16); byte_of (Z.shiftr v 24)].
Definition write_u32 (d : bytes) (p v : Z) : mem bytes :=
  d ← wr d p v; d ← wr d (p + 1) (Z.shiftr v 8); d ← wr d (p + 2) (Z.shiftr v 16); wr d (p + 3) (Z.shiftr v 24).

(** [for (i = 0; i < n; i++)]. *)
Fixpoint for_from {A} (n : nat) (i : Z) (f : Z -> A -> mem A) (s : A) : mem A :=
  match n with O => mret s | S n' => s ← f i s; for_from n' (i + 1) f s end.
Definition for_loop {A} (n : Z) (f : Z -> A -> mem A) (s : A) : mem A := for_from (Z.to_nat n) 0 f s.

(** ** Decoding by Wuffs *)

Definition NS_WUFFS_MAX_DIM : Z := 16384.
Definition NS_WUFFS_MAX_PIXELS : Z := 64 * 1024 * 1024.

Inductive ns_wuffs_format :=
| NS_WUFFS_NONE | NS_WUFFS_PNG | NS_WUFFS_GIF | NS_WUFFS_BMP | NS_WUFFS_JPEG | NS_WUFFS_WEBP.
#[export] Instance ns_wuffs_format_eq_dec : EqDecision ns_wuffs_format.
Proof. solve_decision. Defined.

Definition png4 : bytes := [byte_of 137; "P"; "N"; "G"]%char.

Definition ns_wuffs_detect (data : bytes) : mem ns_wuffs_format :=
  if zlen data <? 4 then mret NS_WUFFS_NONE
  else
    h ← rd_slice data 0 4;
    if h =b png4 then mret NS_WUFFS_PNG
    else
      gif ← (if (6 <=? zlen data) && (h =b $"GIF8")
             then v ← rd_slice data 4 2; mret ((v =b $"7a") || (v =b $"9a")) else mret false);
      if gif : bool then mret NS_WUFFS_GIF
      else if take 2 h =b $"BM" then mret NS_WUFFS_BMP
      else if take 3 h =b [byte_of 255; byte_of 216; byte_of 255] then mret NS_WUFFS_JPEG
      else if (12 <=? zlen data) && (h =b $"RIFF")
      then t ← rd_slice data 8 4; mret (if t =b $"WEBP" then NS_WUFFS_WEBP else NS_WUFFS_NONE)
      else mret NS_WUFFS_NONE.

(** What a decoder of Wuffs answers, in the order the code asks: whether there is a
    decoder, the dimensions if the header is sound, the length of the pixel buffer,
    whether the buffer fits, the length of the work buffer, whether the frame was
    decoded (or only followed by too much data), and the plane's stride with the
    pixels, if it has one. *)
Record wuffs_answer := {
  wa_decoder : bool;
  wa_config : option (Z * Z);
  wa_pixbuf_len : Z;
  wa_set : bool;
  wa_workbuf_len : Z;
  wa_frame : bool;
  wa_too_much_data : bool;
  wa_plane : option Z;
  wa_pixels : bytes;
}.

(** A decoded image: BGRA, premultiplied. *)
Record image := { i_w : Z; i_h : Z; i_stride : Z; i_pix : bytes }.

Record ns_texture := { t_width : Z; t_height : Z; t_stride : Z; t_bgra : bytes }.

Definition ns_texture_new (width height : Z) (bytes_ : bytes) (stride : Z) : mem (option ns_texture) :=
  if (width <=? 0) || (height <=? 0) then mret None
  else if G_MAXSIZE / height <? stride then mret None
  else
    let needed := stride * height in
    if zlen bytes_ <? needed then mret None
    else s ← rd_slice bytes_ 0 needed; mret (Some (Build_ns_texture width height stride s)).

Section Decode.
(** Wuffs, by format, input and premultiplication. *)
Variable wuffs : ns_wuffs_format -> bytes -> bool -> wuffs_answer.
Variable malloc : Z -> bool.

(** The pixels Wuffs leaves in the buffer of [n] bytes it was given. *)
Definition fill (buf pixels : bytes) : bytes := take (length buf) (pixels ++ drop (length pixels) buf).

Definition ns_wuffs_decode_still_to_bgra (data : bytes) (premultiply : bool) : mem (option image) :=
  kind ← ns_wuffs_detect data;
  let a := wuffs kind data premultiply in
  if bool_decide (kind = NS_WUFFS_NONE) || negb (wa_decoder a) then mret None
  else
    match wa_config a with
    | None => mret None
    | Some (w, h) =>
        if (w =? 0) || (h =? 0) || (NS_WUFFS_MAX_DIM <? w) || (NS_WUFFS_MAX_DIM <? h) ||
           (NS_WUFFS_MAX_PIXELS <? w * h) then mret None
        else
          let pix_len := wa_pixbuf_len a in
          if (pix_len =? 0) || (NS_WUFFS_MAX_PIXELS * 4 <? pix_len) then mret None
          else
            match alloc malloc pix_len with
            | None => mret None
            | Some pix =>
                if negb (wa_set a) then mret None
                else if (64 * 1024 * 1024 <? wa_workbuf_len a) ||
                        (negb (wa_workbuf_len a =? 0) && negb (malloc (wa_workbuf_len a))) then mret None
                else if negb (wa_frame a || wa_too_much_data a) && negb (bool_decide (kind = NS_WUFFS_GIF))
                then mret None
                else
                  match wa_plane a with
                  | None => mret None
                  | Some stride =>
                      if (stride =? 0) || (stride <? w * 4) || (pix_len <? stride * h) then mret None
                      else mret (Some (Build_image w h stride (fill pix (wa_pixels a))))
                  end
            end
    end.

(** ** WebP *)

Record ns_webp_chunks := {
  alpha : option bytes;
  body : bytes;
  body_tag : bytes;
}.

Definition ns_webp_is_extended (data : bytes) : mem bool :=
  if 21 <=? zlen data then t ← rd_slice data 12 4; mret (t =b $"VP8X") else mret false.

Definition is_body_tag (t : bytes) : bool := (t =b $"VP8 ") || (t =b $"VP8L").

(** The chunks inside an animation frame, from [sub] to [sub_end]. The fuel of this
    loop and of the next one is the length of the data, more than they can turn; to
    run out of it is a [Fault] too, which the theorems exclude. *)
Fixpoint anmf_loop (fuel : nat) (data : bytes) (sub sub_end : Z) (al : option bytes) : mem (option ns_webp_chunks) :=
  match fuel with
  | O => Fault
  | S fuel' =>
      if sub + 8 <=? sub_end then
        stag ← rd_slice data sub 4;
        ssize ← read_u32 data (sub + 4);
        let spayload := sub + 8 in
        if sub_end - spayload <? ssize then mret None
        else if stag =b $"ALPH" then
          p ← rd_slice data spayload ssize;
          anmf_loop fuel' data (spayload + ssize + Z.land ssize 1) sub_end (Some p)
        else if is_body_tag stag then
          p ← rd_slice data spayload ssize; mret (Some (Build_ns_webp_chunks al p stag))
        else anmf_loop fuel' data (spayload + ssize + Z.land ssize 1) sub_end al
      else mret None
  end.

Definition NS_WEBP_ANMF_HEADER : Z := 16.

Fixpoint chunk_loop (fuel : nat) (data : bytes) (pos riff_len : Z) (al : option bytes) : mem (option ns_webp_chunks) :=
  match fuel with
  | O => Fault
  | S fuel' =>
      if pos + 8 <=? riff_len then
        tag ← rd_slice data pos 4;
        size ← read_u32 data (pos + 4);
        let payload := pos + 8 in
        if riff_len - payload <? size then mret None
        else if tag =b $"ALPH" then
          p ← rd_slice data payload size;
          chunk_loop fuel' data (payload + size + Z.land size 1) riff_len (Some p)
        else if is_body_tag tag then
          p ← rd_slice data payload size; mret (Some (Build_ns_webp_chunks al p tag))
        else if (tag =b $"ANMF") && (NS_WEBP_ANMF_HEADER <? size) then
          anmf_loop (S (length data)) data (payload + NS_WEBP_ANMF_HEADER) (payload + size) al
        else chunk_loop fuel' data (payload + size + Z.land size 1) riff_len al
      else mret None
  end.

Definition ns_webp_find_chunks (data : bytes) : mem (option ns_webp_chunks) :=
  if zlen data <? 12 + 8 then mret None
  else
    n ← read_u32 data 4;
    let riff_len := Z.min (n + 8) (zlen data) in
    chunk_loop (S (length data)) data 12 riff_len None.

Definition ns_webp_bare_container (tag payload : bytes) : mem (option bytes) :=
  let payload_len := zlen payload in
  if (payload_len =? 0) || (G_MAXUINT32 - 32 <? payload_len) then mret None
  else
    let total := 12 + 8 + (payload_len + Z.land payload_len 1) in
    match alloc malloc total with
    | None => mret None
    | Some out =>
        out ← wr_slice out 0 ($"RIFF");
        out ← write_u32 out 4 (total - 8);
        out ← wr_slice out 8 ($"WEBP");
        out ← wr_slice out 12 (take 4 tag);
        out ← write_u32 out 16 payload_len;
        out ← wr_slice out 20 payload;
        mret (Some out)
    end.

(** ** The alpha plane of a WebP image *)

(** A row of the plane with the row above it, undone by each filter. *)
Fixpoint unfilter_left (pred : Z) (row : bytes) : bytes :=
  match row with
  | [] => []
  | r :: row' => let v := byte_of (code r + pred) in v :: unfilter_left (code v) row'
  end.
Fixpoint unfilter_up (row prev : bytes) : bytes :=
  match row, prev with
  | r :: row', p :: prev' => byte_of (code r + code p) :: unfilter_up row' prev'
  | _, _ => []
  end.
Fixpoint unfilter_gradient (left top_left : Z) (row prev : bytes) : bytes :=
  match row, prev with
  | r :: row', p :: prev' =>
      let top := code p in
      let g := left + top - top_left in
      let g := if g <? 0 then 0 else if 255 <? g then 255 else g in
      let v := byte_of (code r + g) in
      v :: unfilter_gradient (code v) top row' prev'
  | _, _ => []
  end.

(** One row of [ns_webp_alpha_unfilter]. *)
Definition unfilter_row (method : Z) (row : bytes) (prev : option bytes) : bytes :=
  match prev with
  | None => unfilter_left 0 row
  | Some prev =>
      let first := match prev with p :: _ => code p | [] => 0 end in
      if method =? 1 then unfilter_left first row
      else if method =? 2 then unfilter_up row prev
      else unfilter_gradient first first row prev
  end.

Definition ns_webp_alpha_unfilter (plane : bytes) (w h method : Z) : mem bytes :=
  if method =? 0 then mret plane
  else
    for_loop h (fun y plane =>
      row ← rd_slice plane (y * w) w;
      prev ← (if y =? 0 then mret None else p ← rd_slice plane (y * w - w) w; mret (Some p));
      wr_slice plane (y * w) (unfilter_row method row prev)) plane.

Definition vp8l_header (w h : Z) : bytes :=
  let dims := Z.lor (w - 1) (Z.shiftl (h - 1) 14) in byte_of 47 :: u32_bytes dims.

Definition ns_webp_alpha_plane (alph : bytes) (w h : Z) : mem (option bytes) :=
  if (zlen alph <? 2) || (w <=? 0) || (h <=? 0) then mret None
  else
    b ← rd alph 0;
    let method := Z.land b 3 in
    let filtering := Z.land (Z.shiftr b 2) 3 in
    let pixels := w * h in
    if method =? 0 then
      if zlen alph - 1 <? pixels then mret None
      else
        match alloc malloc pixels with
        | None => mret None
        | Some plane =>
            s ← rd_slice alph 1 pixels;
            plane ← wr_slice plane 0 s;
            plane ← ns_webp_alpha_unfilter plane w h filtering;
            mret (Some plane)
        end
    else if method =? 1 then
      match alloc malloc (5 + (zlen alph - 1)) with
      | None => mret None
      | Some vp8l =>
          vp8l ← wr_slice vp8l 0 (vp8l_header w h);
          rest ← rd_slice alph 1 (zlen alph - 1);
          vp8l ← wr_slice vp8l 5 rest;
          bare ← ns_webp_bare_container ($"VP8L") vp8l;
          match bare with
          | None => mret None
          | Some bare =>
              im ← ns_wuffs_decode_still_to_bgra bare false;
              match im with
              | None => mret None
              | Some im =>
                  if negb (i_w im =? w) || negb (i_h im =? h) then mret None
                  else
                    match alloc malloc pixels with
                    | None => mret None
                    | Some plane =>
                        plane ← for_loop h (fun y plane =>
                          for_loop w (fun x plane =>
                            g ← rd (i_pix im) (y * i_stride im + x * 4 + 1);
                            wr plane (y * w + x) g) plane) plane;
                        plane ← ns_webp_alpha_unfilter plane w h filtering;
                        mret (Some plane)
                    end
              end
          end
      end
    else mret None.

Definition scale_alpha (v a : Z) : ascii := byte_of ((v * a + 127) / 255).

Definition ns_webp_apply_alpha (pix : bytes) (stride w h : Z) (plane : bytes) : mem bytes :=
  for_loop h (fun y pix =>
    for_loop w (fun x pix =>
      let p := y * stride + x * 4 in
      b ← rd pix p; g ← rd pix (p + 1); r ← rd pix (p + 2);
      a ← rd plane (y * w + x);
      wr_slice pix p [scale_alpha b a; scale_alpha g a; scale_alpha r a; byte_of a]) pix) pix.

Definition ns_image_wuffs_decode_to_bgra (data : bytes) : mem (option image) :=
  kind ← ns_wuffs_detect data;
  ext ← (if bool_decide (kind = NS_WUFFS_WEBP) then ns_webp_is_extended data else mret false);
  if negb ext then ns_wuffs_decode_still_to_bgra data true
  else
    parts ← ns_webp_find_chunks data;
    match parts with
    | None => mret None
    | Some parts =>
        bare ← ns_webp_bare_container (body_tag parts) (body parts);
        match bare with
        | None => mret None
        | Some bare =>
            im ← ns_wuffs_decode_still_to_bgra bare true;
            match im with
            | None => mret None
            | Some im =>
                match alpha parts with
                | Some al =>
                    if body_tag parts =b $"VP8 " then
                      plane ← ns_webp_alpha_plane al (i_w im) (i_h im);
                      match plane with
                      | Some plane =>
                          pix ← ns_webp_apply_alpha (i_pix im) (i_stride im) (i_w im) (i_h im) plane;
                          mret (Some (Build_image (i_w im) (i_h im) (i_stride im) pix))
                      | None => mret (Some im)
                      end
                    else mret (Some im)
                | None => mret (Some im)
                end
            end
        end
    end.

Definition ns_image_decode_wuffs (data : bytes) : mem (option ns_texture) :=
  im ← ns_image_wuffs_decode_to_bgra data;
  match im with
  | None => mret None
  | Some im => ns_texture_new (i_w im) (i_h im) (i_pix im) (i_stride im)
  end.

(** ** ICO and CUR *)

Definition NS_ICO_MAX_ENTRIES : Z := 256.
Definition NS_ICO_MAX_DIM : Z := 1024.
Definition NS_ICO_MAX_BMP : Z := 64 * 1024 * 1024.

Definition png_sig : bytes := png4 ++ [byte_of 13; byte_of 10; byte_of 26; byte_of 10].
Definition is_png (d : bytes) : mem bool :=
  if 8 <=? zlen d then s ← rd_slice d 0 8; mret (s =b png_sig) else mret false.

(** A bitmap of an icon: its header's size, width, height (without the mask),
    bits per pixel and palette size, when the code accepts it. *)
Record dib := { d_hdr : Z; d_w : Z; d_h : Z; d_bits : Z; d_pal_bytes : Z }.
Definition d_xor_row (d : dib) : Z := ((d_w d * d_bits d + 31) / 32) * 4.
Definition d_xor_size (d : dib) : Z := d_xor_row d * d_h d.
Definition d_pixel_off (d : dib) : Z := d_hdr d + d_pal_bytes d.
Definition d_data_off (d : dib) : Z := 14 + d_pixel_off d.
Definition d_bmp_len (d : dib) : Z := d_data_off d + d_xor_size d.
Definition d_and_row (d : dib) : Z := ((d_w d + 31) / 32) * 4.
Definition d_and_off (d : dib) : Z := d_pixel_off d + d_xor_size d.

Definition dib_header (p : bytes) : mem (option dib) :=
  let len := zlen p in
  if len <? 40 then mret None
  else
    hdr ← read_u32 p 0;
    if (hdr <? 40) || (len <? hdr) then mret None
    else
      w ← read_u32 p 4; h ← read_u32 p 8;
      bitcount ← read_u16 p 14; compression ← read_u32 p 16;
      let bw := wrap_s 32 w in let bh := wrap_s 32 h in
      if (bw <=? 0) || (bh <=? 0) || Z.odd bh then mret None
      else if (NS_ICO_MAX_DIM <? bw) || (2 * NS_ICO_MAX_DIM <? bh) then mret None
      else if negb (compression =? 0) then mret None
      else if negb ((bitcount =? 1) || (bitcount =? 4) || (bitcount =? 8) || (bitcount =? 24) || (bitcount =? 32))
      then mret None
      else
        clr_used ← read_u32 p 32;
        let pal_count := if bitcount <=? 8
                         then if clr_used =? 0 then Z.shiftl 1 bitcount else clr_used else 0 in
        if 256 <? pal_count then mret None
        else
          let d := Build_dib hdr bw (bh / 2) bitcount (pal_count * 4) in
          if len <? d_pixel_off d + d_xor_size d then mret None
          else if (G_MAXUINT32 <? d_data_off d) || (NS_ICO_MAX_BMP <? d_bmp_len d) then mret None
          else mret (Some d).

(** The BMP file handed to Wuffs. *)
Definition dib_to_bmp (p : bytes) (d : dib) (bmp : bytes) : mem bytes :=
  bmp ← wr_slice bmp 0 ($"BM");
  bmp ← write_u32 bmp 2 (d_bmp_len d);
  bmp ← write_u32 bmp 6 0;
  bmp ← write_u32 bmp 10 (d_data_off d);
  head ← rd_slice p 0 (d_hdr d + d_pal_bytes d);
  bmp ← wr_slice bmp 14 head;
  bmp ← write_u32 bmp (14 + 8) (d_h d);
  bmp ← write_u32 bmp (14 + 20) 0;
  xor ← rd_slice p (d_pixel_off d) (d_xor_size d);
  wr_slice bmp (d_data_off d) xor.

(** The mask of transparent pixels, stored bottom up after the pixels. *)
Definition apply_mask (p : bytes) (d : dib) (im : image) : mem bytes :=
  for_loop (i_h im) (fun y pix =>
    let mrow := d_and_off d + (d_h d - 1 - y) * d_and_row d in
    for_loop (i_w im) (fun x pix =>
      b ← rd p (mrow + Z.shiftr x 3);
      if Z.land (Z.shiftr b (7 - Z.land x 7)) 1 =? 0 then mret pix
      else wr_slice pix (y * i_stride im + x * 4) [nul; nul; nul; nul]) pix) (i_pix im).

Definition decode_dib_entry (p : bytes) : mem (option ns_texture) :=
  d ← dib_header p;
  match d with
  | None => mret None
  | Some d =>
      match alloc malloc (d_bmp_len d) with
      | None => mret None
      | Some bmp =>
          bmp ← dib_to_bmp p d bmp;
          im ← ns_image_wuffs_decode_to_bgra bmp;
          match im with
          | None => mret None
          | Some im =>
              pix ← (if (i_w im =? d_w d) && (i_h im =? d_h d) &&
                        (d_and_off d + d_and_row d * d_h d <=? zlen p)
                     then apply_mask p d im else mret (i_pix im));
              ns_texture_new (i_w im) (i_h im) pix (i_stride im)
          end
      end
  end.

(** The best entry so far: its index, pixels and bits. *)
Definition best_entry : Type := option (Z * Z * Z).

Definition ico_entry (data : bytes) (i : Z) (best : best_entry) : mem best_entry :=
  let e := 6 + i * 16 in
  w ← rd data e; h ← rd data (e + 1);
  let ew := if w =? 0 then 256 else w in
  let eh := if h =? 0 then 256 else h in
  bits ← read_u16 data (e + 6); size ← read_u32 data (e + 8); off ← read_u32 data (e + 12);
  if (size =? 0) || (zlen data <? off + size) then mret best
  else
    let px := ew * eh in
    mret (match best with
          | None => Some (i, px, bits)
          | Some (j, best_px, best_bits) =>
              if (best_px <? px) || ((px =? best_px) && (best_bits <? bits)) then Some (i, px, bits) else best
          end).

Definition ns_image_decode_ico (data : bytes) : mem (option ns_texture) :=
  if zlen data <? 6 then mret None
  else
    z ← read_u16 data 0;
    if negb (z =? 0) then mret None
    else
      type ← read_u16 data 2;
      if negb (type =? 1) && negb (type =? 2) then mret None
      else
        count ← read_u16 data 4;
        if (count =? 0) || (NS_ICO_MAX_ENTRIES <? count) then mret None
        else if zlen data <? 6 + count * 16 then mret None
        else
          best ← for_loop count (ico_entry data) None;
          match best with
          | None => mret None
          | Some (b, _, _) =>
              size ← read_u32 data (6 + b * 16 + 8); off ← read_u32 data (6 + b * 16 + 12);
              payload ← rd_slice data off size;
              png ← is_png payload;
              if png : bool then ns_image_decode_wuffs payload else decode_dib_entry payload
          end.
End Decode.

(** [ns_image_png_is_animated]. *)
Fixpoint png_loop (fuel : nat) (data : bytes) (pos : Z) : mem bool :=
  match fuel with
  | O => Fault
  | S fuel' =>
      if pos + 8 <=? zlen data then
        a ← rd data pos; b ← rd data (pos + 1); c ← rd data (pos + 2); e ← rd data (pos + 3);
        let size := Z.lor (Z.lor (Z.lor (Z.shiftl a 24) (Z.shiftl b 16)) (Z.shiftl c 8)) e in
        tag ← rd_slice data (pos + 4) 4;
        if tag =b $"IDAT" then mret false
        else if tag =b $"acTL" then mret true
        else if tag =b $"IEND" then mret false
        else if zlen data - pos - 8 <? size then mret false
        else png_loop fuel' data (pos + 12 + size)
      else mret false
  end.
Definition ns_image_png_is_animated (data : bytes) : mem bool :=
  if zlen data <? 8 + 8 then mret false
  else s ← rd_slice data 0 8; if negb (s =b png_sig) then mret false else png_loop (S (length data)) data 8.

(** ** Accesses in bounds *)

(** [safe P m]: [m] does not fault, and its value satisfies [P]. *)
Definition safe {A} (P : A -> Prop) (m : mem A) : Prop := match m with Fault => False | Ret a => P a end.

Lemma safe_bind {A B} (P : A -> Prop) (Q : B -> Prop) (m : mem A) (k : A -> mem B) :
  safe P m -> (forall a, P a -> safe Q (k a)) -> safe Q (m ≫= k).
Proof. destruct m; cbn; [done|]. auto. Qed.

Lemma safe_mono {A} (P Q : A -> Prop) (m : mem A) : safe P m -> (forall a, P a -> Q a) -> safe Q m.
Proof. destruct m; cbn; auto. Qed.

Lemma zlen_take n s : 0 <= n <= zlen s -> zlen (take (Z.to_nat n) s) = n.
Proof. unfold zlen. rewrite length_take. lia. Qed.
Lemma zlen_drop n s : 0 <= n <= zlen s -> zlen (drop (Z.to_nat n) s) = zlen s - n.
Proof. unfold zlen. rewrite length_drop. lia. Qed.
Lemma zlen_replicate n : 0 <= n -> zlen (replicate (Z.to_nat n) nul) = n.
Proof. unfold zlen. rewrite length_replicate. lia. Qed.

Lemma in_buffer_true d i n : in_buffer d i n = true <-> 0 <= i /\ 0 <= n /\ i + n <= zlen d.
Proof. unfold in_buffer. rewrite !andb_true_iff, !Z.leb_le. tauto. Qed.

Lemma safe_rd d i : 0 <= i < zlen d -> safe (fun v => 0 <= v < 256) (rd d i).
Proof.
  intros H. unfold rd. assert (in_buffer d i 1 = true) as -> by (apply in_buffer_true; lia). apply code_range.
Qed.

Lemma safe_rd_slice d i n : 0 <= i -> 0 <= n -> i + n <= zlen d -> safe (fun s => zlen s = n) (rd_slice d i n).
Proof.
  intros Hi Hn H. unfold rd_slice. assert (in_buffer d i n = true) as -> by (apply in_buffer_true; lia). cbn.
  apply zlen_take. rewrite zlen_drop; lia.
Qed.

Lemma safe_wr_slice d i s : 0 <= i -> i + zlen s <= zlen d -> safe (fun d' => zlen d' = zlen d) (wr_slice d i s).
Proof.
  intros Hi H. pose proof (zlen_nonneg s). unfold wr_slice.
  assert (in_buffer d i (zlen s) = true) as -> by (apply in_buffer_true; lia). cbn.
  rewrite !zlen_app, zlen_take by lia. unfold zlen in *. rewrite length_drop. lia.
Qed.

Lemma lor_shift a b n : 0 <= n -> 0 <= a < 2 ^ n -> Z.lor a (Z.shiftl b n) = a + b * 2 ^ n.
Proof.
  intros Hn Ha. rewrite Z.shiftl_mul_pow2 by done. symmetry. apply Z.add_nocarry_lor.
  apply Z.bits_inj'. intros k Hk. rewrite Z.land_spec, Z.bits_0. destruct (Z.ltb_spec k n).
  - rewrite Z.mul_pow2_bits_low by done. apply andb_false_r.
  - destruct (Z.eq_dec a 0) as [->|]; [by rewrite Z.bits_0|]. rewrite (Z.bits_above_log2 a k); [done|lia|].
    apply Z.log2_lt_pow2; [lia|]. eapply Z.lt_le_trans; [apply Ha|]. apply Z.pow_le_mono_r; lia.
Qed.

Lemma safe_u16 d p : 0 <= p -> p + 2 <= zlen d -> safe (fun v => 0 <= v < 65536) (read_u16 d p).
Proof.
  intros H1 H2. unfold read_u16.
  do 2 (eapply safe_bind; [apply safe_rd; lia|]; intros ? ?; cbn beta in *). cbn [mret mem_ret safe].
  rewrite lor_shift by lia. lia.
Qed.

Lemma safe_u32 d p : 0 <= p -> p + 4 <= zlen d -> safe (fun v => 0 <= v < 2 ^ 32) (read_u32 d p).
Proof.
  intros H1 H2. unfold read_u32.
  do 4 (eapply safe_bind; [apply safe_rd; lia|]; intros ? ?; cbn beta in *). cbn [mret mem_ret safe].
  rewrite (lor_shift _ _ 8), (lor_shift _ _ 16), (lor_shift _ _ 24) by lia. lia.
Qed.

Lemma safe_wr d i v : 0 <= i < zlen d -> safe (fun d' => zlen d' = zlen d) (wr d i v).
Proof. intros H. apply safe_wr_slice; [lia|]. change (zlen [byte_of v]) with 1. lia. Qed.

Lemma safe_write_u32 d p v : 0 <= p -> p + 4 <= zlen d -> safe (fun d' => zlen d' = zlen d) (write_u32 d p v).
Proof.
  intros H1 H2. unfold write_u32.
  do 3 (eapply safe_bind; [apply safe_wr; lia|]; intros ? ?; cbn beta in *).
  eapply safe_mono; [apply safe_wr; lia|]. cbn beta. intros. congruence.
Qed.

Lemma safe_for {A} (I : Z -> A -> Prop) n f (s : A) :
  0 <= n -> I 0 s -> (forall i a, 0 <= i < n -> I i a -> safe (I (i + 1)) (f i a)) -> safe (I n) (for_loop n f s).
Proof.
  intros Hn H0 Hf. unfold for_loop.
  assert (G : forall k i a, 0 <= i -> i + Z.of_nat k = n -> I i a -> safe (I n) (for_from k i f a)).
  { induction k as [|k IH]; intros i a Hi Hk Ha; cbn [for_from].
    - cbn. by replace n with i by lia.
    - eapply safe_bind; [apply Hf; [lia|done]|]. intros b Hb. apply IH; [lia|lia|done]. }
  apply G; [lia|lia|done].
Qed.

(** Walk through a checked program: every access gives its bounds as a goal for
    [lia]. *)
Ltac mem_step :=
  lazymatch goal with
  | |- safe _ (mret _) => cbn [mret mem_ret safe]
  | |- safe _ (rd _ _ ≫= _) => eapply safe_bind; [apply safe_rd; lia|intros ? ?; cbn beta in *]
  | |- safe _ (rd_slice _ _ _ ≫= _) => eapply safe_bind; [apply safe_rd_slice; lia|intros ? ?; cbn beta in *]
  | |- safe _ (read_u16 _ _ ≫= _) => eapply safe_bind; [apply safe_u16; lia|intros ? ?; cbn beta in *]
  | |- safe _ (read_u32 _ _ ≫= _) => eapply safe_bind; [apply safe_u32; lia|intros ? ?; cbn beta in *]
  | |- safe _ (write_u32 _ _ _ ≫= _) => eapply safe_bind; [apply safe_write_u32; lia|intros ? ?; cbn beta in *]
  end.

Ltac mem_if := match goal with |- safe _ (if ?b then _ else _) => destruct b eqn:? end.

(** ** The decoders never leave a buffer *)

Definition image_ok (im : image) : Prop :=
  0 < i_w im <= NS_WUFFS_MAX_DIM /\ 0 < i_h im <= NS_WUFFS_MAX_DIM /\ i_w im * 4 <= i_stride im /\
  i_stride im * i_h im <= zlen (i_pix im).

Definition opt_ok {A} (P : A -> Prop) (o : option A) : Prop := match o with Some a => P a | None => True end.

(** Wuffs reports unsigned numbers. *)
Definition unsigned_answer (a : wuffs_answer) : Prop :=
  0 <= wa_pixbuf_len a /\ opt_ok (fun s => 0 <= s) (wa_plane a) /\ opt_ok (fun d => 0 <= d.1 /\ 0 <= d.2) (wa_config a).

Lemma detect_safe data : safe (fun _ => True) (ns_wuffs_detect data).
Proof.
  unfold ns_wuffs_detect. mem_if; [done|]. boolify. mem_step. mem_if; [done|].
  eapply (safe_bind (fun _ => True)).
  - mem_if; [|done]. boolify. mem_step. done.
  - intros b _. destruct b; [done|]. mem_if; [done|]. mem_if; [done|]. mem_if; [|done]. boolify. by mem_step.
Qed.

Definition texture_ok (t : ns_texture) : Prop :=
  0 < t_width t /\ 0 < t_height t /\ zlen (t_bgra t) = t_stride t * t_height t.

Lemma texture_safe w h b stride : 0 <= stride -> safe (opt_ok texture_ok) (ns_texture_new w h b stride).
Proof.
  intros Hs. unfold ns_texture_new. mem_if; [done|]. mem_if; [done|]. mem_if; [done|]. boolify.
  assert (0 <= stride * h) by nia. mem_step. by split.
Qed.

Section Safe.
Variable wuffs : ns_wuffs_format -> bytes -> bool -> wuffs_answer.
Variable malloc : Z -> bool.
Hypothesis wuffs_unsigned : forall k d p, unsigned_answer (wuffs k d p).

Lemma alloc_len n d : 0 <= n -> alloc malloc n = Some d -> zlen d = n.
Proof. intros Hn. unfold alloc. destruct (malloc n); [|done]. intros [= <-]. by apply zlen_replicate. Qed.

Lemma fill_len buf pixels : zlen (fill buf pixels) = zlen buf.
Proof. unfold fill, zlen. rewrite length_take, length_app, length_drop. lia. Qed.

Lemma decode_still_safe data p :
  safe (opt_ok image_ok) (ns_wuffs_decode_still_to_bgra wuffs malloc data p).
Proof.
  unfold ns_wuffs_decode_still_to_bgra. eapply safe_bind; [apply detect_safe|]. intros k _.
  destruct (wuffs_unsigned k data p) as (Hp & Hs & Hc). cbv zeta. mem_if; [done|].
  destruct (wa_config _) as [[w h]|]; [|done]. cbn in Hc. mem_if; [done|]. boolify. mem_if; [done|]. boolify.
  destruct (alloc malloc _) as [pix|] eqn:Ea; [|done]. apply alloc_len in Ea; [|done].
  mem_if; [done|]. mem_if; [done|]. mem_if; [done|].
  destruct (wa_plane _) as [stride|]; [|done]. cbn in Hs. mem_if; [done|]. boolify.
  cbn. unfold image_ok. cbn. rewrite fill_len, Ea. lia.
Qed.

Lemma bare_safe tag payload :
  length tag = 4%nat -> safe (fun _ => True) (ns_webp_bare_container malloc tag payload).
Proof.
  intros Ht. unfold ns_webp_bare_container. pose proof (zlen_nonneg payload). mem_if; [done|]. cbv zeta.
  assert (0 <= Z.land (zlen payload) 1) by (apply Z.land_nonneg; lia).
  destruct (alloc malloc _) as [out|] eqn:Ea; [|done]. apply alloc_len in Ea; [|lia].
  assert (zlen (take 4 tag) = 4) by (unfold zlen; rewrite length_take; lia).
  eapply safe_bind; [apply safe_wr_slice; [lia|change (zlen ($"RIFF")) with 4; lia]|]. intros d1 L1. cbn beta in *.
  mem_step. eapply safe_bind; [apply safe_wr_slice; [lia|change (zlen ($"WEBP")) with 4; lia]|]. intros d2 L2. cbn beta in *.
  eapply safe_bind; [apply safe_wr_slice; lia|]. intros d3 L3. cbn beta in *. mem_step.
  eapply safe_bind; [apply safe_wr_slice; lia|]. done.
Qed.

Definition chunks_ok (c : ns_webp_chunks) : Prop := length (body_tag c) = 4%nat.

Lemma anmf_safe fuel data sub sub_end al :
  0 <= sub -> sub_end <= zlen data -> Z.max 0 (sub_end - sub) < Z.of_nat fuel ->
  safe (opt_ok chunks_ok) (anmf_loop fuel data sub sub_end al).
Proof.
  revert sub al. induction fuel as [|f IH]; intros sub al H1 H2 Hf; cbn [anmf_loop].
  { lia. }
  mem_if; [|done]. boolify. mem_step. mem_step. cbv zeta. mem_if; [done|]. boolify.
  assert (0 <= Z.land a0 1) by (apply Z.land_nonneg; lia).
  mem_if; [mem_step; apply IH; lia|]. mem_if; [mem_step; cbn; unfold chunks_ok, zlen in *; cbn; lia|].
  apply IH; lia.
Qed.

Lemma chunk_safe fuel data pos riff_len al :
  0 <= pos -> riff_len <= zlen data -> Z.max 0 (riff_len - pos) < Z.of_nat fuel ->
  safe (opt_ok chunks_ok) (chunk_loop fuel data pos riff_len al).
Proof.
  revert pos al. induction fuel as [|f IH]; intros pos al H1 H2 Hf; cbn [chunk_loop].
  { lia. }
  mem_if; [|done]. boolify. mem_step. mem_step. cbv zeta. mem_if; [done|]. boolify.
  assert (0 <= Z.land a0 1) by (apply Z.land_nonneg; lia).
  mem_if; [mem_step; apply IH; lia|]. mem_if; [mem_step; cbn; unfold chunks_ok, zlen in *; cbn; lia|].
  mem_if; [apply anmf_safe; unfold NS_WEBP_ANMF_HEADER, zlen in *; lia|]. apply IH; lia.
Qed.

Lemma find_chunks_safe data : safe (opt_ok chunks_ok) (ns_webp_find_chunks data).
Proof.
  unfold ns_webp_find_chunks. mem_if; [done|]. boolify. mem_step. apply chunk_safe; unfold zlen in *; lia.
Qed.

Lemma unfilter_row_len m row prev : match prev with Some p => length p = length row | None => True end ->
  length (unfilter_row m row prev) = length row.
Proof.
  assert (L : forall row p, length (unfilter_left p row) = length row) by (intros r; induction r; intros; cbn; auto).
  assert (U : forall row prev, length prev = length row -> length (unfilter_up row prev) = length row).
  { intros r; induction r; intros [|? ?]; cbn; intros; try done. f_equal. auto. }
  assert (D : forall row prev l t, length prev = length row -> length (unfilter_gradient l t row prev) = length row).
  { intros r; induction r; intros [|? ?]; cbn; intros; try done. f_equal. auto. }
  intros H. unfold unfilter_row. destruct prev; [|apply L]. repeat case_test; auto.
Qed.

Lemma unfilter_safe plane w h m :
  0 <= w -> 0 <= h -> zlen plane = w * h -> safe (fun p => zlen p = w * h) (ns_webp_alpha_unfilter plane w h m).
Proof.
  intros Hw Hh Hp. unfold ns_webp_alpha_unfilter. mem_if; [done|].
  apply (safe_for (fun _ p => zlen p = w * h)); [done|done|]. intros y p Hy Hl.
  assert (0 <= y * w /\ y * w + w <= w * h) by nia. mem_step.
  eapply (safe_bind (fun o => match o with Some q => zlen q = w | None => True end)).
  - mem_if; [done|]. boolify. assert (0 <= y * w - w) by nia. mem_step. done.
  - intros prev Hq. assert (L : zlen (unfilter_row m a prev) = w).
    { unfold zlen in *. rewrite unfilter_row_len; [done|]. destruct prev; [lia|done]. }
    eapply safe_mono; [apply safe_wr_slice; lia|]. cbn beta. lia.
Qed.

Lemma vp8l_header_len w h : zlen (vp8l_header w h) = 5. Proof. done. Qed.

Lemma green_safe im w h plane :
  image_ok im -> i_w im = w -> i_h im = h -> zlen plane = w * h ->
  safe (fun p => zlen p = w * h)
    (for_loop h (fun y plane => for_loop w (fun x plane =>
       g ← rd (i_pix im) (y * i_stride im + x * 4 + 1); wr plane (y * w + x) g) plane) plane).
Proof.
  intros (Hw & Hh & Hs & Hl) Ew Eh Hp. subst w h.
  apply (safe_for (fun _ p => zlen p = i_w im * i_h im)); [lia|done|]. intros y p Hy Lp.
  apply (safe_for (fun _ p => zlen p = i_w im * i_h im)); [lia|done|]. intros x q Hx Lq.
  assert (0 <= y * i_stride im /\ y * i_stride im + i_stride im <= i_stride im * i_h im) by nia.
  assert (0 <= y * i_w im /\ y * i_w im + i_w im <= i_w im * i_h im) by nia.
  mem_step. eapply safe_mono; [apply safe_wr; lia|]. cbn beta. lia.
Qed.

Lemma alpha_plane_safe alph w h :
  safe (opt_ok (fun p => zlen p = w * h)) (ns_webp_alpha_plane wuffs malloc alph w h).
Proof.
  unfold ns_webp_alpha_plane. mem_if; [done|]. boolify. mem_step. cbv zeta.
  assert (Hwh : 0 <= w * h) by nia. mem_if.
  - mem_if; [done|]. boolify. destruct (alloc malloc _) as [plane|] eqn:Ea; [|done]. apply alloc_len in Ea; [|done].
    mem_step. eapply safe_bind; [apply safe_wr_slice; lia|]. intros p Lp. cbn beta in *.
    eapply safe_bind; [apply unfilter_safe; lia|]. done.
  - mem_if; [|done]. destruct (alloc malloc _) as [v|] eqn:Ea; [|done]. apply alloc_len in Ea; [|lia].
    eapply safe_bind; [apply safe_wr_slice; rewrite ?vp8l_header_len; lia|]. intros v1 L1. cbn beta in *.
    mem_step. eapply safe_bind; [apply safe_wr_slice; lia|]. intros v2 L2.
    eapply safe_bind; [by apply bare_safe|]. intros [bare|] _; [|done].
    eapply safe_bind; [apply decode_still_safe|]. intros [im|] Him; [|done]. cbn in Him.
    mem_if; [done|]. boolify. destruct (alloc malloc (w * h)) as [plane|] eqn:Eb; [|done]. apply alloc_len in Eb; [|done].
    eapply safe_bind; [by apply green_safe|]. intros p Lp. cbn beta in *.
    eapply safe_bind; [apply unfilter_safe; lia|]. done.
Qed.

Lemma apply_alpha_safe im plane :
  image_ok im -> zlen plane = i_w im * i_h im ->
  safe (fun p => zlen p = zlen (i_pix im))
    (ns_webp_apply_alpha (i_pix im) (i_stride im) (i_w im) (i_h im) plane).
Proof.
  intros (Hw & Hh & Hs & Hl) Hp. unfold ns_webp_apply_alpha.
  apply (safe_for (fun _ p => zlen p = zlen (i_pix im))); [lia|done|]. intros y p Hy Lp.
  apply (safe_for (fun _ p => zlen p = zlen (i_pix im))); [lia|done|]. intros x q Hx Lq. cbv zeta.
  assert (0 <= y * i_stride im /\ y * i_stride im + i_stride im <= i_stride im * i_h im) by nia.
  assert (0 <= y * i_w im /\ y * i_w im + i_w im <= i_w im * i_h im) by nia.
  do 4 mem_step. eapply safe_mono; [apply safe_wr_slice; [lia|]|cbn beta; lia].
  match goal with |- context [zlen [?a; ?b; ?c; ?d]] => change (zlen [a; b; c; d]) with 4 end. lia.
Qed.

Lemma to_bgra_safe data : safe (opt_ok image_ok) (ns_image_wuffs_decode_to_bgra wuffs malloc data).
Proof.
  unfold ns_image_wuffs_decode_to_bgra. eapply safe_bind; [apply detect_safe|]. intros k _.
  eapply (safe_bind (fun _ => True)).
  { mem_if; [|done]. unfold ns_webp_is_extended. mem_if; [|done]. boolify. by mem_step. }
  intros ext _. mem_if; [apply decode_still_safe|].
  eapply safe_bind; [apply find_chunks_safe|]. intros [c|] Hc; [|done]. cbn in Hc.
  eapply safe_bind; [by apply bare_safe|]. intros [bare|] _; [|done].
  eapply safe_bind; [apply decode_still_safe|]. intros [im|] Him; [|done]. cbn in Him.
  destruct (alpha c) as [al|]; [|done]. mem_if; [|done].
  eapply safe_bind; [apply alpha_plane_safe|]. intros [plane|] Hp; [|done]. cbn in Hp.
  eapply safe_bind; [by apply apply_alpha_safe|]. intros pix Lp. cbn beta in *.
  cbn. unfold image_ok in *. cbn. lia.
Qed.

Lemma decode_wuffs_safe data : safe (opt_ok texture_ok) (ns_image_decode_wuffs wuffs malloc data).
Proof.
  unfold ns_image_decode_wuffs. eapply safe_bind; [apply to_bgra_safe|]. intros [im|] Him; [|done].
  apply texture_safe. destruct Him as (? & ? & ? & _). lia.
Qed.

(** What an accepted icon bitmap satisfies. *)
Definition dib_ok (p : bytes) (d : dib) : Prop :=
  40 <= d_hdr d /\ 0 < d_w d <= NS_ICO_MAX_DIM /\ 0 < d_h d <= NS_ICO_MAX_DIM /\ 0 < d_bits d <= 32 /\
  0 <= d_pal_bytes d <= 1024 /\ d_pixel_off d + d_xor_size d <= zlen p.

Lemma dib_header_safe p : safe (opt_ok (dib_ok p)) (dib_header p).
Proof.
  unfold dib_header. cbv zeta. mem_if; [done|]. boolify. mem_step. mem_if; [done|]. boolify.
  do 4 mem_step. mem_if; [done|]. mem_if; [done|]. mem_if; [done|]. mem_if; [done|]. boolify. mem_step.
  mem_if; [done|]. mem_if; [done|]. mem_if; [done|]. boolify.
  assert (B : a2 = 1 \/ a2 = 4 \/ a2 = 8 \/ a2 = 24 \/ a2 = 32).
  { repeat match goal with H : (_ || _)%bool = true |- _ => apply orb_prop in H as [H|H] end; boolify; auto. }
  assert (E : Z.even (wrap_s 32 a1) = true) by (rewrite <- Z.negb_odd; by apply negb_true_iff).
  apply Z.even_spec in E as [h E]. unfold NS_ICO_MAX_DIM in *.
  cbn [safe opt_ok mret mem_ret]. unfold dib_ok. cbn [d_hdr d_w d_h d_bits d_pal_bytes].
  rewrite E, Z.mul_comm, Z.div_mul in * by done.
  assert (0 <= if a2 <=? 8 then if a4 =? 0 then Z.shiftl 1 a2 else a4 else 0).
  { destruct (a2 <=? 8); [|lia]. destruct (a4 =? 0); [|lia]. apply Z.shiftl_nonneg. lia. }
  repeat split; unfold NS_ICO_MAX_DIM; lia.
Qed.

Lemma xor_nonneg d p : dib_ok p d -> 0 <= d_xor_size d /\ 0 <= d_xor_row d.
Proof.
  intros (_ & Hw & Hh & Hb & _). unfold d_xor_size, d_xor_row.
  assert (0 <= (d_w d * d_bits d + 31) / 32) by (apply Z.div_pos; nia). nia.
Qed.

Lemma dib_to_bmp_safe p d bmp :
  dib_ok p d -> zlen bmp = d_bmp_len d -> safe (fun b => zlen b = d_bmp_len d) (dib_to_bmp p d bmp).
Proof.
  intros Hd Hl. pose proof (xor_nonneg d p Hd) as [Hx _]. destruct Hd as (H1 & H2 & H3 & H4 & H5 & H6).
  unfold d_bmp_len, d_data_off, d_pixel_off in *. unfold dib_to_bmp, d_data_off, d_pixel_off.
  eapply safe_bind; [apply safe_wr_slice; [lia|change (zlen ($"BM")) with 2; lia]|]. intros b1 L1. cbn beta in *.
  do 3 mem_step. mem_step. eapply safe_bind; [apply safe_wr_slice; lia|]. intros b2 L2. cbn beta in *.
  do 2 mem_step. mem_step. eapply safe_mono; [apply safe_wr_slice; lia|]. cbn beta. lia.
Qed.

Lemma mask_safe p d im :
  dib_ok p d -> image_ok im -> i_w im = d_w d -> i_h im = d_h d ->
  d_and_off d + d_and_row d * d_h d <= zlen p ->
  safe (fun b => zlen b = zlen (i_pix im)) (apply_mask p d im).
Proof.
  intros Hd (Hw & Hh & Hs & Hl) Ew Eh Hm. pose proof (xor_nonneg d p Hd) as [Hx _].
  assert (Hr : d_w d <= d_and_row d * 8 /\ 0 <= d_and_row d).
  { unfold d_and_row. destruct Hd as (_ & ? & _). pose proof (Z.div_mod (d_w d + 31) 32 ltac:(lia)).
    pose proof (Z.mod_pos_bound (d_w d + 31) 32 ltac:(lia)). lia. }
  assert (Ho : 0 <= d_and_off d).
  { unfold d_and_off, d_pixel_off. destruct Hd as (? & _ & _ & _ & ? & _). lia. }
  unfold apply_mask. rewrite Eh, Ew in *.
  apply (safe_for (fun _ b => zlen b = zlen (i_pix im))); [lia|done|]. intros y q Hy Lq. cbv zeta.
  apply (safe_for (fun _ b => zlen b = zlen (i_pix im))); [lia|done|]. intros x r Hx' Lr.
  assert (0 <= Z.shiftr x 3 < d_and_row d).
  { rewrite Z.shiftr_div_pow2 by lia. change (2 ^ 3) with 8. split; [apply Z.div_pos; lia|].
    apply Z.div_lt_upper_bound; lia. }
  assert (0 <= (d_h d - 1 - y) * d_and_row d /\ (d_h d - 1 - y) * d_and_row d + d_and_row d <= d_and_row d * d_h d) by nia.
  mem_step. mem_if; [done|].
  assert (0 <= y * i_stride im /\ y * i_stride im + i_stride im <= i_stride im * d_h d) by nia.
  eapply safe_mono; [apply safe_wr_slice; [lia|change (zlen [nul; nul; nul; nul]) with 4; lia]|cbn beta; lia].
Qed.

Lemma decode_dib_safe p : safe (opt_ok texture_ok) (decode_dib_entry wuffs malloc p).
Proof.
  unfold decode_dib_entry. eapply safe_bind; [apply dib_header_safe|]. intros [d|] Hd; [|done]. cbn in Hd.
  pose proof (xor_nonneg d p Hd) as [Hx _].
  assert (0 <= d_bmp_len d).
  { unfold d_bmp_len, d_data_off, d_pixel_off. destruct Hd as (? & _ & _ & _ & ? & _). lia. }
  destruct (alloc malloc _) as [bmp|] eqn:Ea; [|done]. apply alloc_len in Ea; [|done].
  eapply safe_bind; [by apply dib_to_bmp_safe|]. intros b Lb.
  eapply safe_bind; [apply to_bgra_safe|]. intros [im|] Him; [|done]. cbn in Him.
  eapply (safe_bind (fun _ => True)).
  - mem_if; [|done]. boolify. eapply safe_mono; [by apply (mask_safe p d im)|done].
  - intros pix _. apply texture_safe. destruct Him as (? & ? & ? & _). lia.
Qed.

(** The entry chosen lies in the file. *)
Definition best_ok (data : bytes) (count : Z) (b : best_entry) : Prop :=
  match b with
  | None => True
  | Some (i, _, _) =>
      0 <= i < count /\
      exists size off, read_u32 data (6 + i * 16 + 8) = Ret size /\ read_u32 data (6 + i * 16 + 12) = Ret off /\
        0 < size /\ 0 <= off /\ off + size <= zlen data
  end.

Lemma safe_value {A} P (m : mem A) : safe P m -> exists a, m = Ret a /\ P a.
Proof. destruct m as [|a]; [done|]. by exists a. Qed.

Lemma ico_entry_safe data count i b :
  6 + count * 16 <= zlen data -> 0 <= i < count -> best_ok data count b ->
  safe (best_ok data count) (ico_entry data i b).
Proof.
  intros Hl Hi Hb. unfold ico_entry. cbv zeta. do 3 mem_step.
  destruct (safe_value _ _ (safe_u32 data (6 + i * 16 + 8) ltac:(lia) ltac:(lia))) as (size & Es & Hs).
  destruct (safe_value _ _ (safe_u32 data (6 + i * 16 + 12) ltac:(lia) ltac:(lia))) as (off & Eo & Ho).
  rewrite Es, Eo. cbn [mbind mem_bind]. mem_if; [done|]. boolify. cbn.
  assert (K : forall x y, best_ok data count (Some (i, x, y))).
  { intros x y. split; [done|]. exists size, off. repeat split; try done; lia. }
  destruct b as [[[j bp] bb]|]; [|apply K]. destruct (_ || _); [apply K|done].
Qed.

Lemma decode_ico_safe data : safe (opt_ok texture_ok) (ns_image_decode_ico wuffs malloc data).
Proof.
  unfold ns_image_decode_ico. mem_if; [done|]. boolify. mem_step. mem_if; [done|]. mem_step. mem_if; [done|].
  mem_step. mem_if; [done|]. boolify. mem_if; [done|]. boolify.
  eapply safe_bind.
  - apply (safe_for (fun _ => best_ok data a1)); [lia|done|]. intros i b Hi Hb. by apply ico_entry_safe.
  - intros [[[b px] bits]|] Hb; [|done]. destruct Hb as (Hb & size & off & Es & Eo & ? & ? & ?).
    rewrite Es, Eo. cbn [mbind mem_bind]. mem_step.
    eapply (safe_bind (fun _ => True)); [|intros [] _; [apply decode_wuffs_safe|apply decode_dib_safe]].
    unfold is_png. mem_if; [|done]. boolify. by mem_step.
Qed.
End Safe.

Lemma png_loop_safe fuel data pos :
  0 <= pos -> Z.max 0 (zlen data - pos) < Z.of_nat fuel -> safe (fun _ => True) (png_loop fuel data pos).
Proof.
  revert pos. induction fuel as [|f IH]; intros pos Hp Hf; cbn [png_loop]; [lia|]. mem_if; [|done]. boolify.
  do 4 mem_step. cbv zeta. mem_step. mem_if; [done|]. mem_if; [done|]. mem_if; [done|]. mem_if; [done|].
  assert (0 <= Z.lor (Z.lor (Z.lor (Z.shiftl a 24) (Z.shiftl a0 16)) (Z.shiftl a1 8)) a2); [|apply IH; lia].
  rewrite !Z.lor_nonneg, !Z.shiftl_nonneg. lia.
Qed.

Lemma png_animated_safe data : safe (fun _ => True) (ns_image_png_is_animated data).
Proof.
  unfold ns_image_png_is_animated. mem_if; [done|]. boolify. mem_step. mem_if; [done|]. apply png_loop_safe; unfold zlen in *; lia.
Qed.

(** C7. The image containers are read and written in bounds: for every input,
    whatever Wuffs answers (in unsigned numbers) and whichever allocations fail,
    neither the ICO reader nor the decoder in front of Wuffs nor the test for
    animated PNGs accesses a byte outside a buffer or loops longer than its input,
    and a texture they make has a
    buffer of exactly its stride times its height. *)
Theorem images_in_bounds (wuffs : ns_wuffs_format -> bytes -> bool -> wuffs_answer) (malloc : Z -> bool)
    (data : bytes) :
  (forall k d p, unsigned_answer (wuffs k d p)) ->
  (exists o, ns_image_decode_ico wuffs malloc data = Ret o /\ opt_ok texture_ok o) /\
  (exists o, ns_image_decode_wuffs wuffs malloc data = Ret o /\ opt_ok texture_ok o) /\
  (exists b, ns_image_png_is_animated data = Ret b).
Proof.
  intros H. split; [|split].
  - apply safe_value. by apply decode_ico_safe.
  - apply safe_value. by apply decode_wuffs_safe.
  - destruct (safe_value _ _ (png_animated_safe data)) as (b & E & _). by exists b.
Qed.

(** A decoder for one-bit bitmaps of 8 by 1 pixels, to run the model with. *)
Definition demo_wuffs (k : ns_wuffs_format) (d : bytes) (p : bool) : wuffs_answer :=
  {| wa_decoder := true; wa_config := Some (8, 1); wa_pixbuf_len := 32; wa_set := true; wa_workbuf_len := 0;
     wa_frame := true; wa_too_much_data := false; wa_plane := Some 32;
     wa_pixels := replicate 32 (byte_of 255) |}.
Definition le16 (v : Z) : bytes := [byte_of v; byte_of (Z.shiftr v 8)].
(** An icon of one entry: a bitmap of 8 by 1 pixels, one bit each, whose mask hides
    the first pixel. *)
Definition demo_dib : bytes :=
  u32_bytes 40 ++ u32_bytes 8 ++ u32_bytes 2 ++ le16 1 ++ le16 1 ++ replicate 24 nul ++
  replicate 8 nul ++ u32_bytes 255 ++ u32_bytes 128.
Definition demo_ico : bytes :=
  le16 0 ++ le16 1 ++ le16 1 ++
  [byte_of 8; byte_of 1; nul; nul] ++ le16 1 ++ le16 1 ++ u32_bytes (zlen demo_dib) ++ u32_bytes 22 ++ demo_dib.

Lemma images_in_bounds_witness :
  exists t, ns_image_decode_ico demo_wuffs (fun _ => true) demo_ico = Ret (Some t) /\ texture_ok t /\
    t_bgra t = replicate 4 nul ++ replicate 28 (byte_of 255).
Proof.
  destruct (images_in_bounds demo_wuffs (fun _ => true) demo_ico) as [(o & E & T) _].
  { intros k d p. repeat split; vm_compute; discriminate. }
  assert (ns_image_decode_ico demo_wuffs (fun _ => true) demo_ico =
    Ret (Some (Build_ns_texture 8 1 32 (replicate 4 nul ++ replicate 28 (byte_of 255))))) as E'
    by (vm_compute; reflexivity).
  rewrite E' in E. injection E as <-. eexists. split; [exact E'|]. by split.
Defined.

(** ** The icon chosen *)

(** The directory of an icon file, read without checks. *)
Definition byte_at (d : bytes) (i : Z) : Z := code (nth (Z.to_nat i) d nul).
Definition le2 (d : bytes) (i : Z) : Z := byte_at d i + byte_at d (i + 1) * 2 ^ 8.
Definition le4 (d : bytes) (i : Z) : Z := le2 d i + byte_at d (i + 2) * 2 ^ 16 + byte_at d (i + 3) * 2 ^ 24.

Record icon := { ic_pixels : Z; ic_bits : Z; ic_size : Z; ic_off : Z }.
Definition icon_at (d : bytes) (i : Z) : icon :=
  let e := 6 + i * 16 in
  let side v := if v =? 0 then 256 else v in
  {| ic_pixels := side (byte_at d e) * side (byte_at d (e + 1)); ic_bits := le2 d (e + 6);
     ic_size := le4 d (e + 8); ic_off := le4 d (e + 12) |}.
Definition usable (d : bytes) (i : Z) : Prop :=
  ic_size (icon_at d i) <> 0 /\ ic_off (icon_at d i) + ic_size (icon_at d i) <= zlen d.

(** More pixels, or as many pixels and more bits. *)
Definition outranks (a b : icon) : Prop :=
  ic_pixels b < ic_pixels a \/ ic_pixels a = ic_pixels b /\ ic_bits b < ic_bits a.

(** [i] is the first of the best usable entries among the first [n]. *)
Definition best_of (d : bytes) (n i : Z) : Prop :=
  0 <= i < n /\ usable d i /\
  forall j, 0 <= j < n -> usable d j ->
    ~ outranks (icon_at d j) (icon_at d i) /\ (j < i -> outranks (icon_at d i) (icon_at d j)).

Definition is_icon_file (d : bytes) : Prop :=
  6 <= zlen d /\ le2 d 0 = 0 /\ (le2 d 2 = 1 \/ le2 d 2 = 2) /\
  0 < le2 d 4 <= NS_ICO_MAX_ENTRIES /\ 6 + le2 d 4 * 16 <= zlen d.

Lemma rd_at d i : 0 <= i < zlen d -> rd d i = Ret (byte_at d i).
Proof. intros H. unfold rd. by assert (in_buffer d i 1 = true) as -> by (apply in_buffer_true; lia). Qed.

Lemma byte_at_range d i : 0 <= byte_at d i < 256.
Proof. apply code_range. Qed.

Lemma le4_nonneg d i : 0 <= le4 d i.
Proof.
  unfold le4, le2. pose proof (byte_at_range d i). pose proof (byte_at_range d (i + 1)).
  pose proof (byte_at_range d (i + 2)). pose proof (byte_at_range d (i + 3)). lia.
Qed.

Lemma u16_at d p : 0 <= p -> p + 2 <= zlen d -> read_u16 d p = Ret (le2 d p).
Proof.
  intros H1 H2. unfold read_u16. rewrite !rd_at by lia. cbn [mbind mem_bind mret mem_ret].
  f_equal. apply lor_shift; [lia|apply byte_at_range].
Qed.

Lemma u32_at d p : 0 <= p -> p + 4 <= zlen d -> read_u32 d p = Ret (le4 d p).
Proof.
  intros H1 H2. unfold read_u32. rewrite !rd_at by lia. cbn [mbind mem_bind mret mem_ret]. f_equal.
  pose proof (byte_at_range d p). pose proof (byte_at_range d (p + 1)). pose proof (byte_at_range d (p + 2)).
  rewrite (lor_shift _ _ 8), (lor_shift _ _ 16), (lor_shift _ _ 24) by lia. done.
Qed.

(** The running best entry after the first [n]. *)
Definition best_so_far (d : bytes) (n : Z) (b : best_entry) : Prop :=
  match b with
  | None => forall j, 0 <= j < n -> ~ usable d j
  | Some (i, px, bits) => best_of d n i /\ px = ic_pixels (icon_at d i) /\ bits = ic_bits (icon_at d i)
  end.

Lemma ico_entry_eq data i b :
  0 <= i -> 6 + i * 16 + 16 <= zlen data ->
  ico_entry data i b =
    let c := icon_at data i in
    Ret (if (ic_size c =? 0) || (zlen data <? ic_off c + ic_size c) then b
         else match b with
              | None => Some (i, ic_pixels c, ic_bits c)
              | Some (_, px, bits) =>
                  if (px <? ic_pixels c) || ((ic_pixels c =? px) && (bits <? ic_bits c))
                  then Some (i, ic_pixels c, ic_bits c) else b
              end).
Proof.
  intros Hi Hl. unfold ico_entry. cbv zeta. rewrite !rd_at, u16_at, !u32_at by lia.
  cbn [mbind mem_bind mret mem_ret icon_at ic_pixels ic_bits ic_size ic_off]. by destruct (_ || _).
Qed.

Lemma ico_entry_best data count i b :
  6 + count * 16 <= zlen data -> 0 <= i < count -> best_so_far data i b ->
  safe (best_so_far data (i + 1)) (ico_entry data i b).
Proof.
  intros Hl Hi Hb. rewrite ico_entry_eq by lia. cbv zeta. cbn [safe].
  assert (Split : forall j, 0 <= j < i + 1 -> j = i \/ 0 <= j < i) by lia.
  match goal with |- best_so_far _ _ (if ?c then _ else _) => destruct c eqn:E end.
  - assert (Hu : ~ usable data i) by (unfold usable; boolify; apply orb_prop in E as [E|E]; boolify; lia).
    destruct b as [[[j px] bits]|]; cbn [best_so_far] in *.
    + destruct Hb as [(Hj & Uj & Hb) E']. split; [|done]. split_and!; [lia|lia|done|].
      intros k Hk Uk. destruct (Split k Hk) as [->|]; [done|auto].
    + intros k Hk. destruct (Split k Hk) as [->|]; auto.
  - assert (Hu : usable data i) by (unfold usable; boolify; lia).
    destruct b as [[[j px] bits]|]; cbn [best_so_far] in *.
    + destruct Hb as [(Hj & Uj & Hb) [-> ->]]. match goal with |- best_so_far _ _ (if ?c then _ else _) => destruct c eqn:B end; cbn [best_so_far].
      * assert (O : outranks (icon_at data i) (icon_at data j)).
        { unfold outranks. apply orb_prop in B as [B|B]; boolify; lia. }
        split; [|done]. split_and!; [lia|lia|done|]. intros k Hk Uk.
        destruct (Split k Hk) as [->|Hk']; [unfold outranks; lia|]. specialize (Hb k Hk' Uk).
        unfold outranks in *. lia.
      * assert (O : ~ outranks (icon_at data i) (icon_at data j)).
        { unfold outranks. boolify. lia. }
        split; [|done]. split_and!; [lia|lia|done|]. intros k Hk Uk.
        destruct (Split k Hk) as [->|Hk']; [|by apply Hb]. split; [done|lia].
    + split; [|done]. split_and!; [lia|lia|done|]. intros k Hk Uk.
      destruct (Split k Hk) as [->|Hk']; [unfold outranks; lia|]. by destruct (Hb k Hk').
Qed.

Lemma is_png_spec d : is_png d = Ret (bool_decide (png_sig `prefix_of` d)).
Proof.
  unfold is_png. change (length png_sig) with 8%nat. destruct (8 <=? zlen d) eqn:E; boolify; unfold zlen in *.
  - unfold rd_slice. assert (in_buffer d 0 8 = true) as -> by (apply in_buffer_true; unfold zlen; lia).
    cbn [mbind mem_bind mret mem_ret]. f_equal. rewrite drop_0. apply bool_decide_ext. split.
    + intros <-. exists (drop 8 d). symmetry. apply take_drop.
    + intros [r ->]. done.
  - f_equal. symmetry. apply bool_decide_eq_false_2. intros [r ->]. rewrite length_app in *.
    change (length png_sig) with 8%nat in *. lia.
Qed.

(** An icon file is shown by its best entry: among the entries whose data lie in
    the file, the first with the most pixels, or of those with the most bits per
    pixel; its data are decoded as a PNG when they start with its signature and as
    a bitmap otherwise. There is no image exactly when the header is not an icon's
    or no entry can be used, or when decoding that entry gives none. *)
Theorem ico_best_entry (wuffs : ns_wuffs_format -> bytes -> bool -> wuffs_answer) (malloc : Z -> bool)
    (data : bytes) :
  let out := ns_image_decode_ico wuffs malloc data in
  (~ is_icon_file data -> out = Ret None) /\
  (is_icon_file data ->
    (forall j, 0 <= j < le2 data 4 -> ~ usable data j) /\ out = Ret None \/
    exists i, best_of data (le2 data 4) i /\
      let c := icon_at data i in
      let payload := take (Z.to_nat (ic_size c)) (drop (Z.to_nat (ic_off c)) data) in
      out = if bool_decide (png_sig `prefix_of` payload) then ns_image_decode_wuffs wuffs malloc payload
            else decode_dib_entry wuffs malloc payload).
Proof.
  cbv zeta. unfold ns_image_decode_ico, is_icon_file.
  destruct (zlen data <? 6) eqn:E1; boolify; [split; [done|lia]|].
  rewrite !u16_at by lia. cbn [mbind mem_bind].
  destruct (le2 data 0 =? 0) eqn:E2; cbn [negb]; boolify; [|split; [done|lia]].
  destruct (negb (le2 data 2 =? 1) && _) eqn:E3; boolify; [split; [done|lia]|].
  pose proof (byte_at_range data 4). pose proof (byte_at_range data 5).
  assert (0 <= le2 data 4) by (unfold le2; change (4 + 1) with 5; lia).
  destruct ((le2 data 4 =? 0) || _) eqn:E4; boolify.
  { split; [done|]. apply orb_prop in E4 as [E4|E4]; boolify; lia. }
  destruct (zlen data <? 6 + _) eqn:E5; boolify; [split; [done|lia]|].
  assert (T : le2 data 2 = 1 \/ le2 data 2 = 2).
  { apply andb_false_iff in E3 as [E3|E3]; boolify; auto. }
  split; [intros N; exfalso; apply N; repeat split; lia || done|intros _].
  destruct (safe_value _ _ (safe_for (best_so_far data) (le2 data 4) (ico_entry data) None ltac:(lia)
    ltac:(cbn; lia) ltac:(intros i b ? ?; by eapply ico_entry_best with (count := le2 data 4); [lia|lia|]))) as (b & Eb & Hb).
  rewrite Eb. destruct b as [[[i px] bits]|]; cbn [best_so_far] in Hb; [right|by left].
  destruct Hb as [Hb _]. exists i. split; [done|]. destruct Hb as (Hi & [U1 U2] & _).
  cbn [icon_at ic_size ic_off mbind mem_bind] in *. rewrite !u32_at by lia.
  pose proof (le4_nonneg data (6 + i * 16 + 8)). pose proof (le4_nonneg data (6 + i * 16 + 12)).
  cbn [mbind mem_bind]. unfold rd_slice at 1.
  assert (in_buffer data (le4 data (6 + i * 16 + 12)) (le4 data (6 + i * 16 + 8)) = true) as -> by (apply in_buffer_true; lia).
  cbn [mbind mem_bind]. rewrite is_png_spec. cbn [mbind mem_bind]. by case_bool_decide.
Qed.

Lemma ico_best_entry_witness :
  is_icon_file demo_ico /\
  exists i, best_of demo_ico 1 i /\
    ns_image_decode_ico demo_wuffs (fun _ => true) demo_ico = decode_dib_entry demo_wuffs (fun _ => true) demo_dib.
Proof.
  assert (H : is_icon_file demo_ico).
  { unfold is_icon_file. vm_compute. repeat split; (discriminate || reflexivity || (left; reflexivity)). }
  split; [exact H|].
  destruct (proj2 (ico_best_entry demo_wuffs (fun _ => true) demo_ico) H) as [[N _]|(i & B & E)].
  - exfalso. apply (N 0); [change (le2 demo_ico 4) with 1; lia|]. split; vm_compute; discriminate.
  - exists i. split; [exact B|]. assert (i = 0) as -> by (destruct B as [B _]; change (le2 demo_ico 4) with 1 in B; lia).
    exact E.
Defined.
