(* ===== verification/ExtMatch.v ===== *)
(** * Extensions: what rules and scripts match ([src/ext.c])

    The matching half of the extension host: match patterns and globs of content
    scripts, the URL filters and domain lists of blocking rules, and the verdict
    on a request. Regular expressions (GRegex) and the public suffix list are
    arguments. *)

From S2P Require Import Prelude CStr GLib Url.

(** ** Data *)

(** A regular expression that compiled: its text and whether it ignores case. *)
Record regex := { rx_text : bytes; rx_caseless : bool }.

(** [action] is 0 for a blocking rule and 1 for an allowing one: [r_allow]. *)
Record ns_dnr_rule := {
  priority : Z;
  r_allow : bool;
  third_party : Z;
  url_filter : option bytes;
  r_regex : option regex;
  case_sensitive : bool;
  request_domains : option (list bytes);
  excluded_request_domains : option (list bytes);
  initiator_domains : option (list bytes);
  excluded_initiator_domains : option (list bytes);
  resource_types : option (list bytes);
  excluded_resource_types : option (list bytes);
}.

Record ns_cosmetic_rule := {
  domains : option (list bytes);
  excluded_domains : option (list bytes);
  selector : bytes;
}.

Record ns_ext_cs := {
  matches : list bytes;
  exclude_matches : list bytes;
  include_globs : list bytes;
  exclude_globs : list bytes;
  all_js : option bytes;
  all_css : option bytes;
  at_start : bool;
}.

Record ns_ext := {
  e_id : bytes;
  e_name : bytes;
  e_version : bytes;
  url_id : bytes;
  base_dir : bytes;
  manifest_json : bytes;
  content_scripts : list ns_ext_cs;
  dnr_rules : list ns_dnr_rule;
  cosmetic_rules : list ns_cosmetic_rule;
}.

Section Match.
Context {G : GLib} {P : Psl}.
Variable g_regex_match : regex -> bytes -> bool.

(** ** URLs and match patterns *)

(** The recursion of the code on the pattern, and its loop over the string after
    a star. *)
Fixpoint ns_ext_wildcard (pat str : bytes) : bool :=
  match pat with
  | [] => str =b []
  | c :: pat' =>
      if c =c "*" then
        match pat' with
        | [] => true
        | _ => (fix after_star (s : bytes) : bool :=
                  match s with
                  | [] => false
                  | _ :: s' => ns_ext_wildcard pat' s || after_star s'
                  end) str
        end
      else
        match str with
        | [] => false
        | d :: str' => if c =c "?" then ns_ext_wildcard pat' str'
                       else if c =c d then ns_ext_wildcard pat' str' else false
        end
  end.

Definition url_end (c : ascii) : bool := memb c ($"/?#").

(** What follows the last [@], or everything. *)
Fixpoint after_at (s h : bytes) : bytes :=
  match s with
  | [] => h
  | c :: s' => after_at s' (if c =c "@" then s' else h)
  end.

Definition ns_ext_strip_port (host : bytes) : bytes :=
  match (if head_is (fun c => c =c "[") host then strchr host "]" else None) with
  | Some close => before host "]" ++ take 1 close
  | None => before host ":"
  end.

(** The host in an authority without user information: an address in brackets keeps
    them, anything else ends at the first colon. *)
Definition host_part (h : bytes) : bytes :=
  if head_is (fun c => c =c "[") h
  then match strchr h "]" with Some close => before h "]" ++ take 1 close | None => h end
  else before h ":".

Definition ns_ext_url_split (url : option bytes) : option (bytes * bytes * bytes) :=
  match url with
  | None => None
  | Some url =>
      match strstr url ($"://") with
      | None => None
      | Some (scheme, sep) =>
          let authority := drop 3 sep in
          let auth := take_while (fun c => negb (url_end c)) authority in
          let he := drop_while (fun c => negb (url_end c)) authority in
          let host := host_part (after_at auth auth) in
          let path := if head_is (fun c => c =c "/") he then cspan ($"?#") he else $"/" in
          Some (g_ascii_strdown scheme, g_ascii_strdown host, path)
      end
  end.

Definition ns_ext_scheme_generic (scheme : bytes) : bool :=
  (scheme =b $"http") || (scheme =b $"https") || (scheme =b $"ws") || (scheme =b $"wss").

(** [host] ends in a dot and [suffix]. *)
Definition dotted_tail (suffix host : bytes) : bool :=
  let hl := length host in let sl := length suffix in
  (sl <? hl) && (nth (hl - sl - 1) host nul =c ".") && (drop (hl - sl) host =b suffix).

Definition ns_ext_host_match (pat host : bytes) : bool :=
  if pat =b $"*" then true
  else match pat with
       | c :: d :: suffix =>
           if (c =c "*") && (d =c ".") then (host =b suffix) || dotted_tail suffix host
           else pat =b host
       | _ => pat =b host
       end.

Definition ns_ext_pattern_match (pattern url : bytes) : bool :=
  match ns_ext_url_split (Some url) with
  | None => false
  | Some (uscheme, uhost, upath) =>
      if pattern =b $"<all_urls>"
      then ns_ext_scheme_generic uscheme || (uscheme =b $"ftp") || (uscheme =b $"file") || (uscheme =b $"data")
      else
        match ns_ext_url_split (Some pattern) with
        | None => false
        | Some (pscheme, phost, ppath) =>
            (if pscheme =b $"*" then ns_ext_scheme_generic uscheme else pscheme =b uscheme) &&
            ns_ext_host_match phost uhost && ns_ext_wildcard ppath upath
        end
  end.

Definition ns_ext_pattern_list_matches (patterns : list bytes) (url : bytes) : bool :=
  existsb (fun p => ns_ext_pattern_match p url) patterns.
Definition ns_ext_glob_list_matches (patterns : list bytes) (url : bytes) : bool :=
  existsb (fun p => ns_ext_wildcard p url) patterns.

Definition ns_ext_content_script_matches (cs : ns_ext_cs) (url : bytes) : bool :=
  if negb (ns_ext_pattern_list_matches (matches cs) url) then false
  else if ns_ext_pattern_list_matches (exclude_matches cs) url then false
  else if negb (include_globs cs =b []) && negb (ns_ext_glob_list_matches (include_globs cs) url) then false
  else negb (ns_ext_glob_list_matches (exclude_globs cs) url).

(** ** URL filters *)

Definition ns_dnr_sep (c : ascii) : bool :=
  negb (g_ascii_isalnum c || (c =c "_") || (c =c "-") || (c =c ".") || (c =c "%")).

Fixpoint ns_dnr_match_here (p s : bytes) (end_anchor : bool) : bool :=
  match p with
  | [] => if end_anchor then s =b [] else true
  | c :: p' =>
      if c =c "*" then
        match p' with
        | [] => true
        | _ => (fix after_star (s : bytes) : bool :=
                  ns_dnr_match_here p' s end_anchor ||
                  match s with [] => false | _ :: s' => after_star s' end) s
        end
      else if c =c "^" then
        match s with
        | [] => ns_dnr_match_here p' [] end_anchor
        | d :: s' => if ns_dnr_sep d then ns_dnr_match_here p' s' end_anchor else false
        end
      else
        match s with
        | [] => false
        | d :: s' => if d =c c then ns_dnr_match_here p' s' end_anchor else false
        end
  end.

(** The loop over the positions of the host after [hs]: the byte before the
    position is [prev], and [n] positions are left before the last. *)
Fixpoint host_positions (body pos : bytes) (prev : option ascii) (n : nat) (end_anchor : bool) : bool :=
  (match prev with None => true | Some c => c =c "." end && ns_dnr_match_here body pos end_anchor) ||
  match n, pos with
  | S n', c :: pos' => host_positions body pos' (Some c) n' end_anchor
  | _, _ => false
  end.

Fixpoint any_position (body pos : bytes) (end_anchor : bool) : bool :=
  ns_dnr_match_here body pos end_anchor ||
  match pos with [] => false | _ :: pos' => any_position body pos' end_anchor end.

(** The filter without its anchors. *)
Inductive anchor := ANCHOR_NONE | ANCHOR_START | ANCHOR_DOMAIN.
Definition filter_anchor (f : bytes) : anchor * bytes :=
  match f with
  | c :: r =>
      if c =c "|"
      then match r with
           | d :: r' => if d =c "|" then (ANCHOR_DOMAIN, r') else (ANCHOR_START, r)
           | [] => (ANCHOR_START, r)
           end
      else (ANCHOR_NONE, f)
  | [] => (ANCHOR_NONE, f)
  end.
Definition filter_end (body : bytes) : bytes * bool :=
  match rev body with
  | c :: r => if c =c "|" then (rev r, true) else (body, false)
  | [] => (body, false)
  end.

Definition host_start (u : bytes) : bytes :=
  match strstr u ($"://") with Some (_, h) => drop 3 h | None => u end.

Definition ns_dnr_urlfilter_match (filter : option bytes) (url : bytes) (cs : bool) : bool :=
  match filter with
  | None | Some [] => true
  | Some filter =>
      let u := if cs then url else g_ascii_strdown url in
      let f := if cs then filter else g_ascii_strdown filter in
      let '(anchor, p) := filter_anchor f in
      let '(body, end_anchor) := filter_end p in
      match anchor with
      | ANCHOR_DOMAIN =>
          let hs := host_start u in
          host_positions body hs None (length (take_while (fun c => negb (url_end c)) hs)) end_anchor
      | ANCHOR_START => ns_dnr_match_here body u end_anchor
      | ANCHOR_NONE => any_position body u end_anchor
      end
  end.

Definition ns_dnr_domain_match (domain host : bytes) : bool :=
  (domain =b host) || dotted_tail domain host.
Definition ns_dnr_domain_list_match (l : list bytes) (host : option bytes) : bool :=
  match host with None => false | Some h => existsb (fun d => ns_dnr_domain_match d h) l end.

(** The last dot of the last segment of the path: its suffix. *)
Fixpoint last_dot (p : bytes) (dot : option bytes) : option bytes :=
  match p with
  | [] => dot
  | c :: p' => last_dot p' (if c =c "." then Some p else if c =c "/" then None else dot)
  end.

Definition ext_types : list (bytes * bytes) :=
  [($"js", $"script"); ($"mjs", $"script"); ($"css", $"stylesheet");
   ($"png", $"image"); ($"jpg", $"image"); ($"jpeg", $"image"); ($"gif", $"image"); ($"svg", $"image");
   ($"ico", $"image"); ($"bmp", $"image"); ($"avif", $"image"); ($"apng", $"image");
   ($"woff", $"font"); ($"woff2", $"font"); ($"ttf", $"font"); ($"otf", $"font"); ($"eot", $"font");
   ($"mp4", $"media"); ($"webm", $"media"); ($"mp3", $"media"); ($"ogg", $"media"); ($"oga", $"media");
   ($"ogv", $"media"); ($"wav", $"media"); ($"m4a", $"media"); ($"m4v", $"media"); ($"mpg", $"media");
   ($"mpeg", $"media"); ($"mov", $"media")].

Definition ns_dnr_infer_type (url : bytes) : option bytes :=
  match last_dot (cspan ($"?#") url) None with
  | None => None
  | Some dot =>
      let ext := g_ascii_strdown (drop 1 dot) in
      option_map snd (List.find (fun e => ext =b e.1) ext_types)
  end.

Definition ns_dnr_type_in_list (l : list bytes) (type : option bytes) : bool :=
  match type with None => false | Some t => existsb (fun x => x =b t) l end.

(** -1: unknown, 0: the same site, 1: another. *)
Definition ns_ext_third_party (req_host init_host : option bytes) : Z :=
  match req_host, init_host with
  | Some rq, Some ini =>
      let rh := ns_ext_strip_port rq in let ih := ns_ext_strip_port ini in
      if (rh =b []) || (ih =b []) then -1
      else if rh =b ih then 0
      else if negb psl_builtin then if rh =b ih then 0 else 1
      else match psl_registrable_domain rh, psl_registrable_domain ih with
           | Some rr, Some ir => if rr =b ir then 0 else 1
           | _, _ => if rh =b ih then 0 else 1
           end
  | _, _ => -1
  end%Z.

(** The loop of [ns_ext_host_indexed]. *)
Fixpoint indexed_loop (fuel : nat) (blocked : gset bytes) (p : bytes) : bool :=
  match fuel with
  | O => false
  | S fuel' =>
      match p with
      | [] => false
      | _ => bool_decide (p ∈ blocked) ||
             match strchr p "." with Some (_ :: q) => indexed_loop fuel' blocked q | _ => false end
      end
  end.
Definition ns_ext_host_indexed (blocked : gset bytes) (host : option bytes) : bool :=
  match host with
  | None => false
  | Some host => let h := ns_ext_strip_port host in indexed_loop (S (length h)) blocked h
  end.

Definition ns_dnr_rule_matches (r : ns_dnr_rule) (url : bytes) (host init_host : option bytes) (tp : Z) : bool :=
  if (third_party r =? 1)%Z && negb (tp =? 1)%Z then false
  else if (third_party r =? -1)%Z && negb (tp =? 0)%Z then false
  else if match request_domains r with Some l => negb (ns_dnr_domain_list_match l host) | None => false end then false
  else if match excluded_request_domains r with Some l => ns_dnr_domain_list_match l host | None => false end then false
  else if match initiator_domains r with Some l => negb (ns_dnr_domain_list_match l init_host) | None => false end
  then false
  else if match excluded_initiator_domains r, init_host with
          | Some l, Some _ => ns_dnr_domain_list_match l init_host
          | _, _ => false
          end then false
  else if match url_filter r with
          | Some f => negb (ns_dnr_urlfilter_match (Some f) url (case_sensitive r))
          | None => false
          end then false
  else if match r_regex r with Some rx => negb (g_regex_match rx url) | None => false end then false
  else
    let t := ns_dnr_infer_type url in
    if match resource_types r with Some l => negb (ns_dnr_type_in_list l t) | None => false end then false
    else negb match excluded_resource_types r with Some l => ns_dnr_type_in_list l t | None => false end.

(** ** The verdict *)

Record verdict := { best_pri : Z; best_allow : bool; best_block : bool }.

Definition see_rule (v : verdict) (pri : Z) (allow : bool) : verdict :=
  if (best_pri v <? pri)%Z then {| best_pri := pri; best_allow := allow; best_block := negb allow |}
  else if (pri =? best_pri v)%Z
  then {| best_pri := best_pri v; best_allow := best_allow v || allow; best_block := best_block v || negb allow |}
  else v.

(** The list of extensions, [g_exts], and the hosts blocked by name,
    [g_blocked_hosts]. *)
Record ext_state := { exts : list ns_ext; blocked_hosts : gset bytes }.

Definition ns_ext_should_block (st : ext_state) (url initiator : option bytes) : bool :=
  match url with
  | None => false
  | Some url =>
      if exts st =b [] then false
      else if negb (g_str_has_prefix url ($"http://")) && negb (g_str_has_prefix url ($"https://")) then false
      else
        let host u := option_map (fun x => x.1.2) (ns_ext_url_split u) in
        let uh := host (Some url) in
        let ih := host initiator in
        let tp := ns_ext_third_party uh ih in
        let uh_np := option_map ns_ext_strip_port uh in
        let ih_np := option_map ns_ext_strip_port ih in
        let v0 := if ns_ext_host_indexed (blocked_hosts st) uh
                  then {| best_pri := 1; best_allow := false; best_block := true |}
                  else {| best_pri := -1; best_allow := false; best_block := false |} in
        let v := fold_left (fun v e => fold_left (fun v r =>
                   if ns_dnr_rule_matches r url uh_np ih_np tp then see_rule v (priority r) (r_allow r) else v)
                   (dnr_rules e) v) (exts st) v0 in
        (0 <=? best_pri v)%Z && best_block v && negb (best_allow v)
  end.

Definition ns_ext_cosmetic_css_for_host (es : list ns_ext) (host : option bytes) : option bytes :=
  match host with
  | None | Some [] => None
  | Some h =>
      let applies c :=
        negb match excluded_domains c with Some l => ns_dnr_domain_list_match l (Some h) | None => false end &&
        match domains c with Some l => ns_dnr_domain_list_match l (Some h) | None => true end in
      let css := concat (map (fun c => selector c ++ $"{display:none !important}" ++ [nl])
                   (List.filter applies (concat (map cosmetic_rules es)))) in
      match css with [] => None | _ => Some css end
  end.
End Match.

(** ** What a pattern means *)

(** Globs: [*] stands for any text, [?] for any byte. *)
Inductive glob : bytes -> bytes -> Prop :=
| glob_nil : glob [] []
| glob_star p k s : glob p s -> glob ("*"%char :: p) (k ++ s)
| glob_any p c s : glob p s -> glob ("?"%char :: p) (c :: s)
| glob_lit p c s : c <> "*"%char -> c <> "?"%char -> glob p s -> glob (c :: p) (c :: s).

(** No two stars follow each other. *)
Fixpoint single_stars (p : bytes) : bool :=
  match p with
  | c :: p' => negb ((c =c "*") && head_is (fun d => d =c "*") p') && single_stars p'
  | [] => true
  end.

Lemma glob_star_inv p s : glob ("*"%char :: p) s -> exists k t, s = k ++ t /\ glob p t.
Proof. intros H. inversion H; subst; [eauto|done]. Qed.

Lemma glob_nil_inv p : single_stars p = true -> glob p [] -> p = [] \/ p = ["*"%char].
Proof.
  destruct p as [|c p]; [by left|]. intros Hs H. inversion H as [|p' k s Hg Ep Es| |]; subst.
  right. apply app_eq_nil in Es as [-> ->]. inversion Hg; subst; [done|done].
Qed.

Lemma wildcard_star pat' str :
  (forall s, ns_ext_wildcard pat' s = true <-> glob pat' s) -> pat' <> [] -> (glob pat' [] -> False) ->
  ns_ext_wildcard ("*"%char :: pat') str = true <-> glob ("*"%char :: pat') str.
Proof.
  intros IH Hn He.
  assert (L : ns_ext_wildcard ("*"%char :: pat') str =
    (fix after_star (s : bytes) : bool :=
       match s with [] => false | _ :: s' => ns_ext_wildcard pat' s || after_star s' end) str) by by destruct pat'.
  rewrite L. clear L. induction str as [|d str IHs].
  - split; [done|]. intros (k & t & Es & Hg)%glob_star_inv. symmetry in Es. apply app_eq_nil in Es as [-> ->]. tauto.
  - rewrite orb_true_iff, IH, IHs. split.
    + intros [H|H]; [by apply (glob_star _ [] _)|]. apply glob_star_inv in H as (k & t & -> & H).
      by apply (glob_star _ (d :: k)).
    + intros (k & t & Es & Hg)%glob_star_inv. destruct k as [|? k]; [left; by rewrite Es|].
      injection Es as <- ->. right. by constructor.
Qed.

Lemma wildcard_glob pat str :
  single_stars pat = true -> ns_ext_wildcard pat str = true <-> glob pat str.
Proof.
  revert str. induction pat as [|c pat IH]; intros str Hs.
  - cbn [ns_ext_wildcard]. rewrite bool_decide_eq_true. split; [intros ->; constructor|by inversion 1].
  - cbn [single_stars] in Hs. apply andb_prop in Hs as [Hc Hs].
    destruct (c =c "*") eqn:Ec; boolify.
    + subst c. cbn [andb] in Hc. destruct (decide (pat = [])) as [->|Hn].
      * split; [intros _; rewrite <- (app_nil_r str); repeat constructor|done].
      * apply wildcard_star; [auto|done|]. intros H. by apply glob_nil_inv in H as [->| ->].
    + cbn [ns_ext_wildcard]. rewrite (proj2 (Ascii.eqb_neq c "*")) by done. destruct str as [|d str].
      * split; [done|]. inversion 1; subst; try done. 
      * destruct (c =c "?") eqn:Eq; boolify.
        { subst c. rewrite IH by done. split; [by constructor|]. inversion 1; subst; done. }
        destruct (c =c d) eqn:Ed; boolify.
        { subst d. rewrite IH by done. split; [by constructor|]. inversion 1; subst; done. }
        split; [done|]. inversion 1; subst; done.
Qed.

(** URL filters: the filter takes a prefix of the text and leaves the rest. [*]
    stands for any text, [^] for a separator or the end, everything else for
    itself. *)
Definition separator (c : ascii) : bool := negb (is_alnum c || memb c ($"_-.%")).

Inductive fmatch : bytes -> bytes -> bytes -> Prop :=
| fmatch_nil s : fmatch [] s s
| fmatch_star f k s r : fmatch f s r -> fmatch ("*"%char :: f) (k ++ s) r
| fmatch_sep f c s r : separator c = true -> fmatch f s r -> fmatch ("^"%char :: f) (c :: s) r
| fmatch_end f r : fmatch f [] r -> fmatch ("^"%char :: f) [] r
| fmatch_lit f c s r : c <> "*"%char -> c <> "^"%char -> fmatch f s r -> fmatch (c :: f) (c :: s) r.

(** The filter matches here: a prefix, or all of the text. *)
Definition fits (e : bool) (f s : bytes) : Prop := exists r, fmatch f s r /\ (e = true -> r = []).

Lemma fits_star f s e : fits e ("*"%char :: f) s <-> exists k t, s = k ++ t /\ fits e f t.
Proof.
  split.
  - intros (r & H & He). inversion H; subst; [|done]. do 2 eexists. split; [done|]. by exists r.
  - intros (k & t & -> & r & H & He). exists r. split; [by constructor|done].
Qed.

Lemma match_here_star f s e :
  (forall s, ns_dnr_match_here f s e = true <-> fits e f s) -> f <> [] ->
  ns_dnr_match_here ("*"%char :: f) s e = true <-> fits e ("*"%char :: f) s.
Proof.
  intros IH Hn. rewrite fits_star.
  assert (L : ns_dnr_match_here ("*"%char :: f) s e =
    (fix after_star (s : bytes) : bool :=
       ns_dnr_match_here f s e || match s with [] => false | _ :: s' => after_star s' end) s) by by destruct f.
  rewrite L. clear L. induction s as [|d s IHs].
  - rewrite orb_false_r, IH. split; [by exists [], []|]. intros (k & t & E & H).
    symmetry in E. by apply app_eq_nil in E as [-> ->].
  - rewrite orb_true_iff, IH, IHs. split.
    + intros [H|(k & t & -> & H)]; [by exists [], (d :: s)|by exists (d :: k), t].
    + intros (k & t & E & H). destruct k as [|? k]; [left; by rewrite E|]. injection E as <- ->. right. eauto.
Qed.

Lemma dnr_sep_eq c : ns_dnr_sep c = separator c.
Proof.
  assert (H : Bool.eqb (ns_dnr_sep c) (separator c) = true) by by_bytes c.
  by apply Bool.eqb_prop.
Qed.

Lemma match_here_spec f s e : ns_dnr_match_here f s e = true <-> fits e f s.
Proof.
  revert s. induction f as [|c f IH]; intros s.
  - cbn [ns_dnr_match_here]. destruct e.
    + rewrite bool_decide_eq_true. split; [intros ->; by exists []; repeat constructor|].
      intros (r & H & He). inversion H; subst. by apply He.
    + split; [intros _; exists s; by split; [constructor|]|done].
  - destruct (c =c "*") eqn:Ec; boolify.
    + subst c. destruct (decide (f = [])) as [->|Hn]; [|by apply match_here_star].
      cbn. split; [intros _|done]. apply fits_star. exists s, []. rewrite app_nil_r. split; [done|].
      exists []. by repeat constructor.
    + cbn [ns_dnr_match_here]. rewrite (proj2 (Ascii.eqb_neq c "*")) by done.
      destruct (c =c "^") eqn:Eq; boolify.
      * subst c. destruct s as [|d s].
        { rewrite IH. split; intros (r & H & He); exists r; (split; [|done]); [by constructor|].
          inversion H; subst; done. }
        rewrite dnr_sep_eq. destruct (separator d) eqn:Ed.
        { rewrite IH. split; intros (r & H & He); exists r; (split; [|done]); [by constructor|].
          inversion H; subst; done. }
        split; [done|]. intros (r & H & He). inversion H; subst; congruence.
      * destruct s as [|d s]; [split; [done|]; intros (r & H & He); inversion H; subst; done|].
        destruct (d =c c) eqn:Ed; boolify.
        { subst d. rewrite IH. split; intros (r & H & He); exists r; (split; [|done]); [by constructor|].
          inversion H; subst; done. }
        split; [done|]. intros (r & H & He). inversion H; subst; congruence.
Qed.

Lemma any_position_spec f s e : any_position f s e = true <-> exists k t, s = k ++ t /\ fits e f t.
Proof.
  induction s as [|c s IH]; cbn [any_position]; rewrite orb_true_iff, match_here_spec.
  - split; [intros [H|]; [by exists [], []|done]|]. intros (k & t & E & H). symmetry in E.
    apply app_eq_nil in E as [-> ->]. by left.
  - rewrite IH. split.
    + intros [H|(k & t & -> & H)]; [by exists [], (c :: s)|by exists (c :: k), t].
    + intros (k & t & E & H). destruct k as [|? k]; [left; by rewrite E|]. injection E as <- ->. right. eauto.
Qed.

(** The beginning of a label: of the host, or after a dot. *)
Definition label_start (h : bytes) : Prop := h = [] \/ exists h', h = h' ++ $".".

Lemma label_start_cons c h : h <> [] -> label_start (c :: h) <-> label_start h.
Proof.
  intros Hn. unfold label_start. split.
  - intros [|[h' E]]; [done|]. right. destruct h' as [|d h']; [by injection E as -> ->|].
    injection E as <- ->. eauto.
  - intros [|[h' ->]]; [done|]. right. by exists (c :: h').
Qed.

(** The byte before the position after [h], [p] being before [h]. *)
Definition starts_label (p : option ascii) (h : bytes) : Prop :=
  match h with
  | [] => match p with None => True | Some c => c = "."%char end
  | _ => label_start h
  end.

Lemma starts_label_cons p c h : starts_label p (c :: h) <-> starts_label (Some c) h.
Proof.
  destruct h as [|d h]; cbn [starts_label]; [|by apply label_start_cons].
  unfold label_start. split.
  - intros [|[h' E]]; [done|]. destruct h' as [|? [|]]; by injection E as ->.
  - intros ->. right. by exists [].
Qed.

Lemma host_positions_spec f s p n e :
  n <= length s ->
  host_positions f s p n e = true <->
  exists h t, s = h ++ t /\ length h <= n /\ starts_label p h /\ fits e f t.
Proof.
  revert p n. induction s as [|c s IH]; intros p n Hn.
  - cbn in Hn. destruct n; [|lia]. cbn [host_positions]. rewrite orb_false_r, andb_true_iff, match_here_spec. split.
    + intros [Hp H]. exists [], []. split_and!; [done|done| |done]. destruct p; [by apply Ascii.eqb_eq|done].
    + intros (h & t & E & _ & Hp & H). symmetry in E. apply app_eq_nil in E as [-> ->]. split; [|done].
      destruct p; [by apply Ascii.eqb_eq|done].
  - cbn [host_positions]. rewrite orb_true_iff, andb_true_iff, match_here_spec.
    assert (Here : (match p with None => true | Some c => c =c "." end) = true <-> starts_label p []).
    { destruct p; cbn [starts_label]; [apply Ascii.eqb_eq|done]. }
    rewrite Here. destruct n as [|n].
    + split; [intros [[Hp H]|]; [by exists [], (c :: s)|done]|].
      intros (h & t & E & Hl & Hp & H). destruct h; [|cbn in Hl; lia]. left. by rewrite E.
    + cbn in Hn. rewrite IH by lia. split.
      * intros [[Hp H]|(h & t & -> & Hl & Hp & H)]; [exists [], (c :: s); split_and!; (done || cbn; lia)|].
        exists (c :: h), t. split_and!; [done|cbn; lia|by apply starts_label_cons|done].
      * intros (h & t & E & Hl & Hp & H). destruct h as [|d h]; [left; by rewrite E|].
        injection E as <- ->. right. exists h, t. split_and!; [done|cbn in Hl; lia|by eapply starts_label_cons|done].
Qed.

(** Where a filter with its anchors matches in a URL: anywhere, at its start, or at
    the start of a label of its host. *)
Definition occurs (a : anchor) (e : bool) (body u : bytes) : Prop :=
  match a with
  | ANCHOR_NONE => exists k t, u = k ++ t /\ fits e body t
  | ANCHOR_START => fits e body u
  | ANCHOR_DOMAIN =>
      exists h t, host_start u = h ++ t /\ allb (fun c => negb (url_end c)) h = true /\ label_start h /\ fits e body t
  end.

Definition anchor_text (a : anchor) : bytes :=
  match a with ANCHOR_NONE => [] | ANCHOR_START => $"|" | ANCHOR_DOMAIN => $"||" end.
Definition end_text (e : bool) : bytes := if e then $"|" else [].
Definition bar (c : ascii) : bool := c =c "|".

(** What a filter says: its anchors and the rest of its text. *)
Definition filter_says (f : bytes) (a : anchor) (body : bytes) (e : bool) : Prop :=
  f = anchor_text a ++ body ++ end_text e /\
  (a <> ANCHOR_DOMAIN -> head_is bar (body ++ end_text e) = false) /\
  (e = false -> head_is bar (rev body) = false).

Lemma filter_anchor_spec f a p :
  filter_anchor f = (a, p) -> f = anchor_text a ++ p /\ (a <> ANCHOR_DOMAIN -> head_is bar p = false).
Proof.
  unfold filter_anchor, bar. destruct f as [|c r]; [by intros [= <- <-]|].
  destruct (c =c "|") eqn:Ec; [|intros [= <- <-]; split; [done|intros _; exact Ec]].
  apply Ascii.eqb_eq in Ec as ->. destruct r as [|d r]; [by intros [= <- <-]|].
  destruct (d =c "|") eqn:Ed; intros [= <- <-]; [apply Ascii.eqb_eq in Ed as ->; by split|].
  split; [done|intros _; exact Ed].
Qed.

Lemma filter_end_spec p body e :
  filter_end p = (body, e) -> p = body ++ end_text e /\ (e = false -> head_is bar (rev body) = false).
Proof.
  unfold filter_end, bar. destruct (rev p) as [|c r] eqn:E; [intros [= <- <-]; by rewrite app_nil_r, E|].
  destruct (c =c "|") eqn:Ec; intros [= <- <-].
  - apply Ascii.eqb_eq in Ec as ->. split; [|done]. rewrite <- (rev_involutive p), E. done.
  - rewrite app_nil_r, E. split; [done|intros _; exact Ec].
Qed.

Lemma url_prefix_length (s h t : bytes) :
  s = h ++ t -> length h <= length (take_while (fun c => negb (url_end c)) s) <->
                allb (fun c => negb (url_end c)) h = true.
Proof.
  intros ->. split.
  - intros H. pose proof (take_drop_while (fun c => negb (url_end c)) (h ++ t)) as E.
    assert (X : h = take (length h) (take_while (fun c => negb (url_end c)) (h ++ t))).
    { rewrite <- (take_app_length h t) at 1. rewrite <- E at 1. rewrite take_app_le by done. done. }
    rewrite X. apply allb_take, take_while_forall.
  - intros H. rewrite <- (take_while_id _ h H) at 1. clear H. induction h as [|c h IH]; cbn; [lia|].
    destruct (negb (url_end c)); cbn; lia.
Qed.

Lemma bar_head_app x : head_is bar (anchor_text x) = false -> x = ANCHOR_NONE.
Proof. by destruct x. Qed.

(** A filter says one thing. *)
Lemma filter_says_unique f a b e a' b' e' :
  filter_says f a b e -> filter_says f a' b' e' -> a = a' /\ b = b' /\ e = e'.
Proof.
  intros (E & Ha & He) (E' & Ha' & He'). rewrite E in E'.
  assert (A : a = a' /\ b ++ end_text e = b' ++ end_text e').
  { destruct a, a'; cbn [anchor_text app] in E';
      try (specialize (Ha ltac:(done))); try (specialize (Ha' ltac:(done))).
    all: first [by split | by injection E' as -> |
      exfalso; first [rewrite E' in Ha | rewrite <- E' in Ha'
        | injection E' as E'; first [rewrite E' in Ha | rewrite <- E' in Ha']]; done | idtac]. }
  destruct A as [-> Eb]. split; [done|]. destruct e, e'; cbn [end_text] in Eb.
  - by apply app_inv_tail in Eb.
  - exfalso. rewrite app_nil_r in Eb. subst b'. specialize (He' eq_refl). by rewrite rev_app_distr in He'.
  - exfalso. rewrite app_nil_r in Eb. subst b. specialize (He eq_refl). by rewrite rev_app_distr in He.
  - rewrite !app_nil_r in Eb. by split.
Qed.

Lemma urlfilter_spec (f u : bytes) (cs : bool) :
  f <> [] ->
  exists a body e, filter_says (if cs then f else map lower f) a body e /\
    (ns_dnr_urlfilter_match (Some f) u cs = true <-> occurs a e body (if cs then u else map lower u)).
Proof.
  intros Hf. unfold ns_dnr_urlfilter_match. destruct f as [|c0 f0] eqn:E; [done|]. rewrite <- E. clear Hf.
  glib_simpl. set (f' := if cs then f else map lower f). set (u' := if cs then u else map lower u).
  destruct (filter_anchor f') as [a p] eqn:Ea. destruct (filter_end p) as [body e] eqn:Ee.
  apply filter_anchor_spec in Ea as [Ea Ha]. apply filter_end_spec in Ee as [-> He].
  exists a, body, e. split; [by repeat split|]. destruct a; cbn [occurs].
  - apply any_position_spec.
  - apply match_here_spec.
  - rewrite host_positions_spec by apply take_while_length. split.
    + intros (h & t & Es & Hl & Hp & H). exists h, t. split_and!; [done|by eapply url_prefix_length| |done].
      destruct h; [by left|done].
    + intros (h & t & Es & Hl & Hp & H). exists h, t. split_and!; [done|by eapply url_prefix_length| |done].
      destruct h; [done|done].
Qed.

(** ** Domains *)

(** [h] is [d] or a domain below it. *)
Definition within (d h : bytes) : Prop := h = d \/ exists s, h = s ++ $"." ++ d.

Lemma drop_cons n (s : bytes) c r : drop n s = c :: r -> nth n s nul = c /\ drop (S n) s = r.
Proof.
  revert s. induction n as [|n IH]; intros [|d s]; cbn; try done; [by intros [= -> ->]|]. intros E. by apply IH in E.
Qed.

Lemma dotted_tail_spec d h : dotted_tail d h = true <-> exists s, h = s ++ $"." ++ d.
Proof.
  unfold dotted_tail. split.
  - intros H. boolify. exists (take (length h - length d - 1) h).
    rewrite <- (take_drop (length h - length d - 1) h) at 1. f_equal.
    destruct (drop (length h - length d - 1) h) as [|c r] eqn:E.
    + apply (f_equal length) in E. rewrite length_drop in E. cbn in E. lia.
    + destruct (drop_cons _ _ _ _ E) as [Ec Er]. rewrite Ec in H1. subst c. cbn. f_equal. rewrite <- H0, <- Er.
      f_equal. lia.
  - intros [s ->]. rewrite !length_app. cbn [length]. change (length ($".")) with 1.
    rewrite !andb_true_iff, Nat.ltb_lt. split_and!; [lia| |].
    + rewrite app_nth2 by lia. replace (_ - _ - _ - _) with 0 by lia. done.
    + apply bool_decide_eq_true. rewrite app_assoc. apply drop_app_length'. rewrite length_app. change (length ($".")) with 1. lia.
Qed.

Lemma domain_match_spec d h : ns_dnr_domain_match d h = true <-> within d h.
Proof. unfold ns_dnr_domain_match, within. rewrite orb_true_iff, bool_decide_eq_true, dotted_tail_spec. naive_solver. Qed.

Definition listed (l : list bytes) (h : option bytes) : Prop := exists d k, In d l /\ h = Some k /\ within d k.

Lemma domain_list_match_spec l h : ns_dnr_domain_list_match l h = true <-> listed l h.
Proof.
  unfold ns_dnr_domain_list_match, listed. destruct h as [h|]; [|naive_solver].
  rewrite existsb_exists. setoid_rewrite domain_match_spec. naive_solver.
Qed.

(** The domains above a name are the name and those above what follows its first
    dot. *)
Lemma within_first_dot d b t :
  free_of "." b = true -> within d (b ++ "."%char :: t) <-> d = b ++ "."%char :: t \/ within d t.
Proof.
  intros Hb. unfold within. split.
  - intros [->|[s E]]; [by left|]. change ($"." ++ d) with ("."%char :: d) in E.
    apply dot_cases in E as [[_ ->]|[s' ->]]; [right; by left| |done]. right. right. by exists s'.
  - intros [->|[->|[s ->]]]; [by left|right; by exists b|]. right. exists (b ++ $"." ++ s). by rewrite <- app_assoc.
Qed.

Lemma within_no_dot d h : strchr h "." = None -> within d h <-> d = h.
Proof.
  intros E. unfold within. split; [|by left]. intros [->|[s ->]]; [done|]. exfalso. apply strchr_None in E.
  assert (F : free_of "." (s ++ $"." ++ d) = true) by (rewrite <- E; apply take_while_forall).
  rewrite free_of_app in F. cbn in F. boolify. done.
Qed.

Lemma indexed_loop_spec blocked fuel p :
  length p < fuel ->
  indexed_loop fuel blocked p = true <-> exists d, d ∈ blocked /\ d <> [] /\ within d p.
Proof.
  revert p. induction fuel as [|fuel IH]; intros p Hf; [lia|]. cbn [indexed_loop].
  destruct (decide (p = [])) as [->|Hp].
  { split; [done|]. intros (d & _ & Hn & [E|[s E]]); [congruence|by destruct s]. }
  assert (L : forall X : bool, match p with [] => false | _ => X end = X) by by destruct p.
  rewrite L, orb_true_iff, bool_decide_eq_true. destruct (strchr p ".") as [r|] eqn:Es.
  - apply strchr_Some in Es as (q & -> & E).
    assert (Hb : free_of "." (before p ".") = true) by apply take_while_forall.
    set (b := before p ".") in *. clearbody b. subst p. setoid_rewrite within_first_dot; [|done].
    rewrite length_app in Hf. cbn [length] in Hf. rewrite IH by lia. naive_solver.
  - setoid_rewrite within_no_dot; [|done]. naive_solver.
Qed.

(** ** What a rule says *)

Section Says.
Context {P : Psl} (regex_match : regex -> bytes -> bool).

(** The conditions of a rule, of which those that are absent hold. *)
Definition absent_or {A} (o : option A) (Q : A -> Prop) : Prop := match o with Some a => Q a | None => True end.

Definition filter_holds (f url : bytes) (cs : bool) : Prop :=
  f <> [] -> exists a body e, filter_says (if cs then f else map lower f) a body e /\
    occurs a e body (if cs then url else map lower url).

Definition rule_applies (r : ns_dnr_rule) (url : bytes) (host init_host : option bytes) (tp : Z) : Prop :=
  let type := ns_dnr_infer_type (G := glib_ref) url in
  (third_party r = 1%Z -> tp = 1%Z) /\ (third_party r = (-1)%Z -> tp = 0%Z) /\
  absent_or (request_domains r) (fun l => listed l host) /\
  absent_or (excluded_request_domains r) (fun l => ~ listed l host) /\
  absent_or (initiator_domains r) (fun l => listed l init_host) /\
  absent_or (excluded_initiator_domains r) (fun l => ~ listed l init_host) /\
  absent_or (url_filter r) (fun f => filter_holds f url (case_sensitive r)) /\
  absent_or (r_regex r) (fun rx => regex_match rx url = true) /\
  absent_or (resource_types r) (fun l => exists t, type = Some t /\ In t l) /\
  absent_or (excluded_resource_types r) (fun l => forall t, type = Some t -> ~ In t l).

Lemma filter_holds_spec f url cs :
  ns_dnr_urlfilter_match (Some f) url cs = true <-> filter_holds f url cs.
Proof.
  destruct (decide (f = [])) as [->|Hn]; [split; [intros _ ?|]; done|].
  destruct (urlfilter_spec f url cs Hn) as (a & b & e & Hs & H). rewrite H. unfold filter_holds. split.
  - intros Ho _. by exists a, b, e.
  - intros Ho. destruct (Ho Hn) as (a' & b' & e' & Hs' & Ho').
    by destruct (filter_says_unique _ _ _ _ _ _ _ Hs Hs') as (-> & -> & ->).
Qed.

Lemma type_in_list_spec l t : ns_dnr_type_in_list l t = true <-> exists x, t = Some x /\ In x l.
Proof.
  unfold ns_dnr_type_in_list. destruct t as [t|]; [|naive_solver]. rewrite existsb_exists. split.
  - intros (x & Hx & E). apply bool_decide_eq_true in E as ->. eauto.
  - intros (x & [= ->] & Hx). exists x. split; [done|]. by apply bool_decide_eq_true.
Qed.

(** An early return of [FALSE] for a condition. *)
Lemma guard_false (c b : bool) (Q R : Prop) :
  (c = false <-> Q) -> (b = true <-> R) -> (if c then false else b) = true <-> Q /\ R.
Proof. destruct c; naive_solver. Qed.

Lemma guard_absent {A} (o : option A) (c : A -> bool) (Q : A -> Prop) :
  (forall a, o = Some a -> c a = false <-> Q a) ->
  match o with Some a => c a | None => false end = false <-> absent_or o Q.
Proof. destruct o; cbn; naive_solver. Qed.

Lemma negb_guard (b : bool) (Q : Prop) : (b = true <-> Q) -> (negb b = false <-> Q).
Proof. destruct b; naive_solver. Qed.
Lemma false_guard (b : bool) (Q : Prop) : (b = true <-> Q) -> (b = false <-> ~ Q).
Proof. destruct b; naive_solver. Qed.

Lemma rule_matches_spec r url host init_host tp :
  ns_dnr_rule_matches regex_match r url host init_host tp = true <-> rule_applies r url host init_host tp.
Proof.
  unfold ns_dnr_rule_matches, rule_applies. cbv zeta.
  apply guard_false; [rewrite andb_false_iff, negb_false_iff, Z.eqb_neq, Z.eqb_eq; lia|].
  apply guard_false; [rewrite andb_false_iff, negb_false_iff, Z.eqb_neq, Z.eqb_eq; lia|].
  apply guard_false; [apply guard_absent; intros l _; apply negb_guard, domain_list_match_spec|].
  apply guard_false; [apply guard_absent; intros l _; apply false_guard, domain_list_match_spec|].
  apply guard_false; [apply guard_absent; intros l _; apply negb_guard, domain_list_match_spec|].
  apply guard_false.
  { destruct (excluded_initiator_domains r) as [l|]; cbn [absent_or]; [|done].
    destruct init_host; [apply false_guard, domain_list_match_spec|]. split; [|done]. by intros _ (? & ? & _ & ? & _). }
  apply guard_false; [apply guard_absent; intros f _; apply negb_guard, filter_holds_spec|].
  apply guard_false; [apply guard_absent; intros f _; by apply negb_guard|].
  apply guard_false; [apply guard_absent; intros l _; apply negb_guard, type_in_list_spec|].
  rewrite negb_true_iff. apply guard_absent. intros l _.
  rewrite (false_guard _ _ (type_in_list_spec _ _)). naive_solver.
Qed.
End Says.

(** ** The verdict on a request *)

(** What the rules seen so far leave: [B] and [A] are the priorities of the
    blocking and of the allowing ones. *)
Definition tally (v : verdict) (B A : Z -> Prop) : Prop :=
  (forall p, B p \/ A p -> (p <= best_pri v)%Z) /\ (-1 <= best_pri v)%Z /\
  (best_block v = true <-> B (best_pri v)) /\ (best_allow v = true <-> A (best_pri v)) /\
  (best_pri v = (-1)%Z \/ B (best_pri v) \/ A (best_pri v)).

Lemma see_rule_tally v B A p (allow : bool) :
  tally v B A ->
  tally (see_rule v p allow) (fun q => B q \/ allow = false /\ q = p) (fun q => A q \/ allow = true /\ q = p).
Proof.
  intros (Hle & Hlo & Hb & Ha & Hat). unfold see_rule, tally.
  destruct (Z.ltb_spec (best_pri v) p); [|destruct (Z.eqb_spec p (best_pri v))]; cbn [best_pri best_block best_allow].
  - split_and!; [intros q [[H1|H1]|[H1|H1]]; [|lia| |lia]; assert (q <= best_pri v)%Z by auto; lia|lia| | |].
    + rewrite negb_true_iff. split; [auto|]. intros [H1|[H1 _]]; [|done]. assert (p <= best_pri v)%Z by auto. lia.
    + split; [auto|]. intros [H1|[H1 _]]; [|done]. assert (p <= best_pri v)%Z by auto. lia.
    + destruct allow; auto.
  - subst p. split_and!; [intros q [[H1|H1]|[H1|H1]]; try lia; auto|lia| | |].
    + rewrite orb_true_iff, negb_true_iff, Hb. naive_solver.
    + rewrite orb_true_iff, Ha. naive_solver.
    + destruct allow; auto.
  - split_and!; [intros q [[H1|H1]|[H1|H1]]; try lia; auto|lia| | |tauto].
    + rewrite Hb. split; [auto|]. intros [|[_ ?]]; [done|lia].
    + rewrite Ha. split; [auto|]. intros [|[_ ?]]; [done|lia].
Qed.

Lemma tally_ext v B A B' A' : (forall p, B p <-> B' p) -> (forall p, A p <-> A' p) -> tally v B A -> tally v B' A'.
Proof.
  unfold tally. intros EB EA H. rewrite <- !EB, <- !EA. setoid_rewrite <- EB. setoid_rewrite <- EA. exact H.
Qed.

Lemma tally_verdict v B A :
  tally v B A ->
  ((0 <=? best_pri v)%Z && best_block v && negb (best_allow v) = true <->
   exists p, (0 <= p)%Z /\ B p /\ forall q, A q -> (q < p)%Z).
Proof.
  intros (Hle & Hlo & Hb & Ha & Hat). rewrite !andb_true_iff, negb_true_iff, Z.leb_le, Hb, <- not_true_iff_false, Ha.
  split.
  - intros [[H0 H1] H2]. exists (best_pri v). split_and!; [done|done|]. intros q Hq.
    assert (q <= best_pri v)%Z by auto. destruct (Z.eq_dec q (best_pri v)) as [->|]; [done|lia].
  - intros (p & Hp & Hbp & Hq). assert (p <= best_pri v)%Z by auto.
    assert (Hn : ~ A (best_pri v)) by (intros H1; apply Hq in H1; lia). split; [split|]; [lia| |done].
    destruct Hat as [|[|]]; [lia|done|done].
Qed.

Lemma tally_rules (f : ns_dnr_rule -> bool) rules v B A :
  tally v B A ->
  tally (fold_left (fun v r => if f r then see_rule v (priority r) (r_allow r) else v) rules v)
    (fun q => B q \/ exists r, In r rules /\ f r = true /\ r_allow r = false /\ priority r = q)
    (fun q => A q \/ exists r, In r rules /\ f r = true /\ r_allow r = true /\ priority r = q).
Proof.
  revert v B A. induction rules as [|r rules IH]; intros v B A H; cbn [fold_left In].
  - eapply tally_ext; [| |exact H]; intros p; naive_solver.
  - destruct (f r) eqn:Ef.
    + eapply tally_ext; [| |apply IH, see_rule_tally, H]; intros p; cbn beta; naive_solver.
    + assert (S : forall b p, (exists x, (r = x \/ In x rules) /\ f x = true /\ r_allow x = b /\ priority x = p) <->
                             (exists x, In x rules /\ f x = true /\ r_allow x = b /\ priority x = p)).
      { intros b p. split; [|naive_solver]. intros (x & [<-|Hx] & Hf & E); [congruence|eauto]. }
      eapply tally_ext; [| |apply IH, H]; intros p; cbn beta; by rewrite S.
Qed.

Lemma fold_left_concat {A B} (f : A -> B -> A) (l : list (list B)) a :
  fold_left (fun a x => fold_left f x a) l a = fold_left f (concat l) a.
Proof. revert a. induction l as [|x l IH]; intros a; [done|]. cbn. by rewrite fold_left_app, IH. Qed.

Lemma fold_left_map {A B C} (f : A -> C -> A) (g : B -> C) (l : list B) a :
  fold_left (fun a x => f a (g x)) l a = fold_left f (map g l) a.
Proof. revert a. induction l as [|x l IH]; intros a; [done|]. cbn. by rewrite IH. Qed.

(** The host of a URL as the rules see it. *)
Definition host_of (u : option bytes) : option bytes := option_map (fun x => x.1.2) (ns_ext_url_split (G := glib_ref) u).

(** A blocking or an allowing rule of priority [p] applies; a host blocked by name
    counts as a blocking rule of priority 1. *)
Definition rule_of (P : Psl) (rm : regex -> bytes -> bool) (st : ext_state) (url : bytes) (initiator : option bytes)
    (allow : bool) (p : Z) : Prop :=
  exists e r, In e (exts st) /\ In r (dnr_rules e) /\ r_allow r = allow /\ priority r = p /\
    rule_applies rm r url (option_map ns_ext_strip_port (host_of (Some url)))
      (option_map ns_ext_strip_port (host_of initiator))
      (ns_ext_third_party (host_of (Some url)) (host_of initiator)).
Definition host_blocked (st : ext_state) (url : bytes) : Prop :=
  exists h d, host_of (Some url) = Some h /\ d ∈ blocked_hosts st /\ d <> [] /\ within d (ns_ext_strip_port h).

Lemma host_indexed_spec blocked h :
  ns_ext_host_indexed blocked h = true <->
  exists k d, h = Some k /\ d ∈ blocked /\ d <> [] /\ within d (ns_ext_strip_port k).
Proof.
  unfold ns_ext_host_indexed. destruct h as [h|]; [|naive_solver]. rewrite indexed_loop_spec by lia. naive_solver.
Qed.

Lemma verdict_spec (P : Psl) rm st url initiator :
  ns_ext_should_block (G := glib_ref) rm st (Some url) initiator = true <->
  exts st <> [] /\ (prefixb ($"http://") url = true \/ prefixb ($"https://") url = true) /\
  exists p, (0 <= p)%Z /\ (rule_of P rm st url initiator false p \/ p = 1%Z /\ host_blocked st url) /\
    forall q, rule_of P rm st url initiator true q -> (q < p)%Z.
Proof.
  unfold ns_ext_should_block. case_bool_decide as He; [split; [done|by intros [? _]]|]. glib_simpl.
  destruct (prefixb ($"http://") url || prefixb ($"https://") url) eqn:Es.
  2:{ boolify. rewrite H, H0. cbn. split; [done|]. intros (_ & [|] & _); congruence. }
  assert (Eg : negb (prefixb ($"http://") url) && negb (prefixb ($"https://") url) = false).
  { by rewrite <- negb_orb, Es. }
  rewrite Eg. apply orb_true_iff in Es. cbv zeta.
  fold (host_of (Some url)). fold (host_of initiator).
  rewrite (fold_left_map (fun v rs => fold_left _ rs v)), fold_left_concat.
  erewrite tally_verdict.
  2:{ apply tally_rules with (B := fun q => q = 1%Z /\ host_blocked st url) (A := fun _ => False).
      pose proof (host_indexed_spec (blocked_hosts st) (host_of (Some url))) as Hi. fold (host_blocked st url) in Hi.
      destruct (ns_ext_host_indexed _ _); unfold tally; cbn; rewrite <- Hi; intuition (lia || congruence). }
  setoid_rewrite rule_matches_spec.
  assert (R : forall b q, (exists r, In r (concat (map dnr_rules (exts st))) /\
      rule_applies rm r url (option_map ns_ext_strip_port (host_of (Some url)))
        (option_map ns_ext_strip_port (host_of initiator))
        (ns_ext_third_party (host_of (Some url)) (host_of initiator)) /\ r_allow r = b /\ priority r = q) <->
    rule_of P rm st url initiator b q).
  { intros b q. unfold rule_of. setoid_rewrite in_concat. setoid_rewrite in_map_iff. naive_solver. }
  setoid_rewrite R. naive_solver.
Qed.

(** C8. Extensions block what their rules say: a request is blocked exactly when it
    goes to an [http] or [https] address, an extension is loaded, and some
    priority that is not negative has a blocking rule that applies, or is 1 and a
    host blocked by name is the request's host or above it, while every allowing
    rule that applies has a lower priority. A rule applies when all its conditions
    hold: the initiator's site, the domains listed, the filter of the URL, the
    regular expression and the resource type. *)
Theorem ext_should_block_spec (G : GLib) (P : Psl) (rm : regex -> bytes -> bool) (st : ext_state) (url : bytes)
    (initiator : option bytes) :
  GLibSpec G ->
  ns_ext_should_block rm st (Some url) initiator = true <->
  exts st <> [] /\ (prefixb ($"http://") url = true \/ prefixb ($"https://") url = true) /\
  exists p, (0 <= p)%Z /\ (rule_of P rm st url initiator false p \/ p = 1%Z /\ host_blocked st url) /\
    forall q, rule_of P rm st url initiator true q -> (q < p)%Z.
Proof. intros GS. glib. apply verdict_spec. Qed.

Definition demo_psl : Psl :=
  {| psl_builtin := true; psl_registrable_domain h := Some h; psl_is_public_suffix _ := false |}.
Definition demo_rule (allow : bool) (p : Z) (f : bytes) : ns_dnr_rule :=
  {| priority := p; r_allow := allow; third_party := 0; url_filter := Some f; r_regex := None;
     case_sensitive := false; request_domains := None; excluded_request_domains := None;
     initiator_domains := None; excluded_initiator_domains := None; resource_types := None;
     excluded_resource_types := None |}.
Definition demo_ext (rules : list ns_dnr_rule) : ns_ext :=
  {| e_id := $"x"; e_name := $"x"; e_version := $"1"; url_id := $"u"; base_dir := $"/x"; manifest_json := [];
     content_scripts := []; dnr_rules := rules; cosmetic_rules := [] |}.
Definition demo_state : ext_state :=
  {| exts := [demo_ext [demo_rule false 1 ($"||ads.example^"); demo_rule true 2 ($"/ok/")]]; blocked_hosts := ∅ |}.

Lemma ext_should_block_spec_witness :
  let st := demo_state in
  ns_ext_should_block (P := demo_psl) (fun _ _ => false) st (Some ($"https://www.ads.example/a.js")) None = true /\
  ~ (exists p, (0 <= p)%Z /\
      (rule_of demo_psl (fun _ _ => false) st ($"https://www.ads.example/ok/a.js") None false p \/
       p = 1%Z /\ host_blocked st ($"https://www.ads.example/ok/a.js")) /\
      forall q, rule_of demo_psl (fun _ _ => false) st ($"https://www.ads.example/ok/a.js") None true q -> (q < p)%Z).
Proof.
  cbv zeta. split; [vm_compute; reflexivity|]. intros H.
  pose proof (ext_should_block_spec glib_ref demo_psl (fun _ _ => false) demo_state
    ($"https://www.ads.example/ok/a.js") None glib_ref_spec) as [_ B].
  assert (E : ns_ext_should_block (P := demo_psl) (fun _ _ => false) demo_state
    (Some ($"https://www.ads.example/ok/a.js")) None = true).
  { apply B. split; [discriminate|]. split; [right; reflexivity|exact H]. }
  vm_compute in E. discriminate.
Defined.

(** C25. The matcher of URL filters implements what filters mean: taken apart into its
    anchors and its body, a filter matches exactly the URLs in which the body
    occurs (anywhere, at the start, or at the start of a label of the host; to the
    end if it says so), [*] standing for any text and [^] for one separator or the
    end of the URL. Every filter can be taken apart in exactly one way. *)
Theorem ext_urlfilter_reference (G : GLib) (f u : bytes) (cs : bool) :
  GLibSpec G -> f <> [] ->
  exists a body e, filter_says (if cs then f else map lower f) a body e /\
    (forall a' body' e', filter_says (if cs then f else map lower f) a' body' e' ->
      a = a' /\ body = body' /\ e = e') /\
    (ns_dnr_urlfilter_match (Some f) u cs = true <-> occurs a e body (if cs then u else map lower u)).
Proof.
  intros GS Hf. glib. destruct (urlfilter_spec f u cs Hf) as (a & b & e & Hs & H).
  exists a, b, e. split_and!; [done| |done]. intros a' b' e'. by apply filter_says_unique.
Qed.

Lemma ext_urlfilter_reference_witness :
  ns_dnr_urlfilter_match (Some ($"||Ads.example^*.js|")) ($"https://www.ads.example:8080/x/y.JS") false = true /\
  occurs ANCHOR_DOMAIN true ($"ads.example^*.js") ($"https://www.ads.example:8080/x/y.js").
Proof.
  destruct (ext_urlfilter_reference glib_ref ($"||Ads.example^*.js|") ($"https://www.ads.example:8080/x/y.JS") false
    glib_ref_spec ltac:(discriminate)) as (a & b & e & _ & U & M).
  destruct (U ANCHOR_DOMAIN ($"ads.example^*.js") true) as (-> & -> & ->).
  { split; [reflexivity|]. split; [intros X; destruct (X eq_refl)|discriminate]. }
  assert (E : ns_dnr_urlfilter_match (Some ($"||Ads.example^*.js|")) ($"https://www.ads.example:8080/x/y.JS") false = true)
    by (vm_compute; reflexivity).
  split; [exact E|]. apply M in E. exact E.
Defined.

(** ** Content scripts *)

(** What a match pattern says of a URL. *)
Definition host_says (pat host : bytes) : Prop :=
  pat = $"*" \/ (exists d, pat = $"*." ++ d /\ within d host) \/ pat = host.
Definition pattern_says (pattern url : bytes) : Prop :=
  exists us uh up, ns_ext_url_split (G := glib_ref) (Some url) = Some (us, uh, up) /\
    let web := In us [$"http"; $"https"; $"ws"; $"wss"] in
    if decide (pattern = $"<all_urls>") then web \/ In us [$"ftp"; $"file"; $"data"]
    else exists ps ph pp, ns_ext_url_split (G := glib_ref) (Some pattern) = Some (ps, ph, pp) /\
      (if decide (ps = $"*") then web else ps = us) /\ host_says ph uh /\ glob pp up.

Definition pattern_ok (p : bytes) : Prop :=
  match ns_ext_url_split (G := glib_ref) (Some p) with Some (_, _, pp) => single_stars pp = true | None => True end.

Lemma scheme_generic_spec s : ns_ext_scheme_generic s = true <-> In s [$"http"; $"https"; $"ws"; $"wss"].
Proof.
  unfold ns_ext_scheme_generic. rewrite !orb_true_iff, !bool_decide_eq_true. cbn [In]. intuition congruence.
Qed.

Lemma host_match_spec pat host : ns_ext_host_match pat host = true <-> host_says pat host.
Proof.
  unfold ns_ext_host_match, host_says. case_bool_decide as E; [tauto|].
  assert (L : (pat =b host) = true <-> pat = $"*" \/ pat = host) by (rewrite bool_decide_eq_true; tauto).
  destruct pat as [|c [|d suffix]]; [rewrite L; naive_solver|rewrite L; naive_solver|].
  destruct ((c =c "*") && (d =c ".")) eqn:Ec.
  - boolify. subst c d. rewrite orb_true_iff, bool_decide_eq_true, dotted_tail_spec. split.
    + intros H. right. left. exists suffix. split; [done|]. unfold within. tauto.
    + intros [|[(k & [= <-] & H)|<-]]; [done|exact H|]. right. by exists ($"*").
  - rewrite bool_decide_eq_true. split; [auto|]. intros [|[(k & [= -> ->] & _)|]]; [done|done|done].
Qed.

Lemma pattern_match_spec p url :
  pattern_ok p -> ns_ext_pattern_match (G := glib_ref) p url = true <-> pattern_says p url.
Proof.
  unfold ns_ext_pattern_match, pattern_says, pattern_ok. intros Hp.
  destruct (ns_ext_url_split (Some url)) as [[[us uh] up]|]; [|naive_solver].
  transitivity (if decide (p = $"<all_urls>") then In us [$"http"; $"https"; $"ws"; $"wss"] \/ In us [$"ftp"; $"file"; $"data"]
    else exists ps ph pp, ns_ext_url_split (G := glib_ref) (Some p) = Some (ps, ph, pp) /\
      (if decide (ps = $"*") then In us [$"http"; $"https"; $"ws"; $"wss"] else ps = us) /\ host_says ph uh /\ glob pp up).
  2:{ split; [intros H; by exists us, uh, up|]. intros (? & ? & ? & E & H). by injection E as <- <- <-. }
  destruct (decide (p = _)) as [->|Hn]; [rewrite bool_decide_eq_true_2 by done|rewrite bool_decide_eq_false_2 by done].
  - rewrite !orb_true_iff, scheme_generic_spec, !bool_decide_eq_true. cbn [In]. intuition congruence.
  - destruct (ns_ext_url_split (Some p)) as [[[ps ph] pp]|]; [|naive_solver].
    rewrite !andb_true_iff, host_match_spec, wildcard_glob by done. split.
    + intros [[Hs Hh] Hg]. exists ps, ph, pp. split_and!; [done| |done|done].
      case_bool_decide as E; destruct (decide (ps = $"*")); try done; [by apply scheme_generic_spec|by apply bool_decide_eq_true in Hs].
    + intros (? & ? & ? & E & Hs & Hh & Hg). injection E as <- <- <-. split_and!; [|done|done].
      case_bool_decide as E; destruct (decide (ps = $"*")); try done; [by apply scheme_generic_spec|by apply bool_decide_eq_true].
Qed.

(** A content script runs exactly on the pages its manifest entry says: one of
    [matches] says the URL and none of [exclude_matches], one of [include_globs] if
    there are any, none of [exclude_globs]. A match pattern says a URL by its
    scheme, its host (any, one and those below it, or exactly one) and a glob for
    the path. The patterns have no two stars in a row. *)
Theorem ext_content_script_spec (G : GLib) (cs : ns_ext_cs) (url : bytes) :
  GLibSpec G ->
  Forall pattern_ok (matches cs ++ exclude_matches cs) ->
  Forall (fun g => single_stars g = true) (include_globs cs ++ exclude_globs cs) ->
  ns_ext_content_script_matches cs url = true <->
  (exists p, In p (matches cs) /\ pattern_says p url) /\
  ~ (exists p, In p (exclude_matches cs) /\ pattern_says p url) /\
  (include_globs cs = [] \/ exists g, In g (include_globs cs) /\ glob g url) /\
  ~ (exists g, In g (exclude_globs cs) /\ glob g url).
Proof.
  intros GS Hp Hg. glib. apply Forall_app in Hp as [Hm Hx]. apply Forall_app in Hg as [Hi He].
  rewrite !List.Forall_forall in *.
  assert (L : forall l, (forall p, In p l -> pattern_ok p) ->
    ns_ext_pattern_list_matches (G := glib_ref) l url = true <-> exists p, In p l /\ pattern_says p url).
  { intros l Hl. unfold ns_ext_pattern_list_matches. rewrite existsb_exists. split; intros (p & Hin & H); exists p;
      (split; [done|]); by apply (pattern_match_spec p url (Hl p Hin)). }
  assert (K : forall l, (forall g, In g l -> single_stars g = true) ->
    ns_ext_glob_list_matches l url = true <-> exists g, In g l /\ glob g url).
  { intros l Hl. unfold ns_ext_glob_list_matches. rewrite existsb_exists. split; intros (g & Hin & H); exists g;
      (split; [done|]); by apply (wildcard_glob g url (Hl g Hin)). }
  unfold ns_ext_content_script_matches. rewrite <- !L, <- !K by done.
  destruct (decide (include_globs cs = [])) as [Eg|Eg];
    [rewrite (bool_decide_eq_true_2 _ Eg)|rewrite (bool_decide_eq_false_2 _ Eg)];
  destruct (ns_ext_pattern_list_matches (matches cs) url), (ns_ext_pattern_list_matches (exclude_matches cs) url),
    (ns_ext_glob_list_matches (include_globs cs) url), (ns_ext_glob_list_matches (exclude_globs cs) url);
    cbn; intuition congruence.
Qed.

Definition demo_cs : ns_ext_cs :=
  {| matches := [$"*://*.example/*.html"]; exclude_matches := []; include_globs := [$"*?/a*"]; exclude_globs := [];
     all_js := Some ($"1"); all_css := None; at_start := true |}.
Lemma ext_content_script_spec_witness :
  (exists p, In p (matches demo_cs) /\ pattern_says p ($"https://www.example/a/b.html?x")) /\
  ~ pattern_says ($"*://*.example/*.html") ($"https://example.com/a/b.html").
Proof.
  assert (F : Forall pattern_ok (matches demo_cs ++ exclude_matches demo_cs)) by repeat constructor.
  assert (F' : Forall (fun g => single_stars g = true) (include_globs demo_cs ++ exclude_globs demo_cs)) by repeat constructor.
  split.
  - pose proof (ext_content_script_spec glib_ref demo_cs ($"https://www.example/a/b.html?x") glib_ref_spec F F') as [H _].
    destruct (H ltac:(vm_compute; reflexivity)) as [X _]. exact X.
  - intros X.
    pose proof (ext_content_script_spec glib_ref {| matches := [$"*://*.example/*.html"]; exclude_matches := [];
       include_globs := []; exclude_globs := []; all_js := None; all_css := None; at_start := true |}
       ($"https://example.com/a/b.html") glib_ref_spec F ltac:(constructor)) as [_ H].
    assert (E : ns_ext_content_script_matches (G := glib_ref) {| matches := [$"*://*.example/*.html"]; exclude_matches := [];
       include_globs := []; exclude_globs := []; all_js := None; all_css := None; at_start := true |}
       ($"https://example.com/a/b.html") = true).
    { apply H. split; [eexists; split; [left; reflexivity|exact X]|]. split; [by intros (? & [] & _)|].
      split; [by left|by intros (? & [] & _)]. }
    vm_compute in E. discriminate.
Defined.

(** Two stars at the end of a glob miss the empty text, which one star stands for. *)
Example double_star_misses :
  ns_ext_wildcard ($"/a**") ($"/a") = false /\ ns_ext_wildcard ($"/a*") ($"/a") = true /\ glob ($"/a**") ($"/a").
Proof.
  split; [done|]. split; [done|]. repeat (apply glob_lit; [done|done|]). do 2 apply (glob_star _ []). constructor.
Qed.
