(* ===== verification/Ext.v ===== *)
(** * Extensions: manifests, rules and filter lists ([src/ext.c])

    The loading half of the extension host: a manifest's content scripts, its
    blocking rules and its filter lists, the search for extensions, and the text
    injected into a page. QuickJS's JSON values, GRegex and the file functions are
    arguments. *)

From S2P Require Import Prelude CStr GLib Url ExtMatch.

(** ** JSON values *)

(** A value QuickJS reads from JSON; a number is kept as its text. *)
Inductive JSValue :=
| JS_UNDEFINED
| JS_NULL
| JS_BOOL (b : bool)
| JS_NUMBER (text : bytes)
| JS_STRING (s : bytes)
| JS_ARRAY (l : list JSValue)
| JS_OBJECT (fields : list (bytes * JSValue)).

Class QuickJS := {
  JS_ParseJSON : bytes -> option JSValue;
  js_number_int32 : bytes -> Z;             (* ToInt32 of a number *)
  js_number_truth : bytes -> bool;          (* ToBoolean of a number *)
  js_value_uint32 : JSValue -> Z;           (* ToUint32 of a value *)
  js_object_text : JSValue -> option bytes; (* ToString of an object, if it does not throw *)
}.

Definition JS_IsObject (v : JSValue) : bool := match v with JS_ARRAY _ | JS_OBJECT _ => true | _ => false end.
Definition JS_GetPropertyStr (v : JSValue) (key : bytes) : JSValue :=
  match v with
  | JS_OBJECT fields =>
      match List.find (fun f => f.1 =b key) fields with Some f => f.2 | None => JS_UNDEFINED end
  | JS_ARRAY l => if key =b $"length" then JS_NUMBER (print_u (Z.of_nat (length l))) else JS_UNDEFINED
  | _ => JS_UNDEFINED
  end.
Definition JS_GetPropertyUint32 (v : JSValue) (i : Z) : JSValue :=
  match v with
  | JS_ARRAY l => nth (Z.to_nat i) l JS_UNDEFINED
  | _ => JS_GetPropertyStr v (print_u i)
  end.
Definition JS_ToCString `{QuickJS} (v : JSValue) : option bytes :=
  match v with
  | JS_UNDEFINED => Some ($"undefined")
  | JS_NULL => Some ($"null")
  | JS_BOOL b => Some (if b then $"true" else $"false")
  | JS_NUMBER t => Some t
  | JS_STRING s => Some s
  | _ => js_object_text v
  end.
Definition JS_ToBool `{QuickJS} (v : JSValue) : bool :=
  match v with
  | JS_BOOL b => b
  | JS_NUMBER t => js_number_truth t
  | JS_STRING s => negb (s =b [])
  | JS_ARRAY _ | JS_OBJECT _ => true
  | _ => false
  end.

(** GRegex, GLib's file functions and random names. [e_uuid n] is the random name
    the [n]th extension gets. *)
Record ext_env := {
  e_regex_new : bytes -> bool -> bool;          (* g_regex_new succeeds *)
  e_contents : bytes -> option bytes;           (* g_file_get_contents *)
  e_exists : bytes -> bool;                     (* g_file_test *)
  e_is_dir : bytes -> bool;
  e_dir : bytes -> option (list bytes);         (* g_dir_open, g_dir_read_name *)
  e_build : list bytes -> bytes;                (* g_build_filename *)
  e_canonicalize : bytes -> bytes;              (* g_canonicalize_filename *)
  e_basename : bytes -> bytes;                  (* g_path_get_basename *)
  e_uuid : nat -> bytes;                        (* g_uuid_string_random *)
  e_extensions_dir : option bytes;              (* NS_EXTENSIONS_DIR *)
  e_data_dir : bytes;                           (* g_get_user_data_dir *)
  e_context : bool;                             (* JS_NewRuntime and JS_NewContext succeed *)
}.

Section Load.
Context {G : GLib} {Q : QuickJS}.
Variable env : ext_env.

Definition ns_ext_js_string (obj : JSValue) (key : bytes) : option bytes :=
  match JS_GetPropertyStr obj key with JS_STRING s => Some (cstr_of s) | _ => None end.

(** The elements of an array, or of anything with a length. *)
Definition js_elements (arr : JSValue) : list JSValue :=
  let n := js_value_uint32 (JS_GetPropertyStr arr ($"length")) in
  map (fun i => JS_GetPropertyUint32 arr (Z.of_nat i)) (seq 0 (Z.to_nat n)).

Definition ns_ext_collect_strings (arr : JSValue) : list bytes :=
  if negb (JS_IsObject arr) then []
  else omap (fun v => option_map cstr_of (JS_ToCString v)) (js_elements arr).

Definition ns_ext_safe_path (base rel : bytes) : option bytes :=
  match rel with
  | [] => None
  | _ =>
      let canon_base := e_canonicalize env base in
      let canon := e_canonicalize env (e_build env [base; rel]) in
      let blen := length canon_base in
      if strncmp0 canon canon_base blen &&
         match drop blen canon with [] => true | c :: _ => c =c "/" end
      then Some canon else None
  end.

Definition ns_ext_read_files (base : bytes) (entry : JSValue) (key : bytes) : option bytes :=
  let src := concat (map (fun rel =>
    match ns_ext_safe_path base rel with
    | Some path => match e_contents env path with Some data => cstr_of data ++ [nl] | None => [] end
    | None => []
    end) (ns_ext_collect_strings (JS_GetPropertyStr entry key))) in
  match src with [] => None | _ => Some src end.

Definition parse_content_script (base : bytes) (entry : JSValue) : option ns_ext_cs :=
  if negb (JS_IsObject entry) then None
  else
    let strings key := ns_ext_collect_strings (JS_GetPropertyStr entry key) in
    let cs := {| matches := strings ($"matches"); exclude_matches := strings ($"exclude_matches");
                 include_globs := strings ($"include_globs"); exclude_globs := strings ($"exclude_globs");
                 at_start := match ns_ext_js_string entry ($"run_at") with
                             | Some r => r =b $"document_start" | None => false end;
                 all_js := ns_ext_read_files base entry ($"js");
                 all_css := ns_ext_read_files base entry ($"css") |} in
    match matches cs, all_js cs, all_css cs with
    | _ :: _, Some _, _ | _ :: _, _, Some _ => Some cs
    | _, _, _ => None
    end.

Definition ns_ext_parse_content_scripts (base : bytes) (manifest : JSValue) : list ns_ext_cs :=
  let arr := JS_GetPropertyStr manifest ($"content_scripts") in
  if JS_IsObject arr then omap (parse_content_script base) (js_elements arr) else [].

(** ** Blocking rules *)

Definition ns_dnr_domains (cond : JSValue) (key : bytes) : option (list bytes) :=
  let v := JS_GetPropertyStr cond key in
  if JS_IsObject v
  then match map g_ascii_strdown (ns_ext_collect_strings v) with [] => None | l => Some l end
  else None.

Definition regex_new (text : bytes) (caseless : bool) : option regex :=
  if e_regex_new env text caseless then Some {| rx_text := text; rx_caseless := caseless |} else None.

Definition ns_dnr_parse_rule (r : JSValue) : option ns_dnr_rule :=
  if negb (JS_IsObject r) then None
  else
    let act := JS_GetPropertyStr r ($"action") in
    let atype := if JS_IsObject act then ns_ext_js_string act ($"type") else None in
    match atype with
    | None => None
    | Some t =>
        let allow := (t =b $"allow") || (t =b $"allowAllRequests") in
        if negb (t =b $"block") && negb allow then None
        else
          let allow := negb (t =b $"block") in
          let pri := match JS_GetPropertyStr r ($"priority") with JS_NUMBER n => js_number_int32 n | _ => 1%Z end in
          let cond := JS_GetPropertyStr r ($"condition") in
          if JS_IsObject cond then
            let cs := JS_ToBool (JS_GetPropertyStr cond ($"isUrlFilterCaseSensitive")) in
            Some {| priority := pri; r_allow := allow; third_party := 0;
                    url_filter := ns_ext_js_string cond ($"urlFilter");
                    r_regex := match ns_ext_js_string cond ($"regexFilter") with
                               | Some rx => regex_new rx (negb cs) | None => None end;
                    case_sensitive := cs;
                    request_domains := ns_dnr_domains cond ($"requestDomains");
                    excluded_request_domains := ns_dnr_domains cond ($"excludedRequestDomains");
                    initiator_domains := ns_dnr_domains cond ($"initiatorDomains");
                    excluded_initiator_domains := ns_dnr_domains cond ($"excludedInitiatorDomains");
                    resource_types := ns_dnr_domains cond ($"resourceTypes");
                    excluded_resource_types := ns_dnr_domains cond ($"excludedResourceTypes") |}
          else
            Some {| priority := pri; r_allow := allow; third_party := 0; url_filter := None; r_regex := None;
                    case_sensitive := false; request_domains := None; excluded_request_domains := None;
                    initiator_domains := None; excluded_initiator_domains := None;
                    resource_types := None; excluded_resource_types := None |}
    end.

Definition ns_ext_load_rule_file (base path : bytes) : list ns_dnr_rule :=
  match ns_ext_safe_path base path with
  | None => []
  | Some full =>
      match e_contents env full with
      | None => []
      | Some raw =>
          match JS_ParseJSON raw with
          | None => []
          | Some arr => if JS_IsObject arr then omap ns_dnr_parse_rule (js_elements arr) else []
          end
      end
  end.

Definition ns_ext_parse_dnr (base : bytes) (manifest : JSValue) : list ns_dnr_rule :=
  let dnr := JS_GetPropertyStr manifest ($"declarative_net_request") in
  if negb (JS_IsObject dnr) then []
  else
    let res := JS_GetPropertyStr dnr ($"rule_resources") in
    if negb (JS_IsObject res) then []
    else
      concat (map (fun item =>
        if negb (JS_IsObject item) then []
        else
          let enabled := match JS_GetPropertyStr item ($"enabled") with JS_BOOL b => b | _ => true end in
          match ns_ext_js_string item ($"path") with
          | Some path => if enabled then ns_ext_load_rule_file base path else []
          | None => []
          end) (js_elements res)).

(** ** Filter lists *)

(** What a filter list adds: rules, cosmetic rules and blocked hosts. *)
Record filters := { f_rules : list ns_dnr_rule; f_cosmetic : list ns_cosmetic_rule; f_hosts : gset bytes }.

Definition add_domain (l : option (list bytes)) (d : bytes) : option (list bytes) :=
  Some (default [] l ++ [g_ascii_strdown d]).

Definition ns_abp_split_domains (spec sep : bytes) (inc exc : option (list bytes))
    : option (list bytes) * option (list bytes) :=
  match spec with
  | [] => (inc, exc)
  | _ =>
      fold_left (fun '(inc, exc) p =>
        match g_strstrip p with
        | [] => (inc, exc)
        | c :: d => if c =c "~" then match d with [] => (inc, exc) | _ => (inc, add_domain exc d) end
                    else (add_domain inc (c :: d), exc)
        end) (g_strsplit spec sep) (inc, exc)
  end.

Definition abp_types : list bytes := [$"script"; $"stylesheet"; $"image"; $"font"; $"media"].
Definition ns_abp_type_token (t : bytes) : option bytes := List.find (fun x => t =b x) abp_types.

Definition abp_unsupported : list bytes :=
  [$"redirect"; $"redirect-rule"; $"removeparam"; $"csp"; $"replace"; $"rewrite"; $"removeheader"; $"cookie";
   $"header"; $"empty"; $"mp4"; $"popup"; $"popunder"; $"webrtc"; $"inline-script"; $"inline-font";
   $"genericblock"; $"generichide"; $"specifichide"; $"elemhide"; $"ehide"; $"document"; $"doc"].
Definition ns_abp_option_unsupported (o : bytes) : bool := existsb (fun x => o =b x) abp_unsupported.

Definition ns_abp_is_simple_host (pat : bytes) : bool :=
  g_str_has_prefix pat ($"||") && g_str_has_suffix pat ($"^") &&
  allb (fun c => g_ascii_isalnum c || (c =c ".") || (c =c "-")) (removelast (drop 2 pat)) && (3 <? length pat).

(** The pattern of a line and its options. *)
Definition strrchr_slash (s : bytes) : option (bytes * bytes) :=
  let tail := take_while (fun c => negb (c =c "/")) (rev s) in
  if length tail =? length s then None
  else Some (take (length s - length tail) s, rev tail).
Definition abp_split (pat : bytes) : bytes * option bytes :=
  if head_is (fun c => c =c "/") pat then
    match strrchr_slash pat with
    | Some (upto, after) =>
        if length upto =? 1 then (pat, None)
        else (upto, match after with c :: o => if c =c "$" then Some o else None | [] => None end)
    | None => (pat, None)
    end
  else match strchr pat "$" with
       | Some dollar => (before pat "$", Some (drop 1 dollar))
       | None => (pat, None)
       end.

Definition set_initiators (inc exc : option (list bytes)) (r : ns_dnr_rule) : ns_dnr_rule :=
  {| priority := priority r; r_allow := r_allow r; third_party := third_party r; url_filter := url_filter r;
     r_regex := r_regex r; case_sensitive := case_sensitive r; request_domains := request_domains r;
     excluded_request_domains := excluded_request_domains r; initiator_domains := inc;
     excluded_initiator_domains := exc; resource_types := resource_types r;
     excluded_resource_types := excluded_resource_types r |}.
Definition set_third_party (t : Z) (r : ns_dnr_rule) : ns_dnr_rule :=
  {| priority := priority r; r_allow := r_allow r; third_party := t; url_filter := url_filter r;
     r_regex := r_regex r; case_sensitive := case_sensitive r; request_domains := request_domains r;
     excluded_request_domains := excluded_request_domains r; initiator_domains := initiator_domains r;
     excluded_initiator_domains := excluded_initiator_domains r; resource_types := resource_types r;
     excluded_resource_types := excluded_resource_types r |}.
Definition set_match_case (r : ns_dnr_rule) : ns_dnr_rule :=
  {| priority := priority r; r_allow := r_allow r; third_party := third_party r; url_filter := url_filter r;
     r_regex := r_regex r; case_sensitive := true; request_domains := request_domains r;
     excluded_request_domains := excluded_request_domains r; initiator_domains := initiator_domains r;
     excluded_initiator_domains := excluded_initiator_domains r; resource_types := resource_types r;
     excluded_resource_types := excluded_resource_types r |}.
Definition set_types (inc exc : option (list bytes)) (r : ns_dnr_rule) : ns_dnr_rule :=
  {| priority := priority r; r_allow := r_allow r; third_party := third_party r; url_filter := url_filter r;
     r_regex := r_regex r; case_sensitive := case_sensitive r; request_domains := request_domains r;
     excluded_request_domains := excluded_request_domains r; initiator_domains := initiator_domains r;
     excluded_initiator_domains := excluded_initiator_domains r; resource_types := inc;
     excluded_resource_types := exc |}.

(** One option of a line; [None]: the line is dropped. *)
Definition abp_option (r : ns_dnr_rule) (o : bytes) : option ns_dnr_rule :=
  let opt := g_strstrip o in
  let neg := head_is (fun c => c =c "~") opt in
  let opt := if neg then drop 1 opt else opt in
  if g_str_has_prefix opt ($"domain=") then
    let '(inc, exc) := ns_abp_split_domains (drop 7 opt) ($"|") (initiator_domains r) (excluded_initiator_domains r) in
    Some (set_initiators inc exc r)
  else if opt =b $"third-party" then Some (set_third_party (if neg then -1 else 1)%Z r)
  else if opt =b $"match-case" then Some (set_match_case r)
  else match ns_abp_type_token opt with
       | Some t =>
           Some (if neg then set_types (resource_types r) (Some (default [] (excluded_resource_types r) ++ [t])) r
                 else set_types (Some (default [] (resource_types r) ++ [t])) (excluded_resource_types r) r)
       | None => if ns_abp_option_unsupported opt then None else Some r
       end.
Fixpoint abp_options (r : ns_dnr_rule) (opts : list bytes) : option ns_dnr_rule :=
  match opts with
  | [] => Some r
  | o :: opts' => match abp_option r o with Some r' => abp_options r' opts' | None => None end
  end.

Definition ns_abp_parse_network (s : filters) (line : bytes) : filters :=
  let exception := g_str_has_prefix line ($"@@") in
  let pat := if exception then drop 2 line else line in
  let '(pattern, options) := abp_split pat in
  match pattern with
  | [] => s
  | c :: p =>
      if negb exception && match options with None => true | _ => false end && ns_abp_is_simple_host pattern
      then {| f_rules := f_rules s; f_cosmetic := f_cosmetic s;
              f_hosts := {[ g_ascii_strdown (take (length pattern - 3) (drop 2 pattern)) ]} ∪ f_hosts s |}
      else
        let is_regex := (c =c "/") && g_str_has_suffix pattern ($"/") && (1 <? length pattern) in
        let rx := if is_regex then regex_new (take (length pattern - 2) p) true else None in
        if is_regex && match rx with None => true | _ => false end then s
        else
          let rule := {| priority := 1; r_allow := exception; third_party := 0;
                         url_filter := if is_regex then None else Some pattern; r_regex := rx;
                         case_sensitive := false; request_domains := None; excluded_request_domains := None;
                         initiator_domains := None; excluded_initiator_domains := None;
                         resource_types := None; excluded_resource_types := None |} in
          match (match options with Some o => abp_options rule (g_strsplit o ($",")) | None => Some rule end) with
          | None => s
          | Some rule => {| f_rules := f_rules s ++ [rule]; f_cosmetic := f_cosmetic s; f_hosts := f_hosts s |}
          end
  end.

Definition ns_abp_parse_cosmetic (s : filters) (line sep : bytes) : filters :=
  match strstr line sep with
  | None => s
  | Some (dom_spec, at_) =>
      let sel := drop_while (fun c => c =c " ") (drop (length sep) at_) in
      if (sel =b []) || match strchr sel "{" with Some _ => true | None => false end then s
      else if g_str_has_prefix sel ($"+js") || g_str_has_prefix sel ($"script:") then s
      else
        let '(inc, exc) := ns_abp_split_domains dom_spec ($",") None None in
        {| f_rules := f_rules s;
           f_cosmetic := f_cosmetic s ++ [{| domains := inc; excluded_domains := exc; selector := g_strstrip sel |}];
           f_hosts := f_hosts s |}
  end.

Definition filter_line (s : filters) (raw : bytes) : filters :=
  let line := g_strstrip raw in
  match line with
  | [] => s
  | c :: _ =>
      if (c =c "!") || (c =c "[") then s
      else if contains line ($"#@#") || contains line ($"#?#") || contains line ($"#$#") || contains line ($"#%#") then s
      else if contains line ($"##") then ns_abp_parse_cosmetic s line ($"##")
      else ns_abp_parse_network s line
  end.

Definition ns_ext_load_filter_list (base : bytes) (s : filters) (path : bytes) : filters :=
  match ns_ext_safe_path base path with
  | None => s
  | Some full =>
      match e_contents env full with
      | None => s
      | Some raw => fold_left filter_line (g_strsplit (cstr_of raw) [nl]) s
      end
  end.

Definition ns_ext_parse_filter_lists (base : bytes) (manifest : JSValue) (s : filters) : filters :=
  let arr := JS_GetPropertyStr manifest ($"northstar_filter_lists") in
  if JS_IsObject arr then fold_left (ns_ext_load_filter_list base) (ns_ext_collect_strings arr) s else s.

(** ** Extensions *)

Definition ns_ext_parse_id (manifest : JSValue) (dir : bytes) : bytes :=
  let gecko_id key :=
    let bss := JS_GetPropertyStr manifest key in
    if JS_IsObject bss then
      let gecko := JS_GetPropertyStr bss ($"gecko") in
      if JS_IsObject gecko then ns_ext_js_string gecko ($"id") else None
    else None in
  match gecko_id ($"browser_specific_settings"), gecko_id ($"applications") with
  | Some id, _ => id
  | None, Some id => id
  | None, None => e_basename env dir
  end.

Definition ns_ext_lookup (es : list ns_ext) (id : bytes) : option ns_ext := List.find (fun e => e_id e =b id) es.

Definition ns_ext_load_one (st : ext_state) (dir : bytes) : ext_state :=
  match e_contents env (e_build env [dir; $"manifest.json"]) with
  | None => st
  | Some raw =>
      match JS_ParseJSON raw with
      | None => st
      | Some obj =>
          let version := match JS_GetPropertyStr obj ($"manifest_version") with
                         | JS_NUMBER n => js_number_int32 n | _ => 0%Z end in
          if negb (version =? 2)%Z && negb (version =? 3)%Z then st
          else
            let id := ns_ext_parse_id obj dir in
            match ns_ext_js_string obj ($"name"), ns_ext_js_string obj ($"version") with
            | Some (_ :: _ as name), Some (_ :: _ as ver) =>
                if (id =b []) || match ns_ext_lookup (exts st) id with Some _ => true | None => false end then st
                else
                  let s := ns_ext_parse_filter_lists dir obj
                             {| f_rules := ns_ext_parse_dnr dir obj; f_cosmetic := []; f_hosts := blocked_hosts st |} in
                  let e := {| e_id := id; e_name := name; e_version := ver; url_id := e_uuid env (length (exts st));
                              base_dir := dir; manifest_json := cstr_of raw;
                              content_scripts := ns_ext_parse_content_scripts dir obj;
                              dnr_rules := f_rules s; cosmetic_rules := f_cosmetic s |} in
                  {| exts := exts st ++ [e]; blocked_hosts := f_hosts s |}
            | _, _ => st
            end
      end
  end.

Definition ns_ext_scan_root (st : ext_state) (root : bytes) : ext_state :=
  match root with
  | [] => st
  | _ =>
      if e_exists env (e_build env [root; $"manifest.json"]) then ns_ext_load_one st root
      else
        match e_dir env root with
        | None => st
        | Some names =>
            fold_left (fun st name =>
              let child := e_build env [root; name] in
              if e_is_dir env child then ns_ext_load_one st child else st) names st
        end
  end.

Definition ns_ext_do_init : ext_state :=
  let st := {| exts := []; blocked_hosts := ∅ |} in
  if negb (e_context env) then st
  else
    let st := match e_extensions_dir env with
              | Some (_ :: _ as d) =>
                  fold_left (fun st p => match p with [] => st | _ => ns_ext_scan_root st p end) (g_strsplit d ($":")) st
              | _ => st
              end in
    ns_ext_scan_root st (e_build env [e_data_dir env; $"northstar"; $"extensions"]).
End Load.

(** ** The host of an ordinary URL *)

Definition host_char (c : ascii) : bool := negb (memb c ($"/?#@:[")).
(** What may follow a host: a port, then nothing or a path, query or fragment. *)
Definition port_text (p : bytes) : Prop := p = [] \/ exists ds, p = ":"%char :: ds /\ allb is_digit ds = true.
Definition url_tail (r : bytes) : Prop := r = [] \/ head_is url_end r = true.

Lemma after_at_free s h : free_of "@" s = true -> after_at s h = h.
Proof.
  revert h. induction s as [|c s IH]; intros h; [done|]. cbn [free_of forallb after_at]. intros H. boolify.
  rewrite (proj2 (Ascii.eqb_neq c "@")) by done. by apply IH.
Qed.

Lemma host_char_facts c : host_char c = true ->
  negb (url_end c) = true /\ (c =c "@") = false /\ (c =c ":") = false /\ (c =c "[") = false.
Proof.
  intros H.
  assert (X : negb (host_char c) || (negb (url_end c) && negb (c =c "@") && negb (c =c ":") && negb (c =c "[")) = true)
    by (clear; by_bytes c).
  rewrite H in X. cbn [negb orb] in X. rewrite !andb_true_iff, !negb_true_iff in X. rewrite negb_true_iff. tauto.
Qed.

Lemma host_of_url scheme host port rest :
  free_of ":" scheme = true -> allb host_char host = true -> port_text port -> url_tail rest ->
  host_of (Some (scheme ++ $"://" ++ host ++ port ++ rest)) = Some (map lower host).
Proof.
  intros Hs Hh Hp Hr. unfold host_of, ns_ext_url_split. change ($"://") with (":"%char :: $"//").
  rewrite (strstr_first scheme ":" ($"//") (host ++ port ++ rest)) by done. glib_simpl. cbn [option_map fst snd].
  change (drop 3 ((":"%char :: $"//") ++ host ++ port ++ rest)) with (host ++ port ++ rest).
  assert (Hport : allb (fun c => negb (url_end c)) port = true /\ free_of "@" port = true).
  { destruct Hp as [->|(ds & -> & Hd)]; [done|]. cbn [free_of forallb].
    split; apply andb_true_iff; (split; [done|]); (eapply allb_impl; [|exact Hd]); intros c Hc;
      [assert (X : negb (is_digit c) || negb (url_end c) = true) by (clear; by_bytes c)
      |assert (X : negb (is_digit c) || negb (c =c "@") = true) by (clear; by_bytes c)]; by rewrite Hc in X. }
  assert (T : take_while (fun c => negb (url_end c)) (host ++ port ++ rest) = host ++ port).
  { rewrite app_assoc. apply take_while_app_stop.
    - rewrite allb_app, (proj1 Hport), andb_true_r. eapply allb_impl; [|exact Hh]. intros c Hc. by apply host_char_facts.
    - destruct Hr as [->|Hr]; [done|]. destruct rest; [done|]. cbn in *. by rewrite Hr. }
  rewrite T, after_at_free.
  2:{ unfold free_of. rewrite allb_app. apply andb_true_iff. split; [|apply Hport].
      eapply allb_impl; [|exact Hh]. intros c Hc. apply host_char_facts in Hc as (_ & -> & _). done. }
  do 2 f_equal. unfold host_part.
  assert (Hb : head_is (fun c => c =c "[") (host ++ port) = false).
  { destruct host as [|c h]; [by destruct Hp as [->|(? & -> & _)]|]. cbn in *. boolify. by apply host_char_facts. }
  rewrite Hb. apply take_while_app_stop.
  - eapply allb_impl; [|exact Hh]. intros c Hc. apply host_char_facts in Hc as (_ & _ & -> & _). done.
  - by destruct Hp as [->|(? & -> & _)].
Qed.

Lemma strip_port_plain host : allb host_char host = true -> ns_ext_strip_port (map lower host) = map lower host.
Proof.
  intros Hh. unfold ns_ext_strip_port.
  assert (F : allb host_char (map lower host) = true).
  { induction host as [|c h IH]; [done|]. cbn [map forallb] in *. boolify. rewrite IH by done.
    assert (X : negb (host_char c) || host_char (lower c) = true) by (clear; by_bytes c). rewrite H in X. by rewrite andb_true_r. }
  assert (Hb : head_is (fun c => c =c "[") (map lower host) = false).
  { destruct (map lower host) as [|c h]; [done|]. cbn in *. boolify. by apply host_char_facts. }
  rewrite Hb. apply take_while_id. eapply allb_impl; [|exact F]. intros c Hc.
  by apply host_char_facts in Hc as (_ & _ & -> & _).
Qed.

(** ** Hosts in filter lists *)

Definition simple_char (c : ascii) : bool := is_alnum c || (c =c ".") || (c =c "-").
Definition simple_host (h : bytes) : Prop := h <> [] /\ allb simple_char h = true.
Definition host_line (h : bytes) : bytes := $"||" ++ h ++ $"^".

Lemma is_simple_host_spec p :
  ns_abp_is_simple_host (G := glib_ref) p = true <-> exists h, p = host_line h /\ simple_host h.
Proof.
  unfold ns_abp_is_simple_host, host_line, simple_host. glib_simpl. split.
  - intros H. boolify. apply prefixb_spec in H as [k ->]. change (drop 2 ($"||" ++ k)) with k in H1.
    rewrite length_app in H0. change (length ($"||")) with 2 in H0.
    rewrite rev_app_distr in H2. destruct (rev k) as [|c r] eqn:E.
    { apply (f_equal (@length _)) in E. rewrite length_rev in E. destruct k; [|done]. cbn in H0. lia. }
    cbn in H2. apply andb_prop in H2 as [H2 _]. apply bool_decide_eq_true in H2. subst c.
    apply (f_equal (@rev _)) in E. rewrite rev_involutive in E. cbn [rev] in E. subst k.
    rewrite removelast_last in H1. exists (rev r). split; [done|]. split; [|done].
    intros Hn. rewrite Hn in H0. cbn in H0. lia.
  - intros (h & -> & Hn & Hh). rewrite prefixb_app.
    change (drop 2 ($"||" ++ h ++ $"^")) with (h ++ ["^"%char]). rewrite removelast_last.
    assert (E : rev ($"||" ++ h ++ $"^") = $"^" ++ rev h ++ $"||") by (rewrite !rev_app_distr; by rewrite <- app_assoc).
    rewrite E. change (rev ($"^")) with ($"^"). rewrite prefixb_app. unfold simple_char in Hh. rewrite Hh.
    cbn [andb]. apply Nat.ltb_lt. rewrite !length_app. change (length ($"||")) with 2. change (length ($"^")) with 1.
    destruct h; [done|]. cbn. lia.
Qed.

Lemma host_line_free c h :
  simple_host h -> simple_char c = false -> c <> "|"%char -> c <> "^"%char -> free_of c (host_line h) = true.
Proof.
  intros [_ Hh] Hc H1 H2. unfold host_line, free_of. rewrite !allb_app. apply andb_true_iff; split; [|apply andb_true_iff; split].
  - change ($"||") with ["|"; "|"]%char. cbn [forallb]. by rewrite (proj2 (Ascii.eqb_neq "|" c)) by congruence.
  - eapply allb_impl; [|exact Hh]. intros d Hd. apply negb_true_iff, Ascii.eqb_neq. congruence.
  - change ($"^") with ["^"]%char. cbn [forallb]. by rewrite (proj2 (Ascii.eqb_neq "^" c)) by congruence.
Qed.

Lemma contains_free s c n : free_of c s = true -> contains s (c :: n) = false.
Proof.
  intros H. apply not_true_iff_false. intros (b & k & ->)%contains_spec.
  rewrite free_of_app, (free_of_app _ (c :: n)) in H. cbn in H. boolify. done.
Qed.

(** The line as written, its host. *)
Definition names_host (line d : bytes) : Prop := exists h, line = host_line h /\ simple_host h /\ d = map lower h.

Lemma names_host_take h : take (length (host_line h) - 3) (drop 2 (host_line h)) = h.
Proof.
  unfold host_line. change (drop 2 ($"||" ++ h ++ $"^")) with (h ++ $"^"). rewrite !length_app.
  change (length ($"||")) with 2. change (length ($"^")) with 1.
  replace (2 + (length h + 1) - 3) with (length h) by lia. apply take_app_length.
Qed.

Lemma abp_split_host_line h : simple_host h -> abp_split (host_line h) = (host_line h, None).
Proof.
  intros Hh. unfold abp_split. change (head_is (fun c => c =c "/") (host_line h)) with false. cbv iota.
  by rewrite strchr_free by by apply host_line_free.
Qed.

Lemma abp_split_None pat p : abp_split pat = (p, None) -> p = pat \/ head_is (fun c => c =c "/") p = true.
Proof.
  unfold abp_split. destruct (head_is _ pat) eqn:Eh.
  - unfold strrchr_slash. destruct (Nat.eqb _ _); [by intros [= <-]; left|].
    destruct (Nat.eqb_spec (length (take (length pat - length (take_while (fun c => negb (c =c "/")) (rev pat))) pat)) 1);
      [by intros [= <-]; left|].
    intros [= <- _]. right. destruct pat as [|c pat]; [done|].
    destruct (length (c :: pat) - _) as [|k] eqn:Ek; [|exact Eh].
    exfalso. cbn [head_is] in Eh. apply Ascii.eqb_eq in Eh as ->.
    assert (L : length (take_while (fun c => negb (c =c "/")) (rev ("/"%char :: pat))) < length ("/"%char :: pat)); [|lia].
    rewrite <- (length_rev ("/"%char :: pat)).
    pose proof (take_drop_while (fun c => negb (c =c "/")) (rev ("/"%char :: pat))) as E.
    destruct (drop_while _ _) as [|x r] eqn:Ed.
    + rewrite app_nil_r in E. pose proof (take_while_forall (fun c => negb (c =c "/")) (rev ("/"%char :: pat))) as F.
      rewrite E in F. cbn [rev] in F. rewrite allb_app in F. cbn in F. boolify. done.
    + rewrite <- E at 2. rewrite length_app. cbn. lia.
  - destruct (strchr pat "$"); [done|]. intros [= <-]. by left.
Qed.

Lemma parse_network_hosts env s line d :
  d ∈ f_hosts (ns_abp_parse_network (G := glib_ref) env s line) <-> d ∈ f_hosts s \/ names_host line d.
Proof.
  unfold ns_abp_parse_network. glib_simpl. cbv zeta.
  destruct (prefixb ($"@@") line) eqn:Ex.
  - assert (N : ~ names_host line d) by (intros (h & -> & _); done).
    destruct (abp_split (drop 2 line)) as [[|c p] options]; [tauto|]. cbn [negb andb].
    destruct (_ && match _ with Some _ => false | None => true end); [tauto|].
    destruct (match options with Some o => _ | None => _ end); cbn [f_hosts]; tauto.
  - destruct (abp_split line) as [pattern options] eqn:Es.
    assert (L : names_host line d <-> options = None /\ ns_abp_is_simple_host (G := glib_ref) pattern = true /\
                 d = map lower (take (length pattern - 3) (drop 2 pattern))).
    { split.
      - intros (h & -> & Hh & ->). rewrite abp_split_host_line in Es by done. injection Es as <- <-.
        split; [done|]. split; [apply is_simple_host_spec; by exists h|]. by rewrite names_host_take.
      - intros (-> & (h & -> & Hh)%is_simple_host_spec & ->). apply abp_split_None in Es as [<-|]; [|done].
        exists h. split; [done|]. split; [done|]. by rewrite names_host_take. }
    rewrite L. destruct pattern as [|c p]; [naive_solver|]. cbn [negb andb].
    destruct options as [o|]; cbn [andb].
    + destruct (_ && match _ with Some _ => false | None => true end); [naive_solver|].
      destruct (abp_options _ _); cbn [f_hosts]; naive_solver.
    + destruct (ns_abp_is_simple_host (c :: p)); cbn [f_hosts]; [set_solver|].
      destruct (_ && match _ with Some _ => false | None => true end); cbn [f_hosts]; naive_solver.
Qed.

Lemma parse_cosmetic_hosts s line sep : f_hosts (ns_abp_parse_cosmetic (G := glib_ref) s line sep) = f_hosts s.
Proof.
  unfold ns_abp_parse_cosmetic. destruct (strstr line sep) as [[a b]|]; [|done]. cbv zeta.
  destruct (_ || _); [done|]. destruct (_ || _); [done|]. by destruct (ns_abp_split_domains _ _ _ _).
Qed.

Lemma filter_line_hosts env s raw d :
  d ∈ f_hosts (filter_line (G := glib_ref) env s raw) <-> d ∈ f_hosts s \/ names_host (Ref.strip raw) d.
Proof.
  unfold filter_line. glib_simpl. set (line := Ref.strip raw). clearbody line.
  assert (K : forall n, names_host line d -> contains line ("#"%char :: n) = false).
  { intros n (h & -> & Hh & _). apply contains_free. by apply host_line_free. }
  destruct line as [|c l] eqn:E.
  { split; [by left|]. intros [|(h & E' & _)]; [done|]. by apply (f_equal (@length _)) in E'. }
  rewrite <- E in *. assert (C : names_host line d -> c = "|"%char).
  { intros (h & Eh & _). rewrite E in Eh. by injection Eh as ->. }
  destruct ((c =c "!") || (c =c "[")) eqn:E1.
  { split; [by left|]. intros [|N]; [done|]. apply C in N as ->. done. }
  destruct (_ || _ || _ || _) eqn:E2.
  { split; [by left|]. intros [|N]; [done|]. change ($"#@#") with ("#"%char :: $"@#") in E2.
    change ($"#?#") with ("#"%char :: $"?#") in E2. change ($"#$#") with ("#"%char :: $"$#") in E2.
    change ($"#%#") with ("#"%char :: $"%#") in E2. by rewrite !K in E2. }
  destruct (contains line ($"##")) eqn:E3; [|apply parse_network_hosts].
  rewrite parse_cosmetic_hosts. split; [by left|]. intros [|N]; [done|].
  change ($"##") with ("#"%char :: $"#") in E3. by rewrite K in E3.
Qed.

(** A filter list blocks the hosts it names: loading one adds exactly the hosts of
    its lines [||host^] (white space around them aside), and from then on, with some
    extension loaded, a request to such a host or to any host below it is blocked,
    on any port and path, unless an allowing rule of priority 1 or more applies. *)
Theorem ext_filter_list_hosts (G : GLib) (env : ext_env) (base path full text : bytes) (s : filters) :
  GLibSpec G -> ns_ext_safe_path env base path = Some full -> e_contents env full = Some text ->
  let s' := ns_ext_load_filter_list env base s path in
  let lines := map Ref.strip (Ref.split (cstr_of text) [nl]) in
  (forall d, d ∈ f_hosts s' <-> d ∈ f_hosts s \/ exists h, In (host_line h) lines /\ simple_host h /\ d = map lower h) /\
  (forall (P : Psl) rm es h scheme host port rest initiator,
    es <> [] -> In (host_line h) lines -> simple_host h ->
    scheme = $"http" \/ scheme = $"https" -> allb host_char host = true -> port_text port -> url_tail rest ->
    within (map lower h) (map lower host) ->
    let st := {| exts := es; blocked_hosts := f_hosts s' |} in
    let url := scheme ++ $"://" ++ host ++ port ++ rest in
    (forall q, rule_of P rm st url initiator true q -> (q < 1)%Z) ->
    ns_ext_should_block rm st (Some url) initiator = true).
Proof.
  intros GS Hp Hc s' lines. glib.
  assert (M : forall d, d ∈ f_hosts s' <->
    d ∈ f_hosts s \/ exists h, In (host_line h) lines /\ simple_host h /\ d = map lower h).
  { intros d. unfold s', ns_ext_load_filter_list, lines. rewrite Hp, Hc. glib_simpl. clear.
    revert s. induction (Ref.split (cstr_of text) [nl]) as [|l ls IH]; intros s; cbn [fold_left map In]; [naive_solver|].
    rewrite IH, filter_line_hosts. unfold names_host. naive_solver. }
  split; [exact M|]. intros P rm es h scheme host port rest initiator He Hl Hh Hs Hho Hpo Hr Hw st url Hq.
  apply verdict_spec. split; [done|]. split.
  { destruct Hs as [-> | ->]; [left|right]; apply prefixb_spec; by eexists. }
  exists 1%Z. split; [lia|]. split; [|done]. right. split; [done|].
  exists (map lower host), (map lower h). split; [|split; [|split]].
  - apply host_of_url; try done. by destruct Hs as [-> | ->].
  - apply M. right. by exists h.
  - destruct Hh as [Hn _]. by destruct h.
  - by rewrite strip_port_plain.
Qed.

Definition demo_env : ext_env :=
  {| e_regex_new _ _ := false; e_contents _ := Some ($"! list" ++ [nl] ++ $" ||Ads.example^ " ++ [nl] ++ $"@@||x.example^$script");
     e_exists _ := true; e_is_dir _ := false; e_dir _ := None; e_build l := concat l; e_canonicalize p := p;
     e_basename p := p; e_uuid _ := $"u"; e_extensions_dir := None; e_data_dir := []; e_context := true |}.

Lemma ext_filter_list_hosts_witness :
  let s := ns_ext_load_filter_list (G := glib_ref) demo_env ($"/x") {| f_rules := []; f_cosmetic := []; f_hosts := ∅ |} ($"/l") in
  f_hosts s = {[ $"ads.example" ]} /\
  ns_ext_should_block (G := glib_ref) (P := demo_psl) (fun _ _ => false)
    {| exts := [demo_ext []]; blocked_hosts := f_hosts s |} (Some ($"https://www.ADS.example:8443/a?b")) None = true.
Proof.
  destruct (ext_filter_list_hosts glib_ref demo_env ($"/x") ($"/l") ($"/x/l") _
    {| f_rules := []; f_cosmetic := []; f_hosts := ∅ |} glib_ref_spec ltac:(reflexivity) ltac:(reflexivity)) as [_ B].
  cbv zeta in *. split; [apply (bool_decide_unpack _); vm_compute; exact I|].
  apply (B demo_psl (fun _ _ => false) [demo_ext []] ($"Ads.example") ($"https") ($"www.ADS.example") ($":8443") ($"/a?b") None).
  - discriminate.
  - right. left. reflexivity.
  - split; [discriminate|reflexivity].
  - by right.
  - reflexivity.
  - right. exists ($"8443"). split; reflexivity.
  - right. reflexivity.
  - right. exists ($"www"). reflexivity.
  - intros q (e & r & [<-|[]] & [] & _).
Defined.

(** An option the parser does not know is dropped, and the rule with it applies to
    every kind of request. *)
Example unknown_option_widens :
  let s := filter_line (G := glib_ref) demo_env {| f_rules := []; f_cosmetic := []; f_hosts := ∅ |}
             ($"||cdn.example^$subdocument") in
  ns_ext_should_block (G := glib_ref) (P := demo_psl) (fun _ _ => false)
    {| exts := [demo_ext (f_rules s)]; blocked_hosts := ∅ |} (Some ($"https://cdn.example/app.js")) None = true.
Proof. vm_compute. reflexivity. Qed.

Definition demo_quickjs : QuickJS :=
  {| JS_ParseJSON _ := None; js_number_int32 n := dec_val n; js_number_truth n := negb (dec_val n =? 0)%Z;
     js_value_uint32 v := match v with JS_NUMBER n => dec_val n | _ => 0%Z end; js_object_text _ := None |}.

(** A rule whose regular expression does not compile loses that condition and blocks
    everything. *)
Example bad_regex_blocks_all :
  exists r, ns_dnr_parse_rule (G := glib_ref) (Q := demo_quickjs) demo_env
      (JS_OBJECT [($"action", JS_OBJECT [($"type", JS_STRING ($"block"))]);
                  ($"condition", JS_OBJECT [($"regexFilter", JS_STRING ($"(?<!x)ads"))])]) = Some r /\
    ns_ext_should_block (G := glib_ref) (P := demo_psl) (fun _ _ => false)
      {| exts := [demo_ext [r]]; blocked_hosts := ∅ |} (Some ($"https://bank.example/")) None = true.
Proof. eexists. split; [reflexivity|]. vm_compute. reflexivity. Qed.
