(* ===== verification/Xml.v ===== *)
(** * The XML parser ([src/xml.c])

    Documents with an XML type are parsed by a small namespace-aware parser into the
    browser's node tree. The tree's nodes and attributes are those of [src/dom.c],
    as far as the parser sets them. GLib's number reader and UTF-8 writer are
    arguments. *)

From S2P Require Import Prelude CStr GLib.

(** ** Nodes ([src/dom.c]) *)

Inductive ns_node_kind := NS_NODE_DOCUMENT | NS_NODE_DOCTYPE | NS_NODE_ELEMENT | NS_NODE_TEXT | NS_NODE_COMMENT.

Inductive node_flag :=
| NS_NODE_SVG_NS | NS_NODE_FOREIGN_NS | NS_NODE_CDATA | NS_NODE_PI | NS_NODE_KEEP_CASE
| NS_NODE_NOT_PARSER_INSERTED | NS_NODE_XML_DOC.

Record ns_attr := {
  a_name : bytes;
  a_value : bytes;
  namespace_uri : option bytes;
  prefix : option bytes;
  local_name : option bytes;
}.

(** A node with its children; [flags] are the bits set. *)
Inductive ns_node := Node {
  kind : ns_node_kind;
  name : option bytes;
  text : option bytes;
  public_id : option bytes;
  system_id : option bytes;
  attrs : list ns_attr;
  flags : list node_flag;
  children : list ns_node;
}.

Definition ns_node_new_document (fl : list node_flag) : ns_node :=
  Node NS_NODE_DOCUMENT None None None None [] fl [].
Definition ns_node_new_doctype (nm pub sys : bytes) : ns_node :=
  Node NS_NODE_DOCTYPE (Some nm) None (Some pub) (Some sys) [] [] [].
Definition ns_node_new_element (nm : bytes) (ats : list ns_attr) (fl : list node_flag) : ns_node :=
  Node NS_NODE_ELEMENT (Some nm) None None None ats fl [].
Definition ns_node_new_text (t : bytes) (fl : list node_flag) : ns_node :=
  Node NS_NODE_TEXT None (Some t) None None [] fl [].
Definition ns_node_new_comment (nm : option bytes) (t : bytes) (fl : list node_flag) : ns_node :=
  Node NS_NODE_COMMENT nm (Some t) None None [] fl [].

(** [ns_node_append_child]; in the code the child may be filled later. *)
Definition ns_node_append_child (parent child : ns_node) : ns_node :=
  Node (kind parent) (name parent) (text parent) (public_id parent) (system_id parent)
       (attrs parent) (flags parent) (children parent ++ [child]).

Definition ns_attr_local_name (a : ns_attr) : bytes := default (a_name a) (local_name a).
Definition ns_attr_normalize_namespace (u : option bytes) : option bytes :=
  match u with Some [] => None | _ => u end.
Definition ns_attr_matches_ns (a : ns_attr) (uri : option bytes) (local : bytes) : bool :=
  bool_decide (ns_attr_normalize_namespace (namespace_uri a) = ns_attr_normalize_namespace uri) &&
  (ns_attr_local_name a =b local).

Definition set_value (v : bytes) (a : ns_attr) : ns_attr :=
  Build_ns_attr (a_name a) v (namespace_uri a) (prefix a) (local_name a).

(** The first attribute that matches gets the value; if none does, one is added. *)
Fixpoint put_attr (found : ns_attr -> bool) (new : ns_attr) (l : list ns_attr) : list ns_attr :=
  match l with
  | [] => [new]
  | a :: l' => if found a then set_value (a_value new) a :: l' else a :: put_attr found new l'
  end.

Definition ns_element_set_attr `{GLib} (nm v : bytes) (l : list ns_attr) : list ns_attr :=
  put_attr (fun a => g_ascii_strcasecmp0 (a_name a) nm) (Build_ns_attr nm v None None None) l.

Definition ns_element_set_attr_ns (uri pfx : option bytes) (local nm v : bytes) (l : list ns_attr) : list ns_attr :=
  let ns := ns_attr_normalize_namespace uri in
  let pfx := match pfx with Some [] => None | _ => pfx end in
  let qualified := match nm with [] => local | _ => nm end in
  put_attr (fun a => ns_attr_matches_ns a ns local) (Build_ns_attr qualified v ns pfx (Some local)) l.

(** ** The parser *)

Definition XML_NS_XML : bytes := $"http://www.w3.org/XML/1998/namespace".
Definition XML_NS_XMLNS : bytes := $"http://www.w3.org/2000/xmlns/".
Definition XML_NS_XHTML : bytes := $"http://www.w3.org/1999/xhtml".
Definition XML_NS_SVG : bytes := $"http://www.w3.org/2000/svg".
Definition XML_MAX_DEPTH : nat := 256.

Definition xml_binding : Type := option bytes * bytes.

(** What is left of the input, the bindings in force (the newest first), the
    entities and whether all is well. *)
Record xml_parser := {
  p : bytes;
  ns_stack : list xml_binding;
  entities : gmap bytes bytes;
  ok : bool;
}.
Definition at_p (s : bytes) (xp : xml_parser) : xml_parser := Build_xml_parser s (ns_stack xp) (entities xp) (ok xp).
Definition failed (xp : xml_parser) : xml_parser := Build_xml_parser (p xp) (ns_stack xp) (entities xp) false.
Definition set_ok (b : bool) (xp : xml_parser) : xml_parser := Build_xml_parser (p xp) (ns_stack xp) (entities xp) b.
Definition set_stack (st : list xml_binding) (xp : xml_parser) : xml_parser :=
  Build_xml_parser (p xp) st (entities xp) (ok xp).
Definition add_entity (nm v : bytes) (xp : xml_parser) : xml_parser :=
  Build_xml_parser (p xp) (ns_stack xp) (<[nm := v]> (entities xp)) (ok xp).
(** [g_ptr_array_set_size(ns_stack, base)]. *)
Definition unwind (base : nat) (xp : xml_parser) : xml_parser :=
  set_stack (drop (length (ns_stack xp) - base) (ns_stack xp)) xp.

(** [g_unichar_to_utf8]; [g_ascii_strtoull]: the value and what follows it. *)
Class Unichar := {
  g_unichar_to_utf8 : Z -> bytes;
  g_ascii_strtoull : Z -> bytes -> Z * bytes;
}.

Definition xml_is_space (c : ascii) : bool := memb c [" "%char; tab; nl; cr].
Definition skip_space (s : bytes) : bytes := drop_while xml_is_space s.
Definition xml_skip_space (xp : xml_parser) : xml_parser := at_p (skip_space (p xp)) xp.

Definition xml_name_char (c : ascii) (first : bool) : bool :=
  (c =c ":") || (c =c "_") || is_alpha c || (128 <=? code c)%Z ||
  (negb first && ((c =c "-") || (c =c ".") || is_digit c)).

Definition is_name_char (c : ascii) : bool := xml_name_char c false.
Definition read_name (s : bytes) : option (bytes * bytes) :=
  match s with
  | c :: s' => if xml_name_char c true then Some (c :: take_while is_name_char s', drop_while is_name_char s') else None
  | [] => None
  end.
Definition xml_read_name (xp : xml_parser) : option bytes * xml_parser :=
  match read_name (p xp) with Some (n, r) => (Some n, at_p r xp) | None => (None, xp) end.

Definition xml_qname_valid (nm : bytes) : bool :=
  match strchr nm ":" with
  | None => true
  | Some colon => negb (before nm ":" =b []) && negb (drop 1 colon =b []) &&
                  match strchr (drop 1 colon) ":" with None => true | Some _ => false end
  end.

Definition is_quote (c : ascii) : bool := (c =c dquote) || (c =c "'").

Definition xml_read_quoted_range (s : bytes) : option (bytes * bytes) :=
  match s with
  | q :: s' =>
      if is_quote q
      then match strchr s' q with Some r => Some (cstr_of (before s' q), drop 1 r) | None => None end
      else None
  | [] => None
  end.

(** The range ends, or its internal subset begins. *)
Definition tail_done (s : bytes) : bool := (s =b []) || head_is (fun c => c =c "[") s.

Definition xml_doctype_tail_parse (s : bytes) : option (bytes * bytes) :=
  let s := skip_space s in
  if tail_done s then Some ([], [])
  else
    let has kw := prefixb kw s && head_is xml_is_space (drop 6 s) in
    let has_public_id := has ($"PUBLIC") in
    let has_system_id := has ($"SYSTEM") in
    if negb has_public_id && negb has_system_id then None
    else
      match xml_read_quoted_range (skip_space (drop 6 s)) with
      | None => None
      | Some (first_id, s) =>
          let s := skip_space s in
          if has_public_id then
            match xml_read_quoted_range s with
            | None => None
            | Some (second_id, s) => if tail_done (skip_space s) then Some (first_id, second_id) else None
            end
          else if tail_done s then Some ([], first_id) else None
      end.

Section Xml.
Context {G : GLib} {U : Unichar}.

Definition xml_append_codepoint (out : bytes) (cp : Z) : bytes :=
  if (cp =? 0)%Z || (1114111 <? cp)%Z || ((55296 <=? cp)%Z && (cp <=? 57343)%Z)
  then out ++ [byte_of 239; byte_of 191; byte_of 189]
  else out ++ g_unichar_to_utf8 cp.

Definition char_ref (body : bytes) : option Z :=
  let hex := (2 <=? length body) && head_is (fun c => (c =c "x") || (c =c "X")) (drop 1 body) in
  let raw := cstr_of (drop (if hex then 2 else 1) body) in
  let '(cp, num_end) := g_ascii_strtoull (if hex then 16 else 10)%Z raw in
  if negb (num_end =b raw) && (num_end =b []) && negb (cp =? 0)%Z && (cp <=? 1114111)%Z &&
     negb ((55296 <=? cp)%Z && (cp <=? 57343)%Z)
  then Some cp else None.

Definition predefined : list (bytes * bytes) :=
  [($"amp", $"&"); ($"lt", $"<"); ($"gt", $">"); ($"quot", [dquote]); ($"apos", $"'")].

(** What a reference [&body;] adds to the text. *)
Definition reference (ents : gmap bytes bytes) (out body : bytes) : option bytes :=
  match body with
  | [] => None
  | c :: _ =>
      if c =c "#" then option_map (xml_append_codepoint out) (char_ref body)
      else match List.find (fun e => e.1 =b body) predefined with
           | Some e => Some (out ++ e.2)
           | None => option_map (fun v => out ++ v) (ents !! cstr_of body)
           end
  end.

(** The loop of [xml_decode_text]; [None]: out of fuel. *)
Fixpoint decode_loop (fuel : nat) (ents : gmap bytes bytes) (s out : bytes) : option (bytes * bool) :=
  match fuel with
  | O => None
  | S fuel' =>
      match s with
      | [] => Some (out, true)
      | c :: s' =>
          if negb (c =c "&") then decode_loop fuel' ents s' (out ++ [c])
          else match strchr s' ";" with
               | None => Some (out, false)
               | Some semi =>
                   match reference ents out (before s' ";") with
                   | None => Some (out, false)
                   | Some out' => decode_loop fuel' ents (drop 1 semi) out'
                   end
               end
      end
  end.
Definition xml_decode_text (xp : xml_parser) (s : bytes) : option (bytes * xml_parser) :=
  match decode_loop (S (length s)) (entities xp) s [] with
  | Some (out, good) => Some (cstr_of out, if good : bool then xp else failed xp)
  | None => None
  end.

Definition xml_lookup_prefix (xp : xml_parser) (pfx : option bytes) : option bytes :=
  if bool_decide (pfx = Some ($"xml")) then Some XML_NS_XML
  else if bool_decide (pfx = Some ($"xmlns")) then Some XML_NS_XMLNS
  else option_map snd (List.find (fun b => bool_decide (b.1 = pfx)) (ns_stack xp)).

Definition xml_push_binding (xp : xml_parser) (pfx : option bytes) (uri : bytes) : xml_parser :=
  set_stack ((match pfx with Some [] => None | _ => pfx end, uri) :: ns_stack xp) xp.

(** [g_strstr_len(s, len, needle)], as the rest of [s] itself. *)
Definition find_in (s needle : bytes) : option bytes :=
  option_map (fun r => drop (length (cstr_of s) - length r) s) (g_strstr_len s needle).

Fixpoint entities_loop (fuel : nat) (xp : xml_parser) (s : bytes) : option xml_parser :=
  match fuel with
  | O => None
  | S fuel' =>
      if (s =b []) || negb (ok xp) then Some xp
      else
        match find_in s ($"<!ENTITY") with
        | None => Some xp
        | Some decl =>
            let s := skip_space (drop 8 decl) in
            if head_is (fun c => c =c "%") s then entities_loop fuel' xp (drop 1 s)
            else
              match read_name s with
              | None => Some (failed xp)
              | Some (nm, s) =>
                  let s := skip_space s in
                  match s with
                  | q :: v =>
                      if negb (is_quote q) then entities_loop fuel' xp s
                      else
                        match strchr v q with
                        | None => Some (failed xp)
                        | Some r =>
                            match xml_decode_text xp (before v q) with
                            | None => None
                            | Some (value, xp) =>
                                entities_loop fuel' (if ok xp then add_entity nm value xp else xp) (drop 1 r)
                            end
                        end
                  | [] => entities_loop fuel' xp s
                  end
              end
        end
  end.
Definition xml_parse_internal_entities (xp : xml_parser) (s : bytes) : option xml_parser :=
  entities_loop (S (length s)) xp s.

(** The bytes of a DOCTYPE declaration up to its [>] outside brackets. *)
Fixpoint doctype_end (s : bytes) (bracket : nat) : option (bytes * bytes) :=
  match s with
  | [] => None
  | c :: s' =>
      let go b := match doctype_end s' b with Some (x, r) => Some (c :: x, r) | None => None end in
      if c =c "[" then go (S bracket)
      else if c =c "]" then go (Nat.pred bracket)
      else if (c =c ">") && (bracket =? 0) then Some ([], s) else go bracket
  end.

(** The internal subset of a declaration: between its first [\[] and its last [\]]. *)
Definition internal_subset (b : bytes) : option bytes :=
  match strchr b "[" with
  | None => None
  | Some s =>
      match strchr (rev (drop 1 s)) "]" with
      | Some r => Some (rev (drop 1 r))
      | None => None
      end
  end.

Definition subset_entities (b : bytes) (xp : xml_parser) : option xml_parser :=
  match internal_subset b with Some sub => xml_parse_internal_entities xp sub | None => Some xp end.

(** The node of the declaration [<!DOCTYPE b>]; [None]: it is not well formed. *)
Definition doctype_node (b : bytes) : option ns_node :=
  let t := skip_space b in
  let in_name := fun c => negb (xml_is_space c) && negb (c =c ">") && negb (c =c "[") in
  let tn := take_while in_name t in
  if (tn =b []) || negb (xml_qname_valid (cstr_of tn)) then None
  else match xml_doctype_tail_parse (drop_while in_name t) with
       | None => None
       | Some (pub, sys) => Some (ns_node_new_doctype (cstr_of tn) pub sys)
       end.

(** A processing instruction of the text [b]. *)
Definition pi_node (b : bytes) : ns_node :=
  let is_sp := fun c => negb (xml_is_space c) in
  ns_node_new_comment (Some (cstr_of (take_while is_sp b))) (cstr_of (skip_space (drop_while is_sp b))) [NS_NODE_PI].
Definition is_xml_declaration (b : bytes) : bool :=
  prefixb ($"xml") b && ((length b =? 3) || head_is xml_is_space (drop 3 b)).

Fixpoint misc_loop (fuel : nat) (xp : xml_parser) (doc : ns_node) : option (xml_parser * ns_node) :=
  match fuel with
  | O => None
  | S fuel' =>
      let xp := xml_skip_space xp in
      let s := p xp in
      if prefixb ($"<?") s then
        match strstr (drop 2 s) ($"?>") with
        | None => Some (failed (at_p [] xp), doc)
        | Some (b, r) =>
            misc_loop fuel' (at_p (drop 2 r) xp) (if is_xml_declaration b then doc else ns_node_append_child doc (pi_node b))
        end
      else if prefixb ($"<!--") s then
        match strstr (drop 4 s) ($"-->") with
        | None => Some (failed (at_p [] xp), doc)
        | Some (b, r) => misc_loop fuel' (at_p (drop 3 r) xp) (ns_node_append_child doc (ns_node_new_comment None (cstr_of b) []))
        end
      else if (9 <=? length s) && g_ascii_strncasecmp0 s ($"<!DOCTYPE") 9 then
        match doctype_end (drop 9 s) 0 with
        | None => Some (failed (at_p [] xp), doc)
        | Some (b, r) =>
            match subset_entities b xp with
            | None => None
            | Some xp =>
                match doctype_node b with
                | None => Some (failed xp, doc)
                | Some dt => misc_loop fuel' (at_p (drop 1 r) xp) (ns_node_append_child doc dt)
                end
            end
        end
      else Some (xp, doc)
  end.
Definition xml_skip_misc_and_doctype (xp : xml_parser) (doc : ns_node) : option (xml_parser * ns_node) :=
  misc_loop (S (length (p xp))) xp doc.

(** *** Attributes *)

Definition is_default_decl (aname : bytes) : bool := strcmp0 aname ($"xmlns").
Definition is_prefix_decl (aname : bytes) : bool := prefixb ($"xmlns:") aname.

Definition invalid_decl (aname aval : bytes) : bool :=
  let decl_prefix := drop 6 aname in
  (is_prefix_decl aname && (decl_prefix =b $"xmlns")) ||
  (is_prefix_decl aname && (decl_prefix =b $"xml") && negb (aval =b XML_NS_XML)) ||
  (is_prefix_decl aname && negb (decl_prefix =b $"xml") &&
   ((aval =b []) || (aval =b XML_NS_XML) || (aval =b XML_NS_XMLNS))) ||
  (is_default_decl aname && ((aval =b XML_NS_XML) || (aval =b XML_NS_XMLNS))).

Definition declare (aname aval : bytes) (xp : xml_parser) : xml_parser :=
  if is_default_decl aname then xml_push_binding xp None aval
  else if is_prefix_decl aname then xml_push_binding xp (Some (drop 6 aname)) aval
  else xp.

(** The loop of [xml_parse_attributes]: what it returns, the parser, and the
    names with their values. *)
Fixpoint attributes_loop (fuel : nat) (xp : xml_parser) (acc : list (bytes * bytes))
    : option (bool * xml_parser * list (bytes * bytes)) :=
  match fuel with
  | O => None
  | S fuel' =>
      let xp := xml_skip_space xp in
      match p xp with
      | [] => Some (false, failed xp, acc)
      | c :: _ =>
          if (c =c ">") || (c =c "/") then Some (true, xp, acc)
          else
            match xml_read_name xp with
            | (None, xp) => Some (false, failed xp, acc)
            | (Some aname, xp) =>
                if negb (xml_qname_valid aname) then Some (false, failed xp, acc)
                else
                  let xp := xml_skip_space xp in
                  if negb (head_is (fun c => c =c "=") (p xp)) then Some (false, failed xp, acc)
                  else
                    let xp := xml_skip_space (at_p (drop 1 (p xp)) xp) in
                    match p xp with
                    | [] => Some (false, failed xp, acc)
                    | q :: v =>
                        if negb (is_quote q) then Some (false, failed xp, acc)
                        else
                          match strchr v q with
                          | None => Some (false, failed (at_p [] xp), acc)
                          | Some r =>
                              match xml_decode_text xp (before v q) with
                              | None => None
                              | Some (aval, xp) =>
                                  let xp := at_p (drop 1 r) xp in
                                  if negb (ok xp) then Some (false, xp, acc)
                                  else if invalid_decl aname aval then Some (false, failed xp, acc)
                                  else if existsb (fun a => strcmp0 a.1 aname) acc then Some (false, failed xp, acc)
                                  else attributes_loop fuel' (declare aname aval xp) (acc ++ [(aname, aval)])
                              end
                          end
                    end
            end
      end
  end.

(** [xml_parse_attributes]; [*base] is the length of the stack before. *)
Definition xml_parse_attributes (xp : xml_parser) : option (bool * xml_parser * list (bytes * bytes) * nat) :=
  match attributes_loop (S (length (p xp))) xp [] with
  | Some r => Some (r, length (ns_stack xp))
  | None => None
  end.

(** *** Elements *)

(** The prefix of a qualified name, and what follows its colon. *)
Definition qname_prefix (q : bytes) : option bytes :=
  match strchr q ":" with Some _ => Some (before q ":") | None => None end.
Definition qname_local (q : bytes) : bytes :=
  match strchr q ":" with Some colon => drop 1 colon | None => q end.

Definition xml_apply_namespace (q : bytes) (uri : option bytes) (ats : list ns_attr) (fl : list node_flag)
    : list ns_attr * list node_flag :=
  let fl := fl ++ [NS_NODE_KEEP_CASE; NS_NODE_XML_DOC] in
  let ats := match qname_prefix q with
             | Some pfx => ns_element_set_attr ($"data-nd-ns-prefix") pfx ats
             | None => ats
             end in
  let ats := match uri with
             | Some ((_ :: _) as u) => ns_element_set_attr ($"data-nd-ns-uri") u ats
             | _ => ats
             end in
  if bool_decide (uri = Some XML_NS_XHTML) then (ats, fl)
  else if bool_decide (uri = Some XML_NS_SVG) then (ats, fl ++ [NS_NODE_SVG_NS])
  else (ats, fl ++ [NS_NODE_FOREIGN_NS]).

(** One turn of the loop that gives the element its attributes. *)
Definition set_attribute (a : bytes * bytes) (st : xml_parser * list ns_attr) : xml_parser * list ns_attr :=
  let '(an, av) := a in
  let '(xp, ats) := st in
  if strcmp0 an ($"xmlns") then (xp, ns_element_set_attr_ns (Some XML_NS_XMLNS) None ($"xmlns") ($"xmlns") av ats)
  else match qname_prefix an with
       | Some apfx =>
           let auri := xml_lookup_prefix xp (Some apfx) in
           (match auri with None => failed xp | Some _ => xp end,
            ns_element_set_attr_ns auri (Some apfx) (qname_local an) an av ats)
       | None => (xp, ns_element_set_attr_ns None None an an av ats)
       end.

(** [xml_parse_element] up to its content: it has returned, or the loop on the
    content of the element begins. *)
Inductive opening :=
| Returned (parent : ns_node) (xp : xml_parser) (res : bool)
| Content (el : ns_node) (qname : bytes) (base : nat) (xp : xml_parser).

Definition open_tag (q : bytes) (atts : list (bytes * bytes)) (base : nat) (xp : xml_parser) (parent : ns_node) : opening :=
  let pfx := qname_prefix q in
  let el_uri := xml_lookup_prefix xp pfx in
  if (match pfx with Some _ => true | None => false end) && bool_decide (el_uri = None)
  then Returned parent (unwind base (failed xp)) false
  else
    let is_xhtml := bool_decide (el_uri = Some XML_NS_XHTML) in
    let stored := if is_xhtml then qname_local q else q in
    let '(ats, fl) := xml_apply_namespace q el_uri [] [NS_NODE_NOT_PARSER_INSERTED] in
    let '(xp, ats) := fold_left (fun st a => set_attribute a st) atts (xp, ats) in
    if negb (ok xp) then Returned parent (unwind base xp) false
    else
      let el := ns_node_new_element stored ats fl in
      let xp := xml_skip_space xp in
      match p xp with
      | c :: s =>
          if c =c "/" then
            let xp := if head_is (fun c => c =c ">") s then at_p (drop 1 s) xp else failed (at_p s xp) in
            Returned (ns_node_append_child parent el) (unwind base xp) (ok xp)
          else if negb (c =c ">") then Returned (ns_node_append_child parent el) (failed xp) false
          else Content el q base (at_p s xp)
      | [] => Returned (ns_node_append_child parent el) (failed xp) false
      end.

Definition xml_open_element (xp : xml_parser) (parent : ns_node) (depth : nat) : option opening :=
  if XML_MAX_DEPTH <? depth then Some (Returned parent (failed xp) false)
  else
    match xml_read_name (at_p (drop 1 (p xp)) xp) with
    | (None, xp) => Some (Returned parent (failed xp) false)
    | (Some q, xp) =>
        if negb (xml_qname_valid q) || prefixb ($"xmlns:") q then Some (Returned parent (failed xp) false)
        else
          match xml_parse_attributes xp with
          | None => None
          | Some (false, xp, _, _) => Some (Returned parent xp false)
          | Some (true, xp, atts, base) => Some (open_tag q atts base xp parent)
          end
    end.

(** [</name>]: the parser after it and whether it closes the element [q]. *)
Definition end_tag (q : bytes) (xp : xml_parser) : xml_parser * bool :=
  let '(ename, xp) := xml_read_name (at_p (drop 2 (p xp)) xp) in
  let xp := match ename with Some e => if xml_qname_valid e then xp else failed xp | None => xp end in
  let xp := xml_skip_space xp in
  let xp := if head_is (fun c => c =c ">") (p xp) then at_p (drop 1 (p xp)) xp else failed xp in
  if bool_decide (ename = Some q) then (xp, true) else (failed xp, false).

Definition is_lt (c : ascii) : bool := c =c "<".

(** The last lines of [xml_parse_element]. *)
Definition finish (base : nat) (closed : bool) (xp : xml_parser) : xml_parser :=
  unwind base (if ok xp && negb closed then failed xp else xp).

(** The rest of [xml_parse_element], given what its loop on the content does; the
    results are the parser, the parent with the element, and what is returned. *)
Definition element_turn (content : bytes -> xml_parser -> ns_node -> nat -> option (xml_parser * ns_node * bool))
    (xp : xml_parser) (parent : ns_node) (depth : nat) : option (xml_parser * ns_node * bool) :=
  match xml_open_element xp parent depth with
  | None => None
  | Some (Returned parent xp res) => Some (xp, parent, res)
  | Some (Content el q base xp) =>
      match content q xp el depth with
      | None => None
      | Some (xp, el, closed) =>
          let xp := finish base closed xp in
          Some (xp, ns_node_append_child parent el, ok xp)
      end
  end.

Definition isnt_lt (c : ascii) : bool := negb (is_lt c).

(** One turn of the loop on the content of the element [q]: it ends, or [next]
    makes the turns that follow; the last result tells whether [q] was closed. *)
Definition content_turn (element : xml_parser -> ns_node -> nat -> option (xml_parser * ns_node * bool))
    (next : xml_parser -> ns_node -> option (xml_parser * ns_node * bool))
    (q : bytes) (xp : xml_parser) (el : ns_node) (depth : nat) : option (xml_parser * ns_node * bool) :=
  if negb (ok xp) || (p xp =b []) then Some (xp, el, false)
  else if head_is is_lt (p xp) then
    if prefixb ($"</") (p xp) then
      let '(xp, closed) := end_tag q xp in Some (xp, el, closed)
    else if prefixb ($"<!--") (p xp) then
      match strstr (drop 4 (p xp)) ($"-->") with
      | None => Some (failed xp, el, false)
      | Some (b, r) =>
          next (at_p (drop 3 r) xp) (ns_node_append_child el (ns_node_new_comment None (cstr_of b) []))
      end
    else if prefixb ($"<![CDATA[") (p xp) then
      match strstr (drop 9 (p xp)) ($"]]>") with
      | None => Some (failed xp, el, false)
      | Some (b, r) =>
          next (at_p (drop 3 r) xp) (ns_node_append_child el (ns_node_new_text (cstr_of b) [NS_NODE_CDATA]))
      end
    else if prefixb ($"<?") (p xp) then
      match strstr (drop 2 (p xp)) ($"?>") with
      | None => Some (failed xp, el, false)
      | Some (b, r) => next (at_p (drop 2 r) xp) (ns_node_append_child el (pi_node b))
      end
    else
      match element xp el (S depth) with
      | None => None
      | Some (xp, el, true) => next xp el
      | Some (xp, el, false) => Some (xp, el, false)
      end
  else
    match xml_decode_text (at_p (drop_while isnt_lt (p xp)) xp) (take_while isnt_lt (p xp)) with
    | None => None
    | Some (txt, xp) => next xp (ns_node_append_child el (ns_node_new_text txt []))
    end.

(** [None]: out of fuel. *)
Fixpoint xml_parse_element (fuel : nat) (xp : xml_parser) (parent : ns_node) (depth : nat)
    : option (xml_parser * ns_node * bool) :=
  match fuel with
  | O => None
  | S fuel' => element_turn (xml_content fuel') xp parent depth
  end
with xml_content (fuel : nat) (q : bytes) (xp : xml_parser) (el : ns_node) (depth : nat)
    : option (xml_parser * ns_node * bool) :=
  match fuel with
  | O => None
  | S fuel' =>
      content_turn (xml_parse_element fuel') (fun xp el => xml_content fuel' q xp el depth) q xp el depth
  end.

(** *** Documents *)

Definition xml_offset_to_line_column (input : bytes) (offset : nat) : Z * Z :=
  fold_left (fun '(ln, col) c => if c =c nl then ((ln + 1)%Z, 1%Z) else (ln, (col + 1)%Z)) (take offset input) (1%Z, 1%Z).

Definition bom : bytes := [byte_of 239; byte_of 187; byte_of 191].

(** The document, and the line and column reported: 1 and 1, or where a parse
    that failed had got to. *)
Definition ns_xml_parse_reporting (input : option bytes) (len : Z) : option (option ns_node * (Z * Z)) :=
  match input with
  | None => Some (None, (1, 1)%Z)
  | Some input =>
      let s := if (len <? 0)%Z then cstr_of input else take (Z.to_nat len) input in
      let xp := Build_xml_parser (if prefixb bom s then drop 3 s else s) [] ∅ true in
      let doc := ns_node_new_document [NS_NODE_XML_DOC] in
      match xml_skip_misc_and_doctype xp doc with
      | None => None
      | Some (xp, doc) =>
          match (if head_is is_lt (p xp) then xml_parse_element (S (length (p xp))) xp doc 0
                 else Some (failed xp, doc, false)) with
          | None => None
          | Some (xp, doc, root) =>
              match (if ok xp then xml_skip_misc_and_doctype xp doc else Some (xp, doc)) with
              | None => None
              | Some (xp, doc) =>
                  let xp := if ok xp && negb (p xp =b []) then failed xp else xp in
                  if negb (ok xp) || negb root
                  then Some (None, xml_offset_to_line_column s (length s - length (p xp)))
                  else Some (Some doc, (1, 1)%Z)
              end
          end
      end
  end.
Definition ns_xml_parse (input : option bytes) (len : Z) : option (option ns_node) :=
  option_map fst (ns_xml_parse_reporting input len).
End Xml.

(** ** Lengths: every scan leaves a suffix *)

Lemma strchr_length s c r : strchr s c = Some r -> 1 <= length r <= length s.
Proof.
  intros (t & -> & E)%strchr_Some. rewrite E, length_app. cbn. lia.
Qed.

Lemma strstr_length s n b r : strstr s n = Some (b, r) -> length n <= length r <= length s.
Proof.
  intros [-> [k ->]%prefixb_spec]%strstr_Some. rewrite !length_app. lia.
Qed.

Lemma skip_space_length s : length (skip_space s) <= length s.
Proof. apply drop_while_length. Qed.

Lemma read_name_length s n r : read_name s = Some (n, r) -> length r < length s.
Proof.
  destruct s as [|c s]; cbn; [done|]. case_test; [|done]. intros [= <- <-].
  pose proof (drop_while_length is_name_char s). lia.
Qed.

Lemma find_in_length s n r : find_in s n = Some r -> length n <= length r <= length s.
Proof.
  unfold find_in. glib_simpl. destruct (strstr (cstr_of s) n) as [[b t]|] eqn:E; [|done]. intros [= <-].
  apply strstr_length in E as Hl. apply strstr_Some in E as [E _].
  assert (length (cstr_of s) <= length s) by apply take_while_length.
  rewrite length_drop. lia.
Qed.

Lemma xml_read_name_length xp n xp' : xml_read_name xp = (n, xp') ->
  length (p xp') <= length (p xp) /\ (n <> None -> length (p xp') < length (p xp)).
Proof.
  unfold xml_read_name. destruct (read_name (p xp)) as [[m r]|] eqn:E; intros [= <- <-]; cbn.
  - apply read_name_length in E. split; intros; lia.
  - split; [lia|done].
Qed.

(** Collect what is known of the lengths of the suffixes, then decide. *)
Ltac lens :=
  repeat match goal with
  | H : strchr _ _ = Some _ |- _ => apply strchr_length in H
  | H : strstr _ _ = Some _ |- _ => apply strstr_length in H
  | H : read_name _ = Some _ |- _ => apply read_name_length in H
  | H : find_in _ _ = Some _ |- _ => apply find_in_length in H
  | H : xml_read_name _ = _ |- _ => apply xml_read_name_length in H as [? ?]
  end;
  repeat match goal with
  | H : context [length (list_ascii_of_string ?s)] |- _ =>
      let n := eval vm_compute in (length (list_ascii_of_string s)) in
      change (length (list_ascii_of_string s)) with n in H
  end;
  cbn [p at_p failed set_ok set_stack xml_skip_space add_entity xml_push_binding length app] in *;
  rewrite ?length_drop in *;
  repeat match goal with
  | _ : context [length (skip_space ?s)] |- _ => pose proof (skip_space_length s); generalize dependent (length (skip_space s)); intros
  | |- context [length (skip_space ?s)] => pose proof (skip_space_length s); generalize dependent (length (skip_space s)); intros
  end; rewrite ?length_drop in *; try lia.

(** ** Every loop ends within the fuel it is given *)

Section Total.
Context {U : Unichar}.

Lemma decode_loop_total fuel ents s out :
  length s < fuel -> exists r, decode_loop fuel ents s out = Some r.
Proof.
  revert s out. induction fuel as [|f IH]; intros s out H; [lia|]. cbn [decode_loop].
  destruct s as [|c s]; [eauto|]. cbn in H. case_test; [apply IH; lia|].
  destruct (strchr s ";") as [semi|] eqn:E; [|eauto]. case_test; [|eauto].
  apply IH. lens.
Qed.

Lemma xml_decode_text_total xp s :
  exists v b, xml_decode_text xp s = Some (v, if b : bool then xp else failed xp).
Proof.
  unfold xml_decode_text. destruct (decode_loop_total (S (length s)) (entities xp) s []) as [[o g] E]; [lia|].
  rewrite E. eauto.
Qed.

(** Case analysis on [xml_decode_text], whose result is one of two parsers. *)
Ltac decode_text :=
  match goal with
  | |- context [xml_decode_text ?xp ?s] =>
      let v := fresh "val" in let b := fresh "good" in let E := fresh in
      destruct (xml_decode_text_total xp s) as (v & b & E); rewrite E; clear E
  end.

Lemma entities_loop_total fuel xp s :
  length s < fuel -> exists r, entities_loop fuel xp s = Some r /\ p r = p xp /\ ns_stack r = ns_stack xp.
Proof.
  revert xp s. induction fuel as [|f IH]; intros xp s H; [lia|]. cbn [entities_loop].
  destruct ((s =b []) || negb (ok xp)); [eauto|]. destruct (find_in s _) as [decl|] eqn:E; [|eauto].
  destruct (head_is _ _); [apply IH; lens|]. destruct (read_name _) as [[nm t]|] eqn:R; [|eauto].
  assert (length t + 8 < length s) as Ht by lens.
  destruct (skip_space t) as [|q v] eqn:Q; [apply IH; lens|].
  assert (length v < length t) by (pose proof (skip_space_length t) as L; rewrite Q in L; cbn in L; lia).
  case_test; [apply IH; cbn; lia|]. destruct (strchr v q) as [r|] eqn:V; [|eauto].
  decode_text.
  destruct (IH (if ok (if good then xp else failed xp) then add_entity nm val (if good then xp else failed xp)
                else if good then xp else failed xp) (drop 1 r)) as (z & Ez & E1 & E2); [lens|].
  exists z. rewrite Ez, E1, E2. repeat case_test; auto.
Qed.

Lemma doctype_end_length s b x r : doctype_end s b = Some (x, r) -> 1 <= length r <= length s.
Proof.
  revert b x r. induction s as [|c s IH]; intros b x r; cbn [doctype_end]; [done|].
  assert (forall n, match doctype_end s n with Some (x, r) => Some (c :: x, r) | None => None end = Some (x, r) ->
                    1 <= length r <= S (length s)) as Hgo.
  { intros n. destruct (doctype_end s n) as [[y t]|] eqn:E; [|done]. intros [= <- <-]. apply IH in E. cbn. lia. }
  destruct (c =c "["); [apply Hgo|]. destruct (c =c "]"); [apply Hgo|].
  destruct (_ && _); [|apply Hgo]. intros [= <- <-]. cbn. lia.
Qed.

Lemma subset_entities_total b xp :
  exists r, subset_entities b xp = Some r /\ p r = p xp /\ ns_stack r = ns_stack xp.
Proof.
  unfold subset_entities. destruct (internal_subset b); [|eauto]. apply entities_loop_total. lia.
Qed.

Lemma misc_loop_total fuel xp doc :
  length (p xp) < fuel -> exists xp' doc', misc_loop fuel xp doc = Some (xp', doc').
Proof.
  revert xp doc. induction fuel as [|f IH]; intros xp doc H; [lia|]. cbn [misc_loop].
  assert (length (p (xml_skip_space xp)) <= length (p xp)) by (cbn; apply skip_space_length).
  set (s := p (xml_skip_space xp)) in *. 
  assert (prefixb ($"<?") s = true \/ prefixb ($"<!--") s = true \/ 9 <=? length s = true -> 2 <= length s) as Hs.
  { intros [[k ->]%prefixb_spec|[[k ->]%prefixb_spec|?]]; [rewrite length_app; vm_compute; lia..|boolify; lia]. }
  destruct (prefixb ($"<?") s) eqn:E1.
  { specialize (Hs ltac:(auto)). destruct (strstr _ _) as [[b r]|] eqn:E; [|eauto]. apply IH. lens. }
  destruct (prefixb ($"<!--") s) eqn:E2.
  { specialize (Hs ltac:(auto)). destruct (strstr _ _) as [[b r]|] eqn:E; [|eauto]. apply IH. lens. }
  destruct (9 <=? length s) eqn:E3; cbn [andb]; [|eauto]. case_test; [|eauto].
  destruct (doctype_end _ _) as [[b r]|] eqn:E; [|eauto]. apply doctype_end_length in E.
  specialize (Hs ltac:(auto)). rewrite length_drop in E.
  destruct (subset_entities_total b (xml_skip_space xp)) as (z & Ez & Ep & _). rewrite Ez.
  destruct (doctype_node b); [|eauto]. apply IH. cbn. rewrite length_drop. lia.
Qed.

(** A parser later in the same parse: it has read at least [n] bytes, and only added bindings. *)
Definition later (n : nat) (xp xp' : xml_parser) : Prop :=
  n + length (p xp') <= length (p xp) /\ (exists pushed, ns_stack xp' = pushed ++ ns_stack xp) /\
  entities xp' = entities xp /\ (ok xp' = true -> ok xp = true).

Lemma later_refl xp : later 0 xp xp.
Proof. repeat split; [lia|by exists []|done]. Qed.
Lemma later_trans n m xp xp' xp'' : later n xp xp' -> later m xp' xp'' -> later (n + m) xp xp''.
Proof.
  intros (H1 & [b1 E1] & H2 & H3) (K1 & [b2 E2] & K2 & K3).
  repeat split; [lia| |congruence|auto]. exists (b2 ++ b1). by rewrite E2, E1, app_assoc.
Qed.
Lemma later_weak n m xp xp' : m <= n -> later n xp xp' -> later m xp xp'.
Proof. intros Hm (H1 & H2 & H3). split; [lia|auto]. Qed.
Lemma later_failed n xp xp' : later n xp xp' -> later n xp (failed xp').
Proof. intros (H1 & H2 & H3 & H4). repeat split; auto. done. Qed.
Lemma later_at n s xp : n + length s <= length (p xp) -> later n xp (at_p s xp).
Proof. intros H. repeat split; [done|by exists []|done]. Qed.
Lemma later_at' n m s xp xp' : later n xp xp' -> length s + m <= length (p xp') -> later (n + m) xp (at_p s xp').
Proof. intros H Hs. eapply later_trans; [done|]. apply later_at. lia. Qed.
Lemma later_space n xp xp' : later n xp xp' -> later n xp (xml_skip_space xp').
Proof.
  intros H. replace n with (n + 0) by lia. apply later_at'; [done|]. pose proof (skip_space_length (p xp')). lia.
Qed.
Lemma later_declare n a v xp xp' : later n xp xp' -> later n xp (declare a v xp').
Proof.
  intros H. replace n with (n + 0) by lia. eapply later_trans; [done|].
  unfold declare, xml_push_binding. repeat case_test; repeat split; try done; cbn; try lia; first [by exists [] | by eexists [_]].
Qed.
Lemma later_read_name n xp xp' m xp'' :
  later n xp xp' -> xml_read_name xp' = (Some m, xp'') -> later (n + 1) xp xp''.
Proof.
  unfold xml_read_name. destruct (read_name (p xp')) as [[m' r]|] eqn:E; [|done]. intros H [= <- <-].
  apply read_name_length in E. apply later_at'; [done|lia].
Qed.
Lemma read_name_None xp xp' : xml_read_name xp = (None, xp') -> xp' = xp.
Proof. unfold xml_read_name. destruct (read_name (p xp)) as [[? ?]|]; by intros [=]. Qed.

(** The loop has returned without success. *)
Ltac rejected :=
  eexists _, _, _; split; [done|]; split; [|done];
  apply later_failed; first [assumption | eapply later_weak; [|eassumption]; lia].

Lemma attributes_loop_total fuel xp acc :
  length (p xp) < fuel ->
  exists b xp' l, attributes_loop fuel xp acc = Some (b, xp', l) /\ later 0 xp xp' /\ (b = false -> ok xp' = false).
Proof.
  revert xp acc. induction fuel as [|f IH]; intros xp acc H; [lia|]. cbn [attributes_loop].
  pose proof (later_space _ _ _ (later_refl xp)) as L0. set (xp0 := xml_skip_space xp) in *.
  destruct (p xp0) as [|c s0] eqn:P0; [rejected|].
  case_test; [eexists _, _, _; done|].
  destruct (xml_read_name xp0) as [[aname|] xp1] eqn:R;
    [|apply read_name_None in R as ->; rejected].
  pose proof (later_read_name _ _ _ _ _ L0 R) as L1. apply (later_weak _ 1) in L1; [|lia].
  assert (forall x, later 1 xp x -> later 0 xp (failed x)) as Hfail
    by (intros; apply later_failed; eapply later_weak; [|done]; lia).
  destruct (xml_qname_valid aname); cbn [negb]; [|rejected]. apply later_space in L1. set (xp2 := xml_skip_space xp1) in *.
  destruct (head_is _ _); cbn [negb]; [|rejected].
  assert (later 1 xp (xml_skip_space (at_p (drop 1 (p xp2)) xp2))) as L2.
  { apply later_space. replace 1 with (1 + 0) by lia. apply later_at'; [done|]. rewrite length_drop. lia. }
  set (xp3 := xml_skip_space (at_p (drop 1 (p xp2)) xp2)) in *. destruct (p xp3) as [|q v] eqn:P3; [rejected|].
  destruct (is_quote q); cbn [negb]; [|rejected]. destruct (strchr v q) as [r|] eqn:V.
  2:{ eexists _, _, _. split; [done|]. split; [|done]. apply Hfail.
      replace 1 with (1 + 0) by lia. apply later_at'; [done|cbn; lia]. }
  decode_text. apply strchr_length in V.
  assert (forall b : bool, later 1 xp (at_p (drop 1 r) (if b then xp3 else failed xp3))) as L4.
  { intros b. replace 1 with (1 + 0) by lia. apply later_at'; [by destruct b; [|apply later_failed]|].
    rewrite length_drop. destruct b; cbn [failed p]; rewrite P3; cbn; lia. }
  specialize (L4 good). set (xp4 := at_p (drop 1 r) (if good then xp3 else failed xp3)) in *.
  destruct (ok xp4) eqn:O4; cbn [negb]; [|eexists _, _, _; split; [done|]; split; [eapply later_weak; [|done]; lia|done]].
  destruct (invalid_decl _ _); [rejected|]. destruct (existsb _ _); [rejected|].
  apply (later_declare _ aname val) in L4. set (xp5 := declare aname val xp4) in *.
  destruct (IH xp5 (acc ++ [(aname, val)])) as (b & xp' & l & E & L & Hb); [destruct L4; lia|].
  eexists _, _, _. split; [done|]. split; [|done].
  apply (later_weak (1 + 0)); [lia|]. by eapply later_trans.
Qed.

Lemma unwind_later n xp xp' : later n xp xp' -> ns_stack (unwind (length (ns_stack xp)) xp') = ns_stack xp.
Proof.
  intros (_ & [b E] & _). cbn. rewrite E, length_app. replace (_ + _ - _) with (length b) by lia. by rewrite drop_app_length.
Qed.
Lemma later_unwind n xp xp' : later n xp xp' -> later n xp (unwind (length (ns_stack xp)) xp').
Proof.
  intros L. pose proof (unwind_later _ _ _ L) as E. destruct L as (H & _ & He & Ho).
  repeat split; try done. exists []. exact E.
Qed.

Lemma set_attributes_parser atts xp ats :
  exists b ats', fold_left (fun st a => set_attribute a st) atts (xp, ats) = (if b : bool then xp else failed xp, ats').
Proof.
  revert xp ats. induction atts as [|[an av] atts IH]; intros xp ats; cbn [fold_left]; [by exists true, ats|].
  assert (exists b ats', set_attribute (an, av) (xp, ats) = (if b : bool then xp else failed xp, ats')) as (b & ats1 & ->).
  { cbn [set_attribute]. repeat case_test; try (by eexists true, _); by eexists false, _. }
  destruct (IH (if b then xp else failed xp) ats1) as (b' & ats2 & ->). exists (b && b'), ats2. by destruct b, b'.
Qed.

Lemma later_if n (b : bool) xp xp' : later n xp xp' -> later n xp (if b then xp' else failed xp').
Proof. destruct b; [done|apply later_failed]. Qed.

(** What is known when the start tag has been read: [base] bindings below it. *)
Definition opened (xp : xml_parser) (parent : ns_node) (depth : nat) (o : opening) : Prop :=
  match o with
  | Returned parent' xp' res =>
      ok xp' = res /\ length (p xp') <= length (p xp) /\
      (res = true -> later 1 xp xp' /\ ns_stack xp' = ns_stack xp /\
                     exists el, children el = [] /\ parent' = ns_node_append_child parent el)
  | Content el q base xp' => later 2 xp xp' /\ base = length (ns_stack xp) /\ children el = []
  end.

Lemma open_tag_spec q atts xp xp' parent depth :
  later 1 xp xp' -> opened xp parent depth (open_tag q atts (length (ns_stack xp)) xp' parent).
Proof.
  intros L. unfold open_tag. pose proof L as [Lp _].
  assert (forall x, length (p x) <= length (p xp) -> ok x = false -> forall par, opened xp parent depth (Returned par x false)) as Hno
    by (intros x Hx Ho par; split; [done|]; split; [done|done]).
  destruct (_ && _); [apply Hno; cbn; [lia|done]|].
  destruct (xml_apply_namespace _ _ _ _) as [ats fl].
  destruct (set_attributes_parser atts xp' ats) as (b & ats' & ->).
  apply (later_if _ b) in L. set (xp1 := if b then xp' else failed xp') in *. pose proof L as [Lp1 _].
  destruct (ok xp1) eqn:O1; cbn [negb]; [|apply Hno; cbn; [lia|done]].
  apply later_space in L. set (xp2 := xml_skip_space xp1) in *. clearbody xp2. pose proof L as [Lp2 _].
  destruct (p xp2) as [|c s] eqn:P2; [apply Hno; cbn; [rewrite P2; cbn; lia|done]|].
  destruct (c =c "/") eqn:C1.
  - set (x := if head_is _ s then _ else _).
    assert (later 1 xp x) as L3.
    { unfold x. destruct (head_is _ s); [|apply later_failed]; replace 1 with (1 + 0) by lia;
        (apply later_at'; [done|]); rewrite P2, ?length_drop; cbn; lia. }
    split; [done|]. split; [cbn; destruct L3; lia|]. intros _. split; [by apply later_unwind|].
    split; [exact (unwind_later _ _ _ L3)|]. eexists. split; [|done]. done.
  - destruct (c =c ">"); cbn [negb]; [|apply Hno; cbn; [rewrite P2; cbn in *; lia|done]].
    split; [|done]. apply (later_at' 1 1); [done|]. rewrite P2. cbn. lia.
Qed.

Lemma open_element_total xp parent depth :
  exists o, xml_open_element xp parent depth = Some o /\ opened xp parent depth o /\
            match o with Returned _ _ false => True | _ => depth <= XML_MAX_DEPTH end.
Proof.
  unfold xml_open_element. destruct (XML_MAX_DEPTH <? depth) eqn:D.
  { eexists. split; [done|]. split; [by repeat split; try done; cbn|done]. }
  apply Nat.ltb_ge in D.
  assert (later 0 xp (at_p (drop 1 (p xp)) xp)) as L0 by (apply later_at; rewrite length_drop; lia).
  destruct (xml_read_name _) as [[q|] xp1] eqn:R.
  2:{ apply read_name_None in R as ->. eexists. split; [done|]. split; [|done]. split; [done|]. split; [cbn; destruct L0; cbn in *; lia|done]. }
  pose proof (later_read_name _ _ _ _ _ L0 R) as L1. pose proof L1 as [Lp1 _].
  destruct (_ || _).
  { eexists. split; [done|]. split; [|done]. split; [done|]. split; [cbn; lia|done]. }
  unfold xml_parse_attributes.
  destruct (attributes_loop_total (S (length (p xp1))) xp1 []) as (b & xp2 & l & -> & L2 & Hb); [lia|].
  pose proof L2 as [Lp2 _].
  destruct b.
  2:{ eexists. split; [done|]. split; [|done]. split; [by apply Hb|]. split; [lia|done]. }
  eexists. split; [done|].
  assert (length (ns_stack xp1) = length (ns_stack xp)) as Hst.
  { unfold xml_read_name in R. destruct (read_name _) as [[? ?]|]; [by injection R as <- <-|done]. }
  rewrite Hst. split; [|by case_match; [case_match|]].
  apply open_tag_spec. apply (later_weak (0 + 1 + 0)); [lia|]. by eapply later_trans.
Qed.

(** *** Elements within elements *)

Fixpoint node_height (n : ns_node) : nat := S (list_max (map node_height (children n))).

Lemma node_height_children n m : Forall (fun k => node_height k <= m) (children n) -> node_height n <= S m.
Proof.
  intros H. destruct n as [? ? ? ? ? ? ? kids]. cbn in *. apply le_n_S, list_max_le, Forall_map. exact H.
Qed.

(** Room below depth [depth] for the children of an element. *)
Definition room (depth : nat) (n : ns_node) : Prop := Forall (fun k => node_height k <= 257 - depth) (children n).

Lemma room_append depth n k : node_height k <= 257 - depth -> room depth n -> room depth (ns_node_append_child n k).
Proof. intros Hk Hn. unfold room. cbn. apply Forall_app. auto. Qed.

Definition element_result (fuel : nat) : Prop := forall xp parent depth,
  length (p xp) <= fuel -> 1 <= fuel ->
  exists xp' parent' res, xml_parse_element fuel xp parent depth = Some (xp', parent', res) /\
    ok xp' = res /\ length (p xp') <= length (p xp) /\
    (res = true -> later 1 xp xp' /\ ns_stack xp' = ns_stack xp /\ depth <= XML_MAX_DEPTH /\
                   exists el, parent' = ns_node_append_child parent el /\ node_height el <= 258 - depth).

Definition content_result (fuel : nat) : Prop := forall q xp el depth,
  length (p xp) < fuel -> depth <= XML_MAX_DEPTH -> room depth el ->
  exists xp' el' closed, xml_content fuel q xp el depth = Some (xp', el', closed) /\
    length (p xp') <= length (p xp) /\
    (ok xp' = true -> closed = true -> later 0 xp xp' /\ ns_stack xp' = ns_stack xp /\ room depth el').

Lemma end_tag_spec q xp xp' closed : end_tag q xp = (xp', closed) ->
  later 0 xp xp' /\ ns_stack xp' = ns_stack xp.
Proof.
  unfold end_tag.
  assert (later 0 xp (at_p (drop 2 (p xp)) xp)) as L0 by (apply later_at; rewrite length_drop; lia).
  destruct (xml_read_name _) as [e xp1] eqn:R.
  assert (later 0 xp xp1 /\ ns_stack xp1 = ns_stack xp) as [L1 S1].
  { unfold xml_read_name in R. destruct (read_name _) as [[m r]|] eqn:E; injection R as <- <-; [|done].
    apply read_name_length in E. split; [|done]. apply (later_at' 0 0 r _ _ L0). lia. }
  set (xp2 := match e with Some e => _ | None => _ end).
  assert (later 0 xp xp2 /\ ns_stack xp2 = ns_stack xp) as [L2 S2].
  { unfold xp2. repeat case_match; split; try done. by apply later_failed. }
  clearbody xp2. set (xp3 := if head_is _ _ then _ else _).
  assert (later 0 xp xp3 /\ ns_stack xp3 = ns_stack xp) as [L3 S3].
  { apply later_space in L2. unfold xp3. case_match; split; try done; [|by apply later_failed].
    apply (later_at' 0 0); [done|]. rewrite length_drop. lia. }
  clearbody xp3. case_match; intros [= <- <-]; [done|]. split; [by apply later_failed|done].
Qed.

(** The loop goes on after a node that was not an element. *)
Lemma content_step fuel q xp el depth s k :
  content_result fuel -> length s < length (p xp) <= fuel -> depth <= XML_MAX_DEPTH -> room depth el ->
  node_height k = 1 ->
  exists xp' el' closed, xml_content fuel q (at_p s xp) (ns_node_append_child el k) depth = Some (xp', el', closed) /\
    length (p xp') <= length (p xp) /\
    (ok xp' = true -> closed = true -> later 0 xp xp' /\ ns_stack xp' = ns_stack xp /\ room depth el').
Proof.
  intros IH Hl Hd Hr Hk. unfold XML_MAX_DEPTH in *.
  destruct (IH q (at_p s xp) (ns_node_append_child el k) depth) as (xp' & el' & cl & E & L & H);
    [cbn; lia|done|apply room_append; [lia|done]|].
  exists xp', el', cl. split; [done|]. split; [cbn in *; lia|]. intros Ho Hc.
  destruct (H Ho Hc) as [HL HS]. split; [|done]. apply (later_trans 0 0 _ (at_p s xp)); [|done]. apply later_at. lia.
Qed.

Lemma xml_content_S fuel q xp el depth :
  xml_content (S fuel) q xp el depth =
  content_turn (xml_parse_element fuel) (fun xp el => xml_content fuel q xp el depth) q xp el depth.
Proof. done. Qed.
Lemma xml_parse_element_S fuel xp parent depth :
  xml_parse_element (S fuel) xp parent depth = element_turn (xml_content fuel) xp parent depth.
Proof. done. Qed.

Lemma content_round fuel : element_result fuel -> content_result fuel -> content_result (S fuel).
Proof.
  intros IHe IHc q xp el depth Hl Hd Hr. rewrite xml_content_S. unfold content_turn.
  destruct (negb (ok xp) || (p xp =b [])) eqn:E0.
  { eexists _, _, _. split; [done|]. split; [done|]. done. }
  apply orb_false_iff in E0 as [Eo Ep]. boolify.
  destruct (head_is is_lt (p xp)) eqn:Elt.
  - destruct (prefixb ($"</") _).
    { destruct (end_tag q xp) as [xp1 cl] eqn:Et. apply end_tag_spec in Et as [L S]. pose proof L as [Lp _].
      eexists _, _, _. split; [done|]. split; [lia|]. auto. }
    destruct (prefixb ($"<!--") _) eqn:E1.
    { destruct (strstr _ _) as [[b r]|] eqn:E; [|eexists _, _, _; done].
      apply content_step; try done. lens. }
    destruct (prefixb ($"<![CDATA[") _) eqn:E2.
    { destruct (strstr _ _) as [[b r]|] eqn:E; [|eexists _, _, _; done].
      apply content_step; try done. lens. }
    destruct (prefixb ($"<?") _) eqn:E3.
    { destruct (strstr _ _) as [[b r]|] eqn:E; [|eexists _, _, _; done].
      apply content_step; try done. lens. }
    destruct (IHe xp el (S depth)) as (xp1 & el1 & res & -> & Ho & Hp & Hres); [lia|destruct (p xp); [done|cbn in *; lia]|].
    destruct res; [|eexists _, _, _; split; [done|]; split; [done|congruence]].
    destruct (Hres eq_refl) as (L1 & S1 & Hd1 & k & -> & Hk). pose proof L1 as [Lp1 _].
    destruct (IHc q xp1 (ns_node_append_child el k) depth) as (xp2 & el2 & cl & E & L2 & H2);
      [lia|done|apply room_append; [lia|done]|].
    eexists _, _, _. split; [exact E|]. split; [lia|]. intros Hok Hc.
    destruct (H2 Hok Hc) as (HL & HS & HR). split; [|split; [congruence|done]].
    apply (later_weak (1 + 0)); [lia|]. by eapply later_trans.
  - set (f := isnt_lt) in *. pose proof (take_drop_while f (p xp)) as Etd.
    assert (length (drop_while f (p xp)) < length (p xp)) as Hdw.
    { destruct (p xp) as [|c s]; [done|]. cbn in Elt |- *. unfold f, isnt_lt. rewrite Elt. cbn.
      pose proof (drop_while_length isnt_lt s). unfold isnt_lt in *. lia. }
    destruct (xml_decode_text_total (at_p (drop_while f (p xp)) xp) (take_while f (p xp))) as (v & b & ->).
    destruct b; [apply content_step; try done; lia|].
    destruct (IHc q (failed (at_p (drop_while f (p xp)) xp)) (ns_node_append_child el (ns_node_new_text v [])) depth)
      as (xp2 & el2 & cl & E & L2 & H2); [cbn; lia|done|apply room_append; [cbn; unfold XML_MAX_DEPTH in *; lia|done]|].
    eexists _, _, _. split; [exact E|]. split; [cbn in *; lia|]. intros Hok Hc.
    destruct (H2 Hok Hc) as [(_ & _ & _ & Hbad) _]. by specialize (Hbad Hok).
Qed.

Lemma element_round fuel : content_result fuel -> element_result (S fuel).
Proof.
  intros IHc xp parent depth Hl _. rewrite xml_parse_element_S. unfold element_turn.
  destruct (open_element_total xp parent depth) as (o & -> & Ho & Hd).
  destruct o as [par xp1 res|el q base xp1]; cbn [opened] in Ho.
  - destruct Ho as (Hok & Hp & Hres). eexists _, _, _. split; [done|]. split; [done|]. split; [done|].
    intros ->. destruct (Hres eq_refl) as (L & S & k & Hk & ->). split; [done|]. split; [done|]. split; [done|].
    exists k. split; [done|]. unfold XML_MAX_DEPTH in Hd.
    assert (node_height k <= 1) by (apply node_height_children; rewrite Hk; constructor). lia.
  - destruct Ho as (L & -> & Hk). pose proof L as [Lp _].
    destruct (IHc q xp1 el depth) as (xp2 & el2 & cl & -> & L2 & H2);
      [lia|done|unfold room; rewrite Hk; constructor|].
    eexists _, _, _. split; [done|]. split; [done|].
    split; [unfold finish; cbn; destruct (_ && _); cbn; lia|].
    unfold finish. destruct (ok xp2) eqn:O2; [|cbn; congruence].
    destruct cl; [|done]. cbn [negb andb]. intros _. destruct (H2 eq_refl eq_refl) as (HL & HS & HR).
    assert (later 1 xp xp2) as Lall by (apply (later_weak (2 + 0)); [lia|]; by eapply later_trans).
    split; [by apply later_unwind|]. split; [exact (unwind_later _ _ _ Lall)|]. split; [done|].
    exists el2. split; [done|]. unfold XML_MAX_DEPTH in Hd.
    replace (258 - depth) with (S (257 - depth)) by lia. by apply node_height_children.
Qed.

Lemma element_and_content fuel : (1 <= fuel -> element_result fuel) /\ content_result fuel.
Proof.
  induction fuel as [|f [IHe IHc]]; [split; [lia|]; intros ? ? ? ? ?; lia|].
  split; [intros _; by apply element_round|].
  destruct f as [|f].
  - intros q xp el depth Hl Hd Hr. assert (p xp = []) as E by (destruct (p xp); [done|cbn in *; lia]).
    rewrite xml_content_S. unfold content_turn. rewrite E, orb_true_r. eexists _, _, _. split; [done|]. split; [by rewrite E|done].
  - apply content_round; [|done]. apply IHe. lia.
Qed.

Lemma misc_total xp doc : exists xp' doc', xml_skip_misc_and_doctype xp doc = Some (xp', doc').
Proof. apply misc_loop_total. lia. Qed.

Lemma root_total xp doc : exists xp' doc' res, xml_parse_element (S (length (p xp))) xp doc 0 = Some (xp', doc', res).
Proof.
  destruct (element_and_content (S (length (p xp)))) as [He _].
  destruct (He ltac:(lia) xp doc 0) as (xp' & doc' & res & E & _); [lia..|]. eauto.
Qed.

(** C32. Every input, well formed or not, is read to a result: the fuel given to the
    loops and to the recursion into elements is never exhausted. *)
Theorem xml_parse_total input len : exists r, ns_xml_parse_reporting input len = Some r.
Proof.
  destruct input as [input|]; [|by eexists]. cbn [ns_xml_parse_reporting]. cbv zeta.
  set (s := if (len <? 0)%Z then _ else _).
  destruct (misc_total (Build_xml_parser (if prefixb bom s then drop 3 s else s) [] ∅ true)
              (ns_node_new_document [NS_NODE_XML_DOC])) as (xp1 & doc1 & ->).
  destruct (head_is is_lt (p xp1)).
  - destruct (root_total xp1 doc1) as (xp2 & doc2 & res & ->).
    destruct (ok xp2); [|by case_match; eexists].
    destruct (misc_total xp2 doc2) as (xp3 & doc3 & ->). by case_match; eexists.
  - cbn. by eexists.
Qed.
(** [misc_loop] adds leaves: comments, instructions and document types. *)
Lemma misc_loop_leaves fuel xp doc xp' doc' : misc_loop fuel xp doc = Some (xp', doc') ->
  exists ks, children doc' = children doc ++ ks /\ Forall (fun k => node_height k = 1) ks.
Proof.
  revert xp doc. induction fuel as [|f IH]; intros xp doc; [done|]. cbn [misc_loop].
  assert (forall k x, node_height k = 1 -> misc_loop f x (ns_node_append_child doc k) = Some (xp', doc') ->
            exists ks, children doc' = children doc ++ ks /\ Forall (fun k => node_height k = 1) ks) as Hk.
  { intros k x Hk (ks & E & F)%IH. exists (k :: ks). split; [rewrite E; cbn; by rewrite <- app_assoc|by constructor]. }
  assert (forall x, Some (x, doc) = Some (xp', doc') ->
            exists ks, children doc' = children doc ++ ks /\ Forall (fun k => node_height k = 1) ks) as Hs.
  { intros x [= _ <-]. exists []. by rewrite app_nil_r. }
  destruct (prefixb ($"<?") _).
  { destruct (strstr _ _) as [[b r]|]; [|apply Hs]. destruct (is_xml_declaration b); [apply IH|by apply Hk]. }
  destruct (prefixb ($"<!--") _); [destruct (strstr _ _) as [[b r]|]; [by apply Hk|apply Hs]|].
  destruct (_ && _); [|apply Hs]. destruct (doctype_end _ _) as [[b r]|]; [|apply Hs].
  destruct (subset_entities _ _) as [x|]; [|done]. destruct (doctype_node b) as [dt|] eqn:Ed; [|apply Hs].
  apply Hk. unfold doctype_node in Ed. repeat case_test_in Ed; try done. by injection Ed as <-.
Qed.

Lemma height_after_misc fuel xp doc xp' doc' m : misc_loop fuel xp doc = Some (xp', doc') -> 1 <= m ->
  Forall (fun k => node_height k <= m) (children doc) -> Forall (fun k => node_height k <= m) (children doc').
Proof.
  intros (ks & -> & F)%misc_loop_leaves Hm H. apply Forall_app. split; [done|].
  eapply Forall_impl; [exact F|]. cbn. lia.
Qed.

(** A document that was read is at most 259 nodes high: elements are nested at
    most [XML_MAX_DEPTH + 1] deep, so that later walks of the tree do not exhaust the stack. *)
Theorem xml_nesting_bounded input len doc pos :
  ns_xml_parse_reporting input len = Some (Some doc, pos) -> node_height doc <= XML_MAX_DEPTH + 3.
Proof.
  destruct input as [input|]; [|done]. cbn [ns_xml_parse_reporting]. cbv zeta.
  set (s := if (len <? 0)%Z then _ else _).
  destruct (xml_skip_misc_and_doctype _ _) as [[xp1 doc1]|] eqn:M1; [|done].
  apply (height_after_misc _ _ _ _ _ 258) in M1; [|lia|constructor].
  destruct (head_is is_lt (p xp1)); [|done].
  destruct (element_and_content (S (length (p xp1)))) as [He _].
  destruct (He ltac:(lia) xp1 doc1 0) as (xp2 & doc2 & res & -> & Ho & _ & Hres); [lia..|].
  rewrite Ho. destruct res; [|rewrite Ho, orb_true_r; done].
  destruct (Hres eq_refl) as (_ & _ & _ & el & -> & Hel).
  destruct (xml_skip_misc_and_doctype xp2 _) as [[xp3 doc3]|] eqn:M2; [|done].
  apply (height_after_misc _ _ _ _ _ 258) in M2; [|lia|cbn; apply Forall_app; split; [done|apply Forall_singleton; lia]].
  destruct (negb (ok _) || _); [done|]. intros [= <- _]. by apply node_height_children.
Qed.
End Total.
