(* ===== verification/XmlRound.v ===== *)
(** * XML documents read back

    What a well-formed document means, independently of the parser of [Xml]: a tree
    of elements, text, comments, CDATA sections and processing instructions, how it
    is written, and the nodes it stands for once its namespaces are resolved. The
    parser reads what is written to exactly those nodes. *)

From S2P Require Import Prelude CStr GLib Xml.

(** ** Trees and how they are written *)

Inductive tree :=
| Elem (q : bytes) (atts : list (bytes * bytes)) (kids : list tree)
| Text (t : bytes)
| Comment (t : bytes)
| CData (t : bytes)
| Pi (target data : bytes).

Section tree_induction.
Variable P : tree -> Prop.
Hypothesis P_elem : forall q atts kids, Forall P kids -> P (Elem q atts kids).
Hypothesis P_text : forall t, P (Text t).
Hypothesis P_comment : forall t, P (Comment t).
Hypothesis P_cdata : forall t, P (CData t).
Hypothesis P_pi : forall target data, P (Pi target data).

Fixpoint tree_nested_ind (t : tree) : P t :=
  match t with
  | Elem q atts kids =>
      P_elem q atts kids ((fix go l : Forall P l :=
        match l with [] => List.Forall_nil P | k :: l' => @List.Forall_cons _ P k l' (tree_nested_ind k) (go l') end) kids)
  | Text t => P_text t
  | Comment t => P_comment t
  | CData t => P_cdata t
  | Pi target data => P_pi target data
  end.
End tree_induction.

Definition escape_char (c : ascii) : bytes :=
  if c =c "&" then $"&amp;" else if c =c "<" then $"&lt;" else if c =c ">" then $"&gt;"
  else if c =c dquote then $"&quot;" else if c =c "'" then $"&apos;" else [c].
Definition escape (t : bytes) : bytes := concat (map escape_char t).

Definition print_attr (a : bytes * bytes) : bytes :=
  " "%char :: a.1 ++ "="%char :: dquote :: escape a.2 ++ [dquote].

Fixpoint print_tree (t : tree) : bytes :=
  match t with
  | Elem q atts kids =>
      "<"%char :: q ++ concat (map print_attr atts) ++
      match kids with
      | [] => ["/"; ">"]%char
      | _ => ">"%char :: concat (map print_tree kids) ++ "<"%char :: "/"%char :: q ++ [">"%char]
      end
  | Text t => escape t
  | Comment t => $"<!--" ++ t ++ $"-->"
  | CData t => $"<![CDATA[" ++ t ++ $"]]>"
  | Pi target data => $"<?" ++ target ++ " "%char :: data ++ $"?>"
  end.

(** ** The nodes a tree stands for *)

(** The bindings of prefixes in force, the innermost first. *)
Definition scope : Type := list (option bytes * bytes).

Definition declared (a : bytes * bytes) : list (option bytes * bytes) :=
  if a.1 =b $"xmlns" then [(None, a.2)]
  else if prefixb ($"xmlns:") a.1 then [(Some (drop 6 a.1), a.2)] else [].
Definition inner (atts : list (bytes * bytes)) (sc : scope) : scope := rev (concat (map declared atts)) ++ sc.

Definition resolve (sc : scope) (pfx : option bytes) : option bytes :=
  if bool_decide (pfx = Some ($"xml")) then Some XML_NS_XML
  else if bool_decide (pfx = Some ($"xmlns")) then Some XML_NS_XMLNS
  else option_map snd (List.find (fun b => bool_decide (b.1 = pfx)) sc).

Definition non_empty (u : option bytes) : option bytes := match u with Some [] => None | _ => u end.

Definition attr_of (sc : scope) (a : bytes * bytes) : ns_attr :=
  if a.1 =b $"xmlns" then Build_ns_attr ($"xmlns") a.2 (Some XML_NS_XMLNS) None (Some ($"xmlns"))
  else match qname_prefix a.1 with
       | Some pfx => Build_ns_attr a.1 a.2 (non_empty (resolve sc (Some pfx))) (Some pfx) (Some (qname_local a.1))
       | None => Build_ns_attr a.1 a.2 None None (Some a.1)
       end.

(** The attributes the parser notes the prefix and the namespace of an element in. *)
Definition noted (q : bytes) (uri : option bytes) : list ns_attr :=
  (match qname_prefix q with Some pfx => [Build_ns_attr ($"data-nd-ns-prefix") pfx None None None] | None => [] end) ++
  (match non_empty uri with Some u => [Build_ns_attr ($"data-nd-ns-uri") u None None None] | None => [] end).

Definition flags_of (uri : option bytes) : list node_flag :=
  [NS_NODE_NOT_PARSER_INSERTED; NS_NODE_KEEP_CASE; NS_NODE_XML_DOC] ++
  if bool_decide (uri = Some XML_NS_XHTML) then []
  else if bool_decide (uri = Some XML_NS_SVG) then [NS_NODE_SVG_NS] else [NS_NODE_FOREIGN_NS].

Fixpoint node_of (sc : scope) (t : tree) : ns_node :=
  match t with
  | Elem q atts kids =>
      let sc' := inner atts sc in
      let uri := resolve sc' (qname_prefix q) in
      Node NS_NODE_ELEMENT (Some (if bool_decide (uri = Some XML_NS_XHTML) then qname_local q else q)) None None None
        (noted q uri ++ map (attr_of sc') atts) (flags_of uri) (map (node_of sc') kids)
  | Text t => ns_node_new_text t []
  | Comment t => ns_node_new_comment None t []
  | CData t => ns_node_new_text t [NS_NODE_CDATA]
  | Pi target data => ns_node_new_comment (Some target) data [NS_NODE_PI]
  end.

(** ** Well-formed trees *)

Definition no_nul (t : bytes) : bool := free_of nul t.
Definition name_ok (n : bytes) : bool :=
  head_is (fun c => xml_name_char c true) n && allb is_name_char n && xml_qname_valid n.
Definition bound (sc : scope) (q : bytes) : bool :=
  match qname_prefix q with Some pfx => negb (bool_decide (resolve sc (Some pfx) = None)) | None => true end.
Definition attr_key (a : ns_attr) : option bytes * bytes := (non_empty (namespace_uri a), default (a_name a) (local_name a)).

Definition attrs_ok (sc : scope) (q : bytes) (atts : list (bytes * bytes)) : bool :=
  allb (fun a => name_ok a.1 && no_nul a.2 && negb (invalid_decl a.1 a.2) && bound sc a.1) atts &&
  bool_decide (NoDup (map attr_key (noted q (resolve sc (qname_prefix q)) ++ map (attr_of sc) atts))).

Definition is_text (t : tree) : bool := match t with Text _ => true | _ => false end.
Fixpoint no_adjacent_text (l : list tree) : bool :=
  match l with
  | t :: ((u :: _) as l') => negb (is_text t && is_text u) && no_adjacent_text l'
  | _ => true
  end.

Fixpoint wf_tree (depth : nat) (sc : scope) (t : tree) : bool :=
  match t with
  | Elem q atts kids =>
      let sc' := inner atts sc in
      (depth <=? XML_MAX_DEPTH) && name_ok q && negb (prefixb ($"xmlns:") q) && bound sc' q && attrs_ok sc' q atts &&
      no_adjacent_text kids && allb (wf_tree (S depth) sc') kids
  | Text t => negb (t =b []) && no_nul t
  | Comment t => no_nul t && negb (contains (t ++ $"--") ($"-->"))
  | CData t => no_nul t && negb (contains (t ++ $"]]") ($"]]>"))
  | Pi target data =>
      negb (target =b []) && no_nul (target ++ data) && allb (fun c => negb (xml_is_space c)) target &&
      negb (head_is xml_is_space data) && negb (contains (target ++ " "%char :: data ++ ["?"%char]) ($"?>"))
  end.

(** ** Scans of what is written *)

Lemma strstr_first_at (b m x : bytes) c :
  contains (b ++ m) (m ++ [c]) = false -> strstr (b ++ (m ++ [c]) ++ x) (m ++ [c]) = Some (b, (m ++ [c]) ++ x).
Proof.
  induction b as [|d b IH]; intros H.
  - cbn [app]. destruct (m ++ [c]) as [|e n] eqn:E; [by destruct m|]. cbn [app strstr].
    change (e :: n ++ x) with ((e :: n) ++ x). by rewrite prefixb_app.
  - cbn [app strstr]. destruct (prefixb (m ++ [c]) (d :: b ++ (m ++ [c]) ++ x)) eqn:E.
    + apply prefixb_spec in E as [k E].
      assert (contains ((d :: b) ++ m) (m ++ [c]) = true) as Hc; [|congruence].
      apply contains_spec. exists [], (drop (length (m ++ [c])) ((d :: b) ++ m)).
      rewrite <- (take_drop (length (m ++ [c])) ((d :: b) ++ m)) at 1. cbn [app]. f_equal.
      transitivity (take (length (m ++ [c])) (d :: b ++ (m ++ [c]) ++ x)); [|by rewrite E, take_app_length].
      assert (d :: b ++ (m ++ [c]) ++ x = ((d :: b) ++ m) ++ c :: x) as -> by (cbn; by rewrite <- !app_assoc).
      rewrite take_app_le; [done|]. rewrite !length_app. cbn. lia.
    + rewrite IH; [done|]. destruct (contains (b ++ m) (m ++ [c])) eqn:Hc; [|done].
      apply contains_spec in Hc as (u & k & Hc).
      assert (contains ((d :: b) ++ m) (m ++ [c]) = true) as Hc'; [|congruence].
      apply contains_spec. exists (d :: u), k. cbn. by rewrite Hc.
Qed.

Lemma cstr_no_nul t : no_nul t = true -> cstr_of t = t.
Proof. apply take_while_id. Qed.

Lemma read_name_app q rest : head_is (fun c => xml_name_char c true) q = true -> allb is_name_char q = true ->
  stops is_name_char rest -> read_name (q ++ rest) = Some (q, rest).
Proof.
  destruct q as [|c q]; [done|]. cbn. intros -> H Hr. boolify. by rewrite take_while_app_stop, drop_while_app_stop.
Qed.

Lemma read_name_of q rest xp : name_ok q = true -> stops is_name_char rest ->
  xml_read_name (at_p (q ++ rest) xp) = (Some q, at_p rest xp).
Proof.
  unfold name_ok. intros H Hr. boolify. unfold xml_read_name. cbn [p at_p]. by rewrite read_name_app.
Qed.

Lemma name_ok_valid q : name_ok q = true -> xml_qname_valid q = true.
Proof. unfold name_ok. intros H. by boolify. Qed.

(** A name does not begin with a space, nor with a byte of the markup. *)
Lemma name_head q : name_ok q = true -> exists c q', q = c :: q' /\ xml_name_char c true = true.
Proof. unfold name_ok. intros H. boolify. destruct q as [|c q]; [done|]. eauto. Qed.

Lemma name_char_first c : xml_name_char c true = true ->
  xml_is_space c = false /\ (c =c ">") = false /\ (c =c "/") = false /\ (c =c "!") = false /\ (c =c "?") = false.
Proof.
  enough (implb (xml_name_char c true) (negb (xml_is_space c) && negb (c =c ">") && negb (c =c "/") && negb (c =c "!") && negb (c =c "?")) = true) as H.
  { intros Hc. rewrite Hc in H. unfold implb in H. boolify. repeat split; first [done | by apply Ascii.eqb_neq]. }
  by_bytes c.
Qed.

Lemma skip_no_space c s : xml_is_space c = false -> skip_space (c :: s) = c :: s.
Proof. intros H. unfold skip_space. cbn [drop_while]. by rewrite H. Qed.

Section Decode.
Context {U : Unichar}.

Lemma decode_amp fuel ents n c s out :
  allb (fun d => negb (d =c ";")) n = true -> n <> [] -> head_is (fun d => d =c "#") n = false ->
  List.find (fun e => e.1 =b n) predefined = Some (n, [c]) ->
  decode_loop (S fuel) ents ("&"%char :: n ++ ";"%char :: s) out = decode_loop fuel ents s (out ++ [c]).
Proof.
  intros H1 H2 H3 H4. cbn [decode_loop]. change ("&" =c "&") with true. cbn [negb].
  destruct (strchr_app n ";"%char s H1) as [-> ->].
  assert (reference ents out n = Some (out ++ [c])) as ->.
  { unfold reference. destruct n as [|d n]; [done|]. cbn in H3. rewrite H3, H4. done. }
  done.
Qed.

Ltac entity c :=
  match goal with IH : context [decode_loop ?f _ (escape _) _] |- _ =>
    cbn [app]; rewrite <- app_assoc; cbn [app];
    rewrite (decode_amp _ _ _ c) by (vm_compute; done); apply IH; cbn [length app] in *; rewrite ?length_app in *; cbn [length] in *; lia
  end.

(** What is escaped is read back, one character for each turn of the loop. *)
Lemma decode_escape fuel ents t out :
  length (escape t) < fuel -> decode_loop fuel ents (escape t) out = Some (out ++ t, true).
Proof.
  revert t out. induction fuel as [|f IH]; intros t out H; [lia|].
  destruct t as [|c t]; [cbn; by rewrite app_nil_r|].
  change (escape (c :: t)) with (escape_char c ++ escape t) in *. rewrite length_app in H.
  assert (forall d, out ++ d :: t = (out ++ [d]) ++ t) as Hout by (intros; by rewrite <- app_assoc).
  rewrite Hout. unfold escape_char in *.
  destruct (c =c "&") eqn:E1; [boolify; subst c|destruct (c =c "<") eqn:E2; [boolify; subst c|
    destruct (c =c ">") eqn:E3; [boolify; subst c|destruct (c =c dquote) eqn:E4; [boolify; subst c|
    destruct (c =c "'") eqn:E5; [boolify; subst c|]]]]].
  - change ($"&amp;") with ("&"%char :: $"amp" ++ [";"%char]) in *. entity "&"%char.
  - change ($"&lt;") with ("&"%char :: $"lt" ++ [";"%char]) in *. entity "<"%char.
  - change ($"&gt;") with ("&"%char :: $"gt" ++ [";"%char]) in *. entity ">"%char.
  - change ($"&quot;") with ("&"%char :: $"quot" ++ [";"%char]) in *. entity dquote.
  - change ($"&apos;") with ("&"%char :: $"apos" ++ [";"%char]) in *. entity "'"%char.
  - cbn [app decode_loop]. rewrite E1. cbn [negb]. apply IH. cbn in H. lia.
Qed.

Lemma decode_text_escape xp t : no_nul t = true -> xml_decode_text xp (escape t) = Some (t, xp).
Proof. intros H. unfold xml_decode_text. rewrite decode_escape by lia. cbn. by rewrite cstr_no_nul. Qed.
End Decode.

(** Escaped text holds no markup: neither [<] nor a quote. *)
Lemma escape_free d t : memb d ["<"; ">"; dquote; "'"]%char = true -> free_of d (escape t) = true.
Proof.
  intros Hd. unfold free_of. induction t as [|c t IH]; [done|].
  change (escape (c :: t)) with (escape_char c ++ escape t). rewrite allb_app, IH, andb_true_r.
  assert (exists e, In e ["<"; ">"; dquote; "'"]%char /\ e = d) as (e & He & <-).
  { apply memb_In in Hd. eauto. }
  clear Hd. unfold escape_char.
  enough (allb (fun c => allb (fun d => negb (d =c e)) (escape_char c)) all_bytes = true) as H
    by (unfold escape_char in *; by apply (byte_ind _ H c)).
  cbn in He. destruct He as [<-|[<-|[<-|[<-|[]]]]]; vm_compute; reflexivity.
Qed.

(** ** The attributes of a start tag *)

Lemma prefix_decl_local a : name_ok a = true -> prefixb ($"xmlns:") a = true -> drop 6 a <> [].
Proof.
  intros Hn [k ->]%prefixb_spec. apply name_ok_valid in Hn. unfold xml_qname_valid in Hn.
  change ($"xmlns:" ++ k) with ($"xmlns" ++ ":"%char :: k) in *.
  destruct (strchr_app ($"xmlns") ":"%char k) as [E1 E2]; [done|]. rewrite E1, E2 in Hn.
  boolify. change (drop 1 (":"%char :: k)) with k in *. by change (drop 6 ($"xmlns" ++ ":"%char :: k)) with k.
Qed.

Section Attributes.
Context {U : Unichar} (ents : gmap bytes bytes).
Let st (s : bytes) (sc : scope) : xml_parser := Build_xml_parser s sc ents true.

Lemma declare_declared a v s sc : name_ok a = true -> declare a v (st s sc) = st s (rev (declared (a, v)) ++ sc).
Proof.
  intros Hn. unfold declare, declared, is_default_decl, is_prefix_decl, strcmp0, xml_push_binding. cbn [fst snd].
  destruct (a =b _); [done|]. destruct (prefixb _ a) eqn:E; [|done].
  pose proof (prefix_decl_local a Hn E) as Hd. by destruct (drop 6 a).
Qed.

Definition attr_ok (a : bytes * bytes) : bool := name_ok a.1 && no_nul a.2 && negb (invalid_decl a.1 a.2).

Lemma attribute_step f a v rest sc acc :
  attr_ok (a, v) = true -> existsb (fun b => strcmp0 b.1 a) acc = false ->
  attributes_loop (S f) (st (print_attr (a, v) ++ rest) sc) acc =
  attributes_loop f (st rest (rev (declared (a, v)) ++ sc)) (acc ++ [(a, v)]).
Proof.
  unfold attr_ok. cbn [fst snd]. intros H Hacc. boolify. rename H into Hn, H1 into Hv, H0 into Hi.
  destruct (name_head a Hn) as (c & a' & Ea & Hc). destruct (name_char_first c Hc) as (Hs & Hgt & Hsl & _).
  set (rest1 := "="%char :: dquote :: escape v ++ dquote :: rest).
  assert (print_attr (a, v) ++ rest = " "%char :: a ++ rest1) as ->.
  { unfold print_attr, rest1. cbn. by rewrite <- !app_assoc, <- app_comm_cons, <- app_comm_cons, <- app_assoc. }
  cbn [attributes_loop].
  assert (xml_skip_space (st (" "%char :: a ++ rest1) sc) = at_p (a ++ rest1) (st [] sc)) as ->.
  { unfold xml_skip_space, st, at_p. cbn [p ns_stack entities ok]. f_equal. unfold skip_space. cbn [drop_while].
    change (xml_is_space " ") with true. cbn iota. rewrite Ea. cbn [app drop_while]. by rewrite Hs. }
  rewrite (read_name_of a rest1 (st [] sc) Hn) by done.
  rewrite Ea at 1. cbn [p at_p app]. rewrite Hgt, Hsl. cbn [orb]. rewrite (name_ok_valid a Hn). cbn [negb].
  change (skip_space rest1) with rest1.
  change (xml_skip_space (at_p rest1 (st [] sc))) with (st rest1 sc). cbn [p st].
  change (head_is (fun c => c =c "=") rest1) with true. cbn [negb].
  change (xml_skip_space (at_p (drop 1 rest1) (st rest1 sc))) with (st (dquote :: escape v ++ dquote :: rest) sc).
  cbn [p st]. change (is_quote dquote) with true. cbn [negb].
  destruct (strchr_app (escape v) dquote rest) as [-> ->]; [by apply escape_free|].
  rewrite (decode_text_escape _ _ Hv). cbn [drop]. change (ok (at_p _ _)) with true. cbn [negb].
  rewrite Hi, Hacc. change (at_p _ _) with (st rest sc). by rewrite declare_declared.
Qed.

Lemma attributes_read atts tail fuel sc acc :
  length atts < fuel -> head_is (fun c => (c =c ">") || (c =c "/")) tail = true ->
  allb attr_ok atts = true -> NoDup (map fst (acc ++ atts)) ->
  attributes_loop fuel (st (concat (map print_attr atts) ++ tail) sc) acc =
  Some (true, st tail (rev (concat (map declared atts)) ++ sc), acc ++ atts).
Proof.
  intros Hf Ht. revert fuel sc acc Hf. induction atts as [|[a v] atts IH]; intros [|f] sc acc Hf Ha Hd; cbn in Hf; try lia.
  - destruct tail as [|c tail]; [done|]. cbn in Ht. rewrite app_nil_r. cbn [map concat app rev attributes_loop].
    assert (xml_skip_space (st (c :: tail) sc) = st (c :: tail) sc) as ->.
    { unfold xml_skip_space, st, at_p. cbn [p ns_stack entities ok]. f_equal. apply skip_no_space.
      apply orb_true_iff in Ht as [Ht|Ht]; boolify; by subst c. }
    cbn [p st]. by rewrite Ht.
  - change (attr_ok (a, v) && allb attr_ok atts = true) in Ha. apply andb_prop in Ha as [Ha Has].
    cbn [map concat]. rewrite <- app_assoc. rewrite attribute_step; [|done|].
    + rewrite IH; [|lia|done|by rewrite <- app_assoc]. rewrite rev_app_distr, <- !app_assoc. done.
    + apply not_true_iff_false. intros (b & Hb & Eb)%existsb_exists. unfold strcmp0 in Eb. boolify.
      rewrite map_app in Hd. apply NoDup_app in Hd as (_ & Hd & _). apply (Hd a); [|left].
      rewrite <- Eb. by apply (list_elem_of_fmap_2 fst), list_elem_of_In.
Qed.

Lemma put_attr_new found new l : (forall a, In a l -> found a = false) -> put_attr found new l = l ++ [new].
Proof.
  induction l as [|a l IH]; intros H; cbn; [done|]. rewrite (H a) by by left. rewrite IH; [done|].
  intros b Hb. apply H. by right.
Qed.

Lemma put_attr_key uri local new l :
  ~ In (attr_key new) (map attr_key l) -> attr_key new = (non_empty uri, local) ->
  put_attr (fun a => ns_attr_matches_ns a uri local) new l = l ++ [new].
Proof.
  intros Hn Ek. apply put_attr_new. intros a Ha. apply not_true_iff_false. intros Hm.
  unfold ns_attr_matches_ns in Hm. boolify. apply Hn. rewrite Ek. apply in_map_iff. exists a.
  split; [|done]. unfold attr_key, ns_attr_normalize_namespace, ns_attr_local_name, non_empty in *. by f_equal.
Qed.

Lemma set_attribute_of a v tail sc l :
  name_ok a = true -> bound sc a = true -> ~ In (attr_key (attr_of sc (a, v))) (map attr_key l) ->
  set_attribute (a, v) (st tail sc, l) = (st tail sc, l ++ [attr_of sc (a, v)]).
Proof.
  intros Hn Hb Hk. unfold set_attribute, strcmp0, attr_of, bound, ns_element_set_attr_ns in *. cbn [fst snd] in *.
  change (xml_lookup_prefix (st tail sc)) with (resolve sc).
  destruct (name_head a Hn) as (c & a' & Ea & _).
  destruct (a =b $"xmlns") eqn:E; [f_equal; apply put_attr_key; done|].
  destruct (qname_prefix a) as [pfx|] eqn:Ep.
  - boolify. destruct (resolve sc (Some pfx)) as [u|] eqn:Er; [|done]. f_equal.
    assert (pfx <> []) as Hpfx.
    { unfold qname_prefix in Ep. destruct (strchr a ":") as [r|] eqn:Es; [|done]. injection Ep as <-.
      apply name_ok_valid in Hn. unfold xml_qname_valid in Hn. rewrite Es in Hn. by boolify. }
    destruct pfx as [|d pfx]; [done|]. rewrite Ea. rewrite put_attr_key; by rewrite Ea in *.
  - f_equal. rewrite Ea. rewrite put_attr_key; by rewrite Ea in *.
Qed.

Lemma attributes_set atts tail sc l :
  allb attr_ok atts = true -> allb (fun a => bound sc a.1) atts = true ->
  NoDup (map attr_key (l ++ map (attr_of sc) atts)) ->
  fold_left (fun s a => set_attribute a s) atts (st tail sc, l) = (st tail sc, l ++ map (attr_of sc) atts).
Proof.
  revert l. induction atts as [|[a v] atts IH]; intros l Ho Hb Hd; cbn [map fold_left]; [by rewrite app_nil_r|].
  change (attr_ok (a, v) && allb attr_ok atts = true) in Ho. change (bound sc a && allb (fun a => bound sc a.1) atts = true) in Hb.
  apply andb_prop in Ho as [Ha Ho], Hb as [Hba Hb].
  rewrite set_attribute_of; [|unfold attr_ok in Ha; cbn in Ha; by boolify|done|].
  - rewrite IH; [by rewrite <- app_assoc|done|done|]. by rewrite <- app_assoc.
  - rewrite map_app in Hd. apply NoDup_app in Hd as (_ & Hd & _). intros Hin. apply (Hd (attr_key (attr_of sc (a, v)))).
    + by apply list_elem_of_In.
    + left.
Qed.

(** ** Elements and their content *)

Lemma namespace_noted q uri :
  xml_apply_namespace q uri [] [NS_NODE_NOT_PARSER_INSERTED] = (noted q uri, flags_of uri).
Proof.
  unfold xml_apply_namespace, noted, flags_of.
  destruct (qname_prefix q), uri as [[|c u]|]; by repeat case_bool_decide.
Qed.

Definition append_children (el : ns_node) (ks : list ns_node) : ns_node := fold_left ns_node_append_child ks el.

Lemma append_children_node k nm t pu sy ats fl cs ks :
  append_children (Node k nm t pu sy ats fl cs) ks = Node k nm t pu sy ats fl (cs ++ ks).
Proof.
  revert cs. induction ks as [|x ks IH]; intros cs; cbn [append_children fold_left]; [by rewrite app_nil_r|].
  unfold ns_node_append_child at 2. cbn [kind name text public_id system_id attrs flags children].
  fold (append_children (Node k nm t pu sy ats fl (cs ++ [x])) ks). by rewrite IH, <- app_assoc.
Qed.

(** The element of a start tag, without children. *)
Definition element_of (sc : scope) (q : bytes) (atts : list (bytes * bytes)) : ns_node :=
  node_of sc (Elem q atts []).

Definition tag_ok (depth : nat) (sc : scope) (q : bytes) (atts : list (bytes * bytes)) : bool :=
  (depth <=? XML_MAX_DEPTH) && name_ok q && negb (prefixb ($"xmlns:") q) && bound (inner atts sc) q && attrs_ok (inner atts sc) q atts.

Lemma attrs_ok_names sc q atts : attrs_ok sc q atts = true ->
  allb attr_ok atts = true /\ allb (fun a => bound sc a.1) atts = true /\ NoDup (map fst atts).
Proof.
  unfold attrs_ok. intros H. boolify. rename H0 into Hd. repeat split.
  - eapply allb_impl; [|exact H]. intros a [Ha _]%andb_prop. exact Ha.
  - eapply allb_impl; [|exact H]. by intros a [_ Ha]%andb_prop.
  - rewrite map_app in Hd. apply NoDup_app in Hd as (_ & _ & Hd). clear H. induction atts as [|[a v] atts IH]; [constructor|].
    cbn [map] in *. apply NoDup_cons in Hd as [Hn Hd]. apply NoDup_cons. split; [|by apply IH].
    intros Hin. apply Hn. apply list_elem_of_In, in_map_iff in Hin as ([a' v'] & Ea & Hin). cbn in Ea. subst a'.
    apply list_elem_of_In. rewrite map_map. apply in_map_iff. exists (a, v'). split; [|done].
    unfold attr_of. cbn [fst snd]. by repeat case_match.
Qed.

(** The start tag is read up to the byte that ends it, [>] or [/]. *)
Lemma open_read depth sc q atts tail parent :
  tag_ok depth sc q atts = true -> head_is (fun c => (c =c ">") || (c =c "/")) tail = true ->
  xml_open_element (st ("<"%char :: q ++ concat (map print_attr atts) ++ tail) sc) parent depth =
  Some (match tail with
        | c :: s =>
            if c =c "/" then
              let xp := st tail (inner atts sc) in
              let xp := if head_is (fun c => c =c ">") s then at_p (drop 1 s) xp else failed (at_p s xp) in
              Returned (ns_node_append_child parent (element_of sc q atts)) (unwind (length sc) xp) (ok xp)
            else Content (element_of sc q atts) q (length sc) (st s (inner atts sc))
        | [] => Returned parent (st tail sc) false
        end).
Proof.
  unfold tag_ok. intros H Ht. boolify. rename H into Hd, H3 into Hn, H2 into Hx, H1 into Hb, H0 into Ha.
  unfold xml_open_element. destruct (XML_MAX_DEPTH <? depth) eqn:Ed; [boolify; lia|].
  set (tl := concat (map print_attr atts) ++ tail).
  change (xml_read_name _) with (xml_read_name (at_p (q ++ tl) (st [] sc))). unfold tl.
  rewrite read_name_of; [|done|destruct atts; [destruct tail as [|c tail]; [done|cbn in Ht |- *; apply orb_true_iff in Ht as [Ht|Ht]; boolify; by subst c]|done]].
  rewrite (name_ok_valid q Hn), Hx. cbn [negb orb]. unfold xml_parse_attributes.
  destruct (attrs_ok_names _ _ _ Ha) as (Ho & Hba & Hnd).
  change (at_p (concat (map print_attr atts) ++ tail) (st [] sc)) with (st (concat (map print_attr atts) ++ tail) sc).
  cbn [p st].
  rewrite attributes_read; [|rewrite length_app; enough (length atts <= length (concat (map print_attr atts))) by lia|done|done|done].
  2:{ clear. induction atts as [|a atts IH]; cbn; [lia|]. rewrite length_app. lia. }
  cbn [app]. change (rev (concat (map declared atts)) ++ sc) with (inner atts sc). cbn [ns_stack st].
  unfold open_tag. change (xml_lookup_prefix (st tail (inner atts sc))) with (resolve (inner atts sc)).
  assert ((match qname_prefix q with Some _ => true | None => false end) &&
          bool_decide (resolve (inner atts sc) (qname_prefix q) = None) = false) as ->.
  { unfold bound in Hb. destruct (qname_prefix q); [|done]. cbn. by apply negb_true_iff in Hb. }
  rewrite namespace_noted. rewrite attributes_set; [|done|done|unfold attrs_ok in Ha; by boolify].
  cbn [ok st negb]. destruct tail as [|c s]; [done|].
  assert (xml_skip_space (st (c :: s) (inner atts sc)) = st (c :: s) (inner atts sc)) as ->.
  { unfold xml_skip_space, st, at_p. cbn [p ns_stack entities ok]. f_equal. apply skip_no_space.
    cbn in Ht. apply orb_true_iff in Ht as [Ht|Ht]; boolify; by subst c. }
  cbn [p st]. destruct (c =c "/") eqn:Ec; [done|]. cbn in Ht. rewrite Ec, orb_false_r in Ht. rewrite Ht. done.
Qed.

(** What the parser does with a tree written before [rest], as a child of [el]. *)
Definition reads (t : tree) : Prop := forall depth sc rest el q fuel,
  wf_tree (S depth) sc t = true -> length (print_tree t ++ rest) < S fuel ->
  (is_text t = true -> head_is is_lt rest = true) ->
  xml_content (S fuel) q (st (print_tree t ++ rest) sc) el depth =
  xml_content fuel q (st rest sc) (ns_node_append_child el (node_of sc t)) depth.

Definition reads_element (t : tree) : Prop := forall depth sc rest parent fuel,
  wf_tree depth sc t = true -> length (print_tree t ++ rest) <= fuel ->
  match t with
  | Elem _ _ _ =>
      xml_parse_element fuel (st (print_tree t ++ rest) sc) parent depth =
      Some (st rest sc, ns_node_append_child parent (node_of sc t), true)
  | _ => True
  end.

(** A written tree that is not text begins with [<], so that text before it ends there. *)
Lemma print_lt t rest : is_text t = false -> head_is is_lt (print_tree t ++ rest) = true.
Proof. by destruct t. Qed.

Lemma reads_text t : reads (Text t).
Proof.
  intros depth sc rest el q fuel H _ Hr. specialize (Hr eq_refl). cbn [wf_tree print_tree] in *. boolify. rename H0 into Hn.
  rewrite xml_content_S. unfold content_turn. cbn [p ok st negb orb].
  assert (allb isnt_lt (escape t) = true) as Hf by exact (escape_free "<" t eq_refl).
  assert (escape t <> []) as He.
  { destruct t as [|c t]; [done|]. change (escape (c :: t)) with (escape_char c ++ escape t). unfold escape_char.
    repeat case_match; done. }
  assert (stops isnt_lt rest) as Hs by (destruct rest as [|c r]; [done|]; cbn in *; unfold isnt_lt; by rewrite Hr).
  rewrite take_while_app_stop, drop_while_app_stop by done.
  change (at_p rest (st (escape t ++ rest) sc)) with (st rest sc). rewrite (decode_text_escape _ _ Hn).
  destruct (escape t) as [|c e]; [done|]. cbn [app]. rewrite bool_decide_eq_false_2 by done.
  cbn in Hf |- *. boolify. unfold isnt_lt in H0. boolify. by rewrite H0.
Qed.

Lemma contains_at (b m x : bytes) c n k :
  n = m ++ [c] -> contains (b ++ m) n = false -> k = length n ->
  strstr (b ++ n ++ x) n = Some (b, n ++ x) /\ drop k (n ++ x) = x.
Proof. intros -> H ->. split; [by apply strstr_first_at|by rewrite drop_app_length]. Qed.

Lemma reads_comment t : reads (Comment t).
Proof.
  intros depth sc rest el q fuel H _ _. cbn [wf_tree print_tree node_of] in *. boolify. rename H into Hn, H0 into Hc.
  destruct (contains_at t ($"--") rest ">" ($"-->") 3) as [E1 E2]; [done..|].
  rewrite <- !app_assoc. rewrite xml_content_S. unfold content_turn. set (s := t ++ $"-->" ++ rest) in *.
  cbn [p ok st negb]. change (bool_decide _) with false. change (head_is is_lt ($"<!--" ++ s)) with true.
  change (prefixb ($"</") ($"<!--" ++ s)) with false. change (prefixb ($"<!--") ($"<!--" ++ s)) with true.
  cbn [orb]. change (drop 4 ($"<!--" ++ s)) with s. rewrite E1, E2, (cstr_no_nul t Hn). done.
Qed.

Lemma reads_cdata t : reads (CData t).
Proof.
  intros depth sc rest el q fuel H _ _. cbn [wf_tree print_tree node_of] in *. boolify. rename H into Hn, H0 into Hc.
  destruct (contains_at t ($"]]") rest ">" ($"]]>") 3) as [E1 E2]; [done..|].
  rewrite <- !app_assoc. rewrite xml_content_S. unfold content_turn. set (s := t ++ $"]]>" ++ rest) in *.
  cbn [p ok st negb]. change (bool_decide _) with false. change (head_is is_lt ($"<![CDATA[" ++ s)) with true.
  change (prefixb ($"</") ($"<![CDATA[" ++ s)) with false. change (prefixb ($"<!--") ($"<![CDATA[" ++ s)) with false.
  change (prefixb ($"<![CDATA[") ($"<![CDATA[" ++ s)) with true.
  cbn [orb]. change (drop 9 ($"<![CDATA[" ++ s)) with s. rewrite E1, E2, (cstr_no_nul t Hn). done.
Qed.

(** An instruction's target ends at the first space. *)
Lemma pi_node_of target data :
  no_nul (target ++ data) = true -> allb (fun c => negb (xml_is_space c)) target = true -> head_is xml_is_space data = false ->
  pi_node (target ++ " "%char :: data) = ns_node_new_comment (Some target) data [NS_NODE_PI].
Proof.
  intros Hn Ht Hd. unfold pi_node. unfold no_nul, free_of in Hn. rewrite allb_app in Hn. apply andb_prop in Hn as [Hn1 Hn2].
  rewrite take_while_app_stop, drop_while_app_stop by done. rewrite (cstr_no_nul target Hn1).
  assert (skip_space (" "%char :: data) = data) as ->.
  { unfold skip_space. cbn [drop_while]. change (xml_is_space " ") with true. cbn iota.
    destruct data as [|c d]; [done|]. cbn [head_is] in Hd. cbn [drop_while]. by rewrite Hd. }
  by rewrite (cstr_no_nul data Hn2).
Qed.

Lemma reads_pi target data : reads (Pi target data).
Proof.
  intros depth sc rest el q fuel H _ _. cbn [wf_tree print_tree node_of] in *. boolify. rename H into Hne, H3 into Hn, H2 into Ht, H1 into Hd, H0 into Hc.
  destruct (contains_at (target ++ " "%char :: data) ["?"%char] rest ">" ($"?>") 2) as [E1 E2];
    [done|by rewrite <- app_assoc|done|].
  assert (($"<?" ++ target ++ " "%char :: data ++ $"?>") ++ rest = $"<?" ++ (target ++ " "%char :: data) ++ $"?>" ++ rest) as ->
    by (rewrite <- !app_assoc; cbn [app]; by rewrite <- !app_assoc).
  rewrite xml_content_S. unfold content_turn. set (s := (target ++ " "%char :: data) ++ $"?>" ++ rest) in *.
  cbn [p ok st negb]. change (bool_decide _) with false. change (head_is is_lt ($"<?" ++ s)) with true.
  change (prefixb ($"</") ($"<?" ++ s)) with false. change (prefixb ($"<!--") ($"<?" ++ s)) with false.
  change (prefixb ($"<![CDATA[") ($"<?" ++ s)) with false. change (prefixb ($"<?") ($"<?" ++ s)) with true.
  cbn [orb]. change (drop 2 ($"<?" ++ s)) with s. rewrite E1, E2. by rewrite pi_node_of.
Qed.
Lemma print_nonempty depth sc t : wf_tree depth sc t = true -> 1 <= length (print_tree t).
Proof.
  destruct t as [q atts kids|t|t|t|tg d]; cbn [wf_tree print_tree length]; rewrite ?length_app; intros H; try (vm_compute; lia); try lia.
  destruct t as [|c t]; [done|]. change (escape (c :: t)) with (escape_char c ++ escape t). rewrite length_app.
  enough (1 <= length (escape_char c)) by lia. unfold escape_char. by repeat case_match; vm_compute; lia.
Qed.

Lemma kids_read kids : Forall reads kids -> forall depth sc rest el q fuel,
  allb (wf_tree (S depth) sc) kids = true -> no_adjacent_text kids = true -> head_is is_lt rest = true ->
  length (concat (map print_tree kids) ++ rest) < fuel ->
  exists fuel', length rest < S fuel' /\
    xml_content fuel q (st (concat (map print_tree kids) ++ rest) sc) el depth =
    xml_content (S fuel') q (st rest sc) (append_children el (map (node_of sc) kids)) depth.
Proof.
  induction 1 as [|t kids Ht _ IH]; intros depth sc rest el q fuel Hwf Hadj Hr Hl.
  - cbn in Hl. destruct fuel as [|f]; [lia|]. by exists f.
  - destruct fuel as [|f]; [lia|]. change (wf_tree (S depth) sc t && allb (wf_tree (S depth) sc) kids = true) in Hwf.
    apply andb_prop in Hwf as [Hwt Hwf]. cbn [map concat] in *. rewrite <- app_assoc in *.
    rewrite Ht; [|done|done|].
    + pose proof (print_nonempty _ _ _ Hwt). rewrite length_app in Hl.
      destruct (IH depth sc rest (ns_node_append_child el (node_of sc t)) q f) as (f' & Hf & E); [done| |done|lia|].
      * cbn in Hadj. destruct kids; [done|]. by apply andb_prop in Hadj as [_ ?].
      * exists f'. split; [done|]. exact E.
    + intros Htx. destruct kids as [|u kids]; [done|]. cbn [map concat]. rewrite <- app_assoc. apply print_lt.
      cbn in Hadj. apply andb_prop in Hadj as [Hadj _]. rewrite Htx in Hadj. cbn in Hadj. by apply negb_true_iff in Hadj.
Qed.

Lemma end_tag_read q rest sc : name_ok q = true ->
  end_tag q (st (($"</") ++ q ++ ">"%char :: rest) sc) = (st rest sc, true).
Proof.
  intros Hn. unfold end_tag. change (at_p (drop 2 _) _) with (at_p (q ++ ">"%char :: rest) (st [] sc)).
  rewrite read_name_of by done. rewrite (name_ok_valid q Hn). cbn [p at_p].
  change (xml_skip_space (at_p (">"%char :: rest) (st [] sc))) with (st (">"%char :: rest) sc).
  cbn [p st head_is drop]. change (">" =c ">") with true. cbn iota. rewrite bool_decide_eq_true_2 by done. done.
Qed.

Lemma finish_read sc atts rest : finish (length sc) true (st rest (inner atts sc)) = st rest sc.
Proof.
  unfold finish, unwind, set_stack, inner. cbn [ok st negb andb ns_stack p entities]. f_equal.
  rewrite length_app. replace (_ + _ - _) with (length (rev (concat (map declared atts)))) by lia. by rewrite drop_app_length.
Qed.
Lemma elem_tag_ok depth sc q atts kids : wf_tree depth sc (Elem q atts kids) = true ->
  tag_ok depth sc q atts = true /\ no_adjacent_text kids = true /\ allb (wf_tree (S depth) (inner atts sc)) kids = true.
Proof.
  cbn [wf_tree]. intros [[Ht Ha]%andb_prop Hk]%andb_prop. done.
Qed.

Lemma node_of_children sc q atts kids :
  append_children (element_of sc q atts) (map (node_of (inner atts sc)) kids) = node_of sc (Elem q atts kids).
Proof. unfold element_of. cbn [node_of map]. by rewrite append_children_node. Qed.

Lemma element_read q atts kids : Forall reads kids -> reads_element (Elem q atts kids).
Proof.
  intros Hk depth sc rest parent fuel H Hl. destruct (elem_tag_ok _ _ _ _ _ H) as (Ht & Hadj & Hwf).
  assert (name_ok q = true) as Hn by (unfold tag_ok in Ht; by boolify).
  destruct fuel as [|f]; [cbn in Hl; lia|]. rewrite xml_parse_element_S. unfold element_turn.
  cbn [print_tree] in *. rewrite <- app_comm_cons in *. rewrite <- !app_assoc in *.
  destruct kids as [|k kids].
  - rewrite (open_read depth); [|done|done]. cbn [app]. change ("/" =c "/") with true. cbn iota zeta.
    cbn [head_is drop]. change (">" =c ">") with true. cbn iota.
    change (unwind _ _) with (finish (length sc) true (st rest (inner atts sc))).
    by rewrite finish_read.
  - cbn [app] in *. rewrite (open_read depth); [|done|done]. change (">" =c "/") with false. cbn iota.
    set (tail := "<"%char :: "/"%char :: q ++ ">"%char :: rest).
    assert ((concat (map print_tree (k :: kids)) ++ "<"%char :: "/"%char :: q ++ [">"%char]) ++ rest =
            concat (map print_tree (k :: kids)) ++ tail) as Etail.
    { unfold tail. rewrite <- !app_assoc. cbn [app]. by rewrite <- !app_assoc. }
    rewrite Etail in *.
    destruct (kids_read _ Hk depth (inner atts sc) tail (element_of sc q atts) q f) as (f' & _ & E);
      [done|done|done|cbn [length] in Hl; rewrite !length_app in Hl; cbn [length] in Hl; rewrite !length_app in Hl |- *; lia|].
    rewrite E, xml_content_S, node_of_children. unfold content_turn.
    change (negb (ok (st tail (inner atts sc))) || (p (st tail (inner atts sc)) =b [])) with false.
    change (head_is is_lt (p (st tail (inner atts sc)))) with true.
    change (prefixb ($"</") (p (st tail (inner atts sc)))) with true. cbn iota.
    change tail with (($"</") ++ q ++ ">"%char :: rest). rewrite end_tag_read by done.
    rewrite finish_read. done.
Qed.

(** The start tag of an element is none of the other markup. *)
Lemma reads_elem q atts kids : reads_element (Elem q atts kids) -> reads (Elem q atts kids).
Proof.
  intros He depth sc rest el q' fuel H Hl _. destruct (elem_tag_ok _ _ _ _ _ H) as (Ht & _ & _).
  assert (name_ok q = true) as Hn by (unfold tag_ok in Ht; by boolify).
  destruct (name_head q Hn) as (c & q1 & Eq & Hc). destruct (name_char_first c Hc) as (_ & _ & H1 & H2 & H3).
  rewrite xml_content_S. unfold content_turn.
  assert (exists s, print_tree (Elem q atts kids) ++ rest = "<"%char :: c :: s) as (s & Es) by (cbn [print_tree]; rewrite Eq; by eexists).
  cbn [p ok st negb]. rewrite Es. change (bool_decide _) with false. cbn [orb].
  change (head_is is_lt ("<"%char :: c :: s)) with true. cbn iota.
  boolify.
  assert (forall d t, c <> d -> prefixb ("<"%char :: d :: t) ("<"%char :: c :: s) = false) as Hp.
  { intros d t Hd. cbn [prefixb]. by rewrite (bool_decide_eq_false_2 (d = c)) by congruence. }
  rewrite (Hp "/"%char [] H1 : prefixb ($"</") _ = false), (Hp "!"%char ($"--") H2 : prefixb ($"<!--") _ = false),
    (Hp "!"%char ($"[CDATA[") H2 : prefixb ($"<![CDATA[") _ = false), (Hp "?"%char [] H3 : prefixb ($"<?") _ = false).
  rewrite <- Es. rewrite He; [done|done|lia].
Qed.

Lemma tree_reads t : reads t.
Proof.
  induction t using tree_nested_ind; [by apply reads_elem, element_read|apply reads_text|apply reads_comment|apply reads_cdata|apply reads_pi].
Qed.
End Attributes.

(** ** Documents *)

(** A document: a byte order mark, an XML declaration, then the root element with
    comments and instructions before and after it. *)
Record document := {
  mark : bool;
  declaration : option bytes;
  before_root : list tree;
  root : tree;
  after_root : list tree;
}.

Definition print_misc (l : list tree) : bytes := concat (map print_tree l).
Definition print_document (d : document) : bytes :=
  (if mark d then bom else []) ++
  (match declaration d with Some b => $"<?" ++ b ++ $"?>" | None => [] end) ++
  print_misc (before_root d) ++ print_tree (root d) ++ print_misc (after_root d).

Definition document_node (d : document) : ns_node :=
  Node NS_NODE_DOCUMENT None None None None [] [NS_NODE_XML_DOC]
    (map (node_of []) (before_root d) ++ node_of [] (root d) :: map (node_of []) (after_root d)).

Definition wf_misc (t : tree) : bool :=
  match t with
  | Comment _ => wf_tree 0 [] t
  | Pi target data => wf_tree 0 [] t && negb (is_xml_declaration (target ++ " "%char :: data))
  | _ => false
  end.
Definition wf_document (d : document) : bool :=
  (match declaration d with Some b => is_xml_declaration b && negb (contains (b ++ ["?"%char]) ($"?>")) | None => true end) &&
  allb wf_misc (before_root d) && allb wf_misc (after_root d) &&
  (match root d with Elem _ _ _ => wf_tree 0 [] (root d) | _ => false end).

Section Documents.
Context {U : Unichar}.
Let st (s : bytes) : xml_parser := Build_xml_parser s [] ∅ true.

Lemma misc_comment f t rest doc : wf_misc (Comment t) = true ->
  misc_loop (S f) (st (print_tree (Comment t) ++ rest)) doc =
  misc_loop f (st rest) (ns_node_append_child doc (node_of [] (Comment t))).
Proof.
  cbn [wf_misc wf_tree print_tree node_of]. intros H. boolify. rename H into Hn, H0 into Hc.
  destruct (contains_at t ($"--") rest ">" ($"-->") 3) as [E1 E2]; [done..|].
  rewrite <- !app_assoc. cbn [misc_loop]. set (s := t ++ $"-->" ++ rest) in *.
  change (xml_skip_space (st ($"<!--" ++ s))) with (st ($"<!--" ++ s)). cbn [p st].
  change (prefixb ($"<?") ($"<!--" ++ s)) with false. change (prefixb ($"<!--") ($"<!--" ++ s)) with true. cbn iota.
  change (drop 4 ($"<!--" ++ s)) with s. rewrite E1, E2, (cstr_no_nul t Hn). done.
Qed.

(** An instruction or the declaration: the text [b] between [<?] and [?>]. *)
Lemma misc_question f b rest doc : contains (b ++ ["?"%char]) ($"?>") = false ->
  misc_loop (S f) (st (($"<?" ++ b ++ $"?>") ++ rest)) doc =
  misc_loop f (st rest) (if is_xml_declaration b then doc else ns_node_append_child doc (pi_node b)).
Proof.
  intros Hc. destruct (contains_at b ["?"%char] rest ">" ($"?>") 2) as [E1 E2]; [done..|].
  rewrite <- !app_assoc. cbn [misc_loop]. set (s := b ++ $"?>" ++ rest) in *.
  change (xml_skip_space (st ($"<?" ++ s))) with (st ($"<?" ++ s)). cbn [p st].
  change (prefixb ($"<?") ($"<?" ++ s)) with true. cbn iota.
  change (drop 2 ($"<?" ++ s)) with s. by rewrite E1, E2.
Qed.

Lemma misc_pi f target data rest doc : wf_misc (Pi target data) = true ->
  misc_loop (S f) (st (print_tree (Pi target data) ++ rest)) doc =
  misc_loop f (st rest) (ns_node_append_child doc (node_of [] (Pi target data))).
Proof.
  cbn [wf_misc wf_tree node_of]. intros H. boolify. rename H4 into Hn, H3 into Ht, H2 into Hd, H1 into Hc, H0 into Hx.
  assert (print_tree (Pi target data) = $"<?" ++ (target ++ " "%char :: data) ++ $"?>") as ->
    by (cbn [print_tree]; rewrite <- app_assoc; done).
  rewrite misc_question by (by rewrite <- app_assoc). rewrite Hx, pi_node_of by done. done.
Qed.

Lemma misc_read l f rest doc : allb wf_misc l = true ->
  misc_loop (length l + f) (st (print_misc l ++ rest)) doc =
  misc_loop f (st rest) (append_children doc (map (node_of []) l)).
Proof.
  revert doc. induction l as [|t l IH]; intros doc H; [done|].
  change (wf_misc t && allb wf_misc l = true) in H. apply andb_prop in H as [Ht H].
  change (print_misc (t :: l)) with (print_tree t ++ print_misc l). rewrite <- app_assoc. cbn [length Nat.add].
  cbn [map append_children fold_left]. fold (append_children (ns_node_append_child doc (node_of [] t)) (map (node_of []) l)).
  rewrite <- IH by done.
  destruct t; try done; [by apply misc_comment|by apply misc_pi].
Qed.

Lemma name_char_lower d : implb (xml_name_char d true) (negb (lower d =c "!")) = true.
Proof. by_bytes d. Qed.

(** The loop ends at the root element and at the end. *)
Lemma misc_stops f s doc : 1 <= f ->
  match s with [] => True | c :: s' => c = "<"%char /\ head_is (fun d => xml_name_char d true) s' = true end ->
  misc_loop f (st s) doc = Some (st s, doc).
Proof.
  destruct f as [|f]; [lia|]. intros _ H. cbn [misc_loop]. destruct s as [|c [|d s]]; [done|by destruct H|].
  destruct H as [-> Hd]. cbn [head_is] in Hd. destruct (name_char_first d Hd) as (_ & _ & _ & H2 & H3).
  change (xml_skip_space (st ("<"%char :: d :: s))) with (st ("<"%char :: d :: s)). cbn [p st]. boolify.
  assert (forall e t, d <> e -> prefixb ("<"%char :: e :: t) ("<"%char :: d :: s) = false) as Hp.
  { intros e t He. cbn [prefixb]. by rewrite (bool_decide_eq_false_2 (e = d)) by congruence. }
  rewrite (Hp "?"%char [] H3 : prefixb ($"<?") _ = false), (Hp "!"%char ($"--") H2 : prefixb ($"<!--") _ = false).
  assert (g_ascii_strncasecmp0 ("<"%char :: d :: s) ($"<!DOCTYPE") 9 = false) as ->; [|by rewrite andb_false_r].
  glib_simpl. apply bool_decide_eq_false_2. intros E. apply (f_equal (fun l => nth 1 l nul)) in E.
  assert (lower d <> "!"%char) as Hl; [|by apply Hl].
  pose proof (name_char_lower d) as Hi. rewrite Hd in Hi. cbn [implb] in Hi. by boolify.
Qed.

Definition after_mark (s : bytes) : bytes := if prefixb bom s then drop 3 s else s.

Lemma root_head t : match t with Elem _ _ _ => wf_tree 0 [] t | _ => false end = true ->
  exists q s, (forall rest, print_tree t ++ rest = "<"%char :: q ++ s ++ rest) /\ head_is (fun d => xml_name_char d true) q = true.
Proof.
  destruct t as [q atts kids| | | |]; try done. intros H. destruct (elem_tag_ok _ _ _ _ _ H) as (Ht & _ & _).
  assert (name_ok q = true) as Hn by (unfold tag_ok in Ht; by boolify).
  destruct (name_head q Hn) as (c & q1 & Eq & Hc). eexists q, _. split; [intros rest; cbn [print_tree]; rewrite <- app_comm_cons, <- app_assoc; done|].
  by rewrite Eq.
Qed.

Lemma misc_length l : allb wf_misc l = true -> length l <= length (print_misc l).
Proof.
  induction l as [|t l IH]; intros H; [done|]. change (wf_misc t && allb wf_misc l = true) in H. apply andb_prop in H as [Ht H].
  change (print_misc (t :: l)) with (print_tree t ++ print_misc l). rewrite length_app. specialize (IH H).
  enough (1 <= length (print_tree t)) by (cbn; lia). destruct t; try done; cbn [print_tree]; rewrite length_app; vm_compute; lia.
Qed.

Definition print_prolog (d : document) : bytes :=
  (match declaration d with Some b => $"<?" ++ b ++ $"?>" | None => [] end) ++ print_misc (before_root d).

(** The loop before the root reads the declaration and the comments, with any
    fuel of the length of the input. *)
Lemma prolog_read d rest doc fuel : wf_document d = true -> length (print_prolog d ++ rest) <= fuel ->
  exists fuel', length rest <= fuel' /\
    misc_loop fuel (st (print_prolog d ++ rest)) doc =
    misc_loop fuel' (st rest) (append_children doc (map (node_of []) (before_root d))).
Proof.
  unfold wf_document, print_prolog. intros H Hl. boolify. rename H into Hd, H2 into Hb, H1 into Ha, H0 into Hr.
  pose proof (misc_length _ Hb) as Hlen. destruct (declaration d) as [b|].
  - apply andb_prop in Hd as [Hx Hc]. apply negb_true_iff in Hc. rewrite <- app_assoc in *.
    rewrite !length_app in Hl. change (length ($"<?")) with 2 in Hl. destruct fuel as [|f]; [lia|].
    rewrite misc_question, Hx by done. exists (f - length (before_root d)).
    split; [lia|].
    rewrite <- misc_read by done. f_equal. lia.
  - cbn [app] in *. exists (fuel - length (before_root d)). rewrite !length_app in Hl. split; [lia|].
    rewrite <- misc_read by done. f_equal. lia.
Qed.

Lemma print_document_split d :
  print_document d = (if mark d then bom else []) ++ print_prolog d ++ print_tree (root d) ++ print_misc (after_root d).
Proof. unfold print_document, print_prolog. by rewrite <- !app_assoc. Qed.

Lemma skip_mark d : wf_document d = true ->
  (if prefixb bom (print_document d) then drop 3 (print_document d) else print_document d) =
  print_prolog d ++ print_tree (root d) ++ print_misc (after_root d).
Proof.
  intros H. rewrite print_document_split. set (s := print_prolog d ++ _).
  destruct (mark d); [by rewrite (prefixb_app bom s)|]. cbn [app].
  assert (exists c s', s = c :: s' /\ c = "<"%char) as (c & s' & -> & ->); [|done].
  unfold wf_document in H. boolify. rename H into Hd, H2 into Hb, H1 into Ha, H0 into Hr.
  destruct (root_head _ Hr) as (q & s1 & Er & _). unfold s, print_prolog.
  destruct (declaration d) as [b|]; [by eexists _, _|].
  destruct (before_root d) as [|t l]; [cbn [app]; unfold print_misc at 1; cbn [map concat app]; rewrite Er; by eexists _, _|].
  change (wf_misc t && allb wf_misc l = true) in Hb. apply andb_prop in Hb as [Ht _]. destruct t; try done; by eexists _, _.
Qed.

Lemma document_children d :
  append_children (ns_node_append_child (append_children (ns_node_new_document [NS_NODE_XML_DOC]) (map (node_of []) (before_root d)))
                     (node_of [] (root d))) (map (node_of []) (after_root d)) = document_node d.
Proof.
  unfold ns_node_new_document. rewrite append_children_node. unfold ns_node_append_child.
  cbn [kind name text public_id system_id attrs flags children]. rewrite append_children_node. unfold document_node.
  cbn [app]. by rewrite <- app_assoc.
Qed.

Lemma root_read t rest doc fuel : match t with Elem _ _ _ => wf_tree 0 [] t | _ => false end = true ->
  length (print_tree t ++ rest) <= fuel ->
  xml_parse_element fuel (st (print_tree t ++ rest)) doc 0 = Some (st rest, ns_node_append_child doc (node_of [] t), true).
Proof.
  destruct t as [q atts kids| | | |]; try done. intros H Hl.
  apply (element_read ∅ q atts kids); [|done|done]. apply Forall_forall. intros; apply tree_reads.
Qed.

Lemma misc_after l doc : allb wf_misc l = true ->
  misc_loop (S (length (print_misc l))) (st (print_misc l)) doc = Some (st [], append_children doc (map (node_of []) l)).
Proof.
  intros H. pose proof (misc_length l H) as Hl.
  replace (S (length (print_misc l))) with (length l + S (length (print_misc l) - length l)) by lia.
  rewrite <- (app_nil_r (print_misc l)) at 2. rewrite misc_read by done. apply misc_stops; [lia|done].
Qed.

(** C9. A well-formed document, written out, is read back to the nodes it stands for:
    every element with its namespace resolved through the declarations around it,
    every attribute with its own, texts unescaped, and the comments, CDATA sections
    and instructions in their places. *)
Theorem xml_round_trip d : wf_document d = true ->
  ns_xml_parse_reporting (Some (print_document d)) (zlen (print_document d)) = Some (Some (document_node d), (1, 1)%Z).
Proof.
  intros H. cbn [ns_xml_parse_reporting]. cbv zeta.
  assert ((zlen (print_document d) <? 0)%Z = false) as -> by (apply Z.ltb_ge, zlen_nonneg).
  assert (take (Z.to_nat (zlen (print_document d))) (print_document d) = print_document d) as ->
    by (unfold zlen; rewrite Nat2Z.id; by apply take_ge).
  rewrite (skip_mark d H). change (Build_xml_parser ?s [] ∅ true) with (st s).
  set (tail := print_tree (root d) ++ print_misc (after_root d)).
  destruct (prolog_read d tail (ns_node_new_document [NS_NODE_XML_DOC]) (S (length (p (st (print_prolog d ++ tail)))))
              H ltac:(cbn; lia)) as (f & Hf & Em).
  unfold xml_skip_misc_and_doctype at 1. rewrite Em. clear Em.
  unfold wf_document in H. boolify. rename H into Hd, H2 into Hb, H1 into Ha, H0 into Hr.
  destruct (root_head _ Hr) as (q & s1 & Er & Hq).
  assert (tail = "<"%char :: q ++ s1 ++ print_misc (after_root d)) as Et by exact (Er _).
  rewrite (misc_stops f tail);
    [|rewrite Et in Hf; cbn in Hf; lia|rewrite Et; split; [done|destruct q; [done|exact Hq]]].
  assert (head_is is_lt (p (st tail)) = true) as -> by by rewrite Et.
  clear Et. unfold tail. rewrite root_read by (done || cbn; lia). cbn [ok st].
  set (doc1 := ns_node_append_child _ _). unfold xml_skip_misc_and_doctype. cbn [p st].
  rewrite misc_after by done. unfold doc1. rewrite document_children. done.
Qed.
End Documents.

(** ** On concrete documents *)

(** GLib's two functions, for evaluation: [g_unichar_to_utf8], and
    [g_ascii_strtoull] without its clamping at [ULLONG_MAX]. *)
Definition utf8_of (z : Z) : bytes :=
  let tail n := byte_of (128 + (z / 64 ^ n) mod 64) in
  if (z <? 128)%Z then [byte_of z]
  else if (z <? 2048)%Z then [byte_of (192 + z / 64); tail 0%Z]
  else if (z <? 65536)%Z then [byte_of (224 + z / 4096); tail 1%Z; tail 0%Z]
  else [byte_of (240 + z / 262144); tail 2%Z; tail 1%Z; tail 0%Z].
Definition digit_of (base : Z) (c : ascii) : option Z :=
  let v := if is_digit c then digit_val c else if in_range 65 70 c then (code c - 55)%Z
           else if in_range 97 102 c then (code c - 87)%Z else 99%Z in
  if (v <? base)%Z then Some v else None.
Definition strtoull_of (base : Z) (s : bytes) : Z * bytes :=
  let t := drop_while isspace s in
  let '(neg, t) := match t with c :: t' => if c =c "-" then (true, t') else if c =c "+" then (false, t') else (false, t) | [] => (false, t) end in
  let isd c := match digit_of base c with Some _ => true | None => false end in
  match take_while isd t with
  | [] => (0%Z, s)
  | ds => let v := fold_left (fun a c => (a * base + default 0 (digit_of base c))%Z) ds 0%Z in
          ((if neg : bool then (- v) mod 2 ^ 64 else v)%Z, drop_while isd t)
  end.
#[local] Instance unichar_ref : Unichar := {| g_unichar_to_utf8 := utf8_of; g_ascii_strtoull := strtoull_of |}.

Definition parse_text (s : bytes) : option (option ns_node) := ns_xml_parse (Some s) (zlen s).

Definition sample : document := {|
  mark := true;
  declaration := Some ($"xml version='1.0'");
  before_root := [Comment ($" a comment "); Pi ($"xml-stylesheet") ($"href='a.css'")];
  root := Elem ($"html") [($"xmlns", XML_NS_XHTML); ($"xmlns:s", XML_NS_SVG); ($"title", $"a < b & 'c'")]
            [Text ($"x > y"); Elem ($"s:svg") [($"s:width", $"1"); ($"xml:lang", $"en")] [CData ($"]] <raw>")];
             Elem ($"p") [($"xmlns", [])] []; Text ($"&amp;")];
  after_root := [Comment ($"end")];
|}.

Lemma xml_round_trip_witness : ns_xml_parse_reporting (Some (print_document sample)) (zlen (print_document sample)) =
  Some (Some (document_node sample), (1, 1)%Z).
Proof. apply xml_round_trip. vm_compute. reflexivity. Defined.

Lemma xml_nesting_bounded_witness : exists doc pos,
  ns_xml_parse_reporting (Some ($"<a><b/></a>")) 11 = Some (Some doc, pos) /\ node_height doc <= XML_MAX_DEPTH + 3.
Proof.
  eexists _, _. split; [vm_compute; reflexivity|].
  apply (xml_nesting_bounded (Some ($"<a><b/></a>")) 11 _ (1, 1)%Z). vm_compute. reflexivity.
Defined.

(** The namespace of an element is kept in an attribute, [data-nd-ns-uri], that a
    document can write itself: here an element of another namespace passes for one
    of XHTML. *)
Example namespace_spoofed :
  option_map (option_map (fun d => map (fun e => map (fun a => (a_name a, a_value a)) (attrs e)) (children d)))
    (parse_text ($"<script xmlns='urn:x' data-nd-ns-uri='http://www.w3.org/1999/xhtml'/>")) =
  Some (Some [[($"data-nd-ns-uri", XML_NS_XHTML); ($"xmlns", $"urn:x")]]).
Proof. vm_compute. reflexivity. Qed.

(** Two attributes of one namespace and local name: the second replaces the value
    of the first where the Namespaces recommendation refuses the document. *)
Example duplicate_attribute_merged :
  option_map (option_map (fun d => map (fun e => map (fun a => (a_name a, a_value a)) (drop 3 (attrs e))) (children d)))
    (parse_text ($"<a xmlns='u' xmlns:p='v' xmlns:q='v' p:x='1' q:x='2'/>")) =
  Some (Some [[($"xmlns:q", $"v"); ($"p:x", $"2")]]).
Proof. vm_compute. reflexivity. Qed.

(** An entity's value is expanded where it is declared, so that each declaration can
    double the one before it; nothing bounds the size of the values. *)
Example entities_double :
  option_map (option_map (fun d => map (fun e => map (fun t => option_map zlen (text t)) (children e)) (drop 1 (children d))))
    (parse_text ($"<!DOCTYPE a [<!ENTITY a 'xxxxxxxx'><!ENTITY b '&a;&a;'><!ENTITY c '&b;&b;'><!ENTITY d '&c;&c;'>]><a>&d;</a>")) =
  Some (Some [[Some 64%Z]]).
Proof. vm_compute. reflexivity. Qed.

(** A character reference may hold a space or a sign. *)
Example reference_with_space :
  option_map (option_map (fun d => map (fun e => map text (children e)) (children d))) (parse_text ($"<a>&# +65;</a>")) =
  Some (Some [[Some ($"A")]]).
Proof. vm_compute. reflexivity. Qed.

(** A document that is not well formed: the line and column it stopped at. *)
Example position_reported :
  ns_xml_parse_reporting (Some ($"<a>" ++ nl :: $" <b></a>")) (-1) = Some (None, (2, 9)%Z).
Proof. vm_compute. reflexivity. Qed.
