(* ===== verification/DomStore.v ===== *)
(** * The document tree in memory ([src/dom.c], [src/js.c])

    Nodes live in a heap and point at each other: parent, first and last child,
    previous and next sibling. An operation reads and writes the heap step by step
    as the code does; it is [None] when it follows a pointer to a node that is not
    there, or when a walk over pointers takes more steps than there are nodes, which
    the theorems of [DomTree] exclude. Of a node's other fields the model keeps what
    the document shows; the wrappers of the script engine, the style caches and the
    indexes of ids, classes and tags are left out. *)

From stdpp Require Import functions.
From S2P Require Import Prelude CStr GLib Xml.

Abbreviation loc := positive.

(** ** Nodes ([src/dom.h]) *)

Definition bit (n : Z) : Z := Z.shiftl 1 n.
Definition NS_NODE_OWN_TEXT_BIT : Z := bit 1.
Definition NS_NODE_FRAGMENT_BIT : Z := bit 2.
Definition NS_NODE_TEMPLATE_CONTENT_BIT : Z := bit 4.
Definition has_flag (fl b : Z) : bool := negb (Z.land fl b =? 0)%Z.

(** What a node holds besides its links. *)
Record ndata := {
  n_kind : ns_node_kind;
  n_name : option bytes;
  n_text : option bytes;
  n_public_id : option bytes;
  n_system_id : option bytes;
  n_attrs : list ns_attr;
  n_flags : Z;
  n_tpl_content : option loc;
}.

Record links := {
  parent : option loc;
  first_child : option loc;
  last_child : option loc;
  prev_sibling : option loc;
  next_sibling : option loc;
}.

#[global] Instance links_eq_dec : EqDecision links.
Proof. solve_decision. Defined.

Record dnode := { data : ndata; lk : links }.
Abbreviation heap := (gmap loc dnode).

Definition no_links : links := Build_links None None None None None.
Definition on_links (f : links -> links) (d : dnode) : dnode := {| data := data d; lk := f (lk d) |}.
Definition set_parent v := on_links (fun l => Build_links v (first_child l) (last_child l) (prev_sibling l) (next_sibling l)).
Definition set_first v := on_links (fun l => Build_links (parent l) v (last_child l) (prev_sibling l) (next_sibling l)).
Definition set_last v := on_links (fun l => Build_links (parent l) (first_child l) v (prev_sibling l) (next_sibling l)).
Definition set_prev v := on_links (fun l => Build_links (parent l) (first_child l) (last_child l) v (next_sibling l)).
Definition set_next v := on_links (fun l => Build_links (parent l) (first_child l) (last_child l) (prev_sibling l) v).
Definition set_data v (d : dnode) : dnode := {| data := v; lk := lk d |}.

(** The links of the node at [l], and a write to that node. *)
Definition at_ (l : loc) (h : heap) : option links := lk <$> h !! l.
Definition upd (l : loc) (f : dnode -> dnode) (h : heap) : option heap :=
  match h !! l with Some _ => Some (alter f l h) | None => None end.

(** [if (p) ... else ...] on a pointer. *)
Definition upd_or (p : option loc) (f : dnode -> dnode) (q : loc) (g : dnode -> dnode) (h : heap) : option heap :=
  match p with Some l => upd l f h | None => upd q g h end.

(** ** Links ([src/dom.c]) *)

Definition ns_node_detach (child : loc) (h : heap) : option heap :=
  c ← at_ child h;
  match parent c with
  | None => Some h
  | Some p =>
      h ← upd_or (prev_sibling c) (set_next (next_sibling c)) p (set_first (next_sibling c)) h;
      c ← at_ child h;
      h ← upd_or (next_sibling c) (set_prev (prev_sibling c)) p (set_last (prev_sibling c)) h;
      h ← upd child (set_parent None) h;
      h ← upd child (set_prev None) h;
      upd child (set_next None) h
  end.

Definition ns_node_remove (child : loc) (h : heap) : option heap := ns_node_detach child h.

Definition ns_node_append_child (par child : loc) (h : heap) : option heap :=
  _ ← at_ par h;
  h ← ns_node_detach child h;
  h ← upd child (set_parent (Some par)) h;
  p ← at_ par h;
  h ← upd child (set_prev (last_child p)) h;
  p ← at_ par h;
  h ← upd_or (last_child p) (set_next (Some child)) par (set_first (Some child)) h;
  upd par (set_last (Some child)) h.

(** The links of [newc] put between [ref] and what is before it: the tail of
    [ns_insert_sibling_before], [ns_element_insert_before_single] and
    [ns_element_prepend]. *)
Definition link_before (par ref newc : loc) (h : heap) : option heap :=
  h ← upd newc (set_parent (Some par)) h;
  h ← upd newc (set_next (Some ref)) h;
  r ← at_ ref h;
  h ← upd newc (set_prev (prev_sibling r)) h;
  r ← at_ ref h;
  h ← upd_or (prev_sibling r) (set_next (Some newc)) par (set_first (Some newc)) h;
  upd ref (set_prev (Some newc)) h.

(** ** Insertions ([src/js.c]) *)

(** [if (newc->parent) ns_node_remove(newc);] *)
Definition remove_if_linked (newc : loc) (h : heap) : option heap :=
  c ← at_ newc h;
  match parent c with Some _ => ns_node_remove newc h | None => Some h end.

Definition ns_insert_sibling_before (ref newc : loc) (h : heap) : option heap :=
  r ← at_ ref h;
  match parent r with
  | None => Some h
  | Some _ =>
      if decide (ref = newc) then Some h
      else
        h ← remove_if_linked newc h;
        r ← at_ ref h;
        match parent r with None => None | Some par => link_before par ref newc h end
  end.

Definition ns_insert_sibling_after (ref newc : loc) (h : heap) : option heap :=
  r ← at_ ref h;
  match parent r with
  | None => Some h
  | Some _ =>
      if decide (ref = newc) then Some h
      else
        h ← remove_if_linked newc h;
        r ← at_ ref h;
        match parent r with
        | None => None
        | Some par =>
            h ← upd newc (set_parent (Some par)) h;
            h ← upd newc (set_prev (Some ref)) h;
            r ← at_ ref h;
            h ← upd newc (set_next (next_sibling r)) h;
            r ← at_ ref h;
            h ← upd_or (next_sibling r) (set_prev (Some newc)) par (set_last (Some newc)) h;
            upd ref (set_next (Some newc)) h
        end
  end.

(** Put [c] before the first child: the branch [afterbegin] of
    [ns_insert_adjacent_node]. *)
Definition insert_first (self c : loc) (h : heap) : option heap :=
  h ← ns_node_remove c h;
  h ← upd c (set_parent (Some self)) h;
  s ← at_ self h;
  h ← upd c (set_next (first_child s)) h;
  h ← upd c (set_prev None) h;
  s ← at_ self h;
  h ← upd_or (first_child s) (set_prev (Some c)) self (set_last (Some c)) h;
  upd self (set_first (Some c)) h.

(** [newc] takes the place of [oldc]: the end of [ns_element_replaceChild]. *)
Definition replace_links (par newc oldc : loc) (h : heap) : option heap :=
  h ← remove_if_linked newc h;
  h ← upd newc (set_parent (Some par)) h;
  o ← at_ oldc h;
  h ← upd newc (set_prev (prev_sibling o)) h;
  h ← upd newc (set_next (next_sibling o)) h;
  o ← at_ oldc h;
  h ← upd_or (prev_sibling o) (set_next (Some newc)) par (set_first (Some newc)) h;
  o ← at_ oldc h;
  h ← upd_or (next_sibling o) (set_prev (Some newc)) par (set_last (Some newc)) h;
  h ← upd oldc (set_parent None) h;
  h ← upd oldc (set_prev None) h;
  upd oldc (set_next None) h.

(** The tail of a split text put behind it: the links set by
    [ns_element_split_text]. *)
Definition link_split (n tail : loc) (h : heap) : option heap :=
  l ← at_ n h;
  match parent l with
  | None => Some h
  | Some par =>
      h ← upd tail (set_parent (Some par)) h;
      h ← upd tail (set_prev (Some n)) h;
      h ← upd tail (set_next (next_sibling l)) h;
      l ← at_ n h;
      h ← upd_or (next_sibling l) (set_prev (Some tail)) par (set_last (Some tail)) h;
      upd n (set_next (Some tail)) h
  end.

(** ** Walks up the tree *)

Fixpoint root_loop (fuel : nat) (n : loc) (h : heap) : option loc :=
  match fuel with
  | O => None
  | S f => l ← at_ n h; match parent l with Some p => root_loop f p h | None => Some n end
  end.
Definition ns_node_root (n : loc) (h : heap) : option loc := root_loop (S (size h)) n h.

Fixpoint contains_loop (fuel : nat) (ancestor : loc) (p : option loc) (h : heap) : option bool :=
  match p with
  | None => Some false
  | Some n =>
      if decide (n = ancestor) then Some true
      else match fuel with O => None | S f => l ← at_ n h; contains_loop f ancestor (parent l) h end
  end.
Definition ns_node_contains (ancestor node : loc) (h : heap) : option bool :=
  contains_loop (S (size h)) ancestor (Some node) h.
(** [ns_node_ancestor_or_self(desc, root) != NULL]. *)
Definition ns_node_ancestor_or_self (desc root : loc) (h : heap) : option bool := ns_node_contains root desc h.

(** ** Template contents *)

Definition ns_node_new_document : dnode :=
  {| data := Build_ndata NS_NODE_DOCUMENT None None None None [] 0 None; lk := no_links |}.
Definition or_flags (b : Z) : dnode -> dnode := fun d =>
  let '(Build_ndata k nm t pub sys at_ fl c) := data d in set_data (Build_ndata k nm t pub sys at_ (Z.lor fl b) c) d.
Definition set_tpl_content (v : option loc) : dnode -> dnode := fun d =>
  let '(Build_ndata k nm t pub sys at_ fl _) := data d in set_data (Build_ndata k nm t pub sys at_ fl v) d.

(** The fragment of a template, made when it is first asked for. *)
Definition ns_template_content_get (tpl : loc) (h : heap) : option (loc * heap) :=
  t ← h !! tpl;
  match n_tpl_content (data t) with
  | Some c => Some (c, h)
  | None =>
      let frag := fresh (dom (D := gset loc) h) in
      let h := <[frag := or_flags (Z.lor NS_NODE_FRAGMENT_BIT NS_NODE_TEMPLATE_CONTENT_BIT) ns_node_new_document]> h in
      h ← upd tpl (set_tpl_content (Some frag)) h;
      Some (frag, h)
  end.
