(* ===== verification/DomTree.v ===== *)
(** * The tree the links stand for

    [tree_ok h K]: the links of the heap [h] are those of the ordered forest in
    which the children of [n] are [K n]. Every operation of [DomStore] that changes
    links is shown to keep this, with the children it says. *)

From stdpp Require Import functions relations.
From S2P Require Import Prelude CStr GLib Xml DomStore.

(** ** Forests *)

Definition edge (K : loc -> list loc) (n c : loc) : Prop := c ∈ K n.

Record tree_ok (h : heap) (K : loc -> list loc) : Prop := {
  ok_absent : forall n, at_ n h = None -> K n = [];
  ok_ends : forall n k, at_ n h = Some k -> first_child k = head (K n) /\ last_child k = last (K n);
  ok_kid : forall n l1 c l2, K n = l1 ++ c :: l2 ->
    exists k, at_ c h = Some k /\ parent k = Some n /\ prev_sibling k = last l1 /\ next_sibling k = head l2;
  ok_orphan : forall c k, at_ c h = Some k -> parent k = None -> prev_sibling k = None /\ next_sibling k = None;
  ok_listed : forall c k n, at_ c h = Some k -> parent k = Some n -> c ∈ K n;
  ok_acyclic : forall x, ~ tc (edge K) x x;
}.

(** [h'] is [h] with the links of every node changed by [F], its data kept. *)
Record relinked (F : loc -> links -> links) (h h' : heap) : Prop := {
  re_links : forall y, at_ y h' = F y <$> at_ y h;
  re_data : forall y, data <$> h' !! y = data <$> h !! y;
}.

(** ** The heap *)

Lemma at_alter (l : loc) f (y : loc) (h : heap) : at_ y (alter (on_links f) l h) = (if decide (l = y) then f else id) <$> at_ y h.
Proof.
  unfold at_. destruct (decide (l = y)) as [->|Hne].
  - rewrite lookup_alter_eq, <- !option_fmap_compose. by destruct (h !! y).
  - rewrite lookup_alter_ne by done. by destruct (h !! y).
Qed.
Lemma at_alter_eq (l : loc) f (h : heap) : at_ l (alter (on_links f) l h) = f <$> at_ l h.
Proof. by rewrite at_alter, decide_True. Qed.
Lemma at_alter_ne (l : loc) f (y : loc) (h : heap) : l <> y -> at_ y (alter (on_links f) l h) = at_ y h.
Proof. intros H. rewrite at_alter, decide_False by done. by destruct (at_ y h). Qed.
Lemma data_alter (l : loc) f (y : loc) (h : heap) : data <$> alter (on_links f) l h !! y = data <$> h !! y.
Proof.
  destruct (decide (l = y)) as [->|Hne]; [|by rewrite lookup_alter_ne].
  rewrite lookup_alter_eq, <- option_fmap_compose. by destruct (h !! y).
Qed.
Lemma upd_at l f h k : at_ l h = Some k -> upd l (on_links f) h = Some (alter (on_links f) l h).
Proof. unfold at_, upd. by destruct (h !! l). Qed.

(** Evaluate an operation whose nodes are known to be there and to differ. *)
Ltac at_simpl := repeat first
  [ rewrite at_alter_eq | rewrite at_alter_ne by congruence
  | match goal with H : at_ ?l ?h = Some _ |- context [at_ ?l ?h] => rewrite H end ];
  cbn [fmap option_fmap option_map parent first_child last_child prev_sibling next_sibling mbind option_bind].
Ltac run :=
  unfold upd_or, set_parent, set_first, set_last, set_prev, set_next; cbn [mbind option_bind];
  repeat (progress (at_simpl; cbn [mbind option_bind]) ||
          (erewrite upd_at by (at_simpl; reflexivity); cbn [mbind option_bind]) ||
          match goal with H : ?f ?k = _ |- context [match ?f ?k with _ => _ end] => rewrite H end).

Lemma head_split {A} (l1 l2 : list A) : head (l1 ++ l2) = match last l1 with Some _ => head l1 | None => head l2 end.
Proof. destruct l1 as [|x l1]; [done|]. rewrite last_cons. by destruct (last l1). Qed.
Lemma last_split {A} (l1 l2 : list A) : last (l1 ++ l2) = match head l2 with Some _ => last l2 | None => last l1 end.
Proof. destruct l2; [by rewrite app_nil_r|]. by rewrite last_app_cons. Qed.
Lemma last_mid {A} (l1 l2 : list A) x : last (l1 ++ x :: l2) = match head l2 with Some _ => last l2 | None => Some x end.
Proof. rewrite last_app_cons. by destruct l2. Qed.
Lemma last_front {A} (l : list A) x : last (x :: l) = match head l with Some _ => last l | None => Some x end.
Proof. by destruct l. Qed.

Section Forest.
Context (h : heap) (K : loc -> list loc) (OK : tree_ok h K).

Lemma no_self c : c ∉ K c.
Proof. intros H. apply (ok_acyclic _ _ OK c). by apply tc_once. Qed.

Lemma at_kid n l1 c l2 : K n = l1 ++ c :: l2 ->
  exists k, at_ c h = Some k /\ parent k = Some n /\ prev_sibling k = last l1 /\ next_sibling k = head l2.
Proof. apply (ok_kid _ _ OK). Qed.

(** A node is in one place of the children of one node. *)
Lemma kids_nodup n : NoDup (K n).
Proof.
  assert (forall r l m x, K n = l ++ x :: m ++ x :: r -> False) as H.
  { induction r as [|y r IH]; intros l m x E;
      destruct (at_kid n l x _ E) as (k & E1 & _ & _ & N1);
      (destruct (at_kid n (l ++ x :: m) x _ ltac:(by rewrite E, <- app_assoc)) as (k' & E2 & _ & _ & N2));
      rewrite E1 in E2; injection E2 as <-; rewrite N1 in N2; destruct m as [|z m]; cbn in N2; try done;
      injection N2 as <-.
    - apply (IH (l ++ [x]) [] x). by rewrite E, <- app_assoc.
    - apply (IH (l ++ [x]) (m ++ [x]) z). rewrite E, <- !app_assoc. done. }
  enough (forall l2 l1, K n = l1 ++ l2 -> NoDup l2) as G by by apply (G (K n) []).
  induction l2 as [|x l2 IH]; intros l1 E; constructor.
  - intros (m & r & ->)%list_elem_of_split. by apply (H r l1 m x).
  - apply (IH (l1 ++ [x])). by rewrite E, <- app_assoc.
Qed.

Lemma kid_linked n c : c ∈ K n -> exists k, at_ c h = Some k /\ parent k = Some n.
Proof. intros (l1 & l2 & E)%list_elem_of_split. destruct (at_kid _ _ _ _ E) as (k & ? & ? & _). eauto. Qed.
Lemma one_parent c n m : c ∈ K n -> c ∈ K m -> n = m.
Proof. intros (k & ? & ?)%kid_linked (k' & ? & ?)%kid_linked. congruence. Qed.
Lemma has_links n c : c ∈ K n -> exists k, at_ n h = Some k.
Proof.
  intros H. destruct (at_ n h) eqn:E; [eauto|]. rewrite (ok_absent _ _ OK n E) in H. by apply not_elem_of_nil in H.
Qed.
Lemma parent_edge c k n : at_ c h = Some k -> parent k = Some n <-> c ∈ K n.
Proof.
  intros E. split; [by apply (ok_listed _ _ OK)|]. intros (k' & ? & ?)%kid_linked. congruence.
Qed.
Lemma mid_nodup p c l1 l2 : K p = l1 ++ c :: l2 -> c ∉ l1 /\ c ∉ l2 /\ NoDup (l1 ++ l2).
Proof.
  intros E. pose proof (kids_nodup p) as N. rewrite E in N.
  apply NoDup_app in N as (N1 & N2 & N3). apply NoDup_cons in N3 as [N3 N4].
  split; [|split]; [intros H; apply (N2 _ H); set_solver|done|].
  apply NoDup_app. split; [done|]. split; [|done]. intros x H H'. apply (N2 x H). set_solver.
Qed.
End Forest.

Lemma tree_ok_ext h K K' : (forall n, K n = K' n) -> tree_ok h K -> tree_ok h K'.
Proof.
  intros E [Ha He Hk Ho Hl Hc].
  assert (forall x y, edge K x y <-> edge K' x y) as Ed by (intros; unfold edge; by rewrite E).
  split; intros; try rewrite <- E in *; eauto.
  intros H'. apply (Hc x). revert H'. generalize x at 2 4. intros y. induction 1 as [a b R|a b d R _ IH].
  - by apply tc_once, Ed.
  - eapply tc_l; [by apply Ed|done].
Qed.

(** ** Taking a node out of the children of its parent, and putting it there *)

Definition unlinked (p c : loc) (l1 l2 : list loc) (y : loc) (k : links) : links :=
  {| parent := if decide (y = c) then None else parent k;
     first_child := if decide (y = p) then head (l1 ++ l2) else first_child k;
     last_child := if decide (y = p) then last (l1 ++ l2) else last_child k;
     prev_sibling := if decide (y = c) then None else if decide (head l2 = Some y) then last l1 else prev_sibling k;
     next_sibling := if decide (y = c) then None else if decide (last l1 = Some y) then head l2 else next_sibling k |}.

Definition linked (p c : loc) (l1 l2 : list loc) (y : loc) (k : links) : links :=
  {| parent := if decide (y = c) then Some p else parent k;
     first_child := if decide (y = p) then head (l1 ++ c :: l2) else first_child k;
     last_child := if decide (y = p) then last (l1 ++ c :: l2) else last_child k;
     prev_sibling := if decide (y = c) then last l1 else if decide (head l2 = Some y) then Some c else prev_sibling k;
     next_sibling := if decide (y = c) then head l2 else if decide (last l1 = Some y) then Some c else next_sibling k |}.

Lemma fmap_Some_links (F : links -> links) o k' : F <$> o = Some k' -> exists k, o = Some k /\ k' = F k.
Proof. destruct o; [|done]. intros [= <-]. eauto. Qed.

Lemma last_elem {A} (l : list A) x : last l = Some x -> x ∈ l.
Proof. intros [m ->]%last_Some. set_solver. Qed.
Lemma head_elem {A} (l : list A) x : head l = Some x -> x ∈ l.
Proof. intros [m ->]%head_Some. set_solver. Qed.
Lemma app_mid {A} (l1 l2 m1 m2 : list A) x : l1 ++ l2 = m1 ++ x :: m2 ->
  (exists r, l1 = m1 ++ x :: r /\ m2 = r ++ l2) \/ (exists r, l2 = r ++ x :: m2 /\ m1 = l1 ++ r).
Proof.
  intros (r & [[E1 E2]|[E1 E2]])%app_eq_app; [|right; eauto].
  destruct r as [|y r]; cbn in E2.
  - right. exists []. rewrite app_nil_r in E1. subst. by rewrite app_nil_r.
  - injection E2 as -> ->. left. eauto.
Qed.

Lemma tc_mono {A} (R S : A -> A -> Prop) : (forall x y, R x y -> S x y) -> forall x y, tc R x y -> tc S x y.
Proof. intros H x y. induction 1; [by apply tc_once, H|eapply tc_l; eauto]. Qed.

(** Take the branch of a decided test that is the only one possible: the other
    makes a node occur where it does not. *)
Ltac absent := intros; exfalso; subst; repeat match goal with
  | H : last _ = Some _ |- _ => apply last_elem in H
  | H : head _ = Some _ |- _ => apply head_elem in H
  | H : Some _ = Some _ |- _ => injection H as H; subst
  | H : forall _, _ ∈ _ -> _ |- _ => clear H
  end; rewrite ?elem_of_app, ?elem_of_cons, ?elem_of_nil in *; tauto.
Ltac decide_no P := destruct (decide P) as [|_]; [absent|].

Section Unlink.
Context (h h' : heap) (K : loc -> list loc) (OK : tree_ok h K).
Context (p c : loc) (l1 l2 : list loc) (E : K p = l1 ++ c :: l2).
Context (R : forall y, at_ y h' = unlinked p c l1 l2 y <$> at_ y h).

Lemma unlink_kid n m1 x m2 : <[p := l1 ++ l2]> K n = m1 ++ x :: m2 ->
  exists k, at_ x h' = Some k /\ parent k = Some n /\ prev_sibling k = last m1 /\ next_sibling k = head m2.
Proof.
  destruct (mid_nodup h K OK _ _ _ _ E) as (N1 & N2 & N). intros Ex.
  destruct (decide (n = p)) as [->|Hn].
  - rewrite fn_lookup_insert in Ex. rewrite R.
    destruct (app_mid _ _ _ _ _ Ex) as [(r & -> & ->)|(r & -> & ->)].
    + destruct (at_kid h K OK p m1 x (r ++ c :: l2)) as (k & -> & P1 & P2 & P3); [by rewrite E, <- app_assoc|].
      eexists; split; [done|]. cbn. rewrite <- app_assoc in N.
      apply NoDup_app in N as (Na & Nb & Nc). cbn in Nc. apply NoDup_cons in Nc as [Nc Nd].
      decide_no (x = c). decide_no (head l2 = Some x).
      split; [done|]. split; [done|]. rewrite P3. destruct r as [|z r]; cbn [app head].
      * by rewrite last_snoc, decide_True.
      * rewrite last_app_cons, last_cons_cons. decide_no (last (z :: r) = Some x). done.
    + destruct (at_kid h K OK p (l1 ++ c :: r) x m2) as (k & -> & P1 & P2 & P3); [by rewrite E, <- app_assoc|].
      eexists; split; [done|]. cbn. rewrite app_assoc in N.
      apply NoDup_app in N as (Na & Nb & Nc). apply NoDup_cons in Nc as [Nc Nd].
      assert (x ∉ l1 ++ r) as Nx by (intros H; apply (Nb _ H); set_solver +).
      decide_no (x = c). decide_no (last l1 = Some x).
      split; [done|]. split; [|done]. rewrite P2. destruct r as [|z r]; cbn [app head].
      * by rewrite decide_True, app_nil_r.
      * rewrite decide_False by (intros [= ->]; set_solver). by rewrite !last_app_cons, last_cons_cons.
  - rewrite fn_lookup_insert_ne in Ex by done. destruct (at_kid h K OK _ _ _ _ Ex) as (k & Ek & P1 & P2 & P3).
    assert (x ∉ K p) as Hx. { intros H. apply Hn. apply (one_parent h K OK x); [rewrite Ex; set_solver|done]. }
    rewrite E in Hx. rewrite R, Ek. eexists; split; [done|]. cbn.
    decide_no (x = c). decide_no (head l2 = Some x). decide_no (last l1 = Some x). done.
Qed.

Lemma unlink_ok : tree_ok h' (<[p := l1 ++ l2]> K).
Proof.
  split.
  - intros n Hn. rewrite R in Hn. destruct (at_ n h) eqn:En; [done|].
    pose proof (ok_absent _ _ OK n En) as E0. rewrite fn_lookup_insert_ne; [done|]. intros ->. rewrite E in E0.
    by destruct l1.
  - intros n k Hn. rewrite R in Hn. apply fmap_Some_links in Hn as (k0 & Hn & ->). cbn.
    destruct (decide (n = p)) as [->|Hp]; [by rewrite fn_lookup_insert|].
    rewrite fn_lookup_insert_ne by done. by apply (ok_ends _ _ OK).
  - apply unlink_kid.
  - intros x k Hx. rewrite R in Hx. apply fmap_Some_links in Hx as (k0 & Hx & ->). cbn.
    destruct (decide (x = c)); [done|]. intros Hp. destruct (ok_orphan _ _ OK _ _ Hx Hp) as [-> ->].
    assert (x ∉ K p) as Hk. { intros H. apply (parent_edge h K OK _ _ _ Hx) in H. congruence. }
    rewrite E in Hk. decide_no (head l2 = Some x). by decide_no (last l1 = Some x).
  - intros x k n Hx. rewrite R in Hx. apply fmap_Some_links in Hx as (k0 & Hx & ->). cbn.
    destruct (decide (x = c)) as [|Hc]; [done|]. intros Hp%(parent_edge h K OK _ _ _ Hx).
    destruct (decide (n = p)) as [->|Hn]; [|by rewrite fn_lookup_insert_ne].
    rewrite fn_lookup_insert. rewrite E in Hp. set_solver.
  - intros x H. apply (ok_acyclic _ _ OK x). revert H. apply tc_mono. intros a b. unfold edge.
    destruct (decide (a = p)) as [->|]; [rewrite fn_lookup_insert, E; set_solver|by rewrite fn_lookup_insert_ne].
Qed.
End Unlink.

Section Link.
Context (h h' : heap) (K : loc -> list loc) (OK : tree_ok h K).
Context (p c : loc) (l1 l2 : list loc) (E : K p = l1 ++ l2) (kp kc : links).
Context (Ep : at_ p h = Some kp) (Ec : at_ c h = Some kc) (Free : parent kc = None).
Context (Below : ~ rtc (edge K) c p).
Context (R : forall y, at_ y h' = linked p c l1 l2 y <$> at_ y h).

Lemma free_kid n : c ∉ K n.
Proof. intros H. apply (parent_edge h K OK _ _ _ Ec) in H. congruence. Qed.
Lemma free_ne : c <> p.
Proof. intros ->. by apply Below. Qed.

Lemma link_kid n m1 x m2 : <[p := l1 ++ c :: l2]> K n = m1 ++ x :: m2 ->
  exists k, at_ x h' = Some k /\ parent k = Some n /\ prev_sibling k = last m1 /\ next_sibling k = head m2.
Proof.
  intros Ex. rewrite R. pose proof (kids_nodup h K OK p) as N. pose proof (free_kid p) as F.
  rewrite E in N, F. apply NoDup_app in N as (Na & Nb & Nc).
  destruct (decide (n = p)) as [->|Hn].
  - rewrite fn_lookup_insert in Ex. destruct (app_mid _ _ _ _ _ Ex) as [(r & -> & ->)|([|z r] & Er & ->)].
    + destruct (at_kid h K OK p m1 x (r ++ l2)) as (k & -> & P1 & P2 & P3); [by rewrite E, <- app_assoc|].
      eexists; split; [done|]. cbn. pose proof (Nb x ltac:(set_solver +)) as Nx.
      apply NoDup_app in Na as (Na & Nb' & Nd). apply NoDup_cons in Nd as [Nd _].
      decide_no (x = c). decide_no (head l2 = Some x). split; [done|]. split; [done|].
      rewrite P3. destruct r as [|z r]; cbn [app head].
      * by rewrite last_snoc, decide_True.
      * rewrite last_app_cons, last_cons_cons. decide_no (last (z :: r) = Some x). done.
    + injection Er as <- <-. rewrite app_nil_r. rewrite Ec. eexists; split; [done|]. cbn. by rewrite !decide_True.
    + injection Er as <- ->. destruct (at_kid h K OK p (l1 ++ r) x m2) as (k & -> & P1 & P2 & P3); [by rewrite E, <- app_assoc|].
      eexists; split; [done|]. cbn. assert (x ∉ l1) as Nx by (intros H; apply (Nb _ H); set_solver +).
      apply NoDup_app in Nc as (Nc & Nb' & Nd). assert (x ∉ r) as Nr by (intros H; apply (Nb' _ H); set_solver +).
      decide_no (x = c). decide_no (last l1 = Some x). split; [done|]. split; [|done].
      destruct r as [|z r]; cbn [app head].
      * by rewrite decide_True, last_snoc.
      * decide_no (Some z = Some x). rewrite P2. by rewrite !last_app_cons, last_cons_cons.
  - rewrite fn_lookup_insert_ne in Ex by done. destruct (at_kid h K OK _ _ _ _ Ex) as (k & Ek & P1 & P2 & P3).
    assert (x ∈ K n) as Hk by (rewrite Ex; set_solver +).
    assert (x ∉ K p) as Hx. { intros H. apply Hn. by apply (one_parent h K OK x). }
    assert (x <> c) as Hc. { intros ->. by apply (free_kid n). }
    rewrite E in Hx. rewrite Ek. eexists; split; [done|]. cbn.
    decide_no (x = c). decide_no (head l2 = Some x). by decide_no (last l1 = Some x).
Qed.

(** A new edge from [p] to [c] makes no cycle when [p] is not below [c]. *)
Lemma link_edge x y : edge (<[p := l1 ++ c :: l2]> K) x y -> edge K x y \/ (x = p /\ y = c).
Proof.
  unfold edge. destruct (decide (x = p)) as [->|]; [|rewrite fn_lookup_insert_ne by done; by left].
  rewrite fn_lookup_insert, E, !elem_of_app, elem_of_cons. tauto.
Qed.
Lemma link_paths x y : tc (edge (<[p := l1 ++ c :: l2]> K)) x y ->
  tc (edge K) x y \/ (rtc (edge K) x p /\ rtc (edge K) c y).
Proof.
  induction 1 as [x y [H|[-> ->]]%link_edge|x y z [H|[-> ->]]%link_edge _ IH].
  - left. by apply tc_once.
  - right. split; apply rtc_refl.
  - destruct IH as [IH|[IH1 IH2]]; [left; by eapply tc_l|right]. split; [by eapply rtc_l|done].
  - right. split; [apply rtc_refl|]. destruct IH as [IH|[IH1 IH2]]; [by apply tc_rtc|done].
Qed.

Lemma link_ok : tree_ok h' (<[p := l1 ++ c :: l2]> K).
Proof.
  split.
  - intros n Hn. rewrite R in Hn. destruct (at_ n h) eqn:En; [done|].
    rewrite fn_lookup_insert_ne by congruence. by apply (ok_absent _ _ OK).
  - intros n k Hn. rewrite R in Hn. apply fmap_Some_links in Hn as (k0 & Hn & ->). cbn.
    destruct (decide (n = p)) as [->|Hp]; [by rewrite fn_lookup_insert|].
    rewrite fn_lookup_insert_ne by done. by apply (ok_ends _ _ OK).
  - apply link_kid.
  - intros x k Hx. rewrite R in Hx. apply fmap_Some_links in Hx as (k0 & Hx & ->). cbn.
    destruct (decide (x = c)); [done|]. intros Hp. destruct (ok_orphan _ _ OK _ _ Hx Hp) as [-> ->].
    assert (x ∉ K p) as Hk. { intros H. apply (parent_edge h K OK _ _ _ Hx) in H. congruence. }
    rewrite E in Hk. decide_no (head l2 = Some x). by decide_no (last l1 = Some x).
  - intros x k n Hx. rewrite R in Hx. apply fmap_Some_links in Hx as (k0 & Hx & ->). cbn.
    destruct (decide (x = c)) as [->|Hc].
    + intros [= <-]. rewrite fn_lookup_insert. set_solver +.
    + intros Hp%(parent_edge h K OK _ _ _ Hx). destruct (decide (n = p)) as [->|Hn]; [|by rewrite fn_lookup_insert_ne].
      rewrite fn_lookup_insert. rewrite E in Hp. rewrite elem_of_app in Hp |- *. rewrite elem_of_cons. tauto.
  - intros x [H|[H1 H2]]%link_paths; [by apply (ok_acyclic _ _ OK x)|]. apply Below. by etrans.
Qed.
End Link.

(** ** The writes of an operation *)

Definition same_data (h h' : heap) : Prop := forall y, data <$> h' !! y = data <$> h !! y.

Lemma same_data_trans h1 h2 h3 : same_data h1 h2 -> same_data h2 h3 -> same_data h1 h3.
Proof. intros H1 H2 y. by rewrite H2, H1. Qed.
Lemma same_data_at h h' n : same_data h h' -> is_Some (at_ n h) -> is_Some (at_ n h').
Proof. unfold at_. intros H. specialize (H n). rewrite !fmap_is_Some. rewrite <- (fmap_is_Some data), <- (fmap_is_Some data (h' !! n)). by rewrite H. Qed.

(** Every node an operation writes is there, and they differ: run it, and compare
    the links of each node with those it should have. *)
Ltac settle := repeat match goal with |- context [decide ?P] =>
  first [rewrite (decide_True (P := P)) by congruence | rewrite (decide_False (P := P)) by congruence] end.
Ltac same_links := cbn [fmap option_fmap option_map]; settle; try done; f_equal;
  repeat match goal with |- context [Build_links (parent ?k)] => is_var k; destruct k; cbn in * end; f_equal; congruence.
Ltac split_ends := rewrite ?last_mid, ?head_split, ?last_split, ?last_front in *; cbn [head] in *;
  repeat match goal with H : last _ = _ |- context [last _] => rewrite H in * | H : head _ = _ |- context [head _] => rewrite H in * end.
Ltac by_node y nodes := lazymatch nodes with
  | nil => at_simpl; match goal with |- at_ y ?h = _ => destruct (at_ y h) end; same_links
  | cons ?a ?l => destruct (decide (y = a)) as [->|?]; [at_simpl; same_links|by_node y l]
  end.
Ltac ran nodes :=
  eexists; repeat (split; [reflexivity|]); split;
  [ let y := fresh "y" in intros y; cbv [unlinked linked]; split_ends; by_node y nodes
  | intros y; by rewrite !data_alter ].

Section Ops.
Context (h : heap) (K : loc -> list loc) (OK : tree_ok h K).

Lemma place p c l1 l2 : K p = l1 ++ c :: l2 -> exists kp kc, at_ p h = Some kp /\ at_ c h = Some kc /\ p <> c /\
  parent kc = Some p /\ prev_sibling kc = last l1 /\ next_sibling kc = head l2 /\
  (forall a, last l1 = Some a -> exists ka, at_ a h = Some ka /\ a <> p /\ a <> c /\ next_sibling ka = Some c) /\
  (forall b, head l2 = Some b -> exists kb, at_ b h = Some kb /\ b <> p /\ b <> c /\ prev_sibling kb = Some c /\ last l1 <> Some b).
Proof.
  intros E. destruct (at_kid h K OK _ _ _ _ E) as (kc & E1 & E2 & E3 & E4).
  assert (c ∈ K p) as Hc by (rewrite E; set_solver +).
  destruct (has_links h K OK _ _ Hc) as [kp E0]. exists kp, kc.
  pose proof (no_self h K OK p) as Np. destruct (mid_nodup h K OK p c l1 l2 E) as (N1 & N2 & N).
  split_and!; try done; [by intros ->| |].
  - intros a Ea. apply last_Some in Ea as [m ->].
    destruct (at_kid h K OK p m a (c :: l2)) as (ka & A1 & A2 & A3 & A4); [by rewrite E, <- app_assoc|].
    exists ka. split_and!; try done; intros ->; [|set_solver]. apply Np. rewrite E. set_solver +.
  - intros b Eb. apply head_Some in Eb as [m ->].
    destruct (at_kid h K OK p (l1 ++ [c]) b m) as (kb & A1 & A2 & A3 & A4); [by rewrite E, <- app_assoc|].
    exists kb. rewrite last_snoc in A3. split_and!; try done; [intros ->|intros ->|].
    + apply Np. rewrite E. set_solver +.
    + set_solver.
    + intros H%last_elem. apply NoDup_app in N as (_ & N & _). apply (N _ H). set_solver +.
Qed.

Lemma detach_run p c l1 l2 : K p = l1 ++ c :: l2 ->
  exists h', ns_node_detach c h = Some h' /\ relinked (unlinked p c l1 l2) h h'.
Proof.
  intros E. destruct (place _ _ _ _ E) as (kp & kc & Ep & Ec & Ne & F1 & F2 & F3 & Fa & Fb).
  pose proof (ok_ends _ _ OK _ _ Ep) as [G1 G2]. rewrite E in G1, G2.
  unfold ns_node_detach. rewrite Ec. cbn [mbind option_bind]. rewrite F1, F2, F3.
  destruct (last l1) as [a|] eqn:La, (head l2) as [b|] eqn:Hb;
    try (destruct (Fa _ eq_refl) as (ka & A1 & A2 & A3 & A4)); try (destruct (Fb _ eq_refl) as (kb & B1 & B2 & B3 & B4 & B5)).
  - run. split_ends. ran [c; p; a; b].
  - run. split_ends. ran [c; p; a].
  - run. split_ends. ran [c; p; b].
  - run. split_ends. ran [c; p].
Qed.

(** The nodes around the place between [l1] and [l2]. *)
Lemma spot p c l1 l2 kp kc : K p = l1 ++ l2 -> at_ p h = Some kp -> at_ c h = Some kc -> parent kc = None -> c <> p ->
  (forall a, last l1 = Some a -> exists ka, at_ a h = Some ka /\ a <> p /\ a <> c /\ parent ka = Some p /\ next_sibling ka = head l2) /\
  (forall b, head l2 = Some b -> exists kb, at_ b h = Some kb /\ b <> p /\ b <> c /\ parent kb = Some p /\
     prev_sibling kb = last l1 /\ last l1 <> Some b).
Proof.
  intros E Ep Ec Hc Hn. pose proof (no_self h K OK p) as Np. pose proof (kids_nodup h K OK p) as N.
  assert (forall x, x ∈ K p -> x <> p /\ x <> c) as Ne.
  { intros x Hx. split; [by intros ->|intros ->]. apply (parent_edge h K OK _ _ _ Ec) in Hx. congruence. }
  split.
  - intros a Ea. destruct (Ne a) as [N1 N2]; [rewrite E; apply last_elem in Ea; set_solver|].
    apply last_Some in Ea as [m ->].
    destruct (at_kid h K OK p m a l2) as (ka & A1 & A2 & A3 & A4); [by rewrite E, <- app_assoc|]. by exists ka.
  - intros b Eb. destruct (Ne b) as [N1 N2]; [rewrite E; apply head_elem in Eb; set_solver|].
    apply head_Some in Eb as [m ->].
    destruct (at_kid h K OK p l1 b m E) as (kb & A1 & A2 & A3 & A4). exists kb. split_and!; try done.
    intros H%last_elem. rewrite E in N. apply NoDup_app in N as (_ & N & _). apply (N _ H). set_solver +.
Qed.

Ltac at_spot E Ep Ec Hc Hn := destruct (spot _ _ _ _ _ _ E Ep Ec Hc Hn) as [Fa Fb];
  pose proof (ok_ends _ _ OK _ _ Ep) as [G1 G2]; rewrite E in G1, G2.

Lemma link_before_run p c ref l1 l2 kp kc : K p = l1 ++ ref :: l2 -> at_ p h = Some kp -> at_ c h = Some kc ->
  parent kc = None -> c <> p ->
  exists h', link_before p ref c h = Some h' /\ relinked (linked p c l1 (ref :: l2)) h h'.
Proof.
  intros E Ep Ec Hc Hn. at_spot E Ep Ec Hc Hn. destruct (Fb _ eq_refl) as (kb & B1 & B2 & B3 & B4 & B5 & B6).
  unfold link_before. destruct (last l1) as [a|] eqn:La; [destruct (Fa _ eq_refl) as (ka & A1 & A2 & A3 & A4 & A5)|].
  - run. split_ends. ran [c; p; a; ref].
  - run. split_ends. ran [c; p; ref].
Qed.

Lemma append_run p c kp kc : at_ p h = Some kp -> at_ c h = Some kc -> parent kc = None -> c <> p ->
  exists h', ns_node_append_child p c h = Some h' /\ relinked (linked p c (K p) []) h h'.
Proof.
  intros Ep Ec Hc Hn. assert (K p = K p ++ []) as E by (by rewrite app_nil_r).
  destruct (spot _ _ _ _ _ _ E Ep Ec Hc Hn) as [Fa _]. pose proof (ok_ends _ _ OK _ _ Ep) as [G1 G2].
  destruct (ok_orphan _ _ OK _ _ Ec Hc) as [O1 O2].
  unfold ns_node_append_child, ns_node_detach. rewrite Ec. cbn [mbind option_bind]. rewrite Hc.
  destruct (last (K p)) as [a|] eqn:La; [destruct (Fa _ eq_refl) as (ka & A1 & A2 & A3 & A4 & A5)|].
  - run. split_ends. ran [c; p; a].
  - run. split_ends. ran [c; p].
Qed.

Lemma first_run p c kp kc : at_ p h = Some kp -> at_ c h = Some kc -> parent kc = None -> c <> p ->
  exists h', insert_first p c h = Some h' /\ relinked (linked p c [] (K p)) h h'.
Proof.
  intros Ep Ec Hc Hn. assert (K p = [] ++ K p) as E by done.
  destruct (spot _ _ _ _ _ _ E Ep Ec Hc Hn) as [_ Fb]. pose proof (ok_ends _ _ OK _ _ Ep) as [G1 G2].
  unfold insert_first, ns_node_remove, ns_node_detach. rewrite Ec. cbn [mbind option_bind]. rewrite Hc.
  destruct (head (K p)) as [b|] eqn:Hb; [destruct (Fb _ eq_refl) as (kb & B1 & B2 & B3 & B4 & B5 & B6)|].
  - run. split_ends. ran [c; p; b].
  - run. split_ends. ran [c; p].
Qed.

Lemma remove_free c kc : at_ c h = Some kc -> parent kc = None -> remove_if_linked c h = Some h.
Proof. intros Ec Hc. unfold remove_if_linked. rewrite Ec. cbn. by rewrite Hc. Qed.

(** [c] linked behind the node before it. *)
Lemma after_run p c ref l1 l2 kp kc : K p = (l1 ++ [ref]) ++ l2 -> at_ p h = Some kp -> at_ c h = Some kc ->
  parent kc = None -> c <> p ->
  exists h', ns_insert_sibling_after ref c h = Some h' /\ link_split ref c h = Some h' /\
    relinked (linked p c (l1 ++ [ref]) l2) h h'.
Proof.
  intros E Ep Ec Hc Hn. at_spot E Ep Ec Hc Hn. rewrite last_snoc in Fa.
  destruct (Fa _ eq_refl) as (ka & A1 & A2 & A3 & A4 & A5).
  unfold ns_insert_sibling_after, link_split. rewrite (remove_free c kc) by done. rewrite A1. cbn [mbind option_bind].
  rewrite A4, decide_False by done.
  destruct (head l2) as [b|] eqn:Hb; [destruct (Fb _ eq_refl) as (kb & B1 & B2 & B3 & B4 & B5 & B6)|].
  - rewrite last_snoc in B6. run. split_ends. ran [c; p; ref; b].
  - run. split_ends. ran [c; p; ref].
Qed.

Lemma replace_run p c old l1 l2 kp kc : K p = l1 ++ old :: l2 -> at_ p h = Some kp -> at_ c h = Some kc ->
  parent kc = None -> c <> p ->
  exists h', replace_links p c old h = Some h' /\
    relinked (fun y k => unlinked p old (l1 ++ [c]) l2 y (linked p c l1 (old :: l2) y k)) h h'.
Proof.
  intros E Ep Ec Hc Hn. at_spot E Ep Ec Hc Hn. destruct (Fb _ eq_refl) as (ko & O1 & O2 & O3 & O4 & O5 & O6).
  destruct (at_kid h K OK _ _ _ _ E) as (ko' & O1' & _ & _ & O7). rewrite O1 in O1'. injection O1' as <-.
  destruct (place _ _ _ _ E) as (_ & _ & _ & _ & _ & _ & _ & _ & _ & Fb').
  assert (c <> old) as Co by congruence.
  assert (forall b, head l2 = Some b -> b <> c) as Nb.
  { intros b Hb ->. assert (c ∈ K p) as Hk by (rewrite E; apply head_elem in Hb; set_solver).
    apply (parent_edge h K OK _ _ _ Ec) in Hk. congruence. }
  unfold replace_links. rewrite (remove_free c kc) by done.
  destruct (last l1) as [a|] eqn:La; [destruct (Fa _ eq_refl) as (ka & A1 & A2 & A3 & A4 & A5)|];
  (destruct (head l2) as [b|] eqn:Hb;
    [destruct (Fb' _ eq_refl) as (kb & B1 & B2 & B3 & B4 & B5); pose proof (Nb _ eq_refl)|]).
  - run. split_ends. ran [c; p; old; a; b].
  - run. split_ends. ran [c; p; old; a].
  - run. split_ends. ran [c; p; old; b].
  - run. split_ends. ran [c; p; old].
Qed.
End Ops.

(** ** What the operations do to the tree *)

(** [K] with [c] in no list of children. *)
Definition without (c : loc) (K : loc -> list loc) (n : loc) : list loc := filter (fun x => x <> c) (K n).

Lemma without_absent c (l : list loc) : c ∉ l -> filter (fun x => x <> c) l = l.
Proof.
  induction l as [|x l IH]; [done|]. intros [H1 H2]%not_elem_of_cons.
  rewrite filter_cons_True by congruence. by rewrite IH.
Qed.
Lemma without_edge c K x y : edge (without c K) x y -> edge K x y.
Proof. unfold edge, without. rewrite list_elem_of_filter. tauto. Qed.
Lemma without_below c K x y : rtc (edge (without c K)) x y -> rtc (edge K) x y.
Proof. induction 1 as [|x y z H _ IH]; [apply rtc_refl|]. eapply rtc_l; [by eapply without_edge|done]. Qed.
Lemma without_split c (l1 l2 : list loc) : NoDup (l1 ++ c :: l2) -> filter (fun x => x <> c) (l1 ++ c :: l2) = l1 ++ l2.
Proof.
  intros (N1 & N2 & N3)%NoDup_app. apply NoDup_cons in N3 as [N3 _].
  rewrite filter_app, filter_cons_False by (intros H; by apply H).
  rewrite !without_absent; [done|done|]. intros H. apply (N2 _ H). set_solver +.
Qed.
Lemma filter_around c x (l1 l2 : list loc) : x <> c ->
  filter (fun y => y <> c) (l1 ++ x :: l2) = filter (fun y => y <> c) l1 ++ x :: filter (fun y => y <> c) l2.
Proof. intros H. by rewrite filter_app, filter_cons_True. Qed.

(** The node put next to one of a list of children, or in its stead. *)
Fixpoint before (ref c : loc) (l : list loc) : list loc :=
  match l with [] => [] | x :: l' => if decide (x = ref) then c :: x :: l' else x :: before ref c l' end.
Fixpoint after (ref c : loc) (l : list loc) : list loc :=
  match l with [] => [] | x :: l' => if decide (x = ref) then x :: c :: l' else x :: after ref c l' end.
Fixpoint instead (old c : loc) (l : list loc) : list loc :=
  match l with [] => [] | x :: l' => if decide (x = old) then c :: l' else x :: instead old c l' end.

Lemma next_to ref c l1 l2 : ref ∉ l1 -> before ref c (l1 ++ ref :: l2) = l1 ++ c :: ref :: l2 /\
  after ref c (l1 ++ ref :: l2) = l1 ++ ref :: c :: l2 /\ instead ref c (l1 ++ ref :: l2) = l1 ++ c :: l2.
Proof.
  induction l1 as [|x l1 IH]; cbn; intros H.
  - by rewrite !decide_True.
  - apply not_elem_of_cons in H as [H1 H2]. destruct (IH H2) as (-> & -> & ->). by rewrite !decide_False by congruence.
Qed.

(** [c] taken from where it is and put among the children of [p] by [f]. *)
Definition put (c p : loc) (f : list loc -> list loc) (K : loc -> list loc) : loc -> list loc :=
  <[p := f (without c K p)]> (without c K).

(** The new heap [h'] holds the tree [K'], and the nodes of [h] with their data. *)
Definition becomes (h : heap) (K' : loc -> list loc) (h' : heap) : Prop := tree_ok h' K' /\ same_data h h'.

Section Spec.
Context (h : heap) (K : loc -> list loc) (OK : tree_ok h K).

Lemma free_absent c kc n : at_ c h = Some kc -> parent kc = None -> c ∉ K n.
Proof. intros E Hc H. apply (parent_edge h K OK _ _ _ E) in H. congruence. Qed.

(** Taking a node from its place. *)
Lemma detach_ok c : is_Some (at_ c h) ->
  exists h', ns_node_detach c h = Some h' /\ becomes h (without c K) h' /\
    (exists k, at_ c h' = Some k /\ parent k = None).
Proof.
  intros [kc Ec]. destruct (parent kc) as [p|] eqn:Hp.
  - assert (c ∈ K p) as Hk by by apply (parent_edge h K OK _ _ _ Ec).
    apply list_elem_of_split in Hk as (l1 & l2 & E).
    destruct (detach_run h K OK p c l1 l2 E) as (h' & -> & [R1 R2]). exists h'. split; [done|]. split; [split; [|done]|].
    + apply (tree_ok_ext _ (<[p := l1 ++ l2]> K)); [|by eapply unlink_ok].
      intros n. unfold without. destruct (decide (n = p)) as [->|Hn].
      * rewrite fn_lookup_insert, E, without_split; [done|]. rewrite <- E. by apply (kids_nodup h K OK).
      * rewrite fn_lookup_insert_ne, without_absent; [done| |done].
        intros H. apply Hn. apply (one_parent h K OK c); [done|]. rewrite E. set_solver +.
    + rewrite R1, Ec. eexists; split; [done|]. cbn. by rewrite decide_True.
  - exists h. unfold ns_node_detach. rewrite Ec. cbn. rewrite Hp. split; [done|]. split; [split; [|done]|eauto].
    apply (tree_ok_ext _ K); [|done]. intros n. unfold without. rewrite without_absent; [done|].
    by apply (free_absent _ kc).
Qed.

Lemma remove_if_linked_detach c : is_Some (at_ c h) -> remove_if_linked c h = ns_node_detach c h.
Proof.
  intros [k E]. unfold remove_if_linked, ns_node_remove, ns_node_detach. rewrite E. cbn. by destruct (parent k).
Qed.
End Spec.

Section Moves.
Context (h : heap) (K : loc -> list loc) (OK : tree_ok h K) (p c : loc).
Context (Hp : is_Some (at_ p h)) (Hc : is_Some (at_ c h)) (Below : ~ rtc (edge K) c p).

Lemma below_ne : c <> p.
Proof. intros ->. apply Below, rtc_refl. Qed.

(** The heap with [c] taken away, and what a link of it there gives. *)
Lemma detached : exists h1 kp kc, ns_node_detach c h = Some h1 /\ remove_if_linked c h = Some h1 /\
  becomes h (without c K) h1 /\ at_ p h1 = Some kp /\ at_ c h1 = Some kc /\ parent kc = None /\
  ns_node_detach c h1 = Some h1 /\ remove_if_linked c h1 = Some h1 /\
  (forall l1 l2 h2, without c K p = l1 ++ l2 -> relinked (linked p c l1 l2) h1 h2 ->
     becomes h (<[p := l1 ++ c :: l2]> (without c K)) h2).
Proof.
  destruct (detach_ok h K OK c Hc) as (h1 & E1 & [T1 D1] & kc & Ec & Fc).
  destruct (same_data_at _ _ _ D1 Hp) as [kp Ep]. exists h1, kp, kc.
  assert (ns_node_detach c h1 = Some h1) as E2 by (unfold ns_node_detach; rewrite Ec; cbn; by rewrite Fc).
  split_and!; try done; [by rewrite remove_if_linked_detach|by rewrite remove_if_linked_detach|].
  intros l1 l2 h2 E [R1 R2]. split; [|by eapply same_data_trans].
  apply (link_ok h1 h2 _ T1 p c l1 l2 E kp kc Ep Ec Fc); [|done].
  intros H%without_below. by apply Below.
Qed.

(** The children of [p] around one that is not [c]. *)
Lemma around ref : ref ∈ K p -> ref <> c -> exists l1 l2, without c K p = l1 ++ ref :: l2 /\ ref ∉ l1.
Proof.
  intros H Hn. pose proof (kids_nodup h K OK p) as N. apply list_elem_of_split in H as (l1 & l2 & E).
  unfold without. rewrite E in N |- *. exists (filter (fun x => x <> c) l1), (filter (fun x => x <> c) l2).
  split; [by apply filter_around|]. rewrite list_elem_of_filter. intros [_ H]. apply NoDup_app in N as (_ & N & _).
  apply (N _ H). set_solver +.
Qed.

Lemma append_child_ok : exists h', ns_node_append_child p c h = Some h' /\ becomes h (put c p (fun l => l ++ [c]) K) h'.
Proof.
  destruct detached as (h1 & kp & kc & E1 & _ & [T1 D1] & Ep & Ec & Fc & E2 & _ & L).
  destruct (append_run h1 _ T1 p c kp kc Ep Ec Fc below_ne) as (h2 & E3 & R).
  exists h2. split; [|apply (L _ []); [by rewrite app_nil_r|done]].
  unfold ns_node_append_child in *. destruct Hp as [k0 E0]. rewrite E0, E1. rewrite Ep, E2 in E3. exact E3.
Qed.

Lemma insert_first_ok : exists h', insert_first p c h = Some h' /\ becomes h (put c p (cons c) K) h'.
Proof.
  destruct detached as (h1 & kp & kc & E1 & _ & [T1 D1] & Ep & Ec & Fc & E2 & _ & L).
  destruct (first_run h1 _ T1 p c kp kc Ep Ec Fc below_ne) as (h2 & E3 & R).
  exists h2. split; [|by apply (L [])].
  unfold insert_first, ns_node_remove in *. rewrite E1. rewrite E2 in E3. exact E3.
Qed.

Lemma link_before_ok ref : ref ∈ K p -> ref <> c ->
  exists h1 h', remove_if_linked c h = Some h1 /\ becomes h (without c K) h1 /\ link_before p ref c h1 = Some h' /\
    ns_insert_sibling_before ref c h = Some h' /\ becomes h (put c p (before ref c) K) h'.
Proof.
  intros Hr Hn. destruct detached as (h1 & kp & kc & _ & E1 & [T1 D1] & Ep & Ec & Fc & _ & E2 & L).
  destruct (around ref Hr Hn) as (l1 & l2 & E & N).
  destruct (link_before_run h1 _ T1 p c ref l1 l2 kp kc E Ep Ec Fc below_ne) as (h2 & E3 & R).
  destruct (at_kid h1 _ T1 _ _ _ _ E) as (kr & Er & Pr & _).
  destruct (kid_linked h K OK p ref Hr) as (k0 & E0 & P0).
  exists h1, h2. unfold ns_insert_sibling_before, put.
  rewrite E0. cbn [mbind option_bind]. rewrite P0, decide_False by done.
  rewrite E1. cbn [mbind option_bind]. rewrite Er. cbn [mbind option_bind]. rewrite Pr.
  split_and!; try done. rewrite E. rewrite (proj1 (next_to ref c l1 l2 N)). by apply L.
Qed.

Lemma insert_sibling_after_ok ref : ref ∈ K p -> ref <> c ->
  exists h', ns_insert_sibling_after ref c h = Some h' /\ becomes h (put c p (after ref c) K) h'.
Proof.
  intros Hr Hn. destruct detached as (h1 & kp & kc & _ & E1 & [T1 D1] & Ep & Ec & Fc & _ & E2 & L).
  destruct (around ref Hr Hn) as (l1 & l2 & E & N).
  destruct (after_run h1 _ T1 p c ref l1 l2 kp kc ltac:(by rewrite E, <- app_assoc) Ep Ec Fc below_ne) as (h2 & E3 & _ & R).
  destruct (at_kid h1 _ T1 _ _ _ _ E) as (kr & Er & Pr & _).
  destruct (kid_linked h K OK p ref Hr) as (k0 & E0 & P0).
  exists h2. split.
  - unfold ns_insert_sibling_after in *. rewrite E0. cbn [mbind option_bind]. rewrite P0, decide_False by done.
    rewrite E1. rewrite Er in E3. cbn [mbind option_bind] in *. rewrite Pr, decide_False, E2 in E3 by done. exact E3.
  - unfold put. rewrite E. rewrite (proj1 (proj2 (next_to ref c l1 l2 N))).
    apply (L (l1 ++ [ref]) l2) in R; [|by rewrite E, <- app_assoc]. by rewrite <- app_assoc in R.
Qed.

Lemma replace_links_ok old : old ∈ K p -> old <> c ->
  exists h', replace_links p c old h = Some h' /\ becomes h (put c p (instead old c) K) h'.
Proof.
  intros Hr Hn. destruct detached as (h1 & kp & kc & _ & E1 & [T1 D1] & Ep & Ec & Fc & _ & E2 & L).
  destruct (around old Hr Hn) as (l1 & l2 & E & N).
  destruct (link_before_run h1 _ T1 p c old l1 l2 kp kc E Ep Ec Fc below_ne) as (hx & _ & Rx).
  destruct (replace_run h1 _ T1 p c old l1 l2 kp kc E Ep Ec Fc below_ne) as (h2 & E3 & R).
  exists h2. split; [|split; [|exact (same_data_trans h h1 h2 D1 (re_data _ _ _ R))]].
  { unfold replace_links in *. rewrite E1. rewrite E2 in E3. exact E3. }
  destruct (L _ _ _ E Rx) as [Tx _].
  assert (<[p := l1 ++ c :: old :: l2]> (without c K) p = (l1 ++ [c]) ++ old :: l2) as Ex
    by (by rewrite fn_lookup_insert, <- app_assoc).
  eapply tree_ok_ext; [|apply (unlink_ok hx h2 _ Tx p old (l1 ++ [c]) l2 Ex)].
  - intros n. unfold put. rewrite E, (proj2 (proj2 (next_to old c l1 l2 N))), <- app_assoc.
    destruct (decide (n = p)) as [->|]; [by rewrite !fn_lookup_insert|by rewrite !fn_lookup_insert_ne].
  - intros y. rewrite (re_links _ _ _ R), (re_links _ _ _ Rx). by destruct (at_ y h1).
Qed.

Lemma link_split_ok n kc : n ∈ K p -> at_ c h = Some kc -> parent kc = None ->
  exists h', link_split n c h = Some h' /\ becomes h (put c p (after n c) K) h'.
Proof.
  intros Hr Ec Fc. assert (n <> c) as Hn.
  { intros ->. apply (parent_edge h K OK _ _ _ Ec) in Hr. congruence. }
  destruct detached as (h1 & kp & kc' & E1 & _ & [T1 D1] & Ep & Ec' & _ & _ & E2 & L).
  assert (h1 = h) as -> by (unfold ns_node_detach in E1; rewrite Ec in E1; cbn in E1; rewrite Fc in E1; congruence).
  destruct (around n Hr Hn) as (l1 & l2 & E & N).
  destruct (after_run h _ T1 p c n l1 l2 kp kc ltac:(by rewrite E, <- app_assoc) Ep Ec Fc below_ne) as (h2 & _ & E3 & R).
  exists h2. split; [done|].
  unfold put. rewrite E, (proj1 (proj2 (next_to n c l1 l2 N))).
  apply (L (l1 ++ [n]) l2) in R; [|by rewrite E, <- app_assoc]. by rewrite <- app_assoc in R.
Qed.
End Moves.

(** ** Walks end *)

Section Walks.
Context (h : heap) (K : loc -> list loc) (OK : tree_ok h K).

Lemma seen_bound (seen : list loc) : NoDup seen -> (forall x, x ∈ seen -> is_Some (h !! x)) -> length seen <= size h.
Proof.
  intros N H. rewrite <- (size_list_to_set (C := gset loc) seen N), <- (size_dom (D := gset loc)).
  apply subseteq_size. intros x. rewrite elem_of_list_to_set, elem_of_dom. apply H.
Qed.
Lemma at_is_some n : is_Some (at_ n h) <-> is_Some (h !! n).
Proof. unfold at_. by rewrite fmap_is_Some. Qed.

(** The nodes a walk up the tree has left behind are below the one it is at. *)
Definition climbed (seen : list loc) (n : loc) : Prop :=
  NoDup seen /\ (forall x, x ∈ seen -> is_Some (h !! x) /\ tc (edge K) n x).

Lemma climbed_step seen n k p : climbed seen n -> at_ n h = Some k -> parent k = Some p -> climbed (n :: seen) p.
Proof.
  intros [N H] E Hp. assert (edge K p n) as Ed by by apply (parent_edge h K OK _ _ _ E). split.
  - constructor; [|done]. intros Hn. by apply (ok_acyclic _ _ OK n), H.
  - intros x [->|Hx]%elem_of_cons; [split; [apply at_is_some; eauto|by apply tc_once]|].
    destruct (H x Hx). split; [done|by eapply tc_l].
Qed.
Lemma climbed_length seen n : climbed seen n -> is_Some (h !! n) -> length seen < size h.
Proof.
  intros [N H] Hn. enough (length (n :: seen) <= size h) by (cbn in *; lia).
  apply seen_bound; [|intros x [->|Hx]%elem_of_cons; [done|by apply H]].
  constructor; [|done]. intros Hx. by apply (ok_acyclic _ _ OK n), H.
Qed.

Lemma contains_loop_ok fuel : forall seen a n, climbed seen n -> is_Some (h !! n) -> size h <= length seen + fuel ->
  exists b, contains_loop fuel a (Some n) h = Some b /\ (b = true <-> rtc (edge K) a n).
Proof.
  induction fuel as [|fuel IH]; intros seen a n C Hn Hf.
  - pose proof (climbed_length _ _ C Hn). lia.
  - cbn. destruct (decide (n = a)) as [->|Ha]; [exists true; split; [done|]; split; [intros; apply rtc_refl|done]|].
    destruct Hn as [d Hd]. unfold at_ at 1. rewrite Hd. cbn.
    assert (at_ n h = Some (lk d)) as En by (unfold at_; by rewrite Hd).
    destruct (parent (lk d)) as [p|] eqn:Hp.
    + assert (edge K p n) as Ed by by apply (parent_edge h K OK _ _ _ En).
      destruct (IH (n :: seen) a p) as (b & E & Hb); [by eapply climbed_step| |cbn; lia|].
      { apply at_is_some. by destruct (has_links h K OK p n Ed) as [? ->]. }
      exists b. split; [done|]. rewrite Hb. split; intros H; [by eapply rtc_r|].
      apply rtc_inv_r in H as [->|(q & H & Hq)]; [done|]. by rewrite (one_parent h K OK n p q).
    + exists false. split; [by destruct fuel|]. split; [done|]. intros H.
      apply rtc_inv_r in H as [->|(q & H & Hq)]; [done|].
      apply (parent_edge h K OK _ _ _ En) in Hq. congruence.
Qed.

Lemma contains_ok a n : is_Some (at_ n h) ->
  exists b, ns_node_contains a n h = Some b /\ (b = true <-> rtc (edge K) a n).
Proof.
  intros Hn. apply (contains_loop_ok _ []); [|by apply at_is_some|cbn; lia].
  split; [constructor|]. intros x Hx. by apply not_elem_of_nil in Hx.
Qed.

Lemma root_loop_ok fuel : forall seen n, climbed seen n -> is_Some (h !! n) -> size h <= length seen + fuel ->
  exists r k, root_loop fuel n h = Some r /\ rtc (edge K) r n /\ at_ r h = Some k /\ parent k = None.
Proof.
  induction fuel as [|fuel IH]; intros seen n C Hn Hf.
  - pose proof (climbed_length _ _ C Hn). lia.
  - cbn. destruct Hn as [d Hd]. assert (at_ n h = Some (lk d)) as En by (unfold at_; by rewrite Hd).
    rewrite En. cbn. destruct (parent (lk d)) as [p|] eqn:Hp; [|exists n, (lk d); split_and!; try done; apply rtc_refl].
    assert (edge K p n) as Ed by by apply (parent_edge h K OK _ _ _ En).
    destruct (IH (n :: seen) p) as (r & k & E & H & ?); [by eapply climbed_step| |cbn; lia|].
    { apply at_is_some. by destruct (has_links h K OK p n Ed) as [? ->]. }
    exists r, k. split; [done|]. split; [by eapply rtc_r|done].
Qed.

Lemma root_ok n : is_Some (at_ n h) ->
  exists r k, ns_node_root n h = Some r /\ rtc (edge K) r n /\ at_ r h = Some k /\ parent k = None.
Proof.
  intros Hn. apply (root_loop_ok _ []); [|by apply at_is_some|cbn; lia].
  split; [constructor|]. intros x Hx. by apply not_elem_of_nil in Hx.
Qed.
End Walks.
