(* ===== verification/Dom.v ===== *)
(** * Methods that move nodes ([src/js.c])

    What [appendChild], [insertBefore], [replaceChild], [removeChild],
    [moveBefore], [insertAdjacentElement], [append], [prepend], [before], [after]
    and [replaceWith] do to the tree: the checks that throw, the writes, and the
    calls into the rest of the browser, which are events; those at which code of the
    page runs are handed to a [Host]. The
    engine's own work (unwrapping the arguments, the wrappers that are returned) is
    left out: a method here is given nodes, and the texts of arguments that are
    none. *)

From stdpp Require Import functions.
From S2P Require Import Prelude CStr GLib Xml DomStore.

(** ** State

    [orphan_nodes] holds the nodes the scripts' side owns. *)
Record page := { hp : heap; orphan_nodes : gset loc; mutated : bool }.

Definition on_heap (f : heap -> option heap) (d : page) : option page :=
  h ← f (hp d); Some {| hp := h; orphan_nodes := orphan_nodes d; mutated := mutated d |}.
Definition orphan (n : loc) (d : page) : page :=
  {| hp := hp d; orphan_nodes := {[ n ]} ∪ orphan_nodes d; mutated := mutated d |}.
Definition adopt (n : loc) (d : page) : page :=
  {| hp := hp d; orphan_nodes := orphan_nodes d ∖ {[ n ]}; mutated := mutated d |}.
Definition mutate (d : page) : page := {| hp := hp d; orphan_nodes := orphan_nodes d; mutated := true |}.

(** What a method tells the rest of the browser: the node iterators, the records of
    mutation observers and the indexes of the document; and, with [Disconnect] and
    [Activate], the callbacks of the page's custom elements and the scripts of nodes
    that came into the document. *)
Inductive event :=
| PreRemove (n : loc)
| Disconnect (n : loc)
| MoveRemoval (n : loc)
| FragmentEmptied (n : loc)
| ChildChange (par : loc) (added removed prev next : option loc)
| IndexChange (par : loc) (added removed : option loc)
| ChildrenMoved (par : loc) (added removed : list loc) (prev next : option loc)
| Activate (n : loc).

(** The events at which the page's own code runs; the others write no link. *)
Definition runs_scripts (e : event) : bool :=
  match e with Disconnect _ | Activate _ => true | _ => false end.

(** What that code does to the nodes. *)
Class Host := host : event -> heap -> option heap.

Definition DOMException : Type := bytes * Z * bytes.
Inductive reply := Returned (n : option loc) | Thrown (e : DOMException).
Definition hierarchy (msg : bytes) : DOMException := ($"HierarchyRequestError", 3%Z, msg).
Definition not_found (msg : bytes) : DOMException := ($"NotFoundError", 8%Z, msg).
Definition syntax (msg : bytes) : DOMException := ($"SyntaxError", 12%Z, msg).

(** An argument of a method with a list of nodes: one, or the text of another
    value. *)
Inductive nodearg := ANode (n : loc) | AText (t : bytes).

(** ** Looking at nodes *)

Definition node_kind (n : loc) (h : heap) : option ns_node_kind := (fun d => n_kind (data d)) <$> h !! n.
Definition node_flag (n : loc) (b : Z) (h : heap) : option bool := (fun d => has_flag (n_flags (data d)) b) <$> h !! n.
#[global] Instance kind_eq_dec : EqDecision ns_node_kind.
Proof. solve_decision. Defined.

Definition parent_is_doc (n : loc) (h : heap) : option bool :=
  k ← node_kind n h; f ← node_flag n NS_NODE_FRAGMENT_BIT h;
  Some (bool_decide (k = NS_NODE_DOCUMENT) && negb f).
Definition is_fragment (n : loc) (h : heap) : option bool :=
  k ← node_kind n h; f ← node_flag n NS_NODE_FRAGMENT_BIT h;
  Some (bool_decide (k = NS_NODE_DOCUMENT) && f).
(** [n->kind == NS_NODE_DOCUMENT && !n->parent]. *)
Definition unparented_doc (n : loc) (h : heap) : option bool :=
  k ← node_kind n h; l ← at_ n h;
  Some (bool_decide (k = NS_NODE_DOCUMENT) && match parent l with None => true | Some _ => false end).
(** [c && c->parent == par]. *)
Definition is_child (par : loc) (c : option loc) (h : heap) : option bool :=
  match c with None => Some false | Some c => l ← at_ c h; Some (bool_decide (parent l = Some par)) end.

(** [for (c = ...; c; c = c->next_sibling) if (...) return TRUE;] *)
Fixpoint any_loop (step : links -> option loc) (p : loc -> heap -> option bool) (fuel : nat) (c : option loc) (h : heap) : option bool :=
  match c with
  | None => Some false
  | Some n =>
      match fuel with
      | O => None
      | S f => b ← p n h; if (b : bool) then Some true else l ← at_ n h; any_loop step p f (step l) h
      end
  end.
Definition any_from step p (c : option loc) (h : heap) : option bool := any_loop step p (S (size h)) c h.
Definition has_kind (k : ns_node_kind) (n : loc) (h : heap) : option bool :=
  k' ← node_kind n h; Some (bool_decide (k' = k)).

Definition ns_node_has_child_kind (p : loc) (k : ns_node_kind) (h : heap) : option bool :=
  l ← at_ p h; any_from next_sibling (has_kind k) (first_child l) h.
Definition ns_node_has_child_kind_other (p : loc) (k : ns_node_kind) (except : option loc) (h : heap) : option bool :=
  l ← at_ p h;
  any_from next_sibling (fun c h => b ← has_kind k c h; Some (b && bool_decide (Some c <> except))) (first_child l) h.
Definition ns_node_doctype_follows (c : loc) (h : heap) : option bool :=
  l ← at_ c h; any_from next_sibling (has_kind NS_NODE_DOCTYPE) (next_sibling l) h.
Definition ns_node_element_precedes (c : loc) (h : heap) : option bool :=
  l ← at_ c h; any_from prev_sibling (has_kind NS_NODE_ELEMENT) (prev_sibling l) h.

(** The elements among the siblings from [c] on, and whether there is a text. *)
Fixpoint count_loop (fuel : nat) (c : option loc) (elems : nat) (text : bool) (h : heap) : option (nat * bool) :=
  match c with
  | None => Some (elems, text)
  | Some n =>
      match fuel with
      | O => None
      | S f =>
          k ← node_kind n h; l ← at_ n h;
          match k with
          | NS_NODE_ELEMENT => count_loop f (next_sibling l) (S elems) text h
          | NS_NODE_TEXT => count_loop f (next_sibling l) elems true h
          | _ => count_loop f (next_sibling l) elems text h
          end
      end
  end.
Definition count_children (n : loc) (h : heap) : option (nat * bool) :=
  l ← at_ n h; count_loop (S (size h)) (first_child l) 0 false h.

Definition is_element_named (n : loc) (tag : bytes) (h : heap) : option bool :=
  (fun d => bool_decide (n_kind (data d) = NS_NODE_ELEMENT) &&
            match n_name (data d) with Some nm => nm =b tag | None => false end) <$> h !! n.
Definition ns_node_in_template_content (n : loc) (h : heap) : option bool :=
  any_from parent (fun p h => f ← node_flag p NS_NODE_TEMPLATE_CONTENT_BIT h;
    t ← is_element_named p ($"template") h; Some (f || t)) (Some n) h.

(** ** The checks *)

(** The rules that differ between an insertion and a replacement: whether [par]
    has a child of a kind, whether a doctype follows the place and an element is
    before it. *)
Definition document_rules (elem_there doctype_after doctype_there elem_before : heap -> option bool) (node : loc) (h : heap) :
    option (option DOMException) :=
  k ← node_kind node h; f ← is_fragment node h;
  if (f : bool) then
    '(elems, text) ← count_children node h;
    if text || (2 <=? elems)%nat then Some (Some (hierarchy ($"invalid fragment contents for a document")))
    else if (elems =? 1)%nat then
      a ← elem_there h; b ← (if (a : bool) then Some true else doctype_after h);
      Some (if (b : bool) then Some (hierarchy ($"document may have only one element child")) else None)
    else Some None
  else match k with
  | NS_NODE_ELEMENT =>
      a ← elem_there h; b ← (if (a : bool) then Some true else doctype_after h);
      Some (if (b : bool) then Some (hierarchy ($"document may have only one element child")) else None)
  | NS_NODE_DOCTYPE =>
      a ← doctype_there h; b ← (if (a : bool) then Some true else elem_before h);
      Some (if (b : bool) then Some (hierarchy ($"doctype must precede the document element")) else None)
  | _ => Some None
  end.

(** The checks before those rules; [placed] is the one on the reference child. *)
Definition tree_rules (par node : loc) (placed : heap -> option (option DOMException)) (h : heap) : option (option DOMException) :=
  k ← node_kind par h; doc ← parent_is_doc par h; frag ← is_fragment par h;
  if negb (doc || frag || bool_decide (k = NS_NODE_ELEMENT)) then
    Some (Some (hierarchy ($"parent node cannot have children")))
  else
    anc ← ns_node_ancestor_or_self par node h;
    if (anc : bool) then Some (Some (hierarchy ($"the new child is an inclusive ancestor of the parent")))
    else
      e ← placed h;
      match e with
      | Some e => Some (Some e)
      | None =>
          ndoc ← parent_is_doc node h; nk ← node_kind node h;
          Some (if (ndoc : bool) then Some (hierarchy ($"a Document cannot be inserted"))
                else if (bool_decide (nk = NS_NODE_TEXT) && doc) || (bool_decide (nk = NS_NODE_DOCTYPE) && negb doc)
                then Some (hierarchy ($"invalid node type for this parent")) else None)
      end.

Definition ns_pre_insert_validity (par node : loc) (child : option loc) (child_is_null : bool) (h : heap) :
    option (option DOMException) :=
  e ← tree_rules par node (fun h => c ← is_child par child h;
    Some (if negb child_is_null && negb c
          then Some (not_found ($"the reference child is not a child of this node")) else None)) h;
  doc ← parent_is_doc par h;
  match e with
  | Some e => Some (Some e)
  | None =>
      if negb doc then Some None
      else
        let place := if child_is_null then None else child in
        document_rules (ns_node_has_child_kind par NS_NODE_ELEMENT)
          (fun h => match place with
            | None => Some false
            | Some c => k ← node_kind c h; if decide (k = NS_NODE_DOCTYPE) then Some true else ns_node_doctype_follows c h
            end)
          (ns_node_has_child_kind par NS_NODE_DOCTYPE)
          (fun h => match place with
            | Some c => ns_node_element_precedes c h
            | None => if child_is_null then ns_node_has_child_kind par NS_NODE_ELEMENT h else Some false
            end) node h
  end.

Definition ns_pre_replace_validity (par node child : loc) (h : heap) : option (option DOMException) :=
  e ← tree_rules par node (fun h => c ← is_child par (Some child) h;
    Some (if negb c then Some (not_found ($"the child to replace is not a child of this node")) else None)) h;
  doc ← parent_is_doc par h;
  match e with
  | Some e => Some (Some e)
  | None =>
      if negb doc then Some None
      else document_rules (ns_node_has_child_kind_other par NS_NODE_ELEMENT (Some child)) (ns_node_doctype_follows child)
             (ns_node_has_child_kind_other par NS_NODE_DOCTYPE (Some child)) (ns_node_element_precedes child) node h
  end.

(** ** One node at a time *)

Section Methods.
Context {G : GLib} {H : Host}.

Definition tell (e : event) (d : page) : option page :=
  if runs_scripts e then on_heap (host e) d else Some d.
Definition links_of (n : loc) (d : page) : option links := at_ n (hp d).
(** [ns_js_record_child_change(_j, par, n, NULL, n->prev_sibling, n->next_sibling)] *)
Definition record_added (par n : loc) (d : page) : option page :=
  l ← links_of n d; tell (ChildChange par (Some n) None (prev_sibling l) (next_sibling l)) d.

(** The children of a fragment, in turn, out of it and into [par] by [place]:
    [while (c) { next = c->next_sibling; ... c = next; }]. Gives the nodes moved. *)
Fixpoint empty_loop (place : loc -> page -> option page) (fuel : nat) (c : option loc) (moved : list loc) (d : page) :
    option (list loc * page) :=
  match c with
  | None => Some (moved, d)
  | Some n =>
      match fuel with
      | O => None
      | S f => l ← links_of n d; let next := next_sibling l in
               d ← place n d; empty_loop place f next (moved ++ [n]) d
      end
  end.
Definition empty_into (place : loc -> page -> option page) (frag : loc) (d : page) : option (list loc * page) :=
  l ← links_of frag d; empty_loop place (S (size (hp d))) (first_child l) [] d.

Definition ns_element_insert_before_single (par newc ref : loc) (d : page) : option page :=
  if decide (newc = ref) then Some d
  else
    l ← links_of newc d;
    d ← (match parent l with Some _ => tell (PreRemove newc) d | None => Some d end);
    d ← on_heap (remove_if_linked newc) d;
    on_heap (link_before par ref newc) (adopt newc d).

(** [c] goes to the end of [par], or before [ref] when that is still a child. *)
Definition place_child (par : loc) (ref : option loc) (c : loc) (d : page) : option page :=
  b ← is_child par ref (hp d);
  match ref, b with
  | Some r, true => ns_element_insert_before_single par c r d
  | _, _ => on_heap (ns_node_append_child par c) (adopt c d)
  end.

Fixpoint activate_all (ns : list loc) (d : page) : option page :=
  match ns with [] => Some d | n :: ns => d ← tell (Activate n) d; activate_all ns d end.

Definition ns_element_appendChild (par child : loc) (d : page) : option (reply * page) :=
  v ← ns_pre_insert_validity par child None true (hp d);
  match v with
  | Some e => Some (Thrown e, d)
  | None =>
      inert ← ns_node_in_template_content par (hp d);
      u ← unparented_doc child (hp d);
      if (u : bool) then
        d ← tell (FragmentEmptied child) d;
        p ← links_of par d;
        let batch_prev := last_child p in
        '(moved, d) ← empty_into (fun c d =>
             d ← tell (Disconnect c) d; d ← on_heap (ns_node_remove c) d;
             d ← on_heap (ns_node_append_child par c) (adopt c d);
             tell (IndexChange par (Some c) None) d) child d;
        d ← (match moved with [] => Some d | _ => tell (ChildrenMoved par moved [] batch_prev None) d end);
        d ← (if (inert : bool) then Some (mutate d) else activate_all moved (mutate d));
        Some (Returned (Some child), d)
      else
        l ← links_of child d;
        d ← (match parent l with Some _ => tell (PreRemove child) d | None => Some d end);
        d ← tell (Disconnect child) d;
        d ← tell (MoveRemoval child) d;
        d ← on_heap (ns_node_append_child par child) (adopt child d);
        d ← record_added par child (mutate d);
        d ← (if (inert : bool) then Some d else tell (Activate child) d);
        Some (Returned (Some child), d)
  end.

Definition ns_element_insertBefore (par newc : loc) (ref : option loc) (child_is_null : bool) (d : page) : option (reply * page) :=
  v ← ns_pre_insert_validity par newc ref child_is_null (hp d);
  match v with
  | Some e => Some (Thrown e, d)
  | None =>
      if decide (ref = Some newc) then Some (Returned (Some newc), d)
      else
        inert ← ns_node_in_template_content par (hp d);
        u ← unparented_doc newc (hp d);
        if (u : bool) then
          d ← tell (FragmentEmptied newc) d;
          has_ref ← is_child par ref (hp d);
          p ← links_of par d;
          batch_prev ← (match ref with
            | Some r => if (has_ref : bool) then l ← links_of r d; Some (prev_sibling l) else Some (last_child p)
            | None => Some (last_child p) end);
          '(added, d) ← empty_into (fun c d =>
               d ← tell (Disconnect c) d; d ← on_heap (ns_node_remove c) d;
               d ← place_child par ref c d;
               tell (IndexChange par (Some c) None) d) newc d;
          d ← (match added with [] => Some d
               | _ => tell (ChildrenMoved par added [] batch_prev (if (has_ref : bool) then ref else None)) d end);
          d ← (if (inert : bool) then Some (mutate d) else tell (Activate par) (mutate d));
          Some (Returned (Some newc), d)
        else
          d ← tell (Disconnect newc) d;
          d ← tell (MoveRemoval newc) d;
          d ← place_child par ref newc d;
          d ← record_added par newc (mutate d);
          d ← (if (inert : bool) then Some d else tell (Activate newc) d);
          Some (Returned (Some newc), d)
  end.

Definition ns_element_removeChild (par child : loc) (d : page) : option (reply * page) :=
  l ← links_of child d;
  if decide (parent l = Some par) then
    d ← tell (PreRemove child) d;
    d ← tell (Disconnect child) d;
    d ← on_heap (ns_node_remove child) d;
    d ← tell (ChildChange par None (Some child) (prev_sibling l) (next_sibling l)) (mutate (orphan child d));
    Some (Returned (Some child), d)
  else Some (Thrown (not_found ($"the node to be removed is not a child of this node")), d).

Definition ns_element_replaceChild (par newc oldc : loc) (d : page) : option (reply * page) :=
  v ← ns_pre_replace_validity par newc oldc (hp d);
  match v with
  | Some e => Some (Thrown e, d)
  | None =>
      o ← links_of oldc d;
      if decide (newc = oldc) then
        let p := prev_sibling o in let nx := next_sibling o in
        d ← tell (ChildChange par None (Some oldc) p nx) d;
        d ← tell (ChildChange par (Some oldc) None p nx) d;
        Some (Returned (Some oldc), mutate d)
      else
        d ← tell (PreRemove oldc) d;
        inert ← ns_node_in_template_content par (hp d);
        u ← unparented_doc newc (hp d);
        if (u : bool) then
          d ← tell (FragmentEmptied newc) d;
          o ← links_of oldc d;
          let reference := next_sibling o in
          d ← on_heap (ns_node_remove oldc) d;
          d ← tell (Disconnect oldc) d;
          d ← tell (ChildChange par None (Some oldc) (prev_sibling o) (next_sibling o)) (orphan oldc d);
          '(_, d) ← empty_into (fun c d =>
               d ← tell (Disconnect c) d; d ← on_heap (ns_node_remove c) d;
               d ← place_child par reference c d;
               record_added par c d) newc d;
          d ← (if (inert : bool) then Some (mutate d) else tell (Activate par) (mutate d));
          Some (Returned (Some oldc), d)
        else
          n ← links_of newc d;
          d ← (match parent n with Some _ => tell (PreRemove newc) d | None => Some d end);
          d ← tell (Disconnect newc) d;
          d ← tell (MoveRemoval newc) d;
          d ← on_heap (replace_links par newc oldc) (adopt newc d);
          d ← tell (Disconnect oldc) d;
          n ← links_of newc d;
          d ← tell (ChildChange par (Some newc) (Some oldc) (prev_sibling n) (next_sibling n)) (mutate (orphan oldc d));
          d ← (if (inert : bool) then Some d else tell (Activate newc) d);
          Some (Returned (Some oldc), d)
  end.

Definition ns_element_moveBefore (par node : loc) (child : option loc) (child_is_null : bool) (d : page) : option (reply * page) :=
  let throw e := Some (Thrown e, d) in
  r1 ← ns_node_root node (hp d); r2 ← ns_node_root par (hp d);
  if decide (r1 <> r2) then throw (hierarchy ($"node and parent are not in the same tree"))
  else
    anc ← ns_node_ancestor_or_self par node (hp d);
    if (anc : bool) then throw (hierarchy ($"node is an inclusive ancestor of the parent"))
    else
      k ← node_kind node (hp d);
      if negb (bool_decide (k = NS_NODE_ELEMENT) || bool_decide (k = NS_NODE_TEXT) || bool_decide (k = NS_NODE_COMMENT))
      then throw (hierarchy ($"node is not an Element or CharacterData"))
      else
        c ← is_child par child (hp d);
        if negb child_is_null && negb c then throw (not_found ($"the reference child is not a child of this node"))
        else
          doc ← parent_is_doc par (hp d);
          other ← (if doc && bool_decide (k = NS_NODE_ELEMENT)
                   then ns_node_has_child_kind_other par NS_NODE_ELEMENT (Some node) (hp d) else Some false);
          if (other : bool) then throw (hierarchy ($"document may have only one element child"))
          else
            l ← links_of node d;
            match parent l with
            | None => throw (hierarchy ($"node has no parent"))
            | Some _ =>
                let ref := if decide (child = Some node) then next_sibling l else child in
                d ← tell (PreRemove node) d;
                d ← tell (MoveRemoval node) d;
                b ← is_child par ref (hp d);
                d ← (match ref, b with
                     | Some r, true => ns_element_insert_before_single par node r d
                     | _, _ => d ← on_heap (ns_node_remove node) d; on_heap (ns_node_append_child par node) (adopt node d)
                     end);
                d ← record_added par node (mutate d);
                Some (Returned None, d)
            end.

(** ** [insertAdjacentElement] *)

Definition is_pos (pos name : bytes) : bool := g_ascii_strcasecmp0 pos name.

(** The parent of the place a node was put at; [None] inside when it was not. *)
Definition ns_insert_adjacent_node (self : loc) (pos : bytes) (to_insert : loc) (h : heap) : option (option loc * heap) :=
  anc ← ns_node_ancestor_or_self self to_insert h;
  if (anc : bool) then Some (None, h)
  else
    s ← at_ self h;
    if is_pos pos ($"beforebegin") then
      match parent s with
      | None => Some (None, h)
      | Some p => h ← ns_insert_sibling_before self to_insert h; Some (Some p, h)
      end
    else if is_pos pos ($"afterbegin") then h ← insert_first self to_insert h; Some (Some self, h)
    else if is_pos pos ($"beforeend") then
      h ← ns_node_remove to_insert h; h ← ns_node_append_child self to_insert h; Some (Some self, h)
    else if is_pos pos ($"afterend") then
      match parent s with
      | None => Some (None, h)
      | Some p => h ← ns_insert_sibling_after self to_insert h; Some (Some p, h)
      end
    else Some (None, h).

Inductive adjacent := AdjThrow (e : DOMException) | AdjNothing | AdjGo.

Definition ns_insert_adjacent_check (self : loc) (pos : bytes) (is_text : bool) (to_insert : option loc) (h : heap) : option adjacent :=
  let sibling := is_pos pos ($"beforebegin") || is_pos pos ($"afterend") in
  let inside := is_pos pos ($"afterbegin") || is_pos pos ($"beforeend") in
  if negb sibling && negb inside then
    Some (AdjThrow (syntax ($"The value provided is not one of 'beforebegin', 'afterbegin', 'beforeend', or 'afterend'.")))
  else
    s ← at_ self h;
    match (if sibling then parent s else Some self) with
    | None => Some AdjNothing
    | Some p =>
        doc ← parent_is_doc p h;
        if negb doc then Some AdjGo
        else if is_text then
          Some (AdjThrow (hierarchy ($"Nodes of type 'Text' may not be inserted inside a Document.")))
        else
          other ← ns_node_has_child_kind_other p NS_NODE_ELEMENT to_insert h;
          Some (if (other : bool) then AdjThrow (hierarchy ($"A Document may contain at most one element child.")) else AdjGo)
    end.

Definition ns_element_insertAdjacentElement (self : loc) (pos : bytes) (child : loc) (d : page) : option (reply * page) :=
  chk ← ns_insert_adjacent_check self pos false (Some child) (hp d);
  match chk with
  | AdjThrow e => Some (Thrown e, d)
  | AdjNothing => Some (Returned None, d)
  | AdjGo =>
      let d := adopt child d in
      '(par, h) ← ns_insert_adjacent_node self pos child (hp d);
      d ← on_heap (fun _ => Some h) d;
      match par with
      | None => Some (Returned None, d)
      | Some p =>
          d ← record_added p child d;
          d ← tell (Activate child) (mutate d);
          Some (Returned (Some child), d)
      end
  end.

(** ** Methods with a list of nodes *)

Definition ns_node_new_text (t : bytes) : dnode :=
  {| data := Build_ndata NS_NODE_TEXT None (Some t) None None [] NS_NODE_OWN_TEXT_BIT None; lk := no_links |}.
Definition new_text (t : bytes) (d : page) : loc * page :=
  let n := fresh (dom (D := gset loc) (hp d)) in (n, {| hp := <[n := ns_node_new_text t]> (hp d); orphan_nodes := orphan_nodes d; mutated := mutated d |}).

(** The nodes to insert, in order: [ns_convert_arg_node] takes each out of its
    place. *)
Definition ns_convert_arg_node (n : loc) (seq : list loc) (d : page) : option (list loc * page) :=
  u ← unparented_doc n (hp d);
  if (u : bool) then
    d ← tell (FragmentEmptied n) d;
    '(moved, d) ← empty_into (fun c d => d ← on_heap (ns_node_remove c) d; Some (adopt c d)) n d;
    Some (seq ++ moved, d)
  else
    d ← on_heap (remove_if_linked n) d;
    Some (seq ++ [n], adopt n d).

(** [skip] is the test that leaves an argument out. *)
Fixpoint convert_args (skip : loc -> heap -> option bool) (args : list nodearg) (seq : list loc) (d : page) :
    option (list loc * page) :=
  match args with
  | [] => Some (seq, d)
  | AText t :: args => let (n, d) := new_text t d in convert_args skip args (seq ++ [n]) d
  | ANode n :: args =>
      b ← skip n (hp d);
      if (b : bool) then convert_args skip args seq d
      else '(seq, d) ← ns_convert_arg_node n seq d; convert_args skip args seq d
  end.

Fixpoint for_each (f : loc -> page -> option page) (ns : list loc) (d : page) : option page :=
  match ns with [] => Some d | n :: ns => d ← f n d; for_each f ns d end.

Definition ns_js_activate_inserted (par : loc) (inserted : list loc) (d : page) : option page :=
  inert ← ns_node_in_template_content par (hp d);
  if (inert : bool) then Some d
  else for_each (fun n d => l ← links_of n d; match parent l with None => Some d | Some _ => tell (Activate n) d end) inserted d.

Definition ns_args_contain_node (args : list nodearg) (n : loc) : bool :=
  existsb (fun a => match a with ANode m => bool_decide (m = n) | AText _ => false end) args.

(** The nearest sibling by [step] that is not among the arguments. *)
Fixpoint viable_loop (step : links -> option loc) (args : list nodearg) (fuel : nat) (c : option loc) (h : heap) : option (option loc) :=
  match c with
  | None => Some None
  | Some n =>
      if ns_args_contain_node args n then
        match fuel with O => None | S f => l ← at_ n h; viable_loop step args f (step l) h end
      else Some (Some n)
  end.
Definition viable step args (c : option loc) (h : heap) : option (option loc) := viable_loop step args (S (size h)) c h.

(** [if (anchor && anchor->parent == parent) ns_insert_sibling_before(anchor, node); else ns_node_append_child(parent, node);] *)
Definition put_at (anchor : option loc) (par n : loc) (h : heap) : option heap :=
  b ← is_child par anchor h;
  match anchor, b with
  | Some a, true => ns_insert_sibling_before a n h
  | _, _ => ns_node_append_child par n h
  end.

Definition ns_element_before (self : loc) (args : list nodearg) (d : page) : option (reply * page) :=
  s ← links_of self d;
  match parent s with
  | None => Some (Returned None, d)
  | Some _ =>
      '(seq, d) ← convert_args (fun n h =>
          if decide (n = self) then Some true
          else s ← at_ self h; match parent s with None => None | Some p => ns_node_ancestor_or_self p n h end) args [] d;
      d ← for_each (fun n d => d ← on_heap (ns_insert_sibling_before self n) d;
                    s ← links_of self d; match parent s with None => None | Some p => record_added p n d end) seq d;
      let d := mutate d in
      s ← links_of self d;
      match parent s with
      | None => None
      | Some p => d ← ns_js_activate_inserted p seq d; Some (Returned None, d)
      end
  end.

Definition ns_element_after (self : loc) (args : list nodearg) (d : page) : option (reply * page) :=
  s ← links_of self d;
  match parent s with
  | None => Some (Returned None, d)
  | Some par =>
      viable_next ← viable next_sibling args (next_sibling s) (hp d);
      '(seq, d) ← convert_args (fun n h => b ← ns_node_ancestor_or_self par n h; Some (b && negb (bool_decide (n = self)))) args [] d;
      d ← for_each (fun n d => d ← on_heap (put_at viable_next par n) d; record_added par n d) seq d;
      d ← ns_js_activate_inserted par seq (mutate d);
      Some (Returned None, d)
  end.

Definition ns_element_replaceWith (self : loc) (args : list nodearg) (d : page) : option (reply * page) :=
  s ← links_of self d;
  match parent s with
  | None => Some (Returned None, d)
  | Some par =>
      let self_in_args := ns_args_contain_node args self in
      viable_prev ← viable prev_sibling args (prev_sibling s) (hp d);
      '(seq, d) ← convert_args (fun n h => b ← ns_node_ancestor_or_self par n h; Some (b && negb (bool_decide (n = self)))) args [] d;
      anchor ← (if self_in_args then
                  match viable_prev with
                  | Some v => l ← links_of v d; Some (next_sibling l)
                  | None => l ← links_of par d; Some (first_child l)
                  end
                else Some (Some self));
      d ← for_each (fun n d => d ← on_heap (put_at anchor par n) d; record_added par n d) seq d;
      d ← (if self_in_args then Some d
           else
             s ← links_of self d;
             d ← on_heap (ns_node_remove self) d;
             tell (ChildChange par None (Some self) (prev_sibling s) (next_sibling s)) (orphan self d));
      d ← ns_js_activate_inserted par seq (mutate d);
      Some (Returned None, d)
  end.

(** Elements and texts an argument brings into a document. *)
Fixpoint count_args (args : list nodearg) (elems : nat) (text : bool) (h : heap) : option (nat * bool) :=
  match args with
  | [] => Some (elems, text)
  | AText _ :: args => count_args args elems true h
  | ANode n :: args =>
      k ← node_kind n h; f ← is_fragment n h;
      match k with
      | NS_NODE_ELEMENT => count_args args (S elems) text h
      | NS_NODE_TEXT => count_args args elems true h
      | _ => if (f : bool) then '(e, t) ← count_children n h; count_args args (elems + e) (text || t) h
             else count_args args elems text h
      end
  end.
Definition ns_validate_doc_batch (par : loc) (args : list nodearg) (h : heap) : option (option DOMException) :=
  doc ← parent_is_doc par h;
  if negb doc then Some None
  else
    '(new_elems, has_text) ← count_args args 0 false h;
    if (has_text : bool) then Some (Some (hierarchy ($"Nodes of type 'Text' may not be inserted inside a Document.")))
    else
      '(existing, _) ← count_children par h;
      Some (if (2 <=? existing + new_elems)%nat then Some (hierarchy ($"A Document may contain at most one element child.")) else None).

Fixpoint check_args (check : loc -> heap -> option (option DOMException)) (args : list nodearg) (h : heap) : option (option DOMException) :=
  match args with
  | [] => Some None
  | AText _ :: args => check_args check args h
  | ANode n :: args => e ← check n h; match e with Some e => Some (Some e) | None => check_args check args h end
  end.

Definition ns_element_append (par : loc) (args : list nodearg) (d : page) : option (reply * page) :=
  e ← ns_validate_doc_batch par args (hp d);
  match e with
  | Some e => Some (Thrown e, d)
  | None =>
      e ← check_args (fun n h => ns_pre_insert_validity par n None true h) args (hp d);
      match e with
      | Some e => Some (Thrown e, d)
      | None =>
          '(seq, d) ← convert_args (ns_node_ancestor_or_self par) args [] d;
          d ← for_each (fun n d => d ← on_heap (ns_node_append_child par n) d; record_added par n d) seq d;
          d ← ns_js_activate_inserted par seq (mutate d);
          Some (Returned None, d)
      end
  end.

Definition ns_element_prepend (par : loc) (args : list nodearg) (d : page) : option (reply * page) :=
  e ← ns_validate_doc_batch par args (hp d);
  match e with
  | Some e => Some (Thrown e, d)
  | None =>
      e ← check_args (fun n h =>
            p ← at_ par h;
            ns_pre_insert_validity par n (first_child p) (match first_child p with None => true | Some _ => false end) h) args (hp d);
      match e with
      | Some e => Some (Thrown e, d)
      | None =>
          p ← links_of par d;
          let ref := first_child p in
          '(seq, d) ← convert_args (ns_node_ancestor_or_self par) args [] d;
          d ← for_each (fun n d =>
                d ← on_heap (match ref with None => ns_node_append_child par n | Some r => link_before par r n end) d;
                record_added par n d) seq d;
          d ← ns_js_activate_inserted par seq (mutate d);
          Some (Returned None, d)
      end
  end.
End Methods.
#[global] Arguments tell {H} e d : simpl never.
