(* ===== verification/DomSpec.v ===== *)
(** * The methods keep the tree

    Over the tree [K] the links stand for ([DomTree]): what each method of [Dom]
    does to it, that it never follows a pointer astray and ends, and that a node the
    scripts' side owns is in no tree. *)

From stdpp Require Import functions relations.
From S2P Require Import Prelude CStr GLib Xml DomStore DomTree Dom.

Abbreviation forest := (loc -> list loc).

(** ** Kinds of nodes, which no move changes *)

Definition shape (n : loc) (h : heap) : option (ns_node_kind * bool) :=
  (fun d => (n_kind (data d), has_flag (n_flags (data d)) NS_NODE_FRAGMENT_BIT)) <$> h !! n.

(** A change that keeps the links and the kinds of the nodes. *)
Record kept (h h' : heap) : Prop := {
  kept_links : forall n, at_ n h' = at_ n h;
  kept_shape : forall n, shape n h' = shape n h;
}.

(** The callbacks and scripts of the page that run in the middle of a method move no
    node: a hypothesis on the page, not on the browser. A page whose
    [disconnectedCallback] moves nodes is not so ([DomPage.callback_makes_cycle]). *)
Class QuietCallbacks {H : Host} := quiet_callbacks e h : runs_scripts e = true -> exists h', host e h = Some h' /\ kept h h'.

(** [d] holds the tree [K], and the scripts' side owns the nodes [O]: they are
    roots. *)
Record holds (d : page) (K : forest) (O : gset loc) : Prop := {
  h_tree : tree_ok (hp d) K;
  h_owned : forall n, n ∈ O -> is_Some (at_ n (hp d)) /\ forall p, n ∉ K p;
  h_orphans : orphan_nodes d = O;
}.
(** The nodes of [d], with their kinds, are in [d']. *)
Definition keeps (d d' : page) : Prop := forall n x, shape n (hp d) = Some x -> shape n (hp d') = Some x.
(** A step from [d] to [d'], which holds [K] and [O]. *)
Definition reach (d : page) (K : forest) (O : gset loc) (d' : page) : Prop := holds d' K O /\ keeps d d'.

Lemma shape_same h h' n : same_data h h' -> shape n h' = shape n h.
Proof. intros S. specialize (S n). unfold shape. destruct (h !! n), (h' !! n); cbn in *; congruence. Qed.
Lemma shape_at n h x : shape n h = Some x -> is_Some (at_ n h).
Proof. unfold shape, at_. rewrite fmap_is_Some. destruct (h !! n); [eauto|done]. Qed.
Lemma at_shape n h : is_Some (at_ n h) -> exists x, shape n h = Some x.
Proof. unfold shape, at_. destruct (h !! n); [eauto|]. by intros [? ?]. Qed.

Lemma keeps_refl d : keeps d d.
Proof. by intros n x. Qed.
Lemma keeps_trans d1 d2 d3 : keeps d1 d2 -> keeps d2 d3 -> keeps d1 d3.
Proof. unfold keeps. eauto. Qed.
Lemma keeps_at d d' n : keeps d d' -> is_Some (at_ n (hp d)) -> is_Some (at_ n (hp d')).
Proof. intros S [x E]%at_shape. apply S in E. by eapply shape_at. Qed.
Lemma reach_trans d1 d2 d3 K K' O O' : reach d1 K O d2 -> reach d2 K' O' d3 -> reach d1 K' O' d3.
Proof. intros [_ S1] [T S2]. split; [done|]. by eapply keeps_trans. Qed.
Lemma reach_ext d d' K K' O O' : (forall n, K n = K' n) -> O = O' -> reach d K O d' -> reach d K' O' d'.
Proof.
  intros E <- [[T W R] S]. split; [|done]. split; [by eapply tree_ok_ext| |done].
  intros n Hn. destruct (W n Hn) as [? W']. split; [done|]. intros p. rewrite <- E. apply W'.
Qed.

Lemma tree_ok_links h h' K : (forall n, at_ n h' = at_ n h) -> tree_ok h K -> tree_ok h' K.
Proof. intros E [A B C D F G]. split; try setoid_rewrite E; eauto. Qed.

(** Lists of children that hold [c] and those there were. *)
Definition adds (c : loc) (f : list loc -> list loc) : Prop := forall l x, x ∈ f l -> x = c \/ x ∈ l.
Lemma adds_snoc c : adds c (fun l => l ++ [c]).
Proof. intros l x. rewrite elem_of_app, list_elem_of_singleton. tauto. Qed.
Lemma adds_cons c : adds c (cons c).
Proof. intros l x. rewrite elem_of_cons. tauto. Qed.
Lemma adds_next ref c : adds c (before ref c) /\ adds c (after ref c) /\ adds c (instead ref c).
Proof.
  split_and!; intros l x; (induction l as [|y l IH]; cbn; [tauto|]); destruct (decide (y = ref));
    rewrite ?elem_of_cons; tauto.
Qed.
#[local] Hint Resolve adds_snoc adds_cons : core.

Lemma put_elem c p f K q x : adds c f -> x ∈ put c p f K q -> x = c \/ (x ∈ K q /\ x <> c).
Proof.
  intros A. unfold put. destruct (decide (q = p)) as [->|Hn].
  - rewrite fn_lookup_insert. intros [->|Hx]%A; [by left|]. unfold without in Hx. rewrite list_elem_of_filter in Hx. tauto.
  - rewrite fn_lookup_insert_ne by done. unfold without. rewrite list_elem_of_filter. tauto.
Qed.

(** ** Steps of a method *)

Section Steps.
Context {G : GLib} {H : Host} {Q : QuietCallbacks}.

Lemma on_heap_reach f d K O K' h' : holds d K O -> f (hp d) = Some h' -> becomes (hp d) K' h' ->
  (forall n p, n ∈ O -> n ∈ K' p -> n ∈ K p) ->
  exists d', on_heap f d = Some d' /\ reach d K' O d' /\ hp d' = h'.
Proof.
  intros [T W R] E [T' S] Own. unfold on_heap. rewrite E. cbn. eexists. split; [done|].
  assert (keeps d (Build_page h' (orphan_nodes d) (mutated d))) as P by (intros n x Hx; cbn; by rewrite (shape_same _ _ n S)).
  split; [|done]. split; [|done]. split; [done| |done].
  intros n Hn. destruct (W n Hn) as [W1 W2]. split; [by eapply keeps_at|]. intros p Hp. by apply (W2 p), Own.
Qed.

Lemma tell_reach e d K O : holds d K O ->
  exists d', tell e d = Some d' /\ reach d K O d' /\ (forall n, at_ n (hp d') = at_ n (hp d)).
Proof.
  intros [T W R]. unfold tell. destruct (runs_scripts e) eqn:Es; [|exists d; split; [done|]; split; [split; [by split|apply keeps_refl]|done]].
  destruct (quiet_callbacks e (hp d) Es) as (h' & E & L & S). unfold on_heap. rewrite E. cbn.
  eexists. split; [done|]. split; [|done]. split; [|intros n x Hx; cbn; by rewrite S].
  split; [by eapply tree_ok_links| |done]. intros n Hn. cbn. rewrite L. by apply W.
Qed.

Lemma adopt_reach c d K O : holds d K O -> reach d K (O ∖ {[ c ]}) (adopt c d).
Proof.
  intros [T W R]. split; [|by intros n x]. split; [done| |cbn; by rewrite R].
  intros n Hn. apply W. set_solver.
Qed.
Lemma orphan_reach c d K O : holds d K O -> is_Some (at_ c (hp d)) -> (forall p, c ∉ K p) -> reach d K ({[ c ]} ∪ O) (orphan c d).
Proof.
  intros [T W R] Hc Hf. split; [|by intros n x]. split; [done| |cbn; by rewrite R].
  intros n [->%elem_of_singleton|Hn]%elem_of_union; [by split|by apply W].
Qed.
Lemma mutate_reach d K O : holds d K O -> reach d K O (mutate d).
Proof. intros [T W R]. split; [|by intros n x]. by split. Qed.

Lemma remove_reach c d K O : holds d K O -> is_Some (at_ c (hp d)) ->
  exists d', on_heap (ns_node_remove c) d = Some d' /\ on_heap (remove_if_linked c) d = Some d' /\ reach d (without c K) O d'.
Proof.
  intros V Hc. destruct (detach_ok _ K (h_tree _ _ _ V) c Hc) as (h' & E & B & _).
  destruct (on_heap_reach (ns_node_remove c) d K O _ h' V E B) as (d' & E1 & R & _).
  { intros n p _. apply without_edge. }
  exists d'. split; [done|]. split; [|done]. unfold on_heap in *. by rewrite remove_if_linked_detach.
Qed.

(** A node the scripts' side does not own, put among the children of another. *)
Lemma put_reach f g c p d K O h' : holds d K O -> c ∉ O -> adds c g -> f (hp d) = Some h' -> becomes (hp d) (put c p g K) h' ->
  exists d', on_heap f d = Some d' /\ reach d (put c p g K) O d'.
Proof.
  intros V Hc A E B. destruct (on_heap_reach f d K O _ h' V E B) as (d' & E1 & R & _); [|by exists d'].
  intros n q Hn [->|[Hx _]]%put_elem; done.
Qed.

Lemma append_reach c p d K O : holds d K O -> c ∉ O -> is_Some (at_ p (hp d)) -> is_Some (at_ c (hp d)) -> ~ rtc (edge K) c p ->
  exists d', on_heap (ns_node_append_child p c) d = Some d' /\ reach d (put c p (fun l => l ++ [c]) K) O d'.
Proof.
  intros V Hc Ep Ec Hb. destruct (append_child_ok _ K (h_tree _ _ _ V) p c Ep Ec Hb) as (h' & E & B).
  by apply (put_reach _ _ _ _ _ _ _ h').
Qed.
End Steps.

(** ** The loops over children and ancestors end *)

Section Loops.
Context (h : heap) (K : forest) (OK : tree_ok h K).

Lemma kids_bound n : length (K n) <= size h.
Proof.
  apply (seen_bound h); [by apply (kids_nodup h K OK)|]. intros x (k & E & _)%(kid_linked h K OK).
  apply at_is_some. eauto.
Qed.

Lemma any_next n t p fuel : forall l1 l2, K n = l1 ++ l2 -> (forall x, x ∈ l2 -> p x h = Some (t x)) -> length l2 <= fuel ->
  any_loop next_sibling p fuel (head l2) h = Some (existsb t l2).
Proof.
  induction fuel as [|fuel IH]; intros l1 [|c l2] E P L; try done; [cbn in L; lia|].
  cbn. rewrite P by set_solver +. cbn. destruct (t c) eqn:Et; [done|]. cbn.
  destruct (at_kid h K OK _ _ _ _ E) as (k & -> & _ & _ & N). cbn. rewrite N.
  apply (IH (l1 ++ [c])); [by rewrite E, <- app_assoc| |cbn in L; lia]. intros x Hx. apply P. by right.
Qed.
Lemma any_prev n t p fuel : forall l1 l2, K n = l1 ++ l2 -> (forall x, x ∈ l1 -> p x h = Some (t x)) -> length l1 <= fuel ->
  any_loop prev_sibling p fuel (last l1) h = Some (existsb t l1).
Proof.
  induction fuel as [|fuel IH]; intros l1 l2 E P L; destruct l1 as [|c l1 _] using rev_ind; try done;
    rewrite ?length_app in L; cbn in L; [lia|].
  rewrite last_snoc. cbn. rewrite P by set_solver +. rewrite <- app_assoc in E. cbn.
  rewrite existsb_app. cbn. destruct (t c) eqn:Et; [by rewrite orb_true_r|]. rewrite !orb_false_r.
  destruct (at_kid h K OK _ _ _ _ E) as (k & -> & _ & N & _). cbn. rewrite N.
  apply (IH l1 (c :: l2)); [done| |lia]. intros x Hx. apply P. set_solver.
Qed.

Lemma any_children n k t p : at_ n h = Some k -> (forall x, x ∈ K n -> p x h = Some (t x)) ->
  any_from next_sibling p (first_child k) h = Some (existsb t (K n)).
Proof.
  intros E P. rewrite (proj1 (ok_ends _ _ OK _ _ E)). apply (any_next n t p _ []); [done|done|].
  pose proof (kids_bound n). lia.
Qed.
Lemma any_following n l1 c l2 k t p : K n = l1 ++ c :: l2 -> at_ c h = Some k -> (forall x, x ∈ K n -> p x h = Some (t x)) ->
  any_from next_sibling p (next_sibling k) h = Some (existsb t l2) /\
  any_from prev_sibling p (prev_sibling k) h = Some (existsb t l1).
Proof.
  intros E Ec P. destruct (at_kid h K OK _ _ _ _ E) as (k' & E' & _ & N1 & N2). rewrite Ec in E'. injection E' as <-.
  pose proof (kids_bound n) as B. rewrite E, length_app in B. cbn in B. rewrite E in P.
  rewrite N1, N2. split.
  - apply (any_next n t p _ (l1 ++ [c])); [by rewrite E, <- app_assoc| |lia]. intros x Hx. apply P. set_solver.
  - apply (any_prev n t p _ _ (c :: l2)); [done| |lia]. intros x Hx. apply P. set_solver.
Qed.

(** A loop up the tree ends. *)
Lemma any_up p fuel : (forall x, is_Some (at_ x h) -> is_Some (p x h)) ->
  forall seen n, climbed h K seen n -> is_Some (h !! n) -> size h <= length seen + fuel ->
  is_Some (any_loop parent p fuel (Some n) h).
Proof.
  intros P. induction fuel as [|fuel IH]; intros seen n C Hn Hf.
  - pose proof (climbed_length _ _ OK _ _ C Hn). lia.
  - pose proof Hn as Hn'. apply at_is_some in Hn'. destruct (P n Hn') as [b E]. cbn. rewrite E. cbn.
    destruct b; [eauto|]. destruct Hn' as [k Ek]. rewrite Ek. cbn.
    destruct (parent k) as [q|] eqn:Hq; [|destruct fuel; eauto].
    assert (edge K q n) as Ed by by apply (parent_edge h K OK _ _ _ Ek).
    apply (IH (n :: seen)); [by eapply climbed_step| |cbn; lia].
    apply at_is_some. destruct (has_links h K OK q n Ed) as [? ->]. eauto.
Qed.

Lemma in_template_content_total n : is_Some (at_ n h) -> exists b, ns_node_in_template_content n h = Some b.
Proof.
  intros Hn. unfold ns_node_in_template_content, any_from.
  apply (any_up _ (S (size h))) with (seen := []); [|split; [constructor|]|by apply at_is_some|cbn; lia].
  - intros x Hx%at_is_some. destruct Hx as [d E]. unfold node_flag, is_element_named. rewrite E. cbn. eauto.
  - intros x Hx. by apply not_elem_of_nil in Hx.
Qed.
End Loops.

(** ** What the checks accept *)

Definition kd (h : heap) (n : loc) : ns_node_kind := match shape n h with Some (k, _) => k | None => NS_NODE_TEXT end.
Definition frag (h : heap) (n : loc) : bool := match shape n h with Some (_, f) => f | None => false end.
Definition is_doc (h : heap) (n : loc) : bool := bool_decide (kd h n = NS_NODE_DOCUMENT) && negb (frag h n).
Definition is_frag (h : heap) (n : loc) : bool := bool_decide (kd h n = NS_NODE_DOCUMENT) && frag h n.

Section Kinds.
Context (h : heap) (n : loc) (Hn : is_Some (at_ n h)).
Lemma node_kind_kd : node_kind n h = Some (kd h n).
Proof. unfold kd, node_kind, shape, at_ in *. destruct (h !! n); [done|]. by destruct Hn. Qed.
Lemma node_flag_frag : node_flag n NS_NODE_FRAGMENT_BIT h = Some (frag h n).
Proof. unfold frag, node_flag, shape, at_ in *. destruct (h !! n); [done|]. by destruct Hn. Qed.
Lemma parent_is_doc_ok : parent_is_doc n h = Some (is_doc h n).
Proof. unfold parent_is_doc. by rewrite node_kind_kd, node_flag_frag. Qed.
Lemma is_fragment_ok : is_fragment n h = Some (is_frag h n).
Proof. unfold is_fragment. by rewrite node_kind_kd, node_flag_frag. Qed.
Lemma has_kind_ok k : has_kind k n h = Some (bool_decide (kd h n = k)).
Proof. unfold has_kind. by rewrite node_kind_kd. Qed.
End Kinds.

Definition is_kind (h : heap) (k : ns_node_kind) (c : loc) : bool := bool_decide (kd h c = k).
Definition elements (h : heap) (l : list loc) : nat := length (filter (fun c => kd h c = NS_NODE_ELEMENT) l).
Definition texts (h : heap) (l : list loc) : bool := existsb (is_kind h NS_NODE_TEXT) l.

(** What may come under a document: [a] and [b] say that an element may not,
    [c] and [d] that a doctype may not. *)
Definition fits (h : heap) (K : forest) (node : loc) (a b c d : bool) : Prop :=
  if is_frag h node then texts h (K node) = false /\ (elements h (K node) = 0 \/ (elements h (K node) = 1 /\ a = false /\ b = false))
  else match kd h node with
       | NS_NODE_ELEMENT => a = false /\ b = false
       | NS_NODE_DOCTYPE => c = false /\ d = false
       | _ => True
       end.
(** The rules for any parent: [e] is what the check of the reference child says. *)
Definition may_hold (h : heap) (K : forest) (par node : loc) (e : option DOMException) : Prop :=
  (is_doc h par = true \/ is_frag h par = true \/ kd h par = NS_NODE_ELEMENT) /\ ~ rtc (edge K) node par /\ e = None /\
  is_doc h node = false /\ (kd h node = NS_NODE_TEXT -> is_doc h par = false) /\
  (kd h node = NS_NODE_DOCTYPE -> is_doc h par = true).

Section Checks.
Context (h : heap) (K : forest) (OK : tree_ok h K).

Lemma kid_here n c : c ∈ K n -> is_Some (at_ c h).
Proof. intros (k & -> & _)%(kid_linked h K OK). eauto. Qed.

Lemma has_child_kind_ok p k : is_Some (at_ p h) -> ns_node_has_child_kind p k h = Some (existsb (is_kind h k) (K p)).
Proof.
  intros [l E]. unfold ns_node_has_child_kind. rewrite E. cbn. apply (any_children h K OK p); [done|].
  intros x Hx%kid_here. by apply has_kind_ok.
Qed.
Lemma has_child_kind_other_ok p k e : is_Some (at_ p h) ->
  ns_node_has_child_kind_other p k e h = Some (existsb (fun c => is_kind h k c && bool_decide (Some c <> e)) (K p)).
Proof.
  intros [l E]. unfold ns_node_has_child_kind_other. rewrite E. cbn. apply (any_children h K OK p); [done|].
  intros x Hx%kid_here. by rewrite has_kind_ok.
Qed.
Lemma around_ok p l1 c l2 : K p = l1 ++ c :: l2 ->
  ns_node_doctype_follows c h = Some (existsb (is_kind h NS_NODE_DOCTYPE) l2) /\
  ns_node_element_precedes c h = Some (existsb (is_kind h NS_NODE_ELEMENT) l1).
Proof.
  intros E. destruct (at_kid h K OK _ _ _ _ E) as (k & Ec & _).
  unfold ns_node_doctype_follows, ns_node_element_precedes. rewrite Ec. cbn.
  split; [apply (any_following h K OK p l1 c l2 k _ (has_kind NS_NODE_DOCTYPE))|
          apply (any_following h K OK p l1 c l2 k _ (has_kind NS_NODE_ELEMENT))]; try done;
    intros x Hx%kid_here; by apply has_kind_ok.
Qed.
Lemma is_child_ok p c : is_Some (at_ c h) -> is_child p (Some c) h = Some (bool_decide (c ∈ K p)).
Proof.
  intros [k E]. cbn. rewrite E. cbn. f_equal. apply bool_decide_ext. by apply (parent_edge h K OK).
Qed.

Lemma count_loop_ok n fuel : forall l1 l2 e t, K n = l1 ++ l2 -> length l2 <= fuel ->
  count_loop fuel (head l2) e t h = Some (e + elements h l2, t || texts h l2).
Proof.
  induction fuel as [|fuel IH]; intros l1 [|c l2] e t E L; try (cbn; by rewrite Nat.add_0_r, orb_false_r); [cbn in L; lia|].
  cbn [count_loop head]. destruct (at_kid h K OK _ _ _ _ E) as (k & Ec & _ & _ & N).
  rewrite (node_kind_kd h c) by eauto. rewrite Ec. cbn [mbind option_bind]. rewrite N.
  assert (K n = (l1 ++ [c]) ++ l2) as E' by (by rewrite E, <- app_assoc).
  assert (length l2 <= fuel) as L' by (cbn in L; lia).
  unfold elements, texts. rewrite filter_cons. cbn [existsb]. unfold is_kind at 1.
  destruct (kd h c); cbn; rewrite (IH _ _ _ _ E' L'); unfold elements, texts; cbn; f_equal; f_equal;
    rewrite ?orb_true_r; try done; lia.
Qed.
Lemma count_children_ok n : is_Some (at_ n h) -> count_children n h = Some (elements h (K n), texts h (K n)).
Proof.
  intros [k E]. unfold count_children. rewrite E. cbn [mbind option_bind]. rewrite (proj1 (ok_ends _ _ OK _ _ E)).
  rewrite (count_loop_ok n _ []); [done|done|]. pose proof (kids_bound h K OK n). lia.
Qed.

Lemma document_rules_ok fa fb fc fd a b c d node : is_Some (at_ node h) -> fa h = Some a -> fb h = Some b ->
  fc h = Some c -> fd h = Some d ->
  exists v, document_rules fa fb fc fd node h = Some v /\ (v = None <-> fits h K node a b c d).
Proof.
  intros Hn A B C D. unfold document_rules, fits. rewrite (node_kind_kd _ _ Hn), (is_fragment_ok _ _ Hn). cbn [mbind option_bind].
  destruct (is_frag h node).
  - rewrite (count_children_ok _ Hn). cbn [mbind option_bind].
    destruct (texts h (K node)); cbn [orb]; [eexists; split; [done|]; split; [done|by intros [? _]]|].
    destruct (Nat.leb_spec 2 (elements h (K node))); [eexists; split; [done|]; split; [done|lia]|].
    destruct (Nat.eqb_spec (elements h (K node)) 1) as [E|E]; [|eexists; split; [done|]; split; [intros; split; [done|left; lia]|done]].
    rewrite A. destruct a; [|rewrite B; destruct b]; cbn; (eexists; split; [done|]); split; try done;
      try (intros (_ & [?|(_ & ? & ?)]); [lia|done]). intros _. split; [done|]. by right.
  - destruct (kd h node); try (eexists; split; [done|]; by split).
    + rewrite C. destruct c; [|rewrite D; destruct d]; cbn; (eexists; split; [done|]); split; try done; by intros [? ?].
    + rewrite A. destruct a; [|rewrite B; destruct b]; cbn; (eexists; split; [done|]); split; try done; by intros [? ?].
Qed.

Lemma tree_rules_ok par node placed e : is_Some (at_ par h) -> is_Some (at_ node h) -> placed h = Some e ->
  exists v, tree_rules par node placed h = Some v /\ (v = None <-> may_hold h K par node e).
Proof.
  intros Hp Hn P. unfold tree_rules, may_hold, ns_node_ancestor_or_self.
  rewrite (node_kind_kd _ _ Hp), (parent_is_doc_ok _ _ Hp), (is_fragment_ok _ _ Hp), (node_kind_kd _ _ Hn), (parent_is_doc_ok _ _ Hn).
  destruct (contains_ok h K OK node par Hp) as (anc & -> & Hanc). cbn [mbind option_bind]. rewrite P.
  destruct (is_doc h par || is_frag h par || bool_decide (kd h par = NS_NODE_ELEMENT)) eqn:E; cbn [negb mbind option_bind].
  2: { eexists; split; [done|]. split; [done|]. intros (Ho & _).
       destruct Ho as [Ho|[Ho|Ho]]; [..|rewrite (bool_decide_true _ Ho) in E]; by rewrite ?Ho, ?orb_true_r in E. }
  assert (is_doc h par = true \/ is_frag h par = true \/ kd h par = NS_NODE_ELEMENT) as Ho.
  { apply orb_true_iff in E as [[?|?]%orb_true_iff|?%bool_decide_eq_true]; tauto. }
  destruct anc; [eexists; split; [done|]; split; [done|]; intros (_ & Hx & _); destruct Hx; by apply Hanc|].
  destruct e; cbn [mbind option_bind]; [eexists; split; [done|]; by split; [|intros (_ & _ & ? & _)]|].
  assert (~ rtc (edge K) node par) as Ha by (intros ?%Hanc; done).
  destruct (is_doc h node); [eexists; split; [done|]; by split; [|intros (_ & _ & _ & ? & _)]|].
  eexists; split; [done|]. clear E Hanc. destruct (is_doc h par), (kd h node); cbn; naive_solver.
Qed.

(** What the code accepts: the place is before [place], or at the end. *)
Definition insertable (par node : loc) (place : option loc) : Prop :=
  may_hold h K par node None /\ (forall c, place = Some c -> c ∈ K par) /\
  (is_doc h par = true -> forall l1 l2, K par = l1 ++ l2 -> head l2 = place ->
     fits h K node (existsb (is_kind h NS_NODE_ELEMENT) (K par)) (existsb (is_kind h NS_NODE_DOCTYPE) l2)
       (existsb (is_kind h NS_NODE_DOCTYPE) (K par)) (existsb (is_kind h NS_NODE_ELEMENT) l1)).

Definition no_place (place : option loc) : bool := match place with None => true | Some _ => false end.

Lemma placed_ok par place : (forall c, place = Some c -> is_Some (at_ c h)) ->
  exists b, is_child par place h = Some b /\ (no_place place || b = true <-> forall c, place = Some c -> c ∈ K par).
Proof.
  intros Hc. destruct place as [c|]; [|by exists false].
  exists (bool_decide (c ∈ K par)). rewrite (is_child_ok par c (Hc _ eq_refl)). split; [done|].
  cbn. rewrite bool_decide_eq_true. naive_solver.
Qed.

Lemma place_split par place : (forall c, place = Some c -> c ∈ K par) -> exists l1 l2, K par = l1 ++ l2 /\ head l2 = place.
Proof.
  intros M. destruct place as [c|]; [|exists (K par), []; by rewrite app_nil_r].
  destruct (list_elem_of_split _ _ (M c eq_refl)) as (l1 & l2 & ->). by exists l1, (c :: l2).
Qed.
Lemma place_unique par l1 l2 l1' l2' : K par = l1 ++ l2 -> K par = l1' ++ l2' -> head l2 = head l2' -> l1 = l1' /\ l2 = l2'.
Proof.
  intros E1 E2 Hl. pose proof (kids_nodup h K OK par) as N. rewrite E1 in E2.
  destruct l2 as [|c l2], l2' as [|c' l2']; try done; [by rewrite !app_nil_r in E2|]. injection Hl as <-.
  rewrite E1 in N. destruct (app_mid _ _ _ _ _ E2) as [(r & -> & ->)|([|x r] & Er & ->)].
  - rewrite <- app_assoc in N. apply NoDup_app in N as (_ & _ & N). cbn in N. apply NoDup_cons in N as [N _]. set_solver.
  - injection Er as ->. by rewrite app_nil_r.
  - injection Er as <- ->. apply NoDup_app in N as (_ & _ & N). apply NoDup_cons in N as [N _]. set_solver.
Qed.

Lemma doctype_at_ok par l1 l2 : K par = l1 ++ l2 ->
  match head l2 with
  | None => Some false
  | Some c => k ← node_kind c h; if decide (k = NS_NODE_DOCTYPE) then Some true else ns_node_doctype_follows c h
  end = Some (existsb (is_kind h NS_NODE_DOCTYPE) l2).
Proof.
  intros E. destruct l2 as [|c l2]; [done|]. cbn [head existsb]. unfold is_kind at 1.
  assert (c ∈ K par) as Hc by (rewrite E; set_solver +).
  rewrite (node_kind_kd _ _ (kid_here _ _ Hc)), (proj1 (around_ok par l1 c l2 E)). cbn.
  rewrite bool_decide_decide. by destruct (decide (kd h c = NS_NODE_DOCTYPE)).
Qed.
Lemma element_at_ok par l1 l2 : is_Some (at_ par h) -> K par = l1 ++ l2 ->
  match head l2 with
  | Some c => ns_node_element_precedes c h
  | None => if no_place (head l2) then ns_node_has_child_kind par NS_NODE_ELEMENT h else Some false
  end = Some (existsb (is_kind h NS_NODE_ELEMENT) l1).
Proof.
  intros Hp E. destruct l2 as [|c l2]; cbn [head no_place].
  - rewrite has_child_kind_ok by done. by rewrite E, app_nil_r.
  - by rewrite (proj2 (around_ok par l1 c l2 E)).
Qed.

Lemma pre_insert_ok par node place : is_Some (at_ par h) -> is_Some (at_ node h) ->
  (forall c, place = Some c -> is_Some (at_ c h)) ->
  exists v, ns_pre_insert_validity par node place (no_place place) h = Some v /\ (v = None <-> insertable par node place).
Proof.
  intros Hp Hn Hc. unfold ns_pre_insert_validity, insertable. destruct (placed_ok par place Hc) as (b & Eb & Hb).
  set (ph := fun h0 : heap => c ← is_child par place h0; _).
  destruct (tree_rules_ok par node ph (if negb (no_place place) && negb b
      then Some (not_found ($"the reference child is not a child of this node")) else None) Hp Hn) as (v & -> & Hv).
  { unfold ph. by rewrite Eb. }
  cbn [mbind option_bind]. rewrite (parent_is_doc_ok _ _ Hp). cbn [mbind option_bind].
  assert (v = None <-> may_hold h K par node None /\ (forall c, place = Some c -> c ∈ K par)) as Hv'.
  { rewrite Hv, <- Hb. unfold may_hold. destruct (no_place place), b; cbn; naive_solver. }
  clear Hv. destruct v; [eexists; split; [done|]; split; [done|]; intros (H1 & H2 & _); by apply Hv'|].
  destruct (proj1 Hv' eq_refl) as [M1 M2]. destruct (is_doc h par) eqn:D; cbn [negb]; [|eexists; split; [done|]; by split].
  destruct (place_split par place M2) as (l1 & l2 & El & Hl).
  assert ((if no_place place then None else place) = place) as -> by by destruct place.
  match goal with |- exists v, document_rules ?fa ?fb ?fc ?fd _ _ = _ /\ _ =>
    destruct (document_rules_ok fa fb fc fd (existsb (is_kind h NS_NODE_ELEMENT) (K par)) (existsb (is_kind h NS_NODE_DOCTYPE) l2)
       (existsb (is_kind h NS_NODE_DOCTYPE) (K par)) (existsb (is_kind h NS_NODE_ELEMENT) l1) node Hn) as (v & -> & Hf) end.
  - by apply has_child_kind_ok.
  - rewrite <- Hl. by apply (doctype_at_ok par l1).
  - by apply has_child_kind_ok.
  - rewrite <- Hl. by apply (element_at_ok par l1 l2).
  - exists v. split; [done|]. rewrite Hf. split; [|intros (_ & _ & F); by apply F].
    intros F. split; [done|]. split; [done|]. intros _ m1 m2 Em Hm.
    by destruct (place_unique par l1 l2 m1 m2) as [-> ->]; [| |congruence|].
Qed.

(** The same for a replacement of [old]. *)
Definition replaceable (par node old : loc) : Prop :=
  may_hold h K par node None /\ old ∈ K par /\
  (is_doc h par = true -> forall l1 l2, K par = l1 ++ old :: l2 ->
     fits h K node (existsb (is_kind h NS_NODE_ELEMENT) (l1 ++ l2)) (existsb (is_kind h NS_NODE_DOCTYPE) l2)
       (existsb (is_kind h NS_NODE_DOCTYPE) (l1 ++ l2)) (existsb (is_kind h NS_NODE_ELEMENT) l1)).

Lemma others_ok par l1 old l2 k : is_Some (at_ par h) -> K par = l1 ++ old :: l2 ->
  ns_node_has_child_kind_other par k (Some old) h = Some (existsb (is_kind h k) (l1 ++ l2)).
Proof.
  intros Hp E. rewrite has_child_kind_other_ok by done. f_equal.
  destruct (mid_nodup h K OK _ _ _ _ E) as (N1 & N2 & _). rewrite E, !existsb_app. cbn.
  rewrite (bool_decide_false (Some old <> Some old)), andb_false_r by (intros X; by apply X). cbn.
  assert (forall l, old ∉ l -> existsb (fun c => is_kind h k c && bool_decide (Some c <> Some old)) l = existsb (is_kind h k) l) as X.
  { induction l as [|x l IH]; [done|]. intros [Y1 Y2]%not_elem_of_cons. cbn.
    rewrite bool_decide_true by congruence. by rewrite andb_true_r, IH. }
  by rewrite !X.
Qed.

Lemma pre_replace_ok par node old : is_Some (at_ par h) -> is_Some (at_ node h) -> is_Some (at_ old h) ->
  exists v, ns_pre_replace_validity par node old h = Some v /\ (v = None <-> replaceable par node old).
Proof.
  intros Hp Hn Ho. unfold ns_pre_replace_validity, replaceable.
  set (ph := fun h0 : heap => c ← is_child par (Some old) h0; _).
  destruct (tree_rules_ok par node ph (if negb (bool_decide (old ∈ K par))
      then Some (not_found ($"the child to replace is not a child of this node")) else None) Hp Hn) as (v & -> & Hv).
  { unfold ph. by rewrite (is_child_ok par old Ho). }
  cbn [mbind option_bind]. rewrite (parent_is_doc_ok _ _ Hp). cbn [mbind option_bind].
  assert (v = None <-> may_hold h K par node None /\ old ∈ K par) as Hv'.
  { rewrite Hv. unfold may_hold. destruct (bool_decide_reflect (old ∈ K par)); cbn; naive_solver. }
  clear Hv. destruct v; [eexists; split; [done|]; split; [done|]; intros (H1 & H2 & _); by apply Hv'|].
  destruct (proj1 Hv' eq_refl) as [M1 M2]. destruct (is_doc h par) eqn:D; cbn [negb]; [|eexists; split; [done|]; by split].
  destruct (list_elem_of_split _ _ M2) as (l1 & l2 & El). destruct (around_ok par l1 old l2 El) as [A1 A2].
  match goal with |- exists v, document_rules ?fa ?fb ?fc ?fd _ _ = _ /\ _ =>
    destruct (document_rules_ok fa fb fc fd (existsb (is_kind h NS_NODE_ELEMENT) (l1 ++ l2)) (existsb (is_kind h NS_NODE_DOCTYPE) l2)
       (existsb (is_kind h NS_NODE_DOCTYPE) (l1 ++ l2)) (existsb (is_kind h NS_NODE_ELEMENT) l1) node Hn) as (v & -> & Hf) end;
    try done; try by apply (others_ok par l1 old).
  exists v. split; [done|]. rewrite Hf. split; [|intros (_ & _ & F); by apply F].
  intros F. split; [done|]. split; [done|]. intros _ m1 m2 Em.
  destruct (place_unique par l1 (old :: l2) m1 (old :: m2)) as [-> [= ->]]; done.
Qed.
End Checks.

(** ** The standard's conditions

    "Ensure pre-insert validity" of [node] into [par] before [place] (at the end when
    there is none), condition by condition, in terms of the tree alone. [above] is the
    relation that must not hold from [node] to [par]: the standard's is
    [host_including_ancestor], which goes from a template to its content too; the
    code's is [inclusive_ancestor]. *)

Definition inclusive_ancestor (h : heap) (K : forest) : loc -> loc -> Prop := rtc (edge K).
Definition host_including_ancestor (h : heap) (K : forest) : loc -> loc -> Prop :=
  rtc (fun x y => edge K x y \/ exists d, h !! x = Some d /\ n_tpl_content (data d) = Some y).

(** No node of a list has this kind. *)
Definition none_is (h : heap) (k : ns_node_kind) (l : list loc) : Prop := forall c, c ∈ l -> kd h c <> k.

Record pre_insert_valid (above : heap -> forest -> loc -> loc -> Prop) (h : heap) (K : forest) (par node : loc) (place : option loc) : Prop := {
  v_parent : is_doc h par = true \/ is_frag h par = true \/ kd h par = NS_NODE_ELEMENT;
  v_cycle : ~ above h K node par;
  v_place : forall c, place = Some c -> c ∈ K par;
  v_node : is_doc h node = false;
  v_text : kd h node = NS_NODE_TEXT -> is_doc h par = false;
  v_doctype : kd h node = NS_NODE_DOCTYPE -> is_doc h par = true;
  (** The children of a document: those before the place and those from it on. *)
  v_children : is_doc h par = true -> forall l1 l2, K par = l1 ++ l2 -> head l2 = place ->
    let room := none_is h NS_NODE_ELEMENT (K par) /\ none_is h NS_NODE_DOCTYPE l2 in
    (is_frag h node = true -> none_is h NS_NODE_TEXT (K node) /\
       forall m1 e m2, K node = m1 ++ e :: m2 -> kd h e = NS_NODE_ELEMENT -> none_is h NS_NODE_ELEMENT (m1 ++ m2) /\ room) /\
    (kd h node = NS_NODE_ELEMENT -> room) /\
    (kd h node = NS_NODE_DOCTYPE -> none_is h NS_NODE_DOCTYPE (K par) /\ none_is h NS_NODE_ELEMENT l1);
}.

Lemma none_is_existsb h k l : none_is h k l <-> existsb (is_kind h k) l = false.
Proof.
  unfold none_is, is_kind. induction l as [|x l IH]; cbn; [split; [done|]; by intros _ c ?%not_elem_of_nil|].
  rewrite orb_false_iff, <- IH, bool_decide_eq_false. setoid_rewrite elem_of_cons. naive_solver.
Qed.
Lemma none_is_elements h l : none_is h NS_NODE_ELEMENT l <-> elements h l = 0.
Proof.
  unfold none_is, elements. induction l as [|x l IH]; [split; [done|]; by intros _ c ?%not_elem_of_nil|].
  rewrite filter_cons. setoid_rewrite elem_of_cons. destruct (decide (kd h x = NS_NODE_ELEMENT)); cbn; [naive_solver|].
  rewrite <- IH. naive_solver.
Qed.
Lemma elements_app h l1 l2 : elements h (l1 ++ l2) = elements h l1 + elements h l2.
Proof. unfold elements. by rewrite filter_app, length_app. Qed.
Lemma one_element h l (R : Prop) :
  (forall m1 e m2, l = m1 ++ e :: m2 -> kd h e = NS_NODE_ELEMENT -> none_is h NS_NODE_ELEMENT (m1 ++ m2) /\ R) <->
  elements h l = 0 \/ (elements h l = 1 /\ R).
Proof.
  split.
  - intros E. destruct (decide (elements h l = 0)) as [Z|Z]; [by left|right].
    destruct (filter (fun c => kd h c = NS_NODE_ELEMENT) l) as [|e f] eqn:Ef; [unfold elements in Z; by rewrite Ef in Z|].
    assert (e ∈ filter (fun c => kd h c = NS_NODE_ELEMENT) l) as He by (rewrite Ef; by left).
    apply list_elem_of_filter in He as [Hk He]. apply list_elem_of_split in He as (m1 & m2 & ->).
    destruct (E m1 e m2 eq_refl Hk) as [N HR]. split; [|done]. apply none_is_elements in N. rewrite elements_app in *.
    unfold elements at 2. rewrite filter_cons, decide_True by done. cbn. fold (elements h m2). lia.
  - intros C m1 e m2 -> Hk. rewrite elements_app in C. unfold elements at 2 4 in C.
    rewrite filter_cons, decide_True in C by done. cbn in C. fold (elements h m2) in C.
    rewrite none_is_elements, elements_app. destruct C as [?|[? ?]]; [lia|]. split; [lia|done].
Qed.

(** What the code accepts is what the standard accepts, but for the hosts. *)
Lemma insertable_valid h K par node place : pre_insert_valid inclusive_ancestor h K par node place <-> insertable h K par node place.
Proof.
  assert (forall l1 l2,
    ((is_frag h node = true -> none_is h NS_NODE_TEXT (K node) /\
       forall m1 e m2, K node = m1 ++ e :: m2 -> kd h e = NS_NODE_ELEMENT -> none_is h NS_NODE_ELEMENT (m1 ++ m2) /\
         none_is h NS_NODE_ELEMENT (K par) /\ none_is h NS_NODE_DOCTYPE l2) /\
     (kd h node = NS_NODE_ELEMENT -> none_is h NS_NODE_ELEMENT (K par) /\ none_is h NS_NODE_DOCTYPE l2) /\
     (kd h node = NS_NODE_DOCTYPE -> none_is h NS_NODE_DOCTYPE (K par) /\ none_is h NS_NODE_ELEMENT l1)) <->
    fits h K node (existsb (is_kind h NS_NODE_ELEMENT) (K par)) (existsb (is_kind h NS_NODE_DOCTYPE) l2)
       (existsb (is_kind h NS_NODE_DOCTYPE) (K par)) (existsb (is_kind h NS_NODE_ELEMENT) l1)) as F.
  { intros l1 l2. unfold fits. rewrite one_element, !none_is_existsb. destruct (is_frag h node) eqn:Ef.
    - assert (kd h node = NS_NODE_DOCUMENT) as -> by (unfold is_frag in Ef; by apply andb_prop in Ef as [?%bool_decide_eq_true _]).
      unfold texts. naive_solver.
    - destruct (kd h node); naive_solver. }
  split.
  - intros [V1 V2 V3 V4 V5 V6 V7]. split; [by split_and!|]. split; [done|]. intros D l1 l2 E Hd. apply F. by apply V7.
  - intros ((M1 & M2 & _ & M4 & M5 & M6) & M7 & M8). split; try done. intros D l1 l2 E Hd. apply F. by apply M8.
Qed.

(** What the standard accepts the code accepts. *)
Lemma host_including_valid h K par node place :
  pre_insert_valid host_including_ancestor h K par node place -> pre_insert_valid inclusive_ancestor h K par node place.
Proof.
  intros [V1 V2 V3 V4 V5 V6 V7]. split; try done. intros R. apply V2. unfold inclusive_ancestor, host_including_ancestor in *.
  clear -R. induction R as [|x y z Hx _ IH]; [apply rtc_refl|]. eapply rtc_l; [by left|done].
Qed.
