(* ===== verification/DomCalls.v ===== *)
(** * What each method does to the tree

    [appendChild], [insertBefore], [replaceChild], [removeChild], [moveBefore] and
    [insertAdjacentElement], against the forest the links stand for: they throw when
    the checks of [DomSpec] say so, changing nothing, and otherwise move exactly the
    nodes they say, the scripts' side owning the ones left in no tree. *)

From stdpp Require Import functions relations.
From S2P Require Import Prelude CStr GLib Xml DomStore DomTree Dom DomSpec.

(** [cs] put before [place], or at the end. *)
Fixpoint splice (place : option loc) (cs l : list loc) : list loc :=
  match l with [] => cs | x :: l' => if decide (Some x = place) then cs ++ x :: l' else x :: splice place cs l' end.

Lemma splice_split place cs l1 l2 : head l2 = place -> (forall r, place = Some r -> r ∉ l1) -> splice place cs (l1 ++ l2) = l1 ++ cs ++ l2.
Proof.
  intros Hl. induction l1 as [|x l1 IH]; intros Hn.
  - destruct l2 as [|y l2]; cbn in *; [by rewrite app_nil_r|]. by rewrite decide_True.
  - cbn. rewrite decide_False by (intros Hx; apply (Hn x); [done|by left]). f_equal. apply IH.
    intros r Hr Hx. apply (Hn r); [done|by right].
Qed.
Lemma splice_end cs l : splice None cs l = l ++ cs.
Proof. induction l as [|x l IH]; [done|]. cbn. by rewrite IH. Qed.
Lemma splice_before r c l : r ∈ l -> splice (Some r) [c] l = before r c l.
Proof.
  induction l as [|x l IH]; [by intros ?%not_elem_of_nil|]. cbn. intros Hr.
  destruct (decide (Some x = Some r)) as [E|E], (decide (x = r)) as [E'|E']; try congruence.
  f_equal. apply IH. apply elem_of_cons in Hr as [->|]; [congruence|done].
Qed.

(** Paths to a node do not pass the children it gains. *)
Lemma paths_to (K K' : forest) p : (forall x y, x <> p -> edge K' x y -> edge K x y) -> forall x, rtc (edge K') x p -> rtc (edge K) x p.
Proof.
  intros E x. remember p as q eqn:Eq. induction 1 as [|x y z Hx _ IH]; [apply rtc_refl|].
  destruct (decide (x = p)) as [->|Hn]; [subst; apply rtc_refl|].
  eapply rtc_l; [apply E; [by subst|done]|by apply IH].
Qed.

Section Calls.
Context {G : GLib} {H : Host} {Q : QuietCallbacks}.

Lemma insert_before_reach c ref p d K O : holds d K O -> is_Some (at_ p (hp d)) -> is_Some (at_ c (hp d)) ->
  ~ rtc (edge K) c p -> ref ∈ K p -> ref <> c ->
  exists d', ns_element_insert_before_single p c ref d = Some d' /\ reach d (put c p (before ref c) K) (O ∖ {[ c ]}) d'.
Proof.
  intros V Hp Hc Hb Hr Hn. unfold ns_element_insert_before_single. rewrite decide_False by congruence.
  destruct Hc as [k Ec]. unfold links_of. rewrite Ec. cbn [mbind option_bind].
  assert (exists d1, match parent k with Some _ => tell (PreRemove c) d | None => Some d end = Some d1 /\ reach d K O d1 /\
    (forall n, at_ n (hp d1) = at_ n (hp d))) as (d1 & -> & [V1 S1] & L1).
  { destruct (parent k); [by apply tell_reach|]. exists d. split; [done|]. split; [split; [done|apply keeps_refl]|done]. }
  cbn [mbind option_bind].
  assert (is_Some (at_ p (hp d1)) /\ is_Some (at_ c (hp d1))) as [Hp1 Hc1] by (rewrite !L1; eauto).
  destruct (link_before_ok _ K (h_tree _ _ _ V1) p c Hp1 Hc1 Hb ref Hr Hn) as (h1 & h2 & E1 & B1 & E2 & _ & B2).
  destruct (on_heap_reach (remove_if_linked c) d1 K O _ h1 V1 E1 B1) as (d2 & -> & R2 & Eh).
  { intros n q _. apply without_edge. }
  cbn [mbind option_bind]. unfold on_heap. cbn [adopt hp]. rewrite Eh, E2. cbn [mbind option_bind].
  eexists. split; [done|]. destruct B2 as [T2 D2].
  assert (keeps d1 (Build_page h2 (orphan_nodes (adopt c d2)) (mutated (adopt c d2)))) as S2
    by (intros n x Hx; cbn; by rewrite (shape_same _ _ n D2)).
  split; [|by eapply keeps_trans]. split; [done| |cbn; by rewrite (h_orphans _ _ _ (proj1 R2))].
  intros n [Hn1 Hn2]%elem_of_difference. destruct (h_owned _ _ _ V1 n Hn1) as [W1 W2].
  split; [by eapply keeps_at|]. intros q [->|[Hx _]]%put_elem; [set_solver|by apply (W2 q)|apply adds_next].
Qed.

Lemma place_child_reach place c p d K O : holds d K O -> is_Some (at_ p (hp d)) -> is_Some (at_ c (hp d)) ->
  ~ rtc (edge K) c p -> (forall r, place = Some r -> r ∈ K p) -> place <> Some c ->
  exists d', place_child p place c d = Some d' /\ reach d (put c p (splice place [c]) K) (O ∖ {[ c ]}) d'.
Proof.
  intros V Hp Hc Hb Hr Hn. unfold place_child. pose proof (h_tree _ _ _ V) as T. destruct place as [r|].
  - pose proof (Hr r eq_refl) as Hk. rewrite (is_child_ok _ K T p r) by (by eapply kid_here).
    rewrite bool_decide_true by done. cbn [mbind option_bind].
    destruct (insert_before_reach c r p d K O) as (d' & -> & R); try done; [congruence|].
    exists d'. split; [done|]. eapply reach_ext; [|done|exact R]. intros n. unfold put.
    destruct (decide (n = p)) as [->|]; [|by rewrite !fn_lookup_insert_ne]. rewrite !fn_lookup_insert.
    rewrite splice_before; [done|]. unfold without. rewrite list_elem_of_filter. split; [congruence|done].
  - cbn [is_child mbind option_bind]. destruct (adopt_reach c d K O V) as [V' S'].
    destruct (append_reach c p (adopt c d) K (O ∖ {[c]})) as (d' & -> & R); try done; [set_solver|].
    exists d'. split; [done|]. eapply reach_trans; [by split|].
    eapply reach_ext; [|done|exact R]. intros n. unfold put.
    destruct (decide (n = p)) as [->|]; [|by rewrite !fn_lookup_insert_ne]. by rewrite !fn_lookup_insert, splice_end.
Qed.

(** The children of a fragment taken out in turn; [F m] is the forest when [m] have
    been. *)
Section Emptied.
Context (place : loc -> page -> option page) (fr : loc) (d0 : page) (kids : list loc) (F : list loc -> forest) (O : gset loc).
Context (Left : forall m rest, kids = m ++ rest -> F m fr = rest).
Context (Step : forall m c rest d, kids = m ++ c :: rest -> keeps d0 d -> holds d (F m) (O ∖ list_to_set m) ->
  exists d', place c d = Some d' /\ reach d (F (m ++ [c])) (O ∖ list_to_set (m ++ [c])) d').

Lemma empty_loop_reach fuel : forall m rest d, kids = m ++ rest -> keeps d0 d -> holds d (F m) (O ∖ list_to_set m) ->
  length rest <= fuel ->
  exists d', empty_loop place fuel (head rest) m d = Some (kids, d') /\ reach d (F kids) (O ∖ list_to_set kids) d'.
Proof.
  induction fuel as [|fuel IH]; intros m [|c rest] d E S V L; cbn in L; try lia;
    try (rewrite app_nil_r in E; subst m; exists d; split; [done|]; split; [done|apply keeps_refl]).
  cbn. pose proof (Left _ _ E) as Ef.
  destruct (at_kid _ _ (h_tree _ _ _ V) fr [] c rest Ef) as (k & Ek & _ & _ & N). unfold links_of. rewrite Ek. cbn. rewrite N.
  destruct (Step _ _ _ _ E S V) as (d1 & -> & V1 & S1). cbn.
  destruct (IH (m ++ [c]) rest d1) as (d2 & -> & R2); [by rewrite E, <- app_assoc|by eapply keeps_trans|done|lia|].
  exists d2. split; [done|]. by eapply reach_trans; [split|].
Qed.

Lemma empty_into_reach : holds d0 (F []) O -> is_Some (at_ fr (hp d0)) ->
  exists d', empty_into place fr d0 = Some (kids, d') /\ reach d0 (F kids) (O ∖ list_to_set kids) d'.
Proof.
  intros V [k E]. unfold empty_into, links_of. rewrite E. cbn [mbind option_bind].
  pose proof (h_tree _ _ _ V) as T. rewrite (proj1 (ok_ends _ _ T _ _ E)), (Left [] kids eq_refl).
  apply empty_loop_reach; [done|apply keeps_refl| |].
  - destruct V as [V1 V2 V3]. rewrite list_to_set_nil, difference_empty_L. by split.
  - pose proof (kids_bound _ _ T fr) as B. rewrite (Left [] kids eq_refl) in B. lia.
Qed.
End Emptied.

(** The forest when [m] of the children of [fr] stand between [l1] and [l2] under
    [p] and [rest] are left. *)
Definition spliced (K : forest) (p fr : loc) (l1 l2 m rest : list loc) : forest :=
  <[p := l1 ++ m ++ l2]> (<[fr := rest]> K).

Section Spliced.
Context (h : heap) (K : forest) (OK : tree_ok h K) (p fr : loc) (l1 l2 : list loc).
Context (E : K p = l1 ++ l2) (Hn : fr <> p) (Below : ~ rtc (edge K) fr p).

Lemma spliced_fr m rest : spliced K p fr l1 l2 m rest fr = rest.
Proof. unfold spliced. by rewrite fn_lookup_insert_ne, fn_lookup_insert. Qed.
Lemma spliced_p m rest : spliced K p fr l1 l2 m rest p = l1 ++ m ++ l2.
Proof. unfold spliced. by rewrite fn_lookup_insert. Qed.
Lemma spliced_none n : spliced K p fr l1 l2 [] (K fr) n = K n.
Proof.
  unfold spliced. destruct (decide (n = p)) as [->|]; [by rewrite fn_lookup_insert, E|].
  rewrite fn_lookup_insert_ne by done. destruct (decide (n = fr)) as [->|]; [by rewrite fn_lookup_insert|].
  by rewrite fn_lookup_insert_ne.
Qed.

Lemma spliced_below m c rest : K fr = m ++ c :: rest -> ~ rtc (edge (spliced K p fr l1 l2 m (c :: rest))) c p.
Proof.
  intros Ek Hp. apply Below. eapply rtc_l; [unfold edge; rewrite Ek; apply elem_of_app; right; by left|].
  revert Hp. apply paths_to. intros x y Hx. unfold edge, spliced. rewrite fn_lookup_insert_ne by done.
  destruct (decide (x = fr)) as [->|]; [rewrite fn_lookup_insert, Ek; set_solver|by rewrite fn_lookup_insert_ne].
Qed.

Lemma spliced_step m c rest place : K fr = m ++ c :: rest -> head l2 = place -> forall n,
  put c p (splice place [c]) (spliced K p fr l1 l2 m (c :: rest)) n = spliced K p fr l1 l2 (m ++ [c]) rest n.
Proof.
  intros Ek Hl n. assert (c ∈ K fr) as Hc by (rewrite Ek; set_solver +).
  assert (c ∉ l1 ++ l2) as Nc. { rewrite <- E. intros Hx. apply Hn. by apply (one_parent h K OK c). }
  pose proof (kids_nodup h K OK fr) as N. rewrite Ek in N. apply NoDup_app in N as (_ & N & N').
  apply NoDup_cons in N' as [N' _].
  assert (c ∉ m) as Nm by (intros Hx; apply (N _ Hx); by left).
  pose proof (kids_nodup h K OK p) as Np. rewrite E in Np. apply NoDup_app in Np as (_ & Np & _).
  unfold put. destruct (decide (n = p)) as [->|Hp].
  - rewrite fn_lookup_insert, spliced_p. unfold without. rewrite spliced_p, without_absent by set_solver.
    rewrite app_assoc, splice_split; [by rewrite <- !app_assoc|done|].
    intros r Hr [Hx|Hx]%elem_of_app; (rewrite <- Hl in Hr; apply head_elem in Hr); [by apply (Np r)|].
    apply Hn. apply (one_parent h K OK r); [rewrite Ek|rewrite E]; set_solver.
  - rewrite fn_lookup_insert_ne by done. unfold without. destruct (decide (n = fr)) as [->|Hf].
    + rewrite !spliced_fr, filter_cons_False by (intros X; by apply X). by apply without_absent.
    + unfold spliced. rewrite !fn_lookup_insert_ne by done. apply without_absent.
      intros Hx. apply Hf. by apply (one_parent h K OK c).
Qed.
End Spliced.

Lemma put_without c p f K n : put c p f (without c K) n = put c p f K n.
Proof.
  assert (forall q, without c (without c K) q = without c K q) as W.
  { intros q. unfold without at 1. apply without_absent. unfold without. rewrite list_elem_of_filter. tauto. }
  unfold put. destruct (decide (n = p)) as [->|]; [by rewrite !fn_lookup_insert, W|by rewrite !fn_lookup_insert_ne].
Qed.

Lemma record_added_reach p n d K O : holds d K O -> is_Some (at_ n (hp d)) ->
  exists d', record_added p n d = Some d' /\ reach d K O d'.
Proof.
  intros V [k E]. unfold record_added, links_of. rewrite E. cbn [mbind option_bind].
  destruct (tell_reach (ChildChange p (Some n) None (prev_sibling k) (next_sibling k)) d K O V) as (d' & ? & ? & _). eauto.
Qed.

(** One child of a fragment moved, the browser being told before and after. *)
Lemma move_kid e place fin c p d K O : holds d K O -> is_Some (at_ p (hp d)) -> is_Some (at_ c (hp d)) ->
  ~ rtc (edge K) c p -> (forall r, place = Some r -> r ∈ K p) -> place <> Some c ->
  (forall d K O, holds d K O -> is_Some (at_ c (hp d)) -> exists d', fin d = Some d' /\ reach d K O d') ->
  exists d', (d ← tell e d; d ← on_heap (ns_node_remove c) d; d ← place_child p place c d; fin d) = Some d' /\
    reach d (put c p (splice place [c]) K) (O ∖ {[ c ]}) d'.
Proof.
  intros V Hp Hc Hb Hr Hn Hf. destruct (tell_reach e d K O V) as (d1 & -> & R1 & L1). cbn [mbind option_bind].
  destruct (remove_reach c d1 K O (proj1 R1)) as (d2 & -> & _ & R2); [by rewrite L1|]. cbn [mbind option_bind].
  pose proof (reach_trans _ _ _ _ _ _ _ R1 R2) as R. destruct (place_child_reach place c p d2 (without c K) O) as (d3 & -> & R3).
  - apply R2.
  - eapply keeps_at; [apply R|done].
  - eapply keeps_at; [apply R|done].
  - by intros ?%without_below.
  - intros r E. unfold without. rewrite list_elem_of_filter. split; [congruence|by apply Hr].
  - done.
  - cbn [mbind option_bind]. pose proof (reach_trans _ _ _ _ _ _ _ R R3) as R'.
    destruct (Hf d3 _ _ (proj1 R3)) as (d4 & -> & R4); [by eapply keeps_at; [apply R'|]|].
    exists d4. split; [done|]. eapply reach_ext; [|done|exact (reach_trans _ _ _ _ _ _ _ R' R4)].
    intros n. apply put_without.
Qed.

(** All the children of a fragment. *)
Lemma move_kids e place fin fr p l1 l2 d K O : holds d K O -> is_Some (at_ p (hp d)) -> is_Some (at_ fr (hp d)) ->
  ~ rtc (edge K) fr p -> K p = l1 ++ l2 -> head l2 = place ->
  (forall c d K O, holds d K O -> is_Some (at_ c (hp d)) -> exists d', fin c d = Some d' /\ reach d K O d') ->
  exists d', empty_into (fun c d => d ← tell (e c) d; d ← on_heap (ns_node_remove c) d; d ← place_child p place c d; fin c d) fr d =
      Some (K fr, d') /\ reach d (spliced K p fr l1 l2 (K fr) []) (O ∖ list_to_set (K fr)) d'.
Proof.
  intros V Hp Hf Hb E Hl Hfin. pose proof (h_tree _ _ _ V) as T.
  assert (fr <> p) as Hn by (intros ->; apply Hb, rtc_refl).
  set (F m := spliced K p fr l1 l2 m (drop (length m) (K fr))).
  assert (forall m rest, K fr = m ++ rest -> F m = spliced K p fr l1 l2 m rest) as EF
    by (intros m rest Em; unfold F; by rewrite Em, drop_app_length).
  destruct (empty_into_reach (fun c d => d ← tell (e c) d; d ← on_heap (ns_node_remove c) d; d ← place_child p place c d; fin c d)
    fr d (K fr) F O) as (d' & -> & R); [| | |done|].
  - intros m rest Em. rewrite (EF _ _ Em). by apply spliced_fr.
  - intros m c rest d1 Em S1 V1. rewrite (EF _ _ Em) in V1. pose proof (kid_here _ K T fr c ltac:(rewrite Em; set_solver +)) as Hc.
    destruct (move_kid (e c) place (fin c) c p d1 (spliced K p fr l1 l2 m (c :: rest)) (O ∖ list_to_set m) V1) as (d2 & E2 & R2);
      try (by eapply keeps_at); try by apply Hfin.
    + by apply (spliced_below _ K T).
    + intros r Hr. rewrite spliced_p. subst place. apply head_elem in Hr. set_solver.
    + intros ->. apply Hn. apply (one_parent _ K T c); [rewrite Em|rewrite E]; [set_solver +|apply head_elem in Hl; set_solver].
    + exists d2. split; [done|]. eapply reach_ext; [| |exact R2].
      * intros n. rewrite (EF (m ++ [c]) rest) by (by rewrite Em, <- app_assoc). by apply (spliced_step _ K T).
      * rewrite list_to_set_app_L. set_solver.
  - eapply (reach_ext d d); [| |split; [exact V|apply keeps_refl]]; [|done]. intros n. rewrite (EF [] (K fr)) by done.
    by rewrite spliced_none.
  - exists d'. split; [done|]. rewrite (EF (K fr) []) in R by (by rewrite app_nil_r). done.
Qed.

(** ** Insertions *)

(** A document or fragment without a parent, whose children are what is inserted. *)
Definition loose (h : heap) (n : loc) : bool :=
  bool_decide (kd h n = NS_NODE_DOCUMENT) && bool_decide ((parent <$> at_ n h) = Some None).
Definition taken (h : heap) (K : forest) (node : loc) : list loc := if loose h node then K node else [node].
Definition inserted (h : heap) (K : forest) (par node : loc) (place : option loc) : forest :=
  if decide (place = Some node) then K
  else if loose h node then <[par := splice place (K node) (K par)]> (<[node := []]> K)
  else put node par (splice place [node]) K.

Lemma unparented_doc_ok h n : is_Some (at_ n h) -> unparented_doc n h = Some (loose h n).
Proof.
  intros Hn. unfold unparented_doc, loose. rewrite (node_kind_kd _ _ Hn). destruct Hn as [k ->]. cbn.
  by destruct (parent k).
Qed.

Lemma keeps_kd d d1 n : keeps d d1 -> is_Some (at_ n (hp d)) -> kd (hp d1) n = kd (hp d) n.
Proof. intros S [x E]%at_shape. unfold kd. by rewrite E, (S _ _ E). Qed.
Lemma loose_true h K n : tree_ok h K -> is_Some (at_ n h) -> loose h n = true <-> kd h n = NS_NODE_DOCUMENT /\ forall p, n ∉ K p.
Proof.
  intros T [k E]. unfold loose. rewrite E, andb_true_iff, !bool_decide_eq_true. cbn.
  enough (Some (parent k) = Some None <-> forall p, n ∉ K p) by tauto. split.
  - intros [= Hk] p Hp. apply (parent_edge h K T _ _ _ E) in Hp. congruence.
  - intros Hp. f_equal. destruct (parent k) as [p|] eqn:Hk; [|done]. apply (parent_edge h K T _ _ _ E) in Hk. by apply Hp in Hk.
Qed.
Lemma loose_kept d d1 K O O1 n : holds d K O -> holds d1 K O1 -> keeps d d1 -> is_Some (at_ n (hp d)) ->
  loose (hp d1) n = loose (hp d) n.
Proof.
  intros V V1 S Hn. apply eq_true_iff_eq.
  rewrite (loose_true _ K n (h_tree _ _ _ V) Hn), (loose_true _ K n (h_tree _ _ _ V1)) by (by eapply keeps_at).
  by rewrite (keeps_kd _ _ _ S Hn).
Qed.

Lemma spliced_all K p fr l1 l2 place n : K p = l1 ++ l2 -> head l2 = place -> (forall r, place = Some r -> r ∉ l1) ->
  spliced K p fr l1 l2 (K fr) [] n = <[p := splice place (K fr) (K p)]> (<[fr := []]> K) n.
Proof. intros E Hl Hr. unfold spliced. by rewrite E, splice_split. Qed.

Lemma place_before K p l1 l2 place d O : holds d K O -> K p = l1 ++ l2 -> head l2 = place -> forall r, place = Some r -> r ∉ l1.
Proof.
  intros V E Hl r Hr Hx. pose proof (kids_nodup _ K (h_tree _ _ _ V) p) as N. rewrite E in N.
  apply NoDup_app in N as (_ & N & _). apply (N _ Hx). rewrite <- Hl in Hr. by apply head_elem.
Qed.

Lemma activate_all_reach ns : forall d K O, holds d K O -> exists d', activate_all ns d = Some d' /\ reach d K O d'.
Proof.
  induction ns as [|n ns IH]; intros d K O V; [exists d; split; [done|]; split; [done|apply keeps_refl]|].
  cbn. destruct (tell_reach (Activate n) d K O V) as (d1 & -> & R1 & _). cbn.
  destruct (IH d1 K O (proj1 R1)) as (d2 & -> & R2). exists d2. split; [done|]. by eapply reach_trans.
Qed.

(** Whatever is told to the browser at the end of a method. *)
Lemma finish_reach (b : bool) f d K O : (forall d, holds d K O -> exists d', f d = Some d' /\ reach d K O d') -> holds d K O ->
  exists d', (if b then Some d else f d) = Some d' /\ reach d K O d'.
Proof. intros Hf V. destruct b; [exists d; split; [done|]; split; [done|apply keeps_refl]|by apply Hf]. Qed.

Lemma tell_step e K O d : holds d K O -> exists d', tell e d = Some d' /\ reach d K O d'.
Proof. intros V. destruct (tell_reach e d K O V) as (d' & ? & ? & _). eauto. Qed.

Lemma told_moved (ns : list loc) (e : list loc -> event) d K O : holds d K O ->
  exists d', match ns with [] => Some d | _ => tell (e ns) d end = Some d' /\ reach d K O d'.
Proof. intros V. destruct ns; [exists d; split; [done|]; split; [done|apply keeps_refl]|by apply tell_step]. Qed.

(** A method that returns [n], the page holding [K] and [O]. *)
Definition returns (d : page) (n : option loc) (K : forest) (O : gset loc) (x : option (reply * page)) : Prop :=
  exists d', x = Some (Returned n, d') /\ reach d K O d'.

Lemma returns_bind d n K1 O1 K O (m : option page) f : (exists d1, m = Some d1 /\ reach d K1 O1 d1) ->
  (forall d1, holds d1 K1 O1 -> keeps d d1 -> returns d1 n K O (f d1)) -> returns d n K O (m ≫= f).
Proof.
  intros (d1 & -> & [V S]) Hf. destruct (Hf d1 V S) as (d2 & E & R). exists d2. split; [done|]. by eapply reach_trans.
Qed.
Lemma returns_after d d1 n K1 O1 K O x : reach d K1 O1 d1 -> returns d1 n K O x -> returns d n K O x.
Proof. intros R (d2 & E & R2). exists d2. split; [done|]. by eapply reach_trans. Qed.
Lemma returns_now d n K O : holds d K O -> returns d n K O (Some (Returned n, d)).
Proof. intros V. exists d. split; [done|]. split; [done|apply keeps_refl]. Qed.
Lemma returns_ext d n K O K' O' x : (forall y, K y = K' y) -> O = O' -> returns d n K O x -> returns d n K' O' x.
Proof. intros EK EO (d' & E & R). exists d'. split; [done|]. by eapply reach_ext. Qed.
Ltac then_ d V S := eapply returns_bind; [|intros d V S; cbn beta].

Lemma insert_fragment par newc place d K O : holds d K O -> is_Some (at_ par (hp d)) -> is_Some (at_ newc (hp d)) ->
  ~ rtc (edge K) newc par -> (forall c, place = Some c -> c ∈ K par) -> forall inert,
  returns d (Some newc) (<[par := splice place (K newc) (K par)]> (<[newc := []]> K)) (O ∖ list_to_set (K newc))
    (d ← tell (FragmentEmptied newc) d;
     has_ref ← is_child par place (hp d);
     p ← links_of par d;
     batch_prev ← (match place with
       | Some r => if (has_ref : bool) then l ← links_of r d; Some (prev_sibling l) else Some (last_child p)
       | None => Some (last_child p) end);
     '(added, d) ← empty_into (fun c d =>
          d ← tell (Disconnect c) d; d ← on_heap (ns_node_remove c) d;
          d ← place_child par place c d;
          tell (IndexChange par (Some c) None) d) newc d;
     d ← (match added with [] => Some d
          | _ => tell (ChildrenMoved par added [] batch_prev (if (has_ref : bool) then place else None)) d end);
     d ← (if (inert : bool) then Some (mutate d) else tell (Activate par) (mutate d));
     Some (Returned (Some newc), d)).
Proof.
  intros V Hp Hn Hb Hpl inert. then_ d1 V1 S1; [by apply tell_step|]. pose proof (h_tree _ _ _ V1) as T1.
  apply (keeps_at _ _ _ S1) in Hp, Hn.
  assert (exists b, is_child par place (hp d1) = Some b) as [b ->].
  { destruct place as [r|]; [|by exists false]. rewrite (is_child_ok _ K T1 par r); [eauto|].
    by eapply kid_here; [|apply Hpl]. }
  destruct (Hp) as [kp Ekp]. change (links_of par d1) with (at_ par (hp d1)). rewrite Ekp. cbn [mbind option_bind].
  assert (exists bp, match place with
       | Some r => if (b : bool) then l ← links_of r d1; Some (prev_sibling l) else Some (last_child kp)
       | None => Some (last_child kp) end = Some bp) as [bp ->].
  { destruct place as [r|]; [|eauto]. destruct b; [|eauto].
    destruct (kid_here _ K T1 par r (Hpl _ eq_refl)) as [kr Ekr]. unfold links_of. rewrite Ekr. cbn. eauto. }
  cbn [mbind option_bind]. destruct (place_split K par place Hpl) as (l1 & l2 & El & Hl).
  destruct (move_kids Disconnect place (fun c => tell (IndexChange par (Some c) None)) newc par l1 l2 d1 K O)
    as (d2 & -> & R2); try done; [by intros; apply tell_step|]. cbn [mbind option_bind].
  eapply returns_ext; [intros n; eapply (spliced_all K par newc); [exact El|exact Hl|exact (place_before _ _ _ _ _ _ _ V1 El Hl)]|done|].
  eapply returns_after; [exact R2|]. destruct R2 as [V2 _]. then_ d3 V3 S3.
  { apply (told_moved (K newc) (fun ns => ChildrenMoved par ns [] bp (if b then place else None))). exact V2. }
  then_ d4 V4 S4; [|by apply returns_now].
  apply (finish_reach inert (tell (Activate par)) (mutate d3) _ _ (tell_step _ _ _)), mutate_reach, V3.
Qed.

(** The end of a method that put one node in. *)
Lemma placed_end par n r inert d K O : holds d K O -> is_Some (at_ n (hp d)) ->
  returns d r K O (d ← record_added par n (mutate d); d ← (if (inert : bool) then Some d else tell (Activate n) d); Some (Returned r, d)).
Proof.
  intros V Hn. then_ d4 V4 S4; [exact (record_added_reach par n (mutate d) K O (proj1 (mutate_reach d K O V)) Hn)|].
  then_ d5 V5 S5; [by apply (finish_reach inert _ _ _ _ (tell_step _ _ _))|by apply returns_now].
Qed.

Lemma insert_one par newc place d K O : holds d K O -> is_Some (at_ par (hp d)) -> is_Some (at_ newc (hp d)) ->
  ~ rtc (edge K) newc par -> (forall c, place = Some c -> c ∈ K par) -> place <> Some newc -> forall inert,
  returns d (Some newc) (put newc par (splice place [newc]) K) (O ∖ {[ newc ]})
    (d ← tell (Disconnect newc) d; d ← tell (MoveRemoval newc) d; d ← place_child par place newc d;
     d ← record_added par newc (mutate d); d ← (if (inert : bool) then Some d else tell (Activate newc) d);
     Some (Returned (Some newc), d)).
Proof.
  intros V Hp Hn Hb Hpl Hne inert. then_ d1 V1 S1; [by apply tell_step|]. then_ d2 V2 S2; [by apply tell_step|].
  then_ d3 V3 S3; [apply place_child_reach; eauto using keeps_at, keeps_trans|].
  apply placed_end; eauto using keeps_at, keeps_trans.
Qed.

Lemma insertBefore_ok par newc place d K O : holds d K O -> is_Some (at_ par (hp d)) -> is_Some (at_ newc (hp d)) ->
  (forall c, place = Some c -> is_Some (at_ c (hp d))) ->
  (insertable (hp d) K par newc place /\
    returns d (Some newc) (inserted (hp d) K par newc place) (O ∖ list_to_set (taken (hp d) K newc))
      (ns_element_insertBefore par newc place (no_place place) d)) \/
  (~ insertable (hp d) K par newc place /\
    exists e, ns_element_insertBefore par newc place (no_place place) d = Some (Thrown e, d)).
Proof.
  intros V Hp Hn Hc. pose proof (h_tree _ _ _ V) as T.
  destruct (pre_insert_ok _ K T par newc place Hp Hn Hc) as (v & E & Hv). unfold ns_element_insertBefore.
  rewrite E. cbn [mbind option_bind]. destruct v as [e|]; [right; split; [by intros ?%Hv|eauto]|left].
  pose proof (proj1 Hv eq_refl) as Hi. split; [done|]. destruct Hi as ((_ & Hb & _) & Hpl & _).
  unfold inserted, taken. destruct (decide (place = Some newc)) as [Ep|Ep].
  { assert (newc ∉ O) as No. { intros Ho. apply (proj2 (h_owned _ _ _ V _ Ho) par). by apply Hpl. }
    assert (loose (hp d) newc = false) as ->.
    { unfold loose. destruct (kid_linked _ K T par newc (Hpl _ Ep)) as (k & -> & Hk). cbn. rewrite Hk. by rewrite andb_false_r. }
    cbn [list_to_set]. replace (O ∖ _) with O by (cbn; set_solver). by apply returns_now. }
  destruct (in_template_content_total _ K T par Hp) as (inert & ->). cbn [mbind option_bind].
  rewrite (unparented_doc_ok _ _ Hn). cbn [mbind option_bind]. destruct (loose (hp d) newc).
  - by apply insert_fragment.
  - eapply returns_ext; [done| |by apply insert_one]. cbn. set_solver.
Qed.

Lemma append_fragment par child d K O : holds d K O -> is_Some (at_ par (hp d)) -> is_Some (at_ child (hp d)) ->
  ~ rtc (edge K) child par -> forall inert,
  returns d (Some child) (<[par := splice None (K child) (K par)]> (<[child := []]> K)) (O ∖ list_to_set (K child))
    (d ← tell (FragmentEmptied child) d; p ← links_of par d;
     '(moved, d) ← empty_into (fun c d =>
          d ← tell (Disconnect c) d; d ← on_heap (ns_node_remove c) d;
          d ← on_heap (ns_node_append_child par c) (adopt c d);
          tell (IndexChange par (Some c) None) d) child d;
     d ← (match moved with [] => Some d | _ => tell (ChildrenMoved par moved [] (last_child p) None) d end);
     d ← (if (inert : bool) then Some (mutate d) else activate_all moved (mutate d));
     Some (Returned (Some child), d)).
Proof.
  intros V Hp Hn Hb inert. then_ d1 V1 S1; [by apply tell_step|]. apply (keeps_at _ _ _ S1) in Hp, Hn.
  pose proof Hp as [kp Ekp]. change (links_of par d1) with (at_ par (hp d1)). rewrite Ekp. cbn [mbind option_bind].
  assert (K par = K par ++ []) as El by (by rewrite app_nil_r).
  destruct (move_kids Disconnect None (fun c => tell (IndexChange par (Some c) None)) child par (K par) [] d1 K O)
    as (d2 & E2 & R2); try done; [by intros; apply tell_step|].
  change (empty_into _ child d1) with (empty_into (fun c d => d ← tell (Disconnect c) d; d ← on_heap (ns_node_remove c) d;
    d ← place_child par None c d; tell (IndexChange par (Some c) None) d) child d1). rewrite E2. cbn [mbind option_bind].
  eapply returns_ext; [intros n; eapply (spliced_all K par child); [exact El|done|done]|done|].
  eapply returns_after; [exact R2|]. destruct R2 as [V2 _]. then_ d3 V3 S3.
  { apply (told_moved (K child) (fun ns => ChildrenMoved par ns [] (last_child kp) None)). exact V2. }
  then_ d4 V4 S4; [|by apply returns_now].
  apply (finish_reach inert (activate_all (K child)) (mutate d3) _ _ (fun d => activate_all_reach (K child) d _ _)), mutate_reach, V3.
Qed.

Lemma appendChild_ok par child d K O : holds d K O -> is_Some (at_ par (hp d)) -> is_Some (at_ child (hp d)) ->
  (insertable (hp d) K par child None /\
    returns d (Some child) (inserted (hp d) K par child None) (O ∖ list_to_set (taken (hp d) K child))
      (ns_element_appendChild par child d)) \/
  (~ insertable (hp d) K par child None /\ exists e, ns_element_appendChild par child d = Some (Thrown e, d)).
Proof.
  intros V Hp Hn. pose proof (h_tree _ _ _ V) as T.
  destruct (pre_insert_ok _ K T par child None Hp Hn ltac:(done)) as (v & E & Hv). unfold ns_element_appendChild.
  cbn [no_place] in E. rewrite E. cbn [mbind option_bind]. destruct v as [e|]; [right; split; [by intros ?%Hv|eauto]|left].
  pose proof (proj1 Hv eq_refl) as Hi. split; [done|]. destruct Hi as ((_ & Hb & _) & _ & _).
  destruct (in_template_content_total _ K T par Hp) as (inert & ->). cbn [mbind option_bind].
  unfold inserted, taken. rewrite decide_False by done.
  rewrite (unparented_doc_ok _ _ Hn). cbn [mbind option_bind]. destruct (loose (hp d) child).
  - by apply append_fragment.
  - destruct Hn as [k Ek]. change (links_of child d) with (at_ child (hp d)). rewrite Ek. cbn [mbind option_bind].
    assert (exists d1, match parent k with Some _ => tell (PreRemove child) d | None => Some d end = Some d1 /\ reach d K O d1)
      as (d1 & -> & R1).
    { destruct (parent k); [by apply tell_step|]. exists d. split; [done|]. split; [done|apply keeps_refl]. }
    eapply returns_after; [exact R1|]. eapply returns_ext; [done| |apply (insert_one par child None d1 K O (proj1 R1))]; try done.
    + cbn. set_solver.
    + eapply keeps_at; [apply R1|done].
    + eapply keeps_at; [apply R1|eauto].
Qed.

(** ** Removal and replacement *)

Lemma without_root c K p : c ∉ without c K p.
Proof. unfold without. rewrite list_elem_of_filter. tauto. Qed.

Lemma orphan_step c d K O : holds d (without c K) O -> is_Some (at_ c (hp d)) -> reach d (without c K) ({[ c ]} ∪ O) (orphan c d).
Proof. intros V Hc. apply orphan_reach; [done|done|]. intros p. apply without_root. Qed.

Lemma removeChild_ok par child d K O : holds d K O -> is_Some (at_ child (hp d)) ->
  (child ∈ K par /\ returns d (Some child) (without child K) ({[ child ]} ∪ O) (ns_element_removeChild par child d)) \/
  (child ∉ K par /\ exists e, ns_element_removeChild par child d = Some (Thrown e, d)).
Proof.
  intros V Hc. pose proof (h_tree _ _ _ V) as T. unfold ns_element_removeChild, links_of.
  destruct Hc as [k Ek]. rewrite Ek. cbn [mbind option_bind].
  destruct (decide (parent k = Some par)) as [Hk|Hk]; rewrite (parent_edge _ K T _ _ _ Ek) in Hk; [left|right; eauto].
  split; [done|]. then_ d1 V1 S1; [by apply tell_step|]. then_ d2 V2 S2; [by apply tell_step|].
  assert (is_Some (at_ child (hp d2))) as Hc by eauto using keeps_at.
  destruct (remove_reach child d2 K O V2 Hc) as (d3 & E3 & _ & R3). then_ d4 V4 S4; [by exists d3|].
  pose proof (orphan_step child d4 K O V4 ltac:(eauto using keeps_at)) as R5.
  eapply returns_after; [exact (reach_trans _ _ _ _ _ _ _ R5 (mutate_reach _ _ _ (proj1 R5)))|].
  then_ d6 V6 S6; [apply tell_step, (mutate_reach _ _ _ (proj1 R5))|by apply returns_now].
Qed.

(** [cs] in the stead of [old]. *)
Fixpoint instead_of (old : loc) (cs l : list loc) : list loc :=
  match l with [] => [] | x :: l' => if decide (x = old) then cs ++ l' else x :: instead_of old cs l' end.
Lemma instead_of_split old cs l1 l2 : old ∉ l1 -> instead_of old cs (l1 ++ old :: l2) = l1 ++ cs ++ l2.
Proof.
  induction l1 as [|x l1 IH]; cbn; intros Hn; [by rewrite decide_True|].
  apply not_elem_of_cons in Hn as [N1 N2]. rewrite decide_False by congruence. by rewrite IH.
Qed.

Definition replaced (h : heap) (K : forest) (par newc oldc : loc) : forest :=
  if decide (newc = oldc) then K
  else if loose h newc then <[par := instead_of oldc (K newc) (K par)]> (<[newc := []]> K)
  else put newc par (instead oldc newc) K.

Lemma replace_fragment par newc oldc d K O : holds d K O -> is_Some (at_ par (hp d)) -> is_Some (at_ newc (hp d)) ->
  ~ rtc (edge K) newc par -> oldc ∈ K par -> forall inert,
  returns d (Some oldc) (<[par := instead_of oldc (K newc) (K par)]> (<[newc := []]> K)) (({[ oldc ]} ∪ O) ∖ list_to_set (K newc))
    (d ← tell (FragmentEmptied newc) d; o ← links_of oldc d;
     d ← on_heap (ns_node_remove oldc) d; d ← tell (Disconnect oldc) d;
     d ← tell (ChildChange par None (Some oldc) (prev_sibling o) (next_sibling o)) (orphan oldc d);
     '(_, d) ← empty_into (fun c d => d ← tell (Disconnect c) d; d ← on_heap (ns_node_remove c) d;
               d ← place_child par (next_sibling o) c d; record_added par c d) newc d;
     d ← (if (inert : bool) then Some (mutate d) else tell (Activate par) (mutate d));
     Some (Returned (Some oldc), d)).
Proof.
  intros V Hp Hn Hb Hk inert. then_ d1 V1 S1; [by apply tell_step|]. apply (keeps_at _ _ _ S1) in Hp, Hn.
  pose proof (h_tree _ _ _ V1) as T. pose proof Hk as Hk'. apply list_elem_of_split in Hk' as (l1 & l2 & El).
  destruct (at_kid _ K T par l1 oldc l2 El) as (o & Eo & _ & _ & No).
  change (links_of oldc d1) with (at_ oldc (hp d1)). rewrite Eo. cbn [mbind option_bind]. rewrite No.
  destruct (remove_reach oldc d1 K O V1) as (d2 & E2 & _ & R2); [by eauto|]. then_ d2' V2 S2; [by exists d2|]. clear d2 E2 R2.
  then_ d3 V3 S3; [by apply tell_step|].
  pose proof (orphan_step oldc d3 K O V3 ltac:(eauto using keeps_at)) as R3. eapply returns_after; [exact R3|].
  then_ d4 V4 S4; [apply tell_step, R3|]. destruct (mid_nodup _ K T par oldc l1 l2 El) as (N1 & N2 & N).
  assert (oldc ∉ K newc) as Nk. { intros Hx. assert (newc = par) as -> by (by apply (one_parent _ K T oldc)). by apply Hb, rtc_refl. }
  assert (without oldc K newc = K newc) as Ek by by apply without_absent.
  assert (is_Some (at_ par (hp d4)) /\ is_Some (at_ newc (hp d4))) as Kp.
  { pose proof (keeps_trans _ _ _ S2 (keeps_trans _ _ _ S3 (keeps_trans _ _ _ (proj2 R3) S4))) as S. by split; eapply keeps_at. }
  destruct (move_kids Disconnect (head l2) (record_added par) newc par l1 l2 d4 (without oldc K) ({[oldc]} ∪ O) V4)
    as (d5 & E5 & R5); try done; [apply Kp..|by intros ?%without_below| | |].
  { unfold without. rewrite El. apply without_split. rewrite <- El. by apply (kids_nodup _ K T). }
  { intros; by apply record_added_reach. }
  cbn [mbind option_bind].
  change (empty_into _ newc d4) with (empty_into (fun c d => d ← tell (Disconnect c) d; d ← on_heap (ns_node_remove c) d;
    d ← place_child par (head l2) c d; record_added par c d) newc d4). rewrite E5. cbn [mbind option_bind].
  rewrite Ek in R5. apply (returns_ext _ _ (spliced (without oldc K) par newc l1 l2 (K newc) []) (({[oldc]} ∪ O) ∖ list_to_set (K newc)));
    [|done|eapply returns_after; [exact R5|]].
  - intros n. unfold spliced. destruct (decide (n = par)) as [->|Nn]; [by rewrite !fn_lookup_insert, El, instead_of_split|].
    rewrite !(fn_lookup_insert_ne _ par) by done. destruct (decide (n = newc)) as [->|Nn']; [by rewrite !fn_lookup_insert|].
    rewrite !fn_lookup_insert_ne by done. apply without_absent. intros Hx. apply Nn. by apply (one_parent _ K T oldc).
  - then_ d6 V6 S6; [|by apply returns_now].
    apply (finish_reach inert (tell (Activate par)) (mutate d5) _ _ (tell_step _ _ _)), mutate_reach, R5.
Qed.

Lemma instead_absent old c l : NoDup l -> old <> c -> old ∉ instead old c l.
Proof.
  intros N Hn. induction l as [|x l IH]; [by intros ?%not_elem_of_nil|]. apply NoDup_cons in N as [N1 N2]. cbn.
  destruct (decide (x = old)) as [->|]; rewrite elem_of_cons; [tauto|]. intros [->|?]; [done|by apply IH].
Qed.
Lemma replaced_root h K par newc old p : tree_ok h K -> newc <> old -> old ∈ K par -> old ∉ put newc par (instead old newc) K p.
Proof.
  intros T Hn Hk. unfold put. destruct (decide (p = par)) as [->|Hp].
  - rewrite fn_lookup_insert. apply instead_absent; [|congruence]. apply NoDup_filter, (kids_nodup h K T).
  - rewrite fn_lookup_insert_ne by done. unfold without. rewrite list_elem_of_filter. intros [_ Hx]. apply Hp.
    by apply (one_parent h K T old).
Qed.

Lemma replace_one par newc oldc d K O : holds d K O -> is_Some (at_ par (hp d)) -> is_Some (at_ newc (hp d)) ->
  ~ rtc (edge K) newc par -> oldc ∈ K par -> newc <> oldc -> forall inert,
  returns d (Some oldc) (put newc par (instead oldc newc) K) ({[ oldc ]} ∪ (O ∖ {[ newc ]}))
    (n ← links_of newc d;
     d ← (match parent n with Some _ => tell (PreRemove newc) d | None => Some d end);
     d ← tell (Disconnect newc) d; d ← tell (MoveRemoval newc) d;
     d ← on_heap (replace_links par newc oldc) (adopt newc d);
     d ← tell (Disconnect oldc) d;
     n ← links_of newc d;
     d ← tell (ChildChange par (Some newc) (Some oldc) (prev_sibling n) (next_sibling n)) (mutate (orphan oldc d));
     d ← (if (inert : bool) then Some d else tell (Activate newc) d);
     Some (Returned (Some oldc), d)).
Proof.
  intros V Hp Hn Hb Hk Hne inert. pose proof (h_tree _ _ _ V) as T. pose proof (kid_here _ K T _ _ Hk) as Ho.
  pose proof Hn as [n En]. change (links_of newc d) with (at_ newc (hp d)). rewrite En. cbn [mbind option_bind].
  then_ d1 V1 S1. { destruct (parent n); [by apply tell_step|]. exists d. split; [done|]. split; [done|apply keeps_refl]. }
  then_ d2 V2 S2; [by apply tell_step|]. then_ d3 V3 S3; [by apply tell_step|].
  pose proof (keeps_trans _ _ _ S1 (keeps_trans _ _ _ S2 S3)) as S. apply (keeps_at _ _ _ S) in Hp, Hn, Ho.
  destruct (replace_links_ok _ K (h_tree _ _ _ V3) par newc Hp Hn Hb oldc Hk ltac:(done)) as (h4 & E4 & B4).
  assert (forall m p, m ∈ put newc par (instead oldc newc) K p -> m = newc \/ (m ∈ K p /\ m <> newc)) as PE
    by (intros m p; apply put_elem, adds_next).
  destruct (on_heap_reach (replace_links par newc oldc) (adopt newc d3) K (O ∖ {[newc]}) _ h4
    (proj1 (adopt_reach newc d3 K O V3)) E4 B4) as (d4 & E4' & R4 & _).
  { intros m p Hm [->|[? _]]%PE; [set_solver|done]. }
  then_ d5 V5 S5; [exists d4; split; [exact E4'|exact R4]|]. then_ d6 V6 S6; [by apply tell_step|].
  pose proof (keeps_trans _ _ _ S5 S6) as S'. apply (keeps_at _ _ _ S') in Hp, Hn, Ho.
  destruct Hn as [n6 En6]. change (links_of newc d6) with (at_ newc (hp d6)). rewrite En6. cbn [mbind option_bind].
  pose proof (orphan_reach oldc d6 _ _ V6 Ho (fun p => replaced_root _ K par newc oldc p T Hne Hk)) as R7.
  eapply returns_after; [exact (reach_trans _ _ _ _ _ _ _ R7 (mutate_reach _ _ _ (proj1 R7)))|].
  then_ d8 V8 S8; [apply tell_step, (mutate_reach _ _ _ (proj1 R7))|].
  then_ d9 V9 S9; [|by apply returns_now]. exact (finish_reach inert (tell (Activate newc)) d8 _ _ (tell_step _ _ _) V8).
Qed.

Lemma replaceChild_ok par newc oldc d K O : holds d K O -> is_Some (at_ par (hp d)) -> is_Some (at_ newc (hp d)) ->
  is_Some (at_ oldc (hp d)) ->
  (replaceable (hp d) K par newc oldc /\
    returns d (Some oldc) (replaced (hp d) K par newc oldc)
      (if decide (newc = oldc) then O else ({[ oldc ]} ∪ O) ∖ list_to_set (taken (hp d) K newc)) (ns_element_replaceChild par newc oldc d)) \/
  (~ replaceable (hp d) K par newc oldc /\ exists e, ns_element_replaceChild par newc oldc d = Some (Thrown e, d)).
Proof.
  intros V Hp Hn Ho. pose proof (h_tree _ _ _ V) as T.
  destruct (pre_replace_ok _ K T par newc oldc Hp Hn Ho) as (v & E & Hv). unfold ns_element_replaceChild.
  rewrite E. cbn [mbind option_bind]. destruct v as [e|]; [right; split; [by intros ?%Hv|eauto]|left].
  pose proof (proj1 Hv eq_refl) as Hi. split; [done|]. destruct Hi as ((_ & Hb & _) & Hk & _).
  pose proof Ho as [o Eo]. change (links_of oldc d) with (at_ oldc (hp d)). rewrite Eo. cbn [mbind option_bind].
  unfold replaced, taken. destruct (decide (newc = oldc)) as [Ep|Ep].
  { then_ d1 V1 S1; [by apply tell_step|]. then_ d2 V2 S2; [by apply tell_step|].
    eapply returns_ext; [done|done|]. exists (mutate d2). split; [done|]. by apply mutate_reach. }
  then_ d1 V1 S1; [by apply tell_step|]. pose proof (h_tree _ _ _ V1) as T1.
  rewrite <- (loose_kept d d1 K O O newc V V1 S1 Hn). apply (keeps_at _ _ _ S1) in Hp, Hn.
  destruct (in_template_content_total _ K T1 par Hp) as (inert & ->). cbn [mbind option_bind].
  rewrite (unparented_doc_ok _ _ Hn). cbn [mbind option_bind]. destruct (loose (hp d1) newc).
  - by apply replace_fragment.
  - eapply returns_ext; [done| |by apply replace_one]. cbn. set_solver.
Qed.

(** ** Moves inside a tree *)

(** The two nodes are in one tree. *)
Definition one_tree (K : forest) (n m : loc) : Prop := exists r, (forall p, r ∉ K p) /\ rtc (edge K) r n /\ rtc (edge K) r m.

Lemma root_unique h K r r' n : tree_ok h K -> (forall p, r ∉ K p) -> (forall p, r' ∉ K p) ->
  rtc (edge K) r n -> rtc (edge K) r' n -> r = r'.
Proof.
  intros T Hr Hr'. revert n. refine (fun n H1 => rtc_ind_r (fun n => rtc (edge K) r' n -> r = r') r _ _ n H1).
  - intros H2. apply rtc_inv_r in H2 as [->|(q & _ & Hq)]; [done|]. by apply Hr in Hq.
  - intros x y _ Hx IH H2. apply rtc_inv_r in H2 as [<-|(q & H2 & Hq)]; [by apply Hr' in Hx|]. apply IH.
    by rewrite (one_parent h K T y x q).
Qed.

Lemma roots_ok h K n m : tree_ok h K -> is_Some (at_ n h) -> is_Some (at_ m h) ->
  exists r1 r2, ns_node_root n h = Some r1 /\ ns_node_root m h = Some r2 /\ (r1 = r2 <-> one_tree K n m).
Proof.
  intros T Hn Hm. destruct (root_ok h K T n Hn) as (r1 & k1 & E1 & P1 & K1 & F1), (root_ok h K T m Hm) as (r2 & k2 & E2 & P2 & K2 & F2).
  exists r1, r2. split; [done|]. split; [done|].
  pose proof (fun p => free_absent h K T r1 k1 p K1 F1) as N1. pose proof (fun p => free_absent h K T r2 k2 p K2 F2) as N2.
  split; [intros ->; by exists r2|]. intros (r & Hr & Pn & Pm).
  rewrite (root_unique h K r1 r n T), (root_unique h K r2 r m T); done.
Qed.

(** What [moveBefore] lets be moved. *)
Definition movable (h : heap) (K : forest) (par node : loc) (place : option loc) : Prop :=
  one_tree K node par /\ ~ rtc (edge K) node par /\
  (kd h node = NS_NODE_ELEMENT \/ kd h node = NS_NODE_TEXT \/ kd h node = NS_NODE_COMMENT) /\
  (forall c, place = Some c -> c ∈ K par) /\
  (is_doc h par = true -> kd h node = NS_NODE_ELEMENT -> forall c, c ∈ K par -> kd h c = NS_NODE_ELEMENT -> c = node) /\
  (exists q, node ∈ K q).

Lemma others_false h (K : forest) par node : existsb (fun c => is_kind h NS_NODE_ELEMENT c && bool_decide (Some c <> Some node)) (K par) = false <->
  forall c, c ∈ K par -> kd h c = NS_NODE_ELEMENT -> c = node.
Proof.
  rewrite <- not_true_iff_false, existsb_exists. unfold is_kind. split.
  - intros N c Hc Hk. destruct (decide (c = node)); [done|]. exfalso. apply N. exists c. rewrite <- list_elem_of_In.
    split; [done|]. rewrite andb_true_iff, !bool_decide_eq_true. split; [done|congruence].
  - intros N (c & Hc & [Hk Hne]%andb_true_iff). rewrite <- list_elem_of_In in Hc. rewrite bool_decide_eq_true in Hk, Hne.
    apply Hne. f_equal. by apply N.
Qed.

(** Where [moveBefore] puts [node]: before what follows it when it is its own
    reference child. *)
Lemma moveBefore_place par node l1 l2 h K n : tree_ok h K -> K par = l1 ++ node :: l2 ->
  put node par (splice (head l2) [node]) K n = K n.
Proof.
  intros T E. destruct (mid_nodup h K T par node l1 l2 E) as (N1 & N2 & N). pose proof (kids_nodup h K T par) as Np. rewrite E in Np.
  unfold put. destruct (decide (n = par)) as [->|Hn].
  - rewrite fn_lookup_insert. unfold without. rewrite E, without_split by done. rewrite splice_split; [done|done|].
    intros r Hr Hx. apply head_elem in Hr. apply NoDup_app in N as (_ & N & _). by apply (N r).
  - rewrite fn_lookup_insert_ne by done. apply without_absent. intros Hx. apply Hn. apply (one_parent h K T node); [done|].
    rewrite E. set_solver +.
Qed.

Lemma move_links par node ref d K O : holds d K O -> is_Some (at_ par (hp d)) -> is_Some (at_ node (hp d)) ->
  ~ rtc (edge K) node par -> ref <> Some node -> (forall r, ref = Some r -> r ∈ K par) -> node ∉ O ->
  exists d', (b ← is_child par ref (hp d);
     match ref, b with
     | Some r, true => ns_element_insert_before_single par node r d
     | _, _ => d ← on_heap (ns_node_remove node) d; on_heap (ns_node_append_child par node) (adopt node d)
     end) = Some d' /\ reach d (put node par (splice ref [node]) K) O d'.
Proof.
  intros V Hp Hn Hb Hne Hr No. assert (O ∖ {[node]} = O) as EO by set_solver. pose proof (h_tree _ _ _ V) as T.
  destruct (place_child_reach ref node par d K O V Hp Hn Hb Hr Hne) as (d' & E & R). rewrite EO in R. unfold place_child in E.
  destruct ref as [r|].
  - rewrite (is_child_ok _ K T par r) in E |- * by (eapply kid_here; [done|by apply Hr]).
    rewrite bool_decide_true in E |- * by (by apply Hr). by exists d'.
  - clear E R d'. cbn [is_child mbind option_bind]. destruct (remove_reach node d K O V Hn) as (d1 & -> & _ & R1). cbn [mbind option_bind].
    destruct (adopt_reach node d1 _ _ (proj1 R1)) as [V2 S2]. rewrite EO in V2.
    pose proof (keeps_trans _ _ _ (proj2 R1) S2) as S.
    destruct (append_reach node par (adopt node d1) _ O V2 No) as (d3 & -> & R3);
      [by eapply keeps_at|by eapply keeps_at|by intros ?%without_below|].
    exists d3. split; [done|]. eapply reach_trans; [exact R1|]. split; [|exact (keeps_trans _ _ _ S2 (proj2 R3))].
    refine (proj1 (reach_ext (adopt node d1) d3 _ _ O O _ eq_refl R3)).
    intros n. rewrite put_without. unfold put. destruct (decide (n = par)) as [->|]; [|by rewrite !fn_lookup_insert_ne].
    by rewrite !fn_lookup_insert, splice_end.
Qed.

(** The only element a document may hold, seen by [moveBefore]. *)
Lemma other_element_ok d K par node : tree_ok (hp d) K -> is_Some (at_ par (hp d)) ->
  exists o, (if is_doc (hp d) par && bool_decide (kd (hp d) node = NS_NODE_ELEMENT)
             then ns_node_has_child_kind_other par NS_NODE_ELEMENT (Some node) (hp d) else Some false) = Some o /\
    (o = false <-> (is_doc (hp d) par = true -> kd (hp d) node = NS_NODE_ELEMENT -> forall c, c ∈ K par ->
       kd (hp d) c = NS_NODE_ELEMENT -> c = node)).
Proof.
  intros T Hp. rewrite (has_child_kind_other_ok _ K T par NS_NODE_ELEMENT (Some node) Hp).
  destruct (is_doc (hp d) par); cbn [andb]; [|exists false; by split].
  destruct (bool_decide_reflect (kd (hp d) node = NS_NODE_ELEMENT)); [|exists false; by split].
  eexists; split; [done|]. rewrite others_false. tauto.
Qed.

(** The move itself. *)
Lemma move_end par node place d K O k : holds d K O -> is_Some (at_ par (hp d)) -> at_ node (hp d) = Some k ->
  ~ rtc (edge K) node par -> (forall c, place = Some c -> c ∈ K par) -> (exists q, node ∈ K q) ->
  returns d None (if decide (place = Some node) then K else put node par (splice place [node]) K) O
    (let ref := if decide (place = Some node) then next_sibling k else place in
     d ← tell (PreRemove node) d; d ← tell (MoveRemoval node) d;
     b ← is_child par ref (hp d);
     d ← (match ref, b with
          | Some r, true => ns_element_insert_before_single par node r d
          | _, _ => d ← on_heap (ns_node_remove node) d; on_heap (ns_node_append_child par node) (adopt node d)
          end);
     d ← record_added par node (mutate d);
     Some (Returned None, d)).
Proof.
  intros V Hp Ek Hb Hpl [q Hq]. pose proof (h_tree _ _ _ V) as T. cbv zeta.
  assert (is_Some (at_ node (hp d))) as Hn by eauto.
  assert (node ∉ O) as No. { intros Ho. by apply (proj2 (h_owned _ _ _ V _ Ho) q). }
  set (ref := if decide (place = Some node) then next_sibling k else place).
  assert (ref <> Some node /\ (forall r, ref = Some r -> r ∈ K par) /\ forall n,
    put node par (splice ref [node]) K n = (if decide (place = Some node) then K else put node par (splice place [node]) K) n)
    as (R1 & R2 & R3).
  { unfold ref. destruct (decide (place = Some node)) as [E|E]; [|by split_and!].
    destruct (list_elem_of_split _ _ (Hpl _ E)) as (l1 & l2 & El).
    destruct (at_kid _ K T par l1 node l2 El) as (k' & Ek' & _ & _ & Nk). rewrite Ek in Ek'. injection Ek' as <-. rewrite Nk.
    destruct (mid_nodup _ K T par node l1 l2 El) as (_ & N2 & _).
    split_and!; [|intros r Hr|intros n; by apply (moveBefore_place par node l1 l2 (hp d))].
    - intros Hr%head_elem. done.
    - rewrite El. apply head_elem in Hr. set_solver. }
  clearbody ref. eapply returns_ext; [exact R3|done|]. then_ d1 V1 S1; [by apply tell_step|]. then_ d2 V2 S2; [by apply tell_step|].
  pose proof (keeps_trans _ _ _ S1 S2) as S. apply (keeps_at _ _ _ S) in Hp, Hn.
  destruct (move_links par node ref d2 K O V2 Hp Hn Hb R1 R2 No) as (d3 & E3 & R).
  assert (forall f, (b ← is_child par ref (hp d2); d ← (match ref, b with
     | Some r, true => ns_element_insert_before_single par node r d2
     | _, _ => d ← on_heap (ns_node_remove node) d2; on_heap (ns_node_append_child par node) (adopt node d)
     end); f d) = (f d3 : option (reply * page))) as Ef.
  { intros f. destruct (is_child par ref (hp d2)) as [b|]; [|done]. cbn [mbind option_bind] in *. by rewrite E3. }
  rewrite Ef. eapply returns_after; [exact R|]. then_ d4 V4 S4; [|by apply returns_now].
  apply (record_added_reach par node (mutate d3)); [apply (mutate_reach d3), R|exact (keeps_at _ _ _ (proj2 R) Hn)].
Qed.

Lemma moveBefore_ok par node place d K O : holds d K O -> is_Some (at_ par (hp d)) -> is_Some (at_ node (hp d)) ->
  (forall c, place = Some c -> is_Some (at_ c (hp d))) ->
  (movable (hp d) K par node place /\
    returns d None (if decide (place = Some node) then K else put node par (splice place [node]) K) O
      (ns_element_moveBefore par node place (no_place place) d)) \/
  (~ movable (hp d) K par node place /\ exists e, ns_element_moveBefore par node place (no_place place) d = Some (Thrown e, d)).
Proof.
  intros V Hp Hn Hc. pose proof (h_tree _ _ _ V) as T. unfold ns_element_moveBefore, movable.
  destruct (roots_ok _ K node par T Hn Hp) as (r1 & r2 & -> & -> & Hr). cbn [mbind option_bind].
  destruct (decide (r1 <> r2)) as [Hne|He]; [right; split; [by intros [?%Hr _]|eauto]|]. apply dec_stable, Hr in He.
  unfold ns_node_ancestor_or_self. destruct (contains_ok _ K T node par Hp) as (anc & -> & Ha). cbn [mbind option_bind].
  destruct anc; [right; split; [intros (_ & X & _); apply X; by apply Ha|eauto]|].
  assert (~ rtc (edge K) node par) as Hb by (by intros ?%Ha). rewrite (node_kind_kd _ _ Hn). cbn [mbind option_bind].
  destruct (negb _) eqn:Ek.
  { right. split; [|eauto]. intros (_ & _ & Hk & _). destruct Hk as [Hk|[Hk|Hk]]; by rewrite Hk in Ek. }
  assert (kd (hp d) node = NS_NODE_ELEMENT \/ kd (hp d) node = NS_NODE_TEXT \/ kd (hp d) node = NS_NODE_COMMENT) as Hk
    by (destruct (kd (hp d) node); try done; tauto). clear Ek.
  destruct (placed_ok _ K T par place Hc) as (b & Eb & Hpl). rewrite Eb. cbn [mbind option_bind].
  destruct (negb (no_place place) && negb b) eqn:Enp.
  { right. split; [|eauto]. intros (_ & _ & _ & X & _). apply Hpl in X. by destruct (no_place place), b. }
  assert (forall c, place = Some c -> c ∈ K par) as Hpl' by (apply Hpl; by destruct (no_place place), b).
  rewrite (parent_is_doc_ok _ _ Hp). cbn [mbind option_bind].
  destruct (other_element_ok d K par node T Hp) as (o & -> & Ho). cbn [mbind option_bind]. destruct o.
  { right. split; [|eauto]. intros (_ & _ & _ & _ & X & _). by apply Ho in X. }
  destruct Hn as [k En]. change (links_of node d) with (at_ node (hp d)). rewrite En. cbn [mbind option_bind].
  assert (parent k <> None <-> exists q, node ∈ K q) as Hq.
  { setoid_rewrite <- (parent_edge _ K T _ _ _ En). destruct (parent k); naive_solver. }
  destruct (parent k) as [q|]; [left|right; split; [|eauto]; intros (_ & _ & _ & _ & _ & X); by apply Hq in X].
  assert (exists q, node ∈ K q) as Hq' by by apply Hq.
  split; [split_and!; try done; by apply Ho|]. apply (move_end par node place d K O k V Hp En Hb Hpl' Hq').
Qed.

(** ** [insertAdjacentElement] *)

(** The four positions, the first that is named: the new parent and the tree. *)
Inductive adjacent_to (K : forest) (self : loc) (pos : bytes) (c : loc) : loc -> forest -> Prop :=
| AdjBeforeBegin p : is_pos pos ($"beforebegin") = true -> self ∈ K p -> adjacent_to K self pos c p (put c p (before self c) K)
| AdjAfterBegin : is_pos pos ($"beforebegin") = false -> is_pos pos ($"afterbegin") = true ->
    adjacent_to K self pos c self (put c self (cons c) K)
| AdjBeforeEnd : is_pos pos ($"beforebegin") = false -> is_pos pos ($"afterbegin") = false -> is_pos pos ($"beforeend") = true ->
    adjacent_to K self pos c self (put c self (fun l => l ++ [c]) K)
| AdjAfterEnd p : is_pos pos ($"beforebegin") = false -> is_pos pos ($"afterbegin") = false -> is_pos pos ($"beforeend") = false ->
    is_pos pos ($"afterend") = true -> self ∈ K p -> adjacent_to K self pos c p (put c p (after self c) K).

Lemma below_parent (K : forest) c self p : self ∈ K p -> self <> c -> ~ rtc (edge K) c self -> ~ rtc (edge K) c p.
Proof. intros Hk Hn Hb Hr. apply Hb. by eapply rtc_r. Qed.

Lemma insert_adjacent_node_ok h K self pos c : tree_ok h K -> is_Some (at_ self h) -> is_Some (at_ c h) ->
  exists o h', ns_insert_adjacent_node self pos c h = Some (o, h') /\
    match o with
    | None => h' = h
    | Some p => exists K', adjacent_to K self pos c p K' /\ becomes h K' h' /\
        forall n q, n ∈ K' q -> n = c \/ n ∈ K q
    end.
Proof.
  intros T Hs Hc. unfold ns_insert_adjacent_node, ns_node_ancestor_or_self.
  destruct (contains_ok h K T c self Hs) as (b & -> & Hb). cbn [mbind option_bind].
  destruct b; [by exists None, h|]. assert (~ rtc (edge K) c self) as Nb by (by intros ?%Hb). clear Hb.
  assert (self <> c) as Ne by (intros ->; by apply Nb, rtc_refl). pose proof Hs as [s Es]. rewrite Es. cbn [mbind option_bind].
  assert (forall p, parent s = Some p -> self ∈ K p /\ is_Some (at_ p h) /\ ~ rtc (edge K) c p) as Hpar.
  { intros p Hp%(parent_edge h K T _ _ _ Es). split_and!; [done| |by eapply below_parent].
    destruct (has_links h K T p self Hp) as [? ->]. eauto. }
  destruct (is_pos pos ($"beforebegin")) eqn:P1; [|destruct (is_pos pos ($"afterbegin")) eqn:P2;
    [|destruct (is_pos pos ($"beforeend")) eqn:P3; [|destruct (is_pos pos ($"afterend")) eqn:P4; [|by exists None, h]]]].
  - destruct (parent s) as [p|]; [|by exists None, h]. destruct (Hpar p eq_refl) as (Hk & Hp & Hb).
    destruct (link_before_ok h K T p c Hp Hc Hb self Hk Ne) as (_ & h' & _ & _ & _ & -> & B). exists (Some p), h'.
    split; [done|]. eexists. split; [by constructor|]. split; [done|]. intros n q [->|[? _]]%put_elem; [by left|by right|apply adds_next].
  - destruct (insert_first_ok h K T self c Hs Hc Nb) as (h' & -> & B). exists (Some self), h'. split; [done|]. eexists.
    split; [by constructor|]. split; [done|]. intros n q [->|[? _]]%put_elem; [by left|by right|apply adds_cons].
  - destruct (detach_ok h K T c Hc) as (h1 & E1 & [T1 D1] & _). unfold ns_node_remove. rewrite E1. cbn [mbind option_bind].
    destruct (append_child_ok h1 _ T1 self c) as (h' & -> & [T2 D2]); [by eapply same_data_at..|by intros ?%without_below|].
    exists (Some self), h'. split; [done|]. eexists. split; [by constructor|]. split; [split|].
    + eapply tree_ok_ext; [intros n; apply put_without|done].
    + by eapply same_data_trans.
    + intros n q [->|[? _]]%put_elem; [by left|by right|apply adds_snoc].
  - destruct (parent s) as [p|]; [|by exists None, h]. destruct (Hpar p eq_refl) as (Hk & Hp & Hb).
    destruct (insert_sibling_after_ok h K T p c Hp Hc Hb self Hk Ne) as (h' & -> & B). exists (Some p), h'.
    split; [done|]. eexists. split; [by constructor|]. split; [done|]. intros n q [->|[? _]]%put_elem; [by left|by right|apply adds_next].
Qed.

Lemma insert_adjacent_check_ok h K self pos c : tree_ok h K -> is_Some (at_ self h) ->
  exists a, ns_insert_adjacent_check self pos false (Some c) h = Some a.
Proof.
  intros T Hs. unfold ns_insert_adjacent_check. destruct (negb _ && negb _); [eauto|].
  pose proof Hs as [s Es]. rewrite Es. cbn [mbind option_bind].
  destruct (if _ || _ then parent s else Some self) as [p|] eqn:Ep; [|eauto].
  assert (is_Some (at_ p h)) as Hp.
  { destruct (_ || _); [|by injection Ep as <-]. apply (parent_edge h K T _ _ _ Es) in Ep.
    destruct (has_links h K T p self Ep) as [? ->]. eauto. }
  rewrite (parent_is_doc_ok _ _ Hp). cbn [mbind option_bind]. destruct (is_doc h p); [|eauto]. cbn [negb].
  rewrite (has_child_kind_other_ok h K T p _ _ Hp). cbn. eauto.
Qed.

Lemma insertAdjacentElement_ok self pos c d K O : holds d K O -> is_Some (at_ self (hp d)) -> is_Some (at_ c (hp d)) ->
  exists r d' K' O', ns_element_insertAdjacentElement self pos c d = Some (r, d') /\ reach d K' O' d' /\
    (forall e, r = Thrown e -> d' = d) /\
    ((r <> Returned (Some c) /\ K' = K) \/ (r = Returned (Some c) /\ exists p, adjacent_to K self pos c p K')).
Proof.
  intros V Hs Hc. pose proof (h_tree _ _ _ V) as T. unfold ns_element_insertAdjacentElement.
  destruct (insert_adjacent_check_ok _ K self pos c T Hs) as (a & ->). cbn [mbind option_bind].
  assert (reach d K O d) as R0 by (split; [done|apply keeps_refl]).
  destruct a; [by eexists _, d, K, O; split_and!; [..|left]|by eexists _, d, K, O; split_and!; [..|left]|]. cbv zeta.
  destruct (insert_adjacent_node_ok _ K self pos c T Hs Hc) as (o & h' & E & Ho).
  destruct (adopt_reach c d K O V) as [V1 S1]. cbn [adopt hp]. rewrite E. cbn [mbind option_bind].
  destruct o as [p|].
  - destruct Ho as (K' & Ha & B & A). set (f := fun _ : heap => Some h').
    destruct (on_heap_reach f (adopt c d) K (O ∖ {[c]}) K' h' V1 eq_refl B) as (d2 & -> & R2 & _).
    { intros n q Hn [->|?]%A; [set_solver|done]. }
    cbn [mbind option_bind]. destruct R2 as [V2 S2]. assert (is_Some (at_ c (hp d2))) as Hc2 by (by eapply keeps_at).
    destruct (record_added_reach p c d2 K' _ V2 Hc2) as (d3 & -> & [V3 S3]). cbn [mbind option_bind].
    destruct (mutate_reach d3 _ _ V3) as [V4 S4].
    destruct (tell_step (Activate c) _ _ _ V4) as (d5 & -> & [V5 S5]). cbn [mbind option_bind].
    eexists _, d5, K', _. split; [done|]. split; [split; [exact V5|]|split; [done|right; eauto]].
    exact (keeps_trans _ _ _ S2 (keeps_trans _ _ _ S3 S5)).
  - subst h'. unfold on_heap. cbn. eexists _, _, K, _. split; [done|]. split; [|by split; [|left]].
    destruct V1 as [? ? ?]. by split.
Qed.
End Calls.
