(* ===== verification/DomLists.v ===== *)
(** * The methods with a list of nodes

    [append], [before], [after] and [replaceWith] end, follow no stray pointer and
    leave a tree, for any arguments: nodes of any tree, given twice or above the
    place, fragments, and texts. [prepend] does so for arguments that are apart
    ([prepend_apart]), and not for others ([DomPage]). *)

From stdpp Require Import functions relations.
From S2P Require Import Prelude CStr GLib Xml DomStore DomTree Dom DomSpec DomCalls.

(** ** A new text node *)

Lemma alloc_ok h K n t : tree_ok h K -> h !! n = None -> tree_ok (<[n := ns_node_new_text t]> h) K.
Proof.
  intros T Hn. assert (at_ n h = None) as E by (unfold at_; by rewrite Hn).
  assert (forall y, y <> n -> at_ y (<[n := ns_node_new_text t]> h) = at_ y h) as Ne
    by (intros y Hy; unfold at_; by rewrite lookup_insert_ne by congruence).
  assert (at_ n (<[n := ns_node_new_text t]> h) = Some no_links) as En by (unfold at_; by rewrite lookup_insert_eq).
  pose proof (ok_absent _ _ T n E) as Kn. split.
  - intros m Hm. destruct (decide (m = n)) as [->|]; [by rewrite En in Hm|]. apply (ok_absent _ _ T). by rewrite <- Ne.
  - intros m k Hk. destruct (decide (m = n)) as [->|Hm]; [|rewrite Ne in Hk by done; by apply (ok_ends _ _ T)].
    rewrite En in Hk. injection Hk as <-. by rewrite Kn.
  - intros m l1 c l2 Em. destruct (at_kid h K T m l1 c l2 Em) as (k & Ek & ?). exists k. split; [|done].
    rewrite Ne; [done|]. intros ->. congruence.
  - intros c k Ec. destruct (decide (c = n)) as [->|Hc]; [rewrite En in Ec; by injection Ec as <-|].
    rewrite Ne in Ec by done. by apply (ok_orphan _ _ T c).
  - intros c k m Ec. destruct (decide (c = n)) as [->|Hc]; [rewrite En in Ec; by injection Ec as <-|].
    rewrite Ne in Ec by done. by apply (ok_listed _ _ T c).
  - apply (ok_acyclic _ _ T).
Qed.

Lemma new_text_reach t d K O : holds d K O -> exists n d', new_text t d = (n, d') /\ reach d K O d' /\
  is_Some (at_ n (hp d')) /\ n ∉ O /\ at_ n (hp d) = None.
Proof.
  intros [T W R]. unfold new_text. set (n := fresh (dom (D := gset loc) (hp d))).
  assert (hp d !! n = None) as Hn by (apply not_elem_of_dom, is_fresh).
  assert (at_ n (hp d) = None) as En by (unfold at_; by rewrite Hn).
  eexists n, _. split; [done|]. cbn [hp].
  assert (keeps d (Build_page (<[n := ns_node_new_text t]> (hp d)) (orphan_nodes d) (mutated d))) as S.
  { intros m x Hm. unfold shape in *. cbn. rewrite lookup_insert_ne; [done|]. intros ->. by rewrite Hn in Hm. }
  assert (n ∉ O) as Ho. { intros Ho. destruct (W n Ho) as [W1 _]. rewrite En in W1. by destruct W1. }
  split; [|split_and!; [unfold at_; by rewrite lookup_insert_eq|done|done]]. split; [|done].
  split; [by apply alloc_ok| |done]. intros m Hm. destruct (W m Hm) as [W1 W2]. split; [by eapply keeps_at|done].
Qed.

(** ** The arguments taken out of their places *)

(** A forest with fewer children. *)
Definition fewer (K K' : forest) : Prop := forall x y, edge K' x y -> edge K x y.
Lemma fewer_refl K : fewer K K.
Proof. by intros x y. Qed.
Lemma fewer_trans K1 K2 K3 : fewer K1 K2 -> fewer K2 K3 -> fewer K1 K3.
Proof. unfold fewer. eauto. Qed.
Lemma fewer_paths K K' x y : fewer K K' -> rtc (edge K') x y -> rtc (edge K) x y.
Proof. intros F. induction 1; [apply rtc_refl|]. eapply rtc_l; [by apply F|done]. Qed.
Lemma fewer_without c K : fewer K (without c K).
Proof. intros x y. apply without_edge. Qed.

(** What may be put under [par]. *)
Definition ready (par : loc) (P : loc -> Prop) (K : forest) (O : gset loc) (d : page) (n : loc) : Prop :=
  is_Some (at_ n (hp d)) /\ n ∉ O /\ ~ rtc (edge K) n par /\ P n.

Lemma ready_mono par P K K' O O' d d' n : keeps d d' -> O' ⊆ O -> (rtc (edge K') n par -> rtc (edge K) n par) ->
  ready par P K O d n -> ready par P K' O' d' n.
Proof. intros S HO F (H1 & H2 & H3 & H4). split_and!; [by eapply keeps_at|set_solver|tauto|done]. Qed.

Section Lists.
Context {G : GLib} {H : Host} {Q : QuietCallbacks}.

Lemma convert_fragment n d K O : holds d K O -> is_Some (at_ n (hp d)) ->
  exists d', (d ← tell (FragmentEmptied n) d; empty_into (fun c d => d ← on_heap (ns_node_remove c) d; Some (adopt c d)) n d) =
    Some (K n, d') /\ reach d (<[n := []]> K) (O ∖ list_to_set (K n)) d'.
Proof.
  intros V Hn. destruct (tell_step (FragmentEmptied n) K O d V) as (d1 & -> & R1). cbn [mbind option_bind].
  pose proof R1 as [V1 S1]. pose proof (h_tree _ _ _ V1) as T. set (F (m : list loc) := <[n := drop (length m) (K n)]> K : forest).
  assert (forall m rest, K n = m ++ rest -> F m = <[n := rest]> K) as EF by (intros m rest Em; unfold F; by rewrite Em, drop_app_length).
  destruct (empty_into_reach (fun c d => d ← on_heap (ns_node_remove c) d; Some (adopt c d)) n d1 (K n) F O) as (d' & E & R).
  - intros m rest Em. rewrite (EF _ _ Em). by rewrite fn_lookup_insert.
  - intros m c rest d2 Em S2 V2. rewrite (EF _ _ Em) in V2.
    assert (is_Some (at_ c (hp d2))) as Hc. { eapply keeps_at; [exact S2|]. apply (kid_here _ K T n). rewrite Em. set_solver +. }
    destruct (remove_reach c d2 _ _ V2 Hc) as (d3 & -> & _ & R3). cbn [mbind option_bind].
    eexists. split; [done|]. pose proof (adopt_reach c d3 _ _ (proj1 R3)) as R4.
    eapply reach_ext; [| |exact (reach_trans _ _ _ _ _ _ _ R3 R4)].
    + intros x. rewrite (EF (m ++ [c]) rest) by (by rewrite Em, <- app_assoc). unfold without.
      pose proof (kids_nodup _ K T n) as N. rewrite Em in N. apply NoDup_app in N as (_ & _ & N). apply NoDup_cons in N as [N _].
      destruct (decide (x = n)) as [->|Hx].
      * rewrite !fn_lookup_insert, filter_cons_False by (intros X; by apply X). by apply without_absent.
      * rewrite !fn_lookup_insert_ne by done. apply without_absent. intros Hxc. apply Hx. apply (one_parent _ K T c); [done|].
        rewrite Em. set_solver +.
    + rewrite list_to_set_app_L. set_solver.
  - refine (proj1 (reach_ext d1 d1 K _ O O _ eq_refl (conj V1 (keeps_refl d1)))). intros x. rewrite (EF [] (K n)) by done.
    destruct (decide (x = n)) as [->|]; [by rewrite fn_lookup_insert|by rewrite fn_lookup_insert_ne].
  - by eapply keeps_at.
  - exists d'. split; [done|]. rewrite (EF (K n) []) in R by (by rewrite app_nil_r). by eapply reach_trans.
Qed.

Lemma convert_node_ok n seq d K O : holds d K O -> is_Some (at_ n (hp d)) ->
  exists d' K' O', ns_convert_arg_node n seq d = Some (seq ++ taken (hp d) K n, d') /\ reach d K' O' d' /\ fewer K K' /\ O' ⊆ O /\
    (forall x, x ∈ taken (hp d) K n -> is_Some (at_ x (hp d)) /\ x ∉ O' /\ (x = n \/ x ∈ K n)) /\
    (forall x p, x ∈ taken (hp d) K n -> x ∉ K' p) /\
    (forall x y, y ∉ taken (hp d) K n -> edge K x y -> edge K' x y).
Proof.
  intros V Hn. unfold ns_convert_arg_node, taken. rewrite (unparented_doc_ok _ _ Hn). cbn [mbind option_bind].
  pose proof (h_tree _ _ _ V) as T. destruct (loose (hp d) n) eqn:El.
  - destruct (convert_fragment n d K O V Hn) as (d' & E & R). destruct (tell (FragmentEmptied n) d) as [d0|]; [|done].
    cbn [mbind option_bind] in *. rewrite E. cbn [mbind option_bind]. eexists d', _, _. split; [done|]. split; [exact R|].
    split_and!.
    + intros x y. unfold edge. destruct (decide (x = n)) as [->|]; [rewrite fn_lookup_insert; set_solver|by rewrite fn_lookup_insert_ne].
    + set_solver.
    + intros x Hx. split_and!; [by apply (kid_here _ K T n)| |by right]. rewrite elem_of_difference, elem_of_list_to_set. tauto.
    + intros x p Hx. destruct (decide (p = n)) as [->|Hp]; [rewrite fn_lookup_insert; apply not_elem_of_nil|].
      rewrite fn_lookup_insert_ne by done. intros Hxp. apply Hp. by apply (one_parent _ K T x).
    + intros x y Hy. unfold edge. destruct (decide (x = n)) as [->|]; [done|by rewrite fn_lookup_insert_ne].
  - destruct (remove_reach n d K O V Hn) as (d' & _ & -> & R). cbn [mbind option_bind].
    pose proof (adopt_reach n d' _ _ (proj1 R)) as R2. eexists _, _, _. split; [done|].
    split; [exact (reach_trans _ _ _ _ _ _ _ R R2)|]. split_and!; [apply fewer_without|set_solver| | |].
    + intros x ->%list_elem_of_singleton. split_and!; [done|set_solver|by left].
    + intros x p ->%list_elem_of_singleton. unfold without. rewrite list_elem_of_filter. tauto.
    + intros x y Hy He. unfold edge, without. rewrite list_elem_of_filter. split; [|done]. intros ->. by apply Hy, list_elem_of_singleton.
Qed.

(** [I] holds of the forest throughout, and [P] of the nodes that are taken. *)
Section Converted.
Context (here : list loc) (par : loc) (Hpar : par ∈ here) (I : forest -> Prop) (P : loc -> Prop) (skip : loc -> heap -> option bool).
Let all_here (d : page) : Prop := forall x, x ∈ here -> is_Some (at_ x (hp d)).
Context (Skip : forall d K O n, holds d K O -> I K -> is_Some (at_ n (hp d)) -> all_here d -> exists b, skip n (hp d) = Some b /\
  (b = false -> ~ rtc (edge K) n par /\ forall K', fewer K K' ->
     (forall x y, y ∉ taken (hp d) K n -> edge K x y -> edge K' x y) -> I K' /\ (forall x, x ∈ taken (hp d) K n -> P x))).
Context (Text : forall d K O n, holds d K O -> I K -> all_here d -> at_ n (hp d) = None -> P n).

Lemma convert_args_ok args : forall seq d K O, holds d K O -> I K -> all_here d ->
  (forall n, ANode n ∈ args -> is_Some (at_ n (hp d))) -> (forall n, n ∈ seq -> ready par P K O d n) ->
  exists seq' d' K' O', convert_args skip args seq d = Some (seq', d') /\ reach d K' O' d' /\ I K' /\ fewer K K' /\
    (forall n, n ∈ seq' -> ready par P K' O' d' n).
Proof.
  induction args as [|[n|t] args IH]; intros seq d K O V HI Hp Ha Hs.
  - exists seq, d, K, O. split; [done|]. split; [split; [done|apply keeps_refl]|]. split; [done|]. by split; [apply fewer_refl|].
  - assert (is_Some (at_ n (hp d))) as Hn by (apply Ha; by left). cbn.
    destruct (Skip d K O n V HI Hn Hp) as (b & -> & Hb). cbn. destruct b; [apply (IH seq d K O V HI Hp); [intros m Hm; apply Ha; by right|done]|].
    destruct (Hb eq_refl) as [Nb Hk]. destruct (convert_node_ok n seq d K O V Hn) as (d1 & K1 & O1 & -> & [V1 S1] & F1 & HO & Hx & _ & Hy).
    cbn [mbind option_bind]. destruct (Hk K1 F1 Hy) as [HI1 HP].
    destruct (IH (seq ++ taken (hp d) K n) d1 K1 O1 V1 HI1) as (seq' & d2 & K2 & O2 & E2 & R2 & HI2 & F2 & Hs2).
    + intros z Hz. eapply keeps_at; [exact S1|by apply Hp].
    + intros m Hm. eapply keeps_at; [exact S1|]. apply Ha. by right.
    + intros m [Hm|Hm]%elem_of_app; [eapply ready_mono; [exact S1|done|by apply fewer_paths|by apply Hs]|].
      destruct (Hx m Hm) as (X1 & X2 & X3). split_and!; [by eapply keeps_at|done| |by apply HP].
      intros X%(fewer_paths _ _ _ _ F1). destruct X3 as [->|X3]; [done|]. apply Nb. by eapply rtc_l.
    + exists seq', d2, K2, O2. split; [done|]. split; [by eapply reach_trans|]. split; [done|]. split; [by eapply fewer_trans|done].
  - cbn [convert_args]. destruct (new_text_reach t d K O V) as (n & d1 & -> & [V1 S1] & Hn & Ho & Hfree).
    destruct (IH (seq ++ [n]) d1 K O V1 HI) as (seq' & d2 & K2 & O2 & E2 & R2 & HI2 & F2 & Hs2).
    + intros z Hz. eapply keeps_at; [exact S1|by apply Hp].
    + intros m Hm. eapply keeps_at; [exact S1|]. apply Ha. by right.
    + intros m [Hm| ->%list_elem_of_singleton]%elem_of_app; [by eapply ready_mono; [exact S1|done|done|by apply Hs]|].
      split_and!; [done|done| |exact (Text d K O n V HI Hp Hfree)]. intros X. apply rtc_inv in X as [->|(y & Hy & _)].
      * specialize (Hp par Hpar). rewrite Hfree in Hp. by destruct Hp.
      * unfold edge in Hy. rewrite (ok_absent _ _ (h_tree _ _ _ V) n Hfree) in Hy. by apply not_elem_of_nil in Hy.
    + exists seq', d2, K2, O2. split; [done|]. split; [by eapply reach_trans; [split|]|]. done.
Qed.
End Converted.

(** ** The nodes put in *)

(** [f] puts a node that is ready under [par]. *)
Section Inserted.
Context (here : list loc) (par : loc) (Hpar : par ∈ here) (I : forest -> Prop) (P : loc -> Prop) (f : loc -> page -> option page).
Let all_here (d : page) : Prop := forall x, x ∈ here -> is_Some (at_ x (hp d)).
Context (Put : forall d K O n, holds d K O -> I K -> all_here d -> ready par P K O d n ->
  exists d' K', f n d = Some d' /\ reach d K' O d' /\ I K' /\ forall x y, x <> par -> edge K' x y -> edge K x y).

Lemma for_each_ok seq : forall d K O, holds d K O -> I K -> all_here d -> (forall n, n ∈ seq -> ready par P K O d n) ->
  exists d' K', for_each f seq d = Some d' /\ reach d K' O d' /\ I K'.
Proof.
  induction seq as [|n seq IH]; intros d K O V HI Hp Hs.
  { exists d, K. split; [done|]. split; [split; [done|apply keeps_refl]|done]. }
  cbn.
  destruct (Put d K O n V HI Hp (Hs n ltac:(by left))) as (d1 & K1 & -> & [V1 S1] & HI1 & F). cbn.
  destruct (IH d1 K1 O V1 HI1) as (d2 & K2 & E2 & R2 & HI2);
    [intros x Hx; eapply keeps_at; [exact S1|by apply Hp]| |].
  - intros m Hm. apply (ready_mono par P K K1 O O d d1 m S1); [done|by apply paths_to|]. apply Hs. by right.
  - exists d2, K2. split; [done|]. split; [by eapply reach_trans; [split|]|done].
Qed.
End Inserted.

(** The loops over siblings and over the nodes put in. *)
Lemma viable_next h K args n fuel : tree_ok h K -> forall l1 l2, K n = l1 ++ l2 -> length l2 <= fuel ->
  exists o, viable_loop next_sibling args fuel (head l2) h = Some o /\ forall a, o = Some a -> a ∈ l2.
Proof.
  intros T. induction fuel as [|fuel IH]; intros l1 [|c l2] E L; try (by exists None); [cbn in L; lia|].
  cbn. destruct (ns_args_contain_node args c); [|exists (Some c); split; [done|]; intros a [= <-]; by left].
  destruct (at_kid h K T n l1 c l2 E) as (k & -> & _ & _ & N). cbn. rewrite N.
  destruct (IH (l1 ++ [c]) l2) as (o & Eo & Ho); [by rewrite E, <- app_assoc|cbn in L; lia|].
  exists o. split; [done|]. intros a Ha. right. by apply Ho.
Qed.
Lemma viable_prev h K args n fuel : tree_ok h K -> forall l1 l2, K n = l1 ++ l2 -> length l1 <= fuel ->
  exists o, viable_loop prev_sibling args fuel (last l1) h = Some o /\ forall a, o = Some a -> a ∈ l1.
Proof.
  intros T. induction fuel as [|fuel IH]; intros l1 l2 E L; destruct l1 as [|c l1 _] using rev_ind; try (by exists None);
    rewrite ?length_app in L; cbn in L; [lia|]. rewrite last_snoc. cbn.
  destruct (ns_args_contain_node args c); [|exists (Some c); split; [done|]; intros a [= <-]; set_solver +].
  rewrite <- app_assoc in E. destruct (at_kid h K T n l1 c l2 E) as (k & -> & _ & N & _). cbn. rewrite N.
  destruct (IH l1 (c :: l2) E ltac:(lia)) as (o & Eo & Ho). exists o. split; [done|]. intros a Ha. apply elem_of_app. left. by apply Ho.
Qed.
Lemma viable_ok h K args par self k : tree_ok h K -> at_ self h = Some k -> parent k = Some par ->
  exists o1 o2, viable next_sibling args (next_sibling k) h = Some o1 /\ viable prev_sibling args (prev_sibling k) h = Some o2 /\
    (forall a, o1 = Some a -> is_Some (at_ a h)) /\ (forall a, o2 = Some a -> is_Some (at_ a h)).
Proof.
  intros T E Hp. apply (parent_edge h K T _ _ _ E) in Hp. destruct (list_elem_of_split _ _ Hp) as (l1 & l2 & El).
  destruct (at_kid h K T par l1 self l2 El) as (k' & E' & _ & N1 & N2). rewrite E in E'. injection E' as <-.
  pose proof (kids_bound h K T par) as B. rewrite El, length_app in B. cbn in B. unfold viable. rewrite N1, N2.
  destruct (viable_next h K args par (S (size h)) T (l1 ++ [self]) l2) as (o1 & -> & H1); [by rewrite El, <- app_assoc|lia|].
  destruct (viable_prev h K args par (S (size h)) T l1 (self :: l2) El) as (o2 & -> & H2); [lia|].
  exists o1, o2. split; [done|]. split; [done|]. split; intros a Ha; apply (kid_here h K T par); rewrite El; [apply H1 in Ha|apply H2 in Ha]; set_solver.
Qed.

Lemma activate_inserted_ok par seq d K O : holds d K O -> is_Some (at_ par (hp d)) -> (forall n, n ∈ seq -> is_Some (at_ n (hp d))) ->
  exists d', ns_js_activate_inserted par seq d = Some d' /\ reach d K O d'.
Proof.
  intros V Hp Hs. unfold ns_js_activate_inserted.
  destruct (in_template_content_total _ K (h_tree _ _ _ V) par Hp) as (b & ->). cbn [mbind option_bind].
  destruct b; [exists d; split; [done|]; split; [done|apply keeps_refl]|]. clear Hp. revert d V Hs.
  induction seq as [|n seq IH]; intros d V Hs; [exists d; split; [done|]; split; [done|apply keeps_refl]|]. cbn.
  destruct (Hs n ltac:(by left)) as [k Ek]. change (links_of n d) with (at_ n (hp d)). rewrite Ek. cbn [mbind option_bind].
  assert (exists d1, match parent k with None => Some d | Some _ => tell (Activate n) d end = Some d1 /\ reach d K O d1) as (d1 & -> & [V1 S1]).
  { destruct (parent k); [by apply tell_step|]. exists d. split; [done|]. split; [done|apply keeps_refl]. }
  cbn [mbind option_bind]. destruct (IH d1 V1) as (d2 & -> & R2). { intros m Hm. eapply keeps_at; [exact S1|]. apply Hs. by right. }
  exists d2. split; [done|]. by eapply reach_trans; [split|].
Qed.

Lemma put_edges c p f (K : forest) x y : x <> p -> edge (put c p f K) x y -> edge K x y.
Proof. intros Hx. unfold edge, put. rewrite fn_lookup_insert_ne by done. apply without_edge. Qed.

(** A step that puts [n] under [par]. *)
Definition puts (par n : loc) (d : page) (K : forest) (O : gset loc) (x : option page) (I : forest -> Prop) : Prop :=
  exists d' K', x = Some d' /\ reach d K' O d' /\ I K' /\ forall x y, x <> par -> edge K' x y -> edge K x y.

Lemma put_before_ok a par n d K O : holds d K O -> a ∈ K par -> is_Some (at_ par (hp d)) -> is_Some (at_ n (hp d)) -> n ∉ O ->
  ~ rtc (edge K) n par -> puts par n d K O (on_heap (ns_insert_sibling_before a n) d) (fun K' => a ∈ K' par).
Proof.
  intros V Ha Hp Hn Ho Hb. pose proof (h_tree _ _ _ V) as T. destruct (decide (a = n)) as [->|Hne].
  - exists d, K. split; [|split; [split; [done|apply keeps_refl]|by split; [|intros x y _]]].
    destruct (kid_linked _ K T par n Ha) as (k & Ek & Hk). unfold on_heap, ns_insert_sibling_before. rewrite Ek. cbn.
    rewrite Hk, decide_True by done. cbn. by destruct d.
  - destruct (link_before_ok _ K T par n Hp Hn Hb a Ha Hne) as (_ & h' & _ & _ & _ & E & B).
    destruct (put_reach (ns_insert_sibling_before a n) (before a n) n par d K O h' V Ho (proj1 (adds_next a n)) E B) as (d' & E' & R).
    exists d', (put n par (before a n) K). split; [done|]. split; [done|]. split; [|by apply put_edges].
    unfold put. rewrite fn_lookup_insert. rewrite <- splice_before; unfold without; (assert (a ∈ filter (fun x => x <> n) (K par)) as Hf
      by (by rewrite list_elem_of_filter)); [|done].
    clear -Hf. induction (filter _ _) as [|x l IH]; [by apply not_elem_of_nil in Hf|]. cbn.
    destruct (decide (Some x = Some a)) as [[= ->]|]; [set_solver +|]. apply elem_of_cons in Hf as [->|?]; [done|]. right. by apply IH.
Qed.

Lemma put_at_ok anchor par n d K O (I : forest -> Prop) : holds d K O -> is_Some (at_ par (hp d)) -> is_Some (at_ n (hp d)) ->
  (forall a, anchor = Some a -> is_Some (at_ a (hp d))) -> n ∉ O -> ~ rtc (edge K) n par ->
  (forall K', (forall x y, x <> par -> edge K' x y -> edge K x y) -> I K') ->
  puts par n d K O (on_heap (put_at anchor par n) d) I.
Proof.
  intros V Hp Hn Ha Ho Hb HI. pose proof (h_tree _ _ _ V) as T.
  assert (puts par n d K O (on_heap (ns_node_append_child par n) d) I) as Happ.
  { destruct (append_reach n par d K O V Ho Hp Hn Hb) as (d' & E & R). eexists d', _. split; [done|]. split; [exact R|].
    split; [apply HI|]; intros x y; apply put_edges. }
  unfold put_at, on_heap in *. destruct anchor as [a|]; [|by cbn [is_child mbind option_bind]].
  rewrite (is_child_ok _ K T par a (Ha a eq_refl)). cbn [mbind option_bind]. destruct (bool_decide_reflect (a ∈ K par)) as [Hk|Hk]; [|done].
  destruct (put_before_ok a par n d K O V Hk Hp Hn Ho Hb) as (d' & K' & E & R & _ & F). exists d', K'. split_and!; try done. by apply HI.
Qed.

Lemma recorded par n d K O x I : is_Some (at_ n (hp d)) -> puts par n d K O x I -> puts par n d K O (d ← x; record_added par n d) I.
Proof.
  intros Hn (d' & K' & -> & [V S] & HI & F). cbn [mbind option_bind].
  destruct (record_added_reach par n d' K' O V) as (d2 & -> & R2); [by eapply keeps_at|].
  exists d2, K'. split; [done|]. split; [by eapply reach_trans; [split|]|done].
Qed.

(** A method that ends, leaving a tree; one that throws changes nothing. *)
Definition ends_well (d : page) (x : option (reply * page)) : Prop :=
  exists r d' K' O', x = Some (r, d') /\ reach d K' O' d' /\ (forall e, r = Thrown e -> d' = d).

(** The checks of [append] end. *)
Section Batch.
Context (h : heap) (K : forest) (T : tree_ok h K).

Lemma count_args_ok args : forall e t, (forall n, ANode n ∈ args -> is_Some (at_ n h)) -> exists r, count_args args e t h = Some r.
Proof.
  induction args as [|[n|u] args IH]; intros e t Ha; cbn; [eauto| |apply IH; intros; apply Ha; by right].
  assert (forall e t, exists r, count_args args e t h = Some r) as IH' by (intros; apply IH; intros; apply Ha; by right).
  assert (is_Some (at_ n h)) as Hn by (apply Ha; by left).
  rewrite (node_kind_kd _ _ Hn), (is_fragment_ok _ _ Hn). cbn [mbind option_bind].
  rewrite (count_children_ok h K T n Hn). destruct (kd h n), (is_frag h n); apply IH'.
Qed.
Lemma batch_ok par args : is_Some (at_ par h) -> (forall n, ANode n ∈ args -> is_Some (at_ n h)) ->
  exists v, ns_validate_doc_batch par args h = Some v.
Proof.
  intros Hp Ha. unfold ns_validate_doc_batch. rewrite (parent_is_doc_ok _ _ Hp). cbn [mbind option_bind].
  destruct (is_doc h par); [|eauto]. destruct (count_args_ok args 0 false Ha) as [[e []] ->]; cbn; [eauto|].
  rewrite (count_children_ok h K T par Hp). cbn. eauto.
Qed.
Lemma check_args_ok par args : is_Some (at_ par h) -> (forall n, ANode n ∈ args -> is_Some (at_ n h)) ->
  exists v, check_args (fun n h => ns_pre_insert_validity par n None true h) args h = Some v.
Proof.
  intros Hp. induction args as [|[n|u] args IH]; intros Ha; cbn; [eauto| |apply IH; intros; apply Ha; by right].
  destruct (pre_insert_ok h K T par n None Hp (Ha n ltac:(by left)) ltac:(done)) as (v & E & _). cbn [no_place] in E. rewrite E. cbn.
  destruct v; [eauto|]. apply IH. intros; apply Ha; by right.
Qed.
End Batch.

Lemma throws_well d K O e : holds d K O -> ends_well d (Some (Thrown e, d)).
Proof. intros V. exists (Thrown e), d, K, O. split; [done|]. split; [split; [done|apply keeps_refl]|done]. Qed.
Lemma stays_well d K O : holds d K O -> ends_well d (Some (Returned None, d)).
Proof. intros V. exists (Returned None), d, K, O. split; [done|]. split; [split; [done|apply keeps_refl]|done]. Qed.

(** The end of these methods. *)
Lemma activated_well par seq d0 d K O : reach d0 K O d -> is_Some (at_ par (hp d)) -> (forall n, n ∈ seq -> is_Some (at_ n (hp d))) ->
  ends_well d0 (d ← ns_js_activate_inserted par seq (mutate d); Some (Returned None, d)).
Proof.
  intros [V S] Hp Hs. destruct (activate_inserted_ok par seq (mutate d) K O (proj1 (mutate_reach d K O V)) Hp Hs) as (d1 & -> & R1).
  eexists (Returned None), d1, K, O. split; [done|]. split; [|done]. split; [apply R1|]. exact (keeps_trans _ _ _ S (proj2 R1)).
Qed.

(** The arguments of [append] taken out, and put at the end. *)
Lemma convert_around_all par args d K O : holds d K O -> is_Some (at_ par (hp d)) -> (forall n, ANode n ∈ args -> is_Some (at_ n (hp d))) ->
  exists seq d1 K1 O1, convert_args (ns_node_ancestor_or_self par) args [] d = Some (seq, d1) /\
    reach d K1 O1 d1 /\ (forall n, n ∈ seq -> ready par (fun _ => True) K1 O1 d1 n).
Proof.
  intros V Hp Ha.
  destruct (convert_args_ok [par] par ltac:(by left) (fun _ => True) (fun _ => True) (ns_node_ancestor_or_self par))
    with (args := args) (seq := @nil loc) (d := d) (K := K) (O := O) as (seq & d1 & K1 & O1 & E & R1 & _ & F1 & Hs); try done;
    [| | |by exists seq, d1, K1, O1].
  { intros d1 K1 O1 n V1 _ Hn Hall. destruct (contains_ok _ K1 (h_tree _ _ _ V1) n par (Hall par ltac:(by left))) as (b & E & Hb).
    exists b. split; [done|]. intros ->. split; [by intros ?%Hb|done]. }
  { by intros x ->%list_elem_of_singleton. }
  { intros n Hn. by apply not_elem_of_nil in Hn. }
Qed.
Lemma append_all par seq d K O : holds d K O -> is_Some (at_ par (hp d)) -> (forall n, n ∈ seq -> ready par (fun _ => True) K O d n) ->
  exists d' K', for_each (fun n d => d ← on_heap (ns_node_append_child par n) d; record_added par n d) seq d = Some d' /\ reach d K' O d'.
Proof.
  intros V Hp Hs.
  destruct (for_each_ok [par] par (fun _ => True) (fun _ => True) (fun n d => d ← on_heap (ns_node_append_child par n) d; record_added par n d))
    with (seq := seq) (d := d) (K := K) (O := O) as (d2 & K2 & E & R2 & _); try done; [| |by exists d2, K2].
  { intros d2 K2 O2 n V2 _ Hall (H1 & H2 & H3 & _). apply recorded; [done|].
    apply (put_at_ok None par n d2 K2 O2 (fun _ => True)); try done. apply Hall. by left. }
  { by intros x ->%list_elem_of_singleton. }
Qed.

Lemma append_method_ok par args d K O : holds d K O -> is_Some (at_ par (hp d)) -> (forall n, ANode n ∈ args -> is_Some (at_ n (hp d))) ->
  ends_well d (ns_element_append par args d).
Proof.
  intros V Hp Ha. pose proof (h_tree _ _ _ V) as T. unfold ns_element_append.
  destruct (batch_ok _ K T par args Hp Ha) as ([e|] & ->); cbn [mbind option_bind]; [by eapply throws_well|].
  destruct (check_args_ok _ K T par args Hp Ha) as ([e|] & ->); cbn [mbind option_bind]; [by eapply throws_well|].
  destruct (convert_around_all par args d K O V Hp Ha) as (seq & d1 & K1 & O1 & -> & [V1 S1] & Hs). cbn [mbind option_bind].
  assert (is_Some (at_ par (hp d1))) as Hp1 by (by eapply keeps_at).
  destruct (append_all par seq d1 K1 O1 V1 Hp1 Hs) as (d2 & K2 & -> & [V2 S2]). cbn [mbind option_bind].
  eapply activated_well; [split; [exact V2|by eapply keeps_trans]|by eapply keeps_at|].
  intros n Hn. eapply keeps_at; [exact S2|]. by apply Hs.
Qed.

Lemma one_here (par : loc) (h : heap) : is_Some (at_ par h) -> forall x, x ∈ [par] -> is_Some (at_ x h).
Proof. by intros Hp x ->%list_elem_of_singleton. Qed.
Lemma self_not_above K h self par : tree_ok h K -> self ∈ K par -> ~ rtc (edge K) self par.
Proof. intros T Hk Hr. apply (ok_acyclic _ _ T self). by eapply tc_rtc_l; [|apply tc_once]. Qed.

Lemma before_ok self args d K O : holds d K O -> is_Some (at_ self (hp d)) -> (forall n, ANode n ∈ args -> is_Some (at_ n (hp d))) ->
  ends_well d (ns_element_before self args d).
Proof.
  intros V [s Es] Ha. unfold ns_element_before. change (links_of self d) with (at_ self (hp d)). rewrite Es. cbn [mbind option_bind].
  destruct (parent s) as [par|] eqn:Hs; [|by eapply stays_well]. pose proof (h_tree _ _ _ V) as T.
  apply (parent_edge _ K T _ _ _ Es) in Hs. destruct (has_links _ K T par self Hs) as [kp Ep].
  assert (is_Some (at_ par (hp d))) as Hp by eauto.
  match goal with |- context [convert_args ?sk _ _ _] => destruct (convert_args_ok [par] par ltac:(by left) (fun K => self ∈ K par)
    (fun n => n <> self) sk) with (args := args) (seq := @nil loc) (d := d) (K := K) (O := O) as (seq & d1 & K1 & O1 & -> & R1 & HI & F1 & Hseq) end;
    try done; [| |by apply one_here|by intros n Hn%not_elem_of_nil|].
  { intros d1 K1 O1 n V1 HI Hn Hall. pose proof (h_tree _ _ _ V1) as T1. destruct (decide (n = self)) as [->|Hne]; [by exists true|].
    destruct (kid_linked _ K1 T1 par self HI) as (k & Ek & Hk). rewrite Ek. cbn [mbind option_bind]. rewrite Hk.
    destruct (contains_ok _ K1 T1 n par (Hall par ltac:(by left))) as (b & E & Hb). exists b. split; [done|]. intros ->.
    assert (~ rtc (edge K1) n par) as Nb by (by intros ?%Hb). split; [done|].
    assert (self ∉ taken (hp d1) K1 n) as Nt.
    { unfold taken. destruct (loose _ _); [|by rewrite list_elem_of_singleton]. intros X. apply Nb.
      rewrite (one_parent _ K1 T1 self n par X HI). apply rtc_refl. }
    intros K' _ Hkeep. split; [by apply Hkeep|]. intros x Hx ->. by apply Nt. }
  { intros d1 K1 O1 n V1 HI _ Hfree ->. destruct (kid_linked _ K1 (h_tree _ _ _ V1) par self HI) as (k & Ek & _). congruence. }
  cbn [mbind option_bind]. assert (is_Some (at_ par (hp d1))) as Hp1 by (eapply keeps_at; [apply R1|done]).
  match goal with |- context [for_each ?f _ _] => destruct (for_each_ok [par] par (fun K => self ∈ K par)
    (fun n => n <> self) f) with (seq := seq) (d := d1) (K := K1) (O := O1) as (d2 & K2 & -> & R2 & HI2) end;
    try done; [|apply R1|by apply one_here|].
  { intros d2 K2 O2 n V2 HI2 Hall (H1 & H2 & H3 & _).
    destruct (put_before_ok self par n d2 K2 O2 V2 HI2 (Hall par ltac:(by left)) H1 H2 H3) as (d3 & K3 & -> & [V3 S3] & HI3 & F3).
    cbn [mbind option_bind]. destruct (kid_linked _ K3 (h_tree _ _ _ V3) par self HI3) as (k & Ek & Hk).
    change (links_of self d3) with (at_ self (hp d3)). rewrite Ek. cbn [mbind option_bind]. rewrite Hk.
    destruct (record_added_reach par n d3 K3 O2 V3) as (d4 & -> & R4); [by eapply keeps_at|].
    exists d4, K3. split; [done|]. split; [by eapply reach_trans; [split|]|done]. }
  cbn [mbind option_bind]. destruct (kid_linked _ K2 (h_tree _ _ _ (proj1 R2)) par self HI2) as (k & Ek & Hk).
  change (links_of self (mutate d2)) with (at_ self (hp d2)). rewrite Ek. cbn [mbind option_bind]. rewrite Hk.
  eapply activated_well; [by eapply reach_trans|eapply keeps_at; [apply R2|done]|].
  intros n Hn. eapply keeps_at; [apply R2|]. by apply Hseq.
Qed.

(** The arguments of [after] and [replaceWith] taken out, and put at [anchor]. *)
Lemma convert_around par self args d K O : holds d K O -> is_Some (at_ par (hp d)) -> ~ rtc (edge K) self par ->
  (forall n, ANode n ∈ args -> is_Some (at_ n (hp d))) ->
  exists seq d1 K1 O1, convert_args (fun n h => b ← ns_node_ancestor_or_self par n h; Some (b && negb (bool_decide (n = self)))) args [] d = Some (seq, d1) /\
    reach d K1 O1 d1 /\ (forall n, n ∈ seq -> ready par (fun _ => True) K1 O1 d1 n).
Proof.
  intros V Hp Hn Ha. match goal with |- context [convert_args ?sk _ _ _] => destruct (convert_args_ok [par] par ltac:(by left)
    (fun K => ~ rtc (edge K) self par) (fun _ => True) sk) with (args := args) (seq := @nil loc) (d := d) (K := K) (O := O)
    as (seq & d1 & K1 & O1 & E & R1 & HI & F1 & Hseq) end; try done; [|by apply one_here|by intros n Hx%not_elem_of_nil|by exists seq, d1, K1, O1].
  intros d1 K1 O1 n V1 HI Hx Hall. destruct (contains_ok _ K1 (h_tree _ _ _ V1) n par (Hall par ltac:(by left))) as (b & E & Hb).
  unfold ns_node_ancestor_or_self. rewrite E. cbn [mbind option_bind]. eexists. split; [done|]. intros Hf. split.
  - destruct (bool_decide_reflect (n = self)) as [->|]; [done|]. rewrite andb_true_r in Hf. subst b. by intros ?%Hb.
  - intros K' F _. split; [|done]. intros X%(fewer_paths _ _ _ _ F). done.
Qed.
Lemma put_around par anchor seq d K O : holds d K O -> is_Some (at_ par (hp d)) -> (forall a, anchor = Some a -> is_Some (at_ a (hp d))) ->
  (forall n, n ∈ seq -> ready par (fun _ => True) K O d n) ->
  exists d' K', for_each (fun n d => d ← on_heap (put_at anchor par n) d; record_added par n d) seq d = Some d' /\ reach d K' O d'.
Proof.
  intros V Hp Ha Hs. set (here := par :: match anchor with Some a => [a] | None => [] end).
  assert (par ∈ here) as Hin by (apply elem_of_cons; by left).
  destruct (for_each_ok here par (fun _ => True) (fun _ => True) (fun n d => d ← on_heap (put_at anchor par n) d; record_added par n d))
    with (seq := seq) (d := d) (K := K) (O := O) as (d2 & K2 & E & R & _); try done; [| |by exists d2, K2].
  - intros d2 K2 O2 n V2 _ Hall (H1 & H2 & H3 & _). apply recorded; [done|]. apply (put_at_ok anchor par n d2 K2 O2 (fun _ => True)); try done.
    + by apply Hall.
    + intros a ->. apply Hall. apply elem_of_cons. right. by apply list_elem_of_singleton.
  - intros x [->|Hx]%elem_of_cons; [done|]. destruct anchor as [a|]; [|by apply not_elem_of_nil in Hx].
    apply list_elem_of_singleton in Hx as ->. by apply Ha.
Qed.

Lemma after_ok self args d K O : holds d K O -> is_Some (at_ self (hp d)) -> (forall n, ANode n ∈ args -> is_Some (at_ n (hp d))) ->
  ends_well d (ns_element_after self args d).
Proof.
  intros V [s Es] Ha. unfold ns_element_after. change (links_of self d) with (at_ self (hp d)). rewrite Es. cbn [mbind option_bind].
  destruct (parent s) as [par|] eqn:Hs; [|by eapply stays_well]. pose proof (h_tree _ _ _ V) as T.
  destruct (viable_ok _ K args par self s T Es Hs) as (o & _ & -> & _ & Ho & _). cbn [mbind option_bind].
  apply (parent_edge _ K T _ _ _ Es) in Hs. destruct (has_links _ K T par self Hs) as [kp Ep].
  destruct (convert_around par self args d K O V) as (seq & d1 & K1 & O1 & -> & [V1 S1] & Hseq); [by eauto|by eapply self_not_above|done|].
  cbn [mbind option_bind]. assert (is_Some (at_ par (hp d1))) as Hp1 by (eapply keeps_at; eauto).
  destruct (put_around par o seq d1 K1 O1 V1 Hp1) as (d2 & K2 & -> & [V2 S2]); [|done|].
  { intros a Ea. eapply keeps_at; [done|]. by apply Ho. }
  cbn [mbind option_bind]. eapply activated_well; [split; [exact V2|by eapply keeps_trans]|by eapply keeps_at|].
  intros n Hn. eapply keeps_at; [done|]. by apply Hseq.
Qed.

Lemma next_here h K v k a : tree_ok h K -> at_ v h = Some k -> next_sibling k = Some a -> is_Some (at_ a h).
Proof.
  intros T E Hn. destruct (parent k) as [p|] eqn:Hp; [|destruct (ok_orphan _ _ T _ _ E Hp); congruence].
  apply (parent_edge h K T _ _ _ E) in Hp. apply list_elem_of_split in Hp as (l1 & l2 & El).
  destruct (at_kid h K T p l1 v l2 El) as (k' & E' & _ & _ & N). rewrite E in E'. injection E' as <-. rewrite Hn in N.
  apply (kid_here h K T p). rewrite El. symmetry in N. apply head_elem in N. set_solver.
Qed.
Lemma first_here h K p k a : tree_ok h K -> at_ p h = Some k -> first_child k = Some a -> is_Some (at_ a h).
Proof.
  intros T E Hf. rewrite (proj1 (ok_ends _ _ T _ _ E)) in Hf. apply (kid_here h K T p). by apply head_elem.
Qed.

Lemma anchor_ok (self_in_args : bool) self par v d K O : holds d K O -> is_Some (at_ par (hp d)) -> is_Some (at_ self (hp d)) ->
  (forall a, v = Some a -> is_Some (at_ a (hp d))) ->
  exists anchor, (if self_in_args then match v with Some v => l ← links_of v d; Some (next_sibling l)
                    | None => l ← links_of par d; Some (first_child l) end else Some (Some self)) = Some anchor /\
    forall a, anchor = Some a -> is_Some (at_ a (hp d)).
Proof.
  intros V [kp Ep] Hs Hv. pose proof (h_tree _ _ _ V) as T. unfold links_of.
  destruct self_in_args; [|exists (Some self); split; [done|]; by intros a [= <-]]. destruct v as [v|].
  - destruct (Hv v eq_refl) as [k Ek]. rewrite Ek. cbn. eexists. split; [done|]. intros a. by eapply next_here.
  - rewrite Ep. cbn. eexists. split; [done|]. intros a. by eapply first_here.
Qed.

Lemma replaceWith_ok self args d K O : holds d K O -> is_Some (at_ self (hp d)) -> (forall n, ANode n ∈ args -> is_Some (at_ n (hp d))) ->
  ends_well d (ns_element_replaceWith self args d).
Proof.
  intros V Hself Ha. pose proof Hself as [s Es]. unfold ns_element_replaceWith. change (links_of self d) with (at_ self (hp d)).
  rewrite Es. cbn [mbind option_bind]. destruct (parent s) as [par|] eqn:Hs; [|by eapply stays_well]. pose proof (h_tree _ _ _ V) as T.
  destruct (viable_ok _ K args par self s T Es Hs) as (_ & o & _ & -> & _ & Ho). cbn [mbind option_bind].
  apply (parent_edge _ K T _ _ _ Es) in Hs. destruct (has_links _ K T par self Hs) as [kp Ep].
  destruct (convert_around par self args d K O V) as (seq & d1 & K1 & O1 & -> & [V1 S1] & Hseq); [by eauto|by eapply self_not_above|done|].
  cbn [mbind option_bind]. assert (is_Some (at_ par (hp d1))) as Hp1 by (eapply keeps_at; eauto).
  assert (is_Some (at_ self (hp d1))) as Hs1 by (by eapply keeps_at).
  destruct (anchor_ok (ns_args_contain_node args self) self par o d1 K1 O1 V1 Hp1 Hs1) as (anchor & -> & Hanchor).
  { intros a Ea. eapply keeps_at; [done|]. by apply Ho. }
  cbn [mbind option_bind]. destruct (put_around par anchor seq d1 K1 O1 V1 Hp1 Hanchor Hseq) as (d2 & K2 & -> & [V2 S2]). cbn [mbind option_bind].
  assert (is_Some (at_ self (hp d2))) as [k2 Ek2] by (by eapply keeps_at).
  assert (exists d3 K3 O3, (if ns_args_contain_node args self then Some d2 else
     s ← links_of self d2; d ← on_heap (ns_node_remove self) d2;
     tell (ChildChange par None (Some self) (prev_sibling s) (next_sibling s)) (orphan self d)) = Some d3 /\ reach d2 K3 O3 d3)
    as (d3 & K3 & O3 & -> & [V3 S3]).
  { destruct (ns_args_contain_node args self); [exists d2, K2, O1; split; [done|]; split; [done|apply keeps_refl]|].
    change (links_of self d2) with (at_ self (hp d2)). rewrite Ek2. cbn [mbind option_bind].
    destruct (remove_reach self d2 K2 O1 V2) as (d3 & -> & _ & [V3 S3]); [eauto|]. cbn [mbind option_bind].
    destruct (orphan_step self d3 K2 O1 V3) as [V4 S4]; [eapply keeps_at; eauto|].
    destruct (tell_step (ChildChange par None (Some self) (prev_sibling k2) (next_sibling k2)) _ _ _ V4) as (d5 & -> & [V5 S5]).
    eexists d5, _, _. split; [done|]. split; [exact V5|]. exact (keeps_trans _ _ _ S3 S5). }
  cbn [mbind option_bind].
  pose proof (keeps_trans _ _ _ S2 S3) as S23. eapply activated_well; [split; [exact V3|by eapply keeps_trans]|by eapply keeps_at|].
  intros n Hn. eapply keeps_at; [done|]. by apply Hseq.
Qed.

(** ** [prepend]

    It takes the first child before the arguments come out of their places, and links
    them before it without taking them out again: what follows needs them apart. *)

Definition arg_nodes (args : list nodearg) : list loc :=
  omap (fun a => match a with ANode n => Some n | AText _ => None end) args.
Lemma arg_nodes_in args n : ANode n ∈ args -> n ∈ arg_nodes args.
Proof. intros Hn. apply list_elem_of_omap. by exists (ANode n). Qed.

(** No argument is given twice, by itself or with a fragment, and none is the first
    child. *)
Definition prepend_apart (h : heap) (par : loc) (args : list nodearg) : Prop :=
  (forall k r, at_ par h = Some k -> first_child k = Some r -> r ∉ arg_nodes args) /\ NoDup (arg_nodes args) /\
  (forall n m k, n ∈ arg_nodes args -> m ∈ arg_nodes args -> at_ n h = Some k -> parent k = Some m -> kd h m <> NS_NODE_DOCUMENT).

(** The nodes to link: apart, in no list of children, and none of them [r]. *)
Definition apart (par r : loc) (K : forest) (O : gset loc) (d : page) (seq : list loc) : Prop :=
  NoDup seq /\ forall n, n ∈ seq -> ready par (fun n => n <> r) K O d n /\ forall p, n ∉ K p.

Lemma apart_taken par r n seq d K O d1 K1 O1 : holds d K O -> r ∈ K par -> r <> n -> n ∉ seq -> ~ rtc (edge K) n par ->
  apart par r K O d seq -> keeps d d1 -> fewer K K1 -> O1 ⊆ O ->
  (forall x, x ∈ taken (hp d) K n -> is_Some (at_ x (hp d)) /\ x ∉ O1 /\ (x = n \/ x ∈ K n)) ->
  (forall x p, x ∈ taken (hp d) K n -> x ∉ K1 p) ->
  r ∉ taken (hp d) K n /\ apart par r K1 O1 d1 (seq ++ taken (hp d) K n).
Proof.
  intros V Hr Hne Hs Nb [Nd A] S F HO Hx Hz. pose proof (h_tree _ _ _ V) as T.
  assert (r ∉ taken (hp d) K n) as Nr.
  { unfold taken. destruct (loose _ _); [|by rewrite list_elem_of_singleton]. intros X. apply Nb.
    rewrite (one_parent _ K T r n par X Hr). apply rtc_refl. }
  split; [done|]. split.
  - apply NoDup_app. split; [done|]. split.
    + intros x Hxs. unfold taken. destruct (loose _ _); [by apply A|]. intros ->%list_elem_of_singleton. done.
    + unfold taken. destruct (loose _ _); [apply (kids_nodup _ K T)|apply NoDup_singleton].
  - intros m [Hm|Hm]%elem_of_app.
    + destruct (A m Hm) as [R Z]. split; [eapply ready_mono; [exact S|done|by apply fewer_paths|done]|].
      intros p Hp. by apply (Z p), F.
    + destruct (Hx m Hm) as (X1 & X2 & X3). split; [|intros p; by apply Hz]. split_and!; [by eapply keeps_at|done| |by intros ->].
      intros X%(fewer_paths _ _ _ _ F). destruct X3 as [->|X3]; [done|]. apply Nb. by eapply rtc_l.
Qed.

Lemma apart_text par r n seq d K O d1 : holds d K O -> r ∈ K par -> is_Some (at_ par (hp d)) -> apart par r K O d seq -> keeps d d1 ->
  at_ n (hp d) = None -> is_Some (at_ n (hp d1)) -> n ∉ O -> apart par r K O d1 (seq ++ [n]).
Proof.
  intros V Hr Hp [Nd A] S Hf Hn Ho. pose proof (h_tree _ _ _ V) as T.
  assert (forall x, is_Some (at_ x (hp d)) -> x <> n) as Ne by (intros x [k Ek] ->; congruence). split.
  - apply NoDup_app. split; [done|]. split; [|apply NoDup_singleton]. intros x Hx ->%list_elem_of_singleton.
    destruct (A n Hx) as [(Hx' & _) _]. by apply (Ne n).
  - intros m [Hm| ->%list_elem_of_singleton]%elem_of_app.
    + destruct (A m Hm) as [R Z]. split; [|done]. by eapply ready_mono; [exact S|done|done|].
    + split; [|intros p Hx; apply (Ne n); [by apply (kid_here _ K T p)|done]]. split_and!; [done|done| |].
      * intros X. apply rtc_inv in X as [->|(y & Hy & _)]; [by apply (Ne par)|].
        unfold edge in Hy. rewrite (ok_absent _ _ T n Hf) in Hy. by apply not_elem_of_nil in Hy.
      * intros ->. apply (Ne r); [|done]. by apply (kid_here _ K T par).
Qed.

Lemma convert_apart par r args : forall seq d K O, holds d K O -> r ∈ K par -> is_Some (at_ par (hp d)) ->
  (forall n, ANode n ∈ args -> is_Some (at_ n (hp d))) -> r ∉ arg_nodes args -> NoDup (arg_nodes args) ->
  (forall n m, n ∈ arg_nodes args -> m ∈ arg_nodes args -> kd (hp d) m = NS_NODE_DOCUMENT -> n ∉ K m) ->
  (forall n, n ∈ seq -> n ∉ arg_nodes args) -> apart par r K O d seq ->
  exists seq' d' K' O', convert_args (ns_node_ancestor_or_self par) args seq d = Some (seq', d') /\ reach d K' O' d' /\
    r ∈ K' par /\ apart par r K' O' d' seq'.
Proof.
  induction args as [|[n|t] args IH]; intros seq d K O V Hr Hp Ha Hra Nd Hm Hs A.
  - exists seq, d, K, O. split; [done|]. split; [split; [done|apply keeps_refl]|done].
  - change (arg_nodes (ANode n :: args)) with (n :: arg_nodes args) in *. apply not_elem_of_cons in Hra as [Hrn Hra].
    apply NoDup_cons in Nd as [Nn Nd]. assert (is_Some (at_ n (hp d))) as Hn by (apply Ha; by left). cbn [convert_args].
    destruct (contains_ok _ K (h_tree _ _ _ V) n par Hp) as (b & E & Hb). change (ns_node_ancestor_or_self par n (hp d)) with (ns_node_contains n par (hp d)). rewrite E.
    cbn [mbind option_bind]. destruct b.
    { apply (IH seq d K O V Hr Hp); try done; [intros m Hx; apply Ha; by right|intros x y Hx Hy; apply Hm; by right|].
      intros x Hx Hx'. apply (Hs x Hx). by right. }
    assert (~ rtc (edge K) n par) as Nb by (by intros ?%Hb).
    destruct (convert_node_ok n seq d K O V Hn) as (d1 & K1 & O1 & -> & [V1 S1] & F1 & HO & Hx & Hz & Hy). cbn [mbind option_bind].
    destruct (apart_taken par r n seq d K O d1 K1 O1 V Hr Hrn) as [Nr A1]; try done.
    { intros X. apply (Hs n X). by left. }
    destruct (IH (seq ++ taken (hp d) K n) d1 K1 O1 V1) as (seq' & d2 & K2 & O2 & E2 & R2 & Hr2 & A2); try done.
    + by apply Hy.
    + by eapply keeps_at.
    + intros m Hmx. eapply keeps_at; [exact S1|]. apply Ha. by right.
    + intros x y Hx' Hy' Hk Hxy. rewrite (keeps_kd _ _ y S1) in Hk.
      * apply (Hm x y); [by right|by right|done|by apply F1].
      * apply list_elem_of_omap in Hy' as ([z|] & Hz' & [= ->]). apply Ha. by right.
    + intros x [Hx'|Hx']%elem_of_app; [intros X; apply (Hs x Hx'); by right|]. unfold taken in Hx'.
      destruct (loose (hp d) n) eqn:El; [|by apply list_elem_of_singleton in Hx' as ->]. intros X.
      apply (loose_true _ K n (h_tree _ _ _ V) Hn) in El as [El _]. by apply (Hm x n); [right|left|..].
    + exists seq', d2, K2, O2. split; [done|]. split; [by eapply reach_trans; [split|]|done].
  - change (arg_nodes (AText t :: args)) with (arg_nodes args) in *. cbn [convert_args].
    destruct (new_text_reach t d K O V) as (n & d1 & -> & [V1 S1] & Hn & Ho & Hf).
    assert (forall m, m ∈ arg_nodes args -> is_Some (at_ m (hp d))) as Hargs.
    { intros m Hx. apply list_elem_of_omap in Hx as ([z|] & Hz' & [= ->]). apply Ha. by right. }
    destruct (IH (seq ++ [n]) d1 K O V1 Hr) as (seq' & d2 & K2 & O2 & E2 & R2 & Hr2 & A2); try done.
    + by eapply keeps_at.
    + intros m Hx. eapply keeps_at; [exact S1|]. apply Ha. by right.
    + intros x y Hx Hy Hk. rewrite (keeps_kd _ _ y S1) in Hk by (by apply Hargs). by apply Hm.
    + intros x [Hx| ->%list_elem_of_singleton]%elem_of_app; [by apply Hs|]. intros [k Ek]%Hargs. congruence.
    + by apply (apart_text par r n seq d K O d1).
    + exists seq', d2, K2, O2. split; [done|]. split; [by eapply reach_trans; [split|]|done].
Qed.

Lemma before_elem r n l : r ∈ l -> r ∈ before r n l.
Proof.
  induction l as [|x l IH]; cbn; [done|]. destruct (decide (x = r)) as [->|]; [set_solver +|].
  intros [->|Hx]%elem_of_cons; [done|]. right. by apply IH.
Qed.

Lemma link_apart par r seq : forall d K O, holds d K O -> r ∈ K par -> is_Some (at_ par (hp d)) -> apart par r K O d seq ->
  exists d' K', for_each (fun n d => d ← on_heap (link_before par r n) d; record_added par n d) seq d = Some d' /\ reach d K' O d'.
Proof.
  induction seq as [|n seq IH]; intros d K O V Hr Hp [Nd A].
  { exists d, K. split; [done|]. split; [done|apply keeps_refl]. }
  apply NoDup_cons in Nd as [Nn Nd]. destruct (A n ltac:(by left)) as [(Hn & Ho & Nb & Hne) Z].
  pose proof (h_tree _ _ _ V) as T. assert (r <> n) as Hne' by congruence.
  destruct (link_before_ok _ K T par n Hp Hn Nb r Hr Hne') as (h1 & h' & E1 & _ & E & _ & B).
  assert (h1 = hp d) as ->.
  { destruct Hn as [k Ek]. unfold remove_if_linked in E1. rewrite Ek in E1. cbn in E1.
    destruct (parent k) as [p|] eqn:Hk; [|congruence]. apply (parent_edge _ K T _ _ _ Ek) in Hk. by apply Z in Hk. }
  destruct (put_reach (link_before par r n) (before r n) n par d K O h' V Ho (proj1 (adds_next r n)) E B) as (d1 & E2 & [V1 S1]).
  cbn [for_each]. rewrite E2. cbn [mbind option_bind].
  destruct (record_added_reach par n d1 _ O V1) as (d2 & -> & [V2 S2]); [by eapply keeps_at|]. cbn [mbind option_bind].
  destruct (IH d2 _ O V2) as (d3 & K3 & E3 & R3).
  - unfold put. rewrite fn_lookup_insert. apply before_elem. unfold without. by rewrite list_elem_of_filter.
  - eapply keeps_at; [exact S2|]. by eapply keeps_at.
  - split; [done|]. intros m Hm. destruct (A m ltac:(by right)) as [R Zm]. split.
    + eapply (ready_mono par _ K _ O O d); [by eapply keeps_trans|done| |exact R]. apply paths_to. intros x y. by apply put_edges.
    + intros p [->|[Hx _]]%put_elem; [done|by apply (Zm p)|apply adds_next].
  - exists d3, K3. split; [done|]. eapply reach_trans; [split; [exact V2|by eapply keeps_trans]|exact R3].
Qed.

Lemma check_prepend_ok par args d K O k : holds d K O -> at_ par (hp d) = Some k -> (forall n, ANode n ∈ args -> is_Some (at_ n (hp d))) ->
  exists v, check_args (fun n h => p ← at_ par h;
    ns_pre_insert_validity par n (first_child p) (match first_child p with None => true | Some _ => false end) h) args (hp d) = Some v.
Proof.
  intros V E. pose proof (h_tree _ _ _ V) as T. induction args as [|[n|t] args IH]; intros Ha; cbn [check_args]; [eauto| |].
  - rewrite E. cbn [mbind option_bind].
    destruct (pre_insert_ok _ K T par n (first_child k)) as (v & Ev & _); [eauto|apply Ha; by left| |].
    { intros c Hc. by eapply first_here. }
    unfold no_place in Ev. rewrite Ev. cbn [mbind option_bind]. destruct v; [eauto|]. apply IH. intros m Hm. apply Ha. by right.
  - apply IH. intros m Hm. apply Ha. by right.
Qed.

Lemma prepend_ok par args d K O : holds d K O -> is_Some (at_ par (hp d)) -> (forall n, ANode n ∈ args -> is_Some (at_ n (hp d))) ->
  prepend_apart (hp d) par args -> ends_well d (ns_element_prepend par args d).
Proof.
  intros V Hp Ha (P1 & P2 & P3). pose proof (h_tree _ _ _ V) as T. unfold ns_element_prepend.
  destruct (batch_ok _ K T par args Hp Ha) as ([e|] & ->); cbn [mbind option_bind]; [by eapply throws_well|].
  destruct Hp as [k Ek]. destruct (check_prepend_ok par args d K O k V Ek Ha) as ([e|] & ->); cbn [mbind option_bind]; [by eapply throws_well|].
  change (links_of par d) with (at_ par (hp d)). rewrite Ek. cbn [mbind option_bind]. destruct (first_child k) as [r|] eqn:Ef.
  - pose proof Ef as Er. rewrite (proj1 (ok_ends _ _ T _ _ Ek)) in Er. apply head_elem in Er.
    destruct (convert_apart par r args [] d K O V Er) as (seq & d1 & K1 & O1 & -> & [V1 S1] & Hr1 & A1); [eauto|done|by eapply P1|done| | | |].
    { intros n m Hn Hm Hk Hnm. destruct (kid_linked _ K T m n Hnm) as (kn & En & Hkn). by apply (P3 n m kn). }
    { intros n Hn. by apply not_elem_of_nil in Hn. }
    { split; [constructor|]. intros n Hn. by apply not_elem_of_nil in Hn. }
    cbn [mbind option_bind]. destruct (link_apart par r seq d1 K1 O1 V1 Hr1) as (d2 & K2 & -> & [V2 S2]); [eapply keeps_at; eauto|done|].
    cbn [mbind option_bind]. eapply activated_well; [split; [exact V2|by eapply keeps_trans]|eapply keeps_at; [exact S2|eapply keeps_at; eauto]|].
    intros n Hn. eapply keeps_at; [exact S2|]. by apply A1.
  - destruct (convert_around_all par args d K O V) as (seq & d1 & K1 & O1 & -> & [V1 S1] & Hseq); [eauto|done|]. cbn [mbind option_bind].
    destruct (append_all par seq d1 K1 O1 V1) as (d2 & K2 & -> & [V2 S2]); [eapply keeps_at; eauto|done|]. cbn [mbind option_bind].
    eapply activated_well; [split; [exact V2|by eapply keeps_trans]|eapply keeps_at; [exact S2|eapply keeps_at; eauto]|].
    intros n Hn. eapply keeps_at; [exact S2|]. by apply Hseq.
Qed.
End Lists.
