(* ===== verification/DomDoc.v ===== *)
(** * Documents stay well formed

    A document has at most one element and one doctype among its children, the
    doctype first, and no text; a doctype is only ever there, and no node is the
    child of a text or has a document for a child. [appendChild], [insertBefore],
    [replaceChild] and [removeChild] keep this, whatever they are given. The methods
    that check less do not, as the examples of [DomPage] show. *)

From stdpp Require Import functions relations.
From S2P Require Import Prelude CStr GLib Xml DomStore DomTree Dom DomSpec DomCalls.

(** ** The children of a document *)

Section Order.
Context (f : loc -> ns_node_kind).

(** [e] and [t]: an element, a doctype has been seen. *)
Fixpoint doc_ok (e t : bool) (l : list loc) : bool :=
  match l with
  | [] => true
  | c :: l =>
      match f c with
      | NS_NODE_TEXT | NS_NODE_DOCUMENT => false
      | NS_NODE_ELEMENT => negb e && doc_ok true t l
      | NS_NODE_DOCTYPE => negb e && negb t && doc_ok e true l
      | NS_NODE_COMMENT => doc_ok e t l
      end
  end.
Definition has (k : ns_node_kind) (l : list loc) : bool := existsb (fun c => bool_decide (f c = k)) l.

Lemma doc_ok_weaken l : forall e t e' t', (e = false -> e' = false) -> (t = false -> t' = false) -> doc_ok e t l = true -> doc_ok e' t' l = true.
Proof.
  induction l as [|c l IH]; intros e t e' t' He Ht; [done|]. cbn. destruct (f c); try done.
  - intros [[N1 N2]%andb_true_iff N3]%andb_true_iff. rewrite !andb_true_iff. destruct e, t; try done.
    rewrite He, Ht by done. split; [done|]. by apply (IH false true).
  - intros [N1 N2]%andb_true_iff. destruct e; [done|]. rewrite He by done. cbn. by apply (IH true t).
  - by apply IH.
Qed.

Lemma doc_ok_sublist l1 l2 : sublist l1 l2 -> forall e t, doc_ok e t l2 = true -> doc_ok e t l1 = true.
Proof.
  induction 1 as [|x l1 l2 _ IH|x l1 l2 _ IH]; intros e t; [done| |]; cbn.
  - destruct (f x); try done; rewrite ?andb_true_iff; [intros [? ?]; split; [done|by apply IH]..|apply IH].
  - destruct (f x); try done; rewrite ?andb_true_iff.
    + intros [? Hl]. apply (doc_ok_weaken l1 e true); [done|done|]. by apply IH.
    + intros [? Hl]. apply (doc_ok_weaken l1 true t); [by destruct e|done|]. by apply IH.
    + apply IH.
Qed.

(** Elements and comments put among the children. *)
Lemma doc_ok_after l2 : forall e t, doc_ok e t l2 = true -> has NS_NODE_ELEMENT l2 = false -> has NS_NODE_DOCTYPE l2 = false ->
  doc_ok true true l2 = true.
Proof.
  induction l2 as [|c l IH]; intros e t; [done|]. cbn. destruct (f c); try done; cbn. apply IH.
Qed.
Definition plain (cs : list loc) : Prop := forall c, c ∈ cs -> f c = NS_NODE_ELEMENT \/ f c = NS_NODE_COMMENT.
Definition elems (cs : list loc) : nat := length (filter (fun c => f c = NS_NODE_ELEMENT) cs).

Lemma doc_ok_splice cs l2 : plain cs -> forall e t, doc_ok e t l2 = true ->
  (elems cs = 0 \/ (elems cs = 1 /\ e = false /\ has NS_NODE_ELEMENT l2 = false /\ has NS_NODE_DOCTYPE l2 = false)) ->
  doc_ok e t (cs ++ l2) = true.
Proof.
  unfold elems. induction cs as [|c cs IH]; intros P e t Hl Hc; [done|]. cbn [app doc_ok].
  assert (plain cs) as P' by (intros x Hx; apply P; by right).
  destruct (P c ltac:(by left)) as [E|E]; rewrite E; rewrite filter_cons in Hc.
  - rewrite decide_True in Hc by done. cbn in Hc. destruct Hc as [?|(N & -> & H1 & H2)]; [done|]. cbn.
    apply (IH P' true t); [|left; lia]. apply (doc_ok_weaken l2 true true); [done|done|]. by eapply doc_ok_after.
  - rewrite decide_False in Hc by congruence. by apply IH.
Qed.
Lemma doc_ok_insert cs l1 l2 : plain cs -> forall e t, doc_ok e t (l1 ++ l2) = true ->
  (elems cs = 0 \/ (elems cs = 1 /\ e = false /\ has NS_NODE_ELEMENT (l1 ++ l2) = false /\ has NS_NODE_DOCTYPE l2 = false)) ->
  doc_ok e t (l1 ++ cs ++ l2) = true.
Proof.
  intros P. induction l1 as [|c l1 IH]; intros e t; [exact (doc_ok_splice cs l2 P e t)|]. cbn. destruct (f c) eqn:E; try done; cbn.
  - rewrite !andb_true_iff. intros [? ?] ?. split; [done|]. by apply IH.
  - rewrite !andb_true_iff. intros [? ?] [?|(_ & _ & ? & _)]; [|done]. split; [done|]. apply IH; [done|by left].
  - apply IH.
Qed.

(** A doctype put among them. *)
Lemma doc_ok_doctype c l1 l2 : f c = NS_NODE_DOCTYPE -> forall e t, doc_ok e t (l1 ++ l2) = true -> e = false -> t = false ->
  has NS_NODE_DOCTYPE (l1 ++ l2) = false -> has NS_NODE_ELEMENT l1 = false -> doc_ok e t (l1 ++ c :: l2) = true.
Proof.
  intros Hc. induction l1 as [|x l1 IH]; intros e t Hl -> ->; cbn in *.
  - rewrite Hc. cbn. intros Hd _. revert Hl Hd. generalize false at 1 4. clear.
    induction l2 as [|x l IH]; intros e; [done|]. cbn. destruct (f x); try done; cbn; [|apply IH].
    rewrite !andb_true_iff. intros [? ?] ?. split; [done|by apply IH].
  - destruct (f x); try done; cbn; try (rewrite !andb_true_iff; intros; destruct Hl); by apply IH.
Qed.
End Order.

(** ** Well-formed documents *)

Record well_formed (h : heap) (K : forest) : Prop := {
  w_parent : forall p c, c ∈ K p -> is_doc h p = true \/ is_frag h p = true \/ kd h p = NS_NODE_ELEMENT;
  w_child : forall p c, c ∈ K p -> kd h c <> NS_NODE_DOCUMENT;
  w_doctype : forall p c, c ∈ K p -> kd h c = NS_NODE_DOCTYPE -> is_doc h p = true;
  w_order : forall p, is_doc h p = true -> doc_ok (kd h) false false (K p) = true;
}.

Lemma filter_sublist (P : loc -> Prop) `{forall x, Decision (P x)} (l : list loc) : sublist (filter P l) l.
Proof.
  induction l as [|x l IH]; [constructor|]. destruct (decide (P x)).
  - rewrite filter_cons_True by done. by constructor.
  - rewrite filter_cons_False by done. by constructor.
Qed.
Lemma sublist_elem (l1 l2 : list loc) x : sublist l1 l2 -> x ∈ l1 -> x ∈ l2.
Proof. induction 1; rewrite ?elem_of_cons; tauto. Qed.

(** Children taken away anywhere, and those of [par] changed. *)
Lemma well_formed_update h K K' par : well_formed h K -> (forall p, p <> par -> sublist (K' p) (K p)) ->
  (forall c, c ∈ K' par -> c ∈ K par \/
     ((is_doc h par = true \/ is_frag h par = true \/ kd h par = NS_NODE_ELEMENT) /\ kd h c <> NS_NODE_DOCUMENT /\
      (kd h c = NS_NODE_DOCTYPE -> is_doc h par = true))) ->
  (is_doc h par = true -> doc_ok (kd h) false false (K' par) = true) -> well_formed h K'.
Proof.
  intros [W1 W2 W3 W4] Hs Hp Ho. split.
  - intros p c Hc. destruct (decide (p = par)) as [->|Hn]; [destruct (Hp c Hc) as [|[? _]]; [by eapply W1|done]|].
    eapply W1. by eapply sublist_elem; [apply Hs|].
  - intros p c Hc. destruct (decide (p = par)) as [->|Hn]; [destruct (Hp c Hc) as [|(_ & ? & _)]; [by eapply W2|done]|].
    eapply W2. by eapply sublist_elem; [apply Hs|].
  - intros p c Hc. destruct (decide (p = par)) as [->|Hn]; [destruct (Hp c Hc) as [|(_ & _ & ?)]; [by eapply W3|done]|].
    eapply W3. by eapply sublist_elem; [apply Hs|].
  - intros p Hd. destruct (decide (p = par)) as [->|Hn]; [by apply Ho|]. eapply doc_ok_sublist; [by apply Hs|by apply W4].
Qed.

(** The kinds of the nodes in [d] are kept. *)
Lemma keeps_is_doc d d1 n : keeps d d1 -> is_Some (at_ n (hp d)) -> is_doc (hp d1) n = is_doc (hp d) n /\ is_frag (hp d1) n = is_frag (hp d) n.
Proof. intros S [x E]%at_shape. unfold is_doc, is_frag, kd, frag. by rewrite E, (S _ _ E). Qed.

Lemma doc_ok_ext f g l : (forall c, c ∈ l -> f c = g c) -> forall e t, doc_ok f e t l = doc_ok g e t l.
Proof.
  induction l as [|c l IH]; intros E e t; [done|]. cbn. rewrite (E c) by by left.
  assert (forall e t, doc_ok f e t l = doc_ok g e t l) as IH' by (apply IH; intros; apply E; by right). by rewrite !IH'.
Qed.

(** The nodes of the forest are those of [d]. *)
Lemma well_formed_kept d d1 K O O1 K1 : holds d K O -> reach d K1 O1 d1 -> (forall p c, c ∈ K1 p -> is_Some (at_ p (hp d)) /\ is_Some (at_ c (hp d))) ->
  well_formed (hp d) K1 -> well_formed (hp d1) K1.
Proof.
  intros V [V1 S] Here [W1 W2 W3 W4]. split.
  - intros p c Hc. destruct (Here p c Hc) as [Hp _]. destruct (keeps_is_doc _ _ _ S Hp) as [-> ->]. rewrite (keeps_kd _ _ _ S Hp). by eapply W1.
  - intros p c Hc. rewrite (keeps_kd _ _ _ S) by apply (Here p c Hc). by eapply W2.
  - intros p c Hc. destruct (Here p c Hc) as [Hp Hcc]. rewrite (keeps_kd _ _ _ S Hcc), (proj1 (keeps_is_doc _ _ _ S Hp)). by eapply W3.
  - intros p Hd. destruct (K1 p) as [|c l] eqn:E; [done|]. rewrite <- E.
    destruct (Here p c ltac:(rewrite E; by left)) as [Hp _]. rewrite (proj1 (keeps_is_doc _ _ _ S Hp)) in Hd.
    rewrite <- (W4 p Hd). apply doc_ok_ext. intros x Hx. by apply keeps_kd, (Here p x Hx).
Qed.

Section Kept.
Context (h : heap) (K : forest) (T : tree_ok h K) (W : well_formed h K).

Lemma has_false f k l c : has f k l = false -> c ∈ l -> f c <> k.
Proof.
  intros Hf Hc E. rewrite <- not_true_iff_false in Hf. apply Hf. apply existsb_exists. exists c.
  rewrite <- list_elem_of_In. split; [done|]. by apply bool_decide_eq_true.
Qed.
Lemma has_filter f k (P : loc -> Prop) `{forall x, Decision (P x)} l : has f k l = false -> has f k (filter P l) = false.
Proof.
  intros Hf. apply not_true_iff_false. intros (c & Hc & E)%existsb_exists. rewrite <- list_elem_of_In, list_elem_of_filter in Hc.
  apply bool_decide_eq_true in E. by apply (has_false f k l c Hf (proj2 Hc)).
Qed.

Lemma single_kind node : is_Some (at_ node h) -> loose h node = false -> kd h node <> NS_NODE_DOCUMENT.
Proof.
  intros Hn L E. destruct (at_ node h) as [k|] eqn:Ek; [|by destruct Hn]. destruct (parent k) as [p|] eqn:Hp.
  - apply (parent_edge h K T _ _ _ Ek) in Hp. by eapply w_child.
  - unfold loose in L. rewrite Ek, E in L. cbn in L. rewrite Hp in L. done.
Qed.

(** A fragment's children are elements, comments and texts. *)
Lemma fragment_plain node : is_doc h node = false -> texts h (K node) = false -> plain (kd h) (K node).
Proof.
  intros D X c Hc. pose proof (w_child _ _ W node c Hc). pose proof (has_false (kd h) _ _ c X Hc).
  destruct (kd h c) eqn:E; try done; [|by left|by right]. by rewrite (w_doctype _ _ W node c Hc E) in D.
Qed.

Lemma fragment_order node par l1 l2 a c e : is_doc h node = false -> is_frag h node = true -> is_doc h par = true -> K par = l1 ++ l2 \/ sublist (l1 ++ l2) (K par) ->
  fits h K node a (has (kd h) NS_NODE_DOCTYPE l2) c e -> (a = false -> has (kd h) NS_NODE_ELEMENT (l1 ++ l2) = false) ->
  doc_ok (kd h) false false (l1 ++ K node ++ l2) = true.
Proof.
  intros D F Hd El Hf Ha. unfold fits in Hf. rewrite F in Hf. destruct Hf as [X Y].
  apply doc_ok_insert; [by apply fragment_plain| |].
  - eapply doc_ok_sublist; [|by apply (w_order _ _ W par)]. by destruct El as [->|].
  - destruct Y as [?|(? & ? & ?)]; [by left|right]. split; [done|]. split; [done|]. split; [by apply Ha|done].
Qed.

Lemma single_order node par l1 l2 a b c e : is_doc h par = true -> kd h node <> NS_NODE_DOCUMENT -> kd h node <> NS_NODE_TEXT ->
  is_frag h node = false -> sublist (l1 ++ l2) (K par) ->
  fits h K node a b c e -> (b = false -> has (kd h) NS_NODE_DOCTYPE l2 = false) -> (e = false -> has (kd h) NS_NODE_ELEMENT l1 = false) ->
  (a = false -> has (kd h) NS_NODE_ELEMENT (l1 ++ l2) = false) -> (c = false -> has (kd h) NS_NODE_DOCTYPE (l1 ++ l2) = false) ->
  doc_ok (kd h) false false (l1 ++ node :: l2) = true.
Proof.
  intros Hd N1 N2 F El Hf Hb He Ha Hc. unfold fits in Hf. rewrite F in Hf.
  assert (doc_ok (kd h) false false (l1 ++ l2) = true) as Hl by (eapply doc_ok_sublist; [exact El|by apply (w_order _ _ W par)]).
  destruct (kd h node) eqn:E; try done.
  - destruct Hf. apply doc_ok_doctype; auto.
  - destruct Hf. apply (doc_ok_insert _ [node]); [intros x ->%list_elem_of_singleton; by left|done|].
    right. unfold elems. rewrite filter_cons_True by done. by auto.
  - apply (doc_ok_insert _ [node]); [intros x ->%list_elem_of_singleton; by right|done|].
    left. unfold elems. by rewrite filter_cons_False by congruence.
Qed.

Lemma inserted_well_formed par node place : is_Some (at_ node h) -> insertable h K par node place ->
  well_formed h (inserted h K par node place).
Proof.
  intros Hn ((Hk & _ & _ & D & X1 & X2) & Hpl & Hfit). unfold inserted. destruct (decide (place = Some node)) as [|Hne]; [done|].
  destruct (place_split K par place Hpl) as (l1 & l2 & El & Hl).
  assert (forall r, place = Some r -> r ∉ l1) as Nl.
  { intros r Hr Hx. pose proof (kids_nodup h K T par) as N. rewrite El in N. apply NoDup_app in N as (_ & N & _).
    apply (N _ Hx). rewrite <- Hl in Hr. by apply head_elem. }
  destruct (loose h node) eqn:L.
  - assert (is_frag h node = true) as F.
    { apply andb_true_iff in L as [L _]. unfold is_doc, is_frag in *. rewrite L in *. by destruct (frag h node). }
    apply (well_formed_update h K _ par W).
    + intros p Hp. rewrite fn_lookup_insert_ne by done. destruct (decide (p = node)) as [->|]; [rewrite fn_lookup_insert; apply sublist_nil_l|].
      by rewrite fn_lookup_insert_ne.
    + intros c. rewrite fn_lookup_insert, El, splice_split by done. intros Hc. apply elem_of_app in Hc as [?|[Hc|?]%elem_of_app];
        [left; set_solver|right|left; set_solver]. split; [done|]. split; [by eapply w_child|].
      intros E. by rewrite (w_doctype _ _ W node c Hc E) in D.
    + intros Hd. rewrite fn_lookup_insert, El, splice_split by done.
      apply (fragment_order node par l1 l2 _ _ _ D F Hd (or_introl El) (Hfit Hd l1 l2 El Hl)). by rewrite El.
  - pose proof (single_kind node Hn L) as Kn.
    assert (is_frag h node = false) as F by (unfold is_frag; by rewrite bool_decide_false).
    set (P := fun x => x <> node). assert (without node K par = filter P l1 ++ filter P l2) as Ew by (unfold without; by rewrite El, filter_app).
    assert (head (filter P l2) = place) as Hl'.
    { subst place. destruct l2 as [|y l2]; [done|]. rewrite filter_cons_True; [done|]. unfold P. cbn in Hne. congruence. }
    assert (splice place [node] (without node K par) = filter P l1 ++ node :: filter P l2) as Es.
    { rewrite Ew, splice_split; [done|done|]. intros r Hr. rewrite list_elem_of_filter. intros [_ Hx]. by apply (Nl r). }
    unfold put. apply (well_formed_update h K _ par W).
    + intros p Hp. rewrite fn_lookup_insert_ne by done. apply filter_sublist.
    + intros c. rewrite fn_lookup_insert, Es. rewrite elem_of_app, elem_of_cons, !list_elem_of_filter, El, elem_of_app.
      intros [[_ ?]|[->|[_ ?]]]; [by left; left|right|by left; right]. done.
    + intros Hd. rewrite fn_lookup_insert, Es. specialize (Hfit Hd l1 l2 El Hl).
      refine (single_order node par _ _ _ _ _ _ Hd Kn _ F _ Hfit _ _ _ _); [by intros ?%X1; congruence| |apply has_filter|apply has_filter| |];
        rewrite <- ?filter_app, <- ?El; [apply filter_sublist|apply has_filter|apply has_filter].
Qed.

Lemma without_well_formed c : well_formed h (without c K).
Proof.
  apply (well_formed_update h K _ c W); intros; [apply filter_sublist| |].
  - left. by eapply without_edge.
  - eapply doc_ok_sublist; [apply filter_sublist|by apply (w_order _ _ W)].
Qed.

Lemma replaced_well_formed par node old : is_Some (at_ node h) -> replaceable h K par node old ->
  well_formed h (replaced h K par node old).
Proof.
  intros Hn ((Hk & _ & _ & D & X1 & X2) & Ho & Hfit). unfold replaced. destruct (decide (node = old)) as [|Hne]; [done|].
  destruct (list_elem_of_split _ _ Ho) as (l1 & l2 & El). destruct (mid_nodup h K T par old l1 l2 El) as (N1 & N2 & _).
  assert (sublist (l1 ++ l2) (K par)) as Sub by (rewrite El; apply sublist_app; [done|by constructor]).
  destruct (loose h node) eqn:L.
  - assert (is_frag h node = true) as F.
    { apply andb_true_iff in L as [L _]. unfold is_doc, is_frag in *. rewrite L in *. by destruct (frag h node). }
    apply (well_formed_update h K _ par W).
    + intros p Hp. rewrite fn_lookup_insert_ne by done. destruct (decide (p = node)) as [->|]; [rewrite fn_lookup_insert; apply sublist_nil_l|].
      by rewrite fn_lookup_insert_ne.
    + intros c. rewrite fn_lookup_insert, El, instead_of_split by done. intros Hc. apply elem_of_app in Hc as [?|[Hc|?]%elem_of_app];
        [left; set_solver|right|left; set_solver]. split; [done|]. split; [by eapply w_child|].
      intros E. by rewrite (w_doctype _ _ W node c Hc E) in D.
    + intros Hd. rewrite fn_lookup_insert, El, instead_of_split by done.
      by apply (fragment_order node par l1 l2 _ _ _ D F Hd (or_intror Sub) (Hfit Hd l1 l2 El)).
  - pose proof (single_kind node Hn L) as Kn.
    assert (is_frag h node = false) as F by (unfold is_frag; by rewrite bool_decide_false).
    set (P := fun x => x <> node).
    assert (instead old node (without node K par) = filter P l1 ++ node :: filter P l2) as Es.
    { unfold without. rewrite El, filter_around by congruence. apply next_to. rewrite list_elem_of_filter. tauto. }
    unfold put. apply (well_formed_update h K _ par W).
    + intros p Hp. rewrite fn_lookup_insert_ne by done. apply filter_sublist.
    + intros c. rewrite fn_lookup_insert, Es. rewrite elem_of_app, elem_of_cons, !list_elem_of_filter, El, elem_of_app, elem_of_cons.
      intros [[_ ?]|[->|[_ ?]]]; [by left; left|by right|by left; right; right].
    + intros Hd. rewrite fn_lookup_insert, Es. specialize (Hfit Hd l1 l2 El).
      refine (single_order node par _ _ _ _ _ _ Hd Kn _ F _ Hfit _ _ _ _); [by intros ?%X1; congruence| |apply has_filter|apply has_filter| |];
        rewrite <- ?filter_app; [|apply has_filter|apply has_filter].
      etrans; [apply filter_sublist|done].
Qed.
End Kept.
