(* ===== verification/DomPage.v ===== *)
(** * Pages that call the methods

    Any sequence of calls of the methods of [Dom] leaves a page whose links are a
    tree and whose orphans are roots, when the page's own callbacks move nothing in
    the middle of a call and the arguments of [prepend] are apart; the single-node
    methods with full checks keep its documents well formed. The examples at the end
    are what the others let a page do, and what happens outside those conditions. *)

From stdpp Require Import functions relations.
From S2P Require Import Prelude CStr GLib Xml DomStore DomTree Dom DomSpec DomCalls DomLists DomDoc.

(** ** Calls *)

Inductive call :=
| AppendChild (par child : loc)
| InsertBefore (par newc : loc) (place : option loc)
| ReplaceChild (par newc oldc : loc)
| RemoveChild (par child : loc)
| MoveBefore (par node : loc) (place : option loc)
| InsertAdjacentElement (self : loc) (pos : bytes) (c : loc)
| Append (par : loc) (args : list nodearg)
| Prepend (par : loc) (args : list nodearg)
| Before (self : loc) (args : list nodearg)
| After (self : loc) (args : list nodearg)
| ReplaceWith (self : loc) (args : list nodearg).

Definition opt_list (o : option loc) : list loc := match o with Some n => [n] | None => [] end.
Definition call_nodes (c : call) : list loc :=
  match c with
  | AppendChild p n | RemoveChild p n | InsertAdjacentElement p _ n => [p; n]
  | InsertBefore p n r | MoveBefore p n r => p :: n :: opt_list r
  | ReplaceChild p n o => [p; n; o]
  | Append s a | Prepend s a | Before s a | After s a | ReplaceWith s a => s :: arg_nodes a
  end.

Section Pages.
Context {G : GLib} {H : Host}.

Definition do_call (c : call) (d : page) : option (reply * page) :=
  match c with
  | AppendChild p n => ns_element_appendChild p n d
  | InsertBefore p n r => ns_element_insertBefore p n r (no_place r) d
  | ReplaceChild p n o => ns_element_replaceChild p n o d
  | RemoveChild p n => ns_element_removeChild p n d
  | MoveBefore p n r => ns_element_moveBefore p n r (no_place r) d
  | InsertAdjacentElement s pos c => ns_element_insertAdjacentElement s pos c d
  | Append p a => ns_element_append p a d
  | Prepend p a => ns_element_prepend p a d
  | Before s a => ns_element_before s a d
  | After s a => ns_element_after s a d
  | ReplaceWith s a => ns_element_replaceWith s a d
  end.
Fixpoint run_calls (cs : list call) (d : page) : option page :=
  match cs with [] => Some d | c :: cs => '(_, d) ← do_call c d; run_calls cs d end.

(** The calls of [prepend], each in the page it is made in, have arguments that are
    apart. *)
Fixpoint prepends_apart (cs : list call) (d : page) : Prop :=
  match cs with
  | [] => True
  | c :: cs =>
      match c with Prepend p a => prepend_apart (hp d) p a | _ => True end /\
      forall r d', do_call c d = Some (r, d') -> prepends_apart cs d'
  end.

(** [appendChild] and [insertBefore] throw what their check says, the page untouched;
    no callback has run. *)
Lemma refused_call par node place d K O c : holds d K O ->
  (forall n, n ∈ call_nodes (InsertBefore par node place) -> is_Some (at_ n (hp d))) ->
  c = InsertBefore par node place \/ (c = AppendChild par node /\ place = None) ->
  ~ insertable (hp d) K par node place -> exists e, do_call c d = Some (Thrown e, d).
Proof.
  intros V Hn Hc Hi. assert (is_Some (at_ par (hp d)) /\ is_Some (at_ node (hp d))) as [H1 H2] by (split; apply Hn; set_solver +).
  destruct (pre_insert_ok _ K (h_tree _ _ _ V) par node place H1 H2) as (v & E & Hv).
  { intros c' ->. apply Hn. set_solver +. }
  destruct v as [e|]; [|by destruct Hi; apply Hv]. exists e.
  destruct Hc as [-> |[-> ->]]; cbn [do_call]; [unfold ns_element_insertBefore|unfold ns_element_appendChild; cbn [no_place] in E];
    by rewrite E.
Qed.

Context {Q : QuietCallbacks}.

Lemma returns_well d n K O x : returns d n K O x -> ends_well d x.
Proof. intros (d' & -> & R). by exists (Returned n), d', K, O. Qed.
Lemma thrown_well d K O x : holds d K O -> (exists e, x = Some (Thrown e, d)) -> ends_well d x.
Proof. intros V [e ->]. by eapply throws_well. Qed.

Lemma do_call_ok c d K O : holds d K O -> (forall n, n ∈ call_nodes c -> is_Some (at_ n (hp d))) ->
  match c with Prepend p a => prepend_apart (hp d) p a | _ => True end -> ends_well d (do_call c d).
Proof.
  intros V Hn Ap. assert (forall s a, (forall n, n ∈ s :: arg_nodes a -> is_Some (at_ n (hp d))) -> is_Some (at_ s (hp d)) /\
    forall n, ANode n ∈ a -> is_Some (at_ n (hp d))) as Args.
  { intros s a Ha. split; [apply Ha; by left|]. intros n Hx. apply Ha. right. by apply arg_nodes_in. }
  assert (forall p n r, (forall m, m ∈ p :: n :: opt_list r -> is_Some (at_ m (hp d))) -> is_Some (at_ p (hp d)) /\ is_Some (at_ n (hp d)) /\
    forall c, r = Some c -> is_Some (at_ c (hp d))) as Three.
  { intros p n r Ha. split_and!; [apply Ha; by left|apply Ha; right; by left|]. intros c' ->. apply Ha. do 2 right. by left. }
  destruct c; cbn [call_nodes do_call] in *.
  - destruct (Three par child None Hn) as (H1 & H2 & _).
    destruct (appendChild_ok par child d K O V H1 H2) as [[_ R]|[_ E]]; [by eapply returns_well|by eapply thrown_well].
  - destruct (Three par newc place Hn) as (H1 & H2 & H3).
    destruct (insertBefore_ok par newc place d K O V H1 H2 H3) as [[_ R]|[_ E]]; [by eapply returns_well|by eapply thrown_well].
  - destruct (Three par newc (Some oldc) Hn) as (H1 & H2 & H3).
    destruct (replaceChild_ok par newc oldc d K O V H1 H2 (H3 _ eq_refl)) as [[_ R]|[_ E]]; [by eapply returns_well|by eapply thrown_well].
  - destruct (Three par child None Hn) as (H1 & H2 & _).
    destruct (removeChild_ok par child d K O V H2) as [[_ R]|[_ E]]; [by eapply returns_well|by eapply thrown_well].
  - destruct (Three par node place Hn) as (H1 & H2 & H3).
    destruct (moveBefore_ok par node place d K O V H1 H2 H3) as [[_ R]|[_ E]]; [by eapply returns_well|by eapply thrown_well].
  - destruct (Three self c None Hn) as (H1 & H2 & _).
    destruct (insertAdjacentElement_ok self pos c d K O V H1 H2) as (r & d' & K' & O' & E & R & Th & _). by exists r, d', K', O'.
  - destruct (Args _ _ Hn). by eapply append_method_ok.
  - destruct (Args _ _ Hn). by eapply prepend_ok.
  - destruct (Args _ _ Hn). by eapply before_ok.
  - destruct (Args _ _ Hn). by eapply after_ok.
  - destruct (Args _ _ Hn). by eapply replaceWith_ok.
Qed.


(** ** Documents *)

(** The calls that check the whole of a document's content. *)
Definition checked (c : call) : bool :=
  match c with AppendChild _ _ | InsertBefore _ _ _ | ReplaceChild _ _ _ | RemoveChild _ _ => true | _ => false end.

Definition inside (d : page) (K : forest) : Prop := forall p c, c ∈ K p -> is_Some (at_ p (hp d)) /\ is_Some (at_ c (hp d)).
Lemma holds_inside d K O : holds d K O -> inside d K.
Proof.
  intros V p c Hc. destruct (has_links _ K (h_tree _ _ _ V) p c Hc) as [? ->]. split; [eauto|]. by eapply kid_here; [apply V|].
Qed.
Lemma put_inside d K c p f : inside d K -> is_Some (at_ p (hp d)) -> is_Some (at_ c (hp d)) -> adds c f -> inside d (put c p f K).
Proof.
  intros I Hp Hc A q x Hx. destruct (put_elem c p f K q x A Hx) as [->|[Hk _]]; [split; [|done]|by apply I].
  destruct (decide (q = p)) as [->|Hq]; [done|]. by destruct (I q c (put_edges c p f K q c Hq Hx)).
Qed.
Lemma splice_elem place cs l x : x ∈ splice place cs l -> x ∈ cs \/ x ∈ l.
Proof.
  induction l as [|y l IH]; cbn; [tauto|]. destruct (decide _); rewrite ?elem_of_app, !elem_of_cons; tauto.
Qed.
Lemma instead_of_elem old cs l x : x ∈ instead_of old cs l -> x ∈ cs \/ x ∈ l.
Proof.
  induction l as [|y l IH]; cbn; [by intros ?%not_elem_of_nil|]. destruct (decide _); rewrite ?elem_of_app, !elem_of_cons; tauto.
Qed.
Lemma moved_inside d (K : forest) n p l : inside d K -> is_Some (at_ p (hp d)) -> (forall x, x ∈ l -> x ∈ K n \/ x ∈ K p) ->
  inside d (<[p := l]> (<[n := []]> K)).
Proof.
  intros I Hp Hl q x Hx. destruct (decide (q = p)) as [->|Hq].
  - rewrite fn_lookup_insert in Hx. split; [done|]. by destruct (Hl x Hx) as [Hk|Hk]; destruct (I _ _ Hk).
  - rewrite fn_lookup_insert_ne in Hx by done. destruct (decide (q = n)) as [->|Hn]; [rewrite fn_lookup_insert in Hx; by apply not_elem_of_nil in Hx|].
    rewrite fn_lookup_insert_ne in Hx by done. by apply I.
Qed.
Lemma adds_splice place c : adds c (splice place [c]).
Proof. intros l x [->%list_elem_of_singleton|?]%splice_elem; auto. Qed.

Lemma inserted_inside d K par node place : inside d K -> is_Some (at_ par (hp d)) -> is_Some (at_ node (hp d)) ->
  inside d (inserted (hp d) K par node place).
Proof.
  intros I Hp Hn. unfold inserted. destruct (decide _); [done|]. destruct (loose _ _).
  - apply moved_inside; [done|done|]. intros x. apply splice_elem.
  - apply put_inside; [done..|apply adds_splice].
Qed.
Lemma replaced_inside d K par node old : inside d K -> is_Some (at_ par (hp d)) -> is_Some (at_ node (hp d)) ->
  inside d (replaced (hp d) K par node old).
Proof.
  intros I Hp Hn. unfold replaced. destruct (decide _); [done|]. destruct (loose _ _).
  - apply moved_inside; [done|done|]. intros x. apply instead_of_elem.
  - apply put_inside; [done..|apply adds_next].
Qed.

(** A call that checks, on a page whose documents are well formed, leaves them so,
    also when it throws. *)
Theorem checked_calls_keep_documents c d K O : holds d K O -> well_formed (hp d) K -> checked c = true ->
  (forall n, n ∈ call_nodes c -> is_Some (at_ n (hp d))) ->
  exists r d' K' O', do_call c d = Some (r, d') /\ reach d K' O' d' /\ well_formed (hp d') K'.
Proof.
  intros V W Hc Hn. pose proof (holds_inside d K O V) as I. pose proof (h_tree _ _ _ V) as T.
  assert (forall x, (exists e, x = Some (Thrown e, d)) -> exists r d' K' O', x = Some (r, d') /\ reach d K' O' d' /\ well_formed (hp d') K') as Th.
  { intros x [e ->]. exists (Thrown e), d, K, O. split; [done|]. split; [split; [done|apply keeps_refl]|done]. }
  assert (forall n K1 O1 x, returns d n K1 O1 x -> inside d K1 -> well_formed (hp d) K1 ->
    exists r d' K' O', x = Some (r, d') /\ reach d K' O' d' /\ well_formed (hp d') K') as Ret.
  { intros n K1 O1 x (d1 & -> & R) I1 W1. exists (Returned n), d1, K1, O1. split; [done|]. split; [done|]. by eapply well_formed_kept. }
  destruct c; try done; cbn [call_nodes do_call] in *.
  - assert (is_Some (at_ par (hp d)) /\ is_Some (at_ child (hp d))) as [H1 H2] by (split; apply Hn; set_solver +).
    destruct (appendChild_ok par child d K O V H1 H2) as [[Hi R]|[_ E]]; [|by apply Th].
    apply (Ret _ _ _ _ R); [by apply inserted_inside|by apply inserted_well_formed].
  - assert (is_Some (at_ par (hp d)) /\ is_Some (at_ newc (hp d)) /\ forall c, place = Some c -> is_Some (at_ c (hp d))) as (H1 & H2 & H3).
    { split_and!; [apply Hn; set_solver +..|]. intros c ->. apply Hn. set_solver +. }
    destruct (insertBefore_ok par newc place d K O V H1 H2 H3) as [[Hi R]|[_ E]]; [|by apply Th].
    apply (Ret _ _ _ _ R); [by apply inserted_inside|by apply inserted_well_formed].
  - assert (is_Some (at_ par (hp d)) /\ is_Some (at_ newc (hp d)) /\ is_Some (at_ oldc (hp d))) as (H1 & H2 & H3) by (split_and!; apply Hn; set_solver +).
    destruct (replaceChild_ok par newc oldc d K O V H1 H2 H3) as [[Hi R]|[_ E]]; [|by apply Th].
    apply (Ret _ _ _ _ R); [by apply replaced_inside|by apply replaced_well_formed].
  - destruct (removeChild_ok par child d K O V) as [[Hi R]|[_ E]]; [apply Hn; set_solver +| |by apply Th].
    apply (Ret _ _ _ _ R); [|by apply without_well_formed]. intros p x Hx. by apply I, (without_edge child).
Qed.
End Pages.


(** ** A page *)

Definition quiet_host : Host := fun _ h => Some h.
#[global] Instance quiet_host_quiet : QuietCallbacks (H := quiet_host).
Proof. intros e h _. exists h. by split. Qed.

Definition alone (k : ns_node_kind) (nm txt : option bytes) (fl : Z) : dnode :=
  {| data := Build_ndata k nm txt None None [] fl None; lk := no_links |}.

Lemma alone_holds d : map_Forall (fun _ n => lk n = no_links) (hp d) -> (forall n, n ∈ orphan_nodes d -> is_Some (at_ n (hp d))) ->
  holds d (fun _ => []) (orphan_nodes d).
Proof.
  intros F O. assert (forall n k, at_ n (hp d) = Some k -> k = no_links) as E.
  { intros n k. unfold at_. destruct (hp d !! n) eqn:En; [|done]. intros [= <-]. by apply (F n). }
  split; [split| |done]; try done.
  - intros n k ->%E. done.
  - intros n [|? ?] c l2; done.
  - intros c k ->%E. done.
  - intros c k n ->%E. done.
  - intros x Hx. inversion Hx as [? y Hy|? y z Hy]; by apply not_elem_of_nil in Hy.
  - intros n Hn. split; [by apply O|]. by intros p ?%not_elem_of_nil.
Qed.

(** A document, its root and a doctype, two elements, a text and a fragment, none
    in another. *)
Definition page0 : page := {|
  hp := list_to_map [ (1%positive, alone NS_NODE_DOCUMENT None None 0);
          (2%positive, alone NS_NODE_ELEMENT (Some ($"html")) None 0);
          (3%positive, alone NS_NODE_DOCTYPE (Some ($"html")) None 0);
          (4%positive, alone NS_NODE_ELEMENT (Some ($"p")) None 0);
          (5%positive, alone NS_NODE_ELEMENT (Some ($"b")) None 0);
          (6%positive, alone NS_NODE_TEXT None (Some ($"text")) 0);
          (7%positive, alone NS_NODE_DOCUMENT None None NS_NODE_FRAGMENT_BIT) ];
  orphan_nodes := {[ 4%positive; 6%positive ]};
  mutated := false |}.

Lemma page0_holds : holds page0 (fun _ => []) {[ 4%positive; 6%positive ]}.
Proof.
  apply (alone_holds page0); [by apply (bool_decide_unpack _); vm_compute|].
  intros n Hn. cbn [orphan_nodes page0] in Hn. apply elem_of_union in Hn as [->%elem_of_singleton| ->%elem_of_singleton]; by eexists.
Qed.

(** The links of some nodes after some calls. *)
Definition links_after (cs : list call) (ns : list loc) : option (list (loc * option loc * option loc * option loc)) :=
  d ← run_calls (H := quiet_host) cs page0;
  mapM (fun n => k ← at_ n (hp d); Some (n, parent k, first_child k, next_sibling k)) ns.

Example page_built :
  links_after [AppendChild 1 3; AppendChild 1 2; AppendChild 7 4; AppendChild 7 5; InsertBefore 2 7 None; Before 5 [ANode 6]]%positive
    [1; 2; 3; 4; 5; 6; 7]%positive =
  Some [(1, None, Some 3, None); (2, Some 1, Some 4, None); (3, Some 1, None, Some 2); (4, Some 2, None, Some 6);
        (5, Some 2, None, None); (6, Some 2, None, Some 5); (7, None, None, None)]%positive.
Proof. vm_compute. reflexivity. Qed.

(** The nodes of some calls are in a page. *)
Lemma here_check cs d : forallb (fun c => forallb (fun n => bool_decide (is_Some (at_ n (hp d)))) (call_nodes c)) cs = true ->
  forall c n, c ∈ cs -> n ∈ call_nodes c -> is_Some (at_ n (hp d)).
Proof.
  intros E c n Hc Hn. rewrite forallb_forall in E. apply list_elem_of_In, E in Hc. rewrite forallb_forall in Hc.
  apply list_elem_of_In, Hc in Hn. by apply bool_decide_eq_true in Hn.
Qed.

(** The check of [prepends_apart]. *)
Definition apart_check (h : heap) (par : loc) (args : list nodearg) : bool :=
  match at_ par h with
  | None => true
  | Some k => match first_child k with Some r => negb (bool_decide (r ∈ arg_nodes args)) | None => true end
  end && bool_decide (NoDup (arg_nodes args)) &&
  forallb (fun n => forallb (fun m => negb (bool_decide ((k ← at_ n h; parent k) = Some m)) || negb (bool_decide (kd h m = NS_NODE_DOCUMENT)))
    (arg_nodes args)) (arg_nodes args).
Fixpoint prepends_check_fix (cs : list call) (d : page) : bool :=
  match cs with
  | [] => true
  | c :: cs =>
      match c with Prepend p a => apart_check (hp d) p a | _ => true end &&
      match do_call (H := quiet_host) c d with Some (_, d') => prepends_check_fix cs d' | None => true end
  end.

Lemma apart_check_ok h par args : apart_check h par args = true -> prepend_apart h par args.
Proof.
  intros [[C1 C2%bool_decide_eq_true]%andb_prop C3]%andb_prop. split; [|split; [done|]].
  - intros k r Ek Er. rewrite Ek, Er in C1. by apply negb_true_iff, bool_decide_eq_false in C1.
  - intros n m k Hn Hm Ek Hp. rewrite forallb_forall in C3. apply list_elem_of_In, C3 in Hn.
    rewrite forallb_forall in Hn. apply list_elem_of_In, Hn in Hm. rewrite Ek in Hm. cbn in Hm. rewrite Hp in Hm.
    rewrite bool_decide_eq_true_2 in Hm by done. by apply negb_true_iff, bool_decide_eq_false in Hm.
Qed.
Lemma prepends_check cs d : prepends_check_fix cs d = true -> prepends_apart (H := quiet_host) cs d.
Proof.
  revert d. induction cs as [|c cs IH]; intros d; [done|]. cbn [prepends_check_fix prepends_apart]. intros [C1 C2]%andb_prop. split.
  - destruct c; try done. by apply apart_check_ok.
  - intros r d' E. rewrite E in C2. by apply IH.
Qed.

Definition calls0 : list call :=
  [AppendChild 1 3; AppendChild 1 2; AppendChild 7 4; AppendChild 7 5; InsertBefore 2 7 None; Before 5 [ANode 6; AText ($"new")];
   AppendChild 4 2; ReplaceWith 6 [ANode 5; ANode 6]; MoveBefore 2 6 (Some 4); After 4 [ANode 4]; ReplaceChild 2 6 5;
   RemoveChild 2 6; InsertAdjacentElement 4 ($"afterEnd") 5; Append 2 [AText ($"t"); ANode 4];
   Prepend 2 [AText ($"t"); ANode 6; ANode 4]]%positive.


Lemma no_kids_no_path n m : n <> m -> ~ rtc (edge (fun _ => [])) n m.
Proof. intros Hn Hr. inversion Hr as [|? y ? Hy]; [done|]. by apply not_elem_of_nil in Hy. Qed.


Lemma checked_calls_keep_documents_witness : exists r d' K' O',
  do_call (H := quiet_host) (AppendChild 1 2)%positive page0 = Some (r, d') /\ reach page0 K' O' d' /\ well_formed (hp d') K'.
Proof.
  apply (checked_calls_keep_documents (H := quiet_host) _ _ _ _ page0_holds).
  - split; try (by intros ? ? ?%not_elem_of_nil). done.
  - reflexivity.
  - intros n Hn. apply (here_check [AppendChild 1 2]%positive page0 eq_refl _ n ltac:(by left) Hn).
Defined.

(** ** What the other methods let a page do *)

(** [prepend] takes [ref], the first child, before it converts its arguments: given
    that child, it links it to itself, and a walk over the children never ends. The
    other children are lost. *)
Example prepend_own_first_child :
  (d ← run_calls (H := quiet_host) [AppendChild 2 4; AppendChild 2 5]%positive page0;
   '(_, d) ← ns_element_prepend (H := quiet_host) 2%positive [ANode 4%positive] d;
   mapM (fun n => k ← at_ n (hp d); Some (n, parent k, first_child k, next_sibling k)) [2; 4; 5]%positive) =
  Some [(2, None, Some 4, None); (4, Some 2, None, Some 4); (5, Some 2, None, None)]%positive.
Proof. vm_compute. reflexivity. Qed.

(** So does a node given twice. *)
Example prepend_twice :
  (d ← run_calls (H := quiet_host) [AppendChild 2 4]%positive page0;
   '(_, d) ← ns_element_prepend (H := quiet_host) 2%positive [ANode 5; ANode 5]%positive d;
   mapM (fun n => k ← at_ n (hp d); Some (n, parent k, first_child k, next_sibling k)) [2; 4; 5]%positive) =
  Some [(2, None, Some 5, None); (4, Some 2, None, None); (5, Some 2, None, Some 5)]%positive.
Proof. vm_compute. reflexivity. Qed.

(** A custom element's [disconnectedCallback] runs after the check and before the
    insertion: it can put the parent under the node that is to be its child. *)
Definition hostile_host : Host := fun e h =>
  match e with Disconnect 4 => ns_node_append_child 4 2 h | _ => Some h end%positive.
Example callback_makes_cycle :
  ('(r, d) ← ns_element_appendChild (H := hostile_host) 2%positive 4%positive page0;
   ks ← mapM (fun n => k ← at_ n (hp d); Some (n, parent k, first_child k)) [2; 4]%positive; Some (r, ks)) =
  Some (Returned (Some 4), [(2, Some 4, Some 4); (4, Some 2, Some 2)])%positive.
Proof. vm_compute. reflexivity. Qed.

(** The code asks whether the node is above the parent by parents alone: a template is
    accepted under its own content, where the standard throws. *)
Example template_in_own_content :
  let tpl := {| data := Build_ndata NS_NODE_ELEMENT (Some ($"template")) None None None [] 0 None; lk := no_links |} in
  exists content h d',
    ns_template_content_get 1 {[ 1 := tpl ]}%positive = Some (content, h) /\
    host_including_ancestor h (fun _ => []) 1%positive content /\
    do_call (H := quiet_host) (AppendChild content 1%positive) (Build_page h ∅ false) = Some (Returned (Some 1%positive), d') /\
    (parent <$> at_ 1%positive (hp d')) = Some (Some content).
Proof.
  cbv zeta. eexists _, _, _. split; [vm_compute; reflexivity|]. split; [|split; vm_compute; reflexivity].
  apply rtc_once. right. eexists. split; vm_compute; reflexivity.
Qed.

(** [before] checks nothing of what a document may hold: a text gets there, and a
    second element. *)
Example before_breaks_document :
  links_after [AppendChild 1 2; Before 2 [ANode 6; ANode 4]]%positive [1; 2; 4; 6]%positive =
  Some [(1, None, Some 6, None); (2, Some 1, None, None); (4, Some 1, None, Some 2); (6, Some 1, None, Some 4)]%positive.
Proof. vm_compute. reflexivity. Qed.

(** [append] checks each node against the children the document had before the
    call: the doctype comes after the element. *)
Example append_breaks_document :
  links_after [Append 1 [ANode 2; ANode 3]]%positive [1; 2; 3]%positive =
  Some [(1, None, Some 2, None); (2, Some 1, None, Some 3); (3, Some 1, None, None)]%positive.
Proof. vm_compute. reflexivity. Qed.

(** [moveBefore] lets the element be moved before the doctype, and a text from the
    tree under the document. *)
Example moveBefore_breaks_document :
  links_after [AppendChild 1 3; AppendChild 1 2; AppendChild 2 6; MoveBefore 1 2 (Some 3); MoveBefore 1 6 None]%positive [1; 2; 3; 6]%positive =
  Some [(1, None, Some 2, None); (2, Some 1, None, Some 3); (3, Some 1, None, Some 6); (6, Some 1, None, None)]%positive.
Proof. vm_compute. reflexivity. Qed.

(** [insertAdjacentElement] given an ancestor moves nothing, but has already let go
    of it: the scripts' side no longer frees it. *)
Example insertAdjacent_forgets_orphan :
  (d ← run_calls (H := quiet_host) [AppendChild 4 5]%positive page0;
   '(r, d) ← ns_element_insertAdjacentElement (H := quiet_host) 5%positive ($"afterbegin") 4%positive d;
   k ← at_ 4%positive (hp d);
   Some (r, parent k, bool_decide (4%positive ∈ orphan_nodes d))) = Some (Returned None, None, false).
Proof. vm_compute. reflexivity. Qed.
