(* ===== verification/Element.v ===== *)
(** * The attributes of an element ([src/dom.c])

    The list of attributes, the lookups by name and by namespace, the set of class
    tokens kept from one test of a class to the next, and the filter over attribute
    names. The tokens are pointers into the value of the attribute they were read
    from, so the model gives every value the block of memory that holds it; a test
    of a class is [None] when it would read a block that was freed. *)

From S2P Require Import Prelude CStr GLib Xml.

(** ** Lookups *)

Section Lookups.
Context `{GLib}.

Definition ns_str_is_ascii_lower (s : bytes) : bool := allb (fun c => negb (is_upper c)) s.

(** [NS_ATTR_NAME_LOWER] is set by each of the three functions that make an
    attribute, from its name. *)
Definition name_lower (a : ns_attr) : bool := ns_str_is_ascii_lower (a_name a).

(** The test [ns_element_find_attr] makes of one attribute; [svg] is the flag
    [NS_NODE_SVG_NS] of the element. *)
Definition attr_named (svg : bool) (nm : bytes) (a : ns_attr) : bool :=
  if svg then strcmp0 (a_name a) nm
  else if ns_str_is_ascii_lower nm then
    if name_lower a then strcmp0 (a_name a) nm else g_ascii_strcasecmp0 (a_name a) nm
  else g_ascii_strcasecmp0 (a_name a) nm.
Definition ns_element_find_attr (svg : bool) (nm : bytes) (l : list ns_attr) : option ns_attr :=
  List.find (attr_named svg nm) l.
Definition ns_element_get_attr (svg : bool) (nm : bytes) (l : list ns_attr) : option bytes :=
  a_value <$> ns_element_find_attr svg nm l.
Definition ns_element_find_attr_ns (uri : option bytes) (local : bytes) (l : list ns_attr) : option ns_attr :=
  List.find (fun a => ns_attr_matches_ns a uri local) l.
End Lookups.

(** ** The filter over attribute names *)

(** FNV-1a on 32 bits. *)
Definition bloom_hash (nm : bytes) : Z :=
  fold_left (fun h c => wrap_u 32 (Z.lxor h (code c) * 16777619)) nm 2166136261%Z.
Definition ns_attr_name_bloom_bit (nm : bytes) : Z := Z.shiftl 1 (Z.land (bloom_hash nm) 63).
Definition attrs_bloom (l : list ns_attr) : Z :=
  fold_left (fun b a => Z.lor b (ns_attr_name_bloom_bit (a_name a))) l 0%Z.

(** ** Classes *)

Definition ns_clsset_ws (c : ascii) : bool := memb c [" "%char; tab; nl; cr; byte_of 12].

(** [ns_class_set_build]: offset and length of the tokens of [s], which is at
    offset [off] of the value. *)
Fixpoint class_tokens (fuel off : nat) (s : bytes) : list (nat * nat) :=
  match fuel with
  | O => []
  | S f =>
      let t := drop_while ns_clsset_ws s in
      let off := off + (length s - length t) in
      match t with
      | [] => []
      | _ =>
          let n := length (take_while (fun c => negb (ns_clsset_ws c)) t) in
          (off, n) :: class_tokens f (off + n) (drop n t)
      end
  end.
Definition ns_class_set_build (cls : bytes) : list (nat * nat) := class_tokens (S (length cls)) 0 cls.

(** The class names a value holds. *)
Definition class_names (cls : bytes) : list bytes :=
  map (fun '(off, n) => take n (drop off cls)) (ns_class_set_build cls).
Definition class_listed (nm cls : bytes) : bool := existsb (fun t => t =b nm) (class_names cls).

(** [ns_node_has_class] on an element, its cache aside. *)
Definition has_class `{GLib} (svg : bool) (nm : bytes) (l : list ns_attr) : bool :=
  match ns_element_get_attr svg ($"class") l with Some cls => class_listed nm (cstr_of cls) | None => false end.

(** ** The element and its caches *)

Abbreviation block := nat.
(** A token: the block it points into, where, and its length. *)
Definition token : Type := block * nat * nat.

Record element := {
  is_svg : bool;
  el_attrs : list (block * ns_attr);
  next_block : block;
  class_set : option (list token);
  attr_bloom : Z;
  attr_gen : Z;
}.

Definition attrs_of (e : element) : list ns_attr := map snd (el_attrs e).

(** The text of a live block. *)
Definition block_text (b : block) (e : element) : option bytes :=
  (fun p => a_value (snd p)) <$> List.find (fun p => fst p =? b) (el_attrs e).

Section Element.
Context `{GLib}.

Definition set_attrs (l : list (block * ns_attr)) (nb : block) (e : element) : element :=
  Build_element (is_svg e) l nb (class_set e) (attr_bloom e) (attr_gen e).
(** [el->attr_bloom = 0; el->attr_gen++], after [ns_class_set_clear] when
    [clear]. *)
Definition touch (clear : bool) (e : element) : element :=
  Build_element (is_svg e) (el_attrs e) (next_block e) (if clear then None else class_set e) 0
    (wrap_u 32 (attr_gen e + 1)).

(** The first attribute [found] gets a new value in the block [b]; if none is, one
    is added. *)
Fixpoint put_value (found : ns_attr -> bool) (b : block) (new : ns_attr) (l : list (block * ns_attr)) :
    list (block * ns_attr) :=
  match l with
  | [] => [(b, new)]
  | (b', a) :: l' =>
      if found a then (b, set_value (a_value new) a) :: l' else (b', a) :: put_value found b new l'
  end.
Fixpoint drop_attr (found : ns_attr -> bool) (l : list (block * ns_attr)) : list (block * ns_attr) :=
  match l with
  | [] => []
  | (b, a) :: l' => if found a then l' else (b, a) :: drop_attr found l'
  end.

Definition put_in (found : ns_attr -> bool) (new : ns_attr) (e : element) : element :=
  set_attrs (put_value found (next_block e) new (el_attrs e)) (S (next_block e)) e.
Definition drop_in (found : ns_attr -> bool) (e : element) : element :=
  set_attrs (drop_attr found (el_attrs e)) (next_block e) e.

Definition is_class_name (nm : bytes) : bool := g_ascii_strcasecmp0 nm ($"class").
Definition has_set (e : element) : bool := match class_set e with Some _ => true | None => false end.

(** The value is the first [vlen] bytes of [v]. *)
Definition ns_element_set_attr_len (nm v : bytes) (e : element) : element :=
  put_in (fun a => g_ascii_strcasecmp0 (a_name a) nm) (Build_ns_attr nm v None None None)
    (touch (has_set e && is_class_name nm) e).

Definition no_ns (uri : option bytes) : bool :=
  match ns_attr_normalize_namespace uri with None => true | Some _ => false end.

Definition ns_element_set_attr_ns (uri pfx : option bytes) (local : bytes) (nm : option bytes) (v : bytes) (e : element) :
    element :=
  let ns := ns_attr_normalize_namespace uri in
  let pfx := match pfx with Some [] => None | _ => pfx end in
  let qualified := match nm with Some [] | None => local | Some q => q end in
  put_in (fun a => ns_attr_matches_ns a ns local) (Build_ns_attr qualified v ns pfx (Some local))
    (touch (has_set e && no_ns uri && is_class_name local) e).

Definition ns_element_remove_attr (nm : bytes) (e : element) : element :=
  drop_in (fun a => g_ascii_strcasecmp0 (a_name a) nm) (touch (has_set e && is_class_name nm) e).

Definition ns_element_remove_attr_ns (uri : option bytes) (local : bytes) (e : element) : element :=
  let ns := ns_attr_normalize_namespace uri in
  drop_in (fun a => ns_attr_matches_ns a ns local) (touch (has_set e && no_ns uri && is_class_name local) e).

Definition ns_node_attr_bloom (e : element) : Z * element :=
  if (attr_bloom e =? 0)%Z then
    let b := attrs_bloom (attrs_of e) in
    (b, Build_element (is_svg e) (el_attrs e) (next_block e) (class_set e) b (attr_gen e))
  else (attr_bloom e, e).

(** The class set, built if it is not there. *)
Definition find_block (e : element) : option (block * ns_attr) :=
  List.find (fun p => attr_named (is_svg e) ($"class") (snd p)) (el_attrs e).
Definition built_set (e : element) : list token :=
  match find_block e with
  | Some (b, a) => map (fun '(off, n) => (b, off, n)) (ns_class_set_build (cstr_of (a_value a)))
  | None => []
  end.
Definition with_set (e : element) : element :=
  match class_set e with
  | Some _ => e
  | None => Build_element (is_svg e) (el_attrs e) (next_block e) (Some (built_set e)) (attr_bloom e) (attr_gen e)
  end.

(** [cs->tok[i].len == len && memcmp(cs->tok[i].p, name, len) == 0], which reads
    the token only when the lengths agree. *)
Definition token_is (nm : bytes) (t : token) (e : element) : option bool :=
  let '(b, off, n) := t in
  if n =? length nm then v ← block_text b e; Some (take n (drop off v) =b nm) else Some false.
Fixpoint any_token (nm : bytes) (l : list token) (e : element) : option bool :=
  match l with
  | [] => Some false
  | t :: l' => b ← token_is nm t e; if (b : bool) then Some true else any_token nm l' e
  end.
Definition ns_node_has_class (nm : bytes) (e : element) : option (bool * element) :=
  let e := with_set e in
  b ← any_token nm (default [] (class_set e)) e; Some (b, e).
End Element.

(** ** Runs *)

Inductive attr_op :=
| Set_attr (nm v : bytes)
| Set_attr_ns (uri pfx : option bytes) (local : bytes) (nm : option bytes) (v : bytes)
| Remove_attr (nm : bytes)
| Remove_attr_ns (uri : option bytes) (local : bytes)
| Has_class (nm : bytes)
| Bloom.

Definition attr_step `{GLib} (o : attr_op) (e : element) : option element :=
  match o with
  | Set_attr nm v => Some (ns_element_set_attr_len nm v e)
  | Set_attr_ns uri pfx local nm v => Some (ns_element_set_attr_ns uri pfx local nm v e)
  | Remove_attr nm => Some (ns_element_remove_attr nm e)
  | Remove_attr_ns uri local => Some (ns_element_remove_attr_ns uri local e)
  | Has_class nm => snd <$> ns_node_has_class nm e
  | Bloom => Some (snd (ns_node_attr_bloom e))
  end.
Definition attr_run `{GLib} (os : list attr_op) (e : element) : option element :=
  foldl (fun r o => e ← r; attr_step o e) (Some e) os.

(** What the attributes are after a call, the memory and the caches aside. *)
Fixpoint without_attr (found : ns_attr -> bool) (l : list ns_attr) : list ns_attr :=
  match l with [] => [] | a :: l' => if found a then l' else a :: without_attr found l' end.
Definition attrs_step `{GLib} (l : list ns_attr) (o : attr_op) : list ns_attr :=
  match o with
  | Set_attr nm v => Xml.ns_element_set_attr nm v l
  | Set_attr_ns uri pfx local nm v => Xml.ns_element_set_attr_ns uri pfx local (default [] nm) v l
  | Remove_attr nm => without_attr (fun a => g_ascii_strcasecmp0 (a_name a) nm) l
  | Remove_attr_ns uri local => without_attr (fun a => ns_attr_matches_ns a uri local) l
  | Has_class _ | Bloom => l
  end.

Definition new_element (svg : bool) : element := Build_element svg [] 0 None 0 0.

(** ** The lookups as comparisons *)

Section Facts.
Context `{Doc : GLibSpec}.

Lemma lower_of_lower s : ns_str_is_ascii_lower s = true -> map lower s = s.
Proof.
  induction s as [|c s IH]; cbn; [done|]. intros H. boolify. rewrite IH by done. f_equal. unfold lower.
  by destruct (is_upper c).
Qed.

(** On an element that is not SVG a lookup by a lower-case name ignores case; the
    flag only makes it faster. *)
Lemma attr_named_ci nm a : attr_named false nm a = (map lower (a_name a) =b map lower nm).
Proof.
  unfold attr_named, name_lower, strcmp0. rewrite strcasecmp_doc.
  destruct (ns_str_is_ascii_lower nm) eqn:E; [|done].
  destruct (ns_str_is_ascii_lower (a_name a)) eqn:E'; [|done]. by rewrite !lower_of_lower.
Qed.

Lemma attr_named_class svg a : attr_named svg ($"class") a = true -> is_class_name (a_name a) = true.
Proof.
  unfold is_class_name. rewrite strcasecmp_doc. destruct svg.
  - unfold attr_named, strcmp0. intros H. boolify. by rewrite H, bool_decide_true.
  - by rewrite attr_named_ci.
Qed.
End Facts.

(** ** The filter has no false negatives *)

Lemma bloom_hash_range nm : (0 <= bloom_hash nm)%Z.
Proof.
  unfold bloom_hash. generalize 2166136261%Z (ltac:(lia) : (0 <= 2166136261)%Z).
  induction nm as [|c nm IH]; intros z Hz; cbn; [done|]. apply IH. unfold wrap_u. by apply Z.mod_pos_bound.
Qed.

Lemma fold_bloom_mono l b n : Z.testbit b n = true -> Z.testbit (fold_left (fun b a => Z.lor b (ns_attr_name_bloom_bit (a_name a))) l b) n = true.
Proof.
  revert b. induction l as [|a l IH]; intros b Hb; cbn; [done|]. apply IH. by rewrite Z.lor_spec, Hb.
Qed.

Lemma name_bit_testbit nm : Z.testbit (ns_attr_name_bloom_bit nm) (Z.land (bloom_hash nm) 63) = true.
Proof.
  unfold ns_attr_name_bloom_bit. assert (0 <= Z.land (bloom_hash nm) 63)%Z as Hz by (apply Z.land_nonneg; lia).
  by rewrite Z.shiftl_spec, Z.sub_diag by done.
Qed.

(** The bit of every attribute's name is in the filter of the list. *)
Lemma bloom_has_bit l a : a ∈ l -> Z.land (attrs_bloom l) (ns_attr_name_bloom_bit (a_name a)) <> 0%Z.
Proof.
  intros Ha H.
  assert (Z.testbit (Z.land (attrs_bloom l) (ns_attr_name_bloom_bit (a_name a))) (Z.land (bloom_hash (a_name a)) 63) = true) as T.
  2:{ rewrite H, Z.testbit_0_l in T. done. }
  rewrite Z.land_spec, name_bit_testbit, andb_true_r. clear H. unfold attrs_bloom. generalize 0%Z.
  induction l as [|x l IH]; [by apply not_elem_of_nil in Ha|]. intros b. cbn.
  apply elem_of_cons in Ha as [<-|Ha]; [|by apply IH]. apply fold_bloom_mono. by rewrite Z.lor_spec, name_bit_testbit, orb_true_r.
Qed.

(** ** The kept set is that of the class attribute *)

(** Only an attribute without a namespace is called [class]: its local name is
    [class] too. *)
Definition plain_class `{GLib} (a : ns_attr) : bool :=
  negb (is_class_name (a_name a)) || (no_ns (namespace_uri a) && is_class_name (ns_attr_local_name a)).
Definition plain_op `{GLib} (o : attr_op) : bool :=
  match o with
  | Set_attr_ns uri pfx local nm v =>
      let qualified := match nm with Some [] | None => local | Some q => q end in
      negb (is_class_name qualified) || (no_ns uri && is_class_name local)
  | _ => true
  end.

(** What a run keeps: each value has a block of its own, the attributes called
    [class] have no namespace, and the set kept is the one that would be built. *)
Record kept `{GLib} (e : element) : Prop := {
  kept_blocks : NoDup (map fst (el_attrs e));
  kept_fresh : Forall (fun p => fst p < next_block e) (el_attrs e);
  kept_plain : Forall (fun p => plain_class (snd p) = true) (el_attrs e);
  kept_set : class_set e = None \/ class_set e = Some (built_set e);
}.

Section Cache.
Context `{Doc : GLibSpec}.

Lemma put_value_blocks found b new l x : x ∈ map fst (put_value found b new l) -> x = b \/ x ∈ map fst l.
Proof.
  induction l as [|[b' a] l IH]; cbn; [set_solver|]. destruct (found a); cbn; rewrite !elem_of_cons; [tauto|].
  intros [->|Hx]; [tauto|]. destruct (IH Hx); tauto.
Qed.
Lemma put_value_nodup found b new l : NoDup (map fst l) -> b ∉ map fst l -> NoDup (map fst (put_value found b new l)).
Proof.
  induction l as [|[b' a] l IH]; cbn; intros N Hb; [repeat constructor; set_solver|].
  apply NoDup_cons in N as [N1 N2]. apply not_elem_of_cons in Hb as [H1 H2].
  destruct (found a); cbn; constructor; auto. intros [->|]%put_value_blocks; [done|]. by apply N1.
Qed.
Lemma put_value_forall (P : block * ns_attr -> Prop) found b new l :
  Forall P l -> P (b, new) -> (forall b' a, (b', a) ∈ l -> found a = true -> P (b, set_value (a_value new) a)) ->
  Forall P (put_value found b new l).
Proof.
  intros HF Hn Hs. induction l as [|[b' a] l IH]; cbn; [by repeat constructor|].
  apply Forall_cons in HF as [H1 H2]. destruct (found a) eqn:E; constructor; auto; [eapply Hs; [by left|done]|].
  apply IH; [done|]. intros b'' a' Ha. apply (Hs b''). by right.
Qed.
Lemma drop_attr_sublist found l : drop_attr found l `sublist_of` l.
Proof. induction l as [|[b a] l IH]; cbn; [done|]. destruct (found a); by repeat constructor. Qed.

(** The attribute a class is read from stays when what is written is not it. *)
Lemma put_find (is_it found : ns_attr -> bool) b new l :
  (forall a, is_it (set_value (a_value new) a) = is_it a) -> is_it new = false ->
  Forall (fun p => found (snd p) = true -> is_it (snd p) = false) l ->
  List.find (fun p => is_it (snd p)) (put_value found b new l) = List.find (fun p => is_it (snd p)) l.
Proof.
  intros Hs Hn. induction l as [|[b' a] l IH]; cbn; intros HF; [by rewrite Hn|].
  apply Forall_cons in HF as [H1 H2]. cbn in H1. destruct (found a); cbn.
  - by rewrite Hs, H1.
  - by rewrite IH.
Qed.
Lemma drop_find (is_it found : ns_attr -> bool) l :
  Forall (fun p => found (snd p) = true -> is_it (snd p) = false) l ->
  List.find (fun p => is_it (snd p)) (drop_attr found l) = List.find (fun p => is_it (snd p)) l.
Proof.
  induction l as [|[b' a] l IH]; cbn; intros HF; [done|].
  apply Forall_cons in HF as [H1 H2]. cbn in H1. destruct (found a); cbn; [by rewrite H1|]. by rewrite IH.
Qed.

Definition not_read (e : element) (found : ns_attr -> bool) : Prop :=
  Forall (fun p => found (snd p) = true -> attr_named (is_svg e) ($"class") (snd p) = false) (el_attrs e).

Lemma not_class svg a : is_class_name (a_name a) = false -> attr_named svg ($"class") a = false.
Proof. intros H. apply not_true_iff_false. intros E%attr_named_class. congruence. Qed.

Lemma set_or_clear e c : class_set e = None \/ class_set e = Some (built_set e) ->
  c = true \/ class_set (touch c e) = None \/ class_set (touch c e) = Some (built_set e).
Proof. destruct c; [by left|]. by right. Qed.

(** A write keeps the invariant when it clears the set or is not to the class. *)
Lemma put_value_kept found new c e : kept e -> plain_class new = true ->
  (has_set e = true -> c = false -> not_read e found /\ attr_named (is_svg e) ($"class") new = false) ->
  kept (put_in found new (touch c e)).
Proof.
  intros [N F P S] Hn Hc. unfold put_in. assert (next_block e ∉ map fst (el_attrs e)) as Hb.
  { intros (p & E & Hp)%list_elem_of_fmap. rewrite Forall_forall in F. specialize (F _ Hp). lia. }
  split; cbn.
  - by apply put_value_nodup.
  - apply put_value_forall; cbn; [|lia|intros; lia]. eapply Forall_impl; [exact F|]. intros p Hp. cbn in *. lia.
  - apply put_value_forall; cbn; [done|done|]. intros b' a Ha _. rewrite Forall_forall in P. apply (P _ Ha).
  - destruct c; [by left|]. destruct S as [S|S]; [by left|right]. rewrite S. f_equal.
    unfold built_set, find_block. cbn. destruct Hc as [H1 H2]; [by unfold has_set; rewrite S|done|].
    rewrite (put_find (attr_named (is_svg e) ($"class"))); done.
Qed.
Lemma sub_forall {A} (P : A -> Prop) (l k : list A) : l `sublist_of` k -> Forall P k -> Forall P l.
Proof.
  intros L F. rewrite Forall_forall in F |- *. intros x Hx. apply F. by eapply elem_of_sublist.
Qed.
Lemma drop_kept found c e : kept e -> (has_set e = true -> c = false -> not_read e found) ->
  kept (drop_in found (touch c e)).
Proof.
  intros [N F P S] Hc. pose proof (drop_attr_sublist found (el_attrs e)) as L. split; cbn.
  - eapply sublist_NoDup; [exact N|]. by apply (fmap_sublist fst).
  - by eapply sub_forall.
  - by eapply sub_forall.
  - destruct c; [by left|]. destruct S as [S|S]; [by left|right]. rewrite S. f_equal.
    unfold built_set, find_block. cbn. rewrite (drop_find (attr_named (is_svg e) ($"class"))); [done|].
    apply Hc; [by unfold has_set; rewrite S|done].
Qed.

(** Two names equal but for case are both [class], or neither is. *)
Lemma class_name_ext a b : g_ascii_strcasecmp0 a b = true -> is_class_name a = is_class_name b.
Proof. unfold is_class_name. rewrite !strcasecmp_doc. intros H. boolify. by rewrite H. Qed.

Lemma not_read_name e nm : is_class_name nm = false -> not_read e (fun a => g_ascii_strcasecmp0 (a_name a) nm).
Proof.
  intros Hn. apply Forall_forall. intros p _ Hf. apply not_class. by rewrite (class_name_ext _ _ Hf).
Qed.
Lemma no_ns_idem uri : no_ns (ns_attr_normalize_namespace uri) = no_ns uri.
Proof. by destruct uri as [[|]|]. Qed.
Lemma not_read_ns e uri local : kept e -> no_ns uri && is_class_name local = false ->
  not_read e (fun a => ns_attr_matches_ns a (ns_attr_normalize_namespace uri) local).
Proof.
  intros [_ _ P _] Hn. unfold not_read. rewrite Forall_forall in P |- *. intros [b a] Ha Hf. cbn in *. apply not_class.
  specialize (P _ Ha). cbn in P. unfold plain_class in P. apply orb_true_iff in P as [P|P]; [by apply negb_true_iff in P|].
  unfold ns_attr_matches_ns in Hf. boolify. subst local.
  exfalso. revert Hn. unfold no_ns in *.
  assert (ns_attr_normalize_namespace (ns_attr_normalize_namespace uri) = ns_attr_normalize_namespace uri) as I by by destruct uri as [[|]|].
  rewrite I in *. match goal with Hq : ns_attr_normalize_namespace (namespace_uri a) = _ |- _ => rewrite Hq in * end.
  match goal with Hl : is_class_name _ = true |- _ => rewrite Hl end. rewrite andb_true_r. congruence.
Qed.

Lemma has_set_and e c : has_set e = true -> has_set e && c = c.
Proof. by intros ->. Qed.

Lemma step_kept o e : kept e -> plain_op o = true -> (forall nm, o <> Has_class nm) ->
  exists e', attr_step o e = Some e' /\ kept e' /\ is_svg e' = is_svg e.
Proof.
  intros K Po Hh. destruct o as [nm v|uri pfx local nm v|nm|uri local|nm|]; try by edestruct Hh.
  - eexists. split; [done|]. split; [|done]. apply put_value_kept; [done| |].
    + unfold plain_class. cbn. unfold ns_attr_local_name. cbn. by destruct (is_class_name nm).
    + intros Hs Hc. rewrite has_set_and in Hc by done. split; [by apply not_read_name|by apply not_class].
  - eexists. split; [done|]. split; [|done]. cbn in Po. apply put_value_kept; [done| |].
    + unfold plain_class. cbn. unfold ns_attr_local_name. cbn. by rewrite no_ns_idem.
    + intros Hs Hc. rewrite <- andb_assoc, has_set_and in Hc by done. split; [by apply not_read_ns|].
      apply not_class. cbn. rewrite Hc, orb_false_r in Po. by apply negb_true_iff in Po.
  - eexists. split; [done|]. split; [|done]. apply drop_kept; [done|]. intros Hs Hc. rewrite has_set_and in Hc by done.
    by apply not_read_name.
  - eexists. split; [done|]. split; [|done]. apply drop_kept; [done|]. intros Hs Hc.
    rewrite <- andb_assoc, has_set_and in Hc by done. by apply not_read_ns.
  - exists (snd (ns_node_attr_bloom e)). split; [done|]. unfold ns_node_attr_bloom.
    destruct (attr_bloom e =? 0)%Z; [|done]. split; [|done]. destruct K. by split.
Qed.

(** ** Tests of a class read live memory *)

Lemma find_block_attr e : snd <$> find_block e = ns_element_find_attr (is_svg e) ($"class") (attrs_of e).
Proof.
  unfold find_block, ns_element_find_attr, attrs_of. induction (el_attrs e) as [|[b a] l IH]; [done|]. cbn.
  by destruct (attr_named _ _ a).
Qed.
Lemma block_found l b a : NoDup (map fst l) -> (b, a) ∈ l -> List.find (fun p : block * ns_attr => fst p =? b) l = Some (b, a).
Proof.
  induction l as [|[b' a'] l IH]; cbn; intros N Ha; [by apply not_elem_of_nil in Ha|].
  apply NoDup_cons in N as [N1 N2]. apply elem_of_cons in Ha as [[= -> ->]|Ha]; [by rewrite Nat.eqb_refl|].
  destruct (Nat.eqb_spec b' b) as [->|]; [|by apply IH]. destruct N1. apply (list_elem_of_fmap_2 fst _ _ Ha).
Qed.
Lemma any_token_live nm e b a ts : block_text b e = Some (a_value a) ->
  any_token nm (map (fun '(off, n) => (b, off, n)) ts) e =
  Some (existsb (fun '(off, n) => (n =? length nm) && (take n (drop off (a_value a)) =b nm)) ts).
Proof.
  intros Hb. induction ts as [|[off n] ts IH]; cbn; [done|]. rewrite Hb, IH.
  destruct (n =? length nm); cbn; [|done]. by destruct (bool_decide _).
Qed.

Lemma class_tokens_bound fuel : forall off s o n, (o, n) ∈ class_tokens fuel off s -> off <= o /\ o + n <= off + length s.
Proof.
  induction fuel as [|f IH]; intros off s o n Hx; [by apply not_elem_of_nil in Hx|]. cbn -[take_while drop_while length ns_clsset_ws] in Hx.
  pose proof (drop_while_length ns_clsset_ws s) as L.
  destruct (drop_while ns_clsset_ws s) as [|c t] eqn:E; [by apply not_elem_of_nil in Hx|].
  pose proof (take_while_length (fun c => negb (ns_clsset_ws c)) (c :: t)) as L'.
  apply elem_of_cons in Hx as [Hx|Hx].
  { pose proof (f_equal fst Hx) as E1. pose proof (f_equal snd Hx) as E2. cbn [fst snd] in E1, E2. lia. }
  apply IH in Hx. rewrite length_drop in Hx. lia.
Qed.

Lemma token_text v o n nm : o + n <= length (cstr_of v) ->
  (n =? length nm) && (take n (drop o v) =b nm) = (take n (drop o (cstr_of v)) =b nm).
Proof.
  intros B. pose proof (take_drop_while (fun c => negb (c =c nul)) v) as E. fold (cstr_of v) in E.
  set (w := cstr_of v) in *.
  assert (take n (drop o v) = take n (drop o w)) as ->.
  { rewrite <- E, drop_app_le by lia. rewrite take_app_le; [done|]. rewrite length_drop. lia. }
  destruct (Nat.eqb_spec n (length nm)) as [|Hn]; [done|]. cbn. symmetry. apply bool_decide_eq_false.
  intros <-. apply Hn. rewrite length_take, length_drop. lia.
Qed.

Lemma tokens_text v nm ts : (forall o n, (o, n) ∈ ts -> o + n <= length (cstr_of v)) ->
  existsb (fun '(o, n) => (n =? length nm) && (take n (drop o v) =b nm)) ts =
  existsb (fun t => t =b nm) (map (fun '(o, n) => take n (drop o (cstr_of v))) ts).
Proof.
  induction ts as [|[o n] ts IH]; intros B; [done|]. cbn. rewrite IH by (intros; apply B; by right).
  rewrite token_text; [done|]. apply (B o n). by left.
Qed.
Lemma has_class_kept e nm : kept e -> ns_node_has_class nm e = Some (has_class (is_svg e) nm (attrs_of e), with_set e).
Proof.
  intros [N F P C]. unfold ns_node_has_class, has_class, ns_element_get_attr. rewrite <- find_block_attr.
  assert (class_set (with_set e) = Some (built_set e)) as ->.
  { unfold with_set. destruct C as [C|C]; rewrite C; [done|by rewrite C]. }
  assert (forall b, block_text b (with_set e) = block_text b e) as Hb by (intros b; unfold with_set, block_text; by destruct (class_set e)).
  unfold default, from_option, id. unfold built_set. destruct (find_block e) as [[b a]|] eqn:Ef; cbn [fmap option_fmap option_map snd]; [|done].
  assert ((b, a) ∈ el_attrs e) as Ha by by apply List.find_some in Ef as [?%list_elem_of_In _].
  rewrite (any_token_live nm _ b a); [|rewrite Hb; unfold block_text; by rewrite (block_found _ _ _ N Ha)].
  unfold class_listed, class_names. cbn [mbind option_bind]. do 2 f_equal.
  apply tokens_text. intros o n Hx. by apply class_tokens_bound in Hx as [_ Hx].
Qed.
Lemma with_set_kept e : kept e -> kept (with_set e).
Proof.
  intros [N F P S]. unfold with_set. destruct (class_set e) as [ts|] eqn:E; [by split; rewrite ?E|].
  split; cbn; [done..|by right].
Qed.

Lemma put_value_attrs found b new l : map snd (put_value found b new l) = put_attr found new (map snd l).
Proof. induction l as [|[b' a] l IH]; cbn; [done|]. destruct (found a); cbn; [done|]. by rewrite IH. Qed.
Lemma drop_attr_attrs found l : map snd (drop_attr found l) = without_attr found (map snd l).
Proof. induction l as [|[b' a] l IH]; cbn; [done|]. destruct (found a); cbn; [done|]. by rewrite IH. Qed.
Lemma without_attr_ext f g l : (forall a, f a = g a) -> without_attr f l = without_attr g l.
Proof. intros E. induction l as [|a l IH]; cbn; [done|]. by rewrite E, IH. Qed.
Lemma matches_ns_norm a uri local : ns_attr_matches_ns a (ns_attr_normalize_namespace uri) local = ns_attr_matches_ns a uri local.
Proof. unfold ns_attr_matches_ns. by destruct uri as [[|]|]. Qed.

Lemma step_attrs o e e' : attr_step o e = Some e' -> attrs_of e' = attrs_step (attrs_of e) o.
Proof.
  destruct o as [nm v|uri pfx local nm v|nm|uri local|nm|]; cbn [attr_step attrs_step]; intros E.
  - injection E as <-. apply put_value_attrs.
  - injection E as <-. unfold attrs_of, ns_element_set_attr_ns, Xml.ns_element_set_attr_ns. cbn. rewrite put_value_attrs.
    by destruct nm.
  - injection E as <-. apply drop_attr_attrs.
  - injection E as <-. unfold attrs_of. cbn. rewrite drop_attr_attrs. apply without_attr_ext. intros a. apply matches_ns_norm.
  - unfold ns_node_has_class in E. destruct (any_token _ _ _); [|done]. cbn in E. injection E as <-.
    unfold with_set. by destruct (class_set e).
  - injection E as <-. unfold ns_node_attr_bloom. by destruct (attr_bloom e =? 0)%Z.
Qed.

Lemma run_kept os e : kept e -> Forall (fun o => plain_op o = true) os ->
  exists e', attr_run os e = Some e' /\ kept e' /\ is_svg e' = is_svg e /\ attrs_of e' = foldl attrs_step (attrs_of e) os.
Proof.
  unfold attr_run. revert e. induction os as [|o os IH]; intros e K HF; cbn; [eauto|].
  apply Forall_cons in HF as [Ho HF].
  assert (exists e1, attr_step o e = Some e1 /\ kept e1 /\ is_svg e1 = is_svg e) as (e1 & E1 & K1 & S1).
  { destruct o as [| | | |nm|]; try by apply step_kept.
    cbn. rewrite has_class_kept by done. eexists. split; [done|]. split; [by apply with_set_kept|].
    unfold with_set. by destruct (class_set e). }
  rewrite E1. cbn. destruct (IH e1 K1 HF) as (e' & E' & K' & S' & A'). exists e'. apply step_attrs in E1.
  split; [done|]. split; [done|]. split; [congruence|]. by rewrite A', E1.
Qed.
Lemma new_kept svg : kept (new_element svg).
Proof. split; cbn; [constructor..|by left]. Qed.
End Cache.

(** ** The properties *)

(** C23. Tests of a class read live memory and see the attribute as it is: after any
    run of attribute calls on a new element in which no attribute with a namespace
    is called [class], the attributes are those the calls leave, and a test of a
    class reads no freed memory and answers whether the class attribute lists it. *)
Theorem class_tests_read_live_memory `{Doc : GLibSpec} svg os :
  Forall (fun o => plain_op o = true) os ->
  exists e, attr_run os (new_element svg) = Some e /\ attrs_of e = foldl attrs_step [] os /\
    forall nm, fst <$> ns_node_has_class nm e = Some (has_class svg nm (attrs_of e)).
Proof.
  intros P. destruct (run_kept os (new_element svg) (new_kept svg) P) as (e & E & K & S & A).
  exists e. split; [done|]. split; [done|]. intros nm. rewrite has_class_kept by done. cbn in *. by rewrite S.
Qed.

Lemma class_tests_read_live_memory_witness :
  exists e, attr_run [Set_attr ($"class") ($"a b"); Has_class ($"b"); Set_attr ($"CLASS") ($"c")] (new_element false) = Some e /\
    map a_value (attrs_of e) = [$"c"] /\ forall nm, fst <$> ns_node_has_class nm e = Some (has_class false nm (attrs_of e)).
Proof.
  edestruct (class_tests_read_live_memory false [Set_attr ($"class") ($"a b"); Has_class ($"b"); Set_attr ($"CLASS") ($"c")])
    as (e & E & A & R); [by repeat constructor|].
  exists e. split; [exact E|]. split; [rewrite A; reflexivity|exact R].
Defined.

(** An attribute called [class] in a namespace: the value the kept tokens
    point into is freed by the next write to it, and the next test of a class reads
    it. *)
Theorem class_set_outlives_value :
  attr_run [Set_attr_ns (Some ($"urn:x")) None ($"class") (Some ($"class")) ($"a"); Has_class ($"a");
            Set_attr_ns (Some ($"urn:x")) None ($"class") (Some ($"class")) ($"b"); Has_class ($"b")] (new_element false) = None.
Proof. vm_compute. reflexivity. Qed.
