(* ===== verification/Selector.v ===== *)
(** * Selectors: data and parser ([src/css.h], [src/css.c])

    The position of the parser is what is left of the text. The parser of a group of
    selectors calls itself on the argument of a functional pseudo-class; its fuel
    bounds that nesting, and [None] is fuel that did not last. [SelParse] shows that
    one more than the length of the text is always enough. *)

From S2P Require Import Prelude CStr GLib CssSyntax Xml Element.

(** ** Data ([src/css.h]) *)

Inductive ns_css_comb :=
| NS_CSS_COMB_NONE | NS_CSS_COMB_DESCENDANT | NS_CSS_COMB_CHILD | NS_CSS_COMB_ADJACENT | NS_CSS_COMB_SIBLING.
Inductive ns_css_pseudo_element :=
| NS_CSS_PE_NONE | NS_CSS_PE_BEFORE | NS_CSS_PE_AFTER | NS_CSS_PE_FIRST_LETTER | NS_CSS_PE_FIRST_LINE
| NS_CSS_PE_SELECTION | NS_CSS_PE_MARKER | NS_CSS_PE_BACKDROP | NS_CSS_PE_PLACEHOLDER | NS_CSS_PE_FILE_SELECTOR_BUTTON.
Inductive ns_css_attr_op :=
| NS_CSS_ATTR_PRESENT | NS_CSS_ATTR_EQ | NS_CSS_ATTR_PREFIX | NS_CSS_ATTR_SUFFIX | NS_CSS_ATTR_SUBSTR
| NS_CSS_ATTR_WORD | NS_CSS_ATTR_HYPHEN.
Inductive ns_css_pseudo :=
| NS_CSS_PC_FIRST_CHILD | NS_CSS_PC_LAST_CHILD | NS_CSS_PC_ONLY_CHILD | NS_CSS_PC_ONLY_OF_TYPE
| NS_CSS_PC_FIRST_OF_TYPE | NS_CSS_PC_LAST_OF_TYPE | NS_CSS_PC_EMPTY | NS_CSS_PC_ROOT | NS_CSS_PC_CHECKED
| NS_CSS_PC_DISABLED | NS_CSS_PC_ENABLED | NS_CSS_PC_REQUIRED | NS_CSS_PC_OPTIONAL | NS_CSS_PC_VALID
| NS_CSS_PC_INVALID | NS_CSS_PC_IN_RANGE | NS_CSS_PC_OUT_OF_RANGE | NS_CSS_PC_DEFAULT | NS_CSS_PC_INDETERMINATE
| NS_CSS_PC_NTH_CHILD | NS_CSS_PC_NTH_LAST_CHILD | NS_CSS_PC_NTH_OF_TYPE | NS_CSS_PC_NTH_LAST_OF_TYPE
| NS_CSS_PC_LINK | NS_CSS_PC_VISITED | NS_CSS_PC_ANY_LINK | NS_CSS_PC_HOVER | NS_CSS_PC_ACTIVE | NS_CSS_PC_FOCUS
| NS_CSS_PC_FOCUS_WITHIN | NS_CSS_PC_TARGET | NS_CSS_PC_TARGET_WITHIN | NS_CSS_PC_DEFINED | NS_CSS_PC_SCOPE
| NS_CSS_PC_PLACEHOLDER_SHOWN | NS_CSS_PC_READ_ONLY | NS_CSS_PC_READ_WRITE | NS_CSS_PC_BLANK | NS_CSS_PC_LANG
| NS_CSS_PC_DIR | NS_CSS_PC_OPEN | NS_CSS_PC_POPOVER_OPEN | NS_CSS_PC_MODAL | NS_CSS_PC_HEADING.

#[global] Instance ns_css_comb_eq_dec : EqDecision ns_css_comb.
Proof. solve_decision. Defined.
#[global] Instance ns_css_pseudo_element_eq_dec : EqDecision ns_css_pseudo_element.
Proof. solve_decision. Defined.
#[global] Instance ns_css_attr_op_eq_dec : EqDecision ns_css_attr_op.
Proof. solve_decision. Defined.
#[global] Instance ns_css_pseudo_eq_dec : EqDecision ns_css_pseudo.
Proof. solve_decision. Defined.

Record ns_css_attr_pred := {
  ap_name : bytes;
  ap_namespace_uri : option bytes;
  ap_op : ns_css_attr_op;
  ap_value : option bytes;
  ap_namespace_any : bool;
  case_insensitive : bool;
  case_sensitive : bool;
  name_bit : Z;
}.

(** The types that hold groups of selectors, over the type of selectors. *)
Record ns_css_pseudo_pred_of (sel : Type) := Pseudo {
  pc_kind : ns_css_pseudo;
  pc_a : Z;
  pc_b : Z;
  pc_arg : option bytes;
  of_group : option (list sel);
}.
Arguments Pseudo {_}. Arguments pc_kind {_}. Arguments pc_a {_}. Arguments pc_b {_}.
Arguments pc_arg {_}. Arguments of_group {_}.

Record ns_css_simple_of (sel : Type) := Simple {
  s_type : option bytes;
  s_namespace_uri : option bytes;
  s_id : option bytes;
  s_classes : list bytes;
  s_attrs : list ns_css_attr_pred;
  s_pseudos : list (ns_css_pseudo_pred_of sel);
  matches_any : list (list sel);
  matches_none : list (list sel);
  has_groups : list (list sel);
  never_match : bool;
  namespace_any : bool;
  ns_none : bool;
}.
Arguments Simple {_}. Arguments s_type {_}. Arguments s_namespace_uri {_}. Arguments s_id {_}.
Arguments s_classes {_}. Arguments s_attrs {_}. Arguments s_pseudos {_}. Arguments matches_any {_}.
Arguments matches_none {_}. Arguments has_groups {_}. Arguments never_match {_}. Arguments namespace_any {_}.
Arguments ns_none {_}.

Definition specificity : Type := Z * Z * Z.

(** The arrays [compounds] and [combinators] always have one length; the model
    pairs them. *)
Inductive ns_css_selector := Selector {
  compounds : list (ns_css_comb * ns_css_simple_of ns_css_selector);
  pseudo_element : ns_css_pseudo_element;
  spec : specificity;
}.
Abbreviation ns_css_simple := (ns_css_simple_of ns_css_selector).
Abbreviation ns_css_pseudo_pred := (ns_css_pseudo_pred_of ns_css_selector).

(** ** Characters, names and strings *)

Definition is_ws (c : ascii) : bool := memb c [" "%char; tab; nl; cr; byte_of 12].
Definition is_ident_start (c : ascii) : bool :=
  is_lower c || is_upper c || (c =c "_") || (c =c "-") || (128 <=? code c)%Z.
Definition is_ident (c : ascii) : bool := is_ident_start c || is_digit c.
Definition line_end (c : ascii) : bool := (c =c nl) || (c =c cr) || (c =c byte_of 12).
Definition quote_char (c : ascii) : bool := (c =c dquote) || (c =c "'").
#[global] Arguments is_ws : simpl never.
#[global] Arguments is_ident_start : simpl never.
#[global] Arguments is_ident : simpl never.
#[global] Arguments line_end : simpl never.
#[global] Arguments quote_char : simpl never.

Definition css_unescape_cp (cp : Z) : Z :=
  if (cp =? 0)%Z || (1114111 <? cp)%Z || ((55296 <=? cp)%Z && (cp <=? 57343)%Z) then 65533%Z else cp.

Section Text.
Context {G : GLib} {U : Unichar}.

(** [css_append_hex_escape]: what it appends, and what is left. *)
Definition css_append_hex_escape (s : bytes) : bytes * bytes :=
  let '(ds, r) := take_upto 6 g_ascii_isxdigit s in
  let cp := fold_left (fun v c => (v * 16 + g_ascii_xdigit_value c)%Z) ds 0%Z in
  let r :=
    match r with
    | c :: r' => if is_ws c then (if (c =c cr) && head_is (fun d => d =c nl) r' then drop 1 r' else r') else r
    | [] => []
    end in
  (g_unichar_to_utf8 (css_unescape_cp cp), r).

Fixpoint ident_loop (fuel : nat) (s : bytes) : bytes * bytes :=
  match fuel, s with
  | S f, c :: s' =>
      if c =c slash then
        match s' with
        | e :: s'' =>
            if line_end e then (g_unichar_to_utf8 65533, s')
            else if g_ascii_isxdigit e then
              let '(u, r) := css_append_hex_escape s' in
              let '(v, r) := ident_loop f r in (u ++ v, r)
            else let '(v, r) := ident_loop f s'' in (e :: v, r)
        | [] => (g_unichar_to_utf8 65533, s')
        end
      else if is_ident c then let '(v, r) := ident_loop f s' in (c :: v, r)
      else ([], s)
  | _, _ => ([], s)
  end.
Definition read_css_ident (s : bytes) : bytes * bytes := ident_loop (length s) s.

Fixpoint str_loop (fuel : nat) (quote : ascii) (s : bytes) : bytes * bytes :=
  match fuel, s with
  | S f, c :: s' =>
      if c =c quote then ([], s')
      else if line_end c then ([], s)
      else
        match s' with
        | e :: s'' =>
            if c =c slash then
              if line_end e then str_loop f quote s''
              else if g_ascii_isxdigit e then
                let '(u, r) := css_append_hex_escape s' in
                let '(v, r) := str_loop f quote r in (u ++ v, r)
              else let '(v, r) := str_loop f quote s'' in (e :: v, r)
            else let '(v, r) := str_loop f quote s' in (c :: v, r)
        | [] => let '(v, r) := str_loop f quote s' in (c :: v, r)
        end
  | _, _ => ([], s)
  end.
Definition read_css_string (s : bytes) : bytes * bytes :=
  match s with
  | q :: s' => if quote_char q then str_loop (length s') q s' else ([], s)
  | [] => ([], s)
  end.

(** ** Blanks and scans *)

Definition opens_comment (s : bytes) : bool :=
  match s with c :: d :: _ => (c =c "/") && (d =c "*") | _ => false end.
Definition css_skip_comment (s : bytes) : bytes :=
  if opens_comment s then drop (2 + comment_len (drop 2 s)) s else s.
Fixpoint skip_loop (fuel : nat) (s : bytes) : bytes :=
  let s := drop_while is_ws s in
  match fuel with
  | S f => if opens_comment s then skip_loop f (css_skip_comment s) else s
  | O => s
  end.
Definition css_skip_ws_comments (s : bytes) : bytes := skip_loop (length s) s.

(** [css_scan_until]: what is passed, what is left, and the terminator. *)
Definition css_scan_until (s terminators : bytes) : bytes * bytes * option ascii :=
  let '(n, t) := ns_css_syntax_scan s terminators in (take n s, drop n s, t).

Definition css_trim_dup_range (s : bytes) : bytes :=
  rev (drop_while is_ws (rev (drop_while is_ws s))).

(** [css_find_nth_of]: the text before a top-level [of] and what follows the
    word. [prev] is the byte before [s]. *)
Fixpoint nth_of_loop (fuel : nat) (prev quote : option ascii) (paren bracket : nat) (s : bytes) : option (bytes * bytes) :=
  match fuel, s with
  | S f, c :: s' =>
      let pass (n : nat) quote paren bracket :=
        '(b, a) ← nth_of_loop f (Some (nth (n - 1) s nul)) quote paren bracket (drop n s);
        Some (take n s ++ b, a) in
      match quote with
      | Some q =>
          if (c =c slash) && negb (s' =b []) then pass 2 quote paren bracket
          else pass 1 (if c =c q then None else quote) paren bracket
      | None =>
          if opens_comment s then pass (2 + comment_len (drop 2 s)) None paren bracket
          else if (c =c slash) && negb (s' =b []) then pass 2 None paren bracket
          else if quote_char c then pass 1 (Some c) paren bracket
          else
            let bracket := if c =c "[" then S bracket else if c =c "]" then pred bracket else bracket in
            let paren := if c =c "(" then S paren else if c =c ")" then pred paren else paren in
            if (paren =? 0) && (bracket =? 0) && (2 <=? length s) && g_ascii_strncasecmp0 s ($"of") 2 &&
               match prev with None => true | Some d => is_ws d end &&
               match drop 2 s with [] => true | d :: _ => is_ws d end
            then Some ([], drop 2 s)
            else pass 1 None paren bracket
      end
  | _, _ => None
  end.
Definition css_find_nth_of (s : bytes) : option (bytes * bytes) := nth_of_loop (length s) None None 0 0 s.

(** ** Numbers ([src/dom.c], [src/css.c]) *)

Definition ns_parse_int (s : option bytes) (dflt min_v max_v : Z) : Z :=
  match s with
  | None | Some [] => dflt
  | Some s =>
      match drop_while (fun c => (c =c " ") || (c =c tab)) s with
      | [] => dflt
      | s => if length (g_ascii_strtoll10_end s) =? length s then dflt
             else Z.min max_v (Z.max min_v (g_ascii_strtoll10 s))
      end
  end.

Definition anb_int_strict (s : bytes) : option Z :=
  let d := match s with c :: r => if (c =c "+") || (c =c "-") then r else s | [] => s end in
  match d with
  | [] => None
  | _ => if allb g_ascii_isdigit d then Some (ns_parse_int (Some s) 0 (-1000000) 1000000) else None
  end.

Definition parse_anb (arg : bytes) : option (Z * Z) :=
  let s := filter (fun c => negb (is_ws c)) (g_strstrip arg) in
  if g_ascii_strcasecmp0 s ($"odd") then Some (2, 1)%Z
  else if g_ascii_strcasecmp0 s ($"even") then Some (2, 0)%Z
  else
    let n_char := if memb "n"%char s then "n"%char else "N"%char in
    if memb n_char s then
      let a_str := before s n_char in
      let b_str := drop (S (length a_str)) s in
      a ← (if (a_str =b []) || strcmp0 a_str ($"+") then Some 1%Z
           else if strcmp0 a_str ($"-") then Some (-1)%Z else anb_int_strict a_str);
      b ← match b_str with
          | [] => Some 0%Z
          | c :: _ => if (c =c "+") || (c =c "-") then anb_int_strict b_str else None
          end;
      Some (a, b)
    else b ← anb_int_strict s; Some (0%Z, b).

(** ** Names of pseudo-classes and pseudo-elements *)

(** [n == strlen(k) && g_ascii_strncasecmp(name, k, n) == 0]. *)
Definition name_is (name k : bytes) : bool := (length name =? length k) && g_ascii_strncasecmp0 name k (length k).

Definition css_pseudo_class_is_standard (name : bytes) : bool :=
  existsb (name_is name)
    [$"default"; $"indeterminate"; $"in-range"; $"out-of-range"; $"fullscreen"; $"modal"; $"autofill"; $"blank";
     $"user-valid"; $"user-invalid"; $"target-within"; $"focus-visible"; $"local-link"; $"current"; $"past";
     $"future"; $"playing"; $"paused"; $"muted"; $"seeking"; $"buffering"; $"stalled"; $"picture-in-picture";
     $"volume-locked"; $"host"; $"host-context"; $"nth-col"; $"nth-last-col"; $"state"].
Definition css_pseudo_element_is_standard (name : bytes) : bool :=
  existsb (name_is name)
    [$"part"; $"slotted"; $"cue"; $"cue-region"; $"highlight"; $"target-text"; $"spelling-error"; $"grammar-error";
     $"file-selector-button"; $"details-content"; $"view-transition"; $"view-transition-group";
     $"view-transition-image-pair"; $"view-transition-old"; $"view-transition-new"].

Definition keyword_table : list (bytes * ns_css_pseudo) :=
  [($"first-child", NS_CSS_PC_FIRST_CHILD); ($"last-child", NS_CSS_PC_LAST_CHILD);
   ($"only-child", NS_CSS_PC_ONLY_CHILD); ($"first-of-type", NS_CSS_PC_FIRST_OF_TYPE);
   ($"last-of-type", NS_CSS_PC_LAST_OF_TYPE); ($"only-of-type", NS_CSS_PC_ONLY_OF_TYPE);
   ($"empty", NS_CSS_PC_EMPTY); ($"root", NS_CSS_PC_ROOT); ($"checked", NS_CSS_PC_CHECKED);
   ($"disabled", NS_CSS_PC_DISABLED); ($"enabled", NS_CSS_PC_ENABLED); ($"required", NS_CSS_PC_REQUIRED);
   ($"optional", NS_CSS_PC_OPTIONAL); ($"valid", NS_CSS_PC_VALID); ($"invalid", NS_CSS_PC_INVALID);
   ($"in-range", NS_CSS_PC_IN_RANGE); ($"out-of-range", NS_CSS_PC_OUT_OF_RANGE); ($"default", NS_CSS_PC_DEFAULT);
   ($"indeterminate", NS_CSS_PC_INDETERMINATE); ($"link", NS_CSS_PC_LINK); ($"visited", NS_CSS_PC_VISITED);
   ($"any-link", NS_CSS_PC_ANY_LINK); ($"hover", NS_CSS_PC_HOVER); ($"active", NS_CSS_PC_ACTIVE);
   ($"focus", NS_CSS_PC_FOCUS); ($"focus-visible", NS_CSS_PC_FOCUS); ($"focus-within", NS_CSS_PC_FOCUS_WITHIN);
   ($"target", NS_CSS_PC_TARGET); ($"target-within", NS_CSS_PC_TARGET_WITHIN); ($"defined", NS_CSS_PC_DEFINED);
   ($"scope", NS_CSS_PC_SCOPE); ($"placeholder-shown", NS_CSS_PC_PLACEHOLDER_SHOWN);
   ($"read-only", NS_CSS_PC_READ_ONLY); ($"read-write", NS_CSS_PC_READ_WRITE); ($"blank", NS_CSS_PC_BLANK);
   ($"open", NS_CSS_PC_OPEN); ($"popover-open", NS_CSS_PC_POPOVER_OPEN); ($"modal", NS_CSS_PC_MODAL)].

Definition pseudo_element_table : list (bytes * ns_css_pseudo_element) :=
  [($"before", NS_CSS_PE_BEFORE); ($"after", NS_CSS_PE_AFTER); ($"first-letter", NS_CSS_PE_FIRST_LETTER);
   ($"first-line", NS_CSS_PE_FIRST_LINE); ($"selection", NS_CSS_PE_SELECTION); ($"marker", NS_CSS_PE_MARKER);
   ($"backdrop", NS_CSS_PE_BACKDROP); ($"file-selector-button", NS_CSS_PE_FILE_SELECTOR_BUTTON);
   ($"placeholder", NS_CSS_PE_PLACEHOLDER); ($"-webkit-input-placeholder", NS_CSS_PE_PLACEHOLDER);
   ($"-ms-input-placeholder", NS_CSS_PE_PLACEHOLDER); ($"-moz-placeholder", NS_CSS_PE_PLACEHOLDER)].

Fixpoint assoc_name {A} (name : bytes) (l : list (bytes * A)) : option A :=
  match l with [] => None | (k, v) :: l' => if name_is name k then Some v else assoc_name name l' end.

(** The pseudo-elements that may be written with one colon. *)
Definition one_colon_element (name : bytes) : bool :=
  name_is name ($"before") || name_is name ($"after") || name_is name ($"first-line") || name_is name ($"first-letter").

Definition heading_levels_ok (arg : bytes) : bool :=
  match g_strsplit arg ($",") with
  | [] => false
  | items => allb (fun i => match anb_int_strict (g_strstrip i) with Some _ => true | None => false end) items
  end.

Definition nth_kind (name : bytes) : option ns_css_pseudo :=
  assoc_name name [($"nth-child", NS_CSS_PC_NTH_CHILD); ($"nth-last-child", NS_CSS_PC_NTH_LAST_CHILD);
                   ($"nth-of-type", NS_CSS_PC_NTH_OF_TYPE); ($"nth-last-of-type", NS_CSS_PC_NTH_LAST_OF_TYPE)].
(** [n == 9 || n == 14]. *)
Definition takes_of (k : ns_css_pseudo) : bool :=
  bool_decide (k = NS_CSS_PC_NTH_CHILD) || bool_decide (k = NS_CSS_PC_NTH_LAST_CHILD).
End Text.
#[global] Arguments name_is : simpl never.
#[global] Arguments css_pseudo_class_is_standard : simpl never.
#[global] Arguments css_pseudo_element_is_standard : simpl never.
#[global] Arguments keyword_table : simpl never.
#[global] Arguments pseudo_element_table : simpl never.

(** ** The parser's state *)

(** What the globals of the parser say: [g_sel_strict], [g_sel_namespaces] and
    [g_sel_default_namespace]. *)
Record sel_env := {
  g_sel_strict : bool;
  g_sel_namespaces : gmap bytes bytes;
  g_sel_default_namespace : option bytes;
}.

(** The globals it writes. *)
Record sel_flags := {
  g_sel_parse_error : bool;
  g_sel_ns_prefix : bool;
  g_sel_has_hover : bool;
  g_sel_has_active : bool;
  g_sel_has_depth : nat;
}.
Definition set_error (b : bool) (f : sel_flags) : sel_flags :=
  Build_sel_flags b (g_sel_ns_prefix f) (g_sel_has_hover f) (g_sel_has_active f) (g_sel_has_depth f).
Definition set_ns_prefix (b : bool) (f : sel_flags) : sel_flags :=
  Build_sel_flags (g_sel_parse_error f) b (g_sel_has_hover f) (g_sel_has_active f) (g_sel_has_depth f).
Definition set_has_depth (n : nat) (f : sel_flags) : sel_flags :=
  Build_sel_flags (g_sel_parse_error f) (g_sel_ns_prefix f) (g_sel_has_hover f) (g_sel_has_active f) n.
Definition note_kind (k : ns_css_pseudo) (f : sel_flags) : sel_flags :=
  Build_sel_flags (g_sel_parse_error f) (g_sel_ns_prefix f)
    (g_sel_has_hover f || bool_decide (k = NS_CSS_PC_HOVER)) (g_sel_has_active f || bool_decide (k = NS_CSS_PC_ACTIVE))
    (g_sel_has_depth f).

Definition spec_add (x y : specificity) : specificity :=
  let '(a, b, c) := x in let '(a', b', c') := y in (a + a', b + b', c + c')%Z.
Definition spec_gtb (x y : specificity) : bool :=
  let '(a, b, c) := x in let '(a', b', c') := y in
  ((a' <? a) || ((a =? a') && (b' <? b)) || ((a =? a') && (b =? b') && (c' <? c)))%Z.
(** [selector_group_max_specificity] from 0, and the loops like it. *)
Definition selector_group_max_specificity (group : list ns_css_selector) : specificity :=
  fold_left (fun m s => if spec_gtb (spec s) m then spec s else m) group (0, 0, 0)%Z.

(** The compound being read, and of the selector its pseudo-element and
    specificity. *)
Record reading := {
  p : bytes;
  cmp : ns_css_simple;
  pe : ns_css_pseudo_element;
  sp : specificity;
  any : bool;
  fl : sel_flags;
}.

Definition at_p (s : bytes) (r : reading) : reading := Build_reading s (cmp r) (pe r) (sp r) (any r) (fl r).
Definition on_cmp (f : ns_css_simple -> ns_css_simple) (r : reading) : reading :=
  Build_reading (p r) (f (cmp r)) (pe r) (sp r) (any r) (fl r).
Definition set_pe (e : ns_css_pseudo_element) (r : reading) : reading :=
  Build_reading (p r) (cmp r) e (sp r) (any r) (fl r).
Definition add_spec (x : specificity) (r : reading) : reading :=
  Build_reading (p r) (cmp r) (pe r) (spec_add (sp r) x) (any r) (fl r).
Definition found (r : reading) : reading := Build_reading (p r) (cmp r) (pe r) (sp r) true (fl r).
Definition on_fl (f : sel_flags -> sel_flags) (r : reading) : reading :=
  Build_reading (p r) (cmp r) (pe r) (sp r) (any r) (f (fl r)).

Definition c_type (v : option bytes) (s : ns_css_simple) : ns_css_simple :=
  Simple v (s_namespace_uri s) (s_id s) (s_classes s) (s_attrs s) (s_pseudos s) (matches_any s) (matches_none s)
    (has_groups s) (never_match s) (namespace_any s) (ns_none s).
Definition c_ns (uri : option bytes) (any none : bool) (s : ns_css_simple) : ns_css_simple :=
  Simple (s_type s) uri (s_id s) (s_classes s) (s_attrs s) (s_pseudos s) (matches_any s) (matches_none s)
    (has_groups s) (never_match s) any none.
Definition c_id (v : bytes) (s : ns_css_simple) : ns_css_simple :=
  Simple (s_type s) (s_namespace_uri s) (Some v) (s_classes s) (s_attrs s) (s_pseudos s) (matches_any s) (matches_none s)
    (has_groups s) (never_match s) (namespace_any s) (ns_none s).
Definition c_class (v : bytes) (s : ns_css_simple) : ns_css_simple :=
  Simple (s_type s) (s_namespace_uri s) (s_id s) (s_classes s ++ [v]) (s_attrs s) (s_pseudos s) (matches_any s)
    (matches_none s) (has_groups s) (never_match s) (namespace_any s) (ns_none s).
Definition c_attr (v : ns_css_attr_pred) (s : ns_css_simple) : ns_css_simple :=
  Simple (s_type s) (s_namespace_uri s) (s_id s) (s_classes s) (s_attrs s ++ [v]) (s_pseudos s) (matches_any s)
    (matches_none s) (has_groups s) (never_match s) (namespace_any s) (ns_none s).
Definition c_pseudo (v : ns_css_pseudo_pred) (s : ns_css_simple) : ns_css_simple :=
  Simple (s_type s) (s_namespace_uri s) (s_id s) (s_classes s) (s_attrs s) (s_pseudos s ++ [v]) (matches_any s)
    (matches_none s) (has_groups s) (never_match s) (namespace_any s) (ns_none s).
Definition c_any (g : list ns_css_selector) (s : ns_css_simple) : ns_css_simple :=
  Simple (s_type s) (s_namespace_uri s) (s_id s) (s_classes s) (s_attrs s) (s_pseudos s) (matches_any s ++ [g])
    (matches_none s) (has_groups s) (never_match s) (namespace_any s) (ns_none s).
Definition c_none (g : list ns_css_selector) (s : ns_css_simple) : ns_css_simple :=
  Simple (s_type s) (s_namespace_uri s) (s_id s) (s_classes s) (s_attrs s) (s_pseudos s) (matches_any s)
    (matches_none s ++ [g]) (has_groups s) (never_match s) (namespace_any s) (ns_none s).
Definition c_has (g : list ns_css_selector) (s : ns_css_simple) : ns_css_simple :=
  Simple (s_type s) (s_namespace_uri s) (s_id s) (s_classes s) (s_attrs s) (s_pseudos s) (matches_any s)
    (matches_none s) (has_groups s ++ [g]) (never_match s) (namespace_any s) (ns_none s).
Definition c_never (s : ns_css_simple) : ns_css_simple :=
  Simple (s_type s) (s_namespace_uri s) (s_id s) (s_classes s) (s_attrs s) (s_pseudos s) (matches_any s)
    (matches_none s) (has_groups s) true (namespace_any s) (ns_none s).

(** [ns_css_simple_new], with the default namespace. *)
Definition ns_css_simple_new (e : sel_env) : ns_css_simple :=
  Simple None (g_sel_default_namespace e) None [] [] [] [] [] [] false
    (match g_sel_default_namespace e with Some _ => false | None => true end) false.

Definition error (r : reading) : reading := on_fl (set_error true) r.
Definition never (r : reading) : reading := on_cmp c_never r.
Definition type_point : specificity := (0, 0, 1)%Z.
Definition class_point : specificity := (0, 1, 0)%Z.
Definition id_point : specificity := (1, 0, 0)%Z.

(** The bytes at the position: [*p] and [p[1]] where they are before [end]. *)
Definition is_at (c : ascii) (s : bytes) : bool := head_is (fun d => d =c c) s.
(** [*p == '|' && !(p + 1 < end && p[1] == '=')]. *)
Definition bar_at (s : bytes) : bool := is_at "|" s && negb (is_at "=" (drop 1 s)).

(** ** The parts of a compound *)

Section Parser.
Context {G : GLib} {U : Unichar} (e : sel_env).

(** The branch on [*] and [|]. *)
Definition star_token (r : reading) : reading :=
  let star := is_at "*" (p r) in
  let s := if star then drop 1 (p r) else p r in
  if bar_at s then
    let r := on_cmp (fun k => c_ns None star (negb star || ns_none k) k) (at_p (drop 1 s) r) in
    if is_at "*" (p r) then found (on_cmp (c_type (Some ($"*"))) (at_p (drop 1 (p r)) r))
    else
      let '(t, s) := read_css_ident (p r) in
      let r := at_p s r in
      match t with
      | [] => found (error r)
      | _ =>
          match s_type (cmp r) with
          | None => found (add_spec type_point (on_cmp (c_type (Some t)) r))
          | Some _ => found r
          end
      end
  else
    let r := at_p s r in
    let r := match s_type (cmp r) with Some _ => never (error r) | None => r end in
    found (on_cmp (c_type (Some ($"*"))) r).

Definition id_token (r : reading) : reading :=
  let '(t, s) := read_css_ident (drop 1 (p r)) in
  let r := at_p s r in
  match t with
  | [] => found (never (error r))
  | _ => found (add_spec id_point (on_cmp (c_id t) r))
  end.

Definition bad_class_start (s : bytes) : bool :=
  head_is g_ascii_isdigit s || (is_at "-" s && head_is g_ascii_isdigit (drop 1 s)).
Definition class_token (r : reading) : reading :=
  let s := drop 1 (p r) in
  let bad_start := bad_class_start s in
  let '(t, s) := read_css_ident s in
  let r := at_p s r in
  if negb bad_start && negb (t =b []) then found (add_spec class_point (on_cmp (c_class t) r))
  else found (never (error r)).

(** The branch on a name. *)
Definition type_token (r : reading) : reading :=
  let '(t, s) := read_css_ident (p r) in
  let r := at_p s r in
  if bar_at s then
    let r := on_fl (set_ns_prefix true) r in
    let r :=
      match g_sel_namespaces e !! t with
      | None => never (error r)
      | Some uri => on_cmp (c_ns (Some uri) false false) r
      end in
    let s := drop 1 s in
    if is_at "*" s then found (on_cmp (c_type (Some ($"*"))) (at_p (drop 1 s) r))
    else
      let '(l, s) := read_css_ident s in
      let r := at_p s r in
      match l with
      | [] => found (never (error r))
      | _ => found (add_spec type_point (on_cmp (c_type (Some l)) r))
      end
  else
    match s_type (cmp r) with
    | None => found (add_spec type_point (on_cmp (c_type (Some t)) r))
    | Some _ => found (never (error r))
    end.

(** The name of an attribute selector: its namespace ([any], a URI) and what is
    left; the flags change when a prefix is used. *)
Definition attr_name (s : bytes) (r : reading) : bool * option bytes * bytes * reading :=
  if is_at "*" s && is_at "|" (drop 1 s) then
    let '(t, s) := read_css_ident (drop 2 s) in (true, None, t, at_p s r)
  else if bar_at s then
    let '(t, s) := read_css_ident (drop 1 s) in (false, None, t, at_p s r)
  else
    let '(t, s) := read_css_ident s in
    if negb (t =b []) && bar_at s then
      let r := on_fl (set_ns_prefix true) r in
      let '(uri, r) := match g_sel_namespaces e !! t with None => (None, never (error r)) | Some u => (Some u, r) end in
      let '(l, s) := read_css_ident (drop 1 s) in (false, uri, l, at_p s r)
    else (false, None, t, at_p s r).

(** The operator and the value. *)
Definition attr_operator (c : ascii) : option ns_css_attr_op :=
  if c =c "^" then Some NS_CSS_ATTR_PREFIX else if c =c "$" then Some NS_CSS_ATTR_SUFFIX
  else if c =c "*" then Some NS_CSS_ATTR_SUBSTR else if c =c "~" then Some NS_CSS_ATTR_WORD
  else if c =c "|" then Some NS_CSS_ATTR_HYPHEN else None.
Definition read_value (s : bytes) : bytes * bytes :=
  if head_is quote_char s then read_css_string s else read_css_ident s.
Definition attr_value (s : bytes) : ns_css_attr_op * option bytes * bytes :=
  match s with
  | [] => (NS_CSS_ATTR_PRESENT, None, s)
  | c :: s' =>
      if c =c "=" then
        let '(v, s) := read_value (css_skip_ws_comments s') in (NS_CSS_ATTR_EQ, Some v, s)
      else
        match attr_operator c with
        | None => (NS_CSS_ATTR_PRESENT, None, s)
        | Some o =>
            let eq := is_at "=" s' in
            let '(v, s) := read_value (css_skip_ws_comments (if eq then drop 1 s' else s')) in
            (if eq then o else NS_CSS_ATTR_PRESENT, Some v, s)
        end
  end.

(** What follows a scan to the closing [\]]. *)
Definition past_bracket (s : bytes) : bytes :=
  let '(_, s, term) := css_scan_until s ($"]") in
  match term with Some c => if c =c "]" then drop 1 s else s | None => s end.

Definition attr_token (r : reading) : reading :=
  let '(ns_any, uri, nm, r) := attr_name (css_skip_ws_comments (drop 1 (p r))) r in
  match nm with
  | [] => at_p (past_bracket (p r)) r
  | _ =>
      let bit := if negb ns_any && match uri with None => true | Some _ => false end
                 then Z.lor (ns_attr_name_bloom_bit nm) (ns_attr_name_bloom_bit (map lower nm)) else 0%Z in
      let '(o, v, s) := attr_value (css_skip_ws_comments (p r)) in
      let r := at_p (css_skip_ws_comments s) r in
      let '(ci, cs, r) :=
        match p r with
        | [] => (false, false, r)
        | c :: _ =>
            if c =c "]" then (false, false, r)
            else
              let '(flag, s) := read_css_ident (p r) in
              let late := if bool_decide (o = NS_CSS_ATTR_PRESENT) then error r else r in
              if g_ascii_strcasecmp0 flag ($"i") then (true, false, at_p s late)
              else if g_ascii_strcasecmp0 flag ($"s") then (false, true, at_p s late)
              else (false, false, error r)
        end in
      let r := at_p (css_skip_ws_comments (p r)) r in
      let r := if negb (p r =b []) && negb (is_at "]" (p r)) then error r else r in
      let r := at_p (past_bracket (p r)) r in
      found (add_spec class_point (on_cmp (c_attr (Build_ns_css_attr_pred nm uri o v ns_any ci cs bit)) r))
  end.

(** ** Pseudo-classes *)

(** [parse_selector_group_rel] with the depth, whether it is relative, and the
    flags. *)
Variable group : bytes -> nat -> bool -> sel_flags -> option (list ns_css_selector * sel_flags).

(** [css_skip_ws_comments], read an identifier, and again; [None] if that is not
    all. *)
Definition dir_argument (arg : bytes) : option bytes :=
  let s := css_skip_ws_comments arg in
  if head_is (fun c => is_ident_start c || (c =c slash)) s then
    let '(d, s) := read_css_ident s in
    if negb (d =b []) && (css_skip_ws_comments s =b []) then Some (g_ascii_strdown d) else None
  else None.

Definition plain_pseudo (k : ns_css_pseudo) : ns_css_pseudo_pred := Pseudo k 0 0 None None.

Definition parse_pseudo_keyword (name : bytes) (arg : option bytes) (f : sel_flags) :
    option (option ns_css_pseudo_pred * sel_flags) :=
  match assoc_name name keyword_table with
  | Some k => Some (Some (plain_pseudo k), f)
  | None =>
      if name_is name ($"heading") then
        match arg with
        | None => Some (Some (plain_pseudo NS_CSS_PC_HEADING), f)
        | Some a => Some (if heading_levels_ok a then Some (Pseudo NS_CSS_PC_HEADING 0 0 (Some a) None) else None, f)
        end
      else
        match arg with
        | None => Some (None, f)
        | Some arg =>
            match nth_kind name with
            | Some k =>
                let nth := if takes_of k then css_find_nth_of arg else None in
                match parse_anb (match nth with Some (b, _) => b | None => arg end) with
                | None => Some (None, f)
                | Some (a, b) =>
                    match nth with
                    | None => Some (Some (Pseudo k a b None None), f)
                    | Some (_, after) =>
                        '(g, f) ← group (css_skip_ws_comments after) 1 false f;
                        Some (match g with [] => None | _ => Some (Pseudo k a b None (Some g)) end, f)
                    end
                end
            | None =>
                if name_is name ($"lang") then
                  Some (match css_trim_dup_range arg with
                        | [] => None
                        | l => Some (Pseudo NS_CSS_PC_LANG 0 0 (Some l) None)
                        end, f)
                else if name_is name ($"dir") then
                  Some ((fun d => Pseudo NS_CSS_PC_DIR 0 0 (Some d) None) <$> dir_argument arg, f)
                else Some (None, f)
            end
        end
  end.

(** The argument after the name, and what is left. *)
Definition pseudo_argument (s : bytes) : option bytes * bytes :=
  if is_at "(" s then
    let '(a, s, term) := css_scan_until (drop 1 s) ($")") in
    (Some a, match term with Some c => if c =c ")" then drop 1 s else s | None => s end)
  else (None, s).

Definition pseudo_element_token (name : bytes) (r : reading) : reading :=
  match assoc_name name pseudo_element_table with
  | Some e => add_spec type_point (set_pe e r)
  | None =>
      let r := never r in
      if negb (is_at "-" name) && negb (css_pseudo_element_is_standard name) then error r else r
  end.

(** A group that is not empty is put in its place, with its greatest
    specificity. *)
Definition with_group (put : list ns_css_selector -> ns_css_simple -> ns_css_simple) (counts : bool)
    (empty : reading -> reading) (g : list ns_css_selector) (r : reading) : reading :=
  match g with
  | [] => empty r
  | _ => add_spec (if counts then selector_group_max_specificity g else (0, 0, 0)%Z) (on_cmp (put g) r)
  end.

Definition keyword_token (name : bytes) (arg : option bytes) (r : reading) : option reading :=
  '(q, f) ← parse_pseudo_keyword name arg (fl r);
  let r := on_fl (fun _ => f) r in
  Some (match q with
        | Some pc =>
            add_spec (spec_add class_point (selector_group_max_specificity (default [] (of_group pc))))
              (on_fl (note_kind (pc_kind pc)) (on_cmp (c_pseudo pc) r))
        | None => let r := never r in if css_pseudo_class_is_standard name then r else error r
        end).

(** A pseudo-class with its argument read. *)
Definition pseudo_class_token (depth : nat) (name : bytes) (arg : option bytes) (r : reading) : option reading :=
  match arg with
  | None => keyword_token name arg r
  | Some a =>
      if name_is name ($"has") then
        if 0 <? g_sel_has_depth (fl r) then Some (error (never r))
        else
          '(g, f) ← group a (S depth) true (set_has_depth (S (g_sel_has_depth (fl r))) (fl r));
          Some (with_group c_has true never g (on_fl (fun _ => set_has_depth (pred (g_sel_has_depth f)) f) r))
      else if name_is name ($"is") || name_is name ($"where") then
        '(g, f) ← group a (S depth) false (fl r);
        let f := if g_sel_strict e then f else set_error (g_sel_parse_error (fl r)) f in
        let f := set_ns_prefix (g_sel_ns_prefix (fl r)) f in
        Some (with_group c_any (negb (name_is name ($"where"))) never g (on_fl (fun _ => f) r))
      else if name_is name ($"not") then
        '(g, f) ← group a (S depth) false (fl r);
        Some (with_group c_none true id g (on_fl (fun _ => f) r))
      else keyword_token name arg r
  end.

Definition pseudo_token (depth : nat) (r : reading) : option reading :=
  let s := drop 1 (p r) in
  let is_element := is_at ":" s in
  let s := if is_element then drop 1 s else s in
  let '(name, s) := read_css_ident s in
  match name with
  | [] => Some (found (never (error (at_p s r))))
  | _ =>
      let '(arg, s) := pseudo_argument s in
      let r := at_p s r in
      if is_element || one_colon_element name then Some (found (pseudo_element_token name r))
      else found <$> pseudo_class_token depth name arg r
  end.

(** ** Compounds and selectors *)

Definition starts_name (c : ascii) : bool := is_ident_start c || (c =c slash).

(** One turn of the loop over the parts of a compound; [None] inside when the loop
    ends. *)
Definition compound_turn (depth : nat) (r : reading) : option (option reading) :=
  match p r with
  | [] => Some None
  | c :: _ =>
      if (c =c "*") || bar_at (p r) then Some (Some (star_token r))
      else if c =c "#" then Some (Some (id_token r))
      else if c =c "." then Some (Some (class_token r))
      else if starts_name c then Some (Some (type_token r))
      else if c =c ":" then Some <$> pseudo_token depth r
      else if c =c "[" then Some (Some (attr_token r))
      else Some None
  end.

Fixpoint compound_loop (n : nat) (depth : nat) (r : reading) : option reading :=
  match n with
  | O => None
  | S n =>
      t ← compound_turn depth r;
      match t with
      | None => Some r
      | Some r' => if length (p r') =? length (p r) then Some r' else compound_loop n depth r'
      end
  end.

(** The selector being read. *)
Record partial := {
  comps : list (ns_css_comb * ns_css_simple);
  pending : ns_css_comb;
  expect_compound : bool;
  leading_comb_used : bool;
  q : bytes;
  q_pe : ns_css_pseudo_element;
  q_sp : specificity;
  q_fl : sel_flags;
}.

Definition comb_of (c : ascii) : option ns_css_comb :=
  if c =c ">" then Some NS_CSS_COMB_CHILD else if c =c "+" then Some NS_CSS_COMB_ADJACENT
  else if c =c "~" then Some NS_CSS_COMB_SIBLING else None.

Definition on_combinator (relative : bool) (k : ns_css_comb) (s : bytes) (x : partial) : partial :=
  let first := comps x =b [] in
  let lead := relative && first && negb (leading_comb_used x) in
  Build_partial (comps x) k true (leading_comb_used x || lead) s (q_pe x) (q_sp x)
    (if negb lead && (expect_compound x || first) then set_error true (q_fl x) else q_fl x).

Fixpoint selector_loop (n : nat) (depth : nat) (relative : bool) (x : partial) : option partial :=
  match n with
  | O => None
  | S n =>
      let s := css_skip_ws_comments (q x) in
      let had_ws := length s <? length (q x) in
      let at_ s pending fl :=
        Build_partial (comps x) pending (expect_compound x) (leading_comb_used x) s (q_pe x) (q_sp x) fl in
      match s with
      | [] => Some (at_ s (pending x) (q_fl x))
      | c :: s' =>
          if (c =c ",") || (c =c "{") then Some (at_ s (pending x) (q_fl x))
          else
            match comb_of c with
            | Some k => selector_loop n depth relative (on_combinator relative k s' x)
            | None =>
                let pending := if had_ws && negb (expect_compound x) then NS_CSS_COMB_DESCENDANT else pending x in
                r ← compound_loop (S (length s)) depth
                      (Build_reading s (ns_css_simple_new e) (q_pe x) (q_sp x) false (q_fl x));
                if any r then
                  selector_loop n depth relative
                    (Build_partial (comps x ++ [(pending, cmp r)]) NS_CSS_COMB_NONE false (leading_comb_used x) (p r)
                       (pe r) (sp r) (fl r))
                else
                  Some (Build_partial (comps x) pending (expect_compound x) (leading_comb_used x) (p r) (pe r) (sp r) (fl r))
            end
      end
  end.

Definition parse_one_selector_rel (s : bytes) (depth : nat) (relative : bool) (f : sel_flags) :
    option (option ns_css_selector * bytes * sel_flags) :=
  x ← selector_loop (S (length s)) depth relative
        (Build_partial [] NS_CSS_COMB_NONE true false s NS_CSS_PE_NONE (0, 0, 0)%Z f);
  let f := if bool_decide (pending x = NS_CSS_COMB_NONE) then q_fl x else set_error true (q_fl x) in
  Some (match comps x with [] => None | _ => Some (Selector (comps x) (q_pe x) (q_sp x)) end, q x, f).

Fixpoint group_loop (n : nat) (depth : nat) (relative : bool) (s : bytes) (acc : list ns_css_selector) (f : sel_flags) :
    option (list ns_css_selector * sel_flags) :=
  match s with
  | [] => Some (acc, f)
  | _ =>
      match n with
      | O => None
      | S n =>
          match css_skip_ws_comments s with
          | [] => Some (acc, f)
          | s1 =>
              '(sub, s2, f) ← parse_one_selector_rel s1 depth relative f;
              let f := match sub with None => if g_sel_strict e then set_error true f else f | Some _ => f end in
              let acc := match sub with Some x => acc ++ [x] | None => acc end in
              let s2 := css_skip_ws_comments s2 in
              if is_at "," s2 then group_loop n depth relative (drop 1 s2) acc f
              else group_loop n depth relative (if length s2 =? length s then drop 1 s2 else s2) acc f
          end
      end
  end.
End Parser.

Definition NS_CSS_MAX_SELECTOR_NESTING : nat := 48.

Section Groups.
Context {G : GLib} {U : Unichar} (e : sel_env).

Fixpoint parse_selector_group_rel (fuel : nat) (s : bytes) (depth : nat) (relative : bool) (f : sel_flags) :
    option (list ns_css_selector * sel_flags) :=
  match fuel with
  | O => None
  | S fuel =>
      if NS_CSS_MAX_SELECTOR_NESTING <? depth then Some ([], f)
      else group_loop e (parse_selector_group_rel fuel) (S (length s)) depth relative s [] f
  end.

Definition parse_one_selector (fuel : nat) (s : bytes) (f : sel_flags) : option (option ns_css_selector * bytes * sel_flags) :=
  parse_one_selector_rel e (parse_selector_group_rel fuel) s 0 false f.

Fixpoint list_loop (n fuel : nat) (s : bytes) (acc : list ns_css_selector) (expect : bool) (f : sel_flags) :
    option (list ns_css_selector * bool * sel_flags) :=
  match drop_while is_ws s with
  | [] => Some (acc, expect, f)
  | (c :: s') as s1 =>
      match n with
      | O => None
      | S n =>
          if c =c "," then list_loop n fuel s' acc true (set_error true f)
          else
            '(sel, s2, f) ← parse_one_selector fuel s1 f;
            let acc := match sel with Some x => acc ++ [x] | None => acc end in
            let expect := match sel with Some _ => false | None => expect end in
            let s2 := drop_while is_ws s2 in
            if is_at "," s2 then list_loop n fuel (drop 1 s2) acc true f
            else if length s2 =? length s1 then Some (acc, expect, f)
            else list_loop n fuel s2 acc expect f
      end
  end.

Definition ns_css_parse_selector_list (fuel : nat) (text : option bytes) (f : sel_flags) :
    option (list ns_css_selector * sel_flags) :=
  match text with
  | None => Some ([], f)
  | Some s =>
      '(l, expect, f) ← list_loop (S (length s)) fuel s [] true f;
      Some (l, if expect : bool then set_error true f else f)
  end.

Definition no_errors (f : sel_flags) : sel_flags := set_ns_prefix false (set_error false f).

(** The selectors, whether the text is valid, and the flags left. *)
Definition ns_css_parse_selector_list_checked (fuel : nat) (text : option bytes) (f : sel_flags) :
    option (list ns_css_selector * bool * sel_flags) :=
  '(l, f) ← ns_css_parse_selector_list fuel text (no_errors f);
  Some (l, negb (g_sel_parse_error f) && negb (g_sel_ns_prefix f) && negb (length l =? 0), no_errors f).
End Groups.
