(* ===== verification/SelParse.v ===== *)
(** * The parser of selectors reads every text

    With one more unit of fuel than the text has bytes, the parser gives a result,
    and more fuel does not change it. *)

From S2P Require Import XmlRound.
From S2P Require Import Prelude CStr GLib CssSyntax Xml Element Selector.

(** ** Lengths *)

Section Lengths.
Context {G : GLib} {U : Unichar}.

Lemma hex_escape_le s : length (snd (css_append_hex_escape s)) <= length s.
Proof.
  unfold css_append_hex_escape. pose proof (take_upto_length 6 g_ascii_isxdigit s) as H.
  destruct (take_upto 6 g_ascii_isxdigit s) as [ds r]. cbn in *. destruct r as [|c r]; cbn [snd fst length] in *; [lia|].
  destruct (is_ws c); [|cbn [length]; lia]. destruct ((c =c cr) && _); rewrite ?length_drop; lia.
Qed.

Lemma ident_loop_le n : forall s, length (snd (ident_loop n s)) <= length s.
Proof.
  induction n as [|n IH]; intros [|c s]; cbn -[css_append_hex_escape]; try lia. destruct (c =c slash).
  - destruct s as [|d s]; [cbn; lia|]. destruct (line_end d); [cbn; lia|]. destruct (g_ascii_isxdigit d).
    + pose proof (hex_escape_le (d :: s)) as H. destruct (css_append_hex_escape (d :: s)) as [u r].
      specialize (IH r). destruct (ident_loop n r). cbn in *. lia.
    + specialize (IH s). destruct (ident_loop n s). cbn in *. lia.
  - destruct (is_ident c); [|cbn; lia]. specialize (IH s). destruct (ident_loop n s). cbn in *. lia.
Qed.
Lemma read_ident_le s : length (snd (read_css_ident s)) <= length s.
Proof. apply ident_loop_le. Qed.
Lemma read_ident_lt s c s' : s = c :: s' -> starts_name c = true -> length (snd (read_css_ident s)) < length s.
Proof.
  intros -> H. unfold read_css_ident. cbn -[css_append_hex_escape]. unfold starts_name in H.
  destruct (c =c slash) eqn:E.
  - destruct s' as [|d s]; [cbn; lia|]. destruct (line_end d); [cbn; lia|]. destruct (g_ascii_isxdigit d).
    + pose proof (hex_escape_le (d :: s)) as H'. destruct (css_append_hex_escape (d :: s)) as [u r].
      pose proof (ident_loop_le (length (d :: s)) r) as H2. destruct (ident_loop _ r). cbn in *. lia.
    + pose proof (ident_loop_le (length (d :: s)) s) as H2. destruct (ident_loop _ s). cbn in *. lia.
  - rewrite orb_false_r in H. unfold is_ident. rewrite H. cbn.
    pose proof (ident_loop_le (length s') s') as H2. destruct (ident_loop _ s'). cbn in *. lia.
Qed.

Lemma str_loop_le n qc : forall s, length (snd (str_loop n qc s)) <= length s.
Proof.
  induction n as [|n IH]; intros [|c s]; cbn -[css_append_hex_escape]; try lia. destruct (c =c qc); [cbn; lia|].
  destruct (line_end c); [cbn; lia|]. destruct s as [|d s].
  - specialize (IH []). destruct (str_loop n qc []). cbn in *. lia.
  - destruct (c =c slash).
    + destruct (line_end d); [specialize (IH s); cbn [length] in *; lia|]. destruct (g_ascii_isxdigit d).
      * pose proof (hex_escape_le (d :: s)) as H. destruct (css_append_hex_escape (d :: s)) as [u r].
        specialize (IH r). destruct (str_loop n qc r). cbn in *. lia.
      * specialize (IH s). destruct (str_loop n qc s). cbn in *. lia.
    + specialize (IH (d :: s)). destruct (str_loop n qc (d :: s)). cbn in *. lia.
Qed.
Lemma read_value_le s : length (snd (read_value s)) <= length s.
Proof.
  unfold read_value. destruct (head_is _ s); [|apply read_ident_le]. unfold read_css_string.
  destruct s as [|c s]; [done|]. destruct (quote_char c); [|done]. pose proof (str_loop_le (length s) c s). cbn. lia.
Qed.

Lemma skip_comment_le s : length (css_skip_comment s) <= length s.
Proof. unfold css_skip_comment. destruct (opens_comment s); [|done]. rewrite length_drop. lia. Qed.
Lemma skip_loop_le n : forall s, length (skip_loop n s) <= length s.
Proof.
  induction n as [|n IH]; intros s; cbn; pose proof (drop_while_length is_ws s); [done|].
  destruct (opens_comment _); [|done]. etrans; [apply IH|]. etrans; [apply skip_comment_le|done].
Qed.
Lemma skip_ws_le s : length (css_skip_ws_comments s) <= length s.
Proof. apply skip_loop_le. Qed.

Lemma scan_until_len s t : let '(a, r, _) := css_scan_until s t in length a + length r = length s.
Proof.
  unfold css_scan_until. destruct (ns_css_syntax_scan s t) as [n x]. rewrite length_take, length_drop. lia.
Qed.
Lemma past_bracket_le s : length (past_bracket s) <= length s.
Proof.
  unfold past_bracket. pose proof (scan_until_len s ($"]")) as H. destruct (css_scan_until s _) as [[a r] [c|]]; [|lia].
  destruct (c =c "]"); rewrite ?length_drop; lia.
Qed.
Lemma argument_len s : let '(a, r) := pseudo_argument s in
  length r <= length s /\ forall x, a = Some x -> length x + length r < length s.
Proof.
  unfold pseudo_argument. destruct (is_at "(" s) eqn:E; [|done]. destruct s as [|c s]; [done|]. cbn -[css_scan_until drop]. change (drop 1 (c :: s)) with s.
  pose proof (scan_until_len s ($")")) as H. destruct (css_scan_until s _) as [[a r] t].
  assert (length (match t with Some c0 => if c0 =c ")" then drop 1 r else r | None => r end) <= length r) as L.
  { destruct t as [d|]; [|done]. destruct (d =c ")"); rewrite ?length_drop; lia. }
  split; [lia|]. intros x [= <-]. lia.
Qed.
End Lengths.

Tactic Notation "ident_le" constr(s) ident(H) ident(t) ident(r) :=
  pose proof (read_ident_le s) as H; destruct (read_css_ident s) as [t r]; cbn [snd fst] in H.

(** ** Each part reads on *)

Section Total.
Context {G : GLib} {U : Unichar} (e : sel_env).

Definition left_of (r : reading) : nat := length (p r).

Lemma drop1_lt (s : bytes) : s <> [] -> length (drop 1 s) < length s.
Proof. intros H. rewrite length_drop. destruct s; [done|]. cbn [length]. lia. Qed.
Lemma is_at_nonempty c s : is_at c s = true -> s <> [].
Proof. by destruct s. Qed.
Lemma bar_nonempty s : bar_at s = true -> s <> [].
Proof. unfold bar_at. intros [H _]%andb_true_iff. by eapply is_at_nonempty. Qed.

Lemma star_lt r : p r <> [] -> is_at "*" (p r) || bar_at (p r) = true -> left_of (star_token r) < left_of r.
Proof.
  intros N H. unfold star_token, left_of. set (s := if is_at "*" (p r) then drop 1 (p r) else p r).
  assert (length s <= length (p r) /\ (bar_at s = false -> length s < length (p r))) as [L1 L2].
  { unfold s. destruct (is_at "*" (p r)); [pose proof (drop1_lt _ N); split; intros; lia|]. split; [done|]. intros E.
    cbn in H. congruence. }
  destruct (bar_at s) eqn:B.
  - pose proof (drop1_lt s (bar_nonempty _ B)) as L3. cbn [p at_p on_cmp].
    destruct (is_at "*" (drop 1 s)) eqn:E; [cbn [p found at_p on_cmp]; rewrite !length_drop in *; lia|].
    ident_le (drop 1 s) L t s1. rewrite length_drop in *. destruct t as [|? ?]; [cbn; lia|]. cbn [cmp at_p on_cmp s_type c_ns]. destruct (s_type _); cbn; lia.
  - cbn [cmp at_p]. destruct (s_type _); cbn; auto.
Qed.
Lemma id_lt r : p r <> [] -> left_of (id_token r) < left_of r.
Proof.
  intros N. unfold id_token, left_of. pose proof (drop1_lt _ N). ident_le (drop 1 (p r)) L t s. destruct t; cbn; lia.
Qed.
Lemma class_lt r : p r <> [] -> left_of (class_token r) < left_of r.
Proof.
  intros N. unfold class_token, left_of. pose proof (drop1_lt _ N). ident_le (drop 1 (p r)) L t s.
  destruct (negb _ && _); cbn; lia.
Qed.
Lemma type_lt r c s : p r = c :: s -> starts_name c = true -> left_of (type_token e r) < left_of r.
Proof.
  intros E H. unfold type_token, left_of. pose proof (read_ident_lt _ _ _ E H) as L. destruct (read_css_ident (p r)) as [t s1].
  cbn [snd] in L. destruct (bar_at s1) eqn:B; [|cbn [cmp at_p]; destruct (s_type _); cbn; lia].
  set (r' := match g_sel_namespaces e !! t with None => _ | Some uri => _ end). clearbody r'.
  destruct (is_at "*" (drop 1 s1)); [cbn; rewrite !length_drop; lia|].
  ident_le (drop 1 s1) L0 t' s'. rewrite length_drop in L0. destruct t'; cbn; lia.
Qed.

Lemma attr_name_le s r : let '(_, _, _, r') := attr_name e s r in length (p r') <= length s.
Proof.
  unfold attr_name. destruct (is_at "*" s && _).
  { ident_le (drop 2 s) L t s'. rewrite length_drop in L. cbn. lia. }
  destruct (bar_at s). { ident_le (drop 1 s) L t s'. rewrite length_drop in L. cbn. lia. }
  ident_le s L t s'. destruct (negb _ && _); [|cbn; lia].
  destruct (g_sel_namespaces e !! t); ident_le (drop 1 s') L0 t' s''; rewrite length_drop in L0; cbn; lia.
Qed.
Lemma attr_value_le s : length (snd (attr_value s)) <= length s.
Proof.
  unfold attr_value. destruct s as [|c s]; [done|]. destruct (c =c "=").
  { pose proof (read_value_le (css_skip_ws_comments s)) as H. pose proof (skip_ws_le s). destruct (read_value _).
    cbn in *. lia. }
  destruct (attr_operator c); [|done]. set (s1 := if is_at "=" s then drop 1 s else s).
  assert (length s1 <= length s) by (unfold s1; destruct (is_at "=" s); rewrite ?length_drop; lia).
  pose proof (read_value_le (css_skip_ws_comments s1)) as H1. pose proof (skip_ws_le s1). destruct (read_value _).
  cbn in *. lia.
Qed.
Lemma attr_lt r : p r <> [] -> left_of (attr_token e r) < left_of r.
Proof.
  intros N. unfold attr_token, left_of. pose proof (drop1_lt _ N) as L. pose proof (skip_ws_le (drop 1 (p r))) as L1.
  pose proof (attr_name_le (css_skip_ws_comments (drop 1 (p r))) r) as L2.
  destruct (attr_name e _ r) as [[[ns_any uri] nm] r1]. destruct nm as [|x nm].
  { pose proof (past_bracket_le (p r1)). cbn. lia. }
  pose proof (skip_ws_le (p r1)) as L3. pose proof (attr_value_le (css_skip_ws_comments (p r1))) as L4.
  destruct (attr_value _) as [[o v] s]. cbn [snd] in L4. set (r2 := at_p (css_skip_ws_comments s) r1).
  assert (length (p r2) <= length s) as L5 by apply skip_ws_le. clearbody r2.
  set (fl3 := match p r2 with [] => _ | _ :: _ => _ end).
  assert (length (p (snd fl3)) <= length (p r2)) as L6.
  { unfold fl3. destruct (p r2) as [|c s'] eqn:E; [cbn; by rewrite E|]. destruct (c =c "]"); [cbn; by rewrite E|].
    ident_le (c :: s') L6 t s2. destruct (g_ascii_strcasecmp0 t _); [destruct (bool_decide _); cbn in *; lia|].
    destruct (g_ascii_strcasecmp0 t _); [destruct (bool_decide _); cbn in *; lia|]. cbn. by rewrite E. }
  destruct fl3 as [[ci cs] r3]. cbn [snd] in L6. pose proof (skip_ws_le (p r3)) as L7. cbn -[past_bracket css_skip_ws_comments bool_decide].
  pose proof (past_bracket_le (css_skip_ws_comments (p r3))).
  destruct (negb _ && _); cbn -[past_bracket css_skip_ws_comments]; lia.
Qed.
End Total.

(** ** Groups *)

(** Two computations have a result, and the same. *)
Definition agree {A} (x y : option A) : Prop := exists v, x = Some v /\ y = Some v.

Lemma agree_ret {A} (v : A) : agree (Some v) (Some v).
Proof. by exists v. Qed.
Lemma agree_bind {A B} (x y : option A) (f g : A -> option B) :
  agree x y -> (forall v, x = Some v -> agree (f v) (g v)) -> agree (x ≫= f) (y ≫= g).
Proof. intros (v & -> & ->) H. cbn. by apply H. Qed.
Lemma agree_fmap {A B} (x y : option A) (f : A -> B) : agree x y -> agree (f <$> x) (f <$> y).
Proof. intros (v & -> & ->). apply agree_ret. Qed.
#[local] Hint Resolve agree_ret : core.

Lemma nth_of_le `{GLib} n : forall prev qt pa br s b a, nth_of_loop n prev qt pa br s = Some (b, a) -> length a <= length s.
Proof.
  induction n as [|n IH]; intros prev qt pa br s b a; [done|]. cbn -[css_skip_comment comment_len drop].
  destruct s as [|c s]; [done|].
  assert (forall k prev qt pa br, ('(b, a) ← nth_of_loop n prev qt pa br (drop k (c :: s)); Some (take k (c :: s) ++ b, a)) = Some (b, a) ->
    length a <= length (c :: s)) as Hp.
  { intros k pv qt' pa' br'. destruct (nth_of_loop n pv qt' pa' br' _) as [[b' a']|] eqn:E; cbn -[drop]; [|done]. intros [= _ <-].
    apply IH in E. rewrite length_drop in E.
    cbn [length] in *; lia. }
  destruct qt as [qc|]; [destruct ((c =c slash) && _); apply Hp|].
  destruct (opens_comment (c :: s)); [apply Hp|]. destruct ((c =c slash) && _); [apply Hp|].
  destruct (quote_char c); [apply Hp|]. match goal with |- (if ?x then _ else _) = _ -> _ => destruct x end; [|apply Hp].
  intros [= _ <-]. rewrite length_drop. cbn [length]. lia.
Qed.

Section Agree.
Context {G : GLib} {U : Unichar} (e : sel_env).
Abbreviation group_fn := (bytes -> nat -> bool -> sel_flags -> option (list ns_css_selector * sel_flags)).

(** Two parsers of groups agree on the texts shorter than [B]. *)
Definition agree_below (B : nat) (g1 g2 : group_fn) : Prop :=
  forall s d rel f, length s < B -> agree (g1 s d rel f) (g2 s d rel f).

(** Two steps agree, and leave less than [B] bytes. *)
Definition reads_on (B : nat) (x y : option reading) : Prop :=
  exists r, x = Some r /\ y = Some r /\ left_of r < B.

Context (g1 g2 : group_fn).

Lemma keyword_agree B name arg f : agree_below B g1 g2 -> (forall a, arg = Some a -> length a < B) ->
  agree (parse_pseudo_keyword g1 name arg f) (parse_pseudo_keyword g2 name arg f).
Proof.
  intros Hg Ha. unfold parse_pseudo_keyword. destruct (assoc_name name keyword_table); [done|].
  destruct (name_is name _); [destruct arg; [destruct (heading_levels_ok _)|]; done|].
  destruct arg as [arg|]; [|done]. specialize (Ha arg eq_refl).
  destruct (nth_kind name) as [k|]; [|destruct (name_is name _); [done|destruct (name_is name _); done]].
  set (nth := if takes_of k then css_find_nth_of arg else None).
  assert (forall b a, nth = Some (b, a) -> length a <= length arg) as Hn.
  { unfold nth. destruct (takes_of k); [|done]. intros b a. apply nth_of_le. }
  destruct (parse_anb _) as [[a b]|]; [|done]. destruct nth as [[b' after]|]; [|done].
  apply agree_bind; [|intros [[|] ?] _; done]. apply Hg. specialize (Hn _ _ eq_refl).
  pose proof (skip_ws_le after). lia.
Qed.

Lemma keyword_token_reads B name arg r : agree_below B g1 g2 -> (forall a, arg = Some a -> length a < B) -> left_of r < B ->
  reads_on B (keyword_token g1 name arg r) (keyword_token g2 name arg r).
Proof.
  intros Hg Ha L. unfold keyword_token. destruct (keyword_agree B name arg (fl r) Hg Ha) as ([q f] & -> & ->). cbn.
  eexists. split; [done|]. split; [done|]. unfold left_of in *. destruct q as [pc|]; [exact L|].
  destruct (css_pseudo_class_is_standard name); exact L.
Qed.

Lemma with_group_left put counts empty g r : (forall r, left_of (empty r) = left_of r) ->
  left_of (with_group put counts empty g r) = left_of r.
Proof. intros H. by destruct g. Qed.

Lemma pseudo_class_reads B depth name arg r : agree_below B g1 g2 -> (forall a, arg = Some a -> length a < B) -> left_of r < B ->
  reads_on B (pseudo_class_token e g1 depth name arg r) (pseudo_class_token e g2 depth name arg r).
Proof.
  intros Hg Ha L. unfold pseudo_class_token. destruct arg as [a|]; [|by apply keyword_token_reads].
  specialize (Ha a eq_refl) as La.
  destruct (name_is name _).
  { destruct (0 <? _); [by eexists|].
    destruct (Hg a (S depth) true (set_has_depth (S (g_sel_has_depth (fl r))) (fl r)) La) as ([g f] & -> & ->). cbn.
    eexists. split; [done|]. split; [done|]. by rewrite with_group_left. }
  destruct (name_is name _ || _).
  { destruct (Hg a (S depth) false (fl r) La) as ([g f] & -> & ->). cbn.
    eexists. split; [done|]. split; [done|]. by rewrite with_group_left. }
  destruct (name_is name _); [|by apply keyword_token_reads].
  destruct (Hg a (S depth) false (fl r) La) as ([g f] & -> & ->). cbn.
  eexists. split; [done|]. split; [done|]. by rewrite with_group_left.
Qed.

Lemma pseudo_reads depth r : agree_below (left_of r) g1 g2 -> p r <> [] ->
  reads_on (left_of r) (pseudo_token e g1 depth r) (pseudo_token e g2 depth r).
Proof.
  intros Hg N. unfold pseudo_token. pose proof (drop1_lt _ N) as L1. set (s := drop 1 (p r)) in *.
  set (s' := if is_at ":" s then drop 1 s else s).
  assert (length s' <= length s) as L2 by (unfold s'; destruct (is_at ":" s); rewrite ?length_drop; lia).
  clearbody s'. ident_le s' L3 nm s2. destruct nm as [|x nm].
  { eexists. split; [done|]. split; [done|]. unfold left_of in *. cbn. lia. }
  pose proof (argument_len s2) as LA. destruct (pseudo_argument s2) as [arg s3]. destruct LA as [LA1 LA2].
  destruct (_ || one_colon_element _).
  { eexists. split; [done|]. split; [done|]. unfold pseudo_element_token. destruct (assoc_name _ _);
      [|destruct (negb _ && _)]; unfold left_of in *; cbn; lia. }
  destruct (pseudo_class_reads (left_of r) depth (x :: nm) arg (at_p s3 r) Hg) as (r' & -> & -> & L4).
  - intros a ->. specialize (LA2 a eq_refl). unfold left_of in *. lia.
  - unfold left_of in *. cbn. lia.
  - cbn. eexists. split; [done|]. split; [done|]. exact L4.
Qed.

Lemma turn_agree depth r : agree_below (left_of r) g1 g2 ->
  exists t, compound_turn e g1 depth r = Some t /\ compound_turn e g2 depth r = Some t /\
    forall r', t = Some r' -> left_of r' < left_of r.
Proof.
  intros Hg. unfold compound_turn. destruct (p r) as [|c s] eqn:E; [by exists None|].
  assert (p r <> []) as N by (by rewrite E).
  destruct ((c =c "*") || bar_at (c :: s)) eqn:E1.
  { eexists. split; [done|]. split; [done|]. intros r' [= <-]. apply star_lt; [done|]. by rewrite E. }
  destruct (c =c "#"). { eexists. split; [done|]. split; [done|]. intros r' [= <-]. by apply id_lt. }
  destruct (c =c "."). { eexists. split; [done|]. split; [done|]. intros r' [= <-]. by apply class_lt. }
  destruct (starts_name c) eqn:E2.
  { eexists. split; [done|]. split; [done|]. intros r' [= <-]. by eapply type_lt. }
  destruct (c =c ":").
  { destruct (pseudo_reads depth r Hg N) as (r' & -> & -> & L). eexists. split; [done|]. split; [done|]. by intros ? [= <-]. }
  destruct (c =c "["); [|by exists None].
  eexists. split; [done|]. split; [done|]. intros r' [= <-]. by apply attr_lt.
Qed.

(** The loop over a compound ends, and reads on if it found a part. *)
Lemma compound_agree n : forall depth r, agree_below (left_of r) g1 g2 -> left_of r < n ->
  exists r', compound_loop e g1 n depth r = Some r' /\ compound_loop e g2 n depth r = Some r' /\
    left_of r' <= left_of r /\ (any r' = any r \/ left_of r' < left_of r).
Proof.
  induction n as [|n IH]; intros depth r Hg L; [lia|]. cbn.
  destruct (turn_agree depth r Hg) as (t & -> & -> & Ht). cbn. destruct t as [r1|].
  2:{ exists r. split; [done|]. split; [done|]. split; [done|by left]. }
  specialize (Ht r1 eq_refl). unfold left_of in *. destruct (Nat.eqb_spec (length (p r1)) (length (p r))); [lia|].
  destruct (IH depth r1) as (r' & -> & -> & L' & _); [intros x d rel f Hx; apply Hg; lia|lia|].
  exists r'. split; [done|]. split; [done|]. split; [lia|right; lia].
Qed.
End Agree.

(** ** Selectors, groups and lists *)

Section Lists.
Context {G : GLib} {U : Unichar} (e : sel_env).
Abbreviation group_fn := (bytes -> nat -> bool -> sel_flags -> option (list ns_css_selector * sel_flags)).

Lemma selector_agree (g1 g2 : group_fn) n : forall depth rel x, agree_below (length (q x)) g1 g2 -> length (q x) < n ->
  exists y, selector_loop e g1 n depth rel x = Some y /\ selector_loop e g2 n depth rel x = Some y /\ length (q y) <= length (q x).
Proof.
  induction n as [|n IH]; intros depth rel x Hg L; [lia|]. cbn -[compound_loop].
  pose proof (skip_ws_le (q x)) as L1. destruct (css_skip_ws_comments (q x)) as [|c s]; [by eexists|].
  destruct ((c =c ",") || (c =c "{")); [by eexists|]. cbn [length] in L1. destruct (comb_of c) as [k|].
  { destruct (IH depth rel (on_combinator rel k s x)) as (y & -> & -> & L2); cbn [q on_combinator] in *.
    - intros t d r f Ht. apply Hg. lia.
    - lia.
    - eexists. split; [done|]. split; [done|]. lia. }
  set (r := Build_reading (c :: s) _ _ _ _ _).
  destruct (compound_agree e g1 g2 (S (length (c :: s))) depth r) as (r' & -> & -> & L2 & L3).
  { intros t d r' f Ht. apply Hg. unfold left_of, r in Ht. cbn in Ht. lia. }
  { unfold left_of, r. cbn. lia. }
  cbn [mbind option_bind]. unfold left_of, r in *. cbn [p any length] in *. destruct (any r').
  - destruct L3 as [?|L3]; [done|].
    destruct (IH depth rel (Build_partial (comps x ++ [(if (S (length s) <? length (q x)) && negb (expect_compound x)
      then NS_CSS_COMB_DESCENDANT else pending x, cmp r')]) NS_CSS_COMB_NONE false (leading_comb_used x) (p r') (pe r') (sp r') (fl r')))
      as (y & E1 & E2 & L4); cbn [q] in *.
    + intros t d rl f Ht. apply Hg. lia.
    + lia.
    + exists y. split; [exact E1|]. split; [exact E2|]. lia.
  - eexists. split; [done|]. split; [done|]. cbn [q]. lia.
Qed.

Lemma parse_one_agree (g1 g2 : group_fn) s depth rel f : agree_below (length s) g1 g2 ->
  exists sel s' f', parse_one_selector_rel e g1 s depth rel f = Some (sel, s', f') /\
    parse_one_selector_rel e g2 s depth rel f = Some (sel, s', f') /\ length s' <= length s.
Proof.
  intros Hg. unfold parse_one_selector_rel.
  destruct (selector_agree g1 g2 (S (length s)) depth rel
    (Build_partial [] NS_CSS_COMB_NONE true false s NS_CSS_PE_NONE (0, 0, 0)%Z f)) as (y & -> & -> & L); [done|cbn; lia|].
  cbn [mbind option_bind]. do 3 eexists. split; [done|]. split; [done|]. done.
Qed.

Lemma group_loop_agree (g1 g2 : group_fn) n : forall depth rel s acc f, agree_below (length s) g1 g2 -> length s < n ->
  agree (group_loop e g1 n depth rel s acc f) (group_loop e g2 n depth rel s acc f).
Proof.
  induction n as [|n IH]; intros depth rel s acc f Hg L; [lia|]. cbn [group_loop]. destruct s as [|c0 s0] eqn:Es; [apply agree_ret|].
  rewrite <- Es in *. assert (s <> []) as N by (by rewrite Es). clear Es.
  pose proof (skip_ws_le s) as L1. destruct (css_skip_ws_comments s) as [|c s1]; [apply agree_ret|].
  destruct (parse_one_agree g1 g2 (c :: s1) depth rel f) as (sel & s2 & f' & E2 & E3 & L2).
  { intros t d r fl Ht. apply Hg. lia. }
  rewrite E2, E3. cbn [mbind option_bind]. pose proof (skip_ws_le s2) as L3. set (s3 := css_skip_ws_comments s2) in *.
  assert (s <> [] -> length (drop 1 s3) < length s) as L4.
  { intros _. rewrite length_drop. destruct s; [done|]. cbn [length] in *. lia. }
  specialize (L4 N). destruct (is_at "," s3).
  - apply IH; [|lia]. intros t d r fl Ht. apply Hg. lia.
  - destruct (Nat.eqb_spec (length s3) (length s)).
    + apply IH; [|lia]. intros t d r fl Ht. apply Hg. lia.
    + apply IH; [|lia]. intros t d r fl Ht. apply Hg. lia.
Qed.

(** One more than the length of the text is enough for a group. *)
Lemma group_agree n m : agree_below (Nat.min n m) (parse_selector_group_rel e n) (parse_selector_group_rel e m).
Proof.
  revert m. induction n as [|n IH]; intros m s d rel f L; [lia|]. destruct m as [|m]; [lia|]. cbn [parse_selector_group_rel].
  destruct (_ <? d); [apply agree_ret|]. apply group_loop_agree; [|lia].
  intros t d' r' f' Ht. apply IH. lia.
Qed.

Lemma list_agree n a b : forall s acc expect f, length s < n -> length s <= Nat.min a b ->
  agree (list_loop e n a s acc expect f) (list_loop e n b s acc expect f).
Proof.
  induction n as [|n IH]; intros s acc expect f L B; [lia|]. cbn [list_loop]. pose proof (drop_while_length is_ws s) as L1.
  destruct (drop_while is_ws s) as [|c s'] eqn:E; [apply agree_ret|]. cbn [length] in L1.
  destruct (c =c ","); [apply IH; lia|]. unfold parse_one_selector.
  destruct (parse_one_agree (parse_selector_group_rel e a) (parse_selector_group_rel e b) (c :: s') 0 false f)
    as (sel & s2 & f' & E2 & E3 & L2).
  { intros t d r fl Ht. apply group_agree. cbn [length] in Ht. lia. }
  rewrite E2, E3. cbn [mbind option_bind]. pose proof (drop_while_length is_ws s2) as L3. cbn [length] in L2.
  set (s3 := drop_while is_ws s2) in *. destruct (is_at "," s3) eqn:Ec.
  - pose proof (drop1_lt _ (is_at_nonempty _ _ Ec)) as L4. apply IH; lia.
  - cbn [length]. destruct (Nat.eqb_spec (length s3) (S (length s'))); [apply agree_ret|]. apply IH; lia.
Qed.
End Lists.

(** Fuel enough for a text. *)
Definition enough (s : bytes) (n : nat) : Prop := length s <= n.

(** C33. The parser of selector lists ends on every text: it has a result, and that
    result does not depend on the fuel, once there is as much as the text is long. *)
Theorem selector_list_parsed `{GLib} `{Unichar} e s f n m : enough s n -> enough s m ->
  exists l ok f', ns_css_parse_selector_list_checked e n (Some s) f = Some (l, ok, f') /\
    ns_css_parse_selector_list_checked e m (Some s) f = Some (l, ok, f').
Proof.
  intros Hn Hm. unfold ns_css_parse_selector_list_checked, ns_css_parse_selector_list.
  destruct (list_agree e (S (length s)) n m s [] true (no_errors f)) as ([[l ex] f'] & -> & ->); [lia|unfold enough in *; lia|].
  cbn [mbind option_bind]. eauto.
Qed.

(** ** The parser at work *)

#[local] Existing Instance unichar_ref.
Definition no_env : sel_env := Build_sel_env false ∅ None.
Definition no_flags : sel_flags := Build_sel_flags false false false false 0.

(** How many selectors a text has, and whether it is taken as valid. *)
Definition parsed (text : bytes) : option (nat * bool) :=
  '(l, ok, _) ← ns_css_parse_selector_list_checked no_env (length text) (Some text) no_flags; Some (length l, ok).

Lemma selector_list_parsed_witness : exists l ok f',
  ns_css_parse_selector_list_checked no_env 30 (Some ($"ul > li:is(.a, #b), a[href^=x]")) no_flags = Some (l, ok, f') /\
  ns_css_parse_selector_list_checked no_env 99 (Some ($"ul > li:is(.a, #b), a[href^=x]")) no_flags = Some (l, ok, f').
Proof. apply selector_list_parsed; vm_compute; lia. Defined.

(** Texts that are no selectors are taken as valid: an attribute test with no name
    tests nothing, what follows a selector is dropped, and an empty [:not()] matches
    everything. *)
Theorem malformed_selectors_accepted :
  map parsed [$"div[]"; $"div)"; $"a!b"; $":not()"; $"div[foo^bar]"; $"div >"; $"div,"] =
  [Some (1, true); Some (1, true); Some (1, true); Some (1, true); Some (1, true); Some (1, false); Some (1, false)].
Proof. vm_compute. reflexivity. Qed.
