(* ===== verification/NodeState.v ===== *)
(** * What the tests of pseudo-classes ask of an element ([src/dom.c], [src/css.c])

    The attributes of a node of the heap, the walks over its relatives, and the
    state of controls. A test is [None] when it follows a pointer to a node that is
    not there. The C library's [NULL] for an attribute that is not there is
    [None] inside. *)

From S2P Require Import Prelude CStr GLib CssSyntax Xml Element DomStore Dom Selector.

(** ** Flags ([src/dom.h]) *)

Definition NS_NODE_SVG_NS_BIT : Z := bit 7.
Definition NS_NODE_FOREIGN_NS_BIT : Z := bit 9.
Definition NS_NODE_XML_DOC_BIT : Z := bit 14.

(** ** Booleans that may not be there *)

Definition andM (x y : option bool) : option bool := b ← x; if (b : bool) then y else Some false.
Definition orM (x y : option bool) : option bool := b ← x; if (b : bool) then Some true else y.
Definition notM (x : option bool) : option bool := negb <$> x.
Declare Scope test_scope.
Infix "&&&" := andM (at level 40, left associativity) : test_scope.
Infix "|||" := orM (at level 50, left associativity) : test_scope.
Open Scope test_scope.

(** ** Walks *)

(** [for (c = ...; c; c = step(c)) if (...) return ...;] *)
Fixpoint findm_loop (step : links -> option loc) (f : loc -> heap -> option (option loc)) (fuel : nat) (c : option loc) (h : heap) :
    option (option loc) :=
  match c with
  | None => Some None
  | Some n =>
      match fuel with
      | O => None
      | S fuel =>
          r ← f n h;
          match r with
          | Some _ => Some r
          | None => l ← at_ n h; findm_loop step f fuel (step l) h
          end
      end
  end.
Definition findm_from step f (c : option loc) (h : heap) : option (option loc) := findm_loop step f (S (size h)) c h.
Definition find_from step (p : loc -> heap -> option bool) (c : option loc) (h : heap) : option (option loc) :=
  findm_from step (fun n h => b ← p n h; Some (if b : bool then Some n else None)) c h.

(** How many nodes of a walk satisfy [p]. *)
Fixpoint tally_loop (step : links -> option loc) (p : loc -> heap -> option bool) (fuel : nat) (c : option loc) (h : heap) : option nat :=
  match c with
  | None => Some 0
  | Some n =>
      match fuel with
      | O => None
      | S fuel => b ← p n h; l ← at_ n h; k ← tally_loop step p fuel (step l) h; Some (if b : bool then S k else k)
      end
  end.
Definition tally_from step p (c : option loc) (h : heap) : option nat := tally_loop step p (S (size h)) c h.

Definition is_elem (n : loc) (h : heap) : option bool := has_kind NS_NODE_ELEMENT n h.
(** A test of a node behind a pointer, false for [NULL]. *)
Definition on_node (p : loc -> heap -> option bool) (c : option loc) (h : heap) : option bool :=
  match c with None => Some false | Some n => p n h end.

(** ** Attributes and names *)

Definition node_name (n : loc) (h : heap) : option (option bytes) := (fun d => n_name (data d)) <$> h !! n.
Definition node_text (n : loc) (h : heap) : option (option bytes) := (fun d => n_text (data d)) <$> h !! n.

Section State.
Context `{GLib}.

(** [ns_element_get_attr]. *)
Definition get_attr (nm : bytes) (n : loc) (h : heap) : option (option bytes) :=
  (fun d => if bool_decide (n_kind (data d) = NS_NODE_ELEMENT)
            then ns_element_get_attr (has_flag (n_flags (data d)) NS_NODE_SVG_NS_BIT) nm (n_attrs (data d)) else None) <$> h !! n.
Definition has_attr (nm : bytes) (n : loc) (h : heap) : option bool :=
  (fun v => match v with Some _ => true | None => false end) <$> get_attr nm n h.
(** [g_ascii_strcasecmp(v, k) == 0] for one of [ks]. *)
Definition one_of_ci (v : bytes) (ks : list bytes) : bool := existsb (g_ascii_strcasecmp0 v) ks.

(** ** Walks over elements *)

Definition prev_element (n : loc) (h : heap) : option (option loc) := l ← at_ n h; find_from prev_sibling is_elem (prev_sibling l) h.
Definition next_element_sibling (n : loc) (h : heap) : option (option loc) := l ← at_ n h; find_from next_sibling is_elem (next_sibling l) h.
(** [for (p = n; p; p = p->parent) if (p == el) ...]. *)
Definition ancestor_or_self_is (el : loc) (from : option loc) (h : heap) : option bool :=
  any_from parent (fun p _ => Some (bool_decide (p = el))) from h.

(** ** Links and headings *)

Definition ns_el_is_link (n : loc) (h : heap) : option bool :=
  has_attr ($"href") n h &&& (is_element_named n ($"a") h ||| is_element_named n ($"area") h).

Definition ns_el_is_empty (n : loc) (h : heap) : option bool :=
  l ← at_ n h;
  notM (any_from next_sibling (fun c h =>
    k ← node_kind c h; t ← node_text c h;
    Some (match k, t with
          | NS_NODE_ELEMENT, _ => true
          | NS_NODE_TEXT, Some (_ :: _) => true
          | _, _ => false
          end)) (first_child l) h).

(** ** Controls *)

Definition name_in (names : list bytes) (n : loc) (h : heap) : option bool :=
  e ← is_elem n h; nm ← node_name n h;
  Some (e && match nm with Some x => existsb (strcmp0 x) names | None => false end).

Definition ns_element_supports_disabled (n : loc) (h : heap) : option bool :=
  name_in [$"button"; $"fieldset"; $"input"; $"optgroup"; $"option"; $"select"; $"textarea"] n h.

Definition ns_fieldset_first_legend (n : loc) (h : heap) : option (option loc) :=
  l ← at_ n h; find_from next_sibling (fun c h => is_element_named c ($"legend") h) (first_child l) h.

Definition disabled_by (el p : loc) (h : heap) : option bool :=
  (is_element_named el ($"option") h &&& is_element_named p ($"optgroup") h &&& has_attr ($"disabled") p h) |||
  (is_element_named p ($"fieldset") h &&& has_attr ($"disabled") p h &&&
   (l ← ns_fieldset_first_legend p h;
    match l with Some l => notM (ns_node_contains l el h) | None => Some true end)).

Definition ns_element_effectively_disabled (el : loc) (h : heap) : option bool :=
  ns_element_supports_disabled el h &&&
  (has_attr ($"disabled") el h ||| (l ← at_ el h; any_from parent (disabled_by el) (parent l) h)).

Definition ns_form_control_supports_required (n : loc) (h : heap) : option bool :=
  name_in [$"textarea"; $"select"] n h |||
  (is_element_named n ($"input") h &&&
   (t ← get_attr ($"type") n h;
    Some (match t with
          | None | Some [] => true
          | Some t => negb (one_of_ci t [$"hidden"; $"range"; $"color"; $"submit"; $"image"; $"reset"; $"button"])
          end))).

Definition ns_input_type_supports_readonly (t : option bytes) : bool :=
  match t with
  | None | Some [] => true
  | Some t => one_of_ci t [$"text"; $"search"; $"url"; $"tel"; $"email"; $"password"; $"date"; $"month"; $"week";
                           $"time"; $"datetime-local"; $"number"]
  end.

Definition ns_input_is_checked (n : loc) (h : heap) : option bool :=
  d ← get_attr ($"data-nd-checked") n h;
  match d with Some v => Some (strcmp0 v ($"1")) | None => has_attr ($"checked") n h end.

(** The first option below a [select] that [p] picks, in groups too; a group that
    [skip] is left out. *)
Definition option_where (p skip : loc -> heap -> option bool) (sel : loc) (h : heap) : option (option loc) :=
  l ← at_ sel h;
  findm_from next_sibling (fun c h =>
    g ← is_element_named c ($"optgroup") h;
    if (g : bool) then
      s ← skip c h;
      if (s : bool) then Some None
      else lc ← at_ c h; find_from next_sibling (fun cc h => is_element_named cc ($"option") h &&& p cc h) (first_child lc) h
    else b ← is_element_named c ($"option") h &&& p c h; Some (if b : bool then Some c else None)) (first_child l) h.

Definition ns_select_first_selected_option (sel : loc) (h : heap) : option (option loc) :=
  option_where (has_attr ($"selected")) (fun _ _ => Some false) sel h.
Definition ns_select_chosen_option (sel : loc) (h : heap) : option (option loc) :=
  s ← ns_select_first_selected_option sel h;
  match s with
  | Some _ => Some s
  | None =>
      no ← has_attr ($"data-nd-noselect") sel h ||| has_attr ($"multiple") sel h;
      size ← get_attr ($"size") sel h;
      if (no : bool) || match size with Some v => (1 <? strtol10 v)%Z | None => false end then Some None
      else option_where (fun c h => notM (has_attr ($"disabled") c h)) (has_attr ($"disabled")) sel h
  end.

Definition ns_el_is_checked (n : loc) (h : heap) : option bool :=
  o ← is_element_named n ($"option") h;
  if (o : bool) then
    has_attr ($"selected") n h |||
    (l ← at_ n h;
     g ← on_node (fun p h => is_element_named p ($"optgroup") h) (parent l) h;
     sel ← (if (g : bool) then match parent l with Some p => parent <$> at_ p h | None => Some None end else Some (parent l));
     match sel with
     | None => Some false
     | Some sel =>
         is_element_named sel ($"select") h &&& notM (has_attr ($"multiple") sel h) &&&
         (c ← ns_select_chosen_option sel h; Some (bool_decide (c = Some n)))
     end)
  else
    is_element_named n ($"input") h &&&
    (t ← get_attr ($"type") n h;
     match t with
     | Some t => if one_of_ci t [$"checkbox"; $"radio"] then ns_input_is_checked n h else Some false
     | None => Some false
     end).

Definition ns_el_is_read_write (n : loc) (h : heap) : option bool :=
  nm ← node_name n h;
  match nm with
  | None => Some false
  | Some nm =>
      if strcmp0 nm ($"input") then
        (t ← get_attr ($"type") n h; Some (ns_input_type_supports_readonly t)) &&&
        notM (has_attr ($"readonly") n h) &&& notM (ns_element_effectively_disabled n h)
      else if strcmp0 nm ($"textarea") then
        notM (has_attr ($"readonly") n h) &&& notM (ns_element_effectively_disabled n h)
      else
        ce ← get_attr ($"contenteditable") n h;
        Some (match ce with
              | Some v => (v =b []) || one_of_ci v [$"true"; $"plaintext-only"]
              | None => false
              end)
  end.

Definition ns_input_is_text_entry (n : loc) (h : heap) : option bool :=
  t ← get_attr ($"type") n h;
  Some (match t with
        | None | Some [] => true
        | Some t => one_of_ci t [$"text"; $"search"; $"url"; $"tel"; $"email"; $"password"; $"number"]
        end).
Definition empty_value (n : loc) (h : heap) : option bool :=
  v ← get_attr ($"value") n h; Some (match v with None | Some [] => true | _ => false end).

Definition NS_DOM_MAX_DEPTH : nat := 512.

(** [collect_text]; [room] is how much deeper it may go. *)
Fixpoint cat_loop (f : loc -> option bytes) (fuel : nat) (c : option loc) (h : heap) : option bytes :=
  match c with
  | None => Some []
  | Some n =>
      match fuel with
      | O => None
      | S fuel => t ← f n; l ← at_ n h; r ← cat_loop f fuel (next_sibling l) h; Some (t ++ r)
      end
  end.
Fixpoint collect_text (room : nat) (n : loc) (h : heap) : option bytes :=
  match room with
  | O => Some []
  | S room =>
      k ← node_kind n h; t ← node_text n h; skip ← name_in [$"style"; $"script"; $"noscript"; $"template"] n h; l ← at_ n h;
      if bool_decide (k = NS_NODE_TEXT) then Some (default [] t)
      else if (skip : bool) then Some []
      else cat_loop (fun c => collect_text room c h) (S (size h)) (first_child l) h
  end.
Definition ns_node_collect_text (n : loc) (h : heap) : option bytes := collect_text NS_DOM_MAX_DEPTH n h.
Definition blank_text (n : loc) (h : heap) : option bool := t ← ns_node_collect_text n h; Some (allb is_ws t).

Definition ns_el_placeholder_shown (n : loc) (h : heap) : option bool :=
  nm ← node_name n h;
  match nm with
  | None => Some false
  | Some nm =>
      has_attr ($"placeholder") n h &&&
      (if strcmp0 nm ($"input") then ns_input_is_text_entry n h &&& empty_value n h
       else if strcmp0 nm ($"textarea") then blank_text n h else Some false)
  end.
Definition ns_el_is_blank (n : loc) (h : heap) : option bool :=
  i ← is_element_named n ($"input") h;
  if (i : bool) then ns_input_is_text_entry n h &&& empty_value n h
  else is_element_named n ($"textarea") h &&& blank_text n h.

(** ** Targets *)

Definition ns_css_node_is_target (frag : option bytes) (n : loc) (h : heap) : option bool :=
  match frag with
  | None => Some false
  | Some f =>
      id ← get_attr ($"id") n h;
      nm ← node_name n h; a ← get_attr ($"name") n h;
      Some (bool_decide (id = Some f) ||
            match nm with Some x => g_ascii_strcasecmp0 x ($"a") | None => false end && bool_decide (a = Some f))
  end.
Fixpoint ns_css_node_has_target_within (frag : option bytes) (room : nat) (n : loc) (h : heap) : option bool :=
  match room with
  | O => Some false
  | S room =>
      (is_elem n h &&& ns_css_node_is_target frag n h) |||
      (notM (is_element_named n ($"template") h) &&&
       (l ← at_ n h; any_from next_sibling (ns_css_node_has_target_within frag room) (first_child l) h))
  end.
End State.
