(* ===== verification/SelMatch.v ===== *)
(** * Matching selectors ([src/css.c])

    The matcher walks the tree of [DomStore]. What it reads of the page besides the
    tree is in [view]; the tests it leaves to parts of the browser that are not
    modelled are the functions of [Elsewhere]. The scope of [:scope], a global that
    is set and put back, is an argument. The memo of [:has()] and the kept sets of
    classes are left out: they repeat an answer ([Element] proves it of the classes).
    A test is [None] when it follows a pointer to a node that is not there. *)

From S2P Require Import Prelude CStr GLib CssSyntax Xml Element DomStore Dom Selector NodeState.

(** ** The page besides the tree *)

Record view := {
  g_css_hover_node : option loc;
  g_css_active_node : option loc;
  g_css_focus_node : option loc;
  g_target_fragment : option bytes;
  g_active_modal : option loc;
  g_visited_urls : gset bytes;
  g_css_doc_base : option bytes;
  g_defined_elements : gset bytes;
}.

(** [ns_url_resolve]; whether a control is validated and valid; whether a value is
    below or above its range; [ns_el_is_default], [ns_el_is_indeterminate]; the
    language and the direction of a node. *)
Class Elsewhere := {
  ns_url_resolve : bytes -> bytes -> option bytes;
  ns_css_node_will_validate : loc -> heap -> bool;
  ns_css_control_is_valid : loc -> heap -> bool;
  ns_el_range_state : loc -> heap -> option (bool * bool);
  ns_el_is_default : loc -> heap -> bool;
  ns_el_is_indeterminate : loc -> heap -> bool;
  ns_css_node_language : loc -> heap -> option bytes;
  ns_css_node_dir : loc -> heap -> bytes;
}.

(** ** Attribute values *)

Section Values.
Context `{GLib}.

Definition ns_css_html_ci_attr (nm : bytes) : bool :=
  existsb (g_ascii_strcasecmp0 nm)
    [$"accept"; $"accept-charset"; $"align"; $"alink"; $"axis"; $"bgcolor"; $"charset"; $"checked"; $"clear";
     $"codetype"; $"color"; $"compact"; $"declare"; $"defer"; $"dir"; $"direction"; $"disabled"; $"enctype"; $"face";
     $"frame"; $"hreflang"; $"http-equiv"; $"lang"; $"language"; $"link"; $"media"; $"method"; $"multiple"; $"nohref";
     $"noresize"; $"noshade"; $"nowrap"; $"readonly"; $"rel"; $"rev"; $"rules"; $"scope"; $"scrolling"; $"selected";
     $"shape"; $"target"; $"text"; $"type"; $"valign"; $"valuetype"; $"vlink"].

(** [(ci ? g_ascii_strncasecmp(s, w, n) : strncmp(s, w, n)) == 0], and the same
    for whole strings. *)
Definition eq_n (ci : bool) (s w : bytes) (n : nat) : bool := if ci then g_ascii_strncasecmp0 s w n else strncmp0 s w n.
Definition eq_all (ci : bool) (s w : bytes) : bool := if ci then g_ascii_strcasecmp0 s w else strcmp0 s w.

(** The loop of [NS_CSS_ATTR_SUBSTR] that ignores case. *)
Fixpoint substr_ci (s w : bytes) : bool :=
  (length w <=? length s) && g_ascii_strncasecmp0 s w (length w) ||
  match s with [] => false | _ :: s' => substr_ci s' w end.
(** The loop of [NS_CSS_ATTR_WORD]. *)
Fixpoint word_loop (fuel : nat) (ci : bool) (s w : bytes) : bool :=
  match fuel, s with
  | S f, _ :: _ =>
      let t := drop_while is_ws s in
      let tok := take_while (fun c => negb (is_ws c)) t in
      (length tok =? length w) && eq_n ci t w (length w) || word_loop f ci (drop (length tok) t) w
  | _, _ => false
  end.

Definition ns_css_attr_value_matches (a : ns_css_attr_pred) (v : bytes) (html_doc : bool) : bool :=
  match ap_op a with
  | NS_CSS_ATTR_PRESENT => true
  | o =>
      match ap_value a with
      | None => false
      | Some w =>
          let vl := length v in
          let wl := length w in
          let ci := case_insensitive a || (negb (case_sensitive a) && html_doc && ns_css_html_ci_attr (ap_name a)) in
          match o with
          | NS_CSS_ATTR_PRESENT => true
          | NS_CSS_ATTR_EQ => eq_all ci v w
          | NS_CSS_ATTR_PREFIX => (0 <? wl) && (wl <=? vl) && eq_n ci v w wl
          | NS_CSS_ATTR_SUFFIX => (0 <? wl) && (wl <=? vl) && eq_all ci (drop (vl - wl) v) w
          | NS_CSS_ATTR_SUBSTR => negb (wl =? 0) && (if ci then substr_ci v w else contains v w)
          | NS_CSS_ATTR_WORD => word_loop (S vl) ci v w
          | NS_CSS_ATTR_HYPHEN =>
              (wl <=? vl) && eq_n ci v w wl && ((vl =? wl) || (nth wl v nul =c "-"))
          end
      end
  end.

(** ** Languages *)

Definition blank_or_quote (c : ascii) : bool := is_ws c || quote_char c.
(** [p[n] == '\0' || p[n] == '-']. *)
Definition subtag_end (s : bytes) (n : nat) : bool := match drop n s with [] => true | c :: _ => c =c "-" end.

(** The loop over the places after a hyphen. *)
Fixpoint after_hyphens (s needle : bytes) : bool :=
  match s with
  | [] => false
  | c :: s' =>
      (c =c "-") && g_ascii_strncasecmp0 s' needle (length needle) && subtag_end s' (length needle) ||
      after_hyphens s' needle
  end.

Definition ns_css_lang_one_matches (lang want : bytes) : bool :=
  let w := drop_while (fun c => (c =c " ") || quote_char c) want in
  let w := rev (drop_while blank_or_quote (rev w)) in
  match w with
  | [] => false
  | c :: w' =>
      if (c =c "*") && (w' =b []) then true
      else if (c =c "*") && head_is (fun d => d =c "-") w' then after_hyphens lang (drop 1 w')
      else g_ascii_strncasecmp0 lang w (length w) && subtag_end lang (length w)
  end.

Fixpoint lang_loop (fuel : nat) (lang p : bytes) : bool :=
  match fuel, p with
  | S f, _ :: _ =>
      let '(seg, r, term) := css_scan_until p ($",") in
      ns_css_lang_one_matches lang (css_trim_dup_range seg) ||
      match term with Some c => if c =c "," then lang_loop f lang (drop 1 r) else lang_loop f lang r | None => lang_loop f lang r end
  | _, _ => false
  end.
Definition ns_css_lang_matches (lang arg : option bytes) : bool :=
  match lang, arg with Some l, Some a => lang_loop (S (length a)) l a | _, _ => false end.

(** ** Headings *)

(** [h1] to [h6]. *)
Definition heading_level (nm : bytes) : Z :=
  match nm with
  | [c; d] => if (c =c "h") && in_range 49 54 d then (code d - 48)%Z else 0%Z
  | _ => 0%Z
  end.
Definition heading_matches (nm : bytes) (arg : option bytes) : bool :=
  let level := heading_level nm in
  negb (level =? 0)%Z &&
  match arg with
  | None => true
  | Some a => existsb (fun i => match anb_int_strict (g_strstrip i) with Some v => (level =? v)%Z | None => false end) (g_strsplit a ($","))
  end.
End Values.

(** [an + b] at the place [idx], with the division of C. *)
Definition nth_place (a b idx : Z) : bool :=
  if (a =? 0)%Z then (idx =? b)%Z
  else (Z.rem (idx - b) a =? 0)%Z && (0 <=? Z.quot (idx - b) a)%Z.

(** ** Names and attributes *)

Section Match.
Context {G : GLib} {U : Unichar} {El : Elsewhere} (w : view) (h : heap).

Definition nonempty (u : option bytes) : option bytes := match u with Some [] => None | _ => u end.

Definition element_namespace (n : loc) : option (option bytes) :=
  u ← get_attr ($"data-nd-ns-uri") n h;
  svg ← node_flag n NS_NODE_SVG_NS_BIT h; foreign ← node_flag n NS_NODE_FOREIGN_NS_BIT h; xml ← node_flag n NS_NODE_XML_DOC_BIT h;
  Some (match nonempty u with
        | Some u => Some u
        | None => if svg : bool then Some XML_NS_SVG else if negb (foreign || xml) then Some XML_NS_XHTML else None
        end).
Definition namespace_ok (s : ns_css_simple) (n : loc) : option bool :=
  u ← element_namespace n;
  Some (namespace_any s || bool_decide (nonempty (s_namespace_uri s) = u)).

Definition type_ok (s : ns_css_simple) (n : loc) : option bool :=
  match s_type s with
  | None => Some true
  | Some t =>
      if strcmp0 t ($"*") then Some true
      else
        nm ← node_name n h; pfx ← has_attr ($"data-nd-ns-prefix") n h;
        svg ← node_flag n NS_NODE_SVG_NS_BIT h; foreign ← node_flag n NS_NODE_FOREIGN_NS_BIT h; xml ← node_flag n NS_NODE_XML_DOC_BIT h;
        Some (match nm with
              | None => false
              | Some nm =>
                  let local := match strchr nm ":" with Some r => if pfx : bool then drop 1 r else nm | None => nm end in
                  if xml || svg || foreign then strcmp0 t local
                  else (lower (nth 0 local nul) =c lower (nth 0 t nul)) && g_ascii_strcasecmp0 t local
              end)
  end.

Definition id_ok (s : ns_css_simple) (n : loc) : option bool :=
  match s_id s with
  | None => Some true
  | Some i => v ← get_attr ($"id") n h; Some (bool_decide (v = Some i))
  end.

Definition classes_ok (s : ns_css_simple) (n : loc) : option bool :=
  (fun d => let svg := has_flag (n_flags (data d)) NS_NODE_SVG_NS_BIT in
            allb (fun c => has_class svg c (n_attrs (data d))) (s_classes s)) <$> h !! n.

(** One attribute of an element against an attribute selector. *)
Definition attr_matches (a : ns_css_attr_pred) (html_doc : bool) (x : ns_attr) : bool :=
  (ap_namespace_any a || bool_decide (nonempty (ap_namespace_uri a) = nonempty (Xml.namespace_uri x))) &&
  (if html_doc then g_ascii_strcasecmp0 (ns_attr_local_name x) (ap_name a) else strcmp0 (ns_attr_local_name x) (ap_name a)) &&
  ns_css_attr_value_matches a (a_value x) html_doc.
(** [a->name_bit && (elbloom & a->name_bit) == 0]. *)
Definition bloom_excludes (a : ns_css_attr_pred) (l : list ns_attr) : bool :=
  negb (name_bit a =? 0)%Z && (Z.land (attrs_bloom l) (name_bit a) =? 0)%Z.
Definition attr_ok (a : ns_css_attr_pred) (html_doc : bool) (l : list ns_attr) : bool :=
  negb (bloom_excludes a l) && existsb (attr_matches a html_doc) l.
Definition attrs_ok (s : ns_css_simple) (n : loc) : option bool :=
  (fun d => let f := n_flags (data d) in
            let html_doc := negb (has_flag f NS_NODE_XML_DOC_BIT) &&
                            negb (has_flag f NS_NODE_FOREIGN_NS_BIT || has_flag f NS_NODE_SVG_NS_BIT) in
            allb (fun a => attr_ok a html_doc (n_attrs (data d))) (s_attrs s)) <$> h !! n.

Definition ns_el_is_visited_link (n : loc) : option bool :=
  match g_css_doc_base w with
  | None => Some false
  | Some base =>
      ns_el_is_link n h &&&
      (v ← get_attr ($"href") n h;
       Some (match nonempty v with
             | None => false
             | Some href => match ns_url_resolve base href with Some u => bool_decide (u ∈ g_visited_urls w) | None => false end
             end))
  end.

(** ** Siblings *)

(** A sibling [step] away with the name of [n]; false when [n] has none. *)
Definition same_named (step : links -> option loc) (n : loc) : option bool :=
  nm ← node_name n h; l ← at_ n h;
  match nm with
  | None => Some false
  | Some nm => any_from step (fun c h => is_element_named c nm h) (step l) h
  end.
Definition has_name (n : loc) : option bool := (fun v => match v with Some _ => true | None => false end) <$> node_name n h.

(** A match of one of a group, with the matcher of selectors as an argument. *)
Section Simple.
Variable sub : option loc -> ns_css_selector -> loc -> option bool.

Fixpoint selector_group_matches_element (scope : option loc) (g : list ns_css_selector) (n : loc) : option bool :=
  match g with [] => Some false | s :: g' => sub scope s n ||| selector_group_matches_element scope g' n end.

(** [ns_css_sibling_counts_for_nth]: the place of [n], [None] inside when it is
    not counted. *)
Definition ns_css_sibling_counts_for_nth (scope : option loc) (q : ns_css_pseudo_pred) (n : loc) : option (option Z) :=
  let reverse := bool_decide (pc_kind q = NS_CSS_PC_NTH_LAST_CHILD) || bool_decide (pc_kind q = NS_CSS_PC_NTH_LAST_OF_TYPE) in
  let typed := bool_decide (pc_kind q = NS_CSS_PC_NTH_OF_TYPE) || bool_decide (pc_kind q = NS_CSS_PC_NTH_LAST_OF_TYPE) in
  let step := if reverse then next_sibling else prev_sibling in
  let counted (g : loc) : option bool := match of_group q with None => Some true | Some g' => selector_group_matches_element scope g' g end in
  nm ← node_name n h; l ← at_ n h;
  k ← tally_from step (fun c h =>
        is_elem c h &&&
        (if typed then match nm with Some nm => is_element_named c nm h | None => Some false end else Some true) &&&
        counted c) (step l) h;
  own ← counted n;
  Some (if own : bool then Some (1 + Z.of_nat k)%Z else None).

Definition pseudo_ok (scope : option loc) (q : ns_css_pseudo_pred) (n : loc) : option bool :=
  match pc_kind q with
  | NS_CSS_PC_FIRST_CHILD => s ← prev_element n h; Some (bool_decide (s = None))
  | NS_CSS_PC_LAST_CHILD => s ← next_element_sibling n h; Some (bool_decide (s = None))
  | NS_CSS_PC_ONLY_CHILD =>
      (s ← prev_element n h; Some (bool_decide (s = None))) &&& (s ← next_element_sibling n h; Some (bool_decide (s = None)))
  | NS_CSS_PC_ONLY_OF_TYPE => has_name n &&& notM (same_named prev_sibling n) &&& notM (same_named next_sibling n)
  | NS_CSS_PC_FIRST_OF_TYPE => has_name n &&& notM (same_named prev_sibling n)
  | NS_CSS_PC_LAST_OF_TYPE => has_name n &&& notM (same_named next_sibling n)
  | NS_CSS_PC_EMPTY => ns_el_is_empty n h
  | NS_CSS_PC_ROOT => l ← at_ n h; on_node parent_is_doc (parent l) h
  | NS_CSS_PC_SCOPE =>
      match scope with
      | Some s => Some (bool_decide (n = s))
      | None => l ← at_ n h; notM (on_node is_elem (parent l) h)
      end
  | NS_CSS_PC_CHECKED => ns_el_is_checked n h
  | NS_CSS_PC_DISABLED => ns_element_supports_disabled n h &&& ns_element_effectively_disabled n h
  | NS_CSS_PC_ENABLED => ns_element_supports_disabled n h &&& notM (ns_element_effectively_disabled n h)
  | NS_CSS_PC_REQUIRED => ns_form_control_supports_required n h &&& has_attr ($"required") n h
  | NS_CSS_PC_OPTIONAL => ns_form_control_supports_required n h &&& notM (has_attr ($"required") n h)
  | NS_CSS_PC_VALID => Some (ns_css_node_will_validate n h && ns_css_control_is_valid n h)
  | NS_CSS_PC_INVALID => Some (ns_css_node_will_validate n h && negb (ns_css_control_is_valid n h))
  | NS_CSS_PC_IN_RANGE => Some (match ns_el_range_state n h with Some (u, o) => negb u && negb o | None => false end)
  | NS_CSS_PC_OUT_OF_RANGE => Some (match ns_el_range_state n h with Some (u, o) => u || o | None => false end)
  | NS_CSS_PC_DEFAULT => Some (ns_el_is_default n h)
  | NS_CSS_PC_INDETERMINATE => Some (ns_el_is_indeterminate n h)
  | NS_CSS_PC_NTH_CHILD | NS_CSS_PC_NTH_LAST_CHILD | NS_CSS_PC_NTH_OF_TYPE | NS_CSS_PC_NTH_LAST_OF_TYPE =>
      i ← ns_css_sibling_counts_for_nth scope q n;
      Some (match i with Some i => nth_place (pc_a q) (pc_b q) i | None => false end)
  | NS_CSS_PC_ANY_LINK => ns_el_is_link n h
  | NS_CSS_PC_LINK => ns_el_is_link n h &&& notM (ns_el_is_visited_link n)
  | NS_CSS_PC_VISITED => ns_el_is_visited_link n
  | NS_CSS_PC_HOVER => ancestor_or_self_is n (g_css_hover_node w) h
  | NS_CSS_PC_ACTIVE => ancestor_or_self_is n (g_css_active_node w) h
  | NS_CSS_PC_FOCUS => Some (bool_decide (g_css_focus_node w = Some n))
  | NS_CSS_PC_FOCUS_WITHIN => ancestor_or_self_is n (g_css_focus_node w) h
  | NS_CSS_PC_TARGET => ns_css_node_is_target (g_target_fragment w) n h
  | NS_CSS_PC_TARGET_WITHIN =>
      match g_target_fragment w with
      | None => Some false
      | Some _ => ns_css_node_has_target_within (g_target_fragment w) NS_DOM_MAX_DEPTH n h
      end
  | NS_CSS_PC_DEFINED =>
      nm ← node_name n h;
      Some (match nm with
            | None => false
            | Some nm => negb (memb "-" nm) || bool_decide (g_ascii_strdown nm ∈ g_defined_elements w)
            end)
  | NS_CSS_PC_PLACEHOLDER_SHOWN => ns_el_placeholder_shown n h
  | NS_CSS_PC_READ_WRITE => ns_el_is_read_write n h
  | NS_CSS_PC_READ_ONLY => notM (ns_el_is_read_write n h)
  | NS_CSS_PC_BLANK => ns_el_is_blank n h
  | NS_CSS_PC_LANG => Some (ns_css_lang_matches (ns_css_node_language n h) (pc_arg q))
  | NS_CSS_PC_DIR => Some (match pc_arg q with Some d => strcmp0 (ns_css_node_dir n h) d | None => false end)
  | NS_CSS_PC_OPEN => (is_element_named n ($"details") h ||| is_element_named n ($"dialog") h) &&& has_attr ($"open") n h
  | NS_CSS_PC_POPOVER_OPEN => has_attr ($"popover") n h &&& has_attr ($"data-nd-popover-open") n h
  | NS_CSS_PC_MODAL => Some (bool_decide (g_active_modal w = Some n))
  | NS_CSS_PC_HEADING =>
      nm ← node_name n h; Some (match nm with Some nm => heading_matches nm (pc_arg q) | None => false end)
  end.

(** All of a list. *)
Fixpoint allM {A} (f : A -> option bool) (l : list A) : option bool :=
  match l with [] => Some true | x :: l' => f x &&& allM f l' end.

(** [match_simple], its groups of [:has()] tested by [has]. *)
Definition match_simple (has : list ns_css_selector -> loc -> option bool) (scope : option loc) (s : ns_css_simple) (n : loc) : option bool :=
  if never_match s then Some false
  else
    is_elem n h &&& namespace_ok s n &&& type_ok s n &&& id_ok s n &&& classes_ok s n &&& attrs_ok s n &&&
    allM (fun q => pseudo_ok scope q n) (s_pseudos s) &&&
    allM (fun g => selector_group_matches_element scope g n) (matches_any s) &&&
    allM (fun g => notM (selector_group_matches_element scope g n)) (matches_none s) &&&
    allM (fun g => has g n) (has_groups s).
End Simple.

(** ** Combinators *)

Section Chain.
Variable simple : ns_css_simple -> loc -> option bool.

(** [for (p = cur->parent; p; p = p->parent) { if (document) break; ... }] *)
Fixpoint up_loop (test : loc -> option bool) (fuel : nat) (p : option loc) : option bool :=
  match p with
  | None => Some false
  | Some n =>
      match fuel with
      | O => None
      | S f =>
          k ← node_kind n h;
          if bool_decide (k = NS_NODE_DOCUMENT) then Some false
          else test n ||| (l ← at_ n h; up_loop test f (parent l))
      end
  end.

(** [match_complex_chain]: [comb] joins [cur] to the first of the compounds before
    it, the nearest first. *)
Fixpoint match_complex_chain (comb : ns_css_comb) (before : list (ns_css_comb * ns_css_simple)) (cur : loc) : option bool :=
  match before with
  | [] => Some true
  | (comb', prev) :: more =>
      let test n := simple prev n &&& match_complex_chain comb' more n in
      l ← at_ cur h;
      match comb with
      | NS_CSS_COMB_CHILD => match parent l with Some p => test p | None => Some false end
      | NS_CSS_COMB_ADJACENT => s ← prev_element cur h; match s with Some s => test s | None => Some false end
      | NS_CSS_COMB_SIBLING => any_from prev_sibling (fun n h => is_elem n h &&& test n) (prev_sibling l) h
      | NS_CSS_COMB_NONE | NS_CSS_COMB_DESCENDANT => up_loop test (S (size h)) (parent l)
      end
  end.

Definition match_selector_structural (s : ns_css_selector) (n : loc) : option bool :=
  match rev (compounds s) with
  | [] => Some false
  | (comb, last) :: before => simple last n &&& match_complex_chain comb before n
  end.

(** ** Relative selectors *)

Definition has_simple_scope_pseudo (s : ns_css_simple) : bool :=
  existsb (fun q => bool_decide (pc_kind q = NS_CSS_PC_SCOPE)) (s_pseudos s).

(** [relative_chain_matches]; [room] is 512 less the depth, [first] that no
    compound was matched yet. *)
Fixpoint relative_chain_matches (room : nat) (first : bool) (rest : list (ns_css_comb * ns_css_simple)) (anchor base : loc) : option bool :=
  match room with
  | O => Some false
  | S room =>
      match rest with
      | [] => Some true
      | (comb, cmp) :: rest' =>
          let try_candidate c := is_elem c h &&& simple cmp c &&& relative_chain_matches room false rest' anchor c in
          if first && (bool_decide (comb = NS_CSS_COMB_NONE) || bool_decide (comb = NS_CSS_COMB_DESCENDANT)) then
            (if has_simple_scope_pseudo cmp then try_candidate anchor else Some false) |||
            relative_descendant_matches room cmp rest' anchor anchor
          else
            l ← at_ base h;
            match comb with
            | NS_CSS_COMB_CHILD => any_from next_sibling (fun c _ => try_candidate c) (first_child l) h
            | NS_CSS_COMB_ADJACENT => s ← next_element_sibling base h; match s with Some s => try_candidate s | None => Some false end
            | NS_CSS_COMB_SIBLING => any_from next_sibling (fun c h => is_elem c h &&& try_candidate c) (next_sibling l) h
            | _ => relative_descendant_matches room cmp rest' anchor base
            end
      end
  end
with relative_descendant_matches (room : nat) (cmp : ns_css_simple) (rest' : list (ns_css_comb * ns_css_simple)) (anchor base : loc) : option bool :=
  match room with
  | O => Some false
  | S room =>
      l ← at_ base h;
      any_from next_sibling (fun c h =>
        is_elem c h &&&
        ((is_elem c h &&& simple cmp c &&& relative_chain_matches room false rest' anchor c) |||
         relative_descendant_matches room cmp rest' anchor c)) (first_child l) h
  end.
End Chain.

(** The depth of groups within a selector. *)
Definition list_height {A} (f : A -> nat) (l : list A) : nat := list_max (map f l).
Definition simple_height (f : ns_css_selector -> nat) (s : ns_css_simple) : nat :=
  Nat.max (list_height (fun q => match of_group q with Some g => list_height f g | None => 0 end) (s_pseudos s))
    (Nat.max (list_height (list_height f) (matches_any s))
       (Nat.max (list_height (list_height f) (matches_none s)) (list_height (list_height f) (has_groups s)))).
Fixpoint sel_height (s : ns_css_selector) : nat := S (list_height (fun c => simple_height sel_height (snd c)) (compounds s)).

(** ** Selectors *)

Section Selectors.
Variable simple : option loc -> ns_css_simple -> loc -> option bool.

Definition match_selector_with (scope : option loc) (s : ns_css_selector) (n : loc) : option bool :=
  if bool_decide (pseudo_element s = NS_CSS_PE_NONE) then match_selector_structural (simple scope) s n else Some false.
Definition has_relative_matches (rel : ns_css_selector) (anchor : loc) : option bool :=
  if bool_decide (pseudo_element rel = NS_CSS_PE_NONE)
  then relative_chain_matches (simple (Some anchor)) NS_DOM_MAX_DEPTH true (compounds rel) anchor anchor
  else Some false.
Fixpoint has_group_matches (g : list ns_css_selector) (anchor : loc) : option bool :=
  match g with [] => Some false | rel :: g' => has_relative_matches rel anchor ||| has_group_matches g' anchor end.
End Selectors.

(** The knot: the fuel bounds the nesting of groups. *)
Fixpoint match_simple_fuel (fuel : nat) (scope : option loc) (s : ns_css_simple) (n : loc) : option bool :=
  match fuel with
  | O => None
  | S f => match_simple (match_selector_with (match_simple_fuel f)) (has_group_matches (match_simple_fuel f)) scope s n
  end.

(** [match_selector], [match_selector_for_pe]: the height is fuel enough. *)
Definition match_selector (scope : option loc) (s : ns_css_selector) (n : loc) : option bool :=
  match_selector_with (match_simple_fuel (sel_height s)) scope s n.
Definition match_selector_for_pe (scope : option loc) (s : ns_css_selector) (n : loc) (e : ns_css_pseudo_element) : option bool :=
  if bool_decide (pseudo_element s = e) then match_selector_structural (match_simple_fuel (sel_height s) scope) s n else Some false.

Definition ns_css_selector_matches (scope : option loc) (s : ns_css_selector) (n : loc) : option bool := match_selector scope s n.
End Match.
