(* ===== verification/SelTree.v ===== *)
(** * Walks over the tree end

    The loops of [NodeState] and [SelMatch] over siblings, children and ancestors,
    as functions of the list of the nodes they pass; on a tree every walk ends, so
    every test of [NodeState] has an answer. *)

From stdpp Require Import functions relations.
From S2P Require Import Prelude CStr GLib CssSyntax Xml Element DomStore DomTree Dom DomSpec Selector NodeState SelMatch.

#[global] Arguments any_from : simpl never.
#[global] Arguments findm_from : simpl never.
#[global] Arguments find_from : simpl never.
#[global] Arguments tally_from : simpl never.
#[global] Opaque NS_DOM_MAX_DEPTH.

(** ** Walks *)

Inductive walk (h : heap) (step : links -> option loc) : option loc -> list loc -> Prop :=
| walk_nil : walk h step None []
| walk_cons n l xs : at_ n h = Some l -> walk h step (step l) xs -> walk h step (Some n) (n :: xs).

Section Loops.
Context (h : heap) (step : links -> option loc).

Lemma any_walk p t fuel : forall c xs, walk h step c xs -> (forall x, x ∈ xs -> p x h = Some (t x)) -> length xs <= fuel ->
  any_loop step p fuel c h = Some (existsb t xs).
Proof.
  induction fuel as [|fuel IH]; intros c xs W P L; destruct W as [|n l xs E W]; try done; [cbn in L; lia|].
  cbn. rewrite P by set_solver +. cbn. destruct (t n); [done|]. rewrite E. cbn. apply IH; [done| |cbn in L; lia].
  intros x Hx. apply P. set_solver +Hx.
Qed.

(** The first answer of a list. *)
Definition first_some {A} (t : loc -> option A) (xs : list loc) : option A :=
  fold_right (fun x r => match t x with Some v => Some v | None => r end) None xs.
Lemma findm_walk f t fuel : forall c xs, walk h step c xs -> (forall x, x ∈ xs -> f x h = Some (t x)) -> length xs <= fuel ->
  findm_loop step f fuel c h = Some (first_some t xs).
Proof.
  induction fuel as [|fuel IH]; intros c xs W P L; destruct W as [|n l xs E W]; try done; [cbn in L; lia|].
  cbn. rewrite P by set_solver +. cbn. destruct (t n); [done|]. rewrite E. cbn. apply IH; [done| |cbn in L; lia].
  intros x Hx. apply P. set_solver +Hx.
Qed.
Lemma find_walk p t fuel c xs : walk h step c xs -> (forall x, x ∈ xs -> p x h = Some (t x)) -> length xs <= fuel ->
  findm_loop step (fun n h => b ← p n h; Some (if b : bool then Some n else None)) fuel c h = Some (List.find t xs).
Proof.
  intros W P L. rewrite (findm_walk _ (fun x => if t x then Some x else None)  fuel c xs W); [|intros x Hx; by rewrite P|done].
  f_equal. clear. induction xs as [|x xs IH]; cbn; [done|]. destruct (t x); [done|]. exact IH.
Qed.

Lemma tally_walk p t fuel : forall c xs, walk h step c xs -> (forall x, x ∈ xs -> p x h = Some (t x)) -> length xs <= fuel ->
  tally_loop step p fuel c h = Some (length (List.filter t xs)).
Proof.
  induction fuel as [|fuel IH]; intros c xs W P L; destruct W as [|n l xs E W]; try done; [cbn in L; lia|].
  cbn. rewrite P by set_solver +. cbn. rewrite E. cbn. rewrite (IH _ xs); [|done| |cbn in L; lia].
  - cbn. by destruct (t n).
  - intros x Hx. apply P. set_solver +Hx.
Qed.
End Loops.

Definition before_document (h : heap) (xs : list loc) : list loc :=
  take_while (fun x => negb (bool_decide (kd h x = NS_NODE_DOCUMENT))) xs.
Lemma up_walk h test t fuel : forall c xs, walk h parent c xs -> (forall x, x ∈ before_document h xs -> test x = Some (t x)) ->
  length xs <= fuel -> up_loop h test fuel c = Some (existsb t (before_document h xs)).
Proof.
  unfold before_document. induction fuel as [|fuel IH]; intros c xs W P L; destruct W as [|n l xs E W]; try done; [cbn in L; lia|].
  cbn in *. rewrite (node_kind_kd h n) by eauto. cbn. destruct (bool_decide _); [done|]. cbn in *. rewrite P by set_solver +. cbn.
  destruct (t n); [done|]. cbn. rewrite E. cbn. apply IH; [done| |lia]. intros x Hx. apply P. set_solver +Hx.
Qed.

Lemma cat_walk h f fuel : forall c xs, walk h next_sibling c xs -> (forall x, x ∈ xs -> is_Some (f x)) -> length xs <= fuel ->
  is_Some (cat_loop f fuel c h).
Proof.
  induction fuel as [|fuel IH]; intros c xs W P L; destruct W as [|n l xs E W]; cbn; eauto; [cbn in L; lia|].
  destruct (P n) as [t ->]; [by left|]. cbn. rewrite E. cbn. destruct (IH _ xs W) as [r ->]; [|cbn in L; lia|cbn; eauto].
  intros x Hx. apply P. by right.
Qed.

(** ** The relatives of a node *)

Section Relatives.
Context (h : heap) (K : forest) (OK : tree_ok h K).

Definition here (n : loc) : Prop := is_Some (at_ n h).
Definition parent_of (n : loc) : option loc := at_ n h ≫= parent.

(** The siblings before a node, the nearest first, and those after it. *)
Definition elder (n : loc) : list loc :=
  match parent_of n with Some p => rev (take_while (fun x => negb (bool_decide (x = n))) (K p)) | None => [] end.
Definition younger (n : loc) : list loc :=
  match parent_of n with Some p => drop 1 (drop_while (fun x => negb (bool_decide (x = n))) (K p)) | None => [] end.

Lemma parent_of_spec n p : parent_of n = Some p <-> n ∈ K p.
Proof.
  unfold parent_of. split.
  - intros (k & E & Hp)%bind_Some. by apply (parent_edge h K OK _ _ _ E).
  - intros (k & E & Hp)%(kid_linked h K OK). by rewrite E.
Qed.

(** A node with a parent splits the children of that parent. *)
Lemma family n p : parent_of n = Some p -> K p = rev (elder n) ++ n :: younger n.
Proof.
  intros Hp. pose proof Hp as Hk. apply parent_of_spec in Hk. pose proof (kids_nodup h K OK p) as N.
  unfold elder, younger. rewrite Hp, rev_involutive. apply list_elem_of_split in Hk as (l1 & l2 & E). rewrite E in *.
  apply NoDup_app in N as (_ & N & _).
  assert (allb (fun x => negb (bool_decide (x = n))) l1 = true) as A.
  { apply forallb_forall. intros x Hx%list_elem_of_In. apply negb_true_iff, bool_decide_eq_false. intros ->.
    apply (N n Hx). by left. }
  rewrite take_while_app_stop, drop_while_app_stop by (try exact A; cbn; by rewrite bool_decide_true). done.
Qed.
Lemma elder_orphan n : parent_of n = None -> elder n = [] /\ younger n = [].
Proof. intros E. unfold elder, younger. by rewrite E. Qed.
Lemma here_kid n c : c ∈ K n -> here c.
Proof. apply (kid_here h K OK). Qed.
Lemma sibling_kid n x : x ∈ elder n \/ x ∈ younger n -> exists p, parent_of n = Some p /\ n ∈ K p /\ x ∈ K p.
Proof.
  intros Hx. destruct (parent_of n) as [p|] eqn:E.
  - exists p. split; [done|]. rewrite (family n p E). split; [set_solver +|].
    destruct Hx as [Hx|Hx]; [|set_solver +Hx]. apply elem_of_app. left. by rewrite list_elem_of_In, <- in_rev, <- list_elem_of_In.
  - destruct (elder_orphan n E) as [E1 E2]. rewrite E1, E2 in Hx. destruct Hx as [Hx|Hx]; by apply not_elem_of_nil in Hx.
Qed.
Lemma here_sibling n x : x ∈ elder n \/ x ∈ younger n -> here x.
Proof. intros (p & _ & _ & H)%sibling_kid. by eapply here_kid. Qed.

Lemma next_walk p l1 l2 : K p = l1 ++ l2 -> walk h next_sibling (head l2) l2.
Proof.
  revert l1. induction l2 as [|c l2 IH]; intros l1 E; cbn; [constructor|].
  destruct (at_kid h K OK _ _ _ _ E) as (k & Ek & _ & _ & N). apply (walk_cons _ _ _ _ _ Ek). rewrite N.
  apply (IH (l1 ++ [c])). by rewrite E, <- app_assoc.
Qed.
Lemma prev_walk p l1 l2 : K p = l1 ++ l2 -> walk h prev_sibling (last l1) (rev l1).
Proof.
  revert l2. induction l1 as [|c l1 IH] using rev_ind; intros l2 E; cbn; [constructor|].
  rewrite rev_app_distr, last_snoc. cbn. rewrite <- app_assoc in E.
  destruct (at_kid h K OK _ _ _ _ E) as (k & Ek & _ & N & _). apply (walk_cons _ _ _ _ _ Ek). rewrite N. by apply (IH (c :: l2)).
Qed.
Lemma last_of_rev {A} (l : list A) : last (rev l) = head l.
Proof. destruct l; cbn; [done|]. by rewrite last_snoc. Qed.

Lemma kids_walk n k : at_ n h = Some k -> walk h next_sibling (first_child k) (K n) /\ length (K n) <= size h.
Proof.
  intros E. rewrite (proj1 (ok_ends _ _ OK _ _ E)). split; [by apply (next_walk n [])|by apply (kids_bound h K OK)].
Qed.
Lemma siblings_walk n k : at_ n h = Some k ->
  walk h prev_sibling (prev_sibling k) (elder n) /\ walk h next_sibling (next_sibling k) (younger n) /\
  length (elder n) <= size h /\ length (younger n) <= size h.
Proof.
  intros E. destruct (parent_of n) as [p|] eqn:Hp.
  - pose proof (family n p Hp) as F. destruct (at_kid h K OK _ _ _ _ F) as (k' & E' & _ & N1 & N2).
    rewrite E in E'. injection E' as <-. rewrite N1, N2, last_of_rev. pose proof (kids_bound h K OK p) as B.
    rewrite F, length_app, length_rev in B. cbn in B.
    split; [|split; [|split; lia]].
    + pose proof (prev_walk p (rev (elder n)) _ F) as W. by rewrite last_of_rev, rev_involutive in W.
    + apply (next_walk p (rev (elder n) ++ [n])). by rewrite F, <- app_assoc.
  - destruct (elder_orphan n Hp) as [-> ->]. unfold parent_of in Hp. rewrite E in Hp. cbn in Hp.
    destruct (ok_orphan _ _ OK _ _ E Hp) as [-> ->]. split; [constructor|]. split; [constructor|]. cbn. split; lia.
Qed.

(** The way up from a node: its ancestors, itself first. *)
Lemma up_from fuel : forall seen n, climbed h K seen n -> here n -> size h <= length seen + fuel ->
  exists xs, walk h parent (Some n) xs /\ length xs <= fuel /\ forall x, x ∈ xs <-> rtc (edge K) x n.
Proof.
  induction fuel as [|fuel IH]; intros seen n C Hn Hf.
  - pose proof (climbed_length h K OK _ _ C (proj1 (at_is_some h n) Hn)). lia.
  - destruct Hn as [k E]. destruct (parent k) as [p|] eqn:Hp.
    + assert (edge K p n) as Ed by by apply (parent_edge h K OK _ _ _ E).
      destruct (IH (n :: seen) p) as (xs & W & L & Hx); [by eapply climbed_step|by apply (has_links h K OK p n)|cbn; lia|].
      exists (n :: xs). split; [by eapply walk_cons; [|rewrite Hp]|]. split; [cbn; lia|]. intros x.
      rewrite elem_of_cons, Hx. split.
      * intros [->|Hr]; [apply rtc_refl|by eapply rtc_r].
      * intros [->|(q & Hr & Hq)]%rtc_inv_r; [by left|]. right. by rewrite (one_parent h K OK n p q).
    + exists [n]. split; [eapply walk_cons; [done|rewrite Hp; constructor]|]. split; [cbn; lia|]. intros x.
      rewrite list_elem_of_singleton. split; [intros ->; apply rtc_refl|].
      intros [->|(q & Hr & Hq)]%rtc_inv_r; [done|]. apply (parent_edge h K OK _ _ _ E) in Hq. congruence.
Qed.
Lemma upward n : here n -> exists xs, walk h parent (Some n) xs /\ length xs <= size h /\ forall x, x ∈ xs <-> rtc (edge K) x n.
Proof.
  intros Hn. apply (up_from _ []); [|done|cbn; lia]. split; [constructor|]. intros x Hx. by apply not_elem_of_nil in Hx.
Qed.
Lemma here_up n x : here n -> rtc (edge K) x n -> here x.
Proof.
  intros Hn [->|(y & Hy & _)]%rtc_inv; [done|]. by apply (has_links h K OK x y).
Qed.
End Relatives.

(** ** Tests that have an answer *)

Lemma andM_some x y : is_Some x -> is_Some y -> is_Some (x &&& y).
Proof. intros [[] ->] Hy; cbn; eauto. Qed.
Lemma orM_some x y : is_Some x -> is_Some y -> is_Some (x ||| y).
Proof. intros [[] ->] Hy; cbn; eauto. Qed.
Lemma notM_some x : is_Some x -> is_Some (notM x).
Proof. intros [b ->]. cbn. eauto. Qed.
Lemma fmap_some {A B} (f : A -> B) (x : option A) : is_Some x -> is_Some (f <$> x).
Proof. intros [a ->]. cbn. eauto. Qed.
Lemma bind_some {A B} (x : option A) (f : A -> option B) : is_Some x -> (forall a, is_Some (f a)) -> is_Some (x ≫= f).
Proof. intros [a ->] H. cbn. apply H. Qed.
Lemma if_some {A} (b : bool) (x y : option A) : is_Some x -> is_Some y -> is_Some (if b then x else y).
Proof. by destruct b. Qed.

(** The truth of a test. *)
Definition tt (x : option bool) : bool := default false x.
Lemma tt_some x : is_Some x -> x = Some (tt x).
Proof. by intros [b ->]. Qed.
Lemma and_true x y : tt (x &&& y) = tt x && (if tt x then tt y else false).
Proof. destruct x as [[]|]; cbn; done. Qed.

#[export] Hint Resolve andM_some orM_some notM_some fmap_some if_some : tests.
#[export] Hint Extern 1 (is_Some (Some _)) => eexists; reflexivity : tests.

Section Tests.
Context {G : GLib} (h : heap) (K : forest) (OK : tree_ok h K).
Abbreviation here := (here h).

Lemma node_there n : here n -> is_Some (h !! n).
Proof. apply at_is_some. Qed.
Lemma attr_some nm n : here n -> is_Some (get_attr nm n h).
Proof. intros [d E]%node_there. unfold get_attr. rewrite E. cbn. eauto. Qed.
Lemma has_attr_some nm n : here n -> is_Some (has_attr nm n h).
Proof. intros [v E]%(attr_some nm). unfold has_attr. rewrite E. cbn. eauto. Qed.
Lemma named_some t n : here n -> is_Some (is_element_named n t h).
Proof. intros [d E]%node_there. unfold is_element_named. rewrite E. cbn. eauto. Qed.
Lemma elem_some n : here n -> is_elem n h = Some (bool_decide (kd h n = NS_NODE_ELEMENT)).
Proof. intros H. by apply has_kind_ok. Qed.
Lemma is_elem_some n : here n -> is_Some (is_elem n h).
Proof. intros H. rewrite elem_some by done. eauto. Qed.
Lemma name_some n : here n -> is_Some (node_name n h).
Proof. intros [d E]%node_there. unfold node_name. rewrite E. cbn. eauto. Qed.
Lemma text_some n : here n -> is_Some (node_text n h).
Proof. intros [d E]%node_there. unfold node_text. rewrite E. cbn. eauto. Qed.
Lemma flag_some b n : here n -> is_Some (node_flag n b h).
Proof. intros [d E]%node_there. unfold node_flag. rewrite E. cbn. eauto. Qed.
Lemma name_in_some l n : here n -> is_Some (name_in l n h).
Proof. intros H. unfold name_in. destruct (is_elem_some n H) as [? ->]. destruct (name_some n H) as [? ->]. cbn. eauto. Qed.
#[local] Hint Resolve attr_some has_attr_some named_some is_elem_some name_some text_some flag_some name_in_some : tests.
Ltac tests := auto 8 with tests.

(** Walks over relatives have an answer when the test has one. *)
Lemma any_some step p c xs : walk h step c xs -> length xs <= size h -> (forall x, x ∈ xs -> is_Some (p x h)) ->
  is_Some (any_from step p c h).
Proof.
  intros W L P. unfold any_from. rewrite (any_walk h step p (fun x => tt (p x h)) _ c xs W); [eauto| |lia].
  intros x Hx. by apply tt_some, P.
Qed.
Lemma findm_some step f c xs : walk h step c xs -> length xs <= size h -> (forall x, x ∈ xs -> is_Some (f x h)) ->
  exists r, findm_from step f c h = Some r /\ forall y, r = Some y -> exists x, x ∈ xs /\ f x h = Some (Some y).
Proof.
  intros W L P. unfold findm_from.
  rewrite (findm_walk h step f (fun x => default None (f x h)) _ c xs W); [| |lia].
  - eexists. split; [done|]. clear W L. induction xs as [|x xs IH]; cbn; [done|]. intros y.
    destruct (P x) as [v Ev]; [by left|]. rewrite Ev. cbn. destruct v as [v|].
    + intros [= ->]. exists x. split; [by left|done].
    + intros Hy. destruct (IH) with (y := y) as (x' & Hx & E); [intros; apply P; by right|done|]. exists x'. split; [by right|done].
  - intros x Hx. by destruct (P x Hx) as [v ->].
Qed.
Lemma find_some step p c xs : walk h step c xs -> length xs <= size h -> (forall x, x ∈ xs -> is_Some (p x h)) ->
  exists r, find_from step p c h = Some r /\ forall y, r = Some y -> y ∈ xs.
Proof.
  intros W L P. unfold find_from.
  destruct (findm_some step (fun n h => b ← p n h; Some (if b : bool then Some n else None)) c xs W L) as (r & E & H).
  - intros x Hx. destruct (P x Hx) as [b ->]. cbn. eauto.
  - exists r. split; [done|]. intros y Hy. destruct (H y Hy) as (x & Hx & E'). destruct (p x h) as [[]|]; cbn in E'; congruence.
Qed.

Lemma any_kids p n k : at_ n h = Some k -> (forall x, x ∈ K n -> is_Some (p x h)) -> is_Some (any_from next_sibling p (first_child k) h).
Proof. intros E P. destruct (kids_walk h K OK n k E) as [W L]. by apply (any_some _ _ _ _ W L). Qed.
Lemma any_above p n : here n -> (forall x, rtc (edge K) x n -> is_Some (p x h)) -> is_Some (any_from parent p (Some n) h).
Proof. intros Hn P. destruct (upward h K OK n Hn) as (xs & W & L & Hx). apply (any_some _ _ _ _ W L). intros x ?%Hx. by apply P. Qed.
Lemma any_parents p n k : at_ n h = Some k -> (forall x, here x -> is_Some (p x h)) -> is_Some (any_from parent p (parent k) h).
Proof.
  intros E P. destruct (parent k) as [q|] eqn:Hq; [|done].
  assert (q = q /\ edge K q n) as [_ Ed] by (split; [done|]; by apply (parent_edge h K OK _ _ _ E)).
  assert (here q) as Hh by by apply (has_links h K OK q n). apply any_above; [done|]. intros x Hx. apply P. by eapply here_up.
Qed.
Lemma kids_here n x : x ∈ K n -> here x.
Proof. apply (kid_here h K OK). Qed.

(** *** Elements around a node *)

Definition element (n : loc) : bool := bool_decide (kd h n = NS_NODE_ELEMENT).

Lemma prev_element_ok n : here n -> prev_element n h = Some (List.find element (elder h K n)).
Proof.
  intros [k E]. unfold prev_element. rewrite E. cbn. destruct (siblings_walk h K OK n k E) as (W & _ & L & _).
  unfold find_from, findm_from. rewrite (find_walk h _ is_elem element _ _ _ W); [done| |lia]. intros x Hx. apply elem_some. by eapply here_sibling; [|left].
Qed.
Lemma next_element_ok n : here n -> next_element_sibling n h = Some (List.find element (younger h K n)).
Proof.
  intros [k E]. unfold next_element_sibling. rewrite E. cbn. destruct (siblings_walk h K OK n k E) as (_ & W & _ & L).
  unfold find_from, findm_from. rewrite (find_walk h _ is_elem element _ _ _ W); [done| |lia]. intros x Hx. apply elem_some. by eapply here_sibling; [|right].
Qed.
Lemma ancestor_ok el m : here m -> exists b, ancestor_or_self_is el (Some m) h = Some b /\ (b = true <-> rtc (edge K) el m).
Proof.
  intros Hm. destruct (upward h K OK m Hm) as (xs & W & L & Hx). unfold ancestor_or_self_is, any_from.
  rewrite (any_walk h parent _ (fun x => bool_decide (x = el)) _ _ xs W); [|done|lia]. eexists. split; [done|].
  rewrite existsb_exists. split.
  - intros (x & Hin & E). apply bool_decide_eq_true in E as ->. by apply Hx, list_elem_of_In.
  - intros Hr. exists el. split; [by apply list_elem_of_In, Hx|]. by apply bool_decide_eq_true.
Qed.

(** *** The state of an element *)

Lemma link_some n : here n -> is_Some (ns_el_is_link n h).
Proof. unfold ns_el_is_link. tests. Qed.
Lemma empty_some n : here n -> is_Some (ns_el_is_empty n h).
Proof.
  intros [k E]. unfold ns_el_is_empty. rewrite E. cbn. apply notM_some, (any_kids _ n); [done|]. intros x Hx%kids_here.
  rewrite (node_kind_kd h x Hx). destruct (text_some x Hx) as [t ->]. cbn. eauto.
Qed.
Lemma supports_disabled_some n : here n -> is_Some (ns_element_supports_disabled n h).
Proof. apply name_in_some. Qed.
Lemma legend_some n : here n -> exists r, ns_fieldset_first_legend n h = Some r /\ forall l, r = Some l -> here l.
Proof.
  intros [k E]. unfold ns_fieldset_first_legend. rewrite E. cbn. destruct (kids_walk h K OK n k E) as [W L].
  destruct (find_some next_sibling (fun c h => is_element_named c ($"legend") h) _ _ W L) as (r & -> & H).
  - intros x Hx%kids_here. by apply named_some.
  - exists r. split; [done|]. intros l Hl. by eapply kids_here, H.
Qed.
Lemma contains_some a n : here n -> is_Some (ns_node_contains a n h).
Proof. intros Hn. destruct (contains_ok h K OK a n Hn) as (b & -> & _). eauto. Qed.
Lemma disabled_by_some el p : here el -> here p -> is_Some (disabled_by el p h).
Proof.
  intros He Hp. unfold disabled_by. destruct (legend_some p Hp) as (l & -> & Hl). cbn.
  apply orM_some; [tests|]. apply andM_some; [tests|]. destruct l; [|eauto]. apply notM_some, contains_some, He.
Qed.
Lemma disabled_some n : here n -> is_Some (ns_element_effectively_disabled n h).
Proof.
  intros Hn. unfold ns_element_effectively_disabled. pose proof Hn as [k E]. rewrite E. cbn.
  apply andM_some; [by apply supports_disabled_some|]. apply orM_some; [tests|]. apply (any_parents _ n k E).
  intros x Hx. by apply disabled_by_some.
Qed.
Lemma required_some n : here n -> is_Some (ns_form_control_supports_required n h).
Proof.
  intros Hn. unfold ns_form_control_supports_required. destruct (attr_some ($"type") n Hn) as [t ->]. cbn. tests.
Qed.
Lemma input_checked_some n : here n -> is_Some (ns_input_is_checked n h).
Proof.
  intros Hn. unfold ns_input_is_checked. destruct (attr_some ($"data-nd-checked") n Hn) as [[t|] ->]; cbn; tests.
Qed.
Lemma option_where_some p skip n : here n -> (forall x, here x -> is_Some (p x h)) -> (forall x, here x -> is_Some (skip x h)) ->
  is_Some (option_where p skip n h).
Proof.
  intros [k E] Hp Hs. unfold option_where. rewrite E. cbn. destruct (kids_walk h K OK n k E) as [W L].
  edestruct (findm_some next_sibling) as (r & -> & _); [exact W|exact L| |eauto].
  intros x Hx%kids_here. cbn. destruct (named_some ($"optgroup") x Hx) as [b ->]. cbn. destruct b.
  - destruct (Hs x Hx) as [b ->]. cbn. destruct b; [eauto|]. destruct Hx as [kx Ex]. rewrite Ex. cbn.
    destruct (kids_walk h K OK x kx Ex) as [Wx Lx].
    edestruct (find_some next_sibling) as (r & -> & _); [exact Wx|exact Lx| |eauto].
    intros y Hy%kids_here. cbn. apply andM_some; [tests|by apply Hp].
  - destruct (andM_some (is_element_named x ($"option") h) (p x h)) as [b ->]; [tests|by apply Hp|]. cbn. eauto.
Qed.
Lemma chosen_some n : here n -> is_Some (ns_select_chosen_option n h).
Proof.
  intros Hn. unfold ns_select_chosen_option, ns_select_first_selected_option.
  destruct (option_where_some (has_attr ($"selected")) (fun _ _ => Some false) n Hn) as [s ->]; [tests|eauto|]. cbn.
  destruct s; [eauto|]. destruct (orM_some (has_attr ($"data-nd-noselect") n h) (has_attr ($"multiple") n h)) as [b ->]; [tests..|].
  cbn. destruct (attr_some ($"size") n Hn) as [v ->]. cbn. destruct (b || _); [eauto|].
  apply option_where_some; [done| |]; intros x Hx; tests.
Qed.
Lemma parent_here n k q : at_ n h = Some k -> parent k = Some q -> here q.
Proof. intros E Hq. apply (has_links h K OK q n). by apply (parent_edge h K OK _ _ _ E). Qed.
Lemma checked_some n : here n -> is_Some (ns_el_is_checked n h).
Proof.
  intros Hn. unfold ns_el_is_checked. destruct (named_some ($"option") n Hn) as [b ->]. cbn. destruct b.
  - apply orM_some; [tests|]. pose proof Hn as [k E]. rewrite E. cbn. destruct (parent k) as [q|] eqn:Hq; [|cbn; eauto].
    pose proof (parent_here _ _ _ E Hq) as Hh. cbn. destruct (named_some ($"optgroup") q Hh) as [g ->]. cbn.
    assert (exists r, (if g then parent <$> at_ q h else Some (Some q)) = Some r /\ forall s, r = Some s -> here s) as (r & -> & Hr).
    { destruct g; [|exists (Some q); split; [done|]; by intros s [= <-]]. destruct Hh as [kq Eq]. rewrite Eq. cbn.
      eexists. split; [done|]. intros s Hs. by eapply parent_here. }
    cbn. destruct r as [s|]; [|eauto]. specialize (Hr s eq_refl). apply andM_some; [tests|].
    destruct (chosen_some s Hr) as [c ->]. cbn. eauto.
  - apply andM_some; [tests|]. destruct (attr_some ($"type") n Hn) as [[t|] ->]; cbn; [|eauto].
    apply if_some; [by apply input_checked_some|eauto].
Qed.
Lemma read_write_some n : here n -> is_Some (ns_el_is_read_write n h).
Proof.
  intros Hn. unfold ns_el_is_read_write. destruct (name_some n Hn) as [[nm|] ->]; cbn [mbind option_bind]; [|eauto].
  pose proof (disabled_some n Hn). destruct (attr_some ($"type") n Hn) as [t ->].
  destruct (attr_some ($"contenteditable") n Hn) as [ce ->]. cbn [mbind option_bind].
  apply if_some; [tests|]. apply if_some; [tests|eauto].
Qed.
Lemma text_entry_some n : here n -> is_Some (ns_input_is_text_entry n h).
Proof. intros Hn. unfold ns_input_is_text_entry. destruct (attr_some ($"type") n Hn) as [t ->]. cbn. eauto. Qed.
Lemma empty_value_some n : here n -> is_Some (empty_value n h).
Proof. intros Hn. unfold empty_value. destruct (attr_some ($"value") n Hn) as [t ->]. cbn. eauto. Qed.
Lemma collect_text_some room : forall n, here n -> is_Some (collect_text room n h).
Proof.
  induction room as [|room IH]; intros n Hn; [cbn; eauto|]. cbn [collect_text]. rewrite (node_kind_kd h n Hn). cbn [mbind option_bind].
  destruct (text_some n Hn) as [t ->]. cbn [mbind option_bind]. destruct (name_in_some [$"style"; $"script"; $"noscript"; $"template"] n Hn) as [b ->].
  cbn [mbind option_bind]. destruct Hn as [k E]. rewrite E. cbn [mbind option_bind]. destruct (bool_decide _); [eauto|]. destruct b; [eauto|].
  destruct (kids_walk h K OK n k E) as [W L]. apply (cat_walk h _ _ _ _ W); [|lia]. intros x Hx%kids_here. by apply IH.
Qed.
Lemma blank_text_some n : here n -> is_Some (blank_text n h).
Proof.
  intros Hn. unfold blank_text, ns_node_collect_text. destruct (collect_text_some NS_DOM_MAX_DEPTH n Hn) as [t ->].
  cbn [mbind option_bind]. eauto.
Qed.
Lemma placeholder_some n : here n -> is_Some (ns_el_placeholder_shown n h).
Proof.
  intros Hn. unfold ns_el_placeholder_shown. pose proof (blank_text_some n Hn). pose proof (text_entry_some n Hn).
  pose proof (empty_value_some n Hn). destruct (name_some n Hn) as [[nm|] ->]; cbn [mbind option_bind]; [|eauto]. tests.
Qed.
Lemma blank_some n : here n -> is_Some (ns_el_is_blank n h).
Proof.
  intros Hn. unfold ns_el_is_blank. destruct (named_some ($"input") n Hn) as [b ->]. cbn. pose proof (blank_text_some n Hn).
  pose proof (text_entry_some n Hn). pose proof (empty_value_some n Hn). tests.
Qed.
Lemma target_some frag n : here n -> is_Some (ns_css_node_is_target frag n h).
Proof.
  intros Hn. unfold ns_css_node_is_target. destruct frag; [|eauto]. destruct (attr_some ($"id") n Hn) as [i ->].
  destruct (name_some n Hn) as [m ->]. destruct (attr_some ($"name") n Hn) as [a ->]. cbn. eauto.
Qed.
Lemma target_within_some frag room : forall n, here n -> is_Some (ns_css_node_has_target_within frag room n h).
Proof.
  induction room as [|room IH]; intros n Hn; cbn; [eauto|]. pose proof (target_some frag n Hn).
  apply orM_some; [tests|]. apply andM_some; [tests|]. pose proof Hn as [k E]. rewrite E. cbn. apply (any_kids _ n k E).
  intros x Hx%kids_here. by apply IH.
Qed.

(** *** Names and attributes *)

Context {U : Unichar} {El : Elsewhere} (w : view).

Lemma namespace_some s n : here n -> is_Some (namespace_ok h s n).
Proof.
  intros Hn. unfold namespace_ok, element_namespace. destruct (attr_some ($"data-nd-ns-uri") n Hn) as [u ->].
  destruct (flag_some NS_NODE_SVG_NS_BIT n Hn) as [a ->]. destruct (flag_some NS_NODE_FOREIGN_NS_BIT n Hn) as [b ->].
  destruct (flag_some NS_NODE_XML_DOC_BIT n Hn) as [c ->]. cbn. eauto.
Qed.
Lemma type_some s n : here n -> is_Some (type_ok h s n).
Proof.
  intros Hn. unfold type_ok. destruct (s_type s); [|eauto]. destruct (strcmp0 _ _); [eauto|].
  destruct (name_some n Hn) as [nm ->]. destruct (has_attr_some ($"data-nd-ns-prefix") n Hn) as [p ->].
  destruct (flag_some NS_NODE_SVG_NS_BIT n Hn) as [a ->]. destruct (flag_some NS_NODE_FOREIGN_NS_BIT n Hn) as [b ->].
  destruct (flag_some NS_NODE_XML_DOC_BIT n Hn) as [c ->]. cbn. eauto.
Qed.
Lemma id_some s n : here n -> is_Some (id_ok h s n).
Proof. intros Hn. unfold id_ok. destruct (s_id s); [|eauto]. destruct (attr_some ($"id") n Hn) as [v ->]. cbn. eauto. Qed.
Lemma classes_some s n : here n -> is_Some (classes_ok h s n).
Proof. intros [d E]%node_there. unfold classes_ok. rewrite E. cbn. eauto. Qed.
Lemma attrs_some s n : here n -> is_Some (attrs_ok h s n).
Proof. intros [d E]%node_there. unfold attrs_ok. rewrite E. cbn. eauto. Qed.
Lemma visited_some n : here n -> is_Some (ns_el_is_visited_link w h n).
Proof.
  intros Hn. unfold ns_el_is_visited_link. destruct (g_css_doc_base w); [|eauto]. pose proof (link_some n Hn).
  apply andM_some; [done|]. destruct (attr_some ($"href") n Hn) as [v ->]. cbn. eauto.
Qed.
End Tests.

#[export] Hint Resolve attr_some has_attr_some named_some is_elem_some name_some text_some flag_some name_in_some
  link_some empty_some supports_disabled_some disabled_some required_some checked_some read_write_some placeholder_some
  blank_some target_some target_within_some visited_some namespace_some type_some id_some classes_some attrs_some : tests.
