(* ===== verification/SelMeaning.v ===== *)
(** * What a selector means

    The meaning of selectors over the tree the links stand for: compounds joined by
    combinators, places among siblings, groups of [:is()] and [:not()], relatives
    of [:has()]. The tests of pseudo-classes that only look at the state of one
    element are those of [NodeState]. *)

From stdpp Require Import functions relations.
From S2P Require Import Prelude CStr GLib CssSyntax Xml Element DomStore DomTree Dom DomSpec Selector NodeState SelMatch SelTree.

(** The most compounds of a selector, those of its groups included. *)
Fixpoint sel_width (s : ns_css_selector) : nat :=
  Nat.max (length (compounds s)) (list_height (fun c => simple_height sel_width (snd c)) (compounds s)).

(** ** Meaning *)

Section Meaning.
Context {G : GLib} {U : Unichar} {El : Elsewhere} (w : view) (h : heap) (K : forest).
Abbreviation element := (element h).
Abbreviation elder := (elder h K).
Abbreviation younger := (younger h K).

(** An ancestor with no document on the way to it. *)
Inductive encloses : loc -> loc -> Prop :=
| encloses_parent m n : n ∈ K m -> kd h m <> NS_NODE_DOCUMENT -> encloses m n
| encloses_above m p n : n ∈ K p -> kd h p <> NS_NODE_DOCUMENT -> encloses m p -> encloses m n.

(** [m] is where the combinator sends from [n]. *)
Definition joined (c : ns_css_comb) (m n : loc) : Prop :=
  match c with
  | NS_CSS_COMB_CHILD => n ∈ K m
  | NS_CSS_COMB_ADJACENT => List.find element (elder n) = Some m
  | NS_CSS_COMB_SIBLING => m ∈ elder n /\ element m = true
  | NS_CSS_COMB_NONE | NS_CSS_COMB_DESCENDANT => encloses m n
  end.

Section Compounds.
Variable T : ns_css_simple -> loc -> Prop.

Fixpoint chain_means (comb : ns_css_comb) (before : list (ns_css_comb * ns_css_simple)) (cur : loc) : Prop :=
  match before with
  | [] => True
  | (comb', prev) :: more => exists m, joined comb m cur /\ T prev m /\ chain_means comb' more m
  end.
Definition complex_means (s : ns_css_selector) (n : loc) : Prop :=
  match rev (compounds s) with
  | [] => False
  | (comb, last) :: before => T last n /\ chain_means comb before n
  end.

(** A descendant with only elements on the way to it. *)
Inductive under : loc -> loc -> Prop :=
| under_kid a c : c ∈ K a -> element c = true -> under a c
| under_deep a b c : b ∈ K a -> element b = true -> under b c -> under a c.

Definition rel_joined (c : ns_css_comb) (base m : loc) : Prop :=
  match c with
  | NS_CSS_COMB_CHILD => m ∈ K base
  | NS_CSS_COMB_ADJACENT => List.find element (younger base) = Some m
  | NS_CSS_COMB_SIBLING => m ∈ younger base
  | NS_CSS_COMB_NONE | NS_CSS_COMB_DESCENDANT => under base m
  end.
Fixpoint rel_means (rest : list (ns_css_comb * ns_css_simple)) (base : loc) : Prop :=
  match rest with
  | [] => True
  | (comb, cmp) :: rest' => exists m, rel_joined comb base m /\ element m = true /\ T cmp m /\ rel_means rest' m
  end.
(** A first compound that names the scope may be the anchor itself. *)
Definition rel_first (rest : list (ns_css_comb * ns_css_simple)) (anchor : loc) : Prop :=
  rel_means rest anchor \/
  match rest with
  | (NS_CSS_COMB_NONE, cmp) :: rest' | (NS_CSS_COMB_DESCENDANT, cmp) :: rest' =>
      has_simple_scope_pseudo cmp = true /\ element anchor = true /\ T cmp anchor /\ rel_means rest' anchor
  | _ => False
  end.
End Compounds.

Section Groups.
Variable T : option loc -> ns_css_simple -> loc -> Prop.

Definition sel_means (scope : option loc) (s : ns_css_selector) (n : loc) : Prop :=
  pseudo_element s = NS_CSS_PE_NONE /\ complex_means (T scope) s n.
Definition group_means (scope : option loc) (g : list ns_css_selector) (n : loc) : Prop :=
  exists s, s ∈ g /\ sel_means scope s n.
Definition has_means (g : list ns_css_selector) (anchor : loc) : Prop :=
  exists s, s ∈ g /\ pseudo_element s = NS_CSS_PE_NONE /\ rel_first (T (Some anchor)) (compounds s) anchor.

Definition named_as (n c : loc) : Prop :=
  exists nm, node_name n h = Some (Some nm) /\ is_element_named c nm h = Some true.

(** [n] counts for the place, and its place is [an + b] for an [n] from 0. *)
Definition nth_means (typed : bool) (side : list loc) (scope : option loc) (q : ns_css_pseudo_pred) (n : loc) : Prop :=
  let listed c := match of_group q with None => True | Some g => group_means scope g c end in
  listed n /\
  exists cs, cs `sublist_of` side /\
    (forall c, c ∈ side -> c ∈ cs <-> element c = true /\ (typed = true -> named_as n c) /\ listed c) /\
    exists k, (0 <= k)%Z /\ (1 + Z.of_nat (length cs) = pc_a q * k + pc_b q)%Z.

Definition pseudo_means (scope : option loc) (q : ns_css_pseudo_pred) (n : loc) : Prop :=
  match pc_kind q with
  | NS_CSS_PC_FIRST_CHILD => forall c, c ∈ elder n -> element c = false
  | NS_CSS_PC_LAST_CHILD => forall c, c ∈ younger n -> element c = false
  | NS_CSS_PC_ONLY_CHILD => forall c, c ∈ elder n \/ c ∈ younger n -> element c = false
  | NS_CSS_PC_FIRST_OF_TYPE => has_name h n = Some true /\ forall c, c ∈ elder n -> ~ named_as n c
  | NS_CSS_PC_LAST_OF_TYPE => has_name h n = Some true /\ forall c, c ∈ younger n -> ~ named_as n c
  | NS_CSS_PC_ONLY_OF_TYPE => has_name h n = Some true /\ forall c, c ∈ elder n \/ c ∈ younger n -> ~ named_as n c
  | NS_CSS_PC_NTH_CHILD => nth_means false (elder n) scope q n
  | NS_CSS_PC_NTH_LAST_CHILD => nth_means false (younger n) scope q n
  | NS_CSS_PC_NTH_OF_TYPE => nth_means true (elder n) scope q n
  | NS_CSS_PC_NTH_LAST_OF_TYPE => nth_means true (younger n) scope q n
  | NS_CSS_PC_ROOT => exists p, n ∈ K p /\ is_doc h p = true
  | NS_CSS_PC_SCOPE => match scope with Some s => n = s | None => forall p, n ∈ K p -> element p = false end
  | NS_CSS_PC_HOVER => exists m, g_css_hover_node w = Some m /\ rtc (edge K) n m
  | NS_CSS_PC_ACTIVE => exists m, g_css_active_node w = Some m /\ rtc (edge K) n m
  | NS_CSS_PC_FOCUS_WITHIN => exists m, g_css_focus_node w = Some m /\ rtc (edge K) n m
  | _ => pseudo_ok w h (fun _ _ _ => None) scope q n = Some true
  end.
End Groups.

Fixpoint simple_means (fuel : nat) (scope : option loc) (s : ns_css_simple) (n : loc) : Prop :=
  match fuel with
  | O => False
  | S f =>
      never_match s = false /\ element n = true /\ namespace_ok h s n = Some true /\ type_ok h s n = Some true /\
      id_ok h s n = Some true /\ classes_ok h s n = Some true /\ attrs_ok h s n = Some true /\
      (forall q, q ∈ s_pseudos s -> pseudo_means (simple_means f) scope q n) /\
      (forall g, g ∈ matches_any s -> group_means (simple_means f) scope g n) /\
      (forall g, g ∈ matches_none s -> ~ group_means (simple_means f) scope g n) /\
      (forall g, g ∈ has_groups s -> has_means (simple_means f) g n)
  end.
Definition selector_means (scope : option loc) (s : ns_css_selector) (n : loc) : Prop :=
  sel_means (simple_means (sel_height s)) scope s n.
End Meaning.

(** ** Decisions *)

Definition decides (x : option bool) (P : Prop) : Prop := exists b, x = Some b /\ (b = true <-> P).

Lemma decides_ext x P Q : (P <-> Q) -> decides x P -> decides x Q.
Proof. intros E (b & -> & H). exists b. split; [done|]. by rewrite H. Qed.
Lemma decides_true (b : bool) P : (b = true <-> P) -> decides (Some b) P.
Proof. intros H. by exists b. Qed.
Lemma decides_some x : is_Some x -> decides x (x = Some true).
Proof. intros [b ->]. exists b. split; [done|]. split; congruence. Qed.
Lemma decides_and x y P Q : decides x P -> (P -> decides y Q) -> decides (x &&& y) (P /\ Q).
Proof.
  intros (b & -> & Hb) Hy. destruct b; cbn.
  - destruct Hy as (c & -> & Hc); [by apply Hb|]. exists c. split; [done|]. rewrite Hc. tauto.
  - exists false. split; [done|]. rewrite <- Hb. split; [done|tauto].
Qed.
Lemma decides_or x y P Q : decides x P -> decides y Q -> decides (x ||| y) (P \/ Q).
Proof.
  intros (b & -> & Hb) (c & -> & Hc). destruct b; cbn; [exists true|exists c]; (split; [done|]); tauto || (rewrite <- Hb, Hc; intuition congruence).
Qed.
Lemma decides_not x P : decides x P -> decides (notM x) (~ P).
Proof. intros (b & -> & H). exists (negb b). split; [done|]. rewrite <- H. destruct b; cbn; intuition congruence. Qed.
Lemma decides_all {A} f (P : A -> Prop) l : (forall x, x ∈ l -> decides (f x) (P x)) -> decides (allM f l) (forall x, x ∈ l -> P x).
Proof.
  induction l as [|a l IH]; intros H; cbn.
  - apply decides_true. split; [|done]. intros _ x Hx. by apply not_elem_of_nil in Hx.
  - eapply decides_ext; [|apply decides_and; [apply H; by left|intros _; apply IH; intros x Hx; apply H; by right]].
    split; [intros [H1 H2] x [->|Hx]%elem_of_cons; auto|]. intros Hl. split; [apply Hl; by left|]. intros x Hx. apply Hl. by right.
Qed.
Lemma decides_any h step p P c xs : walk h step c xs -> length xs <= size h -> (forall x, x ∈ xs -> decides (p x h) (P x)) ->
  decides (any_from step p c h) (exists x, x ∈ xs /\ P x).
Proof.
  intros W L H. unfold any_from. rewrite (any_walk h step p (fun x => tt (p x h)) _ c xs W); [| |lia].
  - apply decides_true. rewrite existsb_exists. setoid_rewrite <- list_elem_of_In.
    split; intros (x & Hx & Hp); exists x; (split; [done|]); destruct (H x Hx) as (b & E & Hb); rewrite E in *; cbn in *; tauto.
  - intros x Hx. destruct (H x Hx) as (b & -> & _). done.
Qed.

(** ** Places *)

Lemma nth_place_spec a b i : nth_place a b i = true <-> exists k, (0 <= k)%Z /\ i = (a * k + b)%Z.
Proof.
  unfold nth_place. destruct (Z.eqb_spec a 0) as [->|Ha].
  - rewrite Z.eqb_eq. split; [intros ->; exists 0%Z; lia|]. intros (k & _ & ->). lia.
  - rewrite andb_true_iff, Z.eqb_eq, Z.leb_le. split.
    + intros [Hr Hq]. exists (Z.quot (i - b) a). split; [done|]. pose proof (Z.quot_rem' (i - b) a). lia.
    + intros (k & Hk & ->). replace (a * k + b - b)%Z with (k * a)%Z by lia. rewrite Z.rem_mul, Z.quot_mul by done. done.
Qed.
