(* ===== verification/SelSpec.v ===== *)
(** * The matcher decides the meaning of a selector

    Every test of [SelMatch] has an answer on a tree, and the answer is the meaning
    of [SelMeaning]: first the combinators and the relatives of [:has()], then the
    pseudo-classes, then selectors by induction on the nesting of their groups. *)

From stdpp Require Import functions relations.
From S2P Require Import Prelude CStr GLib CssSyntax Xml Element DomStore DomTree Dom DomSpec Selector NodeState SelMatch SelTree SelMeaning.

(** ** The matcher *)

Section Matcher.
Context {G : GLib} {U : Unichar} {El : Elsewhere} (w : view) (h : heap) (K : forest) (OK : tree_ok h K).
Abbreviation here := (here h).
Abbreviation element := (element h).
Abbreviation elder := (elder h K).
Abbreviation younger := (younger h K).

Lemma decides_elem n : here n -> decides (is_elem n h) (element n = true).
Proof. intros Hn. rewrite elem_some by done. by apply decides_true. Qed.

(** *** Combinators *)

Section Chain.
Context (simple : ns_css_simple -> loc -> option bool) (T : ns_css_simple -> loc -> Prop).

Lemma up_decides test P n k : at_ n h = Some k -> (forall m, here m -> kd h m <> NS_NODE_DOCUMENT -> decides (test m) (P m)) ->
  decides (up_loop h test (S (size h)) (parent k)) (exists m, encloses h K m n /\ P m).
Proof.
  intros E H.
  assert (exists xs, walk h parent (parent k) xs /\ length xs <= size h) as (xs & W & L).
  { destruct (parent k) as [q|] eqn:Hq; [|exists []; split; [constructor|cbn; lia]].
    destruct (upward h K OK q) as (xs & W & L & _); [by eapply parent_here|]. eauto. }
  assert (forall m, m ∈ before_document h xs <-> encloses h K m n) as Hon.
  { clear - OK E W. remember (parent k) as c eqn:Ec. revert n k E Ec. induction W as [|x l xs Ex W IH]; intros n k E Ec m.
    - split; [intros Hm; by apply not_elem_of_nil in Hm|]. intros He. exfalso.
      destruct He as [m n He|m p n He]; apply (parent_edge h K OK _ _ _ E) in He; congruence.
    - symmetry in Ec. pose proof (proj1 (parent_edge h K OK _ _ _ E) Ec) as Hx. unfold before_document. cbn.
      destruct (bool_decide (kd h x = NS_NODE_DOCUMENT)) eqn:Hd; cbn.
      + apply bool_decide_eq_true in Hd. split; [intros Hm; by apply not_elem_of_nil in Hm|]. intros He. exfalso.
        destruct He as [m n He Hk|m p n He Hk]; pose proof (one_parent h K OK _ _ _ He Hx); congruence.
      + apply bool_decide_eq_false in Hd. rewrite elem_of_cons. rewrite (IH x l Ex eq_refl). split.
        * intros [->|He]; [by constructor|by eapply encloses_above].
        * intros He. destruct He as [m n He Hk|m p n He Hk He']; pose proof (one_parent h K OK _ _ _ He Hx) as ->; auto. }
  assert (forall m, m ∈ before_document h xs -> decides (test m) (P m)) as Hd.
  { intros m Hm%Hon. destruct Hm as [m n He Hk|m p n He Hk Hm]; (apply H; [|]).
    1: by apply (has_links h K OK m n). 1: done.
    - clear - OK Hm. induction Hm as [m n He|m p n He Hk Hm IH]; [by apply (has_links h K OK m n)|done].
    - clear - Hm. by induction Hm. }
  rewrite (up_walk h test (fun x => tt (test x)) _ _ xs W); [| |lia].
  - apply decides_true. rewrite existsb_exists. setoid_rewrite <- list_elem_of_In.
    split; intros (m & Hm & Hp); exists m.
    + split; [by apply Hon|]. destruct (Hd m Hm) as (b & Eb & Hb). rewrite Eb in Hp. by apply Hb.
    + apply Hon in Hm. split; [done|]. destruct (Hd m Hm) as (b & Eb & Hb). rewrite Eb. by apply Hb.
  - intros m Hm. destruct (Hd m Hm) as (b & -> & _). done.
Qed.

Lemma find_elem t (l : list loc) m : List.find t l = Some m -> m ∈ l /\ t m = true.
Proof. intros H. apply List.find_some in H as [?%list_elem_of_In ?]. done. Qed.

Lemma chain_decides before : forall comb cur, here cur ->
  (forall m c s, (c, s) ∈ before -> here m -> decides (simple s m) (T s m)) ->
  decides (match_complex_chain h simple comb before cur) (chain_means h K T comb before cur).
Proof.
  induction before as [|[comb' prev] more IH]; intros comb cur Hc Hs; cbn -[up_loop]; [by apply decides_true|].
  pose proof Hc as [k E]. rewrite E. cbn -[up_loop].
  set (test n := simple prev n &&& match_complex_chain h simple comb' more n).
  set (P n := T prev n /\ chain_means h K T comb' more n).
  assert (forall m, here m -> decides (test m) (P m)) as Ht.
  { intros m Hm. apply decides_and; [apply (Hs m comb'); [by left|done]|]. intros _. apply IH; [done|].
    intros m' c s Hx. apply (Hs m' c). by right. }
  assert (decides (up_loop h test (S (size h)) (parent k)) (exists m, encloses h K m cur /\ P m)) as Hup.
  { apply (up_decides test P cur k E). intros m Hm _. by apply Ht. }
  destruct (siblings_walk h K OK cur k E) as (W & _ & L & _). destruct comb; try exact Hup.
  - destruct (parent k) as [q|] eqn:Hq.
    + pose proof (proj1 (parent_edge h K OK _ _ _ E) Hq) as Hk.
      eapply decides_ext; [|apply Ht; by eapply parent_here]. split; [intros Hp; by exists q|].
      intros (m & Hm & Hp). by rewrite (one_parent h K OK _ _ _ Hk Hm).
    + apply decides_true. split; [done|]. intros (m & Hm & _). apply (parent_edge h K OK _ _ _ E) in Hm. congruence.
  - rewrite (prev_element_ok h K OK cur Hc). cbn. destruct (List.find element (elder cur)) as [s|] eqn:Ef.
    + apply find_elem in Ef as [Hm _]. eapply decides_ext; [|apply Ht; by eapply here_sibling; [|left]].
      split; [intros Hp; by exists s|]. by intros (m & [= ->] & Hp).
    + apply decides_true. split; [done|]. by intros (m & ? & _).
  - eapply decides_ext; [|apply (decides_any h prev_sibling _ (fun m => element m = true /\ P m) _ _ W L)].
    + unfold joined, P. split; intros (m & H1 & H2); exists m; tauto.
    + intros m Hm. assert (here m) by by eapply here_sibling; [|left]. apply decides_and; [by apply decides_elem|]. intros _. by apply Ht.
Qed.

Lemma structural_decides s n : here n -> (forall m c x, (c, x) ∈ compounds s -> here m -> decides (simple x m) (T x m)) ->
  decides (match_selector_structural h simple s n) (complex_means h K T s n).
Proof.
  intros Hn Hs. unfold match_selector_structural, complex_means.
  assert (forall m c x, (c, x) ∈ rev (compounds s) -> here m -> decides (simple x m) (T x m)) as Hr.
  { intros m c x Hx. apply (Hs m c). by rewrite list_elem_of_In, in_rev, <- list_elem_of_In. }
  destruct (rev (compounds s)) as [|[comb last] before]; [by apply decides_true|].
  apply decides_and; [apply (Hr n comb); [by left|done]|]. intros _. apply chain_decides; [done|].
  intros m c x Hx. apply (Hr m c). by right.
Qed.

(** *** Relatives

    [fits d n]: no path down from [n] is longer than [d]. *)

Fixpoint fits (d : nat) (n : loc) : Prop :=
  match d with O => K n = [] | S d => forall c, c ∈ K n -> fits d c end.
(** The node and its siblings. *)
Definition low (d : nat) (n : loc) : Prop := fits d n /\ forall p, n ∈ K p -> fits (S d) p.

Lemma low_kid d n c : low d n -> c ∈ K n -> exists d', d = S d' /\ low d' c.
Proof.
  intros [F _] Hc. destruct d as [|d]; cbn in F; [rewrite F in Hc; by apply not_elem_of_nil in Hc|].
  exists d. split; [done|]. split; [by apply F|]. intros p Hp. rewrite <- (one_parent h K OK _ _ _ Hc Hp). exact F.
Qed.
Lemma low_sibling d n x : low d n -> x ∈ elder n \/ x ∈ younger n -> low d x.
Proof.
  intros [_ F] (p & _ & Hn & Hx)%(sibling_kid h K OK). specialize (F p Hn). split; [by apply F|].
  intros q Hq. by rewrite <- (one_parent h K OK _ _ _ Hx Hq).
Qed.

Context (good : ns_css_simple -> Prop) (Hs : forall m x, good x -> here m -> decides (simple x m) (T x m)).
Abbreviation all_good := (Forall (fun c : ns_css_comb * ns_css_simple => good (snd c))).

Definition try_means (cmp : ns_css_simple) (rest' : list (ns_css_comb * ns_css_simple)) (m : loc) : Prop :=
  element m = true /\ T cmp m /\ rel_means h K T rest' m.

Lemma try_decides room cmp rest' anchor m : good cmp -> here m ->
  decides (relative_chain_matches h simple room false rest' anchor m) (rel_means h K T rest' m) ->
  decides (is_elem m h &&& simple cmp m &&& relative_chain_matches h simple room false rest' anchor m) (try_means cmp rest' m).
Proof.
  intros Hg Hm Hc. apply (decides_ext _ ((element m = true /\ T cmp m) /\ rel_means h K T rest' m)); [unfold try_means; tauto|].
  apply decides_and; [apply decides_and; [by apply decides_elem|]|done]. intros _. by apply Hs.
Qed.

Lemma desc_step room cmp rest' anchor base d : good cmp -> here base -> low d base ->
  (forall c d', d = S d' -> here c -> low d' c ->
    decides (relative_chain_matches h simple room false rest' anchor c) (rel_means h K T rest' c) /\
    decides (relative_descendant_matches h simple room cmp rest' anchor c) (exists m, under h K c m /\ try_means cmp rest' m)) ->
  decides (relative_descendant_matches h simple (S room) cmp rest' anchor base) (exists m, under h K base m /\ try_means cmp rest' m).
Proof.
  intros Hg [k E] L Hc. cbn [relative_descendant_matches]. rewrite E. cbn [mbind option_bind].
  destruct (kids_walk h K OK base k E) as [W B].
  set (P c := element c = true /\ (try_means cmp rest' c \/ exists m, under h K c m /\ try_means cmp rest' m)).
  eapply decides_ext; [|apply (decides_any h next_sibling _ P _ _ W B)].
  - unfold P. split.
    + intros (c & Hk & He & [Ht|(m & Hu & Ht)]); [exists c; split; [by constructor|done]|].
      exists m. split; [by eapply under_deep|done].
    + intros (m & Hu & Ht). destruct Hu as [a c Hk He|a b c Hk He Hu]; [exists c|exists b]; eauto 6.
  - intros c Hk. pose proof (here_kid h K OK _ _ Hk) as Hh. destruct (low_kid d base c L Hk) as (d' & Ed & L').
    destruct (Hc c d' Ed Hh L') as [H1 H2]. apply decides_and; [by apply decides_elem|]. intros _.
    apply decides_or; [by apply try_decides|exact H2].
Qed.

Lemma chain_step room comb cmp rest' anchor base d : good cmp -> here base -> low d base ->
  (forall m d', here m -> low d' m -> d' <= d -> decides (relative_chain_matches h simple room false rest' anchor m) (rel_means h K T rest' m)) ->
  decides (relative_descendant_matches h simple room cmp rest' anchor base) (exists m, under h K base m /\ try_means cmp rest' m) ->
  decides (relative_chain_matches h simple (S room) false ((comb, cmp) :: rest') anchor base) (rel_means h K T ((comb, cmp) :: rest') base).
Proof.
  intros Hg Hb L Hc Hd. pose proof Hb as [k E]. cbn [relative_chain_matches andb]. rewrite E. cbn [mbind option_bind].
  destruct (siblings_walk h K OK base k E) as (_ & Wn & _ & Bn). destruct (kids_walk h K OK base k E) as [Wk Bk].
  assert (forall x, x ∈ younger base -> here x /\ low d x) as Hy.
  { intros x Hx. split; [by eapply here_sibling; [|right]|by eapply low_sibling; [|right]]. }
  destruct comb.
  - eapply decides_ext; [|exact Hd]. cbn. unfold try_means. done.
  - eapply decides_ext; [|exact Hd]. cbn. unfold try_means. done.
  - eapply decides_ext; [|apply (decides_any h next_sibling _ (try_means cmp rest') _ _ Wk Bk)]; [cbn; unfold try_means; done|].
    intros c Hk. destruct (low_kid d base c L Hk) as (d' & -> & L'). pose proof (here_kid h K OK _ _ Hk).
    apply try_decides; [done|done|]. apply (Hc c d'); [done|done|lia].
  - rewrite (next_element_ok h K OK base Hb). cbn [mbind option_bind]. destruct (List.find element (younger base)) as [s|] eqn:Ef.
    + destruct (find_elem _ _ _ Ef) as [Hm _]. destruct (Hy s Hm) as [H1 H2].
      eapply decides_ext; [|apply try_decides; [done|exact H1|by apply (Hc s d)]].
      cbn. rewrite Ef. unfold try_means. split; [intros Ht; by exists s|]. by intros (m & [= ->] & Ht).
    + apply decides_true. cbn. rewrite Ef. split; [done|]. by intros (m & ? & _).
  - eapply decides_ext; [|apply (decides_any h next_sibling _ (fun m => element m = true /\ try_means cmp rest' m) _ _ Wn Bn)].
    + cbn. unfold try_means. split; intros (m & H1 & H2); exists m; tauto.
    + intros m Hm. destruct (Hy m Hm) as [H1 H2]. apply decides_and; [by apply decides_elem|]. intros _.
      apply try_decides; [done|done|by apply (Hc m d)].
Qed.

Lemma relative_decides room : forall anchor base d, here base -> low d base ->
  (forall rest, all_good rest -> d + length rest < room ->
    decides (relative_chain_matches h simple room false rest anchor base) (rel_means h K T rest base)) /\
  (forall cmp rest', good cmp -> all_good rest' -> d + length rest' < room ->
    decides (relative_descendant_matches h simple room cmp rest' anchor base) (exists m, under h K base m /\ try_means cmp rest' m)).
Proof.
  induction room as [|room IH]; intros anchor base d Hb L; (split; [intros rest Hg Hr|intros cmp rest' Hg Hg' Hr]; try lia).
  - destruct rest as [|[comb cmp] rest']; [by apply decides_true|]. cbn in Hr.
    apply Forall_cons in Hg as [Hg Hg']. apply (chain_step _ _ _ _ _ _ d); [done|done|done| |].
    + intros m d' Hm Lm Hd. apply (IH anchor m d'); [done..|lia].
    + apply (IH anchor base d); [done..|lia].
  - apply (desc_step _ _ _ _ _ d); [done|done|done|]. intros c d' -> Hc Lc.
    split; [apply (IH anchor c d')|apply (IH anchor c d')]; try done; lia.
Qed.

(** A relative selector from its anchor. *)
Lemma relative_first_decides room rest anchor d : all_good rest -> here anchor -> low d anchor -> d + length rest < room ->
  decides (relative_chain_matches h simple room true rest anchor anchor) (rel_first h K T rest anchor).
Proof.
  intros Hg Ha L Hr. destruct (relative_decides room anchor anchor d Ha L) as [H1 _]. specialize (H1 rest Hg Hr).
  destruct rest as [|[comb cmp] rest'].
  { destruct room; [lia|]. cbn. apply decides_true. unfold rel_first. cbn. tauto. }
  destruct room as [|room]; [lia|]. cbn in Hr. apply Forall_cons in Hg as [Hg Hg']. cbn in Hg. destruct (relative_decides room anchor anchor d Ha L) as [H2 H3].
  assert (decides ((if has_simple_scope_pseudo cmp then is_elem anchor h &&& simple cmp anchor &&&
      relative_chain_matches h simple room false rest' anchor anchor else Some false) |||
      relative_descendant_matches h simple room cmp rest' anchor anchor)
    ((has_simple_scope_pseudo cmp = true /\ try_means cmp rest' anchor) \/ exists m, under h K anchor m /\ try_means cmp rest' m)) as Hf.
  { apply decides_or; [|apply H3; [done|done|lia]]. destruct (has_simple_scope_pseudo cmp).
    - eapply decides_ext; [|apply try_decides; [done|done|apply H2; [done|lia]]]. tauto.
    - apply decides_true. intuition congruence. }
  unfold rel_first. destruct comb; try (eapply decides_ext; [|exact H1]; tauto); cbn [relative_chain_matches];
    (eapply decides_ext; [|exact Hf]); cbn; unfold try_means; tauto.
Qed.
End Chain.

(** *** Pseudo-classes *)

Definition view_ok : Prop :=
  forall m, g_css_hover_node w = Some m \/ g_css_active_node w = Some m \/ g_css_focus_node w = Some m -> here m.

Section Pseudo.
Context (sub : option loc -> ns_css_selector -> loc -> option bool) (T : option loc -> ns_css_simple -> loc -> Prop) (V : view_ok).

Definition group_ok (g : list ns_css_selector) : Prop :=
  forall scope m, here m -> decides (selector_group_matches_element sub scope g m) (group_means h K T scope g m).

Lemma none_matches {A} (t : A -> bool) l : List.find t l = None <-> forall x, x ∈ l -> t x = false.
Proof.
  split.
  - intros H x Hx. apply (List.find_none _ _ H). by apply list_elem_of_In.
  - induction l as [|x l IH]; intros H; cbn; [done|]. rewrite (H x) by set_solver +. apply IH. intros y Hy. apply H. by right.
Qed.
Lemma decides_none x (l : list loc) : x = Some (List.find element l) ->
  decides (s ← x; Some (bool_decide (s = None))) (forall c, c ∈ l -> element c = false).
Proof. intros ->. cbn. apply decides_true. by rewrite bool_decide_eq_true, none_matches. Qed.

Lemma has_name_some n : here n -> is_Some (has_name h n).
Proof. intros Hn. unfold has_name. destruct (name_some h n Hn) as [v ->]. cbn. eauto. Qed.
Lemma same_named_decides step n k side : here n -> at_ n h = Some k -> walk h step (step k) side -> length side <= size h ->
  (forall x, x ∈ side -> here x) -> decides (same_named h step n) (exists c, c ∈ side /\ named_as h n c).
Proof.
  intros Hn E W L Hh. unfold same_named, named_as. destruct (name_some h n Hn) as [nm ->]. rewrite E. cbn. destruct nm as [nm|].
  - eapply decides_ext; [|apply (decides_any h step _ (fun c => is_element_named c nm h = Some true) _ _ W L)].
    + split; intros (c & Hc & Hn'); exists c; (split; [done|]); [eauto|]. by destruct Hn' as (nm' & [= <-] & ?).
    + intros x Hx. apply decides_some, named_some, Hh, Hx.
  - apply decides_true. split; [done|]. by intros (c & _ & nm & ? & _).
Qed.

Lemma same_members (side cs ds : list loc) : NoDup side -> cs `sublist_of` side -> ds `sublist_of` side ->
  (forall c, c ∈ side -> c ∈ cs <-> c ∈ ds) -> length cs = length ds.
Proof.
  intros N Hc Hd E. apply Permutation_length, NoDup_Permutation; [by eapply sublist_NoDup|by eapply sublist_NoDup|].
  intros x. split; intros Hx; apply E; try done; by eapply elem_of_sublist.
Qed.
Lemma kept_sublist (t : loc -> bool) l : List.filter t l `sublist_of` l.
Proof. induction l as [|x l IH]; cbn; [done|]. destruct (t x); by constructor. Qed.

Lemma nth_decides typed step side scope q n k : here n -> at_ n h = Some k ->
  walk h step (step k) side -> length side <= size h -> NoDup side -> (forall x, x ∈ side -> here x) ->
  (forall g, of_group q = Some g -> group_ok g) ->
  step = (if bool_decide (pc_kind q = NS_CSS_PC_NTH_LAST_CHILD) || bool_decide (pc_kind q = NS_CSS_PC_NTH_LAST_OF_TYPE) then next_sibling else prev_sibling) ->
  typed = bool_decide (pc_kind q = NS_CSS_PC_NTH_OF_TYPE) || bool_decide (pc_kind q = NS_CSS_PC_NTH_LAST_OF_TYPE) ->
  decides (i ← ns_css_sibling_counts_for_nth h sub scope q n; Some (match i with Some i => nth_place (pc_a q) (pc_b q) i | None => false end))
    (nth_means h K T typed side scope q n).
Proof.
  intros Hn E W L N Hh Hg Es Et. unfold ns_css_sibling_counts_for_nth. cbv zeta. rewrite <- Es, <- Et.
  set (counted m := match of_group q with None => Some true | Some g => selector_group_matches_element sub scope g m end).
  set (listed m := match of_group q with None => True | Some g => group_means h K T scope g m end).
  assert (forall m, here m -> decides (counted m) (listed m)) as Hc.
  { intros m Hm. unfold counted, listed. destruct (of_group q) as [g|]; [by apply Hg|by apply decides_true]. }
  destruct (name_some h n Hn) as [nm Enm]. rewrite Enm, E. cbn [mbind option_bind].
  match goal with |- context [tally_from step ?f _ _] => set (p := f) end.
  assert (forall c, c ∈ side -> decides (p c h) (element c = true /\ (typed = true -> named_as h n c) /\ listed c)) as Hp.
  { intros c Hx. pose proof (Hh c Hx) as Hm. unfold p.
    apply (decides_ext _ ((element c = true /\ (typed = true -> named_as h n c)) /\ listed c)); [tauto|].
    apply decides_and; [|intros _; by apply Hc]. apply decides_and; [by apply decides_elem|]. intros _. destruct typed; [|by apply decides_true].
    unfold named_as. rewrite Enm. destruct nm as [nm|].
    - eapply decides_ext; [|apply decides_some, named_some, Hm]. split; [eauto|]. intros H. by destruct (H eq_refl) as (? & [= <-] & ?).
    - apply decides_true. split; [done|]. intros H. by destruct (H eq_refl) as (? & ? & _). }
  clearbody p. unfold tally_from. rewrite (tally_walk h step p (fun x => tt (p x h)) _ _ side W); [| |lia].
  2:{ intros x Hx. destruct (Hp x Hx) as (b & -> & _). done. }
  destruct (Hc n Hn) as (own & Eo & Hown). unfold counted in Eo. rewrite Eo. cbn [mbind option_bind].
  set (cs := List.filter (fun x => tt (p x h)) side).
  assert (forall c, c ∈ side -> c ∈ cs <-> element c = true /\ (typed = true -> named_as h n c) /\ listed c) as Hcs.
  { intros c Hx. unfold cs. rewrite list_elem_of_In, filter_In, <- list_elem_of_In. destruct (Hp c Hx) as (b & -> & Hb). cbn. rewrite <- Hb. tauto. }
  apply decides_true. unfold nth_means. fold listed. destruct own.
  - rewrite nth_place_spec. split.
    + intros (k' & Hk & Hi). split; [by apply Hown|]. exists cs. split; [apply kept_sublist|]. split; [done|]. by exists k'.
    + intros (_ & ds & Hd & Hm & k' & Hk & Hi). exists k'. split; [done|].
      rewrite (same_members side cs ds N (kept_sublist _ _) Hd); [done|]. intros c Hx. rewrite Hcs, Hm by done. done.
  - split; [done|]. intros (Hl & _). by apply Hown in Hl.
Qed.

Lemma decides_up c : (forall m, c = Some m -> here m) -> forall n,
  decides (ancestor_or_self_is n c h) (exists m, c = Some m /\ rtc (edge K) n m).
Proof.
  intros Hc n. destruct c as [m|].
  - destruct (ancestor_ok h K OK n m (Hc m eq_refl)) as (b & -> & Hb). apply decides_true. rewrite Hb.
    split; [by exists m|]. by intros (? & [= <-] & ?).
  - cbn. apply decides_true. split; [done|]. by intros (? & ? & _).
Qed.

Lemma siblings_nodup n : NoDup (elder n) /\ NoDup (younger n).
Proof.
  destruct (parent_of h n) as [p|] eqn:Hp.
  - pose proof (kids_nodup h K OK p) as N. rewrite (family h K OK n p Hp) in N. apply NoDup_app in N as (N1 & _ & N2).
    apply NoDup_cons in N2 as [_ N2]. split; [|done]. rewrite <- (rev_involutive (elder n)).
    apply NoDup_ListNoDup in N1. apply NoDup_ListNoDup. by apply NoDup_rev.
  - destruct (elder_orphan h K n Hp) as [-> ->]. split; constructor.
Qed.

Lemma typed_once step side n k : here n -> at_ n h = Some k -> walk h step (step k) side -> length side <= size h ->
  (forall x, x ∈ side -> here x) ->
  decides (has_name h n &&& notM (same_named h step n)) (has_name h n = Some true /\ forall c, c ∈ side -> ~ named_as h n c).
Proof.
  intros Hn E W L Hh. apply decides_and; [by apply decides_some, has_name_some|]. intros _.
  eapply decides_ext; [|by apply decides_not, (same_named_decides step n k side)]. naive_solver.
Qed.


(** The pseudo-classes whose meaning is spelt out. *)
Definition structural (k : ns_css_pseudo) : bool :=
  match k with
  | NS_CSS_PC_FIRST_CHILD | NS_CSS_PC_LAST_CHILD | NS_CSS_PC_ONLY_CHILD | NS_CSS_PC_FIRST_OF_TYPE
  | NS_CSS_PC_LAST_OF_TYPE | NS_CSS_PC_ONLY_OF_TYPE | NS_CSS_PC_NTH_CHILD | NS_CSS_PC_NTH_LAST_CHILD
  | NS_CSS_PC_NTH_OF_TYPE | NS_CSS_PC_NTH_LAST_OF_TYPE | NS_CSS_PC_ROOT | NS_CSS_PC_SCOPE | NS_CSS_PC_HOVER
  | NS_CSS_PC_ACTIVE | NS_CSS_PC_FOCUS_WITHIN => true
  | _ => false
  end.
Lemma plain_some scope q n : here n -> structural (pc_kind q) = false -> is_Some (pseudo_ok w h sub scope q n).
Proof.
  intros Hn. unfold pseudo_ok. destruct (pc_kind q); try done; intros _; try (eauto 8 with tests; fail).
  - destruct (g_target_fragment w); eauto with tests.
  - destruct (name_some h n Hn) as [v ->]. cbn. eauto.
  - destruct (name_some h n Hn) as [v ->]. cbn. eauto.
Qed.
Lemma plain_decides scope q n : here n -> structural (pc_kind q) = false ->
  decides (pseudo_ok w h sub scope q n) (pseudo_means w h K T scope q n).
Proof.
  intros Hn Hk. replace (pseudo_means w h K T scope q n) with (pseudo_ok w h sub scope q n = Some true).
  - by apply decides_some, plain_some.
  - unfold pseudo_means, pseudo_ok. destruct (pc_kind q); try discriminate Hk; reflexivity.
Qed.

Lemma on_node_decides p P n k : at_ n h = Some k -> (forall x, here x -> decides (p x h) (P x)) ->
  decides (on_node p (parent k) h) (exists x, n ∈ K x /\ P x).
Proof.
  intros E Hp. unfold on_node. destruct (parent k) as [q|] eqn:Hq.
  - assert (n ∈ K q) as Hk by by apply (parent_edge h K OK _ _ _ E).
    eapply decides_ext; [|apply Hp; by eapply parent_here]. split; [by exists q|]. intros (x & Hx & ?).
    by rewrite <- (one_parent h K OK _ _ _ Hx Hk).
  - apply decides_true. split; [done|]. intros (x & Hx & _). apply (parent_edge h K OK _ _ _ E) in Hx. congruence.
Qed.
Lemma pseudo_decides scope q n : here n -> (forall g, of_group q = Some g -> group_ok g) ->
  decides (pseudo_ok w h sub scope q n) (pseudo_means w h K T scope q n).
Proof.
  intros Hn Hg. destruct (structural (pc_kind q)) eqn:Hk; [|by apply plain_decides].
  pose proof Hn as [k E]. destruct (siblings_walk h K OK n k E) as (We & Wy & Le & Ly).
  destruct (siblings_nodup n) as [Ne Ny].
  assert (forall x, x ∈ elder n -> here x) as He by (intros x Hx; by eapply here_sibling; [|left]).
  assert (forall x, x ∈ younger n -> here x) as Hy by (intros x Hx; by eapply here_sibling; [|right]).
  pose proof (prev_element_ok h K OK n Hn) as Pe. pose proof (next_element_ok h K OK n Hn) as Py.
  unfold pseudo_ok, pseudo_means. destruct (pc_kind q) eqn:Ek; try discriminate Hk; clear Hk.
  all: try (by apply (typed_once _ _ n k Hn E)).
  all: try (apply decides_up; intros m Hm; apply V; by eauto).
  all: try (by apply decides_none).
  - eapply decides_ext; [|apply decides_and; [by apply decides_none|intros _; by apply decides_none]]. naive_solver.
  - eapply decides_ext; [|apply decides_and; [exact (typed_once _ (elder n) n k Hn E We Le He)|intros _;
      by apply decides_not, (same_named_decides _ n k (younger n))]]. naive_solver.
  - rewrite E. cbn. apply (on_node_decides _ (fun p => is_doc h p = true) n k E). intros x Hx.
    rewrite (parent_is_doc_ok h x Hx). by apply decides_true.
  - apply (nth_decides false _ _ scope q n k Hn E We); [assumption..|by rewrite Ek|by rewrite Ek].
  - apply (nth_decides _ _ _ scope q n k Hn E Wy); [assumption..|by rewrite Ek|by rewrite Ek].
  - apply (nth_decides _ _ _ scope q n k Hn E We); [assumption..|by rewrite Ek|by rewrite Ek].
  - apply (nth_decides _ _ _ scope q n k Hn E Wy); [assumption..|by rewrite Ek|by rewrite Ek].
  - destruct scope as [m|]; [by apply decides_true, bool_decide_eq_true|]. rewrite E. cbn.
    eapply decides_ext; [|apply decides_not, (on_node_decides _ (fun p => element p = true) n k E)].
    + split; [intros Hx p Hp; destruct (element p) eqn:Ep; [|done]; exfalso; eauto|]. intros Hx (p & Hp & Ep). by rewrite (Hx p Hp) in Ep.
    + intros x Hx. by apply decides_elem.
Qed.
End Pseudo.

(** *** Selectors

    The groups of a compound are nested less deeply than the compound, and have no
    longer selectors. *)

Lemma list_height_in {A} (f : A -> nat) l x : x ∈ l -> f x <= list_height f l.
Proof.
  intros Hx. unfold list_height. pose proof (proj1 (list_max_le (map f l) (list_max (map f l))) (Nat.le_refl _)) as H.
  rewrite List.Forall_forall in H. by apply H, in_map, list_elem_of_In.
Qed.

Definition inner (x : ns_css_simple) (g : list ns_css_selector) : Prop :=
  (exists q, q ∈ s_pseudos x /\ of_group q = Some g) \/ g ∈ matches_any x \/ g ∈ matches_none x \/ g ∈ has_groups x.
Lemma inner_height f x g s : inner x g -> s ∈ g -> f s <= simple_height f x.
Proof.
  intros Hg Hs. apply (list_height_in f) in Hs. unfold simple_height.
  destruct Hg as [(q & Hq & E)|[Hg|[Hg|Hg]]].
  - apply (list_height_in (fun q => match of_group q with Some g => list_height f g | None => 0 end)) in Hq. rewrite E in Hq. lia.
  - apply (list_height_in (list_height f)) in Hg. lia.
  - apply (list_height_in (list_height f)) in Hg. lia.
  - apply (list_height_in (list_height f)) in Hg. lia.
Qed.
Lemma compound_height s c x : (c, x) ∈ compounds s -> simple_height sel_height x < sel_height s.
Proof. intros Hx. apply (list_height_in (fun c => simple_height sel_height (snd c))) in Hx. destruct s. cbn in *. lia. Qed.
Lemma compound_width s c x : (c, x) ∈ compounds s -> simple_height sel_width x <= sel_width s.
Proof. intros Hx. apply (list_height_in (fun c => simple_height sel_width (snd c))) in Hx. destruct s. cbn in *. lia. Qed.
Lemma sel_width_length s : length (compounds s) <= sel_width s.
Proof. destruct s. cbn. lia. Qed.

Section Knot.
Context (V : view_ok) (D : nat) (Deep : forall n, here n -> fits D n).

Lemma fits_more d : forall n, fits d n -> fits (S d) n.
Proof.
  induction d as [|d IH]; intros n F.
  - cbn in F. cbn. rewrite F. intros c Hc. by apply not_elem_of_nil in Hc.
  - intros c Hc. by apply IH, F.
Qed.
Lemma all_low n : here n -> low D n.
Proof. intros Hn. split; [by apply Deep|]. intros p Hp. apply fits_more, Deep. by apply (has_links h K OK p n). Qed.

Definition knows (f : nat) (x : ns_css_simple) : Prop :=
  simple_height sel_height x < f /\ simple_height sel_width x + D < NS_DOM_MAX_DEPTH.
Definition decided (f : nat) : Prop :=
  forall scope x n, knows f x -> here n -> decides (match_simple_fuel w h f scope x n) (simple_means w h K f scope x n).

Lemma knows_inner f x g s c y : knows (S f) x -> inner x g -> s ∈ g -> (c, y) ∈ compounds s -> knows f y.
Proof.
  intros [H1 H2] Hg Hs Hy. pose proof (inner_height sel_height x g s Hg Hs). pose proof (inner_height sel_width x g s Hg Hs).
  pose proof (compound_height s c y Hy). pose proof (compound_width s c y Hy). unfold knows. lia.
Qed.

Lemma sel_decides f scope s n : decided f -> here n -> (forall c y, (c, y) ∈ compounds s -> knows f y) ->
  decides (match_selector_with h (match_simple_fuel w h f) scope s n) (sel_means h K (simple_means w h K f) scope s n).
Proof.
  intros Hf Hn Hk. unfold match_selector_with, sel_means. destruct (bool_decide _) eqn:E.
  - apply bool_decide_eq_true in E. eapply decides_ext; [|apply structural_decides; [done|]].
    + split; [intros Hc; by split|by intros [_ Hc]].
    + intros m c x Hx Hm. apply Hf; [by eapply Hk|done].
  - apply bool_decide_eq_false in E. apply decides_true. split; [done|]. by intros [? _].
Qed.
Lemma inner_ok f x g : decided f -> knows (S f) x -> inner x g ->
  group_ok (match_selector_with h (match_simple_fuel w h f)) (simple_means w h K f) g.
Proof.
  intros Hf Hx Hg scope m Hm. unfold group_means.
  assert (forall s, s ∈ g -> decides (match_selector_with h (match_simple_fuel w h f) scope s m) (sel_means h K (simple_means w h K f) scope s m)) as H.
  { intros s Hs. apply sel_decides; [done|done|]. intros c y. by apply (knows_inner f x g s). }
  clear Hg. induction g as [|s g IH]; cbn.
  - apply decides_true. split; [done|]. intros (s & Hs & _). by apply not_elem_of_nil in Hs.
  - eapply decides_ext; [|apply decides_or; [apply H; by left|apply IH; intros s' Hs'; apply H; by right]]. set_solver.
Qed.
Lemma has_ok f x g n : decided f -> knows (S f) x -> inner x g -> here n ->
  decides (has_group_matches h (match_simple_fuel w h f) g n) (has_means h K (simple_means w h K f) g n).
Proof.
  intros Hf Hx Hg Hn. unfold has_means.
  assert (forall s, s ∈ g -> decides (has_relative_matches h (match_simple_fuel w h f) s n)
    (pseudo_element s = NS_CSS_PE_NONE /\ rel_first h K (simple_means w h K f (Some n)) (compounds s) n)) as H.
  { intros s Hs. unfold has_relative_matches. destruct (bool_decide _) eqn:E.
    - apply bool_decide_eq_true in E. eapply decides_ext; [|eapply (relative_first_decides _ _ (knows f)) with (d := D)].
      + split; [intros Hc; by split|by intros [_ Hc]].
      + intros m y Hy Hm. by apply Hf.
      + apply Forall_forall. intros [c y] Hy. by apply (knows_inner f x g s c).
      + done.
      + by apply all_low.
      + pose proof (inner_height sel_width x g s Hg Hs). pose proof (sel_width_length s). destruct Hx. lia.
    - apply bool_decide_eq_false in E. apply decides_true. split; [done|]. by intros [? _]. }
  clear Hg. induction g as [|s g IH]; cbn.
  - apply decides_true. split; [done|]. intros (s & Hs & _). by apply not_elem_of_nil in Hs.
  - eapply decides_ext; [|apply decides_or; [apply H; by left|apply IH; intros s' Hs'; apply H; by right]]. set_solver.
Qed.

Lemma simple_decides f : decided f.
Proof.
  induction f as [|f IH]; intros scope x n Hx Hn; [destruct Hx; lia|]. cbn [match_simple_fuel simple_means]. unfold match_simple.
  destruct (never_match x); [apply decides_true; naive_solver|].
  match goal with |- decides _ (_ /\ ?A /\ ?B /\ ?C /\ ?D' /\ ?E /\ ?F /\ ?P /\ ?M /\ ?N /\ ?H) =>
    apply (decides_ext _ (((((((((A /\ B) /\ C) /\ D') /\ E) /\ F) /\ P) /\ M) /\ N) /\ H)); [tauto|] end.
  repeat (apply decides_and; [|intros _]);
    try (by apply decides_elem); try (apply decides_some; auto with tests; fail); apply decides_all; intros g Hg.
  - apply pseudo_decides; [done|done|]. intros g' Hg'. apply (inner_ok f x g' IH Hx). left. by exists g.
  - apply (inner_ok f x g IH Hx); [unfold inner; tauto|done].
  - apply decides_not, (inner_ok f x g IH Hx); [unfold inner; tauto|done].
  - apply (has_ok f x g n IH Hx); [unfold inner; tauto|done].
Qed.
End Knot.
End Matcher.

(** C12. On a tree, with at most 512 compounds and levels of the tree together, a
    selector matches an element exactly when its meaning holds of it: every compound
    with its tests, joined by the combinators to the nodes the tree puts there, its
    places among siblings, its groups, and the relatives of [:has()]. The matcher
    always has an answer. *)
Theorem selectors_match_as_meant {G : GLib} {U : Unichar} {El : Elsewhere} w h K D scope s n :
  tree_ok h K -> view_ok w h -> (forall m, here h m -> fits K D m) -> sel_width s + D < NS_DOM_MAX_DEPTH -> here h n ->
  exists b, ns_css_selector_matches w h scope s n = Some b /\ (b = true <-> selector_means w h K scope s n).
Proof.
  intros OK V Deep Hw Hn. apply (sel_decides w h K OK D _ scope s n (simple_decides w h K OK V D Deep _) Hn).
  intros c y Hy. pose proof (compound_height s c y Hy). pose proof (compound_width s c y Hy). unfold knows. lia.
Qed.
