(* ===== verification/SelPage.v ===== *)
(** * A small page to match selectors on

    A boolean test that a finite heap is a tree, and the matcher at work on a page:
    the witness of [SelSpec]. *)

From stdpp Require Import functions relations.
From S2P Require Import XmlRound.
From S2P Require Import Prelude CStr GLib CssSyntax Xml Element DomStore DomTree Dom DomSpec Selector SelParse NodeState SelMatch SelTree SelMeaning SelSpec.

(** ** Trees that are finite maps *)

Section Check.
Variable (h : heap) (m : gmap loc (list loc)).
Definition kids_of : forest := fun n => default [] (m !! n).

Fixpoint kids_check (n : loc) (prev : option loc) (l : list loc) : bool :=
  match l with
  | [] => true
  | c :: l' =>
      bool_decide (((fun k => (parent k, prev_sibling k, next_sibling k)) <$> at_ c h) = Some (Some n, prev, head l')) &&
      (n <? c)%positive && kids_check n (Some c) l'
  end.
Definition node_check (n : loc) (d : dnode) : bool :=
  let k := lk d in
  bool_decide (first_child k = head (kids_of n)) && bool_decide (last_child k = last (kids_of n)) &&
  match parent k with
  | None => bool_decide (prev_sibling k = None) && bool_decide (next_sibling k = None)
  | Some p => bool_decide (n ∈ kids_of p)
  end.
Definition tree_check : bool :=
  forallb (fun x => bool_decide (is_Some (at_ x.1 h)) && kids_check x.1 None x.2) (map_to_list m) &&
  forallb (fun x => node_check x.1 x.2) (map_to_list h).

Lemma kids_check_ok n l1 : forall prev c l2, kids_check n prev (l1 ++ c :: l2) = true ->
  (n < c)%positive /\ exists k, at_ c h = Some k /\ parent k = Some n /\
    prev_sibling k = match last l1 with Some x => Some x | None => prev end /\ next_sibling k = head l2.
Proof.
  induction l1 as [|x l1 IH]; intros prev c l2; cbn [app kids_check].
  - intros [[E%bool_decide_eq_true L%Pos.ltb_lt]%andb_true_iff _]%andb_true_iff. split; [done|].
    apply fmap_Some in E as (k & -> & [= -> -> ->]). by exists k.
  - intros [_ H]%andb_true_iff. destruct (IH _ _ _ H) as (L & k & E & Ep & Ev & En). split; [done|]. exists k.
    split; [done|]. split; [done|]. split; [|done]. rewrite Ev. rewrite last_cons. by destruct (last l1).
Qed.

Lemma tree_check_ok : tree_check = true -> tree_ok h kids_of.
Proof.
  intros [Hm Hh]%andb_true_iff. rewrite forallb_forall in Hm, Hh.
  assert (forall n l1 c l2, kids_of n = l1 ++ c :: l2 -> is_Some (at_ n h) /\ kids_check n None (l1 ++ c :: l2) = true) as M.
  { intros n l1 c l2. unfold kids_of. destruct (m !! n) as [l|] eqn:E; [|by destruct l1]. cbn. intros ->.
    specialize (Hm (n, l1 ++ c :: l2)). rewrite <- list_elem_of_In, elem_of_map_to_list in Hm.
    apply Hm in E as [H%bool_decide_eq_true ?]%andb_true_iff. done. }
  assert (forall n k, at_ n h = Some k -> exists d, lk d = k /\ node_check n d = true) as Hn.
  { intros n k. unfold at_. destruct (h !! n) as [d|] eqn:E; [|done]. intros [= <-]. exists d. split; [done|].
    apply (Hh (n, d)). by rewrite <- list_elem_of_In, elem_of_map_to_list. }
  assert (forall x y, tc (edge kids_of) x y -> (x < y)%positive) as Up.
  { assert (forall a b, edge kids_of a b -> (a < b)%positive) as U.
    { intros a b (l1 & l2 & E)%list_elem_of_split. destruct (M _ _ _ _ E) as [_ H]. by apply (kids_check_ok _ _ _ _ _ H). }
    intros x y Ht. induction Ht as [x y He|x y z He _ IH]; [by apply U|]. specialize (U _ _ He). lia. }
  split.
  - intros n E. destruct (kids_of n) as [|c l2] eqn:Ek; [done|]. destruct (M n [] c l2 Ek) as [[k Ek'] _]. congruence.
  - intros n k (d & <- & H)%Hn. unfold node_check in H. rewrite !andb_true_iff, !bool_decide_eq_true in H. tauto.
  - intros n l1 c l2 E. destruct (M n l1 c l2 E) as [_ H]. apply kids_check_ok in H as (_ & k & ? & ? & Ev & ?). exists k.
    rewrite Ev. by destruct (last l1).
  - intros n k (d & <- & H)%Hn Hp. unfold node_check in H. rewrite Hp, !andb_true_iff, !bool_decide_eq_true in H. tauto.
  - intros c k n (d & <- & H)%Hn Hp. unfold node_check in H. rewrite Hp, !andb_true_iff, !bool_decide_eq_true in H. tauto.
  - intros x Hx%Up. lia.
Qed.

Fixpoint fits_check (d : nat) (n : loc) : bool :=
  match d with O => bool_decide (kids_of n = []) | S d => forallb (fits_check d) (kids_of n) end.
Lemma fits_check_ok d : forallb (fun x => fits_check d x.1) (map_to_list h) = true -> forall n, here h n -> fits kids_of d n.
Proof.
  intros H n [k E]. unfold at_ in E. destruct (h !! n) as [x|] eqn:Ex; [|done]. rewrite forallb_forall in H.
  specialize (H (n, x)). rewrite <- list_elem_of_In, elem_of_map_to_list in H. specialize (H Ex). cbn [fst] in H. clear - H.
  revert n H. induction d as [|d IH]; intros n; cbn [fits_check fits]; [apply bool_decide_eq_true|].
  rewrite forallb_forall. intros H c Hc. by apply IH, H, list_elem_of_In.
Qed.
End Check.

(** ** The page *)

Definition plain (k : ns_node_kind) (nm txt : option bytes) (attrs : list ns_attr) (l : links) : dnode :=
  {| data := Build_ndata k nm txt None None attrs 0 None; lk := l |}.
Definition an_attr (nm v : bytes) : ns_attr := Build_ns_attr nm v None None None.

(** [<html><p class="a b"></p>text<p lang=en><b></b></p></html>]. *)
Definition small : heap := list_to_map [
  (1%positive, plain NS_NODE_DOCUMENT None None [] (Build_links None (Some 2) (Some 2) None None)%positive);
  (2%positive, plain NS_NODE_ELEMENT (Some ($"html")) None [] (Build_links (Some 1) (Some 3) (Some 5) None None)%positive);
  (3%positive, plain NS_NODE_ELEMENT (Some ($"p")) None [an_attr ($"class") ($"a b")] (Build_links (Some 2) None None None (Some 4))%positive);
  (4%positive, plain NS_NODE_TEXT None (Some ($"text")) [] (Build_links (Some 2) None None (Some 3) (Some 5))%positive);
  (5%positive, plain NS_NODE_ELEMENT (Some ($"p")) None [an_attr ($"lang") ($"en")] (Build_links (Some 2) (Some 6) (Some 6) (Some 4) None)%positive);
  (6%positive, plain NS_NODE_ELEMENT (Some ($"b")) None [] (Build_links (Some 5) None None None None)%positive) ].
Definition small_kids : gmap loc (list loc) := list_to_map [ (1, [2]); (2, [3; 4; 5]); (5, [6]) ]%positive.

#[local] Instance nothing_else : Elsewhere := {|
  ns_url_resolve _ r := Some r;
  ns_css_node_will_validate _ _ := false;
  ns_css_control_is_valid _ _ := true;
  ns_el_range_state _ _ := None;
  ns_el_is_default _ _ := false;
  ns_el_is_indeterminate _ _ := false;
  ns_css_node_language _ _ := None;
  ns_css_node_dir _ _ := $"ltr" |}.
Definition no_view : view := Build_view None None None None None ∅ None ∅.
#[local] Existing Instance unichar_ref.

Definition matched (text : bytes) (n : loc) : option (list (option bool)) :=
  '(l, _) ← ns_css_parse_selector_list no_env 40 (Some text) no_flags;
  Some (map (fun s => ns_css_selector_matches no_view small None s n) l).

Example small_matches :
  map (fun t => matched t 5%positive)
    [$"html > p:nth-child(2)"; $"p.a + p"; $"p:not(.b):has(> b)"; $"p:has(i)"; $"[lang|=EN], .a ~ p"; $"p:only-of-type"] =
  map Some [[Some true]; [Some true]; [Some true]; [Some false]; [Some true; Some true]; [Some false]].
Proof. vm_compute. reflexivity. Qed.

Definition small_selector : ns_css_selector :=
  match ns_css_parse_selector_list no_env 40 (Some ($"html > p:not(.b):nth-child(2 of p):has(> b)")) no_flags with
  | Some (s :: _, _) => s
  | _ => Selector [] NS_CSS_PE_NONE (0, 0, 0)%Z
  end.

Lemma selectors_match_as_meant_witness :
  ns_css_selector_matches no_view small None small_selector 5%positive = Some true /\
  selector_means no_view small (kids_of small_kids) None small_selector 5%positive.
Proof.
  destruct (selectors_match_as_meant no_view small (kids_of small_kids) 3 None small_selector 5%positive) as (b & E & Hb).
  - apply tree_check_ok. vm_compute. reflexivity.
  - intros m [H|[H|H]]; discriminate H.
  - apply fits_check_ok. vm_compute. reflexivity.
  - apply Nat.ltb_lt. vm_compute. reflexivity.
  - by eexists.
  - assert (ns_css_selector_matches no_view small None small_selector 5%positive = Some true) as T by (vm_compute; reflexivity).
    split; [exact T|]. apply Hb. rewrite T in E. congruence.
Defined.
