(* ===== verification/CssProps.v ===== *)
(** * Properties ([src/css.h], [src/css.c])

    The properties, their table, their names, and the logical ones ([margin-inline-start]
    and the like) with the physical ones they stand for under a writing mode and a
    direction. *)

From S2P Require Import Prelude CStr GLib.

(** ** The table *)

Inductive ns_css_prop :=
  | NS_CSS_DISPLAY | NS_CSS_COLOR | NS_CSS_BACKGROUND_COLOR | NS_CSS_FONT_SIZE | NS_CSS_FONT_WEIGHT | NS_CSS_FONT_STYLE
  | NS_CSS_FONT_STRETCH | NS_CSS_FONT_KERNING | NS_CSS_FONT_VARIANT_LIGATURES | NS_CSS_FONT_FEATURE_SETTINGS
  | NS_CSS_FONT_VARIATION_SETTINGS | NS_CSS_FONT_FAMILY | NS_CSS_TEXT_ALIGN | NS_CSS_MARGIN_TOP | NS_CSS_MARGIN_RIGHT
  | NS_CSS_MARGIN_BOTTOM | NS_CSS_MARGIN_LEFT | NS_CSS_PADDING_TOP | NS_CSS_PADDING_RIGHT | NS_CSS_PADDING_BOTTOM
  | NS_CSS_PADDING_LEFT | NS_CSS_BORDER_TOP_WIDTH | NS_CSS_BORDER_RIGHT_WIDTH | NS_CSS_BORDER_BOTTOM_WIDTH
  | NS_CSS_BORDER_LEFT_WIDTH | NS_CSS_BORDER_TOP_COLOR | NS_CSS_BORDER_RIGHT_COLOR | NS_CSS_BORDER_BOTTOM_COLOR
  | NS_CSS_BORDER_LEFT_COLOR | NS_CSS_BORDER_TOP_STYLE | NS_CSS_BORDER_RIGHT_STYLE | NS_CSS_BORDER_BOTTOM_STYLE
  | NS_CSS_BORDER_LEFT_STYLE | NS_CSS_WIDTH | NS_CSS_HEIGHT | NS_CSS_MAX_WIDTH | NS_CSS_MAX_HEIGHT | NS_CSS_MIN_WIDTH
  | NS_CSS_MIN_HEIGHT | NS_CSS_LINE_HEIGHT | NS_CSS_TEXT_DECORATION | NS_CSS_POSITION | NS_CSS_TOP | NS_CSS_RIGHT | NS_CSS_BOTTOM
  | NS_CSS_LEFT | NS_CSS_Z_INDEX | NS_CSS_OPACITY | NS_CSS_CURSOR | NS_CSS_POINTER_EVENTS | NS_CSS_LETTER_SPACING
  | NS_CSS_WORD_SPACING | NS_CSS_WHITE_SPACE | NS_CSS_BOX_SIZING | NS_CSS_TEXT_INDENT | NS_CSS_TEXT_TRANSFORM
  | NS_CSS_LIST_STYLE_TYPE | NS_CSS_VERTICAL_ALIGN | NS_CSS_VISIBILITY | NS_CSS_OVERFLOW | NS_CSS_FONT_VARIANT
  | NS_CSS_BORDER_RADIUS | NS_CSS_BORDER_TOP_LEFT_RADIUS | NS_CSS_BORDER_TOP_RIGHT_RADIUS | NS_CSS_BORDER_BOTTOM_RIGHT_RADIUS
  | NS_CSS_BORDER_BOTTOM_LEFT_RADIUS | NS_CSS_FLEX_DIRECTION | NS_CSS_FLEX_WRAP | NS_CSS_JUSTIFY_CONTENT | NS_CSS_ALIGN_ITEMS
  | NS_CSS_ALIGN_SELF | NS_CSS_GAP | NS_CSS_ROW_GAP | NS_CSS_COLUMN_GAP | NS_CSS_FLEX_GROW | NS_CSS_FLEX_SHRINK
  | NS_CSS_FLEX_BASIS | NS_CSS_ORDER | NS_CSS_FLOAT | NS_CSS_CLEAR | NS_CSS_BOX_SHADOW | NS_CSS_OUTLINE_WIDTH
  | NS_CSS_OUTLINE_STYLE | NS_CSS_OUTLINE_COLOR | NS_CSS_OUTLINE_OFFSET | NS_CSS_BACKGROUND_IMAGE | NS_CSS_BACKGROUND_REPEAT
  | NS_CSS_BACKGROUND_POSITION_X | NS_CSS_BACKGROUND_POSITION_Y | NS_CSS_BACKGROUND_SIZE | NS_CSS_BACKGROUND_CLIP
  | NS_CSS_BACKGROUND_ORIGIN | NS_CSS_SCROLLBAR_WIDTH | NS_CSS_SCROLLBAR_COLOR | NS_CSS_IMAGE_RENDERING | NS_CSS_CONTENT
  | NS_CSS_GRID_TEMPLATE_COLUMNS | NS_CSS_GRID_TEMPLATE_ROWS | NS_CSS_GRID_TEMPLATE_AREAS | NS_CSS_GRID_COLUMN | NS_CSS_GRID_ROW
  | NS_CSS_GRID_COLUMN_START | NS_CSS_GRID_COLUMN_END | NS_CSS_GRID_ROW_START | NS_CSS_GRID_ROW_END | NS_CSS_GRID_AREA
  | NS_CSS_GRID_AUTO_ROWS | NS_CSS_GRID_AUTO_COLUMNS | NS_CSS_GRID_AUTO_FLOW | NS_CSS_TRANSFORM | NS_CSS_TRANSFORM_ORIGIN
  | NS_CSS_TRANSITION | NS_CSS_ANIMATION | NS_CSS_ASPECT_RATIO | NS_CSS_TEXT_SHADOW | NS_CSS_OVERFLOW_WRAP | NS_CSS_WORD_BREAK
  | NS_CSS_HYPHENS | NS_CSS_TEXT_OVERFLOW | NS_CSS_TEXT_DECORATION_COLOR | NS_CSS_TEXT_DECORATION_STYLE
  | NS_CSS_LIST_STYLE_POSITION | NS_CSS_LIST_STYLE_IMAGE | NS_CSS_USER_SELECT | NS_CSS_QUOTES | NS_CSS_COLUMN_COUNT
  | NS_CSS_COLUMN_WIDTH | NS_CSS_COLUMN_RULE_WIDTH | NS_CSS_COLUMN_RULE_STYLE | NS_CSS_COLUMN_RULE_COLOR | NS_CSS_FILTER
  | NS_CSS_CLIP_PATH | NS_CSS_MIX_BLEND_MODE | NS_CSS_ACCENT_COLOR | NS_CSS_COUNTER_RESET | NS_CSS_COUNTER_INCREMENT
  | NS_CSS_LINE_CLAMP | NS_CSS_OBJECT_FIT | NS_CSS_OBJECT_POSITION_X | NS_CSS_OBJECT_POSITION_Y | NS_CSS_MASK_IMAGE
  | NS_CSS_OVERFLOW_X | NS_CSS_OVERFLOW_Y | NS_CSS_APPEARANCE | NS_CSS_TABLE_LAYOUT | NS_CSS_CAPTION_SIDE
  | NS_CSS_BORDER_COLLAPSE | NS_CSS_BORDER_SPACING | NS_CSS_CONTAINER_TYPE | NS_CSS_CONTAINER_NAME | NS_CSS_CARET_COLOR
  | NS_CSS_TAB_SIZE | NS_CSS_JUSTIFY_ITEMS | NS_CSS_JUSTIFY_SELF | NS_CSS_ALIGN_CONTENT | NS_CSS_DIRECTION | NS_CSS_UNICODE_BIDI
  | NS_CSS_TRANSLATE | NS_CSS_ROTATE | NS_CSS_SCALE | NS_CSS_PERSPECTIVE | NS_CSS_PERSPECTIVE_ORIGIN | NS_CSS_TRANSFORM_STYLE
  | NS_CSS_BACKFACE_VISIBILITY | NS_CSS_ANIMATION_PLAY_STATE | NS_CSS_CLIP | NS_CSS_CONTENT_VISIBILITY | NS_CSS_WRITING_MODE
  | NS_CSS_TEXT_ORIENTATION | NS_CSS_TRANSITION_DELAY | NS_CSS_TRANSITION_DURATION | NS_CSS_ANIMATION_DELAY
  | NS_CSS_ANIMATION_DURATION | NS_CSS_ORPHANS | NS_CSS_WIDOWS | NS_CSS_MAX_LINES | NS_CSS_HYPHENATE_LIMIT_LINES
  | NS_CSS_COLUMN_SPAN | NS_CSS_MARGIN_BLOCK_START | NS_CSS_MARGIN_BLOCK_END | NS_CSS_MARGIN_INLINE_START
  | NS_CSS_MARGIN_INLINE_END | NS_CSS_PADDING_BLOCK_START | NS_CSS_PADDING_BLOCK_END | NS_CSS_PADDING_INLINE_START
  | NS_CSS_PADDING_INLINE_END | NS_CSS_BORDER_BLOCK_START_WIDTH | NS_CSS_BORDER_BLOCK_END_WIDTH
  | NS_CSS_BORDER_INLINE_START_WIDTH | NS_CSS_BORDER_INLINE_END_WIDTH | NS_CSS_BORDER_BLOCK_START_STYLE
  | NS_CSS_BORDER_BLOCK_END_STYLE | NS_CSS_BORDER_INLINE_START_STYLE | NS_CSS_BORDER_INLINE_END_STYLE
  | NS_CSS_BORDER_BLOCK_START_COLOR | NS_CSS_BORDER_BLOCK_END_COLOR | NS_CSS_BORDER_INLINE_START_COLOR
  | NS_CSS_BORDER_INLINE_END_COLOR | NS_CSS_BORDER_START_START_RADIUS | NS_CSS_BORDER_START_END_RADIUS
  | NS_CSS_BORDER_END_START_RADIUS | NS_CSS_BORDER_END_END_RADIUS | NS_CSS_INSET_BLOCK_START | NS_CSS_INSET_BLOCK_END
  | NS_CSS_INSET_INLINE_START | NS_CSS_INSET_INLINE_END | NS_CSS_BLOCK_SIZE | NS_CSS_INLINE_SIZE | NS_CSS_MIN_BLOCK_SIZE
  | NS_CSS_MIN_INLINE_SIZE | NS_CSS_MAX_BLOCK_SIZE | NS_CSS_MAX_INLINE_SIZE | NS_CSS_FILL | NS_CSS_FILL_OPACITY
  | NS_CSS_FILL_RULE | NS_CSS_STROKE | NS_CSS_STROKE_WIDTH | NS_CSS_STROKE_OPACITY | NS_CSS_STROKE_LINECAP
  | NS_CSS_STROKE_LINEJOIN | NS_CSS_STROKE_MITERLIMIT | NS_CSS_STROKE_DASHARRAY | NS_CSS_STROKE_DASHOFFSET | NS_CSS_STOP_COLOR
  | NS_CSS_STOP_OPACITY | NS_CSS_CLIP_RULE | NS_CSS_TEXT_ANCHOR | NS_CSS_DOMINANT_BASELINE | NS_CSS_PAINT_ORDER
  | NS_CSS_VECTOR_EFFECT | NS_CSS_SHAPE_RENDERING | NS_CSS_SVG_X | NS_CSS_SVG_Y | NS_CSS_CX | NS_CSS_CY | NS_CSS_R | NS_CSS_RX
  | NS_CSS_RY.

(** The enumeration in its order, and the place of each property in it. *)
Definition all_props : list ns_css_prop := [
  NS_CSS_DISPLAY; NS_CSS_COLOR; NS_CSS_BACKGROUND_COLOR; NS_CSS_FONT_SIZE; NS_CSS_FONT_WEIGHT; NS_CSS_FONT_STYLE;
  NS_CSS_FONT_STRETCH; NS_CSS_FONT_KERNING; NS_CSS_FONT_VARIANT_LIGATURES; NS_CSS_FONT_FEATURE_SETTINGS;
  NS_CSS_FONT_VARIATION_SETTINGS; NS_CSS_FONT_FAMILY; NS_CSS_TEXT_ALIGN; NS_CSS_MARGIN_TOP; NS_CSS_MARGIN_RIGHT;
  NS_CSS_MARGIN_BOTTOM; NS_CSS_MARGIN_LEFT; NS_CSS_PADDING_TOP; NS_CSS_PADDING_RIGHT; NS_CSS_PADDING_BOTTOM; NS_CSS_PADDING_LEFT;
  NS_CSS_BORDER_TOP_WIDTH; NS_CSS_BORDER_RIGHT_WIDTH; NS_CSS_BORDER_BOTTOM_WIDTH; NS_CSS_BORDER_LEFT_WIDTH;
  NS_CSS_BORDER_TOP_COLOR; NS_CSS_BORDER_RIGHT_COLOR; NS_CSS_BORDER_BOTTOM_COLOR; NS_CSS_BORDER_LEFT_COLOR;
  NS_CSS_BORDER_TOP_STYLE; NS_CSS_BORDER_RIGHT_STYLE; NS_CSS_BORDER_BOTTOM_STYLE; NS_CSS_BORDER_LEFT_STYLE; NS_CSS_WIDTH;
  NS_CSS_HEIGHT; NS_CSS_MAX_WIDTH; NS_CSS_MAX_HEIGHT; NS_CSS_MIN_WIDTH; NS_CSS_MIN_HEIGHT; NS_CSS_LINE_HEIGHT;
  NS_CSS_TEXT_DECORATION; NS_CSS_POSITION; NS_CSS_TOP; NS_CSS_RIGHT; NS_CSS_BOTTOM; NS_CSS_LEFT; NS_CSS_Z_INDEX; NS_CSS_OPACITY;
  NS_CSS_CURSOR; NS_CSS_POINTER_EVENTS; NS_CSS_LETTER_SPACING; NS_CSS_WORD_SPACING; NS_CSS_WHITE_SPACE; NS_CSS_BOX_SIZING;
  NS_CSS_TEXT_INDENT; NS_CSS_TEXT_TRANSFORM; NS_CSS_LIST_STYLE_TYPE; NS_CSS_VERTICAL_ALIGN; NS_CSS_VISIBILITY; NS_CSS_OVERFLOW;
  NS_CSS_FONT_VARIANT; NS_CSS_BORDER_RADIUS; NS_CSS_BORDER_TOP_LEFT_RADIUS; NS_CSS_BORDER_TOP_RIGHT_RADIUS;
  NS_CSS_BORDER_BOTTOM_RIGHT_RADIUS; NS_CSS_BORDER_BOTTOM_LEFT_RADIUS; NS_CSS_FLEX_DIRECTION; NS_CSS_FLEX_WRAP;
  NS_CSS_JUSTIFY_CONTENT; NS_CSS_ALIGN_ITEMS; NS_CSS_ALIGN_SELF; NS_CSS_GAP; NS_CSS_ROW_GAP; NS_CSS_COLUMN_GAP; NS_CSS_FLEX_GROW;
  NS_CSS_FLEX_SHRINK; NS_CSS_FLEX_BASIS; NS_CSS_ORDER; NS_CSS_FLOAT; NS_CSS_CLEAR; NS_CSS_BOX_SHADOW; NS_CSS_OUTLINE_WIDTH;
  NS_CSS_OUTLINE_STYLE; NS_CSS_OUTLINE_COLOR; NS_CSS_OUTLINE_OFFSET; NS_CSS_BACKGROUND_IMAGE; NS_CSS_BACKGROUND_REPEAT;
  NS_CSS_BACKGROUND_POSITION_X; NS_CSS_BACKGROUND_POSITION_Y; NS_CSS_BACKGROUND_SIZE; NS_CSS_BACKGROUND_CLIP;
  NS_CSS_BACKGROUND_ORIGIN; NS_CSS_SCROLLBAR_WIDTH; NS_CSS_SCROLLBAR_COLOR; NS_CSS_IMAGE_RENDERING; NS_CSS_CONTENT;
  NS_CSS_GRID_TEMPLATE_COLUMNS; NS_CSS_GRID_TEMPLATE_ROWS; NS_CSS_GRID_TEMPLATE_AREAS; NS_CSS_GRID_COLUMN; NS_CSS_GRID_ROW;
  NS_CSS_GRID_COLUMN_START; NS_CSS_GRID_COLUMN_END; NS_CSS_GRID_ROW_START; NS_CSS_GRID_ROW_END; NS_CSS_GRID_AREA;
  NS_CSS_GRID_AUTO_ROWS; NS_CSS_GRID_AUTO_COLUMNS; NS_CSS_GRID_AUTO_FLOW; NS_CSS_TRANSFORM; NS_CSS_TRANSFORM_ORIGIN;
  NS_CSS_TRANSITION; NS_CSS_ANIMATION; NS_CSS_ASPECT_RATIO; NS_CSS_TEXT_SHADOW; NS_CSS_OVERFLOW_WRAP; NS_CSS_WORD_BREAK;
  NS_CSS_HYPHENS; NS_CSS_TEXT_OVERFLOW; NS_CSS_TEXT_DECORATION_COLOR; NS_CSS_TEXT_DECORATION_STYLE; NS_CSS_LIST_STYLE_POSITION;
  NS_CSS_LIST_STYLE_IMAGE; NS_CSS_USER_SELECT; NS_CSS_QUOTES; NS_CSS_COLUMN_COUNT; NS_CSS_COLUMN_WIDTH; NS_CSS_COLUMN_RULE_WIDTH;
  NS_CSS_COLUMN_RULE_STYLE; NS_CSS_COLUMN_RULE_COLOR; NS_CSS_FILTER; NS_CSS_CLIP_PATH; NS_CSS_MIX_BLEND_MODE;
  NS_CSS_ACCENT_COLOR; NS_CSS_COUNTER_RESET; NS_CSS_COUNTER_INCREMENT; NS_CSS_LINE_CLAMP; NS_CSS_OBJECT_FIT;
  NS_CSS_OBJECT_POSITION_X; NS_CSS_OBJECT_POSITION_Y; NS_CSS_MASK_IMAGE; NS_CSS_OVERFLOW_X; NS_CSS_OVERFLOW_Y; NS_CSS_APPEARANCE;
  NS_CSS_TABLE_LAYOUT; NS_CSS_CAPTION_SIDE; NS_CSS_BORDER_COLLAPSE; NS_CSS_BORDER_SPACING; NS_CSS_CONTAINER_TYPE;
  NS_CSS_CONTAINER_NAME; NS_CSS_CARET_COLOR; NS_CSS_TAB_SIZE; NS_CSS_JUSTIFY_ITEMS; NS_CSS_JUSTIFY_SELF; NS_CSS_ALIGN_CONTENT;
  NS_CSS_DIRECTION; NS_CSS_UNICODE_BIDI; NS_CSS_TRANSLATE; NS_CSS_ROTATE; NS_CSS_SCALE; NS_CSS_PERSPECTIVE;
  NS_CSS_PERSPECTIVE_ORIGIN; NS_CSS_TRANSFORM_STYLE; NS_CSS_BACKFACE_VISIBILITY; NS_CSS_ANIMATION_PLAY_STATE; NS_CSS_CLIP;
  NS_CSS_CONTENT_VISIBILITY; NS_CSS_WRITING_MODE; NS_CSS_TEXT_ORIENTATION; NS_CSS_TRANSITION_DELAY; NS_CSS_TRANSITION_DURATION;
  NS_CSS_ANIMATION_DELAY; NS_CSS_ANIMATION_DURATION; NS_CSS_ORPHANS; NS_CSS_WIDOWS; NS_CSS_MAX_LINES;
  NS_CSS_HYPHENATE_LIMIT_LINES; NS_CSS_COLUMN_SPAN; NS_CSS_MARGIN_BLOCK_START; NS_CSS_MARGIN_BLOCK_END;
  NS_CSS_MARGIN_INLINE_START; NS_CSS_MARGIN_INLINE_END; NS_CSS_PADDING_BLOCK_START; NS_CSS_PADDING_BLOCK_END;
  NS_CSS_PADDING_INLINE_START; NS_CSS_PADDING_INLINE_END; NS_CSS_BORDER_BLOCK_START_WIDTH; NS_CSS_BORDER_BLOCK_END_WIDTH;
  NS_CSS_BORDER_INLINE_START_WIDTH; NS_CSS_BORDER_INLINE_END_WIDTH; NS_CSS_BORDER_BLOCK_START_STYLE;
  NS_CSS_BORDER_BLOCK_END_STYLE; NS_CSS_BORDER_INLINE_START_STYLE; NS_CSS_BORDER_INLINE_END_STYLE;
  NS_CSS_BORDER_BLOCK_START_COLOR; NS_CSS_BORDER_BLOCK_END_COLOR; NS_CSS_BORDER_INLINE_START_COLOR;
  NS_CSS_BORDER_INLINE_END_COLOR; NS_CSS_BORDER_START_START_RADIUS; NS_CSS_BORDER_START_END_RADIUS;
  NS_CSS_BORDER_END_START_RADIUS; NS_CSS_BORDER_END_END_RADIUS; NS_CSS_INSET_BLOCK_START; NS_CSS_INSET_BLOCK_END;
  NS_CSS_INSET_INLINE_START; NS_CSS_INSET_INLINE_END; NS_CSS_BLOCK_SIZE; NS_CSS_INLINE_SIZE; NS_CSS_MIN_BLOCK_SIZE;
  NS_CSS_MIN_INLINE_SIZE; NS_CSS_MAX_BLOCK_SIZE; NS_CSS_MAX_INLINE_SIZE; NS_CSS_FILL; NS_CSS_FILL_OPACITY; NS_CSS_FILL_RULE;
  NS_CSS_STROKE; NS_CSS_STROKE_WIDTH; NS_CSS_STROKE_OPACITY; NS_CSS_STROKE_LINECAP; NS_CSS_STROKE_LINEJOIN;
  NS_CSS_STROKE_MITERLIMIT; NS_CSS_STROKE_DASHARRAY; NS_CSS_STROKE_DASHOFFSET; NS_CSS_STOP_COLOR; NS_CSS_STOP_OPACITY;
  NS_CSS_CLIP_RULE; NS_CSS_TEXT_ANCHOR; NS_CSS_DOMINANT_BASELINE; NS_CSS_PAINT_ORDER; NS_CSS_VECTOR_EFFECT;
  NS_CSS_SHAPE_RENDERING; NS_CSS_SVG_X; NS_CSS_SVG_Y; NS_CSS_CX; NS_CSS_CY; NS_CSS_R; NS_CSS_RX; NS_CSS_RY].
Definition prop_number (p : ns_css_prop) : nat :=
  match p with
  | NS_CSS_DISPLAY => 0 | NS_CSS_COLOR => 1 | NS_CSS_BACKGROUND_COLOR => 2 | NS_CSS_FONT_SIZE => 3 | NS_CSS_FONT_WEIGHT => 4
  | NS_CSS_FONT_STYLE => 5 | NS_CSS_FONT_STRETCH => 6 | NS_CSS_FONT_KERNING => 7 | NS_CSS_FONT_VARIANT_LIGATURES => 8
  | NS_CSS_FONT_FEATURE_SETTINGS => 9 | NS_CSS_FONT_VARIATION_SETTINGS => 10 | NS_CSS_FONT_FAMILY => 11 | NS_CSS_TEXT_ALIGN => 12
  | NS_CSS_MARGIN_TOP => 13 | NS_CSS_MARGIN_RIGHT => 14 | NS_CSS_MARGIN_BOTTOM => 15 | NS_CSS_MARGIN_LEFT => 16
  | NS_CSS_PADDING_TOP => 17 | NS_CSS_PADDING_RIGHT => 18 | NS_CSS_PADDING_BOTTOM => 19 | NS_CSS_PADDING_LEFT => 20
  | NS_CSS_BORDER_TOP_WIDTH => 21 | NS_CSS_BORDER_RIGHT_WIDTH => 22 | NS_CSS_BORDER_BOTTOM_WIDTH => 23
  | NS_CSS_BORDER_LEFT_WIDTH => 24 | NS_CSS_BORDER_TOP_COLOR => 25 | NS_CSS_BORDER_RIGHT_COLOR => 26
  | NS_CSS_BORDER_BOTTOM_COLOR => 27 | NS_CSS_BORDER_LEFT_COLOR => 28 | NS_CSS_BORDER_TOP_STYLE => 29
  | NS_CSS_BORDER_RIGHT_STYLE => 30 | NS_CSS_BORDER_BOTTOM_STYLE => 31 | NS_CSS_BORDER_LEFT_STYLE => 32 | NS_CSS_WIDTH => 33
  | NS_CSS_HEIGHT => 34 | NS_CSS_MAX_WIDTH => 35 | NS_CSS_MAX_HEIGHT => 36 | NS_CSS_MIN_WIDTH => 37 | NS_CSS_MIN_HEIGHT => 38
  | NS_CSS_LINE_HEIGHT => 39 | NS_CSS_TEXT_DECORATION => 40 | NS_CSS_POSITION => 41 | NS_CSS_TOP => 42 | NS_CSS_RIGHT => 43
  | NS_CSS_BOTTOM => 44 | NS_CSS_LEFT => 45 | NS_CSS_Z_INDEX => 46 | NS_CSS_OPACITY => 47 | NS_CSS_CURSOR => 48
  | NS_CSS_POINTER_EVENTS => 49 | NS_CSS_LETTER_SPACING => 50 | NS_CSS_WORD_SPACING => 51 | NS_CSS_WHITE_SPACE => 52
  | NS_CSS_BOX_SIZING => 53 | NS_CSS_TEXT_INDENT => 54 | NS_CSS_TEXT_TRANSFORM => 55 | NS_CSS_LIST_STYLE_TYPE => 56
  | NS_CSS_VERTICAL_ALIGN => 57 | NS_CSS_VISIBILITY => 58 | NS_CSS_OVERFLOW => 59 | NS_CSS_FONT_VARIANT => 60
  | NS_CSS_BORDER_RADIUS => 61 | NS_CSS_BORDER_TOP_LEFT_RADIUS => 62 | NS_CSS_BORDER_TOP_RIGHT_RADIUS => 63
  | NS_CSS_BORDER_BOTTOM_RIGHT_RADIUS => 64 | NS_CSS_BORDER_BOTTOM_LEFT_RADIUS => 65 | NS_CSS_FLEX_DIRECTION => 66
  | NS_CSS_FLEX_WRAP => 67 | NS_CSS_JUSTIFY_CONTENT => 68 | NS_CSS_ALIGN_ITEMS => 69 | NS_CSS_ALIGN_SELF => 70 | NS_CSS_GAP => 71
  | NS_CSS_ROW_GAP => 72 | NS_CSS_COLUMN_GAP => 73 | NS_CSS_FLEX_GROW => 74 | NS_CSS_FLEX_SHRINK => 75 | NS_CSS_FLEX_BASIS => 76
  | NS_CSS_ORDER => 77 | NS_CSS_FLOAT => 78 | NS_CSS_CLEAR => 79 | NS_CSS_BOX_SHADOW => 80 | NS_CSS_OUTLINE_WIDTH => 81
  | NS_CSS_OUTLINE_STYLE => 82 | NS_CSS_OUTLINE_COLOR => 83 | NS_CSS_OUTLINE_OFFSET => 84 | NS_CSS_BACKGROUND_IMAGE => 85
  | NS_CSS_BACKGROUND_REPEAT => 86 | NS_CSS_BACKGROUND_POSITION_X => 87 | NS_CSS_BACKGROUND_POSITION_Y => 88
  | NS_CSS_BACKGROUND_SIZE => 89 | NS_CSS_BACKGROUND_CLIP => 90 | NS_CSS_BACKGROUND_ORIGIN => 91 | NS_CSS_SCROLLBAR_WIDTH => 92
  | NS_CSS_SCROLLBAR_COLOR => 93 | NS_CSS_IMAGE_RENDERING => 94 | NS_CSS_CONTENT => 95 | NS_CSS_GRID_TEMPLATE_COLUMNS => 96
  | NS_CSS_GRID_TEMPLATE_ROWS => 97 | NS_CSS_GRID_TEMPLATE_AREAS => 98 | NS_CSS_GRID_COLUMN => 99 | NS_CSS_GRID_ROW => 100
  | NS_CSS_GRID_COLUMN_START => 101 | NS_CSS_GRID_COLUMN_END => 102 | NS_CSS_GRID_ROW_START => 103 | NS_CSS_GRID_ROW_END => 104
  | NS_CSS_GRID_AREA => 105 | NS_CSS_GRID_AUTO_ROWS => 106 | NS_CSS_GRID_AUTO_COLUMNS => 107 | NS_CSS_GRID_AUTO_FLOW => 108
  | NS_CSS_TRANSFORM => 109 | NS_CSS_TRANSFORM_ORIGIN => 110 | NS_CSS_TRANSITION => 111 | NS_CSS_ANIMATION => 112
  | NS_CSS_ASPECT_RATIO => 113 | NS_CSS_TEXT_SHADOW => 114 | NS_CSS_OVERFLOW_WRAP => 115 | NS_CSS_WORD_BREAK => 116
  | NS_CSS_HYPHENS => 117 | NS_CSS_TEXT_OVERFLOW => 118 | NS_CSS_TEXT_DECORATION_COLOR => 119
  | NS_CSS_TEXT_DECORATION_STYLE => 120 | NS_CSS_LIST_STYLE_POSITION => 121 | NS_CSS_LIST_STYLE_IMAGE => 122
  | NS_CSS_USER_SELECT => 123 | NS_CSS_QUOTES => 124 | NS_CSS_COLUMN_COUNT => 125 | NS_CSS_COLUMN_WIDTH => 126
  | NS_CSS_COLUMN_RULE_WIDTH => 127 | NS_CSS_COLUMN_RULE_STYLE => 128 | NS_CSS_COLUMN_RULE_COLOR => 129 | NS_CSS_FILTER => 130
  | NS_CSS_CLIP_PATH => 131 | NS_CSS_MIX_BLEND_MODE => 132 | NS_CSS_ACCENT_COLOR => 133 | NS_CSS_COUNTER_RESET => 134
  | NS_CSS_COUNTER_INCREMENT => 135 | NS_CSS_LINE_CLAMP => 136 | NS_CSS_OBJECT_FIT => 137 | NS_CSS_OBJECT_POSITION_X => 138
  | NS_CSS_OBJECT_POSITION_Y => 139 | NS_CSS_MASK_IMAGE => 140 | NS_CSS_OVERFLOW_X => 141 | NS_CSS_OVERFLOW_Y => 142
  | NS_CSS_APPEARANCE => 143 | NS_CSS_TABLE_LAYOUT => 144 | NS_CSS_CAPTION_SIDE => 145 | NS_CSS_BORDER_COLLAPSE => 146
  | NS_CSS_BORDER_SPACING => 147 | NS_CSS_CONTAINER_TYPE => 148 | NS_CSS_CONTAINER_NAME => 149 | NS_CSS_CARET_COLOR => 150
  | NS_CSS_TAB_SIZE => 151 | NS_CSS_JUSTIFY_ITEMS => 152 | NS_CSS_JUSTIFY_SELF => 153 | NS_CSS_ALIGN_CONTENT => 154
  | NS_CSS_DIRECTION => 155 | NS_CSS_UNICODE_BIDI => 156 | NS_CSS_TRANSLATE => 157 | NS_CSS_ROTATE => 158 | NS_CSS_SCALE => 159
  | NS_CSS_PERSPECTIVE => 160 | NS_CSS_PERSPECTIVE_ORIGIN => 161 | NS_CSS_TRANSFORM_STYLE => 162
  | NS_CSS_BACKFACE_VISIBILITY => 163 | NS_CSS_ANIMATION_PLAY_STATE => 164 | NS_CSS_CLIP => 165
  | NS_CSS_CONTENT_VISIBILITY => 166 | NS_CSS_WRITING_MODE => 167 | NS_CSS_TEXT_ORIENTATION => 168
  | NS_CSS_TRANSITION_DELAY => 169 | NS_CSS_TRANSITION_DURATION => 170 | NS_CSS_ANIMATION_DELAY => 171
  | NS_CSS_ANIMATION_DURATION => 172 | NS_CSS_ORPHANS => 173 | NS_CSS_WIDOWS => 174 | NS_CSS_MAX_LINES => 175
  | NS_CSS_HYPHENATE_LIMIT_LINES => 176 | NS_CSS_COLUMN_SPAN => 177 | NS_CSS_MARGIN_BLOCK_START => 178
  | NS_CSS_MARGIN_BLOCK_END => 179 | NS_CSS_MARGIN_INLINE_START => 180 | NS_CSS_MARGIN_INLINE_END => 181
  | NS_CSS_PADDING_BLOCK_START => 182 | NS_CSS_PADDING_BLOCK_END => 183 | NS_CSS_PADDING_INLINE_START => 184
  | NS_CSS_PADDING_INLINE_END => 185 | NS_CSS_BORDER_BLOCK_START_WIDTH => 186 | NS_CSS_BORDER_BLOCK_END_WIDTH => 187
  | NS_CSS_BORDER_INLINE_START_WIDTH => 188 | NS_CSS_BORDER_INLINE_END_WIDTH => 189 | NS_CSS_BORDER_BLOCK_START_STYLE => 190
  | NS_CSS_BORDER_BLOCK_END_STYLE => 191 | NS_CSS_BORDER_INLINE_START_STYLE => 192 | NS_CSS_BORDER_INLINE_END_STYLE => 193
  | NS_CSS_BORDER_BLOCK_START_COLOR => 194 | NS_CSS_BORDER_BLOCK_END_COLOR => 195 | NS_CSS_BORDER_INLINE_START_COLOR => 196
  | NS_CSS_BORDER_INLINE_END_COLOR => 197 | NS_CSS_BORDER_START_START_RADIUS => 198 | NS_CSS_BORDER_START_END_RADIUS => 199
  | NS_CSS_BORDER_END_START_RADIUS => 200 | NS_CSS_BORDER_END_END_RADIUS => 201 | NS_CSS_INSET_BLOCK_START => 202
  | NS_CSS_INSET_BLOCK_END => 203 | NS_CSS_INSET_INLINE_START => 204 | NS_CSS_INSET_INLINE_END => 205 | NS_CSS_BLOCK_SIZE => 206
  | NS_CSS_INLINE_SIZE => 207 | NS_CSS_MIN_BLOCK_SIZE => 208 | NS_CSS_MIN_INLINE_SIZE => 209 | NS_CSS_MAX_BLOCK_SIZE => 210
  | NS_CSS_MAX_INLINE_SIZE => 211 | NS_CSS_FILL => 212 | NS_CSS_FILL_OPACITY => 213 | NS_CSS_FILL_RULE => 214
  | NS_CSS_STROKE => 215 | NS_CSS_STROKE_WIDTH => 216 | NS_CSS_STROKE_OPACITY => 217 | NS_CSS_STROKE_LINECAP => 218
  | NS_CSS_STROKE_LINEJOIN => 219 | NS_CSS_STROKE_MITERLIMIT => 220 | NS_CSS_STROKE_DASHARRAY => 221
  | NS_CSS_STROKE_DASHOFFSET => 222 | NS_CSS_STOP_COLOR => 223 | NS_CSS_STOP_OPACITY => 224 | NS_CSS_CLIP_RULE => 225
  | NS_CSS_TEXT_ANCHOR => 226 | NS_CSS_DOMINANT_BASELINE => 227 | NS_CSS_PAINT_ORDER => 228 | NS_CSS_VECTOR_EFFECT => 229
  | NS_CSS_SHAPE_RENDERING => 230 | NS_CSS_SVG_X => 231 | NS_CSS_SVG_Y => 232 | NS_CSS_CX => 233 | NS_CSS_CY => 234
  | NS_CSS_R => 235 | NS_CSS_RX => 236 | NS_CSS_RY => 237
  end.
Definition NS_CSS_PROP_COUNT : nat := length all_props.
Definition prop_of (i : Z) : option ns_css_prop := if (i <? 0)%Z then None else all_props !! Z.to_nat i.

(** [prop_number] finds each property in [all_props]. *)
Lemma number_place p : all_props !! prop_number p = Some p.
Proof. by destruct p. Qed.
Lemma number_inj p q : prop_number p = prop_number q -> p = q.
Proof. intros E. pose proof (number_place p) as H. rewrite E, number_place in H. by injection H. Qed.
#[export] Instance prop_eq_dec : EqDecision ns_css_prop.
Proof. intros p q. destruct (decide (prop_number p = prop_number q)) as [E|E]; [left; by apply number_inj|right; congruence]. Defined.
Lemma props_all p : p ∈ all_props.
Proof. eapply list_elem_of_lookup_2, number_place. Qed.
Lemma prop_of_number p : prop_of (Z.of_nat (prop_number p)) = Some p.
Proof. unfold prop_of. destruct (Z.ltb_spec (Z.of_nat (prop_number p)) 0); [lia|]. by rewrite Nat2Z.id, number_place. Qed.

Definition NS_CSS_META_INHERITED : Z := 1.
Definition NS_CSS_META_LOGICAL : Z := 2.
(** [syntax] is [None] for [NS_CSS_PROP_COUNT]. *)
Record ns_css_property_meta := { name : bytes; flags : Z; syntax : option ns_css_prop; logical_group : Z }.
Definition P (s : bytes) : ns_css_property_meta := Build_ns_css_property_meta s 0 None 0.
Definition PI (s : bytes) : ns_css_property_meta := Build_ns_css_property_meta s NS_CSS_META_INHERITED None 0.
Definition PG (s : bytes) (group : Z) : ns_css_property_meta := Build_ns_css_property_meta s 0 None group.
Definition PL (s : bytes) (syntax_prop : ns_css_prop) (group : Z) : ns_css_property_meta :=
  Build_ns_css_property_meta s NS_CSS_META_LOGICAL (Some syntax_prop) group.

Definition kProperty (p : ns_css_prop) : ns_css_property_meta :=
  match p with
  | NS_CSS_DISPLAY => P ($"display")
  | NS_CSS_COLOR => PI ($"color")
  | NS_CSS_BACKGROUND_COLOR => P ($"background-color")
  | NS_CSS_FONT_SIZE => PI ($"font-size")
  | NS_CSS_FONT_WEIGHT => PI ($"font-weight")
  | NS_CSS_FONT_STYLE => PI ($"font-style")
  | NS_CSS_FONT_STRETCH => PI ($"font-stretch")
  | NS_CSS_FONT_KERNING => PI ($"font-kerning")
  | NS_CSS_FONT_VARIANT_LIGATURES => PI ($"font-variant-ligatures")
  | NS_CSS_FONT_FEATURE_SETTINGS => PI ($"font-feature-settings")
  | NS_CSS_FONT_VARIATION_SETTINGS => PI ($"font-variation-settings")
  | NS_CSS_FONT_FAMILY => PI ($"font-family")
  | NS_CSS_TEXT_ALIGN => PI ($"text-align")
  | NS_CSS_MARGIN_TOP => PG ($"margin-top") 1
  | NS_CSS_MARGIN_RIGHT => PG ($"margin-right") 1
  | NS_CSS_MARGIN_BOTTOM => PG ($"margin-bottom") 1
  | NS_CSS_MARGIN_LEFT => PG ($"margin-left") 1
  | NS_CSS_PADDING_TOP => PG ($"padding-top") 2
  | NS_CSS_PADDING_RIGHT => PG ($"padding-right") 2
  | NS_CSS_PADDING_BOTTOM => PG ($"padding-bottom") 2
  | NS_CSS_PADDING_LEFT => PG ($"padding-left") 2
  | NS_CSS_BORDER_TOP_WIDTH => PG ($"border-top-width") 3
  | NS_CSS_BORDER_RIGHT_WIDTH => PG ($"border-right-width") 3
  | NS_CSS_BORDER_BOTTOM_WIDTH => PG ($"border-bottom-width") 3
  | NS_CSS_BORDER_LEFT_WIDTH => PG ($"border-left-width") 3
  | NS_CSS_BORDER_TOP_COLOR => PG ($"border-top-color") 5
  | NS_CSS_BORDER_RIGHT_COLOR => PG ($"border-right-color") 5
  | NS_CSS_BORDER_BOTTOM_COLOR => PG ($"border-bottom-color") 5
  | NS_CSS_BORDER_LEFT_COLOR => PG ($"border-left-color") 5
  | NS_CSS_BORDER_TOP_STYLE => PG ($"border-top-style") 4
  | NS_CSS_BORDER_RIGHT_STYLE => PG ($"border-right-style") 4
  | NS_CSS_BORDER_BOTTOM_STYLE => PG ($"border-bottom-style") 4
  | NS_CSS_BORDER_LEFT_STYLE => PG ($"border-left-style") 4
  | NS_CSS_WIDTH => PG ($"width") 8
  | NS_CSS_HEIGHT => PG ($"height") 8
  | NS_CSS_MAX_WIDTH => PG ($"max-width") 10
  | NS_CSS_MAX_HEIGHT => PG ($"max-height") 10
  | NS_CSS_MIN_WIDTH => PG ($"min-width") 9
  | NS_CSS_MIN_HEIGHT => PG ($"min-height") 9
  | NS_CSS_LINE_HEIGHT => PI ($"line-height")
  | NS_CSS_TEXT_DECORATION => P ($"text-decoration")
  | NS_CSS_POSITION => P ($"position")
  | NS_CSS_TOP => PG ($"top") 7
  | NS_CSS_RIGHT => PG ($"right") 7
  | NS_CSS_BOTTOM => PG ($"bottom") 7
  | NS_CSS_LEFT => PG ($"left") 7
  | NS_CSS_Z_INDEX => P ($"z-index")
  | NS_CSS_OPACITY => P ($"opacity")
  | NS_CSS_CURSOR => PI ($"cursor")
  | NS_CSS_POINTER_EVENTS => PI ($"pointer-events")
  | NS_CSS_LETTER_SPACING => PI ($"letter-spacing")
  | NS_CSS_WORD_SPACING => PI ($"word-spacing")
  | NS_CSS_WHITE_SPACE => PI ($"white-space")
  | NS_CSS_BOX_SIZING => P ($"box-sizing")
  | NS_CSS_TEXT_INDENT => PI ($"text-indent")
  | NS_CSS_TEXT_TRANSFORM => PI ($"text-transform")
  | NS_CSS_LIST_STYLE_TYPE => PI ($"list-style-type")
  | NS_CSS_VERTICAL_ALIGN => P ($"vertical-align")
  | NS_CSS_VISIBILITY => PI ($"visibility")
  | NS_CSS_OVERFLOW => P ($"overflow")
  | NS_CSS_FONT_VARIANT => PI ($"font-variant")
  | NS_CSS_BORDER_RADIUS => P ($"border-radius")
  | NS_CSS_BORDER_TOP_LEFT_RADIUS => PG ($"border-top-left-radius") 6
  | NS_CSS_BORDER_TOP_RIGHT_RADIUS => PG ($"border-top-right-radius") 6
  | NS_CSS_BORDER_BOTTOM_RIGHT_RADIUS => PG ($"border-bottom-right-radius") 6
  | NS_CSS_BORDER_BOTTOM_LEFT_RADIUS => PG ($"border-bottom-left-radius") 6
  | NS_CSS_FLEX_DIRECTION => P ($"flex-direction")
  | NS_CSS_FLEX_WRAP => P ($"flex-wrap")
  | NS_CSS_JUSTIFY_CONTENT => P ($"justify-content")
  | NS_CSS_ALIGN_ITEMS => P ($"align-items")
  | NS_CSS_ALIGN_SELF => P ($"align-self")
  | NS_CSS_GAP => P ($"gap")
  | NS_CSS_ROW_GAP => P ($"row-gap")
  | NS_CSS_COLUMN_GAP => P ($"column-gap")
  | NS_CSS_FLEX_GROW => P ($"flex-grow")
  | NS_CSS_FLEX_SHRINK => P ($"flex-shrink")
  | NS_CSS_FLEX_BASIS => P ($"flex-basis")
  | NS_CSS_ORDER => P ($"order")
  | NS_CSS_FLOAT => P ($"float")
  | NS_CSS_CLEAR => P ($"clear")
  | NS_CSS_BOX_SHADOW => P ($"box-shadow")
  | NS_CSS_OUTLINE_WIDTH => P ($"outline-width")
  | NS_CSS_OUTLINE_STYLE => P ($"outline-style")
  | NS_CSS_OUTLINE_COLOR => P ($"outline-color")
  | NS_CSS_OUTLINE_OFFSET => P ($"outline-offset")
  | NS_CSS_BACKGROUND_IMAGE => P ($"background-image")
  | NS_CSS_BACKGROUND_REPEAT => P ($"background-repeat")
  | NS_CSS_BACKGROUND_POSITION_X => P ($"background-position-x")
  | NS_CSS_BACKGROUND_POSITION_Y => P ($"background-position-y")
  | NS_CSS_BACKGROUND_SIZE => P ($"background-size")
  | NS_CSS_BACKGROUND_CLIP => P ($"background-clip")
  | NS_CSS_BACKGROUND_ORIGIN => P ($"background-origin")
  | NS_CSS_SCROLLBAR_WIDTH => P ($"scrollbar-width")
  | NS_CSS_SCROLLBAR_COLOR => PI ($"scrollbar-color")
  | NS_CSS_IMAGE_RENDERING => PI ($"image-rendering")
  | NS_CSS_CONTENT => P ($"content")
  | NS_CSS_GRID_TEMPLATE_COLUMNS => P ($"grid-template-columns")
  | NS_CSS_GRID_TEMPLATE_ROWS => P ($"grid-template-rows")
  | NS_CSS_GRID_TEMPLATE_AREAS => P ($"grid-template-areas")
  | NS_CSS_GRID_COLUMN => P ($"grid-column")
  | NS_CSS_GRID_ROW => P ($"grid-row")
  | NS_CSS_GRID_COLUMN_START => P ($"grid-column-start")
  | NS_CSS_GRID_COLUMN_END => P ($"grid-column-end")
  | NS_CSS_GRID_ROW_START => P ($"grid-row-start")
  | NS_CSS_GRID_ROW_END => P ($"grid-row-end")
  | NS_CSS_GRID_AREA => P ($"grid-area")
  | NS_CSS_GRID_AUTO_ROWS => P ($"grid-auto-rows")
  | NS_CSS_GRID_AUTO_COLUMNS => P ($"grid-auto-columns")
  | NS_CSS_GRID_AUTO_FLOW => P ($"grid-auto-flow")
  | NS_CSS_TRANSFORM => P ($"transform")
  | NS_CSS_TRANSFORM_ORIGIN => P ($"transform-origin")
  | NS_CSS_TRANSITION => P ($"transition")
  | NS_CSS_ANIMATION => P ($"animation")
  | NS_CSS_ASPECT_RATIO => P ($"aspect-ratio")
  | NS_CSS_TEXT_SHADOW => P ($"text-shadow")
  | NS_CSS_OVERFLOW_WRAP => PI ($"overflow-wrap")
  | NS_CSS_WORD_BREAK => PI ($"word-break")
  | NS_CSS_HYPHENS => PI ($"hyphens")
  | NS_CSS_TEXT_OVERFLOW => P ($"text-overflow")
  | NS_CSS_TEXT_DECORATION_COLOR => P ($"text-decoration-color")
  | NS_CSS_TEXT_DECORATION_STYLE => P ($"text-decoration-style")
  | NS_CSS_LIST_STYLE_POSITION => PI ($"list-style-position")
  | NS_CSS_LIST_STYLE_IMAGE => PI ($"list-style-image")
  | NS_CSS_USER_SELECT => PI ($"user-select")
  | NS_CSS_QUOTES => PI ($"quotes")
  | NS_CSS_COLUMN_COUNT => P ($"column-count")
  | NS_CSS_COLUMN_WIDTH => P ($"column-width")
  | NS_CSS_COLUMN_RULE_WIDTH => P ($"column-rule-width")
  | NS_CSS_COLUMN_RULE_STYLE => P ($"column-rule-style")
  | NS_CSS_COLUMN_RULE_COLOR => P ($"column-rule-color")
  | NS_CSS_FILTER => P ($"filter")
  | NS_CSS_CLIP_PATH => P ($"clip-path")
  | NS_CSS_MIX_BLEND_MODE => P ($"mix-blend-mode")
  | NS_CSS_ACCENT_COLOR => PI ($"accent-color")
  | NS_CSS_COUNTER_RESET => P ($"counter-reset")
  | NS_CSS_COUNTER_INCREMENT => P ($"counter-increment")
  | NS_CSS_LINE_CLAMP => P ($"-webkit-line-clamp")
  | NS_CSS_OBJECT_FIT => P ($"object-fit")
  | NS_CSS_OBJECT_POSITION_X => P ($"object-position-x")
  | NS_CSS_OBJECT_POSITION_Y => P ($"object-position-y")
  | NS_CSS_MASK_IMAGE => P ($"mask-image")
  | NS_CSS_OVERFLOW_X => P ($"overflow-x")
  | NS_CSS_OVERFLOW_Y => P ($"overflow-y")
  | NS_CSS_APPEARANCE => P ($"appearance")
  | NS_CSS_TABLE_LAYOUT => P ($"table-layout")
  | NS_CSS_CAPTION_SIDE => PI ($"caption-side")
  | NS_CSS_BORDER_COLLAPSE => PI ($"border-collapse")
  | NS_CSS_BORDER_SPACING => PI ($"border-spacing")
  | NS_CSS_CONTAINER_TYPE => P ($"container-type")
  | NS_CSS_CONTAINER_NAME => P ($"container-name")
  | NS_CSS_CARET_COLOR => PI ($"caret-color")
  | NS_CSS_TAB_SIZE => PI ($"tab-size")
  | NS_CSS_JUSTIFY_ITEMS => P ($"justify-items")
  | NS_CSS_JUSTIFY_SELF => P ($"justify-self")
  | NS_CSS_ALIGN_CONTENT => P ($"align-content")
  | NS_CSS_DIRECTION => PI ($"direction")
  | NS_CSS_UNICODE_BIDI => P ($"unicode-bidi")
  | NS_CSS_TRANSLATE => P ($"translate")
  | NS_CSS_ROTATE => P ($"rotate")
  | NS_CSS_SCALE => P ($"scale")
  | NS_CSS_PERSPECTIVE => P ($"perspective")
  | NS_CSS_PERSPECTIVE_ORIGIN => P ($"perspective-origin")
  | NS_CSS_TRANSFORM_STYLE => P ($"transform-style")
  | NS_CSS_BACKFACE_VISIBILITY => P ($"backface-visibility")
  | NS_CSS_ANIMATION_PLAY_STATE => P ($"animation-play-state")
  | NS_CSS_CLIP => P ($"clip")
  | NS_CSS_CONTENT_VISIBILITY => P ($"content-visibility")
  | NS_CSS_WRITING_MODE => PI ($"writing-mode")
  | NS_CSS_TEXT_ORIENTATION => PI ($"text-orientation")
  | NS_CSS_TRANSITION_DELAY => P ($"transition-delay")
  | NS_CSS_TRANSITION_DURATION => P ($"transition-duration")
  | NS_CSS_ANIMATION_DELAY => P ($"animation-delay")
  | NS_CSS_ANIMATION_DURATION => P ($"animation-duration")
  | NS_CSS_ORPHANS => P ($"orphans")
  | NS_CSS_WIDOWS => P ($"widows")
  | NS_CSS_MAX_LINES => P ($"max-lines")
  | NS_CSS_HYPHENATE_LIMIT_LINES => P ($"hyphenate-limit-lines")
  | NS_CSS_COLUMN_SPAN => P ($"column-span")
  | NS_CSS_MARGIN_BLOCK_START => PL ($"margin-block-start") NS_CSS_MARGIN_TOP 1
  | NS_CSS_MARGIN_BLOCK_END => PL ($"margin-block-end") NS_CSS_MARGIN_TOP 1
  | NS_CSS_MARGIN_INLINE_START => PL ($"margin-inline-start") NS_CSS_MARGIN_TOP 1
  | NS_CSS_MARGIN_INLINE_END => PL ($"margin-inline-end") NS_CSS_MARGIN_TOP 1
  | NS_CSS_PADDING_BLOCK_START => PL ($"padding-block-start") NS_CSS_PADDING_TOP 2
  | NS_CSS_PADDING_BLOCK_END => PL ($"padding-block-end") NS_CSS_PADDING_TOP 2
  | NS_CSS_PADDING_INLINE_START => PL ($"padding-inline-start") NS_CSS_PADDING_TOP 2
  | NS_CSS_PADDING_INLINE_END => PL ($"padding-inline-end") NS_CSS_PADDING_TOP 2
  | NS_CSS_BORDER_BLOCK_START_WIDTH => PL ($"border-block-start-width") NS_CSS_BORDER_TOP_WIDTH 3
  | NS_CSS_BORDER_BLOCK_END_WIDTH => PL ($"border-block-end-width") NS_CSS_BORDER_TOP_WIDTH 3
  | NS_CSS_BORDER_INLINE_START_WIDTH => PL ($"border-inline-start-width") NS_CSS_BORDER_TOP_WIDTH 3
  | NS_CSS_BORDER_INLINE_END_WIDTH => PL ($"border-inline-end-width") NS_CSS_BORDER_TOP_WIDTH 3
  | NS_CSS_BORDER_BLOCK_START_STYLE => PL ($"border-block-start-style") NS_CSS_BORDER_TOP_STYLE 4
  | NS_CSS_BORDER_BLOCK_END_STYLE => PL ($"border-block-end-style") NS_CSS_BORDER_TOP_STYLE 4
  | NS_CSS_BORDER_INLINE_START_STYLE => PL ($"border-inline-start-style") NS_CSS_BORDER_TOP_STYLE 4
  | NS_CSS_BORDER_INLINE_END_STYLE => PL ($"border-inline-end-style") NS_CSS_BORDER_TOP_STYLE 4
  | NS_CSS_BORDER_BLOCK_START_COLOR => PL ($"border-block-start-color") NS_CSS_BORDER_TOP_COLOR 5
  | NS_CSS_BORDER_BLOCK_END_COLOR => PL ($"border-block-end-color") NS_CSS_BORDER_TOP_COLOR 5
  | NS_CSS_BORDER_INLINE_START_COLOR => PL ($"border-inline-start-color") NS_CSS_BORDER_TOP_COLOR 5
  | NS_CSS_BORDER_INLINE_END_COLOR => PL ($"border-inline-end-color") NS_CSS_BORDER_TOP_COLOR 5
  | NS_CSS_BORDER_START_START_RADIUS => PL ($"border-start-start-radius") NS_CSS_BORDER_TOP_LEFT_RADIUS 6
  | NS_CSS_BORDER_START_END_RADIUS => PL ($"border-start-end-radius") NS_CSS_BORDER_TOP_LEFT_RADIUS 6
  | NS_CSS_BORDER_END_START_RADIUS => PL ($"border-end-start-radius") NS_CSS_BORDER_TOP_LEFT_RADIUS 6
  | NS_CSS_BORDER_END_END_RADIUS => PL ($"border-end-end-radius") NS_CSS_BORDER_TOP_LEFT_RADIUS 6
  | NS_CSS_INSET_BLOCK_START => PL ($"inset-block-start") NS_CSS_TOP 7
  | NS_CSS_INSET_BLOCK_END => PL ($"inset-block-end") NS_CSS_TOP 7
  | NS_CSS_INSET_INLINE_START => PL ($"inset-inline-start") NS_CSS_TOP 7
  | NS_CSS_INSET_INLINE_END => PL ($"inset-inline-end") NS_CSS_TOP 7
  | NS_CSS_BLOCK_SIZE => PL ($"block-size") NS_CSS_WIDTH 8
  | NS_CSS_INLINE_SIZE => PL ($"inline-size") NS_CSS_WIDTH 8
  | NS_CSS_MIN_BLOCK_SIZE => PL ($"min-block-size") NS_CSS_MIN_WIDTH 9
  | NS_CSS_MIN_INLINE_SIZE => PL ($"min-inline-size") NS_CSS_MIN_WIDTH 9
  | NS_CSS_MAX_BLOCK_SIZE => PL ($"max-block-size") NS_CSS_MAX_WIDTH 10
  | NS_CSS_MAX_INLINE_SIZE => PL ($"max-inline-size") NS_CSS_MAX_WIDTH 10
  | NS_CSS_FILL => PI ($"fill")
  | NS_CSS_FILL_OPACITY => PI ($"fill-opacity")
  | NS_CSS_FILL_RULE => PI ($"fill-rule")
  | NS_CSS_STROKE => PI ($"stroke")
  | NS_CSS_STROKE_WIDTH => PI ($"stroke-width")
  | NS_CSS_STROKE_OPACITY => PI ($"stroke-opacity")
  | NS_CSS_STROKE_LINECAP => PI ($"stroke-linecap")
  | NS_CSS_STROKE_LINEJOIN => PI ($"stroke-linejoin")
  | NS_CSS_STROKE_MITERLIMIT => PI ($"stroke-miterlimit")
  | NS_CSS_STROKE_DASHARRAY => PI ($"stroke-dasharray")
  | NS_CSS_STROKE_DASHOFFSET => PI ($"stroke-dashoffset")
  | NS_CSS_STOP_COLOR => P ($"stop-color")
  | NS_CSS_STOP_OPACITY => P ($"stop-opacity")
  | NS_CSS_CLIP_RULE => PI ($"clip-rule")
  | NS_CSS_TEXT_ANCHOR => PI ($"text-anchor")
  | NS_CSS_DOMINANT_BASELINE => P ($"dominant-baseline")
  | NS_CSS_PAINT_ORDER => PI ($"paint-order")
  | NS_CSS_VECTOR_EFFECT => P ($"vector-effect")
  | NS_CSS_SHAPE_RENDERING => PI ($"shape-rendering")
  | NS_CSS_SVG_X => P ($"x")
  | NS_CSS_SVG_Y => P ($"y")
  | NS_CSS_CX => P ($"cx")
  | NS_CSS_CY => P ($"cy")
  | NS_CSS_R => P ($"r")
  | NS_CSS_RX => P ($"rx")
  | NS_CSS_RY => P ($"ry")
  end.

Definition ns_css_prop_inherited (prop : Z) : bool :=
  match prop_of prop with Some p => negb (Z.land (flags (kProperty p)) NS_CSS_META_INHERITED =? 0)%Z | None => false end.
Definition ns_css_prop_is_logical (prop : Z) : bool :=
  match prop_of prop with Some p => negb (Z.land (flags (kProperty p)) NS_CSS_META_LOGICAL =? 0)%Z | None => false end.
Definition ns_css_prop_logical_group (prop : Z) : Z :=
  match prop_of prop with Some p => logical_group (kProperty p) | None => 0%Z end.
Definition ns_css_prop_syntax (prop : Z) : Z :=
  match prop_of prop with
  | Some p => match syntax (kProperty p) with Some q => Z.of_nat (prop_number q) | None => prop end
  | None => prop
  end.

(** ** Names *)

Section Names.
Context {G : GLib}.

Definition ns_css_prop_name (prop : Z) : option bytes := (fun p => name (kProperty p)) <$> prop_of prop.

Fixpoint prop_loop (nm : bytes) (i : Z) (l : list ns_css_prop) : option Z :=
  match l with
  | [] => None
  | p :: l' => if g_ascii_strcasecmp0 nm (name (kProperty p)) then Some i else prop_loop nm (i + 1) l'
  end.
(** The names the table does not hold. *)
Definition prop_aliases : list (bytes * ns_css_prop) := [
  ($"word-wrap", NS_CSS_OVERFLOW_WRAP); ($"text-decoration-line", NS_CSS_TEXT_DECORATION); ($"line-clamp", NS_CSS_LINE_CLAMP);
  ($"text-wrap", NS_CSS_WHITE_SPACE); ($"text-wrap-mode", NS_CSS_WHITE_SPACE);
  ($"-webkit-mask-image", NS_CSS_MASK_IMAGE); ($"-webkit-mask", NS_CSS_MASK_IMAGE); ($"mask", NS_CSS_MASK_IMAGE);
  ($"-webkit-background-clip", NS_CSS_BACKGROUND_CLIP);
  ($"-webkit-appearance", NS_CSS_APPEARANCE); ($"-moz-appearance", NS_CSS_APPEARANCE)].
Definition prop_id (nm : bytes) : Z :=
  match prop_loop nm 0 all_props with
  | Some i => i
  | None =>
      match find (fun a => g_ascii_strcasecmp0 nm (fst a)) prop_aliases with
      | Some a => Z.of_nat (prop_number (snd a))
      | None => (-1)%Z
      end
  end.
Definition ns_css_prop_id (nm : option bytes) : Z := match nm with Some nm => prop_id nm | None => (-1)%Z end.
End Names.

(** ** Logical properties *)

Definition writing_mode_code (keyword : option bytes) : Z :=
  match keyword with
  | None => 0
  | Some k =>
      if existsb (strcmp0 k) [$"vertical-rl"; $"sideways-rl"; $"tb-rl"; $"tb"] then 1
      else if existsb (strcmp0 k) [$"vertical-lr"; $"sideways-lr"] then 2
      else 0
  end%Z.

(** Sides are 0 to 3: top, right, bottom, left. *)
Section Sides.
Context (prop : ns_css_prop) (block_start block_end inline_start inline_end : nat).

Definition margins : list ns_css_prop := [NS_CSS_MARGIN_TOP; NS_CSS_MARGIN_RIGHT; NS_CSS_MARGIN_BOTTOM; NS_CSS_MARGIN_LEFT].
Definition paddings : list ns_css_prop := [NS_CSS_PADDING_TOP; NS_CSS_PADDING_RIGHT; NS_CSS_PADDING_BOTTOM; NS_CSS_PADDING_LEFT].
Definition widths : list ns_css_prop :=
  [NS_CSS_BORDER_TOP_WIDTH; NS_CSS_BORDER_RIGHT_WIDTH; NS_CSS_BORDER_BOTTOM_WIDTH; NS_CSS_BORDER_LEFT_WIDTH].
Definition styles : list ns_css_prop :=
  [NS_CSS_BORDER_TOP_STYLE; NS_CSS_BORDER_RIGHT_STYLE; NS_CSS_BORDER_BOTTOM_STYLE; NS_CSS_BORDER_LEFT_STYLE].
Definition colors : list ns_css_prop :=
  [NS_CSS_BORDER_TOP_COLOR; NS_CSS_BORDER_RIGHT_COLOR; NS_CSS_BORDER_BOTTOM_COLOR; NS_CSS_BORDER_LEFT_COLOR].
Definition insets : list ns_css_prop := [NS_CSS_TOP; NS_CSS_RIGHT; NS_CSS_BOTTOM; NS_CSS_LEFT].

(** A place outside a table is a bad read. *)
Definition logical_side_prop : option ns_css_prop :=
  match prop with
  | NS_CSS_MARGIN_BLOCK_START => margins !! block_start
  | NS_CSS_MARGIN_BLOCK_END => margins !! block_end
  | NS_CSS_MARGIN_INLINE_START => margins !! inline_start
  | NS_CSS_MARGIN_INLINE_END => margins !! inline_end
  | NS_CSS_PADDING_BLOCK_START => paddings !! block_start
  | NS_CSS_PADDING_BLOCK_END => paddings !! block_end
  | NS_CSS_PADDING_INLINE_START => paddings !! inline_start
  | NS_CSS_PADDING_INLINE_END => paddings !! inline_end
  | NS_CSS_BORDER_BLOCK_START_WIDTH => widths !! block_start
  | NS_CSS_BORDER_BLOCK_END_WIDTH => widths !! block_end
  | NS_CSS_BORDER_INLINE_START_WIDTH => widths !! inline_start
  | NS_CSS_BORDER_INLINE_END_WIDTH => widths !! inline_end
  | NS_CSS_BORDER_BLOCK_START_STYLE => styles !! block_start
  | NS_CSS_BORDER_BLOCK_END_STYLE => styles !! block_end
  | NS_CSS_BORDER_INLINE_START_STYLE => styles !! inline_start
  | NS_CSS_BORDER_INLINE_END_STYLE => styles !! inline_end
  | NS_CSS_BORDER_BLOCK_START_COLOR => colors !! block_start
  | NS_CSS_BORDER_BLOCK_END_COLOR => colors !! block_end
  | NS_CSS_BORDER_INLINE_START_COLOR => colors !! inline_start
  | NS_CSS_BORDER_INLINE_END_COLOR => colors !! inline_end
  | NS_CSS_INSET_BLOCK_START => insets !! block_start
  | NS_CSS_INSET_BLOCK_END => insets !! block_end
  | NS_CSS_INSET_INLINE_START => insets !! inline_start
  | NS_CSS_INSET_INLINE_END => insets !! inline_end
  | _ => Some prop
  end.

Definition corner_of (block_side inline_side : nat) : ns_css_prop :=
  if bool_decide ((block_side, inline_side) = (0, 3) \/ (block_side, inline_side) = (3, 0)) then NS_CSS_BORDER_TOP_LEFT_RADIUS
  else if bool_decide ((block_side, inline_side) = (0, 1) \/ (block_side, inline_side) = (1, 0)) then NS_CSS_BORDER_TOP_RIGHT_RADIUS
  else if bool_decide ((block_side, inline_side) = (2, 1) \/ (block_side, inline_side) = (1, 2)) then NS_CSS_BORDER_BOTTOM_RIGHT_RADIUS
  else NS_CSS_BORDER_BOTTOM_LEFT_RADIUS.
Definition logical_corner_prop : ns_css_prop :=
  match prop with
  | NS_CSS_BORDER_START_START_RADIUS => corner_of block_start inline_start
  | NS_CSS_BORDER_START_END_RADIUS => corner_of block_start inline_end
  | NS_CSS_BORDER_END_START_RADIUS => corner_of block_end inline_start
  | NS_CSS_BORDER_END_END_RADIUS => corner_of block_end inline_end
  | _ => prop
  end.
End Sides.

Definition logical_to_physical (prop : ns_css_prop) (writing_mode : Z) (rtl : bool) : option ns_css_prop :=
  let vertical := negb (writing_mode =? 0)%Z in
  let block_start := if (writing_mode =? 1)%Z then 1 else if (writing_mode =? 2)%Z then 3 else 0 in
  let block_end := if (writing_mode =? 1)%Z then 3 else if (writing_mode =? 2)%Z then 1 else 2 in
  let inline_start := if vertical then if rtl then 2 else 0 else if rtl then 1 else 3 in
  let inline_end := if vertical then if rtl then 0 else 2 else if rtl then 3 else 1 in
  side ← logical_side_prop prop block_start block_end inline_start inline_end;
  if negb (bool_decide (side = prop)) then Some side
  else
    let corner := logical_corner_prop prop block_start block_end inline_start inline_end in
    Some
      (if negb (bool_decide (corner = prop)) then corner
       else
         match prop with
         | NS_CSS_BLOCK_SIZE => if vertical then NS_CSS_WIDTH else NS_CSS_HEIGHT
         | NS_CSS_INLINE_SIZE => if vertical then NS_CSS_HEIGHT else NS_CSS_WIDTH
         | NS_CSS_MIN_BLOCK_SIZE => if vertical then NS_CSS_MIN_WIDTH else NS_CSS_MIN_HEIGHT
         | NS_CSS_MIN_INLINE_SIZE => if vertical then NS_CSS_MIN_HEIGHT else NS_CSS_MIN_WIDTH
         | NS_CSS_MAX_BLOCK_SIZE => if vertical then NS_CSS_MAX_WIDTH else NS_CSS_MAX_HEIGHT
         | NS_CSS_MAX_INLINE_SIZE => if vertical then NS_CSS_MAX_HEIGHT else NS_CSS_MAX_WIDTH
         | _ => prop
         end).

(** ** Every name is one property's *)

Section Named.
Context `{Doc : GLibSpec}.

Lemma loop_first nm l1 p l2 : forall i,
  (forall q, q ∈ l1 -> map lower (name (kProperty q)) <> map lower nm) -> map lower nm = map lower (name (kProperty p)) ->
  prop_loop nm i (l1 ++ p :: l2) = Some (i + Z.of_nat (length l1))%Z.
Proof.
  induction l1 as [|q l1 IH]; intros i D E; cbn [app prop_loop]; rewrite strcasecmp_doc.
  - rewrite bool_decide_eq_true_2 by done. f_equal. cbn. lia.
  - rewrite bool_decide_eq_false_2 by (intros Hq; apply (D q); [by left|done]). rewrite IH; [|intros r Hr; apply D; by right|done].
    f_equal. cbn [length]. lia.
Qed.
Lemma loop_none nm l : forall i, (forall q, q ∈ l -> map lower (name (kProperty q)) <> map lower nm) -> prop_loop nm i l = None.
Proof.
  induction l as [|q l IH]; intros i D; [done|]. cbn [prop_loop]. rewrite strcasecmp_doc, bool_decide_eq_false_2 by (intros Hq; apply (D q); [by left|done]).
  apply IH. intros r Hr. apply D. by right.
Qed.
Lemma names_differ : NoDup (map (fun p => map lower (name (kProperty p))) all_props).
Proof. apply (bool_decide_unpack _). by vm_compute. Qed.
Lemma names_inj p q : map lower (name (kProperty p)) = map lower (name (kProperty q)) -> p = q.
Proof.
  intros E. apply number_inj. eapply NoDup_lookup; [apply names_differ|..]; rewrite list_lookup_fmap, number_place; cbn; by rewrite ?E.
Qed.
Lemma prop_unique i p : all_props !! i = Some p -> i = prop_number p.
Proof. intros H. apply (NoDup_lookup (map (fun p => map lower (name (kProperty p))) all_props) i (prop_number p) (map lower (name (kProperty p)))); [apply names_differ|..]; rewrite list_lookup_fmap; [by rewrite H|by rewrite number_place]. Qed.
Lemma prop_split p : exists l1 l2, all_props = l1 ++ p :: l2 /\ length l1 = prop_number p.
Proof.
  destruct (list_elem_of_split_length all_props (prop_number p) p (number_place p)) as (l1 & l2 & E & L). by exists l1, l2.
Qed.

(** The table of properties gives a name to each property and finds each again by
    its name, written in whatever case; the names outside the table are found only
    once every name of the table has failed. *)
Theorem property_names_roundtrip p nm :
  ns_css_prop_name (Z.of_nat (prop_number p)) = Some (name (kProperty p)) /\
  (map lower nm = map lower (name (kProperty p)) -> ns_css_prop_id (Some nm) = Z.of_nat (prop_number p)) /\
  ((forall q, map lower (name (kProperty q)) <> map lower nm) ->
    ns_css_prop_id (Some nm) =
    match find (fun a => map lower nm =b map lower a.1) prop_aliases with Some a => Z.of_nat (prop_number a.2) | None => -1 end%Z).
Proof.
  split; [unfold ns_css_prop_name; by rewrite prop_of_number|]. unfold ns_css_prop_id, prop_id. split.
  - intros E. destruct (prop_split p) as (l1 & l2 & El & L). rewrite El, (loop_first _ _ p); [rewrite L; lia| |done].
    intros q Hq Eq. assert (q = p) as -> by (apply names_inj; congruence). apply list_elem_of_lookup in Hq as [i Hi].
    pose proof (lookup_lt_Some _ _ _ Hi). assert (all_props !! i = Some p) as Hp%prop_unique by (rewrite El; by apply lookup_app_l_Some). lia.
  - intros D. rewrite loop_none by (intros q _; apply D).
    assert (forall l : list (bytes * ns_css_prop), find (fun a => g_ascii_strcasecmp0 nm a.1) l = find (fun a => map lower nm =b map lower a.1) l) as ->; [|done].
    induction l as [|a l IH]; [done|]. cbn [find]. by rewrite strcasecmp_doc, IH.
Qed.
End Named.

(** ** Every logical property is one physical one *)

Abbreviation is_logical p := (ns_css_prop_is_logical (Z.of_nat (prop_number p))).
Abbreviation group_of p := (ns_css_prop_logical_group (Z.of_nat (prop_number p))).

Lemma mode_cases kw : writing_mode_code kw = 0%Z \/ writing_mode_code kw = 1%Z \/ writing_mode_code kw = 2%Z.
Proof. unfold writing_mode_code. destruct kw; repeat case_match; auto. Qed.

(** The three claims of the theorem below, for one mode and direction. *)
Definition resolves (mode : Z) (rtl : bool) : bool :=
  allb (fun p =>
    match logical_to_physical p mode rtl with
    | Some q =>
        negb (is_logical q) && (group_of q =? group_of p)%Z && (is_logical p || bool_decide (q = p)) &&
        (if is_logical p
         then allb (fun p' => if is_logical p' then bool_decide (p = p') || negb (bool_decide (logical_to_physical p' mode rtl = Some q)) else true) all_props
         else true)
    | None => false
    end) all_props.

Lemma all_resolve kw rtl : resolves (writing_mode_code kw) rtl = true.
Proof. destruct (mode_cases kw) as [-> |[-> | ->]], rtl; by vm_compute. Qed.
Lemma resolves_spec mode rtl : resolves mode rtl = true -> forall p, exists q, logical_to_physical p mode rtl = Some q /\
  is_logical q = false /\ group_of q = group_of p /\ (is_logical p = false -> q = p) /\
  (is_logical p = true -> forall p', is_logical p' = true -> logical_to_physical p' mode rtl = Some q -> p' = p).
Proof.
  unfold resolves. rewrite forallb_forall. intros R p. specialize (R p). rewrite <- list_elem_of_In in R. specialize (R (props_all p)).
  destruct (logical_to_physical p mode rtl) as [q|]; [|done]. exists q. rewrite !andb_true_iff in R. destruct R as [[[N Gr] S] I].
  split; [done|]. split; [by apply negb_true_iff in N|]. split; [by apply Z.eqb_eq in Gr|]. split.
  - intros L. rewrite L in S. by apply bool_decide_eq_true in S.
  - intros L p' L' E. rewrite L, forallb_forall in I. specialize (I p'). rewrite <- list_elem_of_In, L', E in I.
    specialize (I (props_all p')). rewrite (bool_decide_eq_true_2 (Some q = Some q)), orb_false_r in I by done. cbn in I.
    by apply bool_decide_eq_true in I.
Qed.

(** Under every writing mode and direction each property stands for a physical one
    of its own group, a physical property for itself, and no two logical properties
    for the same one: the four sides of a margin, say, are each set by exactly one of
    the four logical margins. *)
Theorem logical_properties_resolve kw rtl p :
  exists q, logical_to_physical p (writing_mode_code kw) rtl = Some q /\
    ns_css_prop_is_logical (Z.of_nat (prop_number q)) = false /\
    ns_css_prop_logical_group (Z.of_nat (prop_number q)) = ns_css_prop_logical_group (Z.of_nat (prop_number p)) /\
    (ns_css_prop_is_logical (Z.of_nat (prop_number p)) = false -> q = p) /\
    (ns_css_prop_is_logical (Z.of_nat (prop_number p)) = true -> forall p',
      ns_css_prop_is_logical (Z.of_nat (prop_number p')) = true -> logical_to_physical p' (writing_mode_code kw) rtl = Some q -> p' = p).
Proof. apply resolves_spec, all_resolve. Qed.
