(* ===== verification/RuleIndex.v ===== *)
(** * The index of a style sheet's rules ([src/css.c])

    A selector is filed under one name its subject must have: an id, a class, a tag or
    an attribute, the rarest of the sheet, or under one name for each arm of an
    [:is()]. An element is tested against the selectors filed under its own names.
    The theorems say that no selector that matches is missed. *)

From S2P Require Import Prelude CStr GLib CssSyntax Xml Element DomStore Dom Selector NodeState SelMatch CssProps.

(** ** Rules ([src/css.h]) *)

(** Values of properties: all the cascade asks of one is the keyword it may be, and it
    makes one, the transparent colour. *)
Class Css_values := {
  ns_css_value : Type;
  keyword_of : ns_css_value -> option bytes;
  transparent : ns_css_value;
}.

Section Rules.
Context `{Css_values}.

Record ns_css_decl := { d_prop : ns_css_prop; d_value : ns_css_value; d_important : bool }.
Record ns_css_pending_decl := { pname : bytes; raw_vtext : bytes; pd_important : bool }.
Record ns_css_scope := { roots : list ns_css_selector; limits : list ns_css_selector }.

(** [vars] and [var_important]: names, texts and whether they are important, in the
    order in which the table is walked. *)
Record ns_css_rule := {
  selectors : list ns_css_selector;
  decls : list ns_css_decl;
  vars : list (bytes * bytes * bool);
  pending : list ns_css_pending_decl;
  layer_name : option bytes;
  container_condition : option bytes;
  scopes : list ns_css_scope;
  source_order : Z;
}.
(** [address] tells the rules of one sheet from those of another. *)
Record ns_css_stylesheet := { rules : list ns_css_rule; layer_names : list bytes; address : Z }.
End Rules.

(** [1u << e]. *)
Definition pe_number (e : ns_css_pseudo_element) : Z :=
  match e with
  | NS_CSS_PE_NONE => 0 | NS_CSS_PE_BEFORE => 1 | NS_CSS_PE_AFTER => 2 | NS_CSS_PE_FIRST_LETTER => 3
  | NS_CSS_PE_FIRST_LINE => 4 | NS_CSS_PE_SELECTION => 5 | NS_CSS_PE_MARKER => 6 | NS_CSS_PE_BACKDROP => 7
  | NS_CSS_PE_PLACEHOLDER => 8 | NS_CSS_PE_FILE_SELECTOR_BUTTON => 9
  end.
Definition pe_bit (e : ns_css_pseudo_element) : Z := Z.shiftl 1 (pe_number e).

(** ** The index *)

Abbreviation css_candidate := (nat * nat)%type.
Abbreviation table := (gmap bytes (list css_candidate)).
Record ns_css_rule_index := {
  by_id : table;
  by_class : table;
  by_tag : table;
  by_attr : table;
  universal : list css_candidate;
}.
Definition empty_index : ns_css_rule_index := Build_ns_css_rule_index ∅ ∅ ∅ ∅ [].

Record css_index_counts := {
  n_id : gmap bytes Z;
  n_class : gmap bytes Z;
  n_tag : gmap bytes Z;
  n_attr : gmap bytes Z;
}.
(** [CSS_INDEX_CLASS] and [CSS_INDEX_ATTR] with the place of the name. *)
Inductive css_index_kind :=
| CSS_INDEX_NONE
| CSS_INDEX_ID
| CSS_INDEX_CLASS (class_i : nat)
| CSS_INDEX_TAG
| CSS_INDEX_ATTR (attr_i : nat).

(** [s && *s]. *)
Definition named (s : option bytes) : option bytes := match s with Some [] => None | _ => s end.
(** [subj->type && *subj->type && strcmp(subj->type, "*") != 0]. *)
Definition type_named (s : ns_css_simple) : option bytes :=
  match named (s_type s) with Some t => if strcmp0 t ($"*") then None else Some t | None => None end.

Section Index.
Context {G : GLib}.

Definition index_add_candidate_array (cand : css_candidate) (bucket : list css_candidate) : list css_candidate :=
  if bool_decide (last bucket = Some cand) then bucket else bucket ++ [cand].
Definition index_add (t : table) (key : bytes) (cand : css_candidate) : table :=
  <[key := index_add_candidate_array cand (default [] (t !! key))]> t.
Definition index_add_lowercase (t : table) (key : bytes) (cand : css_candidate) : table :=
  index_add t (g_ascii_strdown key) cand.

Definition count_of (t : gmap bytes Z) (key : bytes) : Z := default 0%Z (t !! key).
Definition index_count_inc (key : bytes) (t : gmap bytes Z) : gmap bytes Z := <[key := wrap_u 32 (count_of t key + 1)]> t.
Definition index_count_inc_lowercase (key : bytes) (t : gmap bytes Z) : gmap bytes Z := index_count_inc (g_ascii_strdown key) t.
Definition index_count_lookup_lowercase (t : gmap bytes Z) (key : bytes) : Z := count_of t (g_ascii_strdown key).

Definition index_counts_add_subject (s : ns_css_simple) (c : css_index_counts) : css_index_counts :=
  if never_match s then c
  else
    {| n_id := match named (s_id s) with Some i => index_count_inc i (n_id c) | None => n_id c end;
       n_class := fold_left (fun t k => match k with [] => t | _ => index_count_inc k t end) (s_classes s) (n_class c);
       n_tag := match type_named s with Some t => index_count_inc_lowercase t (n_tag c) | None => n_tag c end;
       n_attr := fold_left (fun t a => match ap_name a with [] => t | k => index_count_inc_lowercase k t end) (s_attrs s) (n_attr c) |}.

(** The best choice so far: how often its name occurs, and the choice. *)
Definition choice : Type := Z * css_index_kind.
Definition index_choice_take (count : Z) (k : css_index_kind) (best : choice) : choice :=
  if ((count =? 0) || (best.1 <=? count))%Z then best else (count, k).

(** The loops over the classes and over the attributes. *)
Fixpoint take_each {A} (name : A -> bytes) (count : bytes -> Z) (kind : nat -> css_index_kind) (i : nat) (l : list A) (best : choice) : choice :=
  match l with
  | [] => best
  | x :: l' =>
      take_each name count kind (S i) l'
        (match name x with [] => best | k => index_choice_take (count k) (kind i) best end)
  end.
Definition index_subject_kind (c : css_index_counts) (s : ns_css_simple) : css_index_kind :=
  if never_match s then CSS_INDEX_NONE
  else
    let best := (4294967295%Z, CSS_INDEX_NONE) in
    let best := match named (s_id s) with Some i => index_choice_take (count_of (n_id c) i) CSS_INDEX_ID best | None => best end in
    let best := take_each id (count_of (n_class c)) CSS_INDEX_CLASS 0 (s_classes s) best in
    let best := match type_named s with
                | Some t => index_choice_take (index_count_lookup_lowercase (n_tag c) t) CSS_INDEX_TAG best
                | None => best
                end in
    snd (take_each ap_name (index_count_lookup_lowercase (n_attr c)) CSS_INDEX_ATTR 0 (s_attrs s) best).

Definition index_add_subject (c : css_index_counts) (s : ns_css_simple) (cand : css_candidate) (x : ns_css_rule_index) :
    bool * ns_css_rule_index :=
  if never_match s then (false, x)
  else
    match index_subject_kind c s with
    | CSS_INDEX_ID =>
        match s_id s with
        | Some i => (true, Build_ns_css_rule_index (index_add (by_id x) i cand) (by_class x) (by_tag x) (by_attr x) (universal x))
        | None => (false, x)
        end
    | CSS_INDEX_CLASS i =>
        match s_classes s !! i with
        | Some (c :: k) =>
            (true, Build_ns_css_rule_index (by_id x) (index_add (by_class x) (c :: k) cand) (by_tag x) (by_attr x) (universal x))
        | _ => (false, x)
        end
    | CSS_INDEX_TAG =>
        match s_type s with
        | Some t =>
            (true, Build_ns_css_rule_index (by_id x) (by_class x) (index_add_lowercase (by_tag x) t cand) (by_attr x) (universal x))
        | None => (false, x)
        end
    | CSS_INDEX_ATTR i =>
        match ap_name <$> s_attrs s !! i with
        | Some (c :: k) =>
            (true, Build_ns_css_rule_index (by_id x) (by_class x) (by_tag x) (index_add_lowercase (by_attr x) (c :: k) cand) (universal x))
        | _ => (false, x)
        end
    | CSS_INDEX_NONE => (false, x)
    end.

Definition subject_of (s : ns_css_selector) : option ns_css_simple := snd <$> last (compounds s).

(** The group with the fewest arms, none if one is empty. *)
Fixpoint smallest_group (best : option (list ns_css_selector)) (groups : list (list ns_css_selector)) : option (list ns_css_selector) :=
  match groups with
  | [] => best
  | g :: groups' =>
      match g with
      | [] => None
      | _ =>
          smallest_group (match best with Some b => if length g <? length b then Some g else Some b | None => Some g end) groups'
      end
  end.
Definition arm_indexable (c : css_index_counts) (arm : ns_css_selector) : bool :=
  match subject_of arm with
  | Some s => negb (never_match s) && match index_subject_kind c s with CSS_INDEX_NONE => false | _ => true end
  | None => false
  end.
Fixpoint add_arms (c : css_index_counts) (arms : list ns_css_selector) (cand : css_candidate) (x : ns_css_rule_index) :
    bool * ns_css_rule_index :=
  match arms with
  | [] => (true, x)
  | arm :: arms' =>
      match subject_of arm with
      | None => (false, x)
      | Some s => let '(ok, x) := index_add_subject c s cand x in if ok : bool then add_arms c arms' cand x else (false, x)
      end
  end.
Definition index_add_matches_any (c : css_index_counts) (s : ns_css_simple) (cand : css_candidate) (x : ns_css_rule_index) :
    bool * ns_css_rule_index :=
  match smallest_group None (matches_any s) with
  | None => (false, x)
  | Some best => if allb (arm_indexable c) best then add_arms c best cand x else (false, x)
  end.

Definition add_universal (cand : css_candidate) (x : ns_css_rule_index) : ns_css_rule_index :=
  Build_ns_css_rule_index (by_id x) (by_class x) (by_tag x) (by_attr x) (index_add_candidate_array cand (universal x)).
(** One selector of one rule. *)
Definition index_selector (c : css_index_counts) (cand : css_candidate) (s : ns_css_selector) (x : ns_css_rule_index) : ns_css_rule_index :=
  match subject_of s with
  | None => add_universal cand x
  | Some subj =>
      if never_match subj then x
      else
        let '(ok, x) := index_add_subject c subj cand x in
        if ok : bool then x
        else
          let '(ok, x) := index_add_matches_any c subj cand x in
          if ok : bool then x else add_universal cand x
  end.

Context `{Css_values}.

Fixpoint index_selectors (c : css_index_counts) (ri si : nat) (l : list ns_css_selector) (x : ns_css_rule_index) : ns_css_rule_index :=
  match l with [] => x | s :: l' => index_selectors c ri (S si) l' (index_selector c (ri, si) s x) end.
Fixpoint index_rules (c : css_index_counts) (ri : nat) (l : list ns_css_rule) (x : ns_css_rule_index) : ns_css_rule_index :=
  match l with [] => x | r :: l' => index_rules c (S ri) l' (index_selectors c ri 0 (selectors r) x) end.
Definition counts_of (l : list ns_css_rule) : css_index_counts :=
  fold_left (fun c r => fold_left (fun c s => match subject_of s with Some x => index_counts_add_subject x c | None => c end) (selectors r) c) l
    (Build_css_index_counts ∅ ∅ ∅ ∅).
Definition ns_css_rule_index_build (sheet : ns_css_stylesheet) : ns_css_rule_index :=
  index_rules (counts_of (rules sheet)) 0 (rules sheet) empty_index.

(** The masks the index leaves in a rule and in the sheet. *)
Definition pe_mask (r : ns_css_rule) : Z :=
  fold_left (fun m s => match pseudo_element s with NS_CSS_PE_NONE => m | e => Z.lor m (pe_bit e) end) (selectors r) 0%Z.
Definition pseudo_mask (sheet : ns_css_stylesheet) : Z := fold_left (fun m r => Z.lor m (pe_mask r)) (rules sheet) 0%Z.

(** ** Candidates *)

Definition bucket (t : table) (key : bytes) : list css_candidate := default [] (t !! key).
Definition css_index_lookup_ci (t : table) (name : bytes) : list css_candidate :=
  if existsb is_upper name then bucket t (g_ascii_strdown name) else bucket t name.

(** The first half of [gather_matches_multi]: the candidates for the node [n]. *)
Definition candidates (x : ns_css_rule_index) (n : loc) (h : heap) : option (list css_candidate) :=
  e ← is_elem n h;
  i ← get_attr ($"id") n h; cls ← get_attr ($"class") n h; nm ← node_name n h;
  pfx ← has_attr ($"data-nd-ns-prefix") n h; d ← h !! n;
  Some ((if e : bool then
           match named i with Some i => bucket (by_id x) i | None => [] end ++
           match cls with Some c => concat (map (bucket (by_class x)) (class_names (cstr_of c))) | None => [] end ++
           match named nm with
           | Some nm =>
               css_index_lookup_ci (by_tag x) nm ++
               match strchr nm ":" with Some r => if pfx : bool then css_index_lookup_ci (by_tag x) (drop 1 r) else [] | None => [] end
           | None => []
           end ++
           (if size (by_attr x) =? 0 then []
            else concat (map (fun a => css_index_lookup_ci (by_attr x) (ns_attr_local_name a)) (n_attrs (data d))))
         else []) ++ universal x).
End Index.

(** ** Indexes that hold more *)

Section Grow.
Context {G : GLib}.

Definition more (t t' : table) : Prop := forall key c, c ∈ bucket t key -> c ∈ bucket t' key.
Record includes (x x' : ns_css_rule_index) : Prop := {
  inc_id : more (by_id x) (by_id x');
  inc_class : more (by_class x) (by_class x');
  inc_tag : more (by_tag x) (by_tag x');
  inc_attr : more (by_attr x) (by_attr x');
  inc_universal : forall c, c ∈ universal x -> c ∈ universal x';
}.
#[export] Instance includes_preorder : PreOrder includes.
Proof.
  split; [by intros x; split; repeat intro|]. intros x y z [] []. split; repeat intro; eauto.
Qed.

Lemma array_in cand bucket : cand ∈ index_add_candidate_array cand bucket.
Proof.
  unfold index_add_candidate_array. case_bool_decide as E; [|set_solver +]. apply last_Some in E as [l ->]. set_solver +.
Qed.
Lemma array_more cand l c : c ∈ l -> c ∈ index_add_candidate_array cand l.
Proof. unfold index_add_candidate_array. case_bool_decide; set_solver. Qed.
Lemma add_in t key cand : cand ∈ bucket (index_add t key cand) key.
Proof. unfold bucket, index_add. rewrite lookup_insert_eq. apply array_in. Qed.
Lemma add_more t key cand : more t (index_add t key cand).
Proof.
  intros k c Hc. unfold bucket, index_add in *. destruct (decide (key = k)) as [<-|Hne].
  - rewrite lookup_insert_eq. by apply array_more.
  - by rewrite lookup_insert_ne.
Qed.

Lemma subject_more c s cand x b x' : index_add_subject c s cand x = (b, x') -> includes x x'.
Proof.
  unfold index_add_subject. destruct (never_match s); [by intros [= _ <-]|].
  destruct (index_subject_kind c s); repeat case_match; intros [= _ <-]; try done; split; repeat intro; try done; by apply add_more.
Qed.
Lemma arms_more c arms cand : forall x b x', add_arms c arms cand x = (b, x') -> includes x x'.
Proof.
  induction arms as [|arm arms IH]; cbn; intros x b x'; [by intros [= _ <-]|]. destruct (subject_of arm); [|by intros [= _ <-]].
  destruct (index_add_subject _ _ _ _) as [[] y] eqn:E; apply subject_more in E; [|by intros [= _ <-]].
  intros H. etransitivity; [exact E|by eapply IH].
Qed.
Lemma any_more c s cand x b x' : index_add_matches_any c s cand x = (b, x') -> includes x x'.
Proof.
  unfold index_add_matches_any. destruct (smallest_group _ _); [|by intros [= _ <-]]. destruct (allb _ _); [|by intros [= _ <-]].
  apply arms_more.
Qed.
Lemma universal_more cand x : includes x (add_universal cand x).
Proof. split; repeat intro; try done. by apply array_more. Qed.
Lemma selector_more c cand s x : includes x (index_selector c cand s x).
Proof.
  unfold index_selector. destruct (subject_of s); [|apply universal_more]. destruct (never_match _); [done|].
  destruct (index_add_subject _ _ _ _) as [[] y] eqn:E; apply subject_more in E; [done|].
  destruct (index_add_matches_any _ _ _ _) as [[] z] eqn:F; apply any_more in F; [by etransitivity|].
  etransitivity; [exact E|]. etransitivity; [exact F|apply universal_more].
Qed.

Context `{Css_values}.
Lemma selectors_more c ri l : forall si x, includes x (index_selectors c ri si l x).
Proof. induction l as [|s l IH]; cbn; intros si x; [done|]. etransitivity; [apply selector_more|apply IH]. Qed.
Lemma rules_more c l : forall ri x, includes x (index_rules c ri l x).
Proof. induction l as [|r l IH]; cbn; intros ri x; [done|]. etransitivity; [apply selectors_more|apply IH]. Qed.

(** Every selector is filed, into an index the final one includes. *)
Lemma selectors_filed c ri s l1 l2 : forall si x,
  exists y, includes (index_selector c (ri, si + length l1) s y) (index_selectors c ri si (l1 ++ s :: l2) x).
Proof.
  induction l1 as [|a l1 IH]; cbn; intros si x.
  - exists x. rewrite Nat.add_0_r. apply selectors_more.
  - rewrite <- Nat.add_succ_comm. apply IH.
Qed.
Lemma rules_filed c r l1 l2 : forall ri x,
  exists y, includes (index_selectors c (ri + length l1) 0 (selectors r) y) (index_rules c ri (l1 ++ r :: l2) x).
Proof.
  induction l1 as [|a l1 IH]; cbn; intros ri x.
  - exists x. rewrite Nat.add_0_r. apply rules_more.
  - rewrite <- Nat.add_succ_comm. apply IH.
Qed.
Lemma build_files sheet ri si r s : rules sheet !! ri = Some r -> selectors r !! si = Some s ->
  exists c y, includes (index_selector c (ri, si) s y) (ns_css_rule_index_build sheet).
Proof.
  intros (l1 & l2 & El & ->)%list_elem_of_split_length (k1 & k2 & Ek & ->)%list_elem_of_split_length.
  unfold ns_css_rule_index_build. generalize (counts_of (rules sheet)) as c. intros c. rewrite El. exists c.
  destruct (rules_filed c r l1 l2 0 empty_index) as [y Hy]. rewrite Ek in Hy.
  destruct (selectors_filed c (0 + length l1) s k1 k2 0 y) as [z Hz]. exists z. by etransitivity.
Qed.
End Grow.

(** ** What an element is looked up under *)

Section Found.
Context `{Doc : GLibSpec} (x : ns_css_rule_index) (n : loc) (h : heap) (d : dnode) (Hd : h !! n = Some d)
  (He : is_elem n h = Some true).

Definition found (cand : css_candidate) : Prop := exists l, candidates x n h = Some l /\ cand ∈ l.

Lemma lookup_ci t name : css_index_lookup_ci t name = bucket t (map lower name).
Proof.
  unfold css_index_lookup_ci. rewrite strdown_doc. destruct (existsb is_upper name) eqn:E; [done|].
  rewrite lower_of_lower; [done|]. unfold ns_str_is_ascii_lower. apply forallb_forall. intros c Hc.
  apply negb_true_iff, not_true_iff_false. intros Hu. apply not_true_iff_false in E. apply E, existsb_exists. eauto.
Qed.
Lemma class_key s k : classes_ok h s n = Some true -> k ∈ s_classes s ->
  exists cls, get_attr ($"class") n h = Some (Some cls) /\ k ∈ class_names (cstr_of cls).
Proof.
  unfold classes_ok, get_attr. rewrite Hd. cbn. intros [= H] Hk. rewrite forallb_forall in H. apply list_elem_of_In, H in Hk.
  unfold is_elem, has_kind, node_kind in He. rewrite Hd in He. cbn in He. injection He as ->.
  unfold has_class in Hk. destruct (ns_element_get_attr _ _ _) as [cls|]; [|done]. exists cls. split; [done|].
  unfold class_listed in Hk. apply existsb_exists in Hk as (t & Ht & E). apply bool_decide_eq_true in E as <-. by apply list_elem_of_In.
Qed.
Lemma attr_key s a : attrs_ok h s n = Some true -> a ∈ s_attrs s ->
  exists e, e ∈ n_attrs (data d) /\ map lower (ns_attr_local_name e) = map lower (ap_name a).
Proof.
  unfold attrs_ok. rewrite Hd. cbn. intros [= H] Ha. rewrite forallb_forall in H. apply list_elem_of_In, H in Ha.
  unfold attr_ok in Ha. apply andb_true_iff in Ha as [_ Ha]. apply existsb_exists in Ha as (e & Hin & Hm). exists e.
  split; [by apply list_elem_of_In|]. unfold attr_matches in Hm. rewrite !andb_true_iff in Hm. destruct Hm as [[_ Hm] _].
  destruct (negb _ && negb _).
  - rewrite strcasecmp_doc in Hm. by apply bool_decide_eq_true in Hm.
  - unfold strcmp0 in Hm. apply bool_decide_eq_true in Hm. by rewrite Hm.
Qed.
Lemma tag_key s t : type_ok h s n = Some true -> type_named s = Some t ->
  exists nm, node_name n h = Some (Some nm) /\
    (map lower nm = map lower t \/
     exists r, strchr nm ":" = Some r /\ has_attr ($"data-nd-ns-prefix") n h = Some true /\ map lower (drop 1 r) = map lower t).
Proof.
  unfold type_ok, type_named, named. destruct (s_type s) as [[|c t']|]; try done.
  destruct (strcmp0 (c :: t') ($"*")); [done|]. intros H [= <-].
  destruct (node_name n h) as [nm|] eqn:En; cbn [mbind option_bind] in H; [|done].
  destruct (has_attr _ n h) as [pfx|] eqn:Ep; cbn [mbind option_bind] in H; [|done].
  do 3 (match type of H with (?a ≫= _) = _ => destruct a; cbn [mbind option_bind] in H; [|done] end). injection H as H.
  destruct nm as [nm|]; [|done]. exists nm. split; [done|].
  set (local := match strchr nm ":" with Some r => if pfx then drop 1 r else nm | None => nm end) in H.
  assert (map lower local = map lower (c :: t')) as E.
  { destruct (_ || _).
    - unfold strcmp0 in H. apply bool_decide_eq_true in H. by rewrite H.
    - apply andb_true_iff in H as [_ H]. rewrite strcasecmp_doc in H. apply bool_decide_eq_true in H. done. }
  unfold local in E. destruct (strchr nm ":") as [r|]; [|by left]. destruct pfx; [|by left]. right. eauto.
Qed.

Lemma in_each {A B} (f : A -> list B) (l : list A) a b : a ∈ l -> b ∈ f a -> b ∈ concat (map f l).
Proof.
  intros Ha Hb. apply list_elem_of_In, in_concat. exists (f a). split; [by apply in_map, list_elem_of_In|by apply list_elem_of_In].
Qed.

(** The five parts of [candidates]. *)
Lemma found_spec cand :
  (exists i, get_attr ($"id") n h = Some (Some i) /\ i <> [] /\ cand ∈ bucket (by_id x) i) \/
  (exists c k, get_attr ($"class") n h = Some (Some c) /\ k ∈ class_names (cstr_of c) /\ cand ∈ bucket (by_class x) k) \/
  (exists nm, node_name n h = Some (Some nm) /\ nm <> [] /\
    (cand ∈ bucket (by_tag x) (map lower nm) \/
     exists r, strchr nm ":" = Some r /\ has_attr ($"data-nd-ns-prefix") n h = Some true /\ cand ∈ bucket (by_tag x) (map lower (drop 1 r)))) \/
  (exists e, e ∈ n_attrs (data d) /\ cand ∈ bucket (by_attr x) (map lower (ns_attr_local_name e))) \/
  cand ∈ universal x -> found cand.
Proof.
  intros F. unfold found, candidates. rewrite He. cbn [mbind option_bind].
  assert (forall nm, exists v, get_attr nm n h = Some v) as Ga by (intros nm; unfold get_attr; rewrite Hd; cbn; eauto).
  destruct (Ga ($"id")) as [vi Ei]. destruct (Ga ($"class")) as [vc Ec].
  assert (exists b, has_attr ($"data-nd-ns-prefix") n h = Some b) as [b Eb].
  { unfold has_attr. destruct (Ga ($"data-nd-ns-prefix")) as [v ->]. cbn. eauto. }
  assert (exists v, node_name n h = Some v) as [vn En] by (unfold node_name; rewrite Hd; cbn; eauto).
  rewrite Ei, Ec, En, Eb, Hd in *. cbn [mbind option_bind]. eexists. split; [done|]. rewrite !elem_of_app.
  destruct F as [(i & [= ->] & Hi & F)|[(c & k & [= ->] & Hk & F)|[(nm & [= ->] & Hn & F)|[(e & Hin & F)|F]]]]; [..|by right]; left.
  - left. destruct i; [done|]. exact F.
  - right; left. by eapply in_each.
  - right; right; left. destruct nm as [|c nm]; [done|]. cbn [named]. rewrite elem_of_app, lookup_ci.
    destruct F as [F|(r & -> & [= ->] & F)]; [by left|right]. by rewrite lookup_ci.
  - do 3 right. destruct (Nat.eqb_spec (size (by_attr x)) 0) as [E|_].
    + apply map_size_empty_iff in E. unfold bucket in F. rewrite E, lookup_empty in F. by apply not_elem_of_nil in F.
    + apply (in_each _ _ e _ Hin). by rewrite lookup_ci.
Qed.
End Found.

(** ** The name a selector is filed under *)

Section Kind.
Context {G : GLib}.

Lemma choice_kind count k best : snd (index_choice_take count k best) = snd best \/ snd (index_choice_take count k best) = k.
Proof. unfold index_choice_take. case_match; auto. Qed.
Lemma each_kind {A} (name : A -> bytes) count kind l : forall i best,
  snd (take_each name count kind i l best) = snd best \/ exists j, snd (take_each name count kind i l best) = kind j.
Proof.
  induction l as [|a l IH]; intros i best; cbn; [by left|].
  destruct (IH (S i) (match name a with [] => best | k => index_choice_take (count k) (kind i) best end)) as [-> | [j ->]]; [|by right; exists j].
  destruct (name a) as [|c k]; [by left|]. destruct (choice_kind (count (c :: k)) (kind i) best) as [-> | ->]; [by left|right; by exists i].
Qed.

Lemma kind_id c s : index_subject_kind c s = CSS_INDEX_ID -> exists i, s_id s = Some i /\ i <> [].
Proof.
  unfold index_subject_kind. destruct (never_match s); [done|]. intros H.
  destruct (named (s_id s)) as [i|] eqn:E; [unfold named in E; destruct (s_id s) as [[|? ?]|]; try done; injection E as <-; eauto|].
  exfalso. revert H. match goal with |- snd (take_each _ _ _ _ _ ?b) = _ -> _ => destruct (each_kind ap_name (index_count_lookup_lowercase (n_attr c)) CSS_INDEX_ATTR (s_attrs s) 0 b) as [-> | [j ->]]; [|done] end.
  assert (forall b, snd b <> CSS_INDEX_ID -> snd (match type_named s with Some t => index_choice_take (index_count_lookup_lowercase (n_tag c) t) CSS_INDEX_TAG b | None => b end) <> CSS_INDEX_ID) as T.
  { intros b Hb. destruct (type_named s) as [t|]; [|done]. destruct (choice_kind (index_count_lookup_lowercase (n_tag c) t) CSS_INDEX_TAG b) as [-> | ->]; done. }
  intros H. apply T in H; [done|]. destruct (each_kind id (count_of (n_class c)) CSS_INDEX_CLASS (s_classes s) 0 (4294967295%Z, CSS_INDEX_NONE)) as [-> | [j ->]]; done.
Qed.
Lemma kind_tag c s : index_subject_kind c s = CSS_INDEX_TAG -> exists t, type_named s = Some t.
Proof.
  unfold index_subject_kind. destruct (never_match s); [done|]. intros H. destruct (type_named s) as [t|]; [eauto|]. exfalso. revert H.
  match goal with |- snd (take_each _ _ _ _ _ ?b) = _ -> _ => destruct (each_kind ap_name (index_count_lookup_lowercase (n_attr c)) CSS_INDEX_ATTR (s_attrs s) 0 b) as [-> | [j ->]]; [|done] end.
  match goal with |- snd (take_each _ _ _ _ _ ?b) = _ -> _ => destruct (each_kind id (count_of (n_class c)) CSS_INDEX_CLASS (s_classes s) 0 b) as [-> | [j ->]]; [|done] end.
  destruct (named (s_id s)) as [i|]; [|done]. destruct (choice_kind (count_of (n_id c) i) CSS_INDEX_ID (4294967295%Z, CSS_INDEX_NONE)) as [-> | ->]; done.
Qed.
Lemma type_named_type s t : type_named s = Some t -> s_type s = Some t.
Proof. unfold type_named, named. destruct (s_type s) as [[|? ?]|]; try done. by destruct (strcmp0 _ _). Qed.
End Kind.

(** ** No match is missed *)

Section Complete.
Context `{Doc : GLibSpec} (n : loc) (h : heap).

(** The tests of [match_simple] that the index relies on. *)
Record passes (s : ns_css_simple) : Prop := {
  pass_never : never_match s = false;
  pass_elem : is_elem n h = Some true;
  pass_type : type_ok h s n = Some true;
  pass_id : id_ok h s n = Some true;
  pass_classes : classes_ok h s n = Some true;
  pass_attrs : attrs_ok h s n = Some true;
}.

Lemma subject_found c s cand x x' y : passes s -> index_add_subject c s cand x = (true, x') -> includes x' y -> found y n h cand.
Proof.
  intros [N E T I C A] F In. destruct (h !! n) as [d|] eqn:Hd.
  2:{ unfold is_elem, has_kind, node_kind in E. by rewrite Hd in E. }
  apply (found_spec y n h d Hd E). unfold index_add_subject in F. rewrite N in F. destruct (index_subject_kind c s) as [| |i| |i] eqn:K; try done.
  - apply kind_id in K as (i & Ei & Hi). rewrite Ei in F. injection F as <-. left. exists i. unfold id_ok in I. rewrite Ei in I.
    destruct (get_attr _ n h) as [v|]; [|done]. cbn in I. injection I as I. apply bool_decide_eq_true in I as ->.
    split; [done|]. split; [done|]. apply In. apply add_in.
  - destruct (s_classes s !! i) as [[|a k]|] eqn:El; try done. injection F as <-. right; left. apply list_elem_of_lookup_2 in El.
    destruct (class_key n h d Hd E s _ C El) as (cls & Ec & Hk). exists cls, (a :: k). split; [done|]. split; [done|]. apply In. apply add_in.
  - apply kind_tag in K as [t Et]. rewrite (type_named_type _ _ Et) in F. injection F as <-. do 2 right; left.
    destruct (tag_key n h s t T Et) as (nm & En & Hn). exists nm. split; [done|].
    assert (t <> []) as Ht by (intros ->; unfold type_named, named in Et; destruct (s_type s) as [[|? ?]|]; [done| |done]; by destruct (strcmp0 _ _)).
    assert (cand ∈ bucket (by_tag y) (map lower t)) as B.
    { apply (inc_tag _ _ In). cbn. unfold index_add_lowercase. rewrite strdown_doc. apply add_in. }
    split; [|destruct Hn as [-> | (r & Er & Ep & Hr)]; [by left|right; exists r; rewrite Hr; done]].
    destruct Hn as [Hn|(r & Er & _)]; [|by intros ->]. intros ->. by destruct t.
  - destruct (s_attrs s !! i) as [a|] eqn:El; [|done]. cbn in F. destruct (ap_name a) as [|a0 k] eqn:Ea; [done|]. injection F as <-.
    apply list_elem_of_lookup_2 in El. destruct (attr_key n h d Hd s a A El) as (e & He & Hl). do 3 right; left. exists e.
    split; [done|]. rewrite Hl, Ea. apply (inc_attr _ _ In). cbn [by_attr]. unfold index_add_lowercase. rewrite strdown_doc. apply add_in.
Qed.

Lemma universal_found cand y : is_elem n h = Some true -> cand ∈ universal y -> found y n h cand.
Proof.
  intros E U. destruct (h !! n) as [d|] eqn:Hd; [|unfold is_elem, has_kind, node_kind in E; by rewrite Hd in E].
  apply (found_spec y n h d Hd E). tauto.
Qed.

Lemma smallest_in groups : forall best g, smallest_group best groups = Some g -> best = Some g \/ g ∈ groups.
Proof.
  induction groups as [|a groups IH]; intros best g; [by left|]. destruct a as [|s a]; [done|]. intros H%IH.
  destruct H as [H|H]; [|right; by right]. destruct best as [b|]; [|injection H as <-; right; by left].
  destruct (_ <? _); injection H as <-; [right; by left|by left].
Qed.
Lemma arm_found c arms cand : forall x x' y arm s, add_arms c arms cand x = (true, x') -> includes x' y -> arm ∈ arms ->
  subject_of arm = Some s -> passes s -> found y n h cand.
Proof.
  induction arms as [|a arms IH]; cbn; intros x x' y arm s A In Ha Es P; [by apply not_elem_of_nil in Ha|].
  destruct (subject_of a) as [sa|] eqn:Ea; [|done]. destruct (index_add_subject _ _ _ _) as [[] z] eqn:F; [|done].
  apply elem_of_cons in Ha as [->|Ha].
  - rewrite Es in Ea. injection Ea as <-. eapply subject_found; [done|exact F|]. etransitivity; [eapply arms_more, A|done].
  - by eapply IH.
Qed.

(** A selector whose subject passes, and that has a passing arm in every group of its
    subject, is found. *)
Lemma selector_found c cand s subj x y : subject_of s = Some subj -> passes subj ->
  (forall g, g ∈ matches_any subj -> exists arm t, arm ∈ g /\ subject_of arm = Some t /\ passes t) ->
  includes (index_selector c cand s x) y -> found y n h cand.
Proof.
  intros Es P Hg. unfold index_selector. rewrite Es, (pass_never _ P).
  destruct (index_add_subject _ _ _ _) as [[] z] eqn:F; [by apply (subject_found _ _ _ _ _ _ P F)|].
  destruct (index_add_matches_any _ _ _ _) as [[] z'] eqn:A.
  - intros In. unfold index_add_matches_any in A. destruct (smallest_group None _) as [best|] eqn:B; [|done].
    destruct (allb _ best); [|done]. apply smallest_in in B as [B|B]; [done|]. destruct (Hg _ B) as (arm & t & Ha & Et & Pt).
    by eapply arm_found.
  - intros In. apply universal_found; [apply P|]. apply (inc_universal _ _ In). cbn. apply array_in.
Qed.
End Complete.

(** ** Selectors that match *)

Section Matches.
Context `{Doc : GLibSpec} {U : Unichar} {El : Elsewhere} (w : view) (h : heap).

Lemma and_some x y : x &&& y = Some true <-> x = Some true /\ y = Some true.
Proof. destruct x as [[]|]; cbn; naive_solver. Qed.
Lemma all_some {A} (f : A -> option bool) l : allM f l = Some true -> forall a, a ∈ l -> f a = Some true.
Proof.
  induction l as [|b l IH]; cbn; intros H a Ha; [by apply not_elem_of_nil in Ha|]. apply and_some in H as [H1 H2].
  apply elem_of_cons in Ha as [->|Ha]; [done|by apply IH].
Qed.
Lemma one_some sub scope g n : selector_group_matches_element sub scope g n = Some true -> exists s, s ∈ g /\ sub scope s n = Some true.
Proof.
  induction g as [|s g IH]; cbn; [done|]. destruct (sub scope s n) as [[]|] eqn:E; cbn; [exists s; set_solver| |done].
  intros (s' & Hs & H)%IH. exists s'. set_solver.
Qed.
Lemma structural_subject simple s n : match_selector_structural h simple s n = Some true ->
  exists x, subject_of s = Some x /\ simple x n = Some true.
Proof.
  unfold match_selector_structural, subject_of. destruct (rev (compounds s)) as [|[comb x] before] eqn:E; [done|].
  intros [H _]%and_some. exists x. split; [|done]. apply (f_equal (@rev _)) in E. rewrite rev_involutive in E. rewrite E. cbn.
  by rewrite last_snoc.
Qed.
Lemma simple_passes f scope s n : match_simple_fuel w h f scope s n = Some true ->
  passes n h s /\ forall g, g ∈ matches_any s -> exists arm t, arm ∈ g /\ subject_of arm = Some t /\
    exists f', match_simple_fuel w h f' scope t n = Some true.
Proof.
  destruct f as [|f]; [done|]. cbn [match_simple_fuel]. unfold match_simple. destruct (never_match s) eqn:N; [done|].
  rewrite !and_some. intros [[[[[[[[[E Ns] T] I] C] A] _] M] _] _]. split; [done|]. intros g Hg.
  apply (all_some _ _ M) in Hg. apply one_some in Hg as (arm & Ha & H). unfold match_selector_with in H.
  destruct (bool_decide _); [|done]. apply structural_subject in H as (t & Et & H). eauto 6.
Qed.

Lemma structural_found `{Css_values} sheet ri si r s f scope n :
  rules sheet !! ri = Some r -> selectors r !! si = Some s ->
  match_selector_structural h (match_simple_fuel w h f scope) s n = Some true ->
  found (ns_css_rule_index_build sheet) n h (ri, si).
Proof.
  intros Hr Hs (x & Ex & M)%structural_subject. destruct (simple_passes f scope x n M) as [P Hg].
  destruct (build_files sheet ri si r s Hr Hs) as (c & y & In).
  apply (selector_found n h c (ri, si) s x y _ Ex P); [|exact In].
  intros g (arm & t & Ha & Et & f' & Mt)%Hg. exists arm, t. split; [done|]. split; [done|]. by apply simple_passes in Mt as [Pt _].
Qed.

(** C26. The index misses no rule: whatever the names and how often they occur in the
    sheet, a selector of a rule that matches an element, for whatever
    pseudo-element, is among the candidates the index gives for the element. *)
Theorem index_finds_every_match `{Css_values} sheet ri si r s f scope n :
  rules sheet !! ri = Some r -> selectors r !! si = Some s ->
  match_selector_structural h (match_simple_fuel w h f scope) s n = Some true ->
  exists l, candidates (ns_css_rule_index_build sheet) n h = Some l /\ (ri, si) ∈ l.
Proof. apply structural_found. Qed.
End Matches.
