(* ===== verification/Cascade.v ===== *)
(** * Gathering and cascading declarations ([src/css.c])

    What the rules of a sheet give an element: the candidates of the index are tested,
    scopes included, each rule keeps its strongest match for the element and for each
    pseudo-element, and its declarations go out with that strength. The cascade sorts
    them and takes the last. *)

From S2P Require Import Prelude CStr GLib CssSyntax Xml Element DomStore Dom Selector NodeState SelMatch CssProps RuleIndex.

Definition INT_MAX : Z := 2147483647.
Definition INT_MIN : Z := -2147483648.

(** ** Scopes of rules *)

Section Scoped.
Context {G : GLib} {U : Unichar} {El : Elsewhere} (w : view) (h : heap).

Definition selector_group_matches_with_scope (g : list ns_css_selector) (n : loc) (scope : option loc) : option bool :=
  selector_group_matches_element (match_selector w h) scope g n.

Section Scope.
(** [g_css_match_scope] around the call. *)
Variable scope0 : option loc.

Definition css_scope_root_matches (sc : ns_css_scope) (n : loc) : option bool :=
  selector_group_matches_with_scope (roots sc) n scope0.

Fixpoint hops_loop (fuel : nat) (root : loc) (n : option loc) (hops : Z) : option (option Z) :=
  match n with
  | None => Some None
  | Some m =>
      match fuel with
      | O => None
      | S f => if bool_decide (m = root) then Some (Some hops) else l ← at_ m h; hops_loop f root (parent l) (hops + 1)%Z
      end
  end.
(** [None] inside for [INT_MAX]. *)
Definition css_scope_hops (root el : loc) : option (option Z) := hops_loop (S (size h)) root (Some el) 0.

Fixpoint limit_loop (fuel : nat) (sc : ns_css_scope) (root : loc) (n : option loc) : option bool :=
  match n with
  | None => Some false
  | Some m =>
      match fuel with
      | O => None
      | S f =>
          (is_elem m h &&& selector_group_matches_with_scope (limits sc) m (Some root)) |||
          (if bool_decide (m = root) then Some false else l ← at_ m h; limit_loop f sc root (parent l))
      end
  end.
Definition css_scope_limit_excludes (sc : ns_css_scope) (root el : loc) : option bool :=
  match limits sc with [] => Some false | _ => limit_loop (S (size h)) sc root (Some el) end.
Definition css_scope_contains (sc : ns_css_scope) (root el : loc) : option bool :=
  k ← css_scope_hops root el;
  match k with None => Some false | Some _ => notM (css_scope_limit_excludes sc root el) end.
Definition css_scope_applies_to (sc : ns_css_scope) (el : loc) : option bool :=
  any_from parent (fun root h => is_elem root h &&& css_scope_root_matches sc root &&& css_scope_contains sc root el) (Some el) h.

Context `{Css_values}.

Definition rule_outer_scopes_apply (outer : list ns_css_scope) (root el : loc) : option bool :=
  allM (fun sc => css_scope_applies_to sc root &&& css_scope_applies_to sc el) outer.

(** [match_selector] or [match_selector_for_pe]. *)
Definition match_for (scope : option loc) (s : ns_css_selector) (n : loc) (e : ns_css_pseudo_element) : option bool :=
  if bool_decide (e = NS_CSS_PE_NONE) then match_selector w h scope s n else match_selector_for_pe w h scope s n e.

(** One root: the order of the scope it gives, if the selector matches in it. *)
Definition scope_order_at (inner : ns_css_scope) (outer : list ns_css_scope) (s : ns_css_selector) (el : loc)
    (e : ns_css_pseudo_element) (root : loc) : option (option Z) :=
  b ← is_elem root h &&& css_scope_root_matches inner root &&& css_scope_contains inner root el &&&
      rule_outer_scopes_apply outer root el &&& match_for (Some root) s el e;
  if (b : bool) then k ← css_scope_hops root el; Some (match k with Some k => Some (INT_MAX - k)%Z | None => None end) else Some None.
Fixpoint best_loop (inner : ns_css_scope) (outer : list ns_css_scope) (s : ns_css_selector) (el : loc) (e : ns_css_pseudo_element)
    (fuel : nat) (root : option loc) (best : Z) : option Z :=
  match root with
  | None => Some best
  | Some r =>
      match fuel with
      | O => None
      | S f =>
          o ← scope_order_at inner outer s el e r; l ← at_ r h;
          best_loop inner outer s el e f (parent l) (match o with Some k => if (best <? k)%Z then k else best | None => best end)
      end
  end.

(** The order of the scope in which the selector matches; [None] inside when it does
    not. *)
Definition rule_selector_matches (r : ns_css_rule) (s : ns_css_selector) (el : loc) (e : ns_css_pseudo_element) : option (option Z) :=
  match rev (scopes r) with
  | [] => b ← match_for scope0 s el e; Some (if b : bool then Some 0%Z else None)
  | inner :: outer =>
      best ← best_loop inner (rev outer) s el e (S (size h)) (Some el) 0%Z;
      Some (if (best <=? 0)%Z then None else Some best)
  end.
End Scope.
End Scoped.

(** ** Matches *)

Definition strength : Type := specificity * Z.
(** The tests of [gather_matches_multi]: greater specificity, or the same and a
    nearer scope. *)
Definition strongerb (x y : strength) : bool :=
  spec_gtb x.1 y.1 || (bool_decide (x.1 = y.1) && (y.2 <? x.2)%Z).

(** [css_rule_match_accum]: nine places for the strongest match of a rule; an update
    outside them is [None]. *)
Definition NS_ACCUM_SLOTS : nat := 9.
Abbreviation accum := (list (option strength)).
Definition no_accum : accum := repeat None NS_ACCUM_SLOTS.
Definition accum_see (dd : nat) (v : strength) (a : accum) : option accum :=
  match a !! dd with
  | None => None
  | Some None => Some (<[dd := Some v]> a)
  | Some (Some u) => Some (if strongerb v u then <[dd := Some v]> a else a)
  end.
(** The rules that matched, in the order they first did, with what they keep. *)
Fixpoint rule_see (ri dd : nat) (v : strength) (m : list (nat * accum)) : option (list (nat * accum)) :=
  match m with
  | [] => a ← accum_see dd v no_accum; Some [(ri, a)]
  | (rj, a) :: m' =>
      if rj =? ri then a' ← accum_see dd v a; Some ((rj, a') :: m')
      else m'' ← rule_see ri dd v m'; Some ((rj, a) :: m'')
  end.

Section Gather.
Context {G : GLib} {U : Unichar} {El : Elsewhere} `{V : Css_values}.

Inductive ns_css_origin := NS_CSS_ORIGIN_UA | NS_CSS_ORIGIN_PRESENTATIONAL | NS_CSS_ORIGIN_AUTHOR.

(** What the three kinds of matches share; a rule is told apart by its sheet and its
    place there. *)
Record source := {
  origin : ns_css_origin;
  m_spec : specificity;
  sheet_index : Z;
  layer_order : Z;
  scope_order : Z;
  m_source_order : Z;
  inline_style : bool;
  m_rule : Z * nat;
}.
Record match_entry := { m_src : source; decl_order : Z; important : bool; value : ns_css_value; prop : ns_css_prop }.
Record var_match := { v_src : source; v_decl_order : Z; v_important : bool; v_name : bytes; v_text : bytes }.
Record pending_match := { p_src : source; decl_order_base : Z; pd : ns_css_pending_decl }.

Record gather_dest := {
  g_pe : ns_css_pseudo_element;
  out : list match_entry;
  var_out : list var_match;
  pending_out : list pending_match;
}.

(** [container_cond_matches] of the container queries around the element. *)
Variable container_cond_matches : bytes -> bool.

Section Element.
Context (w : view) (h : heap) (scope0 : option loc) (n : loc).

Definition container_ok (r : ns_css_rule) : bool :=
  match container_condition r with Some c => container_cond_matches c | None => true end.

(** One selector of a rule for one destination: how it matches. *)
Definition hit (r : ns_css_rule) (s : ns_css_selector) (e : ns_css_pseudo_element) : option (option strength) :=
  if (negb (bool_decide (e = NS_CSS_PE_NONE)) && (Z.land (pe_mask r) (pe_bit e) =? 0)%Z) ||
     negb (bool_decide (pseudo_element s = e))
  then Some None
  else o ← rule_selector_matches w h scope0 r s n e; Some (match o with Some k => Some (spec s, k) | None => None end).

Fixpoint see_dests (r : ns_css_rule) (ri : nat) (s : ns_css_selector) (dd : nat) (pes : list ns_css_pseudo_element)
    (m : list (nat * accum)) : option (list (nat * accum)) :=
  match pes with
  | [] => Some m
  | e :: pes' =>
      o ← hit r s e;
      m ← match o with Some v => rule_see ri dd v m | None => Some m end;
      see_dests r ri s (S dd) pes' m
  end.
Definition see_candidate (sheet : ns_css_stylesheet) (pes : list ns_css_pseudo_element) (c : css_candidate) (m : list (nat * accum)) :
    option (list (nat * accum)) :=
  match rules sheet !! c.1 with
  | None => Some m
  | Some r =>
      match selectors r !! c.2 with
      | None => Some m
      | Some s => if container_ok r then see_dests r c.1 s 0 pes m else Some m
      end
  end.
Fixpoint see_candidates (sheet : ns_css_stylesheet) (pes : list ns_css_pseudo_element) (cs : list css_candidate) (m : list (nat * accum)) :
    option (list (nat * accum)) :=
  match cs with [] => Some m | c :: cs' => m ← see_candidate sheet pes c m; see_candidates sheet pes cs' m end.
End Element.

(** *** What a rule gives *)

Section Give.
Context (o : ns_css_origin) (sheet_no : Z) (ranks : gmap bytes Z) (sheet : ns_css_stylesheet).

(** [css_layer_rank_for]; the tables hold ranks plus one. *)
Definition NS_CSS_LAYER_NONE : Z := INT_MAX.
Definition css_layer_rank_for (nm : option bytes) : Z :=
  match nm with
  | None => NS_CSS_LAYER_NONE
  | Some l => match ranks !! l with Some v => (v - 1)%Z | None => NS_CSS_LAYER_NONE end
  end.

Definition source_of (r : ns_css_rule) (ri : nat) (v : strength) : source :=
  Build_source o v.1 sheet_no (css_layer_rank_for (layer_name r)) v.2 (source_order r) false (address sheet, ri).
Definition entries_of (r : ns_css_rule) (src : source) : list match_entry :=
  imap (fun i d => Build_match_entry src (Z.of_nat i) (d_important d) (d_value d) (d_prop d)) (decls r).
Definition vars_of (r : ns_css_rule) (src : source) : list var_match :=
  imap (fun i '(nm, t, imp) => Build_var_match src (Z.of_nat i) imp nm t) (vars r).
Definition pendings_of (r : ns_css_rule) (src : source) : list pending_match :=
  imap (fun i p => Build_pending_match src (Z.of_nat (length (decls r) + i)) p) (pending r).

(** What a rule with the match [v] gives. *)
Definition given (r : ns_css_rule) (ri : nat) (v : strength) (d : gather_dest) : gather_dest :=
  let src := source_of r ri v in
  {| g_pe := g_pe d; out := out d ++ entries_of r src; var_out := var_out d ++ vars_of r src;
     pending_out := pending_out d ++ pendings_of r src |}.
Definition give (r : ns_css_rule) (ri : nat) (v : option strength) (d : gather_dest) : gather_dest :=
  match v with None => d | Some v => given r ri v d end.
(** The loop over the rules that matched, for the destination [dd]; [None] when it
    reads outside the nine places. *)
Fixpoint give_all (m : list (nat * accum)) (dd : nat) (d : gather_dest) : option gather_dest :=
  match m with
  | [] => Some d
  | (ri, a) :: m' =>
      v ← a !! dd;
      give_all m' dd (match rules sheet !! ri with Some r => give r ri v d | None => d end)
  end.
Fixpoint give_dests (m : list (nat * accum)) (dd : nat) (ds : list gather_dest) : option (list gather_dest) :=
  match ds with
  | [] => Some []
  | d :: ds' => d' ← give_all m dd d; ds'' ← give_dests m (S dd) ds'; Some (d' :: ds'')
  end.
End Give.

Definition gather_matches_multi (w : view) (h : heap) (scope0 : option loc) (sheet : ns_css_stylesheet) (o : ns_css_origin)
    (sheet_no : Z) (n : loc) (dests : list gather_dest) (ranks : gmap bytes Z) : option (list gather_dest) :=
  cs ← candidates (ns_css_rule_index_build sheet) n h;
  m ← see_candidates w h scope0 n sheet (map g_pe dests) cs [];
  give_dests o sheet_no ranks sheet m 0 dests.

(** ** Every rule against the element *)

Section Scan.
Context (w : view) (h : heap) (scope0 : option loc) (sheet : ns_css_stylesheet) (o : ns_css_origin) (sheet_no : Z) (n : loc)
  (ranks : gmap bytes Z).

(** The strongest match among some selectors of a rule. *)
Fixpoint strongest (r : ns_css_rule) (e : ns_css_pseudo_element) (l : list ns_css_selector) (best : option strength) :
    option (option strength) :=
  match l with
  | [] => Some best
  | s :: l' =>
      v ← hit w h scope0 n r s e;
      strongest r e l' (match v, best with
                        | Some v, Some u => Some (if strongerb v u then v else u)
                        | Some v, None => Some v
                        | None, _ => best
                        end)
  end.
Definition rule_match (r : ns_css_rule) (e : ns_css_pseudo_element) : option (option strength) :=
  if container_ok r then strongest r e (selectors r) None else Some None.
Fixpoint scan_rules (ri : nat) (l : list ns_css_rule) (d : gather_dest) : option gather_dest :=
  match l with
  | [] => Some d
  | r :: l' => v ← rule_match r (g_pe d); scan_rules (S ri) l' (give o sheet_no ranks sheet r ri v d)
  end.
Definition scan_sheet (dests : list gather_dest) : option (list gather_dest) := mapM (scan_rules 0 (rules sheet)) dests.
End Scan.
End Gather.

(** ** Nine places *)

Section Nine.
Context {G : GLib} {U : Unichar} {El : Elsewhere} `{V : Css_values} (container_cond_matches : bytes -> bool)
  (w : view) (h : heap) (scope0 : option loc) (n : loc) (sheet : ns_css_stylesheet).

Definition nine_wide (m : list (nat * accum)) : Prop := Forall (fun x => length (snd x) = NS_ACCUM_SLOTS) m.
Lemma accum_see_wide dd v a a' : accum_see dd v a = Some a' -> length a' = length a.
Proof. unfold accum_see. repeat case_match; intros [= <-]; by rewrite ?length_insert. Qed.
Lemma rule_see_wide ri dd v m : forall m', rule_see ri dd v m = Some m' -> nine_wide m -> nine_wide m'.
Proof.
  unfold nine_wide. induction m as [|[rj a] m IH]; cbn [rule_see]; intros m'.
  - destruct (accum_see dd v no_accum) as [a|] eqn:E; [|done]. intros [= <-] _. apply accum_see_wide in E. by repeat constructor.
  - destruct (rj =? ri).
    + destruct (accum_see dd v a) as [a'|] eqn:E; [|done]. apply accum_see_wide in E. intros [= <-] [La Lm]%Forall_cons. constructor; [cbn in *; congruence|done].
    + destruct (rule_see ri dd v m) as [m''|]; [|done]. intros [= <-] [La Lm]%Forall_cons. constructor; [done|by apply IH].
Qed.
Lemma dests_see_wide r ri s pes : forall dd m m', see_dests w h scope0 n r ri s dd pes m = Some m' -> nine_wide m -> nine_wide m'.
Proof.
  induction pes as [|e pes IH]; cbn [see_dests]; intros dd m m'; [by intros [= <-]|]. destruct (hit w h scope0 n r s e) as [[v|]|]; cbn [mbind option_bind]; [|by apply IH|done].
  destruct (rule_see ri dd v m) as [m1|] eqn:E; cbn [mbind option_bind]; [|done]. intros H Hm. eapply IH; [exact H|]. by eapply rule_see_wide.
Qed.
Lemma candidates_see_wide pes cs : forall m m', see_candidates container_cond_matches w h scope0 n sheet pes cs m = Some m' -> nine_wide m -> nine_wide m'.
Proof.
  induction cs as [|c cs IH]; cbn [see_candidates]; intros m m'; [by intros [= <-]|].
  destruct (see_candidate _ _ _ _ _ _ _ _ _) as [m1|] eqn:E; cbn [mbind option_bind]; [|done]. intros H Hm. eapply IH; [exact H|]. revert E.
  unfold see_candidate. destruct (rules sheet !! c.1) as [r|]; [|by intros [= <-]]. destruct (selectors r !! c.2) as [s|]; [|by intros [= <-]].
  destruct (container_ok container_cond_matches r); [|by intros [= <-]]. intros H1. by eapply dests_see_wide.
Qed.
Lemma give_dests_wide o k ranks m ds : nine_wide m -> m <> [] -> forall dd ds', give_dests o k ranks sheet m dd ds = Some ds' ->
  ds = [] \/ dd + length ds <= NS_ACCUM_SLOTS.
Proof.
  intros Wm Nm. induction ds as [|d ds IH]; cbn [give_dests]; intros dd ds'; [by left|].
  destruct (give_all o k ranks sheet m dd d) as [d'|] eqn:E; cbn [mbind option_bind]; [|done].
  destruct (give_dests o k ranks sheet m (S dd) ds) as [ds2|] eqn:E2; cbn [mbind option_bind]; [|done]. intros _. right.
  apply IH in E2. destruct m as [|[ri a] m]; [done|]. apply Forall_cons in Wm as [La _]. cbn in La, E.
  destruct (a !! dd) as [v|] eqn:Ea; [|done]. apply lookup_lt_Some in Ea. destruct E2 as [->|E2]; cbn [length]; lia.
Qed.

(** C31. The accumulators have nine places and the element may have ten destinations,
    itself and nine pseudo-elements: with more than nine, gathering stays within the
    accumulators only when no rule of the sheet matches. *)
Theorem ten_destinations_need_no_match o k ranks ds ds' : NS_ACCUM_SLOTS < length ds ->
  gather_matches_multi container_cond_matches w h scope0 sheet o k n ds ranks = Some ds' -> ds' = ds.
Proof.
  intros L. unfold gather_matches_multi. destruct (candidates _ n h) as [cs|]; cbn [mbind option_bind]; [|done].
  destruct (see_candidates _ _ _ _ _ _ _ _ _) as [m|] eqn:E; cbn [mbind option_bind]; [|done]. apply candidates_see_wide in E; [|constructor].
  destruct (decide (m = [])) as [->|Nm].
  - assert (forall dd ds, give_dests o k ranks sheet [] dd ds = Some ds) as G0.
    { intros dd l. revert dd. induction l as [|d l IH]; intros dd; [done|]. cbn. by rewrite IH. }
    rewrite G0. by intros [= ->].
  - intros [->|Hl]%(give_dests_wide o k ranks m ds E Nm); cbn in *; lia.
Qed.
End Nine.
