(* ===== verification/CascadeSpec.v ===== *)
(** * What is gathered is what matches

    The index and the accumulators against a scan of every selector of every rule: the
    same declarations come out, each as often and with the same strength. *)

From S2P Require Import Prelude CStr GLib CssSyntax Xml Element DomStore Dom Selector NodeState SelMatch CssProps RuleIndex Cascade.

(** ** Strengths are in a line *)

Lemma strongerb_spec (x y : strength) : strongerb x y = true <->
  let '((a, b, c), k) := x in let '((a', b', c'), k') := y in
  (a' < a \/ a = a' /\ (b' < b \/ b = b' /\ (c' < c \/ c = c' /\ k' < k)))%Z.
Proof.
  destruct x as [[[a b] c] k], y as [[[a' b'] c'] k']. unfold strongerb, spec_gtb. cbn [fst snd].
  rewrite !orb_true_iff, !andb_true_iff, !Z.ltb_lt, !Z.eqb_eq, bool_decide_eq_true.
  split; [intros [H|[[= -> -> ->] H]]; lia|].
  intros H. destruct (decide ((a, b, c) = (a', b', c'))) as [E|E].
  - injection E as -> -> ->. right. split; [done|lia].
  - left. assert (a <> a' \/ b <> b' \/ c <> c') by (destruct (decide (a = a')); [destruct (decide (b = b')); [destruct (decide (c = c')); [congruence|]|]|]; tauto). lia.
Qed.
Lemma stronger_false x y : strongerb x y = false <-> ~ strongerb x y = true.
Proof. apply eq_iff_eq_true || (destruct (strongerb x y); intuition congruence). Qed.
Lemma stronger_total x y : strongerb x y = false -> strongerb y x = false -> x = y.
Proof.
  rewrite !stronger_false, !strongerb_spec. destruct x as [[[a b] c] k], y as [[[a' b'] c'] k']. intros H1 H2.
  assert (a = a' /\ b = b' /\ c = c' /\ k = k') as (-> & -> & -> & ->) by lia. done.
Qed.
Lemma stronger_trans x y z : strongerb x y = false -> strongerb y z = false -> strongerb x z = false.
Proof.
  rewrite !stronger_false, !strongerb_spec. destruct x as [[[a b] c] k], y as [[[a' b'] c'] k'], z as [[[a'' b''] c''] k'']. lia.
Qed.
Lemma stronger_asym x y : strongerb x y = true -> strongerb y x = false.
Proof. rewrite stronger_false, !strongerb_spec. destruct x as [[[a b] c] k], y as [[[a' b'] c'] k']. lia. Qed.

(** [o] is the strongest of the strengths in [P]. *)
Definition is_best (P : strength -> Prop) (o : option strength) : Prop :=
  match o with None => forall v, ~ P v | Some v => P v /\ forall u, P u -> strongerb u v = false end.
Definition join (v : strength) (o : option strength) : option strength :=
  match o with Some u => Some (if strongerb v u then v else u) | None => Some v end.

Lemma best_unique P o o' : is_best P o -> is_best P o' -> o = o'.
Proof.
  destruct o as [v|], o' as [v'|]; cbn; try done.
  - intros [H1 H2] [H3 H4]. f_equal. apply stronger_total; auto.
  - intros [H1 _] H. by apply H in H1.
  - intros H [H1 _]. by apply H in H1.
Qed.
Lemma best_ext P Q o : (forall v, P v <-> Q v) -> is_best P o -> is_best Q o.
Proof. intros E. destruct o; cbn; firstorder. Qed.
Lemma best_join P o v : is_best P o -> is_best (fun u => P u \/ u = v) (join v o).
Proof.
  destruct o as [u|]; cbn; [|intros H; split; [by right|]; intros x [Hx| ->]; [by apply H in Hx|]].
  2:{ rewrite stronger_false, strongerb_spec. destruct v as [[[a b] c] k]. lia. }
  assert (strongerb v v = false) as R by (rewrite stronger_false, strongerb_spec; destruct v as [[[a b] c] k]; lia).
  intros [H1 H2]. destruct (strongerb v u) eqn:E.
  - split; [by right|]. intros x [Hx| ->]; [|done]. apply (stronger_trans _ u); [by apply H2|by apply stronger_asym].
  - split; [by left|]. intros x [Hx| ->]; [by apply H2|done].
Qed.

(** ** The accumulators *)

Section Accum.

Fixpoint slot (m : list (nat * accum)) (ri dd : nat) : option strength :=
  match m with
  | [] => None
  | (rj, a) :: m' => if rj =? ri then default None (a !! dd) else slot m' ri dd
  end.

Lemma accum_sees dd v a : dd < length a -> exists a', accum_see dd v a = Some a' /\ length a' = length a /\
  a' !! dd = Some (join v (default None (a !! dd))) /\ forall de, de <> dd -> a' !! de = a !! de.
Proof.
  intros L. apply lookup_lt_is_Some in L as [o E]. unfold accum_see. rewrite E. cbn. apply lookup_lt_Some in E as L.
  assert (forall y, <[dd:=y]> a !! dd = Some y) as I by (intros y; by apply list_lookup_insert_eq).
  destruct o as [u|]; cbn; [|exists (<[dd := Some v]> a); rewrite length_insert, I; split_and!; try done; intros; by rewrite list_lookup_insert_ne].
  destruct (strongerb v u); [exists (<[dd := Some v]> a); rewrite length_insert, I; split_and!; try done; intros; by rewrite list_lookup_insert_ne|].
  by exists a.
Qed.

Lemma rule_sees ri dd v m : dd < NS_ACCUM_SLOTS -> nine_wide m -> NoDup (map fst m) ->
  exists m', rule_see ri dd v m = Some m' /\ nine_wide m' /\ NoDup (map fst m') /\
    (forall x, x ∈ map fst m' <-> x ∈ map fst m \/ x = ri) /\
    forall rj de, slot m' rj de = if bool_decide (rj = ri /\ de = dd) then join v (slot m ri dd) else slot m rj de.
Proof.
  intros L. induction m as [|[rk a] m IH]; intros W N; cbn [rule_see slot].
  - destruct (accum_sees dd v no_accum L) as (a' & -> & La & E & O). cbn [mbind option_bind]. eexists. split; [done|].
    split; [by constructor|]. split; [by apply NoDup_singleton|]. split; [intros x; cbn [map fst]; rewrite elem_of_cons; tauto|]. intros rj de. cbn [slot].
    assert (forall de, default None (no_accum !! de) = None) as Z by (intros i; do 10 (destruct i; [done|]); done).
    destruct (Nat.eqb_spec ri rj) as [->|Hr].
    + case_bool_decide as B; [destruct B as [_ ->]; by rewrite E, Z|]. rewrite O by naive_solver. apply Z.
    + case_bool_decide as B; [naive_solver|done].
  - apply Forall_cons in W as [Wa W]. cbn in Wa. apply NoDup_cons in N as [Nk N]. destruct (Nat.eqb_spec rk ri) as [->|Hk].
    + destruct (accum_sees dd v a) as (a' & -> & La & E & O); [by rewrite Wa|]. cbn [mbind option_bind]. eexists. split; [done|].
      split; [by constructor; [cbn; congruence|]|]. split; [by constructor|]. split; [intros x; cbn [map fst]; rewrite !elem_of_cons; tauto|]. intros rj de. cbn [slot].
      destruct (Nat.eqb_spec ri rj) as [->|Hr].
      * case_bool_decide as B; [destruct B as [_ ->]; by rewrite E|]. rewrite O by naive_solver. done.
      * case_bool_decide as B; [naive_solver|done].
    + destruct (IH W N) as (m' & -> & W' & N' & K' & S'). cbn [mbind option_bind]. eexists. split; [done|].
      split; [by constructor|]. split; [cbn; constructor; [rewrite K'; by intros [?|?]|done]|].
      split; [intros x; cbn [map]; rewrite !elem_of_cons, K'; tauto|]. intros rj de. cbn [slot]. destruct (Nat.eqb_spec rk rj) as [->|Hr].
      * case_bool_decide as B; [naive_solver|done].
      * rewrite S'. done.
Qed.
End Accum.

(** ** The candidates *)

Section Runs.
Context `{Doc : GLibSpec} {U : Unichar} {El : Elsewhere} `{V : Css_values} (container_cond_matches : bytes -> bool)
  (w : view) (h : heap) (scope0 : option loc) (n : loc) (sheet : ns_css_stylesheet) (pes : list ns_css_pseudo_element).
Abbreviation hit := (hit w h scope0 n).
Abbreviation container_ok := (container_ok container_cond_matches).

(** The accumulators hold the strongest of the strengths [P] of each rule and
    destination. *)
Record holds_best (m : list (nat * accum)) (P : nat -> nat -> strength -> Prop) : Prop := {
  hb_widths : nine_wide m;
  hb_nodup : NoDup (map fst m);
  hb_keys : forall x, x ∈ map fst m -> x < length (rules sheet);
  hb_best : forall ri dd, is_best (P ri dd) (slot m ri dd);
}.
Lemma holds_best_ext m P Q : (forall ri dd v, P ri dd v <-> Q ri dd v) -> holds_best m P -> holds_best m Q.
Proof. intros E []. split; try done. intros ri dd. apply (best_ext (P ri dd)); [apply E|done]. Qed.

Lemma see_holds m P ri dd v : dd < NS_ACCUM_SLOTS -> ri < length (rules sheet) -> holds_best m P ->
  exists m', rule_see ri dd v m = Some m' /\ holds_best m' (fun rj de u => P rj de u \/ (rj = ri /\ de = dd /\ u = v)).
Proof.
  intros L Lr [W N K B]. destruct (rule_sees ri dd v m L W N) as (m' & E & W' & N' & K' & S'). exists m'. split; [done|].
  split; [done|done| |].
  - intros x [Hx| ->]%K'; [by apply K|done].
  - intros rj de. rewrite S'. case_bool_decide as D.
    + destruct D as [-> ->]. eapply best_ext; [|apply best_join, B]. intros u. cbn. tauto.
    + eapply best_ext; [|apply B]. intros u. tauto.
Qed.

Definition hits_at (r : ns_css_rule) (s : ns_css_selector) (de : nat) (v : strength) : Prop :=
  exists e, pes !! de = Some e /\ hit r s e = Some (Some v).

Lemma dests_hold r s ri : ri < length (rules sheet) -> length pes <= NS_ACCUM_SLOTS -> (forall e, e ∈ pes -> is_Some (hit r s e)) ->
  forall after before m P, pes = before ++ after -> holds_best m P ->
  exists m', see_dests w h scope0 n r ri s (length before) after m = Some m' /\
    holds_best m' (fun rj de u => P rj de u \/ (rj = ri /\ length before <= de /\ hits_at r s de u)).
Proof.
  intros Lr L T. induction after as [|e after IH]; intros before m P E B.
  - exists m. split; [done|]. eapply holds_best_ext; [|exact B]. intros rj de u. split; [by left|]. intros [?|(_ & Hd & e & He & _)]; [done|].
    apply lookup_lt_Some in He. rewrite E, app_nil_r in He. lia.
  - cbn [see_dests]. assert (pes !! length before = Some e) as Le by (rewrite E, lookup_app_r, Nat.sub_diag by lia; done).
    destruct (T e) as [o Ho]; [by eapply list_elem_of_lookup_2|]. rewrite Ho. cbn [mbind option_bind].
    assert (exists m1, match o with Some v => rule_see ri (length before) v m | None => Some m end = Some m1 /\
      holds_best m1 (fun rj de u => P rj de u \/ (rj = ri /\ de = length before /\ hits_at r s de u))) as (m1 & E1 & B1).
    { destruct o as [v|].
      - destruct (see_holds m P ri (length before) v) as (m1 & E1 & B1); [apply lookup_lt_Some in Le; lia|done|done|].
        exists m1. split; [done|]. eapply holds_best_ext; [|exact B1]. intros rj de u. cbn. unfold hits_at.
        split; [intros [?|(-> & -> & ->)]; [by left|right; eauto]|intros [?|(-> & -> & e' & E' & H')]; [by left|right]].
        rewrite Le in E'. injection E' as <-. rewrite Ho in H'. by injection H' as ->.
      - exists m. split; [done|]. eapply holds_best_ext; [|exact B]. intros rj de u. split; [by left|].
        intros [?|(-> & -> & e' & E' & H')]; [done|]. rewrite Le in E'. injection E' as <-. congruence. }
    rewrite E1. cbn [mbind option_bind].
    destruct (IH (before ++ [e]) m1 _ ltac:(by rewrite E, <- app_assoc) B1) as (m2 & E2 & B2). rewrite length_app in E2, B2. cbn in E2, B2.
    replace (length before + 1) with (S (length before)) in * by lia. exists m2. split; [done|]. eapply holds_best_ext; [|exact B2].
    intros rj de u. cbn beta. split.
    + intros [[?|(-> & -> & ?)]|(-> & ? & ?)]; [by left|right; split_and!; auto; lia..].
    + intros [?|(-> & Hd & ?)]; [tauto|]. destruct (decide (de = length before)); [left; right; tauto|right; split_and!; auto; lia].
Qed.

(** The strengths of the candidates in [cs] for the rule [ri] and destination [dd]. *)
Definition hits (cs : css_candidate -> Prop) (ri dd : nat) (v : strength) : Prop :=
  exists si r s, cs (ri, si) /\ rules sheet !! ri = Some r /\ selectors r !! si = Some s /\ container_ok r = true /\ hits_at r s dd v.

Context (L : length pes <= NS_ACCUM_SLOTS)
  (T : forall r s e, r ∈ rules sheet -> s ∈ selectors r -> container_ok r = true -> e ∈ pes -> is_Some (hit r s e)).

Lemma candidate_holds c m P : holds_best m P ->
  exists m', see_candidate container_cond_matches w h scope0 n sheet pes c m = Some m' /\
    holds_best m' (fun rj de u => P rj de u \/ hits (fun c' => c' = c) rj de u).
Proof.
  intros B. destruct c as [ri si]. unfold see_candidate. cbn [fst snd].
  assert (forall m0, m0 = m -> (forall r s, rules sheet !! ri = Some r -> selectors r !! si = Some s -> container_ok r = true -> False) ->
    holds_best m0 (fun rj de u => P rj de u \/ hits (fun c' => c' = (ri, si)) rj de u)) as None_hit.
  { intros m0 -> F. eapply holds_best_ext; [|exact B]. intros rj de u. split; [by left|].
    intros [?|(sj & r & s & [= -> ->] & Er & Es & Ec & _)]; [done|]. by destruct (F r s). }
  destruct (rules sheet !! ri) as [r|] eqn:Er; [|eexists; split; [done|]; by apply None_hit].
  destruct (selectors r !! si) as [s|] eqn:Es; [|eexists; split; [done|]; apply None_hit; [done|]; intros ? ? [= <-]; congruence].
  destruct (container_ok r) eqn:Ec; [|eexists; split; [done|]; apply None_hit; [done|]; intros ? ? [= <-]; congruence].
  destruct (dests_hold r s ri (lookup_lt_Some _ _ _ Er) L) with (after := pes) (before := @nil ns_css_pseudo_element) (m := m) (P := P) as (m' & E & B').
  - intros e He. apply T; [by eapply list_elem_of_lookup_2|by eapply list_elem_of_lookup_2|done|done].
  - done.
  - done.
  - exists m'. split; [done|]. eapply holds_best_ext; [|exact B']. intros rj de u. cbn. split.
    + intros [?|(-> & _ & ?)]; [by left|right]. exists si, r, s. done.
    + intros [?|(sj & r' & s' & [= -> ->] & Er' & Es' & _ & Hh)]; [by left|right].
      rewrite Er in Er'. injection Er' as <-. rewrite Es in Es'. injection Es' as <-. split_and!; [done|lia|done].
Qed.

Lemma candidates_hold cs : forall m P, holds_best m P ->
  exists m', see_candidates container_cond_matches w h scope0 n sheet pes cs m = Some m' /\
    holds_best m' (fun rj de u => P rj de u \/ hits (fun c => c ∈ cs) rj de u).
Proof.
  induction cs as [|c cs IH]; intros m P B; cbn [see_candidates].
  - exists m. split; [done|]. eapply holds_best_ext; [|exact B]. intros rj de u. split; [by left|].
    intros [?|(si & r & s & Hc & _)]; [done|]. by apply not_elem_of_nil in Hc.
  - destruct (candidate_holds c m P B) as (m1 & -> & B1). cbn [mbind option_bind]. destruct (IH m1 _ B1) as (m2 & E2 & B2).
    exists m2. split; [done|]. eapply holds_best_ext; [|exact B2]. intros rj de u. cbn beta. unfold hits.
    setoid_rewrite elem_of_cons. naive_solver.
Qed.
Lemma no_candidates_hold : holds_best [] (fun _ _ _ => False).
Proof. split; [constructor|constructor|intros x Hx; by apply not_elem_of_nil in Hx|]. intros ri dd. cbn. auto. Qed.
End Runs.

(** ** Everything that matches is a candidate *)

Section Complete.
Context `{Doc : GLibSpec} {U : Unichar} {El : Elsewhere} `{V : Css_values} (w : view) (h : heap) (scope0 : option loc) (n : loc).

Lemma for_structural scope s e : match_for w h scope s n e = Some true ->
  exists f, match_selector_structural h (match_simple_fuel w h f scope) s n = Some true.
Proof.
  unfold match_for, match_selector, match_selector_with, match_selector_for_pe. do 2 case_bool_decide; try done; eauto.
Qed.
Lemma best_matches inner outer s e : forall f root best k, best_loop w h scope0 inner outer s n e f root best = Some k ->
  (k <= best)%Z \/ exists scope, match_for w h scope s n e = Some true.
Proof.
  induction f as [|f IH]; intros [r|] best k; cbn [best_loop]; [done|intros [= ->]; by left| |intros [= ->]; by left].
  destruct (scope_order_at _ _ _ _ _ _ _ _ _) as [o|] eqn:O; cbn [mbind option_bind]; [|done].
  destruct (at_ r h) as [l|]; cbn [mbind option_bind]; [|done]. intros [H|H]%IH; [|by right].
  destruct o as [v|]; [|by left]. destruct (best <? v)%Z; [|by left]. right. exists (Some r). revert O. unfold scope_order_at.
  match goal with |- (?b ≫= _) = _ -> _ => destruct b as [[]|] eqn:B; [|done|done] end. rewrite !and_some in B. tauto.
Qed.

Lemma rule_matches_structural r s e k : rule_selector_matches w h scope0 r s n e = Some (Some k) ->
  exists scope f, match_selector_structural h (match_simple_fuel w h f scope) s n = Some true.
Proof.
  unfold rule_selector_matches. destruct (rev (scopes r)) as [|inner outer].
  - destruct (match_for w h scope0 s n e) as [[]|] eqn:M; [|done|done]. intros _. apply for_structural in M as [f M]. eauto.
  - destruct (best_loop _ _ _ _ _ _ _ _ _ _ _) as [best|] eqn:B; [|done]. cbn [mbind option_bind].
    destruct (Z.leb_spec best 0) as [|Hb]; [done|]. intros _. apply best_matches in B as [B|[scope M]]; [lia|].
    apply for_structural in M as [f M]. eauto.
Qed.

Lemma hit_found sheet ri si r s e v : rules sheet !! ri = Some r -> selectors r !! si = Some s ->
  hit w h scope0 n r s e = Some (Some v) -> found (ns_css_rule_index_build sheet) n h (ri, si).
Proof.
  intros Hr Hs. unfold hit. destruct (_ || _); [done|]. destruct (rule_selector_matches _ _ _ _ _ _ _) as [[k|]|] eqn:M; [|done|done].
  apply rule_matches_structural in M as (scope & f & M). intros _. by eapply structural_found.
Qed.
Lemma candidates_total x d : h !! n = Some d -> exists cs, candidates x n h = Some cs.
Proof.
  intros Hd. unfold candidates, is_elem, has_kind, node_kind, has_attr, get_attr, node_name. rewrite Hd. cbn [mbind option_bind fmap option_fmap option_map]. eauto.
Qed.
End Complete.

(** ** The scan *)

Section Scanned.
Context `{Doc : GLibSpec} {U : Unichar} {El : Elsewhere} `{V : Css_values} (container_cond_matches : bytes -> bool)
  (w : view) (h : heap) (scope0 : option loc) (n : loc) (sheet : ns_css_stylesheet).
Abbreviation hit := (hit w h scope0 n).
Abbreviation container_ok := (container_ok container_cond_matches).
Abbreviation rule_match := (rule_match container_cond_matches w h scope0 n).

Lemma strongest_best r e : forall l best o P, strongest w h scope0 n r e l best = Some o -> is_best P best ->
  is_best (fun u => P u \/ exists s, s ∈ l /\ hit r s e = Some (Some u)) o /\ forall s, s ∈ l -> is_Some (hit r s e).
Proof.
  induction l as [|s l IH]; intros best o P H B; cbn [strongest] in H.
  - injection H as <-. split; [|intros s Hs; by apply not_elem_of_nil in Hs]. eapply best_ext; [|exact B].
    intros u. split; [by left|]. intros [?|(s & Hs & _)]; [done|by apply not_elem_of_nil in Hs].
  - destruct (hit r s e) as [v|] eqn:Hv; cbn [mbind option_bind] in H; [|done].
    assert (is_best (fun u => P u \/ v = Some u) (match v with Some v => join v best | None => best end)) as B'.
    { destruct v as [v|]; (eapply best_ext; [|first [apply best_join, B|exact B]]); intros u; cbn; naive_solver. }
    apply (IH _ _ (fun u => P u \/ v = Some u)) in H as [H T].
    + split; [|intros s' [->|Hs]%elem_of_cons; [rewrite Hv; eauto|by apply T]]. eapply best_ext; [|exact H].
      intros u. setoid_rewrite elem_of_cons. naive_solver.
    + by destruct v, best.
Qed.
Lemma rule_match_best r e o : rule_match r e = Some o ->
  is_best (fun u => container_ok r = true /\ exists s, s ∈ selectors r /\ hit r s e = Some (Some u)) o /\
  (container_ok r = true -> forall s, s ∈ selectors r -> is_Some (hit r s e)).
Proof.
  unfold Cascade.rule_match. destruct (container_ok r) eqn:C.
  - intros H. apply (strongest_best _ _ _ _ _ (fun _ => False)) in H as [H T]; [|cbn; auto]. split; [|done].
    eapply best_ext; [|exact H]. intros u. naive_solver.
  - intros [= <-]. split; [intros v [? _]|]; done.
Qed.

(** What each rule adds to one of the lists, given its match. *)
Section Adds.
Context {A : Type} (part : ns_css_rule -> nat -> strength -> list A).
Definition added (ms : nat -> option strength) (ri : nat) : list A :=
  match rules sheet !! ri, ms ri with Some r, Some v => part r ri v | _, _ => [] end.

Lemma concat_perm (f : nat -> list A) keys all : NoDup keys -> NoDup all -> (forall x, x ∈ keys -> x ∈ all) ->
  (forall x, x ∈ all -> x ∉ keys -> f x = []) -> flat_map f keys ≡ₚ flat_map f all.
Proof.
  intros Nk Na S Z. destruct (submseteq_Permutation keys all) as [rest E]; [by apply NoDup_submseteq|].
  assert (forall x, x ∈ rest -> f x = []) as R.
  { intros x Hx. rewrite E in Na. apply NoDup_app in Na as (_ & D & _). apply Z; [rewrite E, elem_of_app; by right|].
    intros Hk. by apply (D x). }
  transitivity (flat_map f (keys ++ rest)).
  - rewrite flat_map_app. assert (flat_map f rest = []) as ->; [|by rewrite app_nil_r].
    clear E. induction rest as [|x rest IH]; [done|]. cbn. rewrite (R x), IH; [done|..]; set_solver.
  - by rewrite E.
Qed.
End Adds.

(** The destination [d'] is [d] with what the rules [keys] give. *)
Section Grown.
Context (o : ns_css_origin) (sheet_no : Z) (ranks : gmap bytes Z) (ms : nat -> option strength).
Abbreviation src := (source_of o sheet_no ranks sheet).
Record grown (keys : list nat) (d d' : gather_dest) : Prop := {
  grown_pe : g_pe d' = g_pe d;
  grown_out : out d' = out d ++ flat_map (added (fun r ri v => entries_of r (src r ri v)) ms) keys;
  grown_var : var_out d' = var_out d ++ flat_map (added (fun r ri v => vars_of r (src r ri v)) ms) keys;
  grown_pending : pending_out d' = pending_out d ++ flat_map (added (fun r ri v => pendings_of r (src r ri v)) ms) keys;
}.
Lemma grown_nil d : grown [] d d.
Proof. split; cbn; by rewrite ?app_nil_r. Qed.
Lemma grown_cons ri keys d d' :
  grown keys (match rules sheet !! ri with Some r => give o sheet_no ranks sheet r ri (ms ri) d | None => d end) d' -> grown (ri :: keys) d d'.
Proof.
  intros [P O W Q]. split; rewrite ?P, ?O, ?W, ?Q; cbn [flat_map].
  all: unfold added; destruct (rules sheet !! ri); [destruct (ms ri); cbn; by rewrite ?app_assoc|done].
Qed.

Lemma give_all_grows dd m : forall d, Forall (fun x => x.2 !! dd = Some (ms x.1)) m ->
  exists d', give_all o sheet_no ranks sheet m dd d = Some d' /\ grown (map fst m) d d'.
Proof.
  induction m as [|[ri a] m IH]; intros d F; [exists d; split; [done|apply grown_nil]|]. apply Forall_cons in F as [E F]. cbn in E.
  cbn [give_all]. rewrite E. cbn [mbind option_bind]. destruct (IH (match rules sheet !! ri with Some r => give o sheet_no ranks sheet r ri (ms ri) d | None => d end) F) as (d' & G' & H').
  exists d'. split; [done|]. by apply grown_cons.
Qed.
Lemma give_pe r ri v d : g_pe (give o sheet_no ranks sheet r ri v d) = g_pe d.
Proof. by destruct v. Qed.
Lemma scan_matches l : forall ri d d', scan_rules container_cond_matches w h scope0 sheet o sheet_no n ranks ri l d = Some d' ->
  forall r, r ∈ l -> is_Some (rule_match r (g_pe d)).
Proof.
  induction l as [|r l IH]; cbn [scan_rules]; intros ri d d' H r' Hr; [by apply not_elem_of_nil in Hr|].
  destruct (rule_match r (g_pe d)) as [v|] eqn:M; cbn [mbind option_bind] in H; [|done].
  apply elem_of_cons in Hr as [->|Hr]; [rewrite M; eauto|]. eapply IH in H; [|done]. by rewrite give_pe in H.
Qed.
Lemma scan_grows l : forall before d d', scan_rules container_cond_matches w h scope0 sheet o sheet_no n ranks (length before) l d = Some d' ->
  rules sheet = before ++ l ->
  (forall r rj v, rules sheet !! rj = Some r -> rule_match r (g_pe d) = Some v -> ms rj = v) ->
  grown (seq (length before) (length l)) d d'.
Proof.
  induction l as [|r l IH]; cbn [scan_rules]; intros before d d' H E M; [injection H as <-; apply grown_nil|].
  assert (rules sheet !! length before = Some r) as Er by (by rewrite E, list_lookup_middle).
  destruct (rule_match r (g_pe d)) as [v|] eqn:Ev; cbn [mbind option_bind] in H; [|done].
  cbn [length seq]. apply grown_cons. rewrite Er, (M _ _ _ Er Ev). specialize (IH (before ++ [r])). rewrite length_app in IH. cbn in IH.
  rewrite Nat.add_1_r in IH. apply IH; [done|by rewrite <- app_assoc|]. rewrite give_pe. exact M.
Qed.
End Grown.

(** ** The index and the accumulators against the scan *)

Record same_given (d d' : gather_dest) : Prop := {
  same_pe : g_pe d = g_pe d';
  same_out : out d ≡ₚ out d';
  same_var : var_out d ≡ₚ var_out d';
  same_pending : pending_out d ≡ₚ pending_out d';
}.
Lemma grown_same o k ranks ms keys d d1 d2 : NoDup keys -> (forall x, x ∈ keys -> x < length (rules sheet)) ->
  (forall x, x ∉ keys -> ms x = None) -> grown o k ranks ms keys d d1 -> grown o k ranks ms (seq 0 (length (rules sheet))) d d2 -> same_given d1 d2.
Proof.
  intros N K Z [P1 O1 V1 Q1] [P2 O2 V2 Q2].
  assert (forall {A} (part : ns_css_rule -> nat -> strength -> list A),
    flat_map (added part ms) keys ≡ₚ flat_map (added part ms) (seq 0 (length (rules sheet)))) as E.
  { intros A part. apply concat_perm; [done|apply NoDup_ListNoDup, seq_NoDup|intros x Hx; apply elem_of_seq; apply K in Hx; lia|].
    intros x _ Hx. unfold added. rewrite (Z x Hx). by destruct (rules sheet !! x). }
  split; [congruence|..]; rewrite ?O1, ?O2, ?V1, ?V2, ?Q1, ?Q2; by apply Permutation_app_head.
Qed.
Lemma slot_at m ri a dd : NoDup (map fst m) -> (ri, a) ∈ m -> slot m ri dd = default None (a !! dd).
Proof.
  induction m as [|[rj b] m IH]; cbn; intros N Hm; [by apply not_elem_of_nil in Hm|]. apply NoDup_cons in N as [Nj N].
  apply elem_of_cons in Hm as [[= -> ->]|Hm]; [by rewrite Nat.eqb_refl|]. destruct (Nat.eqb_spec rj ri) as [->|_]; [|by apply IH].
  destruct Nj. apply list_elem_of_fmap. by exists (ri, a).
Qed.
Lemma slot_absent m ri dd : ri ∉ map fst m -> slot m ri dd = None.
Proof.
  induction m as [|[rj b] m IH]; cbn; intros N; [done|]. rewrite elem_of_cons in N. destruct (Nat.eqb_spec rj ri) as [->|_]; [tauto|].
  apply IH. tauto.
Qed.

(** The accumulators, once the candidates are seen, against the scan of one rule. *)
Lemma slot_scanned pes cs m : candidates (ns_css_rule_index_build sheet) n h = Some cs ->
  holds_best sheet m (fun rj de u => False \/ hits container_cond_matches w h scope0 n sheet pes (fun c => c ∈ cs) rj de u) ->
  forall dd e r ri v, pes !! dd = Some e -> rules sheet !! ri = Some r -> rule_match r e = Some v -> slot m ri dd = v.
Proof.
  intros Ec B dd e r ri v He Hr Hv. apply rule_match_best in Hv as [Hv _]. eapply best_unique; [apply (hb_best _ _ _ B)|].
  eapply best_ext; [|exact Hv]. intros u. split.
  - intros (C & s & Hs & Hu). right. apply list_elem_of_lookup in Hs as [si Hs]. exists si, r, s. split_and!; try done; [|by exists e].
    destruct (hit_found w h scope0 n sheet ri si r s e u Hr Hs Hu) as (cs' & Ec' & Hin). congruence.
  - intros [[]|(si & r' & s & _ & Hr' & Hs & C & e' & He' & Hu)]. rewrite Hr in Hr'. injection Hr' as <-. rewrite He in He'. injection He' as <-.
    split; [done|]. exists s. split; [by eapply list_elem_of_lookup_2|done].
Qed.
Lemma dests_scanned o k ranks pes cs m : candidates (ns_css_rule_index_build sheet) n h = Some cs -> length pes <= NS_ACCUM_SLOTS ->
  holds_best sheet m (fun rj de u => False \/ hits container_cond_matches w h scope0 n sheet pes (fun c => c ∈ cs) rj de u) ->
  forall ds before ds2, pes = before ++ map g_pe ds -> scan_sheet container_cond_matches w h scope0 sheet o k n ranks ds = Some ds2 ->
  exists ds1, give_dests o k ranks sheet m (length before) ds = Some ds1 /\ Forall2 same_given ds1 ds2.
Proof.
  intros Ec L B. unfold scan_sheet. induction ds as [|d ds IH]; intros before ds2 Ep S; cbn in S.
  - injection S as <-. exists []. done.
  - destruct (scan_rules _ _ _ _ _ _ _ _ _ _ _ d) as [d2|] eqn:Sd; cbn in S; [|done].
    destruct (mapM _ ds) as [ds2'|] eqn:Sds; cbn in S; [|done]. injection S as <-. cbn [map] in Ep.
    assert (pes !! length before = Some (g_pe d)) as He by (by rewrite Ep, list_lookup_middle).
    set (ms ri := slot m ri (length before)).
    destruct (give_all_grows o k ranks ms (length before) m d) as (d1 & G1 & H1).
    { apply Forall_forall. intros [ri a] Hm. cbn. unfold ms. rewrite (slot_at m ri a _ (hb_nodup _ _ _ B) Hm).
      pose proof (hb_widths _ _ _ B) as W. unfold nine_wide in W. rewrite Forall_forall in W. specialize (W _ Hm). cbn in W.
      apply lookup_lt_Some in He. destruct (a !! length before) eqn:E; [done|]. apply lookup_ge_None in E. lia. }
    apply (scan_grows o k ranks ms (rules sheet) []) in Sd; [|done|intros r rj v Hr Hv; by eapply slot_scanned].
    cbn [give_dests]. rewrite G1. cbn [mbind option_bind].
    destruct (IH (before ++ [g_pe d]) ds2') as (ds1 & E1 & F); [by rewrite <- app_assoc|done|]. rewrite length_app, Nat.add_1_r in E1. cbn in E1.
    rewrite E1. cbn [mbind option_bind]. eexists. split; [done|]. constructor; [|done].
    eapply grown_same; [apply B|apply B| |done|exact Sd]. intros x Hx. by apply slot_absent.
Qed.

(** C14. Gathering through the index gives what testing every selector of every rule
    would: for up to nine destinations, when the scan is without a bad access, so is
    the gathering, and each destination gets the same declarations, custom properties
    and pending declarations, as often and with the same specificity, scope and layer. *)
Theorem gathers_what_matches o k ranks ds ds2 :
  is_Some (h !! n) -> length ds <= NS_ACCUM_SLOTS ->
  scan_sheet container_cond_matches w h scope0 sheet o k n ranks ds = Some ds2 ->
  exists ds1, gather_matches_multi container_cond_matches w h scope0 sheet o k n ds ranks = Some ds1 /\ Forall2 same_given ds1 ds2.
Proof.
  intros [d Hd] L S. destruct (candidates_total h n (ns_css_rule_index_build sheet) d Hd) as [cs Ec].
  destruct (candidates_hold container_cond_matches w h scope0 n sheet (map g_pe ds)) with (cs := cs) (m := @nil (nat * accum)) (P := fun (_ _ : nat) (_ : strength) => False) as (m & Em & B).
  - by rewrite length_map.
  - intros r s e Hr Hs C (x & -> & Hx)%list_elem_of_fmap. apply list_elem_of_lookup in Hx as [i Hx].
    pose proof (proj1 (mapM_Some _ _ _) S) as F. destruct (Forall2_lookup_l _ _ _ _ _ F Hx) as (d2 & _ & S2). apply (scan_matches _ _ _ _ _ _ _ S2) in Hr as [v Hv].
    apply rule_match_best in Hv as [_ T]. by apply T.
  - apply no_candidates_hold.
  - unfold gather_matches_multi. rewrite Ec. cbn [mbind option_bind]. rewrite Em. cbn [mbind option_bind].
    by apply (dests_scanned o k ranks (map g_pe ds) cs m Ec ltac:(by rewrite length_map) B ds []).
Qed.
End Scanned.
