(* ===== verification/GSort.v ===== *)
(** * Sorting of arrays (GLib)

    [g_array_sort] and [g_ptr_array_sort_with_data] as a class: for a comparator that
    orders the members they are put in its order. *)

From Stdlib Require Import Sorting.Sorted.
From stdpp Require Import sorting.
From S2P Require Import Prelude.

Class Sorter := { g_array_sort : forall {A}, (A -> A -> Z) -> list A -> list A }.

Record orders {A} (cmp : A -> A -> Z) (l : list A) : Prop := {
  ord_nodup : NoDup l;
  ord_sign : forall a b, a ∈ l -> b ∈ l -> a <> b -> (0 < cmp a b <-> cmp b a < 0)%Z;
  ord_trans : forall a b c, a ∈ l -> b ∈ l -> c ∈ l -> a <> b -> b <> c -> a <> c ->
    (cmp a b < 0 -> cmp b c < 0 -> cmp a c < 0)%Z;
  ord_total : forall a b, a ∈ l -> b ∈ l -> a <> b -> cmp a b <> 0%Z;
}.
Class SorterSpec `{Sorter} := {
  sort_doc : forall {A} (cmp : A -> A -> Z) (l : list A), orders cmp l ->
    g_array_sort cmp l ≡ₚ l /\ StronglySorted (fun a b => cmp a b < 0)%Z (g_array_sort cmp l);
}.

Fixpoint insert_by {A} (cmp : A -> A -> Z) (a : A) (l : list A) : list A :=
  match l with [] => [a] | b :: l' => if (cmp a b <=? 0)%Z then a :: l else b :: insert_by cmp a l' end.
Fixpoint sort_by {A} (cmp : A -> A -> Z) (l : list A) : list A :=
  match l with [] => [] | a :: l' => insert_by cmp a (sort_by cmp l') end.
#[export] Instance sorter_ref : Sorter | 100 := { g_array_sort A cmp l := sort_by cmp l }.

Lemma insert_perm {A} cmp (a : A) l : insert_by cmp a l ≡ₚ a :: l.
Proof. induction l as [|b l IH]; cbn; [done|]. destruct (_ <=? _)%Z; [done|]. rewrite IH. constructor. Qed.
Lemma sort_by_perm {A} cmp (l : list A) : sort_by cmp l ≡ₚ l.
Proof. induction l as [|a l IH]; cbn; [done|]. by rewrite insert_perm, IH. Qed.
Lemma insert_sorted {A} cmp (a : A) l : orders cmp (a :: l) ->
  StronglySorted (fun a b => cmp a b < 0)%Z l -> StronglySorted (fun a b => cmp a b < 0)%Z (insert_by cmp a l).
Proof.
  induction l as [|b l IH]; intros O S; cbn; [by repeat constructor|]. apply StronglySorted_inv in S as [S F].
  destruct O as [N Sg Tr To]. apply NoDup_cons in N as [Na N]. apply NoDup_cons in N as [Nb N]. rewrite elem_of_cons in Na.
  destruct (Z.leb_spec (cmp a b) 0) as [L|L].
  - assert (cmp a b < 0)%Z as Lt by (assert (cmp a b <> 0)%Z; [apply To; set_solver|lia]).
    constructor; [by constructor|]. constructor; [done|]. rewrite Forall_forall in F |- *. intros c Hc.
    apply (Tr a b c); [set_solver..| | | |done|by apply F]; intros ->; tauto.
  - constructor.
    + apply IH; [|done]. split; [apply NoDup_cons; split; [tauto|done]| | |].
      * intros x y Hx Hy. apply Sg; set_solver.
      * intros x y z Hx Hy Hz. apply Tr; set_solver.
      * intros x y Hx Hy. apply To; set_solver.
    + rewrite insert_perm. constructor; [|done]. apply Sg; [set_solver..| |lia]. intros ->. tauto.
Qed.
#[export] Instance sorter_ref_spec : SorterSpec.
Proof.
  split. intros A cmp l. cbn. intros O. split; [apply sort_by_perm|]. revert O. induction l as [|a l IH]; cbn; intros O; [constructor|].
  pose proof O as [N Sg Tr To]. apply NoDup_cons in N as [Na N]. apply insert_sorted.
  - assert (forall x, x ∈ a :: sort_by cmp l -> x ∈ a :: l) as In by (intros x; by rewrite sort_by_perm).
    split; [rewrite sort_by_perm; by apply NoDup_cons|..].
    + intros x y Hx%In Hy%In. by apply Sg.
    + intros x y z Hx%In Hy%In Hz%In. by apply Tr.
    + intros x y Hx%In Hy%In. by apply To.
  - apply IH. split; [done| | |].
    + intros x y Hx Hy. apply Sg; by right.
    + intros x y z Hx Hy Hz. apply Tr; by right.
    + intros x y Hx Hy. apply To; by right.
Qed.

(** ** Lists of numbers, compared from the left *)

Fixpoint key_ltb (k l : list Z) : bool :=
  match k, l with
  | x :: k', y :: l' => if (x =? y)%Z then key_ltb k' l' else (x <? y)%Z
  | _, _ => false
  end.
Lemma key_irrefl k : key_ltb k k = false.
Proof. induction k as [|x k IH]; cbn; [done|]. by rewrite Z.eqb_refl. Qed.
Lemma key_trans : forall k l m, key_ltb k l = true -> key_ltb l m = true -> key_ltb k m = true.
Proof.
  induction k as [|x k IH]; intros [|y l] [|z m]; cbn; try done.
  destruct (Z.eqb_spec x y); destruct (Z.eqb_spec y z); destruct (Z.eqb_spec x z); rewrite ?Z.ltb_lt; intros; try lia; eauto.
Qed.
Lemma key_total : forall k l, length k = length l -> k <> l -> key_ltb k l = negb (key_ltb l k).
Proof.
  induction k as [|x k IH]; intros [|y l]; cbn; try done. intros [= L] N. rewrite (Z.eqb_sym y x). destruct (Z.eqb_spec x y) as [->|Hxy].
  - apply IH; [done|congruence].
  - destruct (Z.ltb_spec x y), (Z.ltb_spec y x); cbn; lia || done.
Qed.

(** A comparator that compares keys. *)
Lemma key_orders {A} (cmp : A -> A -> Z) (key : A -> list Z) l : NoDup l ->
  (forall a b, a ∈ l -> b ∈ l -> a <> b -> cmp a b = (if key_ltb (key a) (key b) then -1 else 1)%Z /\
    key_ltb (key a) (key b) = negb (key_ltb (key b) (key a))) -> orders cmp l.
Proof.
  intros N C. split; [done|..].
  - intros a b Ha Hb D. destruct (C a b Ha Hb D) as [-> ->]. destruct (C b a Hb Ha) as [-> _]; [congruence|].
    destruct (key_ltb (key b) (key a)); cbn; lia.
  - intros a b c Ha Hb Hc D1 D2 D3. destruct (C a b Ha Hb D1) as [-> _], (C b c Hb Hc D2) as [-> _], (C a c Ha Hc D3) as [-> _].
    destruct (key_ltb (key a) (key b)) eqn:E1; [|lia]. destruct (key_ltb (key b) (key c)) eqn:E2; [|lia]. by rewrite (key_trans _ _ _ E1 E2).
  - intros a b Ha Hb D. destruct (C a b Ha Hb D) as [-> _]. by destruct (key_ltb _ _).
Qed.

Section Keyed.
Context {A : Type} (cmp : A -> A -> Z) (key : A -> list Z).
Hypothesis Compares : forall a b, cmp a b = (if key_ltb (key a) (key b) then -1 else 1)%Z.
Hypothesis Lengths : forall a b, length (key a) = length (key b).

Lemma key_inj l a b : NoDup (map key l) -> a ∈ l -> b ∈ l -> key a = key b -> a = b.
Proof.
  intros N [i Ha]%list_elem_of_lookup [j Hb]%list_elem_of_lookup E.
  assert (i = j) as ->; [|congruence]. apply (NoDup_lookup (map key l) i j (key a)); [done|..]; rewrite list_lookup_fmap; [by rewrite Ha|by rewrite Hb, E].
Qed.
Lemma keyed_orders l : NoDup (map key l) -> orders cmp l.
Proof.
  intros N. apply (key_orders cmp key); [by apply (NoDup_fmap_1 key)|]. intros a b Ha Hb D.
  split; [apply Compares|]. apply key_total; [done|]. intros E. by apply D, (key_inj l).
Qed.
(** The members in order. *)
Lemma keyed_split `{SorterSpec} l l1 e l2 : NoDup (map key l) -> g_array_sort cmp l = l1 ++ e :: l2 ->
  (forall x, x ∈ l <-> x ∈ l1 \/ x = e \/ x ∈ l2) /\ (forall x, x ∈ l1 -> key_ltb (key x) (key e) = true) /\
  (forall x, x ∈ l2 -> key_ltb (key e) (key x) = true).
Proof.
  intros N E. destruct (sort_doc cmp l (keyed_orders l N)) as [P S]. rewrite E in P, S. split; [|split].
  - intros x. rewrite <- P, elem_of_app, elem_of_cons. done.
  - intros x Hx. apply StronglySorted_app in S as (C & _ & _). specialize (C x e Hx ltac:(by left)). rewrite Compares in C.
    by destruct (key_ltb _ _).
  - intros x Hx. apply StronglySorted_app in S as (_ & _ & S). apply StronglySorted_inv in S as [_ F].
    rewrite Forall_forall in F. specialize (F x Hx). rewrite Compares in F. by destruct (key_ltb _ _).
Qed.
End Keyed.
