(* ===== verification/CascadeWins.v ===== *)
(** * The strongest declaration wins

    The comparison of matches is the order of a key read from left to right, so that
    sorting is sorting by that key, and the last declaration of a property is the one
    no other outranks. *)

From Stdlib Require Import Sorting.Sorted.
From stdpp Require Import sorting.
From S2P Require Import Prelude CStr GLib CssSyntax Xml Element DomStore Dom Selector NodeState SelMatch CssProps RuleIndex Cascade GSort CascadeFor.

(** ** Keys *)

Section Keys.
Context `{V : Css_values}.

(** From the most telling to the least: importance; origin and layer, which importance
    turns around; specificity; nearness of the scope; order. *)
Definition source_key (imp : bool) (s : source) : list Z :=
  let turn x := if imp then (- x)%Z else x in
  [turn (origin_no (origin s)); turn (layer_order s); (m_spec s).1.1; (m_spec s).1.2; (m_spec s).2; scope_order s; sheet_index s; m_source_order s].
Definition rank (m : match_entry) : list Z :=
  (if important m then 1 else 0)%Z :: source_key (important m) (m_src m) ++ [decl_order m].

Lemma then_by_key a b k l rest : rest = (if key_ltb k l then -1 else 1)%Z ->
  then_by a b rest = (if key_ltb (a :: k) (b :: l) then -1 else 1)%Z.
Proof. intros ->. unfold then_by. cbn. destruct (a =? b)%Z; [done|]. by destruct (a <? b)%Z. Qed.
Lemma turned_key imp a b k l rest : rest = (if key_ltb k l then -1 else 1)%Z ->
  (if (a =? b)%Z then rest else if (imp : bool) then if (b <? a)%Z then -1 else 1 else if (a <? b)%Z then -1 else 1)%Z =
  (if key_ltb ((if imp then - a else a) :: k) ((if imp then - b else b) :: l) then -1 else 1)%Z.
Proof.
  intros ->. cbn. destruct imp.
  - destruct (Z.eqb_spec a b) as [->|N]; [by rewrite Z.eqb_refl|]. destruct (Z.eqb_spec (- a) (- b)); [lia|].
    destruct (Z.ltb_spec b a), (Z.ltb_spec (- a) (- b)); lia || done.
  - destruct (a =? b)%Z; [done|]. by destruct (a <? b)%Z.
Qed.
Lemma layer_cmp_eq a b imp rest :
  (let c := css_layer_cmp a b imp in if negb (c =? 0)%Z then c else rest) =
  (if (a =? b)%Z then rest else if imp then if (b <? a)%Z then -1 else 1 else if (a <? b)%Z then -1 else 1)%Z.
Proof. unfold css_layer_cmp. cbn. repeat case_match; done. Qed.

Lemma source_cmp_key imp a b k l rest : rest = (if key_ltb k l then -1 else 1)%Z ->
  source_cmp imp a b rest = (if key_ltb (source_key imp a ++ k) (source_key imp b ++ l) then -1 else 1)%Z.
Proof.
  intros E. unfold source_cmp, source_key. destruct (m_spec a) as [[a1 a2] a3], (m_spec b) as [[b1 b2] b3]. cbn [app fst snd].
  rewrite <- (turned_key imp (origin_no (origin a)) (origin_no (origin b)) _ _ _ eq_refl), if_negb.
  rewrite layer_cmp_eq. rewrite <- (turned_key imp (layer_order a) (layer_order b) _ _ _ eq_refl).
  destruct (_ =? _)%Z; [|done]. destruct (layer_order a =? layer_order b)%Z; [|done]. by repeat apply then_by_key.
Qed.
Lemma match_cmp_rank a b : match_cmp a b = (if key_ltb (rank a) (rank b) then -1 else 1)%Z.
Proof.
  unfold match_cmp, rank. destruct (important a) eqn:Ia, (important b) eqn:Ib; try done; cbn [negb Bool.eqb];
  rewrite (source_cmp_key _ _ _ [decl_order a] [decl_order b]).
  all: first [by cbn|cbn; by destruct (Z.eqb_spec (decl_order a) (decl_order b)) as [->|]; rewrite ?Z.ltb_irrefl].
Qed.
End Keys.

(** ** The last declaration of a property *)

Section Wins.
Context `{V : Css_values} `{So : SorterSpec}.

Abbreviation values := (ns_css_prop -> option ns_css_value).

Lemma rank_inj l a b : NoDup (map rank l) -> a ∈ l -> b ∈ l -> rank a = rank b -> a = b.
Proof. apply key_inj. Qed.
Lemma match_orders l : NoDup (map rank l) -> orders match_cmp l.
Proof. by apply (keyed_orders match_cmp rank match_cmp_rank (fun _ _ => eq_refl)). Qed.
(** The matches in order. *)
Lemma sorted_split l l1 e l2 : NoDup (map rank l) -> g_array_sort match_cmp l = l1 ++ e :: l2 ->
  (forall x, x ∈ l <-> x ∈ l1 \/ x = e \/ x ∈ l2) /\ (forall x, x ∈ l1 -> key_ltb (rank x) (rank e) = true) /\
  (forall x, x ∈ l2 -> key_ltb (rank e) (rank x) = true).
Proof. by apply (keyed_split match_cmp rank match_cmp_rank (fun _ _ => eq_refl)). Qed.

Lemma apply_none l : forall before out p, (forall x, x ∈ l -> prop x <> p) -> apply_matches before l out p = out p.
Proof.
  induction l as [|m l IH]; intros before out p N; [done|]. cbn [apply_matches]. rewrite IH by (intros x Hx; apply N; by right).
  unfold set_value. rewrite bool_decide_eq_false_2; [done|]. intros E. apply (N m); [by left|done].
Qed.
Lemma apply_last l1 m l2 p : forall before out, prop m = p -> (forall x, x ∈ l2 -> prop x <> p) ->
  apply_matches before (l1 ++ m :: l2) out p = value_at (rev l1 ++ before) m.
Proof.
  induction l1 as [|a l1 IH]; intros before out E N; cbn [app apply_matches].
  - rewrite apply_none by done. unfold set_value. by rewrite bool_decide_eq_true_2.
  - rewrite IH by done. cbn [rev]. by rewrite <- app_assoc.
Qed.

Lemma physical_total ax l : (exists kw, ax.1 = writing_mode_code kw) -> exists l', mapM (to_physical ax) l = Some l'.
Proof.
  intros [kw E]. apply mapM_is_Some, Forall_forall. intros m _. cbn. unfold to_physical. rewrite E.
  destruct (resolves_spec _ _ (all_resolve kw ax.2) (prop m)) as (q & -> & _). by eexists.
Qed.
Definition physical_as (ax : Z * bool) (m m' : match_entry) : Prop :=
  logical_to_physical (prop m) ax.1 ax.2 = Some (prop m') /\ m_src m' = m_src m /\ value m' = value m.
Lemma physical_each ax l l' : mapM (to_physical ax) l = Some l' -> Forall2 (physical_as ax) l l'.
Proof.
  intros Hm%mapM_Some. eapply Forall2_impl; [exact Hm|]. intros m m' E. unfold to_physical in E.
  destruct (logical_to_physical _ _ _) as [q|] eqn:Eq; [|done]. injection E as <-. done.
Qed.

(** What a property is computed to, given what is declared for it. *)
Definition computed (parent : option values) (p : ns_css_prop) (v : option ns_css_value) : option ns_css_value :=
  let of_parent := match parent with Some s => s p | None => None end in
  let unset := if ns_css_prop_inherited (Z.of_nat (prop_number p)) then of_parent else None in
  match v with
  | None => unset
  | Some v => if value_is_inherit v then of_parent else if value_is_initial v then None else if value_is_unset v then unset else Some v
  end.
Lemma computed_spec parent out p : inherit_rest parent (explicit_initial out) (wide_value parent out) p = computed parent p (out p).
Proof.
  unfold inherit_rest, wide_value, explicit_initial, computed. destruct (ns_css_prop_inherited _), parent as [s|], (out p) as [v|]; cbn; try done.
  all: try destruct (value_is_inherit v), (value_is_initial v), (value_is_unset v); cbn; try done; by destruct (s p).
Qed.

(** [e] declares the property [p]. *)
Definition declares (matches : list match_entry) (parent : option values) (p : ns_css_prop) (e : match_entry) : Prop :=
  e ∈ matches /\ let ax := axes (g_array_sort match_cmp matches) parent in logical_to_physical (prop e) ax.1 ax.2 = Some p.
Definition outranks (e e' : match_entry) : Prop := key_ltb (rank e') (rank e) = true.
Definition strongest_of (D : match_entry -> Prop) (e : match_entry) : Prop := D e /\ forall e', D e' -> e' <> e -> outranks e e'.

Lemma values_run matches parent : exists physical s,
  Forall2 (physical_as (axes (g_array_sort match_cmp matches) parent)) (g_array_sort match_cmp matches) physical /\
  cascade_values matches (fun _ => None) parent = Some s /\
  forall p, s p = computed parent p (apply_matches [] physical (fun _ => None) p).
Proof.
  destruct (physical_total (axes (g_array_sort match_cmp matches) parent) (g_array_sort match_cmp matches)) as [l E]; [by eexists|].
  exists l. eexists. split; [by apply physical_each|]. unfold cascade_values. rewrite E. split; [done|]. intros p. apply computed_spec.
Qed.

(** The place of the strongest declaration of [p]. *)
Lemma strongest_last matches parent p e physical : NoDup (map rank matches) -> strongest_of (declares matches parent p) e ->
  Forall2 (physical_as (axes (g_array_sort match_cmp matches) parent)) (g_array_sort match_cmp matches) physical ->
  exists l1 e' l2 k1 k2, g_array_sort match_cmp matches = k1 ++ e :: k2 /\ physical = l1 ++ e' :: l2 /\
    Forall2 (physical_as (axes (g_array_sort match_cmp matches) parent)) k1 l1 /\
    prop e' = p /\ m_src e' = m_src e /\ value e' = value e /\
    apply_matches [] physical (fun _ => None) p = value_at (rev l1) e'.
Proof.
  intros N [[He Hp] B] F. assert (e ∈ g_array_sort match_cmp matches) as Hs.
  { by rewrite (proj1 (sort_doc match_cmp matches (match_orders matches N))). }
  apply list_elem_of_split in Hs as (k1 & k2 & E). destruct (sorted_split _ _ _ _ N E) as (In & _ & A).
  rewrite E in F. apply Forall2_app_inv_l in F as (l1 & l2' & F1 & F2 & ->). apply Forall2_cons_inv_l in F2 as (e' & l2 & (Pe & Se & Ve) & F2 & ->).
  rewrite <- E in *. assert (prop e' = p) as Ep by congruence. exists l1, e', l2, k1, k2. split_and!; try done.
  rewrite (apply_last l1 e' l2 p [] _ Ep); [by rewrite app_nil_r|]. intros x' Hx Ex.
  apply list_elem_of_lookup in Hx as [i Hx]. destruct (Forall2_lookup_r _ _ _ _ _ F2 Hx) as (x & Hk & Px & _).
  apply list_elem_of_lookup_2 in Hk as Hk2. pose proof (A x Hk2) as Hax.
  assert (x <> e) as Hne by (intros ->; by rewrite key_irrefl in Hax).
  assert (declares matches parent p x) as D by (split; [apply In; auto|cbv zeta; congruence]). apply B in D; [|done]. unfold outranks in D.
  pose proof (key_trans _ _ _ D Hax) as C. by rewrite key_irrefl in C.
Qed.

(** A test of strength for finitely many matches. *)
Lemma strongest_by (D : match_entry -> Prop) (d : match_entry -> bool) l e : NoDup (map rank l) -> (forall x, D x <-> x ∈ l /\ d x = true) ->
  e ∈ l -> d e = true -> forallb (fun x => negb (d x) || key_ltb (rank x) (rank e) || bool_decide (rank x = rank e)) l = true -> strongest_of D e.
Proof.
  intros N E He De F. split; [by apply E|]. intros x [Hx Dx]%E Hne. rewrite forallb_forall in F. specialize (F x ltac:(by apply list_elem_of_In)).
  rewrite Dx in F. cbn in F. apply orb_true_iff in F as [F|F%bool_decide_eq_true]; [done|]. destruct Hne. by apply (rank_inj l).
Qed.

(** C13. For each property the strongest declaration wins: the value of a declaration
    that outranks every other of the same property - important before not, then
    origin, layer, specificity, scope and order, logical properties read as the
    physical ones they stand for - is what the element gets, the wide keywords put
    against its parent; and a property no declaration sets is inherited or left. *)
Theorem strongest_declaration_wins matches parent : NoDup (map rank matches) ->
  exists s, cascade_values matches (fun _ => None) parent = Some s /\ forall p,
    ((forall e, ~ declares matches parent p e) -> s p = computed parent p None) /\
    (forall e, strongest_of (declares matches parent p) e -> reverts (value e) = false -> s p = computed parent p (Some (value e))).
Proof.
  intros N. destruct (values_run matches parent) as (physical & s & F & Es & C). exists s. split; [done|]. intros p. rewrite C. split.
  - intros D. rewrite apply_none; [done|]. intros x' [i Hx]%list_elem_of_lookup Ex. destruct (Forall2_lookup_r _ _ _ _ _ F Hx) as (x & Hk & Px & _).
    apply (D x). split; [|cbv zeta; congruence]. apply list_elem_of_lookup_2 in Hk. revert Hk.
    by rewrite (proj1 (sort_doc match_cmp matches (match_orders matches N))).
  - intros e B R. destruct (strongest_last _ _ _ _ _ N B F) as (l1 & e' & l2 & k1 & k2 & _ & _ & _ & _ & _ & Ve & ->).
    unfold value_at. by rewrite Ve, R.
Qed.

(** ** Rolling back *)

Lemma rollback_none before e : (forall x, x ∈ before -> prop x = prop e -> rolled_over e x = true) -> cascade_rollback_value before e = None.
Proof.
  induction before as [|x before IH]; intros S; [done|]. cbn [cascade_rollback_value].
  destruct (bool_decide_reflect (prop x = prop e)) as [E|_]; cbn [negb orb]; [rewrite (S x) by (done || by left)|]; apply IH; intros y Hy; apply S; by right.
Qed.
Lemma rollback_first b1 u b2 e : (forall x, x ∈ b1 -> prop x = prop e -> rolled_over e x = true) ->
  prop u = prop e -> rolled_over e u = false -> reverts (value u) = false -> cascade_rollback_value (b1 ++ u :: b2) e = Some (value u).
Proof.
  intros S Eu Ou Ru. induction b1 as [|x b1 IH]; cbn [app cascade_rollback_value].
  - rewrite bool_decide_eq_true_2 by done. cbn [negb orb]. by rewrite Ou, Ru.
  - destruct (bool_decide_reflect (prop x = prop e)) as [E|_]; cbn [negb orb]; [rewrite (S x) by (done || by left)|]; apply IH; intros y Hy; apply S; by right.
Qed.

(** A declaration below [e] that [revert] does not pass over. *)
Definition falls_to (matches : list match_entry) (parent : option values) (p : ns_css_prop) (e u : match_entry) : Prop :=
  declares matches parent p u /\ outranks e u /\ rolled_over e u = false.

Lemma falls_back matches parent p e u k1 k2 l1 e' : NoDup (map rank matches) ->
  g_array_sort match_cmp matches = k1 ++ e :: k2 -> Forall2 (physical_as (axes (g_array_sort match_cmp matches) parent)) k1 l1 ->
  prop e' = p -> m_src e' = m_src e -> value e' = value e ->
  strongest_of (falls_to matches parent p e) u -> reverts (value u) = false -> cascade_rollback_value (rev l1) e' = Some (value u).
Proof.
  intros N E F Pe Se Ve [([Hu Pu] & Ou & Ru) B] R.
  assert (forall x x', physical_as (axes (g_array_sort match_cmp matches) parent) x x' -> rolled_over e' x' = rolled_over e x) as Ro.
  { intros x x' (_ & Sx & _). unfold rolled_over. by rewrite Se, Ve, Sx. }
  destruct (sorted_split _ _ _ _ N E) as (In & Be & A).
  assert (u ∈ k1) as [j1 [j2 ->]]%list_elem_of_split.
  { apply In in Hu as [Hu|[->|Hu]]; [done|unfold outranks in Ou; by rewrite key_irrefl in Ou|]. apply A in Hu. pose proof (key_trans _ _ _ Ou Hu) as C. by rewrite key_irrefl in C. }
  apply Forall2_app_inv_l in F as (m1 & l2' & F1 & F2 & ->). apply Forall2_cons_inv_l in F2 as (u' & m2 & Q & F2 & ->).
  rewrite rev_app_distr. cbn [rev]. rewrite <- app_assoc. cbn [app]. pose proof Q as (Qp & Qs & Qv). rewrite <- Qv. apply rollback_first.
  - intros x' Hx Ex. apply list_elem_of_In, in_rev, list_elem_of_In, list_elem_of_lookup in Hx as [i Hx]. destruct (Forall2_lookup_r _ _ _ _ _ F2 Hx) as (x & Hk & Q').
    apply list_elem_of_lookup_2 in Hk. rewrite (Ro x x' Q'). destruct (rolled_over e x) eqn:Rx; [done|exfalso].
    rewrite <- app_assoc in E. cbn [app] in E. destruct (sorted_split _ _ _ _ N E) as (_ & _ & Au).
    assert (key_ltb (rank u) (rank x) = true) as Hux by (apply Au; apply elem_of_app; by left).
    assert (x <> u) as Hne by (intros ->; by rewrite key_irrefl in Hux).
    assert (outranks u x) as Hxu; [|pose proof (key_trans _ _ _ Hux Hxu) as C; by rewrite key_irrefl in C].
    apply B; [|done]. split; [split; [apply In; left; rewrite elem_of_app, elem_of_cons; auto|]|split; [|done]].
    + destruct Q' as (Px & _). cbv zeta. congruence.
    + apply Be. rewrite elem_of_app, elem_of_cons; auto.
  - cbv zeta in Pu. congruence.
  - by rewrite (Ro u u').
  - by rewrite Qv.
Qed.

(** C28. Rolling back: a winning [revert], [revert-layer] or [revert-rule] gives the
    property the value of the strongest weaker declaration it does not pass over, and
    what the property would be undeclared when there is none. *)
Theorem revert_rolls_back matches parent : NoDup (map rank matches) ->
  exists s, cascade_values matches (fun _ => None) parent = Some s /\ forall p e,
    strongest_of (declares matches parent p) e -> reverts (value e) = true ->
    ((forall u, ~ falls_to matches parent p e u) -> s p = computed parent p None) /\
    (forall u, strongest_of (falls_to matches parent p e) u -> reverts (value u) = false -> s p = computed parent p (Some (value u))).
Proof.
  intros N. destruct (values_run matches parent) as (physical & s & F & Es & C). exists s. split; [done|]. intros p e B R. rewrite C.
  destruct (strongest_last _ _ _ _ _ N B F) as (l1 & e' & l2 & k1 & k2 & E & _ & F1 & Pe & Se & Ve & ->). unfold value_at. rewrite Ve, R. split.
  - intros D. rewrite rollback_none; [done|]. intros x' Hx Ex. apply list_elem_of_In, in_rev, list_elem_of_In, list_elem_of_lookup in Hx as [i Hx].
    destruct (Forall2_lookup_r _ _ _ _ _ F1 Hx) as (x & Hk & Px & Sx & _). apply list_elem_of_lookup_2 in Hk.
    assert (rolled_over e' x' = rolled_over e x) as -> by (unfold rolled_over; by rewrite Se, Ve, Sx).
    destruct (rolled_over e x) eqn:Rx; [done|]. destruct (D x). destruct (sorted_split _ _ _ _ N E) as (In & Be & _).
    split; [split; [apply In; by left|cbv zeta; congruence]|]. split; [by apply Be|done].
  - intros u Hu Ru. by rewrite (falls_back matches parent p e u k1 k2 l1 e' N E F1 Pe Se Ve Hu Ru).
Qed.
End Wins.
