(* ===== verification/CssLayers.v ===== *)
(** * Layers ([src/css.c])

    The layers of the sheets, in the order in which they are first named, and the ranks
    they get: sibling layers in that order, and a layer after the layers inside it. *)

From Stdlib Require Import Sorting.Sorted.
From stdpp Require Import sorting.
From S2P Require Import Prelude CStr GLib SelMatch RuleIndex Cascade GSort.

(** ** Registering *)

(** The fields of a sheet: [layer_names], and [layers] with ranks plus one. *)
Record layer_state := { layer_list : list bytes; layers : gmap bytes Z }.
Definition css_layer_register (sh : layer_state) (nm : bytes) : layer_state * Z :=
  match nm with
  | [] => (sh, NS_CSS_LAYER_NONE)
  | _ =>
      match layers sh !! nm with
      | Some v => (sh, v - 1)%Z
      | None =>
          let rank := Z.of_nat (length (layer_list sh)) in
          ({| layer_list := layer_list sh ++ [nm]; layers := <[nm := (rank + 1)%Z]> (layers sh) |}, rank)
      end
  end.
Definition css_layer_join (parent child : option bytes) : option bytes :=
  match named parent with
  | None => child
  | Some p => match named child with None => Some p | Some c => Some (p ++ $"." ++ c) end
  end.

(** ** Ranks *)

Abbreviation ranks := (gmap bytes Z).

Section Ranks.
Context `{V : Css_values} {So : Sorter}.

Fixpoint add_names (l : list bytes) (layer_ranks : ranks) : ranks :=
  match l with
  | [] => layer_ranks
  | nm :: l' =>
      add_names l' (match layer_ranks !! nm with
                    | Some _ => layer_ranks
                    | None => <[nm := (Z.of_nat (size layer_ranks) + 1)%Z]> layer_ranks
                    end)
  end.
Definition css_layer_rank_add_sheet (layer_ranks : ranks) (sheet : ns_css_stylesheet) : ranks := add_names (layer_names sheet) layer_ranks.

(** The parts of a name between its dots, and its beginnings up to each dot. *)
Fixpoint parts_from (acc s : bytes) : list bytes :=
  match s with [] => [acc] | c :: s' => if c =c "." then acc :: parts_from [] s' else parts_from (acc ++ [c]) s' end.
Definition name_parts (s : bytes) : list bytes := parts_from [] s.
Fixpoint prefixes_from (pre : bytes) (l : list bytes) : list bytes :=
  match l with [] => [] | x :: l' => (pre ++ x) :: prefixes_from (pre ++ x ++ $".") l' end.
Definition name_prefixes (s : bytes) : list bytes := prefixes_from [] (name_parts s).

Definition note_prefix (index : Z) (first : ranks) (prefix : bytes) : ranks :=
  match first !! prefix with
  | Some prev => if (prev - 1 <=? index)%Z then first else <[prefix := (index + 1)%Z]> first
  | None => <[prefix := (index + 1)%Z]> first
  end.
Definition css_layer_prefix_note (first : ranks) (nm : bytes) (index : Z) : ranks := fold_left (note_prefix index) (name_prefixes nm) first.
Definition css_layer_first_index (first : ranks) (prefix : bytes) : Z :=
  match first !! prefix with Some v => (v - 1)%Z | None => INT_MAX end.

(** [strcmp]: bytes are compared as unsigned. *)
Fixpoint strcmp (a b : bytes) : Z :=
  match a, b with
  | [], [] => 0
  | [], _ => -1
  | _, [] => 1
  | x :: a', y :: b' =>
      let i := Z.of_nat (nat_of_ascii x) in
      let j := Z.of_nat (nat_of_ascii y) in
      if (i =? j)%Z then strcmp a' b' else if (i <? j)%Z then -1 else 1
  end%Z.
(** The loop over the parts of both names; [pa] and [pb] are what precedes them. *)
Fixpoint name_cmp_loop (first : ranks) (a b pa pb : bytes) (la lb : list bytes) : Z :=
  match la, lb with
  | x :: la', y :: lb' =>
      if bool_decide (x = y) then
        match la', lb' with
        | [], [] => 0
        | [], _ => 1
        | _, [] => -1
        | _, _ => name_cmp_loop first a b (pa ++ x ++ $".") (pb ++ y ++ $".") la' lb'
        end
      else
        let ai := css_layer_first_index first (pa ++ x) in
        let bi := css_layer_first_index first (pb ++ y) in
        if negb (ai =? bi)%Z then if (ai <? bi)%Z then -1 else 1 else strcmp a b
  | _, _ => 0
  end%Z.
Definition css_layer_name_cmp (first : ranks) (a b : bytes) : Z := name_cmp_loop first a b [] [] (name_parts a) (name_parts b).

Definition first_indices (layer_ranks : ranks) : ranks :=
  fold_left (fun first x => css_layer_prefix_note first x.1 (x.2 - 1)) (map_to_list layer_ranks) ∅.
Fixpoint number_names (i : Z) (l : list bytes) (t : ranks) : ranks :=
  match l with [] => t | nm :: l' => number_names (i + 1) l' (<[nm := (i + 1)%Z]> t) end.
Definition css_layer_ranks_finalize (layer_ranks : ranks) : ranks :=
  if size layer_ranks =? 0 then layer_ranks
  else
    let first := first_indices layer_ranks in
    number_names 0 (g_array_sort (css_layer_name_cmp first) (map fst (map_to_list first))) ∅.
(** The ranks of the layers of all sheets. *)
Definition layer_ranks_of (sheets : list ns_css_stylesheet) : ranks :=
  css_layer_ranks_finalize (fold_left css_layer_rank_add_sheet sheets ∅).
End Ranks.

(** ** Names and their parts *)

Section Names.

Fixpoint join (l : list bytes) : bytes :=
  match l with [] => [] | x :: l' => match l' with [] => x | _ => x ++ $"." ++ join l' end end.
Definition dotless (x : bytes) : Prop := "."%char ∉ x.

Lemma parts_app acc x s : dotless x -> parts_from acc (x ++ s) = parts_from (acc ++ x) s.
Proof.
  unfold dotless. revert acc. induction x as [|c x IH]; intros acc D; cbn [app parts_from]; [by rewrite app_nil_r|]. rewrite elem_of_cons in D.
  destruct (Ascii.eqb_spec c ".") as [->|_]; [tauto|]. rewrite IH by tauto. by rewrite <- app_assoc.
Qed.
Lemma parts_join l : l <> [] -> Forall dotless l -> name_parts (join l) = l.
Proof.
  unfold name_parts. induction l as [|x l IH]; intros N D; [done|]. apply Forall_cons in D as [Dx D]. destruct l as [|y l].
  - cbn [join]. rewrite <- (app_nil_r x) at 1. by rewrite parts_app.
  - change (join (x :: y :: l)) with (x ++ $"." ++ join (y :: l)). rewrite parts_app by done. change ($"." ++ join (y :: l)) with ("."%char :: join (y :: l)).
    cbn [parts_from app Ascii.eqb Bool.eqb]. by rewrite IH.
Qed.
Lemma parts_some acc s : parts_from acc s <> [].
Proof. revert acc. induction s as [|c s IH]; intros acc; cbn; [done|]. by destruct (c =c "."). Qed.
Lemma join_parts s : forall acc, join (parts_from acc s) = acc ++ s.
Proof.
  induction s as [|c s IH]; intros acc; cbn [parts_from]; [by rewrite app_nil_r|]. destruct (Ascii.eqb_spec c ".") as [->|_]; [|by rewrite IH, <- app_assoc].
  cbn [join]. pose proof (parts_some [] s). destruct (parts_from [] s) eqn:E; [done|]. rewrite <- E, IH. done.
Qed.
Lemma parts_dotless s : forall acc, dotless acc -> Forall dotless (parts_from acc s).
Proof.
  unfold dotless. induction s as [|c s IH]; intros acc D; cbn [parts_from]; [by repeat constructor|]. destruct (Ascii.eqb_spec c ".") as [_|N].
  - constructor; [done|]. apply IH. apply not_elem_of_nil.
  - apply IH. rewrite elem_of_app, elem_of_cons. intros [?|[E|?%not_elem_of_nil]]; [done| |done]. by apply N.
Qed.
Lemma name_dotless s : Forall dotless (name_parts s).
Proof. apply parts_dotless, not_elem_of_nil. Qed.
Lemma join_name s : join (name_parts s) = s.
Proof. apply join_parts. Qed.
Lemma parts_inj a b : name_parts a = name_parts b -> a = b.
Proof. intros E. by rewrite <- (join_name a), E, join_name. Qed.

(** The prefixes are the beginnings of the list of parts. *)
Lemma prefix_spec l : forall pre p, p ∈ prefixes_from pre l <-> exists l1 l2, l = l1 ++ l2 /\ l1 <> [] /\ p = pre ++ join l1.
Proof.
  induction l as [|x l IH]; intros pre p; cbn [prefixes_from].
  - split; [by intros ?%not_elem_of_nil|]. intros ([|? ?] & l2 & E & N & _); [done|done].
  - rewrite elem_of_cons, IH. split.
    + intros [->|(l1 & l2 & -> & N & ->)]; [by exists [x], l|]. exists (x :: l1), l2. split; [done|]. split; [done|].
      destruct l1; [done|]. cbn [join]. by rewrite <- !app_assoc.
    + intros ([|y [|z l1]] & l2 & E & N & ->); [done|by left; injection E as -> _|]. injection E as <- ->. right. exists (z :: l1), l2.
      split; [done|]. split; [done|]. cbn [join]. by rewrite <- !app_assoc.
Qed.
Lemma name_prefix_spec s p : p ∈ name_prefixes s <-> exists r, name_parts s = name_parts p ++ r.
Proof.
  unfold name_prefixes. rewrite prefix_spec. split.
  - intros (l1 & l2 & E & N & ->). exists l2. cbn [app]. rewrite parts_join; [done|done|]. pose proof (name_dotless s) as D. rewrite E in D.
    by apply Forall_app in D as [D _].
  - intros [r E]. exists (name_parts p), r. split; [done|]. split; [apply parts_some|]. by rewrite join_name.
Qed.
Lemma prefix_refl s : s ∈ name_prefixes s.
Proof. apply name_prefix_spec. exists []. by rewrite app_nil_r. Qed.
Lemma prefix_trans p q s : p ∈ name_prefixes q -> q ∈ name_prefixes s -> p ∈ name_prefixes s.
Proof. rewrite !name_prefix_spec. intros [r E] [r' E']. exists (r ++ r'). by rewrite E', E, app_assoc. Qed.
End Names.

(** ** The tables *)

Section Tables.

(** Ranks are numbers from one, each given once. *)
Record numbered (t : ranks) : Prop := {
  num_range : forall nm v, t !! nm = Some v -> (1 <= v <= Z.of_nat (size t))%Z;
  num_inj : forall a b v, t !! a = Some v -> t !! b = Some v -> a = b;
}.
Lemma add_numbered l : forall t, numbered t -> numbered (add_names l t).
Proof.
  induction l as [|nm l IH]; intros t N; cbn [add_names]; [done|]. apply IH. destruct (t !! nm) eqn:E; [done|]. destruct N as [R I].
  split.
  - intros a v. rewrite map_size_insert_None by done. destruct (decide (a = nm)) as [->|Hne].
    + rewrite lookup_insert_eq. intros [= <-]. lia.
    + rewrite lookup_insert_ne by done. intros H%R. lia.
  - intros a b v. destruct (decide (a = nm)) as [->|Ha], (decide (b = nm)) as [->|Hb]; rewrite ?lookup_insert_eq, ?lookup_insert_ne by done; try done.
    + intros [= <-] H%R. lia.
    + intros H%R [= <-]. lia.
    + apply I.
Qed.

(** The first index over some prefixes with indices plus one. *)
Definition firsts (F : ranks) (events : list (bytes * Z)) : Prop := forall p,
  match F !! p with
  | None => forall v, (p, v) ∉ events
  | Some v => (p, v) ∈ events /\ forall u, (p, u) ∈ events -> (v <= u)%Z
  end.
Lemma note_firsts F events p i : firsts F events -> firsts (note_prefix i F p) ((p, i + 1)%Z :: events).
Proof.
  intros H q. specialize (H q). unfold note_prefix. destruct (F !! p) as [prev|] eqn:E.
  - destruct (Z.leb_spec (prev - 1) i) as [L|L].
    + destruct (F !! q) as [v|] eqn:Eq.
      * destruct H as [H1 H2]. split; [by right|]. intros u [[= -> ->]|Hu]%elem_of_cons; [|by apply H2]. rewrite E in Eq. injection Eq as ->. lia.
      * intros v [[= -> ->]|Hv]%elem_of_cons; [congruence|by apply (H v)].
    + destruct (decide (p = q)) as [->|Hne].
      * rewrite lookup_insert_eq, E in *. destruct H as [H1 H2]. split; [by left|]. intros u [[= ->]|Hu]%elem_of_cons; [lia|]. apply H2 in Hu. lia.
      * rewrite lookup_insert_ne by done. destruct (F !! q) as [v|]; [|intros v [[= <- ->]|Hv]%elem_of_cons; [done|by apply (H v)]].
        destruct H as [H1 H2]. split; [by right|]. intros u [[= <- ->]|Hu]%elem_of_cons; [done|by apply H2].
  - destruct (decide (p = q)) as [->|Hne].
    + rewrite lookup_insert_eq, E in *. split; [by left|]. intros u [[= ->]|Hu]%elem_of_cons; [lia|]. by apply H in Hu.
    + rewrite lookup_insert_ne by done. destruct (F !! q) as [v|]; [|intros v [[= <- ->]|Hv]%elem_of_cons; [done|by apply (H v)]].
      destruct H as [H1 H2]. split; [by right|]. intros u [[= <- ->]|Hu]%elem_of_cons; [done|by apply H2].
Qed.
Lemma notes_firsts i l : forall F events, firsts F events ->
  exists events', firsts (fold_left (note_prefix i) l F) events' /\ forall x, x ∈ events' <-> x ∈ events \/ (x.1 ∈ l /\ x.2 = (i + 1)%Z).
Proof.
  induction l as [|p l IH]; intros F events H; cbn [fold_left].
  - exists events. split; [done|]. intros x. split; [by left|]. intros [?|[?%not_elem_of_nil _]]; done.
  - destruct (IH _ _ (note_firsts F events p i H)) as (events' & H' & E). exists events'. split; [done|]. intros [q v]. rewrite E. cbn [fst snd].
    rewrite !elem_of_cons. split; [intros [[[= -> ->]|?]|?]; tauto|intros [?|[[->|?] ->]]; tauto].
Qed.
Lemma all_firsts l : forall F events, firsts F events ->
  exists events', firsts (fold_left (fun first x => css_layer_prefix_note first x.1 (x.2 - 1)) l F) events' /\
    forall p v, (p, v) ∈ events' <-> (p, v) ∈ events \/ exists nm, (nm, v) ∈ l /\ p ∈ name_prefixes nm.
Proof.
  induction l as [|[nm v] l IH]; intros F events H; cbn [fold_left].
  - exists events. split; [done|]. intros p v. split; [by left|]. intros [?|(nm & ?%not_elem_of_nil & _)]; done.
  - destruct (notes_firsts (v - 1) (name_prefixes nm) F events H) as (e1 & H1 & E1). destruct (IH _ e1 H1) as (e2 & H2 & E2).
    exists e2. split; [done|]. intros p u. rewrite E2, E1. cbn [fst snd]. split.
    + intros [[?|[Hp ->]]|(k & Hk & Hp)]; [by left| |right; exists k; split; [by right|done]]. right. exists nm. split; [|done].
      replace (v - 1 + 1)%Z with v by lia. by left.
    + intros [?|(k & Hk & Hp)]; [tauto|]. apply elem_of_cons in Hk as [[= -> ->]|Hk]; [|right; eauto]. left; right. split; [done|lia].
Qed.
(** [v] is the rank, plus one, of the first layer at or inside [p]. *)
Definition first_at (t : ranks) (p : bytes) (v : Z) : Prop :=
  (exists nm, t !! nm = Some v /\ p ∈ name_prefixes nm) /\ forall nm u, t !! nm = Some u -> p ∈ name_prefixes nm -> (v <= u)%Z.
Lemma first_indices_spec t p v : first_indices t !! p = Some v <-> first_at t p v.
Proof.
  destruct (all_firsts (map_to_list t) ∅ []) as (events & H & E).
  { intros q. rewrite lookup_empty. intros v'. apply not_elem_of_nil. }
  assert (forall q u, (q, u) ∈ events <-> exists nm, t !! nm = Some u /\ q ∈ name_prefixes nm) as E'.
  { intros q u. rewrite E. split.
    - intros [?%not_elem_of_nil|(nm & Hn%elem_of_map_to_list & Hp)]; [done|eauto].
    - intros (nm & Hn & Hp). right. exists nm. by rewrite elem_of_map_to_list. }
  specialize (H p). fold (first_indices t) in H. unfold first_at. destruct (first_indices t !! p) as [w|] eqn:Ew.
  - destruct H as [H1 H2]. split.
    + intros [= <-]. split; [by apply E'|]. intros nm u Hu Hp. apply H2, E'. eauto.
    + intros [V M]. f_equal. apply E' in H1 as (nm & Hn & Hp). apply (M nm w Hn) in Hp as L1. apply E', H2 in V. lia.
  - split; [done|]. intros [V _]. apply E' in V. by apply H in V.
Qed.
End Tables.

(** ** The order of names *)

Section Order.
Context (t : ranks) (N : numbered t).
Abbreviation first := (first_indices t).
Abbreviation idx := (css_layer_first_index first).

(** The first ranks of what contains a name, the outermost first, and an end behind
    every rank. *)
Definition path_key (pre : bytes) (l : list bytes) : list Z := map idx (prefixes_from pre l) ++ [Z.of_nat (size t)].
Definition name_key (s : bytes) : list Z := path_key [] (name_parts s).

Lemma first_some s p : p ∈ name_prefixes s -> is_Some (first !! s) -> is_Some (first !! p).
Proof.
  intros Hp [v [(nm & Hn & Hs) _]%first_indices_spec].
  destruct (first !! p) as [w|] eqn:E; [eauto|exfalso].
  destruct (all_firsts (map_to_list t) ∅ []) as (events & H & Ev).
  { intros q. rewrite lookup_empty. intros v'. apply not_elem_of_nil. }
  specialize (H p). fold (first_indices t) in H. rewrite E in H. apply (H v), Ev. right. exists nm. rewrite elem_of_map_to_list.
  split; [done|by eapply prefix_trans].
Qed.
Lemma idx_range p : is_Some (first !! p) -> (0 <= idx p < Z.of_nat (size t))%Z.
Proof.
  intros [v E]. unfold css_layer_first_index. rewrite E. apply first_indices_spec in E as [(nm & Hn & _) _]. apply (num_range t N) in Hn. lia.
Qed.
(** Siblings have different first ranks. *)
Lemma sibling_idx c x y : is_Some (first !! join (c ++ [x])) -> is_Some (first !! join (c ++ [y])) -> Forall dotless (c ++ [x; y]) ->
  x <> y -> idx (join (c ++ [x])) <> idx (join (c ++ [y])).
Proof.
  intros [v Ev] [w Ew] D Hxy. unfold css_layer_first_index. rewrite Ev, Ew. intros E. assert (v = w) as <- by lia.
  apply first_indices_spec in Ev as [(n1 & H1 & P1) _]. apply first_indices_spec in Ew as [(n2 & H2 & P2) _].
  rewrite (num_inj t N _ _ _ H1 H2) in P1. apply Forall_app in D as [Dc [Dx [Dy _]%Forall_cons]%Forall_cons].
  assert (forall z, dotless z -> name_parts (join (c ++ [z])) = c ++ [z]) as J.
  { intros z Dz. apply parts_join; [by destruct c|]. apply Forall_app. auto. }
  apply name_prefix_spec in P1 as [r1 E1]. apply name_prefix_spec in P2 as [r2 E2]. rewrite J in E1, E2 by done.
  rewrite E1, <- !app_assoc in E2. apply app_inv_head in E2. by injection E2.
Qed.

Lemma join_snoc c x : prefixes_from (match c with [] => [] | _ => join c ++ $"." end) [x] = [join (c ++ [x])].
Proof.
  cbn [prefixes_from]. f_equal. induction c as [|y c IH]; [done|]. destruct c as [|z c]; [cbn; by rewrite <- app_assoc|].
  change (join ((y :: z :: c) ++ [x])) with (y ++ $"." ++ join ((z :: c) ++ [x])). rewrite <- IH. cbn [join]. by rewrite <- !app_assoc.
Qed.
(** What precedes the parts after [c]. *)
Definition before_parts (c : list bytes) : bytes := match c with [] => [] | _ => join c ++ $"." end.
Lemma before_one c x : before_parts c ++ x = join (c ++ [x]).
Proof. pose proof (join_snoc c x) as E. cbn in E. by injection E. Qed.
Lemma before_snoc c x : before_parts c ++ x ++ $"." = before_parts (c ++ [x]).
Proof. rewrite app_assoc, before_one. unfold before_parts. by destruct c. Qed.

Lemma part_in s c z l : name_parts s = c ++ z :: l -> is_Some (first !! s) -> is_Some (first !! (before_parts c ++ z)) /\ Forall dotless (c ++ [z]).
Proof.
  intros E I. pose proof (name_dotless s) as Ds. replace (c ++ z :: l) with ((c ++ [z]) ++ l) in E by (by rewrite <- app_assoc).
  rewrite E in Ds. apply Forall_app in Ds as [Ds _]. split; [|done]. apply (first_some s); [|done]. apply name_prefix_spec. exists l.
  by rewrite before_one, parts_join by (done || by destruct c).
Qed.
Lemma part_range s c x z l : name_parts s = c ++ x :: z :: l -> is_Some (first !! s) -> (0 <= idx (before_parts (c ++ [x]) ++ z) < Z.of_nat (size t))%Z.
Proof. intros E I. apply idx_range. apply (part_in s (c ++ [x]) z l); [by rewrite <- app_assoc|done]. Qed.

(** The loop is the order of the keys. *)
Lemma loop_key a b la : forall c lb, name_parts a = c ++ la -> name_parts b = c ++ lb -> la <> [] -> lb <> [] -> la <> lb ->
  is_Some (first !! a) -> is_Some (first !! b) ->
  name_cmp_loop first a b (before_parts c) (before_parts c) la lb =
    (if key_ltb (path_key (before_parts c) la) (path_key (before_parts c) lb) then -1 else 1)%Z /\
  key_ltb (path_key (before_parts c) la) (path_key (before_parts c) lb) =
    negb (key_ltb (path_key (before_parts c) lb) (path_key (before_parts c) la)).
Proof.
  induction la as [|x la IH]; intros c [|y lb] Ea Eb Na Nb D Ia Ib; try done. cbn [name_cmp_loop]. unfold path_key. cbn [prefixes_from map app key_ltb].
  destruct (part_in a c x la Ea Ia) as [Fx Dx], (part_in b c y lb Eb Ib) as [Fy Dy].
  case_bool_decide as Exy.
  - subst y. rewrite Z.eqb_refl, before_snoc.
    destruct la as [|x' la], lb as [|y' lb]; [done|..].
    + pose proof (part_range b c x y' lb Eb Ib). cbn [prefixes_from map app key_ltb]. rewrite (proj2 (Z.eqb_neq _ _)), (proj2 (Z.eqb_neq _ _)) by lia.
      destruct (Z.ltb_spec (Z.of_nat (size t)) (idx (before_parts (c ++ [x]) ++ y'))), (Z.ltb_spec (idx (before_parts (c ++ [x]) ++ y')) (Z.of_nat (size t))); done || lia.
    + pose proof (part_range a c x x' la Ea Ia). cbn [prefixes_from map app key_ltb]. rewrite (proj2 (Z.eqb_neq _ _)), (proj2 (Z.eqb_neq _ _)) by lia.
      destruct (Z.ltb_spec (Z.of_nat (size t)) (idx (before_parts (c ++ [x]) ++ x'))), (Z.ltb_spec (idx (before_parts (c ++ [x]) ++ x')) (Z.of_nat (size t))); done || lia.
    + apply (IH (c ++ [x]) (y' :: lb)); try done; [by rewrite Ea, <- app_assoc|by rewrite Eb, <- app_assoc|congruence].
  - assert (idx (before_parts c ++ x) <> idx (before_parts c ++ y)) as Hi.
    { rewrite !before_one in *. apply sibling_idx; try done. apply Forall_app in Dx as [Dc Dx]. apply Forall_app in Dy as [_ Dy].
      apply Forall_app. split; [done|]. apply Forall_cons in Dx as [Dx _]. apply Forall_cons in Dy as [Dy _]. by repeat constructor. }
    rewrite (proj2 (Z.eqb_neq _ _) Hi), (proj2 (Z.eqb_neq _ _) (not_eq_sym Hi)). cbn [negb].
    destruct (Z.ltb_spec (idx (before_parts c ++ x)) (idx (before_parts c ++ y))), (Z.ltb_spec (idx (before_parts c ++ y)) (idx (before_parts c ++ x))); done || lia.
Qed.
Lemma cmp_key a b : is_Some (first !! a) -> is_Some (first !! b) -> a <> b ->
  css_layer_name_cmp first a b = (if key_ltb (name_key a) (name_key b) then -1 else 1)%Z /\
  key_ltb (name_key a) (name_key b) = negb (key_ltb (name_key b) (name_key a)).
Proof.
  intros Ia Ib D. apply (loop_key a b (name_parts a) [] (name_parts b)); try done; try apply parts_some. by intros E%parts_inj.
Qed.
End Order.

(** ** The ranks *)

Lemma noted_some t nm v : t !! nm = Some v -> is_Some (first_indices t !! nm).
Proof.
  intros Hn. destruct (all_firsts (map_to_list t) ∅ []) as (events & He & Ev).
  { intros q. rewrite lookup_empty. intros u. apply not_elem_of_nil. }
  specialize (He nm). fold (first_indices t) in He. destruct (first_indices t !! nm); [eauto|exfalso]. apply (He v), Ev. right. exists nm.
  rewrite elem_of_map_to_list. split; [done|apply prefix_refl].
Qed.

Lemma key_common k l m : key_ltb (k ++ l) (k ++ m) = key_ltb l m.
Proof. induction k as [|x k IH]; cbn; [done|]. by rewrite Z.eqb_refl. Qed.
Lemma prefixes_app l m : forall c, prefixes_from (before_parts c) (l ++ m) = prefixes_from (before_parts c) l ++ prefixes_from (before_parts (c ++ l)) m.
Proof.
  induction l as [|x l IH]; intros c; cbn [app prefixes_from]; [by rewrite app_nil_r|]. rewrite before_snoc, IH. cbn [app]. by rewrite <- app_assoc.
Qed.
Lemma name_key_app t s c l : name_parts s = c ++ l -> name_key t s = map (css_layer_first_index (first_indices t)) (prefixes_from [] c) ++ path_key t (before_parts c) l.
Proof.
  intros E. unfold name_key, path_key. rewrite E. change (prefixes_from [] (c ++ l)) with (prefixes_from (before_parts []) (c ++ l)).
  by rewrite prefixes_app, map_app, <- app_assoc.
Qed.

Lemma number_spec l : forall i t p, NoDup l ->
  number_names i l t !! p = match list_find (fun q => q = p) l with Some (k, _) => Some (i + Z.of_nat k + 1)%Z | None => t !! p end.
Proof.
  induction l as [|x l IH]; intros i t p N; cbn [number_names list_find]; [done|]. apply NoDup_cons in N as [Nx N]. rewrite IH by done.
  destruct (decide (x = p)) as [->|Hne].
  - destruct (list_find (fun q => q = p) l) as [[k q]|] eqn:E; [|rewrite lookup_insert_eq; f_equal; lia].
    apply list_find_Some in E as (E & -> & _). by apply list_elem_of_lookup_2 in E.
  - destruct (list_find (fun q => q = p) l) as [[k q]|]; cbn; [f_equal; lia|]. by rewrite lookup_insert_ne.
Qed.

Lemma sorted_places {A} (R : A -> A -> Prop) l k m a b : StronglySorted R l -> l !! k = Some a -> l !! m = Some b -> k < m -> R a b.
Proof.
  intros S (l1 & l2 & -> & ->)%list_elem_of_split_length Hb L. apply StronglySorted_app in S as (_ & _ & S). apply StronglySorted_inv in S as [_ F].
  rewrite Forall_forall in F. apply F. rewrite lookup_app_r in Hb by lia. destruct (m - length l1) as [|d] eqn:E; [lia|]. by eapply list_elem_of_lookup_2.
Qed.

Section Ranked.
Context `{V : Css_values} `{So : SorterSpec}.

Lemma sheets_numbered sheets : forall t, numbered t -> numbered (fold_left css_layer_rank_add_sheet sheets t).
Proof. induction sheets as [|sh sheets IH]; intros t N; cbn [fold_left]; [done|]. by apply IH, add_numbered. Qed.
Lemma empty_numbered : numbered ∅.
Proof. split; intros *; by rewrite lookup_empty. Qed.

Lemma names_in t p : p ∈ map fst (map_to_list (first_indices t)) <-> is_Some (first_indices t !! p).
Proof.
  split.
  - intros ([q v] & -> & Hv%elem_of_map_to_list)%list_elem_of_fmap. by exists v.
  - intros [v Hv%elem_of_map_to_list]. apply list_elem_of_fmap. by exists (p, v).
Qed.
Lemma name_orders t : numbered t -> orders (css_layer_name_cmp (first_indices t)) (map fst (map_to_list (first_indices t))).
Proof.
  intros N. apply (key_orders _ (name_key t)); [apply NoDup_fst_map_to_list|]. intros a b Ha%names_in Hb%names_in D. by apply cmp_key.
Qed.
(** The ranks follow the keys. *)
Lemma finalize_spec t : numbered t -> let r := css_layer_ranks_finalize t in
  (forall p, is_Some (r !! p) <-> is_Some (first_indices t !! p)) /\
  forall p q i j, r !! p = Some i -> r !! q = Some j -> p <> q -> (i < j)%Z <-> key_ltb (name_key t p) (name_key t q) = true.
Proof.
  intros N. unfold css_layer_ranks_finalize. cbv zeta. destruct (Nat.eqb_spec (size t) 0) as [Z|_].
  { apply map_size_empty_iff in Z as ->. split; [|intros *; by rewrite lookup_empty]. intros p. rewrite lookup_empty.
    split; [by intros []|]. intros [v [(nm & Hn & _) _]%first_indices_spec]. by rewrite lookup_empty in Hn. }
  destruct (sort_doc _ _ (name_orders t N)) as [P S]. set (l := g_array_sort _ _) in *.
  assert (NoDup l) as Nl by (rewrite P; apply NoDup_fst_map_to_list).
  assert (forall p i, number_names 0 l ∅ !! p = Some i <-> exists k, l !! k = Some p /\ i = Z.of_nat k + 1)%Z as R.
  { intros p i. rewrite (number_spec l 0 ∅ p Nl), lookup_empty. destruct (list_find _ l) as [[k q]|] eqn:E.
    - apply list_find_Some in E as (E & -> & _). split; [intros [= <-]; exists k; split; [done|lia]|]. intros (k' & E' & ->).
      by rewrite (NoDup_lookup _ _ _ _ Nl E E').
    - split; [done|]. intros (k & Hk & _). apply list_find_None in E. rewrite Forall_forall in E. by destruct (E p (list_elem_of_lookup_2 _ _ _ Hk)). }
  split.
  - intros p. rewrite <- names_in, <- P. split; [intros [i (k & Hk & _)%R]; by eapply list_elem_of_lookup_2|].
    intros [k Hk]%list_elem_of_lookup. exists (Z.of_nat k + 1)%Z. apply R. eauto.
  - assert (forall p q k m, l !! k = Some p -> l !! m = Some q -> k < m -> key_ltb (name_key t p) (name_key t q) = true) as K.
    { intros p q k m Hk Hm L. assert (p <> q) as D by (intros ->; rewrite (NoDup_lookup _ _ _ _ Nl Hk Hm) in L; lia).
      pose proof (sorted_places _ _ _ _ _ _ S Hk Hm L) as C. destruct (cmp_key t N p q) as [E _]; [apply names_in; rewrite <- P; by eapply list_elem_of_lookup_2..|done|].
      cbv beta in C. rewrite E in C. by destruct (key_ltb _ _). }
    intros p q i j (k & Hk & ->)%R (m & Hm & ->)%R D. split; [intros L; apply (K p q k m Hk Hm); lia|]. intros C.
    destruct (lt_eq_lt_dec k m) as [[L| ->]|L]; [lia|congruence|]. pose proof (key_trans _ _ _ C (K q p m k Hm Hk L)) as B. by rewrite key_irrefl in B.
Qed.

(** C27. The ranks of layers: every layer that a sheet names and every layer around one
    gets a rank; a layer comes after the layers inside it; and of two layers that part
    from each other in some layer, the one whose branch was named first comes first. *)
Theorem layers_ranked sheets :
  let t := fold_left css_layer_rank_add_sheet sheets ∅ in
  let r := layer_ranks_of sheets in
  (forall p, is_Some (r !! p) <-> exists nm, is_Some (t !! nm) /\ p ∈ name_prefixes nm) /\
  (forall p q i j x l, r !! p = Some i -> r !! q = Some j -> name_parts p = name_parts q ++ x :: l -> (i < j)%Z) /\
  (forall p q i j c x y l m v w, r !! p = Some i -> r !! q = Some j ->
    name_parts p = c ++ x :: l -> name_parts q = c ++ y :: m -> x <> y ->
    first_at t (join (c ++ [x])) v -> first_at t (join (c ++ [y])) w -> (i < j <-> v < w)%Z).
Proof.
  cbv zeta. unfold layer_ranks_of. set (t := fold_left css_layer_rank_add_sheet sheets ∅).
  assert (numbered t) as N by apply sheets_numbered, empty_numbered. destruct (finalize_spec t N) as [D O]. split; [|split].
  - intros p. rewrite D. split.
    + intros [v [(nm & Hn & Hp) _]%first_indices_spec]. eauto.
    + intros (nm & [v Hn] & Hp). apply (first_some t nm p Hp). by eapply noted_some.
  - intros p q i j x l Hp Hq E. apply (O p q i j Hp Hq); [intros ->; apply (f_equal length) in E; rewrite length_app in E; cbn in E; lia|].
    rewrite (name_key_app t p (name_parts q) (x :: l) E), (name_key_app t q (name_parts q) []) by (by rewrite app_nil_r). rewrite key_common.
    unfold path_key. cbn [prefixes_from map app key_ltb].
    destruct (part_in t p (name_parts q) x l E) as [I _]; [apply D; eauto|]. apply (idx_range t N) in I.
    rewrite (proj2 (Z.eqb_neq _ _)) by lia. apply Z.ltb_lt. lia.
  - intros p q i j c x y l m v w Hp Hq Ep Eq Hxy Hv Hw. rewrite (O p q i j Hp Hq) by (intros ->; rewrite Ep in Eq; apply app_inv_head in Eq; congruence).
    rewrite (name_key_app t p c (x :: l) Ep), (name_key_app t q c (y :: m) Eq), key_common. unfold path_key. cbn [prefixes_from map app key_ltb].
    apply first_indices_spec in Hv, Hw. rewrite !before_one. unfold css_layer_first_index. rewrite Hv, Hw.
    destruct (Z.eqb_spec (v - 1) (w - 1)) as [E|E]; [|rewrite Z.ltb_lt; lia]. exfalso.
    destruct (part_in t p c x l Ep) as [Ix Dx]; [apply D; eauto|]. destruct (part_in t q c y m Eq) as [Iy Dy]; [apply D; eauto|].
    rewrite before_one in Ix, Iy. apply (sibling_idx t N c x y Ix Iy); [|done|unfold css_layer_first_index; rewrite Hv, Hw; lia].
    change (c ++ [x; y]) with (c ++ [x] ++ [y]). rewrite app_assoc. apply Forall_app. split; [done|]. by apply Forall_app in Dy as [_ Dy].
Qed.
End Ranked.
