(* ===== verification/CascadePage.v ===== *)
(** * A small page, styled

    The rule index, the gathering and the cascade at work on the page of [SelPage]: the
    witnesses of [RuleIndex], [CascadeSpec] and [CascadeWins]. *)

From stdpp Require Import sorting.
From S2P Require Import XmlRound.
From S2P Require Import Prelude CStr GLib CssSyntax Xml Element DomStore Dom Selector SelParse NodeState SelMatch SelPage CssProps RuleIndex Cascade CascadeSpec GSort CascadeFor CascadeWins CssLayers.

#[local] Existing Instance unichar_ref.
#[local] Existing Instance nothing_else.
#[local] Instance keywords : Css_values := {| ns_css_value := bytes; keyword_of := Some; transparent := $"rgba(0, 0, 0, 0)" |}.

Definition selectors_of (text : bytes) : list ns_css_selector :=
  match ns_css_parse_selector_list no_env 40 (Some text) no_flags with Some (l, _) => l | None => [] end.
Definition a_decl (p : ns_css_prop) (v : bytes) (imp : bool) : ns_css_decl := Build_ns_css_decl p v imp.
Definition a_rule (text : bytes) (l : list ns_css_decl) (sc : list ns_css_scope) (order : Z) : ns_css_rule :=
  Build_ns_css_rule (selectors_of text) l [] [] None None sc order.
Definition small_sheet : ns_css_stylesheet :=
  Build_ns_css_stylesheet
    [ a_rule ($"p, html > *") [a_decl NS_CSS_COLOR ($"red") false; a_decl NS_CSS_MARGIN_LEFT ($"1px") false] [] 0;
      a_rule ($":is(p, b)[lang=en], #x") [a_decl NS_CSS_COLOR ($"green") true; a_decl NS_CSS_MARGIN_INLINE_START ($"2px") false] [] 1;
      a_rule ($"p::before, .a::before") [a_decl NS_CSS_COLOR ($"blue") false] [Build_ns_css_scope (selectors_of ($"html")) []] 2;
      a_rule ($"p:lang(fr), p.a") [a_decl NS_CSS_COLOR ($"grey") false] [] 3 ]
    [] 7.

Lemma index_finds_every_match_witness :
  match_selector_structural small (match_simple_fuel no_view small 5 None) (default (Selector [] NS_CSS_PE_NONE (0, 0, 0)%Z) (head (selectors_of ($":is(p, b)[lang=en]")))) 5%positive
    = Some true /\
  exists l, candidates (ns_css_rule_index_build small_sheet) 5%positive small = Some l /\ (1, 0) ∈ l.
Proof.
  split; [vm_compute; reflexivity|].
  apply (index_finds_every_match no_view small small_sheet 1 0 (a_rule ($":is(p, b)[lang=en], #x")
    [a_decl NS_CSS_COLOR ($"green") true; a_decl NS_CSS_MARGIN_INLINE_START ($"2px") false] [] 1)
    (default (Selector [] NS_CSS_PE_NONE (0, 0, 0)%Z) (head (selectors_of ($":is(p, b)[lang=en]")))) 5 None); vm_compute; reflexivity.
Defined.

(** The element and its [::before]. *)
Definition small_dests : list gather_dest := walk_dests (walk_mask None [Some small_sheet]).
Definition small_scan (n : loc) : list gather_dest :=
  default [] (scan_sheet (fun _ => true) no_view small None small_sheet NS_CSS_ORIGIN_AUTHOR 1 n ∅ small_dests).
Definition small_gather (n : loc) : list gather_dest :=
  default [] (gather_matches_multi (fun _ => true) no_view small None small_sheet NS_CSS_ORIGIN_AUTHOR 1 n small_dests ∅).

(** The declarations the two paragraphs get. *)
Example small_gathered :
  map (fun n => map (fun d => map (fun m => (prop m, value m, m_spec (m_src m))) (out d)) (small_gather n)) [3; 5]%positive =
  [[[(NS_CSS_COLOR, $"grey", (0, 1, 1)%Z); (NS_CSS_COLOR, $"red", (0, 0, 1)%Z); (NS_CSS_MARGIN_LEFT, $"1px", (0, 0, 1)%Z)];
    [(NS_CSS_COLOR, $"blue", (0, 1, 1)%Z)]];
   [[(NS_CSS_COLOR, $"red", (0, 0, 1)%Z); (NS_CSS_MARGIN_LEFT, $"1px", (0, 0, 1)%Z);
     (NS_CSS_COLOR, $"green", (0, 1, 1)%Z); (NS_CSS_MARGIN_INLINE_START, $"2px", (0, 1, 1)%Z)];
    [(NS_CSS_COLOR, $"blue", (0, 0, 2)%Z)]]].
Proof. vm_compute. reflexivity. Qed.

Lemma gathers_what_matches_witness :
  scan_sheet (fun _ => true) no_view small None small_sheet NS_CSS_ORIGIN_AUTHOR 1 5%positive ∅ small_dests = Some (small_scan 5%positive) /\
  length (out (nth 0 (small_scan 5%positive) (empty_dest NS_CSS_PE_NONE))) = 4 /\
  exists ds1, gather_matches_multi (fun _ => true) no_view small None small_sheet NS_CSS_ORIGIN_AUTHOR 1 5%positive small_dests ∅ = Some ds1 /\
    Forall2 same_given ds1 (small_scan 5%positive).
Proof.
  assert (scan_sheet (fun _ => true) no_view small None small_sheet NS_CSS_ORIGIN_AUTHOR 1 5%positive ∅ small_dests = Some (small_scan 5%positive)) as S
    by (vm_compute; reflexivity).
  split; [exact S|]. split; [vm_compute; reflexivity|].
  apply (gathers_what_matches (fun _ => true) no_view small None 5%positive small_sheet NS_CSS_ORIGIN_AUTHOR 1 ∅ small_dests).
  - eexists. vm_compute. reflexivity.
  - apply Nat.leb_le. vm_compute. reflexivity.
  - exact S.
Defined.

(** ** Ten destinations *)

(** A sheet that names all nine pseudo-elements, for paragraphs. *)
Definition nine_sheet : ns_css_stylesheet :=
  Build_ns_css_stylesheet
    [a_rule ($"p::before, p::after, p::first-letter, p::first-line, p::selection, p::marker, p::backdrop, p::placeholder, p::file-selector-button")
       [a_decl NS_CSS_COLOR ($"red") false] [] 0] [] 8.
Example ten_destinations :
  length (walk_dests (walk_mask None [Some nine_sheet])) = 10 /\
  is_Some (scan_sheet (fun _ => true) no_view small None nine_sheet NS_CSS_ORIGIN_AUTHOR 1 5%positive ∅ (walk_dests (walk_mask None [Some nine_sheet]))) /\
  walk_gather (fun _ => true) no_view small None None [Some nine_sheet] None None 5%positive ∅ = None.
Proof. split; [vm_compute; reflexivity|]. split; [eexists; vm_compute; reflexivity|vm_compute; reflexivity]. Qed.

Lemma ten_destinations_need_no_match_witness :
  NS_ACCUM_SLOTS < length (walk_dests (walk_mask None [Some nine_sheet])) /\
  exists ds', gather_matches_multi (fun _ => true) no_view small None nine_sheet NS_CSS_ORIGIN_AUTHOR 1 2%positive
    (walk_dests (walk_mask None [Some nine_sheet])) ∅ = Some ds' /\ ds' = walk_dests (walk_mask None [Some nine_sheet]).
Proof.
  assert (NS_ACCUM_SLOTS < length (walk_dests (walk_mask None [Some nine_sheet]))) as L by (apply Nat.ltb_lt; vm_compute; reflexivity).
  split; [exact L|]. eexists. split; [vm_compute; reflexivity|].
  apply (ten_destinations_need_no_match (fun _ => true) no_view small None 2%positive nine_sheet NS_CSS_ORIGIN_AUTHOR 1 ∅ _ _ L). vm_compute. reflexivity.
Defined.

(** ** Winners *)

(** What the second paragraph gets, the style attribute [color: revert; margin-top: initial]
    included, and the agent's sheet. *)
Definition ua_sheet : ns_css_stylesheet :=
  Build_ns_css_stylesheet [a_rule ($"p") [a_decl NS_CSS_DISPLAY ($"block") false; a_decl NS_CSS_MARGIN_TOP ($"1em") false; a_decl NS_CSS_CURSOR ($"auto") false] [] 0] [] 1.
Definition inline_sheet : ns_css_stylesheet :=
  Build_ns_css_stylesheet [a_rule ($"*") [a_decl NS_CSS_COLOR ($"black") false; a_decl NS_CSS_MARGIN_TOP ($"revert") false; a_decl NS_CSS_CURSOR ($"revert") true] [] 0] [] 2.
Definition small_matches_of (n : loc) : list match_entry :=
  match walk_gather (fun _ => true) no_view small None (Some ua_sheet) [Some small_sheet] None (Some inline_sheet) n ∅ with
  | Some (d :: _) => out d
  | _ => []
  end.
Definition small_parent : ns_css_prop -> option bytes := fun p => if bool_decide (p = NS_CSS_DIRECTION) then Some ($"ltr") else None.
Example small_cascaded :
  (fun s => map s [NS_CSS_COLOR; NS_CSS_MARGIN_LEFT; NS_CSS_MARGIN_TOP; NS_CSS_DISPLAY; NS_CSS_DIRECTION; NS_CSS_WIDTH]) <$>
    cascade_for (small_matches_of 5%positive) (fun _ => None) (Some small_parent) =
  Some [Some ($"green"); Some ($"2px"); Some ($"1em"); Some ($"block"); Some ($"ltr"); None].
Proof. vm_compute. reflexivity. Qed.

Lemma small_ranks : NoDup (map rank (small_matches_of 5%positive)).
Proof. apply (bool_decide_unpack _). vm_compute. exact I. Qed.
Definition small_axes : Z * bool := axes (g_array_sort match_cmp (small_matches_of 5%positive)) (Some small_parent).
Definition declaresb (p : ns_css_prop) (e : match_entry) : bool := bool_decide (logical_to_physical (prop e) small_axes.1 small_axes.2 = Some p).
Lemma declaresb_ok p e : declares (small_matches_of 5%positive) (Some small_parent) p e <-> e ∈ small_matches_of 5%positive /\ declaresb p e = true.
Proof. unfold declaresb. rewrite bool_decide_eq_true. reflexivity. Qed.
(** The [i]-th declaration the second paragraph gets. *)
Definition small_entry (i : nat) : match_entry :=
  nth i (small_matches_of 5%positive) (Build_match_entry (inline_source inline_sheet 0) 0 false [] NS_CSS_COLOR).
Lemma small_entry_in i : (i <? length (small_matches_of 5%positive)) = true -> small_entry i ∈ small_matches_of 5%positive.
Proof. intros L%Nat.ltb_lt. apply list_elem_of_In. unfold small_entry. apply nth_In. exact L. Qed.
Lemma small_strongest p i : (i <? length (small_matches_of 5%positive)) = true -> declaresb p (small_entry i) = true ->
  forallb (fun x => negb (declaresb p x) || key_ltb (rank x) (rank (small_entry i)) || bool_decide (rank x = rank (small_entry i))) (small_matches_of 5%positive) = true ->
  strongest_of (declares (small_matches_of 5%positive) (Some small_parent) p) (small_entry i).
Proof. intros L D F. exact (strongest_by _ (declaresb p) _ _ small_ranks (declaresb_ok p) (small_entry_in i L) D F). Qed.

Lemma strongest_declaration_wins_witness : NoDup (map rank (small_matches_of 5%positive)) /\
  exists s, cascade_values (small_matches_of 5%positive) (fun _ => None) (Some small_parent) = Some s /\
    s NS_CSS_MARGIN_LEFT = Some ($"2px") /\ s NS_CSS_DIRECTION = Some ($"ltr").
Proof.
  split; [exact small_ranks|]. destruct (strongest_declaration_wins (small_matches_of 5%positive) (Some small_parent) small_ranks) as (s & E & C).
  exists s. split; [exact E|]. split.
  - assert (strongest_of (declares (small_matches_of 5%positive) (Some small_parent) NS_CSS_MARGIN_LEFT) (small_entry 6)) as B.
    { apply small_strongest; vm_compute; reflexivity. }
    exact (proj2 (C NS_CSS_MARGIN_LEFT) _ B eq_refl).
  - apply (proj1 (C NS_CSS_DIRECTION)). intros e [He De]%declaresb_ok.
    assert (forallb (fun e => negb (declaresb NS_CSS_DIRECTION e)) (small_matches_of 5%positive) = true) as F by (vm_compute; reflexivity).
    rewrite forallb_forall in F. apply list_elem_of_In, F in He. rewrite De in He. discriminate He.
Defined.

Lemma revert_rolls_back_witness : NoDup (map rank (small_matches_of 5%positive)) /\
  exists s, cascade_values (small_matches_of 5%positive) (fun _ => None) (Some small_parent) = Some s /\
    value_is_revert (value (small_entry 8)) = true /\ s NS_CSS_MARGIN_TOP = Some ($"1em").
Proof.
  split; [exact small_ranks|]. destruct (revert_rolls_back (small_matches_of 5%positive) (Some small_parent) small_ranks) as (s & E & C).
  exists s. split; [exact E|]. split; [vm_compute; reflexivity|].
  assert (strongest_of (declares (small_matches_of 5%positive) (Some small_parent) NS_CSS_MARGIN_TOP) (small_entry 8)) as B
    by (apply small_strongest; vm_compute; reflexivity).
  apply (proj2 (C NS_CSS_MARGIN_TOP (small_entry 8) B eq_refl) (small_entry 1)); [|reflexivity].
  apply (strongest_by _ (fun u => declaresb NS_CSS_MARGIN_TOP u && key_ltb (rank u) (rank (small_entry 8)) && negb (rolled_over (small_entry 8) u)) _ _ small_ranks).
  - intros u. unfold falls_to, outranks. rewrite !andb_true_iff, negb_true_iff, declaresb_ok. tauto.
  - apply small_entry_in. vm_compute. reflexivity.
  - vm_compute. reflexivity.
  - vm_compute. reflexivity.
Defined.

(** ** Declarations with custom properties *)

(** [margin: var(--a); margin-left: var(--b)]: what comes of the shorthand is numbered
    past the longhand after it, and wins. *)
Definition of_var (pd : ns_css_pending_decl) : list ns_css_decl :=
  if pname pd =b $"margin"
  then map (fun p => a_decl p (raw_vtext pd) false) [NS_CSS_MARGIN_TOP; NS_CSS_MARGIN_RIGHT; NS_CSS_MARGIN_BOTTOM; NS_CSS_MARGIN_LEFT]
  else [a_decl NS_CSS_MARGIN_LEFT (raw_vtext pd) false].
Definition pending_rule : ns_css_rule :=
  Build_ns_css_rule [] [] [] [Build_ns_css_pending_decl ($"margin") ($"1px") false; Build_ns_css_pending_decl ($"margin-left") ($"2px") false] None None [] 0.
Example later_longhand_loses :
  (fun s => s NS_CSS_MARGIN_LEFT) <$>
    cascade_values (resolve_pending_into_matches of_var (pendings_of pending_rule (inline_source inline_sheet 0)) []) (fun _ => None) None =
  Some (Some ($"1px")).
Proof. vm_compute. reflexivity. Qed.

(** ** Layers *)

Definition layered (l : list bytes) : ns_css_stylesheet := Build_ns_css_stylesheet [] l 0.
Example small_layers :
  map (fun l => layer_ranks_of [layered [$"base"; $"theme.dark"]; layered [$"theme"; $"base.x"; $"theme.light"; $"util"]] !! l)
    [$"base.x"; $"base"; $"theme.dark"; $"theme.light"; $"theme"; $"util"; $"dark"] =
  [Some 1; Some 2; Some 3; Some 4; Some 5; Some 6; None]%Z.
Proof. vm_compute. reflexivity. Qed.
Definition small_layered : list ns_css_stylesheet := [layered [$"base"; $"theme.dark"]; layered [$"theme"; $"base.x"; $"theme.light"; $"util"]].
Lemma layers_ranked_witness :
  layer_ranks_of small_layered !! ($"base.x") = Some 1%Z /\ layer_ranks_of small_layered !! ($"base") = Some 2%Z /\ (1 < 2)%Z /\
  layer_ranks_of small_layered !! ($"theme.dark") = Some 3%Z /\ layer_ranks_of small_layered !! ($"util") = Some 6%Z /\ (3 < 6)%Z.
Proof.
  destruct (layers_ranked small_layered) as (_ & Inner & Branch).
  split; [vm_compute; reflexivity|]. split; [vm_compute; reflexivity|]. split.
  { apply (Inner ($"base.x") ($"base") 1 2 ($"x") [])%Z; vm_compute; reflexivity. }
  split; [vm_compute; reflexivity|]. split; [vm_compute; reflexivity|].
  apply (Branch ($"theme.dark") ($"util") 3 6 [] ($"theme") ($"util") [$"dark"] [] 2 6)%Z.
  - vm_compute. reflexivity.
  - vm_compute. reflexivity.
  - vm_compute. reflexivity.
  - vm_compute. reflexivity.
  - discriminate.
  - apply first_indices_spec. vm_compute. reflexivity.
  - apply first_indices_spec. vm_compute. reflexivity.
  - reflexivity.
Defined.
