(* ===== verification/CssVars.v ===== *)
(** * Custom properties: substitution ([src/css.c])

    What [var()] puts in place of a reference. A call of the C function at [depth] is
    one here with [17 - depth] levels left; at none it copies its text. The map of an
    element is the list of the tables from it up to the root, [[]] for [NULL]. *)

From S2P Require Import Prelude CStr GLib CssSyntax Xml Element Selector.

(** ** Words that are not values *)

Inductive ns_custom_prop_wide :=
| NS_CUSTOM_WIDE_NONE | NS_CUSTOM_WIDE_INHERIT | NS_CUSTOM_WIDE_INITIAL | NS_CUSTOM_WIDE_UNSET
| NS_CUSTOM_WIDE_REVERT | NS_CUSTOM_WIDE_REVERT_LAYER | NS_CUSTOM_WIDE_REVERT_RULE.
#[global] Instance ns_custom_prop_wide_eq_dec : EqDecision ns_custom_prop_wide.
Proof. solve_decision. Defined.

(** A map: the table of the element, then those of the elements around it. *)
Abbreviation ns_var_map := (list (gmap bytes bytes)).
Record ns_css_property_rule := {
  pr_name : bytes;
  initial_value : option bytes;
  inherits : bool;
  has_initial : bool;
}.
Record ns_var_budget := { out_bytes : Z; calls : Z; overflow : bool }.

Section Vars.
Context {G : GLib}.

Definition word_is (s w : bytes) : bool := (length s =? length w) && g_ascii_strncasecmp0 s w (length w).
Definition custom_prop_wide_kind (text : option bytes) : ns_custom_prop_wide :=
  match text with
  | None => NS_CUSTOM_WIDE_NONE
  | Some t =>
      let s := css_trim_dup_range t in
      if word_is s ($"inherit") then NS_CUSTOM_WIDE_INHERIT
      else if word_is s ($"initial") then NS_CUSTOM_WIDE_INITIAL
      else if word_is s ($"unset") then NS_CUSTOM_WIDE_UNSET
      else if word_is s ($"revert") then NS_CUSTOM_WIDE_REVERT
      else if word_is s ($"revert-layer") then NS_CUSTOM_WIDE_REVERT_LAYER
      else if word_is s ($"revert-rule") then NS_CUSTOM_WIDE_REVERT_RULE
      else NS_CUSTOM_WIDE_NONE
  end.
Definition custom_prop_value_invalid (text : option bytes) : bool :=
  match text with None => true | Some _ => bool_decide (custom_prop_wide_kind text <> NS_CUSTOM_WIDE_NONE) end.

(** ** The maps of elements *)

Fixpoint ns_var_map_lookup (m : ns_var_map) (name : bytes) : option bytes :=
  match m with
  | [] => None
  | own :: m' => match own !! name with Some v => Some v | None => ns_var_map_lookup m' name end
  end.

(** ** References in a text *)

(** [css_find_function]: where the next call of [name] is, outside comments, strings
    and escapes. [prev] is the byte before [s]. *)
Fixpoint find_loop (fuel : nat) (name : bytes) (prev quote : option ascii) (s : bytes) : option nat :=
  match fuel, s with
  | S f, c :: s' =>
      let pass (n : nat) quote := k ← find_loop f name (Some (nth (n - 1) s nul)) quote (drop n s); Some (n + k) in
      let escape := (c =c slash) && negb (s' =b []) in
      match quote with
      | Some q => if escape then pass 2 quote else pass 1 (if (c =c q) || line_end c then None else quote)
      | None =>
          if opens_comment s then pass (2 + comment_len (drop 2 s)) None
          else if escape then pass 2 None
          else if quote_char c then pass 1 (Some c)
          else if (length name <? length s) && (nth (length name) s nul =c "(") && g_ascii_strncasecmp0 s name (length name) &&
                  match prev with None => true | Some d => negb (is_ident d) end
          then Some 0
          else pass 1 None
      end
  | _, _ => None
  end.
Definition css_find_function (s name : bytes) : option nat := find_loop (length s) name None None s.

(** The name a call refers to, its fallback, and what follows the call; [None] when
    it has no end. *)
Definition var_args (fn : bytes) : option (bytes * option bytes * bytes) :=
  let '(args, r, term) := css_scan_until (drop 4 fn) ($")") in
  if bool_decide (term = Some ")"%char) then
    let '(name, comma, comma_term) := css_scan_until args ($",") in
    Some (css_trim_dup_range name, if bool_decide (comma_term = Some ","%char) then Some (css_trim_dup_range (drop 1 comma)) else None, drop 1 r)
  else None.

(** ** The budget *)

Definition NS_CSS_VAR_EXPAND_MAX : Z := 1024 * 1024.
Definition NS_CSS_VAR_EXPAND_CALLS : Z := 100000.
Definition no_budget_used : ns_var_budget := {| out_bytes := 0; calls := 0; overflow := false |}.

(** Whether the bytes are taken, and what becomes of [*valid]. *)
Definition var_budget_take (b : ns_var_budget) (n : Z) (valid : bool) : bool * bool * ns_var_budget :=
  if overflow b then (false, valid, b)
  else if (NS_CSS_VAR_EXPAND_MAX - out_bytes b <? n)%Z
  then (false, false, {| out_bytes := out_bytes b; calls := calls b; overflow := true |})
  else (true, valid, {| out_bytes := out_bytes b + n; calls := calls b; overflow := false |}).

(** ** Substitution *)

Section Substitute.
Context (g_registered_props : gmap bytes ns_css_property_rule) (vars : ns_var_map).

(** The value that a reference may put in. *)
Definition replacement (name : bytes) : option bytes :=
  if prefixb ($"--") name then
    match ns_var_map_lookup vars name with
    | Some r => if negb (r =b []) && negb (custom_prop_value_invalid (Some r)) then Some r else None
    | None => None
    end
  else None.

Section Loop.
(** The nested call. *)
Variable sub : bytes -> ns_var_budget -> bytes * bool * ns_var_budget.

Definition fallback_value (fallback : option bytes) (b : ns_var_budget) : option bytes * ns_var_budget :=
  match fallback with
  | Some nested => let '(s, valid, b) := sub nested b in (if valid : bool then Some s else None, b)
  | None => (None, b)
  end.
(** What becomes of a value that substitutes to a word that is none. *)
Definition registered_initial (name : bytes) (s : bytes) (b : ns_var_budget) : bytes * bool * ns_var_budget :=
  match g_registered_props !! name with
  | Some pr =>
      if has_initial pr then match initial_value pr with Some i => sub i b | None => ([], true, b) end else (s, false, b)
  | None => (s, false, b)
  end.
(** What a reference puts in; [None] when the text is not valid for it. *)
Definition var_value (name : bytes) (fallback : option bytes) (b : ns_var_budget) : option bytes * ns_var_budget :=
  match replacement name with
  | Some r =>
      let '(s, valid, b) := sub r b in
      let '(s, valid, b) := if valid && custom_prop_value_invalid (Some s) then registered_initial name s b else (s, valid, b) in
      if valid : bool then (Some s, b) else fallback_value fallback b
  | None => fallback_value fallback b
  end.

Fixpoint subst_loop (fuel : nat) (p : bytes) (valid : bool) (b : ns_var_budget) : bytes * bool * ns_var_budget :=
  match fuel, p with
  | S f, _ :: _ =>
      match css_find_function p ($"var") with
      | None => let '(ok, valid, b) := var_budget_take b (zlen p) valid in (if ok : bool then p else [], valid, b)
      | Some k =>
          let '(ok, valid, b) := var_budget_take b (Z.of_nat k) valid in
          if ok : bool then
            match var_args (drop k p) with
            | None => (take k p, valid, b)
            | Some (name, fallback, rest) =>
                let '(v, b) := var_value name fallback b in
                let '(t, valid, b) := subst_loop f rest (valid && bool_decide (is_Some v)) b in
                (take k p ++ default [] v ++ t, valid, b)
            end
          else ([], valid, b)
      end
  | _, _ => ([], valid, b)
  end.
End Loop.

Fixpoint substitute_vars_with_valid (levels : nat) (vtext : bytes) (b : ns_var_budget) : bytes * bool * ns_var_budget :=
  match levels with
  | O => (vtext, true, b)
  | S d =>
      if overflow b then ([], false, b)
      else if (NS_CSS_VAR_EXPAND_CALLS <? calls b + 1)%Z
      then ([], false, {| out_bytes := out_bytes b; calls := calls b + 1; overflow := true |})
      else
        subst_loop (substitute_vars_with_valid d) (length vtext) vtext true
          {| out_bytes := out_bytes b; calls := calls b + 1; overflow := false |}
  end.

Definition NS_VAR_LEVELS : nat := 17.
Definition substitute_vars_with (vtext : option bytes) : option bytes :=
  match vtext with
  | None => None
  | Some t => let '(s, valid, _) := substitute_vars_with_valid NS_VAR_LEVELS t no_budget_used in if valid : bool then Some s else None
  end.
End Substitute.

(** [substitute_var_fallbacks]: the fallbacks alone, with [17 - depth] levels. *)
Fixpoint fallbacks_loop (sub : bytes -> bytes) (fuel : nat) (p : bytes) : bytes :=
  match fuel, p with
  | S f, _ :: _ =>
      match css_find_function p ($"var") with
      | None => p
      | Some k =>
          match var_args (drop k p) with
          | None => take k p
          | Some (_, fallback, rest) =>
              take k p ++ match fallback with Some t => sub t | None => [] end ++ fallbacks_loop sub f rest
          end
      end
  | _, _ => []
  end.
Fixpoint substitute_var_fallbacks (levels : nat) (vtext : bytes) : bytes :=
  match levels with
  | O => vtext
  | S d => fallbacks_loop (substitute_var_fallbacks d) (length vtext) vtext
  end.

(** ** Declarations that waited for their values *)

(** Where the last [!] outside strings, brackets and comments is. *)
Fixpoint last_bang (fuel : nat) (s : bytes) : option nat :=
  match fuel with
  | O => None
  | S f =>
      let '(passed, r, term) := css_scan_until s ($"!") in
      if bool_decide (term = Some "!"%char) then
        match last_bang f (drop 1 r) with
        | Some k => Some (length passed + 1 + k)
        | None => Some (length passed)
        end
      else None
  end.
Definition css_strip_important (text : bytes) : bytes * bool :=
  match last_bang (length text) text with
  | None => (text, false)
  | Some bang =>
      let tail := css_skip_ws_comments (drop (S bang) text) in
      if (length tail <? 9) || negb (g_ascii_strncasecmp0 tail ($"important") 9) then (text, false)
      else
        let after := drop 9 tail in
        if head_is is_ident after then (text, false)
        else if css_skip_ws_comments after =b [] then (g_strchomp (take bang text), true)
        else (text, false)
  end.
End Vars.
