(* ===== verification/CssVarsSpec.v ===== *)
(** * Custom properties: what substitution does

    Bounds on a substitution, whatever the texts; and texts as trees of characters and
    references, in which what a text stands for is written without positions, levels
    and budgets. *)

From S2P Require Import Prelude CStr GLib CssSyntax Xml Element Selector SelParse CssVars.

(** ** Lengths *)

Section Lengths.
Context {G : GLib}.

Lemma find_loop_lt n : forall name prev q s k, find_loop n name prev q s = Some k -> k + length name < length s.
Proof.
  induction n as [|n IH]; intros name prev q [|c s] k; try done.
  assert (forall m q', 0 < m -> (x ← find_loop n name (Some (nth (m - 1) (c :: s) nul)) q' (drop m (c :: s)); Some (m + x)) = Some k ->
    k + length name < length (c :: s)) as Pass.
  { intros m q' Hm E. destruct (find_loop n _ _ _ _) as [x|] eqn:F; [|done]. injection E as <-. apply IH in F. rewrite length_drop in F. lia. }
  cbn -[drop length Nat.sub nth comment_len opens_comment Nat.ltb]. destruct q as [q|].
  - repeat case_match; intros E; (eapply Pass; [|exact E]); lia.
  - destruct (opens_comment _); [intros E; eapply Pass; [|exact E]; lia|]. destruct (_ && negb _); [intros E; eapply Pass; [|exact E]; lia|].
    destruct (quote_char c); [intros E; eapply Pass; [|exact E]; lia|]. destruct (length name <? length (c :: s)) eqn:L; cbn [andb].
    + destruct (_ && _); [intros [= <-]; apply Nat.ltb_lt in L; lia|]. intros E. eapply Pass; [|exact E]; lia.
    + intros E. eapply Pass; [|exact E]; lia.
Qed.
Lemma find_lt s k : css_find_function s ($"var") = Some k -> k + 3 < length s.
Proof. apply find_loop_lt. Qed.

Lemma trim_le s : length (css_trim_dup_range s) <= length s.
Proof.
  unfold css_trim_dup_range. rewrite length_rev. etrans; [apply drop_while_length|]. rewrite length_rev. apply drop_while_length.
Qed.
Lemma args_le s name fb rest : var_args s = Some (name, fb, rest) ->
  length rest <= length (drop 4 s) /\ (forall t, fb = Some t -> length t <= length s).
Proof.
  unfold var_args. pose proof (scan_until_len (drop 4 s) ($")")) as L. destruct (css_scan_until (drop 4 s) _) as [[args r] t].
  case_bool_decide; [|done]. pose proof (scan_until_len args ($",")) as L'. destruct (css_scan_until args _) as [[nm cm] ct].
  intros [= <- <- <-]. rewrite !length_drop in *. split; [lia|]. intros t0. case_bool_decide; intros [= <-].
  pose proof (trim_le (drop 1 cm)) as T. rewrite length_drop in T. lia.
Qed.
Lemma next_lt p k name fb rest : css_find_function p ($"var") = Some k -> var_args (drop k p) = Some (name, fb, rest) ->
  length rest < length p /\ (forall t, fb = Some t -> length t <= length p).
Proof.
  intros F%find_lt A%args_le. rewrite !length_drop in A. destruct A as [A B]. split; [lia|]. intros t Ht%B. lia.
Qed.

Context (regs : gmap bytes ns_css_property_rule) (vars : ns_var_map).

(** As much fuel as the text is long is enough. *)
Lemma subst_loop_more sub n : forall m p valid b, length p <= n -> length p <= m ->
  subst_loop regs vars sub n p valid b = subst_loop regs vars sub m p valid b.
Proof.
  induction n as [|n IH]; intros [|m] [|c p] valid b Hn Hm; try done; try (cbn in *; lia). cbn [subst_loop].
  destruct (css_find_function (c :: p) _) as [k|] eqn:F; [|done]. destruct (var_budget_take b (Z.of_nat k) valid) as [[[] v1] b1]; [|done].
  destruct (var_args _) as [[[name fb] rest]|] eqn:A; [|done]. destruct (var_value _ _ _ _ _ _) as [v b2].
  destruct (next_lt _ _ _ _ _ F A) as [L _]. rewrite (IH m); [done|cbn in *; lia..].
Qed.

(** ** What a substitution costs *)

(** The budget between steps. *)
Definition budget_ok (b : ns_var_budget) : Prop :=
  (0 <= out_bytes b <= NS_CSS_VAR_EXPAND_MAX)%Z /\ (0 <= calls b <= NS_CSS_VAR_EXPAND_CALLS + 1)%Z /\
  (overflow b = false -> (calls b <= NS_CSS_VAR_EXPAND_CALLS)%Z).

(** No text is longer than [M]. *)
Definition texts_within (M : Z) : Prop :=
  (forall n v, ns_var_map_lookup vars n = Some v -> (zlen v <= M)%Z) /\
  (forall n pr v, regs !! n = Some pr -> initial_value pr = Some v -> (zlen v <= M)%Z).

(** From [b] to [b'], [n] bytes are made, [extra] of them not accounted for. *)
Record spends (M : Z) (b b' : ns_var_budget) (n extra : Z) : Prop := {
  sp_ok : budget_ok b';
  sp_bytes : (out_bytes b <= out_bytes b')%Z;
  sp_calls : (calls b <= calls b')%Z;
  sp_made : (n <= out_bytes b' - out_bytes b + (calls b' - calls b) * (M * M) + extra)%Z;
  sp_overflow : overflow b = true -> overflow b' = true;
}.

Lemma spends_trans M b1 b2 b3 n1 n2 e1 e2 : spends M b1 b2 n1 e1 -> spends M b2 b3 n2 e2 -> spends M b1 b3 (n1 + n2) (e1 + e2).
Proof. intros [] []. split; try lia; auto. Qed.
Lemma spends_less M b b' n e n' e' : (n' <= n)%Z -> (e <= e')%Z -> spends M b b' n e -> spends M b b' n' e'.
Proof. intros ? ? []. split; auto; lia. Qed.
Lemma spends_none M b e : (0 <= e)%Z -> budget_ok b -> spends M b b 0 e.
Proof. intros ? O. split; [done|lia..|done]. Qed.

Lemma spends_nothing M b b' n e : (0 <= M)%Z -> spends M b b' n e -> spends M b b' 0 0.
Proof. intros ? []. split; auto; nia. Qed.

Lemma take_spends M b n valid : (0 <= n)%Z -> (0 <= M)%Z -> budget_ok b ->
  let '(ok, _, b') := var_budget_take b n valid in spends M b b' (if ok : bool then n else 0) 0.
Proof.
  intros Hn HM O. unfold var_budget_take. destruct (overflow b) eqn:Ov; [by apply spends_none|]. destruct O as (O1 & O2 & O3).
  specialize (O3 Ov). destruct (_ <? n)%Z eqn:L; [apply Z.ltb_lt in L|apply Z.ltb_ge in L]; split; unfold budget_ok; cbn; try congruence; try lia; repeat split; congruence || lia.
Qed.

Section Costs.
Variable M : Z.
Hypothesis HM : (0 <= M)%Z.
Hypothesis Within : texts_within M.

Definition sub_spends (e : Z) (sub : bytes -> ns_var_budget -> bytes * bool * ns_var_budget) : Prop :=
  forall t b, (zlen t <= M)%Z -> budget_ok b -> let '(s, _, b') := sub t b in spends M b b' (zlen s) e.

Lemma replacement_within name r : replacement vars name = Some r -> (zlen r <= M)%Z.
Proof.
  unfold replacement. destruct (prefixb _ _); [|done]. destruct (ns_var_map_lookup vars name) as [x|] eqn:E; [|done].
  destruct (_ && _); intros [= <-]. by apply Within in E.
Qed.
Lemma fallback_spends sub fb b : sub_spends M sub -> (forall t, fb = Some t -> (zlen t <= M)%Z) -> budget_ok b ->
  let '(v, b') := fallback_value sub fb b in spends M b b' (zlen (default [] v)) M.
Proof.
  intros S F O. destruct fb as [t|]; cbn; [|by apply spends_none]. specialize (S t b (F t eq_refl) O).
  destruct (sub t b) as [[s []] b']; cbn; [done|]. eapply spends_less, S; [apply zlen_nonneg|lia].
Qed.
Lemma initial_spends sub name s b : sub_spends M sub -> budget_ok b ->
  let '(s', valid, b') := registered_initial regs sub name s b in spends M b b' (if valid : bool then zlen s' else 0) M.
Proof.
  intros S O. unfold registered_initial. destruct (regs !! name) as [pr|] eqn:E; [|by apply spends_none].
  destruct (has_initial pr); [|by apply spends_none]. destruct (initial_value pr) as [i|] eqn:I; [|by apply spends_none].
  specialize (S i b (proj2 Within name pr i E I) O). destruct (sub i b) as [[s' []] b']; [done|].
  eapply spends_less, S; [apply zlen_nonneg|lia].
Qed.
Lemma var_spends sub name fb b : sub_spends M sub -> (forall t, fb = Some t -> (zlen t <= M)%Z) -> budget_ok b ->
  let '(v, b') := var_value regs vars sub name fb b in spends M b b' (zlen (default [] v)) M.
Proof.
  intros S F O. unfold var_value. destruct (replacement vars name) as [r|] eqn:R; [|by apply fallback_spends].
  pose proof (S r b (replacement_within _ _ R) O) as H1. destruct (sub r b) as [[s v1] b1].
  assert (let '(s', v2, b2) := if v1 && custom_prop_value_invalid (Some s) then registered_initial regs sub name s b1 else (s, v1, b1) in
    spends M b b2 (if v2 : bool then zlen s' else 0) M) as H2.
  { destruct (v1 && _).
    - pose proof (initial_spends sub name s b1 S (sp_ok _ _ _ _ _ H1)) as H2. destruct (registered_initial _ _ _ _ _) as [[s' v2] b2].
      eapply spends_less, spends_trans; [| |exact (spends_nothing _ _ _ _ _ HM H1)|exact H2]; lia.
    - destruct v1; [done|]. eapply spends_less, H1; [apply zlen_nonneg|lia]. }
  destruct (if v1 && _ then _ else _) as [[s' []] b2]; [done|].
  pose proof (fallback_spends sub fb b2 S F (sp_ok _ _ _ _ _ H2)) as H3. destruct (fallback_value sub fb b2) as [v b3].
  eapply spends_less, spends_trans; [| |exact (spends_nothing _ _ _ _ _ HM H2)|exact H3]; lia.
Qed.

Lemma loop_spends sub n : sub_spends M sub -> forall p valid b, (zlen p <= M)%Z -> budget_ok b ->
  let '(s, _, b') := subst_loop regs vars sub n p valid b in spends M b b' (zlen s) (zlen p * M).
Proof.
  intros S. induction n as [|n IH]; intros p valid b Hp O; pose proof (zlen_nonneg p).
  { apply spends_none; [nia|done]. }
  destruct p as [|c p]; [by apply spends_none|]. cbn [subst_loop]. set (q := c :: p) in *. pose proof (zlen_nonneg q) as Hq.
  destruct (css_find_function q _) as [k|] eqn:F.
  2: { pose proof (take_spends M b (zlen q) valid Hq HM O) as T. destruct (var_budget_take _ _ _) as [[ok v1] b1].
       eapply spends_less, T; [by destruct ok|nia]. }
  pose proof (take_spends M b (Z.of_nat k) valid ltac:(lia) HM O) as T. destruct (var_budget_take _ _ _) as [[[] v1] b1].
  2: { eapply spends_less, T; [done|nia]. }
  pose proof (find_lt _ _ F) as Lk. destruct (var_args _) as [[[name fb] rest]|] eqn:A.
  2: { eapply spends_less, T; [unfold zlen; rewrite length_take; lia|nia]. }
  destruct (next_lt _ _ _ _ _ F A) as [Lr Lf].
  pose proof (var_spends sub name fb b1 S) as V. destruct (var_value _ _ _ _ _ _) as [v b2].
  assert (spends M b1 b2 (zlen (default [] v)) M) as V' by (apply V; [intros t Ht%Lf; unfold zlen in *; lia|apply (sp_ok _ _ _ _ _ T)]).
  specialize (IH rest (v1 && bool_decide (is_Some v)) b2). destruct (subst_loop _ _ _ _ _ _ _) as [[t v3] b3].
  eapply spends_less, (spends_trans _ _ _ _ _ _ _ _ T), (spends_trans _ _ _ _ _ _ _ _ V'), IH.
  - rewrite !zlen_app. unfold zlen at 1. rewrite length_take. lia.
  - unfold zlen in *. assert (Z.of_nat (length rest) + 1 <= Z.of_nat (length q))%Z by lia. nia.
  - unfold zlen in *. lia.
  - apply (sp_ok _ _ _ _ _ V').
Qed.
Lemma substitute_spends d : sub_spends (if d is O then M else 0) (substitute_vars_with_valid regs vars d).
Proof.
  induction d as [|d IH]; intros t b Ht O; cbn [substitute_vars_with_valid].
  { split; [done|lia..|done]. }
  destruct (overflow b) eqn:Ov; [by apply spends_none|]. pose proof O as (O1 & O2 & O3). specialize (O3 Ov).
  destruct (_ <? _)%Z eqn:L; [apply Z.ltb_lt in L|apply Z.ltb_ge in L].
  { change (zlen []) with 0%Z. split; unfold budget_ok; cbn; try congruence; nia. }
  assert (sub_spends M (substitute_vars_with_valid regs vars d)) as S.
  { intros t' b' Ht' O'. specialize (IH t' b' Ht' O'). destruct (substitute_vars_with_valid _ _ _ _ _) as [[s v] b''].
    eapply spends_less, IH; [done|destruct d; lia]. }
  set (b1 := {| out_bytes := _ |}). pose proof (loop_spends _ (length t) S t true b1 Ht) as H.
  destruct (subst_loop _ _ _ _ _ _ _) as [[s v] b'].
  destruct H as [Ok Ob Oc Om Oo]; [unfold budget_ok; cbn; repeat split; congruence || lia|]. cbn in Ob, Oc, Om.
  pose proof (zlen_nonneg t). split; try done; try lia; try congruence. nia.
Qed.
End Costs.

(** ** Texts over the budget *)

Definition invalid_over (r : bytes * bool * ns_var_budget) : Prop := overflow r.2 = true -> r.1.2 = false.
(** What is known of nested calls: past the budget they are not valid, or, at the last
    level, they leave it as it is. *)
Definition sub_honest (sub : bytes -> ns_var_budget -> bytes * bool * ns_var_budget) : Prop :=
  (forall t b, invalid_over (sub t b)) \/ (forall t b, (sub t b).2 = b).

Lemma var_honest sub name fb b : sub_honest sub -> overflow b = false ->
  let '(v, b') := var_value regs vars sub name fb b in overflow b' = true -> v = None.
Proof.
  intros S Hb.
  assert (forall b1, overflow b1 = false \/ (forall t b, invalid_over (sub t b)) ->
    let '(v, b') := fallback_value sub fb b1 in overflow b' = true -> v = None) as F.
  { intros b1 H1. destruct fb as [t|]; cbn; [|done]. destruct (sub t b1) as [[s v] b2] eqn:E. destruct S as [S|S]; specialize (S t b1);
    rewrite E in S; unfold invalid_over in *; cbn in S; [intros H; by rewrite (S H)|]. subst b2. destruct H1 as [H1|H1]; [congruence|].
    specialize (H1 t b1). rewrite E in H1. cbn in H1. intros H. by rewrite (H1 H). }
  unfold var_value. destruct (replacement vars name) as [r|]; [|apply F; tauto].
  destruct S as [S|S].
  - pose proof (S r b) as H1. destruct (sub r b) as [[s v1] b1]. unfold invalid_over in H1; cbn in H1.
    assert (invalid_over (if v1 && custom_prop_value_invalid (Some s) then registered_initial regs sub name s b1 else (s, v1, b1))) as H2.
    { destruct v1; [|done]. destruct (custom_prop_value_invalid _); cbn; [|done]. unfold registered_initial.
      destruct (regs !! name) as [pr|]; [|by intros ?]. destruct (has_initial pr); [|by intros ?]. destruct (initial_value pr); [apply S|]. exact H1. }
    destruct (if v1 && _ then _ else _) as [[s' []] b2]; [intros H; discriminate (H2 H)|apply F; by right].
  - pose proof (S r b) as H1. destruct (sub r b) as [[s v1] b1]. cbn in H1. subst b1.
    assert ((if v1 && custom_prop_value_invalid (Some s) then registered_initial regs sub name s b else (s, v1, b)).2 = b) as H2.
    { destruct (v1 && _); [|done]. unfold registered_initial.
      destruct (regs !! name) as [pr|]; [|done]. destruct (has_initial pr); [|done]. destruct (initial_value pr); [apply S|done]. }
    destruct (if v1 && _ then _ else _) as [[s' []] b2]; cbn in H2; subst b2; [congruence|]. apply F. by left.
Qed.
Lemma loop_honest sub n : sub_honest sub -> forall p valid b, (overflow b = true -> valid = false) ->
  invalid_over (subst_loop regs vars sub n p valid b).
Proof.
  intros S. induction n as [|n IH]; intros [|c p] valid b I; try exact I. cbn [subst_loop].
  assert (forall k, let '(ok, v, b1) := var_budget_take b k valid in (overflow b1 = true -> v = false) /\ (ok = true -> overflow b1 = false)) as T.
  { intros k. unfold var_budget_take. destruct (overflow b) eqn:E; [by split; [intros _; apply I|]|]. by destruct (_ <? _)%Z. }
  destruct (css_find_function _ _) as [k|].
  2: { specialize (T (zlen (c :: p))). destruct (var_budget_take _ _ _) as [[ok v] b1]. exact (proj1 T). }
  specialize (T (Z.of_nat k)). destruct (var_budget_take _ _ _) as [[[] v] b1]; [|exact (proj1 T)].
  destruct T as [T1 T2]. destruct (var_args _) as [[[name fb] rest]|]; [|exact T1].
  pose proof (var_honest sub name fb b1 S (T2 eq_refl)) as V. destruct (var_value _ _ _ _ _ _) as [x b2].
  specialize (IH rest (v && bool_decide (is_Some x)) b2). destruct (subst_loop _ _ _ _ _ _ _) as [[t v3] b3].
  apply IH. intros H. by rewrite (V H), andb_false_r.
Qed.
Lemma substitute_honest d t b : invalid_over (substitute_vars_with_valid regs vars (S d) t b).
Proof.
  revert t b. assert (forall d, sub_honest (substitute_vars_with_valid regs vars d) -> forall t b, invalid_over (substitute_vars_with_valid regs vars (S d) t b)) as St.
  { intros d' S t b. cbn [substitute_vars_with_valid]. destruct (overflow b) eqn:Ov; [by intros ?|]. destruct (_ <? _)%Z; [by intros ?|].
    by apply loop_honest. }
  induction d as [|d IH]; apply St; [by right|by left].
Qed.


(** C29. A bound on what a substitution makes: when the text, the values and the
    registered initial values have [M] bytes at most, the text it gives has at most a
    mebibyte of bytes taken from the budget and [M * M] for each of its calls, of which
    there are at most 100001. A text that is valid is whole: the budget was not spent. *)
Theorem substitution_bounded M t levels : (zlen t <= M)%Z -> texts_within M ->
  let '(s, valid, b) := substitute_vars_with_valid regs vars (S levels) t no_budget_used in
  (zlen s <= NS_CSS_VAR_EXPAND_MAX + (NS_CSS_VAR_EXPAND_CALLS + 1) * (M * M))%Z /\
  (out_bytes b <= NS_CSS_VAR_EXPAND_MAX)%Z /\ (calls b <= NS_CSS_VAR_EXPAND_CALLS + 1)%Z /\ (valid = true -> overflow b = false).
Proof.
  intros Ht W. pose proof (zlen_nonneg t). assert (0 <= M)%Z as HM by lia.
  pose proof (substitute_spends M HM W (S levels) t no_budget_used Ht) as S. pose proof (substitute_honest levels t no_budget_used) as V.
  destruct (substitute_vars_with_valid _ _ _ _ _) as [[s v] b]. destruct S as [(B1 & B2 & _) _ _ Made _]; [by repeat split|]. cbn in Made, V.
  repeat split; [nia|lia..|]. intros ->. destruct (overflow b) eqn:O; [|done]. by specialize (V O).
Qed.
End Lengths.
