(* ===== verification/CssVarsText.v ===== *)
(** * Custom properties: texts as trees

    A text as characters and references, printed the way style sheets write it. What it
    stands for is a function of the tree: a reference stands for its value if that
    value stands for something that is not a word such as [inherit], else for its
    fallback, else the whole text is not valid. *)

From S2P Require Import Prelude CStr GLib CssSyntax Xml Element Selector SelParse CssVars CssVarsSpec.

Inductive text :=
| Done
| Char (c : ascii) (rest : text)
| Ref (name : bytes) (rest : text)
| RefOr (name pre : bytes) (fallback rest : text).

Fixpoint print (t : text) : bytes :=
  match t with
  | Done => []
  | Char c r => c :: print r
  | Ref n r => $"var(" ++ n ++ ")"%char :: print r
  | RefOr n pre f r => $"var(" ++ n ++ ","%char :: pre ++ print f ++ ")"%char :: print r
  end.

Section Texts.
Context {G : GLib}.

(** ** Texts that print and read back *)

Definition boundary (prev : option ascii) : bool := match prev with None => true | Some d => negb (is_ident d) end.
Definition var_here (prev : option ascii) (s : bytes) : bool :=
  (3 <? length s) && (nth 3 s nul =c "(") && g_ascii_strncasecmp0 s ($"var") 3 && boundary prev.
(** Characters that do not quote, escape, comment or bracket, parentheses apart. *)
Definition plain (c : ascii) : bool := negb (memb c [slash; dquote; "'"%char; "/"%char; nul; "["%char; "]"%char; "{"%char; "}"%char]).
(** Parentheses match, in [d] of its own and [o] around it, never more than the scan
    can keep. *)
Fixpoint balanced (o d : nat) (t : text) : bool :=
  match t with
  | Done => d =? 0
  | Char c r =>
      if c =c "(" then (o + d <? NS_CSS_SCAN_DEPTH) && balanced o (S d) r
      else if c =c ")" then match d with O => false | S d' => balanced o d' r end
      else balanced o d r
  | Ref _ r => (o + d <? NS_CSS_SCAN_DEPTH) && balanced o d r
  | RefOr _ _ f r => (o + d <? NS_CSS_SCAN_DEPTH) && balanced (S (o + d)) 0 f && balanced o d r
  end.
Fixpoint wf (prev : option ascii) (t : text) : bool :=
  match t with
  | Done => true
  | Char c r => plain c && negb (var_here prev (c :: print r)) && wf (Some c) r
  | Ref n r => boundary prev && allb is_ident n && wf None r
  | RefOr n pre f r =>
      boundary prev && allb is_ident n && allb is_ws pre && (css_trim_dup_range (print f) =b print f) && balanced 0 0 f && wf None f && wf None r
  end.

(** ** Reading *)

Lemma plain_facts c : plain c = true ->
  (c =c slash) = false /\ (c =c "/") = false /\ quote_char c = false /\ (c =c nul) = false /\
  closer_of c = if c =c "(" then Some ")"%char else None.
Proof.
  assert (implb (plain c) (negb (c =c slash) && negb (c =c "/") && negb (quote_char c) && negb (c =c nul) &&
    bool_decide (closer_of c = if c =c "(" then Some ")"%char else None)) = true) as B by by_bytes c.
  intros P. rewrite P in B. cbn [implb] in B. rewrite !andb_true_iff, !negb_true_iff, bool_decide_eq_true in B. tauto.
Qed.

(** The characters before the first reference, and the text from there. *)
Fixpoint lead (t : text) : bytes := match t with Char c r => c :: lead r | _ => [] end.
Fixpoint skip (t : text) : text := match t with Char _ r => skip r | _ => t end.
Definition leads (t : text) : option nat := match skip t with Done => None | _ => Some (length (lead t)) end.
Lemma print_skip t : print t = lead t ++ print (skip t).
Proof. induction t as [|c r IH| |]; cbn [print lead skip app]; [done|by rewrite IH at 1|done..]. Qed.
Lemma skip_wf t prev : wf prev t = true -> exists prev', wf prev' (skip t) = true.
Proof. revert prev. induction t as [|c r IH| |]; intros prev W; cbn [skip]; eauto. cbn [wf] in W. apply andb_prop in W as [_ W]. eauto. Qed.
Lemma skip_skip t : skip (skip t) = skip t.
Proof. by induction t. Qed.
Lemma leads_none t : leads t = None -> skip t = Done.
Proof. unfold leads. by destruct (skip t). Qed.
Lemma leads_some t k : leads t = Some k -> skip t <> Done /\ k = length (lead t).
Proof. unfold leads. destruct (skip t); [done|..]; by intros [= <-]. Qed.
Lemma skip_ref t : match skip t with Char _ _ => False | _ => True end.
Proof. by induction t. Qed.

Lemma find_ref n prev s : GLibSpec G -> boundary prev = true -> find_loop (S n) ($"var") prev None ($"var(" ++ s) = Some 0.
Proof.
  intros Sp B. change ($"var(" ++ s) with ("v" :: "a" :: "r" :: "(" :: s)%char. cbn [find_loop]. unfold boundary in B. rewrite B, andb_true_r.
  change (opens_comment _) with false. change (("v" =c slash)%char && _) with false. change (quote_char "v") with false. cbn match.
  rewrite (strncasecmp_doc (G := G)). change (nth _ _ _ =c "(") with true. change (_ =b _) with true. done.
Qed.
Lemma find_text n : forall t prev, GLibSpec G -> wf prev t = true -> length (print t) <= n -> find_loop n ($"var") prev None (print t) = leads t.
Proof.
  induction n as [|n IH]; intros [|c r|nm r|nm pre f r] prev Sp W L; try done;
    try (exfalso; cbn [print] in L; rewrite ?length_app in L; cbn in L; lia).
  - cbn [print wf] in *. apply andb_prop in W as [W Wr]. apply andb_prop in W as [P V]. apply negb_true_iff in V.
    destruct (plain_facts c P) as (P1 & P2 & P3 & _). cbn [find_loop].
    assert (opens_comment (c :: print r) = false) as -> by (cbn; destruct (print r); by rewrite ?P2). rewrite P1, P3. cbn [andb]. unfold var_here, boundary in V.
    change (length ($"var")) with 3. rewrite V. cbn [length] in L. change (drop 1 (c :: print r)) with (print r).
    cbn [Nat.sub nth]. rewrite IH by (done || lia). unfold leads. cbn [skip lead]. by destruct (skip r).
  - cbn [print wf] in *. apply find_ref; [done|]. by destruct (boundary prev).
  - cbn [print wf] in *. apply find_ref; [done|]. by destruct (boundary prev).
Qed.

(** *** The end of a reference *)

Definition shut (k : nat) : list ascii := repeat ")"%char k.
Lemma scan_step n c p T stack : plain c = true ->
  scan_loop (S n) (c :: p) T None stack =
  if (length stack =? 0) && memb c T then (0, Some c)
  else
    let stack' :=
      if c =c "(" then if length stack <? NS_CSS_SCAN_DEPTH then ")"%char :: stack else stack
      else match stack with d :: rest => if c =c d then rest else stack | [] => [] end in
    let '(k, t) := scan_loop n p T None stack' in (S k, t).
Proof.
  intros P. destruct (plain_facts c P) as (P1 & P2 & P3 & P4 & P5). unfold quote_char in P3. cbn [scan_loop].
  rewrite P1, P2, P3, P4, P5, orb_false_r. cbn [andb]. destruct (_ && _); [done|]. change (drop 1 (c :: p)) with p.
  destruct (c =c "("); [done|]. by destruct stack.
Qed.

(** Scanning past characters that change nothing. *)
Definition inert (c : ascii) : bool := plain c && negb (c =c "(") && negb (c =c ")").
Lemma scan_inert T s : forall m r k, allb inert s = true -> (k = 0 -> allb (fun c => negb (memb c T)) s = true) ->
  scan_loop (length s + m) (s ++ r) T None (shut k) = (let '(j, x) := scan_loop m r T None (shut k) in (length s + j, x)).
Proof.
  induction s as [|c s IH]; intros m r k A F; cbn [length Nat.add app]; [by destruct (scan_loop _ _ _ _ _)|].
  cbn [allb] in A. apply andb_prop in A as [A As]. apply andb_prop in A as [A A2]. apply andb_prop in A as [P A1].
  apply negb_true_iff in A1, A2. rewrite scan_step by done. rewrite A1.
  assert ((length (shut k) =? 0) && memb c T = false) as ->.
  { destruct k; [|done]. specialize (F eq_refl). cbn in F. apply andb_prop in F as [F _]. by apply negb_true_iff in F. }
  assert (match shut k with d :: rest => if c =c d then rest else shut k | [] => [] end = shut k) as -> by (destruct k; cbn; by rewrite ?A2).
  cbv zeta. rewrite IH; [by destruct (scan_loop _ _ _ _ _)|done|]. intros Hk. specialize (F Hk). cbn in F. by apply andb_prop in F as [_ F].
Qed.
Lemma ident_inert s : allb is_ident s = true -> allb inert s = true /\ allb (fun c => negb (memb c ($","))) s = true /\ css_trim_dup_range s = s.
Proof.
  intros A.
  assert (forall c, is_ident c = true -> inert c = true /\ negb (memb c ($",")) = true /\ is_ws c = false) as F.
  { intros c. assert (implb (is_ident c) (inert c && negb (memb c ($",")) && negb (is_ws c)) = true) as B by by_bytes c.
    intros I. rewrite I in B. cbn [implb] in B. rewrite !andb_true_iff, (negb_true_iff (is_ws c)) in B. tauto. }
  split; [eapply allb_impl, A; intros c ?; by apply F|]. split; [eapply allb_impl, A; intros c ?; by apply F|].
  assert (forall s, allb is_ident s = true -> drop_while is_ws s = s) as D.
  { intros [|c l]; [done|]. cbn. intros [I _]%andb_prop. by destruct (F c I) as (_ & _ & ->). }
  unfold css_trim_dup_range. rewrite (D s A), D, rev_involutive; [done|]. rewrite allb_forall in *. by apply Forall_rev.
Qed.
Lemma ws_inert s : allb is_ws s = true -> allb inert s = true.
Proof.
  apply allb_impl. intros c. assert (implb (is_ws c) (inert c) = true) as B by by_bytes c. intros H. by rewrite H in B.
Qed.

Lemma wf_ref prev nm r : wf prev (Ref nm r) = true -> boundary prev = true /\ allb is_ident nm = true /\ wf None r = true.
Proof. cbn [wf]. intros [[? ?]%andb_prop ?]%andb_prop. done. Qed.
Lemma wf_or prev nm pre f r : wf prev (RefOr nm pre f r) = true ->
  boundary prev = true /\ allb is_ident nm = true /\ allb is_ws pre = true /\ css_trim_dup_range (print f) = print f /\
  balanced 0 0 f = true /\ wf None f = true /\ wf None r = true.
Proof.
  cbn [wf]. intros [[[[[[? ?]%andb_prop ?]%andb_prop E]%andb_prop ?]%andb_prop ?]%andb_prop ?]%andb_prop.
  apply bool_decide_eq_true in E. done.
Qed.

(** A piece [s] that takes the scan from [k] parentheses to [k']. *)
Definition passes (k k' : nat) (s : bytes) : Prop := forall m r,
  scan_loop (length s + m) (s ++ r) ($")") None (shut k) = (let '(j, x) := scan_loop m r ($")") None (shut k') in (length s + j, x)).
Lemma passes_app k1 k2 k3 s t : passes k1 k2 s -> passes k2 k3 t -> passes k1 k3 (s ++ t).
Proof.
  intros H1 H2 m r. rewrite length_app, <- Nat.add_assoc, <- app_assoc, H1, H2. destruct (scan_loop _ _ _ _ _). f_equal. lia.
Qed.
Lemma passes_nil k : passes k k [].
Proof. intros m r. cbn. by destruct (scan_loop _ _ _ _ _). Qed.
Lemma passes_inert k s : allb inert s = true -> passes k k s.
Proof.
  intros A m r. apply scan_inert; [done|]. intros _. revert A. apply allb_impl. intros c H. apply andb_prop in H as [_ H].
  change (negb ((c =c ")") || false) = true). by destruct (c =c ")").
Qed.
Lemma passes_open k : k < NS_CSS_SCAN_DEPTH -> passes k (S k) ($"(").
Proof.
  intros L m r. change ($"(") with ["("%char]. cbn [length Nat.add app]. rewrite scan_step by reflexivity.
  change (memb _ _) with false. rewrite andb_false_r. cbn match. unfold shut at 1. rewrite repeat_length. apply Nat.ltb_lt in L. by rewrite L.
Qed.
Lemma passes_shut k : passes (S k) k ($")").
Proof. intros m r. change ($")") with [")"%char]. cbn [length Nat.add app]. by rewrite scan_step by reflexivity. Qed.
Lemma passes_char k c : plain c = true -> (c =c "(") = false -> (c =c ")") = false -> passes k k [c].
Proof. intros P A B. apply passes_inert. cbn. unfold inert. by rewrite P, A, B. Qed.
Lemma passes_var k : k < NS_CSS_SCAN_DEPTH -> passes k (S k) ($"var(").
Proof. intros L. apply (passes_app k k (S k) ($"var")); [by apply passes_inert|by apply passes_open]. Qed.

(** A text whose parentheses match is passed as a whole. *)
Lemma passes_text t : forall prev o d, wf prev t = true -> balanced o d t = true -> passes (o + d) o (print t).
Proof.
  induction t as [|c r IH|nm r IH|nm pre f IHf r IH]; intros prev o d W B; cbn [print].
  - apply Nat.eqb_eq in B as ->. rewrite Nat.add_0_r. apply passes_nil.
  - cbn [wf balanced] in W, B. apply andb_prop in W as [W Wr]. apply andb_prop in W as [P _]. change (c :: print r) with ([c] ++ print r).
    destruct (c =c "(") eqn:E1.
    { apply Ascii.eqb_eq in E1 as ->. apply andb_prop in B as [L B]. apply Nat.ltb_lt in L.
      eapply passes_app; [by apply passes_open|]. rewrite <- Nat.add_succ_r. by eapply IH. }
    destruct (c =c ")") eqn:E2.
    { apply Ascii.eqb_eq in E2 as ->. destruct d as [|d]; [done|]. rewrite Nat.add_succ_r.
      eapply passes_app; [apply passes_shut|]. by eapply IH. }
    eapply passes_app; [by apply passes_char|]. by eapply IH.
  - destruct (wf_ref _ _ _ W) as (_ & I & Wr). apply andb_prop in B as [L B]. apply Nat.ltb_lt in L.
    eapply passes_app; [by apply passes_var|]. eapply passes_app; [apply passes_inert, (ident_inert _ I)|].
    apply (passes_app _ (o + d) _ ($")")); [apply passes_shut|]. by eapply IH.
  - destruct (wf_or _ _ _ _ _ W) as (_ & I & Ws & _ & _ & Wf & Wr). apply andb_prop in B as [[L Bf]%andb_prop B]. apply Nat.ltb_lt in L.
    eapply passes_app; [by apply passes_var|]. eapply passes_app; [apply passes_inert, (ident_inert _ I)|].
    apply (passes_app _ (S (o + d)) _ ($",")); [by apply passes_inert|]. eapply passes_app; [by apply passes_inert, ws_inert|].
    eapply passes_app; [specialize (IHf None (S (o + d)) 0 Wf Bf); by rewrite Nat.add_0_r in IHf|].
    apply (passes_app _ (o + d) _ ($")")); [apply passes_shut|]. by eapply IH.
Qed.
(** The scan stops at the parenthesis that matches. *)
Lemma scan_args s r : passes 0 0 s -> css_scan_until (s ++ ")"%char :: r) ($")") = (s, ")"%char :: r, Some ")"%char).
Proof.
  intros P. unfold css_scan_until, ns_css_syntax_scan. rewrite length_app. change (@nil ascii) with (shut 0). rewrite P.
  cbn [length]. rewrite scan_step by reflexivity. change (memb _ _) with true. cbn. by rewrite Nat.add_0_r, take_app_length, drop_app_length.
Qed.
Lemma args_ref nm r : allb is_ident nm = true -> var_args ($"var(" ++ nm ++ ")"%char :: r) = Some (nm, None, r).
Proof.
  intros I. destruct (ident_inert nm I) as (I1 & I2 & I3). unfold var_args. change (drop 4 _) with (nm ++ ")"%char :: r).
  rewrite scan_args by (by apply passes_inert). rewrite bool_decide_true by done.
  assert (css_scan_until nm ($",") = (nm, [], None)) as ->; [|by rewrite I3].
  unfold css_scan_until, ns_css_syntax_scan. change (@nil ascii) with (shut 0). pose proof (scan_inert ($",") nm 0 [] 0 I1 ltac:(done)) as E.
  rewrite app_nil_r, Nat.add_0_r in E. rewrite E. cbn. by rewrite Nat.add_0_r, firstn_all, drop_all.
Qed.
Lemma args_or nm pre f r : allb is_ident nm = true -> allb is_ws pre = true -> css_trim_dup_range (print f) = print f ->
  balanced 0 0 f = true -> wf None f = true ->
  var_args ($"var(" ++ nm ++ ","%char :: pre ++ print f ++ ")"%char :: r) = Some (nm, Some (print f), r).
Proof.
  intros I Ws Tr B W. destruct (ident_inert nm I) as (I1 & I2 & I3). unfold var_args.
  assert (drop 4 ($"var(" ++ nm ++ ","%char :: pre ++ print f ++ ")"%char :: r) = (nm ++ $"," ++ pre ++ print f) ++ ")"%char :: r) as ->.
  { change (drop 4 _) with (nm ++ ","%char :: pre ++ print f ++ ")"%char :: r). by rewrite <- !app_assoc. }
  assert (passes 0 0 (nm ++ $"," ++ pre ++ print f)) as P.
  { eapply passes_app; [by apply passes_inert|]. eapply (passes_app 0 0); [by apply passes_inert|].
    eapply passes_app; [by apply passes_inert, ws_inert|by apply (passes_text f None 0 0)]. }
  rewrite scan_args, bool_decide_true by done.
  assert (css_scan_until (nm ++ $"," ++ pre ++ print f) ($",") = (nm, ","%char :: pre ++ print f, Some ","%char)) as ->.
  { unfold css_scan_until, ns_css_syntax_scan. change (@nil ascii) with (shut 0). rewrite length_app, (scan_inert ($",") nm _ _ 0 I1 ltac:(done)).
    change ($"," ++ pre ++ print f) with (","%char :: pre ++ print f). cbn [length]. rewrite scan_step by reflexivity. change (memb _ _) with true. cbn.
    by rewrite Nat.add_0_r, take_app_length, drop_app_length. }
  rewrite I3, bool_decide_true by done. cbn [drop]. f_equal. f_equal. f_equal. f_equal. rewrite <- Tr at 2. unfold css_trim_dup_range. do 3 f_equal.
  clear -Ws. induction pre as [|c pre IH]; cbn in *; [done|]. apply andb_prop in Ws as [-> Ws]. by apply IH.
Qed.

(** ** What a text stands for *)

Section Meaning.
(** The values, as trees. *)
Variable values : bytes -> option text.

Definition not_a_word (s : bytes) : bool := negb (custom_prop_value_invalid (Some s)).
Definition usable (name : bytes) : option text :=
  if prefixb ($"--") name then
    match values name with Some r => if negb (print r =b []) && not_a_word (print r) then Some r else None | None => None end
  else None.

Section Level.
(** What the texts of values and fallbacks stand for: [None] when they are nested too
    deep to tell, [Some None] when they are not valid. *)
Variable ev : text -> option (option bytes).
Definition ev_fallback (fb : option text) : option (option bytes) := match fb with Some f => ev f | None => Some None end.
Definition ev_reference (name : bytes) (fb : option text) : option (option bytes) :=
  match usable name with
  | Some r => x ← ev r; match x with Some s => if not_a_word s then Some (Some s) else ev_fallback fb | None => ev_fallback fb end
  | None => ev_fallback fb
  end.
Definition join (x y : option bytes) : option bytes := a ← x; b ← y; Some (a ++ b).
Fixpoint ev_text (t : text) : option (option bytes) :=
  match t with
  | Done => Some (Some [])
  | Char c r => x ← ev_text r; Some (join (Some [c]) x)
  | Ref n r => v ← ev_reference n None; x ← ev_text r; Some (join v x)
  | RefOr n _ f r => v ← ev_reference n (Some f); x ← ev_text r; Some (join v x)
  end.
End Level.
Fixpoint stands_for (levels : nat) (t : text) : option (option bytes) :=
  match levels with O => None | S d => ev_text (stands_for d) t end.

(** ** Substitution gives what the text stands for *)

Context (regs : gmap bytes ns_css_property_rule) (vars : ns_var_map).
Hypothesis Sp : GLibSpec G.
Hypothesis Printed : forall n, ns_var_map_lookup vars n = print <$> values n.
Hypothesis Wf : forall n t, values n = Some t -> wf None t = true.
Hypothesis No_initial : forall n pr, regs !! n = Some pr -> has_initial pr = false.

Lemma replacement_usable name : replacement vars name = print <$> usable name.
Proof.
  unfold replacement, usable, not_a_word. destruct (prefixb _ _); [|done]. rewrite Printed. destruct (values name) as [r|]; [|done]. cbn. by destruct (_ && _).
Qed.
Lemma usable_wf name r : usable name = Some r -> wf None r = true.
Proof. unfold usable. destruct (prefixb _ _); [|done]. destruct (values name) eqn:E; [|done]. destruct (_ && _); [|done]. intros [= <-]. by eapply Wf. Qed.

Definition outcome (r : bytes * bool * ns_var_budget) : option bytes := if r.1.2 then Some r.1.1 else None.
Definition sub_mono (sub : bytes -> ns_var_budget -> bytes * bool * ns_var_budget) : Prop :=
  forall t b, overflow b = true -> overflow (sub t b).2 = true.
(** Within the budget, the nested call gives what the text stands for. *)
Definition sub_meets (ev : text -> option (option bytes)) (sub : bytes -> ns_var_budget -> bytes * bool * ns_var_budget) : Prop :=
  forall t r b, wf None t = true -> ev t = Some r -> overflow (sub (print t) b).2 = false -> outcome (sub (print t) b) = r.

Lemma back b b' : (overflow b = true -> overflow b' = true) -> overflow b' = false -> overflow b = false.
Proof. destruct (overflow b); [|done]. intros H. by rewrite H. Qed.

Section Levels.
Context ev sub (Mono : sub_mono sub) (Meets : sub_meets ev sub).

Lemma fallback_mono fb b : overflow b = true -> overflow (fallback_value sub fb b).2 = true.
Proof. destruct fb as [f|]; [|done]. cbn. specialize (Mono f b). by destruct (sub f b) as [[s v] b']. Qed.
Lemma fallback_meets fb r b : (forall f, fb = Some f -> wf None f = true) -> ev_fallback ev fb = Some r ->
  let '(v, b') := fallback_value sub (print <$> fb) b in overflow b' = false -> overflow b = false /\ v = r.
Proof.
  intros W E. destruct fb as [f|]; cbn in *; [|by injection E as <-]. pose proof (Meets f r b (W f eq_refl) E) as M1.
  pose proof (Mono (print f) b) as M2. destruct (sub (print f) b) as [[s v] b']. unfold outcome in M1. cbn in M1, M2.
  intros O. split; [by apply (back b b')|]. by apply M1.
Qed.
Lemma initial_none name s b : registered_initial regs sub name s b = (s, false, b).
Proof. unfold registered_initial. destruct (regs !! name) eqn:E; [|done]. by rewrite (No_initial _ _ E). Qed.
Lemma reference_meets name fb r b : (forall f, fb = Some f -> wf None f = true) -> ev_reference ev name fb = Some r ->
  let '(v, b') := var_value regs vars sub name (print <$> fb) b in overflow b' = false -> overflow b = false /\ v = r.
Proof.
  intros W E. unfold var_value, ev_reference in *. rewrite replacement_usable. destruct (usable name) as [t|] eqn:U; cbn [fmap option_fmap option_map].
  2: { by apply fallback_meets. }
  destruct (ev t) as [x|] eqn:Et; [|done]. cbn in E. pose proof (Meets t x b (usable_wf _ _ U) Et) as M1. pose proof (Mono (print t) b) as M2.
  destruct (sub (print t) b) as [[s v] b1]. unfold outcome in M1. cbn in M1, M2.
  assert ((overflow b1 = false -> ev_fallback ev fb = Some r) ->
    let '(y, b') := fallback_value sub (print <$> fb) b1 in overflow b' = false -> overflow b = false /\ y = r) as F.
  { intros H1. pose proof (fallback_meets fb r b1 W) as H. pose proof (fallback_mono (print <$> fb) b1) as Hm. destruct (fallback_value _ _ _) as [y b'].
    intros O. pose proof (back _ _ Hm O) as O1. destruct (H (H1 O1) O) as [_ ->]. split; [by apply (back b b1)|done]. }
  destruct v; cbn [andb].
  - destruct (custom_prop_value_invalid (Some s)) eqn:I.
    + rewrite initial_none. apply F. intros O. rewrite <- (M1 O) in E. unfold not_a_word in E. by rewrite I in E.
    + intros O. rewrite <- (M1 O) in E. unfold not_a_word in E. rewrite I in E. injection E as <-. split; [by apply (back b b1)|done].
  - apply F. intros O. by rewrite <- (M1 O) in E.
Qed.
Lemma loop_mono m p valid b : overflow b = true -> overflow (subst_loop regs vars sub m p valid b).2 = true.
Proof.
  intros O. destruct m as [|m], p as [|c p]; try done. cbn [subst_loop]. unfold var_budget_take. rewrite O. by destruct (css_find_function _ _).
Qed.
Lemma ev_skip t : ev_text ev t = (x ← ev_text ev (skip t); Some (join (Some (lead t)) x)).
Proof.
  assert (forall u, (x ← u; Some (join (Some []) x)) = u) as I by (by intros [[|]|]).
  induction t as [|c r IH|nm r IH|nm pre f _ r IH]; cbn [lead skip]; rewrite ?I; [done| |done..].
  cbn [ev_text]. rewrite IH. destruct (ev_text ev (skip r)) as [[x|]|]; done.
Qed.
(** The text from the first reference, when there is one. *)
Lemma head_reads t prev r : wf prev t = true -> skip t = t -> t <> Done -> ev_text ev t = Some r ->
  exists nm fb rest v x, var_args (print t) = Some (nm, print <$> fb, print rest) /\ (forall f, fb = Some f -> wf None f = true) /\
    ev_reference ev nm fb = Some v /\ wf None rest = true /\ ev_text ev rest = Some x /\ r = join v x.
Proof.
  intros W Sk Nd E. destruct t as [|c t|nm t|nm pre f t]; [done|..].
  - exfalso. pose proof (skip_ref (Char c t)) as H. by rewrite Sk in H.
  - destruct (wf_ref _ _ _ W) as (_ & I & Wr). cbn [ev_text] in E. destruct (ev_reference ev nm None) as [v|] eqn:Ev; [|done].
    destruct (ev_text ev t) as [x|] eqn:Ex; [|done]. injection E as <-. exists nm, None, t, v, x.
    split; [by apply args_ref|done].
  - destruct (wf_or _ _ _ _ _ W) as (_ & I & Ws & Tr & B & Wf' & Wr). cbn [ev_text] in E. destruct (ev_reference ev nm (Some f)) as [v|] eqn:Ev; [|done].
    destruct (ev_text ev t) as [x|] eqn:Ex; [|done]. injection E as <-. exists nm, (Some f), t, v, x.
    split; [by apply args_or|]. split; [by intros ? [= <-]|done].
Qed.
Lemma take_back b n valid : let '(ok, v, b') := var_budget_take b n valid in overflow b' = false -> overflow b = false /\ ok = true /\ v = valid.
Proof. unfold var_budget_take. destruct (overflow b) eqn:O; [by rewrite O|]. by destruct (_ <? n)%Z. Qed.
Lemma loop_meets n : forall t r valid b, length (print t) <= n -> wf None t = true -> ev_text ev t = Some r ->
  overflow (subst_loop regs vars sub n (print t) valid b).2 = false ->
  overflow b = false /\ outcome (subst_loop regs vars sub n (print t) valid b) = (if valid then r else None).
Proof.
  induction n as [|n IH]; intros t r valid b L W E.
  { destruct t as [|c t|nm t|nm pre f t]; [by injection E as <-|exfalso; cbn [print] in L; rewrite ?length_app in L; cbn in L; lia..]. }
  pose proof (find_text (length (print t)) t None Sp W (le_n _)) as F. fold (css_find_function (print t) ($"var")) in F.
  rewrite ev_skip in E. destruct (ev_text ev (skip t)) as [y|] eqn:Ey; [|done]. injection E as <-.
  destruct (print t) as [|c p] eqn:P.
  { pose proof (print_skip t) as Ps. rewrite P in Ps. symmetry in Ps. apply app_nil in Ps as [-> Ps].
    destruct (skip t) as [|? s|? s|? ? ? s]; cbn in Ps; try done. injection Ey as <-. cbn. by destruct valid. }
  cbn [subst_loop]. rewrite F. rewrite <- P in *. destruct (leads t) as [k|] eqn:Lk.
  2: { apply leads_none in Lk. rewrite Lk in Ey. injection Ey as <-. pose proof (print_skip t) as Ps. rewrite Lk, app_nil_r in Ps. rewrite Ps.
       pose proof (take_back b (zlen (lead t)) valid) as T. destruct (var_budget_take _ _ _) as [[ok v] b']. cbn. intros O.
       destruct (T O) as (? & -> & ->). split; [done|]. cbn. by rewrite app_nil_r. }
  destruct (leads_some _ _ Lk) as [Nd ->]. pose proof (take_back b (Z.of_nat (length (lead t))) valid) as T.
  destruct (var_budget_take _ _ _) as [[[] v] b']; [|intros O; by destruct (T O) as (_ & ? & _)].
  destruct (skip_wf t None W) as [prev' W'].
  destruct (head_reads (skip t) prev' y W' (skip_skip t) Nd Ey) as (nm & fb & rest & x & z & A & Wfb & Ex & Wr & Ez & ->).
  rewrite (print_skip t), drop_app_length, take_app_length, A.
  pose proof (reference_meets nm fb x b' Wfb Ex) as V. destruct (var_value _ _ _ _ _ _) as [x' b2].
  assert (length (print rest) <= n) as Ln.
  { pose proof (next_lt (print t) (length (lead t)) nm (print <$> fb) (print rest) F) as [Lt _]; [|lia]. by rewrite (print_skip t), drop_app_length. }
  specialize (IH rest z (v && bool_decide (is_Some x')) b2 Ln Wr Ez). destruct (subst_loop _ _ _ _ _ _ _) as [[u v'] b3].
  unfold outcome in *. cbn in IH |- *. intros O. destruct (IH O) as [O2 I]. destruct (V O2) as [O1 ->]. destruct (T O1) as (O0 & _ & ->). split; [done|].
  destruct valid, x as [x|]; cbn in I |- *; rewrite ?andb_false_r in *; try (by destruct v').
  rewrite <- I. by destruct v'.
Qed.
End Levels.

Lemma substitute_mono d : sub_mono (substitute_vars_with_valid regs vars d).
Proof. intros t b O. destruct d; cbn [substitute_vars_with_valid]; by rewrite ?O. Qed.
Lemma substitute_meets d : sub_meets (stands_for d) (substitute_vars_with_valid regs vars d).
Proof.
  induction d as [|d IH]; intros t r b W E; [done|]. cbn [substitute_vars_with_valid]. destruct (overflow b) eqn:Ob; [cbn; congruence|].
  destruct (_ <? _)%Z; [done|]. intros O. by apply (loop_meets _ _ (substitute_mono d) IH _ t r true _ (le_n _) W E).
Qed.
End Meaning.

(** C15. What [var()] puts in: for a text and values that print from trees, with no
    registered initial values, [substitute_vars_with] gives what the text stands for
    (the values of its references that are valid and not words such as [inherit], else
    their fallbacks; [NULL] when a reference has neither), whatever the order and the
    nesting of the references, up to the seventeen levels the code goes down; or the
    budget is spent, and it gives [NULL]. *)
Theorem substitution_gives_meaning (values : bytes -> option text) regs vars t r : GLibSpec G ->
  (forall n, ns_var_map_lookup vars n = print <$> values n) ->
  (forall n t, values n = Some t -> wf None t = true) ->
  (forall n pr, regs !! n = Some pr -> has_initial pr = false) ->
  wf None t = true -> stands_for values NS_VAR_LEVELS t = Some r ->
  substitute_vars_with regs vars (Some (print t)) = r \/
  (overflow (substitute_vars_with_valid regs vars NS_VAR_LEVELS (print t) no_budget_used).2 = true /\
   substitute_vars_with regs vars (Some (print t)) = None).
Proof.
  intros Sp Pr Wf Ni W E. unfold substitute_vars_with.
  pose proof (substitute_meets values regs vars Sp Pr Wf Ni NS_VAR_LEVELS t r no_budget_used W E) as M.
  pose proof (substitute_honest regs vars 16 (print t) no_budget_used) as H. change (S 16) with NS_VAR_LEVELS in H. unfold invalid_over, outcome in *.
  destruct (substitute_vars_with_valid _ _ _ _ _) as [[s v] b]. cbn in *. destruct (overflow b); [right; by rewrite (H eq_refl)|left; by apply M].
Qed.

End Texts.
