(* ===== verification/CssVarsCopies.v ===== *)
(** * Custom properties: copies at the last level

    A substitution at its last level copies its text without taking it from the budget:
    values of a few bytes each make a text as long as one likes. *)

From S2P Require Import Prelude CStr GLib CssSyntax Xml Element Selector SelParse CssVars CssVarsSpec CssVarsText.

(** ** Sixteen values that each refer to the next, the last [k] times to one of [n]
    bytes *)

Definition link (c : ascii) : bytes := $"--" ++ [c].
Fixpoint refs (k : nat) : text := match k with O => Done | S k => Ref (link "x") (refs k) end.
Fixpoint chain_table (l : bytes) (last x : bytes) : gmap bytes bytes :=
  match l with
  | [] => {[ link "x" := x ]}
  | c :: l' => <[link c := match l' with [] => last | d :: _ => print (Ref (link d) Done) end]> (chain_table l' last x)
  end.
Definition long_vars (k n : nat) : ns_var_map := [chain_table ($"abcdefghijklmnop") (print (refs k)) (repeat "y"%char n)].

Section Copies.
Context {G : GLib} (Sp : GLibSpec G) (regs : gmap bytes ns_css_property_rule) (vars : ns_var_map).

(** ** Texts that are not words *)

Definition not_ws (c : ascii) : bool := negb (is_ws c).
Lemma trim_not_ws s : allb not_ws s = true -> css_trim_dup_range s = s.
Proof.
  assert (forall s, allb not_ws s = true -> drop_while is_ws s = s) as D.
  { intros [|c l]; [done|]. cbn. unfold not_ws at 1. by destruct (is_ws c). }
  intros A. unfold css_trim_dup_range. rewrite (D s A), D, rev_involutive; [done|]. rewrite allb_forall in *. by apply Forall_rev.
Qed.
Lemma word_is_not c s d w : lower c <> lower d -> word_is (c :: s) (d :: w) = false.
Proof.
  intros N. unfold word_is. rewrite (strncasecmp_doc (G := G)). destruct (_ =? _); [|done]. cbn [length take map]. apply bool_decide_eq_false. congruence.
Qed.
Lemma no_word c s : allb not_ws (c :: s) = true -> memb (lower c) ($"iur") = false -> custom_prop_value_invalid (Some (c :: s)) = false.
Proof.
  intros A H. unfold custom_prop_value_invalid, custom_prop_wide_kind. rewrite trim_not_ws by done.
  assert (forall d w, memb (lower d) ($"iur") = true -> word_is (c :: s) (d :: w) = false) as F by (intros d w Hd; apply word_is_not; congruence).
  change ($"inherit") with ("i"%char :: $"nherit"). change ($"initial") with ("i"%char :: $"nitial"). change ($"unset") with ("u"%char :: $"nset").
  change ($"revert") with ("r"%char :: $"evert"). change ($"revert-layer") with ("r"%char :: $"evert-layer"). change ($"revert-rule") with ("r"%char :: $"evert-rule").
  rewrite !F by reflexivity. done.
Qed.
Lemma usable_value nm c s : prefixb ($"--") nm = true -> ns_var_map_lookup vars nm = Some (c :: s) -> allb not_ws (c :: s) = true ->
  memb (lower c) ($"iur") = false -> replacement vars nm = Some (c :: s).
Proof. intros P L A H. unfold replacement. by rewrite P, L, no_word. Qed.
Lemma refs_not_ws k : allb not_ws (print (refs k)) = true.
Proof. induction k as [|k IH]; [done|]. cbn [refs print]. rewrite !allb_app. cbn [allb]. by rewrite IH. Qed.
Lemma repeat_not_ws n : allb not_ws (repeat "y"%char n) = true.
Proof. by induction n. Qed.

(** ** One reference *)

Definition with_calls (b : ns_var_budget) (n : Z) : ns_var_budget :=
  {| out_bytes := out_bytes b; calls := calls b + n; overflow := overflow b |}.
Definition room (b : ns_var_budget) (n : Z) : Prop :=
  overflow b = false /\ (out_bytes b <= NS_CSS_VAR_EXPAND_MAX)%Z /\ (calls b + n <= NS_CSS_VAR_EXPAND_CALLS)%Z.

Lemma loop_ref sub m nm t valid b : allb is_ident nm = true -> overflow b = false -> (out_bytes b <= NS_CSS_VAR_EXPAND_MAX)%Z ->
  subst_loop regs vars sub (S m) (print (Ref nm t)) valid b =
  (let '(v, b) := var_value regs vars sub nm None b in
   let '(s, valid, b) := subst_loop regs vars sub m (print t) (valid && bool_decide (is_Some v)) b in (default [] v ++ s, valid, b)).
Proof.
  intros I O L. cbn [print]. cbn [subst_loop]. set (p := $"var(" ++ _).
  assert (exists c q, p = c :: q) as (c & q & E) by (by eexists _, _). rewrite E at 1. rewrite E.
  assert (css_find_function (c :: q) ($"var") = Some 0) as ->.
  { rewrite <- E. unfold css_find_function, p. rewrite length_app. cbn [length Nat.add]. by apply (find_ref _ None). }
  unfold var_budget_take. rewrite O. destruct (Z.ltb_spec (NS_CSS_VAR_EXPAND_MAX - out_bytes b) (Z.of_nat 0)); [lia|].
  cbn [drop take app]. rewrite <- E. unfold p. rewrite args_ref by done.
  replace (Build_ns_var_budget (out_bytes b + Z.of_nat 0) (calls b) false) with b by (destruct b; cbn in *; f_equal; [lia|done]).
  done.
Qed.
Lemma var_value_is sub nm r s b b' : replacement vars nm = Some r -> sub r b = (s, true, b') -> custom_prop_value_invalid (Some s) = false ->
  var_value regs vars sub nm None b = (Some s, b').
Proof. intros R S I. unfold var_value. by rewrite R, S, I. Qed.
Lemma level_ref d nm r s b n : allb is_ident nm = true -> replacement vars nm = Some r -> custom_prop_value_invalid (Some s) = false ->
  room b 1 -> substitute_vars_with_valid regs vars d r (with_calls b 1) = (s, true, with_calls (with_calls b 1) n) ->
  substitute_vars_with_valid regs vars (S d) (print (Ref nm Done)) b = (s, true, with_calls b (1 + n)).
Proof.
  intros I R V (O & L & C) E. cbn [substitute_vars_with_valid]. rewrite O. destruct (Z.ltb_spec NS_CSS_VAR_EXPAND_CALLS (calls b + 1)); [lia|].
  replace (Build_ns_var_budget (out_bytes b) (calls b + 1) false) with (with_calls b 1) by (unfold with_calls; by rewrite O).
  assert (exists m, length (print (Ref nm Done)) = S m) as [m ->] by (by eexists). rewrite loop_ref by done.
  rewrite (var_value_is _ _ _ _ _ _ R E V). destruct m; cbn; rewrite app_nil_r; unfold with_calls; cbn; by rewrite Z.add_assoc.
Qed.

(** ** The last level *)

Lemma refs_copied c x k : forall m valid b, ns_var_map_lookup vars (link "x") = Some (c :: x) -> allb not_ws (c :: x) = true ->
  memb (lower c) ($"iur") = false -> length (print (refs k)) <= m -> overflow b = false -> (out_bytes b <= NS_CSS_VAR_EXPAND_MAX)%Z ->
  subst_loop regs vars (substitute_vars_with_valid regs vars 0) m (print (refs k)) valid b = (concat (repeat (c :: x) k), valid, b).
Proof.
  induction k as [|k IH]; intros m valid b Lk A H Lm O L; [by destruct m|]. cbn [refs] in *.
  destruct m as [|m]; [cbn [print] in Lm; rewrite !length_app in Lm; cbn [length] in Lm; lia|]. rewrite loop_ref by done.
  rewrite (var_value_is _ _ (c :: x) (c :: x) b b); [|by apply usable_value|done|by apply no_word]. rewrite IH; try done.
  - cbn [default]. by rewrite andb_true_r.
  - cbn [print] in Lm. rewrite !length_app in Lm. cbn [length] in Lm. lia.
Qed.

(** ** The chain *)

Definition next_text (l' last : bytes) : bytes := match l' with [] => last | d :: _ => print (Ref (link d) Done) end.
Fixpoint linked (l last : bytes) : Prop :=
  match l with [] => True | c :: l' => is_ident c = true /\ ns_var_map_lookup vars (link c) = Some (next_text l' last) /\ linked l' last end.
Lemma chain_link_ok c : is_ident c = true -> allb is_ident (link c) = true /\ prefixb ($"--") (link c) = true /\ allb not_ws (print (Ref (link c) Done)) = true.
Proof.
  intros I. split; [change (is_ident c && true = true); by rewrite I|]. split; [done|]. assert (not_ws c = true) as N.
  { assert (implb (is_ident c) (not_ws c) = true) as B by (clear; by_bytes c). by rewrite I in B. }
  change (not_ws c && true = true). by rewrite N.
Qed.
Lemma chain_runs last c0 last' s l : last = c0 :: last' -> allb not_ws last = true -> memb (lower c0) ($"iur") = false -> custom_prop_value_invalid (Some s) = false ->
  (forall b, room b 1 -> substitute_vars_with_valid regs vars 1 last b = (s, true, with_calls b 1)) ->
  forall c b, linked (c :: l) last -> room b (Z.of_nat (length l) + 2) ->
  substitute_vars_with_valid regs vars (length l + 2) (print (Ref (link c) Done)) b = (s, true, with_calls b (Z.of_nat (length l) + 2)).
Proof.
  intros E A H V Run. induction l as [|d l IH]; intros c b (I & Lk & Ln) R; destruct (chain_link_ok c I) as (I1 & P & _).
  - assert (room b 1 /\ room (with_calls b 1) 1) as [R1 R2] by (destruct R as (? & ? & ?); unfold room, with_calls; cbn in *; repeat split; done || lia).
    apply (level_ref 1 (link c) last s b 1); [done| |done..|by apply Run]. subst last. by apply usable_value.
  - cbn [next_text] in Lk. pose proof Ln as (Id & _ & _). destruct (chain_link_ok d Id) as (_ & _ & Nw).
    assert (room b 1 /\ room (with_calls b 1) (Z.of_nat (length l) + 2)) as [R1 R2] by (destruct R as (? & ? & ?); unfold room, with_calls; cbn in *; repeat split; done || lia).
    cbn [length Nat.add]. rewrite (level_ref (length l + 2) (link c) (print (Ref (link d) Done)) s b (Z.of_nat (length l) + 2)).
    + f_equal. f_equal. lia.
    + done.
    + by apply (usable_value (link c) "v"%char).
    + done.
    + done.
    + by apply IH.
Qed.
End Copies.

(** ** The table *)

Lemma link_inj c d : link c = link d -> c = d.
Proof. unfold link. by intros [= ->]. Qed.
Lemma table_linked l last x : forall T, NoDup l -> allb is_ident l = true -> (forall c, c ∈ l -> T !! link c = chain_table l last x !! link c) ->
  linked [T] l last.
Proof.
  induction l as [|c l IH]; intros T N I H; [done|]. apply NoDup_cons in N as [Nc N]. cbn [allb] in I. apply andb_prop in I as [Ic I].
  split; [done|]. split.
  - cbn [ns_var_map_lookup]. rewrite H by (by left). cbn [chain_table]. by rewrite lookup_insert_eq.
  - apply IH; [done..|]. intros d Hd. rewrite H by (by right). cbn [chain_table]. rewrite lookup_insert_ne; [done|].
    intros E%link_inj. by subst d.
Qed.
Lemma table_x l last x : "x"%char ∉ l -> chain_table l last x !! link "x" = Some x.
Proof.
  induction l as [|c l IH]; cbn [chain_table]; intros N; [apply lookup_singleton_eq|]. apply not_elem_of_cons in N as [Nc N].
  rewrite lookup_insert_ne; [by apply IH|]. intros E%link_inj. congruence.
Qed.
Lemma concat_repeat {A} (a : A) n k : concat (repeat (repeat a n) k) = repeat a (k * n).
Proof. induction k as [|k IH]; [done|]. cbn. rewrite IH. symmetry. apply repeat_app. Qed.

(** C30. A substitution can make a text of any length and take nothing from the budget:
    [var(--a)], with sixteen values that lead to [k] references to a value of [n]
    bytes, gives [k * n] bytes, is valid, and has used seventeen calls and none of the
    mebibyte. *)
Theorem last_level_is_free (G : GLib) regs k n : GLibSpec G -> 0 < k -> 0 < n ->
  substitute_vars_with_valid regs (long_vars k n) NS_VAR_LEVELS ($"var(--a)") no_budget_used =
  (repeat "y"%char (k * n), true, {| out_bytes := 0; calls := 17; overflow := false |}).
Proof.
  intros Sp Hk Hn. set (l := $"abcdefghijklmnop"). set (x := repeat "y"%char n).
  assert (exists x', x = "y"%char :: x') as [x' Ex] by (destruct n; [lia|by eexists]).
  assert (ns_var_map_lookup (long_vars k n) (link "x") = Some x) as Lx.
  { unfold long_vars. cbn [ns_var_map_lookup]. rewrite table_x; [done|]. fold l. apply (bool_decide_unpack _). vm_compute. done. }
  assert (exists last', print (refs k) = "v"%char :: last') as [last' El] by (destruct k; [lia|by eexists]).
  assert (custom_prop_value_invalid (Some (repeat "y"%char (k * n))) = false) as V.
  { pose proof (repeat_not_ws (k * n)) as A. destruct (k * n) eqn:E; [lia|]. by apply (no_word Sp "y"%char). }
  pose proof (chain_runs Sp regs (long_vars k n) (print (refs k)) "v"%char last' (repeat "y"%char (k * n)) ($"bcdefghijklmnop")) as R.
  apply (R El (refs_not_ws k) eq_refl V) with (c := "a"%char) (b := no_budget_used).
  - intros b (O & L & C). cbn [substitute_vars_with_valid]. rewrite O. destruct (Z.ltb_spec NS_CSS_VAR_EXPAND_CALLS (calls b + 1)); [lia|].
    replace (Build_ns_var_budget (out_bytes b) (calls b + 1) false) with (with_calls b 1) by (unfold with_calls; by rewrite O).
    rewrite (refs_copied Sp regs (long_vars k n) "y"%char x' k); try done.
    + by rewrite <- Ex, <- concat_repeat.
    + by rewrite <- Ex.
    + rewrite <- Ex. apply repeat_not_ws.
  - apply (table_linked l (print (refs k)) x).
    + apply (bool_decide_unpack _). vm_compute. done.
    + done.
    + done.
  - by repeat split.
Qed.
