(* ===== verification/CssVarMaps.v ===== *)
(** * Custom properties: the map of an element ([src/css.c])

    Which custom property has which value for an element: from the declarations that
    apply to it, in the order of the cascade, the map of its parent and the registered
    properties. *)

From S2P Require Import Prelude CStr GLib CssSyntax Xml Element DomStore Dom Selector NodeState SelMatch CssProps RuleIndex Cascade GSort CascadeFor CssVars.

(** ** Names, tables and registrations *)

(** [g_var_adjust_cache]: the maps of elements without declarations, by the address of
    the map of the parent. *)
Abbreviation var_adjust_cache := (gmap Z ns_var_map).

Section Maps.
Context {G : GLib} `{V : Css_values} {So : Sorter}.

(** The names of a map: those of its own table and of the tables around it that have a
    value other than [initial], sorted. *)

Fixpoint byte_cmp (s t : bytes) : Z :=
  match s, t with
  | [], [] => 0
  | [], _ => -1
  | _, [] => 1
  | c :: s', d :: t' => if (code c =? code d)%Z then byte_cmp s' t' else if (code c <? code d)%Z then (-1)%Z else 1%Z
  end.
Definition ns_var_name_compare (a b : bytes) : Z := byte_cmp a b.

Fixpoint own_names (l : list (bytes * bytes)) (seen : gset bytes) (names : list bytes) : gset bytes * list bytes :=
  match l with
  | [] => (seen, names)
  | (key, value) :: l' =>
      if bool_decide (key ∈ seen) then own_names l' seen names
      else own_names l' ({[ key ]} ∪ seen) (if negb (g_ascii_strcasecmp0 value ($"initial")) then names ++ [key] else names)
  end.
Fixpoint names_loop (m : ns_var_map) (seen : gset bytes) (names : list bytes) : list bytes :=
  match m with
  | [] => names
  | own :: m' => let '(seen, names) := own_names (map_to_list own) seen names in names_loop m' seen names
  end.
Definition ns_var_map_names (m : ns_var_map) : list bytes := g_array_sort ns_var_name_compare (names_loop m ∅ []).

Definition flatten_var_map (m : ns_var_map) : gmap bytes bytes := foldr (fun own flat => own ∪ flat) ∅ m.

Definition css_collect_property_rules (reg : gmap bytes ns_css_property_rule) (rules : list ns_css_property_rule) : gmap bytes ns_css_property_rule :=
  foldl (fun reg pr => <[pr_name pr := pr]> reg) reg rules.

(** ** Declarations of custom properties *)

(** [prev] is passed over when rolling [rollback] back. *)
Definition var_rolled_over (kind : ns_custom_prop_wide) (rollback prev : var_match) : bool :=
  let a := v_src rollback in
  let b := v_src prev in
  match kind with
  | NS_CUSTOM_WIDE_REVERT_RULE => bool_decide (m_rule b = m_rule a)
  | NS_CUSTOM_WIDE_REVERT_LAYER =>
      (origin_no (origin b) =? origin_no (origin a))%Z &&
      (if inline_style a then inline_style b
       else if (layer_order a =? NS_CSS_LAYER_NONE)%Z then (layer_order b =? NS_CSS_LAYER_NONE)%Z
       else (layer_order a <=? layer_order b)%Z)
  | _ => css_same_revert_origin (origin a) (origin b)
  end.
Definition wide_reverts (k : ns_custom_prop_wide) : bool :=
  match k with NS_CUSTOM_WIDE_REVERT | NS_CUSTOM_WIDE_REVERT_LAYER | NS_CUSTOM_WIDE_REVERT_RULE => true | _ => false end.
(** The matches before [rollback], the last first. *)
Fixpoint var_rollback_match (before : list var_match) (rollback : var_match) (kind : ns_custom_prop_wide) : option var_match :=
  match before with
  | [] => None
  | prev :: before' =>
      if negb (v_name prev =b v_name rollback) || var_rolled_over kind rollback prev then var_rollback_match before' rollback kind
      else
        let prev_kind := custom_prop_wide_kind (Some (v_text prev)) in
        if wide_reverts prev_kind then var_rollback_match before' prev prev_kind else Some prev
  end.
Definition var_resolved_match (before : list var_match) (m : var_match) : option var_match :=
  let kind := custom_prop_wide_kind (Some (v_text m)) in
  if wide_reverts kind then var_rollback_match before m kind else Some m.

Section Apply.
Context (g_registered_props : gmap bytes ns_css_property_rule).

(** The text a declaration comes to and what kind it is: what its references give is
    asked only for its kind. *)
Definition applied_value (scope : ns_var_map) (before : list var_match) (current resolved : var_match) : bytes * ns_custom_prop_wide :=
  let value_text := v_text resolved in
  let kind := custom_prop_wide_kind (Some value_text) in
  let kind :=
    if bool_decide (kind = NS_CUSTOM_WIDE_NONE) && contains value_text ($"var(")
    then custom_prop_wide_kind (substitute_vars_with g_registered_props scope (Some value_text)) else kind in
  match kind with
  | NS_CUSTOM_WIDE_REVERT | NS_CUSTOM_WIDE_REVERT_LAYER =>
      match var_rollback_match before current kind with
      | Some r => (v_text r, custom_prop_wide_kind (Some (v_text r)))
      | None => (value_text, kind)
      end
  | _ => (value_text, kind)
  end.

Definition var_map_apply_unregistered (parent : ns_var_map) (before : list var_match) (current : var_match) (own : gmap bytes bytes) : gmap bytes bytes :=
  match var_resolved_match before current with
  | None => delete (v_name current) own
  | Some resolved =>
      let '(value_text, kind) := applied_value (own :: parent) before current resolved in
      match kind with
      | NS_CUSTOM_WIDE_INHERIT | NS_CUSTOM_WIDE_UNSET | NS_CUSTOM_WIDE_REVERT | NS_CUSTOM_WIDE_REVERT_LAYER => delete (v_name current) own
      | NS_CUSTOM_WIDE_INITIAL => <[v_name current := $"initial"]> own
      | _ => <[v_name current := value_text]> own
      end
  end.

Definition var_map_restore_default (parent : ns_var_map) (name : bytes) (pr : option ns_css_property_rule) (inherit : bool) (vars : gmap bytes bytes) : gmap bytes bytes :=
  match (if inherit then ns_var_map_lookup parent name else None) with
  | Some parent_value => <[name := parent_value]> vars
  | None =>
      match pr with
      | Some p =>
          if has_initial p then match initial_value p with Some i => <[name := i]> vars | None => delete name vars end
          else if inherit then <[name := $"initial"]> vars else delete name vars
      | None => if inherit then <[name := $"initial"]> vars else delete name vars
      end
  end.
Definition var_map_apply_flat (parent : ns_var_map) (before : list var_match) (current : var_match) (vars : gmap bytes bytes) : gmap bytes bytes :=
  let name := v_name current in
  let pr := g_registered_props !! name in
  let by_default := match pr with Some p => inherits p | None => true end in
  match var_resolved_match before current with
  | None => var_map_restore_default parent name pr by_default vars
  | Some resolved =>
      let '(value_text, kind) := applied_value [vars] before current resolved in
      match kind with
      | NS_CUSTOM_WIDE_INHERIT => var_map_restore_default parent name pr true vars
      | NS_CUSTOM_WIDE_UNSET | NS_CUSTOM_WIDE_REVERT | NS_CUSTOM_WIDE_REVERT_LAYER => var_map_restore_default parent name pr by_default vars
      | NS_CUSTOM_WIDE_INITIAL =>
          let vars := var_map_restore_default parent name pr false vars in
          if match pr with Some p => has_initial p | None => false end then vars else <[name := $"initial"]> vars
      | _ => <[name := value_text]> vars
      end
  end.

(** The declarations in order, each with those before it. *)
Fixpoint var_loop (apply : list var_match -> var_match -> gmap bytes bytes -> gmap bytes bytes) (before l : list var_match) (vars : gmap bytes bytes) : gmap bytes bytes :=
  match l with
  | [] => vars
  | m :: l' => var_loop apply (m :: before) l' (apply before m vars)
  end.

(** *** The map of an element *)

(** Whether the registrations leave the map of the parent as it is. *)
Definition same_as_parent (parent : ns_var_map) : bool :=
  allb (fun kv => let present := bool_decide (is_Some (ns_var_map_lookup parent kv.1)) in
    negb ((negb (inherits kv.2) && present) || (has_initial kv.2 && negb present))) (map_to_list g_registered_props).
(** What the parent passes on, and the initial values of what it does not have. *)
Definition inherited_vars (parent : ns_var_map) : gmap bytes bytes :=
  map_imap (fun k v => match g_registered_props !! k with Some pr => if inherits pr then Some v else None | None => Some v end) (flatten_var_map parent)
  ∪ omap (fun pr => if has_initial pr then initial_value pr else None) g_registered_props.
Definition flat_vars (parent : ns_var_map) (var_matches : list var_match) : ns_var_map :=
  [var_loop (var_map_apply_flat parent) [] (g_array_sort var_match_cmp var_matches) (inherited_vars parent)].

Definition build_vars_for_element (cache : var_adjust_cache) (parent_at : Z) (parent : ns_var_map) (var_matches : list var_match) : var_adjust_cache * ns_var_map :=
  let have_regs := bool_decide (g_registered_props <> ∅) in
  let have_local := match var_matches with [] => false | _ => true end in
  if negb have_regs then
    if have_local
    then (cache, var_loop (var_map_apply_unregistered parent) [] (g_array_sort var_match_cmp var_matches) ∅ :: parent)
    else (cache, parent)
  else
    match parent, have_local with
    | _ :: _, false =>
        match cache !! parent_at with
        | Some hit => (cache, hit)
        | None =>
            let built := if same_as_parent parent then parent else flat_vars parent [] in
            (<[parent_at := built]> cache, built)
        end
    | _, _ => (cache, flat_vars parent var_matches)
    end.

(** *** Declarations that waited for their values *)

(** The text that is parsed for a pending declaration, its references replaced. *)
Definition synthesized_text (vars : ns_var_map) (pd : ns_css_pending_decl) : option bytes :=
  match substitute_vars_with g_registered_props vars (Some (raw_vtext pd)) with
  | Some substituted => Some (pname pd ++ $": " ++ fst (css_strip_important substituted) ++ $";}")
  | None => None
  end.
Definition synthesized_decls (parse_declaration_block : bytes -> list ns_css_decl) (vars : ns_var_map) (pd : ns_css_pending_decl) : list ns_css_decl :=
  match synthesized_text vars pd with Some t => parse_declaration_block t | None => [] end.
End Apply.
End Maps.
