(* ===== verification/CssVarMapsSpec.v ===== *)
(** * Custom properties: what the maps of elements hold

    Maps that references cannot tell apart; the two ways of making a map, with
    registered properties and without, against each other; the declaration that wins. *)

From stdpp Require Import sorting.
From S2P Require Import Prelude CStr GLib CssSyntax Xml Element DomStore Dom Selector NodeState SelMatch CssProps RuleIndex Cascade GSort CascadeFor CascadeWins CssVars CssVarMaps.

(** ** Maps that references cannot tell apart *)

Section Same.
Context {G : GLib}.

Definition same_vars (m m' : ns_var_map) : Prop := forall n, replacement m n = replacement m' n.
#[export] Instance same_vars_equiv : Equivalence same_vars.
Proof. split; [by intros m n|by intros m m' E n|by intros m m' m'' E E' n; rewrite E, E']. Qed.

(** A registration with no initial value that inherits, as unregistered ones do. *)
Definition plain_regs (regs : gmap bytes ns_css_property_rule) : Prop := forall n pr, regs !! n = Some pr -> inherits pr = true /\ has_initial pr = false.
Lemma plain_none : plain_regs ∅.
Proof. by intros n pr E; rewrite lookup_empty in E. Qed.

Section Congruence.
Context (regs regs' : gmap bytes ns_css_property_rule) (R : plain_regs regs) (R' : plain_regs regs').

Lemma plain_initial rs sub name s b : plain_regs rs -> registered_initial rs sub name s b = (s, false, b).
Proof. intros P. unfold registered_initial. destruct (rs !! name) as [pr|] eqn:E; [|done]. by destruct (P _ _ E) as [_ ->]. Qed.
Lemma value_same m m' sub sub' name fb b : same_vars m m' -> (forall t b, sub t b = sub' t b) ->
  var_value regs m sub name fb b = var_value regs' m' sub' name fb b.
Proof.
  intros M S. assert (forall b, fallback_value sub fb b = fallback_value sub' fb b) as F by (intros b'; destruct fb; [cbn; by rewrite S|done]).
  unfold var_value. rewrite M. destruct (replacement m' name) as [r|]; [|apply F]. rewrite S. destruct (sub' r b) as [[s v] b1].
  rewrite !plain_initial by done. destruct (v && _); [apply F|]. destruct v; [done|apply F].
Qed.
Lemma loop_same m m' sub sub' n : same_vars m m' -> (forall t b, sub t b = sub' t b) -> forall p valid b,
  subst_loop regs m sub n p valid b = subst_loop regs' m' sub' n p valid b.
Proof.
  intros M S. induction n as [|n IH]; intros [|c p] valid b; try done. cbn [subst_loop]. destruct (css_find_function _ _) as [k|]; [|done].
  destruct (var_budget_take _ _ _) as [[[] v] b1]; [|done]. destruct (var_args _) as [[[nm fb] rest]|]; [|done].
  rewrite (value_same m m' sub sub') by done. destruct (var_value _ _ _ _ _ _) as [x b2]. by rewrite IH.
Qed.
Lemma substitute_same m m' d : same_vars m m' -> forall t b, substitute_vars_with_valid regs m d t b = substitute_vars_with_valid regs' m' d t b.
Proof.
  intros M. induction d as [|d IH]; intros t b; [done|]. cbn [substitute_vars_with_valid]. destruct (overflow b); [done|]. destruct (_ <? _)%Z; [done|].
  by apply loop_same.
Qed.
Lemma substitution_same m m' t : same_vars m m' -> substitute_vars_with regs m t = substitute_vars_with regs' m' t.
Proof. intros M. unfold substitute_vars_with. destruct t as [t|]; [|done]. by rewrite (substitute_same m m'). Qed.
End Congruence.
End Same.

(** ** Tables *)

Section Tables.
Context {G : GLib} `{V : Css_values} `{Ss : SorterSpec}.

Lemma flatten_lookup m n : flatten_var_map m !! n = ns_var_map_lookup m n.
Proof.
  induction m as [|own m IH]; [apply lookup_empty|]. change (flatten_var_map (own :: m)) with (own ∪ flatten_var_map m). cbn [ns_var_map_lookup]. rewrite lookup_union, IH. destruct (own !! n); cbn; [by destruct (ns_var_map_lookup m n)|].
  by destruct (ns_var_map_lookup m n).
Qed.
Lemma inherited_plain regs parent n : plain_regs regs -> inherited_vars regs parent !! n = ns_var_map_lookup parent n.
Proof.
  intros P. unfold inherited_vars. rewrite lookup_union, map_lookup_imap, flatten_lookup, lookup_omap.
  destruct (regs !! n) as [pr|] eqn:E; [destruct (P _ _ E) as [In Hi]; rewrite In|]; cbn; rewrite ?Hi; by destruct (ns_var_map_lookup parent n).
Qed.
Lemma replacement_own T m n : replacement (T :: m) n =
  match T !! n with Some v => replacement [ {[ n := v ]} ] n | None => replacement m n end.
Proof.
  unfold replacement. cbn. destruct (prefixb _ _); [|by destruct (T !! n)]. destruct (T !! n) as [v|]; [|done]. by rewrite lookup_singleton_eq.
Qed.
Lemma replacement_value m m' n : ns_var_map_lookup m n = ns_var_map_lookup m' n -> replacement m n = replacement m' n.
Proof. unfold replacement. by intros ->. Qed.
Lemma replacement_initial m n : ns_var_map_lookup m n = Some ($"initial") -> GLibSpec G -> replacement m n = None.
Proof.
  intros E Sp. unfold replacement. rewrite E. destruct (prefixb _ _); [|done].
  assert (custom_prop_value_invalid (Some ($"initial")) = true) as ->; [|done].
  unfold custom_prop_value_invalid, custom_prop_wide_kind. change (css_trim_dup_range _) with ($"initial").
  assert (word_is ($"initial") ($"inherit") = false) as -> by (unfold word_is; by rewrite (strncasecmp_doc (G := G) ($"initial") ($"inherit") _)).
  assert (word_is ($"initial") ($"initial") = true) as -> by (unfold word_is; by rewrite (strncasecmp_doc (G := G) ($"initial") ($"initial") _)). done.
Qed.
Lemma replacement_absent m n : ns_var_map_lookup m n = None -> replacement m n = None.
Proof. intros E. unfold replacement. rewrite E. by destruct (prefixb _ _). Qed.

(** ** Plain registrations change nothing *)

Section Plain.
Context (Sp : GLibSpec G) (regs : gmap bytes ns_css_property_rule) (P : plain_regs regs).

Lemma applied_same s s' before current resolved : same_vars s s' -> applied_value regs s before current resolved = applied_value ∅ s' before current resolved.
Proof. intros S. unfold applied_value. by rewrite (substitution_same regs ∅ P plain_none s s'). Qed.

Lemma same_set nm v F O parent : same_vars [F] (O :: parent) -> same_vars [<[nm := v]> F] (<[nm := v]> O :: parent).
Proof.
  intros S n. destruct (decide (n = nm)) as [->|N]; [apply replacement_value; cbn; by rewrite !lookup_insert_eq|].
  transitivity (replacement [F] n); [apply replacement_value; cbn; by rewrite lookup_insert_ne|]. rewrite S.
  apply replacement_value. cbn. by rewrite lookup_insert_ne.
Qed.
Lemma same_default nm pr F O parent parent' : (forall p, pr = Some p -> has_initial p = false) -> same_vars parent parent' -> same_vars [F] (O :: parent') ->
  same_vars [var_map_restore_default parent nm pr true F] (delete nm O :: parent').
Proof.
  intros I Sp' S n. destruct (decide (n = nm)) as [->|N].
  - transitivity (replacement parent' nm); [|apply replacement_value; cbn; by rewrite lookup_delete_eq]. rewrite <- Sp'. unfold var_map_restore_default.
    destruct (ns_var_map_lookup parent nm) as [v|] eqn:E; [apply replacement_value; cbn; by rewrite lookup_insert_eq|].
    rewrite (replacement_absent parent) by done. destruct pr as [p|]; [rewrite (I p) by done|]; apply replacement_initial; try done; cbn; by rewrite lookup_insert_eq.
  - transitivity (replacement [F] n).
    + apply replacement_value. unfold var_map_restore_default. destruct (ns_var_map_lookup parent nm) as [v|]; [cbn; by rewrite lookup_insert_ne|].
      destruct pr as [p|]; [rewrite (I p) by done|]; cbn; by rewrite lookup_insert_ne.
    + rewrite S. apply replacement_value. cbn. by rewrite lookup_delete_ne.
Qed.
Lemma step_same parent parent' before m F O : same_vars parent parent' -> same_vars [F] (O :: parent') ->
  same_vars [var_map_apply_flat regs parent before m F] (var_map_apply_unregistered ∅ parent' before m O :: parent').
Proof.
  intros Sp' S. unfold var_map_apply_flat, var_map_apply_unregistered. set (nm := v_name m).
  assert (forall p, regs !! nm = Some p -> has_initial p = false) as I by (intros p E; by destruct (P _ _ E)).
  assert (match regs !! nm with Some p => inherits p | None => true end = true) as -> by (destruct (regs !! nm) eqn:E; [by destruct (P _ _ E)|done]).
  destruct (var_resolved_match before m) as [resolved|]; [|by apply same_default].
  rewrite (applied_same [F] (O :: parent')) by done. destruct (applied_value _ _ _ _ _) as [v k].
  destruct k; try (by apply same_set); try (by apply same_default).
  replace (match regs !! nm with Some p => has_initial p | None => false end) with false by (destruct (regs !! nm) eqn:E; [by rewrite (I _ eq_refl)|done]).
  assert (<[nm := $"initial"]> (var_map_restore_default parent nm (regs !! nm) false F) = <[nm := $"initial"]> F) as ->; [|by apply same_set].
  unfold var_map_restore_default. destruct (regs !! nm) as [p|] eqn:E; [rewrite (I _ eq_refl)|]; by rewrite insert_delete_eq.
Qed.
Lemma loop_step_same parent parent' l : same_vars parent parent' -> forall before F O, same_vars [F] (O :: parent') ->
  same_vars [var_loop (var_map_apply_flat regs parent) before l F] (var_loop (var_map_apply_unregistered ∅ parent') before l O :: parent').
Proof. intros Sp'. induction l as [|m l IH]; intros before F O S; [done|]. cbn [var_loop]. apply IH. by apply step_same. Qed.
Lemma flat_same parent parent' l : same_vars parent parent' ->
  same_vars (flat_vars regs parent l) (var_loop (var_map_apply_unregistered ∅ parent') [] (g_array_sort var_match_cmp l) ∅ :: parent').
Proof.
  intros Sp'. apply loop_step_same; [done|]. intros n. transitivity (replacement parent n).
  - apply replacement_value. cbn. rewrite (inherited_plain regs) by done. by destruct (ns_var_map_lookup parent n).
  - rewrite Sp'. apply replacement_value. cbn. by rewrite lookup_empty.
Qed.
Lemma sort_nil : g_array_sort var_match_cmp [] = [].
Proof.
  destruct (sort_doc var_match_cmp []) as [Pm _]; [|by apply Permutation_nil_r in Pm].
  split; [constructor|..]; intros a; intros; exfalso; by eapply not_elem_of_nil.
Qed.
Lemma empty_own m : same_vars (∅ :: m) m.
Proof. intros n. apply replacement_value. cbn. by rewrite lookup_empty. Qed.
End Plain.

Lemma build_flat regs a parent l : GLibSpec G -> plain_regs regs -> same_vars (build_vars_for_element regs ∅ a parent l).2 (flat_vars regs parent l).
Proof.
  intros Sp P. assert (same_vars parent (flat_vars regs parent [])) as Same.
  { symmetry. etrans; [by apply flat_same|]. rewrite sort_nil. apply empty_own. }
  unfold build_vars_for_element. case_bool_decide as D; cbn [negb].
  - destruct parent as [|T m], l as [|e l]; try done. rewrite lookup_empty. cbn. by destruct (same_as_parent _ _).
  - subst regs. destruct l as [|e l]; [done|]. symmetry. by apply flat_same.
Qed.
Lemma build_same regs regs' a a' parent parent' l : GLibSpec G -> plain_regs regs -> plain_regs regs' -> same_vars parent parent' ->
  same_vars (build_vars_for_element regs ∅ a parent l).2 (build_vars_for_element regs' ∅ a' parent' l).2.
Proof.
  intros Sp P P' S. etrans; [by apply build_flat|]. symmetry. etrans; [by apply build_flat|]. symmetry.
  etrans; [by apply (flat_same Sp regs P parent parent')|]. symmetry. by apply flat_same.
Qed.

(** The map of an element from the declarations for it and for the elements around it,
    the outermost first. *)
Fixpoint vars_down (regs : gmap bytes ns_css_property_rule) (parent : ns_var_map) (path : list (list var_match)) : ns_var_map :=
  match path with [] => parent | l :: path' => vars_down regs (build_vars_for_element regs ∅ 0 parent l).2 path' end.

(** C17. Registering custom properties that inherit and have no initial value changes
    nothing: though the maps are then made in another way, flat and filled with what
    the parents have, references in any text of any element give the same. *)
Theorem plain_registrations_change_nothing regs path t : GLibSpec G -> plain_regs regs ->
  substitute_vars_with regs (vars_down regs [] path) t = substitute_vars_with ∅ (vars_down ∅ [] path) t.
Proof.
  intros Sp P. apply (substitution_same regs ∅ P plain_none).
  assert (forall m m', same_vars m m' -> same_vars (vars_down regs m path) (vars_down ∅ m' path)) as D; [|by apply D].
  induction path as [|l path IH]; intros m m' S; [done|]. cbn [vars_down]. apply IH. apply build_same; auto using plain_none.
Qed.

(** ** The cache *)

(** What the cache keeps, for the maps that addresses stand for. *)
Definition cache_right (regs : gmap bytes ns_css_property_rule) (at_ : Z -> ns_var_map) (cache : var_adjust_cache) : Prop :=
  forall a m, cache !! a = Some m -> m = (build_vars_for_element regs ∅ a (at_ a) []).2.
Lemma build_cached regs at_ cache a l : cache_right regs at_ cache ->
  (build_vars_for_element regs cache a (at_ a) l).2 = (build_vars_for_element regs ∅ a (at_ a) l).2 /\
  cache_right regs at_ (build_vars_for_element regs cache a (at_ a) l).1.
Proof.
  intros R. pose proof (R a) as Ra. unfold cache_right in R |- *. unfold build_vars_for_element in *.
  case_bool_decide; cbn [negb] in *; [|by destruct l].
  destruct (at_ a) as [|T m] eqn:E; [by destruct l|]. destruct l as [|e l]; [|done]. rewrite lookup_empty in *.
  destruct (cache !! a) as [hit|] eqn:C; [by split; [apply Ra|]|]. split; [done|]. cbn [fst]. intros a' m'.
  destruct (decide (a' = a)) as [->|N]; [rewrite lookup_insert_eq, E, lookup_empty; by intros [= <-]|]. rewrite lookup_insert_ne by done. apply R.
Qed.

(** ** Names *)

Definition has_value (m : ns_var_map) (n : bytes) : Prop :=
  exists v, ns_var_map_lookup m n = Some v /\ g_ascii_strcasecmp0 v ($"initial") = false.
Lemma own_names_spec l : forall seen names, NoDup l.*1 -> NoDup names -> (forall n, n ∈ names -> n ∈ seen) ->
  let r := own_names l seen names in
  r.1 = list_to_set l.*1 ∪ seen /\ NoDup r.2 /\ (forall n, n ∈ r.2 -> n ∈ r.1) /\
  forall n, n ∈ r.2 <-> n ∈ names \/ (n ∉ seen /\ exists v, (n, v) ∈ l /\ g_ascii_strcasecmp0 v ($"initial") = false).
Proof.
  induction l as [|[k v] l IH]; intros seen names N Nn Sub; cbn [own_names fmap list_fmap fst] in *.
  { cbn. split_and!; [set_solver|done|done|]. intros n. split; [by left|]. intros [?|(_ & w & Hw & _)]; [done|by apply not_elem_of_nil in Hw]. }
  apply NoDup_cons in N as [Nk N]. assert (forall w, (k, w) ∉ l) as Nw.
  { intros w Hw. apply Nk. apply list_elem_of_fmap. by exists (k, w). }
  assert (forall n P, n <> k -> ((exists w, (n, w) ∈ (k, v) :: l /\ P w) <-> exists w, (n, w) ∈ l /\ P w)) as Other.
  { intros n P D. split; intros (w & Hw & Pw); exists w; split; try done; [|by right]. apply elem_of_cons in Hw as [[= ->]|Hw]; done. }
  case_bool_decide as K.
  - destruct (IH seen names N Nn Sub) as (E & D & S & M). split; [rewrite E; set_solver|]. split_and!; [done|done|]. intros n. rewrite M.
    destruct (decide (n = k)) as [->|X]; [tauto|]. by rewrite (Other n (fun w => g_ascii_strcasecmp0 w ($"initial") = false)).
  - set (names' := if negb _ then _ else _).
    assert (forall n, n ∈ names' <-> n ∈ names \/ (n = k /\ g_ascii_strcasecmp0 v ($"initial") = false)) as Nm.
    { intros n. unfold names'. destruct (g_ascii_strcasecmp0 v _); cbn [negb]; [intuition done|]. rewrite elem_of_app, list_elem_of_singleton. tauto. }
    assert (NoDup names') as Nn'.
    { unfold names'. destruct (negb _); [|done]. apply NoDup_app. split_and!; [done|set_solver|apply NoDup_singleton]. }
    destruct (IH ({[k]} ∪ seen) names' N Nn') as (E & D & S & M); [intros n Hn%Nm; set_solver|].
    split; [rewrite E; set_solver|]. split_and!; [done|done|]. intros n. rewrite M, Nm.
    destruct (decide (n = k)) as [->|X].
    + split; [|intros [?|(_ & w & Hw & Iw)]; [by left; left|]; apply elem_of_cons in Hw as [[= ->]|Hw]; [by left; right|by apply Nw in Hw]].
      intros [[?|[_ I]]|(? & _)]; [by left|right; split; [done|exists v; split; [by left|done]]|set_solver].
    + rewrite (Other n (fun w => g_ascii_strcasecmp0 w ($"initial") = false)) by done. set_solver.
Qed.
Lemma names_loop_spec m : forall seen names, NoDup names -> (forall n, n ∈ names -> n ∈ seen) ->
  NoDup (names_loop m seen names) /\ forall n, n ∈ names_loop m seen names <-> n ∈ names \/ (n ∉ seen /\ has_value m n).
Proof.
  induction m as [|own m IH]; intros seen names N Sub; cbn [names_loop].
  { split; [done|]. intros n. split; [by left|]. intros [?|(_ & v & Hv & _)]; done. }
  pose proof (own_names_spec (map_to_list own) seen names (NoDup_fst_map_to_list own) N Sub) as (E & N' & Sub' & M).
  destruct (own_names _ _ _) as [seen' names']; cbn in E, N', Sub', M. destruct (IH seen' names' N' Sub') as [N2 M2]. split; [done|].
  intros n. rewrite M2, M. unfold has_value. cbn [ns_var_map_lookup]. assert (n ∈ seen' <-> is_Some (own !! n) \/ n ∈ seen) as Sn.
  { rewrite E, elem_of_union, elem_of_list_to_set, list_elem_of_fmap. apply or_iff_compat_r. split.
    - intros ([k v] & -> & Hk%elem_of_map_to_list). by exists v.
    - intros [v Hv]. exists (n, v). by rewrite elem_of_map_to_list. }
  destruct (own !! n) as [v|] eqn:O.
  - split.
    + intros [[?|(? & w & Hw & I)]|[X _]]; [by left| |by destruct X; apply Sn; left]. apply elem_of_map_to_list in Hw. right. split; [done|]. exists w. split; congruence.
    + intros [?|(? & w & [= <-] & I)]; [by left; left|]. left; right. split; [done|]. exists v. by rewrite elem_of_map_to_list.
  - assert (n ∉ seen' <-> n ∉ seen) as -> by (rewrite Sn; split; [tauto|intros ? [[]|]; done]).
    split; [intros [[?|(_ & w & Hw%elem_of_map_to_list & _)]|?]; [by left|congruence|by right]|intros [?|?]; [by left; left|by right]].
Qed.

Lemma byte_cmp_opp s : forall t, byte_cmp s t = (- byte_cmp t s)%Z.
Proof.
  induction s as [|c s IH]; intros [|d t]; cbn; try done. rewrite (Z.eqb_sym (code d)). destruct (Z.eqb_spec (code c) (code d)); [apply IH|].
  destruct (Z.ltb_spec (code c) (code d)), (Z.ltb_spec (code d) (code c)); lia.
Qed.
Lemma byte_cmp_zero s : forall t, byte_cmp s t = 0%Z -> s = t.
Proof.
  induction s as [|c s IH]; intros [|d t]; cbn; try done. destruct (Z.eqb_spec (code c) (code d)) as [E%code_inj|]; [intros ?%IH; congruence|].
  by destruct (_ <? _)%Z.
Qed.
Lemma byte_cmp_trans s : forall t u, (byte_cmp s t < 0 -> byte_cmp t u < 0 -> byte_cmp s u < 0)%Z.
Proof.
  induction s as [|c s IH]; intros [|d t] [|e u]; cbn; try done; try lia.
  destruct (Z.eqb_spec (code c) (code d)), (Z.eqb_spec (code d) (code e)), (Z.eqb_spec (code c) (code e)); try lia; eauto;
    repeat match goal with |- context [(?x <? ?y)%Z] => destruct (Z.ltb_spec x y) end; lia.
Qed.
Lemma names_orders l : NoDup l -> orders ns_var_name_compare l.
Proof.
  intros N. unfold ns_var_name_compare. split; [done|..].
  - intros a b _ _ _. rewrite (byte_cmp_opp a b). lia.
  - intros a b c _ _ _ _ _ _. apply byte_cmp_trans.
  - intros a b _ _ D E. by apply D, byte_cmp_zero.
Qed.

(** The names that style rules of an element see are those of its custom properties
    that have a value other than [initial], its own hiding those of the elements around
    it, in the order of their bytes and each once. *)
Theorem var_map_names_sorted m :
  StronglySorted (fun a b => byte_cmp a b < 0)%Z (ns_var_map_names m) /\ forall n, n ∈ ns_var_map_names m <-> has_value m n.
Proof.
  destruct (names_loop_spec m ∅ [] (NoDup_nil_2) ltac:(by intros n H0%not_elem_of_nil)) as [N M]. unfold ns_var_map_names.
  destruct (sort_doc ns_var_name_compare (names_loop m ∅ []) (names_orders _ N)) as [P S]. split; [exact S|]. intros n. rewrite P, M.
  split; [intros [?%not_elem_of_nil|[_ ?]]; done|]. right. split; [apply not_elem_of_empty|done].
Qed.
End Tables.
