(* ===== verification/CssVarWins.v ===== *)
(** * Custom properties: the strongest declaration wins

    What an element's custom property is, registered or not, from the strongest of its
    declarations and those a [revert] goes back to. *)

From Stdlib Require Import Sorting.Sorted.
From stdpp Require Import sorting.
From S2P Require Import Prelude CStr GLib CssSyntax Xml Element DomStore Dom Selector NodeState SelMatch CssProps RuleIndex Cascade GSort CascadeFor CascadeWins CssVars CssVarMaps CssVarMapsSpec.

Section Wins.
Context {G : GLib} `{V : Css_values} `{Ss : SorterSpec}.

Definition var_rank (m : var_match) : list Z :=
  (if v_important m then 1 else 0)%Z :: source_key (v_important m) (v_src m) ++ [v_decl_order m].
Lemma var_cmp_rank a b : var_match_cmp a b = (if key_ltb (var_rank a) (var_rank b) then -1 else 1)%Z.
Proof.
  unfold var_match_cmp, var_rank. destruct (v_important a) eqn:Ia, (v_important b) eqn:Ib; try done; cbn [negb Bool.eqb];
  rewrite (source_cmp_key _ _ _ [v_decl_order a] [v_decl_order b]).
  all: first [by cbn|cbn; by destruct (Z.eqb_spec (v_decl_order a) (v_decl_order b)) as [->|]; rewrite ?Z.ltb_irrefl].
Qed.
Lemma var_orders l : NoDup (map var_rank l) -> orders var_match_cmp l.
Proof. by apply (keyed_orders var_match_cmp var_rank var_cmp_rank (fun _ _ => eq_refl)). Qed.

(** [e] is the strongest of the declarations in [D]. *)
Definition weaker (x e : var_match) : Prop := key_ltb (var_rank x) (var_rank e) = true.
Definition strongest_var (D : var_match -> Prop) (e : var_match) : Prop := D e /\ forall x, D x -> x <> e -> weaker x e.
Lemma weaker_irrefl e : ~ weaker e e.
Proof. unfold weaker. by rewrite key_irrefl. Qed.
Lemma weaker_trans a b c : weaker a b -> weaker b c -> weaker a c.
Proof. apply key_trans. Qed.

Definition names (l : list var_match) (n : bytes) (x : var_match) : Prop := x ∈ l /\ v_name x = n.
Definition kind_of (m : var_match) : ns_custom_prop_wide := custom_prop_wide_kind (Some (v_text m)).

(** ** The declaration at which a rollback stops *)

Lemma rolled_all k b e : (forall x, x ∈ b -> v_name x = v_name e -> var_rolled_over k e x = true) -> var_rollback_match b e k = None.
Proof.
  induction b as [|x b IH]; intros S; [done|]. cbn [var_rollback_match]. destruct (bool_decide_reflect (v_name x = v_name e)) as [E|_]; cbn [negb orb];
    [rewrite (S x) by (done || by left)|]; apply IH; intros y Hy; apply S; by right.
Qed.
Lemma rolled_first k b1 u b2 e : (forall x, x ∈ b1 -> v_name x = v_name e -> var_rolled_over k e x = true) ->
  v_name u = v_name e -> var_rolled_over k e u = false ->
  var_rollback_match (b1 ++ u :: b2) e k = if wide_reverts (kind_of u) then var_rollback_match b2 u (kind_of u) else Some u.
Proof.
  intros S Eu Ou. induction b1 as [|x b1 IH]; cbn [app var_rollback_match].
  - rewrite (bool_decide_eq_true_2 _ Eu). cbn [negb orb]. by rewrite Ou.
  - destruct (bool_decide_reflect (v_name x = v_name e)) as [E|_]; cbn [negb orb]; [rewrite (S x) by (done || by left)|]; apply IH; intros y Hy; apply S; by right.
Qed.

(** ** What a declaration gives *)

(** A value, where the word [initial] that the code keeps stands for none. *)
Definition value (v : option bytes) : option bytes := match v with Some t => if t =b $"initial" then None else Some t | None => None end.

Section Apply.
Context (regs : gmap bytes ns_css_property_rule) (parent : ns_var_map).

(** What a property has without a declaration: its parent's value when it is
    inherited, else the initial value it is registered with. *)
Definition settled (n : bytes) (inherit : bool) : option bytes :=
  match (if inherit then ns_var_map_lookup parent n else None), regs !! n with
  | Some v, _ => Some v
  | None, Some p => if has_initial p then initial_value p else None
  | None, None => None
  end.
Definition by_default (n : bytes) : bool := match regs !! n with Some p => inherits p | None => true end.
Definition undeclared (n : bytes) : option bytes := value (settled n (by_default n)).
(** What a declaration gives that is none of the words that revert. *)
Definition given (n : bytes) (m : var_match) : option bytes :=
  match kind_of m with
  | NS_CUSTOM_WIDE_NONE => value (Some (v_text m))
  | NS_CUSTOM_WIDE_INITIAL => value (settled n false)
  | NS_CUSTOM_WIDE_INHERIT => value (settled n true)
  | _ => undeclared n
  end.
(** Its references, if there are any, cannot make one of the words of it. *)
Definition steady (m : var_match) : Prop :=
  contains (v_text m) ($"var(") = true ->
  forall scope, custom_prop_wide_kind (substitute_vars_with regs scope (Some (v_text m))) = NS_CUSTOM_WIDE_NONE.

Lemma applied_steady scope before e u : wide_reverts (kind_of u) = false -> steady u ->
  applied_value regs scope before e u = (v_text u, kind_of u).
Proof.
  unfold applied_value, kind_of, steady. intros R C. destruct (contains (v_text u) ($"var(")).
  - destruct (bool_decide_reflect (custom_prop_wide_kind (Some (v_text u)) = NS_CUSTOM_WIDE_NONE)) as [E|E]; cbn [andb].
    + by rewrite (C eq_refl scope), E.
    + by destruct (custom_prop_wide_kind (Some (v_text u))).
  - rewrite andb_false_r. by destruct (custom_prop_wide_kind (Some (v_text u))).
Qed.
Lemma value_initial : value (Some ($"initial")) = None.
Proof. reflexivity. Qed.

(** *** Flat maps *)

Abbreviation flat := (var_map_apply_flat regs parent).
Lemma restore_other n m pr inh own : m <> n -> var_map_restore_default parent m pr inh own !! n = own !! n.
Proof.
  intros N. unfold var_map_restore_default.
  repeat case_match; by rewrite ?lookup_insert_ne, ?lookup_delete_ne.
Qed.
Lemma restore_value n inh own : value (var_map_restore_default parent n (regs !! n) inh own !! n) = value (settled n inh).
Proof.
  unfold var_map_restore_default, settled. destruct (if inh then _ else _); [by rewrite lookup_insert_eq|].
  destruct (regs !! n) as [p|]; [destruct (has_initial p); [destruct (initial_value p)|destruct inh]|destruct inh];
    by rewrite ?lookup_insert_eq, ?lookup_delete_eq.
Qed.
Lemma flat_other before m own n : v_name m <> n -> flat before m own !! n = own !! n.
Proof.
  intros N. unfold var_map_apply_flat. destruct (var_resolved_match _ _); [|by apply restore_other].
  destruct (applied_value _ _ _ _ _) as [text k].
  destruct k; try (destruct (match regs !! v_name m with Some p => has_initial p | None => false end));
    by rewrite ?lookup_insert_ne, ?restore_other.
Qed.
Lemma flat_given before e own u : var_resolved_match before e = Some u -> wide_reverts (kind_of u) = false -> steady u ->
  value (flat before e own !! v_name e) = given (v_name e) u.
Proof.
  intros R W C. unfold var_map_apply_flat. rewrite R, applied_steady by done. unfold given, undeclared.
  destruct (kind_of u); try done; try (by rewrite restore_value); [by rewrite lookup_insert_eq|].
  destruct (regs !! v_name e) as [p|] eqn:E; [destruct (has_initial p) eqn:Hi|].
  - rewrite <- E. by rewrite restore_value.
  - rewrite lookup_insert_eq. unfold settled. by rewrite E, Hi.
  - rewrite lookup_insert_eq. unfold settled. by rewrite E.
Qed.
Lemma flat_none before e own : var_resolved_match before e = None -> value (flat before e own !! v_name e) = undeclared (v_name e).
Proof. intros R. unfold var_map_apply_flat. rewrite R. apply restore_value. Qed.
Lemma flat_base n : inherited_vars regs parent !! n = settled n (by_default n).
Proof.
  unfold inherited_vars, settled, by_default. rewrite lookup_union, map_lookup_imap, flatten_lookup, lookup_omap.
  destruct (regs !! n) as [p|]; cbn; [|by destruct (ns_var_map_lookup parent n)].
  destruct (inherits p), (ns_var_map_lookup parent n), (has_initial p); cbn; try done; by destruct (initial_value p).
Qed.
Lemma same_as_parent_value n : same_as_parent regs parent = true -> ns_var_map_lookup parent n = settled n (by_default n).
Proof.
  unfold same_as_parent. intros S. unfold settled, by_default. destruct (regs !! n) as [p|] eqn:E.
  - rewrite forallb_forall in S. specialize (S (n, p)). cbn in S. rewrite <- list_elem_of_In, elem_of_map_to_list in S. specialize (S E).
    destruct (inherits p), (has_initial p), (ns_var_map_lookup parent n) as [v|]; try done;
      rewrite ?(bool_decide_eq_true_2 (is_Some (Some v))), ?(bool_decide_eq_false_2 (is_Some None)) in S by (eauto || by intros [? ?]); done.
  - by destruct (ns_var_map_lookup parent n).
Qed.
End Apply.

(** *** Tables in front of the parent's, with nothing registered *)

Section Chain.
Context (parent : ns_var_map).
Abbreviation chain := (var_map_apply_unregistered ∅ parent).
Lemma settled_chain n : settled ∅ parent n true = ns_var_map_lookup parent n /\ settled ∅ parent n false = None /\
  settled ∅ parent n (by_default ∅ n) = ns_var_map_lookup parent n.
Proof. unfold settled, by_default. rewrite lookup_empty. by destruct (ns_var_map_lookup parent n). Qed.
Lemma chain_other before m own n : v_name m <> n -> chain before m own !! n = own !! n.
Proof.
  intros N. unfold var_map_apply_unregistered. destruct (var_resolved_match _ _); [|by rewrite lookup_delete_ne].
  destruct (applied_value _ _ _ _ _) as [text k]. destruct k; by rewrite ?lookup_insert_ne, ?lookup_delete_ne.
Qed.
Lemma chain_given before e own u : var_resolved_match before e = Some u -> wide_reverts (kind_of u) = false -> steady ∅ u ->
  value (ns_var_map_lookup (chain before e own :: parent) (v_name e)) = given ∅ parent (v_name e) u.
Proof.
  intros R W C. unfold var_map_apply_unregistered, given, undeclared. rewrite R, applied_steady by done.
  destruct (settled_chain (v_name e)) as (-> & -> & ->). cbn [ns_var_map_lookup].
  destruct (kind_of u); try done; by rewrite ?lookup_insert_eq, ?lookup_delete_eq.
Qed.
Lemma chain_none before e own : var_resolved_match before e = None ->
  value (ns_var_map_lookup (chain before e own :: parent) (v_name e)) = undeclared ∅ parent (v_name e).
Proof.
  intros R. unfold var_map_apply_unregistered, undeclared. rewrite R. destruct (settled_chain (v_name e)) as (_ & _ & ->).
  cbn [ns_var_map_lookup]. by rewrite lookup_delete_eq.
Qed.
End Chain.

(** The sorted declarations around the strongest of a name. *)
Lemma strongest_split l n e : NoDup (map var_rank l) -> strongest_var (names l n) e ->
  exists l1 l2, g_array_sort var_match_cmp l = l1 ++ e :: l2 /\ (forall x, x ∈ l2 -> v_name x <> n).
Proof.
  intros N [[He En] B]. assert (e ∈ g_array_sort var_match_cmp l) as Hs by (by rewrite (proj1 (sort_doc var_match_cmp l (var_orders l N)))).
  apply list_elem_of_split in Hs as (l1 & l2 & E). exists l1, l2. split; [done|].
  destruct (keyed_split var_match_cmp var_rank var_cmp_rank (fun _ _ => eq_refl) l l1 e l2 N E) as (In & _ & A). intros x Hx Ex.
  apply (weaker_irrefl e). eapply weaker_trans; [by apply A|]. apply B; [split; [apply In; auto|done]|]. intros ->. by eapply weaker_irrefl, A.
Qed.
(** A weaker declaration that [e] goes back to. *)
Definition goes_back_to (l : list var_match) (e u : var_match) : Prop :=
  names l (v_name e) u /\ weaker u e /\ var_rolled_over (kind_of e) e u = false.
(** Where the words that revert lead from [e]: to a declaration that is none of them,
    or past the last. *)
Inductive ends_at (l : list var_match) : var_match -> option var_match -> Prop :=
| ends_here e : wide_reverts (kind_of e) = false -> ends_at l e (Some e)
| ends_past e : wide_reverts (kind_of e) = true -> (forall u, ~ goes_back_to l e u) -> ends_at l e None
| ends_back e u r : wide_reverts (kind_of e) = true -> strongest_var (goes_back_to l e) u -> ends_at l u r -> ends_at l e r.

Lemma ends_plain l e r : ends_at l e r -> match r with Some u => wide_reverts (kind_of u) = false | None => True end.
Proof. by induction 1. Qed.

Lemma back_to l e r : NoDup (map var_rank l) -> ends_at l e r -> forall l1 l2, g_array_sort var_match_cmp l = l1 ++ e :: l2 ->
  wide_reverts (kind_of e) = true -> var_rollback_match (rev l1) e (kind_of e) = r.
Proof.
  intros N. induction 1 as [e R|e R D|e u r R [((Hu & Nu) & Wu & Ou) B] End IH]; intros l1 l2 E Re; [congruence| |].
  - apply rolled_all. intros x Hx%list_elem_of_In%in_rev%list_elem_of_In Ex. destruct (var_rolled_over (kind_of e) e x) eqn:Rx; [done|].
    destruct (keyed_split var_match_cmp var_rank var_cmp_rank (fun _ _ => eq_refl) l l1 e l2 N E) as (In & Be & _).
    destruct (D x). split; [split; [apply In; auto|done]|]. split; [by apply Be|done].
  - destruct (keyed_split var_match_cmp var_rank var_cmp_rank (fun _ _ => eq_refl) l l1 e l2 N E) as (In & Be & A).
    assert (u ∈ l1) as [j1 [j2 ->]]%list_elem_of_split.
    { apply In in Hu as [Hu|[->|Hu]]; [done|by apply weaker_irrefl in Wu|]. destruct (weaker_irrefl e). eapply weaker_trans; [by apply A|done]. }
    rewrite rev_app_distr. cbn [rev]. rewrite <- app_assoc in E |- *. cbn [app] in E |- *. rewrite rolled_first; [| |done|done].
    + destruct (wide_reverts (kind_of u)) eqn:Ru; [by apply (IH j1 (j2 ++ e :: l2))|]. inversion End; subst; congruence.
    + intros x Hx%list_elem_of_In%in_rev%list_elem_of_In Ex. destruct (var_rolled_over _ e x) eqn:Rx; [done|exfalso].
      destruct (keyed_split var_match_cmp var_rank var_cmp_rank (fun _ _ => eq_refl) l j1 u _ N E) as (_ & _ & Au).
      assert (weaker u x) as Hux by (apply Au; apply elem_of_app; by left). apply (weaker_irrefl u). eapply weaker_trans; [exact Hux|].
      apply B; [|intros ->; by apply weaker_irrefl in Hux]. split; [split; [apply In; left; rewrite elem_of_app, elem_of_cons; auto|done]|].
      split; [|done]. apply Be. rewrite elem_of_app, elem_of_cons; auto.
Qed.
Lemma resolved_at l e r l1 l2 : NoDup (map var_rank l) -> ends_at l e r -> g_array_sort var_match_cmp l = l1 ++ e :: l2 ->
  var_resolved_match (rev l1) e = r.
Proof.
  intros N End E. unfold var_resolved_match. fold (kind_of e). destruct (wide_reverts (kind_of e)) eqn:R; [by eapply back_to|].
  inversion End; subst; congruence.
Qed.

(** ** Applying declarations in order *)

(** [apply] adds a declaration to a table that [look] reads, beginning with [base]. *)
Section Loop.
Context (regs : gmap bytes ns_css_property_rule) (parent : ns_var_map).
Context (apply : list var_match -> var_match -> gmap bytes bytes -> gmap bytes bytes) (look : gmap bytes bytes -> bytes -> option bytes).
Context (base : gmap bytes bytes).
Context (Other : forall before m own n, v_name m <> n -> look (apply before m own) n = look own n).
Context (Given : forall before e own u, var_resolved_match before e = Some u -> wide_reverts (kind_of u) = false -> steady regs u ->
  value (look (apply before e own) (v_name e)) = given regs parent (v_name e) u).
Context (Past : forall before e own, var_resolved_match before e = None ->
  value (look (apply before e own) (v_name e)) = undeclared regs parent (v_name e)).
Context (Base : forall n, value (look base n) = undeclared regs parent n).

Lemma loop_other l n : forall before own, (forall x, x ∈ l -> v_name x <> n) -> look (var_loop apply before l own) n = look own n.
Proof.
  induction l as [|m l IH]; intros before own N; [done|]. cbn [var_loop]. rewrite IH by (intros x Hx; apply N; by right). apply Other, N. by left.
Qed.
Lemma loop_last l1 e l2 n : forall before own, (forall x, x ∈ l2 -> v_name x <> n) ->
  exists own', look (var_loop apply before (l1 ++ e :: l2) own) n = look (apply (rev l1 ++ before) e own') n.
Proof.
  induction l1 as [|a l1 IH]; intros before own N; cbn [app var_loop rev].
  - rewrite loop_other by done. by eexists.
  - destruct (IH (a :: before) (apply before a own) N) as [own' E]. exists own'. by rewrite E, <- app_assoc.
Qed.

(** What the theorem below says of the table. *)
Definition wins (l : list var_match) (n : bytes) (got : option bytes) : Prop :=
  ((forall x, ~ names l n x) -> got = undeclared regs parent n) /\
  (forall e r, strongest_var (names l n) e -> ends_at l e r ->
     match r with
     | Some u => steady regs u -> got = given regs parent n u
     | None => got = undeclared regs parent n
     end).
Lemma loop_wins l n : NoDup (map var_rank l) -> wins l n (value (look (var_loop apply [] (g_array_sort var_match_cmp l) base) n)).
Proof.
  intros N. split.
  - intros D. rewrite loop_other; [apply Base|]. intros x Hx Ex. apply (D x). split; [|done].
    revert Hx. by rewrite (proj1 (sort_doc var_match_cmp l (var_orders l N))).
  - intros e r S End. destruct (strongest_split l n e N S) as (l1 & l2 & E & O). destruct S as [[_ <-] _].
    pose proof (resolved_at l e r l1 l2 N End E) as Res. rewrite E.
    destruct (loop_last l1 e l2 (v_name e) [] base O) as [own' ->]. rewrite app_nil_r. pose proof (ends_plain l e r End) as Pl.
    destruct r as [u|]; [|by apply Past]. intros St. by apply Given.
Qed.
End Loop.

(** ** Texts whose references cannot make a word *)

Lemma trim_head c r : is_ws c = false -> exists t, css_trim_dup_range (c :: r) = c :: t.
Proof.
  intros W. unfold css_trim_dup_range. cbn [drop_while]. rewrite W. cbn [rev].
  assert (forall l, exists t, drop_while is_ws (l ++ [c]) = t ++ [c]) as D.
  { induction l as [|x l [t IH]]; cbn; [rewrite W; by exists []|]. destruct (is_ws x); [by exists t|by exists (x :: l)]. }
  destruct (D (rev r)) as [t ->]. exists (rev t). by rewrite rev_app_distr.
Qed.
Lemma digit_facts c : is_digit c = true ->
  is_ws c = false /\ (lower c =c "i") = false /\ (lower c =c "u") = false /\ (lower c =c "r") = false /\ (lower c =c "v") = false /\
  (c =c "/") = false /\ (c =c slash) = false /\ quote_char c = false.
Proof.
  intros D. assert (negb (is_digit c) || (negb (is_ws c) && negb (lower c =c "i") && negb (lower c =c "u") && negb (lower c =c "r") &&
    negb (lower c =c "v") && negb (c =c "/") && negb (c =c slash) && negb (quote_char c)) = true) as X by (clear; by_bytes c).
  rewrite D in X. cbn [negb orb] in X. rewrite !andb_true_iff, !negb_true_iff in X. tauto.
Qed.
Lemma word_head c r s : GLibSpec G -> (lower c =c lower (hd nul s)) = false -> word_is (c :: r) s = false.
Proof.
  intros Gs L. unfold word_is. destruct s as [|d w]; [done|]. rewrite strncasecmp_doc. cbn [length take map hd] in *.
  rewrite bool_decide_eq_false_2; [by rewrite andb_false_r|]. intros [= E _]. by rewrite E, Ascii.eqb_refl in L.
Qed.
Lemma digit_no_word c r : GLibSpec G -> is_digit c = true -> custom_prop_wide_kind (Some (c :: r)) = NS_CUSTOM_WIDE_NONE.
Proof.
  intros Gs D. destruct (digit_facts c D) as (W & I & U & R & _). unfold custom_prop_wide_kind.
  destruct (trim_head c r W) as [t ->]. cbv zeta.
  by rewrite !word_head by done.
Qed.
Lemma find_digit c r : GLibSpec G -> is_digit c = true -> css_find_function (c :: r) ($"var") <> Some 0.
Proof.
  intros Gs D. destruct (digit_facts c D) as (_ & _ & _ & _ & Lv & Sl & Bs & Q). unfold css_find_function. cbn [length find_loop].
  assert (g_ascii_strncasecmp0 (c :: r) ($"var") (length ($"var")) = false) as ->.
  { rewrite strncasecmp_doc. apply bool_decide_eq_false_2. intros [= E _]. by rewrite E in Lv. }
  rewrite !andb_false_r. cbn [andb]. unfold opens_comment. rewrite Bs, Q, Sl. cbn [andb].
  destruct r; cbn [andb]; destruct (find_loop _ _ _ _ _); done.
Qed.
(** A text that begins with a digit is one. *)
Lemma steady_digit regs m c r : GLibSpec G -> v_text m = c :: r -> is_digit c = true -> steady regs m.
Proof.
  intros Gs E D _ scope. unfold substitute_vars_with. rewrite E.
  change (substitute_vars_with_valid regs scope NS_VAR_LEVELS (c :: r) no_budget_used) with
    (subst_loop regs scope (substitute_vars_with_valid regs scope 16) (S (length r)) (c :: r) true {| out_bytes := 0; calls := 1; overflow := false |}).
  cbn [subst_loop]. pose proof (find_digit c r Gs D) as F. destruct (css_find_function (c :: r) ($"var")) as [[|k]|]; [done| |].
  - destruct (var_budget_take _ _ _) as [[ok valid] b] eqn:B. destruct ok; [|by unfold var_budget_take in B; cbn in B; repeat case_match; simplify_eq].
    cbn [take]. destruct (var_args _) as [[[name fb] rest]|]; [|by destruct valid; [apply digit_no_word|]].
    destruct (var_value _ _ _ _ _ _) as [v b2]. destruct (subst_loop _ _ _ _ _ _) as [[t valid'] b3]. by destruct valid'; [apply digit_no_word|].
  - destruct (var_budget_take _ _ _) as [[ok valid] b] eqn:B. destruct ok; [by destruct valid; [apply digit_no_word|]|].
    by unfold var_budget_take in B; cbn in B; repeat case_match; simplify_eq.
Qed.

(** C16. Which value an element's custom property has, whatever properties are
    registered: when nothing declares it, its parent's value if it inherits and the
    parent has one, else the initial value it is registered with; else what its
    strongest declaration gives: its text, or the parent's value or the initial one or
    none for the words that say so; and the words that revert go, step by step, to the
    strongest of the weaker declarations of the property that are not passed over, and
    past the last to what the property has undeclared. Other properties and the order
    in which the declarations are found do not matter. Two conditions: the ranks of the
    declarations differ, and the references of the text that decides cannot make one of
    the words of it ([steady]: a text without [var(], for one); a text that is nothing
    but a reference is outside it, and there the order does matter
    ([CssVarPage.order_matters]). *)
Theorem strongest_custom_property_wins regs cache at_ parent l n : NoDup (map var_rank l) ->
  (forall hit, cache !! at_ = Some hit -> hit = (build_vars_for_element regs ∅ at_ parent []).2) ->
  wins regs parent l n (value (ns_var_map_lookup (build_vars_for_element regs cache at_ parent l).2 n)).
Proof.
  intros N Hit.
  assert (forall m, (l = [] /\ m = parent /\ same_as_parent regs parent = true) \/ m = flat_vars regs parent l ->
    wins regs parent l n (value (ns_var_map_lookup m n))) as Flat.
  { intros m [(-> & -> & S) | ->].
    - split; [intros _; unfold undeclared; by rewrite (same_as_parent_value regs)|].
      intros e r [[He _] _]. by apply not_elem_of_nil in He.
    - assert (forall t, ns_var_map_lookup [t] n = t !! n) as L1 by (intros t; cbn; by destruct (t !! n)). unfold flat_vars. rewrite L1.
      apply (loop_wins regs parent (var_map_apply_flat regs parent) (fun t n => t !! n)); [..|done].
      + intros. by apply flat_other.
      + intros. by apply flat_given.
      + intros. by apply flat_none.
      + intros n'. unfold undeclared. by rewrite flat_base. }
  unfold build_vars_for_element in *. case_bool_decide as D; cbn [negb] in *.
  - destruct parent as [|T m] eqn:Ep; [apply Flat; auto|].
    destruct l as [|x l']; [|apply Flat; auto]. rewrite lookup_empty in Hit.
    assert (forall m', m' = (if same_as_parent regs (T :: m) then T :: m else flat_vars regs (T :: m) []) ->
      wins regs (T :: m) [] n (value (ns_var_map_lookup m' n))) as C.
    { intros m' ->. apply Flat. destruct (same_as_parent _ _) eqn:S; auto. }
    destruct (cache !! at_) as [hit|]; [by apply C, Hit|by apply C].
  - assert (regs = ∅) as -> by (by destruct (decide (regs = ∅))).
    assert (wins ∅ parent l n (value (ns_var_map_lookup
      (var_loop (var_map_apply_unregistered ∅ parent) [] (g_array_sort var_match_cmp l) ∅ :: parent) n))) as C.
    { apply (loop_wins ∅ parent (var_map_apply_unregistered ∅ parent) (fun t n => ns_var_map_lookup (t :: parent) n)); [..|done].
      - intros. cbn. by rewrite chain_other.
      - intros. by apply chain_given.
      - intros. by apply chain_none.
      - intros n'. unfold undeclared. destruct (settled_chain parent n') as (_ & _ & ->). cbn. by rewrite lookup_empty. }
    destruct l as [|e l]; [|done]. rewrite sort_nil in C. cbn [var_loop ns_var_map_lookup] in C. by rewrite lookup_empty in C.
Qed.
End Wins.
