(* ===== verification/CssVarPage.v ===== *)
(** * Custom properties on small examples

    The witnesses of [CssVarsSpec], [CssVarsText], [CssVarsCopies], [CssVarMapsSpec] and
    [CssVarWins], and what a few declarations come to. *)

From stdpp Require Import sorting.
From S2P Require Import Prelude CStr GLib CssSyntax Xml Element DomStore Dom Selector NodeState SelMatch CssProps RuleIndex Cascade GSort CascadeFor CascadeWins CssVars CssVarsSpec CssVarsText CssVarsCopies CssVarMaps CssVarMapsSpec CssVarWins.

#[local] Instance keyword_values : Css_values := {| ns_css_value := bytes; keyword_of := Some; transparent := $"rgba(0, 0, 0, 0)" |}.

(** ** Substitution *)

Definition small_vars : ns_var_map :=
  [{[ $"--a" := $"1px var(--b)"; $"--c" := $"var(--d)"; $"--e" := $" inherit " ]}; {[ $"--b" := $"solid"; $"--a" := $"hidden" ]}].
Example small_substitutions :
  map (fun t => substitute_vars_with ∅ small_vars (Some t))
    [$"calc(VAR( --a ) + 1px)"; $"var(--c)"; $"var(--c, var(--e, (2, 3)))"; $"'var(--a)' /* var( */ xvar(--a)"; $"var(--b"] =
  [Some ($"calc(1px solid + 1px)"); None; Some ($"(2, 3)"); Some ($"'var(--a)' /* var( */ xvar(--a)"); Some []].
Proof. vm_compute. reflexivity. Qed.
(** A property that refers to itself is not invalid: after seventeen levels its own text
    is put in. *)
Example cycle_gives_text :
  substitute_vars_with ∅ [{[ $"--a" := $"var(--b)"; $"--b" := $"var(--a)" ]}] (Some ($"var(--a, red)")) = Some ($"var(--b)").
Proof. vm_compute. reflexivity. Qed.

Lemma substitution_bounded_witness :
  (zlen ($"var(--a)") <= 20)%Z /\ texts_within ∅ small_vars 20 /\
  let '(s, valid, b) := substitute_vars_with_valid ∅ small_vars 17 ($"var(--a)") no_budget_used in
  (zlen s <= NS_CSS_VAR_EXPAND_MAX + (NS_CSS_VAR_EXPAND_CALLS + 1) * (20 * 20))%Z /\
  (out_bytes b <= NS_CSS_VAR_EXPAND_MAX)%Z /\ (calls b <= NS_CSS_VAR_EXPAND_CALLS + 1)%Z /\ (valid = true -> overflow b = false).
Proof.
  assert (texts_within ∅ small_vars 20) as W.
  { split; [|intros n pr v E; by rewrite lookup_empty in E]. intros n v. unfold small_vars. cbn [ns_var_map_lookup].
    rewrite !lookup_insert, !lookup_singleton. repeat case_decide; intros [= <-]; apply Z.leb_le; vm_compute; reflexivity. }
  split; [apply Z.leb_le; vm_compute; reflexivity|]. split; [exact W|].
  exact (substitution_bounded ∅ small_vars 20 ($"var(--a)") 16 ltac:(apply Z.leb_le; vm_compute; reflexivity) W).
Defined.

(** [1px var(--b) (var(--c, 2))]. *)
Fixpoint chars (s : bytes) (t : text) : text := match s with [] => t | c :: s' => Char c (chars s' t) end.
Definition small_text : text := chars ($"1px ") (Ref ($"--b") (chars ($" (") (RefOr ($"--c") ($" ") (chars ($"2") Done) (Char ")" Done)))).
Definition small_values (n : bytes) : option text :=
  if n =b $"--b" then Some (RefOr ($"--z") [] (chars ($"solid") Done) Done) else if n =b $"--c" then Some (Ref ($"--y") Done) else None.
Lemma substitution_gives_meaning_witness : exists vars,
  (forall n, ns_var_map_lookup vars n = print <$> small_values n) /\ wf None small_text = true /\
  stands_for small_values NS_VAR_LEVELS small_text = Some (Some ($"1px solid (2)")) /\
  (substitute_vars_with ∅ vars (Some (print small_text)) = Some ($"1px solid (2)") \/
   (overflow (substitute_vars_with_valid ∅ vars NS_VAR_LEVELS (print small_text) no_budget_used).2 = true /\
    substitute_vars_with ∅ vars (Some (print small_text)) = None)).
Proof.
  exists [{[ $"--b" := $"var(--z,solid)"; $"--c" := $"var(--y)" ]}].
  assert (forall n, ns_var_map_lookup [{[ $"--b" := $"var(--z,solid)"; $"--c" := $"var(--y)" ]}] n = print <$> small_values n) as Pr.
  { intros n. unfold small_values. cbn [ns_var_map_lookup]. rewrite lookup_insert, lookup_singleton.
    destruct (bool_decide_reflect (n = $"--b")) as [->|N1]; [reflexivity|]. rewrite decide_False by congruence.
    destruct (bool_decide_reflect (n = $"--c")) as [->|N2]; [reflexivity|]. by rewrite decide_False by congruence. }
  split; [exact Pr|]. split; [vm_compute; reflexivity|]. split; [vm_compute; reflexivity|].
  apply (substitution_gives_meaning small_values ∅ _ small_text (Some ($"1px solid (2)")) glib_ref_spec Pr).
  - intros n t. unfold small_values. destruct (n =b $"--b"); [by intros [= <-]|]. destruct (n =b $"--c"); [by intros [= <-]|done].
  - intros n pr E. by rewrite lookup_empty in E.
  - vm_compute. reflexivity.
  - vm_compute. reflexivity.
Defined.

Lemma last_level_is_free_witness : 0 < 1500 /\ 0 < 1000 /\
  substitute_vars_with_valid ∅ (long_vars 1500 1000) NS_VAR_LEVELS ($"var(--a)") no_budget_used =
  (repeat "y"%char (1500 * 1000), true, {| out_bytes := 0; calls := 17; overflow := false |}).
Proof.
  split; [lia|]. split; [lia|]. apply (last_level_is_free glib_ref ∅ 1500 1000 glib_ref_spec); lia.
Defined.

(** ** Maps *)

(** Declarations of one rule, in the order of its table. *)
Definition one_rule (l : list (bytes * bytes)) : list var_match :=
  imap (fun i '(n, t) => Build_var_match (Build_source NS_CSS_ORIGIN_AUTHOR (0, 1, 0)%Z 0 0 0 7 false (1%Z, 0)) (Z.of_nat i) false n t) l.
Definition parent_vars : ns_var_map := [{[ $"--a" := $"outer" ]}].
Definition own_vars (parent : ns_var_map) (l : list var_match) : ns_var_map := (build_vars_for_element ∅ ∅ 0 parent l).2.
(** [--a: var(--b, inherit)] is what it is inherited to, or its own text, by which of
    the two declarations of the rule its table has first. *)
Example order_matters :
  map (fun l => substitute_vars_with ∅ (own_vars parent_vars (one_rule l)) (Some ($"var(--a)")))
    [[($"--a", $"var(--b, inherit)"); ($"--b", $"1px")]; [($"--b", $"1px"); ($"--a", $"var(--b, inherit)")]] =
  [Some ($"outer"); Some ($"1px")].
Proof. vm_compute. reflexivity. Qed.

Definition pr (n : bytes) (init : option bytes) (inh : bool) : ns_css_property_rule := Build_ns_css_property_rule n init inh (bool_decide (is_Some init)).
Example registered :
  let regs := css_collect_property_rules ∅ [pr ($"--a") None false; pr ($"--w") (Some ($"3px")) true] in
  map (fun t => substitute_vars_with regs (build_vars_for_element regs ∅ 0 parent_vars (one_rule [($"--b", $"var(--w)")])).2 (Some t))
    [$"var(--a)"; $"var(--b)"; $"var(--w)"] = [None; Some ($"3px"); Some ($"3px")].
Proof. vm_compute. reflexivity. Qed.

Definition plain_reg : gmap bytes ns_css_property_rule := {[ $"--a" := pr ($"--a") None true ]}.
Definition small_path : list (list var_match) := [one_rule [($"--a", $"1px")]; []; one_rule [($"--b", $"var(--a) x"); ($"--a", $"unset")]].
Lemma plain_registrations_change_nothing_witness : plain_regs plain_reg /\
  substitute_vars_with plain_reg (vars_down plain_reg [] small_path) (Some ($"var(--b)")) = substitute_vars_with ∅ (vars_down ∅ [] small_path) (Some ($"var(--b)")) /\
  substitute_vars_with ∅ (vars_down ∅ [] small_path) (Some ($"var(--b)")) = Some ($"1px x").
Proof.
  assert (plain_regs plain_reg) as P by (intros n r; unfold plain_reg; rewrite lookup_singleton; case_decide; by intros [= <-]).
  split; [exact P|]. split; [|vm_compute; reflexivity].
  apply (plain_registrations_change_nothing plain_reg small_path (Some ($"var(--b)")) glib_ref_spec P).
Defined.

(** ** The strongest declaration *)

Definition a_var (spec : specificity) (rule : nat) (n t : bytes) : var_match :=
  Build_var_match (Build_source NS_CSS_ORIGIN_AUTHOR spec 0 0 0 (Z.of_nat rule) false (1%Z, rule)) 0 false n t.
Definition weak := a_var (0, 1, 0)%Z 4 ($"--a") ($"1px var(--c, 2px)").
Definition strong := a_var (1, 0, 0)%Z 3 ($"--a") ($" Revert-rule").
Definition other := a_var (1, 1, 0)%Z 2 ($"--b") ($"INHERIT").
(** [--w] is registered, with an initial value and not inherited. *)
Definition wide_regs : gmap bytes ns_css_property_rule := {[ $"--w" := pr ($"--w") (Some ($"3px")) false ]}.
Definition wide_parent : ns_var_map := [{[ $"--a" := $"outer"; $"--w" := $"9px" ]}].
Definition wide_vars := (build_vars_for_element wide_regs ∅ 0 wide_parent [strong; other; weak]).2.
Lemma strongest_custom_property_wins_witness :
  NoDup (map var_rank [strong; other; weak]) /\ strongest_var (names [strong; other; weak] ($"--a")) strong /\
  ends_at [strong; other; weak] strong (Some weak) /\
  value (ns_var_map_lookup wide_vars ($"--a")) = Some ($"1px var(--c, 2px)") /\
  value (ns_var_map_lookup wide_vars ($"--b")) = None /\ value (ns_var_map_lookup wide_vars ($"--w")) = Some ($"3px").
Proof.
  set (l := [strong; other; weak]).
  assert (forall x, x ∈ l <-> x = strong \/ x = other \/ x = weak) as In by (intros x; unfold l; rewrite !elem_of_cons, elem_of_nil; tauto).
  assert (NoDup (map var_rank l)) as N by (apply (bool_decide_unpack _); vm_compute; exact I).
  assert (strongest_var (names l ($"--a")) strong) as S1.
  { split; [by split; [apply In; left|]|]. intros x [[-> | [-> | ->]]%In E] D; [done|discriminate E|reflexivity]. }
  assert (strongest_var (goes_back_to l strong) weak) as S2.
  { split; [by split; [split; [apply In; auto|]|]|]. intros x [[[-> | [-> | ->]]%In E] [W _]] D; [discriminate W|discriminate E|done]. }
  assert (ends_at l strong (Some weak)) as S3 by (apply (ends_back l strong weak); [reflexivity|exact S2|apply ends_here; reflexivity]).
  assert (strongest_var (names l ($"--b")) other) as S4.
  { split; [by split; [apply In; auto|]|]. intros x [[-> | [-> | ->]]%In E] D; [discriminate E|done|discriminate E]. }
  split; [exact N|]. split; [exact S1|]. split; [exact S3|]. unfold wide_vars.
  pose proof (fun n => strongest_custom_property_wins wide_regs ∅ 0 wide_parent l n N ltac:(intros h E; by rewrite lookup_empty in E)) as T.
  split; [|split].
  - destruct (T ($"--a")) as [_ R]. by apply (R strong (Some weak) S1 S3 (steady_digit wide_regs weak "1" ($"px var(--c, 2px)") glib_ref_spec eq_refl eq_refl)).
  - destruct (T ($"--b")) as [_ R]. etrans; [apply (R other (Some other) S4 ltac:(apply ends_here; reflexivity)); by intros C|vm_compute; reflexivity].
  - destruct (T ($"--w")) as [R _]. etrans; [apply R|vm_compute; reflexivity]. intros x [[-> | [-> | ->]]%In E]; discriminate E.
Defined.

(** ** In the cascade *)

(** [color: red] and, in a stronger rule, [color: var(--undefined)]: the pending
    declaration comes to nothing and the weaker one wins. *)
Definition parsed_color (t : bytes) : list ns_css_decl := [Build_ns_css_decl NS_CSS_COLOR t false].
Definition colors (vars : ns_var_map) : option (option bytes) :=
  (fun s => s NS_CSS_COLOR) <$>
    cascade_values
      (resolve_pending_into_matches (synthesized_decls ∅ parsed_color vars)
        [Build_pending_match (v_src strong) 0 (Build_ns_css_pending_decl ($"color") ($"var(--c)") false)]
        [Build_match_entry (v_src weak) 0 false ($"red") NS_CSS_COLOR])
      (fun _ => None) (Some (fun p => if bool_decide (p = NS_CSS_COLOR) then Some ($"green") else None)).
Example invalid_falls_through :
  map colors [[{[ $"--c" := $"blue !important" ]}]; []] = [Some (Some ($"color: blue;}")); Some (Some ($"red"))].
Proof. vm_compute. reflexivity. Qed.
